(* ===== verification/_CoqProject ===== *)
-Q . S2P
Prelude.v
GoStrings.v
GoStrconv.v
Quoting.v
GoUrl.v
Parameters.v
Privileges.v
RoleSql.v
Trace.v
GrantEngine.v
GrantTrace.v
GrantProps.v
GrantTheorems.v
GrantConvergence.v
ApiTypes.v
RolePolicy.v
Objects.v
Settings.v
Memberships.v
MembershipTrace.v
GranteePolicy.v
Grants.v
ObjectGrants.v
ExtensionSql.v
GrantSafety.v
DatabaseGrants.v
GrantPolicyTheorems.v
ObjectSafety.v
ObjectGrantTheorems.v
Pgbackrest.v
PublicPrivileges.v
Extensions.v
ExtensionSafety.v
ExtensionTheorems.v
ExtensionGrants.v
ExtensionGrantSafety.v
ExtensionGrantTheorems.v
ComponentCalls.v
Password.v
PasswordTheorems.v
Connection.v
RoleCleanup.v
RoleReconcile.v
RoleTrace.v
RoleSafety.v
RoleTheorems.v
DatabaseReconcile.v
DatabaseSafety.v
DatabaseTheorems.v
Replication.v
ReplicationReconcile.v
ReplicationTheorems.v
PasswordSyncTheorems.v
StandbyTheorems.v
ReplicationSafety.v
Restore.v
BackupRun.v
BackupRunTheorems.v
RestoreSystem.v
RestoreInvariant.v
RestoreLogic.v
RestorePasses.v
RestoreSafety.v
RestoreTheorems.v
PgConfig.v
PgConfigFacts.v
PgConfigTheorems.v
ArchiveHealth.v
ArchiveTheorems.v
PgHba.v
PodTemplate.v
PodTemplateTheorems.v
Tls.v
TlsTheorems.v
ClusterReconcile.v
ClusterTrace.v
ClusterTheorems.v
BackupJobs.v
SqlClient.v
