(* ===== verification/Prelude.v ===== *)
(** * pgop: a verification development of the PostgreSQL operator

    pgop is a Kubernetes operator in Go. It reconciles Clusters (a PostgreSQL server
    with streaming standbys), Databases, Roles, Backups, BackupRuns and Restores. This
    library models the code in src/internal/controller, the SQL client in
    src/internal/postgres and the data of src/api/v1alpha1, and proves what makes them
    correct. Definitions keep the names of the Go code.

    ** How the code is modelled

    Pure Go functions are functions. A Go error is [error := option gerr] with its
    format and arguments (Prelude); [(T, error)] is [result T]. Code that talks to a
    server or the API server is a program of the state monad [M W] over any world [W],
    and the operations it calls are the fields of a record ([privilegeOps],
    [membershipClient], [ReplicationAPI], [databaseClient], ...), which may fail at any
    call. Theorems about such programs hold for every server: [logged] (Trace) records
    each call with its result, [emits] relates the result of a program to the calls it
    made, and [runs] shows every call justified by the calls before it, both
    compositionally. The Restore reconciler is instead a tree of API calls ([prog] in
    Restore), so that its passes can be interleaved with the rest of the system between
    any two calls (RestoreSystem). Strings are Rocq strings of bytes; integers are [Z],
    with Go's widths where the code converts or parses them (GoStrconv); times are
    nanoseconds; Go maps are [gmap]s, visited in any order only where the code sorts or
    the theorem covers every order. A panic, where one can happen, is an outcome of its
    own (ClusterReconcile).

    ** The files

    Base:
    - Prelude: errors, results, the state monad, lists, sorted sets, canonical lists.
    - GoStrings, GoStrconv: packages strings, strconv, utf8: HasPrefix, Cut, Split, Atoi,
      Itoa, Quote ([%q]) with its inverse properties. GoUrl: net/url escaping and a
      reader of postgresql:// URIs by libpq's rules.
    - Trace: traces of calls, [emits] and [runs], shared by all reconcilers.

    SQL (src/internal/postgres):
    - Quoting (client.go, pgconfig.go): identifiers and literals in SQL, DSN values,
      postgresql.conf values; each reads back.
    - Parameters, Privileges (privileges.go, objects.go): parameter names, the denylist,
      the splitter of identifier lists, the privilege allow-lists, GRANT and REVOKE.
      RoleSql (client.go, dsn.go, role_reassign.go): CREATE and ALTER ROLE, password
      hashing before sending, DSNs. ExtensionSql (extensions.go).
    - Objects (objects.go, role_cleanup.go, role_reassign.go): statements on schema
      objects and before DROP ROLE over a connection.
    - SqlClient (client.go, privileges.go, replication.go, objects.go, extensions.go,
      role_cleanup.go, role_reassign.go, scram.go): the methods of [Client], with their
      queries and row scanning, and from them the records that the reconcilers take;
      then a reader of PostgreSQL's lexical syntax and what the statements read as.

    Roles and Databases:
    - ApiTypes: the API records. RolePolicy (role_policy.go), Memberships
      (role_memberships.go) with MembershipTrace, Settings (settings.go,
      role_settings.go), Password (role_password.go) with PasswordTheorems, Connection
      (pgconn.go, marker_key.go, tls.go): TLS settings, connection strings, the
      connection keys of Secrets.
    - GrantEngine (privilege_grants.go): the ledger of grants: [applyPrivilegeGrants]
      plans, records, grants, revokes. GrantTrace and GrantProps hold its lemmas,
      GrantTheorems and GrantConvergence its theorems.
    - GranteePolicy (grantee_policy.go), Grants (grant_ledgers.go, database_grants.go,
      role_parameter_grants.go) with GrantSafety, DatabaseGrants, GrantPolicyTheorems;
      PublicPrivileges (database_grants.go); ObjectGrants (database_object_grants.go)
      with ObjectSafety and ObjectGrantTheorems: the planner of object grants, the owner
      rules, the ledger, default privileges.
    - Extensions (database_extensions.go) with ExtensionSafety and ExtensionTheorems:
      versions, dependencies, schemas, installation. ExtensionGrants
      (database_extension_grants.go) with ExtensionGrantSafety, ExtensionGrantTheorems.
    - RoleCleanup (role_object_cleanup.go, role_reassign.go) and RoleReconcile
      (role_controller.go): the whole Role reconcile over records of API and PostgreSQL
      operations; ComponentCalls (what the components call), RoleTrace, RoleSafety and
      RoleTheorems. DatabaseReconcile (database_controller.go), DatabaseSafety and
      DatabaseTheorems: the same for Databases.

    Clusters:
    - PgConfig (pgconfig.go) with PgConfigFacts, PgConfigTheorems: postgresql.conf and
      its reloads and restarts. PgHba (replication.go, tls.go): the managed pg_hba.conf
      and what the server decides by it.
    - Pgbackrest (pgbackrest.go, pgpaths.go, backup_physical.go): images, data
      directories, S3 endpoints, repositories, labels, and their theorems. ArchiveHealth
      (archive_health.go, archiver.go) with ArchiveTheorems.
    - Replication, ReplicationReconcile (replication.go) with ReplicationTheorems,
      PasswordSyncTheorems, StandbyTheorems, ReplicationSafety: slots, volumes and pods
      of standbys, the rollout of the replication password, the bounded restarts of a
      primary that rejects the operator's password.
    - PodTemplate (cluster_controller.go, replication.go, tls.go, pgconfig.go,
      pgbackrest.go) with PodTemplateTheorems: containers, volumes, options and scripts
      of the pods, and the convergence of a StatefulSet. Tls (tls.go,
      tls_selfmanaged.go, pgbackrest_tls.go, tls_certmanager.go) with TlsTheorems.
    - ClusterReconcile (cluster_controller.go) with ClusterTrace, ClusterTheorems: the
      whole Cluster reconcile.

    Backups and restores:
    - BackupRun (backuprun_controller.go, backup_physical.go) with BackupRunTheorems.
      BackupJobs (backup_controller.go, backup_physical.go, job_tls.go, and the Jobs of
      restore_controller.go and restore_physical.go): the pods of the Jobs, CronJobs and
      the Backup reconcile.
    - Restore (restore_controller.go, restore_physical.go); RestoreSystem,
      RestoreInvariant, RestoreLogic, RestorePasses, RestoreSafety, RestoreTheorems: one
      Cluster, its physical Restores, their Jobs, the StatefulSet and its pods as a
      transition system, its invariant, a program logic with interference for the
      passes, the theorems and the counterexamples.

    ** How the parts interact

    RoleReconcile calls Connection, RolePolicy, Password, RoleSql, Memberships, Grants,
    Settings and RoleCleanup; DatabaseReconcile calls RolePolicy, Settings, Grants,
    PublicPrivileges, ObjectGrants, Extensions and ExtensionGrants. Grants turns the
    spec into desired ledgers, GranteePolicy filters the grantees, GrantEngine executes
    the plan with the statements of Privileges, and the ledger it returns becomes the
    status. The records these programs take are built from one connection in SqlClient
    ([client_role], [client_database], ...). ClusterReconcile writes what PodTemplate,
    PgHba, PgConfig and Tls derive, and calls [reconcileReplication],
    [reconcileParameters] and [reconcileArchiveHealth]; Restores pause it by the
    annotations that [pausedForRestore] reads, and read the locations that BackupRun
    records for the Jobs of BackupJobs.

    ** What the theorems show

    - Restores: in every reachable state under the operating rules PostgreSQL and the
      restore Jobs never share the data volume, and a volume that a Job left half
      written is not served; the system refines a lock. Three runs show what happens
      when a rule is broken. Confirmations, labels and BackupRun records are exact.
    - The Cluster reconciler: the StatefulSet is written only after everything its pods
      mount, with no instance while a restore has stopped the Cluster; the status is
      truthful; credentials are generated once; certificate restarts are justified.
    - Grants: every GRANT is recorded in the ledger before it is sent; only recorded
      privileges are revoked; a run without an error reaches the declared state and a
      second run is idle; ledgers are bounded and canonical and their keys unambiguous;
      end to end, only accepted grantees get declared privileges, and on schema objects
      only where the owner is in the Cluster's trust domain.
    - SQL text: every statement reads back, by PostgreSQL's lexical rules, as its
      keywords with each name one quoted identifier and each value one literal; a role
      never becomes superuser; a plaintext password is never sent. The uri of a
      credentials Secret reads back as what it was built from.
    - The Role and Database reconcilers: a role or database is created, altered or
      dropped only when it is the object's own, one object wins a name, a Secret is
      written only after PostgreSQL accepted the password, and nothing is done inside a
      database before its ownership is settled. Runs show a leaked role, a leaked database
      and a Secret out of step. Memberships and settings stay within the Cluster's policy.
    - Extensions: CREATE and ALTER EXTENSION run only scripts that the server trusts or
      the policy allows, in schemas only accepted roles can write; dependencies are
      followed to their end; grants reach only eligible members.
    - Passwords: set only from a confirmed read, kept until due, rotated once per
      interval. Replication: one restart at a time, at most
      five restarts without a successful login, slots and volumes
      only of removed standbys.
    - Configuration: the rendered postgresql.conf reads back, a reload or restart for a
      file is recorded (or the failure reported), so that it is not repeated, and the
      report is sound; the rendered pg_hba.conf decides every connection as a table says;
      pod templates are well formed and convergence settles whatever the API server fills
      into unset fields; a CA rotation leaves no client without trust, and a settled
      state is idle.
    - Backups: CronJobs only as declared, a BackupRun's location only from a successful
      pod of its Job, and a dropped WAL segment is reported until a
      later backup covers it.

    ** The restore system

    A reachable state is one reached from a Cluster without Restores by any
    interleaving of API calls of passes (any of which may fail with or without its
    effect), user actions, the Cluster controller scaling the StatefulSet, pods starting
    and stopping, and Jobs starting, stopping, finishing and disappearing. The operating
    rules ([strict] in [env]) are: nobody confirms a Restore while another holds the
    Cluster or has its Job recorded; restore-interrupted is removed by hand only while
    no Job may write; a deleted Cluster is not created again; BackupRuns and Backups
    disappear but do not come back; Jobs are removed after their pods, and an armed
    Restore's only through the API. Reads answer with the current state (the informer
    caches are not modelled), and one pass runs at a time.

    ** Fuel and bounds

    Recursion is structural except in these functions, whose fuel is proved enough:
    [splitIdentifierList] and the SQL reader [sql_tokens] (the length of the text, every
    step consumes a byte), [pem_blocks] (the same), [member_batches] (the number of
    members), and the dependencies of extensions, which need as much fuel as there are
    extensions that control files require. Merge sort is the library's.

    ** Parameters

    The primitives of SCRAM ([ScramPrimitives]), digests ([Sha256], [PasswordDigest],
    [Digests], [RestoreDigest]), X.509 and PEM contents ([X509], [certOps]),
    [unicode.IsPrint] ([UnicodePrint]), [unicode.ToLower] ([UnicodeLower]), the text of an error ([ErrorText]) and the class
    of an API error ([ApiErrors]), the conditions of the API library ([ConditionSetter],
    [ConditionLookup]), RFC 3339 times ([RFC3339]), resource quantities ([Quantities]),
    JSON of a CronJob ([MarshalSpec]), the group of an API version ([GroupVersions]),
    [url.Parse] ([UrlParse]), random bytes, and the answers of the API server and of
    PostgreSQL are arguments. Laws that theorems assume of them are classes of their own
    ([ConditionLaws], [ConditionFrame], [X509Laws], [CertOpsLaws], [LawfulServer]), with
    instances in the examples.

    ** Not modelled

    What catalog queries answer (they run on the server; their texts and the reading of
    their rows are modelled); opening connections ([NewClient] and its dialers, the
    registration of a tls.Config, [probeServerCertificate]); watches, predicates and
    RBAC ([SetupWithManager]); log lines and most Kubernetes events; main.go, generated deep
    copies and the end-to-end test helpers. *)

From stdpp Require Export base tactics numbers list gmap strings sorting pretty.

#[global] Arguments String.append !_ _ / : simpl nomatch.

Declare Scope go_scope.
Delimit Scope go_scope with go.

(** Lemmas that close routine side conditions across the components. *)
Create HintDb go.

(** ** Go errors

    An [error] is a value: [None : option gerr] is [nil]. A formatted error
    keeps its format string and arguments ([fmt.Errorf], [errors.New]); [%w]
    wraps; [conditionError] carries the Available-condition reason
    (internal/controller/role_password.go); a [*pq.Error] carries its SQLSTATE;
    [errors.Join] keeps the list of joined errors. *)
Inductive gerr : Type :=
  | Errorf (fmt : string) (args : list string)
  | Wrapf (fmt : string) (args : list string) (e : gerr)
  | CondErr (reason : string) (e : gerr)
  | PqErr (code message : string)
  | JoinErr (es : list gerr).

Abbreviation error := (option gerr).

(** [errors.Join]: nil errors are dropped; nil when nothing is left. *)
Definition errors_Join (es : list error) : error :=
  match omap id es with
  | [] => None
  | l => Some (JoinErr l)
  end.

(** [errors.AsType[*conditionError]]: the first condition reason found in a
    depth-first walk of the error tree. *)
Fixpoint cond_reason (e : gerr) : option string :=
  match e with
  | CondErr r _ => Some r
  | Wrapf _ _ e => cond_reason e
  | JoinErr es =>
      (fix go es := match es with
                    | [] => None
                    | e :: es => match cond_reason e with
                                 | Some r => Some r
                                 | None => go es
                                 end
                    end) es
  | _ => None
  end.

(** [errors.AsType[*pq.Error]]: the SQLSTATE of the first [*pq.Error]. *)
Fixpoint pq_code (e : gerr) : option string :=
  match e with
  | PqErr c _ => Some c
  | Wrapf _ _ e | CondErr _ e => pq_code e
  | JoinErr es =>
      (fix go es := match es with
                    | [] => None
                    | e :: es => match pq_code e with
                                 | Some r => Some r
                                 | None => go es
                                 end
                    end) es
  | _ => None
  end.

Lemma errors_Join_None es : errors_Join es = None ↔ Forall (.= None) es.
Proof.
  unfold errors_Join. induction es as [|[e|] es IH]; simpl; rewrite ?Forall_cons.
  - by split.
  - naive_solver.
  - rewrite IH. naive_solver.
Qed.

Lemma errors_Join_list (es : list gerr) : errors_Join (Some <$> es) = match es with [] => None | _ => Some (JoinErr es) end.
Proof.
  unfold errors_Join. assert (omap id (Some <$> es) = es) as ->; [|by destruct es].
  induction es as [|e es IH]; [done|]. cbn. by rewrite IH.
Qed.

Lemma errors_Join_cons e es : errors_Join (Some <$> (e :: es)) = Some (JoinErr (e :: es)).
Proof. apply (errors_Join_list (e :: es)). Qed.

Lemma errors_Join_map_Some (es : list gerr) : errors_Join (Some <$> es) = None ↔ es = [].
Proof. destruct es; [done|]. by split. Qed.

Lemma option_list_nil {A} (o : option A) : option_list o = [] ↔ o = None.
Proof. by destruct o. Qed.

(** A Go function returning [(T, error)] whose value is unused on error. *)
Abbreviation result A := (sum A gerr).

Notation "'try' x := m 'in' k" := (match m with inl x => k | inr e => inr e end)
  (at level 200, x pattern, m at level 100, k at level 200) : go_scope.
Open Scope go_scope.

(** ** State-passing programs

    Code that talks to PostgreSQL or to the API server is a function of a world
    [W]: every call returns its Go results and the next world. Go's error
    results stay ordinary values, as in the source. *)
Definition M (W A : Type) : Type := W → A * W.

#[global] Instance M_ret W : MRet (M W) := λ A x w, (x, w).
#[global] Instance M_bind W : MBind (M W) := λ A B f m w, let '(x, w') := m w in f x w'.

(** Partial-correctness triples over the final result and world. *)
Definition hoare {W A} (P : W → Prop) (m : M W A) (Q : A → W → Prop) : Prop :=
  ∀ w, P w → Q (m w).1 (m w).2.

Lemma hoare_ret {W A} (P : W → Prop) (x : A) (Q : A → W → Prop) :
  (∀ w, P w → Q x w) → hoare P (mret x) Q.
Proof. intros H w Hw. by apply H. Qed.

Lemma hoare_bind {W A B} (P : W → Prop) (R : A → W → Prop) (Q : B → W → Prop) (m : M W A) (f : A → M W B) :
  hoare P m R → (∀ x, hoare (R x) (f x) Q) → hoare P (m ≫= f) Q.
Proof.
  intros Hm Hf w Hw. unfold mbind, M_bind. specialize (Hm w Hw).
  destruct (m w) as [x w']. by apply Hf.
Qed.

Lemma hoare_conseq {W A} (P P' : W → Prop) (Q Q' : A → W → Prop) (m : M W A) :
  hoare P' m Q' → (∀ w, P w → P' w) → (∀ x w, Q' x w → Q x w) → hoare P m Q.
Proof. intros H HP HQ w Hw. by apply HQ, H, HP. Qed.

Lemma hoare_pure {W A} (φ : Prop) (P : W → Prop) (Q : A → W → Prop) (m : M W A) :
  (φ → hoare P m Q) → hoare (λ w, φ ∧ P w) m Q.
Proof. intros H w [? ?]. by apply H. Qed.

(** ** Lists of strings: [slices.Sort], [slices.Compact], [slices.Contains] *)

Definition slices_Sort (l : list string) : list string := merge_sort String.le l.

(** [slices.Compact]: consecutive equal elements are replaced by one. *)
Fixpoint slices_Compact (l : list string) : list string :=
  match l with
  | [] => []
  | x :: l' => match l' with
               | [] => [x]
               | y :: _ => if decide (x = y) then slices_Compact l' else x :: slices_Compact l'
               end
  end.

Lemma slices_Compact_cons2 x y l :
  slices_Compact (x :: y :: l) =
    if decide (x = y) then slices_Compact (y :: l) else x :: slices_Compact (y :: l).
Proof. done. Qed.

Definition slices_Contains (l : list string) (x : string) : bool := bool_decide (x ∈ l).

(** [slices.Sorted(maps.Keys(m))]. *)
Definition sorted_keys {A} (m : gmap string A) : list string := slices_Sort (map_to_list m).*1.

Lemma elem_of_slices_Sort x l : x ∈ slices_Sort l ↔ x ∈ l.
Proof. unfold slices_Sort. by rewrite merge_sort_Permutation. Qed.

Lemma slices_Sort_sorted l : StronglySorted String.le (slices_Sort l).
Proof. apply (StronglySorted_merge_sort _). Qed.

Lemma slices_Sort_NoDup l : NoDup (slices_Sort l) ↔ NoDup l.
Proof. unfold slices_Sort. by rewrite merge_sort_Permutation. Qed.

Lemma length_slices_Sort l : length (slices_Sort l) = length l.
Proof. unfold slices_Sort. by rewrite merge_sort_Permutation. Qed.

Lemma elem_of_slices_Compact x l : x ∈ slices_Compact l ↔ x ∈ l.
Proof.
  induction l as [|y [|z l] IH]; [done..|].
  rewrite slices_Compact_cons2. case_decide; [subst|]; rewrite ?elem_of_cons, IH; set_solver.
Qed.

Lemma slices_Compact_sorted l :
  StronglySorted String.le l → StronglySorted String.le (slices_Compact l).
Proof.
  induction l as [|y [|z l] IH]; [done..|]. intros [H1 H2]%StronglySorted_inv.
  rewrite slices_Compact_cons2. case_decide; [by apply IH|].
  constructor; [by apply IH|]. rewrite Forall_forall in *.
  intros u. rewrite elem_of_slices_Compact. auto.
Qed.

(** After sorting, compaction removes every duplicate. *)
Lemma slices_Compact_NoDup l : StronglySorted String.le l → NoDup (slices_Compact l).
Proof.
  induction l as [|y [|z l] IH]; [by constructor | by intros; apply NoDup_singleton |].
  intros [H1 H2]%StronglySorted_inv. rewrite slices_Compact_cons2. case_decide as Hyz; [by apply IH|].
  constructor; [|by apply IH]. rewrite elem_of_slices_Compact.
  intros [->|Hin]%elem_of_cons; [done|].
  apply Forall_cons in H2 as [Hle _]. apply StronglySorted_inv in H1 as [_ H1].
  rewrite Forall_forall in H1. apply Hyz, (anti_symm String.le); [done|by apply H1].
Qed.

Lemma slices_Sort_id l : StronglySorted String.le l → slices_Sort l = l.
Proof.
  intros Hl. eapply (StronglySorted_unique String.le); [apply slices_Sort_sorted|done|].
  unfold slices_Sort. by rewrite merge_sort_Permutation.
Qed.

Lemma slices_Compact_id l : NoDup l → slices_Compact l = l.
Proof.
  induction l as [|x [|y l] IH]; [done..|]. intros [Hx Hl]%NoDup_cons.
  rewrite slices_Compact_cons2, decide_False by (intros ->; apply Hx; by left). by rewrite IH.
Qed.

Lemma slices_Contains_true l x : slices_Contains l x = true ↔ x ∈ l.
Proof. unfold slices_Contains. by rewrite bool_decide_eq_true. Qed.

Lemma slices_Contains_false l x : slices_Contains l x = false ↔ x ∉ l.
Proof. unfold slices_Contains. by rewrite bool_decide_eq_false. Qed.

Lemma elem_of_sorted_keys {A} (m : gmap string A) k : k ∈ sorted_keys m ↔ is_Some (m !! k).
Proof.
  unfold sorted_keys. rewrite elem_of_slices_Sort, list_elem_of_fmap. split.
  - intros ([k' x] & -> & H%elem_of_map_to_list). by eexists.
  - intros [x H]. exists (k, x). by rewrite elem_of_map_to_list.
Qed.

Lemma sorted_keys_NoDup {A} (m : gmap string A) : NoDup (sorted_keys m).
Proof. apply slices_Sort_NoDup, NoDup_fst_map_to_list. Qed.

Lemma sorted_keys_sorted {A} (m : gmap string A) : StronglySorted String.le (sorted_keys m).
Proof. apply slices_Sort_sorted. Qed.

(** Two sorted duplicate-free lists with the same elements are equal. *)
Lemma sorted_NoDup_ext (l k : list string) :
  StronglySorted String.le l → StronglySorted String.le k → NoDup l → NoDup k →
  (∀ x, x ∈ l ↔ x ∈ k) → l = k.
Proof.
  intros Hl Hk Nl Nk Heq. eapply (StronglySorted_unique String.le); [done..|].
  by apply NoDup_Permutation.
Qed.

Lemma sorted_keys_dom_ext {A B} (m : gmap string A) (n : gmap string B) :
  dom m = dom n → sorted_keys m = sorted_keys n.
Proof.
  intros Hd. apply sorted_NoDup_ext; auto using sorted_keys_sorted, sorted_keys_NoDup.
  intros k. rewrite !elem_of_sorted_keys, <- !elem_of_dom. by rewrite Hd.
Qed.

#[export] Hint Resolve slices_Sort_sorted slices_Compact_sorted slices_Compact_NoDup
  sorted_keys_NoDup sorted_keys_sorted : go.

(** Elements of a list with distinct keys are determined by their key. *)
Lemma NoDup_fmap_elem {A B} (f : A → B) l x y :
  NoDup (f <$> l) → x ∈ l → y ∈ l → f x = f y → x = y.
Proof.
  intros Hn [i Hi]%list_elem_of_lookup [j Hj]%list_elem_of_lookup Hf.
  assert (i = j) as ->; [|congruence].
  eapply NoDup_lookup; [done|by rewrite list_lookup_fmap, Hi|by rewrite list_lookup_fmap, Hj; simpl; rewrite Hf].
Qed.

Lemma filter_none {A} (P : A → Prop) `{∀ x, Decision (P x)} (l : list A) : (∀ x, x ∈ l → ¬ P x) → filter P l = [].
Proof.
  intros Hl. destruct (filter P l) as [|x k] eqn:E; [done|]. exfalso.
  assert (x ∈ filter P l) as [? ?]%list_elem_of_filter by (rewrite E; by left). by apply (Hl x).
Qed.

Lemma head_filter_None {A} (P : A → Prop) `{∀ x, Decision (P x)} (l : list A) x : head (filter P l) = None → x ∈ l → ¬ P x.
Proof.
  intros Hh Hx Hp. assert (x ∈ filter P l) as Hin by (by apply list_elem_of_filter).
  destruct (filter P l); [by apply elem_of_nil in Hin|done].
Qed.

Lemma head_filter_Some {A} (Q : A → Prop) `{∀ x, Decision (Q x)} l x : head (filter Q l) = Some x → x ∈ l ∧ Q x.
Proof.
  intros Hs. assert (x ∈ filter Q l) as Hf by (destruct (filter Q l); [done|]; injection Hs as ->; by left).
  apply list_elem_of_filter in Hf. naive_solver.
Qed.

(** ** Tactics *)

(** Case analysis on the [bool] or [option] an [if]/[match] scrutinises,
    keeping the equation. *)
Ltac split_match :=
  repeat case_match; simplify_eq/=.


(** Decidable goals on concrete data. *)
Ltac by_decide := apply (bool_decide_unpack _); vm_compute; exact I.
