(* ===== verification/GoStrings.v ===== *)
(** * GoStrings: the parts of Go's [strings], [strconv] and [unicode/utf8] that
    pgop uses

    A Go string is a byte string; [string] holds its bytes. Case mappings act on
    ASCII letters and on the few non-ASCII runes whose image is an ASCII letter
    (U+0130, U+0131, U+017F, U+212A); every other non-ASCII byte is kept, so a
    result is exact on ASCII input and equals an ASCII word exactly when Go's
    result does. [strconv.Quote] asks [strconv.IsPrint] about non-ASCII runes:
    that table is the class [UnicodePrint]. *)

From S2P Require Import Prelude.
From Stdlib Require Import Ascii.
Open Scope Z_scope.

(** The value of a byte. *)
Definition bz (c : ascii) : Z := Z.of_N (N_of_ascii c).

Lemma bz_inj c d : bz c = bz d → c = d.
Proof.
  unfold bz. intros H%N2Z.inj. by rewrite <- (ascii_N_embedding c), <- (ascii_N_embedding d), H.
Qed.

Lemma bz_range c : 0 ≤ bz c < 256.
Proof. unfold bz. pose proof (N_ascii_bounded c). lia. Qed.

(** The byte with value [z] (0 ≤ z < 256). *)
Definition byte_of (z : Z) : ascii := ascii_of_N (Z.to_N z).

Lemma bz_byte_of z : 0 ≤ z < 256 → bz (byte_of z) = z.
Proof. intros H. unfold bz, byte_of. rewrite N_ascii_embedding; lia. Qed.

Definition dquote : ascii := "034"%char.
Definition squote : ascii := "'"%char.
Definition backslash : ascii := "\"%char.
Definition newline : ascii := "010"%char.

(** One-byte string. *)
Definition str1 (c : ascii) : string := String c "".

(** ** Basic laws of [+:+] *)
Lemma app_assoc_s (a b c : string) : (a +:+ b) +:+ c = a +:+ (b +:+ c).
Proof. by induction a as [|x a IH]; simpl; rewrite ?IH. Qed.
Lemma app_nil_r_s (a : string) : a +:+ "" = a.
Proof. by induction a as [|x a IH]; simpl; rewrite ?IH. Qed.
Lemma length_app_s (a b : string) : String.length (a +:+ b) = (String.length a + String.length b)%nat.
Proof. by induction a as [|x a IH]; simpl; rewrite ?IH. Qed.

(** Appending is injective on the left when the left parts have one length. *)
Lemma app_inj_length_s (a b x y : string) :
  String.length a = String.length b → a +:+ x = b +:+ y → a = b ∧ x = y.
Proof.
  revert b. induction a as [|c a IH]; intros [|d b]; simpl; intros ??; simplify_eq; [done|].
  by edestruct IH as [-> ->].
Qed.

Lemma app_cancel_s (a x y : string) : a +:+ x = a +:+ y → x = y.
Proof. intros H. by apply (app_inj_length_s a a). Qed.

Lemma app_eq_self_s (a b : string) : a = b +:+ a → b = "".
Proof.
  intros H%(f_equal String.length). rewrite length_app_s in H.
  destruct b; simpl in *; [done|lia].
Qed.

(** ** Prefixes, cutting, splitting, joining *)

Fixpoint CutPrefix (s p : string) {struct p} : option string :=
  match p, s with
  | EmptyString, _ => Some s
  | String a p, String b s => if decide (a = b) then CutPrefix s p else None
  | String _ _, EmptyString => None
  end.

Lemma CutPrefix_Some s p r : CutPrefix s p = Some r ↔ s = p +:+ r.
Proof.
  revert s. induction p as [|a p IH]; intros s; simpl; [by split; congruence|].
  destruct s as [|b s]; [by split|]. case_decide; [subst|by split; congruence].
  rewrite IH. split; congruence.
Qed.

Definition HasPrefix (s p : string) : bool := match CutPrefix s p with Some _ => true | None => false end.

Lemma HasPrefix_spec s p : HasPrefix s p = true ↔ ∃ r, s = p +:+ r.
Proof.
  unfold HasPrefix. destruct (CutPrefix s p) as [r|] eqn:E.
  - apply CutPrefix_Some in E. split; eauto.
  - split; [done|]. intros [r H%CutPrefix_Some]. congruence.
Qed.

(** [strings.Cut(s, sep)] for a one-byte separator; [None] when not found. *)
Fixpoint Cut (s : string) (sep : ascii) : option (string * string) :=
  match s with
  | EmptyString => None
  | String c s => if decide (c = sep) then Some ("", s)
                  else prod_map (String c) id <$> Cut s sep
  end.

(** [strings.Split(s, sep)] for a one-byte separator. *)
Fixpoint Split (s : string) (sep : ascii) : list string :=
  match s with
  | EmptyString => [""]
  | String c s =>
      if decide (c = sep) then "" :: Split s sep
      else match Split s sep with
           | [] => [str1 c]
           | w :: ws => String c w :: ws
           end
  end.

Fixpoint Join (l : list string) (sep : string) : string :=
  match l with
  | [] => ""
  | [x] => x
  | x :: l => x +:+ sep +:+ Join l sep
  end.

Lemma Join_cons2 x y l sep : Join (x :: y :: l) sep = x +:+ sep +:+ Join (y :: l) sep.
Proof. done. Qed.

(** [strings.IndexByte]/[strings.LastIndexByte]-style searches ([None] is -1). *)
Fixpoint Index (s : string) (b : ascii) : option Z :=
  match s with
  | EmptyString => None
  | String c s => if decide (c = b) then Some 0 else Z.succ <$> Index s b
  end.

Fixpoint LastIndex (s : string) (b : ascii) : option Z :=
  match s with
  | EmptyString => None
  | String c s => match LastIndex s b with
                  | Some i => Some (Z.succ i)
                  | None => if decide (c = b) then Some 0 else None
                  end
  end.

Fixpoint ContainsByte (s : string) (b : ascii) : bool :=
  match s with
  | EmptyString => false
  | String c s => bool_decide (c = b) || ContainsByte s b
  end.

(** [strings.ContainsAny(s, chars)] for ASCII [chars]. *)
Fixpoint ContainsAny (s : string) (chars : string) : bool :=
  match s with
  | EmptyString => false
  | String c s => ContainsByte chars c || ContainsAny s chars
  end.

Lemma Cut_app (a b : string) sep : ContainsByte a sep = false → Cut (a +:+ String sep b) sep = Some (a, b).
Proof.
  intros H. induction a as [|c a IH]; simpl; [by rewrite decide_True|].
  simpl in H. apply orb_false_iff in H as [H%bool_decide_eq_false H'].
  rewrite decide_False by done. by rewrite IH.
Qed.

Lemma Cut_Some (s : string) sep a b : Cut s sep = Some (a, b) → s = a +:+ String sep b ∧ ContainsByte a sep = false.
Proof.
  revert a. induction s as [|c s IH]; intros a; simpl; [done|]. case_decide as Hc.
  - intros [= <- <-]. by subst.
  - intros Hs. apply fmap_Some in Hs as ([a' b'] & Hs & [= -> ->]). destruct (IH _ Hs) as [-> Ha]. split; [done|].
    simpl. by rewrite bool_decide_eq_false_2.
Qed.

Lemma Split_no s sep : ContainsByte s sep = false → Split s sep = [s].
Proof.
  induction s as [|c s IH]; [done|]. simpl. intros [Hc%bool_decide_eq_false H]%orb_false_iff.
  rewrite decide_False by done. by rewrite IH.
Qed.

Lemma Split_app s t sep : ContainsByte s sep = false → Split (s +:+ String sep t) sep = s :: Split t sep.
Proof.
  induction s as [|c s IH]; simpl; [by rewrite decide_True|]. intros [Hc%bool_decide_eq_false H]%orb_false_iff.
  rewrite decide_False by done. by rewrite IH.
Qed.

Lemma ContainsByte_app_s s t b : ContainsByte (s +:+ t) b = ContainsByte s b || ContainsByte t b.
Proof. induction s as [|c s IH]; [done|]. simpl. by rewrite IH, orb_assoc. Qed.

(** The string with every byte replaced by a string: [strings.ReplaceAll] of one
    byte, and [strings.NewReplacer] over one-byte patterns. *)
Fixpoint map_bytes (f : ascii → string) (s : string) : string :=
  match s with
  | EmptyString => ""
  | String c s => f c +:+ map_bytes f s
  end.

Definition ReplaceAll (s : string) (old : ascii) (new : string) : string :=
  map_bytes (λ c, if decide (c = old) then new else str1 c) s.

(** [s[:n]] and [s[n:]]. *)
Fixpoint stake (n : nat) (s : string) : string :=
  match n, s with
  | S n, String c s => String c (stake n s)
  | _, _ => ""
  end.
Fixpoint sdrop (n : nat) (s : string) : string :=
  match n, s with
  | S n, String _ s => sdrop n s
  | _, _ => s
  end.

Lemma stake_sdrop n s : stake n s +:+ sdrop n s = s.
Proof. revert s. induction n as [|n IH]; intros [|c s]; simpl; rewrite ?IH; done. Qed.

Lemma length_sdrop_le n s : (String.length (sdrop n s) ≤ String.length s)%nat.
Proof. revert s. induction n as [|n IH]; intros [|c s]; simpl; auto with lia. Qed.

(** Whether every byte satisfies [p]. *)
Fixpoint sforall (p : ascii → bool) (s : string) : bool :=
  match s with
  | EmptyString => true
  | String c s => p c && sforall p s
  end.

Lemma sforall_app p s t : sforall p (s +:+ t) = sforall p s && sforall p t.
Proof. induction s as [|c s IH]; simpl; [done|]. by rewrite IH, andb_assoc. Qed.

Lemma sforall_impl (p q : ascii → bool) s :
  (∀ c, p c = true → q c = true) → sforall p s = true → sforall q s = true.
Proof. intros H. induction s as [|c s IH]; simpl; [done|]. rewrite !andb_true_iff. naive_solver. Qed.

Lemma map_bytes_id f s : sforall (λ c, bool_decide (f c = str1 c)) s = true → map_bytes f s = s.
Proof.
  induction s as [|c s IH]; simpl; [done|].
  rewrite andb_true_iff, bool_decide_eq_true. intros [-> Hs]. simpl. by rewrite IH.
Qed.

(** ** Unicode white space and case mappings *)

(** Width in bytes of the Unicode space [s] starts with; 0 when it starts with
    none ([unicode.IsSpace]). *)
Definition space_width (s : string) : nat :=
  match s with
  | EmptyString => 0
  | String a s =>
      let x := bz a in
      if (x =? 32) || ((9 <=? x) && (x <=? 13)) then 1%nat
      else match s with
           | EmptyString => 0%nat
           | String b s =>
               let y := bz b in
               if (x =? 194) && ((y =? 133) || (y =? 160)) then 2%nat
               else match s with
                    | EmptyString => 0%nat
                    | String c _ =>
                        let z := bz c in
                        if ((x =? 225) && (y =? 154) && (z =? 128))
                           || ((x =? 226) && (y =? 128)
                               && ((z <=? 138) && (128 <=? z) || (z =? 168) || (z =? 169) || (z =? 175)))
                           || ((x =? 226) && (y =? 129) && (z =? 159))
                           || ((x =? 227) && (y =? 128) && (z =? 128))
                        then 3%nat else 0%nat
                    end
           end
  end.

(** [strings.Fields]: the maximal runs of non-space. [skip] counts the bytes
    of the current space still to be passed over, [cur] is the reversed run. *)
Fixpoint fields_go (cur : string) (skip : nat) (s : string) : list string :=
  let flush := if decide (cur = "") then [] else [String.rev cur] in
  match s with
  | EmptyString => flush
  | String c s' =>
      match skip with
      | S skip => fields_go cur skip s'
      | O => match space_width s with
             | O => fields_go (String c cur) 0 s'
             | S w => flush ++ fields_go "" w s'
             end
      end
  end.
Definition Fields (s : string) : list string := fields_go "" 0 s.

(** [strings.TrimSpace(s) == ""]. *)
Definition is_blank (s : string) : bool := bool_decide (Fields s = []).

(** Byte-wise case mapping, except for the multi-byte runes [special] maps to
    an ASCII letter. *)
Fixpoint case_go (special : string → option (ascii * nat)) (f : ascii → ascii) (skip : nat) (s : string) : string :=
  match s with
  | EmptyString => ""
  | String c s' =>
      match skip with
      | S skip => case_go special f skip s'
      | O => match special s with
             | Some (d, w) => String d (case_go special f w s')
             | None => String (f c) (case_go special f 0 s')
             end
      end
  end.

Definition is_upper (c : ascii) : bool := (65 <=? bz c) && (bz c <=? 90).
Definition is_lower (c : ascii) : bool := (97 <=? bz c) && (bz c <=? 122).
Definition is_digit (c : ascii) : bool := (48 <=? bz c) && (bz c <=? 57).
Definition lower (c : ascii) : ascii := if is_upper c then byte_of (bz c + 32) else c.
Definition upper (c : ascii) : ascii := if is_lower c then byte_of (bz c - 32) else c.

(** The two- and three-byte sequences a case mapping sends into ASCII. *)
Definition special2 (x y : Z) (d : ascii) (s : string) : option (ascii * nat) :=
  match s with
  | String a (String b _) => if (bz a =? x) && (bz b =? y) then Some (d, 1%nat) else None
  | _ => None
  end.
Definition special3 (x y z : Z) (d : ascii) (s : string) : option (ascii * nat) :=
  match s with
  | String a (String b (String c _)) =>
      if (bz a =? x) && (bz b =? y) && (bz c =? z) then Some (d, 2%nat) else None
  | _ => None
  end.
Definition or_else {A} (o p : option A) : option A := match o with Some _ => o | None => p end.

(** For comparison with ASCII text: U+0130 lowers to i, U+212A to k; U+0131 uppers to I,
    U+017F to S; U+017F folds with s, U+212A with k; no other rune outside ASCII maps into
    it, and such runes are kept as they are. ([strings_ToLower] of GoStrconv maps them.) *)
Definition ToLower (s : string) : string :=
  case_go (λ s, or_else (special2 196 176 "i"%char s) (special3 226 132 170 "k"%char s)) lower 0 s.
Definition ToUpper (s : string) : string :=
  case_go (λ s, or_else (special2 196 177 "I"%char s) (special2 197 191 "S"%char s)) upper 0 s.
Definition fold_case (s : string) : string :=
  case_go (λ s, or_else (special2 197 191 "s"%char s) (special3 226 132 170 "k"%char s)) lower 0 s.

(** [strings.EqualFold(s, t)], exact when [s] or [t] is ASCII. *)
Definition EqualFold (s t : string) : bool := bool_decide (fold_case s = fold_case t).

Definition is_ascii (s : string) : bool := sforall (λ c, bz c <? 128) s.

(** On ASCII text the case mappings are byte-wise. *)
Fixpoint smap (f : ascii → ascii) (s : string) : string :=
  match s with
  | EmptyString => ""
  | String c s => String (f c) (smap f s)
  end.

Lemma case_go_ascii special f s :
  (∀ c s, bz c < 128 → special (String c s) = None) → is_ascii s = true → case_go special f 0 s = smap f s.
Proof.
  intros Hs. induction s as [|c s IH]; [done|]. unfold is_ascii. cbn [sforall case_go smap].
  rewrite andb_true_iff, Z.ltb_lt. intros [Hc H]. rewrite Hs by done. f_equal. by apply IH.
Qed.

Lemma special2_ascii x y d c s : 128 <= x -> bz c < 128 → special2 x y d (String c s) = None.
Proof.
  intros Hx Hc. destruct s; cbn [special2]; [done|].
  by rewrite (proj2 (Z.eqb_neq (bz c) x)) by lia.
Qed.
Lemma special3_ascii x y z d c s : 128 <= x -> bz c < 128 → special3 x y z d (String c s) = None.
Proof.
  intros Hx Hc. destruct s as [|? [|??]]; cbn [special3]; [done..|].
  by rewrite (proj2 (Z.eqb_neq (bz c) x)) by lia.
Qed.

Lemma ToLower_ascii s : is_ascii s = true → ToLower s = smap lower s.
Proof. apply case_go_ascii. intros c t Hc. by rewrite special2_ascii, special3_ascii by lia. Qed.
Lemma ToUpper_ascii s : is_ascii s = true → ToUpper s = smap upper s.
Proof. apply case_go_ascii. intros c t Hc. by rewrite !special2_ascii by lia. Qed.
Lemma fold_case_ascii s : is_ascii s = true → fold_case s = smap lower s.
Proof. apply case_go_ascii. intros c t Hc. by rewrite special2_ascii, special3_ascii by lia. Qed.

Lemma length_smap f s : String.length (smap f s) = String.length s.
Proof. induction s; simpl; auto. Qed.
Lemma sforall_smap p f s : sforall p (smap f s) = sforall (λ c, p (f c)) s.
Proof. induction s as [|c s IH]; simpl; [done|]. by rewrite IH. Qed.
Lemma smap_id_on f s : sforall (λ c, bool_decide (f c = c)) s = true → smap f s = s.
Proof.
  induction s as [|c s IH]; simpl; [done|]. rewrite andb_true_iff, bool_decide_eq_true.
  intros [-> ?]. by rewrite IH.
Qed.

Lemma lower_cases c : is_upper c = true ∧ bz (lower c) = bz c + 32 ∨ is_upper c = false ∧ lower c = c.
Proof.
  unfold lower. destruct (is_upper c) eqn:E; [left|by right]. split; [done|].
  unfold is_upper in E. rewrite andb_true_iff, !Z.leb_le in E. apply bz_byte_of. lia.
Qed.

Lemma lower_not_upper c : is_upper (lower c) = false.
Proof.
  destruct (lower_cases c) as [[H E]|[H ->]]; [|done].
  unfold is_upper in *. rewrite andb_true_iff, !Z.leb_le in H. rewrite E.
  apply andb_false_iff. right. apply Z.leb_gt. lia.
Qed.

Lemma lower_idemp c : lower (lower c) = lower c.
Proof. unfold lower at 1. by rewrite lower_not_upper. Qed.
