(* ===== verification/GoStrconv.v ===== *)
(** * GoStrconv: integer formatting and parsing, UTF-8 decoding and
    [strconv.Quote], with their round trips *)

From S2P Require Import Prelude GoStrings.
From Stdlib Require Import Ascii.
Open Scope Z_scope.

(** ** [strconv.Itoa] and [strconv.Atoi] *)

Definition min_int64 : Z := - 2 ^ 63.
Definition max_int64 : Z := 2 ^ 63 - 1.
Definition in_int64 (z : Z) : bool := (min_int64 <=? z) && (z <=? max_int64).

Definition Itoa (z : Z) : string := pretty z.

Fixpoint parse_digits (acc : Z) (s : string) : Z :=
  match s with
  | EmptyString => acc
  | String c s => parse_digits (10 * acc + (bz c - 48)) s
  end.

(** The sign and the rest of a decimal number. *)
Definition split_sign (s : string) : bool * string :=
  match s with
  | String c r => if decide (c = "-"%char) then (true, r)
                  else if decide (c = "+"%char) then (false, r) else (false, s)
  | EmptyString => (false, s)
  end.

(** [strconv.Atoi] and [strconv.ParseInt(s, 10, 64)] on a 64-bit platform;
    [None] is an error (syntax or range). *)
Definition Atoi (s : string) : option Z :=
  let '(neg, digits) := split_sign s in
  if bool_decide (digits = "") || negb (sforall is_digit digits) then None
  else let v := parse_digits 0 digits in
       let z := if neg then - v else v in
       if in_int64 z then Some z else None.

Lemma bz_pretty_char x : (x < 10)%N → bz (pretty_N_char x) = 48 + Z.of_N x.
Proof.
  intros H. assert (x ∈ [0;1;2;3;4;5;6;7;8;9]%N) as Hx.
  { rewrite !elem_of_cons. lia. }
  repeat (apply elem_of_cons in Hx as [->|Hx]; [by vm_compute|]). by apply elem_of_nil in Hx.
Qed.

Lemma parse_digits_pretty x s : parse_digits 0 (pretty_N_go x s) = parse_digits (Z.of_N x) s.
Proof.
  revert s. induction (N.lt_wf_0 x) as [x _ IH]. intros s.
  destruct (decide (x = 0%N)) as [->|Hx]; [by rewrite pretty_N_go_0|].
  rewrite pretty_N_go_step by lia. rewrite IH by (apply N.div_lt; lia).
  pose proof (N.mod_lt x 10 ltac:(done)). cbn [parse_digits].
  rewrite bz_pretty_char by done. f_equal.
  pose proof (N.div_mod x 10 ltac:(done)). lia.
Qed.

Lemma digits_pretty x s : sforall is_digit s = true → sforall is_digit (pretty_N_go x s) = true.
Proof.
  revert s. induction (N.lt_wf_0 x) as [x _ IH]. intros s Hs.
  destruct (decide (x = 0%N)) as [->|Hx]; [by rewrite pretty_N_go_0|].
  rewrite pretty_N_go_step by lia. apply IH; [apply N.div_lt; lia|].
  pose proof (N.mod_lt x 10 ltac:(done)). cbn [sforall]. rewrite Hs, andb_true_r.
  unfold is_digit. rewrite bz_pretty_char by done. rewrite andb_true_iff, !Z.leb_le.
  revert H. generalize (x `mod` 10)%N. lia.
Qed.

Lemma pretty_N_go_ne x s : s ≠ "" → pretty_N_go x s ≠ "".
Proof.
  revert s. induction (N.lt_wf_0 x) as [x _ IH]. intros s Hs.
  destruct (decide (x = 0%N)) as [->|Hx]; [by rewrite pretty_N_go_0|].
  rewrite pretty_N_go_step by lia. apply IH; [apply N.div_lt; lia|done].
Qed.

(** A formatted natural number is a non-empty digit string that parses back. *)
Lemma pretty_N_digits x :
  pretty x ≠ "" ∧ sforall is_digit (pretty x) = true ∧ parse_digits 0 (pretty x) = Z.of_N x.
Proof.
  unfold pretty, pretty_N. case_decide as Hx; [subst; by vm_compute|].
  split; [|split; [by apply digits_pretty|by rewrite parse_digits_pretty]].
  rewrite pretty_N_go_step by lia. by apply pretty_N_go_ne.
Qed.

Lemma Itoa_nonneg z : 0 ≤ z → Itoa z = pretty (Z.to_N z).
Proof. intros Hz. unfold Itoa. by destruct z. Qed.

Lemma Itoa_digits z :
  0 ≤ z → Itoa z ≠ "" ∧ sforall is_digit (Itoa z) = true ∧ parse_digits 0 (Itoa z) = z.
Proof.
  intros Hz. rewrite Itoa_nonneg by done.
  destruct (pretty_N_digits (Z.to_N z)) as (? & ? & H). rewrite H. by rewrite Z2N.id.
Qed.

Lemma split_sign_digits s : sforall is_digit s = true → split_sign s = (false, s).
Proof.
  destruct s as [|c s]; [done|]. cbn [sforall split_sign]. rewrite andb_true_iff. intros [Hc _].
  case_decide; [by subst|]. case_decide; [by subst|done].
Qed.

Lemma Atoi_Itoa z : min_int64 ≤ z ≤ max_int64 → Atoi (Itoa z) = Some z.
Proof.
  intros Hz. unfold Atoi. destruct (decide (0 ≤ z)) as [H0|H0].
  - destruct (Itoa_digits z H0) as (Hne & Hd & Hp).
    rewrite split_sign_digits by done. rewrite Hd, Hp. rewrite bool_decide_false by done.
    simpl. unfold in_int64. rewrite (proj2 (Z.leb_le _ _)), (proj2 (Z.leb_le _ _)) by lia. done.
  - destruct z as [|p|p]; [lia..|]. change (Itoa (Z.neg p)) with (String "-" (pretty (N.pos p))).
    destruct (pretty_N_digits (N.pos p)) as (Hne & Hd & Hp).
    cbn [split_sign]. rewrite decide_True by done. rewrite Hd, Hp, bool_decide_false by done.
    simpl. change (- Z.pos p) with (Z.neg p).
    unfold in_int64. rewrite (proj2 (Z.leb_le _ _)), (proj2 (Z.leb_le _ _)) by lia. done.
Qed.

Lemma digits_no_byte s sep : is_digit sep = false → sforall is_digit s = true → ContainsByte s sep = false.
Proof.
  intros Hs. induction s as [|c s IH]; [done|]. cbn [sforall ContainsByte].
  intros [Hc H]%andb_true_iff. rewrite IH, orb_false_r by done.
  rewrite bool_decide_eq_false. intros ->. congruence.
Qed.

Lemma Itoa_no_byte z sep : is_digit sep = false → sep ≠ "-"%char → ContainsByte (Itoa z) sep = false.
Proof.
  intros Hd Hm. destruct (decide (0 ≤ z)) as [Hz|Hz].
  - apply digits_no_byte; [done|]. by apply Itoa_digits.
  - destruct z as [|p|p]; [lia..|]. change (Itoa (Z.neg p)) with (String "-"%char (pretty (N.pos p))).
    cbn [ContainsByte]. rewrite digits_no_byte by (done || apply pretty_N_digits).
    by rewrite bool_decide_false.
Qed.

Lemma Itoa_inj x y : Itoa x = Itoa y → x = y.
Proof. apply (inj pretty). Qed.

(** ** UTF-8 decoding ([utf8.DecodeRuneInString]) *)

Definition cont (z : Z) : bool := (128 <=? z) && (z <=? 191).

Definition decode2 (x y : Z) : option Z :=
  if (194 <=? x) && (x <=? 223) && cont y then Some ((x - 192) * 64 + (y - 128)) else None.
Definition decode3 (x y z : Z) : option Z :=
  if (224 <=? x) && (x <=? 239) && cont y && cont z
     && ((negb (x =? 224)) || (160 <=? y)) && ((negb (x =? 237)) || (y <=? 159))
  then Some ((x - 224) * 4096 + (y - 128) * 64 + (z - 128)) else None.
Definition decode4 (x y z w : Z) : option Z :=
  if (240 <=? x) && (x <=? 244) && cont y && cont z && cont w
     && ((negb (x =? 240)) || (144 <=? y)) && ((negb (x =? 244)) || (y <=? 143))
  then Some ((x - 240) * 262144 + (y - 128) * 4096 + (z - 128) * 64 + (w - 128)) else None.

(** The rune [s] starts with and its width; [None] for an invalid encoding
    (Go reports RuneError with width 1). *)
Definition decode_rune (s : string) : option (Z * nat) :=
  match s with
  | EmptyString => None
  | String a s =>
      if bz a <? 128 then Some (bz a, 1%nat)
      else match s with
           | EmptyString => None
           | String b s =>
               match decode2 (bz a) (bz b) with
               | Some r => Some (r, 2%nat)
               | None =>
                   match s with
                   | EmptyString => None
                   | String c s =>
                       match decode3 (bz a) (bz b) (bz c) with
                       | Some r => Some (r, 3%nat)
                       | None =>
                           match s with
                           | EmptyString => None
                           | String d _ => (λ r, (r, 4%nat)) <$> decode4 (bz a) (bz b) (bz c) (bz d)
                           end
                       end
                   end
               end
           end
  end.

(** [utf8.ValidString]/[utf8.Valid]: every position decodes. *)
Fixpoint valid_go (skip : nat) (s : string) : bool :=
  match s with
  | EmptyString => true
  | String _ s' =>
      match skip with
      | S skip => valid_go skip s'
      | O => match decode_rune s with
             | Some (_, w) => valid_go (pred w) s'
             | None => false
             end
      end
  end.
Definition utf8_Valid (s : string) : bool := valid_go 0 s.

(** [utf8.AppendRune]: an invalid rune is written as U+FFFD. *)
Definition RuneError : Z := 65533.
Definition encode3 (r : Z) : string :=
  String (byte_of (224 + r `div` 4096)) (String (byte_of (128 + r `div` 64 `mod` 64)) (str1 (byte_of (128 + r `mod` 64)))).
Definition encode_rune (r : Z) : string :=
  if (0 <=? r) && (r <? 128) then str1 (byte_of r)
  else if (128 <=? r) && (r <? 2048) then String (byte_of (192 + r `div` 64)) (str1 (byte_of (128 + r `mod` 64)))
  else if (r <? 0) || ((55296 <=? r) && (r <=? 57343)) || (1114111 <? r) then encode3 RuneError
  else if r <? 65536 then encode3 r
  else String (byte_of (240 + r `div` 262144)) (String (byte_of (128 + r `div` 4096 `mod` 64))
         (String (byte_of (128 + r `div` 64 `mod` 64)) (str1 (byte_of (128 + r `mod` 64))))).

(** [unicode.ToLower] on runes above 0x7f (a table of the Go library). *)
Class UnicodeLower := unicode_ToLower : Z → Z.

(** [strings.ToLower]: the text with each rune mapped; an invalid byte reads as U+FFFD. *)
Section lower_text.
Context {UL : UnicodeLower}.

Definition lower_rune (r : Z) : string := if r <? 128 then str1 (lower (byte_of r)) else encode_rune (unicode_ToLower r).

Fixpoint lower_go (skip : nat) (s : string) : string :=
  match s with
  | EmptyString => ""
  | String _ s' =>
      match skip with
      | S skip => lower_go skip s'
      | O => match decode_rune s with
             | Some (r, w) => lower_rune r +:+ lower_go (pred w) s'
             | None => lower_rune RuneError +:+ lower_go 0 s'
             end
      end
  end.

Definition strings_ToLower (s : string) : string := if is_ascii s then smap lower s else lower_go 0 s.
End lower_text.

(** [strconv.IsPrint] on runes above 0x7f (a table of the Go library). *)
Class UnicodePrint := is_print : Z → bool.

(** ** [strconv.Quote] *)

Definition hex_digit (z : Z) : ascii := byte_of (if z <? 10 then 48 + z else 87 + z).

(** [n] lower-case hexadecimal digits of [z]. *)
Fixpoint hex (n : nat) (z : Z) : string :=
  match n with
  | O => ""
  | S n => String (hex_digit (z `div` 16 ^ Z.of_nat n `mod` 16)) (hex n z)
  end.

Section quote.
Context `{UP : UnicodePrint}.

(** What [appendEscapedRune] writes for a printable or escaped rune [r] whose
    bytes are [raw]. *)
Definition escape_rune (r : Z) (raw : string) : string :=
  if (r =? 34) || (r =? 92) then String backslash raw
  else if (if r <? 128 then (32 <=? r) && (r <=? 126) else is_print r) then raw
  else if r =? 7 then "\a" else if r =? 8 then "\b" else if r =? 12 then "\f"
  else if r =? 10 then "\n" else if r =? 13 then "\r" else if r =? 9 then "\t"
  else if r =? 11 then "\v"
  else if r <? 128 then "\x" +:+ hex 2 r
  else if r <? 65536 then "\u" +:+ hex 4 r
  else "\U" +:+ hex 8 r.

(** The text written for the rune [s] starts with, and its width. *)
Definition quote_chunk (s : string) : string :=
  match decode_rune s with
  | Some (r, w) => escape_rune r (stake w s)
  | None => match s with
            | EmptyString => ""
            | String c _ => "\x" +:+ hex 2 (bz c)
            end
  end.
Definition quote_width (s : string) : nat :=
  match decode_rune s with Some (_, w) => w | None => 1%nat end.

Fixpoint quote_go (skip : nat) (s : string) : string :=
  match s with
  | EmptyString => ""
  | String _ s' => match skip with
                   | S skip => quote_go skip s'
                   | O => quote_chunk s +:+ quote_go (pred (quote_width s)) s'
                   end
  end.

Definition Quote (s : string) : string := str1 dquote +:+ quote_go 0 s +:+ str1 dquote.
End quote.

(** ** [Quote] is injective, even with text after it

    Every chunk is either the raw bytes of a rune or an escape; the rune is
    recovered from both. *)

Lemma hex_digit_inj x y : 0 ≤ x < 16 → 0 ≤ y < 16 → hex_digit x = hex_digit y → x = y.
Proof.
  unfold hex_digit. intros Hx Hy H%(f_equal bz).
  destruct (Z.ltb_spec x 10), (Z.ltb_spec y 10); rewrite 2!bz_byte_of in H by lia; lia.
Qed.

Lemma hex_inj n x y u v :
  hex n x +:+ u = hex n y +:+ v → x mod 16 ^ Z.of_nat n = y mod 16 ^ Z.of_nat n ∧ u = v.
Proof.
  induction n as [|n IH]; cbn [hex].
  { intros. by rewrite !Z.mod_1_r. }
  intros [= Hd Ht]. destruct (IH Ht) as [Hm ->]. split; [|done].
  apply hex_digit_inj in Hd; [|apply Z.mod_pos_bound; lia..].
  rewrite Nat2Z.inj_succ, Z.pow_succ_r, (Z.mul_comm 16) by lia.
  rewrite !Z.rem_mul_r by lia. by rewrite Hm, Hd.
Qed.

Lemma hex_inj_small n x y u v :
  0 ≤ x < 16 ^ Z.of_nat n → 0 ≤ y < 16 ^ Z.of_nat n → hex n x +:+ u = hex n y +:+ v → x = y ∧ u = v.
Proof. intros Hx Hy [H ->]%hex_inj. by rewrite !Z.mod_small in H by done. Qed.

(** What the encoding [s] starts with determines, per width. *)
Definition lead_width (x : Z) : nat :=
  if x <? 128 then 1 else if x <? 224 then 2 else if x <? 240 then 3 else 4.

Definition rune_bytes (r : Z) : list Z :=
  if r <? 128 then [r]
  else if r <? 2048 then [192 + r / 64; 128 + r mod 64]
  else if r <? 65536 then [224 + r / 4096; 128 + r / 64 mod 64; 128 + r mod 64]
  else [240 + r / 262144; 128 + r / 4096 mod 64; 128 + r / 64 mod 64; 128 + r mod 64].

Definition bytes_string (l : list Z) : string := foldr (λ z, String (byte_of z)) "" l.

Lemma byte_of_bz c : byte_of (bz c) = c.
Proof. apply bz_inj. rewrite bz_byte_of; [done|apply bz_range]. Qed.

Lemma div_mod_64 q b : 0 ≤ b < 64 → (64 * q + b) / 64 = q ∧ (64 * q + b) mod 64 = b.
Proof.
  intros Hb. rewrite Z.add_comm, (Z.mul_comm 64), Z.div_add, Z.mod_add by lia.
  by rewrite Z.div_small, Z.mod_small by done.
Qed.

(** Decoding is encoding backwards: the bytes read are those of the rune. *)
Ltac decode_bounds H :=
  unfold decode2, decode3, decode4, cont in H; case_match; [|done]; injection H as <-;
  repeat rewrite ?andb_true_iff, ?orb_true_iff, ?negb_true_iff, ?Z.leb_le, ?Z.eqb_neq in *.

Lemma decode2_spec x y r :
  decode2 x y = Some r → 128 ≤ r < 2048 ∧ rune_bytes r = [x; y] ∧ 194 ≤ x < 224.
Proof.
  intros H. decode_bounds H.
  destruct (div_mod_64 (x - 192) (y - 128)) as [Hq Hr]; [lia|].
  rewrite (Z.mul_comm _ 64). unfold rune_bytes.
  rewrite (proj2 (Z.ltb_ge _ 128)), (proj2 (Z.ltb_lt _ 2048)), Hq, Hr by lia.
  split_and!; [lia..|repeat f_equal; lia|lia|lia].
Qed.

Lemma decode3_spec x y z r :
  decode3 x y z = Some r → 2048 ≤ r < 65536 ∧ rune_bytes r = [x; y; z] ∧ 224 ≤ x < 240.
Proof.
  intros H. decode_bounds H.
  destruct (div_mod_64 (64 * (x - 224) + (y - 128)) (z - 128)) as [Hq Hr]; [lia|].
  destruct (div_mod_64 (x - 224) (y - 128)) as [Hq' Hr']; [lia|].
  replace ((x - 224) * 4096 + (y - 128) * 64 + (z - 128))
    with (64 * (64 * (x - 224) + (y - 128)) + (z - 128)) by lia.
  unfold rune_bytes.
  rewrite (proj2 (Z.ltb_ge _ 128)), (proj2 (Z.ltb_ge _ 2048)), (proj2 (Z.ltb_lt _ 65536)) by lia.
  change 4096 with (64 * 64). rewrite <- Z.div_div, Hq, Hr, Hq', Hr' by lia.
  split_and!; [lia..|repeat f_equal; lia|lia|lia].
Qed.

Lemma decode4_spec x y z w r :
  decode4 x y z w = Some r → 65536 ≤ r ≤ 1114111 ∧ rune_bytes r = [x; y; z; w] ∧ 240 ≤ x < 256.
Proof.
  intros H. decode_bounds H.
  destruct (div_mod_64 (64 * (64 * (x - 240) + (y - 128)) + (z - 128)) (w - 128)) as [Hq Hr]; [lia|].
  destruct (div_mod_64 (64 * (x - 240) + (y - 128)) (z - 128)) as [Hq' Hr']; [lia|].
  destruct (div_mod_64 (x - 240) (y - 128)) as [Hq'' Hr'']; [lia|].
  replace ((x - 240) * 262144 + (y - 128) * 4096 + (z - 128) * 64 + (w - 128))
    with (64 * (64 * (64 * (x - 240) + (y - 128)) + (z - 128)) + (w - 128)) by lia.
  unfold rune_bytes.
  rewrite (proj2 (Z.ltb_ge _ 128)), (proj2 (Z.ltb_ge _ 2048)), (proj2 (Z.ltb_ge _ 65536)) by lia.
  change 262144 with (64 * 64 * 64). change 4096 with (64 * 64).
  rewrite <- !Z.div_div, Hq, Hr, Hq', Hr', Hq'', Hr'' by lia.
  split_and!; [lia..|repeat f_equal; lia|lia|lia].
Qed.

(** The bytes of a decoded rune, its range and its lead byte. *)
Lemma decode_rune_spec s r w :
  decode_rune s = Some (r, w) →
  0 ≤ r ≤ 1114111 ∧ stake w s = bytes_string (rune_bytes r) ∧
  ∃ c t, s = String c t ∧ w = lead_width (bz c) ∧ (bz c < 128 ↔ r < 128) ∧ (r < 128 → bz c = r).
Proof.
  destruct s as [|a s]; [done|]. cbn [decode_rune].
  destruct (Z.ltb_spec (bz a) 128) as [Ha|Ha].
  { intros [= <- <-]. pose proof (bz_range a). unfold rune_bytes, lead_width.
    rewrite !(proj2 (Z.ltb_lt (bz a) 128)) by done. cbn. rewrite byte_of_bz.
    split_and!; [lia..|done|]. exists a, s.
    rewrite (proj2 (Z.ltb_lt (bz a) 128)) by done. split_and!; done || lia. }
  unfold lead_width.
  destruct s as [|b s]; [done|]. destruct (decode2 _ _) eqn:E2.
  { intros [= <- <-]. apply decode2_spec in E2 as (? & Hb & ?). rewrite Hb. cbn. rewrite !byte_of_bz.
    split_and!; [lia..|done|]. exists a, (String b s).
    rewrite (proj2 (Z.ltb_ge (bz a) 128)), (proj2 (Z.ltb_lt (bz a) 224)) by lia. split_and!; done || lia. }
  destruct s as [|c s]; [done|]. destruct (decode3 _ _ _) eqn:E3.
  { intros [= <- <-]. apply decode3_spec in E3 as (? & Hb & ?). rewrite Hb. cbn. rewrite !byte_of_bz.
    split_and!; [lia..|done|]. exists a, (String b (String c s)).
    rewrite (proj2 (Z.ltb_ge (bz a) 128)), (proj2 (Z.ltb_ge (bz a) 224)), (proj2 (Z.ltb_lt (bz a) 240)) by lia.
    split_and!; done || lia. }
  destruct s as [|d s]; [done|]. destruct (decode4 _ _ _ _) eqn:E4; [|done].
  intros [= <- <-]. apply decode4_spec in E4 as (? & Hb & ?). rewrite Hb. cbn. rewrite !byte_of_bz.
  split_and!; [lia..|done|]. exists a, (String b (String c (String d s))).
  rewrite (proj2 (Z.ltb_ge (bz a) 128)), (proj2 (Z.ltb_ge (bz a) 224)), (proj2 (Z.ltb_ge (bz a) 240)) by lia.
  split_and!; done || lia.
Qed.

(** An escape is a tag character and a hexadecimal number (of no digits for
    the named escapes); [inr c] is the escape of an invalid byte. *)
Definition esc_parts (t : Z + ascii) : ascii * nat * Z :=
  match t with
  | inr c => ("x"%char, 2%nat, bz c)
  | inl r =>
      if r =? 34 then (dquote, O, 0) else if r =? 92 then (backslash, O, 0)
      else if r =? 7 then ("a"%char, O, 0) else if r =? 8 then ("b"%char, O, 0)
      else if r =? 12 then ("f"%char, O, 0) else if r =? 10 then ("n"%char, O, 0)
      else if r =? 13 then ("r"%char, O, 0) else if r =? 9 then ("t"%char, O, 0)
      else if r =? 11 then ("v"%char, O, 0)
      else if r <? 128 then ("x"%char, 2%nat, r)
      else if r <? 65536 then ("u"%char, 4%nat, r) else ("U"%char, 8%nat, r)
  end.

Definition esc_text (t : Z + ascii) : string :=
  let '(tag, n, z) := esc_parts t in String backslash (String tag (hex n z)).

Definition esc_ok (t : Z + ascii) : Prop :=
  match t with inl r => 0 ≤ r ≤ 1114111 | inr c => 128 ≤ bz c end.

Lemma esc_parts_bound t tag n z : esc_ok t → esc_parts t = (tag, n, z) → 0 ≤ z < 16 ^ Z.of_nat n.
Proof.
  destruct t as [r|c]; cbn [esc_ok esc_parts].
  - intros Hr. repeat case_match; intros; simplify_eq; cbn;
      repeat match goal with H : (_ <? _) = _ |- _ =>
        apply Z.ltb_lt in H || apply Z.ltb_ge in H end; lia.
  - intros _ [= <- <- <-]. pose proof (bz_range c). cbn. lia.
Qed.

Lemma esc_parts_tag t1 t2 tag n1 n2 z1 z2 :
  esc_parts t1 = (tag, n1, z1) → esc_parts t2 = (tag, n2, z2) → n1 = n2.
Proof.
  destruct t1, t2; cbn [esc_parts]; intros H1 H2; repeat case_match; by simplify_eq.
Qed.

Lemma esc_parts_inj t1 t2 : esc_ok t1 → esc_ok t2 → esc_parts t1 = esc_parts t2 → t1 = t2.
Proof.
  destruct t1 as [r1|c1], t2 as [r2|c2]; cbn [esc_ok esc_parts]; intros O1 O2 H.
  - repeat case_match; simplify_eq;
      repeat match goal with H : (_ =? _) = true |- _ => apply Z.eqb_eq in H; subst end; done.
  - exfalso. repeat case_match; simplify_eq.
    repeat match goal with H : (_ <? _) = true |- _ => apply Z.ltb_lt in H end. lia.
  - exfalso. repeat case_match; simplify_eq.
    repeat match goal with H : (_ <? _) = true |- _ => apply Z.ltb_lt in H end. lia.
  - f_equal. apply bz_inj. congruence.
Qed.

Lemma esc_text_inj t1 t2 u v :
  esc_ok t1 → esc_ok t2 → esc_text t1 +:+ u = esc_text t2 +:+ v → t1 = t2 ∧ u = v.
Proof.
  unfold esc_text. intros O1 O2.
  destruct (esc_parts t1) as [[tag1 n1] z1] eqn:E1, (esc_parts t2) as [[tag2 n2] z2] eqn:E2.
  simpl. intros [= <- H]. pose proof (esc_parts_tag _ _ _ _ _ _ _ E1 E2) as <-.
  apply hex_inj_small in H as [-> ->]; [|eauto using esc_parts_bound..].
  split; [|done]. apply esc_parts_inj; congruence.
Qed.

Section quote_inj.
Context `{UP : UnicodePrint}.

Lemma escape_rune_view r raw :
  raw = bytes_string (rune_bytes r) →
  escape_rune r raw = raw ∧ r ≠ 34 ∧ r ≠ 92 ∨ escape_rune r raw = esc_text (inl r).
Proof.
  intros ->. unfold escape_rune, esc_text, esc_parts.
  destruct (Z.eqb_spec r 34) as [->|]; [by right|].
  destruct (Z.eqb_spec r 92) as [->|]; [by right|]. cbn [orb].
  set (p := if _ <? _ then _ else _). destruct p; [by left|right].
  repeat case_match; done.
Qed.

(** A chunk is the raw rune or the escape of what [s] starts with. *)
Lemma quote_chunk_view c s :
  let s' := String c s in
  (quote_chunk s' = stake (quote_width s') s' ∧ quote_width s' = lead_width (bz c) ∧
     c ≠ dquote ∧ c ≠ backslash)
  ∨ ∃ t, quote_chunk s' = esc_text t ∧ esc_ok t ∧
      stake (quote_width s') s' = match t with inl r => bytes_string (rune_bytes r) | inr c => str1 c end.
Proof.
  cbv zeta. unfold quote_chunk, quote_width.
  destruct (decode_rune (String c s)) as [[r w]|] eqn:E.
  - pose proof E as (Hr & Hraw & c' & t & [= <- <-] & Hw & Hb & Hc)%decode_rune_spec.
    destruct (escape_rune_view r (stake w (String c s)) Hraw) as [(-> & H1 & H2)|He].
    + left. split_and!; [done|done|intros ->..].
      * apply H1. symmetry. apply Hc, Hb. by vm_compute.
      * apply H2. symmetry. apply Hc, Hb. by vm_compute.
    + right. exists (inl r). by rewrite He.
  - right. exists (inr c). split_and!; [done| |done]. cbn.
    cbn [decode_rune] in E. destruct (Z.ltb_spec (bz c) 128); [done|lia].
Qed.

Lemma length_stake n s : String.length (stake n s) = (n `min` String.length s)%nat.
Proof. revert s. induction n as [|n IH]; intros [|c s]; simpl; auto. Qed.

Lemma lead_width_pos x : lead_width x ≠ 0%nat.
Proof. unfold lead_width. by repeat case_match. Qed.

Lemma quote_width_S c s : quote_width (String c s) = S (pred (quote_width (String c s))).
Proof.
  unfold quote_width. destruct (decode_rune _) as [[r w]|] eqn:E; [|done].
  apply decode_rune_spec in E as (_ & _ & c' & t & _ & -> & _).
  pose proof (lead_width_pos (bz c')). lia.
Qed.

Lemma quote_width_le c s : (quote_width (String c s) ≤ String.length (String c s))%nat.
Proof.
  unfold quote_width. destruct (decode_rune _) as [[r w]|] eqn:E; [|cbn; lia].
  cbn [decode_rune] in E. repeat case_match; simplify_eq/=; try lia.
  all: match goal with H : _ <$> _ = Some _ |- _ => apply fmap_Some in H as (? & _ & ?); simplify_eq end; lia.
Qed.

Lemma quote_go_skip n s : quote_go n s = quote_go 0 (sdrop n s).
Proof. revert s. induction n as [|n IH]; intros [|c s]; simpl; auto. Qed.

Lemma quote_go_step c s :
  quote_go 0 (String c s) =
    quote_chunk (String c s) +:+ quote_go 0 (sdrop (quote_width (String c s)) (String c s)).
Proof.
  rewrite (quote_width_S c s) at 1. cbn [sdrop]. by rewrite <- quote_go_skip.
Qed.

(** Chunks are self-delimiting: they determine the bytes they stand for. *)
Lemma quote_chunk_inj c1 s1 c2 s2 u v :
  quote_chunk (String c1 s1) +:+ u = quote_chunk (String c2 s2) +:+ v →
  stake (quote_width (String c1 s1)) (String c1 s1) = stake (quote_width (String c2 s2)) (String c2 s2) ∧ u = v.
Proof.
  intros H. pose proof (quote_width_le c1 s1) as L1. pose proof (quote_width_le c2 s2) as L2.
  destruct (quote_chunk_view c1 s1) as [(E1 & W1 & _ & N1)|(t1 & E1 & O1 & ->)],
    (quote_chunk_view c2 s2) as [(E2 & W2 & _ & N2)|(t2 & E2 & O2 & ->)];
    rewrite E1, E2 in H.
  - assert (c1 = c2) as <-.
    { revert H. rewrite (quote_width_S c1 s1), (quote_width_S c2 s2). simpl. congruence. }
    apply app_inj_length_s; [|done]. rewrite !length_stake. lia.
  - exfalso. revert H. rewrite (quote_width_S c1 s1). unfold esc_text.
    destruct (esc_parts t2) as [[]]. simpl. congruence.
  - exfalso. revert H. rewrite (quote_width_S c2 s2). unfold esc_text.
    destruct (esc_parts t1) as [[]]. simpl. congruence.
  - apply esc_text_inj in H as [-> ->]; done.
Qed.

Lemma quote_go_quote_free c s : ∃ d t, quote_go 0 (String c s) = String d t ∧ d ≠ dquote.
Proof.
  rewrite quote_go_step.
  destruct (quote_chunk_view c s) as [(-> & W & N & _)|(t & -> & _)].
  - rewrite quote_width_S. simpl. eauto.
  - unfold esc_text. destruct (esc_parts t) as [[]]. simpl. eexists _, _. split; [done|by vm_compute].
Qed.

Lemma quote_go_inj n s1 s2 u v :
  (String.length s1 ≤ n)%nat →
  quote_go 0 s1 +:+ String dquote u = quote_go 0 s2 +:+ String dquote v → s1 = s2 ∧ u = v.
Proof.
  revert s1 s2. induction n as [n IH] using lt_wf_ind. intros s1 s2 Hn H. destruct s1 as [|c1 s1], s2 as [|c2 s2].
  { simpl in H. by simplify_eq. }
  { destruct (quote_go_quote_free c2 s2) as (d & t & E & Hd). rewrite E in H. simpl in H. congruence. }
  { destruct (quote_go_quote_free c1 s1) as (d & t & E & Hd). rewrite E in H. simpl in H. congruence. }
  destruct n as [|n']; [simpl in Hn; lia|].
  rewrite !quote_go_step, !app_assoc_s in H. apply quote_chunk_inj in H as [Hs H].
  apply (IH n') in H as [Hd ->]; [|lia|].
  - split; [|done]. rewrite <- (stake_sdrop (quote_width (String c1 s1)) (String c1 s1)), Hs, Hd.
    apply stake_sdrop.
  - rewrite (quote_width_S c1 s1). cbn [sdrop]. simpl in Hn.
    pose proof (length_sdrop_le (pred (quote_width (String c1 s1))) s1). lia.
Qed.

(** [strconv.Quote] is injective and self-delimiting. *)
Lemma Quote_app_inj s1 s2 u v : Quote s1 +:+ u = Quote s2 +:+ v → s1 = s2 ∧ u = v.
Proof.
  unfold Quote. rewrite !app_assoc_s. simpl. intros [= H].
  by eapply quote_go_inj.
Qed.

Lemma Quote_inj s1 s2 : Quote s1 = Quote s2 → s1 = s2.
Proof.
  intros H. apply (Quote_app_inj s1 s2 "" ""). by rewrite H.
Qed.
End quote_inj.
