(* ===== verification/Quoting.v ===== *)
(** * Quoting: every way pgop writes untrusted text into a statement, a
    connection string or a configuration file

    [quoteIdent], [quoteLiteral], [escapeString] (internal/postgres/client.go),
    [quoteDSNValue] (internal/postgres/dsn.go) and [quoteConfValue]
    (internal/controller/pgconfig.go). Each is shown to satisfy the interface
    [SelfDelimiting]: a reader of the documented syntax reads back exactly the
    given text and stops exactly at the end of the quoted form. *)

From S2P Require Import Prelude GoStrings.
From Stdlib Require Import Ascii.
Open Scope Z_scope.

(** ** The quoting functions *)

(** quoteIdent quotes an identifier (table name, role name, etc.). *)
Definition quoteIdent (s : string) : string :=
  str1 dquote +:+ ReplaceAll s dquote (String dquote (str1 dquote)) +:+ str1 dquote.

(** quoteLiteral: single quotes are doubled; with a backslash in the text,
    backslashes are doubled and the literal is an escape string. *)
Definition quoteLiteral (s : string) : string :=
  let s := ReplaceAll s squote (String squote (str1 squote)) in
  if ContainsByte s backslash
  then "E" +:+ str1 squote +:+ ReplaceAll s backslash (String backslash (str1 backslash)) +:+ str1 squote
  else str1 squote +:+ s +:+ str1 squote.

(** escapeString doubles single quotes (only used to redact secrets). *)
Definition escapeString (s : string) : string :=
  ReplaceAll s squote (String squote (str1 squote)).

(** quoteDSNValue quotes a libpq connection-string value. *)
Definition quoteDSNValue (v : string) : string :=
  let v := ReplaceAll v backslash (String backslash (str1 backslash)) in
  let v := ReplaceAll v squote (String backslash (str1 squote)) in
  str1 squote +:+ v +:+ str1 squote.

(** confValueEscaper: one pass over the value, four one-byte patterns. *)
Definition confValueEscaper (s : string) : string :=
  map_bytes (λ c,
    if decide (c = backslash) then String backslash (str1 backslash)
    else if decide (c = squote) then String squote (str1 squote)
    else if decide (c = newline) then String backslash (str1 "n")
    else if decide (c = "013"%char) then String backslash (str1 "r")
    else str1 c) s.

Definition quoteConfValue (v : string) : string :=
  str1 squote +:+ confValueEscaper v +:+ str1 squote.

(** ** Readers of the documented syntax *)

(** After the opening quote [q]: a doubled [q] stands for one, a single [q]
    ends the text (SQL identifiers and standard string literals). *)
Fixpoint read_doubled (q : ascii) (s : string) : option (string * string) :=
  match s with
  | EmptyString => None
  | String c s =>
      if decide (c = q)
      then match s with
           | String d s' => if decide (d = q) then prod_map (String q) id <$> read_doubled q s'
                            else Some ("", s)
           | EmptyString => Some ("", "")
           end
      else prod_map (String c) id <$> read_doubled q s
  end.

(** What a backslash escape stands for; octal, hexadecimal and Unicode
    escapes, which nothing here writes, are not read. *)
Definition unescape (c : ascii) : option ascii :=
  if decide (c = "b"%char) then Some "008"%char
  else if decide (c = "f"%char) then Some "012"%char
  else if decide (c = "n"%char) then Some newline
  else if decide (c = "r"%char) then Some "013"%char
  else if decide (c = "t"%char) then Some "009"%char
  else if bool_decide (c ∈ ["x"; "u"; "U"]%char) || is_digit c then None
  else Some c.

(** After the opening quote of an escape string or of a postgresql.conf value:
    doubled quotes and backslash escapes. *)
Fixpoint read_escaped (s : string) : option (string * string) :=
  match s with
  | EmptyString => None
  | String c s =>
      if decide (c = squote)
      then match s with
           | String d s' => if decide (d = squote) then prod_map (String squote) id <$> read_escaped s'
                            else Some ("", s)
           | EmptyString => Some ("", "")
           end
      else if decide (c = backslash)
      then match s with
           | String d s' => match unescape d with
                            | Some e => prod_map (String e) id <$> read_escaped s'
                            | None => None
                            end
           | EmptyString => None
           end
      else prod_map (String c) id <$> read_escaped s
  end.

(** After the opening quote of a libpq connection-string value: a backslash
    takes the next byte literally, a quote ends the value. *)
Fixpoint read_dsn_body (s : string) : option (string * string) :=
  match s with
  | EmptyString => None
  | String c s =>
      if decide (c = squote) then Some ("", s)
      else if decide (c = backslash)
      then match s with
           | String d s' => prod_map (String d) id <$> read_dsn_body s'
           | EmptyString => None
           end
      else prod_map (String c) id <$> read_dsn_body s
  end.

Definition after_quote (q : ascii) (body : string → option (string * string)) (s : string) : option (string * string) :=
  match s with
  | String c s => if decide (c = q) then body s else None
  | EmptyString => None
  end.

Definition read_ident : string → option (string * string) := after_quote dquote (read_doubled dquote).
Definition read_conf : string → option (string * string) := after_quote squote read_escaped.
Definition read_dsn : string → option (string * string) := after_quote squote read_dsn_body.
Definition read_literal (s : string) : option (string * string) :=
  match s with
  | String c s' => if decide (c = "E"%char) then after_quote squote read_escaped s'
                   else after_quote squote (read_doubled squote) s
  | EmptyString => None
  end.

(** ** The interface

    [q] is read back by [read] whatever text allowed by [stop] follows. *)
Class SelfDelimiting (q : string → string) (read : string → option (string * string)) (stop : string → Prop) : Prop :=
  read_quoted : ∀ s rest, stop rest → read (q s +:+ rest) = Some (s, rest).

(** Text that does not continue a quoted form ended by [q]. *)
Definition not_starting (q : ascii) (s : string) : Prop :=
  match s with String c _ => c ≠ q | EmptyString => True end.

Section clients.
Context {q read stop} `{!SelfDelimiting q read stop}.

Lemma quoted_inj : stop "" → ∀ s t, q s = q t → s = t.
Proof.
  intros Hs s t H. pose proof (read_quoted s "" Hs) as Hr.
  rewrite H, read_quoted in Hr by done. congruence.
Qed.

Lemma quoted_app_inj s t u v : stop u → stop v → q s +:+ u = q t +:+ v → s = t ∧ u = v.
Proof.
  intros Hu Hv H. pose proof (read_quoted s u Hu) as Hr.
  rewrite H, read_quoted in Hr by done. by simplify_eq.
Qed.
End clients.

(** ** The implementations discharge the interface *)

Lemma map_bytes_app f s t : map_bytes f (s +:+ t) = map_bytes f s +:+ map_bytes f t.
Proof. induction s as [|c s IH]; simpl; [done|]. by rewrite IH, app_assoc_s. Qed.

Lemma map_bytes_comp f g s : map_bytes f (map_bytes g s) = map_bytes (λ c, map_bytes f (g c)) s.
Proof. induction s as [|c s IH]; simpl; [done|]. by rewrite map_bytes_app, IH. Qed.

Lemma map_bytes_ext f g s : (∀ c, f c = g c) → map_bytes f s = map_bytes g s.
Proof. intros H. induction s as [|c s IH]; simpl; [done|]. by rewrite H, IH. Qed.

(** A reader that inverts the image of every byte inverts [map_bytes]. *)
Lemma read_map_bytes (body : string → option (string * string)) f :
  (∀ c x, body (f c +:+ x) = prod_map (String c) id <$> body x) →
  ∀ s x, body (map_bytes f s +:+ x) = prod_map (String.append s) id <$> body x.
Proof.
  intros Hf s x. induction s as [|c s IH]; simpl.
  - by destruct (body x) as [[]|].
  - rewrite app_assoc_s, Hf, IH. by destruct (body x) as [[]|].
Qed.

Ltac byte_cases :=
  repeat (case_decide; simplify_eq/=; try done).

Lemma doubled_byte q c x :
  read_doubled q ((if decide (c = q) then String q (str1 q) else str1 c) +:+ x) =
    prod_map (String c) id <$> read_doubled q x.
Proof. case_decide; simpl; [subst; by rewrite !decide_True by done | by rewrite decide_False by done]. Qed.

Lemma doubled_stop q rest : not_starting q rest → read_doubled q (String q rest) = Some ("", rest).
Proof. destruct rest as [|d rest]; simpl; intros; by rewrite ?decide_True, ?decide_False by done. Qed.

Lemma read_doubled_quoted q s rest :
  not_starting q rest →
  after_quote q (read_doubled q)
    ((str1 q +:+ ReplaceAll s q (String q (str1 q)) +:+ str1 q) +:+ rest) = Some (s, rest).
Proof.
  intros Hr. unfold ReplaceAll. simpl. rewrite decide_True by done.
  rewrite app_assoc_s, read_map_bytes by apply doubled_byte.
  change (str1 q +:+ rest) with (String q rest). rewrite doubled_stop by done. simpl. by rewrite app_nil_r_s.
Qed.

#[export] Instance quoteIdent_delim : SelfDelimiting quoteIdent read_ident (not_starting dquote).
Proof. intros s rest Hr. by apply read_doubled_quoted. Qed.

Lemma escaped_stop rest : not_starting squote rest → read_escaped (String squote rest) = Some ("", rest).
Proof. destruct rest as [|d rest]; simpl; intros; by rewrite ?decide_False by done. Qed.

#[export] Instance quoteLiteral_delim : SelfDelimiting quoteLiteral read_literal (not_starting squote).
Proof.
  intros s rest Hr. unfold quoteLiteral. destruct (ContainsByte _ _).
  - unfold ReplaceAll. rewrite map_bytes_comp. simpl. rewrite app_assoc_s, read_map_bytes.
    + change (str1 squote +:+ rest) with (String squote rest). rewrite escaped_stop by done. simpl. by rewrite app_nil_r_s.
    + intros c x. byte_cases.
  - by apply read_doubled_quoted.
Qed.

#[export] Instance quoteConfValue_delim : SelfDelimiting quoteConfValue read_conf (not_starting squote).
Proof.
  intros s rest Hr. unfold quoteConfValue, confValueEscaper, read_conf. simpl.
  rewrite app_assoc_s, read_map_bytes.
  - change (str1 squote +:+ rest) with (String squote rest). rewrite escaped_stop by done. simpl. by rewrite app_nil_r_s.
  - intros c x. byte_cases.
Qed.

#[export] Instance quoteDSNValue_delim : SelfDelimiting quoteDSNValue read_dsn (λ _, True).
Proof.
  intros s rest _. unfold quoteDSNValue, ReplaceAll, read_dsn. rewrite map_bytes_comp. simpl.
  rewrite app_assoc_s, read_map_bytes.
  - simpl. by rewrite app_nil_r_s.
  - intros c x. byte_cases.
Qed.

(** A quoted configuration value never contains a line break, so it cannot end
    its line in the configuration file. *)
Lemma confValueEscaper_no_newline s : sforall (λ c, negb (bool_decide (c = newline))) (confValueEscaper s) = true.
Proof.
  unfold confValueEscaper. induction s as [|c s IH]; cbn [map_bytes]; [done|].
  rewrite sforall_app, IH, andb_true_r. byte_cases.
Qed.
