(* ===== verification/GoUrl.v ===== *)
(** * GoUrl: what pgop uses of Go's [net/url] and [net.JoinHostPort]

    Percent-encoding of the parts of a URL, with the reader a libpq client uses
    for a [postgresql://] URI. *)

From Stdlib Require Import Ascii.
From S2P Require Import Prelude GoStrings GoStrconv Quoting.
Open Scope Z_scope.

(** [url.encoding]: the parts pgop encodes. *)
Inductive encoding := encodePath | encodeHost | encodeUserPassword | encodeQueryComponent.

Definition alphanum (c : ascii) : bool := is_upper c || is_lower c || is_digit c.

Definition is_one_of (c : ascii) (chars : string) : bool := ContainsByte chars c.

(** [url.shouldEscape]. *)
Definition shouldEscape (c : ascii) (mode : encoding) : bool :=
  if alphanum c then false
  else if (match mode with encodeHost => is_one_of c "!$&'()*+,;=:[]<>" || bool_decide (c = dquote) | _ => false end) then false
  else if is_one_of c "-_.~" then false
  else if is_one_of c "$&+,/:;=?@" then
    match mode with
    | encodePath => bool_decide (c = "?"%char)
    | encodeUserPassword => is_one_of c "@/?:"
    | encodeQueryComponent | encodeHost => true
    end
  else true.

Definition upperhex (z : Z) : ascii := byte_of (if z <? 10 then 48 + z else 55 + z).

Definition escape_byte (mode : encoding) (c : ascii) : string :=
  if shouldEscape c mode then
    match mode with
    | encodeQueryComponent => if decide (c = " "%char) then "+" else String "%" (String (upperhex (bz c / 16)) (str1 (upperhex (bz c mod 16))))
    | _ => String "%" (String (upperhex (bz c / 16)) (str1 (upperhex (bz c mod 16))))
    end
  else str1 c.

(** [url.escape]. *)
Definition url_escape (s : string) (mode : encoding) : string := map_bytes (escape_byte mode) s.

(** [net.JoinHostPort]. *)
Definition JoinHostPort (host port : string) : string :=
  if ContainsByte host ":"%char then "[" +:+ host +:+ "]:" +:+ port else host +:+ ":" +:+ port.

(** ** The reader *)

Definition unhex (c : ascii) : option Z :=
  if is_digit c then Some (bz c - 48)
  else if (65 <=? bz c) && (bz c <=? 70) then Some (bz c - 55)
  else if (97 <=? bz c) && (bz c <=? 102) then Some (bz c - 87)
  else None.

(** libpq's decoding of a part: [%XX] is a byte, and nothing else is special. *)
Fixpoint percent_decode (s : string) : option string :=
  match s with
  | EmptyString => Some ""
  | String "%" (String a (String b rest)) =>
      x ← unhex a; y ← unhex b; r ← percent_decode rest; Some (String (byte_of (16 * x + y)) r)
  | String "%" _ => None
  | String c rest => r ← percent_decode rest; Some (String c r)
  end.

Record uri_parts := { up_user : string; up_password : string; up_hostport : string; up_database : string; up_query : string }.

(** The parts of a URI with user information, host and path. *)
Definition read_uri (s : string) : option uri_parts :=
  rest ← CutPrefix s "postgresql://";
  '(userinfo, rest) ← Cut rest "@"%char;
  '(user, password) ← Cut userinfo ":"%char;
  '(hostport, rest) ← Cut rest "/"%char;
  '(path, query) ← Cut rest "?"%char;
  user ← percent_decode user; password ← percent_decode password; database ← percent_decode path;
  Some {| up_user := user; up_password := password; up_hostport := hostport; up_database := database; up_query := query |}.

(** ** Lemmas *)

Lemma all_bytes (P : ascii → Prop) `{∀ c, Decision (P c)} :
  forallb (λ n, bool_decide (P (ascii_of_N (N.of_nat n)))) (seq 0 256) = true → ∀ c, P c.
Proof.
  rewrite forallb_forall. intros Hall c. pose proof (N_ascii_bounded c) as Hb.
  assert (In (N.to_nat (N_of_ascii c)) (seq 0 256)) as Hin by (apply in_seq; lia).
  specialize (Hall _ Hin). rewrite N2Nat.id, ascii_N_embedding in Hall. by apply bool_decide_eq_true in Hall.
Qed.

(** A byte that no encoded byte contains is not in the encoded string. *)
Lemma map_bytes_no_byte f b s : (∀ c, ContainsByte (f c) b = false) → ContainsByte (map_bytes f s) b = false.
Proof. intros Hf. induction s as [|c s IH]; simpl; [done|]. by rewrite ContainsByte_app_s, Hf, IH. Qed.

Lemma escape_no_byte mode b s :
  forallb (λ n, bool_decide (ContainsByte (escape_byte mode (ascii_of_N (N.of_nat n))) b = false)) (seq 0 256) = true →
  ContainsByte (url_escape s mode) b = false.
Proof. intros H. apply map_bytes_no_byte. exact (all_bytes (λ c, ContainsByte (escape_byte mode c) b = false) H). Qed.

Lemma decode_escape_byte mode c rest :
  mode = encodePath ∨ mode = encodeUserPassword →
  percent_decode (escape_byte mode c +:+ rest) = (r ← percent_decode rest; Some (String c r)).
Proof.
  intros Hm.
  assert (∀ c, (∃ a b x y, escape_byte mode c = String "%" (String a (str1 b)) ∧ unhex a = Some x ∧ unhex b = Some y ∧
    byte_of (16 * x + y) = c) ∨ escape_byte mode c = str1 c ∧ c ≠ "%"%char) as Hall.
  { clear c rest. intros c.
    assert (∀ c, match escape_byte mode c with
                 | String p (String a (String b "")) => p = "%"%char ∧ match unhex a, unhex b with
                     | Some x, Some y => byte_of (16 * x + y) = c | _, _ => False end
                 | String p "" => p = c ∧ c ≠ "%"%char
                 | _ => False end) as H.
    { destruct Hm as [->| ->]; intros [[] [] [] [] [] [] [] []]; by vm_compute. }
    specialize (H c). destruct (escape_byte mode c) as [|p [|a [|b []]]]; try done.
    - right. by destruct H as [-> ?].
    - left. destruct H as [-> H]. destruct (unhex a) as [x|] eqn:Ea, (unhex b) as [y|] eqn:Eb; try done.
      by exists a, b, x, y. }
  destruct (Hall c) as [(a & b & x & y & -> & Ha & Hb & Hc)|[-> Hc]].
  - cbn [String.append percent_decode str1]. rewrite Ha, Hb. cbn [mbind option_bind]. by rewrite Hc.
  - cbn [String.append str1]. by destruct c as [[] [] [] [] [] [] [] []].
Qed.

(** What libpq decodes is what was encoded. *)
Lemma decode_escape mode s :
  mode = encodePath ∨ mode = encodeUserPassword → percent_decode (url_escape s mode) = Some s.
Proof.
  intros Hm. unfold url_escape. induction s as [|c s IH]; [done|].
  cbn [map_bytes]. rewrite decode_escape_byte by done. by rewrite IH.
Qed.
