(* ===== verification/Parameters.v ===== *)
(** * Parameters: configuration-parameter names and values

    internal/postgres/privileges.go, the part on parameters: name validation
    ([NormalizeParameterName], [quoteParameterName]), identifier lists
    ([splitIdentifierList]), the SET/RESET statements and the denylist
    ([DeniedParameter]). *)

From S2P Require Import Prelude GoStrings GoStrconv Quoting.
From Stdlib Require Import Ascii.
Open Scope Z_scope.

(** ** Parameter names *)

Definition is_alpha_ (c : ascii) : bool := is_upper c || is_lower c || bool_decide (c = "_"%char).

(** parameterNameRe: identifiers separated by dots. [start] is whether an
    identifier must start here. *)
Fixpoint parameterNameRe_go (start : bool) (s : string) : bool :=
  match s with
  | EmptyString => negb start
  | String c s =>
      if start then is_alpha_ c && parameterNameRe_go false s
      else if decide (c = "."%char) then parameterNameRe_go true s
      else (is_alpha_ c || is_digit c) && parameterNameRe_go false s
  end.
Definition parameterNameRe : string → bool := parameterNameRe_go true.

Definition maxParameterNameLength : nat := 127.

Definition NormalizeParameterName (name : string) : result string :=
  if (maxParameterNameLength <? String.length name)%nat || negb (parameterNameRe name)
  then inr (Errorf "invalid parameter name %q" [name])
  else inl (ToLower name).

Definition quoteParameterName (name : string) : result string :=
  try n := NormalizeParameterName name in
  inl (Join (quoteIdent <$> Split n ".") ".").

(** ** Identifier lists *)

Definition paramSearchPath : string := "search_path".
Definition settingTempTablespaces : string := "temp_tablespaces".
Definition listQuoteParameters : list string := [paramSearchPath; settingTempTablespaces].

Definition isSpace (b : ascii) : bool := bool_decide (b ∈ [" "; "009"; "010"; "013"]%char).

Fixpoint skip_spaces (s : string) : string :=
  match s with
  | String c s' => if isSpace c then skip_spaces s' else s
  | EmptyString => ""
  end.

Definition errUnterminatedQuote : gerr := Errorf "unterminated quoted identifier" [].

(** The bytes up to the next comma, and what follows them. *)
Fixpoint until_comma (s : string) : string * string :=
  match s with
  | String c s' => if decide (c = ","%char) then ("", s)
                   else prod_map (String c) id (until_comma s')
  | EmptyString => ("", "")
  end.

(** [strings.TrimRight(s, " \t\n\r")]. *)
Fixpoint TrimRightSpaces (s : string) : string :=
  match s with
  | EmptyString => ""
  | String c s => match TrimRightSpaces s with
                  | EmptyString => if isSpace c then "" else str1 c
                  | t => String c t
                  end
  end.

Section lists.
Context {UL : UnicodeLower}.

(** One element of the list, from its first byte, and the rest of the input. *)
Definition split_element (s : string) : result (string * string) :=
  match s with
  | String c s' =>
      if decide (c = dquote)
      then match read_doubled dquote s' with
           | Some (elem, rest) => inl (elem, skip_spaces rest)
           | None => inr errUnterminatedQuote
           end
      else let '(raw, rest) := until_comma s in
           let word := TrimRightSpaces raw in
           if ContainsAny word (" " +:+ str1 "009" +:+ str1 newline +:+ str1 "013" +:+ str1 dquote)
           then inr (Errorf "invalid list element %q (quote it with double quotes)" [word])
           else inl (strings_ToLower word, rest)
  | EmptyString => inl ("", "")
  end.

(** The outer loop; [out] is the elements so far. Every round but the last
    consumes a comma, so the length of the input is enough fuel; [None] is out
    of fuel. *)
Fixpoint split_go (fuel : nat) (out : list string) (s : string) : option (result (list string)) :=
  match fuel with
  | O => None
  | S fuel =>
      match split_element (skip_spaces s) with
      | inr e => Some (inr e)
      | inl (elem, rest) =>
          if decide (elem = "") then Some (inr (Errorf "empty list element" []))
          else match rest with
               | EmptyString => Some (inl (out ++ [elem]))
               | String c rest' =>
                   if decide (c = ","%char) then split_go fuel (out ++ [elem]) rest'
                   else Some (inr (Errorf "unexpected %q after quoted identifier" [str1 c]))
               end
      end
  end.

Definition splitIdentifierList (s : string) : result (list string) :=
  default (inr (Errorf "out of fuel" [])) (split_go (S (String.length s)) [] s).

(** ** SET and RESET *)

Definition formatSettingValue (parameter value : string) : result string :=
  if negb (slices_Contains listQuoteParameters parameter) then inl (quoteLiteral value)
  else if is_blank value
  then inr (Errorf "%s: an empty list is not supported; remove the key to reset the parameter" [parameter])
  else match splitIdentifierList value with
       | inr e => inr (Wrapf "invalid list value for %s: %w" [parameter] e)
       | inl elems => inl (Join (quoteLiteral <$> elems) ", ")
       end.

Definition buildSetClause (parameter value : string) : result string :=
  try name := quoteParameterName parameter in
  let norm := match NormalizeParameterName parameter with inl n => n | inr _ => "" end in
  try v := formatSettingValue norm value in
  inl ("SET " +:+ name +:+ " TO " +:+ v).

Definition buildAlterDatabaseSetQuery (database parameter value : string) : result string :=
  try clause := buildSetClause parameter value in
  inl ("ALTER DATABASE " +:+ quoteIdent database +:+ " " +:+ clause).
End lists.

Definition buildResetClause (parameter : string) : result string :=
  try name := quoteParameterName parameter in
  inl ("RESET " +:+ name).

Definition buildAlterDatabaseResetQuery (database parameter : string) : result string :=
  try clause := buildResetClause parameter in
  inl ("ALTER DATABASE " +:+ quoteIdent database +:+ " " +:+ clause).

(** The role is always a quoted identifier, never the keyword ALL. *)
Definition alterRoleTarget (role database : string) : result string :=
  if decide (role = "") then inr (Errorf "role name must not be empty" [])
  else let target := "ALTER ROLE " +:+ quoteIdent role in
       inl (if decide (database = "") then target else target +:+ " IN DATABASE " +:+ quoteIdent database).

Definition buildAlterRoleSetQuery {UL : UnicodeLower} (role database parameter value : string) : result string :=
  try target := alterRoleTarget role database in
  try clause := buildSetClause parameter value in
  inl (target +:+ " " +:+ clause).

Definition buildAlterRoleResetQuery (role database parameter : string) : result string :=
  try target := alterRoleTarget role database in
  try clause := buildResetClause parameter in
  inl (target +:+ " " +:+ clause).

(** ** The denylist *)

Definition deniedParameters : list string :=
  ["role"; "session_authorization";
   "session_preload_libraries"; "local_preload_libraries"; "shared_preload_libraries";
   "dynamic_library_path"; "jit_provider";
   "session_replication_role"; "lo_compat_privileges"].

Definition deniedParameterPrefixes : list string := ["pgaudit."; "set_user."; "anon."; "sepgsql."].

Definition DeniedParameter (name : string) : bool :=
  let n := ToLower name in
  slices_Contains deniedParameters n || existsb (HasPrefix n) deniedParameterPrefixes.

(** A table without lower-case letters beyond ASCII, and one with one. *)
Definition ascii_case : UnicodeLower := λ r, r.
Definition latin_case : UnicodeLower := λ r, if r =? 196 then 228 else r.

Example split_search_path :
  splitIdentifierList (UL := ascii_case) (quoteIdent "$user" +:+ ", Public ,x") = inl ["$user"; "public"; "x"].
Proof. vm_compute. reflexivity. Qed.
(** U+00C4 lowers to U+00E4. *)
Example split_unicode :
  splitIdentifierList (UL := latin_case) ("X" +:+ str1 "195" +:+ str1 "132") = inl ["x" +:+ str1 "195" +:+ str1 "164"].
Proof. vm_compute. reflexivity. Qed.
Example set_search_path : buildAlterRoleSetQuery (UL := ascii_case) "app" "" "Search_Path" ("a, " +:+ quoteIdent "B") =
  inl ("ALTER ROLE " +:+ quoteIdent "app" +:+ " SET " +:+ quoteIdent "search_path" +:+ " TO 'a', 'B'").
Proof. vm_compute. reflexivity. Qed.

(** ** Parameter names are canonical *)

Definition param_byte (c : ascii) : bool := is_alpha_ c || is_digit c || bool_decide (c = "."%char).

Lemma parameterNameRe_bytes b s : parameterNameRe_go b s = true → sforall param_byte s = true.
Proof.
  revert b. induction s as [|c s IH]; intros b; [done|]. cbn [parameterNameRe_go sforall].
  unfold param_byte at 1. destruct b; [|case_decide].
  - rewrite !andb_true_iff. intros [-> H]. split; [done|by eapply IH].
  - intros Hre. rewrite bool_decide_true, orb_true_r by done. by eapply IH.
  - rewrite !andb_true_iff. intros [-> Hre]. split; [done|by eapply IH].
Qed.

Lemma is_alpha_range c :
  is_alpha_ c = true → 65 <= bz c <= 90 ∨ 97 <= bz c <= 122 ∨ c = "_"%char.
Proof.
  unfold is_alpha_, is_upper, is_lower.
  rewrite !orb_true_iff, !andb_true_iff, !Z.leb_le, bool_decide_eq_true. tauto.
Qed.

Lemma param_byte_ascii c : param_byte c = true → (bz c <? 128) = true.
Proof.
  unfold param_byte. rewrite !orb_true_iff, bool_decide_eq_true, Z.ltb_lt.
  intros [[[?|[?| ->]]%is_alpha_range|H]| ->]; try lia; try by vm_compute.
  unfold is_digit in H. rewrite andb_true_iff, !Z.leb_le in H. lia.
Qed.

Lemma parameterNameRe_ascii b s : parameterNameRe_go b s = true → is_ascii s = true.
Proof. intros H%parameterNameRe_bytes. eapply sforall_impl; [apply param_byte_ascii|done]. Qed.

Lemma is_alpha_lower c : is_alpha_ (lower c) = is_alpha_ c.
Proof.
  destruct (lower_cases c) as [[H E]|[_ ->]]; [|done]. unfold is_alpha_. rewrite H, lower_not_upper.
  unfold is_upper, is_lower in *. rewrite andb_true_iff, !Z.leb_le in H.
  rewrite E, (proj2 (Z.leb_le 97 _)), (proj2 (Z.leb_le _ 122)) by lia. done.
Qed.

Lemma lower_fixed c : is_upper c = false → lower c = c.
Proof. unfold lower. by intros ->. Qed.

Lemma lower_eq_ascii c d : is_upper d = false → is_lower d = false → lower c = d ↔ c = d.
Proof.
  intros Hu Hl. destruct (lower_cases c) as [[H E]|[H ->]]; [|done].
  assert (bz (lower c) <> bz d ∧ c <> d) as [? ?]; [|split; congruence].
  split; [|congruence]. unfold is_upper, is_lower in *.
  rewrite andb_true_iff, !Z.leb_le in H. rewrite andb_false_iff, !Z.leb_gt in Hl. lia.
Qed.

Lemma is_digit_lower c : is_digit (lower c) = is_digit c.
Proof.
  destruct (lower_cases c) as [[H E]|[_ ->]]; [|done]. unfold is_upper, is_digit in *.
  rewrite andb_true_iff, !Z.leb_le in H. rewrite E.
  rewrite (proj2 (Z.leb_gt (bz c + 32) 57)), (proj2 (Z.leb_gt (bz c) 57)) by lia. by rewrite !andb_false_r.
Qed.

Lemma parameterNameRe_lower b s : parameterNameRe_go b (smap lower s) = parameterNameRe_go b s.
Proof.
  revert b. induction s as [|c s IH]; intros b; [done|]. cbn [smap parameterNameRe_go].
  rewrite is_alpha_lower, is_digit_lower, !IH. destruct b; [done|].
  by rewrite (decide_ext _ _ _ _ (lower_eq_ascii c "."%char eq_refl eq_refl)).
Qed.

Lemma NormalizeParameterName_inl name n :
  NormalizeParameterName name = inl n ↔
    (String.length name <= 127)%nat ∧ parameterNameRe name = true ∧ n = smap lower name.
Proof.
  unfold NormalizeParameterName, maxParameterNameLength.
  destruct (Nat.ltb_spec 127 (String.length name)); cbn [orb]; [naive_solver lia|].
  destruct (parameterNameRe name) eqn:E; cbn [negb]; [|naive_solver].
  rewrite ToLower_ascii by (by eapply parameterNameRe_ascii). naive_solver.
Qed.

Lemma smap_lower_idemp s : smap lower (smap lower s) = smap lower s.
Proof. induction s as [|c s IH]; simpl; [done|]. by rewrite lower_idemp, IH. Qed.

(** A normalised parameter name is canonical: it is again a valid name,
    has no upper-case letter, is its own normal form, and two accepted names
    have one normal form exactly when they differ in letter case only. *)
Theorem NormalizeParameterName_canonical name n :
  NormalizeParameterName name = inl n →
  parameterNameRe n = true ∧ sforall (λ c, negb (is_upper c)) n = true ∧
  NormalizeParameterName n = inl n ∧
  (∀ name' n', NormalizeParameterName name' = inl n' → (n = n' ↔ EqualFold name name' = true)).
Proof.
  intros (Hlen & Hre & ->)%NormalizeParameterName_inl. split_and!.
  - unfold parameterNameRe. by rewrite parameterNameRe_lower.
  - rewrite sforall_smap. clear. induction name as [|c s IH]; simpl; [done|]. by rewrite lower_not_upper.
  - apply NormalizeParameterName_inl. unfold parameterNameRe.
    by rewrite length_smap, parameterNameRe_lower, smap_lower_idemp.
  - intros name' n' (_ & Hre' & ->)%NormalizeParameterName_inl.
    unfold EqualFold. by rewrite bool_decide_eq_true, !fold_case_ascii by (by eapply parameterNameRe_ascii).
Qed.

Lemma NormalizeParameterName_canonical_witness :
  NormalizeParameterName "Work_Mem" = inl "work_mem" ∧
  (("work_mem" = "work_mem" ↔ EqualFold "Work_Mem" "WORK_mem" = true)).
Proof.
  split; [by vm_compute|].
  apply (NormalizeParameterName_canonical "Work_Mem" "work_mem"); by vm_compute.
Defined.

(** ** [splitIdentifierList] *)

Section lists.
Context {UL : UnicodeLower}.

Lemma length_skip_spaces s : (String.length (skip_spaces s) <= String.length s)%nat.
Proof. induction s as [|c s IH]; simpl; [done|]. destruct (isSpace c); simpl; lia. Qed.

Lemma length_read_doubled q s x r :
  read_doubled q s = Some (x, r) → (String.length r < String.length s)%nat.
Proof.
  revert x r. induction s as [s IH] using (induction_ltof1 _ String.length). unfold ltof in IH.
  intros x r. destruct s as [|c s]; [done|]. cbn [read_doubled]. case_decide.
  - destruct s as [|d s]; [intros; simplify_eq/=; lia|]. case_decide; [|intros; simplify_eq/=; lia].
    intros ([x' r'] & E & ?)%fmap_Some. simplify_eq/=. apply IH in E; simpl; lia.
  - intros ([x' r'] & E & ?)%fmap_Some. simplify_eq/=. apply IH in E; simpl; lia.
Qed.

Lemma length_until_comma s : (String.length (until_comma s).2 <= String.length s)%nat.
Proof. induction s as [|c s IH]; simpl; [done|]. case_decide; simpl; lia. Qed.

Lemma length_split_element s x r :
  split_element s = inl (x, r) → (String.length r <= String.length s)%nat.
Proof.
  destruct s as [|c s]; cbn [split_element]; [by intros [= <- <-]|]. case_decide.
  - destruct (read_doubled _ _) as [[e r']|] eqn:E; [|done]. intros [= <- <-].
    apply length_read_doubled in E. pose proof (length_skip_spaces r'). simpl. lia.
  - pose proof (length_until_comma (String c s)). destruct (until_comma _) as [raw rest]. simpl in *.
    case_match; intros; by simplify_eq.
Qed.

Lemma split_go_total fuel out s : (String.length s < fuel)%nat → split_go fuel out s ≠ None.
Proof.
  revert out s. induction fuel as [|fuel IH]; intros out s Hs; [lia|]. cbn [split_go].
  destruct (split_element _) as [[elem rest]|] eqn:E; [|done].
  apply length_split_element in E. pose proof (length_skip_spaces s).
  case_decide; [done|]. destruct rest as [|c rest]; [done|]. case_decide; [|done].
  apply IH. simpl in E. lia.
Qed.

Lemma split_go_nonempty fuel out s l :
  split_go fuel out s = Some (inl l) → Forall (λ x, x ≠ "") out → l ≠ [] ∧ Forall (λ x, x ≠ "") l.
Proof.
  revert out s. induction fuel as [|fuel IH]; intros out s; [done|]. cbn [split_go].
  destruct (split_element _) as [[elem rest]|]; [|done]. case_decide; [done|].
  destruct rest as [|c rest]; [|case_decide; [|done]].
  - intros [= <-] Hout. split; [by destruct out|]. by apply Forall_app_2, Forall_singleton.
  - intros H' Hout. eapply IH; [done|]. by apply Forall_app_2, Forall_singleton.
Qed.

(** The list loop of splitIdentifierList always terminates, with an error
    or with at least one element and no empty one. *)
Theorem splitIdentifierList_total s :
  ∃ r, split_go (S (String.length s)) [] s = Some r ∧ splitIdentifierList s = r ∧
       (∀ l, r = inl l → l ≠ [] ∧ Forall (λ x, x ≠ "") l).
Proof.
  unfold splitIdentifierList. destruct (split_go _ _ _) as [r|] eqn:E.
  - exists r. split_and!; [done..|]. intros l ->. by eapply split_go_nonempty.
  - exfalso. revert E. apply split_go_total. lia.
Qed.

Lemma split_element_quoted x rest :
  not_starting dquote rest → split_element (quoteIdent x +:+ rest) = inl (x, skip_spaces rest).
Proof.
  intros Hr. pose proof (read_quoted (q:=quoteIdent) x rest Hr) as H. revert H.
  unfold read_ident, after_quote, quoteIdent. simpl. by intros ->.
Qed.

Lemma skip_spaces_quoted x rest : skip_spaces (quoteIdent x +:+ rest) = quoteIdent x +:+ rest.
Proof. done. Qed.

Lemma split_go_space fuel out s : split_go fuel out (String " " s) = split_go fuel out s.
Proof. by destruct fuel. Qed.

Lemma split_go_quoted fuel out l :
  (length l <= fuel)%nat → l ≠ [] → Forall (λ x, x ≠ "") l →
  split_go fuel out (Join (quoteIdent <$> l) ", ") = Some (inl (out ++ l)).
Proof.
  revert fuel out. induction l as [|x l IH]; intros fuel out Hf Hne Hall; [done|].
  apply Forall_cons in Hall as [Hx Hl]. destruct fuel as [|fuel]; simpl in Hf; [lia|].
  destruct l as [|y l].
  - cbn [split_go fmap list_fmap Join]. rewrite <- (app_nil_r_s (quoteIdent x)).
    rewrite skip_spaces_quoted, split_element_quoted by done. cbn [skip_spaces]. by rewrite decide_False.
  - rewrite !fmap_cons, Join_cons2, <- fmap_cons. cbn [split_go].
    rewrite skip_spaces_quoted, split_element_quoted by done.
    simpl skip_spaces. rewrite decide_False by done.
    change (", " +:+ ?s) with (String "," (String " " s)). cbv beta iota.
    rewrite decide_True by done. rewrite split_go_space, IH by (simpl in *; first [done|lia]).
    by rewrite <- app_assoc.
Qed.

(** Quoting the elements of a list as identifiers and joining them with
    commas is undone by splitIdentifierList: every non-empty list of non-empty
    names survives, whatever characters the names contain. *)
Theorem splitIdentifierList_quoted l :
  l ≠ [] → Forall (λ x, x ≠ "") l → splitIdentifierList (Join (quoteIdent <$> l) ", ") = inl l.
Proof.
  intros Hne Hall. unfold splitIdentifierList. rewrite split_go_quoted; [done| |done..].
  clear. assert (∀ l, (length l <= String.length (Join (quoteIdent <$> l) ", "))%nat) as H; [|specialize (H l); lia].
  clear l. assert (∀ x, (1 <= String.length (quoteIdent x))%nat) as Hq by (intros; unfold quoteIdent; simpl; lia).
  induction l as [|x [|y l] IH]; [cbn; lia|apply Hq|].
  rewrite !fmap_cons, Join_cons2, <- fmap_cons, !length_app_s. specialize (Hq x).
  cbn [length] in *. lia.
Qed.
End lists.

Lemma splitIdentifierList_quoted_witness :
  splitIdentifierList (UL := ascii_case) (Join (quoteIdent <$> ["$user"; "a,b "; "public"]) ", ") = inl ["$user"; "a,b "; "public"].
Proof.
  apply (splitIdentifierList_quoted (UL := ascii_case) ["$user"; "a,b "; "public"]); [done|].
  repeat constructor; done.
Defined.

(** A SET clause assigns exactly the requested value to exactly the
    requested parameter: the name is the quoted parts of its normal form, and
    the value is one quoted literal holding the text as given, or for a list
    parameter one quoted literal per (non-empty) element of the list. *)
Theorem buildSetClause_shape {UL : UnicodeLower} parameter value clause :
  buildSetClause parameter value = inl clause →
  ∃ n vals, NormalizeParameterName parameter = inl n ∧
    clause = "SET " +:+ Join (quoteIdent <$> Split n ".") "." +:+ " TO " +:+ Join (quoteLiteral <$> vals) ", " ∧
    if slices_Contains listQuoteParameters n
    then splitIdentifierList value = inl vals ∧ vals ≠ [] ∧ Forall (λ x, x ≠ "") vals
    else vals = [value].
Proof.
  unfold buildSetClause, quoteParameterName. destruct (NormalizeParameterName parameter) as [n|]; [|done].
  unfold formatSettingValue. destruct (slices_Contains _ n) eqn:El; cbn [negb].
  - destruct (is_blank value); [done|]. destruct (splitIdentifierList value) as [vals|] eqn:Es; [|done].
    intros [= <-]. exists n, vals. rewrite El. split_and!; [done..| |].
    all: destruct (splitIdentifierList_total value) as (r & _ & <- & Hr); by apply Hr.
  - intros [= <-]. exists n, [value]. by rewrite El.
Qed.

Lemma buildSetClause_shape_witness :
  ∃ n vals, NormalizeParameterName "Work_Mem" = inl n ∧
    "SET " +:+ quoteIdent "work_mem" +:+ " TO " +:+ quoteLiteral "64MB" =
    "SET " +:+ Join (quoteIdent <$> Split n ".") "." +:+ " TO " +:+ Join (quoteLiteral <$> vals) ", " ∧
    if slices_Contains listQuoteParameters n
    then splitIdentifierList (UL := ascii_case) "64MB" = inl vals ∧ vals ≠ [] ∧ Forall (λ x, x ≠ "") vals
    else vals = ["64MB"].
Proof. apply (buildSetClause_shape (UL := ascii_case) "Work_Mem" "64MB"). by vm_compute. Defined.

(** The denylist cannot be evaded by letter case: a valid parameter name is
    refused exactly when its normal form is, and the normal form is refused
    exactly when it is listed or lies in a denied namespace. *)
Theorem DeniedParameter_case_insensitive name n :
  NormalizeParameterName name = inl n →
  DeniedParameter name = DeniedParameter n ∧
  (DeniedParameter n = true ↔ n ∈ deniedParameters ∨ ∃ p, p ∈ deniedParameterPrefixes ∧ ∃ r, n = p +:+ r).
Proof.
  intros (_ & Hre & ->)%NormalizeParameterName_inl.
  pose proof (parameterNameRe_ascii _ _ Hre) as Ha.
  assert (is_ascii (smap lower name) = true) as Ha'.
  { eapply (parameterNameRe_ascii true). by rewrite parameterNameRe_lower. }
  unfold DeniedParameter. rewrite !ToLower_ascii, smap_lower_idemp by done. split; [done|].
  rewrite orb_true_iff, slices_Contains_true, existsb_exists.
  setoid_rewrite HasPrefix_spec. by setoid_rewrite <- list_elem_of_In.
Qed.

Lemma DeniedParameter_case_insensitive_witness :
  DeniedParameter "PgAudit.Log" = DeniedParameter "pgaudit.log" ∧ DeniedParameter "pgaudit.log" = true.
Proof.
  split; [|by vm_compute].
  apply (proj1 (DeniedParameter_case_insensitive "PgAudit.Log" "pgaudit.log" ltac:(by vm_compute))).
Defined.
