(* ===== verification/Privileges.v ===== *)
(** * Privileges: privilege lists and the GRANT/REVOKE statement builders

    internal/postgres/privileges.go (database, schema and parameter privileges)
    and internal/postgres/objects.go (privileges on schema objects and default
    privileges): the allow-lists, the canonical forms the grant engine compares,
    and the statements pgop sends. *)

From S2P Require Import Prelude GoStrings GoStrconv Quoting Parameters.
Open Scope Z_scope.

(** ** Privilege keywords and allow-lists *)

Definition PrivilegeAll : string := "ALL".
Definition PrivilegeConnect : string := "CONNECT".
Definition PrivilegeCreate : string := "CREATE".
Definition PrivilegeTemporary : string := "TEMPORARY".
Definition PrivilegeTemp : string := "TEMP".
Definition PrivilegeUsage : string := "USAGE".
Definition PrivilegeSet : string := "SET".
Definition privilegeAllPrivileges : string := "ALL PRIVILEGES".

Definition schemaPrivileges : list string := [PrivilegeUsage; PrivilegeCreate; PrivilegeAll].
Definition databasePrivileges : list string :=
  [PrivilegeConnect; PrivilegeCreate; PrivilegeTemporary; PrivilegeTemp; PrivilegeAll].
Definition parameterPrivileges : list string := [PrivilegeSet].

(** The upper-cased keyword a privilege is read as. *)
Definition privilege_keyword (p : string) : string :=
  let u := ToUpper (Join (Fields p) " ") in
  if decide (u = privilegeAllPrivileges) then PrivilegeAll else u.

Fixpoint checkPrivileges_go (kind : string) (allowed out privs : list string) : result (list string) :=
  match privs with
  | [] => inl out
  | p :: privs =>
      let u := privilege_keyword p in
      if negb (slices_Contains allowed u)
      then inr (Errorf "invalid %s privilege %q (allowed: %s)" [kind; p; Join allowed ", "])
      else checkPrivileges_go kind allowed (if slices_Contains out u then out else out ++ [u]) privs
  end.

Definition checkPrivileges (kind : string) (privs allowed : list string) : result (list string) :=
  match privs with
  | [] => inr (Errorf "no %s privileges given" [kind])
  | _ => checkPrivileges_go kind allowed [] privs
  end.

(** What each checked keyword stands for on a database, and on a schema. *)
Definition expandDatabase (p : string) : list string :=
  if decide (p = PrivilegeAll) then [PrivilegeConnect; PrivilegeCreate; PrivilegeTemporary]
  else if decide (p = PrivilegeTemp) then [PrivilegeTemporary] else [p].
Definition expandSchema (p : string) : list string :=
  if decide (p = PrivilegeAll) then [PrivilegeCreate; PrivilegeUsage] else [p].

Definition NormalizeDatabasePrivileges (privs : list string) : result (list string) :=
  try checked := checkPrivileges "database" privs databasePrivileges in
  inl (slices_Compact (slices_Sort (checked ≫= expandDatabase))).

Definition NormalizeSchemaPrivileges (privs : list string) : result (list string) :=
  try checked := checkPrivileges "schema" privs schemaPrivileges in
  inl (slices_Compact (slices_Sort (checked ≫= expandSchema))).

Definition NormalizeParameterPrivileges (privs : list string) : result (list string) :=
  match privs with
  | [] => inl [PrivilegeSet]
  | _ => try out := checkPrivileges "parameter" privs parameterPrivileges in inl (slices_Sort out)
  end.

(** ** Objects and grantees *)

(** ObjectKind is a Go string type. *)
Definition ObjectKind : Type := string.
Definition ObjectDatabase : ObjectKind := "DATABASE".
Definition ObjectSchema : ObjectKind := "SCHEMA".
Definition ObjectParameter : ObjectKind := "PARAMETER".

Record objectKind := ObjectKindInfo {
  label : string;
  privileges_of : list string;
  render_of : string → result string;
}.

Definition quotedName (keyword name : string) : result string :=
  if decide (name = "") then inr (Errorf "empty object name" []) else inl (keyword +:+ " " +:+ quoteIdent name).

(** The map objectKinds. *)
Definition objectKinds (k : ObjectKind) : option objectKind :=
  if decide (k = ObjectDatabase) then Some (ObjectKindInfo "database" databasePrivileges (quotedName "DATABASE"))
  else if decide (k = ObjectSchema) then Some (ObjectKindInfo "schema" schemaPrivileges (quotedName "SCHEMA"))
  else if decide (k = ObjectParameter)
  then Some (ObjectKindInfo "parameter" parameterPrivileges
               (λ name, try quoted := quoteParameterName name in inl ("PARAMETER " +:+ quoted)))
  else None.

Record PrivilegeObject := { po_Kind : ObjectKind; po_Name : string }.

#[export] Instance PrivilegeObject_eq_dec : EqDecision PrivilegeObject.
Proof. solve_decision. Defined.

Definition PrivilegeObject_render (o : PrivilegeObject) (privs : list string) : result (list string * string) :=
  match objectKinds (po_Kind o) with
  | None => inr (Errorf "unsupported object kind %q" [po_Kind o])
  | Some k =>
      try checked := checkPrivileges (label k) privs (privileges_of k) in
      try object := render_of k (po_Name o) in
      inl (checked, object)
  end.

Definition PublicGrantee : string := "PUBLIC".
Definition IsPublic (grantee : string) : bool := EqualFold grantee PublicGrantee.
Definition CanonicalGrantee (grantee : string) : string := if IsPublic grantee then PublicGrantee else grantee.

Definition renderGrantee (grantee : string) : result string :=
  if decide (grantee = "") then inr (Errorf "empty grantee" [])
  else if IsPublic grantee then inl PublicGrantee
  else if EqualFold grantee "none" then inr (Errorf "invalid grantee %q: the role name none is reserved" [grantee])
  else inl (quoteIdent grantee).

(** ** GRANT and REVOKE *)

Definition buildGrantQuery (privs : list string) (object grantee : string) (withGrantOption : bool) : string :=
  "GRANT " +:+ Join privs ", " +:+ " ON " +:+ object +:+ " TO " +:+ grantee
    +:+ (if withGrantOption then " WITH GRANT OPTION" else "").

Record RevokeMode := { GrantOptionOnly : bool; Cascade : bool }.

Definition buildRevokeQuery (privs : list string) (object grantee : string) (mode : RevokeMode) : string :=
  "REVOKE " +:+ (if GrantOptionOnly mode then "GRANT OPTION FOR " else "")
    +:+ Join privs ", " +:+ " ON " +:+ object +:+ " FROM " +:+ grantee
    +:+ (if Cascade mode then " CASCADE" else "").

Definition errPublicGrantOption : gerr := Errorf "the grant option cannot be granted to PUBLIC" [].

Definition buildGrantPrivilegesQuery (obj : PrivilegeObject) (grantee : string) (privileges : list string)
    (withGrantOption : bool) : result string :=
  try (privs, object) := PrivilegeObject_render obj privileges in
  try to := renderGrantee grantee in
  if withGrantOption && bool_decide (to = PublicGrantee) then inr errPublicGrantOption
  else inl (buildGrantQuery privs object to withGrantOption).

Definition buildRevokePrivilegesQuery (obj : PrivilegeObject) (grantee : string) (privileges : list string)
    (mode : RevokeMode) : result string :=
  try (privs, object) := PrivilegeObject_render obj privileges in
  try from := renderGrantee grantee in
  inl (buildRevokeQuery privs object from mode).

(** ** Schema objects and default privileges (objects.go) *)

Definition SchemaTable : string := "TABLE".
Definition SchemaSequence : string := "SEQUENCE".
Definition SchemaFunction : string := "FUNCTION".
Definition SchemaProcedure : string := "PROCEDURE".
Definition SchemaType : string := "TYPE".

(** SchemaObjectPrivileges; [None] for an unsupported kind. *)
Definition SchemaObjectPrivileges (k : string) : option (list string) :=
  if decide (k = SchemaTable)
  then Some ["SELECT"; "INSERT"; "UPDATE"; "DELETE"; "TRUNCATE"; "REFERENCES"; "TRIGGER"; "MAINTAIN"]
  else if decide (k = SchemaSequence) then Some [PrivilegeUsage; "SELECT"; "UPDATE"]
  else if decide (k = SchemaFunction) then Some ["EXECUTE"]
  else if decide (k = SchemaProcedure) then Some ["EXECUTE"]
  else if decide (k = SchemaType) then Some [PrivilegeUsage]
  else None.

Definition buildSchemaObjectPrivilegesQuery (grant : bool) (kind canonical grantee : string)
    (privileges : list string) (withGrantOption : bool) (mode : RevokeMode) : result string :=
  match SchemaObjectPrivileges kind with
  | None => inr (Errorf "unsupported object kind %q" [kind])
  | Some allowed =>
      try privs := checkPrivileges (ToLower kind) privileges allowed in
      if decide (canonical = "") then inr (Errorf "empty object identity" [])
      else
      try who := renderGrantee grantee in
      let object := kind +:+ " " +:+ canonical in
      if negb grant then inl (buildRevokeQuery privs object who mode)
      else if withGrantOption && bool_decide (who = PublicGrantee) then inr errPublicGrantOption
      else inl (buildGrantQuery privs object who withGrantOption)
  end.

(** defaultObjectKinds: pg_default_acl.defaclobjtype and the object kind. *)
Definition defaultObjectKinds (k : string) : option (string * string) :=
  if decide (k = "TABLES") then Some ("r", SchemaTable)
  else if decide (k = "SEQUENCES") then Some ("S", SchemaSequence)
  else if decide (k = "FUNCTIONS") then Some ("f", SchemaFunction)
  else if decide (k = "TYPES") then Some ("T", SchemaType)
  else None.

Record DefaultPrivilegesTarget := { dt_ForRole : string; dt_Schema : string; dt_Kind : string }.

Definition buildDefaultPrivilegesQuery (grant : bool) (t : DefaultPrivilegesTarget) (grantee : string)
    (privileges : list string) (withGrantOption : bool) (mode : RevokeMode) : result string :=
  match defaultObjectKinds (dt_Kind t) with
  | None => inr (Errorf "unsupported default privilege kind %q" [dt_Kind t])
  | Some (_, object) =>
      try privs := checkPrivileges (ToLower object) privileges (default [] (SchemaObjectPrivileges object)) in
      if bool_decide (dt_ForRole t = "") || bool_decide (dt_Schema t = "")
      then inr (Errorf "default privileges need a role and a schema" [])
      else if IsPublic (dt_ForRole t) then inr (Errorf "default privileges cannot be set for PUBLIC" [])
      else
      try who := renderGrantee grantee in
      let prefix := "ALTER DEFAULT PRIVILEGES FOR ROLE " +:+ quoteIdent (dt_ForRole t)
                      +:+ " IN SCHEMA " +:+ quoteIdent (dt_Schema t) +:+ " " in
      if negb grant then inl (prefix +:+ buildRevokeQuery privs (dt_Kind t) who mode)
      else if withGrantOption && bool_decide (who = PublicGrantee) then inr errPublicGrantOption
      else inl (prefix +:+ buildGrantQuery privs (dt_Kind t) who withGrantOption)
  end.

(** An ACL item granted by the object's owner, and SchemaObject.Held. *)
Record ACLItem := { acl_Grantee : Z; acl_Privilege : string; acl_Grantable : bool }.

Definition SchemaObject_Held (OwnerOID : Z) (ACL : list ACLItem) (grantee : Z) : list string * list string :=
  let mine := filter (λ a, acl_Grantee a = grantee) ACL in
  let may := filter (λ a, acl_Grantable a = true ∨ acl_Grantee a = OwnerOID) mine in
  (slices_Compact (slices_Sort (acl_Privilege <$> mine)), slices_Compact (slices_Sort (acl_Privilege <$> may))).

(** ** Canonical privilege lists *)

Lemma checkPrivileges_go_spec kind allowed out privs l :
  checkPrivileges_go kind allowed out privs = inl l →
  (∀ x, x ∈ l ↔ x ∈ out ∨ ∃ p, p ∈ privs ∧ x = privilege_keyword p) ∧
  (NoDup out → NoDup l) ∧ (∀ p, p ∈ privs → privilege_keyword p ∈ allowed).
Proof.
  revert out. induction privs as [|p privs IH]; intros out; cbn [checkPrivileges_go].
  { intros [= <-]. split_and!; [set_solver|done|set_solver]. }
  destruct (slices_Contains allowed _) eqn:Ea; cbn [negb]; [|done].
  intros (Hl & Hn & Ha)%IH. apply slices_Contains_true in Ea.
  destruct (slices_Contains out _) eqn:Eo.
  - apply slices_Contains_true in Eo. split_and!; [|done|set_solver].
    intros x. rewrite Hl. setoid_rewrite elem_of_cons. naive_solver.
  - apply slices_Contains_false in Eo. split_and!; [| |set_solver].
    + intros x. rewrite Hl, elem_of_app, list_elem_of_singleton. setoid_rewrite elem_of_cons. naive_solver.
    + intros Ho. apply Hn, NoDup_app. split_and!; [done|set_solver|apply NoDup_singleton].
Qed.

Lemma checkPrivileges_go_fixed kind allowed out privs :
  (∀ p, p ∈ privs → privilege_keyword p = p ∧ p ∈ allowed) → NoDup (out ++ privs) →
  checkPrivileges_go kind allowed out privs = inl (out ++ privs).
Proof.
  revert out. induction privs as [|p privs IH]; intros out Hp Hn; cbn [checkPrivileges_go].
  { by rewrite app_nil_r. }
  destruct (Hp p) as [-> Ha]; [set_solver|].
  rewrite (proj2 (slices_Contains_true _ _) Ha). cbn [negb].
  rewrite (proj2 (slices_Contains_false out p)); [|apply NoDup_app in Hn; set_solver].
  rewrite IH, <- app_assoc; [done|set_solver|]. by rewrite <- app_assoc.
Qed.

(** The specification of a normaliser: what the list stands for. *)
Definition canonical_privileges (atoms : list string) (expand : string → list string)
    (normalize : list string → result (list string)) : Prop :=
  ∀ privs l, normalize privs = inl l →
    StronglySorted String.le l ∧ NoDup l ∧ l ≠ [] ∧ (∀ x, x ∈ l → x ∈ atoms) ∧
    (∀ x, x ∈ l ↔ ∃ p, p ∈ privs ∧ x ∈ expand (privilege_keyword p)) ∧
    normalize l = inl l.

Section normalize.
Context (kind : string) (allowed atoms : list string) (expand : string → list string).
Hypothesis expand_atoms : ∀ p, p ∈ allowed → expand p ≠ [] ∧ ∀ x, x ∈ expand p → x ∈ atoms.
Hypothesis atoms_fixed : ∀ p, p ∈ atoms → privilege_keyword p = p ∧ p ∈ allowed ∧ expand p = [p].

Let normalize privs :=
  try checked := checkPrivileges kind privs allowed in inl (slices_Compact (slices_Sort (checked ≫= expand))).

Lemma normalize_canonical : canonical_privileges atoms expand normalize.
Proof.
  intros privs l. unfold normalize, checkPrivileges. destruct privs as [|p0 privs]; [done|].
  destruct (checkPrivileges_go _ _ _ _) as [checked|] eqn:E; [|done]. intros [= <-].
  apply checkPrivileges_go_spec in E as (Hc & _ & Ha).
  set (l := slices_Compact _).
  assert (Hl : ∀ x, x ∈ l ↔ ∃ p, p ∈ p0 :: privs ∧ x ∈ expand (privilege_keyword p)).
  { intros x. unfold l. rewrite elem_of_slices_Compact, elem_of_slices_Sort, list_elem_of_bind.
    setoid_rewrite Hc. set_solver. }
  assert (Hat : ∀ x, x ∈ l → x ∈ atoms).
  { intros x (p & Hp & Hx)%Hl. exact (proj2 (expand_atoms _ (Ha p Hp)) x Hx). }
  assert (Hs : StronglySorted String.le l) by (apply slices_Compact_sorted, slices_Sort_sorted).
  assert (Hn : NoDup l) by (apply slices_Compact_NoDup, slices_Sort_sorted).
  assert (Hne : l ≠ []).
  { assert (p0 ∈ p0 :: privs) as Hp0 by by left.
    destruct (expand_atoms _ (Ha p0 Hp0)) as [Hne _].
    destruct (expand (privilege_keyword p0)) as [|y ys] eqn:Ey; [done|].
    assert (y ∈ l) as Hy by (apply Hl; exists p0; rewrite Ey; by repeat constructor).
    intros ->. by apply elem_of_nil in Hy. }
  split_and!; [done..|]. clearbody l. destruct l as [|y l]; [done|].
  rewrite checkPrivileges_go_fixed; [|intros p Hp; split; by apply atoms_fixed, Hat|done].
  rewrite app_nil_l. replace ((y :: l) ≫= expand) with (y :: l).
  { by rewrite slices_Sort_id, slices_Compact_id. }
  clear -atoms_fixed Hat. generalize dependent (y :: l). clear y l.
  intros l Hat. induction l as [|x l IH]; [done|]. cbn.
  destruct (atoms_fixed x) as (_ & _ & ->); [set_solver|]. cbn. f_equal. apply IH. set_solver.
Qed.
End normalize.

Ltac list_cases H :=
  repeat (apply elem_of_cons in H as [->|H]; [|]); [..|by apply elem_of_nil in H].

(** NormalizeDatabasePrivileges returns a canonical form: sorted, free of
    duplicates, only CONNECT, CREATE and TEMPORARY, standing for exactly the
    privileges the input lists (ALL for all three, TEMP for TEMPORARY, any
    letter case and spacing), and normalising it again changes nothing. *)
Theorem NormalizeDatabasePrivileges_canonical :
  canonical_privileges [PrivilegeConnect; PrivilegeCreate; PrivilegeTemporary] expandDatabase NormalizeDatabasePrivileges.
Proof.
  apply normalize_canonical; intros p Hp; list_cases Hp; split_and!; try by_decide.
  all: apply Forall_forall; by_decide.
Qed.

(** The same for schema privileges: CREATE and USAGE, ALL for both. *)
Theorem NormalizeSchemaPrivileges_canonical :
  canonical_privileges [PrivilegeCreate; PrivilegeUsage] expandSchema NormalizeSchemaPrivileges.
Proof.
  apply normalize_canonical; intros p Hp; list_cases Hp; split_and!; try by_decide.
  all: apply Forall_forall; by_decide.
Qed.

(** ** What the statements say *)

Lemma checkPrivileges_spec kind privs allowed l :
  checkPrivileges kind privs allowed = inl l →
  l ≠ [] ∧ NoDup l ∧ (∀ x, x ∈ l ↔ ∃ p, p ∈ privs ∧ x = privilege_keyword p) ∧ (∀ x, x ∈ l → x ∈ allowed).
Proof.
  unfold checkPrivileges. destruct privs as [|p0 privs]; [done|].
  intros (Hl & Hn & Ha)%checkPrivileges_go_spec. split_and!.
  - assert (privilege_keyword p0 ∈ l) as H by (apply Hl; right; exists p0; by repeat constructor).
    intros ->. by apply elem_of_nil in H.
  - by apply Hn, NoDup_nil.
  - intros x. rewrite Hl. split; [intros [H|H]; [by apply elem_of_nil in H|done]|by right].
  - intros x [H|(p & Hp & ->)]%Hl; [by apply elem_of_nil in H|by apply Ha].
Qed.

Lemma renderGrantee_inl grantee who :
  renderGrantee grantee = inl who ↔
    IsPublic grantee = true ∧ who = PublicGrantee ∧ grantee ≠ "" ∨
    IsPublic grantee = false ∧ who = quoteIdent grantee ∧ grantee ≠ "" ∧ EqualFold grantee "none" = false.
Proof. unfold renderGrantee. case_decide; [naive_solver|]. repeat case_match; naive_solver. Qed.

Lemma quoteIdent_not_public s : quoteIdent s ≠ PublicGrantee.
Proof. done. Qed.

(** The grantee part every GRANT shares: PUBLIC as the bare keyword and never
    with the grant option, any other role as a quoted identifier. *)
Definition grantee_rendered (grantee who : string) (withGrantOption : bool) : Prop :=
  IsPublic grantee = true ∧ who = PublicGrantee ∧ withGrantOption = false ∨
  IsPublic grantee = false ∧ who = quoteIdent grantee ∧ EqualFold grantee "none" = false.

Lemma grantee_rendered_intro grantee who wgo :
  renderGrantee grantee = inl who → wgo && bool_decide (who = PublicGrantee) = false →
  grantee_rendered grantee who wgo.
Proof.
  intros [(Hp & -> & _)|(Hp & -> & _ & Hn)]%renderGrantee_inl H.
  - left. split_and!; [done..|]. by destruct wgo.
  - by right.
Qed.

(** A GRANT that buildGrantPrivilegesQuery produces names the requested
    object and grantee and grants exactly the requested privileges, all of them
    on the kind's allow-list; PUBLIC is never given the grant option and no other
    role name can be read as PUBLIC. *)
Theorem buildGrantPrivilegesQuery_safe obj grantee privs wgo q :
  buildGrantPrivilegesQuery obj grantee privs wgo = inl q →
  ∃ k ps object who,
    objectKinds (po_Kind obj) = Some k ∧ render_of k (po_Name obj) = inl object ∧
    q = "GRANT " +:+ Join ps ", " +:+ " ON " +:+ object +:+ " TO " +:+ who
          +:+ (if wgo then " WITH GRANT OPTION" else "") ∧
    ps ≠ [] ∧ NoDup ps ∧ (∀ x, x ∈ ps ↔ ∃ p, p ∈ privs ∧ x = privilege_keyword p) ∧
    (∀ x, x ∈ ps → x ∈ privileges_of k) ∧ grantee_rendered grantee who wgo.
Proof.
  unfold buildGrantPrivilegesQuery, PrivilegeObject_render.
  destruct (objectKinds _) as [k|] eqn:Ek; [|done].
  destruct (checkPrivileges _ _ _) as [ps|] eqn:Ep; [|done].
  destruct (render_of k _) as [object|] eqn:Eo; [|done].
  destruct (renderGrantee grantee) as [who|] eqn:Ew; [|done].
  destruct (wgo && _) eqn:Eb; [done|]. intros [= <-].
  apply checkPrivileges_spec in Ep as (? & ? & ? & ?).
  exists k, ps, object, who. split_and!; try done. by apply grantee_rendered_intro.
Qed.

Lemma buildGrantPrivilegesQuery_safe_witness :
  ∃ k ps object who,
    objectKinds ObjectDatabase = Some k ∧ render_of k "app" = inl object ∧
    "GRANT CONNECT ON DATABASE " +:+ quoteIdent "app" +:+ " TO PUBLIC" =
      "GRANT " +:+ Join ps ", " +:+ " ON " +:+ object +:+ " TO " +:+ who +:+ "" ∧
    ps ≠ [] ∧ NoDup ps ∧ (∀ x, x ∈ ps ↔ ∃ p, p ∈ [" connect"] ∧ x = privilege_keyword p) ∧
    (∀ x, x ∈ ps → x ∈ privileges_of k) ∧ grantee_rendered "Public" who false.
Proof.
  apply (buildGrantPrivilegesQuery_safe {| po_Kind := ObjectDatabase; po_Name := "app" |} "Public" [" connect"] false).
  by vm_compute.
Defined.

(** Default privileges are only ever changed for a named role (never
    PUBLIC) in a named schema, with privileges on the allow-list of the kind of
    object, and PUBLIC is never given the grant option. *)
Theorem buildDefaultPrivilegesQuery_safe t grantee privs wgo mode q :
  buildDefaultPrivilegesQuery true t grantee privs wgo mode = inl q →
  ∃ objtype object allowed ps who,
    defaultObjectKinds (dt_Kind t) = Some (objtype, object) ∧ SchemaObjectPrivileges object = Some allowed ∧
    q = ("ALTER DEFAULT PRIVILEGES FOR ROLE " +:+ quoteIdent (dt_ForRole t) +:+ " IN SCHEMA " +:+
          quoteIdent (dt_Schema t) +:+ " ") +:+ buildGrantQuery ps (dt_Kind t) who wgo ∧
    IsPublic (dt_ForRole t) = false ∧ dt_ForRole t ≠ "" ∧ dt_Schema t ≠ "" ∧
    ps ≠ [] ∧ (∀ x, x ∈ ps → x ∈ allowed) ∧ grantee_rendered grantee who wgo.
Proof.
  unfold buildDefaultPrivilegesQuery.
  destruct (defaultObjectKinds _) as [[objtype object]|] eqn:Ek; [|done].
  destruct (checkPrivileges _ _ _) as [ps|] eqn:Ep; [|done].
  destruct (bool_decide (dt_ForRole t = "") || _) eqn:Eb; [done|].
  destruct (IsPublic _) eqn:Ei; [done|].
  destruct (renderGrantee grantee) as [who|] eqn:Ew; [|done]. cbn [negb].
  destruct (wgo && _) eqn:Eg; [done|]. intros [= <-].
  apply orb_false_iff in Eb as [?%bool_decide_eq_false ?%bool_decide_eq_false].
  assert (∃ allowed, SchemaObjectPrivileges object = Some allowed) as [allowed Ha].
  { unfold defaultObjectKinds in Ek. repeat (case_decide; [simplify_eq; by eexists|]). done. }
  rewrite Ha in Ep. apply checkPrivileges_spec in Ep as (? & ? & ? & ?).
  exists objtype, object, allowed, ps, who.
  split_and!; try done. by apply grantee_rendered_intro.
Qed.

Lemma buildDefaultPrivilegesQuery_safe_witness :
  let t := {| dt_ForRole := "owner"; dt_Schema := "app"; dt_Kind := "TABLES" |} in
  ∃ q, buildDefaultPrivilegesQuery true t "reader" ["select"] false {| GrantOptionOnly := false; Cascade := false |} = inl q ∧
    ∃ objtype object allowed ps who,
    defaultObjectKinds (dt_Kind t) = Some (objtype, object) ∧ SchemaObjectPrivileges object = Some allowed ∧
    q = ("ALTER DEFAULT PRIVILEGES FOR ROLE " +:+ quoteIdent (dt_ForRole t) +:+ " IN SCHEMA " +:+
          quoteIdent (dt_Schema t) +:+ " ") +:+ buildGrantQuery ps (dt_Kind t) who false ∧
    IsPublic (dt_ForRole t) = false ∧ dt_ForRole t ≠ "" ∧ dt_Schema t ≠ "" ∧
    ps ≠ [] ∧ (∀ x, x ∈ ps → x ∈ allowed) ∧ grantee_rendered "reader" who false.
Proof.
  intros t. eexists. split; [by vm_compute|].
  eapply (buildDefaultPrivilegesQuery_safe t "reader" ["select"] false {| GrantOptionOnly := false; Cascade := false |}).
  by vm_compute.
Defined.
