(* ===== verification/RoleSql.v ===== *)
(** * Role statements and connection strings (src/internal/postgres/client.go,
    dsn.go, scram.go)

    The statements that create, alter, comment on, drop and reassign roles and
    the ones that change memberships, as the text the server receives;
    [CreateRole]'s control flow over an abstract session; the libpq connection
    string of an operator session. What the server and lib/pq do with the text
    is a parameter ([Session], [RegisterTLSConfig]). *)

From Stdlib Require Import Ascii.
From S2P Require Import Prelude GoStrings GoStrconv Quoting.

(** ** Memberships *)

Record MembershipOptions := { mo_Admin : bool; mo_Inherit : option bool; mo_Set : option bool }.

#[export] Instance MembershipOptions_eq_dec : EqDecision MembershipOptions.
Proof. solve_decision. Defined.

Definition FormatBool (b : bool) : string := if b then "true" else "false".

(** The elements of the WITH clause. *)
Definition membership_with (o : MembershipOptions) : list string :=
  (if mo_Admin o then ["ADMIN OPTION"] else [])
    ++ (match mo_Inherit o with Some b => ["INHERIT " +:+ ToUpper (FormatBool b)] | None => [] end)
    ++ (match mo_Set o with Some b => ["SET " +:+ ToUpper (FormatBool b)] | None => [] end).

Definition buildGrantRoleQuery (role member : string) (opts : MembershipOptions) : string :=
  "GRANT " +:+ quoteIdent role +:+ " TO " +:+ quoteIdent member
    +:+ (match membership_with opts with [] => "" | w => " WITH " +:+ Join w ", " end).

Definition RevokeAdminOption_query (role member : string) : string :=
  "REVOKE ADMIN OPTION FOR " +:+ quoteIdent role +:+ " FROM " +:+ quoteIdent member.

Definition RevokeRole_query (role member : string) : string :=
  "REVOKE " +:+ quoteIdent role +:+ " FROM " +:+ quoteIdent member.

(** ** Roles *)

Record RoleOptions := {
  ro_Login : bool;
  ro_CreateDB : bool;
  ro_CreateRole : bool;
  ro_Inherit : bool;
  ro_Replication : bool;
  ro_BypassRLS : bool;
  ro_ConnectionLimit : Z;
  ro_Password : string;
  ro_KeepExistingPassword : bool;
  ro_Comment : string;
  ro_CreateOnly : bool }.

Definition with_Password (o : RoleOptions) (p : string) : RoleOptions :=
  {| ro_Login := ro_Login o; ro_CreateDB := ro_CreateDB o; ro_CreateRole := ro_CreateRole o;
     ro_Inherit := ro_Inherit o; ro_Replication := ro_Replication o; ro_BypassRLS := ro_BypassRLS o;
     ro_ConnectionLimit := ro_ConnectionLimit o; ro_Password := p;
     ro_KeepExistingPassword := ro_KeepExistingPassword o; ro_Comment := ro_Comment o;
     ro_CreateOnly := ro_CreateOnly o |}.

Definition flag (b : bool) (keyword : string) : string := if b then keyword else "NO" +:+ keyword.

Definition buildRoleOptions (o : RoleOptions) : list string :=
  [flag (ro_Login o) "LOGIN"; "NOSUPERUSER"; flag (ro_CreateDB o) "CREATEDB"; flag (ro_CreateRole o) "CREATEROLE";
   flag (ro_Inherit o) "INHERIT"; flag (ro_Replication o) "REPLICATION"; flag (ro_BypassRLS o) "BYPASSRLS";
   "CONNECTION LIMIT " +:+ Itoa (ro_ConnectionLimit o)]
    ++ (if decide (ro_Password o = "") then [] else ["PASSWORD " +:+ quoteLiteral (ro_Password o)]).

Definition buildCreateRoleQuery (name : string) (opts : RoleOptions) : string :=
  Join (("CREATE ROLE " +:+ quoteIdent name) :: buildRoleOptions opts) " ".

Definition buildAlterRoleQuery (name : string) (opts : RoleOptions) : string :=
  Join (("ALTER ROLE " +:+ quoteIdent name) :: buildRoleOptions opts) " ".

Definition buildRoleQuery (name : string) (exists_ : bool) (opts : RoleOptions) : string :=
  if negb exists_ then buildCreateRoleQuery name opts
  else buildAlterRoleQuery name (if ro_KeepExistingPassword opts then with_Password opts "" else opts).

Definition buildCommentQuery (kind name comment : string) : string :=
  "COMMENT ON " +:+ kind +:+ " " +:+ quoteIdent name +:+ " IS " +:+ quoteLiteral comment.

Definition DropRole_query (name : string) : string := "DROP ROLE IF EXISTS " +:+ quoteIdent name.

Definition buildReassignOwnedQueries (old target : string) : list string :=
  ["REASSIGN OWNED BY " +:+ quoteIdent old +:+ " TO " +:+ quoteIdent target; "DROP OWNED BY " +:+ quoteIdent old].

(** ** Errors that must not show a password *)

(** [strings.ReplaceAll] with a non-empty pattern: non-overlapping occurrences,
    left to right; [skip] bytes of a replaced occurrence are still to pass. *)
Fixpoint replace_go (old new : string) (skip : nat) (s : string) : string :=
  match s with
  | EmptyString => ""
  | String c s' =>
      match skip with
      | S k => replace_go old new k s'
      | O => if HasPrefix s old then new +:+ replace_go old new (String.length old - 1) s'
             else String c (replace_go old new 0 s')
      end
  end.

Definition redactedError (msg : string) (err : gerr) (err_text : gerr → string) (secrets : list string) : gerr :=
  let text := match err with
              | PqErr code message => message +:+ " (SQLSTATE " +:+ code +:+ ")"
              | _ => err_text err
              end in
  Errorf "%s: %s" [msg; foldl (λ text s,
    if decide (s = "") then text
    else foldl (λ text form, replace_go form "[REDACTED]" 0 text) text [quoteLiteral s; escapeString s; s]) text secrets].

Definition ErrObjectExists : gerr := Errorf "the object already exists" [].

Definition duplicateObjectError (what : string) (err : gerr) : error :=
  match pq_code err with
  | Some c => if decide (c ∈ ["42710"; "42P04"; "42P06"]) then Some (Wrapf "%s: %w" [what] ErrObjectExists) else None
  | None => None
  end.

(** ** CreateRole over a session

    What the code uses of [*sql.DB]: a query for the role's existence, statements,
    and a transaction. [ScramSHA256Verifier] draws a salt and derives the
    verifier (crypto/rand, pbkdf2); [err_text] is [error.Error]. *)
Record Session (W : Type) := {
  s_role_exists : string → M W (result bool);
  s_exec : string → M W error;
  s_begin : M W error;
  s_tx_exec : string → M W error;
  s_commit : M W error;
  s_rollback : M W unit;
  s_verifier : string → M W (result string) }.
Arguments s_role_exists {W}. Arguments s_exec {W}. Arguments s_begin {W}. Arguments s_tx_exec {W}.
Arguments s_commit {W}. Arguments s_rollback {W}. Arguments s_verifier {W}.

Section create_role.
Context {W : Type} `{UnicodePrint} (db : Session W) (err_text : gerr → string).

Definition create_role_error (name plaintext verifier : string) (err : gerr) : error :=
  match duplicateObjectError ("role " +:+ Quote name) err with
  | Some dup => Some dup
  | None => Some (redactedError ("failed to create/alter role " +:+ Quote name) err err_text [plaintext; verifier])
  end.

Definition CreateRole_tx (name plaintext query : string) (opts : RoleOptions) : M W error :=
  berr ← s_begin db;
  match berr with
  | Some e => mret (Some (Wrapf "failed to create/alter role %q: %w" [name] e))
  | None =>
      err ← s_tx_exec db query;
      match err with
      | Some e => s_rollback db;; mret (create_role_error name plaintext (ro_Password opts) e)
      | None =>
          cerr ← s_tx_exec db (buildCommentQuery "ROLE" name (ro_Comment opts));
          match cerr with
          | Some e => s_rollback db;; mret (Some (Wrapf "failed to comment on role %q: %w" [name] e))
          | None =>
              kerr ← s_commit db;
              s_rollback db;;
              mret (match kerr with
                    | Some e => Some (redactedError ("failed to create/alter role " +:+ Quote name) e err_text
                                        [plaintext; ro_Password opts])
                    | None => None
                    end)
          end
      end
  end.

Definition CreateRole (name : string) (opts0 : RoleOptions) : M W error :=
  found ← (if ro_CreateOnly opts0 then mret (inl false) else s_role_exists db name);
  match found with
  | inr e => mret (Some (Wrapf "failed to check role existence: %w" [] e))
  | inl exists_ =>
      let opts := if exists_ && ro_KeepExistingPassword opts0 then with_Password opts0 "" else opts0 in
      let plaintext := ro_Password opts in
      v ← (if decide (plaintext = "") then mret (inl "") else s_verifier db plaintext);
      match v with
      | inr e => mret (Some e)
      | inl verifier =>
          let opts := with_Password opts verifier in
          let query := buildRoleQuery name exists_ opts in
          if decide (ro_Comment opts = "") then
            err ← s_exec db query;
            mret (match err with
                  | Some e => create_role_error name plaintext (ro_Password opts) e
                  | None => None
                  end)
          else CreateRole_tx name plaintext query opts
      end
  end.
End create_role.

(** ** Pre-hashed passwords (scram.go) *)

Definition scramPrefix : string := "SCRAM-SHA-256$".

Definition hex_lower (c : ascii) : bool := is_digit c || ((97 <=? bz c)%Z && (bz c <=? 102)%Z).

Definition IsPreHashedPassword (password : string) : bool :=
  if HasPrefix password scramPrefix then true
  else if negb (bool_decide (String.length password = 35%nat)) || negb (HasPrefix password "md5") then false
  else sforall hex_lower (sdrop 3 password).

(** ** Connection strings (dsn.go) *)

Record ConnectionConfig := {
  cc_Host : string;
  cc_Port : Z;
  cc_User : string;
  cc_Password : string;
  cc_Database : string;
  cc_SSLMode : string;
  cc_RootCertPEM : string;
  cc_ConnectTimeout : Z }.

Definition second : Z := 1000000000.

Definition operatorSearchPath : string := "pg_catalog, pg_temp".

Definition operatorSessionSettings : list (string * string) :=
  [("search_path", operatorSearchPath); ("role", "none"); ("statement_timeout", "0"); ("lock_timeout", "0");
   ("idle_in_transaction_session_timeout", "0"); ("idle_session_timeout", "0"); ("exit_on_error", "off");
   ("default_transaction_read_only", "off"); ("check_function_bodies", "on"); ("row_security", "on");
   ("default_tablespace", ""); ("temp_tablespaces", "")].

Definition render_pair (p : string * string) : string := p.1 +:+ "=" +:+ quoteDSNValue p.2.

Definition render_pairs (pairs : list (string * string)) : string := Join (render_pair <$> pairs) " ".

(** The registration of a TLS configuration with lib/pq ([x509.CertPool],
    [sha256], [pq.RegisterTLSConfig]): its key, or the error. *)
Section dsn.
Context {W : Type} (registerVerifyFullTLS : string → string → M W (result string)).

Definition dsn_pairs (cfg : ConnectionConfig) (database sslMode : string) : list (string * string) :=
  [("host", cc_Host cfg); ("port", Itoa (cc_Port cfg)); ("user", cc_User cfg); ("password", cc_Password cfg);
   ("dbname", database); ("sslmode", sslMode)]
    ++ (if bool_decide (0 < cc_ConnectTimeout cfg)%Z
        then [("connect_timeout", Itoa (Z.max 1 (Z.quot (cc_ConnectTimeout cfg) second)))] else [])
    ++ operatorSessionSettings.

Definition dsn_database (cfg : ConnectionConfig) : string :=
  if decide (cc_Database cfg = "") then "postgres" else cc_Database cfg.

Definition dsn_sslmode (cfg : ConnectionConfig) : string :=
  if decide (cc_SSLMode cfg = "") then "disable" else cc_SSLMode cfg.

Definition buildDSN (cfg : ConnectionConfig) : M W (result string) :=
  let mode := dsn_sslmode cfg in
  let finish sslMode := render_pairs (dsn_pairs cfg (dsn_database cfg) sslMode) in
  if bool_decide (mode ∈ ["disable"; "prefer"; "require"]) then mret (inl (finish mode))
  else if decide (mode = "verify-full") then
    key ← registerVerifyFullTLS (cc_Host cfg) (cc_RootCertPEM cfg);
    mret (match key with inl k => inl (finish ("pqgo-" +:+ k)) | inr e => inr e end)
  else mret (inr (Errorf "unsupported sslmode %q" [cc_SSLMode cfg])).
End dsn.

(** A reader of libpq key/value strings: [key='value'] separated by one space. *)
Fixpoint read_pairs (fuel : nat) (s : string) : option (list (string * string)) :=
  match fuel with
  | O => None
  | S fuel =>
      '(k, v) ← Cut s "="%char;
      '(x, rest) ← read_dsn v;
      match rest with
      | EmptyString => Some [(k, x)]
      | String " " rest => cons (k, x) <$> read_pairs fuel rest
      | _ => None
      end
  end.

(** ** Examples *)

Example grant_role_example :
  buildGrantRoleQuery "app" "bob" {| mo_Admin := true; mo_Inherit := Some false; mo_Set := None |} =
    "GRANT " +:+ quoteIdent "app" +:+ " TO " +:+ quoteIdent "bob" +:+ " WITH ADMIN OPTION, INHERIT FALSE".
Proof. by vm_compute. Qed.

Example redacted_example :
  redactedError "m" (PqErr "42601" "near pw1pw1x") (λ _, "") ["pw1"] =
    Errorf "%s: %s" ["m"; "near [REDACTED][REDACTED]x (SQLSTATE 42601)"].
Proof. by vm_compute. Qed.

(** ** Lemmas *)

Lemma not_starting_app q a b : a ≠ "" → not_starting q a → not_starting q (a +:+ b).
Proof. by destruct a. Qed.

(** A GRANT's tail, after the member. *)
Definition membership_tail (o : MembershipOptions) : string :=
  match membership_with o with [] => "" | w => " WITH " +:+ Join w ", " end.

Lemma membership_tail_stop o : not_starting dquote (membership_tail o).
Proof. by destruct o as [[] [[]|] [[]|]]. Qed.

Lemma membership_tail_inj o1 o2 : membership_tail o1 = membership_tail o2 → o1 = o2.
Proof.
  destruct o1 as [[] [[]|] [[]|]], o2 as [[] [[]|] [[]|]]; vm_compute; congruence.
Qed.


(** [read_pairs] undoes [render_pairs]. *)
Lemma read_pairs_render pairs fuel :
  pairs ≠ [] → Forall (λ p, ContainsByte p.1 "="%char = false) pairs → (length pairs ≤ fuel)%nat →
  read_pairs fuel (render_pairs pairs) = Some pairs.
Proof.
  unfold render_pairs. revert fuel. induction pairs as [|[k v] pairs IH]; [done|].
  intros fuel _ [Hk Hps]%Forall_cons Hf. destruct fuel as [|fuel]; [simpl in Hf; lia|].
  destruct pairs as [|p pairs].
  - cbn [fmap list_fmap Join read_pairs]. unfold render_pair. cbn [fst snd] in *.
    change ("=" +:+ quoteDSNValue v) with (String "="%char (quoteDSNValue v)). rewrite Cut_app by done.
    cbn [mbind option_bind]. rewrite <- (app_nil_r_s (quoteDSNValue v)).
    by rewrite (read_quoted (q := quoteDSNValue) (read := read_dsn)).
  - specialize (IH fuel ltac:(done) Hps ltac:(simpl in *; lia)).
    rewrite fmap_cons, fmap_cons, Join_cons2, <- fmap_cons.
    unfold render_pair at 1. cbn [fst snd] in *. rewrite !app_assoc_s. cbn [read_pairs].
    cbn [String.append]. rewrite (Cut_app k _ "="%char) by done. cbn [mbind option_bind].
    rewrite (read_quoted (q := quoteDSNValue) (read := read_dsn)) by done. cbn [mbind option_bind]. by rewrite IH.
Qed.

Lemma length_render_pairs pairs : (length pairs ≤ S (String.length (render_pairs pairs)))%nat.
Proof.
  unfold render_pairs. induction pairs as [|[k v] [|p pairs] IH]; [simpl; lia..|].
  rewrite !fmap_cons, Join_cons2, <- fmap_cons, !length_app_s. simpl in *. lia.
Qed.

Lemma dsn_pairs_keys cfg d m : Forall (λ p, ContainsByte p.1 "="%char = false) (dsn_pairs cfg d m).
Proof. unfold dsn_pairs. case_bool_decide; repeat constructor. Qed.

Section create_role_lemmas.
Context {W : Type} `{UnicodePrint} (db : Session W) (err_text : gerr → string).

(** The world after [CreateRole] does not depend on how an error is worded. *)
Lemma CreateRole_tx_world name p1 p2 query o w :
  (CreateRole_tx db err_text name p1 query o w).2 = (CreateRole_tx db err_text name p2 query o w).2.
Proof.
  unfold CreateRole_tx, mbind, M_bind, mret, M_ret.
  destruct (s_begin db w) as [[?|] ?]; [done|].
  destruct (s_tx_exec db _ _) as [[?|] ?]; [by destruct (s_rollback _ _)|].
  destruct (s_tx_exec db _ _) as [[?|] ?]; [by destruct (s_rollback _ _)|].
  destruct (s_commit db _) as [[?|] ?]; by destruct (s_rollback _ _).
Qed.
End create_role_lemmas.

(** ** Properties *)

(** A GRANT of a role is unambiguous: two GRANT statements are the same text
    exactly when they name the same role, the same member and the same options,
    so no role name can change which membership is granted. *)
Theorem buildGrantRoleQuery_unambiguous r1 m1 o1 r2 m2 o2 :
  buildGrantRoleQuery r1 m1 o1 = buildGrantRoleQuery r2 m2 o2 ↔ r1 = r2 ∧ m1 = m2 ∧ o1 = o2.
Proof.
  split; [|by intros (-> & -> & ->)]. unfold buildGrantRoleQuery.
  fold (membership_tail o1). fold (membership_tail o2).
  intros [-> H%app_cancel_s]%app_cancel_s%(quoted_app_inj (q := quoteIdent)); [|done..].
  apply (quoted_app_inj (q := quoteIdent)) in H as [-> ->%membership_tail_inj]; [done|apply membership_tail_stop..].
Qed.

(** Whatever bytes the host, user, password and database name hold, the
    connection string reads back as exactly the intended key/value pairs: the
    configured ones followed by the pinned session settings, so no value can add
    or override a connection parameter. *)
Theorem buildDSN_reads_back {W} (register : string → string → M W (result string)) cfg w dsn w' :
  buildDSN register cfg w = (inl dsn, w') →
  ∃ mode, read_pairs (S (String.length dsn)) dsn = Some (dsn_pairs cfg (dsn_database cfg) mode) ∧
    (mode = dsn_sslmode cfg ∧ w' = w ∨
     dsn_sslmode cfg = "verify-full" ∧
       ∃ key, mode = "pqgo-" +:+ key ∧ register (cc_Host cfg) (cc_RootCertPEM cfg) w = (inl key, w')).
Proof.
  assert (∀ mode, read_pairs (S (String.length (render_pairs (dsn_pairs cfg (dsn_database cfg) mode))))
    (render_pairs (dsn_pairs cfg (dsn_database cfg) mode)) = Some (dsn_pairs cfg (dsn_database cfg) mode)) as Hr.
  { intros mode. apply read_pairs_render; [done|apply dsn_pairs_keys|apply length_render_pairs]. }
  unfold buildDSN, mbind, M_bind, mret, M_ret. intros H. case_bool_decide.
  - simplify_eq. eauto.
  - case_decide; [|done]. destruct (register _ _ w) as [[key|e] w1] eqn:E; simplify_eq. eauto 10.
Qed.

Lemma buildDSN_reads_back_witness :
  let cfg := {| cc_Host := "db"; cc_Port := 5432; cc_User := "it's \ me"; cc_Password := "p' sslmode='disable";
                cc_Database := ""; cc_SSLMode := "verify-full"; cc_RootCertPEM := "pem"; cc_ConnectTimeout := 1 |} in
  let register := (λ host pem w, (inl (host +:+ pem), w)) : string → string → M unit (result string) in
  ∃ dsn, buildDSN register cfg () = (inl dsn, ()) ∧
    ∃ mode, read_pairs (S (String.length dsn)) dsn = Some (dsn_pairs cfg (dsn_database cfg) mode) ∧
      (mode = dsn_sslmode cfg ∧ () = () ∨
       dsn_sslmode cfg = "verify-full" ∧
         ∃ key, mode = "pqgo-" +:+ key ∧ register (cc_Host cfg) (cc_RootCertPEM cfg) () = (inl key, ())).
Proof.
  intros cfg register. eexists. split; [by vm_compute|].
  apply (buildDSN_reads_back register cfg ()). by vm_compute.
Defined.

(** The server never sees a role's plaintext password: two non-empty
    passwords for which the client computes the same verifier lead CreateRole to
    exactly the same statements and the same final world, on every path. *)
Theorem CreateRole_sends_only_verifier {W} `{UnicodePrint} (db : Session W) err_text name o p1 p2 w :
  p1 ≠ "" → p2 ≠ "" → s_verifier db p1 = s_verifier db p2 →
  (CreateRole db err_text name (with_Password o p1) w).2 = (CreateRole db err_text name (with_Password o p2) w).2.
Proof.
  intros H1 H2 Hv. unfold CreateRole, mbind, M_bind, mret, M_ret. cbn [ro_CreateOnly with_Password].
  destruct (if ro_CreateOnly o then _ else _) as [[ex|e] w1]; [|done].
  cbn [ro_KeepExistingPassword with_Password].
  destruct (ex && ro_KeepExistingPassword o); cbn [ro_Password with_Password].
  - done.
  - rewrite !decide_False by done. rewrite Hv. destruct (s_verifier db p2 w1) as [[v|e] w2]; [|done].
    cbn [ro_Comment with_Password]. change (with_Password (with_Password o p1) v) with (with_Password o v).
    change (with_Password (with_Password o p2) v) with (with_Password o v).
    case_decide; [by destruct (s_exec db _ w2) as [[]]|]. apply CreateRole_tx_world.
Qed.

(** A session that records its statements. *)
Definition recording : Session (list string) :=
  {| s_role_exists := λ _ w, (inl false, w); s_exec := λ q w, (None, w ++ [q]); s_begin := λ w, (None, w);
     s_tx_exec := λ q w, (None, w ++ [q]); s_commit := λ w, (None, w); s_rollback := λ w, ((), w);
     s_verifier := λ p w, (inl "SCRAM", w) |}.

Lemma CreateRole_sends_only_verifier_witness :
  let o := {| ro_Login := true; ro_CreateDB := false; ro_CreateRole := false; ro_Inherit := true;
              ro_Replication := false; ro_BypassRLS := false; ro_ConnectionLimit := -1; ro_Password := "";
              ro_KeepExistingPassword := false; ro_Comment := "c"; ro_CreateOnly := false |} in
  let run p := (@CreateRole _ (λ _, true) recording (λ _, "") "app" (with_Password o p) []).2 in
  length (run "one") = 2%nat ∧ run "one" = run "two".
Proof.
  split; [by vm_compute|].
  exact (@CreateRole_sends_only_verifier _ (λ _, true) recording (λ _, "") "app" _ "one" "two" []
    ltac:(done) ltac:(done) eq_refl).
Defined.

(** A CREATE or ALTER ROLE statement names the role as one quoted identifier,
    always says NOSUPERUSER, never SUPERUSER, and carries a password clause only
    for a non-empty password that is not kept. *)
Theorem buildRoleQuery_never_superuser name (exists_ : bool) o :
  ∃ (verb : string) (opts : list string), (verb = if exists_ then "ALTER ROLE " else "CREATE ROLE ") ∧
    CutPrefix (buildRoleQuery name exists_ o) verb = Some (quoteIdent name +:+ " " +:+ Join opts " ") ∧
    read_ident (quoteIdent name +:+ " " +:+ Join opts " ") = Some (name, " " +:+ Join opts " ") ∧
    "NOSUPERUSER" ∈ opts ∧ "SUPERUSER" ∉ opts ∧
    ((∃ p, "PASSWORD " +:+ quoteLiteral p ∈ opts) ↔
      ro_Password o ≠ "" ∧ negb (exists_ && ro_KeepExistingPassword o) = true).
Proof.
  set (o' := if exists_ && ro_KeepExistingPassword o then with_Password o "" else o).
  exists (if exists_ then "ALTER ROLE " else "CREATE ROLE "), (buildRoleOptions o').
  assert (buildRoleOptions o' = flag (ro_Login o') "LOGIN" :: "NOSUPERUSER" :: drop 2 (buildRoleOptions o')) as Ho by done.
  split_and!; [done| | | | |].
  - apply CutPrefix_Some.
    transitivity (Join (((if exists_ then "ALTER ROLE " else "CREATE ROLE ") +:+ quoteIdent name)
      :: buildRoleOptions o') " "); [|by rewrite Ho, Join_cons2, !app_assoc_s].
    unfold o', buildRoleQuery. by destruct exists_, (ro_KeepExistingPassword o).
  - by rewrite (read_quoted (q := quoteIdent) (read := read_ident)).
  - rewrite Ho. by right; left.
  - unfold buildRoleOptions, flag. rewrite elem_of_app. intros [H|H].
    + repeat (apply elem_of_cons in H as [H|H]; [by repeat case_match|]). by apply elem_of_nil in H.
    + case_decide; [by apply elem_of_nil in H|]. apply list_elem_of_singleton in H. done.
  - unfold buildRoleOptions. split.
    + intros [p [H|H]%elem_of_app].
      * unfold flag in H.
        repeat (apply elem_of_cons in H as [H|H]; [by repeat case_match|]). by apply elem_of_nil in H.
      * unfold o' in *. case_decide as Hp; [by apply elem_of_nil in H|].
        destruct (exists_ && ro_KeepExistingPassword o); [by destruct Hp|done].
    + intros [Hp Hk]. exists (ro_Password o). apply elem_of_app. right. unfold o'. destruct (exists_ && _); [done|].
      rewrite decide_False by done. by left.
Qed.
