(* ===== verification/Trace.v ===== *)
(** * Traces of calls

    Programs over a world paired with the list of calls made so far. [emits m Q]
    says which calls [m] adds, in relation to its result, and that these calls
    alone account for how the world changed; the rules compose it along the
    program. *)

From S2P Require Import Prelude.

(** A call that is recorded after it ran, with its result. *)
Definition logged {W E A} (ev : A → E) (m : M W A) : M (W * list E) A :=
  λ w, let '(x, w') := m w.1 in (x, (w', w.2 ++ [ev x])).

(** Worlds connected by a sequence of calls. *)
Inductive execs {W E} (step : E → W → W → Prop) : list E → W → W → Prop :=
  | execs_nil w : execs step [] w w
  | execs_cons ev tr w w1 w2 : step ev w w1 → execs step tr w1 w2 → execs step (ev :: tr) w w2.

Lemma execs_app {W E} (step : E → W → W → Prop) tr1 tr2 w w2 :
  execs step (tr1 ++ tr2) w w2 ↔ ∃ w1, execs step tr1 w w1 ∧ execs step tr2 w1 w2.
Proof.
  revert w. induction tr1 as [|ev tr IH]; intros w; simpl.
  - split; [intros; exists w; split; [constructor|done]|]. by intros (w1 & H & ?); inversion H; subst.
  - split.
    + inversion 1 as [|? ? ? w1 ? Hs He]; subst. apply IH in He as (w1' & ? & ?).
      exists w1'. split; [by econstructor|done].
    + intros (w1 & H & ?). inversion H; subst. econstructor; [done|]. apply IH. eauto.
Qed.

(** An invariant of every call of a trace. *)
Lemma execs_invariant {W E} (step : E → W → W → Prop) (I : W → Prop) tr w w' :
  execs step tr w w' → (∀ ev v v', ev ∈ tr → step ev v v' → I v → I v') → I w → I w'.
Proof.
  induction 1 as [|ev tr w w1 w2 Hs He IH]; intros HI Hw; [done|].
  apply IH; [|by eapply HI; [left|..]]. intros ev' v v' ?. apply HI. by right.
Qed.

(** The worlds around one call of a trace. *)
Lemma execs_elem {W E} (step : E → W → W → Prop) tr ev w w' :
  execs step tr w w' → ev ∈ tr →
  ∃ pre post v v', tr = pre ++ ev :: post ∧ execs step pre w v ∧ step ev v v' ∧ execs step post v' w'.
Proof.
  intros He (pre & post & ->)%list_elem_of_split. apply execs_app in He as (v & Hpre & Hpost).
  inversion Hpost; subst. eauto 10.
Qed.

Section trace.
Context {W E : Type} (step : E → W → W → Prop).

Definition emits {A} (m : M (W * list E) A) (Q : A → list E → Prop) : Prop :=
  ∀ w, ∃ new, (m w).2.2 = w.2 ++ new ∧ execs step new w.1 (m w).2.1 ∧ Q (m w).1 new.

Lemma emits_ret {A} (x : A) (Q : A → list E → Prop) : Q x [] → emits (mret x) Q.
Proof. intros H w. exists []. rewrite app_nil_r. split_and!; [done|constructor|done]. Qed.

Lemma emits_logged {A} (ev : A → E) (m : M W A) :
  (∀ w x w', m w = (x, w') → step (ev x) w w') → emits (logged ev m) (λ x new, new = [ev x]).
Proof.
  intros H w. exists [ev (m w.1).1]. unfold logged. specialize (H w.1). destruct (m w.1) as [x w'].
  split_and!; [done| |done]. econstructor; [by apply H|constructor].
Qed.

Lemma emits_bind {A B} (m : M (W * list E) A) (f : A → M (W * list E) B) Q1 (Q : B → list E → Prop) :
  emits m Q1 → (∀ x new, Q1 x new → emits (f x) (λ y new', Q y (new ++ new'))) → emits (m ≫= f) Q.
Proof.
  intros Hm Hf w. unfold mbind, M_bind. destruct (Hm w) as (new & Hw & He & HQ).
  destruct (m w) as [x w1]. simpl in *. destruct (Hf x new HQ w1) as (new' & Hw' & He' & HQ').
  exists (new ++ new'). split_and!; [|apply execs_app; eauto|done]. rewrite Hw', Hw. by rewrite app_assoc.
Qed.

Lemma emits_conseq {A} (m : M (W * list E) A) (Q Q' : A → list E → Prop) :
  emits m Q' → (∀ x new, Q' x new → Q x new) → emits m Q.
Proof. intros H HQ w. destruct (H w) as (new & ? & ? & ?). eauto. Qed.

(** From the empty trace: the trace of a whole run. *)
Lemma emits_run {A} (m : M (W * list E) A) Q w x w' tr :
  emits m Q → m (w, []) = (x, (w', tr)) → execs step tr w w' ∧ Q x tr.
Proof. intros H Hm. destruct (H (w, [])) as (new & Hw & He & HQ). rewrite Hm in *. by simplify_eq/=. Qed.
End trace.

(** The parts of a run with its trace. *)
Lemma run_split {A B C} (x : A * (B * C)) : x = (x.1, (x.2.1, x.2.2)).
Proof. by destruct x as [? [? ?]]. Qed.

Lemma run_split2 {A1 A2 B C} (x : (A1 * A2) * (B * C)) : x = ((x.1.1, x.1.2), (x.2.1, x.2.2)).
Proof. by destruct x as [[? ?] [? ?]]. Qed.

(** ** What justifies each call of a run

    [J pre ev] says when a call may follow the calls [pre] made before it.
    [runs tr m Q]: started after the calls [tr], every call of [m] is justified by
    those before it, and [Q] holds of the result and all calls made. [only P m]: [m]
    makes no calls but those of [P]. *)

Lemma elem_of_prefix {A} (x : A) l1 l2 : l1 `prefix_of` l2 → x ∈ l1 → x ∈ l2.
Proof. intros [l ->] H. apply elem_of_app. by left. Qed.

(** A call seen before the current point: walks back along the prefixes. *)
Ltac seen :=
  lazymatch goal with
  | H : ?ev ∈ ?tr |- ?ev ∈ ?tr => exact H
  | P : ?tr0 `prefix_of` ?tr |- ?ev ∈ ?tr => apply (elem_of_prefix _ _ _ P); seen
  end.

(** Facts about a trace that later calls do not undo. *)
Class Mono {E} (F : list E → Prop) : Prop := mono tr0 tr1 : tr0 `prefix_of` tr1 → F tr0 → F tr1.

Section mono.
Context {E : Type}.
Implicit Types F G : list E → Prop.

Lemma mono_const (Q : Prop) : Mono (λ _ : list E, Q).
Proof. by intros tr0 tr1 _. Qed.

#[export] Instance mono_elem (ev : E) : Mono (λ tr, ev ∈ tr).
Proof. intros tr0 tr1. apply elem_of_prefix. Qed.

Lemma mono_and F G : Mono F → Mono G → Mono (λ tr, F tr ∧ G tr).
Proof. intros HF HG tr0 tr1 Hp [??]. split; [by eapply HF|by eapply HG]. Qed.

Lemma mono_or F G : Mono F → Mono G → Mono (λ tr, F tr ∨ G tr).
Proof. intros HF HG tr0 tr1 Hp [?|?]; [left; by eapply HF|right; by eapply HG]. Qed.

Lemma mono_ex {A} (F : A → list E → Prop) : (∀ x, Mono (F x)) → Mono (λ tr, ∃ x, F x tr).
Proof. intros HF tr0 tr1 Hp [x ?]. exists x. by eapply HF. Qed.

Lemma mono_all {A} (F : A → list E → Prop) : (∀ x, Mono (F x)) → Mono (λ tr, ∀ x, F x tr).
Proof. intros HF tr0 tr1 Hp H x. by eapply HF. Qed.

Lemma mono_impl (Q : Prop) F : (Q → Mono F) → Mono (λ tr, Q → F tr).
Proof. intros HF tr0 tr1 Hp H HQ. by eapply HF, H. Qed.
End mono.

Ltac solve_mono :=
  repeat (intros; cbv beta; first
    [ exact _ | apply mono_const | apply mono_elem | apply mono_and | apply mono_or | apply mono_ex | apply mono_impl | apply mono_all ]).

(** A fact established before the current point. *)
Ltac carry :=
  first
    [ assumption
    | match goal with
      | P : ?tr0 `prefix_of` ?tr |- ?G =>
          match G with context [tr] => pattern tr; apply (mono _ tr P); cbv beta; carry end
      end ].

Section only.
Context {W E : Type} (P : E → Prop).

Definition only {A} (m : M (W * list E) A) : Prop := emits (λ _ _ _, True) m (λ _ new, Forall P new).

Lemma only_ret {A} (x : A) : only (mret x).
Proof. by apply emits_ret. Qed.

Lemma only_bind {A B} (m : M (W * list E) A) (f : A → M (W * list E) B) : only m → (∀ x, only (f x)) → only (m ≫= f).
Proof.
  intros Hm Hf. eapply emits_bind; [exact Hm|]. intros x new Hn. eapply emits_conseq; [apply Hf|].
  intros y new' Hn'. by apply Forall_app.
Qed.

Lemma only_logged {A} (ev : A → E) (m : M W A) : (∀ x, P (ev x)) → only (logged ev m).
Proof. intros H. eapply emits_conseq; [by apply emits_logged|]. intros x new ->. by constructor. Qed.
End only.

(** Walks through a program; what is left are its calls and its loops. *)
Ltac walk_only :=
  repeat (lazymatch goal with
    | |- ∀ _, _ => intro
    | |- only _ (mret _) => apply only_ret
    | |- only _ (mbind _ _) => apply only_bind
    | |- only _ (match _ with _ => _ end) => case_match
    | |- only _ ((λ _, _) _) => progress cbv beta
    | |- only _ _ => first [assumption | progress simpl]
    end).

Section runs.
Context {W E : Type} (J : list E → E → Prop).

Definition justified (tr0 tr1 : list E) : Prop :=
  ∃ new, tr1 = tr0 ++ new ∧ ∀ pre ev post, new = pre ++ ev :: post → J (tr0 ++ pre) ev.

Definition runs (tr0 : list E) {A} (m : M (W * list E) A) (Q : A → list E → Prop) : Prop :=
  ∀ w, justified tr0 (m (w, tr0)).2.2 ∧ Q (m (w, tr0)).1 (m (w, tr0)).2.2.

Lemma justified_refl tr : justified tr tr.
Proof. exists []. rewrite app_nil_r. split; [done|]. intros pre ev post H. by destruct pre. Qed.

Lemma justified_trans tr0 tr1 tr2 : justified tr0 tr1 → justified tr1 tr2 → justified tr0 tr2.
Proof.
  intros (n1 & -> & H1) (n2 & -> & H2). exists (n1 ++ n2). rewrite app_assoc. split; [done|].
  intros pre ev post Heq.
  destruct (app_eq_inv _ _ _ _ Heq) as [(k & Hk & Hk')|(k & Hk & Hk')].
  - destruct k as [|ev' k]; simpl in Hk'.
    + rewrite app_nil_r in Hk. subst pre. specialize (H2 [] ev post (eq_sym Hk')). by rewrite app_nil_r in H2.
    + injection Hk' as <- Hp. eapply H1. by rewrite Hk.
  - subst pre. rewrite app_assoc. by eapply H2.
Qed.

Lemma justified_prefix tr0 tr1 : justified tr0 tr1 → tr0 `prefix_of` tr1.
Proof. intros (new & -> & _). by apply prefix_app_r. Qed.

Lemma runs_ret {A} tr (x : A) (Q : A → list E → Prop) : Q x tr → runs tr (mret x) Q.
Proof. intros H w. split; [apply justified_refl|done]. Qed.

Lemma runs_conseq {A} tr (m : M (W * list E) A) (Q Q' : A → list E → Prop) :
  runs tr m Q' → (∀ x tr', tr `prefix_of` tr' → Q' x tr' → Q x tr') → runs tr m Q.
Proof. intros H HQ w. destruct (H w) as [Hj Hq]. split; [done|]. apply HQ; [by apply justified_prefix|done]. Qed.

Lemma runs_bind {A B} tr (m : M (W * list E) A) (f : A → M (W * list E) B) Q1 (Q : B → list E → Prop) :
  runs tr m Q1 → (∀ x tr1, tr `prefix_of` tr1 → Q1 x tr1 → runs tr1 (f x) Q) → runs tr (m ≫= f) Q.
Proof.
  intros Hm Hf w. unfold mbind, M_bind. destruct (Hm w) as [Hj Hq]. destruct (m (w, tr)) as [x [w1 tr1]]. simpl in *.
  destruct (Hf x tr1 (justified_prefix _ _ Hj) Hq w1) as [Hj' Hq']. split; [by eapply justified_trans|done].
Qed.

Lemma runs_logged {A} tr (ev : A → E) (m : M W A) (Q : A → list E → Prop) :
  (∀ x, J tr (ev x)) → (∀ x tr', tr `prefix_of` tr' → ev x ∈ tr' → Q x tr') → runs tr (logged ev m) Q.
Proof.
  intros HJ HQ w. unfold logged. simpl. destruct (m w) as [x w']. simpl. split.
  - exists [ev x]. split; [done|]. intros pre e post Heq. destruct pre as [|? pre]; simplify_list_eq; [done|].
    by destruct pre.
  - apply HQ; [by apply prefix_app_r|]. apply elem_of_app. right. by left.
Qed.

Lemma runs_call {A B} tr (ev : A → E) (m : M W A) (f : A → M (W * list E) B) (Q : B → list E → Prop) :
  (∀ x, J tr (ev x)) → (∀ x tr1, tr `prefix_of` tr1 → ev x ∈ tr1 → runs tr1 (f x) Q) → runs tr (logged ev m ≫= f) Q.
Proof. intros HJ Hf. eapply (runs_bind _ _ _ (λ x tr1, ev x ∈ tr1)); [by apply runs_logged|]. auto. Qed.

Lemma runs_only {A} tr P (m : M (W * list E) A) :
  only P m → (∀ pre ev, tr `prefix_of` pre → P ev → J pre ev) → runs tr m (λ _ _, True).
Proof.
  intros H HP w. destruct (H (w, tr)) as (new & Hw & _ & Hn). simpl in Hw. split; [|done].
  exists new. split; [done|]. intros pre ev post ->. apply HP; [by apply prefix_app_r|]. rewrite Forall_forall in Hn. apply Hn.
  apply elem_of_app. right. by left.
Qed.

(** A whole run: each of its calls is justified by those before it. *)
Lemma runs_justified {A} (m : M (W * list E) A) Q w x w' tr pre ev post :
  runs [] m Q → m (w, []) = (x, (w', tr)) → tr = pre ++ ev :: post → J pre ev.
Proof. intros H Hm ->. destruct (H w) as [(new & Hn & Hj) _]. rewrite Hm in Hn. simpl in Hn. by eapply Hj. Qed.
End runs.

(** What a program returns, whatever its operations answer. *)
Definition returns {W A} (m : M W A) (R : A → Prop) : Prop := ∀ w, R (m w).1.

Lemma returns_ret {W A} (x : A) (R : A → Prop) : R x → returns (W := W) (mret x) R.
Proof. by intros HR w. Qed.

Lemma returns_bind {W A B} (m : M W A) (f : A → M W B) R1 R :
  returns m R1 → (∀ x, R1 x → returns (f x) R) → returns (m ≫= f) R.
Proof.
  intros Hm Hf w. unfold mbind, M_bind. specialize (Hm w). destruct (m w) as [x w1]. by apply Hf.
Qed.

Lemma returns_any {W A B} (m : M W A) (f : A → M W B) R : (∀ x, returns (f x) R) → returns (m ≫= f) R.
Proof. intros Hf. apply (returns_bind _ _ (λ _, True)); [done|auto]. Qed.

Lemma runs_returns {W E A} (J : list E → E → Prop) tr (m : M (W * list E) A) Q R :
  runs J tr m Q → returns m R → runs J tr m (λ x tr', Q x tr' ∧ R x).
Proof. intros Hm HR w. destruct (Hm w). split; [done|]. split; [done|apply HR]. Qed.

(** Walks to the results. *)
Ltac walk_returns :=
  repeat (lazymatch goal with
    | |- ∀ _, _ => intro
    | |- returns (mret _) _ => apply returns_ret
    | |- returns (mbind _ _) _ => apply returns_any
    | |- returns (match _ with _ => _ end) _ => case_match
    | |- returns ((λ _, _) _) _ => progress cbv beta
    end).

(** ** Calls of a concrete run *)

Definition called {E} (t : E → bool) (tr : list E) : bool := existsb t tr.

Lemma called_inv {E} (t : E → bool) tr : called t tr = true → ∃ pre ev post, tr = pre ++ ev :: post ∧ t ev = true.
Proof.
  intros (ev & Hin%list_elem_of_In & Ht)%existsb_exists.
  apply list_elem_of_split in Hin as (pre & post & Heq). by exists pre, ev, post.
Qed.

Lemma elem_of_split {A} {tr pre post : list A} {ev} : tr = pre ++ ev :: post → ev ∈ tr.
Proof. intros ->. apply elem_of_app. right. by left. Qed.
