(* ===== verification/GrantEngine.v ===== *)
(** * The grant engine (src/internal/controller/privilege_grants.go)

    Every kind of privilege pgop grants goes through [applyPrivilegeGrants]. The
    server is a record of operations [privilegeOps] over a world [W]; the ledger
    is the list of entries recorded in the resource's status. *)

From Stdlib Require Import Ascii.
From S2P Require Import Prelude GoStrings GoStrconv Quoting Privileges.

(** ** Data *)

Record grantTarget := {
  gt_Kind : ObjectKind;
  gt_Name : string;
  gt_Grantee : string;
  gt_Schema : string;
  gt_ForRole : string;
  gt_OID : Z }.

#[export] Instance grantTarget_eq_dec : EqDecision grantTarget.
Proof. solve_decision. Defined.

Record privilegeGrant := {
  g_Target : grantTarget;
  g_Privileges : list string;
  g_GrantOptions : list string }.

#[export] Instance privilegeGrant_eq_dec : EqDecision privilegeGrant.
Proof. solve_decision. Defined.

Definition zeroTarget : grantTarget :=
  {| gt_Kind := ""; gt_Name := ""; gt_Grantee := ""; gt_Schema := ""; gt_ForRole := ""; gt_OID := 0 |}.
Definition zeroGrant : privilegeGrant :=
  {| g_Target := zeroTarget; g_Privileges := []; g_GrantOptions := [] |}.

(** [m[k]] on a Go map: the zero value when absent. *)
Definition grant_at (m : gmap string privilegeGrant) (k : string) : privilegeGrant := default zeroGrant (m !! k).

Definition grant_empty (g : privilegeGrant) : bool :=
  bool_decide (g_Privileges g = []) && bool_decide (g_GrantOptions g = []).

Definition desiredGrant (t : grantTarget) (privileges : list string) (withGrantOption : bool) : privilegeGrant :=
  {| g_Target := t; g_Privileges := privileges; g_GrantOptions := if withGrantOption then privileges else [] |}.

Definition subtract (a b : list string) : list string := filter (.∉ b) a.
Definition intersect (a b : list string) : list string := filter (.∈ b) a.
Definition str_union (a b : list string) : list string := slices_Compact (slices_Sort (a ++ b)).

Definition mergeGrant (a b : privilegeGrant) : privilegeGrant :=
  {| g_Target := g_Target b; g_Privileges := str_union (g_Privileges a) (g_Privileges b);
     g_GrantOptions := str_union (g_GrantOptions a) (g_GrantOptions b) |}.

(** [sortedGrants]: the non-empty grants, by key. *)
Definition sortedGrants (m : gmap string privilegeGrant) : list privilegeGrant :=
  filter (λ g, grant_empty g = false) (grant_at m <$> sorted_keys m).

Definition ReasonTooManyGrants : string := "TooManyGrants".
Definition ReasonRevokeSkipped : string := "RevokeSkipped".
Definition sqlStateDependentObjects : string := "2BP01".

(** [postgres.DependentPrivilegesExist]. *)
Definition DependentPrivilegesExist (err : error) : bool :=
  match err with
  | Some e => bool_decide (pq_code e = Some sqlStateDependentObjects)
  | None => false
  end.

Definition revokeMode (grantOptionOnly cascade : bool) : RevokeMode :=
  {| GrantOptionOnly := grantOptionOnly; Cascade := cascade |}.

(** What the engine uses of the server and of the grantee/object checks. *)
Record privilegeOps (W : Type) := {
  op_held : grantTarget → M W (result (list string * list string));
  op_grant : grantTarget → list string → bool → M W error;
  op_revoke : grantTarget → list string → RevokeMode → M W error;
  op_gone : option (grantTarget → M W (result bool)) }.
Arguments op_held {W}. Arguments op_grant {W}. Arguments op_revoke {W}. Arguments op_gone {W}.

Abbreviation ledgerLimit := Z.
Abbreviation ledgerPersist W := (option (list privilegeGrant → M W error)).

Record plannedGrant := {
  p_target : grantTarget;
  p_plain : list string;
  p_grantOptions : list string;
  p_added : privilegeGrant }.

Section engine.
Context `{UP : UnicodePrint}.

(** ** Keys and names *)

(** [grantTarget.key]. *)
Definition key (t : grantTarget) : string :=
  let name := if decide (gt_OID t = 0%Z) then Quote (gt_Name t) else "#" +:+ Itoa (gt_OID t) in
  gt_Kind t +:+ "|" +:+ name +:+ "|" +:+ Quote (gt_Grantee t)
    +:+ (if decide (gt_ForRole t = "") then "" else "|" +:+ Quote (gt_ForRole t)).

Definition grant_key (g : privilegeGrant) : string := key (g_Target g).

Definition PrivilegeObject_String (o : PrivilegeObject) : string :=
  match objectKinds (po_Kind o) with
  | Some k => label k +:+ " " +:+ Quote (po_Name o)
  | None => po_Kind o +:+ " " +:+ Quote (po_Name o)
  end.

Definition grantTarget_object (t : grantTarget) : PrivilegeObject := {| po_Kind := gt_Kind t; po_Name := gt_Name t |}.

Definition grantTarget_String (t : grantTarget) : string :=
  if decide (gt_ForRole t = "") then PrivilegeObject_String (grantTarget_object t) +:+ " to " +:+ gt_Grantee t
  else ToLower (gt_Kind t) +:+ " in schema " +:+ Quote (gt_Name t) +:+ " for role " +:+ Quote (gt_ForRole t)
         +:+ " to " +:+ gt_Grantee t.

(** The maps [tracked] and [want] at the start of [applyPrivilegeGrants]. *)
Definition tracked_of (managed : list privilegeGrant) : gmap string privilegeGrant :=
  foldl (λ tr m, <[grant_key m := mergeGrant (grant_at tr (grant_key m)) m]> tr) ∅ managed.

Definition want_of (desired : list privilegeGrant) : gmap string privilegeGrant :=
  foldl (λ w d, <[grant_key d := d]> w) ∅ desired.

(** ** Planning *)

Section ops.
Context {W : Type} (ops : privilegeOps W).

(** What is missing of [d], given what the grantee holds. *)
Definition planOf (d : privilegeGrant) (held grantable : list string) : plannedGrant :=
  let missing := subtract (g_Privileges d) held in
  let opts := subtract (g_GrantOptions d) grantable in
  {| p_target := g_Target d; p_plain := subtract missing opts; p_grantOptions := opts;
     p_added := {| g_Target := g_Target d; g_Privileges := missing; g_GrantOptions := opts |} |}.

Definition planMissing (d : privilegeGrant) : M W (result plannedGrant) :=
  h ← op_held ops (g_Target d);
  mret (match h with
        | inr e => inr e
        | inl (held, grantable) => inl (planOf d held grantable)
        end).

Fixpoint planGrants (grantable : list privilegeGrant) : M W (list gerr * list plannedGrant) :=
  match grantable with
  | [] => mret ([], [])
  | d :: ds =>
      r ← planMissing d;
      rest ← planGrants ds;
      mret (match r with
            | inr e => (e :: rest.1, rest.2)
            | inl p => (rest.1, if grant_empty (p_added p) then rest.2 else p :: rest.2)
            end)
  end.

Definition intended_of (tracked : gmap string privilegeGrant) (plan : list plannedGrant) : gmap string privilegeGrant :=
  foldl (λ m p, <[key (p_target p) := mergeGrant (grant_at m (key (p_target p))) (p_added p)]> m) tracked plan.

(** ** Granting *)

Definition grantOne (p : plannedGrant) : M W (list gerr) :=
  e1 ← (if decide (p_grantOptions p = []) then mret None else op_grant ops (p_target p) (p_grantOptions p) true);
  match e1 with
  | Some e => mret [e]
  | None =>
      e2 ← (if decide (p_plain p = []) then mret None else op_grant ops (p_target p) (p_plain p) false);
      mret (option_list e2)
  end.

Fixpoint grantPlanned (plan : list plannedGrant) : M W (list gerr) :=
  match plan with
  | [] => mret []
  | p :: ps => e1 ← grantOne p; e2 ← grantPlanned ps; mret (e1 ++ e2)
  end.

(** ** Revoking *)

Fixpoint revokeEach (t : grantTarget) (privileges : list string) : M W (list string * list string * list gerr) :=
  match privileges with
  | [] => mret ([], [], [])
  | p :: ps =>
      e ← op_revoke ops t [p] (revokeMode false false);
      '(done, blocked, errs) ← revokeEach t ps;
      mret (if DependentPrivilegesExist e then (done, p :: blocked, errs)
            else match e with
                 | Some err => (done, blocked, err :: errs)
                 | None => (p :: done, blocked, errs)
                 end)
  end.

Definition with_privileges (m : privilegeGrant) (ps os : list string) : privilegeGrant :=
  {| g_Target := g_Target m; g_Privileges := ps; g_GrantOptions := os |}.

(** The three statements of [revokeRemoved], each returning the entry and
    its errors; the last one also the names it skipped. *)
Definition revokeOptionsOnly (m : privilegeGrant) (grantOptionsOnly : list string) : M W (privilegeGrant * list gerr) :=
  if decide (grantOptionsOnly = []) then mret (m, [])
  else
    e ← op_revoke ops (g_Target m) grantOptionsOnly (revokeMode true true);
    mret (match e with
          | Some err => (m, [err])
          | None => (with_privileges m (g_Privileges m) (subtract (g_GrantOptions m) grantOptionsOnly), [])
          end).

Definition revokeWithOption (m : privilegeGrant) (withOption : list string) : M W (privilegeGrant * list gerr) :=
  if decide (withOption = []) then mret (m, [])
  else
    e ← op_revoke ops (g_Target m) withOption (revokeMode false true);
    mret (match e with
          | Some err => (m, [err])
          | None => (with_privileges m (subtract (g_Privileges m) withOption)
                                       (subtract (g_GrantOptions m) withOption), [])
          end).

Definition revokePlain (m : privilegeGrant) (plain : list string) : M W (privilegeGrant * list gerr * list string) :=
  if decide (plain = []) then mret (m, [], [])
  else
    e ← op_revoke ops (g_Target m) plain (revokeMode false false);
    if DependentPrivilegesExist e then
      '(done, blocked, errs) ← revokeEach (g_Target m) plain;
      let m := with_privileges m (subtract (g_Privileges m) done) (g_GrantOptions m) in
      let errs := option_list (errors_Join (Some <$> errs)) in
      mret (if decide (blocked = []) then (m, errs, [])
            else (with_privileges m (subtract (g_Privileges m) blocked) (g_GrantOptions m), errs,
                  [Join blocked ", " +:+ " on " +:+ grantTarget_String (g_Target m)]))
    else mret (match e with
               | Some err => (m, [err], [])
               | None => (with_privileges m (subtract (g_Privileges m) plain) (g_GrantOptions m), [], [])
               end).

Definition op_gone_check (t : grantTarget) : M W (result bool) :=
  match op_gone ops with Some f => f t | None => mret (inl false) end.

Definition revokeRemoved (m d : privilegeGrant) (skipped : list string) : M W (privilegeGrant * error * list string) :=
  let removed := subtract (g_Privileges m) (g_Privileges d) in
  let grantOptionsOnly := subtract (subtract (g_GrantOptions m) (g_GrantOptions d)) removed in
  if decide (removed = [] ∧ grantOptionsOnly = []) then mret (m, None, skipped)
  else
    g ← op_gone_check (g_Target m);
    match g with
    | inr e => mret (m, Some e, skipped)
    | inl true => mret ({| g_Target := g_Target m; g_Privileges := []; g_GrantOptions := [] |}, None, skipped)
    | inl false =>
        '(m, errs1) ← revokeOptionsOnly m grantOptionsOnly;
        let withOption := intersect removed (g_GrantOptions m) in
        let plain := subtract removed withOption in
        '(m, errs2) ← revokeWithOption m withOption;
        '(m, errs3, skip) ← revokePlain m plain;
        mret (m, errors_Join (Some <$> (errs1 ++ errs2 ++ errs3)), skipped ++ skip)
    end.

Fixpoint revokeLoop (keys : list string) (want tracked : gmap string privilegeGrant) (skipped : list string)
    : M W (gmap string privilegeGrant * list gerr * list string) :=
  match keys with
  | [] => mret (tracked, [], skipped)
  | k :: ks =>
      '(m, err, skipped) ← revokeRemoved (grant_at tracked k) (grant_at want k) skipped;
      '(tracked, errs, skipped) ←
        revokeLoop ks want (if grant_empty m then delete k tracked else <[k := m]> tracked) skipped;
      mret (tracked, option_list err ++ errs, skipped)
  end.

(** ** The engine *)

Definition tooManyGrants (limit : ledgerLimit) (tracked want : gmap string privilegeGrant) : option gerr :=
  let n := Z.of_nat (length (str_union (map_to_list tracked).*1 (map_to_list want).*1)) in
  if decide (0 < limit ∧ limit < n)%Z
  then Some (CondErr ReasonTooManyGrants (Errorf
         "the grants declared and those pgop still tracks add up to %d entries; pgop tracks at most %d. Nothing was granted (removed grants are still revoked): remove grants from the spec"
         [Itoa n; Itoa limit]))
  else None.

Definition errRevokeSkipped (skipped : list string) : gerr :=
  CondErr ReasonRevokeSkipped (Errorf
    "not revoked (the grantee passed them on with a grant option pgop did not give), no longer tracked: %s"
    [Join skipped "; "]).

(** The revoke phase and the report, once granting is over. *)
Definition revokePhase (want tracked : gmap string privilegeGrant) (errs : list gerr)
    : M W (list privilegeGrant * error) :=
  '(tracked, errs', skipped) ← revokeLoop (sorted_keys tracked) want tracked [];
  mret (sortedGrants tracked,
        errors_Join (Some <$> (errs ++ errs' ++ (if decide (skipped = []) then [] else [errRevokeSkipped skipped])))).

Definition persistIntended (persist : ledgerPersist W) (intended : gmap string privilegeGrant) : M W error :=
  match persist with Some f => f (sortedGrants intended) | None => mret None end.

Definition applyPrivilegeGrants (desired managed : list privilegeGrant) (limit : ledgerLimit)
    (persist : ledgerPersist W) : M W (list privilegeGrant * error) :=
  let tracked := tracked_of managed in
  let want := want_of desired in
  let over := tooManyGrants limit tracked want in
  let grantable := match over with Some _ => [] | None => desired end in
  '(errs, plan) ← planGrants grantable;
  let errs := option_list over ++ errs in
  if decide (plan = []) then revokePhase want tracked errs
  else
    let intended := intended_of tracked plan in
    e ← persistIntended persist intended;
    match e with
    | Some err =>
        mret (sortedGrants tracked, errors_Join (Some <$> (errs ++
          [Wrapf "recording the grants pgop is about to make failed, nothing was granted: %w" [] err])))
    | None =>
        errs' ← grantPlanned plan;
        revokePhase want intended (errs ++ errs')
    end.
End ops.

(** ** The executor (privilegeExecutor, executorOps) *)

Record privilegeExecutor (W : Type) := {
  HeldPrivileges : PrivilegeObject → string → M W (result (list string * list string * bool));
  GrantPrivileges : PrivilegeObject → string → list string → bool → M W error;
  RevokePrivileges : PrivilegeObject → string → list string → RevokeMode → M W error }.

Definition executorOps {W} (pg : privilegeExecutor W) (gone : option (grantTarget → M W (result bool))) : privilegeOps W :=
  {| op_held := λ t,
       r ← HeldPrivileges W pg (grantTarget_object t) (gt_Grantee t);
       mret (match r with inl (privileges, grantable, _) => inl (privileges, grantable) | inr e => inr e end);
     op_grant := λ t, GrantPrivileges W pg (grantTarget_object t) (gt_Grantee t);
     op_revoke := λ t, RevokePrivileges W pg (grantTarget_object t) (gt_Grantee t);
     op_gone := gone |}.
End engine.
