(* ===== verification/GrantTrace.v ===== *)
(** * The grant engine: lemmas

    The ledger maps, the traces of each phase, and the frame conditions the
    convergence proof uses. *)

From Stdlib Require Import Ascii.
From S2P Require Import Prelude GoStrings GoStrconv Quoting Privileges Trace GrantEngine.

(** ** Sets of privileges as lists *)

Definition canonical (l : list string) : Prop := StronglySorted String.le l ∧ NoDup l.

Lemma elem_of_subtract x a b : x ∈ subtract a b ↔ x ∈ a ∧ x ∉ b.
Proof. unfold subtract. rewrite list_elem_of_filter. tauto. Qed.

Lemma elem_of_intersect x a b : x ∈ intersect a b ↔ x ∈ a ∧ x ∈ b.
Proof. unfold intersect. rewrite list_elem_of_filter. tauto. Qed.

Lemma elem_of_str_union x a b : x ∈ str_union a b ↔ x ∈ a ∨ x ∈ b.
Proof. unfold str_union. by rewrite elem_of_slices_Compact, elem_of_slices_Sort, elem_of_app. Qed.

Lemma str_union_canonical a b : canonical (str_union a b).
Proof. split; [apply slices_Compact_sorted|apply slices_Compact_NoDup]; apply slices_Sort_sorted. Qed.

Lemma StronglySorted_sublist {A} (R : relation A) (l k : list A) :
  l `sublist_of` k → StronglySorted R k → StronglySorted R l.
Proof.
  intros Hs. induction Hs as [|x l k Hs IH|x l k Hs IH]; [done| |].
  - intros [H1 H2]%StronglySorted_inv. constructor; [by apply IH|].
    rewrite Forall_forall in *. intros y Hy. apply H2. by eapply elem_of_sublist.
  - intros [H1 H2]%StronglySorted_inv. by apply IH.
Qed.

Lemma canonical_subtract a b : canonical a → canonical (subtract a b).
Proof.
  intros [Hs Hn]. split; [eapply StronglySorted_sublist|eapply sublist_NoDup]; eauto using sublist_filter.
Qed.

Lemma canonical_nil : canonical [].
Proof. split; constructor. Qed.

Lemma str_union_nil_l l : canonical l → str_union [] l = l.
Proof. intros [Hs Hn]. unfold str_union. simpl. by rewrite slices_Sort_id, slices_Compact_id. Qed.

Lemma subtract_nil_iff a b : subtract a b = [] ↔ ∀ x, x ∈ a → x ∈ b.
Proof.
  split.
  - intros H x Hx. destruct (decide (x ∈ b)); [done|].
    assert (x ∈ subtract a b) as Hs by (by apply elem_of_subtract). rewrite H in Hs. by apply elem_of_nil in Hs.
  - intros H. destruct (subtract a b) as [|x l] eqn:E; [done|].
    assert (x ∈ subtract a b) as [? ?]%elem_of_subtract by (rewrite E; by left). naive_solver.
Qed.

(** ** Fields of an entry *)

(** A projection of an entry that merging treats as a set of names. *)
Class GrantField (f : privilegeGrant → list string) : Prop := {
  field_merge a b : f (mergeGrant a b) = str_union (f a) (f b);
  field_zero : f zeroGrant = [] }.

#[export] Instance field_Privileges : GrantField g_Privileges.
Proof. by split. Qed.
#[export] Instance field_GrantOptions : GrantField g_GrantOptions.
Proof. by split. Qed.

Lemma grant_at_insert m k k' g : grant_at (<[k := g]> m) k' = if decide (k = k') then g else grant_at m k'.
Proof. unfold grant_at. case_decide; [subst; by rewrite lookup_insert_eq|by rewrite lookup_insert_ne]. Qed.

Lemma grant_at_delete m k k' : grant_at (delete k m) k' = if decide (k = k') then zeroGrant else grant_at m k'.
Proof. unfold grant_at. case_decide; [subst; by rewrite lookup_delete_eq|by rewrite lookup_delete_ne]. Qed.

Lemma grant_at_Some m k g : m !! k = Some g → grant_at m k = g.
Proof. unfold grant_at. by intros ->. Qed.

Lemma field_grant_at_Some (f : privilegeGrant → list string) `{!GrantField f} m k x :
  x ∈ f (grant_at m k) → ∃ g, m !! k = Some g ∧ x ∈ f g.
Proof.
  unfold grant_at. destruct (m !! k) as [g|]; simpl; [eauto|]. rewrite field_zero. by intros ?%elem_of_nil.
Qed.

Section maps.
Context `{UP : UnicodePrint}.

(** Every entry is stored under its own key. *)
Definition keyed (m : gmap string privilegeGrant) : Prop := map_Forall (λ k g, grant_key g = k) m.

Definition canonical_grant (g : privilegeGrant) : Prop := canonical (g_Privileges g) ∧ canonical (g_GrantOptions g).

Definition merge_into (m : gmap string privilegeGrant) (gs : list privilegeGrant) : gmap string privilegeGrant :=
  foldl (λ m g, <[grant_key g := mergeGrant (grant_at m (grant_key g)) g]> m) m gs.

Lemma tracked_of_merge managed : tracked_of managed = merge_into ∅ managed.
Proof. done. Qed.

Lemma merge_into_field f `{!GrantField f} m gs k x :
  x ∈ f (grant_at (merge_into m gs) k) ↔ x ∈ f (grant_at m k) ∨ ∃ g, g ∈ gs ∧ grant_key g = k ∧ x ∈ f g.
Proof.
  revert m. induction gs as [|g gs IH]; intros m; simpl.
  { split; [by left|]. intros [?|(g & H & _)]; [done|]. by apply elem_of_nil in H. }
  rewrite IH, grant_at_insert. split.
  - intros [H|(g' & ? & ? & ?)].
    + case_decide; [|by left]. subst. rewrite field_merge, elem_of_str_union in H.
      destruct H; [by left|]. right. exists g. split_and!; [by left|done..].
    + right. exists g'. split_and!; [by right|done..].
  - intros [H|(g' & [->|H]%elem_of_cons & ? & ?)].
    + left. case_decide; [|done]. subst. rewrite field_merge, elem_of_str_union. by left.
    + left. rewrite decide_True by done. rewrite field_merge, elem_of_str_union. by right.
    + right. by exists g'.
Qed.

Lemma merge_into_dom m gs k :
  is_Some (merge_into m gs !! k) ↔ is_Some (m !! k) ∨ ∃ g, g ∈ gs ∧ grant_key g = k.
Proof.
  revert m. induction gs as [|g gs IH]; intros m; simpl.
  { split; [by left|]. intros [?|(g & H & _)]; [done|]. by apply elem_of_nil in H. }
  rewrite IH, lookup_insert_is_Some'. split.
  - intros [[?|?]|(g' & ? & ?)]; [right; exists g; by repeat constructor|by left|].
    right. exists g'. by split; [right|].
  - intros [?|(g' & [->|?]%elem_of_cons & ?)]; eauto 10.
Qed.

Lemma merge_into_keyed m gs : keyed m → keyed (merge_into m gs).
Proof.
  revert m. induction gs as [|g gs IH]; intros m Hm; simpl; [done|].
  apply IH. by apply map_Forall_insert_2.
Qed.

Lemma merge_into_canonical m gs :
  map_Forall (λ _ g, canonical_grant g) m → map_Forall (λ _ g, canonical_grant g) (merge_into m gs).
Proof.
  revert m. induction gs as [|g gs IH]; intros m Hm; simpl; [done|].
  apply IH. apply map_Forall_insert_2; [|done]. split; apply str_union_canonical.
Qed.

Lemma want_of_spec desired k d :
  want_of desired !! k = Some d → d ∈ desired ∧ grant_key d = k.
Proof.
  unfold want_of. assert (∀ m : gmap string privilegeGrant, foldl (λ w d, <[grant_key d := d]> w) m desired !! k = Some d →
    m !! k = Some d ∨ d ∈ desired ∧ grant_key d = k) as H; [|by intros [?|?]%H].
  induction desired as [|e ds IH]; intros m; simpl; [by left|].
  intros [H|[? ?]]%IH; [|right; by split; [right|]].
  apply lookup_insert_Some in H as [[? ->]|[? ?]]; [right; by split; [left|]|by left].
Qed.

Lemma want_of_dom desired k : is_Some (want_of desired !! k) ↔ ∃ d, d ∈ desired ∧ grant_key d = k.
Proof.
  unfold want_of. assert (∀ m : gmap string privilegeGrant, is_Some (foldl (λ w d, <[grant_key d := d]> w) m desired !! k) ↔
    is_Some (m !! k) ∨ ∃ d, d ∈ desired ∧ grant_key d = k) as H.
  { induction desired as [|e ds IH]; intros m; simpl.
    { split; [by left|]. intros [?|(g & H & _)]; [done|]. by apply elem_of_nil in H. }
    rewrite IH, lookup_insert_is_Some'. split.
    - intros [[?|?]|(g' & ? & ?)]; [right; exists e; by repeat constructor|by left|].
      right. exists g'. by split; [right|].
    - intros [?|(g' & [->|?]%elem_of_cons & ?)]; eauto 10. }
  rewrite H, lookup_empty. split; [intros [[? [=]]|?]; done|by right].
Qed.

(** Distinct keys make a desired grant the one its key looks up. *)
Lemma want_of_elem desired d :
  NoDup (grant_key <$> desired) → d ∈ desired → grant_at (want_of desired) (grant_key d) = d.
Proof.
  intros Hn Hd. destruct (want_of desired !! grant_key d) as [e|] eqn:E.
  - rewrite (grant_at_Some _ _ _ E). apply want_of_spec in E as [He Hk].
    by eapply NoDup_fmap_elem.
  - exfalso. apply eq_None_not_Some in E. apply E, want_of_dom. eauto.
Qed.

(** What [want] holds at a key is declared by a desired grant of that key. *)
Lemma want_of_field f `{!GrantField f} desired k x :
  x ∈ f (grant_at (want_of desired) k) → ∃ d, d ∈ desired ∧ grant_key d = k ∧ x ∈ f d.
Proof. intros (d & [? ?]%want_of_spec & ?)%(field_grant_at_Some f). eauto. Qed.

(** ** [sortedGrants] *)

Lemma elem_of_sortedGrants m g : g ∈ sortedGrants m ↔ ∃ k, m !! k = Some g ∧ grant_empty g = false.
Proof.
  unfold sortedGrants. rewrite list_elem_of_filter, list_elem_of_fmap. split.
  - intros (He & k & -> & [g' Hk]%elem_of_sorted_keys). rewrite (grant_at_Some _ _ _ Hk) in *. eauto.
  - intros (k & Hk & He). split; [done|]. exists k. rewrite (grant_at_Some _ _ _ Hk).
    split; [done|]. apply elem_of_sorted_keys. eauto.
Qed.

Lemma sortedGrants_keys_sublist m :
  keyed m → (grant_key <$> sortedGrants m) `sublist_of` sorted_keys m.
Proof.
  intros Hk. unfold sortedGrants.
  assert (grant_key <$> (grant_at m <$> sorted_keys m) = sorted_keys m) as Heq.
  { rewrite <- list_fmap_compose. transitivity (id <$> sorted_keys m); [|apply list_fmap_id].
    apply list_fmap_ext. intros i k Hi. cbn [compose id].
    apply list_elem_of_lookup_2, elem_of_sorted_keys in Hi as [g Hg]. rewrite (grant_at_Some _ _ _ Hg). by apply Hk. }
  rewrite <- Heq at 2. apply fmap_sublist, sublist_filter.
Qed.

(** Keys in increasing order, each once. *)
Lemma sortedGrants_sorted m :
  keyed m → StronglySorted String.le (grant_key <$> sortedGrants m) ∧ NoDup (grant_key <$> sortedGrants m).
Proof.
  intros Hk. apply sortedGrants_keys_sublist in Hk.
  split; [eapply StronglySorted_sublist|eapply sublist_NoDup]; eauto with go.
Qed.

Lemma length_sortedGrants m : (length (sortedGrants m) ≤ size m)%nat.
Proof.
  unfold sortedGrants, sorted_keys. etransitivity; [apply length_filter|].
  by rewrite length_fmap, length_slices_Sort, length_fmap, length_map_to_list.
Qed.
End maps.

(** ** The grant engine: what it asks of the server

    [applyPrivilegeGrants] run with every call recorded. The lemmas say which
    calls each phase makes; the theorems are the engine's promises about what it
    grants, revokes and records. *)

Inductive event :=
  | EvHeld (t : grantTarget) (r : result (list string * list string))
  | EvGrant (t : grantTarget) (ps : list string) (withGrantOption : bool) (e : error)
  | EvRevoke (t : grantTarget) (ps : list string) (mode : RevokeMode) (e : error)
  | EvGone (t : grantTarget) (r : result bool)
  | EvPersist (ledger : list privilegeGrant) (e : error).

Definition logged_ops {W} (ops : privilegeOps W) : privilegeOps (W * list event) :=
  {| op_held := λ t, logged (EvHeld t) (op_held ops t);
     op_grant := λ t ps wgo, logged (EvGrant t ps wgo) (op_grant ops t ps wgo);
     op_revoke := λ t ps mode, logged (EvRevoke t ps mode) (op_revoke ops t ps mode);
     op_gone := (λ f t, logged (EvGone t) (f t)) <$> op_gone ops |}.

Definition logged_persist {W} (persist : ledgerPersist W) : ledgerPersist (W * list event) :=
  (λ f ledger, logged (EvPersist ledger) (f ledger)) <$> persist.

(** How each call changes the world. *)
Definition call_step {W} (ops : privilegeOps W) (persist : ledgerPersist W) (ev : event) (w w' : W) : Prop :=
  match ev with
  | EvHeld t r => op_held ops t w = (r, w')
  | EvGrant t ps wgo e => op_grant ops t ps wgo w = (e, w')
  | EvRevoke t ps mode e => op_revoke ops t ps mode w = (e, w')
  | EvGone t r => ∃ f, op_gone ops = Some f ∧ f t w = (r, w')
  | EvPersist ledger e => ∃ f, persist = Some f ∧ f ledger w = (e, w')
  end.

Section phases.
Context `{UP : UnicodePrint} {W : Type} (ops : privilegeOps W) (persist : ledgerPersist W).

Abbreviation lops := (logged_ops ops).
Abbreviation emits := (emits (call_step ops persist)).

(** ** Planning *)

(** A plan entry is what one desired grant misses, as read from the server. *)
Definition planned_from (desired : list privilegeGrant) (tr : list event) (p : plannedGrant) : Prop :=
  ∃ d held grantable, d ∈ desired ∧ EvHeld (g_Target d) (inl (held, grantable)) ∈ tr ∧ p = planOf d held grantable.

Definition is_held (ev : event) : Prop := match ev with EvHeld _ _ => True | _ => False end.

Lemma planned_from_mono desired desired' tr tr' p :
  (∀ d, d ∈ desired → d ∈ desired') → (∀ ev, ev ∈ tr → ev ∈ tr') →
  planned_from desired tr p → planned_from desired' tr' p.
Proof. intros Hd Ht (d & h & g & ? & ? & ->). exists d, h, g. auto. Qed.

(** Every desired grant was read, and what it misses is in the plan. *)
Definition plan_covers (ds : list privilegeGrant) (tr : list event) (plan : list plannedGrant) : Prop :=
  ∀ d, d ∈ ds → ∃ held grantable, EvHeld (g_Target d) (inl (held, grantable)) ∈ tr ∧
    (planOf d held grantable ∈ plan ∨ grant_empty (p_added (planOf d held grantable)) = true).

Lemma planMissing_emits d :
  emits (planMissing lops d) (λ r new, ∃ h, new = [EvHeld (g_Target d) h] ∧
    r = match h with inl (held, grantable) => inl (planOf d held grantable) | inr e => inr e end).
Proof.
  unfold planMissing. eapply emits_bind; [by apply emits_logged|]. intros h new ->.
  apply emits_ret. by exists h.
Qed.

Lemma planGrants_emits ds :
  emits (planGrants lops ds) (λ r new, Forall is_held new ∧ Forall (planned_from ds new) r.2 ∧
    Forall (λ p, grant_empty (p_added p) = false) r.2 ∧ (r.1 = [] → plan_covers ds new r.2)).
Proof.
  induction ds as [|d ds IH]; simpl.
  { apply emits_ret. split_and!; [done..|]. by intros _ d ?%elem_of_nil. }
  eapply emits_bind; [apply planMissing_emits|]. intros r new1 (h & -> & ->).
  eapply emits_bind; [apply IH|]. intros [errs plan] new2 (H2 & Hp & He & Hc). simpl in *.
  apply emits_ret. rewrite app_nil_r. split; [by constructor|].
  assert (Forall (planned_from (d :: ds) (EvHeld (g_Target d) h :: new2)) plan) as Hplan.
  { eapply Forall_impl; [exact Hp|]. intros p. apply planned_from_mono; intros; by right. }
  destruct h as [[held grantable]|e]; simpl; [|done].
  set (plan' := if grant_empty _ then _ else _).
  assert (errs = [] → plan_covers (d :: ds) (EvHeld (g_Target d) (inl (held, grantable)) :: new2) plan') as Hcov.
  { intros Hn d' [->|Hd]%elem_of_cons.
    - exists held, grantable. split; [by left|]. unfold plan'.
      destruct (grant_empty _) eqn:E; [by right|left; by left].
    - destruct (Hc Hn d' Hd) as (h' & g' & ? & ?). exists h', g'. split; [by right|].
      unfold plan'. destruct (grant_empty _); [done|]. destruct H0; [left; by right|by right]. }
  unfold plan' in *. destruct (grant_empty _) eqn:E; [done|].
  split_and!; [constructor; [|done]|by constructor|done].
  exists d, held, grantable. split_and!; [by left|by left|done].
Qed.

Lemma intended_of_merge tracked plan ds tr :
  Forall (planned_from ds tr) plan → intended_of tracked plan = merge_into tracked (p_added <$> plan).
Proof.
  intros H. revert tracked. unfold intended_of, merge_into. induction H as [|p plan (d & h & g & _ & _ & ->) _ IH]; [done|].
  intros m. apply IH.
Qed.

(** ** Granting *)

Definition grants_of (plan : list plannedGrant) (ev : event) : Prop :=
  match ev with
  | EvGrant t ps wgo _ => ∃ p, p ∈ plan ∧ t = p_target p ∧ ps = (if wgo then p_grantOptions p else p_plain p) ∧ ps ≠ []
  | _ => False
  end.

(** The statements a plan entry needs all succeeded. *)
Definition granted (tr : list event) (p : plannedGrant) : Prop :=
  ∀ wgo : bool, let ps := if wgo then p_grantOptions p else p_plain p in
    ps ≠ [] → EvGrant (p_target p) ps wgo None ∈ tr.

Lemma granted_mono tr tr' p : (∀ ev, ev ∈ tr → ev ∈ tr') → granted tr p → granted tr' p.
Proof. intros H Hg wgo ps Hps. by apply H, Hg. Qed.

Lemma grantStep_emits p (wgo : bool) :
  let ps := if wgo then p_grantOptions p else p_plain p in
  emits (if decide (ps = []) then mret None else op_grant lops (p_target p) ps wgo)
    (λ e new, Forall (grants_of [p]) new ∧ (e = None → ps ≠ [] → EvGrant (p_target p) ps wgo None ∈ new)).
Proof.
  intros ps. case_decide; [by apply emits_ret|].
  eapply emits_conseq; [by apply emits_logged|]. intros e new ->. split.
  - constructor; [|done]. exists p. split_and!; [by left|done..].
  - intros -> _. by left.
Qed.

Lemma grantOne_emits p :
  emits (grantOne lops p) (λ errs new, Forall (grants_of [p]) new ∧ (errs = [] → granted new p)).
Proof.
  unfold grantOne. eapply emits_bind; [apply (grantStep_emits p true)|]. intros [e|] new1 [H1 Hg1].
  { apply emits_ret. by rewrite app_nil_r. }
  eapply emits_bind; [apply (grantStep_emits p false)|]. intros e2 new2 [H2 Hg2]. apply emits_ret.
  rewrite app_nil_r. split; [by apply Forall_app|]. intros ->%option_list_nil [] ps Hps; apply elem_of_app.
  - left. by apply Hg1.
  - right. by apply Hg2.
Qed.

Lemma grants_of_mono plan plan' ev :
  (∀ p, p ∈ plan → p ∈ plan') → grants_of plan ev → grants_of plan' ev.
Proof. destruct ev; simpl; try done. intros H (p & ? & ?). exists p. auto. Qed.

Lemma grantPlanned_emits plan :
  emits (grantPlanned lops plan) (λ errs new, Forall (grants_of plan) new ∧ (errs = [] → Forall (granted new) plan)).
Proof.
  induction plan as [|p plan IH]; simpl; [by apply emits_ret|].
  eapply emits_bind; [apply grantOne_emits|]. intros e1 new1 [H1 Hg1].
  eapply emits_bind; [apply IH|]. intros e2 new2 [H2 Hg2]. apply emits_ret. rewrite app_nil_r. split.
  - apply Forall_app. split.
    + eapply Forall_impl; [exact H1|]. intros ev. apply grants_of_mono. intros q ->%list_elem_of_singleton. by left.
    + eapply Forall_impl; [exact H2|]. intros ev. apply grants_of_mono. by right.
  - intros [He1 He2]%app_nil. constructor.
    + eapply granted_mono; [|by apply Hg1]. intros. apply elem_of_app. by left.
    + eapply Forall_impl; [by apply Hg2|]. intros q. apply granted_mono. intros. apply elem_of_app. by right.
Qed.

(** ** Revoking *)

(** A call that revokes what the entry [m] records and [d] does not declare;
    CASCADE only for privileges whose grant option [m] records. *)
Definition revoke_ok (m d : privilegeGrant) (ev : event) : Prop :=
  match ev with
  | EvRevoke t ps mode _ =>
      t = g_Target m ∧ ps ≠ [] ∧
      (∀ p, p ∈ ps → if GrantOptionOnly mode then p ∈ g_GrantOptions m ∧ p ∉ g_GrantOptions d
                     else p ∈ g_Privileges m ∧ p ∉ g_Privileges d) ∧
      (Cascade mode = true → ∀ p, p ∈ ps → p ∈ g_GrantOptions m)
  | EvGone t _ => t = g_Target m
  | _ => False
  end.

(** [m'] records part of what [m] records. *)
Definition entry_le (m' m : privilegeGrant) : Prop :=
  g_Target m' = g_Target m ∧ (∀ p, p ∈ g_Privileges m' → p ∈ g_Privileges m) ∧
  (∀ p, p ∈ g_GrantOptions m' → p ∈ g_GrantOptions m) ∧ (canonical_grant m → canonical_grant m').

#[local] Instance entry_le_preorder : PreOrder entry_le.
Proof.
  split; [by intros m|]. intros a b c (? & ? & ? & ?) (? & ? & ? & ?). split_and!; [congruence|auto..].
Qed.

Lemma entry_le_subtract m a b :
  entry_le (with_privileges m (subtract (g_Privileges m) a) (subtract (g_GrantOptions m) b)) m.
Proof.
  split_and!; [done|by intros p [? _]%elem_of_subtract..|]. intros [? ?]. split; by apply canonical_subtract.
Qed.

Lemma entry_le_subtract_l m a : entry_le (with_privileges m (subtract (g_Privileges m) a) (g_GrantOptions m)) m.
Proof.
  split_and!; [done|by intros p [? _]%elem_of_subtract|done|]. intros [? ?]. split; [by apply canonical_subtract|done].
Qed.

Lemma entry_le_subtract_r m b : entry_le (with_privileges m (g_Privileges m) (subtract (g_GrantOptions m) b)) m.
Proof.
  split_and!; [done|done|by intros p [? _]%elem_of_subtract|]. intros [? ?]. split; [done|by apply canonical_subtract].
Qed.

(** Nothing [m] records is undeclared in [d]. *)
Definition settled (m d : privilegeGrant) : Prop :=
  (∀ p, p ∈ g_Privileges m → p ∈ g_Privileges d) ∧ (∀ p, p ∈ g_GrantOptions m → p ∈ g_GrantOptions d).

Lemma revokeEach_emits t ps :
  emits (revokeEach lops t ps) (λ '(done, blocked, errs) new,
    Forall (λ ev, ∃ p e, p ∈ ps ∧ ev = EvRevoke t [p] (revokeMode false false) e) new ∧
    (∀ p, p ∈ done ∨ p ∈ blocked → p ∈ ps) ∧
    (errs = [] → ∀ p, p ∈ ps → p ∈ done ∨ p ∈ blocked)).
Proof.
  induction ps as [|p ps IH]; simpl.
  { apply emits_ret. split_and!; [done|by intros ? [?%elem_of_nil|?%elem_of_nil]|by intros _ ? ?%elem_of_nil]. }
  eapply emits_bind; [by apply emits_logged|]. intros e new1 ->.
  eapply emits_bind; [apply IH|]. intros [[dn bl] errs] new2 (Hev & Hin & Hall). apply emits_ret.
  rewrite app_nil_r.
  assert (Forall (λ ev, ∃ q e, q ∈ p :: ps ∧ ev = EvRevoke t [q] (revokeMode false false) e)
    ([EvRevoke t [p] (revokeMode false false) e] ++ new2)) as Hnew.
  { apply Forall_app. split; [constructor; [|done]; exists p, e; by repeat constructor|].
    eapply Forall_impl; [exact Hev|]. intros ev (q & e' & ? & ->). exists q, e'. by split; [right|]. }
  destruct (DependentPrivilegesExist e); [|destruct e as [e|]];
    (split_and!; [exact Hnew|set_solver|]); try done; intros He q [->|Hq]%elem_of_cons; set_solver.
Qed.

Lemma revokeOptionsOnly_emits m d os :
  (∀ p, p ∈ os → p ∈ g_GrantOptions m ∧ p ∉ g_GrantOptions d) →
  emits (revokeOptionsOnly lops m os) (λ '(m', errs) new,
    Forall (revoke_ok m d) new ∧ entry_le m' m ∧ g_Privileges m' = g_Privileges m ∧
    (errs = [] → ∀ p, p ∈ g_GrantOptions m' → p ∉ os)).
Proof.
  intros Hos. unfold revokeOptionsOnly. case_decide as Hn; [by apply emits_ret; subst; set_solver by done|].
  eapply emits_bind; [by apply emits_logged|]. intros e new ->. apply emits_ret. rewrite app_nil_r.
  assert (Forall (revoke_ok m d) [EvRevoke (g_Target m) os (revokeMode true true) e]) as Hev.
  { constructor; [|done]. split_and!; [done|done|done|]. intros _ p ?. by apply Hos. }
  destruct e as [e|].
  - split_and!; [exact Hev|done..].
  - split_and!; [exact Hev|apply entry_le_subtract_r|done|]. by intros _ p [_ ?]%elem_of_subtract.
Qed.

Lemma revokeWithOption_emits m d ps :
  (∀ p, p ∈ ps → p ∈ g_Privileges m ∧ p ∉ g_Privileges d ∧ p ∈ g_GrantOptions m) →
  emits (revokeWithOption lops m ps) (λ '(m', errs) new,
    Forall (revoke_ok m d) new ∧ entry_le m' m ∧ (∀ p, p ∉ ps → p ∈ g_Privileges m → p ∈ g_Privileges m') ∧
    (errs = [] → ∀ p, p ∈ ps → p ∉ g_Privileges m' ∧ p ∉ g_GrantOptions m')).
Proof.
  intros Hps. unfold revokeWithOption. case_decide as Hn.
  { apply emits_ret. subst. split_and!; [done|done|done|]. by intros _ p ?%elem_of_nil. }
  eapply emits_bind; [by apply emits_logged|]. intros e new ->. apply emits_ret. rewrite app_nil_r.
  assert (Forall (revoke_ok m d) [EvRevoke (g_Target m) ps (revokeMode false true) e]) as Hev.
  { constructor; [|done]. split_and!; [done|done| |]; [intros p ?; split|intros _ p ?]; by apply Hps. }
  destruct e as [e|].
  - split_and!; [exact Hev|done..].
  - split_and!; [exact Hev|apply entry_le_subtract| |].
    + intros p ? ?. by apply elem_of_subtract.
    + intros _ p ?. by split; intros [_ ?]%elem_of_subtract.
Qed.

Lemma revokePlain_emits m d ps :
  (∀ p, p ∈ ps → p ∈ g_Privileges m ∧ p ∉ g_Privileges d) →
  emits (revokePlain lops m ps) (λ '(m', errs, skip) new,
    Forall (revoke_ok m d) new ∧ entry_le m' m ∧ g_GrantOptions m' = g_GrantOptions m ∧
    (errs = [] → skip = [] → ∀ p, p ∈ ps → p ∉ g_Privileges m')).
Proof.
  intros Hps. unfold revokePlain. case_decide as Hn.
  { apply emits_ret. subst. split_and!; [done|done|done|]. by intros _ _ p ?%elem_of_nil. }
  assert (∀ qs e, qs ≠ [] → (∀ q, q ∈ qs → q ∈ ps) →
    revoke_ok m d (EvRevoke (g_Target m) qs (revokeMode false false) e)) as Hok.
  { intros qs e Hq Hin. split_and!; [done|done| |done]. intros p Hp. by apply Hps, Hin. }
  eapply emits_bind; [by apply emits_logged|]. intros e new ->.
  destruct (DependentPrivilegesExist e).
  - eapply emits_bind; [apply revokeEach_emits|]. intros [[dn bl] errs] new2 (Hev & Hin & Hall). apply emits_ret.
    rewrite app_nil_r.
    assert (Forall (revoke_ok m d) ([EvRevoke (g_Target m) ps (revokeMode false false) e] ++ new2)) as Hnew.
    { apply Forall_app. split; [constructor; [by apply Hok|done]|]. eapply Forall_impl; [exact Hev|].
      intros ev (p & e' & Hp & ->). apply Hok; [done|]. by intros q ->%list_elem_of_singleton. }
    case_decide as Hb; cbn [g_GrantOptions with_privileges].
    + split_and!; [exact Hnew|apply entry_le_subtract_l|done|].
      intros Herr _ p Hp. apply option_list_nil, errors_Join_map_Some in Herr.
      intros [_ Hd]%elem_of_subtract. destruct (Hall Herr p Hp) as [|Hp']; [done|].
      rewrite Hb in Hp'. by apply elem_of_nil in Hp'.
    + split_and!; [exact Hnew| |done|done].
      etransitivity; [apply (entry_le_subtract_l (with_privileges _ _ _))|]. apply entry_le_subtract_l.
  - apply emits_ret. rewrite app_nil_r. destruct e as [e|].
    + split_and!; [by constructor; [apply Hok|]|done..].
    + split_and!; [by constructor; [apply Hok|]|apply entry_le_subtract_l|done|].
      by intros _ _ p ? [_ ?]%elem_of_subtract.
Qed.

Lemma revoke_ok_mono m' m d ev : entry_le m' m → revoke_ok m' d ev → revoke_ok m d ev.
Proof.
  intros (Ht & Hp & Ho & _). destruct ev; simpl; try done; [|congruence].
  intros (-> & ? & Hps & Hc). split_and!; [done|done| |].
  - intros p Hin. specialize (Hps p Hin). destruct (GrantOptionOnly mode); destruct Hps; auto.
  - intros Hca p Hin. by apply Ho, Hc.
Qed.

Lemma op_gone_check_emits t :
  emits (op_gone_check lops t) (λ _ new, Forall (λ ev, ∃ r, ev = EvGone t r) new).
Proof.
  unfold op_gone_check. simpl. destruct (op_gone ops) as [f|] eqn:E; simpl; [|by apply emits_ret].
  eapply emits_conseq; [apply emits_logged; simpl; eauto|]. intros r new ->. constructor; [by exists r|done].
Qed.

(** What [revokeRemoved] computes first. *)
Definition removed_of (m d : privilegeGrant) : list string := subtract (g_Privileges m) (g_Privileges d).
Definition optionsOnly_of (m d : privilegeGrant) : list string :=
  subtract (subtract (g_GrantOptions m) (g_GrantOptions d)) (removed_of m d).

Lemma elem_of_optionsOnly m d p :
  p ∈ optionsOnly_of m d ↔ (p ∈ g_GrantOptions m ∧ p ∉ g_GrantOptions d) ∧ p ∉ removed_of m d.
Proof. unfold optionsOnly_of. by rewrite !elem_of_subtract. Qed.

Lemma settled_iff m d : removed_of m d = [] ∧ optionsOnly_of m d = [] ↔ settled m d.
Proof.
  unfold settled, optionsOnly_of, removed_of. rewrite !subtract_nil_iff.
  split; intros [H1 H2]; (split; [done|]); intros p Hp.
  2: { apply elem_of_subtract in Hp as [? ?]. exfalso. auto. }
  destruct (decide (p ∈ g_GrantOptions d)) as [|Hn]; [done|].
  assert (p ∈ subtract (g_Privileges m) (g_Privileges d)) as [? ?]%elem_of_subtract
    by (apply H2, elem_of_subtract; done). exfalso. auto.
Qed.

(** The three statements without an error leave nothing undeclared. *)
Lemma settled_after m d m1 m2 m3 :
  let withOption := intersect (removed_of m d) (g_GrantOptions m1) in
  let plain := subtract (removed_of m d) withOption in
  entry_le m1 m → entry_le m2 m1 → entry_le m3 m2 →
  g_Privileges m1 = g_Privileges m → g_GrantOptions m3 = g_GrantOptions m2 →
  (∀ p, p ∈ g_GrantOptions m1 → p ∉ optionsOnly_of m d) →
  (∀ p, p ∈ withOption → p ∉ g_Privileges m2 ∧ p ∉ g_GrantOptions m2) →
  (∀ p, p ∈ plain → p ∉ g_Privileges m3) → settled m3 d.
Proof.
  intros withOption plain (_ & _ & Ho1 & _) (_ & Hp2 & Ho2 & _) (_ & Hp3 & _ & _) Hp1 Ho3 Hs1 Hs2 Hs3.
  assert (∀ p, p ∈ removed_of m d → p ∈ g_GrantOptions m1 → p ∈ withOption) as Hw.
  { intros p ??. by apply elem_of_intersect. }
  split; intros p Hp.
  - destruct (decide (p ∈ g_Privileges d)) as [|Hd]; [done|]. exfalso.
    assert (p ∈ removed_of m d) as Hr. { apply elem_of_subtract. split; [|done]. rewrite <- Hp1. auto. }
    destruct (decide (p ∈ g_GrantOptions m1)) as [Hg|Hg].
    + apply (proj1 (Hs2 p (Hw p Hr Hg))). auto.
    + apply (Hs3 p); [|done]. apply elem_of_subtract. split; [done|]. by intros [_ ?]%elem_of_intersect.
  - rewrite Ho3 in Hp. destruct (decide (p ∈ g_GrantOptions d)) as [|Hd]; [done|]. exfalso.
    specialize (Ho2 p Hp). destruct (decide (p ∈ removed_of m d)) as [Hr|Hr].
    + by apply (proj2 (Hs2 p (Hw p Hr Ho2))).
    + apply (Hs1 p Ho2), elem_of_optionsOnly. auto.
Qed.

Lemma revokeRemoved_emits m d sk :
  emits (revokeRemoved lops m d sk) (λ '(m', err, sk') new,
    Forall (revoke_ok m d) new ∧ entry_le m' m ∧
    (settled m d → new = [] ∧ m' = m ∧ err = None ∧ sk' = sk) ∧
    ∃ skip, sk' = sk ++ skip ∧ (err = None → skip = [] → settled m' d)).
Proof.
  unfold revokeRemoved. fold (removed_of m d). fold (optionsOnly_of m d).
  assert (∀ p, p ∈ removed_of m d → p ∈ g_Privileges m ∧ p ∉ g_Privileges d) as Hrem by (intros p; apply elem_of_subtract).
  case_decide as Hn; rewrite settled_iff in Hn.
  { apply emits_ret. split_and!; [done|done|done|]. exists []. by rewrite app_nil_r. }
  eapply emits_bind; [apply op_gone_check_emits|]. intros g new0 H0.
  assert (Forall (revoke_ok m d) new0) as Hok0.
  { eapply Forall_impl; [exact H0|]. by intros ev [r ->]. }
  destruct g as [[]|e].
  - apply emits_ret. rewrite app_nil_r. split_and!; [done| |done|].
    + split_and!; [done|by intros ? ?%elem_of_nil..|]. by split; apply canonical_nil.
    + exists []. rewrite app_nil_r. split; [done|]. intros _ _. by split; intros ? ?%elem_of_nil.
  - eapply emits_bind; [apply (revokeOptionsOnly_emits m d); by intros p [? ?]%elem_of_optionsOnly|].
    intros [m1 errs1] new1 (Hok1 & Hle1 & Hp1 & Hs1).
    eapply emits_bind; [apply (revokeWithOption_emits m1 d)|].
    { intros p [? ?]%elem_of_intersect. rewrite Hp1. split_and!; [by apply Hrem..|done]. }
    intros [m2 errs2] new2 (Hok2 & Hle2 & Hp2 & Hs2).
    eapply emits_bind; [apply (revokePlain_emits m2 d)|].
    { intros p [Hr Hw]%elem_of_subtract. split; [|by apply Hrem]. apply Hp2; [done|]. rewrite Hp1. by apply Hrem. }
    intros [[m3 errs3] skip] new3 (Hok3 & Hle3 & Ho3 & Hs3). apply emits_ret. rewrite app_nil_r.
    split_and!; [|by do 2 (etransitivity; [eassumption|])|done|].
    + repeat (apply Forall_app; split); [exact Hok0|exact Hok1| |]; (eapply Forall_impl; [eassumption|]); intros ev;
        apply revoke_ok_mono; [done|by etransitivity].
    + exists skip. split; [done|]. intros [-> [-> ->]%app_nil]%errors_Join_map_Some%app_nil Hskip.
      apply (settled_after m d m1 m2 m3); auto.
  - apply emits_ret. rewrite app_nil_r. split_and!; [done|done|done|].
    exists []. by rewrite app_nil_r.
Qed.

(** [m'] keeps part of the entries of [m]. *)
Definition shrinks (m' m : gmap string privilegeGrant) : Prop :=
  ∀ k g', m' !! k = Some g' → ∃ g, m !! k = Some g ∧ entry_le g' g.

#[local] Instance shrinks_preorder : PreOrder shrinks.
Proof.
  split; [intros m k g; by exists g|]. intros a b c Hab Hbc k g (g1 & (g2 & ? & ?)%Hbc & ?)%Hab.
  exists g2. split; [done|by etransitivity].
Qed.

(** The ledger after the entry [k] was revoked down to [m]. *)
Definition put (k : string) (m : privilegeGrant) (tracked : gmap string privilegeGrant) : gmap string privilegeGrant :=
  if grant_empty m then delete k tracked else <[k := m]> tracked.

Lemma put_ne k m tracked k' : k ≠ k' → put k m tracked !! k' = tracked !! k'.
Proof. unfold put. intros. destruct (grant_empty m); [by rewrite lookup_delete_ne|by rewrite lookup_insert_ne]. Qed.

Lemma put_shrinks k m tracked :
  is_Some (tracked !! k) → entry_le m (grant_at tracked k) → shrinks (put k m tracked) tracked.
Proof.
  intros [g Hg] Hle k' g'. destruct (decide (k = k')) as [<-|Hk]; [|rewrite put_ne by done; by exists g'].
  rewrite (grant_at_Some _ _ _ Hg) in Hle. unfold put. destruct (grant_empty m); [by rewrite lookup_delete_eq|].
  rewrite lookup_insert_eq. intros [= <-]. eauto.
Qed.

Lemma put_settled k m tracked d : settled m d → settled (grant_at (put k m tracked) k) d.
Proof.
  intros Hs. unfold put. destruct (grant_empty m).
  - rewrite grant_at_delete, decide_True by done. by split; intros ? ?%elem_of_nil.
  - by rewrite grant_at_insert, decide_True by done.
Qed.

Lemma put_id k tracked :
  grant_empty (grant_at tracked k) = false → put k (grant_at tracked k) tracked = tracked.
Proof.
  intros He. unfold put. rewrite He. unfold grant_at in *. destruct (tracked !! k) eqn:E; [|done]. by apply insert_id.
Qed.

Definition revoke_ok_at (tracked want : gmap string privilegeGrant) (ev : event) : Prop :=
  ∃ k, is_Some (tracked !! k) ∧ revoke_ok (grant_at tracked k) (grant_at want k) ev.

Definition all_settled (tracked want : gmap string privilegeGrant) (keys : list string) : Prop :=
  ∀ k, k ∈ keys → settled (grant_at tracked k) (grant_at want k).

Lemma revokeLoop_emits keys want tracked sk :
  NoDup keys → (∀ k, k ∈ keys → is_Some (tracked !! k)) →
  emits (revokeLoop lops keys want tracked sk) (λ '(tracked', errs, sk') new,
    Forall (revoke_ok_at tracked want) new ∧ shrinks tracked' tracked ∧
    (∀ k, k ∉ keys → tracked' !! k = tracked !! k) ∧
    (all_settled tracked want keys → (∀ k, k ∈ keys → grant_empty (grant_at tracked k) = false) →
      new = [] ∧ errs = [] ∧ sk' = sk ∧ tracked' = tracked) ∧
    ∃ skip, sk' = sk ++ skip ∧ (errs = [] → skip = [] → all_settled tracked' want keys)).
Proof.
  revert tracked sk. induction keys as [|k ks IH]; intros tracked sk Hn Hin; simpl.
  { apply emits_ret. split_and!; [done|done|done|done|]. exists []. rewrite app_nil_r.
    split; [done|]. by intros _ _ k ?%elem_of_nil. }
  apply NoDup_cons in Hn as [Hk Hn].
  eapply emits_bind; [apply revokeRemoved_emits|]. intros [[m err] sk1] new1 (Hok1 & Hle & Hno1 & skip1 & -> & Hset1).
  assert (shrinks (put k m tracked) tracked) as Hput by (apply put_shrinks; [apply Hin; by left|done]).
  assert (∀ k', k' ∈ ks → put k m tracked !! k' = tracked !! k') as Hne.
  { intros k' ?. apply put_ne. by intros ->. }
  eapply emits_bind; [apply (IH (put k m tracked)); [done|]|].
  { intros k' Hk'. rewrite Hne by done. apply Hin. by right. }
  intros [[tracked' errs] sk'] new2 (Hok2 & Hsh & Hout & Hno2 & skip2 & -> & Hset2). apply emits_ret. rewrite app_nil_r.
  split_and!.
  - apply Forall_app. split; (eapply Forall_impl; [eassumption|]); intros ev.
    + intros Hev. exists k. split; [apply Hin; by left|done].
    + intros (k' & [g Hg] & Hev). destruct (Hput k' g Hg) as (g0 & Hg0 & Hle'). exists k'.
      rewrite (grant_at_Some _ _ _ Hg), ?(grant_at_Some _ _ _ Hg0) in *. split; [by eexists|].
      by eapply revoke_ok_mono.
  - by etransitivity.
  - intros k' Hk'. rewrite Hout; [apply put_ne|]; set_solver.
  - intros Hall He. destruct Hno1 as (-> & -> & -> & Hsk); [apply Hall; by left|].
    rewrite put_id in * by (apply He; by left).
    destruct Hno2 as (-> & -> & Hsk2 & ->); [intros ? ?; apply Hall; by right|intros ? ?; apply He; by right|].
    split_and!; [done|done| |done]. by rewrite Hsk2.
  - exists (skip1 ++ skip2). split; [by rewrite app_assoc|].
    intros [He1%option_list_nil He2]%app_nil [Hs1 Hs2]%app_nil k' [->|Hk']%elem_of_cons.
    + unfold grant_at at 1. rewrite Hout by done. apply put_settled. auto.
    + by apply Hset2.
Qed.

Lemma revokePhase_emits want tracked errs :
  emits (revokePhase lops want tracked errs) (λ '(after, err) new,
    Forall (revoke_ok_at tracked want) new ∧
    (∃ final, after = sortedGrants final ∧ shrinks final tracked ∧
      (err = None → errs = [] ∧ ∀ k, settled (grant_at final k) (grant_at want k))) ∧
    (∃ es, err = errors_Join (Some <$> (errs ++ es))) ∧
    ((∀ k, settled (grant_at tracked k) (grant_at want k)) → map_Forall (λ _ g, grant_empty g = false) tracked →
      new = [] ∧ after = sortedGrants tracked ∧ err = errors_Join (Some <$> errs))).
Proof.
  unfold revokePhase. eapply emits_bind.
  { apply revokeLoop_emits; [apply sorted_keys_NoDup|]. intros k. apply elem_of_sorted_keys. }
  intros [[tracked' errs'] sk'] new (Hok & Hsh & Hout & Hno & skip & -> & Hset). apply emits_ret. rewrite app_nil_r.
  split_and!; [done| |by eexists|].
  - exists tracked'. split_and!; [done|done|].
    intros [-> [-> Hsk]%app_nil]%errors_Join_map_Some%app_nil. split; [done|]. case_decide; [|done]. intros k.
    destruct (decide (k ∈ sorted_keys tracked)) as [|Hk]; [by apply Hset|].
    unfold grant_at at 1. rewrite Hout by done. rewrite elem_of_sorted_keys in Hk.
    destruct (tracked !! k); [by destruct Hk|]. by split; intros ? ?%elem_of_nil.
  - intros Hall He. destruct Hno as (-> & -> & Hs & ->).
    + intros k _. apply Hall.
    + intros k [g Hg]%elem_of_sorted_keys. rewrite (grant_at_Some _ _ _ Hg). by apply (He k).
    + split_and!; [done|done|]. simpl in Hs. by rewrite Hs, decide_True, !app_nil_r by done.
Qed.
End phases.
