(* ===== verification/GrantProps.v ===== *)
(** * The grant engine: its promises

    What [applyPrivilegeGrants] asks of the server and records, for any server;
    convergence and idempotence for a server that behaves like PostgreSQL
    ([LawfulServer]). *)

From Stdlib Require Import Ascii.
From S2P Require Import Prelude GoStrings GoStrconv Quoting Privileges Trace GrantEngine GrantTrace.

Section shape.
Context `{UP : UnicodePrint} {W : Type} (ops : privilegeOps W) (persist : ledgerPersist W).

Abbreviation emits := (emits (call_step ops persist)).

Definition intended (managed : list privilegeGrant) (plan : list plannedGrant) : gmap string privilegeGrant :=
  merge_into (tracked_of managed) (p_added <$> plan).

(** A run up to the revoke phase. *)
Record run_prefix (desired managed : list privilegeGrant) (limit : ledgerLimit)
    (plan : list plannedGrant) (planTr persistTr grantTr : list event) : Prop := {
  rp_held : Forall is_held planTr;
  rp_planned : Forall (planned_from desired planTr) plan;
  rp_nonempty : Forall (λ p, grant_empty (p_added p) = false) plan;
  rp_over : tooManyGrants limit (tracked_of managed) (want_of desired) ≠ None → plan = [];
  rp_granted : Forall (grants_of plan) grantTr;
  rp_persist : Forall (λ ev, ∃ e, ev = EvPersist (sortedGrants (intended managed plan)) e) persistTr;
  rp_intent : persist ≠ None → grantTr ≠ [] → persistTr = [EvPersist (sortedGrants (intended managed plan)) None];
  rp_idle : plan = [] → persistTr = [] ∧ grantTr = [] }.

(** Everything declared was read and granted. *)
Definition complete (desired : list privilegeGrant) (plan : list plannedGrant) (planTr grantTr : list event) : Prop :=
  plan_covers desired planTr plan ∧ Forall (granted grantTr) plan.

(** A run that reached the revoke phase. *)
Definition run_full desired managed limit (res : list privilegeGrant * error) (new : list event) : Prop :=
  let tracked := tracked_of managed in let want := want_of desired in
  ∃ plan planTr persistTr grantTr revokeTr,
    new = planTr ++ persistTr ++ grantTr ++ revokeTr ∧
    run_prefix desired managed limit plan planTr persistTr grantTr ∧
    Forall (revoke_ok_at (intended managed plan) want) revokeTr ∧
    (∃ final, res.1 = sortedGrants final ∧ shrinks final (intended managed plan) ∧
      (res.2 = None → complete desired plan planTr grantTr ∧ ∀ k, settled (grant_at final k) (grant_at want k))) ∧
    (∀ e, tooManyGrants limit tracked want = Some e → ∃ es, res.2 = Some (JoinErr (e :: es))) ∧
    (plan = [] → (∀ k, settled (grant_at tracked k) (grant_at want k)) →
      map_Forall (λ _ g, grant_empty g = false) tracked → revokeTr = [] ∧ res.1 = sortedGrants tracked).

(** A run that stopped because the ledger could not be recorded. *)
Definition run_unrecorded desired managed limit (res : list privilegeGrant * error) (new : list event) : Prop :=
  ∃ plan planTr e,
    new = planTr ++ [EvPersist (sortedGrants (intended managed plan)) (Some e)] ∧
    run_prefix desired managed limit plan planTr [EvPersist (sortedGrants (intended managed plan)) (Some e)] [] ∧
    tooManyGrants limit (tracked_of managed) (want_of desired) = None ∧ plan ≠ [] ∧
    res.1 = sortedGrants (tracked_of managed) ∧ res.2 ≠ None.

Lemma persistIntended_emits m :
  emits (persistIntended (logged_persist persist) m)
    (λ e new, if persist then new = [EvPersist (sortedGrants m) e] else e = None ∧ new = []).
Proof.
  unfold persistIntended, logged_persist. destruct persist as [f|] eqn:E; simpl; [|by apply emits_ret].
  apply emits_logged. intros w x w' H. by exists f.
Qed.

Lemma applyPrivilegeGrants_emits desired managed limit :
  emits (applyPrivilegeGrants (logged_ops ops) desired managed limit (logged_persist persist)) (λ res new,
    run_full desired managed limit res new ∨ run_unrecorded desired managed limit res new).
Proof.
  unfold applyPrivilegeGrants. set (over := tooManyGrants _ _ _).
  set (grantable := match over with Some _ => [] | None => desired end).
  assert (∀ d, d ∈ grantable → d ∈ desired) as Hsub.
  { unfold grantable. destruct over; [|done]. by intros d ?%elem_of_nil. }
  eapply emits_bind; [apply planGrants_emits|]. intros [errs plan] new1 (Hheld & Hplan & Hne & Hcov). simpl in *.
  assert (over ≠ None → plan = []) as Hover.
  { intros Ho. destruct plan as [|p plan]; [done|]. apply Forall_cons in Hplan as [(d & _ & _ & Hd & _) _].
    unfold grantable in Hd. destruct over; [by apply elem_of_nil in Hd|done]. }
  assert (Forall (planned_from desired new1) plan) as Hplan'.
  { eapply Forall_impl; [exact Hplan|]. intros p. by apply planned_from_mono. }
  assert (option_list over ++ errs = [] → plan_covers desired new1 plan) as Hcov'.
  { intros [Ho ->]%app_nil. unfold grantable in Hcov. apply option_list_nil in Ho. rewrite Ho in Hcov. by apply Hcov. }
  rewrite (intended_of_merge _ plan grantable new1) by done.
  assert (option_list over ++ errs = [] → over = None) as Hnone by (by intros [?%option_list_nil _]%app_nil).
  assert (∀ es e, over = Some e → ∃ es', errors_Join (Some <$> ((option_list over ++ errs) ++ es)) = Some (JoinErr (e :: es'))) as Hmany.
  { intros es e ->. simpl. eexists. apply errors_Join_cons. }
  case_decide as Hp.
  - subst plan. eapply emits_conseq; [apply revokePhase_emits|].
    intros [after err] new2 (Hok & (final & -> & Hsh & Hs) & (es & ->) & Hno).
    left. exists [], new1, [], [], new2. unfold intended. simpl. split_and!; [done|by split|done| | |].
    + exists final. split_and!; [done|done|]. intros He. destruct (Hs He) as [Herr Hall].
      split; [by split; [apply Hcov'|]|done].
    + intros e He. by apply Hmany.
    + intros _ Hall He. by destruct (Hno Hall He) as (-> & -> & _).
  - assert (over = None) as Ho. { destruct over; [by destruct Hp, Hover|done]. }
    clear Hmany. rewrite Ho in *. simpl in *.
    eapply emits_bind; [apply persistIntended_emits|]. intros e new2 He.
    destruct e as [e|].
    + apply emits_ret. rewrite app_nil_r. right. exists plan, new1, e. unfold intended.
      destruct persist as [f|]; [subst new2|by destruct He].
      split_and!; [done|split; try done; by repeat econstructor|done|done|done|].
      intros [_ ?]%errors_Join_map_Some%app_nil. done.
    + eapply emits_bind; [apply grantPlanned_emits|]. intros errs' new3 [Hgr Hcg].
      eapply emits_conseq; [apply revokePhase_emits|].
      intros [after err] new4 (Hok & (final & -> & Hsh & Hs) & (es & ->) & Hno).
      left. exists plan, new1, new2, new3, new4. unfold intended. split_and!; [done| |done| |unfold over in Ho; congruence|done].
      * split; try done; destruct persist; subst; try done; [by repeat econstructor|by destruct He as [_ ->]].
      * exists final. split_and!; [done|done|]. intros Herr. destruct (Hs Herr) as [[-> ->]%app_nil Hall].
        split; [split; auto|done].
Qed.
End shape.

(** ** What the ledger maps hold *)

Section facts.
Context `{UP : UnicodePrint}.

(** Some entry of [gs] under the key [k] has [p] in its field [f]. *)
Definition recorded (f : privilegeGrant → list string) (gs : list privilegeGrant) (k p : string) : Prop :=
  ∃ g, g ∈ gs ∧ grant_key g = k ∧ p ∈ f g.

(** The grant option only for declared privileges, as [desiredGrant] makes them. *)
Definition wf_desired (d : privilegeGrant) : Prop := ∀ p, p ∈ g_GrantOptions d → p ∈ g_Privileges d.

Lemma grant_at_empty k : grant_at ∅ k = zeroGrant.
Proof. done. Qed.

Lemma tracked_recorded f `{!GrantField f} managed k p : p ∈ f (grant_at (tracked_of managed) k) ↔ recorded f managed k p.
Proof.
  rewrite tracked_of_merge, merge_into_field by done. rewrite grant_at_empty, field_zero.
  split; [by intros [?%elem_of_nil|?]|by right].
Qed.

Lemma intended_recorded f `{!GrantField f} managed plan k p :
  p ∈ f (grant_at (intended managed plan) k) ↔ recorded f managed k p ∨ recorded f (p_added <$> plan) k p.
Proof. unfold intended. by rewrite merge_into_field, tracked_recorded by done. Qed.

Lemma intended_keyed managed plan : keyed (intended managed plan).
Proof. apply merge_into_keyed, merge_into_keyed, map_Forall_empty. Qed.

Lemma intended_canonical managed plan : map_Forall (λ _ g, canonical_grant g) (intended managed plan).
Proof. apply merge_into_canonical, merge_into_canonical, map_Forall_empty. Qed.

Lemma intended_nil managed : intended managed [] = tracked_of managed.
Proof. done. Qed.

(** What a plan adds was declared, and not held when it was read. *)
Lemma planned_recorded desired tr plan k p :
  Forall (planned_from desired tr) plan →
  (recorded g_Privileges (p_added <$> plan) k p → recorded g_Privileges desired k p ∧
    ∃ t held grantable, EvHeld t (inl (held, grantable)) ∈ tr ∧ key t = k ∧ p ∉ held) ∧
  (recorded g_GrantOptions (p_added <$> plan) k p → recorded g_GrantOptions desired k p ∧
    ∃ t held grantable, EvHeld t (inl (held, grantable)) ∈ tr ∧ key t = k ∧ p ∉ grantable).
Proof.
  intros Hplan. rewrite Forall_forall in Hplan.
  split; intros (g & (pl & -> & Hpl)%list_elem_of_fmap & Hk & Hp);
    destruct (Hplan _ Hpl) as (d & held & grantable & Hd & Hev & ->); cbn in Hp, Hk;
    apply elem_of_subtract in Hp as [? ?]; (split; [by exists d|by exists (g_Target d), held, grantable]).
Qed.

(** A list is split before an element its first part lacks. *)
Lemma app_split_not_in {A} (l1 l2 pre post : list A) x :
  l1 ++ l2 = pre ++ x :: post → x ∉ l1 → ∃ pre', pre = l1 ++ pre' ∧ l2 = pre' ++ x :: post.
Proof.
  revert pre. induction l1 as [|a l1 IH]; intros pre; simpl; [eauto|].
  intros H [Hx Hl]%not_elem_of_cons. destruct pre as [|b pre]; simplify_eq/=.
  destruct (IH pre) as (pre' & -> & ->); eauto.
Qed.

(** Where a run's calls come from. *)
Lemma not_grant_held tr t ps wgo e : Forall is_held tr → EvGrant t ps wgo e ∉ tr.
Proof. intros H Hin. rewrite Forall_forall in H. by apply H in Hin. Qed.

Lemma revoke_elem tracked want tr ev :
  keyed tracked → Forall (revoke_ok_at tracked want) tr → ev ∈ tr →
  match ev with
  | EvRevoke t ps mode _ => ps ≠ [] ∧ revoke_ok (grant_at tracked (key t)) (grant_at want (key t)) ev
  | EvGone t _ => True
  | _ => False
  end.
Proof.
  intros Hk H Hin. rewrite Forall_forall in H. destruct (H _ Hin) as (k & [g Hg] & Hok).
  destruct ev; try done. assert (key t = k) as ->.
  { destruct Hok as (-> & _). rewrite (grant_at_Some _ _ _ Hg). by apply Hk. }
  split; [by apply Hok|done].
Qed.

Lemma shrinks_keyed m m' : shrinks m' m → keyed m → keyed m'.
Proof. intros Hs Hk k g Hg. destruct (Hs k g Hg) as (g0 & Hg0 & Ht & _). unfold grant_key. rewrite Ht. by apply Hk. Qed.

Lemma shrinks_canonical m m' :
  shrinks m' m → map_Forall (λ _ g, canonical_grant g) m → map_Forall (λ _ g, canonical_grant g) m'.
Proof. intros Hs Hk k g Hg. destruct (Hs k g Hg) as (g0 & Hg0 & _ & _ & _ & Hc). by apply Hc, (Hk k). Qed.

Lemma shrinks_size m m' : shrinks m' m → (size m' ≤ size m)%nat.
Proof.
  intros Hs. rewrite <- !size_dom. apply subseteq_size. intros k [g Hg]%elem_of_dom.
  destruct (Hs k g Hg) as (g0 & ? & _). apply elem_of_dom. eauto.
Qed.

Lemma shrinks_field f m m' k p :
  (f = g_Privileges ∨ f = g_GrantOptions) → shrinks m' m → p ∈ f (grant_at m' k) → p ∈ f (grant_at m k).
Proof.
  intros Hf Hs Hp. unfold grant_at at 1 in Hp. destruct (m' !! k) as [g|] eqn:E; simpl in Hp.
  - destruct (Hs k g E) as (g0 & Hg0 & _ & H1 & H2 & _). rewrite (grant_at_Some _ _ _ Hg0).
    destruct Hf; subst; auto.
  - destruct Hf; subst; by apply elem_of_nil in Hp.
Qed.

Lemma merge_into_size m gs : (size (merge_into m gs) ≤ size m + length gs)%nat.
Proof.
  revert m. induction gs as [|g gs IH]; intros m; simpl; [lia|].
  etransitivity; [apply IH|]. destruct (m !! grant_key g) as [x|] eqn:E.
  - rewrite map_size_insert_Some by eauto. lia.
  - rewrite map_size_insert_None by done. lia.
Qed.

(** The intended ledger has no key beyond those counted against the limit. *)
Lemma intended_size desired managed tr plan :
  Forall (planned_from desired tr) plan →
  (size (intended managed plan) ≤
    length (str_union (map_to_list (tracked_of managed)).*1 (map_to_list (want_of desired)).*1))%nat.
Proof.
  intros Hplan. rewrite <- length_map_to_list, <- (length_fmap fst).
  apply submseteq_length, NoDup_submseteq; [apply NoDup_fst_map_to_list|].
  intros k ([k' g] & -> & Hg%elem_of_map_to_list)%list_elem_of_fmap. simpl.
  apply elem_of_str_union. assert (is_Some (intended managed plan !! k')) as Hs by eauto.
  unfold intended in Hs. apply merge_into_dom in Hs as [[x Hx]|(g' & (pl & -> & Hpl)%list_elem_of_fmap & Hk)].
  - left. apply list_elem_of_fmap. exists (k', x). by rewrite elem_of_map_to_list.
  - right. rewrite Forall_forall in Hplan. destruct (Hplan _ Hpl) as (d & h & gr & Hd & _ & ->).
    destruct (want_of desired !! k') as [x|] eqn:E.
    + apply list_elem_of_fmap. exists (k', x). by rewrite elem_of_map_to_list.
    + exfalso. apply eq_None_not_Some in E. apply E, want_of_dom. by exists d.
Qed.
End facts.

(** A run of the engine from the world [w], with its ledger, its error, the
    final world and the calls it made. *)
Definition engine_run `{UP : UnicodePrint} {W} (ops : privilegeOps W) (persist : ledgerPersist W)
    (desired managed : list privilegeGrant) (limit : ledgerLimit) (w : W)
    (after : list privilegeGrant) (err : error) (w' : W) (tr : list event) : Prop :=
  applyPrivilegeGrants (logged_ops ops) desired managed limit (logged_persist persist) (w, [])
    = ((after, err), (w', tr)).

Section runs.
Context `{UP : UnicodePrint} {W : Type} {ops : privilegeOps W} {persist : ledgerPersist W}.
Context {desired managed : list privilegeGrant} {limit : ledgerLimit} {w : W}.
Context {after : list privilegeGrant} {err : error} {w' : W} {tr : list event}.
Context (Hrun : engine_run ops persist desired managed limit w after err w' tr).

Lemma run_cases :
  execs (call_step ops persist) tr w w' ∧
  (run_full persist desired managed limit (after, err) tr ∨ run_unrecorded persist desired managed limit (after, err) tr).
Proof. by apply (emits_run _ _ _ _ _ _ _ (applyPrivilegeGrants_emits ops persist desired managed limit)) in Hrun. Qed.

(** Every call of a run is a read, a covered grant, a covered revoke, an
    existence check, or the record of the intended ledger. *)
Lemma run_calls :
  ∃ plan planTr persistTr grantTr revokeTr,
    tr = planTr ++ persistTr ++ grantTr ++ revokeTr ∧
    run_prefix persist desired managed limit plan planTr persistTr grantTr ∧
    Forall (revoke_ok_at (intended managed plan) (want_of desired)) revokeTr.
Proof.
  destruct run_cases as [_ [(plan & pt & st & gt & rt & H)|(plan & pt & e & H)]].
  - exists plan, pt, st, gt, rt. naive_solver.
  - destruct H as (-> & Hp & _). exists plan, pt, [EvPersist (sortedGrants (intended managed plan)) (Some e)], [], [].
    rewrite !app_nil_r. split_and!; [done|done|constructor].
Qed.

(** The ledger returned is what is left of the entries tracked or added. *)
Lemma run_ledger :
  ∃ plan planTr final, after = sortedGrants final ∧
    (∀ ev, ev ∈ planTr → ev ∈ tr) ∧ Forall (planned_from desired planTr) plan ∧
    (tooManyGrants limit (tracked_of managed) (want_of desired) ≠ None → plan = []) ∧
    (shrinks final (intended managed plan) ∨ final = tracked_of managed).
Proof.
  destruct run_cases as [_ [(plan & pt & st & gt & rt & -> & Hp & _ & (final & Ha & Hs & _) & _)
                           |(plan & pt & e & -> & Hp & _ & _ & Ha & _)]]; simpl in Ha; subst after.
  - exists plan, pt, final. split_and!; [done| |apply Hp|apply Hp|by left].
    intros ev ?. apply elem_of_app. by left.
  - exists plan, pt, (tracked_of managed). split_and!; [done| |apply Hp|apply Hp|by right].
    intros ev ?. apply elem_of_app. by left.
Qed.

Lemma run_final_facts plan final :
  shrinks final (intended managed plan) ∨ final = tracked_of managed →
  keyed final ∧ map_Forall (λ _ g, canonical_grant g) final ∧
  ∀ f k p, (f = g_Privileges ∨ f = g_GrantOptions) → p ∈ f (grant_at final k) →
    p ∈ f (grant_at (intended managed plan) k).
Proof.
  intros [Hs| ->].
  - split_and!; [eapply shrinks_keyed|eapply shrinks_canonical|]; eauto using intended_keyed, intended_canonical.
    intros f k p Hf. by apply shrinks_field.
  - split_and!; [apply (intended_keyed managed [])|apply (intended_canonical managed [])|].
    intros f k p Hf Hp. destruct Hf; subst; apply intended_recorded; try exact _; left; by apply tracked_recorded.
Qed.
End runs.

(** ** A toy server for the examples: per key, what is held and what is grantable *)

Module Toy.
#[export] Instance print : UnicodePrint := λ _, true.

Definition world : Type := gmap string (list string * list string).
Definition at_key (w : world) (k : string) : list string * list string := default ([], []) (w !! k).

Definition ops : privilegeOps world :=
  {| op_held := λ t w, (inl (at_key w (key t)), w);
     op_grant := λ t ps wgo w, let h := at_key w (key t) in
       (None, <[key t := (str_union h.1 ps, if wgo : bool then str_union h.2 ps else h.2)]> w);
     op_revoke := λ t ps mode w, let h := at_key w (key t) in
       (None, <[key t := (if GrantOptionOnly mode then h.1 else subtract h.1 ps, subtract h.2 ps)]> w);
     op_gone := None |}.

Definition persist : ledgerPersist world := Some (λ _ w, (None, w)).

Definition target (name who : string) : grantTarget :=
  {| gt_Kind := ObjectSchema; gt_Name := name; gt_Grantee := who; gt_Schema := ""; gt_ForRole := ""; gt_OID := 0 |}.

Definition desired : list privilegeGrant := [desiredGrant (target "app" "bob") ["CREATE"; "USAGE"] false].
Definition managed : list privilegeGrant := [desiredGrant (target "app" "alice") ["USAGE"] true].
Definition start : world := {[ key (target "app" "alice") := (["USAGE"], ["USAGE"]);
                               key (target "app" "bob") := (["USAGE"], []) ]}.

(** The result and the calls of the example run. *)
Definition run := applyPrivilegeGrants (logged_ops ops) desired managed 512 (logged_persist persist) (start, []).
Definition after : list privilegeGrant := run.1.1.
Definition trace : list event := run.2.2.
Definition final : world := run.2.1.

Lemma runs : engine_run ops persist desired managed 512 start after None final trace.
Proof. by vm_compute. Qed.

Example trace_example :
  trace = [EvHeld (target "app" "bob") (inl (["USAGE"], []));
           EvPersist [desiredGrant (target "app" "alice") ["USAGE"] true;
                      desiredGrant (target "app" "bob") ["CREATE"] false] None;
           EvGrant (target "app" "bob") ["CREATE"] false None;
           EvRevoke (target "app" "alice") ["USAGE"] (revokeMode false true) None].
Proof. by vm_compute. Qed.

Example after_example : after = [desiredGrant (target "app" "bob") ["CREATE"] false].
Proof. by vm_compute. Qed.
End Toy.

(** ** The grant engine inside its callers

    The recorded run of the engine erases to the plain one, so what the engine
    promises about its calls transfers to programs that use it: an event log of
    the caller only receives events for engine calls that [call_ok] describes. *)

(** ** Keys *)

(** The name part of a key. *)
Definition key_name `{UP : UnicodePrint} (t : grantTarget) : string :=
  if decide (gt_OID t = 0%Z) then Quote (gt_Name t) else "#" +:+ Itoa (gt_OID t).

(** A kind ends at its first vertical bar. *)
Lemma bar_split (a b u v : string) :
  ContainsByte a "|"%char = false → ContainsByte b "|"%char = false →
  a +:+ "|" +:+ u = b +:+ "|" +:+ v → a = b ∧ u = v.
Proof.
  intros Ha Hb H. pose proof (Cut_app a u _ Ha) as Hc. change (String "|" u) with ("|" +:+ u) in Hc.
  rewrite H in Hc. change ("|" +:+ v) with (String "|"%char v) in Hc. rewrite (Cut_app b v _ Hb) in Hc. by simplify_eq.
Qed.

Lemma key_name_inj `{UP : UnicodePrint} t1 t2 u v :
  key_name t1 +:+ "|" +:+ u = key_name t2 +:+ "|" +:+ v →
  gt_OID t1 = gt_OID t2 ∧ (gt_OID t1 = 0%Z → gt_Name t1 = gt_Name t2) ∧ u = v.
Proof.
  unfold key_name. do 2 case_decide.
  - intros [-> H'%app_cancel_s]%Quote_app_inj. split_and!; [congruence|done|done].
  - by unfold Quote.
  - by unfold Quote.
  - intros H'. rewrite !app_assoc_s in H'. apply app_cancel_s in H'.
    apply bar_split in H' as [->%Itoa_inj ->]; [done|by apply Itoa_no_byte..].
Qed.

Lemma key_inj `{UP : UnicodePrint} t1 t2 :
  ContainsByte (gt_Kind t1) "|"%char = false → ContainsByte (gt_Kind t2) "|"%char = false → key t1 = key t2 →
  gt_Kind t1 = gt_Kind t2 ∧ gt_Grantee t1 = gt_Grantee t2 ∧ gt_ForRole t1 = gt_ForRole t2 ∧
  gt_OID t1 = gt_OID t2 ∧ (gt_OID t1 = 0%Z → gt_Name t1 = gt_Name t2).
Proof.
  intros H1 H2. unfold key. fold (key_name t1) (key_name t2).
  intros [Hk [Ho [Hn H]]%key_name_inj]%bar_split; [|done..].
  apply Quote_app_inj in H as [Hg H]. split_and!; [done|done| |done|done].
  do 2 case_decide; try done; [congruence|]. apply app_cancel_s, Quote_inj in H. done.
Qed.

(** ** What the calls of a run may be *)

Lemma merge_into_targets `{UP : UnicodePrint} (P : grantTarget → Prop) m gs :
  map_Forall (λ _ g, P (g_Target g)) m → Forall (λ g, P (g_Target g)) gs →
  map_Forall (λ _ g, P (g_Target g)) (merge_into m gs).
Proof.
  intros Hm Hgs. revert m Hm. induction Hgs as [|g gs Hg _ IH]; intros m Hm; simpl; [done|].
  apply IH. by apply map_Forall_insert_2.
Qed.

Section calls.
Context `{UP : UnicodePrint} {W : Type} {ops : privilegeOps W} {persist : ledgerPersist W}
  {desired managed : list privilegeGrant} {limit : ledgerLimit} {w w' : W} {after : list privilegeGrant} {err : error}
  {tr : list event}.
Context (Hrun : engine_run ops persist desired managed limit w after err w' tr).

Lemma run_grants t ps wgo e :
  EvGrant t ps wgo e ∈ tr →
  ps ≠ [] ∧ ∃ d, d ∈ desired ∧ g_Target d = t ∧ ∀ p, p ∈ ps → p ∈ (if wgo then g_GrantOptions d else g_Privileges d).
Proof.
  intros Hin. destruct (run_calls Hrun) as (plan & pt & st & gt & rt & -> & Hp & Hrev).
  rewrite !elem_of_app in Hin. destruct Hin as [H|[H|[H|H]]].
  - by apply not_grant_held in H; [|apply Hp].
  - pose proof (rp_persist _ _ _ _ _ _ _ _ Hp) as Hf. rewrite Forall_forall in Hf. by destruct (Hf _ H).
  - pose proof (rp_granted _ _ _ _ _ _ _ _ Hp) as Hf. rewrite Forall_forall in Hf.
    destruct (Hf _ H) as (p & Hpl & -> & -> & Hne).
    pose proof (rp_planned _ _ _ _ _ _ _ _ Hp) as Hf'. rewrite Forall_forall in Hf'.
    destruct (Hf' _ Hpl) as (d & held & grantable & Hd & _ & ->). split; [done|]. exists d. split_and!; [done|done|].
    destruct wgo; simpl; [by intros p [? ?]%elem_of_subtract|].
    by intros p [[? ?]%elem_of_subtract ?]%elem_of_subtract.
  - by destruct (revoke_elem _ _ _ _ (intended_keyed _ _) Hrev H).
Qed.

(** A REVOKE is on the target of a managed or declared entry. *)
Lemma run_revoke_target t ps mode e :
  EvRevoke t ps mode e ∈ tr → ∃ m, (m ∈ managed ∨ m ∈ desired) ∧ g_Target m = t.
Proof.
  intros Hin. destruct (run_calls Hrun) as (plan & pt & st & gt & rt & -> & Hp & Hrev).
  assert (EvRevoke t ps mode e ∈ rt) as Hr.
  { rewrite !elem_of_app in Hin. destruct Hin as [H|[H|[H|H]]]; [..|done]; exfalso.
    - pose proof (rp_held _ _ _ _ _ _ _ _ Hp) as Hf. rewrite Forall_forall in Hf. by apply Hf in H.
    - pose proof (rp_persist _ _ _ _ _ _ _ _ Hp) as Hf. rewrite Forall_forall in Hf. by destruct (Hf _ H).
    - pose proof (rp_granted _ _ _ _ _ _ _ _ Hp) as Hf. rewrite Forall_forall in Hf. by apply Hf in H. }
  rewrite Forall_forall in Hrev. destruct (Hrev _ Hr) as (k & [g Hg] & -> & _).
  rewrite (grant_at_Some _ _ _ Hg).
  apply (merge_into_targets (λ t, ∃ m, (m ∈ managed ∨ m ∈ desired) ∧ g_Target m = t)) in Hg; [done| |].
  - apply (merge_into_targets (λ t, ∃ m, (m ∈ managed ∨ m ∈ desired) ∧ g_Target m = t)); [apply map_Forall_empty|]. rewrite Forall_forall. intros m Hm. eauto.
  - pose proof (rp_planned _ _ _ _ _ _ _ _ Hp) as Hpl. rewrite Forall_forall in Hpl. rewrite Forall_forall.
    intros p (pl & -> & Hin')%list_elem_of_fmap. destruct (Hpl _ Hin') as (d & h & gr & Hd & _ & ->). eauto.
Qed.

Context (Hn : NoDup (grant_key <$> desired)) (Hwf : Forall wf_desired desired).

Lemma not_desired (f : privilegeGrant → list string) `{!GrantField f} t p :
  p ∉ f (grant_at (want_of desired) (key t)) → ¬ recorded f desired (key t) p.
Proof. intros Hf (d & Hd & Hk & Hpd). apply Hf. rewrite <- Hk, want_of_elem by done. done. Qed.

Lemma run_revokes t ps mode e :
  EvRevoke t ps mode e ∈ tr →
  ps ≠ [] ∧ ∀ p, p ∈ ps →
    recorded (if GrantOptionOnly mode then g_GrantOptions else g_Privileges) managed (key t) p ∧
    ¬ recorded (if GrantOptionOnly mode then g_GrantOptions else g_Privileges) desired (key t) p ∧
    (Cascade mode = true → recorded g_GrantOptions managed (key t) p).
Proof.
  intros Hin. destruct (run_calls Hrun) as (plan & pt & st & gt & rt & -> & Hp & Hrev).
  assert (EvRevoke t ps mode e ∈ rt) as Hr.
  { rewrite !elem_of_app in Hin. destruct Hin as [H|[H|[H|H]]]; [..|done]; exfalso.
    - pose proof (rp_held _ _ _ _ _ _ _ _ Hp) as Hf. rewrite Forall_forall in Hf. by apply Hf in H.
    - pose proof (rp_persist _ _ _ _ _ _ _ _ Hp) as Hf. rewrite Forall_forall in Hf. by destruct (Hf _ H).
    - pose proof (rp_granted _ _ _ _ _ _ _ _ Hp) as Hf. rewrite Forall_forall in Hf. by apply Hf in H. }
  destruct (revoke_elem _ _ _ _ (intended_keyed _ _) Hrev Hr) as (Hne & _ & _ & Hps & Hc).
  pose proof (λ k p, planned_recorded _ _ _ k p (rp_planned _ _ _ _ _ _ _ _ Hp)) as Hpl.
  split; [done|]. intros p Hpp. specialize (Hps p Hpp). specialize (λ H, Hc H p Hpp).
  assert (¬ recorded g_Privileges desired (key t) p → Cascade mode = true → recorded g_GrantOptions managed (key t) p) as Hcas.
  { intros Hd Hca. specialize (Hc Hca). apply intended_recorded in Hc as [?|Hc]; [done| |exact _].
    apply (proj2 (Hpl _ _)) in Hc as [(d & Hdd & Hk & Hpd) _]. destruct Hd. exists d. split_and!; [done|done|].
    rewrite Forall_forall in Hwf. by apply (Hwf d). }
  destruct (GrantOptionOnly mode); destruct Hps as [H1 H2]; apply not_desired in H2; try exact _;
    apply intended_recorded in H1 as [H1|H1]; try exact _;
    try (by first [apply (proj1 (Hpl _ _)) in H1 as [? _] | apply (proj2 (Hpl _ _)) in H1 as [? _]]).
  - split_and!; [done|done|done].
  - split_and!; [done|done|auto].
Qed.
End calls.

(** ** Erasure: recording the calls changes nothing else *)

Definition erases {W E A} (m' : M (W * list E) A) (m : M W A) : Prop :=
  ∀ w tr, m w = ((m' (w, tr)).1, (m' (w, tr)).2.1).

Lemma erases_ret {W E A} (x : A) : erases (W:=W) (E:=E) (mret x) (mret x).
Proof. done. Qed.

Lemma erases_logged {W E A} (ev : A → E) (m : M W A) : erases (logged ev m) m.
Proof. intros w tr. unfold logged. simpl. by destruct (m w). Qed.

Lemma erases_bind {W E A B} (m' : M (W * list E) A) m (f' : A → M (W * list E) B) f :
  erases m' m → (∀ x, erases (f' x) (f x)) → erases (m' ≫= f') (m ≫= f).
Proof.
  intros Hm Hf w tr. unfold mbind, M_bind. specialize (Hm w tr).
  destruct (m' (w, tr)) as [x [w1 tr1]]. simpl in Hm. rewrite Hm. apply Hf.
Qed.

Create HintDb erase.
#[local] Hint Resolve erases_ret erases_logged : erase.

(** Follows the program text. *)
Ltac erase :=
  repeat first
    [ progress simpl
    | by auto with erase
    | apply erases_logged
    | apply erases_bind; [|intros ?]
    | case_decide
    | match goal with
      | |- erases (match ?x with _ => _ end) _ => destruct x
      end ].

Section erase.
Context `{UP : UnicodePrint} {W : Type} (ops : privilegeOps W) (persist : ledgerPersist W).

Abbreviation lops := (logged_ops ops).

Lemma planGrants_erases ds : erases (planGrants lops ds) (planGrants ops ds).
Proof. induction ds; simpl; unfold planMissing; erase. Qed.

Lemma grantPlanned_erases plan : erases (grantPlanned lops plan) (grantPlanned ops plan).
Proof. induction plan; simpl; unfold grantOne; erase. Qed.

Lemma revokeEach_erases t ps : erases (revokeEach lops t ps) (revokeEach ops t ps).
Proof. induction ps; simpl; erase. Qed.

Lemma op_gone_check_erases t : erases (op_gone_check lops t) (op_gone_check ops t).
Proof. unfold op_gone_check. simpl. destruct (op_gone ops); simpl; erase. Qed.
#[local] Hint Resolve planGrants_erases grantPlanned_erases revokeEach_erases op_gone_check_erases : erase.

Lemma revokeRemoved_erases m d sk : erases (revokeRemoved lops m d sk) (revokeRemoved ops m d sk).
Proof. unfold revokeRemoved, revokeOptionsOnly, revokeWithOption, revokePlain. erase. Qed.
#[local] Hint Resolve revokeRemoved_erases : erase.

Lemma revokeLoop_erases keys want tracked sk : erases (revokeLoop lops keys want tracked sk) (revokeLoop ops keys want tracked sk).
Proof. revert tracked sk. induction keys; intros; simpl; erase. Qed.
#[local] Hint Resolve revokeLoop_erases : erase.

Lemma persistIntended_erases m : erases (persistIntended (logged_persist persist) m) (persistIntended persist m).
Proof. unfold persistIntended, logged_persist. destruct persist; simpl; erase. Qed.
#[local] Hint Resolve persistIntended_erases : erase.

Lemma applyPrivilegeGrants_erases desired managed limit :
  erases (applyPrivilegeGrants lops desired managed limit (logged_persist persist))
         (applyPrivilegeGrants ops desired managed limit persist).
Proof. unfold applyPrivilegeGrants, revokePhase. erase. Qed.
End erase.

(** ** Transfer to a caller's event log *)

(** The calls a run of the engine makes. *)
Definition call_ok `{UP : UnicodePrint} (desired managed : list privilegeGrant) (ev : event) : Prop :=
  match ev with
  | EvGrant t ps wgo _ =>
      ps ≠ [] ∧ ∃ d, d ∈ desired ∧ g_Target d = t ∧ ∀ p, p ∈ ps → p ∈ (if wgo then g_GrantOptions d else g_Privileges d)
  | EvRevoke t ps mode _ =>
      (∃ m, (m ∈ managed ∨ m ∈ desired) ∧ g_Target m = t) ∧ ps ≠ [] ∧ ∀ p, p ∈ ps →
        recorded (if GrantOptionOnly mode then g_GrantOptions else g_Privileges) managed (key t) p ∧
        ¬ recorded (if GrantOptionOnly mode then g_GrantOptions else g_Privileges) desired (key t) p ∧
        (Cascade mode = true → recorded g_GrantOptions managed (key t) p)
  | _ => True
  end.

Section transfer.
Context `{UP : UnicodePrint} {W E : Type} (step : E → W → W → Prop) (ops : privilegeOps (W * list E))
  (persist : ledgerPersist (W * list E)) (desired managed : list privilegeGrant) (limit : ledgerLimit)
  (ok : E → Prop).
Context (Hn : NoDup (grant_key <$> desired)) (Hwf : Forall wf_desired desired).

Abbreviation only m := (emits step m (λ _ new, Forall ok new)).

Context (Hheld : ∀ t, only (op_held ops t))
  (Hgone : ∀ f t, op_gone ops = Some f → only (f t))
  (Hpersist : ∀ f l, persist = Some f → only (f l))
  (Hgrant : ∀ t ps wgo, call_ok desired managed (EvGrant t ps wgo None) → only (op_grant ops t ps wgo))
  (Hrevoke : ∀ t ps mode, call_ok desired managed (EvRevoke t ps mode None) → only (op_revoke ops t ps mode)).

Definition extends (w w' : W * list E) : Prop :=
  ∃ new, w'.2 = w.2 ++ new ∧ execs step new w.1 w'.1 ∧ Forall ok new.

Lemma extends_refl w : extends w w.
Proof. exists []. rewrite app_nil_r. split_and!; [done|constructor|done]. Qed.

Lemma extends_trans w1 w2 w3 : extends w1 w2 → extends w2 w3 → extends w1 w3.
Proof.
  intros (n1 & H1 & E1 & F1) (n2 & H2 & E2 & F2). exists (n1 ++ n2).
  split_and!; [by rewrite H2, H1, app_assoc|apply execs_app; eauto|by apply Forall_app].
Qed.

Lemma only_extends {A} (m : M (W * list E) A) w x w' : only m → m w = (x, w') → extends w w'.
Proof. intros H Hm. destruct (H w) as (new & ? & ? & ?). rewrite Hm in *. by exists new. Qed.

Lemma call_extends ev w w' : call_ok desired managed ev → call_step ops persist ev w w' → extends w w'.
Proof.
  destruct ev as [t r|t ps wgo e|t ps mode e|t r|l e]; simpl.
  - intros _. by apply only_extends.
  - intros Hok. apply only_extends. by apply Hgrant.
  - intros Hok. apply only_extends. by apply Hrevoke.
  - intros _ (f & Hf & Hs). eapply only_extends; [by eapply Hgone|done].
  - intros _ (f & Hf & Hs). eapply only_extends; [by eapply Hpersist|done].
Qed.

(** The events a caller sees while the engine runs. *)
Lemma engine_only : only (applyPrivilegeGrants ops desired managed limit persist).
Proof.
  intros w. rewrite (applyPrivilegeGrants_erases ops persist desired managed limit w []).
  destruct (applyPrivilegeGrants (logged_ops ops) desired managed limit (logged_persist persist) (w, []))
    as [[after err] [w' tr]] eqn:Erun. simpl.
  destruct (run_cases Erun) as [Hex _].
  assert (extends w w') as (new & ? & ? & ?); [|by exists new].
  assert (∀ ev, ev ∈ tr → call_ok desired managed ev) as Hok.
  { intros [] Hev; try done; [by eapply (run_grants Erun)|]. split; [by eapply (run_revoke_target Erun)|by eapply (run_revokes Erun Hn Hwf)]. }
  clear Erun. induction Hex as [w|ev tr w w1 w2 Hs He IH]; [apply extends_refl|].
  eapply extends_trans; [eapply call_extends; [apply Hok; by left|done]|]. apply IH. intros ev' ?. apply Hok. by right.
Qed.
End transfer.

(** ** Transfer to what justifies the caller's calls *)

(** The returned ledger records what was recorded before or is declared. *)
Lemma run_after_recorded `{UP : UnicodePrint} {W} (ops : privilegeOps W) persist desired managed limit w after err w' tr k p :
  engine_run ops persist desired managed limit w after err w' tr →
  recorded g_Privileges after k p → recorded g_Privileges managed k p ∨ recorded g_Privileges desired k p.
Proof.
  intros Hrun (g & Hg & Hkg & Hp). destruct (run_ledger Hrun) as (plan & planTr & final & -> & _ & Hpl & _ & Hfin).
  destruct (run_final_facts plan final Hfin) as (Hk & _ & Hf). apply elem_of_sortedGrants in Hg as (k' & Hg & _).
  assert (k' = k) as -> by (by rewrite <- (Hk _ _ Hg)).
  assert (p ∈ g_Privileges (grant_at (intended managed plan) k)) as Hi by (apply Hf; [by left|by rewrite (grant_at_Some _ _ _ Hg)]).
  apply intended_recorded in Hi; [|exact _]. destruct Hi as [?|Hi]; [by left|right]. by apply (proj1 (planned_recorded _ _ _ k p Hpl)) in Hi as [? _].
Qed.

Section justified.
Context `{UP : UnicodePrint} {W E : Type} (J : list E → E → Prop) (base : list E) (ops : privilegeOps (W * list E))
  (persist : ledgerPersist (W * list E)) (desired managed : list privilegeGrant) (limit : ledgerLimit).
Context (Hn : NoDup (grant_key <$> desired)) (Hwf : Forall wf_desired desired).

(** Justified wherever the engine calls it, after the calls [base]. *)
Abbreviation quiet m := (∀ tr, base `prefix_of` tr → runs J tr m (λ _ _, True)).

Context (Hheld : ∀ t, quiet (op_held ops t))
  (Hgone : ∀ f t, op_gone ops = Some f → quiet (f t))
  (Hpersist : ∀ f l, persist = Some f → quiet (f l))
  (Hgrant : ∀ t ps wgo, call_ok desired managed (EvGrant t ps wgo None) → quiet (op_grant ops t ps wgo))
  (Hrevoke : ∀ t ps mode, call_ok desired managed (EvRevoke t ps mode None) → quiet (op_revoke ops t ps mode)).

Definition justifies (w w' : W * list E) : Prop := base `prefix_of` w.2 → justified J w.2 w'.2.

Lemma justifies_trans w1 w2 w3 : justifies w1 w2 → justifies w2 w3 → justifies w1 w3.
Proof.
  intros H1 H2 Hb. specialize (H1 Hb). eapply justified_trans; [exact H1|]. apply H2.
  etrans; [exact Hb|]. by eapply justified_prefix.
Qed.

Lemma quiet_justifies {A} (m : M (W * list E) A) w x w' : quiet m → m w = (x, w') → justifies w w'.
Proof. intros H Hm Hb. destruct w as [w tr]. destruct (H tr Hb w) as [Hj _]. by rewrite Hm in Hj. Qed.

Lemma call_justifies ev w w' : call_ok desired managed ev → call_step ops persist ev w w' → justifies w w'.
Proof.
  destruct ev as [t r|t ps wgo e|t ps mode e|t r|l e]; simpl.
  - intros _. apply quiet_justifies, Hheld.
  - intros Hok. by apply quiet_justifies, Hgrant.
  - intros Hok. by apply quiet_justifies, Hrevoke.
  - intros _ (f & Hf & Hs). eapply quiet_justifies; [exact (Hgone f t Hf)|exact Hs].
  - intros _ (f & Hf & Hs). eapply quiet_justifies; [exact (Hpersist f l Hf)|exact Hs].
Qed.

Lemma engine_runs tr :
  base `prefix_of` tr →
  runs J tr (applyPrivilegeGrants ops desired managed limit persist) (λ x _, ∀ k p,
    recorded g_Privileges x.1 k p → recorded g_Privileges managed k p ∨ recorded g_Privileges desired k p).
Proof.
  intros Hb w. rewrite (applyPrivilegeGrants_erases ops persist desired managed limit (w, tr) []).
  destruct (applyPrivilegeGrants (logged_ops ops) desired managed limit (logged_persist persist) ((w, tr), []))
    as [[after err] [w' calls]] eqn:Erun. simpl. split; [|intros k p; by eapply run_after_recorded].
  destruct (run_cases Erun) as [Hex _].
  assert (∀ ev, ev ∈ calls → call_ok desired managed ev) as Hok.
  { intros [] Hev; try done; [by eapply (run_grants Erun)|]. split; [by eapply (run_revoke_target Erun)|by eapply (run_revokes Erun Hn Hwf)]. }
  assert (justifies (w, tr) w') as H by (clear Erun; induction Hex as [v|ev evs v v1 v2 Hs He IH]; [by intros _; apply justified_refl|];
    eapply justifies_trans; [by eapply call_justifies; [apply Hok; left|]|apply IH; intros ev' ?; apply Hok; by right]).
  by apply H.
Qed.
End justified.
