(* ===== verification/GrantTheorems.v ===== *)
(** * The grant engine: theorems *)

From Stdlib Require Import Ascii.
From S2P Require Import Prelude GoStrings GoStrconv Quoting Privileges Trace GrantEngine GrantTrace.
From S2P Require Import GrantProps.

(** The examples count every non-ASCII rune as printable. *)
#[local] Existing Instance Toy.print.

(** A ledger key names one target: two targets of kinds without a vertical
    bar have the same key exactly when they agree on the kind, the grantee, the
    role of default privileges, and the object (its OID when it has one, else
    its name), whatever bytes the names hold. *)
Theorem key_unambiguous `{UP : UnicodePrint} t1 t2 :
  ContainsByte (gt_Kind t1) "|"%char = false → ContainsByte (gt_Kind t2) "|"%char = false →
  (key t1 = key t2 ↔
    gt_Kind t1 = gt_Kind t2 ∧ gt_Grantee t1 = gt_Grantee t2 ∧ gt_ForRole t1 = gt_ForRole t2 ∧
    gt_OID t1 = gt_OID t2 ∧ (gt_OID t1 = 0%Z → gt_Name t1 = gt_Name t2)).
Proof.
  intros H1 H2. split; [by apply key_inj|].
  unfold key. fold (key_name t1) (key_name t2). intros (-> & -> & -> & Ho & Hn).
  assert (key_name t1 = key_name t2) as ->; [|done].
  unfold key_name. rewrite <- Ho. case_decide; [by rewrite Hn|done].
Qed.

Lemma key_unambiguous_witness :
  let t1 := {| gt_Kind := "TABLES"; gt_Name := "a|b"; gt_Grantee := "c"; gt_Schema := ""; gt_ForRole := "d"; gt_OID := 0 |} in
  let t2 := {| gt_Kind := "TABLES"; gt_Name := "a"; gt_Grantee := "b|c"; gt_Schema := ""; gt_ForRole := "d"; gt_OID := 0 |} in
  key t1 ≠ key t2.
Proof.
  intros t1 t2 H. apply (key_unambiguous t1 t2 eq_refl eq_refl) in H as (_ & H & _). discriminate.
Defined.

(** C8: the engine revokes only what its ledger records and the spec no longer
    declares: every privilege (or grant option) in a REVOKE is recorded in a
    managed entry of the same key and absent from the desired grant of that key,
    and CASCADE is used only where the ledger records the grant option. *)
Theorem revokes_only_recorded `{UP : UnicodePrint} {W} (ops : privilegeOps W) persist desired managed limit
    w after err w' tr t ps mode e :
  engine_run ops persist desired managed limit w after err w' tr →
  NoDup (grant_key <$> desired) → Forall wf_desired desired →
  EvRevoke t ps mode e ∈ tr →
  ps ≠ [] ∧ ∀ p, p ∈ ps →
    recorded (if GrantOptionOnly mode then g_GrantOptions else g_Privileges) managed (key t) p ∧
    ¬ recorded (if GrantOptionOnly mode then g_GrantOptions else g_Privileges) desired (key t) p ∧
    (Cascade mode = true → recorded g_GrantOptions managed (key t) p).
Proof.
  intros Hrun Hn Hwf. by apply (run_revokes Hrun Hn Hwf).
Qed.

Lemma revokes_only_recorded_witness :
  let t := Toy.target "app" "alice" in
  EvRevoke t ["USAGE"] (revokeMode false true) None ∈ Toy.trace ∧
  ["USAGE"] ≠ [] ∧ ∀ p, p ∈ ["USAGE"] →
    recorded g_Privileges Toy.managed (key t) p ∧ ¬ recorded g_Privileges Toy.desired (key t) p ∧
    (true = true → recorded g_GrantOptions Toy.managed (key t) p).
Proof.
  intros t. assert (EvRevoke t ["USAGE"] (revokeMode false true) None ∈ Toy.trace) as H.
  { rewrite Toy.trace_example. by do 3 right; left. }
  split; [exact H|].
  refine (revokes_only_recorded _ _ _ _ _ _ _ _ _ _ t ["USAGE"] (revokeMode false true) None Toy.runs _ _ H).
  - apply NoDup_singleton.
  - constructor; [|constructor]. by intros p ?%elem_of_nil.
Defined.

(** C7: the ledger is an intent log: whenever the engine issues a GRANT, it has
    before that successfully recorded a ledger with an entry of that key listing
    every privilege the GRANT names (as a grant option when granted with it). *)
Theorem grants_recorded_first `{UP : UnicodePrint} {W} (ops : privilegeOps W) persist desired managed limit
    w after err w' tr pre post t ps wgo e :
  engine_run ops persist desired managed limit w after err w' tr →
  persist ≠ None → tr = pre ++ EvGrant t ps wgo e :: post →
  ∃ ledger, EvPersist ledger None ∈ pre ∧
    ∀ p, p ∈ ps → recorded (if wgo then g_GrantOptions else g_Privileges) ledger (key t) p.
Proof.
  intros Hrun Hpers Htr. destruct (run_calls Hrun) as (plan & pt & st & gt & rt & -> & Hp & Hrev).
  apply app_split_not_in in Htr as (pre1 & -> & Htr); [|by apply not_grant_held, Hp].
  pose proof (rp_persist _ _ _ _ _ _ _ _ Hp) as Hst. rewrite Forall_forall in Hst.
  apply app_split_not_in in Htr as (pre2 & -> & Htr); [|by intros [? [=]]%Hst].
  assert (EvGrant t ps wgo e ∈ gt) as Hg.
  { assert (EvGrant t ps wgo e ∈ gt ++ rt) as [?|Hr]%elem_of_app; [|done|].
    - rewrite Htr. apply elem_of_app. right. by left.
    - by destruct (revoke_elem _ _ _ _ (intended_keyed _ _) Hrev Hr). }
  exists (sortedGrants (intended managed plan)). split.
  - rewrite (rp_intent _ _ _ _ _ _ _ _ Hp Hpers) by (by intros ->; apply elem_of_nil in Hg).
    apply elem_of_app. right. by left.
  - intros p Hpp. pose proof (rp_granted _ _ _ _ _ _ _ _ Hp) as Hgr. rewrite Forall_forall in Hgr.
    destruct (Hgr _ Hg) as (pl & Hpl & -> & -> & _).
    pose proof (rp_planned _ _ _ _ _ _ _ _ Hp) as Hplan. rewrite Forall_forall in Hplan.
    destruct (Hplan _ Hpl) as (d & held & grantable & _ & _ & Hd).
    assert (p ∈ (if wgo then g_GrantOptions else g_Privileges) (p_added pl)) as Hadd.
    { subst pl. destruct wgo; cbn in *; [done|]. by apply elem_of_subtract in Hpp as [? _]. }
    assert (GrantField (if wgo then g_GrantOptions else g_Privileges)) as Hf by (destruct wgo; exact _).
    assert (key (p_target pl) = grant_key (p_added pl)) as -> by (by subst pl).
    assert (p ∈ (if wgo then g_GrantOptions else g_Privileges) (grant_at (intended managed plan) (grant_key (p_added pl)))) as Hin.
    { apply intended_recorded; [done|]. right. exists (p_added pl). split_and!; [by apply list_elem_of_fmap_2|done|done]. }
    apply field_grant_at_Some in Hin as (g & Hg' & Hin); [|done]. exists g. split_and!; [|by apply (intended_keyed managed plan)|done].
    apply elem_of_sortedGrants. exists (grant_key (p_added pl)). split; [done|].
    unfold grant_empty. apply andb_false_iff. rewrite !bool_decide_eq_false.
    destruct wgo; [right|left]; intros Hnil; rewrite Hnil in Hin; by apply elem_of_nil in Hin.
Qed.

Lemma grants_recorded_first_witness :
  let t := Toy.target "app" "bob" in
  ∃ ledger, EvPersist ledger None ∈ take 2 Toy.trace ∧
    ∀ p, p ∈ ["CREATE"] → recorded g_Privileges ledger (key t) p.
Proof.
  intros t.
  exact (grants_recorded_first _ _ _ _ _ _ _ _ _ _ (take 2 Toy.trace) (drop 3 Toy.trace) t ["CREATE"] false None
           Toy.runs ltac:(done) ltac:(by rewrite Toy.trace_example)).
Defined.

(** C24: over the ledger limit nothing is granted and no ledger is written: the
    run issues no GRANT and reports TooManyGrants; the engine still revokes. *)
Theorem too_many_grants_nothing_granted `{UP : UnicodePrint} {W} (ops : privilegeOps W) persist desired managed limit
    w after err w' tr :
  engine_run ops persist desired managed limit w after err w' tr →
  tooManyGrants limit (tracked_of managed) (want_of desired) ≠ None →
  (∃ e, err = Some e ∧ cond_reason e = Some ReasonTooManyGrants) ∧
  (∀ t ps wgo e, EvGrant t ps wgo e ∉ tr) ∧ (∀ ledger e, EvPersist ledger e ∉ tr).
Proof.
  intros Hrun Hover.
  destruct (run_cases Hrun) as [_ [(plan & pt & st & gt & rt & -> & Hp & Hrev & _ & Hmany & _)|
                                    (plan & pt & e & _ & Hp & Hno & _)]]; [|by rewrite Hno in Hover].
  assert (plan = []) as -> by (by apply (rp_over _ _ _ _ _ _ _ _ Hp)).
  destruct (rp_idle _ _ _ _ _ _ _ _ Hp eq_refl) as [-> ->].
  pose proof (rp_held _ _ _ _ _ _ _ _ Hp) as Hheld. rewrite Forall_forall in Hheld.
  pose proof (λ ev, revoke_elem _ _ _ ev (intended_keyed _ _) Hrev) as Hr.
  split_and!.
  - destruct (tooManyGrants _ _ _) as [e|] eqn:E; [|done]. destruct (Hmany e eq_refl) as [es Hes].
    simpl in Hes. exists (JoinErr (e :: es)). split; [done|]. unfold tooManyGrants in E.
    case_decide; [|done]. by injection E as <-.
  - intros t ps wgo e [Hin|Hin]%elem_of_app; [by apply Hheld in Hin|by apply Hr in Hin].
  - intros ledger e [Hin|Hin]%elem_of_app; [by apply Hheld in Hin|by apply Hr in Hin].
Qed.

Lemma too_many_grants_nothing_granted_witness :
  let r := applyPrivilegeGrants (logged_ops Toy.ops) Toy.desired Toy.managed 1 (logged_persist Toy.persist) (Toy.start, []) in
  (∃ e, r.1.2 = Some e ∧ cond_reason e = Some ReasonTooManyGrants) ∧
  (∀ t ps wgo e, EvGrant t ps wgo e ∉ r.2.2) ∧ (∀ ledger e, EvPersist ledger e ∉ r.2.2).
Proof.
  intros r. eapply (too_many_grants_nothing_granted Toy.ops Toy.persist Toy.desired Toy.managed 1 Toy.start r.1.1 _ r.2.1).
  - by vm_compute.
  - by vm_compute.
Defined.

(** The ledger never outgrows its status field: when the recorded ledger fits
    the limit, so does every ledger written during the run and the one returned. *)
Theorem ledger_bounded `{UP : UnicodePrint} {W} (ops : privilegeOps W) persist desired managed limit
    w after err w' tr :
  engine_run ops persist desired managed limit w after err w' tr →
  (0 < limit)%Z → (Z.of_nat (length managed) ≤ limit)%Z →
  (Z.of_nat (length after) ≤ limit)%Z ∧
  ∀ ledger e, EvPersist ledger e ∈ tr → (Z.of_nat (length ledger) ≤ limit)%Z.
Proof.
  intros Hrun Hpos Hman.
  assert (∀ plan planTr, Forall (planned_from desired planTr) plan →
    (tooManyGrants limit (tracked_of managed) (want_of desired) ≠ None → plan = []) →
    (Z.of_nat (size (intended managed plan)) ≤ limit)%Z) as Hsize.
  { intros plan planTr Hpl Hover. pose proof (intended_size _ managed _ _ Hpl) as Hs.
    unfold tooManyGrants in Hover. case_decide as Hn; [|lia].
    rewrite Hover by done. rewrite intended_nil, tracked_of_merge.
    pose proof (merge_into_size ∅ managed) as Hm. rewrite map_size_empty in Hm. lia. }
  split.
  - destruct (run_ledger Hrun) as (plan & planTr & final & -> & _ & Hpl & Hover & Hfin).
    specialize (Hsize _ _ Hpl Hover). pose proof (length_sortedGrants final).
    destruct Hfin as [Hs%shrinks_size| ->]; [lia|].
    pose proof (merge_into_size ∅ managed) as Hm. rewrite map_size_empty in Hm.
    rewrite tracked_of_merge in *. lia.
  - intros ledger e Hin. destruct (run_calls Hrun) as (plan & pt & st & gt & rt & -> & Hp & Hrev).
    rewrite !elem_of_app in Hin. destruct Hin as [Hi|[Hi|[Hi|Hi]]].
    + pose proof (rp_held _ _ _ _ _ _ _ _ Hp) as Hf. rewrite Forall_forall in Hf. by apply Hf in Hi.
    + pose proof (rp_persist _ _ _ _ _ _ _ _ Hp) as Hf. rewrite Forall_forall in Hf.
      destruct (Hf _ Hi) as [e' He']. assert (ledger = sortedGrants (intended managed plan)) as -> by congruence.
      specialize (Hsize _ _ (rp_planned _ _ _ _ _ _ _ _ Hp) (rp_over _ _ _ _ _ _ _ _ Hp)).
      pose proof (length_sortedGrants (intended managed plan)). lia.
    + pose proof (rp_granted _ _ _ _ _ _ _ _ Hp) as Hf. rewrite Forall_forall in Hf. by apply Hf in Hi.
    + by apply (revoke_elem _ _ _ _ (intended_keyed _ _) Hrev) in Hi.
Qed.

Lemma ledger_bounded_witness :
  (Z.of_nat (length Toy.managed) ≤ 2)%Z ∧
  let r := applyPrivilegeGrants (logged_ops Toy.ops) Toy.desired Toy.managed 2 (logged_persist Toy.persist) (Toy.start, []) in
  (Z.of_nat (length r.1.1) ≤ 2)%Z ∧
  ∀ ledger e, EvPersist ledger e ∈ r.2.2 → (Z.of_nat (length ledger) ≤ 2)%Z.
Proof.
  split; [by vm_compute|]. intros r.
  eapply (ledger_bounded Toy.ops Toy.persist Toy.desired Toy.managed 2 Toy.start r.1.1 r.1.2 r.2.1); by vm_compute.
Defined.

(** The ledger returned is canonical, on every path: its keys are in
    increasing order and distinct, no entry is empty, and the privileges and grant
    options of every entry are sorted and without duplicates. *)
Theorem ledger_canonical `{UP : UnicodePrint} {W} (ops : privilegeOps W) persist desired managed limit (w : W) :
  let after := (applyPrivilegeGrants (logged_ops ops) desired managed limit (logged_persist persist) (w, [])).1.1 in
  StronglySorted String.le (grant_key <$> after) ∧ NoDup (grant_key <$> after) ∧
  Forall (λ g, grant_empty g = false ∧ canonical_grant g) after.
Proof.
  intros after. unfold after. destruct (applyPrivilegeGrants _ _ _ _ _ _) as [[after' err] [w' tr]] eqn:E.
  destruct (run_ledger E) as (plan & planTr & final & -> & _ & _ & _ & Hfin).
  destruct (run_final_facts plan final Hfin) as (Hk & Hc & _). simpl.
  destruct (sortedGrants_sorted final Hk). split_and!; [done|done|].
  apply Forall_forall. intros g (k & Hg & He)%elem_of_sortedGrants. split; [done|]. by apply (Hc k).
Qed.

(** The ledger records only what pgop added: every privilege (grant option)
    of the returned ledger was recorded before, or is declared by the spec and
    was read from the server during the run as not held (not grantable). *)
Theorem ledger_records_only_added `{UP : UnicodePrint} {W} (ops : privilegeOps W) persist desired managed limit
    w after err w' tr k p :
  engine_run ops persist desired managed limit w after err w' tr →
  (recorded g_Privileges after k p →
    recorded g_Privileges managed k p ∨
    recorded g_Privileges desired k p ∧
      ∃ t held grantable, EvHeld t (inl (held, grantable)) ∈ tr ∧ key t = k ∧ p ∉ held) ∧
  (recorded g_GrantOptions after k p →
    recorded g_GrantOptions managed k p ∨
    recorded g_GrantOptions desired k p ∧
      ∃ t held grantable, EvHeld t (inl (held, grantable)) ∈ tr ∧ key t = k ∧ p ∉ grantable).
Proof.
  intros Hrun. destruct (run_ledger Hrun) as (plan & planTr & final & -> & Hsub & Hpl & _ & Hfin).
  destruct (run_final_facts plan final Hfin) as (Hk & _ & Hf).
  assert (∀ f, (f = g_Privileges ∨ f = g_GrantOptions) → GrantField f → recorded f (sortedGrants final) k p →
    recorded f managed k p ∨ recorded f (p_added <$> plan) k p) as Hrec.
  { intros f Hff Hgf (g & (k' & Hg & _)%elem_of_sortedGrants & Hkg & Hp). assert (k' = k) as -> by (by rewrite <- (Hk _ _ Hg)).
    apply intended_recorded; [done|]. apply Hf; [done|]. by rewrite (grant_at_Some _ _ _ Hg). }
  destruct (planned_recorded _ _ _ k p Hpl) as [Hp1 Hp2].
  split; intros H; apply Hrec in H; try exact _; auto; destruct H as [H|H]; auto; right.
  - apply Hp1 in H as (? & t & h & g & ? & ? & ?). split; [done|]. exists t, h, g. auto.
  - apply Hp2 in H as (? & t & h & g & ? & ? & ?). split; [done|]. exists t, h, g. auto.
Qed.

Lemma ledger_records_only_added_witness :
  let k := key (Toy.target "app" "bob") in
  recorded g_Privileges Toy.after k "CREATE" ∧
  (recorded g_Privileges Toy.managed k "CREATE" ∨
    recorded g_Privileges Toy.desired k "CREATE" ∧
      ∃ t held grantable, EvHeld t (inl (held, grantable)) ∈ Toy.trace ∧ key t = k ∧ "CREATE" ∉ held).
Proof.
  intros k. assert (recorded g_Privileges Toy.after k "CREATE") as H.
  { rewrite Toy.after_example. eexists. split; [by left|]. split; [done|by left]. }
  split; [exact H|]. revert H.
  exact (proj1 (ledger_records_only_added _ _ _ _ _ _ _ _ _ _ k "CREATE" Toy.runs)).
Defined.
