(* ===== verification/GrantConvergence.v ===== *)
(** * The grant engine: convergence and idempotence

    [LawfulServer] states what the engine relies on of the server: reads and
    ledger writes change no privileges, a successful GRANT gives what it names,
    and no statement takes away a privilege it does not name. Against any such
    server a run without an error leaves every declared privilege held, and a
    second run changes nothing. *)

From Stdlib Require Import Ascii.
From S2P Require Import Prelude GoStrings GoStrconv Quoting Privileges Trace GrantEngine GrantTrace.
From S2P Require Import GrantProps.

(** A view of the server's privileges by ledger key. *)
Record view (W : Type) := { holds : W → string → string → Prop; grantable : W → string → string → Prop }.
Arguments holds {W}. Arguments grantable {W}.

Definition view_eq {W} (v : view W) (w w' : W) : Prop :=
  ∀ k p, (holds v w k p ↔ holds v w' k p) ∧ (grantable v w k p ↔ grantable v w' k p).

Definition view_le {W} (v : view W) (w w' : W) : Prop :=
  ∀ k p, (holds v w k p → holds v w' k p) ∧ (grantable v w k p → grantable v w' k p).

Class LawfulServer `{UP : UnicodePrint} {W} (ops : privilegeOps W) (persist : ledgerPersist W) (v : view W) : Prop := {
  law_read t r w w' : call_step ops persist (EvHeld t r) w w' → view_eq v w w';
  law_gone t r w w' : call_step ops persist (EvGone t r) w w' → view_eq v w w';
  law_persist l e w w' : call_step ops persist (EvPersist l e) w w' → view_eq v w w';
  law_held t ps gs w w' : call_step ops persist (EvHeld t (inl (ps, gs))) w w' →
    ∀ p, (p ∈ ps ↔ holds v w (key t) p) ∧ (p ∈ gs ↔ grantable v w (key t) p);
  law_grant t ps wgo e w w' : call_step ops persist (EvGrant t ps wgo e) w w' →
    view_le v w w' ∧
    (e = None → ∀ p, p ∈ ps → holds v w' (key t) p ∧ (wgo = true → grantable v w' (key t) p));
  law_revoke t ps mode e w w' : call_step ops persist (EvRevoke t ps mode e) w w' →
    ∀ k p, (holds v w k p → k ≠ key t ∨ p ∉ ps ∨ GrantOptionOnly mode = true → holds v w' k p) ∧
           (grantable v w k p → k ≠ key t ∨ p ∉ ps → grantable v w' k p) }.

Section lawful.
Context `{UP : UnicodePrint} {W : Type} (ops : privilegeOps W) (persist : ledgerPersist W) (v : view W).
Context `{!LawfulServer ops persist v}.

Abbreviation execs := (execs (call_step ops persist)).

#[local] Instance view_eq_equiv : Equivalence (view_eq v).
Proof. split; [by intros w k p|intros w w' H k p; by destruct (H k p)|intros a b c H1 H2 k p]. destruct (H1 k p), (H2 k p). by split; etransitivity. Qed.

#[local] Instance view_le_preorder : PreOrder (view_le v).
Proof. split; [by intros w k p|intros a b c H1 H2 k p]. destruct (H1 k p), (H2 k p). auto. Qed.

Lemma view_eq_le w w' : view_eq v w w' → view_le v w w'.
Proof. intros H k p. destruct (H k p) as [[] []]. auto. Qed.

Definition is_read (ev : event) : Prop :=
  match ev with EvHeld _ _ | EvGone _ _ | EvPersist _ _ => True | _ => False end.

Lemma execs_reads tr w w' : execs tr w w' → Forall is_read tr → view_eq v w w'.
Proof.
  induction 1 as [|ev tr w w1 w2 Hs He IH]; intros Hr; [done|]. apply Forall_cons in Hr as [Hev Hr].
  etransitivity; [|by apply IH]. destruct ev; try done; [by eapply law_read|by eapply law_gone|by eapply law_persist].
Qed.

Lemma execs_grants tr w w' : execs tr w w' → Forall (λ ev, ∃ t ps wgo e, ev = EvGrant t ps wgo e) tr → view_le v w w'.
Proof.
  induction 1 as [|ev tr w w1 w2 Hs He IH]; intros Hr; [done|].
  apply Forall_cons in Hr as [(t & ps & wgo & e & ->) Hr]. etransitivity; [|by apply IH].
  by apply law_grant in Hs as [? _].
Qed.

(** What a desired grant asks for is held. *)
Definition satisfied (w : W) (d : privilegeGrant) : Prop :=
  (∀ p, p ∈ g_Privileges d → holds v w (grant_key d) p) ∧ (∀ p, p ∈ g_GrantOptions d → grantable v w (grant_key d) p).

Lemma held_tr_reads tr : Forall is_held tr → Forall is_read tr.
Proof. intros H. eapply Forall_impl; [exact H|]. by intros []. Qed.

(** A read within a trace of reads sees the state at its start. *)
Lemma read_sees tr t ps gs w w' :
  execs tr w w' → Forall is_held tr → EvHeld t (inl (ps, gs)) ∈ tr →
  ∀ p, (p ∈ ps ↔ holds v w (key t) p) ∧ (p ∈ gs ↔ grantable v w (key t) p).
Proof.
  intros He Hr Hin p. destruct (execs_elem _ _ _ _ _ He Hin) as (pre & post & w1 & w2 & -> & He1 & Hs & _).
  apply Forall_app in Hr as [Hr _]. apply held_tr_reads in Hr.
  destruct (execs_reads _ _ _ He1 Hr (key t) p) as [-> ->]. by apply (law_held _ _ _ _ _ Hs).
Qed.

(** A successful GRANT is still in effect at the end of the grants. *)
Lemma grant_lasts tr t ps wgo w w' :
  execs tr w w' → Forall (λ ev, ∃ t ps wgo e, ev = EvGrant t ps wgo e) tr → EvGrant t ps wgo None ∈ tr →
  ∀ p, p ∈ ps → holds v w' (key t) p ∧ (wgo = true → grantable v w' (key t) p).
Proof.
  intros He Hg Hin p Hp. destruct (execs_elem _ _ _ _ _ He Hin) as (pre & post & w1 & w2 & -> & _ & Hs & He2).
  apply Forall_app in Hg as [_ [_ Hg]%Forall_cons]. pose proof (execs_grants _ _ _ He2 Hg (key t) p) as [Hh Hgr].
  apply law_grant in Hs as [_ Hs]. destruct (Hs eq_refl p Hp). auto.
Qed.

(** Reading, granting what was missing: everything declared is held. *)
Lemma granted_satisfied desired plan pt gt d w w1 w2 w3 :
  execs pt w w1 → Forall is_held pt → view_eq v w1 w2 → execs gt w2 w3 →
  Forall (λ ev, ∃ t ps wgo e, ev = EvGrant t ps wgo e) gt →
  complete desired plan pt gt → d ∈ desired → satisfied w3 d.
Proof.
  intros He1 Hpt Heq He3 Hgt [Hcov Hgr] Hd. destruct (Hcov d Hd) as (held & grantable & Hev & Hplan).
  pose proof (read_sees _ _ _ _ _ _ He1 Hpt Hev) as Hsee.
  assert (view_le v w w3) as Hle.
  { etransitivity; [apply view_eq_le|by apply (execs_grants _ _ _ He3)].
    etransitivity; [|exact Heq]. by apply (execs_reads _ _ _ He1), held_tr_reads. }
  assert (∀ (wgo : bool) p, p ∈ (if wgo then p_grantOptions (planOf d held grantable) else p_plain (planOf d held grantable)) →
    holds v w3 (grant_key d) p ∧ (wgo = true → GrantConvergence.grantable v w3 (grant_key d) p)) as Hgrant.
  { intros wgo p Hp. destruct Hplan as [Hin|Hempty].
    - rewrite Forall_forall in Hgr. refine (grant_lasts _ _ _ wgo _ _ He3 Hgt (Hgr _ Hin wgo _) p Hp).
      intros Hnil. rewrite Hnil in Hp. by apply elem_of_nil in Hp.
    - exfalso. unfold grant_empty in Hempty. apply andb_true_iff in Hempty as [H1%bool_decide_eq_true H2%bool_decide_eq_true].
      cbn in H1, H2, Hp. destruct wgo; [rewrite H2 in Hp|rewrite H1 in Hp]; by apply elem_of_nil in Hp. }
  split; intros p Hp.
  - destruct (decide (p ∈ held)) as [Hh|Hh]; [by apply Hle, Hsee|].
    destruct (decide (p ∈ subtract (g_GrantOptions d) grantable)) as [Ho|Ho].
    + by apply (Hgrant true p).
    + apply (Hgrant false p). apply elem_of_subtract. split; [by apply elem_of_subtract|done].
  - destruct (decide (p ∈ grantable)) as [Hh|Hh]; [by apply Hle, Hsee|].
    apply (Hgrant true p); [|done]. cbn. by apply elem_of_subtract.
Qed.

(** Revokes of undeclared privileges leave the declared ones. *)
Lemma revokes_preserve desired managed plan rt w w' d :
  execs rt w w' → Forall (revoke_ok_at (intended managed plan) (want_of desired)) rt →
  NoDup (grant_key <$> desired) → Forall wf_desired desired → d ∈ desired → satisfied w d → satisfied w' d.
Proof.
  intros He Hrev Hn Hwf Hd. rewrite Forall_forall in Hwf. specialize (Hwf d Hd).
  apply (execs_invariant _ (λ w, satisfied w d) _ _ _ He). intros ev u u' Hin Hs [Hp Ho].
  pose proof (revoke_elem _ _ _ _ (intended_keyed managed plan) Hrev Hin) as Hok.
  destruct ev as [| |t ps mode e|t r|]; try done.
  - destruct Hok as (_ & _ & _ & Hps & _). pose proof (law_revoke _ _ _ _ _ _ Hs) as Hl.
    assert (grant_key d = key t → grant_at (want_of desired) (key t) = d) as Hwant.
    { intros <-. by apply want_of_elem. }
    assert (∀ p, p ∈ ps → grant_key d = key t →
      if GrantOptionOnly mode then p ∉ g_GrantOptions d else p ∉ g_Privileges d) as Hnot.
    { intros p Hpp Hk. specialize (Hps p Hpp). rewrite Hwant in Hps by done. by destruct (GrantOptionOnly mode), Hps. }
    split; intros p Hpd; apply (Hl (grant_key d) p); auto;
      destruct (decide (grant_key d = key t)) as [Hk|]; auto; right.
    + destruct (GrantOptionOnly mode) eqn:E; [by right|]. left. intros Hpp. by apply (Hnot p).
    + intros Hpp. specialize (Hnot p Hpp Hk). destruct (GrantOptionOnly mode); auto.
  - apply law_gone in Hs. split; intros p Hpd; apply (Hs (grant_key d) p); auto.
Qed.

Lemma grants_only plan gt : Forall (grants_of plan) gt → Forall (λ ev, ∃ t ps wgo e, ev = EvGrant t ps wgo e) gt.
Proof. intros H. eapply Forall_impl; [exact H|]. intros []; try done. eauto 10. Qed.

Lemma persist_only m pt : Forall (λ ev, ∃ e, ev = EvPersist m e) pt → Forall is_read pt.
Proof. intros H. eapply Forall_impl; [exact H|]. by intros ? [? ->]. Qed.
End lawful.

(** ** The ledger of a run without an error, read back *)

Section readback.
Context `{UP : UnicodePrint}.

Lemma mergeGrant_zero g : canonical_grant g → mergeGrant zeroGrant g = g.
Proof. intros [H1 H2]. destruct g as [t ps os]. unfold mergeGrant. simpl. by rewrite !str_union_nil_l. Qed.

Lemma merge_into_distinct m gs k :
  NoDup (grant_key <$> gs) → Forall canonical_grant gs → (∀ g, g ∈ gs → m !! grant_key g = None) →
  merge_into m gs !! k = match list_find (λ g, grant_key g = k) gs with Some (_, g) => Some g | None => m !! k end.
Proof.
  revert m. induction gs as [|g gs IH]; intros m Hn Hc Hm; [done|]. simpl.
  apply NoDup_cons in Hn as [Hg Hn]. apply Forall_cons in Hc as [Hcg Hc].
  assert (grant_at m (grant_key g) = zeroGrant) as ->.
  { unfold grant_at. by rewrite Hm by left. }
  rewrite mergeGrant_zero by done. rewrite IH; [|done|done|].
  2: { intros g' Hg'. rewrite lookup_insert_ne; [apply Hm; by right|].
       intros Heq. apply Hg. rewrite Heq. by apply list_elem_of_fmap_2. }
  case_decide as Hk.
  - subst k. assert (list_find (λ g', grant_key g' = grant_key g) gs = None) as ->.
    { apply list_find_None, Forall_forall. intros g' Hg' Heq. apply Hg. rewrite <- Heq. by apply list_elem_of_fmap_2. }
    by rewrite lookup_insert_eq.
  - destruct (list_find _ gs) as [[i g']|]; simpl; [done|]. by rewrite lookup_insert_ne.
Qed.

(** Reading a sorted ledger back gives the map it lists. *)
Lemma tracked_of_sorted m k :
  keyed m → map_Forall (λ _ g, canonical_grant g) m →
  tracked_of (sortedGrants m) !! k = (g ← m !! k; if grant_empty g then None else Some g).
Proof.
  intros Hk Hc. rewrite tracked_of_merge, merge_into_distinct.
  - destruct (list_find _ _) as [[i g]|] eqn:E.
    + apply list_find_Some in E as (Hi & Hg & _). apply list_elem_of_lookup_2, elem_of_sortedGrants in Hi as (k' & Hm & He).
      assert (k' = k) as -> by (by rewrite <- (Hk _ _ Hm)). rewrite Hm. simpl. by rewrite He.
    + rewrite lookup_empty. destruct (m !! k) as [g|] eqn:Hm; [|done]. simpl.
      destruct (grant_empty g) eqn:He; [done|]. exfalso. apply list_find_None in E. rewrite Forall_forall in E.
      apply (E g); [|by apply Hk]. apply elem_of_sortedGrants. eauto.
  - by apply sortedGrants_sorted.
  - apply Forall_forall. intros g (k' & Hm & _)%elem_of_sortedGrants. by apply (Hc k').
  - intros. by rewrite lookup_empty.
Qed.

(** Sorted ledgers with the same entries are equal. *)
Lemma sortedGrants_ext m m' :
  keyed m → keyed m' →
  (∀ k g, grant_empty g = false → m !! k = Some g ↔ m' !! k = Some g) → sortedGrants m = sortedGrants m'.
Proof.
  intros Hk Hk' Heq.
  assert (∀ g, g ∈ sortedGrants m ↔ g ∈ sortedGrants m') as Hin.
  { intros g. rewrite !elem_of_sortedGrants. by split; intros (k & ? & ?); exists k; (split; [apply Heq|]). }
  destruct (sortedGrants_sorted m Hk) as [Hs Hn], (sortedGrants_sorted m' Hk') as [Hs' Hn'].
  assert (grant_key <$> sortedGrants m = grant_key <$> sortedGrants m') as Hkeys.
  { apply sorted_NoDup_ext; try done. intros k. rewrite !list_elem_of_fmap. by setoid_rewrite Hin. }
  apply list_eq. intros i. apply (f_equal (.!! i)) in Hkeys as Hki. rewrite !list_lookup_fmap in Hki.
  destruct (sortedGrants m !! i) as [g|] eqn:E1, (sortedGrants m' !! i) as [g'|] eqn:E2; try done.
  injection Hki as Hki. apply list_elem_of_lookup_2, Hin, elem_of_sortedGrants in E1 as (k & H1 & _).
  apply list_elem_of_lookup_2, elem_of_sortedGrants in E2 as (k' & H2 & _).
  apply Hk' in H1 as Hk1. apply Hk' in H2 as Hk2. congruence.
Qed.
End readback.

Section converged.
Context `{UP : UnicodePrint} {W : Type} {ops : privilegeOps W} {persist : ledgerPersist W} {v : view W}.
Context `{!LawfulServer ops persist v}.
Context {desired managed : list privilegeGrant} {limit : ledgerLimit} {w : W}.
Context (Hn : NoDup (grant_key <$> desired)) (Hwf : Forall wf_desired desired).

Lemma run_satisfied after w' tr :
  engine_run ops persist desired managed limit w after None w' tr → ∀ d, d ∈ desired → satisfied v w' d.
Proof.
  intros Hrun d Hd. destruct (run_cases Hrun) as [He [H|H]]; [|by destruct H as (? & ? & ? & _ & _ & _ & _ & _ & []) ].
  destruct H as (plan & pt & st & gt & rt & -> & Hp & Hrev & (final & _ & _ & Hfin) & _).
  destruct (Hfin eq_refl) as [Hcomplete _].
  apply execs_app in He as (w1 & He1 & He). apply execs_app in He as (w2 & He2 & He).
  apply execs_app in He as (w3 & He3 & He4).
  eapply (revokes_preserve ops persist v); [exact He4|exact Hrev|done..|].
  eapply (granted_satisfied ops persist v); [exact He1|apply Hp| |exact He3| |exact Hcomplete|done].
  - eapply (execs_reads ops persist v); [exact He2|]. eapply persist_only, (rp_persist _ _ _ _ _ _ _ _ Hp).
  - eapply grants_only, (rp_granted _ _ _ _ _ _ _ _ Hp).
Qed.

(** Nothing is planned in a world where every desired grant is satisfied. *)
Lemma nothing_planned plan pt w' :
  execs (call_step ops persist) pt w w' → Forall is_held pt → Forall (planned_from desired pt) plan →
  Forall (λ p, grant_empty (p_added p) = false) plan → (∀ d, d ∈ desired → satisfied v w d) → plan = [].
Proof.
  intros He Hpt Hpl Hne Hsat. destruct plan as [|p plan]; [done|]. exfalso.
  apply Forall_cons in Hpl as [(d & held & gr & Hd & Hev & ->) _]. apply Forall_cons in Hne as [Hne _].
  pose proof (read_sees ops persist v _ _ _ _ _ _ He Hpt Hev) as Hsee. destruct (Hsat d Hd) as [H1 H2].
  assert (grant_empty (p_added (planOf d held gr)) = true) as Hem; [|congruence].
  unfold grant_empty. apply andb_true_iff. rewrite !bool_decide_eq_true. cbn. rewrite !subtract_nil_iff.
  split; intros p Hp; apply Hsee; [by apply H1|by apply H2].
Qed.
End converged.

(** C10: the engine converges: against a server that behaves like PostgreSQL, a run
    that returns no error leaves every declared privilege held by its grantee,
    and every declared grant option held with it. *)
Theorem grants_converge `{UP : UnicodePrint} {W} (ops : privilegeOps W) persist v desired managed limit
    w after w' tr `{!LawfulServer ops persist v} :
  NoDup (grant_key <$> desired) → Forall wf_desired desired →
  engine_run ops persist desired managed limit w after None w' tr →
  ∀ d, d ∈ desired →
    (∀ p, p ∈ g_Privileges d → holds v w' (grant_key d) p) ∧
    (∀ p, p ∈ g_GrantOptions d → grantable v w' (grant_key d) p).
Proof. intros Hn Hwf Hrun. exact (run_satisfied Hn Hwf after w' tr Hrun). Qed.

(** C11: the engine is idempotent: after a run without an error, running it again
    with the ledger it returned only reads; no GRANT, REVOKE or ledger write is
    issued, the ledger stays the same, and no privilege changes. *)
Theorem second_run_idle `{UP : UnicodePrint} {W} (ops : privilegeOps W) persist v desired managed limit
    w after w1 tr1 after2 err2 w2 tr2 `{!LawfulServer ops persist v} :
  NoDup (grant_key <$> desired) → Forall wf_desired desired →
  engine_run ops persist desired managed limit w after None w1 tr1 →
  engine_run ops persist desired after limit w1 after2 err2 w2 tr2 →
  Forall is_held tr2 ∧ after2 = after ∧ view_eq v w1 w2.
Proof.
  intros Hn Hwf Hrun1 Hrun2. pose proof (run_satisfied Hn Hwf _ _ _ Hrun1) as Hsat.
  destruct (run_cases Hrun1) as [_ [(plan & ? & ? & ? & ? & _ & _ & _ & (final & Ha & Hsh & Hset) & _)|H]];
    [|by destruct H as (? & ? & ? & _ & _ & _ & _ & _ & [])].
  simpl in *. destruct (Hset eq_refl) as [_ Hsettled]. clear Hset.
  destruct (run_final_facts plan final (or_introl Hsh)) as (Hk & Hc & _).
  assert (∀ k g, tracked_of after !! k = Some g ↔ final !! k = Some g ∧ grant_empty g = false) as Hlook.
  { intros k g. rewrite Ha, tracked_of_sorted by done. destruct (final !! k) as [g'|]; simpl; [|naive_solver].
    destruct (grant_empty g') eqn:E; naive_solver congruence. }
  destruct (run_cases Hrun2) as [He [H|H]].
  - destruct H as (plan2 & pt & st & gt & rt & -> & Hp & _ & _ & _ & Hidle).
    apply execs_app in He as (w3 & He1 & He2).
    assert (plan2 = []) as ->.
    { eapply (nothing_planned (v := v)); [exact He1|apply Hp|apply Hp|apply Hp|exact Hsat]. }
    destruct (rp_idle _ _ _ _ _ _ _ _ Hp eq_refl) as [-> ->]. simpl in *.
    destruct Hidle as [-> ->]; [done| | |].
    + intros k. unfold grant_at at 1. destruct (tracked_of after !! k) as [g|] eqn:E; simpl.
      * apply Hlook in E as [E _]. specialize (Hsettled k). by rewrite (grant_at_Some _ _ _ E) in Hsettled.
      * by split; intros ? ?%elem_of_nil.
    + intros k g [_ ?]%Hlook. done.
    + assert (w3 = w2) as -> by (by inversion He2). rewrite app_nil_r. split_and!; [apply Hp| |].
      * rewrite Ha. apply sortedGrants_ext; [|done|].
        -- rewrite <- Ha. apply (intended_keyed after []).
        -- intros k g Hg. rewrite <- Ha, Hlook. naive_solver.
      * eapply (execs_reads ops persist v); [exact He1|]. apply held_tr_reads, Hp.
  - exfalso. destruct H as (plan2 & pt & e & -> & Hp & _ & Hne & _). apply Hne.
    apply execs_app in He as (w3 & He1 & _).
    eapply (nothing_planned (v := v)); [exact He1|apply Hp|apply Hp|apply Hp|exact Hsat].
Qed.

(** ** The toy server is lawful *)

#[local] Existing Instance Toy.print.

Definition toy_view : view Toy.world :=
  {| holds w k p := p ∈ (Toy.at_key w k).1; grantable w k p := p ∈ (Toy.at_key w k).2 |}.

Lemma toy_at_insert w k x k' : Toy.at_key (<[k := x]> w) k' = if decide (k = k') then x else Toy.at_key w k'.
Proof. unfold Toy.at_key, Toy.world in *. case_decide; [subst; by rewrite lookup_insert_eq|by rewrite lookup_insert_ne]. Qed.

#[export] Instance toy_lawful : LawfulServer Toy.ops Toy.persist toy_view.
Proof.
  split; simpl.
  - intros ? ? ? ? [= _ ->]. done.
  - intros ? ? ? ? (? & [=] & _).
  - intros ? ? ? ? (? & [= <-] & [= _ ->]). done.
  - intros t ps gs w w' H p. injection H as H1 _. by rewrite H1.
  - intros t ps wgo e w w' [= <- <-]. split.
    + intros k p. simpl. rewrite toy_at_insert. case_decide; [subst k|done]. simpl. rewrite elem_of_str_union.
      split; [by left|]. destruct wgo; [rewrite elem_of_str_union; by left|done].
    + intros _ p Hp. rewrite toy_at_insert, decide_True by done. simpl. rewrite elem_of_str_union.
      split; [by right|]. intros ->. rewrite elem_of_str_union. by right.
  - intros t ps mode e w w' [= <- <-] k p. simpl. rewrite toy_at_insert. case_decide; [subst k|done]. simpl.
    split; intros Hp Hor.
    + destruct (GrantOptionOnly mode); [done|]. apply elem_of_subtract. naive_solver.
    + apply elem_of_subtract. naive_solver.
Qed.

Lemma grants_converge_witness :
  let t := Toy.target "app" "bob" in
  (∀ p, p ∈ ["CREATE"; "USAGE"] → holds toy_view Toy.final (key t) p) ∧
  (∀ p, p ∈ [] → grantable toy_view Toy.final (key t) p).
Proof.
  refine (grants_converge Toy.ops Toy.persist toy_view Toy.desired _ _ _ _ _ _ _ _ Toy.runs
            (desiredGrant (Toy.target "app" "bob") ["CREATE"; "USAGE"] false) _).
  - apply NoDup_singleton.
  - constructor; [|constructor]. by intros p ?%elem_of_nil.
  - by left.
Defined.

Lemma second_run_idle_witness :
  let r := applyPrivilegeGrants (logged_ops Toy.ops) Toy.desired Toy.after 512 (logged_persist Toy.persist) (Toy.final, []) in
  Forall is_held r.2.2 ∧ r.1.1 = Toy.after ∧ view_eq toy_view Toy.final r.2.1.
Proof.
  intros r. eapply (second_run_idle Toy.ops Toy.persist toy_view Toy.desired Toy.managed 512 Toy.start Toy.after
    Toy.final Toy.trace r.1.1 r.1.2).
  - exact toy_lawful.
  - apply NoDup_singleton.
  - constructor; [|constructor]. by intros p ?%elem_of_nil.
  - exact Toy.runs.
  - by vm_compute.
Defined.
