(* ===== verification/ApiTypes.v ===== *)
(** * The API objects (src/api/v1alpha1/role_types.go, cluster_types.go,
    database_types.go, common_types.go)

    The spec and status of Roles and Databases, the Cluster's role policy, and their
    methods. A
    Go pointer to an optional value is an [option]; a [nil] policy is [None]; a
    map is a [gmap]. Kubernetes metadata is reduced to what the code reads. *)

From Stdlib Require Import Ascii.
From S2P Require Import Prelude.

(** ** Role *)

Record SecretKeySelector := { sel_Name : string; sel_Key : string }.

Record RoleMembership := {
  rm_Role : string;
  rm_Inherit : option bool;
  rm_Set : option bool;
  rm_Admin : bool }.

#[export] Instance RoleMembership_eq_dec : EqDecision RoleMembership.
Proof. solve_decision. Defined.

Record PasswordRotationSpec := { pr_Every : Z }.

Record RoleDatabaseSettings := { rds_Database : string; rds_Settings : gmap string string }.

Record ManagedRoleDatabaseSettings := { mds_Database : string; mds_Settings : list string }.

Record ParameterGrantSpec := { pgs_Parameter : string; pgs_Privileges : list string; pgs_WithGrantOption : bool }.

Record ManagedParameterGrant := {
  mpg_Parameter : string;
  mpg_Privileges : list string;
  mpg_GrantOptions : list string;
  mpg_WithGrantOption : bool }.

Record RoleSpec := {
  rs_ClusterRef : string;
  rs_RoleName : string;
  rs_Login : option bool;
  rs_CreateDB : bool;
  rs_CreateRole : bool;
  rs_Inherit : option bool;
  rs_Replication : bool;
  rs_BypassRLS : bool;
  rs_ConnectionLimit : option Z;
  rs_MemberOf : list string;
  rs_Memberships : list RoleMembership;
  rs_RevokeRemovedMemberships : option bool;
  rs_PasswordSecretRef : option SecretKeySelector;
  rs_PasswordRotation : option PasswordRotationSpec;
  rs_ParameterGrants : list ParameterGrantSpec;
  rs_ReassignOwnedTo : option string;
  rs_Settings : gmap string string;
  rs_DatabaseSettings : list RoleDatabaseSettings }.

Definition IsLogin (s : RoleSpec) : bool := match rs_Login s with Some b => b | None => true end.
Definition IsInherit (s : RoleSpec) : bool := match rs_Inherit s with Some b => b | None => true end.
Definition GetConnectionLimit (s : RoleSpec) : Z := match rs_ConnectionLimit s with Some z => z | None => -1 end%Z.
Definition ShouldRevokeRemovedMemberships (s : RoleSpec) : bool :=
  match rs_RevokeRemovedMemberships s with Some b => b | None => true end.

(** [DesiredMemberships]: the loop over [Memberships], then over [MemberOf],
    each role once. *)
Definition add_membership (out : list RoleMembership) (m : RoleMembership) : list RoleMembership :=
  if bool_decide (rm_Role m ∈ (rm_Role <$> out)) then out else out ++ [m].

Definition plain_membership (r : string) : RoleMembership :=
  {| rm_Role := r; rm_Inherit := None; rm_Set := None; rm_Admin := false |}.

Definition DesiredMemberships (s : RoleSpec) : list RoleMembership :=
  foldl add_membership (foldl add_membership [] (rs_Memberships s)) (plain_membership <$> rs_MemberOf s).

(** [metav1.Condition], without the transition time the API machinery keeps. *)
Record Condition := {
  cond_Type : string;
  cond_Status : string;
  cond_ObservedGeneration : Z;
  cond_Reason : string;
  cond_Message : string }.

Record RoleStatus := {
  rst_Conditions : list Condition;
  rst_Ready : bool;
  rst_RoleName : string;
  rst_ClusterUID : string;
  rst_SecretName : string;
  rst_PasswordRotatedAt : option Z;
  rst_PasswordRotationRequest : string;
  rst_PasswordHash : string;
  rst_ManagedMemberships : list string;
  rst_ManagedParameterGrants : list ManagedParameterGrant;
  rst_ManagedSettings : list string;
  rst_ManagedDatabaseSettings : list ManagedRoleDatabaseSettings }.

Record Role := {
  role_Name : string;
  role_Namespace : string;
  role_UID : string;
  role_ResourceVersion : string;
  role_Generation : Z;
  role_Finalizers : list string;
  role_CreationTimestamp : Z;
  role_Deleting : bool;
  role_Annotations : gmap string string;
  role_Spec : RoleSpec;
  role_Status : RoleStatus }.

Definition PostgresName (r : Role) : string :=
  if decide (rs_RoleName (role_Spec r) = "") then role_Name r else rs_RoleName (role_Spec r).

(** ** The Cluster's role policy *)

Definition RoleAttribute : Type := string.
Definition RoleAttributeCreateRole : RoleAttribute := "createRole".
Definition RoleAttributeReplication : RoleAttribute := "replication".
Definition RoleAttributeBypassRLS : RoleAttribute := "bypassRLS".

Record RolePolicySpec := {
  pol_AllowedAttributes : list RoleAttribute;
  pol_AllowedPredefinedRoles : list string;
  pol_AllowedExistingRoles : list string;
  pol_AdoptableRoles : list string;
  pol_AdoptableDatabases : list string;
  pol_AllowedExtensions : list string;
  pol_AllowedSettingPrefixes : list string }.

Abbreviation policy := (option RolePolicySpec).

Definition DeniedSettingPrefixes : list string :=
  ["plperl"; "plperlu"; "plpython"; "plpythonu"; "plpython2u"; "plpython3"; "plpython3u";
   "pltcl"; "pltclu"; "plv8"; "pljava"; "plpgsql";
   "postgis"; "postgis_raster"; "auto_explain"; "pg_stat_statements"; "pg_stat_monitor";
   "pgaudit"; "set_user"; "anon"; "sepgsql"; "pg_hint_plan"; "pg_partman_bgw"; "cron";
   "pgsodium"; "pg_net"; "pg_prewarm"; "pgcrypto"; "pgtle"].

Definition GrantablePredefinedRoles : list string :=
  ["pg_checkpoint"; "pg_create_subscription"; "pg_maintain"; "pg_monitor"; "pg_read_all_data";
   "pg_read_all_settings"; "pg_read_all_stats"; "pg_signal_autovacuum_worker"; "pg_signal_backend";
   "pg_stat_scan_tables"; "pg_use_reserved_connections"; "pg_write_all_data"].

Definition ForbiddenPredefinedRoles : list string :=
  ["pg_execute_server_program"; "pg_read_server_files"; "pg_write_server_files"].

(** A nil policy allows nothing. *)
Definition policy_lists (field : RolePolicySpec → list string) (p : policy) (name : string) : bool :=
  match p with Some p => slices_Contains (field p) name | None => false end.

Definition AllowsAttribute (p : policy) (attr : RoleAttribute) : bool := policy_lists pol_AllowedAttributes p attr.
Definition AllowsPredefinedRole (p : policy) (name : string) : bool :=
  policy_lists pol_AllowedPredefinedRoles p name && slices_Contains GrantablePredefinedRoles name.
Definition AllowsExistingRole (p : policy) (name : string) : bool := policy_lists pol_AllowedExistingRoles p name.
Definition AllowsAdoptingRole (p : policy) (name : string) : bool := policy_lists pol_AdoptableRoles p name.
Definition AllowsAdoptingDatabase (p : policy) (name : string) : bool := policy_lists pol_AdoptableDatabases p name.
Definition AllowsExtension (p : policy) (name : string) : bool := policy_lists pol_AllowedExtensions p name.
Definition AllowsSettingPrefix (p : policy) (prefix : string) : bool :=
  policy_lists pol_AllowedSettingPrefixes p prefix && negb (slices_Contains DeniedSettingPrefixes prefix).

(** ** Lemmas *)

Lemma add_membership_elem out m x :
  x ∈ add_membership out m ↔ x ∈ out ∨ x = m ∧ rm_Role m ∉ (rm_Role <$> out).
Proof.
  unfold add_membership. case_bool_decide as H; [naive_solver|]. rewrite elem_of_app, list_elem_of_singleton. naive_solver.
Qed.

Lemma add_membership_NoDup out m : NoDup (rm_Role <$> out) → NoDup (rm_Role <$> add_membership out m).
Proof.
  intros Hn. unfold add_membership. case_bool_decide as H; [done|]. rewrite fmap_app. apply NoDup_app.
  split_and!; [done| |apply NoDup_singleton]. intros x Hx ->%list_elem_of_singleton. done.
Qed.

Lemma add_memberships_NoDup ms out :
  NoDup (rm_Role <$> out) → NoDup (rm_Role <$> foldl add_membership out ms).
Proof. revert out. induction ms as [|m ms IH]; intros out Hn; simpl; [done|]. by apply IH, add_membership_NoDup. Qed.

Lemma DesiredMemberships_NoDup s : NoDup (rm_Role <$> DesiredMemberships s).
Proof. apply add_memberships_NoDup, add_memberships_NoDup. constructor. Qed.

#[export] Hint Resolve DesiredMemberships_NoDup : go.

(** ** API types: Database (src/api/v1alpha1/database_types.go)

    The fields the modelled code reads and writes. *)

Record PublicPrivilegesSpec := {
  pp_Connect : option bool;
  pp_Temporary : option bool;
  pp_PublicSchemaUsage : option bool;
  pp_PublicSchemaCreate : option bool }.

Definition PublicPrivilege : Type := string.
Definition PublicPrivilegeConnect : PublicPrivilege := "connect".
Definition PublicPrivilegeTemporary : PublicPrivilege := "temporary".
Definition PublicPrivilegePublicSchemaUsage : PublicPrivilege := "publicSchemaUsage".
Definition PublicPrivilegePublicSchemaCreate : PublicPrivilege := "publicSchemaCreate".

Record DatabaseGrantSpec := { dgs_Role : string; dgs_Privileges : list string; dgs_WithGrantOption : bool }.

Record ManagedDatabaseGrant := {
  mdg_Role : string;
  mdg_Privileges : list string;
  mdg_GrantOptions : list string;
  mdg_WithGrantOption : bool }.

Record ExtensionGrantSpec := {
  egs_Role : string;
  egs_Schema : list string;
  egs_Tables : list string;
  egs_Sequences : list string;
  egs_Functions : list string }.

Record ExtensionSpec := {
  es_Name : string;
  es_Schema : string;
  es_Version : string;
  es_Cascade : bool;
  es_DropOnRemoval : bool;
  es_Grants : list ExtensionGrantSpec }.

Definition ExtensionObjectKind : Type := string.
Definition ExtensionObjectSchema : ExtensionObjectKind := "schema".
Definition ExtensionObjectTables : ExtensionObjectKind := "tables".
Definition ExtensionObjectSequences : ExtensionObjectKind := "sequences".
Definition ExtensionObjectFunctions : ExtensionObjectKind := "functions".

Record ManagedExtensionGrant := {
  meg_Extension : string;
  meg_Role : string;
  meg_Kind : ExtensionObjectKind;
  meg_Schema : string;
  meg_Privileges : list string }.

Record ExtensionStatus := {
  est_Name : string;
  est_Version : string;
  est_Schema : string;
  est_Created : bool;
  est_OID : Z;
  est_Owner : string;
  est_DropOnRemoval : bool;
  est_Reason : string;
  est_Message : string;
  est_SkippedObjects : Z }.

Record GrantSpec := { gs_Role : string; gs_Privileges : list string; gs_WithGrantOption : bool }.

Definition ObjectGrantKind : Type := string.

Record ObjectGrantSpec := {
  ogs_Role : string;
  ogs_Kind : ObjectGrantKind;
  ogs_Objects : list string;
  ogs_Privileges : list string;
  ogs_WithGrantOption : bool }.

Definition DefaultPrivilegeKind : Type := string.

Record DefaultPrivilegeSpec := {
  dps_ForRole : string;
  dps_Role : string;
  dps_Kind : DefaultPrivilegeKind;
  dps_Privileges : list string;
  dps_WithGrantOption : bool }.

Record SchemaSpec := {
  ss_Name : string;
  ss_Owner : string;
  ss_Grants : list GrantSpec;
  ss_ObjectGrants : list ObjectGrantSpec;
  ss_DefaultPrivileges : list DefaultPrivilegeSpec }.

Record ManagedObjectGrant := {
  mog_Schema : string;
  mog_Kind : ObjectGrantKind;
  mog_Object : string;
  mog_OID : Z;
  mog_Role : string;
  mog_Privileges : list string;
  mog_GrantOptions : list string }.

Record ManagedDefaultPrivilege := {
  mdp_Schema : string;
  mdp_ForRole : string;
  mdp_Kind : DefaultPrivilegeKind;
  mdp_Role : string;
  mdp_Privileges : list string;
  mdp_GrantOptions : list string }.

Record ObjectGrantStatus := {
  ost_Schema : string;
  ost_Kind : ObjectGrantKind;
  ost_Granted : Z;
  ost_Skipped : Z;
  ost_SkippedExamples : list string }.

Record ManagedSchemaGrant := {
  msg_Schema : string;
  msg_Role : string;
  msg_Privileges : list string;
  msg_GrantOptions : list string;
  msg_WithGrantOption : bool }.

Record DatabaseSpec := {
  ds_ClusterRef : string;
  ds_DatabaseName : string;
  ds_Owner : string;
  ds_Extensions : list ExtensionSpec;
  ds_Schemas : list SchemaSpec;
  ds_Grants : list DatabaseGrantSpec;
  ds_Settings : gmap string string;
  ds_PublicPrivileges : option PublicPrivilegesSpec }.

Record DatabaseStatus := {
  dst_Ready : bool;
  dst_DatabaseName : string;
  dst_ClusterUID : string;
  dst_InstalledExtensions : list string;
  dst_Extensions : list ExtensionStatus;
  dst_ManagedExtensionGrants : list ManagedExtensionGrant;
  dst_CreatedSchemas : list string;
  dst_ManagedGrants : list ManagedDatabaseGrant;
  dst_ManagedSchemaGrants : list ManagedSchemaGrant;
  dst_ManagedObjectGrants : list ManagedObjectGrant;
  dst_ManagedDefaultPrivileges : list ManagedDefaultPrivilege;
  dst_ObjectGrants : list ObjectGrantStatus;
  dst_RevokedPublicPrivileges : list PublicPrivilege;
  dst_ManagedSettings : list string;
  dst_Conditions : list Condition }.

Record Database := {
  db_Name : string;
  db_Namespace : string;
  db_UID : string;
  db_Generation : Z;
  db_Finalizers : list string;
  db_CreationTimestamp : Z;
  db_Deleting : bool;
  db_Spec : DatabaseSpec;
  db_Status : DatabaseStatus }.

(** [Database.PostgresName]. *)
Definition Database_PostgresName (d : Database) : string :=
  if decide (ds_DatabaseName (db_Spec d) = "") then db_Name d else ds_DatabaseName (db_Spec d).

(** Assignments to one field of the status. *)
Definition set_ManagedGrants (st : DatabaseStatus) (v : list ManagedDatabaseGrant) : DatabaseStatus :=
  {| dst_Ready := dst_Ready st; dst_DatabaseName := dst_DatabaseName st;
     dst_ClusterUID := dst_ClusterUID st; dst_InstalledExtensions := dst_InstalledExtensions st;
     dst_Extensions := dst_Extensions st;
     dst_ManagedExtensionGrants := dst_ManagedExtensionGrants st;
     dst_CreatedSchemas := dst_CreatedSchemas st; dst_ManagedGrants := v;
     dst_ManagedSchemaGrants := dst_ManagedSchemaGrants st;
     dst_ManagedObjectGrants := dst_ManagedObjectGrants st;
     dst_ManagedDefaultPrivileges := dst_ManagedDefaultPrivileges st;
     dst_ObjectGrants := dst_ObjectGrants st;
     dst_RevokedPublicPrivileges := dst_RevokedPublicPrivileges st;
     dst_ManagedSettings := dst_ManagedSettings st; dst_Conditions := dst_Conditions st |}.

Definition set_ManagedSchemaGrants (st : DatabaseStatus) (v : list ManagedSchemaGrant) : DatabaseStatus :=
  {| dst_Ready := dst_Ready st; dst_DatabaseName := dst_DatabaseName st;
     dst_ClusterUID := dst_ClusterUID st; dst_InstalledExtensions := dst_InstalledExtensions st;
     dst_Extensions := dst_Extensions st;
     dst_ManagedExtensionGrants := dst_ManagedExtensionGrants st;
     dst_CreatedSchemas := dst_CreatedSchemas st; dst_ManagedGrants := dst_ManagedGrants st;
     dst_ManagedSchemaGrants := v; dst_ManagedObjectGrants := dst_ManagedObjectGrants st;
     dst_ManagedDefaultPrivileges := dst_ManagedDefaultPrivileges st;
     dst_ObjectGrants := dst_ObjectGrants st;
     dst_RevokedPublicPrivileges := dst_RevokedPublicPrivileges st;
     dst_ManagedSettings := dst_ManagedSettings st; dst_Conditions := dst_Conditions st |}.

Definition set_RevokedPublicPrivileges (st : DatabaseStatus) (v : list PublicPrivilege) : DatabaseStatus :=
  {| dst_Ready := dst_Ready st; dst_DatabaseName := dst_DatabaseName st;
     dst_ClusterUID := dst_ClusterUID st; dst_InstalledExtensions := dst_InstalledExtensions st;
     dst_Extensions := dst_Extensions st;
     dst_ManagedExtensionGrants := dst_ManagedExtensionGrants st;
     dst_CreatedSchemas := dst_CreatedSchemas st; dst_ManagedGrants := dst_ManagedGrants st;
     dst_ManagedSchemaGrants := dst_ManagedSchemaGrants st;
     dst_ManagedObjectGrants := dst_ManagedObjectGrants st;
     dst_ManagedDefaultPrivileges := dst_ManagedDefaultPrivileges st;
     dst_ObjectGrants := dst_ObjectGrants st; dst_RevokedPublicPrivileges := v;
     dst_ManagedSettings := dst_ManagedSettings st; dst_Conditions := dst_Conditions st |}.

Definition set_ManagedSettings (st : DatabaseStatus) (v : list string) : DatabaseStatus :=
  {| dst_Ready := dst_Ready st; dst_DatabaseName := dst_DatabaseName st;
     dst_ClusterUID := dst_ClusterUID st; dst_InstalledExtensions := dst_InstalledExtensions st;
     dst_Extensions := dst_Extensions st;
     dst_ManagedExtensionGrants := dst_ManagedExtensionGrants st;
     dst_CreatedSchemas := dst_CreatedSchemas st; dst_ManagedGrants := dst_ManagedGrants st;
     dst_ManagedSchemaGrants := dst_ManagedSchemaGrants st;
     dst_ManagedObjectGrants := dst_ManagedObjectGrants st;
     dst_ManagedDefaultPrivileges := dst_ManagedDefaultPrivileges st;
     dst_ObjectGrants := dst_ObjectGrants st;
     dst_RevokedPublicPrivileges := dst_RevokedPublicPrivileges st; dst_ManagedSettings := v; dst_Conditions := dst_Conditions st |}.

Definition set_ManagedObjectGrants (st : DatabaseStatus) (v : list ManagedObjectGrant) : DatabaseStatus :=
  {| dst_Ready := dst_Ready st; dst_DatabaseName := dst_DatabaseName st;
     dst_ClusterUID := dst_ClusterUID st; dst_InstalledExtensions := dst_InstalledExtensions st;
     dst_Extensions := dst_Extensions st;
     dst_ManagedExtensionGrants := dst_ManagedExtensionGrants st;
     dst_CreatedSchemas := dst_CreatedSchemas st; dst_ManagedGrants := dst_ManagedGrants st;
     dst_ManagedSchemaGrants := dst_ManagedSchemaGrants st;
     dst_ManagedObjectGrants := v;
     dst_ManagedDefaultPrivileges := dst_ManagedDefaultPrivileges st;
     dst_ObjectGrants := dst_ObjectGrants st; dst_RevokedPublicPrivileges := dst_RevokedPublicPrivileges st;
     dst_ManagedSettings := dst_ManagedSettings st; dst_Conditions := dst_Conditions st |}.

Definition set_ManagedDefaultPrivileges (st : DatabaseStatus) (v : list ManagedDefaultPrivilege) : DatabaseStatus :=
  {| dst_Ready := dst_Ready st; dst_DatabaseName := dst_DatabaseName st;
     dst_ClusterUID := dst_ClusterUID st; dst_InstalledExtensions := dst_InstalledExtensions st;
     dst_Extensions := dst_Extensions st;
     dst_ManagedExtensionGrants := dst_ManagedExtensionGrants st;
     dst_CreatedSchemas := dst_CreatedSchemas st; dst_ManagedGrants := dst_ManagedGrants st;
     dst_ManagedSchemaGrants := dst_ManagedSchemaGrants st;
     dst_ManagedObjectGrants := dst_ManagedObjectGrants st;
     dst_ManagedDefaultPrivileges := v;
     dst_ObjectGrants := dst_ObjectGrants st; dst_RevokedPublicPrivileges := dst_RevokedPublicPrivileges st;
     dst_ManagedSettings := dst_ManagedSettings st; dst_Conditions := dst_Conditions st |}.

Definition set_ObjectGrants (st : DatabaseStatus) (v : list ObjectGrantStatus) : DatabaseStatus :=
  {| dst_Ready := dst_Ready st; dst_DatabaseName := dst_DatabaseName st;
     dst_ClusterUID := dst_ClusterUID st; dst_InstalledExtensions := dst_InstalledExtensions st;
     dst_Extensions := dst_Extensions st;
     dst_ManagedExtensionGrants := dst_ManagedExtensionGrants st;
     dst_CreatedSchemas := dst_CreatedSchemas st; dst_ManagedGrants := dst_ManagedGrants st;
     dst_ManagedSchemaGrants := dst_ManagedSchemaGrants st;
     dst_ManagedObjectGrants := dst_ManagedObjectGrants st;
     dst_ManagedDefaultPrivileges := dst_ManagedDefaultPrivileges st;
     dst_ObjectGrants := v; dst_RevokedPublicPrivileges := dst_RevokedPublicPrivileges st;
     dst_ManagedSettings := dst_ManagedSettings st; dst_Conditions := dst_Conditions st |}.
