(* ===== verification/RolePolicy.v ===== *)
(** * The security policy of Roles and Databases (src/internal/controller/role_policy.go)

    What Role and Database writers can obtain: ownership of existing objects by
    signed markers and status records, which memberships a role may have, and
    which attributes. The digests are parameters: [keyID] is the short hash of
    the signer's key and [sign] the encoded HMAC of a message under a key. *)

From Stdlib Require Import Ascii.
From S2P Require Import Prelude GoStrings GoStrconv RoleSql ApiTypes.

Definition reservedRolePrefix : string := "pgop_".
Definition bootstrapRoleName : string := "postgres".
Definition markerV2Prefix : string := "pgop:v2:".
Definition markerV1Prefix : string := "pgop:v1:".
Definition markerKindRole : string := "Role".
Definition markerKindDatabase : string := "Database".
Definition ReasonRolePolicyViolation : string := "RolePolicyViolation".
Definition ReasonReconcileError : string := "ReconcileError".
Definition problemSuperuser : string := "is a superuser".

(** ** Ownership *)

Record markerSigner := { ms_key : string; ms_namespace : string; ms_cluster : string }.

(** [postgres.ReachableRole]. *)
Record ReachableRole := {
  rr_Name : string;
  rr_Via : string;
  rr_Comment : string;
  rr_Superuser : bool;
  rr_CreateRole : bool;
  rr_Replication : bool;
  rr_BypassRLS : bool }.

Inductive ownership := ownedAbsent | owned | ownedRemark | adoptable | notOwned.

#[export] Instance ownership_eq_dec : EqDecision ownership.
Proof. solve_decision. Defined.

(** [base64.RawURLEncoding] of a truncated SHA-256, and of an HMAC-SHA256. *)
Class Digests := { hash_id : string → string; hmac_of : string → string → string }.

Section markers.
Context `{Digests}.

Definition keyID (s : markerSigner) : string := hash_id (ms_key s).

Definition marker (s : markerSigner) (kind name : string) : string :=
  markerV2Prefix +:+ kind +:+ "/" +:+ name +:+ ":" +:+ keyID s +:+ "."
    +:+ hmac_of (ms_key s) (kind +:+ "|" +:+ ms_namespace s +:+ "|" +:+ ms_cluster s +:+ "|" +:+ name).

Definition otherKeyMarker (s : markerSigner) (comment kind name : string) : bool :=
  match CutPrefix comment (markerV2Prefix +:+ kind +:+ "/" +:+ name +:+ ":") with
  | None => false
  | Some rest => match Cut rest "."%char with
                 | Some (id, _) => negb (bool_decide (id = keyID s))
                 | None => false
                 end
  end.

Definition verify (s : markerSigner) (comment kind name : string) : bool :=
  negb (bool_decide (ms_key s = "")) && bool_decide (comment = marker s kind name).

Definition legacyMarker (kind name : string) : string := markerV1Prefix +:+ kind +:+ "/" +:+ name.

Definition refreshableComment (s : markerSigner) (comment kind name : string) : bool :=
  bool_decide (comment = "") || bool_decide (comment = legacyMarker kind name) || otherKeyMarker s comment kind name.

Definition decideOwnership (s : markerSigner) (kind name : string) (exists_ : bool) (comment : string)
    (recorded allowlisted : bool) : ownership :=
  if negb exists_ then ownedAbsent
  else if recorded && verify s comment kind name then owned
  else if recorded && refreshableComment s comment kind name then ownedRemark
  else if allowlisted then adoptable
  else notOwned.
End markers.

(** [managedRoles]: the marker each role managed by a Role of the Cluster carries. *)
Abbreviation managedRoles := (gmap string string).

Definition manages (m : managedRoles) (r : ReachableRole) : bool :=
  match m !! rr_Name r with Some mk => bool_decide (rr_Comment r = mk) | None => false end.

(** ** Reserved names: [None] is the empty explanation *)

Section reserved.
Context `{UnicodePrint}.

Definition reservedRoleName (name : string) : option string :=
  if decide (name = bootstrapRoleName) then Some ("the PostgreSQL role " +:+ Quote name +:+ " is reserved")
  else if HasPrefix name reservedRolePrefix
  then Some ("role names starting with " +:+ Quote reservedRolePrefix +:+ " are reserved for the operator (" +:+ Quote name +:+ ")")
  else if HasPrefix name "pg_"
  then Some ("role names starting with " +:+ Quote "pg_" +:+ " are reserved by PostgreSQL (" +:+ Quote name +:+ ")")
  else None.

Definition reservedDatabaseNames : list string := ["postgres"; "template0"; "template1"].

Definition reservedDatabaseName (name : string) : option string :=
  if slices_Contains reservedDatabaseNames name then Some ("the PostgreSQL database " +:+ Quote name +:+ " is reserved")
  else None.
End reserved.

Definition systemSchemaName (name : string) : bool := HasPrefix name "pg_" || bool_decide (name = "information_schema").

(** ** Memberships *)

Definition membershipNameProblem (name : string) (p : policy) : option string :=
  if decide (name = bootstrapRoleName) then Some "is reserved (bootstrap superuser)"
  else if HasPrefix name reservedRolePrefix then Some "is reserved for the operator"
  else if slices_Contains ForbiddenPredefinedRoles name
  then Some "gives access to the server's files or programs and can never be granted"
  else if HasPrefix name "pg_" && negb (AllowsPredefinedRole p name)
  then Some "is a predefined role that the Cluster's spec.rolePolicy.allowedPredefinedRoles does not list"
  else None.

Definition attributeProblem (r : ReachableRole) (p : policy) : option string :=
  let denied :=
    (if rr_CreateRole r && negb (AllowsAttribute p RoleAttributeCreateRole) then ["CREATEROLE"] else [])
      ++ (if rr_Replication r && negb (AllowsAttribute p RoleAttributeReplication) then ["REPLICATION"] else [])
      ++ (if rr_BypassRLS r && negb (AllowsAttribute p RoleAttributeBypassRLS) then ["BYPASSRLS"] else []) in
  match denied with
  | [] => None
  | _ => Some ("has " +:+ Join denied ", " +:+ ", which the Cluster's spec.rolePolicy.allowedAttributes does not allow")
  end.

Definition problemNotManaged : string :=
  "is not managed by a Role of this Cluster and the Cluster's spec.rolePolicy.allowedExistingRoles does not list it".

Definition reachableRoleProblem (r : ReachableRole) (p : policy) (managed : managedRoles) : option string :=
  match membershipNameProblem (rr_Name r) p with
  | Some e => Some e
  | None =>
      if rr_Superuser r then Some problemSuperuser
      else match attributeProblem r p with
           | Some e => Some e
           | None =>
               if negb (HasPrefix (rr_Name r) "pg_") && negb (manages managed r) && negb (AllowsExistingRole p (rr_Name r))
               then Some problemNotManaged
               else None
           end
  end.

Definition builtinContainedRoles (name : string) : list string :=
  if decide (name = "pg_monitor") then ["pg_read_all_settings"; "pg_read_all_stats"; "pg_stat_scan_tables"] else [].

Definition containedPredefinedRole (reached : string) (closure : list ReachableRole) (p : policy) : bool :=
  existsb (λ r, AllowsPredefinedRole p (rr_Name r) && slices_Contains (builtinContainedRoles (rr_Name r)) reached) closure.

(** The loop of [membershipProblem] over the closure. *)
Fixpoint closure_problem (target : string) (all closure : list ReachableRole) (p : policy) (managed : managedRoles)
    : option string :=
  match closure with
  | [] => None
  | r :: rest =>
      if negb (bool_decide (rr_Name r = target)) && containedPredefinedRole (rr_Name r) all p
      then closure_problem target all rest p managed
      else match reachableRoleProblem r p managed with
           | None => closure_problem target all rest p managed
           | Some e => if decide (rr_Name r = target) then Some (target +:+ " " +:+ e)
                       else Some (target +:+ " is a member of " +:+ rr_Name r +:+ ", which " +:+ e)
           end
  end.

Definition membershipProblem (target : string) (closure : list ReachableRole) (p : policy) (managed : managedRoles)
    : option string :=
  match membershipNameProblem target p with
  | Some e => Some (target +:+ " " +:+ e)
  | None => closure_problem target closure closure p managed
  end.

(** The loop of [adoptionProblem]. *)
Fixpoint adoption_go (name : string) (all closure : list ReachableRole) (p : policy) (managed : managedRoles)
    : option string :=
  match closure with
  | [] => None
  | r :: rest =>
      if decide (rr_Via r = "") then
        if rr_Superuser r
        then Some ("pgop does not take over the existing PostgreSQL role " +:+ name +:+ ": it is a superuser")
        else adoption_go name all rest p managed
      else if containedPredefinedRole (rr_Name r) all p then adoption_go name all rest p managed
      else match reachableRoleProblem r p managed with
           | Some e => Some ("pgop does not take over the existing PostgreSQL role " +:+ name
                               +:+ ": it is a member of " +:+ rr_Name r +:+ ", which " +:+ e)
           | None => adoption_go name all rest p managed
           end
  end.

Definition adoptionProblem (name : string) (closure : list ReachableRole) (p : policy) (managed : managedRoles) : option string :=
  adoption_go name closure closure p managed.

(** ** Attributes *)

Definition deniedAttributes (s : RoleSpec) (p : policy) : list RoleAttribute :=
  filter (λ a, AllowsAttribute p a = false)
    ((if rs_CreateRole s then [RoleAttributeCreateRole] else [])
       ++ (if rs_Replication s then [RoleAttributeReplication] else [])
       ++ (if rs_BypassRLS s then [RoleAttributeBypassRLS] else [])).

Definition desiredRoleOptions (s : RoleSpec) (p : policy) : RoleOptions * error :=
  let opts (createRole replication bypassRLS : bool) :=
    {| ro_Login := IsLogin s; ro_CreateDB := rs_CreateDB s; ro_CreateRole := createRole; ro_Inherit := IsInherit s;
       ro_Replication := replication; ro_BypassRLS := bypassRLS; ro_ConnectionLimit := GetConnectionLimit s;
       ro_Password := ""; ro_KeepExistingPassword := false; ro_Comment := ""; ro_CreateOnly := false |} in
  match deniedAttributes s p with
  | [] => (opts (rs_CreateRole s) (rs_Replication s) (rs_BypassRLS s), None)
  | denied => (opts false false false, Some (CondErr ReasonRolePolicyViolation (Errorf
      "the Cluster's spec.rolePolicy.allowedAttributes does not allow %s" [Join denied ", "])))
  end.

(** ** Reassignment (role_reassign.go) *)

(** [postgres.ReassignTargetInfo]. *)
Record ReassignTargetInfo := { ri_Exists : bool; ri_Super : bool; ri_OldHasUsage : bool }.

Definition checkReassignTarget `{UnicodePrint} (old target : string) (info : ReassignTargetInfo) : error :=
  match reservedRoleName target with
  | Some reason => Some (Errorf "cannot reassign owned objects to %q: %s" [target; reason])
  | None =>
      if decide (target = old) then Some (Errorf "cannot reassign owned objects of %q to itself" [old])
      else if negb (ri_Exists info) then Some (Errorf "cannot reassign owned objects to %q: the role does not exist" [target])
      else if ri_Super info then Some (Errorf "cannot reassign owned objects to %q: it is a superuser" [target])
      else if negb (ri_OldHasUsage info)
      then Some (Errorf "cannot reassign owned objects to %q: %q is not a member of it" [target; old])
      else None
  end.

(** ** Lemmas *)

Lemma existsb_exists_elem {A} (f : A → bool) l : existsb f l = true ↔ ∃ x, x ∈ l ∧ f x = true.
Proof. rewrite existsb_exists. by setoid_rewrite <- list_elem_of_In. Qed.

(** A name that no role membership may have. *)
Definition name_refused (p : policy) (name : string) : Prop :=
  name = bootstrapRoleName ∨ HasPrefix name reservedRolePrefix = true ∨ name ∈ ForbiddenPredefinedRoles ∨
  HasPrefix name "pg_" = true ∧ AllowsPredefinedRole p name = false.

Lemma membershipNameProblem_None name p : membershipNameProblem name p = None ↔ ¬ name_refused p name.
Proof.
  unfold membershipNameProblem, name_refused. case_decide; [naive_solver|].
  destruct (HasPrefix name reservedRolePrefix); [naive_solver|].
  unfold slices_Contains. case_bool_decide; [naive_solver|].
  destruct (HasPrefix name "pg_"), (AllowsPredefinedRole p name); naive_solver.
Qed.

(** The privileged attributes of [r] stay within the policy. *)
Definition attributes_allowed (p : policy) (r : ReachableRole) : Prop :=
  (rr_CreateRole r = true → AllowsAttribute p RoleAttributeCreateRole = true) ∧
  (rr_Replication r = true → AllowsAttribute p RoleAttributeReplication = true) ∧
  (rr_BypassRLS r = true → AllowsAttribute p RoleAttributeBypassRLS = true).

Lemma attributeProblem_None r p : attributeProblem r p = None ↔ attributes_allowed p r.
Proof.
  unfold attributeProblem, attributes_allowed.
  destruct (rr_CreateRole r), (AllowsAttribute p RoleAttributeCreateRole), (rr_Replication r),
    (AllowsAttribute p RoleAttributeReplication), (rr_BypassRLS r), (AllowsAttribute p RoleAttributeBypassRLS);
    simpl; naive_solver.
Qed.

(** A role a member may be able to act as. *)
Definition reachable_ok (p : policy) (managed : managedRoles) (r : ReachableRole) : Prop :=
  ¬ name_refused p (rr_Name r) ∧ rr_Superuser r = false ∧ attributes_allowed p r ∧
  (HasPrefix (rr_Name r) "pg_" = true ∨ manages managed r = true ∨ AllowsExistingRole p (rr_Name r) = true).

Lemma reachableRoleProblem_None r p managed : reachableRoleProblem r p managed = None ↔ reachable_ok p managed r.
Proof.
  unfold reachableRoleProblem, reachable_ok. rewrite <- membershipNameProblem_None, <- attributeProblem_None.
  destruct (membershipNameProblem _ _); [naive_solver|]. destruct (rr_Superuser r); [naive_solver|].
  destruct (attributeProblem r p); [naive_solver|].
  destruct (HasPrefix _ _), (manages managed r), (AllowsExistingRole p _); naive_solver.
Qed.

(** A predefined role PostgreSQL places inside one the policy allows. *)
Definition contained (p : policy) (closure : list ReachableRole) (name : string) : Prop :=
  ∃ r, r ∈ closure ∧ AllowsPredefinedRole p (rr_Name r) = true ∧ name ∈ builtinContainedRoles (rr_Name r).

Lemma containedPredefinedRole_true name closure p : containedPredefinedRole name closure p = true ↔ contained p closure name.
Proof.
  unfold containedPredefinedRole, contained. rewrite existsb_exists_elem.
  split; intros (r & Hr & H); exists r; rewrite andb_true_iff, slices_Contains_true in *; tauto.
Qed.

Lemma closure_problem_None target all closure p managed :
  closure_problem target all closure p managed = None ↔
    Forall (λ r, rr_Name r ≠ target ∧ contained p all (rr_Name r) ∨ reachable_ok p managed r) closure.
Proof.
  induction closure as [|r closure IH]; simpl; [by split|]. rewrite Forall_cons, <- IH, <- reachableRoleProblem_None.
  rewrite <- containedPredefinedRole_true.
  destruct (containedPredefinedRole _ _ _); case_bool_decide; simpl;
    destruct (reachableRoleProblem r p managed); repeat case_decide; naive_solver.
Qed.

Lemma deniedAttributes_elem s p a :
  a ∈ deniedAttributes s p ↔ AllowsAttribute p a = false ∧
    (rs_CreateRole s = true ∧ a = RoleAttributeCreateRole ∨ rs_Replication s = true ∧ a = RoleAttributeReplication ∨
     rs_BypassRLS s = true ∧ a = RoleAttributeBypassRLS).
Proof.
  unfold deniedAttributes. rewrite list_elem_of_filter, !elem_of_app.
  destruct (rs_CreateRole s), (rs_Replication s), (rs_BypassRLS s);
    rewrite ?list_elem_of_singleton, ?elem_of_nil; naive_solver.
Qed.

(** ** Properties *)

(** Membership in a role is accepted exactly when its own name is not
    refused and every role it reaches is one the policy lets a member act as: not
    a superuser, no privileged attribute beyond the policy, not postgres, a pgop_*
    or a forbidden predefined role, predefined roles only when listed, and any
    other role only when a Role of the Cluster manages it (marker included) or the
    policy lists it; the only other roles reached are those PostgreSQL places
    inside an allowed predefined role. *)
Theorem membershipProblem_safe target closure p managed :
  membershipProblem target closure p managed = None ↔
    ¬ name_refused p target ∧
    ∀ r, r ∈ closure → rr_Name r ≠ target ∧ contained p closure (rr_Name r) ∨ reachable_ok p managed r.
Proof.
  unfold membershipProblem. rewrite <- membershipNameProblem_None, <- Forall_forall, <- closure_problem_None.
  destruct (membershipNameProblem target p); naive_solver.
Qed.

(** The comment of an object never makes it pgop's: an existing object is
    treated as owned only when the resource's status records it, and taken over
    only when the policy lists it; a marker that names the current key without
    verifying is never accepted or refreshed; and an object marked by pgop is
    recognised by the next decision. *)
Theorem decideOwnership_needs_record `{Digests} s kind name comment recorded allowlisted :
  let d := decideOwnership s kind name true comment recorded allowlisted in
  (d = owned ∨ d = ownedRemark → recorded = true) ∧
  (d = adoptable → allowlisted = true) ∧
  (∀ mac, comment = markerV2Prefix +:+ kind +:+ "/" +:+ name +:+ ":" +:+ keyID s +:+ "." +:+ mac →
    ContainsByte (keyID s) "."%char = false → verify s comment kind name = false → d = adoptable ∨ d = notOwned) ∧
  (ms_key s ≠ "" → decideOwnership s kind name true (marker s kind name) true allowlisted = owned).
Proof.
  intros d. unfold d, decideOwnership. simpl. split_and!.
  - destruct recorded; [done|]. destruct allowlisted; naive_solver.
  - destruct allowlisted; [done|]. repeat case_match; naive_solver.
  - intros mac Hc Hdot Hv. rewrite Hv, andb_false_r.
    assert (refreshableComment s comment kind name = false) as ->.
    { assert (otherKeyMarker s comment kind name = false) as Ho.
      { unfold otherKeyMarker.
        rewrite (proj2 (CutPrefix_Some comment _ (keyID s +:+ "." +:+ mac))) by (by rewrite Hc, !app_assoc_s).
        change ("." +:+ mac) with (String "."%char mac). rewrite Cut_app by done. by rewrite bool_decide_true. }
      unfold refreshableComment. rewrite Ho, !bool_decide_false; [done|by rewrite Hc..]. }
    rewrite andb_false_r. destruct allowlisted; auto.
  - intros Hk. unfold verify. by rewrite bool_decide_false, bool_decide_true by done.
Qed.

(** The attributes a role gets never exceed the policy, and are all or
    nothing: without a violation they are exactly the requested ones, each allowed
    by the policy; with one the role gets none of CREATEROLE, REPLICATION and
    BYPASSRLS and RolePolicyViolation is reported. *)
Theorem desiredRoleOptions_within_policy s p :
  let '(o, err) := desiredRoleOptions s p in
  (ro_CreateRole o = true → AllowsAttribute p RoleAttributeCreateRole = true) ∧
  (ro_Replication o = true → AllowsAttribute p RoleAttributeReplication = true) ∧
  (ro_BypassRLS o = true → AllowsAttribute p RoleAttributeBypassRLS = true) ∧
  match err with
  | None => ro_CreateRole o = rs_CreateRole s ∧ ro_Replication o = rs_Replication s ∧ ro_BypassRLS o = rs_BypassRLS s
  | Some e => cond_reason e = Some ReasonRolePolicyViolation ∧ deniedAttributes s p ≠ [] ∧
              ro_CreateRole o = false ∧ ro_Replication o = false ∧ ro_BypassRLS o = false
  end.
Proof.
  unfold desiredRoleOptions. destruct (deniedAttributes s p) as [|a l] eqn:E; [|by simpl].
  assert (∀ a, a ∉ deniedAttributes s p) as Hnone by (rewrite E; apply not_elem_of_nil).
  setoid_rewrite deniedAttributes_elem in Hnone. simpl.
  split_and!; try done; intros Hr; apply not_false_iff_true; intros Hf;
    [apply (Hnone RoleAttributeCreateRole)|apply (Hnone RoleAttributeReplication)|apply (Hnone RoleAttributeBypassRLS)]; auto 6.
Qed.
