(* ===== verification/Objects.v ===== *)
(** * Statements on schema objects and before DROP ROLE (src/internal/postgres/objects.go,
    role_cleanup.go, role_reassign.go)

    What the client sends for an object or a role, over an abstract connection:
    catalog queries answer with any value, statements are the text the server
    receives. *)

From Stdlib Require Import Ascii.
From S2P Require Import Prelude GoStrings GoStrconv Quoting Privileges RoleSql ApiTypes RolePolicy.

(** [error.Error], for the messages that embed another error. *)
Class ErrorText := error_text : gerr → string.

(** [errors.Is] for a sentinel error: sentinels are told apart by their text. *)
Fixpoint errors_Is (text : string) (e : gerr) : bool :=
  match e with
  | Errorf f _ => bool_decide (f = text)
  | Wrapf _ _ e | CondErr _ e => errors_Is text e
  | JoinErr es => existsb (errors_Is text) es
  | PqErr _ _ => false
  end.

Definition errObjectGone : string := "the object no longer exists".
Definition ErrObjectGone : gerr := Errorf errObjectGone [].

(** [postgres.SchemaObject]. *)
Record SchemaObject := {
  so_OID : Z;
  so_Identity : string;
  so_Name : string;
  so_Owner : string;
  so_OwnerOID : Z;
  so_OwnerSuperuser : bool;
  so_OwnerIsSessionUser : bool;
  so_Extension : string;
  so_SecurityDefiner : bool;
  so_Language : string;
  so_SubKind : string;
  so_ACL : list ACLItem }.

Record SchemaObjectSelector := { sel_All : bool; sel_Names : list string; sel_OIDs : list Z; sel_Limit : Z }.

Record DatabaseRef := { dbr_Name : string; dbr_AllowConns : bool }.

Definition sel_limit (sel : SchemaObjectSelector) : Z :=
  if bool_decide (sel_Limit sel ≤ 0)%Z then Z.shiftl 1 30 else sel_Limit sel.

(** A connection: statements, a transaction, and the catalog queries these
    functions run ([resolveObjectQueries], [resolveOIDQueries], [schemaObjectQueries],
    the lists of databases and schemas with privileges of a role, the reassignment
    target). A resolved object is its OID and its rendering. *)
Record Connection (W : Type) := {
  cn_exec : string → M W error;
  cn_begin : M W error;
  cn_tx_exec : string → M W error;
  cn_rollback : M W ();
  cn_commit : M W error;
  cn_object_by_name : string → string → string → M W (result (option (Z * string)));
  cn_object_by_oid : string → Z → M W (result (option (Z * string)));
  cn_list_objects : string → string → bool → list string → Z → list Z → M W (result (list SchemaObject));
  cn_granted_databases : string → M W (result (list string));
  cn_granted_schemas : string → M W (result (list string));
  cn_reassign_target : string → string → M W (result (option (bool * bool)));
  cn_owned_databases : string → M W (result (list string)) }.
Arguments cn_exec {W}. Arguments cn_begin {W}. Arguments cn_tx_exec {W}. Arguments cn_rollback {W}. Arguments cn_commit {W}.
Arguments cn_object_by_name {W}. Arguments cn_object_by_oid {W}. Arguments cn_list_objects {W}.
Arguments cn_granted_databases {W}. Arguments cn_granted_schemas {W}. Arguments cn_reassign_target {W}.
Arguments cn_owned_databases {W}.

Section client.
Context {W : Type} (db : Connection W).

Definition wrap_error (fmt : string) (args : list string) (e : error) : error := Wrapf fmt args <$> e.

(** ** Schema objects *)

Definition ListSchemaObjects (schema kind : string) (sel : SchemaObjectSelector) : M W (result (list SchemaObject)) :=
  match SchemaObjectPrivileges kind with
  | None => mret (inr (Errorf "unsupported object kind %q" [kind]))
  | Some _ =>
      cn_list_objects db schema kind (sel_All sel) (sel_Names sel) (sel_limit sel)
        (if bool_decide (kind = SchemaFunction ∨ kind = SchemaProcedure) then sel_OIDs sel else [])
  end.

(** The rendering and the OID of the object, by OID when one is given. *)
Definition resolveSchemaObject (kind schema identity : string) (byOID : Z) : M W (result (option (Z * string))) :=
  match SchemaObjectPrivileges kind with
  | None => mret (inr (Errorf "unsupported object kind %q" [kind]))
  | Some _ =>
      let finish (r : result (option (Z * string))) :=
        match r with
        | inr e => inr (Wrapf "failed to resolve %s %s: %w" [ToLower kind; identity] e)
        | inl o => inl o
        end in
      if decide (byOID ≠ 0%Z) then r ← cn_object_by_oid db kind byOID; mret (finish r)
      else if decide (identity = "") then mret (inl None)
      else r ← cn_object_by_name db kind identity schema; mret (finish r)
  end.

Definition ResolveSchemaObject (kind schema identity : string) (oid : Z) : M W (result (option string)) :=
  r ← resolveSchemaObject kind schema identity oid;
  mret (match r with inr e => inr e | inl o => inl (snd <$> o) end).

Definition no_mode : RevokeMode := {| GrantOptionOnly := false; Cascade := false |}.

Definition GrantOnSchemaObject (kind schema identity : string) (oid : Z) (grantee : string) (privileges : list string)
    (withGrantOption : bool) : M W error :=
  r ← resolveSchemaObject kind schema identity 0;
  match r with
  | inr e => mret (Some e)
  | inl found =>
      let gone := mret (Some (Wrapf "%s %s: %w" [ToLower kind; identity] ErrObjectGone)) in
      match found with
      | None => gone
      | Some (resolved, canonical) =>
          if bool_decide (oid ≠ 0%Z) && bool_decide (resolved ≠ oid) then gone
          else match buildSchemaObjectPrivilegesQuery true kind canonical grantee privileges withGrantOption no_mode with
               | inr e => mret (Some e)
               | inl query =>
                   e ← cn_exec db query;
                   mret (wrap_error "failed to grant privileges on %s %s to %q: %w" [ToLower kind; canonical; grantee] e)
               end
      end
  end.

Definition RevokeOnSchemaObject (kind schema identity : string) (oid : Z) (grantee : string) (privileges : list string)
    (mode : RevokeMode) : M W error :=
  r ← ResolveSchemaObject kind schema identity oid;
  match r with
  | inr e => mret (Some e)
  | inl None => mret None
  | inl (Some canonical) =>
      match buildSchemaObjectPrivilegesQuery false kind canonical grantee privileges false mode with
      | inr e => mret (Some e)
      | inl query =>
          e ← cn_exec db query;
          mret (wrap_error "failed to revoke privileges on %s %s from %q: %w" [ToLower kind; canonical; grantee] e)
      end
  end.

(** ** Default privileges *)

Definition DefaultPrivilegesTarget_String `{UnicodePrint} (t : DefaultPrivilegesTarget) : string :=
  "default privileges for role " +:+ Quote (dt_ForRole t) +:+ " in schema " +:+ Quote (dt_Schema t)
    +:+ " on " +:+ ToLower (dt_Kind t).

Definition GrantDefaultPrivileges `{UnicodePrint} (t : DefaultPrivilegesTarget) (grantee : string) (privileges : list string)
    (withGrantOption : bool) : M W error :=
  match buildDefaultPrivilegesQuery true t grantee privileges withGrantOption no_mode with
  | inr e => mret (Some e)
  | inl query =>
      e ← cn_exec db query;
      mret (wrap_error "failed to grant %s to %q: %w" [DefaultPrivilegesTarget_String t; grantee] e)
  end.

Definition RevokeDefaultPrivileges `{UnicodePrint} (t : DefaultPrivilegesTarget) (grantee : string) (privileges : list string)
    (mode : RevokeMode) : M W error :=
  match buildDefaultPrivilegesQuery false t grantee privileges false mode with
  | inr e => mret (Some e)
  | inl query =>
      e ← cn_exec db query;
      mret (wrap_error "failed to revoke %s from %q: %w" [DefaultPrivilegesTarget_String t; grantee] e)
  end.

(** ** Before DROP ROLE (role_cleanup.go) *)

Definition cascade_mode : RevokeMode := {| GrantOptionOnly := false; Cascade := true |}.

Definition revokeAllOnDatabase_query (database role : string) : string :=
  buildRevokeQuery [PrivilegeAll] ("DATABASE " +:+ quoteIdent database) (quoteIdent role) cascade_mode.
Definition revokeAllOnSchema_query (schema role : string) : string :=
  buildRevokeQuery [PrivilegeAll] ("SCHEMA " +:+ quoteIdent schema) (quoteIdent role) cascade_mode.

(** One statement per name; the first error stops. *)
Fixpoint exec_each (query : string → string) (err : string → gerr → gerr) (names : list string) : M W error :=
  match names with
  | [] => mret None
  | n :: ns =>
      e ← cn_exec db (query n);
      match e with
      | Some e => mret (Some (err n e))
      | None => exec_each query err ns
      end
  end.

Definition RevokeAllDatabasePrivileges (role : string) : M W error :=
  r ← cn_granted_databases db role;
  match r with
  | inr e => mret (Some (Wrapf "failed to list database privileges of %q: %w" [role] e))
  | inl dbs => exec_each (λ d, revokeAllOnDatabase_query d role)
                 (λ d, Wrapf "failed to revoke privileges on database %q from %q: %w" [d; role]) dbs
  end.

Definition RevokeAllSchemaPrivileges (role : string) : M W error :=
  r ← cn_granted_schemas db role;
  match r with
  | inr e => mret (Some (Wrapf "failed to list schema privileges of %q: %w" [role] e))
  | inl schemas => exec_each (λ s, revokeAllOnSchema_query s role)
                     (λ s, Wrapf "failed to revoke privileges on schema %q from %q: %w" [s; role]) schemas
  end.

Definition maxDetailLength : nat := 1024.

(** The message of a DROP ROLE that failed because of dependents; [detail] is
    PostgreSQL's list of them. *)
Definition dependentObjectsError `{UnicodePrint} (role detail : string) (err : gerr) : error :=
  if decide (pq_code err = Some "2BP01") then
    let detail := if bool_decide (maxDetailLength < String.length detail)%nat then stake maxDetailLength detail +:+ "..." else detail in
    Some (Wrapf "role %q cannot be dropped because objects or privileges depend on it: %s" [role; detail] err)
  else None.

(** ** Reassigning owned objects (role_reassign.go) *)

Definition RoleReassignTarget (old target : string) : M W (result ReassignTargetInfo) :=
  r ← cn_reassign_target db old target;
  mret (match r with
        | inr e => inr (Wrapf "failed to inspect role %q: %w" [target] e)
        | inl None => inl {| ri_Exists := false; ri_Super := false; ri_OldHasUsage := false |}
        | inl (Some (super, usage)) => inl {| ri_Exists := true; ri_Super := super; ri_OldHasUsage := usage |}
        end).

Definition DatabasesOwnedBy (role : string) : M W (result (list string)) :=
  r ← cn_owned_databases db role;
  mret (match r with
        | inr e => inr (Wrapf "failed to list databases owned by %q: %w" [role] e)
        | inl l => inl l
        end).

Fixpoint reassign_statements (old target : string) (queries : list string) : M W error :=
  match queries with
  | [] => mret None
  | q :: qs =>
      e ← cn_tx_exec db q;
      match e with
      | Some e => cn_rollback db;; mret (Some (Wrapf "failed to reassign objects owned by %q to %q: %w" [old; target] e))
      | None => reassign_statements old target qs
      end
  end.

Definition ReassignOwned (old target : string) : M W error :=
  e ← cn_begin db;
  match e with
  | Some e => mret (Some (Wrapf "failed to begin transaction: %w" [] e))
  | None =>
      e ← reassign_statements old target (buildReassignOwnedQueries old target);
      match e with
      | Some e => mret (Some e)
      | None =>
          e ← cn_commit db;
          mret (wrap_error "failed to commit reassignment: %w" [] e)
      end
  end.
End client.
