(* ===== verification/Settings.v ===== *)
(** * Database and role settings (src/internal/controller/settings.go, role_settings.go)

    The tracked set/reset loop behind ALTER DATABASE ... SET and ALTER ROLE ...
    [IN DATABASE] SET. The server's view of a parameter, and the statements, are
    operations over a world [W]. *)

From Stdlib Require Import Ascii.
From S2P Require Import Prelude GoStrings GoStrconv Parameters ApiTypes RolePolicy Trace.

Definition pgContextUser : string := "user".
Definition pgContextSuperuser : string := "superuser".
Definition ReasonSettingNotAllowed : string := "SettingNotAllowed".
Definition ReasonReservedName : string := "ReservedName".

(** [ParameterContext]: the context, [None] for a parameter the server does not know. *)
Abbreviation context_result := (result (option string)).

(** ** Normalization *)

Fixpoint normalize_go (field : string) (settings : gmap string string) (keys : list string) (out : gmap string string)
    : result (gmap string string) :=
  match keys with
  | [] => inl out
  | k :: ks =>
      match NormalizeParameterName k with
      | inr e => inr (Wrapf "%s: %w" [field] e)
      | inl name =>
          match out !! name with
          | Some _ => inr (Errorf "%s: parameter %q is listed more than once (names are case-insensitive)" [field; name])
          | None => normalize_go field settings ks (<[name := default "" (settings !! k)]> out)
          end
      end
  end.

Definition normalizeSettings (field : string) (settings : gmap string string) : result (gmap string string) :=
  normalize_go field settings (sorted_keys settings) ∅.

(** ** The policy *)

(** What [settingAllowed] answers once the server's view is known; [None] is the
    empty explanation. *)
Definition settingVerdict `{UnicodePrint} (p : policy) (name : string) (found : option string) : option string :=
  match found with
  | Some ctx =>
      if decide (ctx = pgContextUser) then None
      else Some ("has context " +:+ Quote ctx +:+ " (only " +:+ Quote pgContextUser +:+ " parameters may be set)")
  | None =>
      match Cut name "."%char with
      | None => None
      | Some (prefix, _) =>
          if slices_Contains DeniedSettingPrefixes prefix
          then Some ("is a custom parameter in the " +:+ Quote prefix +:+ " namespace, which pgop never sets "
                      +:+ "(its extension's settings run code, read server files or are superuser-only)")
          else if AllowsSettingPrefix p prefix then None
          else Some ("is a custom parameter the server does not know; its namespace " +:+ Quote prefix
                       +:+ " is not listed in the Cluster's spec.rolePolicy.allowedSettingPrefixes")
      end
  end.

Section settings.
Context `{UnicodePrint} {W : Type} (ParameterContext : string → M W context_result) (p : policy).

Definition settingAllowed (name : string) : M W (result (option string)) :=
  if DeniedParameter name then mret (inl (Some "is on pgop's denylist"))
  else
    r ← ParameterContext name;
    mret (match r with
          | inr e => inr e
          | inl found => inl (settingVerdict p name found)
          end).

(** ** Setting and resetting *)

Record settingOps := { op_set : string → string → M W error; op_reset : string → M W error }.

(** The first loop: the allowed settings and the refused ones. *)
Fixpoint allowedSettings (desired : gmap string string) (names : list string)
    : M W (result (gmap string string * list string)) :=
  match names with
  | [] => mret (inl (∅, []))
  | name :: rest =>
      r ← settingAllowed name;
      match r with
      | inr e => mret (inr e)
      | inl reason =>
          rest ← allowedSettings desired rest;
          mret (match rest with
                | inr e => inr e
                | inl (allowed, refused) =>
                    match reason with
                    | Some why => inl (allowed, (name +:+ " " +:+ why) :: refused)
                    | None => inl (<[name := default "" (desired !! name)]> allowed, refused)
                    end
                end)
      end
  end.

Fixpoint setAll (ops : settingOps) (allowed : gmap string string) (names : list string) (tracked : gset string)
    : M W (gset string * error) :=
  match names with
  | [] => mret (tracked, None)
  | name :: rest =>
      e ← op_set ops name (default "" (allowed !! name));
      match e with
      | Some err => mret (tracked, Some err)
      | None => setAll ops allowed rest ({[name]} ∪ tracked)
      end
  end.

Fixpoint resetAll (ops : settingOps) (allowed : gmap string string) (managed : list string) (tracked : gset string)
    : M W (gset string * error) :=
  match managed with
  | [] => mret (tracked, None)
  | name :: rest =>
      match allowed !! name with
      | Some _ => resetAll ops allowed rest tracked
      | None =>
          e ← op_reset ops name;
          match e with
          | Some err => mret (tracked, Some err)
          | None => resetAll ops allowed rest (tracked ∖ {[name]})
          end
      end
  end.

(** [sortedKeys] of a set of names. *)
Definition sortedKeys (m : gset string) : list string := slices_Sort (elements m).

Definition applySettings (desired : gmap string string) (managed : list string) (ops : settingOps)
    : M W (list string * list string * error) :=
  r ← allowedSettings desired (sorted_keys desired);
  match r with
  | inr e => mret (managed, [], Some e)
  | inl (allowed, refused) =>
      '(tracked, err) ← setAll ops allowed (sorted_keys allowed) (list_to_set managed);
      match err with
      | Some e => mret (sortedKeys tracked, refused, Some e)
      | None =>
          '(tracked, err) ← resetAll ops allowed managed tracked;
          mret (sortedKeys tracked, refused, err)
      end
  end.
End settings.
Arguments op_set {W}. Arguments op_reset {W}.

(** ** Role settings *)

Definition maxIdentifierBytes : nat := 63.

(** The loop of [desiredRoleDatabaseSettings]: the settings per database and the
    names that are too long. *)
Fixpoint databaseSettings_go (entries : list RoleDatabaseSettings) (out : gmap string (gmap string string))
    (tooLong : list string) : result (gmap string (gmap string string) * list string) :=
  match entries with
  | [] => inl (out, tooLong)
  | e :: es =>
      if decide (rds_Database e = "") then inr (Errorf "databaseSettings: database must not be empty" [])
      else if bool_decide (maxIdentifierBytes < String.length (rds_Database e))%nat
      then databaseSettings_go es out (tooLong ++ [rds_Database e])
      else match out !! rds_Database e with
           | Some _ => inr (Errorf "databaseSettings: database %q is listed more than once" [rds_Database e])
           | None =>
               match normalizeSettings ("databaseSettings[" +:+ rds_Database e +:+ "].settings") (rds_Settings e) with
               | inr err => inr err
               | inl s => databaseSettings_go es (<[rds_Database e := s]> out) tooLong
               end
           end
  end.

Definition desiredRoleDatabaseSettings (entries : list RoleDatabaseSettings)
    : result (gmap string (gmap string string) * error) :=
  match databaseSettings_go entries ∅ [] with
  | inr e => inr e
  | inl (out, []) => inl (out, None)
  | inl (out, tooLong) => inl (out, Some (Errorf
      "databaseSettings: database names longer than %d bytes cannot exist in PostgreSQL (they are truncated); these entries are ignored: %s"
      (Itoa 63 :: tooLong)))
  end.

Definition clear_settings (st : RoleStatus) : RoleStatus :=
  {| rst_Conditions := rst_Conditions st; rst_Ready := rst_Ready st; rst_RoleName := rst_RoleName st; rst_ClusterUID := rst_ClusterUID st;
     rst_SecretName := rst_SecretName st; rst_PasswordRotatedAt := rst_PasswordRotatedAt st;
     rst_PasswordRotationRequest := rst_PasswordRotationRequest st; rst_PasswordHash := rst_PasswordHash st;
     rst_ManagedMemberships := rst_ManagedMemberships st;
     rst_ManagedParameterGrants := rst_ManagedParameterGrants st;
     rst_ManagedSettings := []; rst_ManagedDatabaseSettings := [] |}.

Definition clearStaleRoleSettings (st : RoleStatus) (pgName clusterUID : string) : RoleStatus :=
  if bool_decide (rst_RoleName st = pgName) && bool_decide (rst_ClusterUID st = clusterUID) then st else clear_settings st.

Record roleSettingsClient (W : Type) := {
  rsc_ParameterContext : string → M W context_result;
  rsc_DatabaseExists : string → M W (result bool);
  rsc_SetRoleParameter : string → string → string → string → M W error;
  rsc_ResetRoleParameter : string → string → string → M W error }.
Arguments rsc_ParameterContext {W}. Arguments rsc_DatabaseExists {W}.
Arguments rsc_SetRoleParameter {W}. Arguments rsc_ResetRoleParameter {W}.

Section role_settings.
Context `{UnicodePrint} {W : Type} (pg : roleSettingsClient W) (p : policy).

Definition roleSettingOps (role database : string) : @settingOps W :=
  {| op_set := rsc_SetRoleParameter pg role database; op_reset := rsc_ResetRoleParameter pg role database |}.

(** What the loop over the databases accumulates. *)
Record databases_result := {
  dr_after : gmap string (list string);
  dr_pending : list string;
  dr_errs : list error;
  dr_refused : list string }.

Definition dr_empty : databases_result := {| dr_after := ∅; dr_pending := []; dr_errs := []; dr_refused := [] |}.

(** One database; the results of the remaining ones are added by the loop. *)
Definition reconcileDatabase (pgName db : string) (want : gmap string string) (managed : list string) : M W databases_result :=
  if decide (want = ∅ ∧ managed = []) then mret dr_empty
  else
    r ← rsc_DatabaseExists pg db;
    match r with
    | inr e => mret {| dr_after := {[db := managed]}; dr_pending := []; dr_errs := [Some e]; dr_refused := [] |}
    | inl false =>
        mret {| dr_after := ∅; dr_pending := if decide (want = ∅) then [] else [db]; dr_errs := []; dr_refused := [] |}
    | inl true =>
        '(after, refused, err) ← applySettings (rsc_ParameterContext pg) p want managed (roleSettingOps pgName db);
        mret {| dr_after := {[db := after]}; dr_pending := []; dr_errs := [err];
                dr_refused := (λ s, "databaseSettings[" +:+ db +:+ "]: " +:+ s) <$> refused |}
    end.

Fixpoint reconcileDatabases (pgName : string) (desiredDB : gmap string (gmap string string))
    (managedDB : gmap string (list string)) (databases : list string) : M W databases_result :=
  match databases with
  | [] => mret dr_empty
  | db :: dbs =>
      a ← reconcileDatabase pgName db (default ∅ (desiredDB !! db)) (default [] (managedDB !! db));
      b ← reconcileDatabases pgName desiredDB managedDB dbs;
      mret {| dr_after := dr_after a ∪ dr_after b; dr_pending := dr_pending a ++ dr_pending b;
              dr_errs := dr_errs a ++ dr_errs b; dr_refused := dr_refused a ++ dr_refused b |}
  end.

Definition managed_databases (st : RoleStatus) : gmap string (list string) :=
  foldl (λ m e, <[mds_Database e := mds_Settings e]> m) ∅ (rst_ManagedDatabaseSettings st).

(** The new settings ledger of the status. *)
Definition databases_ledger (after : gmap string (list string)) : list ManagedRoleDatabaseSettings :=
  (λ db, {| mds_Database := db; mds_Settings := default [] (after !! db) |}) <$>
    filter (λ db, default [] (after !! db) ≠ []) (sorted_keys after).

Definition with_settings (st : RoleStatus) (settings : list string) (dbs : list ManagedRoleDatabaseSettings) : RoleStatus :=
  {| rst_Conditions := rst_Conditions st; rst_Ready := rst_Ready st; rst_RoleName := rst_RoleName st; rst_ClusterUID := rst_ClusterUID st;
     rst_SecretName := rst_SecretName st; rst_PasswordRotatedAt := rst_PasswordRotatedAt st;
     rst_PasswordRotationRequest := rst_PasswordRotationRequest st; rst_PasswordHash := rst_PasswordHash st;
     rst_ManagedMemberships := rst_ManagedMemberships st;
     rst_ManagedParameterGrants := rst_ManagedParameterGrants st;
     rst_ManagedSettings := settings; rst_ManagedDatabaseSettings := dbs |}.

Definition reconcileRoleSettings (spec : RoleSpec) (st : RoleStatus) (pgName : string)
    : M W (list string * error * RoleStatus) :=
  match reservedRoleName pgName with
  | Some reason => mret ([], Some (CondErr ReasonReservedName (Errorf reason [])), st)
  | None =>
  match normalizeSettings "settings" (rs_Settings spec) with
  | inr e => mret ([], Some e, st)
  | inl desired =>
  match desiredRoleDatabaseSettings (rs_DatabaseSettings spec) with
  | inr e => mret ([], Some e, st)
  | inl (desiredDB, invalid) =>
      '(settings, refused1, errs1) ←
        (if decide (desired = ∅ ∧ rst_ManagedSettings st = []) then mret (rst_ManagedSettings st, [], [])
         else
           '(after, r, err) ← applySettings (rsc_ParameterContext pg) p desired (rst_ManagedSettings st) (roleSettingOps pgName "");
           mret (after, (String.append "settings: ") <$> r, [err]));
      let managedDB := managed_databases st in
      let databases := slices_Sort (sorted_keys desiredDB ++
        filter (λ db, desiredDB !! db = None) (map_to_list managedDB).*1) in
      res ← reconcileDatabases pgName desiredDB managedDB databases;
      let refused := refused1 ++ dr_refused res in
      let errs := invalid :: errs1 ++ dr_errs res ++
        (match refused with
         | [] => []
         | _ => [Some (CondErr ReasonSettingNotAllowed (Errorf "settings not allowed: %s" [Join refused "; "]))]
         end) in
      mret (dr_pending res, errors_Join errs, with_settings st settings (databases_ledger (dr_after res)))
  end
  end
  end.
End role_settings.

(** ** Traces *)

Inductive setting_event :=
  | EvContext (name : string) (r : context_result)
  | EvSet (name value : string) (e : error)
  | EvReset (name : string) (e : error).

Section settings_trace.
Context `{UnicodePrint} {W : Type} (ParameterContext : string → M W context_result) (p : policy) (ops : @settingOps W).

Definition logged_context : string → M (W * list setting_event) context_result :=
  λ name, logged (EvContext name) (ParameterContext name).

Definition logged_setting_ops : @settingOps (W * list setting_event) :=
  {| op_set := λ name value, logged (EvSet name value) (op_set ops name value);
     op_reset := λ name, logged (EvReset name) (op_reset ops name) |}.

Abbreviation emits := (emits (λ _ _ _, True)).

(** The server was asked about [name] and the policy lets pgop set it. *)
Definition permitted (tr : list setting_event) (name : string) : Prop :=
  DeniedParameter name = false ∧ ∃ found, EvContext name (inl found) ∈ tr ∧ settingVerdict p name found = None.

Definition is_context (ev : setting_event) : Prop := match ev with EvContext _ _ => True | _ => False end.

Lemma permitted_mono tr tr' name : (∀ ev, ev ∈ tr → ev ∈ tr') → permitted tr name → permitted tr' name.
Proof. intros Ht (? & f & ? & ?). split; [done|]. exists f. auto. Qed.

Lemma settingAllowed_emits name :
  emits (settingAllowed logged_context p name) (λ r new, Forall is_context new ∧ (r = inl None → permitted new name)).
Proof.
  unfold settingAllowed. destruct (DeniedParameter name) eqn:E; [by apply emits_ret|].
  eapply emits_bind; [by apply emits_logged|]. intros r new ->. apply emits_ret. rewrite app_nil_r.
  split; [by repeat constructor|]. destruct r as [found|e]; [|done]. intros [= Hv].
  split; [done|]. exists found. split; [by left|done].
Qed.

Lemma allowedSettings_emits desired names :
  emits (allowedSettings logged_context p desired names) (λ r new, Forall is_context new ∧
    ∀ allowed refused, r = inl (allowed, refused) →
      (∀ n v, allowed !! n = Some v → n ∈ names ∧ v = default "" (desired !! n) ∧ permitted new n) ∧
      (∀ n, n ∈ names → is_Some (allowed !! n) ∨ ∃ why, (n +:+ " " +:+ why) ∈ refused)).
Proof.
  induction names as [|name names IH]; simpl.
  { apply emits_ret. split; [done|]. intros ? ? [= <- <-]. split; [done|]. by intros n ?%elem_of_nil. }
  eapply emits_bind; [apply settingAllowed_emits|]. intros r new1 [H1 Hr].
  destruct r as [reason|e]; [|by apply emits_ret; rewrite app_nil_r].
  eapply emits_bind; [apply IH|]. intros rest new2 [H2 Hrest]. apply emits_ret. rewrite app_nil_r.
  split; [by apply Forall_app|]. intros allowed refused.
  destruct rest as [[al re]|e]; [|done]. destruct (Hrest al re eq_refl) as [Hal Hre].
  assert (∀ n v, al !! n = Some v → n ∈ name :: names ∧ v = default "" (desired !! n) ∧ permitted (new1 ++ new2) n) as Hal'.
  { intros n v (? & ? & ?)%Hal. split_and!; [by right|done|]. eapply permitted_mono; [|done]. intros. apply elem_of_app. by right. }
  destruct reason as [why|]; intros [= <- <-]; split.
  - done.
  - intros n [->|Hn]%elem_of_cons; [right; exists why; by left|].
    destruct (Hre n Hn) as [?|[w ?]]; [by left|right; exists w; by right].
  - intros n v [[-> <-]|[? ?]]%lookup_insert_Some; [|by apply Hal'].
    split_and!; [by left|done|]. eapply permitted_mono; [|by apply Hr]. intros. apply elem_of_app. by left.
  - intros n [->|Hn]%elem_of_cons; [left; rewrite lookup_insert_eq; by eexists|].
    destruct (Hre n Hn) as [?|?]; [left|by right]. rewrite lookup_insert_is_Some'. by right.
Qed.

Lemma setAll_emits allowed names tracked :
  emits (setAll logged_setting_ops allowed names tracked) (λ '(tracked', err) new,
    Forall (λ ev, ∃ n e, n ∈ names ∧ ev = EvSet n (default "" (allowed !! n)) e) new ∧
    (∀ n, n ∈ tracked' ↔ n ∈ tracked ∨ ∃ v, EvSet n v None ∈ new) ∧
    (err = None → ∀ n, n ∈ names → n ∈ tracked')).
Proof.
  revert tracked. induction names as [|name names IH]; intros tracked; simpl.
  { apply emits_ret. split_and!; [done| |by intros _ n ?%elem_of_nil].
    intros n. split; [by left|]. by intros [?|[v ?%elem_of_nil]]. }
  eapply emits_bind; [by apply emits_logged|]. intros e new1 ->. destruct e as [e|].
  - apply emits_ret. rewrite app_nil_r. split_and!; [|intros n; split; [by left|]|done].
    + constructor; [|done]. exists name, (Some e). by repeat constructor.
    + by intros [?|[v [=]%list_elem_of_singleton]].
  - eapply emits_conseq; [apply IH|]. intros [tracked' err] new (Hev & Htr & Hall). split_and!.
    + constructor; [exists name, None; by repeat constructor|]. eapply Forall_impl; [exact Hev|].
      intros ev (n & e & ? & ->). exists n, e. by split; [right|].
    + intros n. rewrite Htr, elem_of_union, elem_of_singleton. split.
      * intros [[->|?]|[v ?]]; [right; eexists; by left|by left|right; exists v; by right].
      * intros [?|[v [[= -> _]|?]%elem_of_cons]]; eauto.
    + intros He n [->|?]%elem_of_cons; [|by apply Hall]. apply Htr. left. set_solver.
Qed.

Lemma resetAll_emits allowed managed tracked :
  emits (resetAll logged_setting_ops allowed managed tracked) (λ '(tracked', err) new,
    (∀ ev, ev ∈ new → ∃ n e, n ∈ managed ∧ allowed !! n = None ∧ ev = EvReset n e) ∧
    (∀ n, n ∈ tracked' → n ∈ tracked) ∧ (∀ n, n ∈ tracked → n ∈ tracked' ∨ EvReset n None ∈ new) ∧
    (err = None → ∀ n, n ∈ managed → allowed !! n = None → n ∉ tracked')).
Proof.
  revert tracked. induction managed as [|name managed IH]; intros tracked; simpl.
  { apply emits_ret. split_and!; [by intros ? ?%elem_of_nil|done|by left|by intros _ n ?%elem_of_nil]. }
  destruct (allowed !! name) as [v|] eqn:Ea.
  - eapply emits_conseq; [apply IH|]. intros [tracked' err] new (Hev & Htr & Htr' & Hall). split_and!; [|done|done|].
    + intros ev (n & e & ? & ? & ->)%Hev. exists n, e. split_and!; [by right|done..].
    + intros He n [->|?]%elem_of_cons Hn; [congruence|by apply Hall].
  - eapply emits_bind; [by apply emits_logged|]. intros e new1 ->. destruct e as [e|].
    + apply emits_ret. rewrite app_nil_r. split_and!; [|done|by left|done].
      intros ev ->%list_elem_of_singleton. exists name, (Some e). split_and!; [by left|done..].
    + eapply emits_conseq; [apply IH|]. intros [tracked' err] new (Hev & Htr & Htr' & Hall). split_and!.
      * intros ev [->|(n & e & ? & ? & ->)%Hev]%elem_of_cons; [exists name, None|exists n, e];
          (split_and!; [by constructor|done..]).
      * intros n Hn. specialize (Htr n Hn). set_solver.
      * intros n Hn. destruct (decide (n = name)) as [->|]; [right; by left|].
        destruct (Htr' n) as [?|?]; [set_solver|by left|right; by right].
      * intros He n [->|?]%elem_of_cons Hn; [|by apply Hall]. intros Hin. specialize (Htr _ Hin). set_solver.
Qed.

Lemma elem_of_sortedKeys x m : x ∈ sortedKeys m ↔ x ∈ m.
Proof. unfold sortedKeys. by rewrite elem_of_slices_Sort, elem_of_elements. Qed.

(** What [applySettings] promises of its calls and its result. *)
Definition settings_run (desired : gmap string string) (managed : list string)
    (res : list string * list string * error) (tr : list setting_event) : Prop :=
  let '(after, refused, err) := res in
  (∀ n v e, EvSet n v e ∈ tr → desired !! n = Some v ∧ permitted tr n) ∧
  (∀ n e, EvReset n e ∈ tr → n ∈ managed) ∧
  (∀ n v, EvSet n v None ∈ tr → n ∈ after) ∧
  (∀ n, n ∈ managed → n ∈ after ∨ EvReset n None ∈ tr) ∧
  (∀ n, n ∈ after → n ∈ managed ∨ ∃ v, EvSet n v None ∈ tr) ∧
  (err = None → StronglySorted String.le after ∧ NoDup after ∧
    (∀ n, n ∈ after → is_Some (desired !! n) ∧ permitted tr n) ∧
    (∀ n, is_Some (desired !! n) → n ∈ after ∨ ∃ why, (n +:+ " " +:+ why) ∈ refused)).

(** The set phase, given what was allowed. *)
Definition set_phase (desired allowed : gmap string string) (managed : list string) (tr1 tr2 : list setting_event)
    (tracked : gset string) : Prop :=
  (∀ ev, ev ∈ tr1 → is_context ev) ∧ (∀ n v, allowed !! n = Some v → desired !! n = Some v ∧ permitted tr1 n) ∧
  (∀ ev, ev ∈ tr2 → ∃ n v e, ev = EvSet n v e ∧ allowed !! n = Some v) ∧
  (∀ n, n ∈ tracked ↔ n ∈ managed ∨ ∃ v, EvSet n v None ∈ tr2).

Lemma permitted_app tr n rest : permitted tr n → permitted (tr ++ rest) n.
Proof. apply permitted_mono. intros. apply elem_of_app. by left. Qed.

(** Stopping in the set phase. *)
Lemma settings_run_stopped desired allowed managed tr1 tr2 tracked refused e :
  set_phase desired allowed managed tr1 tr2 tracked →
  settings_run desired managed (sortedKeys tracked, refused, Some e) (tr1 ++ tr2).
Proof.
  intros (Hc & Ha & Hs & Htr). split_and!; [..|done].
  - intros n v e' [?%Hc|(? & ? & ? & [= <- <- <-] & [? ?]%Ha)%Hs]%elem_of_app; [done|]. split; [done|by apply permitted_app].
  - intros n e' [?%Hc|(? & ? & ? & ? & ?)%Hs]%elem_of_app; done.
  - intros n v [?%Hc|?]%elem_of_app; [done|]. apply elem_of_sortedKeys, Htr. eauto.
  - intros n Hn. left. apply elem_of_sortedKeys, Htr. by left.
  - intros n [?|[v ?]]%elem_of_sortedKeys%Htr; [by left|right]. exists v. apply elem_of_app. by right.
Qed.

(** After the reset phase. *)
Lemma settings_run_reset desired allowed managed tr1 tr2 tr3 tracked tracked' refused err :
  set_phase desired allowed managed tr1 tr2 tracked →
  (∀ n, is_Some (allowed !! n) → n ∈ tracked) →
  (∀ n, is_Some (desired !! n) → is_Some (allowed !! n) ∨ ∃ why, (n +:+ " " +:+ why) ∈ refused) →
  (∀ ev, ev ∈ tr3 → ∃ n e, n ∈ managed ∧ allowed !! n = None ∧ ev = EvReset n e) →
  (∀ n, n ∈ tracked' → n ∈ tracked) → (∀ n, n ∈ tracked → n ∈ tracked' ∨ EvReset n None ∈ tr3) →
  (err = None → ∀ n, n ∈ managed → allowed !! n = None → n ∉ tracked') →
  settings_run desired managed (sortedKeys tracked', refused, err) (tr1 ++ tr2 ++ tr3).
Proof.
  intros (Hc & Ha & Hs & Htr) Hal Href Hr Hsub Hkept Hdone.
  assert (∀ n, is_Some (allowed !! n) → n ∈ tracked') as Hal'.
  { intros n Hn. destruct (Hkept n (Hal n Hn)) as [?|(? & ? & _ & Hnone & [= <- <-])%Hr]; [done|]. by destruct Hn; simplify_eq. }
  split_and!.
  - intros n v e [?%Hc|[(? & ? & ? & [= <- <- <-] & [? ?]%Ha)%Hs|(? & ? & ? & ? & ?)%Hr]%elem_of_app]%elem_of_app; [done| |done].
    split; [done|by apply permitted_app].
  - intros n e [?%Hc|[(? & ? & ? & ? & ?)%Hs|(? & ? & ? & ? & [= <- <-])%Hr]%elem_of_app]%elem_of_app; done.
  - intros n v [?%Hc|[(? & ? & ? & [= <- <- _] & ?)%Hs|(? & ? & ? & ? & ?)%Hr]%elem_of_app]%elem_of_app; [done| |done].
    apply elem_of_sortedKeys, Hal'. by eexists.
  - intros n Hn. destruct (Hkept n) as [?|?]; [apply Htr; by left|left; by apply elem_of_sortedKeys|].
    right. rewrite !elem_of_app. auto.
  - intros n [?|[v ?]]%elem_of_sortedKeys%Hsub%Htr; [by left|right]. exists v. rewrite !elem_of_app. auto.
  - intros He. split_and!; [apply slices_Sort_sorted|apply slices_Sort_NoDup, NoDup_elements| |].
    + intros n Hn%elem_of_sortedKeys. destruct (allowed !! n) as [v|] eqn:E.
      * destruct (Ha n v E). split; [by eexists|by apply permitted_app].
      * exfalso. apply Hsub in Hn as Hn'. apply Htr in Hn' as [Hm|[v (? & ? & ? & [= <- <- _] & ?)%Hs]]; [|congruence].
        by apply (Hdone He n Hm E).
    + intros n [?%Hal'|?]%Href; [left; by apply elem_of_sortedKeys|by right].
Qed.

Lemma applySettings_emits desired managed :
  emits (applySettings logged_context p desired managed logged_setting_ops) (settings_run desired managed).
Proof.
  unfold applySettings. eapply emits_bind; [apply allowedSettings_emits|]. intros r new1 [Hc Hal].
  rewrite Forall_forall in Hc. destruct r as [[allowed refused]|e].
  2: { apply emits_ret. rewrite app_nil_r.
       split_and!; try (by intros; by left); try done; [by intros ? ? ? ?%Hc|by intros ? ? ?%Hc|by intros ? ? ?%Hc]. }
  destruct (Hal allowed refused eq_refl) as [Ha Hr]. clear Hal.
  eapply emits_bind; [apply setAll_emits|]. intros [tracked err] new2 (Hset & Htr & Hall).
  assert (set_phase desired allowed managed new1 new2 tracked) as Hphase.
  { split_and!; [done| | |by setoid_rewrite elem_of_list_to_set in Htr].
    - intros n v (Hn & -> & ?)%Ha. split; [|done]. apply elem_of_sorted_keys in Hn as [x Hx]. by rewrite Hx.
    - intros ev Hin. rewrite Forall_forall in Hset. destruct (Hset _ Hin) as (n & e & Hn & ->).
      apply elem_of_sorted_keys in Hn as [x Hx]. exists n, x, e. by rewrite Hx. }
  destruct err as [err|].
  { apply emits_ret. rewrite app_nil_r. by eapply settings_run_stopped. }
  eapply emits_bind; [apply resetAll_emits|]. intros [tracked' err'] new3 (Hres & Hsub & Hkept & Hdone).
  apply emits_ret. rewrite app_nil_r. eapply settings_run_reset; try done.
  - intros n Hn. apply Hall; [done|]. by apply elem_of_sorted_keys.
  - intros n Hn. apply Hr. by apply elem_of_sorted_keys.
Qed.
End settings_trace.

(** ** Properties *)

(** What a writer may obtain of a setting, given the context the server reported
    (None: the server does not know the parameter): a known parameter only when every
    user may set it; an unknown one in a namespace only when that is neither denied
    nor missing from the policy. *)
Definition may_be_set (p : policy) (name : string) (found : option string) : Prop :=
  match found with
  | Some ctx => ctx = "user"
  | None => ∀ prefix rest, Cut name "." = Some (prefix, rest) →
      prefix ∉ DeniedSettingPrefixes ∧ AllowsSettingPrefix p prefix = true
  end.

Lemma settingVerdict_spec `{UnicodePrint} p name found : settingVerdict p name found = None ↔ may_be_set p name found.
Proof.
  unfold settingVerdict, may_be_set. destruct found as [ctx|]; [by case_decide|].
  destruct (Cut name ".") as [[prefix rest]|]; [|by split].
  destruct (slices_Contains DeniedSettingPrefixes prefix) eqn:Ed; [|destruct (AllowsSettingPrefix p prefix) eqn:Ea]; split; try done.
  - intros Hp. apply slices_Contains_true in Ed. by destruct (Hp _ _ eq_refl).
  - intros _ ? ? [= <- <-]. split; [|done]. intros Hin%slices_Contains_true. congruence.
  - intros Hp. destruct (Hp _ _ eq_refl). congruence.
Qed.

(** Pgop sets only what a writer may obtain: every setting applied is a
    declared one with its declared value, is not on the denylist, and the server
    was asked about it in this run: every user may set it, or it is unknown and in no
    namespace, or in a namespace that is not denied and that the policy allows; and
    only settings pgop manages are reset. *)
Theorem applySettings_only_permitted `{UnicodePrint} {W} (ParameterContext : string → M W context_result) p ops
    desired managed w res w' tr :
  applySettings (logged_context ParameterContext) p desired managed (logged_setting_ops ops) (w, []) = (res, (w', tr)) →
  (∀ n v e, EvSet n v e ∈ tr → desired !! n = Some v ∧ DeniedParameter n = false ∧
    ∃ found, EvContext n (inl found) ∈ tr ∧ may_be_set p n found) ∧
  (∀ n e, EvReset n e ∈ tr → n ∈ managed).
Proof.
  intros [_ Hrun]%(emits_run _ _ _ _ _ _ _ (applySettings_emits ParameterContext p ops desired managed)).
  destruct res as [[after refused] err]. destruct Hrun as (Hset & Hreset & _). split; [|done].
  intros n v e Hin. destruct (Hset n v e Hin) as (? & ? & f & ? & ?%settingVerdict_spec). eauto.
Qed.

(** A server that knows work_mem and log_statement. *)
Definition demo_context (name : string) (w : unit) : context_result * unit :=
  (inl (if decide (name = "work_mem") then Some "user" else if decide (name = "log_statement") then Some "superuser" else None), w).
Definition demo_setting_ops : @settingOps unit := {| op_set := λ _ _ w, (None, w); op_reset := λ _ w, (None, w) |}.
Definition demo_desired : gmap string string := {[ "work_mem" := "8MB"; "log_statement" := "all"; "role" := "x" ]}.
Definition demo_settings := @applySettings (λ _, true) _ (logged_context demo_context) None demo_desired ["jit"]
  (logged_setting_ops demo_setting_ops) ((), []).

Lemma applySettings_only_permitted_witness :
  EvSet "work_mem" "8MB" None ∈ demo_settings.2.2 ∧
  (∀ n v e, EvSet n v e ∈ demo_settings.2.2 → demo_desired !! n = Some v ∧ DeniedParameter n = false ∧
    ∃ found, EvContext n (inl found) ∈ demo_settings.2.2 ∧ may_be_set None n found) ∧
  (∀ n e, EvReset n e ∈ demo_settings.2.2 → n ∈ ["jit"]).
Proof.
  split; [by vm_compute; repeat constructor|].
  eapply (@applySettings_only_permitted (λ _, true) _ demo_context None demo_setting_ops demo_desired ["jit"] () demo_settings.1 demo_settings.2.1).
  by vm_compute.
Defined.

(** The settings ledger never loses track: every setting applied is recorded,
    a recorded one leaves the record only after a successful reset, and nothing
    else is recorded, also when a statement fails; without an error the record is
    sorted, without duplicates, holds only declared permitted settings, and every
    declared setting is in it or was refused with a reason. *)
Theorem applySettings_ledger `{UnicodePrint} {W} (ParameterContext : string → M W context_result) p ops
    desired managed w after refused err w' tr :
  applySettings (logged_context ParameterContext) p desired managed (logged_setting_ops ops) (w, []) =
    ((after, refused, err), (w', tr)) →
  (∀ n v, EvSet n v None ∈ tr → n ∈ after) ∧
  (∀ n, n ∈ managed → n ∈ after ∨ EvReset n None ∈ tr) ∧
  (∀ n, n ∈ after → n ∈ managed ∨ ∃ v, EvSet n v None ∈ tr) ∧
  (err = None → StronglySorted String.le after ∧ NoDup after ∧
    (∀ n, n ∈ after → is_Some (desired !! n) ∧ permitted p tr n) ∧
    (∀ n, is_Some (desired !! n) → n ∈ after ∨ ∃ why, (n +:+ " " +:+ why) ∈ refused)).
Proof.
  intros [_ Hrun]%(emits_run _ _ _ _ _ _ _ (applySettings_emits ParameterContext p ops desired managed)).
  by destruct Hrun as (_ & _ & ?).
Qed.

Lemma applySettings_ledger_witness :
  let r := demo_settings in
  r.1.1.1 = ["work_mem"] ∧
  (∀ n v, EvSet n v None ∈ r.2.2 → n ∈ r.1.1.1) ∧
  (∀ n, n ∈ ["jit"] → n ∈ r.1.1.1 ∨ EvReset n None ∈ r.2.2) ∧
  (∀ n, n ∈ r.1.1.1 → n ∈ ["jit"] ∨ ∃ v, EvSet n v None ∈ r.2.2) ∧
  (r.1.2 = None → StronglySorted String.le r.1.1.1 ∧ NoDup r.1.1.1 ∧
    (∀ n, n ∈ r.1.1.1 → is_Some (demo_desired !! n) ∧ @permitted (λ _, true) None r.2.2 n) ∧
    (∀ n, is_Some (demo_desired !! n) → n ∈ r.1.1.1 ∨ ∃ why, (n +:+ " " +:+ why) ∈ r.1.1.2)).
Proof.
  intros r. split; [by vm_compute|].
  eapply (@applySettings_ledger (λ _, true) _ demo_context None demo_setting_ops demo_desired ["jit"] () r.1.1.1 r.1.1.2 r.1.2 r.2.1).
  by vm_compute.
Defined.
