(* ===== verification/Memberships.v ===== *)
(** * Role memberships (src/internal/controller/role_memberships.go)

    The plan that brings a role's memberships to the declared ones
    ([diffMemberships]), the policy check with its cache, and the reconcile that
    runs the plan and records what pgop manages. *)

From Stdlib Require Import Ascii.
From S2P Require Import Prelude GoStrings GoStrconv RoleSql ApiTypes RolePolicy Settings Trace.

Definition MinMembershipOptionsVersion : Z := 160000.
Definition ReasonMembershipNotAllowed : string := "MembershipNotAllowed".

(** [postgres.MembershipState]. *)
Record MembershipState := { mst_Admin : bool; mst_Inherit : option bool; mst_Set : option bool }.

Record membershipGrant := { mg_Role : string; mg_Opts : MembershipOptions }.

Record membershipPlan := {
  plan_Grant : list membershipGrant;
  plan_RevokeAdmin : list string;
  plan_Revoke : list string }.

(** ** The plan *)

Definition optionDiffers (want have : option bool) : bool :=
  match want with
  | None => false
  | Some w => match have with None => true | Some h => negb (eqb h w) end
  end.

Definition membership_opts (d : RoleMembership) : MembershipOptions :=
  {| mo_Admin := rm_Admin d; mo_Inherit := rm_Inherit d; mo_Set := rm_Set d |}.

(** The condition for a GRANT of [d]. *)
Definition needs_grant (current : gmap string MembershipState) (d : RoleMembership) : bool :=
  match current !! rm_Role d with
  | None => true
  | Some cur => (rm_Admin d && negb (mst_Admin cur)) || optionDiffers (rm_Inherit d) (mst_Inherit cur)
                  || optionDiffers (rm_Set d) (mst_Set cur)
  end.

Definition needs_admin_revoke (current : gmap string MembershipState) (d : RoleMembership) : bool :=
  match current !! rm_Role d with
  | None => false
  | Some cur => mst_Admin cur && negb (rm_Admin d)
  end.

Definition is_current (current : gmap string MembershipState) (m : string) : bool :=
  match current !! m with Some _ => true | None => false end.

Definition sort_compact (l : list string) : list string := slices_Compact (slices_Sort l).

Definition diffMemberships (desired : list RoleMembership) (managed : list string)
    (current : gmap string MembershipState) (revokeRemoved : bool) : membershipPlan :=
  {| plan_Grant := (λ d, {| mg_Role := rm_Role d; mg_Opts := membership_opts d |}) <$>
       filter (λ d, needs_grant current d = true) desired;
     plan_RevokeAdmin := rm_Role <$> filter (λ d, needs_admin_revoke current d = true) desired;
     plan_Revoke := if revokeRemoved
       then sort_compact (filter (λ m, is_current current m = true ∧ m ∉ (rm_Role <$> desired)) managed)
       else [] |}.

(** ** The reconcile *)

Record membershipClient (W : Type) := {
  mc_ServerVersionNum : M W (result Z);
  mc_ListMemberships : string → Z → M W (result (gmap string MembershipState));
  mc_GrantRole : string → string → MembershipOptions → M W error;
  mc_RevokeAdminOption : string → string → M W error;
  mc_RevokeRole : string → string → M W error;
  mc_MembershipClosure : string → M W (result (list ReachableRole)) }.
Arguments mc_ServerVersionNum {W}. Arguments mc_ListMemberships {W}. Arguments mc_GrantRole {W}.
Arguments mc_RevokeAdminOption {W}. Arguments mc_RevokeRole {W}. Arguments mc_MembershipClosure {W}.

Section reconcile.
Context {W : Type} (pg : membershipClient W) (p : policy) (clusterRoles : managedRoles).

(** [membershipChecker.problem], with its cache. *)
Abbreviation problem_cache := (gmap string (option string)).

Definition checker_problem (target : string) (cache : problem_cache) : M W (result (option string) * problem_cache) :=
  match cache !! target with
  | Some r => mret (inl r, cache)
  | None =>
      match membershipNameProblem target p with
      | Some e => let r := Some (target +:+ " " +:+ e) in mret (inl r, <[target := r]> cache)
      | None =>
          c ← mc_MembershipClosure pg target;
          mret (match c with
                | inr e => (inr e, cache)
                | inl closure => let r := membershipProblem target closure p clusterRoles in (inl r, <[target := r]> cache)
                end)
      end
  end.

(** The requested memberships that are allowed, and the refusals. *)
Fixpoint checkRequested (requested : list RoleMembership) (cache : problem_cache)
    : M W (result (list RoleMembership * list string) * problem_cache) :=
  match requested with
  | [] => mret (inl ([], []), cache)
  | d :: ds =>
      '(r, cache) ← checker_problem (rm_Role d) cache;
      match r with
      | inr e => mret (inr e, cache)
      | inl r =>
          '(rest, cache) ← checkRequested ds cache;
          mret (match rest with
                | inr e => (inr e, cache)
                | inl (desired, refused) =>
                    (inl (match r with None => (d :: desired, refused) | Some why => (desired, why :: refused) end), cache)
                end)
      end
  end.

(** The managed memberships the policy refuses. *)
Fixpoint checkManaged (managed : list string) (cache : problem_cache) : M W (result (list string) * problem_cache) :=
  match managed with
  | [] => mret (inl [], cache)
  | m :: ms =>
      '(r, cache) ← checker_problem m cache;
      match r with
      | inr e => mret (inr e, cache)
      | inl r =>
          '(rest, cache) ← checkManaged ms cache;
          mret (match rest with
                | inr e => (inr e, cache)
                | inl l => (inl (match r with None => l | Some _ => m :: l end), cache)
                end)
      end
  end.

Fixpoint grantRoles (member : string) (gs : list membershipGrant) (tracked : gset string) : M W (gset string * error) :=
  match gs with
  | [] => mret (tracked, None)
  | g :: gs =>
      e ← mc_GrantRole pg (mg_Role g) member (mg_Opts g);
      match e with
      | Some err => mret (tracked, Some err)
      | None => grantRoles member gs ({[mg_Role g]} ∪ tracked)
      end
  end.

Fixpoint revokeAdmins (member : string) (rs : list string) : M W error :=
  match rs with
  | [] => mret None
  | r :: rs =>
      e ← mc_RevokeAdminOption pg r member;
      match e with Some err => mret (Some err) | None => revokeAdmins member rs end
  end.

Fixpoint revokeRoles (member : string) (rs : list string) (tracked : gset string) : M W (gset string * error) :=
  match rs with
  | [] => mret (tracked, None)
  | r :: rs =>
      e ← mc_RevokeRole pg r member;
      match e with
      | Some err => mret (tracked, Some err)
      | None => revokeRoles member rs (tracked ∖ {[r]})
      end
  end.

(** The statements of the plan; on an error, what is tracked so far. *)
Definition runPlan (member : string) (plan : membershipPlan) (tracked : gset string) : M W (gset string * error) :=
  '(tracked, e) ← grantRoles member (plan_Grant plan) tracked;
  match e with
  | Some err => mret (tracked, Some err)
  | None =>
      e ← revokeAdmins member (plan_RevokeAdmin plan);
      match e with
      | Some err => mret (tracked, Some err)
      | None => revokeRoles member (plan_Revoke plan) tracked
      end
  end.

Definition needs_options (d : RoleMembership) : bool :=
  bool_decide (rm_Inherit d ≠ None) || bool_decide (rm_Set d ≠ None).

(** Inherit and set options on a server that does not have them. *)
Definition versionProblem (version : Z) (desired : list RoleMembership) : error :=
  if bool_decide (version < MinMembershipOptionsVersion)%Z
  then (λ d, Errorf "memberships[%s]: the inherit and set options require PostgreSQL 16 or later (server_version_num %d); remove them or upgrade the cluster"
               [rm_Role d; Itoa version]) <$> head (filter (λ d, needs_options d = true) desired)
  else None.

(** What is refused, reported after everything else was applied. *)
Definition notAllowedError (refused revokedForbidden : list string) : error :=
  match refused with
  | [] => None
  | _ => Some (CondErr ReasonMembershipNotAllowed (Errorf
      ("memberships not allowed: " +:+ Join refused "; "
         +:+ (match revokedForbidden with
              | [] => ""
              | _ => "; revoked the membership(s) pgop had granted in " +:+ Join revokedForbidden ", "
              end)) []))
  end.

(** The part after the policy checks. *)
Definition applyMemberships (spec : RoleSpec) (managed : list string) (member : string)
    (desired : list RoleMembership) (refused forbiddenManaged : list string) : M W (error * list string) :=
  v ← mc_ServerVersionNum pg;
  match v with
  | inr e => mret (Some e, managed)
  | inl version =>
      match versionProblem version desired with
      | Some e => mret (Some e, managed)
      | None =>
          c ← mc_ListMemberships pg member version;
          match c with
          | inr e => mret (Some e, managed)
          | inl current =>
              let plan := diffMemberships desired managed current (ShouldRevokeRemovedMemberships spec) in
              let revokedForbidden := filter (λ m, is_current current m = true) forbiddenManaged in
              let plan := {| plan_Grant := plan_Grant plan; plan_RevokeAdmin := plan_RevokeAdmin plan;
                             plan_Revoke := sort_compact (plan_Revoke plan ++ revokedForbidden) |} in
              let tracked : gset string := list_to_set managed ∪
                list_to_set (filter (λ r, is_current current r = true) (rm_Role <$> desired)) in
              '(tracked, err) ← runPlan member plan tracked;
              match err with
              | Some e => mret (Some e, sortedKeys tracked)
              | None => mret (notAllowedError refused revokedForbidden, sortedKeys (list_to_set (rm_Role <$> desired)))
              end
          end
      end
  end.

(** The error and the new [Status.ManagedMemberships]. *)
Definition reconcileMemberships (spec : RoleSpec) (managed : list string) (member : string) : M W (error * list string) :=
  let requested := DesiredMemberships spec in
  if decide (requested = [] ∧ managed = []) then mret (None, managed)
  else
    '(r, cache) ← checkRequested requested ∅;
    match r with
    | inr e => mret (Some e, managed)
    | inl (desired, refused) =>
        '(f, _) ← checkManaged managed cache;
        match f with
        | inr e => mret (Some e, managed)
        | inl forbiddenManaged => applyMemberships spec managed member desired refused forbiddenManaged
        end
    end.
End reconcile.

(** ** What the server does with the plan (GRANT/REVOKE of a role) *)

(** GRANT with options: unset options keep an existing grant's value, and take
    the server's default [dflt] on a new one. *)
Definition exec_grant (dflt : MembershipState) (current : gmap string MembershipState) (g : membershipGrant)
    : gmap string MembershipState :=
  let base := default {| mst_Admin := false; mst_Inherit := mst_Inherit dflt; mst_Set := mst_Set dflt |} (current !! mg_Role g) in
  let pick (o b : option bool) := match o with Some _ => o | None => b end in
  <[mg_Role g := {| mst_Admin := mst_Admin base || mo_Admin (mg_Opts g);
                    mst_Inherit := pick (mo_Inherit (mg_Opts g)) (mst_Inherit base);
                    mst_Set := pick (mo_Set (mg_Opts g)) (mst_Set base) |}]> current.

Definition exec_revoke_admin (current : gmap string MembershipState) (r : string) : gmap string MembershipState :=
  alter (λ s, {| mst_Admin := false; mst_Inherit := mst_Inherit s; mst_Set := mst_Set s |}) r current.

Definition exec_plan (dflt : MembershipState) (current : gmap string MembershipState) (plan : membershipPlan)
    : gmap string MembershipState :=
  foldl (λ c r, delete r c) (foldl exec_revoke_admin (foldl (exec_grant dflt) current (plan_Grant plan))
    (plan_RevokeAdmin plan)) (plan_Revoke plan).

Example diff_example :
  let d r a := {| rm_Role := r; rm_Inherit := None; rm_Set := Some false; rm_Admin := a |} in
  let s a := {| mst_Admin := a; mst_Inherit := Some true; mst_Set := Some false |} in
  let plan := diffMemberships [d "a" true; d "b" false; d "c" false] ["z"; "b"; "y"; "z"]
    {[ "a" := s false; "b" := s true; "z" := s false ]} true in
  (mg_Role <$> plan_Grant plan, plan_RevokeAdmin plan, plan_Revoke plan) = (["a"; "c"], ["b"], ["z"]).
Proof. by vm_compute. Qed.

(** ** The plan converges *)

(** Updates of distinct keys act independently. *)
Lemma foldl_keyed {A S} (f : gmap string S → A → gmap string S) (key : A → string) (h : A → option S → option S) l m :
  (∀ m a k, f m a !! k = if decide (k = key a) then h a (m !! k) else m !! k) → NoDup (key <$> l) →
  (∀ a, a ∈ l → foldl f m l !! key a = h a (m !! key a)) ∧
  (∀ k, k ∉ (key <$> l) → foldl f m l !! k = m !! k).
Proof.
  intros Hf. revert m. induction l as [|a l IH]; intros m Hn; simpl.
  { split; [by intros ? ?%elem_of_nil|done]. }
  apply NoDup_cons in Hn as [Ha Hn]. destruct (IH (f m a) Hn) as [IH1 IH2]. split.
  - intros b [->|Hb]%elem_of_cons.
    + rewrite IH2, Hf, decide_True by done. done.
    + rewrite IH1 by done. rewrite Hf, decide_False; [done|]. intros Heq. apply Ha. rewrite <- Heq. by apply list_elem_of_fmap_2.
  - intros k [Hk1 Hk2]%not_elem_of_cons. rewrite IH2, Hf, decide_False by done. done.
Qed.

Lemma NoDup_fmap_filter {A} (key : A → string) (P : A → Prop) `{∀ x, Decision (P x)} l :
  NoDup (key <$> l) → NoDup (key <$> filter P l).
Proof. intros Hn. eapply sublist_NoDup; [done|]. apply fmap_sublist, sublist_filter. Qed.

Definition granted_state (dflt : MembershipState) (d : RoleMembership) (cur : option MembershipState) : MembershipState :=
  let base := default {| mst_Admin := false; mst_Inherit := mst_Inherit dflt; mst_Set := mst_Set dflt |} cur in
  let pick (o b : option bool) := match o with Some _ => o | None => b end in
  {| mst_Admin := mst_Admin base || rm_Admin d; mst_Inherit := pick (rm_Inherit d) (mst_Inherit base);
     mst_Set := pick (rm_Set d) (mst_Set base) |}.

Definition without_admin (s : MembershipState) : MembershipState :=
  {| mst_Admin := false; mst_Inherit := mst_Inherit s; mst_Set := mst_Set s |}.

(** The state of a desired membership after the plan. *)
Definition final_state (dflt : MembershipState) (current : gmap string MembershipState) (d : RoleMembership) : option MembershipState :=
  let cur := current !! rm_Role d in
  let s := if needs_grant current d then Some (granted_state dflt d cur) else cur in
  if needs_admin_revoke current d then without_admin <$> s else s.

Lemma elem_of_sort_compact x l : x ∈ sort_compact l ↔ x ∈ l.
Proof. unfold sort_compact. by rewrite elem_of_slices_Compact, elem_of_slices_Sort. Qed.

Lemma sort_compact_NoDup l : NoDup (sort_compact l).
Proof. apply slices_Compact_NoDup, slices_Sort_sorted. Qed.

Lemma is_current_true current m : is_current current m = true ↔ is_Some (current !! m).
Proof. unfold is_current. destruct (current !! m); split; [by eexists|done|done|by intros []]. Qed.

Section plan.
Context (dflt : MembershipState) (desired : list RoleMembership) (managed : list string)
  (current : gmap string MembershipState) (revokeRemoved : bool).
Context (Hn : NoDup (rm_Role <$> desired)).

Abbreviation plan := (diffMemberships desired managed current revokeRemoved).
Abbreviation current' := (exec_plan dflt current plan).

Lemma elem_of_plan_Revoke r :
  r ∈ plan_Revoke plan ↔ revokeRemoved = true ∧ r ∈ managed ∧ is_Some (current !! r) ∧ r ∉ (rm_Role <$> desired).
Proof.
  simpl. destruct revokeRemoved; [|rewrite elem_of_nil; naive_solver].
  rewrite elem_of_sort_compact, list_elem_of_filter, is_current_true. naive_solver.
Qed.

(** The three kinds of statements, one role at a time. *)
Lemma exec_grants k :
  let m1 := foldl (exec_grant dflt) current (plan_Grant plan) in
  (∀ d, d ∈ desired → k = rm_Role d →
    m1 !! k = if needs_grant current d then Some (granted_state dflt d (current !! k)) else current !! k) ∧
  (k ∉ (rm_Role <$> desired) → m1 !! k = current !! k).
Proof.
  intros m1. destruct (foldl_keyed (exec_grant dflt) mg_Role
    (λ g cur, Some (granted_state dflt {| rm_Role := mg_Role g; rm_Inherit := mo_Inherit (mg_Opts g);
      rm_Set := mo_Set (mg_Opts g); rm_Admin := mo_Admin (mg_Opts g) |} cur)) (plan_Grant plan) current) as [H1 H2].
  { intros m g k'. unfold exec_grant. case_decide; [subst; by rewrite lookup_insert_eq|by rewrite lookup_insert_ne]. }
  { simpl. rewrite <- list_fmap_compose. by apply NoDup_fmap_filter. }
  split.
  - intros d Hd ->. destruct (needs_grant current d) eqn:E.
    + apply (H1 {| mg_Role := rm_Role d; mg_Opts := membership_opts d |}). simpl.
      apply (list_elem_of_fmap_2 (λ d, {| mg_Role := rm_Role d; mg_Opts := membership_opts d |})).
      by apply list_elem_of_filter.
    + apply H2. simpl. rewrite <- list_fmap_compose.
      intros (d' & Hr & [He Hd']%list_elem_of_filter)%list_elem_of_fmap. simpl in Hr.
      assert (d = d') as <-; [|congruence]. by eapply NoDup_fmap_elem.
  - intros Hk. apply H2. simpl. rewrite <- list_fmap_compose.
    intros (d' & -> & [_ Hd']%list_elem_of_filter)%list_elem_of_fmap. apply Hk. by apply list_elem_of_fmap_2.
Qed.

(** A later statement over desired memberships leaves the other roles alone. *)
Lemma exec_revoke_admins k m1 :
  let m2 := foldl exec_revoke_admin m1 (plan_RevokeAdmin plan) in
  (∀ d, d ∈ desired → k = rm_Role d →
    m2 !! k = if needs_admin_revoke current d then without_admin <$> m1 !! k else m1 !! k) ∧
  (k ∉ (rm_Role <$> desired) → m2 !! k = m1 !! k).
Proof.
  intros m2. destruct (foldl_keyed exec_revoke_admin id (λ _ s, without_admin <$> s) (plan_RevokeAdmin plan) m1) as [H1 H2].
  { intros m r k'. unfold exec_revoke_admin. case_decide; [subst; by rewrite lookup_alter_eq|by rewrite lookup_alter_ne]. }
  { rewrite list_fmap_id. simpl. by apply NoDup_fmap_filter. }
  rewrite list_fmap_id in H2. split.
  - intros d Hd ->. destruct (needs_admin_revoke current d) eqn:E.
    + apply H1. apply (list_elem_of_fmap_2 rm_Role). by apply list_elem_of_filter.
    + apply H2. simpl. intros (d' & Hr & [He Hd']%list_elem_of_filter)%list_elem_of_fmap.
      assert (d = d') as <-; [|congruence]. by eapply NoDup_fmap_elem.
  - intros Hk. apply H2. simpl. intros (d' & -> & [_ Hd']%list_elem_of_filter)%list_elem_of_fmap.
    apply Hk. by apply list_elem_of_fmap_2.
Qed.

Lemma exec_revokes k (m2 : gmap string MembershipState) :
  foldl (λ c r, delete r c) m2 (plan_Revoke plan) !! k = if decide (k ∈ plan_Revoke plan) then None else m2 !! k.
Proof.
  destruct (foldl_keyed (λ (c : gmap string MembershipState) r, delete r c) id (λ _ _, None) (plan_Revoke plan) m2) as [H1 H2].
  { intros m r k'. case_decide; [subst; by rewrite lookup_delete_eq|by rewrite lookup_delete_ne]. }
  { rewrite list_fmap_id. simpl. destruct revokeRemoved; [apply sort_compact_NoDup|constructor]. }
  rewrite list_fmap_id in H2. case_decide; [by apply H1|by apply H2].
Qed.

Lemma exec_plan_desired d : d ∈ desired → current' !! rm_Role d = final_state dflt current d.
Proof.
  intros Hd. unfold exec_plan. rewrite exec_revokes, decide_False.
  2: { intros (_ & _ & _ & Hr)%elem_of_plan_Revoke. apply Hr. by apply list_elem_of_fmap_2. }
  by rewrite (proj1 (exec_revoke_admins _ _) d Hd eq_refl), (proj1 (exec_grants _) d Hd eq_refl).
Qed.

Lemma exec_plan_other k :
  k ∉ (rm_Role <$> desired) →
  current' !! k = if decide (revokeRemoved = true ∧ k ∈ managed) then None else current !! k.
Proof.
  intros Hk. unfold exec_plan. rewrite exec_revokes.
  rewrite (proj2 (exec_revoke_admins k _) Hk), (proj2 (exec_grants k) Hk).
  destruct (decide (k ∈ plan_Revoke plan)) as [H1|H1]; rewrite elem_of_plan_Revoke in H1;
    destruct (decide (revokeRemoved = true ∧ k ∈ managed)) as [H2|H2]; try tauto.
  destruct (current !! k) eqn:E; [|done]. exfalso. apply H1. destruct H2. split_and!; [done..|by eexists|done].
Qed.

Lemma optionDiffers_pick (o b : option bool) : optionDiffers o (match o with Some _ => o | None => b end) = false.
Proof. by destruct o as [[]|]. Qed.

(** After the plan, a desired membership needs no statement. *)
Lemma final_state_settled d m :
  m !! rm_Role d = final_state dflt current d → needs_grant m d = false ∧ needs_admin_revoke m d = false.
Proof.
  unfold final_state, needs_grant, needs_admin_revoke. intros ->.
  destruct (current !! rm_Role d) as [[a i s]|].
  - by destruct d as [r [[]|] [[]|] []], a, i as [[]|], s as [[]|].
  - by destruct d as [r [[]|] [[]|] []], dflt as [? [[]|] [[]|]].
Qed.
End plan.

(** The plan brings the server to the declared memberships and stops: after
    its statements every declared membership exists with its options and exactly
    its ADMIN setting, memberships pgop manages that left the spec are gone (when
    revoking is on), every other membership is untouched, and planning again
    yields no statement. *)
Theorem diffMemberships_converges spec managed current dflt :
  let desired := DesiredMemberships spec in
  let revoke := ShouldRevokeRemovedMemberships spec in
  let current' := exec_plan dflt current (diffMemberships desired managed current revoke) in
  (∀ d, d ∈ desired → ∃ s, current' !! rm_Role d = Some s ∧ mst_Admin s = rm_Admin d ∧
    (∀ b, rm_Inherit d = Some b → mst_Inherit s = Some b) ∧ (∀ b, rm_Set d = Some b → mst_Set s = Some b)) ∧
  (∀ r, r ∉ (rm_Role <$> desired) →
    current' !! r = if decide (revoke = true ∧ r ∈ managed) then None else current !! r) ∧
  diffMemberships desired managed current' revoke = {| plan_Grant := []; plan_RevokeAdmin := []; plan_Revoke := [] |}.
Proof.
  intros desired revoke current'. pose proof (DesiredMemberships_NoDup spec) as Hn.
  assert (∀ d, d ∈ desired → needs_grant current' d = false ∧ needs_admin_revoke current' d = false) as Hset.
  { intros d Hd. eapply final_state_settled. by apply exec_plan_desired. }
  split_and!.
  - intros d Hd. destruct (Hset d Hd) as [Hg Ha]. unfold needs_grant, needs_admin_revoke in *.
    destruct (current' !! rm_Role d) as [s|]; [|done]. exists s.
    apply orb_false_iff in Hg as [[Hg1 Hg2]%orb_false_iff Hg3]. split_and!; [done| | |].
    + by destruct (mst_Admin s), (rm_Admin d).
    + intros b Hb. rewrite Hb in Hg2. by destruct (mst_Inherit s) as [[]|], b.
    + intros b Hb. rewrite Hb in Hg3. by destruct (mst_Set s) as [[]|], b.
  - intros r Hr. by apply exec_plan_other.
  - unfold diffMemberships. f_equal.
    + rewrite filter_none; [done|]. intros d Hd. destruct (Hset d Hd) as [-> _]. done.
    + rewrite filter_none; [done|]. intros d Hd. destruct (Hset d Hd) as [_ ->]. done.
    + destruct revoke eqn:Er; [|done]. rewrite filter_none; [done|].
      intros m Hm [Hc Hk]. apply is_current_true in Hc as [x Hx].
      unfold current' in Hx. rewrite exec_plan_other in Hx by done. by rewrite decide_True in Hx.
Qed.
