(* ===== verification/MembershipTrace.v ===== *)
(** * Role memberships: what the reconcile asks of the server *)

From Stdlib Require Import Ascii.
From S2P Require Import Prelude GoStrings GoStrconv RoleSql ApiTypes RolePolicy Settings Memberships Trace.

Inductive membership_event :=
  | EvVersion (r : result Z)
  | EvList (r : result (gmap string MembershipState))
  | EvClosure (role : string) (r : result (list ReachableRole))
  | EvGrantRole (role : string) (opts : MembershipOptions) (e : error)
  | EvRevokeAdmin (role : string) (e : error)
  | EvRevokeRole (role : string) (e : error).

Definition logged_client {W} (pg : membershipClient W) : membershipClient (W * list membership_event) :=
  {| mc_ServerVersionNum := logged EvVersion (mc_ServerVersionNum pg);
     mc_ListMemberships := λ member v, logged EvList (mc_ListMemberships pg member v);
     mc_GrantRole := λ r member o, logged (EvGrantRole r o) (mc_GrantRole pg r member o);
     mc_RevokeAdminOption := λ r member, logged (EvRevokeAdmin r) (mc_RevokeAdminOption pg r member);
     mc_RevokeRole := λ r member, logged (EvRevokeRole r) (mc_RevokeRole pg r member);
     mc_MembershipClosure := λ r, logged (EvClosure r) (mc_MembershipClosure pg r) |}.

Section trace.
Context {W : Type} (pg : membershipClient W) (p : policy) (clusterRoles : managedRoles).

Abbreviation emits := (emits (λ _ _ _, True)).
Abbreviation lpg := (logged_client pg).

(** The verdict [r] on [target] was computed from what the server answered. *)
Definition judged (tr : list membership_event) (target : string) (r : option string) : Prop :=
  match membershipNameProblem target p with
  | Some _ => is_Some r
  | None => ∃ closure, EvClosure target (inl closure) ∈ tr ∧ r = membershipProblem target closure p clusterRoles
  end.

Definition is_closure (ev : membership_event) : Prop := match ev with EvClosure _ _ => True | _ => False end.

Lemma target_judged_mono tr tr' target r : (∀ ev, ev ∈ tr → ev ∈ tr') → judged tr target r → judged tr' target r.
Proof. unfold judged. destruct (membershipNameProblem target p); [done|]. intros ? (c & ? & ?). eauto. Qed.

Lemma target_judged_app_l tr rest target r : judged tr target r → judged (tr ++ rest) target r.
Proof. apply target_judged_mono. intros. apply elem_of_app. by left. Qed.

Lemma judged_app_r tr rest target r : judged rest target r → judged (tr ++ rest) target r.
Proof. apply target_judged_mono. intros. apply elem_of_app. by right. Qed.

(** Every cached verdict was computed from the trace so far. *)
Definition cache_ok (tr : list membership_event) (cache : gmap string (option string)) : Prop :=
  ∀ t r, cache !! t = Some r → judged tr t r.

Lemma cache_ok_app tr rest cache : cache_ok tr cache → cache_ok (tr ++ rest) cache.
Proof. intros H t r Ht. by apply target_judged_app_l, H. Qed.

Lemma cache_ok_insert tr t r cache : judged tr t r → cache_ok tr cache → cache_ok tr (<[t := r]> cache).
Proof. intros Hj Hc t' r' [[<- <-]|[_ ?]]%lookup_insert_Some; [done|by apply Hc]. Qed.

Lemma checker_problem_emits target cache tr0 :
  cache_ok tr0 cache →
  emits (checker_problem lpg p clusterRoles target cache) (λ '(r, cache') new,
    Forall is_closure new ∧ cache_ok (tr0 ++ new) cache' ∧ ∀ v, r = inl v → judged (tr0 ++ new) target v).
Proof.
  intros Hc. unfold checker_problem. destruct (cache !! target) as [r|] eqn:E.
  { apply emits_ret. rewrite app_nil_r. split_and!; [done|done|]. intros v [= <-]. by apply Hc. }
  destruct (membershipNameProblem target p) as [e|] eqn:En.
  { assert (judged tr0 target (Some (target +:+ " " +:+ e))) as Hj by (by unfold judged; rewrite En).
    apply emits_ret. rewrite app_nil_r. split_and!; [done|by apply cache_ok_insert|]. by intros v [= <-]. }
  eapply emits_bind; [by apply emits_logged|]. intros c new ->. apply emits_ret. rewrite app_nil_r.
  destruct c as [closure|e]; (split; [by repeat constructor|]); [|by split; [apply cache_ok_app|]].
  assert (judged (tr0 ++ [EvClosure target (inl closure)]) target (membershipProblem target closure p clusterRoles)) as Hj.
  { unfold judged. rewrite En. exists closure. split; [|done]. apply elem_of_app. right. by left. }
  split; [by apply cache_ok_insert, cache_ok_app|]. by intros v [= <-].
Qed.

Lemma checkRequested_emits ds cache tr0 :
  cache_ok tr0 cache →
  emits (checkRequested lpg p clusterRoles ds cache) (λ '(r, cache') new,
    Forall is_closure new ∧ cache_ok (tr0 ++ new) cache' ∧ ∀ desired refused, r = inl (desired, refused) →
      (refused = [] → desired = ds) ∧
      (∀ d, d ∈ desired → d ∈ ds ∧ judged (tr0 ++ new) (rm_Role d) None) ∧
      (∀ d, d ∈ ds → d ∈ desired ∨ ∃ why, judged (tr0 ++ new) (rm_Role d) (Some why))).
Proof.
  revert cache tr0. induction ds as [|d ds IH]; intros cache tr0 Hc; simpl.
  { apply emits_ret. rewrite app_nil_r. split_and!; [done|done|]. intros ? ? [= <- <-]. by split_and!; [|intros d ?%elem_of_nil..]. }
  eapply emits_bind; [by apply checker_problem_emits|]. intros [r cache1] new1 (H1 & Hc1 & Hj1).
  destruct r as [r|e]; [|by apply emits_ret; rewrite app_nil_r].
  eapply emits_bind; [by apply (IH _ (tr0 ++ new1))|]. intros [rest cache2] new2 (H2 & Hc2 & Hj2). apply emits_ret.
  rewrite app_nil_r. rewrite <- app_assoc in *. destruct rest as [[de re]|e]; (split; [by apply Forall_app|]); [|done].
  split; [done|]. destruct (Hj2 de re eq_refl) as (Hall & Hin & Hout).
  destruct r as [why|]; intros desired refused [= <- <-]; split_and!.
  - intros Hre. discriminate Hre.
  - intros d' Hd. destruct (Hin d' Hd). split; [by right|done].
  - intros d' [->|Hd]%elem_of_cons; [|by apply Hout]. right. exists why. rewrite app_assoc. by apply target_judged_app_l, Hj1.
  - intros Hre. by rewrite Hall.
  - intros d' [->|Hd]%elem_of_cons.
    + split; [by left|]. rewrite app_assoc. by apply target_judged_app_l, Hj1.
    + destruct (Hin d' Hd). split; [by right|done].
  - intros d' [->|Hd]%elem_of_cons; [left; by left|]. destruct (Hout d' Hd); [left; by right|by right].
Qed.

Lemma checkManaged_emits ms cache tr0 :
  cache_ok tr0 cache →
  emits (checkManaged lpg p clusterRoles ms cache) (λ '(r, _) new,
    Forall is_closure new ∧ ∀ l, r = inl l → ∀ m, m ∈ l → m ∈ ms ∧ ∃ why, judged (tr0 ++ new) m (Some why)).
Proof.
  revert cache tr0. induction ms as [|m ms IH]; intros cache tr0 Hc; simpl.
  { apply emits_ret. split; [done|]. by intros ? [= <-] m ?%elem_of_nil. }
  eapply emits_bind; [by apply checker_problem_emits|]. intros [r cache1] new1 (H1 & Hc1 & Hj1).
  destruct r as [r|e]; [|by apply emits_ret; rewrite app_nil_r].
  eapply emits_bind; [by apply (IH _ (tr0 ++ new1))|]. intros [rest cache2] new2 (H2 & Hj2). apply emits_ret.
  rewrite app_nil_r. rewrite <- app_assoc in *. destruct rest as [l|e]; (split; [by apply Forall_app|]); [|done].
  specialize (Hj2 l eq_refl). destruct r as [why|]; intros l' [= <-]; intros m' Hm.
  - apply elem_of_cons in Hm as [->|Hm].
    + split; [by left|]. exists why. rewrite app_assoc. by apply target_judged_app_l, Hj1.
    + destruct (Hj2 m' Hm). split; [by right|done].
  - destruct (Hj2 m' Hm). split; [by right|done].
Qed.

(** ** The statements *)

Definition plan_event (plan : membershipPlan) (ev : membership_event) : Prop :=
  match ev with
  | EvGrantRole r o _ => {| mg_Role := r; mg_Opts := o |} ∈ plan_Grant plan
  | EvRevokeAdmin r _ => r ∈ plan_RevokeAdmin plan
  | EvRevokeRole r _ => r ∈ plan_Revoke plan
  | _ => False
  end.

Lemma grantRoles_emits member gs tracked :
  emits (grantRoles lpg member gs tracked) (λ '(tracked', _) new,
    (∀ ev, ev ∈ new → ∃ g e, g ∈ gs ∧ ev = EvGrantRole (mg_Role g) (mg_Opts g) e) ∧ tracked ⊆ tracked' ∧
    ∀ r o, EvGrantRole r o None ∈ new → r ∈ tracked').
Proof.
  revert tracked. induction gs as [|g gs IH]; intros tracked; simpl.
  { apply emits_ret. split_and!; [by intros ? ?%elem_of_nil|done|by intros ? ? ?%elem_of_nil]. }
  eapply emits_bind; [by apply emits_logged|]. intros e new1 ->. destruct e as [e|].
  - apply emits_ret. rewrite app_nil_r. split_and!; [|done|by intros ? ? [=]%list_elem_of_singleton].
    intros ev ->%list_elem_of_singleton. exists g, (Some e). by split; [left|].
  - eapply emits_conseq; [apply IH|]. intros [tracked' err] new (Hev & Hsub & Htr). split_and!.
    + intros ev [->|(g' & e & ? & ->)%Hev]%elem_of_cons; [exists g, None; by split; [left|]|exists g', e; by split; [right|]].
    + set_solver.
    + intros r o [[= -> _]|?]%elem_of_cons; [set_solver|by eapply Htr].
Qed.

Lemma revokeAdmins_emits member rs :
  emits (revokeAdmins lpg member rs) (λ _ new, ∀ ev, ev ∈ new → ∃ r e, r ∈ rs ∧ ev = EvRevokeAdmin r e).
Proof.
  induction rs as [|r rs IH]; simpl; [apply emits_ret; by intros ? ?%elem_of_nil|].
  eapply emits_bind; [by apply emits_logged|]. intros e new1 ->. destruct e as [e|].
  - apply emits_ret. rewrite app_nil_r. intros ev ->%list_elem_of_singleton. exists r, (Some e). by split; [left|].
  - eapply emits_conseq; [apply IH|].
    intros ? new Hev ev [->|(r' & e & ? & ->)%Hev]%elem_of_cons; [exists r, None; by split; [left|]|exists r', e; by split; [right|]].
Qed.

Lemma revokeRoles_emits member rs tracked :
  emits (revokeRoles lpg member rs tracked) (λ '(tracked', _) new,
    (∀ ev, ev ∈ new → ∃ r e, r ∈ rs ∧ ev = EvRevokeRole r e) ∧
    ∀ r, r ∈ tracked → r ∈ tracked' ∨ EvRevokeRole r None ∈ new).
Proof.
  revert tracked. induction rs as [|r rs IH]; intros tracked; simpl.
  { apply emits_ret. split; [by intros ? ?%elem_of_nil|by left]. }
  eapply emits_bind; [by apply emits_logged|]. intros e new1 ->. destruct e as [e|].
  - apply emits_ret. rewrite app_nil_r. split; [|by left].
    intros ev ->%list_elem_of_singleton. exists r, (Some e). by split; [left|].
  - eapply emits_conseq; [apply IH|]. intros [tracked' err] new (Hev & Htr). split.
    + intros ev [->|(r' & e & ? & ->)%Hev]%elem_of_cons; [exists r, None; by split; [left|]|exists r', e; by split; [right|]].
    + intros r' Hr. destruct (decide (r' = r)) as [Heq|]; [rewrite Heq; right; by left|].
      destruct (Htr r') as [?|?]; [set_solver|by left|right; by right].
Qed.

Lemma runPlan_emits member plan tracked :
  emits (runPlan lpg member plan tracked) (λ '(tracked', _) new,
    Forall (plan_event plan) new ∧
    (∀ r, r ∈ tracked ∨ (∃ o, EvGrantRole r o None ∈ new) → r ∈ tracked' ∨ EvRevokeRole r None ∈ new)).
Proof.
  unfold runPlan. eapply emits_bind; [apply grantRoles_emits|]. intros [t1 e1] new1 (Hg & Hsub & Ht1).
  assert (∀ ev, ev ∈ new1 → plan_event plan ev) as Hg'.
  { intros ev (g & e & Hin & ->)%Hg. simpl. by destruct g. }
  destruct e1 as [e1|].
  { apply emits_ret. rewrite app_nil_r. split; [by apply Forall_forall|]. intros r [?|[o ?]]; left; [by apply Hsub|by eapply Ht1]. }
  eapply emits_bind; [apply revokeAdmins_emits|]. intros e2 new2 Ha.
  assert (∀ ev, ev ∈ new2 → plan_event plan ev) as Ha' by (by intros ev (r & e & Hin & ->)%Ha).
  assert (∀ r o, EvGrantRole r o None ∈ new1 ++ new2 → r ∈ t1) as Ht2.
  { intros r o [?|(? & ? & ? & ?)%Ha]%elem_of_app; [by eapply Ht1|done]. }
  destruct e2 as [e2|].
  { apply emits_ret. rewrite app_nil_r. split; [apply Forall_forall; intros ev [?|?]%elem_of_app; auto|].
    intros r [?|[o ?]]; left; [by apply Hsub|by eapply Ht2]. }
  eapply emits_conseq; [apply revokeRoles_emits|]. intros [t3 e3] new3 (Hr & Ht3). rewrite app_assoc. split.
  - rewrite Forall_forall. intros ev [[?|?]%elem_of_app|(r & e & ? & ->)%Hr]%elem_of_app; auto.
  - intros r Hin. assert (r ∈ t1) as Hr1.
    { destruct Hin as [?|[o [?|(? & ? & ? & ?)%Hr]%elem_of_app]]; [by apply Hsub|by eapply Ht2|done]. }
    destruct (Ht3 r Hr1) as [?|?]; [by left|right]. apply elem_of_app. by right.
Qed.

(** What one call of the reconcile may be, given the allowed memberships
    [desired], the managed ones and those the policy refuses. *)
Definition allowed_event (spec : RoleSpec) (managed : list string) (desired : list RoleMembership)
    (forbidden : list string) (ev : membership_event) : Prop :=
  match ev with
  | EvGrantRole r o _ => ∃ d, d ∈ desired ∧ rm_Role d = r ∧ membership_opts d = o
  | EvRevokeAdmin r _ => ∃ d, d ∈ desired ∧ rm_Role d = r ∧ rm_Admin d = false
  | EvRevokeRole r _ =>
      (ShouldRevokeRemovedMemberships spec = true ∧ r ∈ managed ∧ r ∉ (rm_Role <$> desired)) ∨ r ∈ forbidden
  | EvClosure _ _ => False
  | _ => True
  end.

(** A membership that is managed or granted stays recorded, or was revoked. *)
Definition keeps_track (managed : list string) (tracked : list string) (tr : list membership_event) : Prop :=
  ∀ r, r ∈ managed ∨ (∃ o, EvGrantRole r o None ∈ tr) → r ∈ tracked ∨ EvRevokeRole r None ∈ tr.

Lemma plan_event_allowed spec managed desired current forbidden ev :
  let plan := diffMemberships desired managed current (ShouldRevokeRemovedMemberships spec) in
  plan_event {| plan_Grant := plan_Grant plan; plan_RevokeAdmin := plan_RevokeAdmin plan;
                plan_Revoke := sort_compact (plan_Revoke plan ++ filter (λ m, is_current current m = true) forbidden) |} ev →
  allowed_event spec managed desired forbidden ev.
Proof.
  intros plan. destruct ev as [| | |r o e|r e|r e]; cbn [plan_event allowed_event plan_Grant plan_RevokeAdmin plan_Revoke]; try done.
  - intros (d & Heq & [_ Hd]%list_elem_of_filter)%list_elem_of_fmap. injection Heq as -> ->. eauto.
  - intros (d & -> & [Ha Hd]%list_elem_of_filter)%list_elem_of_fmap. exists d. split_and!; [done..|].
    unfold needs_admin_revoke in Ha. destruct (current !! rm_Role d); [|done].
    apply andb_true_iff in Ha as [_ Ha]. by apply negb_true_iff.
  - unfold plan. rewrite elem_of_sort_compact, elem_of_app, list_elem_of_filter, elem_of_plan_Revoke. naive_solver.
Qed.

Lemma elem_of_sortedKeys_set r (s : gset string) : r ∈ sortedKeys s ↔ r ∈ s.
Proof. unfold sortedKeys. by rewrite elem_of_slices_Sort, elem_of_elements. Qed.

Lemma applyMemberships_emits spec managed member desired refused forbidden :
  emits (applyMemberships lpg spec managed member desired refused forbidden) (λ '(err, tracked) new,
    Forall (allowed_event spec managed desired forbidden) new ∧
    (is_Some err → refused = [] → keeps_track managed tracked new) ∧
    (∀ r o, EvGrantRole r o None ∈ new → r ∈ tracked ∨ EvRevokeRole r None ∈ new) ∧
    (err = None → refused = [] ∧ tracked = sortedKeys (list_to_set (rm_Role <$> desired)))).
Proof.
  unfold applyMemberships. eapply emits_bind; [by apply emits_logged|]. intros v new1 ->.
  assert (∀ (e : gerr) evs, Forall (λ ev, match ev with EvVersion _ | EvList _ => True | _ => False end) evs →
    Forall (allowed_event spec managed desired forbidden) evs ∧
    (is_Some (Some e) → refused = [] → keeps_track managed managed evs) ∧
    (∀ r o, EvGrantRole r o None ∈ evs → r ∈ managed ∨ EvRevokeRole r None ∈ evs) ∧
    (Some e = None → refused = [] ∧ managed = sortedKeys (list_to_set (rm_Role <$> desired)))) as Hstop.
  { intros e evs Hevs. rewrite Forall_forall in Hevs.
    assert (∀ r o, EvGrantRole r o None ∈ evs → False) as Hno by (intros r o H%Hevs; done).
    split_and!; [apply Forall_forall; intros ev Hev; specialize (Hevs ev Hev); by destruct ev| | |done].
    - intros _ _ r [?|[o []%Hno]]. by left.
    - by intros r o []%Hno. }
  destruct v as [version|e]; [|apply emits_ret; by apply Hstop; repeat constructor].
  destruct (versionProblem version desired) as [e|]; [apply emits_ret; by apply Hstop; repeat constructor|].
  eapply emits_bind; [by apply emits_logged|]. intros c new2 ->.
  destruct c as [current|e]; [|apply emits_ret; by apply Hstop; repeat constructor].
  eapply emits_bind; [apply runPlan_emits|]. intros [tracked err] new3 (Hplan & Htrack).
  assert (Forall (allowed_event spec managed desired forbidden) (EvVersion (inl version) :: EvList (inl current) :: new3)) as Hall.
  { do 2 (constructor; [done|]). eapply Forall_impl; [exact Hplan|]. intros ev. apply plan_event_allowed. }
  assert (∀ r o, EvGrantRole r o None ∈ EvVersion (inl version) :: EvList (inl current) :: new3 →
    EvGrantRole r o None ∈ new3) as Hin3 by (intros r o [?|[?|?]%elem_of_cons]%elem_of_cons; done).
  destruct err as [e|]; apply emits_ret; rewrite app_nil_r; simpl; (split; [exact Hall|]).
  - assert (∀ r, r ∈ managed ∨ (∃ o, EvGrantRole r o None ∈ new3) → r ∈ sortedKeys tracked ∨ EvRevokeRole r None ∈ new3) as Hk.
    { intros r Hr. rewrite elem_of_sortedKeys_set. apply Htrack. destruct Hr as [?|?]; [left|by right]. set_solver. }
    split_and!; [| |done].
    + intros _ _ r Hr. destruct (Hk r) as [?|?]; [|by left|right; by do 2 right].
      destruct Hr as [?|[o ?%Hin3]]; eauto.
    + intros r o Hr%Hin3. destruct (Hk r) as [?|?]; [eauto|by left|right; by do 2 right].
  - split_and!.
    + intros [e He] ->. done.
    + intros r o Hr. left. rewrite elem_of_sortedKeys_set, elem_of_list_to_set.
      rewrite Forall_forall in Hall. destruct (Hall _ Hr) as (d & Hd & <- & _). by apply list_elem_of_fmap_2.
    + destruct refused; [done|]. by intros.
Qed.

(** The whole reconcile: the allowed requested memberships [desired] and the
    managed ones the policy refuses [forbidden], as the trace justifies them. *)
Lemma reconcileMemberships_emits spec managed member :
  emits (reconcileMemberships lpg p clusterRoles spec managed member) (λ '(err, tracked) new,
    ∃ desired forbidden,
      Forall (λ ev, is_closure ev ∨ allowed_event spec managed desired forbidden ev) new ∧
      (∀ d, d ∈ desired → d ∈ DesiredMemberships spec ∧ judged new (rm_Role d) None) ∧
      (∀ d, d ∈ DesiredMemberships spec → d ∈ desired ∨ (∃ why, judged new (rm_Role d) (Some why)) ∨ Forall is_closure new) ∧
      (∀ r, r ∈ forbidden → r ∈ managed ∧ ∃ why, judged new r (Some why)) ∧
      (∀ r o, EvGrantRole r o None ∈ new → r ∈ tracked ∨ EvRevokeRole r None ∈ new) ∧
      (err = None → desired = DesiredMemberships spec ∧ tracked = sortedKeys (list_to_set (rm_Role <$> desired)))).
Proof.
  assert (∀ e new, Forall is_closure new → ∃ (desired : list RoleMembership) forbidden,
      Forall (λ ev, is_closure ev ∨ allowed_event spec managed desired forbidden ev) new ∧
      (∀ d, d ∈ desired → d ∈ DesiredMemberships spec ∧ judged new (rm_Role d) None) ∧
      (∀ d, d ∈ DesiredMemberships spec → d ∈ desired ∨ (∃ why, judged new (rm_Role d) (Some why)) ∨ Forall is_closure new) ∧
      (∀ r, r ∈ forbidden → r ∈ managed ∧ ∃ why, judged new r (Some why)) ∧
      (∀ r o, EvGrantRole r o None ∈ new → r ∈ managed ∨ EvRevokeRole r None ∈ new) ∧
      ((Some e : error) = None → desired = DesiredMemberships spec ∧ managed = sortedKeys (list_to_set (rm_Role <$> desired)))) as Hstop.
  { intros e new Hnew. exists [], []. split_and!; try by intros ? ?%elem_of_nil.
    - eapply Forall_impl; [exact Hnew|]. by left.
    - intros d _. by right; right.
    - intros r o Hr. rewrite Forall_forall in Hnew. by specialize (Hnew _ Hr).
    - done. }
  unfold reconcileMemberships. case_decide as Hempty.
  { apply emits_ret. destruct Hempty as [-> ->]. exists [], [].
    split_and!; [by constructor|by intros ? ?%elem_of_nil..|by intros ? ? ?%elem_of_nil|done]. }
  eapply emits_bind; [apply (checkRequested_emits _ _ []); by intros ? ? ?|].
  intros [r cache1] new1 (H1 & Hc1 & Hj1). destruct r as [[desired refused]|e]; [|apply emits_ret; rewrite app_nil_r; by apply Hstop].
  destruct (Hj1 desired refused eq_refl) as (Hall & Hin & Hout). simpl in Hin, Hout, Hc1.
  eapply emits_bind; [by apply (checkManaged_emits _ _ new1)|]. intros [f cache2] new2 (H2 & Hj2).
  destruct f as [forbidden|e]; [|apply emits_ret; rewrite app_nil_r; apply Hstop; by apply Forall_app].
  specialize (Hj2 forbidden eq_refl).
  eapply emits_conseq; [apply applyMemberships_emits|]. intros [err tracked] new3 (Hev & _ & Hgr & Hnone).
  assert (∀ r o, EvGrantRole r o None ∈ new1 ++ new2 ++ new3 → EvGrantRole r o None ∈ new3) as Hin3.
  { rewrite Forall_forall in H1, H2. intros r o [?%H1|[?%H2|?]%elem_of_app]%elem_of_app; done. }
  exists desired, forbidden. split_and!.
  - rewrite !Forall_app. split_and!; eapply Forall_impl; try exact H1; try exact H2; try exact Hev; by auto.
  - intros d Hd. destruct (Hin d Hd). split; [done|]. by apply target_judged_app_l.
  - intros d Hd. destruct (Hout d Hd) as [?|[why ?]]; [by left|]. right. left. exists why. by apply target_judged_app_l.
  - intros r Hr. destruct (Hj2 r Hr) as [? [why ?]]. split; [done|]. exists why. rewrite app_assoc. by apply target_judged_app_l.
  - intros r o Hr%Hin3. destruct (Hgr r o Hr); [by left|]. right. rewrite !elem_of_app. auto.
  - intros ->. destruct (Hnone eq_refl) as [-> ?]. by rewrite <- Hall.
Qed.
End trace.

(** Memberships follow the policy and the spec: a role is granted only when a
    declared membership asks for exactly those options and the policy, applied to
    the closure the server reported in this run, allows it; ADMIN is revoked only
    where the spec declares it off; a membership is revoked only when pgop manages
    it and it left the spec or the policy refuses it; every membership granted is
    recorded in the status unless it was revoked again; and a run without an error
    has allowed every declared membership and records exactly those. *)
Theorem memberships_policy_safe W (pg : membershipClient W) p clusterRoles spec managed member w err tracked w' tr :
  reconcileMemberships (logged_client pg) p clusterRoles spec managed member (w, []) = ((err, tracked), (w', tr)) →
  (∀ r o e, EvGrantRole r o e ∈ tr →
    ∃ d, d ∈ DesiredMemberships spec ∧ rm_Role d = r ∧ membership_opts d = o ∧ judged p clusterRoles tr r None) ∧
  (∀ r e, EvRevokeAdmin r e ∈ tr → ∃ d, d ∈ DesiredMemberships spec ∧ rm_Role d = r ∧ rm_Admin d = false) ∧
  (∀ r e, EvRevokeRole r e ∈ tr →
    r ∈ managed ∧ ((ShouldRevokeRemovedMemberships spec = true ∧ r ∉ (rm_Role <$> DesiredMemberships spec))
      ∨ ∃ why, judged p clusterRoles tr r (Some why))) ∧
  (∀ r o, EvGrantRole r o None ∈ tr → r ∈ tracked ∨ EvRevokeRole r None ∈ tr) ∧
  (err = None → (∀ d, d ∈ DesiredMemberships spec → judged p clusterRoles tr (rm_Role d) None) ∧
    tracked = sortedKeys (list_to_set (rm_Role <$> DesiredMemberships spec))).
Proof.
  intros Hrun. destruct (emits_run _ _ _ _ _ _ _ (reconcileMemberships_emits pg p clusterRoles spec managed member) Hrun)
    as [_ (desired & forbidden & Hev & Hin & Hout & Hf & Hgr & Hnone)].
  rewrite Forall_forall in Hev. split_and!; [| | |done|].
  - intros r o e [[]|(d & Hd & <- & <-)]%Hev. destruct (Hin d Hd). eauto.
  - intros r e [[]|(d & Hd & <- & ?)]%Hev. destruct (Hin d Hd). eauto.
  - intros r e He. destruct (Hev _ He) as [[]|[(Hrev & Hm & Hr)|Hr]]; [|destruct (Hf r Hr); auto]. split; [done|].
    destruct (decide (r ∈ (rm_Role <$> DesiredMemberships spec))) as [(d & -> & Hd)%list_elem_of_fmap|]; [|by left].
    right. destruct (Hout d Hd) as [Hd'|[?|Hcl]]; [|done|].
    + destruct Hr. by apply list_elem_of_fmap_2.
    + rewrite Forall_forall in Hcl. by specialize (Hcl _ He).
  - intros ->. destruct (Hnone eq_refl) as [<- ->]. split; [|done]. intros d Hd. by apply Hin.
Qed.

(** A server whose memberships are the world; every role is a plain one. *)
Module Toy.
Definition server : membershipClient (gmap string MembershipState) :=
  {| mc_ServerVersionNum := mret (inl 160002%Z);
     mc_ListMemberships := λ _ _ w, (inl w, w);
     mc_GrantRole := λ r _ o w, (None, exec_grant {| mst_Admin := false; mst_Inherit := Some true; mst_Set := Some true |} w
                                         {| mg_Role := r; mg_Opts := o |});
     mc_RevokeAdminOption := λ r _ w, (None, exec_revoke_admin w r);
     mc_RevokeRole := λ r _ w, (None, delete r w);
     mc_MembershipClosure := λ r, mret (inl [{| rr_Name := r; rr_Via := ""; rr_Superuser := false; rr_CreateRole := false;
       rr_Replication := false; rr_BypassRLS := false; rr_Comment := "marker " +:+ r |}]) |}.

Definition spec : RoleSpec :=
  {| rs_ClusterRef := "c"; rs_RoleName := "app"; rs_Login := None; rs_CreateDB := false; rs_CreateRole := false;
     rs_Inherit := None; rs_Replication := false; rs_BypassRLS := false; rs_ConnectionLimit := None;
     rs_MemberOf := ["writers"; "pg_write_all_data"]; rs_Memberships := [{| rm_Role := "readers"; rm_Inherit := None; rm_Set := Some false; rm_Admin := false |}];
     rs_RevokeRemovedMemberships := None; rs_PasswordSecretRef := None; rs_PasswordRotation := None;
     rs_ParameterGrants := []; rs_ReassignOwnedTo := None; rs_Settings := ∅; rs_DatabaseSettings := [] |}.

Definition managed : managedRoles := {[ "writers" := "marker writers"; "readers" := "marker readers" ]}.
Definition world : gmap string MembershipState :=
  {[ "old" := {| mst_Admin := false; mst_Inherit := Some true; mst_Set := Some true |} ]}.
Definition run := reconcileMemberships (logged_client server) None managed spec ["old"] "app" (world, []).
End Toy.

(** The toy run grants the two allowed memberships, revokes the removed one and
    refuses the predefined role. *)
Lemma memberships_policy_safe_witness :
  let err := Toy.run.1.1 in let tracked := Toy.run.1.2 in let tr := Toy.run.2.2 in
  (EvRevokeRole "old" None ∈ tr ∧ err ≠ None ∧ tracked = ["readers"; "writers"]) ∧
  (∀ r o e, EvGrantRole r o e ∈ tr →
    ∃ d, d ∈ DesiredMemberships Toy.spec ∧ rm_Role d = r ∧ membership_opts d = o ∧ judged None Toy.managed tr r None) ∧
  (∀ r e, EvRevokeAdmin r e ∈ tr → ∃ d, d ∈ DesiredMemberships Toy.spec ∧ rm_Role d = r ∧ rm_Admin d = false) ∧
  (∀ r e, EvRevokeRole r e ∈ tr →
    r ∈ ["old"] ∧ ((ShouldRevokeRemovedMemberships Toy.spec = true ∧ r ∉ (rm_Role <$> DesiredMemberships Toy.spec))
      ∨ ∃ why, judged None Toy.managed tr r (Some why))) ∧
  (∀ r o, EvGrantRole r o None ∈ tr → r ∈ tracked ∨ EvRevokeRole r None ∈ tr) ∧
  (err = None → (∀ d, d ∈ DesiredMemberships Toy.spec → judged None Toy.managed tr (rm_Role d) None) ∧
    tracked = sortedKeys (list_to_set (rm_Role <$> DesiredMemberships Toy.spec))).
Proof.
  intros err tracked tr. split.
  { split_and!; [vm_compute; repeat constructor|by vm_compute|by vm_compute]. }
  eapply (memberships_policy_safe _ Toy.server None Toy.managed Toy.spec ["old"] "app" Toy.world _ _ Toy.run.2.1 _).
  by vm_compute.
Defined.
