(* ===== verification/GranteePolicy.v ===== *)
(** * The grantee policy (src/internal/controller/grantee_policy.go)

    Which grantees pgop grants to: the decision for a grantee, a [forRole] and an
    owner, their caches, and the filter over a list of grants. *)

From Stdlib Require Import Ascii.
From S2P Require Import Prelude GoStrings GoStrconv Privileges ApiTypes RolePolicy GrantEngine Trace.

Definition ReasonGranteeNotAllowed : string := "GranteeNotAllowed".

Inductive granteeVerdict := granteeAllowed | granteeMissing | granteePaused | granteeRefused.

#[export] Instance granteeVerdict_eq_dec : EqDecision granteeVerdict.
Proof. solve_decision. Defined.

Definition granteeNameProblem (name : string) : option string :=
  if IsPublic name then None
  else if decide (name = bootstrapRoleName) then Some "is reserved (bootstrap superuser)"
  else if HasPrefix name reservedRolePrefix then Some "is reserved for the operator"
  else if HasPrefix name "pg_" then Some "is a predefined role"
  else if EqualFold name "none" then Some "is a reserved role name"
  else None.

Definition granteeProblem (r : ReachableRole) (p : policy) (managed : managedRoles) : option string :=
  match granteeNameProblem (rr_Name r) with
  | Some e => Some e
  | None =>
      if rr_Superuser r then Some problemSuperuser
      else if manages managed r || AllowsExistingRole p (rr_Name r) then None
      else Some problemNotManaged
  end.

Record granteeResult := { gr_verdict : granteeVerdict; gr_problem : string }.

Definition verdict (v : granteeVerdict) : granteeResult := {| gr_verdict := v; gr_problem := "" |}.
Definition refusal (problem : string) : granteeResult := {| gr_verdict := granteeRefused; gr_problem := problem |}.

(** The caches of a [granteeChecker]. *)
Record checkerCaches := {
  ck_cache : gmap string granteeResult;
  ck_forRoles : gmap string granteeResult;
  ck_owners : gmap string bool }.

Definition no_caches : checkerCaches := {| ck_cache := ∅; ck_forRoles := ∅; ck_owners := ∅ |}.

(** What the checker is built from, besides the server. *)
Record granteeChecker := {
  gc_policy : policy;
  gc_managed : managedRoles;
  gc_deleting : gset string }.

Section checker.
Context {W : Type} (LookupRole : string → M W (result (option ReachableRole))) (c : granteeChecker).

Definition managesRole (name : string) (st : checkerCaches) : M W (result bool * checkerCaches) :=
  match ck_owners st !! name with
  | Some v => mret (inl v, st)
  | None =>
      let store v := {| ck_cache := ck_cache st; ck_forRoles := ck_forRoles st; ck_owners := <[name := v]> (ck_owners st) |} in
      if bool_decide (is_Some (gc_managed c !! name)) && bool_decide (granteeNameProblem name = None) && negb (IsPublic name)
      then
        r ← LookupRole name;
        mret (match r with
              | inr e => (inr e, st)
              | inl r =>
                  let v := match r with Some r => negb (rr_Superuser r) && manages (gc_managed c) r | None => false end in
                  (inl v, store v)
              end)
      else mret (inl false, store false)
  end.

(** The decisions, given what the server answers. *)
Definition decideForRole (name : string) : M W (result granteeResult) :=
  if IsPublic name then mret (inl (refusal "is PUBLIC, not a role"))
  else match granteeNameProblem name with
  | Some p => mret (inl (refusal p))
  | None =>
      if decide (name ∈ gc_deleting c) then mret (inl (verdict granteePaused))
      else
        r ← LookupRole name;
        mret (match r with
              | inr e => inr e
              | inl None => inl (verdict granteeMissing)
              | inl (Some r) =>
                  inl (if rr_Superuser r then refusal problemSuperuser
                       else if negb (manages (gc_managed c) r) then refusal "is not managed by a Role of this Cluster"
                       else verdict granteeAllowed)
              end)
  end.

Definition checkForRole (name : string) (st : checkerCaches) : M W (result granteeResult * checkerCaches) :=
  match ck_forRoles st !! name with
  | Some res => mret (inl res, st)
  | None =>
      r ← decideForRole name;
      mret (match r with
            | inr e => (inr e, st)
            | inl res => (inl res, {| ck_cache := ck_cache st; ck_forRoles := <[name := res]> (ck_forRoles st);
                                      ck_owners := ck_owners st |})
            end)
  end.

Definition decideGrantee (grantee : string) : M W (result granteeResult) :=
  if IsPublic grantee then mret (inl (verdict granteeAllowed))
  else match granteeNameProblem grantee with
  | Some p => mret (inl (refusal p))
  | None =>
      if decide (grantee ∈ gc_deleting c) then mret (inl (verdict granteePaused))
      else
        r ← LookupRole grantee;
        mret (match r with
              | inr e => inr e
              | inl None => inl (verdict granteeMissing)
              | inl (Some r) => inl (match granteeProblem r (gc_policy c) (gc_managed c) with
                                     | Some p => refusal p
                                     | None => verdict granteeAllowed
                                     end)
              end)
  end.

Definition check (grantee : string) (st : checkerCaches) : M W (result granteeResult * checkerCaches) :=
  match ck_cache st !! grantee with
  | Some res => mret (inl res, st)
  | None =>
      r ← decideGrantee grantee;
      mret (match r with
            | inr e => (inr e, st)
            | inl res => (inl res, {| ck_cache := <[grantee := res]> (ck_cache st); ck_forRoles := ck_forRoles st;
                                      ck_owners := ck_owners st |})
            end)
  end.

(** What a [grantFilter] held back. *)
Record grantFilter := { gf_missing : list string; gf_paused : list string; gf_refused : list string }.

Definition no_filter : grantFilter := {| gf_missing := []; gf_paused := []; gf_refused := [] |}.

Definition hold_back `{UnicodePrint} (f : grantFilter) (field grantee : string) (res : granteeResult) : grantFilter :=
  match gr_verdict res with
  | granteeAllowed => f
  | granteeMissing =>
      {| gf_missing := gf_missing f ++ [field +:+ ": PostgreSQL role " +:+ Quote grantee +:+ " does not exist yet"];
         gf_paused := gf_paused f; gf_refused := gf_refused f |}
  | granteePaused =>
      {| gf_missing := gf_missing f;
         gf_paused := gf_paused f ++ [field +:+ ": grants to " +:+ grantee +:+ " are paused: the Role is being deleted"];
         gf_refused := gf_refused f |}
  | granteeRefused =>
      {| gf_missing := gf_missing f; gf_paused := gf_paused f;
         gf_refused := gf_refused f ++ [field +:+ ": " +:+ grantee +:+ " " +:+ gr_problem res] |}
  end.

(** [grantFilter.filter]: the filter and the caches are threaded through. *)
Fixpoint grantFilter_filter `{UnicodePrint} (field : string) (desired : list privilegeGrant) (f : grantFilter)
    (st : checkerCaches) : M W (result (list privilegeGrant) * grantFilter * checkerCaches) :=
  match desired with
  | [] => mret (inl [], f, st)
  | g :: gs =>
      '(r, st) ← check (gt_Grantee (g_Target g)) st;
      match r with
      | inr e => mret (inr e, f, st)
      | inl res =>
          '(rest, f, st) ← grantFilter_filter field gs (hold_back f field (gt_Grantee (g_Target g)) res) st;
          mret (match rest with
                | inr e => (inr e, f, st)
                | inl out => (inl (if decide (gr_verdict res = granteeAllowed) then g :: out else out), f, st)
                end)
      end
  end.

Definition grantFilter_err (f : grantFilter) : error :=
  errors_Join (Some <$>
    ((if decide (gf_refused f = []) then []
      else [CondErr ReasonGranteeNotAllowed (Errorf
        "grantees not allowed (grants to them are not applied, and revoked if pgop granted them): %s"
        [Join (gf_refused f) "; "])])
     ++ (if decide (gf_missing f = []) then [] else [Errorf (Join (gf_missing f) "; ") []])
     ++ (if decide (gf_paused f = []) then [] else [Errorf (Join (gf_paused f) "; ") []]))).
End checker.

(** ** The decision as a function of the server's answer *)

(** The verdict on [grantee] when the server answers [r]. *)
Definition grantee_verdict (c : granteeChecker) (grantee : string) (r : option ReachableRole) : granteeResult :=
  if IsPublic grantee then verdict granteeAllowed
  else match granteeNameProblem grantee with
  | Some p => refusal p
  | None =>
      if decide (grantee ∈ gc_deleting c) then verdict granteePaused
      else match r with
           | None => verdict granteeMissing
           | Some r => match granteeProblem r (gc_policy c) (gc_managed c) with
                       | Some p => refusal p
                       | None => verdict granteeAllowed
                       end
           end
  end.

(** A grantee other than PUBLIC that the policy lets pgop grant to. *)
Definition acceptable (c : granteeChecker) (grantee : string) (r : ReachableRole) : Prop :=
  grantee ∉ gc_deleting c ∧ granteeNameProblem grantee = None ∧ granteeNameProblem (rr_Name r) = None ∧
  rr_Superuser r = false ∧ (manages (gc_managed c) r = true ∨ AllowsExistingRole (gc_policy c) (rr_Name r) = true).

Lemma granteeProblem_None r p managed :
  granteeProblem r p managed = None ↔
  granteeNameProblem (rr_Name r) = None ∧ rr_Superuser r = false ∧
  (manages managed r = true ∨ AllowsExistingRole p (rr_Name r) = true).
Proof.
  unfold granteeProblem. destruct (granteeNameProblem _); [naive_solver|].
  destruct (rr_Superuser r); [naive_solver|]. rewrite <- orb_true_iff.
  destruct (_ || _); naive_solver.
Qed.

Lemma grantee_verdict_allowed c grantee r :
  gr_verdict (grantee_verdict c grantee r) = granteeAllowed ↔
  IsPublic grantee = true ∨ ∃ r', r = Some r' ∧ acceptable c grantee r'.
Proof.
  unfold grantee_verdict, acceptable. destruct (IsPublic grantee); [naive_solver|].
  destruct (granteeNameProblem grantee) eqn:En; [naive_solver|].
  case_decide; [naive_solver|]. destruct r as [r|]; [|naive_solver].
  pose proof (granteeProblem_None r (gc_policy c) (gc_managed c)) as Hp.
  destruct (granteeProblem r _ _); naive_solver.
Qed.
