(* ===== verification/Grants.v ===== *)
(** * Database, schema and parameter grants (src/internal/controller/grant_ledgers.go,
    database_grants.go, role_parameter_grants.go)

    The conversion of specs and status ledgers to the engine's grants, and the
    reconciles that filter the grantees, run the engine and record its ledger.
    A status is passed and returned; [save] is the write of the status to the API
    server ([None] is Go's nil). *)

From Stdlib Require Import Ascii.
From S2P Require Import Prelude GoStrings GoStrconv Privileges Parameters ApiTypes RolePolicy.
From S2P Require Import Settings GrantEngine GranteePolicy.

(** ** Targets and ledgers *)

Definition plain_target (kind name grantee : string) : grantTarget :=
  {| gt_Kind := kind; gt_Name := name; gt_Grantee := grantee; gt_Schema := ""; gt_ForRole := ""; gt_OID := 0 |}.

Definition databaseTarget (database grantee : string) : grantTarget :=
  plain_target ObjectDatabase database (CanonicalGrantee grantee).
Definition schemaTarget (schema grantee : string) : grantTarget :=
  plain_target ObjectSchema schema (CanonicalGrantee grantee).
Definition parameterTarget (parameter member : string) : grantTarget := plain_target ObjectParameter parameter member.

Definition databaseGrantLedgerLimit : ledgerLimit := 512%Z.
Definition schemaGrantLedgerLimit : ledgerLimit := 2048%Z.
Definition parameterGrantLedgerLimit : ledgerLimit := 512%Z.

Definition grantOptionsOf (privileges grantOptions : list string) (legacyWithGrantOption : bool) : list string :=
  if legacyWithGrantOption then str_union grantOptions privileges else grantOptions.

Definition databaseLedger (pgName : string) (managed : list ManagedDatabaseGrant) : list privilegeGrant :=
  (λ m, {| g_Target := databaseTarget pgName (mdg_Role m); g_Privileges := mdg_Privileges m;
           g_GrantOptions := grantOptionsOf (mdg_Privileges m) (mdg_GrantOptions m) (mdg_WithGrantOption m) |}) <$> managed.

Definition databaseLedgerStatus (ledger : list privilegeGrant) : list ManagedDatabaseGrant :=
  (λ g, {| mdg_Role := gt_Grantee (g_Target g); mdg_Privileges := g_Privileges g; mdg_GrantOptions := g_GrantOptions g;
           mdg_WithGrantOption := false |}) <$> ledger.

Definition schemaLedger (managed : list ManagedSchemaGrant) : list privilegeGrant :=
  (λ m, {| g_Target := schemaTarget (msg_Schema m) (msg_Role m); g_Privileges := msg_Privileges m;
           g_GrantOptions := grantOptionsOf (msg_Privileges m) (msg_GrantOptions m) (msg_WithGrantOption m) |}) <$> managed.

Definition schemaLedgerStatus (ledger : list privilegeGrant) : list ManagedSchemaGrant :=
  (λ g, {| msg_Schema := gt_Name (g_Target g); msg_Role := gt_Grantee (g_Target g); msg_Privileges := g_Privileges g;
           msg_GrantOptions := g_GrantOptions g; msg_WithGrantOption := false |}) <$> ledger.

Definition parameterLedger (member : string) (managed : list ManagedParameterGrant) : list privilegeGrant :=
  (λ m, {| g_Target := parameterTarget (mpg_Parameter m) member; g_Privileges := mpg_Privileges m;
           g_GrantOptions := grantOptionsOf (mpg_Privileges m) (mpg_GrantOptions m) (mpg_WithGrantOption m) |}) <$> managed.

Definition parameterLedgerStatus (ledger : list privilegeGrant) : list ManagedParameterGrant :=
  (λ g, {| mpg_Parameter := gt_Name (g_Target g); mpg_Privileges := g_Privileges g; mpg_GrantOptions := g_GrantOptions g;
           mpg_WithGrantOption := false |}) <$> ledger.

(** ** What the specs declare *)

Section desired.
Context `{UP : UnicodePrint}.

Fixpoint databaseGrants_go (grants : list DatabaseGrantSpec) (pgName : string) (seen : gset string)
    : result (list privilegeGrant) :=
  match grants with
  | [] => inl []
  | g :: gs =>
      let t := databaseTarget pgName (dgs_Role g) in
      if decide (gt_Grantee t ∈ seen) then inr (Errorf "grants: role %q is listed more than once" [gt_Grantee t])
      else if decide (gt_Grantee t = PublicGrantee ∧ dgs_WithGrantOption g = true)
      then inr (Errorf "grants[PUBLIC]: the grant option cannot be granted to PUBLIC" [])
      else
        match NormalizeDatabasePrivileges (dgs_Privileges g) with
        | inr e => inr (Wrapf "grants[%s]: %w" [dgs_Role g] e)
        | inl privs =>
            try rest := databaseGrants_go gs pgName ({[gt_Grantee t]} ∪ seen) in
            inl (desiredGrant t privs (dgs_WithGrantOption g) :: rest)
        end
  end.

Definition desiredDatabaseGrants (grants : list DatabaseGrantSpec) (pgName : string) : result (list privilegeGrant) :=
  databaseGrants_go grants pgName ∅.

(** One schema's grants; [seen] are the keys met so far. *)
Fixpoint schemaGrants_one (field schema : string) (grants : list GrantSpec) (seen : gset string)
    : result (list privilegeGrant * gset string) :=
  match grants with
  | [] => inl ([], seen)
  | g :: gs =>
      let t := schemaTarget schema (gs_Role g) in
      if decide (key t ∈ seen) then inr (Errorf "%s: role %q is listed more than once" [field; gt_Grantee t])
      else if decide (gt_Grantee t = PublicGrantee ∧ gs_WithGrantOption g = true)
      then inr (Errorf "%s[PUBLIC]: the grant option cannot be granted to PUBLIC" [field])
      else
        match NormalizeSchemaPrivileges (gs_Privileges g) with
        | inr e => inr (Wrapf "%s[%s]: %w" [field; gs_Role g] e)
        | inl privs =>
            try (rest, seen) := schemaGrants_one field schema gs ({[key t]} ∪ seen) in
            inl (desiredGrant t privs (gs_WithGrantOption g) :: rest, seen)
        end
  end.

Definition schema_field (name : string) : string := "schemas[" +:+ name +:+ "].grants".

(** [fields] in spec order, with the map [grants] from field to grants. *)
Fixpoint schemaGrants_go (schemas : list SchemaSpec) (managedSchemas : gset string) (fields : list string)
    (grants : gmap string (list privilegeGrant)) (seen : gset string)
    : result (list string * gmap string (list privilegeGrant)) :=
  match schemas with
  | [] => inl (fields, grants)
  | s :: ss =>
      if decide (ss_Name s ∉ managedSchemas ∨ ss_Grants s = []) then schemaGrants_go ss managedSchemas fields grants seen
      else
        let field := schema_field (ss_Name s) in
        match grants !! field with
        | Some _ => inr (Errorf "schemas: schema %q is listed more than once" [ss_Name s])
        | None =>
            try (l, seen) := schemaGrants_one field (ss_Name s) (ss_Grants s) seen in
            schemaGrants_go ss managedSchemas (fields ++ [field]) (<[field := l]> grants) seen
        end
  end.

Definition desiredSchemaGrants (schemas : list SchemaSpec) (managedSchemas : gset string)
    : result (list string * gmap string (list privilegeGrant)) :=
  schemaGrants_go schemas managedSchemas [] ∅ ∅.

Fixpoint parameterGrants_go (grants : list ParameterGrantSpec) (member : string) (seen : gset string)
    : result (list privilegeGrant * list string) :=
  match grants with
  | [] => inl ([], [])
  | g :: gs =>
      match NormalizeParameterName (pgs_Parameter g) with
      | inr e => inr (Wrapf "parameterGrants: %w" [] e)
      | inl name =>
          if decide (name ∈ seen)
          then inr (Errorf "parameterGrants: parameter %q is listed more than once (names are case-insensitive)" [name])
          else if DeniedParameter name
          then
            try (rest, denied) := parameterGrants_go gs member ({[name]} ∪ seen) in inl (rest, name :: denied)
          else
            match NormalizeParameterPrivileges (pgs_Privileges g) with
            | inr e => inr (Wrapf "parameterGrants[%s]: %w" [name] e)
            | inl privs =>
                try (rest, denied) := parameterGrants_go gs member ({[name]} ∪ seen) in
                inl (desiredGrant (parameterTarget name member) privs (pgs_WithGrantOption g) :: rest, denied)
            end
      end
  end.

Definition desiredParameterGrants (grants : list ParameterGrantSpec) (member : string)
    : result (list privilegeGrant * list string) :=
  parameterGrants_go grants member ∅.
End desired.

(** ** The reconciles *)

Record databaseGrantClient (W : Type) := {
  dgc_executor : privilegeExecutor W;
  dgc_HeldFromAnyGrantor : PrivilegeObject → string → string → M W (result bool);
  dgc_RoleExists : string → M W (result bool);
  dgc_SetDatabaseParameter : string → string → string → M W error;
  dgc_ResetDatabaseParameter : string → string → M W error;
  dgc_ParameterContext : string → M W context_result }.

Record schemaGrantClient (W : Type) := {
  sgc_executor : privilegeExecutor W;
  sgc_RoleExists : string → M W (result bool);
  sgc_SchemaExists : string → M W (result bool) }.

Record parameterGrantClient (W : Type) := {
  pgc_ServerVersionNum : M W (result Z);
  pgc_executor : privilegeExecutor W;
  pgc_RoleExists : string → M W (result bool);
  pgc_ParameterContext : string → M W context_result }.
Arguments dgc_executor {W}. Arguments dgc_HeldFromAnyGrantor {W}. Arguments dgc_RoleExists {W}.
Arguments dgc_SetDatabaseParameter {W}. Arguments dgc_ResetDatabaseParameter {W}. Arguments dgc_ParameterContext {W}.
Arguments sgc_executor {W}. Arguments sgc_RoleExists {W}. Arguments sgc_SchemaExists {W}.
Arguments pgc_ServerVersionNum {W}. Arguments pgc_executor {W}. Arguments pgc_RoleExists {W}.
Arguments pgc_ParameterContext {W}.

(** [statusSaver]. *)
Abbreviation statusSaver W S := (option (S → M W error)).

(** The [persist] closures: set the field of the status, then save it. *)
Definition persist_with {W S} (save : statusSaver W S) (set : list privilegeGrant → S) : ledgerPersist W :=
  Some (λ ledger, match save with None => mret None | Some f => f (set ledger) end).

Definition roleGone {W} (RoleExists : string → M W (result bool)) (t : grantTarget) : M W (result bool) :=
  if IsPublic (gt_Grantee t) then mret (inl false)
  else
    r ← RoleExists (gt_Grantee t);
    mret (match r with inl exists_ => inl (negb exists_) | inr e => inr e end).

Section reconciles.
Context `{UP : UnicodePrint} {W : Type} (LookupRole : string → M W (result (option ReachableRole))) (c : granteeChecker).

Definition reconcileDatabaseGrants (pg : databaseGrantClient W) (spec : DatabaseSpec) (pgName : string)
    (save : statusSaver W DatabaseStatus) (st : DatabaseStatus) (ck : checkerCaches)
    : M W (error * DatabaseStatus * checkerCaches) :=
  match desiredDatabaseGrants (ds_Grants spec) pgName with
  | inr e => mret (Some e, st, ck)
  | inl all =>
      let managed := databaseLedger pgName (dst_ManagedGrants st) in
      if decide (all = [] ∧ managed = []) then mret (None, st, ck)
      else
        '(r, held, ck) ← grantFilter_filter LookupRole c "grants" all no_filter ck;
        match r with
        | inr e => mret (Some e, st, ck)
        | inl desired =>
            '(after, err) ← applyPrivilegeGrants (executorOps (dgc_executor pg) (Some (roleGone (dgc_RoleExists pg))))
                desired managed databaseGrantLedgerLimit
                (persist_with save (λ l, set_ManagedGrants st (databaseLedgerStatus l)));
            mret (errors_Join [err; grantFilter_err held], set_ManagedGrants st (databaseLedgerStatus after), ck)
        end
  end.

(** The fields in order, each filtered. *)
Fixpoint filterFields (fields : list string) (all : gmap string (list privilegeGrant)) (held : grantFilter)
    (ck : checkerCaches) : M W (result (list privilegeGrant) * grantFilter * checkerCaches) :=
  match fields with
  | [] => mret (inl [], held, ck)
  | f :: fs =>
      '(r, held, ck) ← grantFilter_filter LookupRole c f (default [] (all !! f)) held ck;
      match r with
      | inr e => mret (inr e, held, ck)
      | inl allowed =>
          '(rest, held, ck) ← filterFields fs all held ck;
          mret (match rest with inr e => inr e | inl out => inl (allowed ++ out) end, held, ck)
      end
  end.

Definition schemaGone (pg : schemaGrantClient W) (t : grantTarget) : M W (result bool) :=
  e ← sgc_SchemaExists pg (gt_Name t);
  match e with
  | inr e => mret (inr e)
  | inl false => mret (inl true)
  | inl true => roleGone (sgc_RoleExists pg) t
  end.

Definition reconcileSchemaGrants (pg : schemaGrantClient W) (spec : DatabaseSpec) (managedSchemas : gset string)
    (save : statusSaver W DatabaseStatus) (st : DatabaseStatus) (ck : checkerCaches)
    : M W (error * DatabaseStatus * checkerCaches) :=
  match desiredSchemaGrants (ds_Schemas spec) managedSchemas with
  | inr e => mret (Some e, st, ck)
  | inl (fields, all) =>
      let managed := schemaLedger (dst_ManagedSchemaGrants st) in
      if decide (fields = [] ∧ managed = []) then mret (None, st, ck)
      else
        '(r, held, ck) ← filterFields fields all no_filter ck;
        match r with
        | inr e => mret (Some e, st, ck)
        | inl desired =>
            '(after, err) ← applyPrivilegeGrants (executorOps (sgc_executor pg) (Some (schemaGone pg)))
                desired managed schemaGrantLedgerLimit
                (persist_with save (λ l, set_ManagedSchemaGrants st (schemaLedgerStatus l)));
            mret (errors_Join [err; grantFilter_err held], set_ManagedSchemaGrants st (schemaLedgerStatus after), ck)
        end
  end.
End reconciles.

(** ** Parameter grants of a Role *)

Definition MinParameterPrivilegesVersion : Z := 150000.
Definition ReasonParameterNotAllowed : string := "ParameterNotAllowed".
Definition ReasonUnsupportedServerVersion : string := "UnsupportedServerVersion".
Definition grantableParameterContexts : list string := [pgContextUser; pgContextSuperuser].

Definition set_ManagedParameterGrants (st : RoleStatus) (v : list ManagedParameterGrant) : RoleStatus :=
  {| rst_Conditions := rst_Conditions st; rst_Ready := rst_Ready st; rst_RoleName := rst_RoleName st; rst_ClusterUID := rst_ClusterUID st;
     rst_SecretName := rst_SecretName st; rst_PasswordRotatedAt := rst_PasswordRotatedAt st;
     rst_PasswordRotationRequest := rst_PasswordRotationRequest st; rst_PasswordHash := rst_PasswordHash st;
     rst_ManagedMemberships := rst_ManagedMemberships st; rst_ManagedParameterGrants := v;
     rst_ManagedSettings := rst_ManagedSettings st; rst_ManagedDatabaseSettings := rst_ManagedDatabaseSettings st |}.

Section parameters.
Context `{UP : UnicodePrint} {W : Type} (pg : parameterGrantClient W).

Fixpoint filterParameterContexts (desired : list privilegeGrant) : M W (result (list privilegeGrant * list string)) :=
  match desired with
  | [] => mret (inl ([], []))
  | g :: gs =>
      r ← pgc_ParameterContext pg (gt_Name (g_Target g));
      match r with
      | inr e => mret (inr e)
      | inl found =>
          rest ← filterParameterContexts gs;
          mret (try (allowed, refused) := rest in
                inl (match found with
                     | Some ctx => if slices_Contains grantableParameterContexts ctx then (g :: allowed, refused)
                                   else (allowed, (gt_Name (g_Target g) +:+ " (context " +:+ Quote ctx +:+ ")") :: refused)
                     | None => (g :: allowed, refused)
                     end))
      end
  end.

Definition deniedError (denied : list string) : error :=
  match denied with
  | [] => None
  | _ => Some (CondErr ReasonParameterNotAllowed (Errorf
      "parameterGrants not allowed (they switch identity, load code or bypass safeguards): %s" [Join denied ", "]))
  end.

Definition refusedError (deniedErr : error) (refused : list string) : error :=
  match refused with
  | [] => deniedErr
  | _ => errors_Join [deniedErr; Some (CondErr ReasonParameterNotAllowed (Errorf
      "parameterGrants not allowed (only user and superuser parameters can be granted): %s" [Join refused ", "]))]
  end.

Definition reconcileParameterGrants (spec : RoleSpec) (member : string) (save : statusSaver W RoleStatus) (st : RoleStatus)
    : M W (error * RoleStatus) :=
  match desiredParameterGrants (rs_ParameterGrants spec) member with
  | inr e => mret (Some e, st)
  | inl (desired, denied) =>
      let deniedErr := deniedError denied in
      let managed := parameterLedger member (rst_ManagedParameterGrants st) in
      if decide (desired = [] ∧ managed = []) then mret (deniedErr, st)
      else
        v ← pgc_ServerVersionNum pg;
        match v with
        | inr e => mret (Some e, st)
        | inl version =>
            if bool_decide (version < MinParameterPrivilegesVersion)%Z then
              if decide (desired = []) then mret (deniedErr, set_ManagedParameterGrants st [])
              else mret (Some (CondErr ReasonUnsupportedServerVersion (Errorf
                "parameterGrants require PostgreSQL 15 or later (server_version_num %d); remove them or upgrade the cluster"
                [Itoa version])), st)
            else
              f ← filterParameterContexts desired;
              match f with
              | inr e => mret (Some e, st)
              | inl (desired, refused) =>
                  '(after, err) ← applyPrivilegeGrants (executorOps (pgc_executor pg) None) desired managed
                      parameterGrantLedgerLimit
                      (persist_with save (λ l, set_ManagedParameterGrants st (parameterLedgerStatus l)));
                  mret (match err with Some e => Some e | None => refusedError deniedErr refused end,
                        set_ManagedParameterGrants st (parameterLedgerStatus after))
              end
        end
  end.

(** Before DROP ROLE. *)
Definition revokeManagedParameterGrants (member : string) (st : RoleStatus) : M W (error * RoleStatus) :=
  let managed := parameterLedger member (rst_ManagedParameterGrants st) in
  if decide (managed = []) then mret (None, st)
  else
    r ← pgc_RoleExists pg member;
    match r with
    | inr e => mret (Some e, st)
    | inl false => mret (None, st)
    | inl true =>
        '(after, err) ← applyPrivilegeGrants (executorOps (pgc_executor pg) None) [] managed parameterGrantLedgerLimit None;
        mret (err, set_ManagedParameterGrants st (parameterLedgerStatus after))
    end.
End parameters.
