(* ===== verification/ObjectGrants.v ===== *)
(** * Object grants and default privileges (src/internal/controller/database_object_grants.go)

    The planner that resolves the selected objects and applies the owner rules,
    the ledgers, and the two reconciles over the grant engine. The planner's
    fields are passed and returned; the caches of the grantee checker are
    threaded through. *)

From Stdlib Require Import Ascii.
From S2P Require Import Prelude GoStrings GoStrconv Privileges Parameters ApiTypes RolePolicy Objects.
From S2P Require Import GrantEngine GranteePolicy Grants.

Definition ReasonObjectGrantSkipped : string := "ObjectGrantSkipped".
Definition ReasonObjectNotFound : string := "ObjectNotFound".
Definition ReasonTooManyObjects : string := "TooManyObjects".
Definition ReasonDefaultPrivilegeNotAllowed : string := "DefaultPrivilegeNotAllowed".
Definition ReasonAllObjectsGranted : string := "AllObjectsGranted".
Definition ConditionTypeObjectGrantsComplete : string := "ObjectGrantsComplete".
Definition PrivilegeMaintain : string := "MAINTAIN".
Definition PrivilegeTrigger : string := "TRIGGER".
Definition MinMaintainPrivilegeVersion : Z := 170000.

Definition objectGrantLedgerLimit : ledgerLimit := 4096.
Definition defaultPrivilegeLedgerLimit : ledgerLimit := 2048.
Definition maxObjectsPerKind : Z := 5000.
Definition maxSkippedExamples : nat := 5.
Definition selectAll : string := "*".
Definition maxIdentityLength : nat := 1024.
Definition objectLedgerByteBudget : Z := 512 * 1024.

Definition invokerSafeLanguages : list string := ["sql"; "plpgsql"].

(** ** Kinds *)

Record objectKindInfo := { ki_api : ObjectGrantKind; ki_pg : string }.

Definition objectKindInfos : list objectKindInfo :=
  [{| ki_api := "table"; ki_pg := SchemaTable |}; {| ki_api := "sequence"; ki_pg := SchemaSequence |};
   {| ki_api := "function"; ki_pg := SchemaFunction |}; {| ki_api := "procedure"; ki_pg := SchemaProcedure |};
   {| ki_api := "type"; ki_pg := SchemaType |}].

Definition objectKindOf (k : string) : option objectKindInfo :=
  head (filter (λ ki, ki_api ki = k ∨ ki_pg ki = k) objectKindInfos).

Definition isRoutine (ki : objectKindInfo) : bool :=
  bool_decide (ki_pg ki = SchemaFunction) || bool_decide (ki_pg ki = SchemaProcedure).

Record defaultKindInfo := { dki_api : DefaultPrivilegeKind; dki_pg : string; dki_object : string }.

Definition defaultKindInfos : list defaultKindInfo :=
  [{| dki_api := "table"; dki_pg := "TABLES"; dki_object := SchemaTable |};
   {| dki_api := "sequence"; dki_pg := "SEQUENCES"; dki_object := SchemaSequence |};
   {| dki_api := "function"; dki_pg := "FUNCTIONS"; dki_object := SchemaFunction |};
   {| dki_api := "type"; dki_pg := "TYPES"; dki_object := SchemaType |}].

Definition engine (ki : defaultKindInfo) : ObjectKind := "DEFAULT " +:+ dki_pg ki.

Definition defaultKindOf (k : string) : option defaultKindInfo :=
  head (filter (λ ki, dki_api ki = k ∨ engine ki = k) defaultKindInfos).

(** ** Privileges *)

Definition allPrivilegesKeyword : string := "ALL PRIVILEGES".

Fixpoint objectPrivileges_go (kind : string) (allowed privileges : list string) : result (list string) :=
  match privileges with
  | [] => inl []
  | p :: ps =>
      let u := ToUpper (Join (Fields p) " ") in
      if bool_decide (u = PrivilegeAll) || bool_decide (u = allPrivilegesKeyword) then
        try rest := objectPrivileges_go kind allowed ps in inl (subtract allowed [PrivilegeMaintain] ++ rest)
      else if slices_Contains allowed u then
        try rest := objectPrivileges_go kind allowed ps in inl (u :: rest)
      else inr (Errorf "invalid %s privilege %q (allowed: %s, ALL)" [ToLower kind; p; Join allowed ", "])
  end.

Definition normalizeObjectPrivileges (kind : string) (privileges : list string) : result (list string) :=
  match privileges with
  | [] => inr (Errorf "no %s privileges given" [ToLower kind])
  | _ => try out := objectPrivileges_go kind (default [] (SchemaObjectPrivileges kind)) privileges in
         inl (slices_Compact (slices_Sort out))
  end.

Definition dropMaintain (privs : list string) (serverVersion : Z) : list string * bool :=
  if bool_decide (MinMaintainPrivilegeVersion ≤ serverVersion)%Z || negb (slices_Contains privs PrivilegeMaintain)
  then (privs, false)
  else (filter (λ p, p ≠ PrivilegeMaintain) privs, true).

Definition objectTarget (kind schema identity : string) (oid : Z) (grantee : string) : grantTarget :=
  {| gt_Kind := kind; gt_Name := identity; gt_Schema := schema; gt_OID := oid; gt_ForRole := "";
     gt_Grantee := CanonicalGrantee grantee |}.

Definition objectKey (t : grantTarget) : string :=
  if decide (gt_OID t ≠ 0%Z) then gt_Kind t +:+ "|#" +:+ Itoa (gt_OID t) else gt_Kind t +:+ "|" +:+ gt_Name t.

Definition HasSuffixByte (s : string) (b : ascii) : bool :=
  match sdrop (String.length s - 1) s with String c EmptyString => bool_decide (c = b) | _ => false end.

(** Name, argument list and whether there is one. *)
Definition parseRoutineName (s : string) : string * string * bool :=
  match Index s "("%char with
  | Some open =>
      if bool_decide (open ≤ 0)%Z || negb (HasSuffixByte s ")"%char) then (s, "", false)
      else (stake (Z.to_nat open) s, stake (String.length s - 1 - (Z.to_nat open + 1)) (sdrop (Z.to_nat open + 1) s), true)
  | None => (s, "", false)
  end.

(** ** The client *)

Record objectGrantClient (W : Type) := {
  ogc_RoleExists : string → M W (result bool);
  ogc_SchemaExists : string → M W (result bool);
  ogc_RoleOIDs : list string → M W (result (gmap string Z));
  ogc_ListSchemaObjects : string → string → SchemaObjectSelector → M W (result (list SchemaObject));
  ogc_ResolveRoutine : string → string → string → M W (result (option Z));
  ogc_ResolveSchemaObject : string → string → string → Z → M W (result (option string));
  ogc_GrantOnSchemaObject : string → string → string → Z → string → list string → bool → M W error;
  ogc_RevokeOnSchemaObject : string → string → string → Z → string → list string → RevokeMode → M W error;
  ogc_HeldDefaultPrivileges : DefaultPrivilegesTarget → string → M W (result (list string * list string));
  ogc_GrantDefaultPrivileges : DefaultPrivilegesTarget → string → list string → bool → M W error;
  ogc_RevokeDefaultPrivileges : DefaultPrivilegesTarget → string → list string → RevokeMode → M W error }.
Arguments ogc_RoleExists {W}. Arguments ogc_SchemaExists {W}. Arguments ogc_RoleOIDs {W}. Arguments ogc_ListSchemaObjects {W}.
Arguments ogc_ResolveRoutine {W}. Arguments ogc_ResolveSchemaObject {W}. Arguments ogc_GrantOnSchemaObject {W}.
Arguments ogc_RevokeOnSchemaObject {W}. Arguments ogc_HeldDefaultPrivileges {W}. Arguments ogc_GrantDefaultPrivileges {W}.
Arguments ogc_RevokeDefaultPrivileges {W}.

(** ** Entries *)

Record objectEntry := {
  oe_schema : string;
  oe_field : string;
  oe_kind : objectKindInfo;
  oe_grantee : string;
  oe_privileges : list string;
  oe_withGrantOption : bool;
  oe_all : bool;
  oe_names : list string }.

Definition objectGrants_field (schema : string) : string := "schemas[" +:+ schema +:+ "].objectGrants".

(** One entry, and the note on a privilege the server does not know. *)
Definition planner_entry (serverVersion : Z) (schema field at_ : string) (g : ObjectGrantSpec)
    : result (objectEntry * list string) :=
  match objectKindOf (ogs_Kind g) with
  | None => inr (Errorf "%s: unsupported kind %q" [at_; ogs_Kind g])
  | Some ki =>
      match normalizeObjectPrivileges (ki_pg ki) (ogs_Privileges g) with
      | inr e => inr (Wrapf "%s: %w" [at_] e)
      | inl privs =>
          let grantee := CanonicalGrantee (ogs_Role g) in
          if bool_decide (grantee = PublicGrantee) && ogs_WithGrantOption g
          then inr (Errorf "%s: the grant option cannot be granted to PUBLIC" [at_])
          else if decide (ogs_Objects g = []) then inr (Errorf "%s: no objects given" [at_])
          else if bool_decide (selectAll ∈ ogs_Objects g) && bool_decide (1 < length (ogs_Objects g))%nat
          then inr (Errorf "%s: %q must be the only entry of objects" [at_; selectAll])
          else
            let '(privileges, dropped) := dropMaintain privs serverVersion in
            inl ({| oe_schema := schema; oe_field := field; oe_kind := ki; oe_grantee := grantee; oe_privileges := privileges;
                    oe_withGrantOption := ogs_WithGrantOption g; oe_all := bool_decide (selectAll ∈ ogs_Objects g);
                    oe_names := filter (λ o, o ≠ selectAll) (ogs_Objects g) |},
                 if dropped then [at_ +:+ " (" +:+ grantee +:+ "): MAINTAIN"] else [])
      end
  end.

Fixpoint schemaEntries (serverVersion : Z) (schema field : string) (i : Z) (gs : list ObjectGrantSpec)
    : result (list objectEntry * list string) :=
  match gs with
  | [] => inl ([], [])
  | g :: gs =>
      try (e, u1) := planner_entry serverVersion schema field (field +:+ "[" +:+ Itoa i +:+ "]") g in
      try (es, u2) := schemaEntries serverVersion schema field (i + 1) gs in
      inl (if decide (oe_privileges e = []) then es else e :: es, u1 ++ u2)
  end.

(** The fields, the entries and the unsupported privileges. *)
Fixpoint planner_entries (serverVersion : Z) (schemas : list SchemaSpec) (managedSchemas : gset string) (fields : list string)
    : result (list string * list objectEntry * list string) :=
  match schemas with
  | [] => inl (fields, [], [])
  | s :: ss =>
      if bool_decide (ss_Name s ∉ managedSchemas) || systemSchemaName (ss_Name s) || bool_decide (ss_ObjectGrants s = [])
      then planner_entries serverVersion ss managedSchemas fields
      else
        let field := objectGrants_field (ss_Name s) in
        if slices_Contains fields field then inr (Errorf "schemas: schema %q is listed more than once" [ss_Name s])
        else
          try (es1, u1) := schemaEntries serverVersion (ss_Name s) field 0 (ss_ObjectGrants s) in
          try (fields, es2, u2) := planner_entries serverVersion ss managedSchemas (fields ++ [field]) in
          inl (fields, es1 ++ es2, u1 ++ u2)
  end.

(** ** Groups *)

Record objectGroup := {
  og_schema : string;
  og_kind : objectKindInfo;
  og_all : bool;
  og_names : list string;
  og_sigs : gmap string Z;
  og_badSigs : gset string;
  og_objects : list SchemaObject;
  og_failed : bool }.

Definition groupKey (schema kind : string) : string := schema +:+ "|" +:+ kind.

Definition entry_group (e : objectEntry) : string := groupKey (oe_schema e) (ki_pg (oe_kind e)).

(** The group of an entry gets its selectors; new groups are appended to the order. *)
Definition add_to_group (st : gmap string objectGroup * list string) (e : objectEntry) : gmap string objectGroup * list string :=
  let k := entry_group e in
  match st.1 !! k with
  | Some g => (<[k := {| og_schema := og_schema g; og_kind := og_kind g; og_all := og_all g || oe_all e;
                         og_names := og_names g ++ oe_names e; og_sigs := og_sigs g; og_badSigs := og_badSigs g;
                         og_objects := og_objects g; og_failed := og_failed g |}]> st.1, st.2)
  | None => (<[k := {| og_schema := oe_schema e; og_kind := oe_kind e; og_all := oe_all e; og_names := oe_names e;
                       og_sigs := ∅; og_badSigs := ∅; og_objects := []; og_failed := false |}]> st.1, st.2 ++ [k])
  end.

Definition groups_of (entries : list objectEntry) : gmap string objectGroup * list string := foldl add_to_group (∅, []) entries.

(** What the resolution of the names of a group gives. *)
Record resolved_names := {
  rn_names : list string;
  rn_oids : list Z;
  rn_sigs : gmap string Z;
  rn_badSigs : gset string;
  rn_notFound : list string }.

Definition no_names : resolved_names := {| rn_names := []; rn_oids := []; rn_sigs := ∅; rn_badSigs := ∅; rn_notFound := [] |}.

(** What listing the groups reports. *)
Record list_report := { lr_notFound : list string; lr_tooMany : list string; lr_errs : list gerr }.

Section listing.
Context `{UnicodePrint} `{ErrorText} {W : Type} (pg : objectGrantClient W).

Fixpoint resolveNames (g : objectGroup) (names : list string) (acc : resolved_names) : M W resolved_names :=
  match names with
  | [] => mret acc
  | n :: ns =>
      let '(name, args, sig) := parseRoutineName n in
      if negb (isRoutine (og_kind g)) || negb sig then
        resolveNames g ns {| rn_names := rn_names acc ++ [n]; rn_oids := rn_oids acc; rn_sigs := rn_sigs acc;
                             rn_badSigs := rn_badSigs acc; rn_notFound := rn_notFound acc |}
      else
        r ← ogc_ResolveRoutine pg (og_schema g) name args;
        resolveNames g ns
          (match r with
           | inr e => {| rn_names := rn_names acc; rn_oids := rn_oids acc; rn_sigs := rn_sigs acc;
                         rn_badSigs := {[n]} ∪ rn_badSigs acc;
                         rn_notFound := rn_notFound acc ++ [ki_api (og_kind g) +:+ " " +:+ n +:+ " in schema " +:+ og_schema g
                                          +:+ ": " +:+ error_text e] |}
           | inl (Some oid) => {| rn_names := rn_names acc; rn_oids := rn_oids acc ++ [oid]; rn_sigs := <[n := oid]> (rn_sigs acc);
                                  rn_badSigs := rn_badSigs acc; rn_notFound := rn_notFound acc |}
           | inl None => acc
           end)
  end.

(** [objectPlanner.list]. *)
Definition planner_list (g : objectGroup) : M W (objectGroup * list_report) :=
  r ← resolveNames g (slices_Compact (slices_Sort (og_names g))) no_names;
  let done_ objects failed :=
    {| og_schema := og_schema g; og_kind := og_kind g; og_all := og_all g; og_names := og_names g; og_sigs := rn_sigs r;
       og_badSigs := rn_badSigs r; og_objects := objects; og_failed := failed |} in
  objects ← ogc_ListSchemaObjects pg (og_schema g) (ki_pg (og_kind g))
    {| sel_All := og_all g; sel_Names := rn_names r; sel_OIDs := rn_oids r;
       sel_Limit := if og_all g then maxObjectsPerKind + 1 else 0 |};
  mret (match objects with
        | inr e => (done_ [] true, {| lr_notFound := rn_notFound r; lr_tooMany := []; lr_errs := [e] |})
        | inl objects =>
            if og_all g && bool_decide (maxObjectsPerKind < Z.of_nat (length objects))%Z
            then (done_ [] true, {| lr_notFound := rn_notFound r; lr_errs := [];
                    lr_tooMany := ["schema " +:+ og_schema g +:+ " has more than " +:+ Itoa maxObjectsPerKind +:+ " "
                                     +:+ ki_api (og_kind g) +:+ "s"] |})
            else (done_ objects false, {| lr_notFound := rn_notFound r; lr_tooMany := []; lr_errs := [] |})
        end).

Fixpoint listGroups (order : list string) (groups : gmap string objectGroup) : M W (gmap string objectGroup * list_report) :=
  match order with
  | [] => mret (groups, {| lr_notFound := []; lr_tooMany := []; lr_errs := [] |})
  | k :: ks =>
      match groups !! k with
      | None => listGroups ks groups
      | Some g =>
          '(g, a) ← planner_list g;
          '(groups, b) ← listGroups ks (<[k := g]> groups);
          mret (groups, {| lr_notFound := lr_notFound a ++ lr_notFound b; lr_tooMany := lr_tooMany a ++ lr_tooMany b;
                           lr_errs := lr_errs a ++ lr_errs b |})
      end
  end.
End listing.

(** ** Selection and the owner rules *)

(** One name of an entry. *)
Definition matches (e : objectEntry) (g : objectGroup) (n : string) (o : SchemaObject) : bool :=
  let '(_, _, sig) := parseRoutineName n in
  if isRoutine (oe_kind e) && sig then bool_decide (og_sigs g !! n = Some (so_OID o))
  else bool_decide (so_Name o = n).

(** The objects an entry selects, and the names that match nothing. *)
Fixpoint selected_go `{UnicodePrint} (e : objectEntry) (g : objectGroup) (names : list string) : list SchemaObject * list string :=
  match names with
  | [] => ([], [])
  | n :: ns =>
      let '(out, missing) := selected_go e g ns in
      if isRoutine (oe_kind e) && bool_decide (n ∈ og_badSigs g) then (out, missing)
      else
        let found := filter (λ o, matches e g n o = true) (og_objects g) in
        (found ++ out,
         if decide (found = [])
         then (oe_field e +:+ " (" +:+ oe_grantee e +:+ "): " +:+ ki_api (oe_kind e) +:+ " " +:+ Quote n
                 +:+ " does not exist in schema " +:+ oe_schema e) :: missing
         else missing)
  end.

Definition planner_selected `{UnicodePrint} (e : objectEntry) (g : objectGroup) : list SchemaObject * list string :=
  if oe_all e then (og_objects g, []) else selected_go e g (oe_names e).

Definition relkindNames (k : string) : option string :=
  if decide (k = "v") then Some "view" else if decide (k = "m") then Some "materialized view"
  else if decide (k = "f") then Some "foreign table" else None.

(** Why the object is skipped ([None]: it is not), and the privileges withheld. *)
Definition operatorObjectProblem (kind : objectKindInfo) (o : SchemaObject) : option string * list string :=
  if isRoutine kind && so_SecurityDefiner o
  then (Some ("is a SECURITY DEFINER routine owned by the superuser " +:+ so_Owner o), [])
  else if isRoutine kind && negb (slices_Contains invokerSafeLanguages (so_Language o))
  then (Some ("is written in " +:+ so_Language o +:+ " and owned by the superuser " +:+ so_Owner o), [])
  else if decide (ki_pg kind = SchemaTable) then
    match relkindNames (so_SubKind o) with
    | Some k => (Some ("is a " +:+ k +:+ " owned by the superuser " +:+ so_Owner o), [])
    | None => (None, [PrivilegeMaintain; PrivilegeTrigger])
    end
  else (None, []).

Record objectStats := { st_granted : gset string; st_skipped : gset string; st_examples : gmap string string }.

Definition no_stats : objectStats := {| st_granted := ∅; st_skipped := ∅; st_examples := ∅ |}.

(** [objectStats.skip]. *)
Definition stats_skip (s : objectStats) (identity why : string) : objectStats :=
  {| st_granted := st_granted s; st_skipped := {[identity]} ∪ st_skipped s;
     st_examples := match st_examples s !! identity with Some _ => st_examples s | None => <[identity := why]> (st_examples s) end |}.

(** One pass of [pickExamples]: what is picked, the reasons met, the output. *)
Fixpoint pick_pass (first : bool) (examples : gmap string string) (ids : list string) (picked reasons : gset string)
    (out : list string) : gset string * gset string * list string :=
  match ids with
  | [] => (picked, reasons, out)
  | id :: ids =>
      if decide (length out = maxSkippedExamples) then (picked, reasons, out)
      else
        let why := default "" (examples !! id) in
        if bool_decide (id ∈ picked) || first && bool_decide (why ∈ reasons)
        then pick_pass first examples ids picked reasons out
        else pick_pass first examples ids ({[id]} ∪ picked) ({[why]} ∪ reasons) (out ++ [id +:+ " " +:+ why])
  end.

Definition pickExamples (s : objectStats) : list string :=
  let ids := sorted_keys (st_examples s) in
  let '(picked, reasons, out) := pick_pass true (st_examples s) ids ∅ ∅ [] in
  (pick_pass false (st_examples s) ids picked reasons out).2.

(** ** The plan *)

(** What [add] changes of the planner. *)
Record plan_state := {
  ps_stats : gmap string objectStats;
  ps_desired : gmap string privilegeGrant;
  ps_objects : gmap string SchemaObject;
  ps_byField : gmap string (list string);
  ps_refused : list string }.

Definition no_plan : plan_state :=
  {| ps_stats := ∅; ps_desired := ∅; ps_objects := ∅; ps_byField := ∅; ps_refused := [] |}.

Section plan.
Context `{UP : UnicodePrint} {W : Type} (LookupRole : string → M W (result (option ReachableRole))) (c : granteeChecker).

Definition ownerProblem (kind : objectKindInfo) (o : SchemaObject) (ck : checkerCaches)
    : M W (result (option string * list string) * checkerCaches) :=
  if decide (so_Extension o ≠ "") then
    mret (inl (Some ("belongs to the extension " +:+ so_Extension o +:+ " (grant on it in spec.extensions[].grants)"), []), ck)
  else if so_OwnerIsSessionUser o then mret (inl (operatorObjectProblem kind o), ck)
  else if so_OwnerSuperuser o then mret (inl (Some ("is owned by the superuser " +:+ so_Owner o), []), ck)
  else
    '(m, ck) ← managesRole LookupRole c (so_Owner o) ck;
    mret (match m with
          | inr e => inr e
          | inl true => inl (None, [])
          | inl false => inl (Some ("is owned by " +:+ so_Owner o +:+ ", which is not a role managed by a Role of this Cluster"), [])
          end, ck).

(** The problem and the privileges that are left, once the owner rules are known. *)
Definition entry_verdict (e : objectEntry) (o : SchemaObject) (problem : option string) (denied : list string)
    : option string * list string :=
  let problem := match problem with
                 | None => if bool_decide (maxIdentityLength < String.length (so_Identity o))%nat
                           then Some ("has a name longer than " +:+ Itoa (Z.of_nat maxIdentityLength)
                                        +:+ " characters, which pgop cannot record")
                           else None
                 | p => p
                 end in
  match problem with
  | Some p => (Some p, [])
  | None =>
      let d := intersect (oe_privileges e) denied in
      if decide (d = []) then (None, oe_privileges e)
      else (Some (Join d ", " +:+ ": not granted on a table owned by the superuser " +:+ so_Owner o), subtract (oe_privileges e) d)
  end.

(** [objectPlanner.add], once the owner rules are known. *)
Definition add_object (e : objectEntry) (o : SchemaObject) (problem : option string) (privs : list string) (ps : plan_state)
    : plan_state :=
  let gk := entry_group e in
  let '(stats, refused) :=
    match problem with
    | None => (ps_stats ps, ps_refused ps)
    | Some why =>
        (<[gk := stats_skip (default no_stats (ps_stats ps !! gk)) (so_Identity o) why]> (ps_stats ps),
         if oe_all e then ps_refused ps
         else ps_refused ps ++ [oe_field e +:+ " (" +:+ oe_grantee e +:+ "): " +:+ so_Identity o +:+ " " +:+ why])
    end in
  if decide (privs = []) then
    {| ps_stats := stats; ps_desired := ps_desired ps; ps_objects := ps_objects ps; ps_byField := ps_byField ps; ps_refused := refused |}
  else
    let t := objectTarget (ki_pg (oe_kind e)) (oe_schema e) (so_Identity o) (so_OID o) (oe_grantee e) in
    let d := desiredGrant t privs (oe_withGrantOption e) in
    let k := key t in
    let '(d, byField) :=
      match ps_desired ps !! k with
      | Some prev => (mergeGrant prev d, ps_byField ps)
      | None => (d, <[oe_field e := default [] (ps_byField ps !! oe_field e) ++ [k]]> (ps_byField ps))
      end in
    {| ps_stats := stats; ps_desired := <[k := d]> (ps_desired ps); ps_objects := <[objectKey t := o]> (ps_objects ps);
       ps_byField := byField; ps_refused := refused |}.

Fixpoint addObjects (e : objectEntry) (objects : list SchemaObject) (ps : plan_state) (ck : checkerCaches)
    : M W (result plan_state * checkerCaches) :=
  match objects with
  | [] => mret (inl ps, ck)
  | o :: os =>
      '(r, ck) ← ownerProblem (oe_kind e) o ck;
      match r with
      | inr err => mret (inr err, ck)
      | inl (problem, denied) =>
          let '(problem, privs) := entry_verdict e o problem denied in
          addObjects e os (add_object e o problem privs ps) ck
      end
  end.

(** The entries of the groups that were listed; the second result are the names
    that match nothing. *)
Fixpoint addEntries (entries : list objectEntry) (groups : gmap string objectGroup) (ps : plan_state) (missing : list string)
    (ck : checkerCaches) : M W (result (plan_state * list string) * checkerCaches) :=
  match entries with
  | [] => mret (inl (ps, missing), ck)
  | e :: es =>
      match groups !! entry_group e with
      | None => addEntries es groups ps missing ck
      | Some g =>
          if og_failed g then addEntries es groups ps missing ck
          else
            let '(objects, m) := planner_selected e g in
            '(r, ck) ← addObjects e objects ps ck;
            match r with
            | inr err => mret (inr err, ck)
            | inl ps => addEntries es groups ps (missing ++ m) ck
            end
      end
  end.

(** The planner after [plan]. *)
Record planner := {
  pl_groups : gmap string objectGroup;
  pl_order : list string;
  pl_plan : plan_state;
  pl_fields : list string;
  pl_notFound : list string;
  pl_unsupported : list string;
  pl_tooMany : list string;
  pl_listErrs : list gerr }.

Definition planner_plan `{ErrorText} (pg : objectGrantClient W) (spec : DatabaseSpec) (managedSchemas : gset string) (serverVersion : Z)
    (ck : checkerCaches) : M W (result planner * checkerCaches) :=
  match planner_entries serverVersion (ds_Schemas spec) managedSchemas [] with
  | inr e => mret (inr e, ck)
  | inl (fields, entries, unsupported) =>
      let '(groups, order) := groups_of entries in
      '(groups, report) ← listGroups pg order groups;
      '(r, ck) ← addEntries entries groups no_plan [] ck;
      mret (match r with
            | inr e => inr e
            | inl (ps, missing) =>
                inl {| pl_groups := groups; pl_order := order; pl_plan := ps; pl_fields := fields;
                       pl_notFound := lr_notFound report ++ missing; pl_unsupported := unsupported;
                       pl_tooMany := lr_tooMany report; pl_listErrs := lr_errs report |}
            end, ck)
  end.
End plan.

(** ** The report *)

(** Marks the objects with at least one grant to an allowed grantee. *)
Definition mark_granted (order : list string) (stats : gmap string objectStats) (d : privilegeGrant) : gmap string objectStats :=
  let k := groupKey (gt_Schema (g_Target d)) (gt_Kind (g_Target d)) in
  if decide (k ∈ order) then
    let s := default no_stats (stats !! k) in
    <[k := {| st_granted := {[gt_Name (g_Target d)]} ∪ st_granted s; st_skipped := st_skipped s; st_examples := st_examples s |}]> stats
  else stats.

Definition status_key (s : ObjectGrantStatus) : string := ost_Schema s +:+ "|" +:+ ost_Kind s.

Definition planner_status (p : planner) (desired : list privilegeGrant) : list ObjectGrantStatus :=
  let stats := foldl (mark_granted (pl_order p)) (ps_stats (pl_plan p)) desired in
  merge_sort (λ a b, String.le (status_key a) (status_key b))
    (omap (λ k, match pl_groups p !! k with
                | Some g => if og_failed g then None
                            else let s := default no_stats (stats !! k) in
                                 Some {| ost_Schema := og_schema g; ost_Kind := ki_api (og_kind g);
                                         ost_Granted := Z.of_nat (size (st_granted s)); ost_Skipped := Z.of_nat (size (st_skipped s));
                                         ost_SkippedExamples := pickExamples s |}
                | None => None
                end) (pl_order p)).

Definition cond_when (l : list string) (reason fmt : string) (args : list string) : list gerr :=
  if decide (l = []) then [] else [CondErr reason (Errorf fmt (args ++ [Join l "; "]))].

Definition planner_errs (p : planner) : list gerr :=
  pl_listErrs p
    ++ cond_when (ps_refused (pl_plan p)) ReasonObjectGrantSkipped
         "objects not granted on (and privileges pgop granted on them revoked): %s" []
    ++ cond_when (pl_tooMany p) ReasonTooManyObjects
         "%q selects at most %d objects per kind and schema; nothing was granted or revoked there: %s" [selectAll; Itoa maxObjectsPerKind]
    ++ cond_when (pl_notFound p) ReasonObjectNotFound
         "objects not found (retried; migrations may not have created them yet): %s" []
    ++ cond_when (pl_unsupported p) ReasonUnsupportedServerVersion
         "the MAINTAIN privilege needs PostgreSQL 17 or later: %s" [].

(** ** The ledger of object grants *)

Definition validLedgerSchema (schema : string) : bool := negb (bool_decide (schema = "")) && negb (systemSchemaName schema).

Definition objectLedger (managed : list ManagedObjectGrant) : list privilegeGrant :=
  omap (λ m, match objectKindOf (mog_Kind m) with
             | Some ki => if validLedgerSchema (mog_Schema m) && negb (bool_decide (mog_Object m = ""))
                          then Some {| g_Target := objectTarget (ki_pg ki) (mog_Schema m) (mog_Object m) (mog_OID m) (mog_Role m);
                                       g_Privileges := mog_Privileges m; g_GrantOptions := mog_GrantOptions m |}
                          else None
             | None => None
             end) managed.

Definition managed_key (m : ManagedObjectGrant) : string := mog_Kind m +:+ "|" +:+ mog_Object m +:+ "|" +:+ mog_Role m.

Definition objectLedgerStatus (ledger : list privilegeGrant) : list ManagedObjectGrant :=
  merge_sort (λ a b, String.le (managed_key a) (managed_key b))
    (omap (λ g, match objectKindOf (gt_Kind (g_Target g)) with
                | Some ki => Some {| mog_Schema := gt_Schema (g_Target g); mog_Kind := ki_api ki; mog_Object := gt_Name (g_Target g);
                                     mog_OID := gt_OID (g_Target g); mog_Role := gt_Grantee (g_Target g);
                                     mog_Privileges := g_Privileges g; mog_GrantOptions := g_GrantOptions g |}
                | None => None
                end) ledger).

Definition with_target_name (g : privilegeGrant) (t : grantTarget) : privilegeGrant :=
  {| g_Target := {| gt_Kind := gt_Kind (g_Target g); gt_Name := gt_Name t; gt_Grantee := gt_Grantee (g_Target g);
                    gt_Schema := gt_Schema t; gt_ForRole := gt_ForRole (g_Target g); gt_OID := gt_OID (g_Target g) |};
     g_Privileges := g_Privileges g; g_GrantOptions := g_GrantOptions g |}.

Section ledger.
Context `{UP : UnicodePrint}.

Definition refreshIdentities (ledger desired : list privilegeGrant) : list privilegeGrant :=
  let names : gmap string grantTarget := foldl (λ m d, <[grant_key d := g_Target d]> m) ∅ desired in
  (λ g, match names !! grant_key g with Some t => with_target_name g t | None => g end) <$> ledger.

Definition ledgerEntryBytes (g : privilegeGrant) : Z :=
  (96 + Z.of_nat (String.length (gt_Schema (g_Target g))) + Z.of_nat (String.length (gt_Name (g_Target g)))
    + Z.of_nat (String.length (gt_Grantee (g_Target g)))
    + foldr Z.add 0 ((λ p, Z.of_nat (String.length p) + 3) <$> (g_Privileges g ++ g_GrantOptions g)))%Z.

(** The loop of [overBudget]: one estimate per key, the first one met. *)
Definition ledger_bytes (gs : list privilegeGrant) : Z :=
  (foldl (λ '(seen, total) g, if decide (grant_key g ∈ seen) then (seen, total)
                              else ({[grant_key g]} ∪ seen, total + ledgerEntryBytes g)) ((∅ : gset string), 0) gs).2%Z.

Definition overBudget (desired managed kept : list privilegeGrant) : option gerr :=
  let total := ledger_bytes (managed ++ kept ++ desired) in
  if bool_decide (total ≤ objectLedgerByteBudget)%Z then None
  else Some (CondErr ReasonTooManyGrants (Errorf
    "the object grants declared and those pgop still tracks would need about %d KiB of status; pgop records at most %d KiB"
    [Itoa (total / 1024); Itoa (objectLedgerByteBudget / 1024)])).

(** The kept entries with those of the engine's ledger, by key. *)
Definition withKept (kept ledger : list privilegeGrant) : list ManagedObjectGrant :=
  objectLedgerStatus (sortedGrants (foldl (λ m g, <[grant_key g := g]> m) ∅ (ledger ++ kept))).
End ledger.

(** ** Object grants *)

Section objects.
Context `{UP : UnicodePrint} `{ErrorText} {W : Type} (LookupRole : string → M W (result (option ReachableRole)))
  (c : granteeChecker) (pg : objectGrantClient W).

Definition objectGrantOps (objects : gmap string SchemaObject) (oids : gmap string Z) : privilegeOps W :=
  {| op_held := λ t, mret (inl (match objects !! objectKey t with
                                | None => ([], [])
                                | Some o => match oids !! gt_Grantee t with
                                            | Some oid => SchemaObject_Held (so_OwnerOID o) (so_ACL o) oid
                                            | None => if IsPublic (gt_Grantee t) then SchemaObject_Held (so_OwnerOID o) (so_ACL o) 0
                                                      else ([], [])
                                            end
                                end));
     op_grant := λ t privileges withGrantOption,
       let oid := match objects !! objectKey t with Some o => so_OID o | None => 0%Z end in
       e ← ogc_GrantOnSchemaObject pg (gt_Kind t) (gt_Schema t) (gt_Name t) oid (gt_Grantee t) privileges withGrantOption;
       mret (match e with Some err => if errors_Is errObjectGone err then None else Some err | None => None end);
     op_revoke := λ t privileges mode,
       ogc_RevokeOnSchemaObject pg (gt_Kind t) (gt_Schema t) (gt_Name t) (gt_OID t) (gt_Grantee t) privileges mode;
     op_gone := Some (λ t,
       g ← roleGone (ogc_RoleExists pg) t;
       match g with
       | inr e => mret (inr e)
       | inl true => mret (inl true)
       | inl false =>
           r ← ogc_ResolveSchemaObject pg (gt_Kind t) (gt_Schema t) (gt_Name t) (gt_OID t);
           mret (match r with inr e => inr e | inl o => inl (match o with Some _ => false | None => true end) end)
       end) |}.

(** The role grantees, each once. *)
Definition add_grantee (names : list string) (d : privilegeGrant) : list string :=
  let g := gt_Grantee (g_Target d) in
  if IsPublic g || slices_Contains names g then names else names ++ [g].

Definition granteeOIDs (desired : list privilegeGrant) : M W (result (gmap string Z)) :=
  match foldl add_grantee [] desired with
  | [] => mret (inl ∅)
  | names => ogc_RoleOIDs pg names
  end.

(** [splitLedger]: the entries left alone, and those the engine reconciles. *)
Fixpoint splitLedger (groups : gmap string objectGroup) (ledger : list privilegeGrant) (ck : checkerCaches)
    : M W (result (list privilegeGrant * list privilegeGrant) * checkerCaches) :=
  match ledger with
  | [] => mret (inl ([], []), ck)
  | g :: gs =>
      let k := groupKey (gt_Schema (g_Target g)) (gt_Kind (g_Target g)) in
      let failed := match groups !! k with Some gr => og_failed gr | None => false end in
      let cons_ (keep : bool) (r : result (list privilegeGrant * list privilegeGrant)) :=
        match r with
        | inr e => inr e
        | inl (kept, managed) => inl (if keep then (g :: kept, managed) else (kept, g :: managed))
        end in
      if negb failed then '(r, ck) ← splitLedger groups gs ck; mret (cons_ false r, ck)
      else
        '(res, ck) ← check LookupRole c (gt_Grantee (g_Target g)) ck;
        match res with
        | inr e => mret (inr e, ck)
        | inl res =>
            '(r, ck) ← splitLedger groups gs ck;
            mret (cons_ (bool_decide (gr_verdict res = granteeAllowed)) r, ck)
        end
  end.

Definition planned_fields (p : planner) : gmap string (list privilegeGrant) :=
  fmap (M:=gmap string) (λ keys : list string, grant_at (ps_desired (pl_plan p)) <$> keys) (ps_byField (pl_plan p)).

(** Nothing new when the ledger would grow too large. *)
Definition within_budget (desired managed : list privilegeGrant) (over : option gerr) : list privilegeGrant :=
  match over with
  | None => desired
  | Some _ => filter (λ d, grant_key d ∈ (grant_key <$> managed)) desired
  end.

(** The part after the plan, the ledger and the filter. *)
Definition applyObjectGrants (p : planner) (kept managed desired : list privilegeGrant) (held : grantFilter)
    (save : statusSaver W DatabaseStatus) (st : DatabaseStatus) : M W (error * DatabaseStatus) :=
  let over := overBudget desired managed kept in
  let errs := planner_errs p ++ option_list over in
  let st := set_ObjectGrants st (planner_status p desired) in
  let desired := within_budget desired managed over in
  if decide (desired = [] ∧ managed = []) then mret (errors_Join ((Some <$> errs) ++ [grantFilter_err held]), st)
  else
    r ← granteeOIDs desired;
    match r with
    | inr e => mret (Some e, st)
    | inl oids =>
        let record l := set_ManagedObjectGrants st (withKept kept (refreshIdentities l desired)) in
        '(after, err) ← applyPrivilegeGrants (objectGrantOps (ps_objects (pl_plan p)) oids) desired managed
            ((objectGrantLedgerLimit - Z.of_nat (length kept)) `max` 1)%Z (persist_with save record);
        mret (errors_Join (err :: (Some <$> errs) ++ [grantFilter_err held]), record after)
    end.

Definition reconcileObjectGrants (spec : DatabaseSpec) (managedSchemas : gset string) (serverVersion : Z)
    (save : statusSaver W DatabaseStatus) (st : DatabaseStatus) (ck : checkerCaches)
    : M W (error * DatabaseStatus * checkerCaches) :=
  '(p, ck) ← planner_plan LookupRole c pg spec managedSchemas serverVersion ck;
  match p with
  | inr e => mret (Some e, st, ck)
  | inl p =>
      '(s, ck) ← splitLedger (pl_groups p) (objectLedger (dst_ManagedObjectGrants st)) ck;
      match s with
      | inr e => mret (Some e, st, ck)
      | inl (kept, managed) =>
          '(r, held, ck) ← filterFields LookupRole c (pl_fields p) (planned_fields p) no_filter ck;
          match r with
          | inr e => mret (Some e, st, ck)
          | inl desired =>
              '(err, st) ← applyObjectGrants p kept managed desired held save st;
              mret (err, st, ck)
          end
      end
  end.
End objects.

(** ** The ObjectGrantsComplete condition: [None] when it is removed *)

Definition skipped_message (s : ObjectGrantStatus) : string :=
  Itoa (ost_Skipped s) +:+ " " +:+ ost_Kind s +:+ "(s) in schema " +:+ ost_Schema s
    +:+ " (" +:+ Join (ost_SkippedExamples s) "; " +:+ ")".

Definition objectGrantsCondition (generation : Z) (l : list ObjectGrantStatus) : option Condition :=
  let skipped := filter (λ s, ost_Skipped s ≠ 0%Z) l in
  let total := foldr Z.add 0%Z (ost_Skipped <$> skipped) in
  if decide (l = []) then None
  else Some (if bool_decide (0 < total)%Z
    then {| cond_Type := ConditionTypeObjectGrantsComplete; cond_Status := "False"; cond_ObservedGeneration := generation;
            cond_Reason := ReasonObjectGrantSkipped;
            cond_Message := Itoa total +:+ " selected objects are not granted on (their owner is not in the Cluster's trust "
              +:+ "domain, they belong to an extension, or they act with superuser privileges): " +:+ Join (skipped_message <$> skipped) "; " |}
    else {| cond_Type := ConditionTypeObjectGrantsComplete; cond_Status := "True"; cond_ObservedGeneration := generation;
            cond_Reason := ReasonAllObjectsGranted; cond_Message := "every object the object grants select is granted on" |}).

(** ** Default privileges *)

Definition defaultTarget (ki : defaultKindInfo) (schema forRole grantee : string) : grantTarget :=
  {| gt_Kind := engine ki; gt_Name := schema; gt_ForRole := forRole; gt_Grantee := CanonicalGrantee grantee; gt_Schema := "";
     gt_OID := 0 |}.

Definition defaultPGTarget (t : grantTarget) : result DefaultPrivilegesTarget :=
  match defaultKindOf (gt_Kind t) with
  | None => inr (Errorf "unsupported default privilege kind %q" [gt_Kind t])
  | Some ki => inl {| dt_ForRole := gt_ForRole t; dt_Schema := gt_Name t; dt_Kind := dki_pg ki |}
  end.

Definition defaultPrivileges_field (schema : string) : string := "schemas[" +:+ schema +:+ "].defaultPrivileges".

Section defaults_desired.
Context `{UP : UnicodePrint}.

(** The entries of one schema: the grants, the keys met and the unsupported ones. *)
Fixpoint defaultEntries (serverVersion : Z) (schema field : string) (ds : list DefaultPrivilegeSpec) (seen : gset string)
    : result (list privilegeGrant * gset string * list string) :=
  match ds with
  | [] => inl ([], seen, [])
  | d :: ds =>
      match defaultKindOf (dps_Kind d) with
      | None => inr (Errorf "%s: unsupported kind %q" [field; dps_Kind d])
      | Some ki =>
          match normalizeObjectPrivileges (dki_object ki) (dps_Privileges d) with
          | inr e => inr (Wrapf "%s[%s/%s]: %w" [field; dps_ForRole d; dps_Role d] e)
          | inl privs =>
              let t := defaultTarget ki schema (dps_ForRole d) (dps_Role d) in
              if decide (key t ∈ seen)
              then inr (Errorf "%s: forRole %q, role %q and kind %s are listed more than once"
                          [field; dps_ForRole d; gt_Grantee t; dps_Kind d])
              else if bool_decide (gt_Grantee t = PublicGrantee) && dps_WithGrantOption d
              then inr (Errorf "%s[%s/PUBLIC]: the grant option cannot be granted to PUBLIC" [field; dps_ForRole d])
              else
                let '(privs, dropped) := dropMaintain privs serverVersion in
                try (rest, seen, unsupported) := defaultEntries serverVersion schema field ds ({[key t]} ∪ seen) in
                inl (if decide (privs = []) then rest else desiredGrant t privs (dps_WithGrantOption d) :: rest, seen,
                     if dropped then (field +:+ "[" +:+ dps_ForRole d +:+ "/" +:+ gt_Grantee t +:+ "]: MAINTAIN") :: unsupported
                     else unsupported)
          end
      end
  end.

Fixpoint defaultPrivileges_go (serverVersion : Z) (schemas : list SchemaSpec) (managedSchemas : gset string) (fields : list string)
    (grants : gmap string (list privilegeGrant)) (seen : gset string) (unsupported : list string)
    : result (list string * gmap string (list privilegeGrant) * list string) :=
  match schemas with
  | [] => inl (fields, grants, unsupported)
  | s :: ss =>
      if bool_decide (ss_Name s ∉ managedSchemas) || systemSchemaName (ss_Name s) || bool_decide (ss_DefaultPrivileges s = [])
      then defaultPrivileges_go serverVersion ss managedSchemas fields grants seen unsupported
      else
        let field := defaultPrivileges_field (ss_Name s) in
        match grants !! field with
        | Some _ => inr (Errorf "schemas: schema %q is listed more than once" [ss_Name s])
        | None =>
            try (l, seen, u) := defaultEntries serverVersion (ss_Name s) field (ss_DefaultPrivileges s) seen in
            defaultPrivileges_go serverVersion ss managedSchemas (fields ++ [field]) (<[field := l]> grants) seen (unsupported ++ u)
        end
  end.

Definition desiredDefaultPrivileges (schemas : list SchemaSpec) (managedSchemas : gset string) (serverVersion : Z)
    : result (list string * gmap string (list privilegeGrant) * list string) :=
  defaultPrivileges_go serverVersion schemas managedSchemas [] ∅ ∅ [].

Definition defaultLedger (managed : list ManagedDefaultPrivilege) : list privilegeGrant :=
  omap (λ m, match defaultKindOf (mdp_Kind m) with
             | Some ki => if validLedgerSchema (mdp_Schema m) && negb (bool_decide (mdp_ForRole m = ""))
                          then Some {| g_Target := defaultTarget ki (mdp_Schema m) (mdp_ForRole m) (mdp_Role m);
                                       g_Privileges := mdp_Privileges m; g_GrantOptions := mdp_GrantOptions m |}
                          else None
             | None => None
             end) managed.

Definition defaultLedgerStatus (ledger : list privilegeGrant) : list ManagedDefaultPrivilege :=
  omap (λ g, match defaultKindOf (gt_Kind (g_Target g)) with
             | Some ki => Some {| mdp_Schema := gt_Name (g_Target g); mdp_ForRole := gt_ForRole (g_Target g); mdp_Kind := dki_api ki;
                                  mdp_Role := gt_Grantee (g_Target g); mdp_Privileges := g_Privileges g;
                                  mdp_GrantOptions := g_GrantOptions g |}
             | None => None
             end) ledger.
End defaults_desired.

(** What the forRole filter held back. *)
Record forRoleFilter := { fr_refused : list string; fr_missing : list string; fr_paused : list string }.

Definition no_forRoles : forRoleFilter := {| fr_refused := []; fr_missing := []; fr_paused := [] |}.

Definition forRole_held `{UnicodePrint} (f : forRoleFilter) (field forRole : string) (res : granteeResult) : forRoleFilter :=
  match gr_verdict res with
  | granteeAllowed => f
  | granteeMissing => {| fr_refused := fr_refused f; fr_paused := fr_paused f;
      fr_missing := fr_missing f ++ [field +:+ ": forRole " +:+ Quote forRole +:+ " does not exist yet"] |}
  | granteePaused => {| fr_refused := fr_refused f; fr_missing := fr_missing f;
      fr_paused := fr_paused f ++ [field +:+ ": default privileges for " +:+ forRole +:+ " are paused: the Role is being deleted"] |}
  | granteeRefused => {| fr_missing := fr_missing f; fr_paused := fr_paused f;
      fr_refused := fr_refused f ++ [field +:+ ": forRole " +:+ forRole +:+ " " +:+ gr_problem res] |}
  end.

Definition forRoleFilter_err (f : forRoleFilter) : error :=
  errors_Join ((if decide (fr_refused f = []) then []
      else [Some (CondErr ReasonDefaultPrivilegeNotAllowed (Errorf
        "default privileges not applied (and removed if pgop set them): %s" [Join (fr_refused f) "; "]))])
    ++ (if decide (fr_missing f = []) then [] else [Some (Errorf (Join (fr_missing f) "; ") [])])
    ++ (if decide (fr_paused f = []) then [] else [Some (Errorf (Join (fr_paused f) "; ") [])])).

Section defaults.
Context `{UP : UnicodePrint} {W : Type} (LookupRole : string → M W (result (option ReachableRole)))
  (c : granteeChecker) (pg : objectGrantClient W).

Fixpoint forRoleFilter_filter (field : string) (desired : list privilegeGrant) (f : forRoleFilter) (ck : checkerCaches)
    : M W (result (list privilegeGrant) * forRoleFilter * checkerCaches) :=
  match desired with
  | [] => mret (inl [], f, ck)
  | g :: gs =>
      '(r, ck) ← checkForRole LookupRole c (gt_ForRole (g_Target g)) ck;
      match r with
      | inr e => mret (inr e, f, ck)
      | inl res =>
          '(rest, f, ck) ← forRoleFilter_filter field gs (forRole_held f field (gt_ForRole (g_Target g)) res) ck;
          mret (match rest with
                | inr e => inr e
                | inl out => inl (if decide (gr_verdict res = granteeAllowed) then g :: out else out)
                end, f, ck)
      end
  end.

(** The fields in order: first the forRoles, then the grantees. *)
Fixpoint filterDefaults (fields : list string) (all : gmap string (list privilegeGrant)) (f : forRoleFilter) (held : grantFilter)
    (ck : checkerCaches) : M W (result (list privilegeGrant) * forRoleFilter * grantFilter * checkerCaches) :=
  match fields with
  | [] => mret (inl [], f, held, ck)
  | field :: fs =>
      '(r, f, ck) ← forRoleFilter_filter field (default [] (all !! field)) f ck;
      match r with
      | inr e => mret (inr e, f, held, ck)
      | inl allowed =>
          '(r, held, ck) ← grantFilter_filter LookupRole c field allowed held ck;
          match r with
          | inr e => mret (inr e, f, held, ck)
          | inl allowed =>
              '(rest, f, held, ck) ← filterDefaults fs all f held ck;
              mret (match rest with inr e => inr e | inl out => inl (allowed ++ out) end, f, held, ck)
          end
      end
  end.

Definition defaultPrivilegeOps : privilegeOps W :=
  {| op_held := λ t, match defaultPGTarget t with
                     | inr e => mret (inr e)
                     | inl dt => ogc_HeldDefaultPrivileges pg dt (gt_Grantee t)
                     end;
     op_grant := λ t privileges withGrantOption,
       match defaultPGTarget t with
       | inr e => mret (Some e)
       | inl dt => ogc_GrantDefaultPrivileges pg dt (gt_Grantee t) privileges withGrantOption
       end;
     op_revoke := λ t privileges mode,
       match defaultPGTarget t with
       | inr e => mret (Some e)
       | inl dt => ogc_RevokeDefaultPrivileges pg dt (gt_Grantee t) privileges mode
       end;
     op_gone := Some (λ t,
       s ← ogc_SchemaExists pg (gt_Name t);
       match s with
       | inr e => mret (inr e)
       | inl false => mret (inl true)
       | inl true =>
           f ← ogc_RoleExists pg (gt_ForRole t);
           match f with
           | inr e => mret (inr e)
           | inl false => mret (inl true)
           | inl true => roleGone (ogc_RoleExists pg) t
           end
       end) |}.

Definition reconcileDefaultPrivileges (spec : DatabaseSpec) (managedSchemas : gset string) (serverVersion : Z)
    (save : statusSaver W DatabaseStatus) (st : DatabaseStatus) (ck : checkerCaches)
    : M W (error * DatabaseStatus * checkerCaches) :=
  match desiredDefaultPrivileges (ds_Schemas spec) managedSchemas serverVersion with
  | inr e => mret (Some e, st, ck)
  | inl (fields, all, unsupported) =>
      let managed := defaultLedger (dst_ManagedDefaultPrivileges st) in
      if decide (fields = [] ∧ managed = []) then mret (None, st, ck)
      else
        '(r, forRoles, held, ck) ← filterDefaults fields all no_forRoles no_filter ck;
        match r with
        | inr e => mret (Some e, st, ck)
        | inl desired =>
            '(after, err) ← applyPrivilegeGrants defaultPrivilegeOps desired managed defaultPrivilegeLedgerLimit
                (persist_with save (λ l, set_ManagedDefaultPrivileges st (defaultLedgerStatus l)));
            mret (errors_Join ([err; forRoleFilter_err forRoles; grantFilter_err held] ++
                    (Some <$> cond_when unsupported ReasonUnsupportedServerVersion
                       "the MAINTAIN privilege needs PostgreSQL 17 or later: %s" [])),
                  set_ManagedDefaultPrivileges st (defaultLedgerStatus after), ck)
        end
  end.
End defaults.

(** ** Both, on a connection to the database *)

Definition hasObjectAccess (spec : DatabaseSpec) (st : DatabaseStatus) : bool :=
  bool_decide (dst_ManagedObjectGrants st ≠ []) || bool_decide (dst_ManagedDefaultPrivileges st ≠ [])
    || existsb (λ s, bool_decide (ss_ObjectGrants s ≠ []) || bool_decide (ss_DefaultPrivileges s ≠ [])) (ds_Schemas spec).

(** The condition is computed from the returned status ([objectGrantsCondition]). *)
Definition reconcileObjectAccess `{UP : UnicodePrint} `{ErrorText} {W} (LookupRole : string → M W (result (option ReachableRole)))
    (c : granteeChecker) (pg : objectGrantClient W) (version : M W (result Z)) (spec : DatabaseSpec) (managedSchemas : list string)
    (save : statusSaver W DatabaseStatus) (st : DatabaseStatus) (ck : checkerCaches)
    : M W (error * DatabaseStatus * checkerCaches) :=
  if negb (hasObjectAccess spec st) then mret (None, set_ObjectGrants st [], ck)
  else
    v ← version;
    match v with
    | inr e => mret (Some e, st, ck)
    | inl serverVersion =>
        let schemas := list_to_set managedSchemas in
        '(e1, st, ck) ← reconcileObjectGrants LookupRole c pg spec schemas serverVersion save st ck;
        '(e2, st, ck) ← reconcileDefaultPrivileges LookupRole c pg spec schemas serverVersion save st ck;
        mret (errors_Join [e1; e2], st, ck)
    end.

Definition objectAccessNames (spec : DatabaseSpec) (pgName : string) : bool :=
  existsb (λ s, existsb (λ g, bool_decide (ogs_Role g = pgName)) (ss_ObjectGrants s)
    || existsb (λ d, bool_decide (dps_Role d = pgName) || bool_decide (dps_ForRole d = pgName)) (ss_DefaultPrivileges s))
    (ds_Schemas spec).
