(* ===== verification/ExtensionSql.v ===== *)
(** * Extensions on the server (src/internal/postgres/extensions.go)

    The data that catalog queries answer with, the statements that create, update and
    drop an extension, and GRANT and REVOKE on the objects that belong to one. The
    catalog queries run on the server; their answers are parameters. *)

From S2P Require Import Prelude GoStrings GoStrconv Quoting Privileges RoleSql ApiTypes RolePolicy GrantEngine Objects ObjectGrants.

(** ** What the catalog answers *)

Record ExtensionVersionInfo := {
  ev_Name : string;
  ev_Version : string;
  ev_Trusted : bool;
  ev_Superuser : bool;
  ev_Relocatable : bool;
  ev_Schema : string;
  ev_Requires : list string }.

(** [OID] and [Owner] identify the installation. *)
Record InstalledExtension := {
  ie_Name : string;
  ie_Version : string;
  ie_Schema : string;
  ie_OID : Z;
  ie_Owner : string }.

Record SchemaWriters := { sw_Exists : bool; sw_Owner : string; sw_OwnerSuperuser : bool; sw_Creators : list string }.

(** The server's text for a path is split at [--]. *)
Record ExtensionMember := { em_Identity : string; em_Eligible : bool; em_Held : list string }.

Definition MemberKind : Type := string.
Definition MemberTables : MemberKind := "TABLE".
Definition MemberSequences : MemberKind := "SEQUENCE".
Definition MemberRoutines : MemberKind := "ROUTINE".

Definition PrivilegeSelect : string := "SELECT".
Definition PrivilegeInsert : string := "INSERT".
Definition PrivilegeUpdate : string := "UPDATE".
Definition PrivilegeDelete : string := "DELETE".
Definition PrivilegeTruncate : string := "TRUNCATE".
Definition PrivilegeReferences : string := "REFERENCES".
Definition PrivilegeExecute : string := "EXECUTE".

Definition memberPrivileges (kind : MemberKind) : option (list string) :=
  if decide (kind = MemberTables) then
    Some [PrivilegeSelect; PrivilegeInsert; PrivilegeUpdate; PrivilegeDelete; PrivilegeTruncate; PrivilegeReferences; PrivilegeMaintain]
  else if decide (kind = MemberSequences) then Some [PrivilegeUsage; PrivilegeSelect; PrivilegeUpdate]
  else if decide (kind = MemberRoutines) then Some [PrivilegeExecute]
  else None.

(** ** CREATE, ALTER and DROP EXTENSION *)

Definition buildCreateExtensionQuery (name schema version : string) (cascade : bool) : string :=
  "CREATE EXTENSION " +:+ quoteIdent name
    +:+ (if decide (schema = "") then "" else " SCHEMA " +:+ quoteIdent schema)
    +:+ (if decide (version = "") then "" else " VERSION " +:+ quoteLiteral version)
    +:+ (if cascade then " CASCADE" else "").

Definition buildUpdateExtensionQuery (name version : string) : string :=
  "ALTER EXTENSION " +:+ quoteIdent name +:+ " UPDATE TO " +:+ quoteLiteral version.

Definition buildDropExtensionQuery (name : string) : string := "DROP EXTENSION " +:+ quoteIdent name +:+ " RESTRICT".

Definition public_search_path : string := "SET LOCAL search_path TO public".

Definition DependentObjectsExist (err : error) : bool := DependentPrivilegesExist err.

Section client.
Context `{UnicodePrint} {W : Type} (db : Connection W).

Definition create_extension_error (name : string) (err : gerr) : error :=
  match duplicateObjectError ("extension " +:+ Quote name) err with
  | Some dup => Some dup
  | None => Some (Wrapf "failed to create extension %q: %w" [name] err)
  end.

(** Without a schema the statement runs in a transaction whose search_path is public. *)
Definition CreateExtension (name schema version : string) (cascade : bool) : M W error :=
  let query := buildCreateExtensionQuery name schema version cascade in
  let wrap e := mret (create_extension_error name e) in
  if decide (schema ≠ "") then
    e ← cn_exec db query;
    match e with Some e => wrap e | None => mret None end
  else
    e ← cn_begin db;
    match e with
    | Some e => wrap e
    | None =>
        e ← cn_tx_exec db public_search_path;
        match e with
        | Some e => cn_rollback db;; wrap e
        | None =>
            e ← cn_tx_exec db query;
            match e with
            | Some e => cn_rollback db;; wrap e
            | None =>
                e ← cn_commit db;
                cn_rollback db;;
                match e with Some e => wrap e | None => mret None end
            end
        end
    end.

Definition UpdateExtension (name version : string) : M W error :=
  if decide (version = "") then mret (Some (Errorf "no version to update to" []))
  else
    e ← cn_exec db (buildUpdateExtensionQuery name version);
    mret (wrap_error "failed to update extension %q to %q: %w" [name; version] e).

Definition DropExtension (name : string) : M W error :=
  e ← cn_exec db (buildDropExtensionQuery name);
  mret (wrap_error "failed to drop extension %q: %w" [name] e).
End client.

(** ** GRANT and REVOKE on members *)

Definition memberBatch : nat := 100.

(** The batches of [ids]: all but the last hold [memberBatch] identities. *)
Fixpoint member_batches (fuel : nat) (ids : list string) : list (list string) :=
  match fuel, ids with
  | S fuel, _ :: _ => take memberBatch ids :: member_batches fuel (drop memberBatch ids)
  | _, _ => []
  end.

Fixpoint member_queries (query : string → string) (kind : MemberKind) (batches : list (list string)) : result (list string) :=
  match batches with
  | [] => inl []
  | batch :: rest =>
      if slices_Contains batch "" then inr (Errorf "empty object identity" [])
      else try qs := member_queries query kind rest in inl (query (kind +:+ " " +:+ Join batch ", ") :: qs)
  end.

Definition buildMemberPrivilegesQueries (grant : bool) (kind : MemberKind) (identities privileges : list string) (grantee : string)
    : result (list string) :=
  match memberPrivileges kind with
  | None => inr (Errorf "unsupported extension member kind %q" [kind])
  | Some allowed =>
      try privs := checkPrivileges (ToLower kind) privileges allowed in
      try to := renderGrantee grantee in
      let query object := if grant then buildGrantQuery privs object to false else buildRevokeQuery privs object to no_mode in
      member_queries query kind (member_batches (length identities) identities)
  end.

Section members.
Context {W : Type} (db : Connection W).

Fixpoint exec_queries (err : gerr → gerr) (queries : list string) : M W error :=
  match queries with
  | [] => mret None
  | q :: qs =>
      e ← cn_exec db q;
      match e with Some e => mret (Some (err e)) | None => exec_queries err qs end
  end.

Definition execMemberQueries (grant : bool) (kind : MemberKind) (identities privileges : list string) (grantee : string) : M W error :=
  match buildMemberPrivilegesQueries grant kind identities privileges grantee with
  | inr e => mret (Some e)
  | inl queries =>
      exec_queries (Wrapf "failed to %s privileges on extension %s objects for %q: %w"
                      [if grant then "grant" else "revoke"; ToLower kind; grantee]) queries
  end.

Definition GrantOnMembers := execMemberQueries true.
Definition RevokeOnMembers := execMemberQueries false.

Definition revokeAllOnMember_query (kind ident role : string) : string :=
  buildRevokeQuery [PrivilegeAll] (kind +:+ " " +:+ ident) (quoteIdent role) cascade_mode.

(** [list_members]: the kind and rendering of the members the role holds privileges on. *)
Fixpoint revokeMembers (role : string) (objs : list (string * string)) : M W error :=
  match objs with
  | [] => mret None
  | (kind, ident) :: rest =>
      e ← cn_exec db (revokeAllOnMember_query kind ident role);
      match e with
      | Some e => mret (Some (Wrapf "failed to revoke privileges on %s %s from %q: %w" [ToLower kind; ident; role] e))
      | None => revokeMembers role rest
      end
  end.

Definition RevokeAllExtensionMemberPrivileges (list_members : string → M W (result (list (string * string)))) (role : string)
    : M W error :=
  r ← list_members role;
  match r with
  | inr e => mret (Some e)
  | inl objs => revokeMembers role objs
  end.
End members.

(** ** The statements on members *)

Lemma member_batches_concat fuel ids : (length ids ≤ fuel)%nat → mjoin (member_batches fuel ids) = ids.
Proof.
  revert ids. induction fuel as [|fuel IH]; intros [|x ids] Hl; simpl in *; try done; [lia|].
  rewrite IH by (rewrite length_drop; lia). by rewrite take_drop.
Qed.

Lemma member_batches_sizes fuel ids b : b ∈ member_batches fuel ids → (0 < length b ≤ memberBatch)%nat.
Proof.
  revert ids. induction fuel as [|fuel IH]; intros [|x ids] Hb; try by apply elem_of_nil in Hb.
  apply elem_of_cons in Hb as [->|Hb]; [|by apply (IH _ Hb)]. rewrite length_take. unfold memberBatch. simpl length. lia.
Qed.

Lemma member_queries_spec query kind batches qs :
  member_queries query kind batches = inl qs →
  qs = (λ b, query (kind +:+ " " +:+ Join b ", ")) <$> batches ∧ ∀ b, b ∈ batches → "" ∉ b.
Proof.
  revert qs. induction batches as [|b rest IH]; intros qs; cbn [member_queries].
  { intros [= <-]. split; [done|]. by intros b ?%elem_of_nil. }
  destruct (slices_Contains b "") eqn:Eb; [done|]. destruct (member_queries query kind rest) as [qs'|]; [|done].
  intros [= <-]. destruct (IH qs' eq_refl) as [-> Hne]. split; [done|].
  intros b' [->|Hb']%elem_of_cons; [by apply slices_Contains_false|by apply Hne].
Qed.

(** The statements on the objects of an extension name exactly the requested
    objects, each once and in order, at most 100 per statement; every one grants or
    revokes the same checked privileges of the kind's list, never a grant option and
    never with CASCADE, for the requested grantee; an empty identity, an empty or an
    unknown privilege refuses all of them. *)
Theorem buildMemberPrivilegesQueries_exact grant kind identities privileges grantee qs :
  buildMemberPrivilegesQueries grant kind identities privileges grantee = inl qs →
  ∃ allowed privs to batches, memberPrivileges kind = Some allowed ∧
    checkPrivileges (ToLower kind) privileges allowed = inl privs ∧ renderGrantee grantee = inl to ∧
    mjoin batches = identities ∧ (∀ b, b ∈ batches → (0 < length b ≤ memberBatch)%nat ∧ "" ∉ b) ∧
    privs ≠ [] ∧ (∀ p, p ∈ privs → p ∈ allowed) ∧
    qs = (λ b, let object := kind +:+ " " +:+ Join b ", " in
               if grant then "GRANT " +:+ Join privs ", " +:+ " ON " +:+ object +:+ " TO " +:+ to
               else "REVOKE " +:+ Join privs ", " +:+ " ON " +:+ object +:+ " FROM " +:+ to) <$> batches.
Proof.
  unfold buildMemberPrivilegesQueries. destruct (memberPrivileges kind) as [allowed|]; [|done].
  destruct (checkPrivileges _ _ _) as [privs|] eqn:Ec; [|done]. destruct (renderGrantee grantee) as [to|]; [|done].
  intros (-> & Hne)%member_queries_spec. exists allowed, privs, to, (member_batches (length identities) identities).
  apply checkPrivileges_spec in Ec as Hs. destruct Hs as (Hnil & _ & _ & Ha).
  split_and!; [done|done|done|by apply member_batches_concat| |done|done|].
  - intros b Hb. split; [by eapply member_batches_sizes|by apply Hne].
  - apply list_fmap_ext. intros i b _. destruct grant; [|unfold buildRevokeQuery; simpl; by rewrite app_nil_r_s].
    unfold buildGrantQuery. simpl. by rewrite app_nil_r_s.
Qed.

Lemma buildMemberPrivilegesQueries_exact_witness :
  buildMemberPrivilegesQueries true MemberTables ["a"; "b"] ["select"] "app" = inl ["GRANT SELECT ON TABLE a, b TO " +:+ quoteIdent "app"] ∧
  ∃ batches : list (list string), mjoin batches = ["a"; "b"].
Proof.
  assert (buildMemberPrivilegesQueries true MemberTables ["a"; "b"] ["select"] "app" = inl ["GRANT SELECT ON TABLE a, b TO " +:+ quoteIdent "app"]) as H
    by reflexivity.
  split; [exact H|].
  destruct (buildMemberPrivilegesQueries_exact true MemberTables ["a"; "b"] ["select"] "app" _ H) as (? & ? & ? & batches & _ & _ & _ & Hj & _).
  by exists batches.
Defined.
