(* ===== verification/GrantSafety.v ===== *)
(** * Grants end to end: what the grant reconciles ask of the server

    The database, schema and parameter grants of Grants.v run with every call to
    the server recorded, for any server. *)

From Stdlib Require Import Ascii.
From S2P Require Import Prelude GoStrings GoStrconv Privileges Parameters ApiTypes RolePolicy Objects.
From S2P Require Import Settings Trace GrantEngine GrantTrace GrantProps.
From S2P Require Import GranteePolicy Grants ExtensionSql.

(** ** Calls *)

Inductive pg_call :=
  | CallHeld (obj : PrivilegeObject) (grantee : string) (r : result (list string * list string * bool))
  | CallGrant (obj : PrivilegeObject) (grantee : string) (ps : list string) (wgo : bool) (e : error)
  | CallRevoke (obj : PrivilegeObject) (grantee : string) (ps : list string) (mode : RevokeMode) (e : error)
  | CallLookup (name : string) (r : result (option ReachableRole))
  | CallRoleExists (name : string) (r : result bool)
  | CallSchemaExists (name : string) (r : result bool)
  | CallContext (name : string) (r : context_result)
  | CallVersion (r : result Z)
  | CallRoleOIDs (names : list string) (r : result (gmap string Z))
  | CallListObjects (schema kind : string) (sel : SchemaObjectSelector) (r : result (list SchemaObject))
  | CallResolveRoutine (schema name args : string) (r : result (option Z))
  | CallResolveObject (kind schema identity : string) (oid : Z) (r : result (option string))
  | CallGrantObject (kind schema identity : string) (oid : Z) (grantee : string) (ps : list string) (wgo : bool) (e : error)
  | CallRevokeObject (kind schema identity : string) (oid : Z) (grantee : string) (ps : list string) (mode : RevokeMode) (e : error)
  | CallHeldDefault (t : DefaultPrivilegesTarget) (grantee : string) (r : result (list string * list string))
  | CallGrantDefault (t : DefaultPrivilegesTarget) (grantee : string) (ps : list string) (wgo : bool) (e : error)
  | CallRevokeDefault (t : DefaultPrivilegesTarget) (grantee : string) (ps : list string) (mode : RevokeMode) (e : error)
  | CallSave (e : error)
  | CallInstalled (name : string) (r : result (option InstalledExtension))
  | CallMembers (extension kind grantee : string) (r : result (list ExtensionMember))
  | CallGrantMembers (kind : string) (ids ps : list string) (grantee : string) (e : error)
  | CallRevokeMembers (kind : string) (ids ps : list string) (grantee : string) (e : error).

Section logged.
Context {W : Type}.

Definition logged_executor (ex : privilegeExecutor W) : privilegeExecutor (W * list pg_call) :=
  {| HeldPrivileges := λ o g, logged (CallHeld o g) (HeldPrivileges W ex o g);
     GrantPrivileges := λ o g ps wgo, logged (CallGrant o g ps wgo) (GrantPrivileges W ex o g ps wgo);
     RevokePrivileges := λ o g ps mode, logged (CallRevoke o g ps mode) (RevokePrivileges W ex o g ps mode) |}.

Definition logged_lookup (f : string → M W (result (option ReachableRole))) (n : string) :=
  logged (CallLookup n) (f n).

Definition logged_saver {S} (save : statusSaver W S) : statusSaver (W * list pg_call) S :=
  (λ f st, logged CallSave (f st)) <$> save.

Definition logged_database_client (pg : databaseGrantClient W) : databaseGrantClient (W * list pg_call) :=
  {| dgc_executor := logged_executor (dgc_executor pg);
     dgc_HeldFromAnyGrantor := λ o g p w, let '(r, w') := dgc_HeldFromAnyGrantor pg o g p w.1 in (r, (w', w.2));
     dgc_RoleExists := λ n, logged (CallRoleExists n) (dgc_RoleExists pg n);
     dgc_SetDatabaseParameter := λ d n v w, let '(r, w') := dgc_SetDatabaseParameter pg d n v w.1 in (r, (w', w.2));
     dgc_ResetDatabaseParameter := λ d n w, let '(r, w') := dgc_ResetDatabaseParameter pg d n w.1 in (r, (w', w.2));
     dgc_ParameterContext := λ n, logged (CallContext n) (dgc_ParameterContext pg n) |}.

Definition logged_schema_client (pg : schemaGrantClient W) : schemaGrantClient (W * list pg_call) :=
  {| sgc_executor := logged_executor (sgc_executor pg);
     sgc_RoleExists := λ n, logged (CallRoleExists n) (sgc_RoleExists pg n);
     sgc_SchemaExists := λ n, logged (CallSchemaExists n) (sgc_SchemaExists pg n) |}.

Definition logged_parameter_client (pg : parameterGrantClient W) : parameterGrantClient (W * list pg_call) :=
  {| pgc_ServerVersionNum := logged CallVersion (pgc_ServerVersionNum pg);
     pgc_executor := logged_executor (pgc_executor pg);
     pgc_RoleExists := λ n, logged (CallRoleExists n) (pgc_RoleExists pg n);
     pgc_ParameterContext := λ n, logged (CallContext n) (pgc_ParameterContext pg n) |}.
End logged.

(** The world's own changes are not constrained here. *)
Abbreviation emits := (emits (λ _ _ _, True)).

(** ** The engine's calls *)

Definition grant_ok `{UP : UnicodePrint} (desired managed : list privilegeGrant) (ev : pg_call) : Prop :=
  match ev with
  | CallGrant obj grantee ps wgo _ =>
      ps ≠ [] ∧ ∃ d, d ∈ desired ∧ obj = grantTarget_object (g_Target d) ∧ grantee = gt_Grantee (g_Target d) ∧
        ∀ p, p ∈ ps → p ∈ (if wgo then g_GrantOptions d else g_Privileges d)
  | CallRevoke obj grantee ps mode _ =>
      ps ≠ [] ∧ ∃ t, obj = grantTarget_object t ∧ grantee = gt_Grantee t ∧
        (∃ m, (m ∈ managed ∨ m ∈ desired) ∧ g_Target m = t) ∧ ∀ p, p ∈ ps →
        recorded (if GrantOptionOnly mode then g_GrantOptions else g_Privileges) managed (key t) p ∧
        ¬ recorded (if GrantOptionOnly mode then g_GrantOptions else g_Privileges) desired (key t) p ∧
        (Cascade mode = true → recorded g_GrantOptions managed (key t) p)
  | CallLookup _ _ => False
  | _ => True
  end.

Section engine.
Context `{UP : UnicodePrint} {W : Type} (ex : privilegeExecutor W).

Lemma emits_one {A} (ev : A → pg_call) (m : M W A) (ok : pg_call → Prop) :
  (∀ x, ok (ev x)) → emits (logged ev m) (λ _ new, Forall ok new).
Proof. intros H. eapply emits_conseq; [by apply emits_logged|]. intros x new ->. by constructor. Qed.

Lemma engine_client_emits desired managed limit gone (persist : ledgerPersist (W * list pg_call)) :
  NoDup (grant_key <$> desired) → Forall wf_desired desired →
  (∀ f t, gone = Some f → emits (f t) (λ _ new, Forall (grant_ok desired managed) new)) →
  (∀ f l, persist = Some f → emits (f l) (λ _ new, Forall (grant_ok desired managed) new)) →
  emits (applyPrivilegeGrants (executorOps (logged_executor ex) gone) desired managed limit persist)
    (λ _ new, Forall (grant_ok desired managed) new).
Proof.
  intros Hn Hwf Hgone Hpersist. apply engine_only; try done; simpl.
  - intros t. eapply emits_bind; [by apply (emits_one _ _ (grant_ok desired managed))|].
    intros r new Hnew. apply emits_ret. by rewrite app_nil_r.
  - intros t ps wgo (Hne & d & Hd & <- & Hps). apply emits_one. intros e. simpl. eauto 10.
  - intros t ps mode (Ht & Hne & Hps). apply emits_one. intros e. simpl. eauto 10.
Qed.

Lemma saver_emits {S} (save : statusSaver W S) (set : list privilegeGrant → S) desired managed f l :
  persist_with (logged_saver save) set = Some f → emits (f l) (λ _ new, Forall (grant_ok desired managed) new).
Proof.
  intros [= <-]. destruct save as [g|]; simpl; [by apply emits_one|apply emits_ret; constructor].
Qed.

Lemma roleGone_emits (RoleExists : string → M W (result bool)) t desired managed :
  emits (roleGone (λ n, logged (CallRoleExists n) (RoleExists n)) t) (λ _ new, Forall (grant_ok desired managed) new).
Proof.
  unfold roleGone. destruct (IsPublic _); [apply emits_ret; constructor|].
  eapply emits_bind; [by apply (emits_one _ _ (grant_ok desired managed))|]. intros r new Hnew. apply emits_ret. by rewrite app_nil_r.
Qed.
End engine.

(** ** The filter's calls *)

Section filter.
Context `{UP : UnicodePrint} {W : Type} (LookupRole : string → M W (result (option ReachableRole))) (c : granteeChecker).

(** The verdict on [grantee] follows from an answer of the server. *)
Definition judged (tr : list pg_call) (grantee : string) (res : granteeResult) : Prop :=
  (∃ r, CallLookup grantee (inl r) ∈ tr ∧ res = grantee_verdict c grantee r) ∨ (∀ r, res = grantee_verdict c grantee r).

Lemma judged_mono tr tr' grantee res : (∀ ev, ev ∈ tr → ev ∈ tr') → judged tr grantee res → judged tr' grantee res.
Proof. intros H [(r & ? & ?)|?]; [left; eauto|by right]. Qed.

Lemma judged_app_l tr rest g res : judged tr g res → judged (tr ++ rest) g res.
Proof. apply judged_mono. intros. apply elem_of_app. by left. Qed.

(** An allowed grantee is PUBLIC or a role the server described and the policy accepts. *)
Lemma judged_allowed tr grantee res :
  judged tr grantee res → gr_verdict res = granteeAllowed →
  IsPublic grantee = true ∨ ∃ r, CallLookup grantee (inl (Some r)) ∈ tr ∧ acceptable c grantee r.
Proof.
  intros [(r & Hin & ->)|Hr]; intros Hv.
  - apply grantee_verdict_allowed in Hv as [?|(r' & -> & ?)]; [by left|right]. eauto.
  - rewrite (Hr None) in Hv. apply grantee_verdict_allowed in Hv as [?|(r' & ? & ?)]; [by left|done].
Qed.

Definition caches_ok (tr : list pg_call) (st : checkerCaches) : Prop :=
  ∀ g res, ck_cache st !! g = Some res → judged tr g res.

Lemma caches_ok_app tr rest st : caches_ok tr st → caches_ok (tr ++ rest) st.
Proof. intros H g res Hg. by apply judged_app_l, H. Qed.

Lemma caches_ok_empty tr : caches_ok tr no_caches.
Proof. by intros g res ?. Qed.

Definition is_lookup (ev : pg_call) : Prop := match ev with CallLookup _ _ => True | _ => False end.

Lemma decideGrantee_emits grantee :
  emits (decideGrantee (logged_lookup LookupRole) c grantee) (λ r new, Forall is_lookup new ∧
    ∀ res, r = inl res → judged new grantee res).
Proof.
  unfold decideGrantee.
  assert (∀ res, (∀ r, res = grantee_verdict c grantee r) →
    emits (mret (inl res) : M (W * list pg_call) (result granteeResult)) (λ r new, Forall is_lookup new ∧ ∀ res, r = inl res → judged new grantee res)) as Hpure.
  { intros res Hr. apply emits_ret. split; [done|]. intros ? [= <-]. by right. }
  destruct (IsPublic grantee) eqn:Ep; [apply Hpure; intros; unfold grantee_verdict; by rewrite Ep|].
  destruct (granteeNameProblem grantee) eqn:En; [apply Hpure; intros; unfold grantee_verdict; by rewrite Ep, En|].
  case_decide as Hd; [apply Hpure; intros; unfold grantee_verdict; by rewrite Ep, En, decide_True|].
  eapply emits_bind; [by apply emits_logged|]. intros r new ->. apply emits_ret. rewrite app_nil_r.
  split; [by repeat constructor|]. intros res Hres. left.
  assert (∃ o, r = inl o ∧ res = grantee_verdict c grantee o) as (o & -> & ->).
  { assert (∀ o, grantee_verdict c grantee o = match o with None => verdict granteeMissing
      | Some r => match granteeProblem r (gc_policy c) (gc_managed c) with Some p => refusal p | None => verdict granteeAllowed end end) as Hgv.
    { intros o. unfold grantee_verdict. by rewrite Ep, En, decide_False. }
    destruct r as [[r|]|]; simplify_eq; eexists; (split; [done|by rewrite Hgv]). }
  exists o. split; [by left|done].
Qed.

Lemma check_emits grantee st tr0 :
  caches_ok tr0 st →
  emits (check (logged_lookup LookupRole) c grantee st) (λ '(r, st') new, Forall is_lookup new ∧ caches_ok (tr0 ++ new) st' ∧
    ∀ res, r = inl res → judged (tr0 ++ new) grantee res).
Proof.
  intros Hst. unfold check. destruct (ck_cache st !! grantee) as [res|] eqn:E.
  { apply emits_ret. rewrite app_nil_r. split_and!; [done|done|]. intros ? [= <-]. by apply Hst. }
  eapply emits_bind; [apply decideGrantee_emits|]. intros r new [Hl Hj]. apply emits_ret. rewrite app_nil_r.
  assert (∀ res, r = inl res → judged (tr0 ++ new) grantee res) as Hj'.
  { intros res Hr. eapply judged_mono; [|by apply Hj]. intros. apply elem_of_app. by right. }
  destruct r as [res|e]; (split; [done|]); (split; [|]).
  - intros g res'. simpl. intros [[<- <-]|[_ ?]]%lookup_insert_Some; [by apply Hj'|by apply judged_app_l, Hst].
  - done.
  - by apply caches_ok_app.
  - done.
Qed.

(** What a filtered list is: the grants whose grantee was allowed. *)
Definition filtered (tr : list pg_call) (desired out : list privilegeGrant) : Prop :=
  sublist out desired ∧
  (∀ g, g ∈ out → ∃ res, judged tr (gt_Grantee (g_Target g)) res ∧ gr_verdict res = granteeAllowed) ∧
  (∀ g, g ∈ desired → g ∈ out ∨ ∃ res, judged tr (gt_Grantee (g_Target g)) res ∧ gr_verdict res ≠ granteeAllowed).

Lemma filtered_mono tr tr' desired out :
  (∀ ev, ev ∈ tr → ev ∈ tr') → filtered tr desired out → filtered tr' desired out.
Proof.
  intros H (Hs & Hin & Hout). split_and!; [done| |].
  - intros g (res & ? & ?)%Hin. exists res. split; [by eapply judged_mono|done].
  - intros g [?|(res & ? & ?)]%Hout; [by left|]. right. exists res. split; [by eapply judged_mono|done].
Qed.

Lemma filtered_cons tr g res gs out :
  judged tr (gt_Grantee (g_Target g)) res → filtered tr gs out →
  filtered tr (g :: gs) (if decide (gr_verdict res = granteeAllowed) then g :: out else out).
Proof.
  intros Hj (Hs & Hin & Hout). case_decide as Hv; (split; [by constructor|split]).
  - intros g' [->|?]%elem_of_cons; eauto.
  - intros g' [->|[?|?]%Hout]%elem_of_cons; [left; by left|left; by right|by right].
  - done.
  - intros g' [->|[?|?]%Hout]%elem_of_cons; [right; eauto|by left|by right].
Qed.

Lemma filter_emits field gs f st tr0 :
  caches_ok tr0 st →
  emits (grantFilter_filter (logged_lookup LookupRole) c field gs f st) (λ '(r, _, st') new,
    Forall is_lookup new ∧ caches_ok (tr0 ++ new) st' ∧ ∀ out, r = inl out → filtered (tr0 ++ new) gs out).
Proof.
  revert f st tr0. induction gs as [|g gs IH]; intros f st tr0 Hst; simpl.
  { apply emits_ret. rewrite app_nil_r. split_and!; [done|done|]. intros ? [= <-].
    split_and!; [constructor|by intros ? ?%elem_of_nil..]. }
  eapply emits_bind; [by apply check_emits|]. intros [r st1] new1 (Hl1 & Hc1 & Hj1).
  destruct r as [res|e]; [|by apply emits_ret; rewrite app_nil_r].
  eapply emits_bind; [by apply (IH _ _ (tr0 ++ new1))|]. intros [[rest f2] st2] new2 (Hl2 & Hc2 & Hf2).
  rewrite <- app_assoc in *.
  destruct rest as [out|e]; apply emits_ret; rewrite app_nil_r; (split; [by apply Forall_app|]); (split; [done|]); [|done].
  intros ? [= <-]. apply filtered_cons; [|by apply Hf2]. rewrite app_assoc. by apply judged_app_l, Hj1.
Qed.
End filter.
