(* ===== verification/DatabaseGrants.v ===== *)
(** * Database and schema grants: safety

    What the specs declare, and the end-to-end theorems: which GRANT and REVOKE
    statements [reconcileDatabaseGrants] and [reconcileSchemaGrants] send. *)

From Stdlib Require Import Ascii.
From S2P Require Import Prelude GoStrings GoStrconv Privileges Parameters ApiTypes RolePolicy.
From S2P Require Import Settings Trace GrantEngine GrantTrace GrantProps.
From S2P Require Import GranteePolicy Grants GrantSafety.

Section declared.
Context `{UP : UnicodePrint}.

(** The grant an entry of the spec stands for. *)
Definition database_grant_of (pgName : string) (g : DatabaseGrantSpec) (d : privilegeGrant) : Prop :=
  ∃ privs, NormalizeDatabasePrivileges (dgs_Privileges g) = inl privs ∧
    d = desiredGrant (databaseTarget pgName (dgs_Role g)) privs (dgs_WithGrantOption g) ∧
    (CanonicalGrantee (dgs_Role g) = PublicGrantee → dgs_WithGrantOption g = false).

Definition schema_grant_of (schema : string) (g : GrantSpec) (d : privilegeGrant) : Prop :=
  ∃ privs, NormalizeSchemaPrivileges (gs_Privileges g) = inl privs ∧
    d = desiredGrant (schemaTarget schema (gs_Role g)) privs (gs_WithGrantOption g) ∧
    (CanonicalGrantee (gs_Role g) = PublicGrantee → gs_WithGrantOption g = false).

Lemma wf_desiredGrant t privs wgo : wf_desired (desiredGrant t privs wgo).
Proof. intros p. simpl. destruct wgo; [done|by intros ?%elem_of_nil]. Qed.

Lemma key_plain kind1 kind2 n1 n2 g1 g2 :
  ContainsByte kind1 "|"%char = false → ContainsByte kind2 "|"%char = false →
  key (plain_target kind1 n1 g1) = key (plain_target kind2 n2 g2) → kind1 = kind2 ∧ n1 = n2 ∧ g1 = g2.
Proof. intros H1 H2 H. apply key_inj in H as (Hk & Hg & _ & _ & Hn); [|done..]. simpl in *. split_and!; [done|by apply Hn|done]. Qed.

Lemma databaseGrants_go_spec grants pgName seen out :
  databaseGrants_go grants pgName seen = inl out →
  Forall2 (database_grant_of pgName) grants out ∧ NoDup (gt_Grantee ∘ g_Target <$> out) ∧
  (∀ d, d ∈ out → gt_Grantee (g_Target d) ∉ seen).
Proof.
  revert seen out. induction grants as [|g gs IH]; intros seen out; simpl.
  { intros [= <-]. split_and!; [done|constructor|by intros ? ?%elem_of_nil]. }
  case_decide as Hseen; [done|]. case_decide as Hpub; [done|].
  destruct (NormalizeDatabasePrivileges _) as [privs|] eqn:En; [|done].
  destruct (databaseGrants_go gs _ _) as [rest|] eqn:Er; [|done]. intros [= <-].
  destruct (IH _ _ Er) as (H1 & H2 & H3). split_and!.
  - constructor; [|done]. exists privs. split_and!; [done|done|]. intros Hc.
    destruct (dgs_WithGrantOption g); [|done]. by destruct Hpub.
  - constructor; [|done]. intros (d & Heq & Hd)%list_elem_of_fmap. apply (H3 d Hd). simpl in *. rewrite <- Heq. set_solver.
  - intros d [->|Hd]%elem_of_cons; [done|]. specialize (H3 d Hd). set_solver.
Qed.

Lemma Forall2_elem_r {A B} (R : A → B → Prop) l k y : Forall2 R l k → y ∈ k → ∃ x, x ∈ l ∧ R x y.
Proof.
  induction 1 as [|a b l k HR _ IH]; [by intros ?%elem_of_nil|].
  intros [->|Hy]%elem_of_cons; [exists a; by split; [left|]|]. destruct (IH Hy) as (x & ? & ?). exists x. by split; [right|].
Qed.

Lemma Forall2_elem_l {A B} (R : A → B → Prop) l k x : Forall2 R l k → x ∈ l → ∃ y, y ∈ k ∧ R x y.
Proof. intros H%Forall2_flip Hx. by destruct (Forall2_elem_r _ _ _ _ H Hx) as (y & ? & ?); exists y. Qed.

Lemma database_targets pgName grants out :
  Forall2 (database_grant_of pgName) grants out → ∀ d, d ∈ out → g_Target d = plain_target ObjectDatabase pgName (gt_Grantee (g_Target d)).
Proof. intros H d Hd. by destruct (Forall2_elem_r _ _ _ _ H Hd) as (g & _ & privs & _ & -> & _). Qed.

Lemma keys_of_targets kind name (out : list privilegeGrant) :
  (∀ d, d ∈ out → g_Target d = plain_target kind name (gt_Grantee (g_Target d))) → ContainsByte kind "|"%char = false →
  NoDup (gt_Grantee ∘ g_Target <$> out) → NoDup (grant_key <$> out).
Proof.
  intros Ht Hk. induction out as [|d out IH]; [constructor|]. simpl. intros [Hd Hn]%NoDup_cons.
  constructor; [|apply IH; [intros; apply Ht; by right|done]].
  intros (d' & Heq & Hd')%list_elem_of_fmap. apply Hd. apply list_elem_of_fmap. exists d'. split; [|done].
  unfold grant_key in Heq. rewrite (Ht d), (Ht d') in Heq by set_solver. by apply key_plain in Heq as (_ & _ & ?).
Qed.

(** [desiredDatabaseGrants]: the spec's entries in order, one per grantee. *)
Lemma desiredDatabaseGrants_spec grants pgName out :
  desiredDatabaseGrants grants pgName = inl out →
  Forall2 (database_grant_of pgName) grants out ∧ NoDup (grant_key <$> out) ∧ Forall wf_desired out.
Proof.
  intros (H1 & H2 & _)%databaseGrants_go_spec. split_and!; [done| |].
  - eapply keys_of_targets; [by eapply database_targets|done|done].
  - rewrite Forall_forall. intros d Hd. destruct (Forall2_elem_r _ _ _ _ H1 Hd) as (g & _ & privs & _ & -> & _). apply wf_desiredGrant.
Qed.

Lemma schemaGrants_one_spec field schema grants seen out seen' :
  schemaGrants_one field schema grants seen = inl (out, seen') →
  Forall2 (schema_grant_of schema) grants out ∧ NoDup (grant_key <$> out) ∧
  (∀ d, d ∈ out → grant_key d ∉ seen) ∧ seen' = list_to_set (grant_key <$> out) ∪ seen.
Proof.
  revert seen out seen'. induction grants as [|g gs IH]; intros seen out seen'; simpl.
  { intros [= <- <-]. split_and!; [done|constructor|by intros ? ?%elem_of_nil|set_solver]. }
  case_decide as Hseen; [done|]. case_decide as Hpub; [done|].
  destruct (NormalizeSchemaPrivileges _) as [privs|] eqn:En; [|done].
  destruct (schemaGrants_one _ _ gs _) as [[rest seen1]|] eqn:Er; [|done]. intros [= <- <-].
  destruct (IH _ _ _ Er) as (H1 & H2 & H3 & ->). split_and!.
  - constructor; [|done]. exists privs. split_and!; [done|done|]. intros Hc.
    destruct (gs_WithGrantOption g); [|done]. by destruct Hpub.
  - constructor; [|done]. intros (d & Heq & Hd)%list_elem_of_fmap. apply (H3 d Hd). rewrite <- Heq. set_solver.
  - intros d [->|Hd]%elem_of_cons; [done|]. specialize (H3 d Hd). set_solver.
  - simpl. unfold grant_key at 2. simpl. set_solver.
Qed.
End declared.

(** ** A filtered run *)

Section runs.
Context `{UP : UnicodePrint} {W : Type} (LookupRole : string → M W (result (option ReachableRole))) (c : granteeChecker).

Abbreviation llookup := (logged_lookup LookupRole).

(** What the calls of a reconcile are, when it declares [all] and its ledger is [managed]. *)
Definition safe_run (all managed : list privilegeGrant) (new : list pg_call) : Prop :=
  ∃ desired, Forall (λ ev, is_lookup ev ∨ grant_ok desired managed ev) new ∧
    (∀ d, d ∈ desired → d ∈ all) ∧
    ((∃ ev, ev ∈ new ∧ ¬ is_lookup ev) → filtered c new all desired).

Lemma safe_lookups all managed new : Forall is_lookup new → safe_run all managed new.
Proof.
  intros H. exists []. split_and!.
  - eapply Forall_impl; [exact H|]. by left.
  - by intros d ?%elem_of_nil.
  - rewrite Forall_forall in H. intros (ev & Hev & Hn). destruct Hn. by apply H.
Qed.

Lemma safe_filtered all managed desired new1 new2 :
  Forall is_lookup new1 → filtered c new1 all desired → Forall (grant_ok desired managed) new2 →
  safe_run all managed (new1 ++ new2).
Proof.
  intros H1 Hf H2. exists desired. split_and!.
  - apply Forall_app. split; (eapply Forall_impl; [eassumption|]); auto.
  - intros d Hd. destruct Hf as (Hs & _). by eapply elem_of_sublist.
  - intros _. eapply filtered_mono; [|done]. intros. apply elem_of_app. by left.
Qed.

Lemma filtered_desired tr all desired :
  filtered c tr all desired → NoDup (grant_key <$> all) → Forall wf_desired all →
  NoDup (grant_key <$> desired) ∧ Forall wf_desired desired.
Proof.
  intros (Hs & _) Hn Hwf. split.
  - eapply sublist_NoDup; [done|]. by apply fmap_sublist.
  - rewrite Forall_forall in *. intros d Hd. apply Hwf. by eapply elem_of_sublist.
Qed.

Lemma reconcileDatabaseGrants_emits (pg : databaseGrantClient W) spec pgName save st ck tr0 :
  caches_ok c tr0 ck → tr0 = [] →
  emits (reconcileDatabaseGrants llookup c (logged_database_client pg) spec pgName (logged_saver save) st ck)
    (λ _ new, new = [] ∨ ∃ all, desiredDatabaseGrants (ds_Grants spec) pgName = inl all ∧
      safe_run all (databaseLedger pgName (dst_ManagedGrants st)) new).
Proof.
  intros Hck ->. unfold reconcileDatabaseGrants.
  destruct (desiredDatabaseGrants _ _) as [all|e] eqn:Ed; [|apply emits_ret; by left].
  destruct (desiredDatabaseGrants_spec _ _ _ Ed) as (_ & Hn & Hwf).
  case_decide; [apply emits_ret; by left|].
  eapply emits_bind; [by apply (filter_emits _ _ _ _ _ _ [])|]. intros [[r held] ck'] new1 (Hl & _ & Hf).
  destruct r as [desired|e].
  2: { apply emits_ret. rewrite app_nil_r. right. exists all. split; [done|]. by apply safe_lookups. }
  specialize (Hf desired eq_refl). destruct (filtered_desired _ _ _ Hf Hn Hwf) as [Hn' Hwf'].
  eapply emits_bind; [apply engine_client_emits; try done|].
  - intros f t [= <-]. apply roleGone_emits.
  - intros f l. apply saver_emits.
  - intros [after err] new2 Hok. apply emits_ret. rewrite app_nil_r. right. exists all. split; [done|].
    by eapply safe_filtered.
Qed.
End runs.

(** One grantee per entry: two entries for a grantee declare the same grant. *)
Lemma desired_by_grantee `{UP : UnicodePrint} pgName grants all g d :
  Forall2 (database_grant_of pgName) grants all → NoDup (grant_key <$> all) → g ∈ grants → d ∈ all →
  gt_Grantee (g_Target d) = CanonicalGrantee (dgs_Role g) → database_grant_of pgName g d.
Proof.
  intros H2 Hn Hg Hd Heq. destruct (Forall2_elem_l _ _ _ _ H2 Hg) as (d' & Hd' & Hgd).
  assert (d = d') as ->; [|done]. eapply (NoDup_fmap_elem grant_key); try done.
  unfold grant_key. rewrite (database_targets _ _ _ H2 d Hd), (database_targets _ _ _ H2 d' Hd'), Heq.
  destruct Hgd as (privs & _ & -> & _). done.
Qed.

(** ** Schemas *)

Section schemas.
Context `{UP : UnicodePrint}.

(** All grants of the fields, in order. *)
Definition field_grants (fields : list string) (all : gmap string (list privilegeGrant)) : list privilegeGrant :=
  fields ≫= λ f, default [] (all !! f).

Definition from_schemas (schemas : list SchemaSpec) (managedSchemas : gset string) (d : privilegeGrant) : Prop :=
  ∃ s g, s ∈ schemas ∧ ss_Name s ∈ managedSchemas ∧ g ∈ ss_Grants s ∧ schema_grant_of (ss_Name s) g d.

Definition fields_ok (fields : list string) (grants : gmap string (list privilegeGrant)) (seen : gset string) : Prop :=
  (∀ f, f ∈ fields → is_Some (grants !! f)) ∧ NoDup (grant_key <$> field_grants fields grants) ∧
  seen = list_to_set (grant_key <$> field_grants fields grants).

Lemma field_grants_insert fields grants f l :
  f ∉ fields → field_grants (fields ++ [f]) (<[f := l]> grants) = field_grants fields grants ++ l.
Proof.
  intros Hf. unfold field_grants. rewrite bind_app. simpl. rewrite lookup_insert_eq. simpl. rewrite app_nil_r. f_equal.
  induction fields as [|f' fields IH]; [done|]. apply not_elem_of_cons in Hf as [? ?].
  simpl. rewrite lookup_insert_ne by done. f_equal. by apply IH.
Qed.

Lemma fields_ok_insert fields grants seen f l seen' :
  fields_ok fields grants seen → grants !! f = None → NoDup (grant_key <$> l) → (∀ d, d ∈ l → grant_key d ∉ seen) →
  seen' = list_to_set (grant_key <$> l) ∪ seen → fields_ok (fields ++ [f]) (<[f := l]> grants) seen'.
Proof.
  intros (Hd & Hn & ->) Hf Hl Hdis ->.
  assert (f ∉ fields) as Hnf. { intros Hin. destruct (Hd f Hin) as [x Hx]. congruence. }
  split_and!.
  - intros f' [Hf'| ->%list_elem_of_singleton]%elem_of_app; [|rewrite lookup_insert_eq; by eexists].
    rewrite lookup_insert_ne by (by intros ->). by apply Hd.
  - rewrite field_grants_insert, fmap_app by done. apply NoDup_app. split_and!; [done| |done].
    intros k Hk (d & -> & Hdl)%list_elem_of_fmap. apply (Hdis d Hdl). by apply elem_of_list_to_set.
  - rewrite field_grants_insert, fmap_app, list_to_set_app_L by done. set_solver.
Qed.

Lemma schemaGrants_go_spec schemas managedSchemas fields grants seen fields' grants' P :
  schemaGrants_go schemas managedSchemas fields grants seen = inl (fields', grants') →
  fields_ok fields grants seen → Forall P (field_grants fields grants) →
  (∀ d, from_schemas schemas managedSchemas d → P d) →
  (∃ seen', fields_ok fields' grants' seen') ∧ Forall P (field_grants fields' grants').
Proof.
  revert fields grants seen. induction schemas as [|s ss IH]; intros fields grants seen; simpl.
  { intros [= <- <-] Hok HP _. eauto. }
  assert (∀ d, from_schemas ss managedSchemas d → from_schemas (s :: ss) managedSchemas d) as Hmono.
  { intros d (s' & g & ? & ?). exists s', g. split; [by right|done]. }
  case_decide as Hskip.
  { intros Hgo Hok HP Hfrom. eapply IH; [done..|]. auto. }
  assert (ss_Name s ∈ managedSchemas) as Hm by (destruct (decide (ss_Name s ∈ managedSchemas)); tauto).
  destruct (grants !! schema_field (ss_Name s)) eqn:Ef; [done|].
  destruct (schemaGrants_one _ _ _ _) as [[l seen1]|] eqn:El; [|done]. intros Hgo Hok HP Hfrom.
  destruct (schemaGrants_one_spec _ _ _ _ _ _ El) as (H1 & H2 & H3 & Hseen).
  eapply IH; [done|by eapply fields_ok_insert| |auto].
  rewrite field_grants_insert. 2: { intros Hin. destruct Hok as (Hd & _). destruct (Hd _ Hin). congruence. }
  apply Forall_app. split; [done|]. rewrite Forall_forall. intros d Hd. apply Hfrom.
  destruct (Forall2_elem_r _ _ _ _ H1 Hd) as (g & ? & ?). exists s, g. split_and!; [by left|done..].
Qed.

(** [desiredSchemaGrants]: grants of managed schemas, with distinct keys. *)
Lemma desiredSchemaGrants_spec schemas managedSchemas fields grants :
  desiredSchemaGrants schemas managedSchemas = inl (fields, grants) →
  NoDup (grant_key <$> field_grants fields grants) ∧ Forall wf_desired (field_grants fields grants) ∧
  Forall (from_schemas schemas managedSchemas) (field_grants fields grants).
Proof.
  intros Hgo. eapply (schemaGrants_go_spec _ _ _ _ _ _ _ (from_schemas schemas managedSchemas)) in Hgo as [(seen & _ & Hn & _) Hf]; [|..].
  - split_and!; [done| |done]. rewrite Forall_forall in *.
    intros d (s & g & _ & _ & _ & privs & _ & -> & _)%Hf. apply wf_desiredGrant.
  - split_and!; [by intros ? ?%elem_of_nil|constructor|done].
  - constructor.
  - done.
Qed.
End schemas.

Section schema_runs.
Context `{UP : UnicodePrint} {W : Type} (LookupRole : string → M W (result (option ReachableRole))) (c : granteeChecker).

Abbreviation llookup := (logged_lookup LookupRole).

Lemma filtered_app tr l1 l2 out1 out2 :
  filtered c tr l1 out1 → filtered c tr l2 out2 → filtered c tr (l1 ++ l2) (out1 ++ out2).
Proof.
  intros (S1 & I1 & O1) (S2 & I2 & O2). split_and!.
  - by apply sublist_app.
  - intros g [?|?]%elem_of_app; auto.
  - intros g [[?|?]%O1|[?|?]%O2]%elem_of_app; rewrite elem_of_app; auto.
Qed.

Lemma filterFields_emits fields all held ck tr0 :
  caches_ok c tr0 ck →
  emits (filterFields llookup c fields all held ck) (λ '(r, _, ck') new,
    Forall is_lookup new ∧ caches_ok c (tr0 ++ new) ck' ∧ ∀ out, r = inl out → filtered c (tr0 ++ new) (field_grants fields all) out).
Proof.
  revert held ck tr0. induction fields as [|f fs IH]; intros held ck tr0 Hck; simpl.
  { apply emits_ret. rewrite app_nil_r. split_and!; [done|done|]. intros ? [= <-].
    split_and!; [constructor|by intros ? ?%elem_of_nil..]. }
  eapply emits_bind; [by apply filter_emits|]. intros [[r held1] ck1] new1 (Hl1 & Hc1 & Hf1).
  destruct r as [allowed|e]; [|by apply emits_ret; rewrite app_nil_r].
  eapply emits_bind; [by apply (IH _ _ (tr0 ++ new1))|]. intros [[rest held2] ck2] new2 (Hl2 & Hc2 & Hf2).
  rewrite <- app_assoc in *.
  apply emits_ret. rewrite app_nil_r. split; [by apply Forall_app|]. split; [done|].
  destruct rest as [out|e]; [|done]. intros ? [= <-]. apply filtered_app; [|by apply Hf2].
  eapply filtered_mono; [|by apply Hf1]. rewrite app_assoc. intros. apply elem_of_app. by left.
Qed.

Lemma schemaGone_emits (pg : schemaGrantClient W) t desired managed :
  emits (schemaGone (logged_schema_client pg) t) (λ _ new, Forall (grant_ok desired managed) new).
Proof.
  unfold schemaGone. eapply emits_bind; [by apply (emits_one _ _ (grant_ok desired managed))|]. intros r new1 H1.
  destruct r as [[]|e]; [|(apply emits_ret; by rewrite app_nil_r)..].
  eapply emits_conseq; [apply (roleGone_emits _ _ desired managed)|]. intros r new2 H2. apply Forall_app. by split.
Qed.

Lemma reconcileSchemaGrants_emits (pg : schemaGrantClient W) spec managedSchemas save st ck :
  caches_ok c [] ck →
  emits (reconcileSchemaGrants llookup c (logged_schema_client pg) spec managedSchemas (logged_saver save) st ck)
    (λ _ new, new = [] ∨ ∃ fields all, desiredSchemaGrants (ds_Schemas spec) managedSchemas = inl (fields, all) ∧
      safe_run c (field_grants fields all) (schemaLedger (dst_ManagedSchemaGrants st)) new).
Proof.
  intros Hck. unfold reconcileSchemaGrants.
  destruct (desiredSchemaGrants _ _) as [[fields all]|e] eqn:Ed; [|apply emits_ret; by left].
  destruct (desiredSchemaGrants_spec _ _ _ _ Ed) as (Hn & Hwf & _).
  case_decide; [apply emits_ret; by left|].
  eapply emits_bind; [by apply (filterFields_emits _ _ _ _ [])|]. intros [[r held] ck'] new1 (Hl & _ & Hf).
  destruct r as [desired|e].
  2: { apply emits_ret. rewrite app_nil_r. right. exists fields, all. split; [done|]. by apply safe_lookups. }
  specialize (Hf desired eq_refl). destruct (filtered_desired _ _ _ _ Hf Hn Hwf) as [Hn' Hwf'].
  eapply emits_bind; [apply engine_client_emits; try done|].
  - intros f t [= <-]. apply schemaGone_emits.
  - intros f l. apply saver_emits.
  - intros [after err] new2 Hok. apply emits_ret. rewrite app_nil_r. right. exists fields, all. split; [done|].
    by eapply safe_filtered.
Qed.
End schema_runs.
