(* ===== verification/GrantPolicyTheorems.v ===== *)
(** * Database and schema grants: the theorems *)

From Stdlib Require Import Ascii.
From S2P Require Import Prelude GoStrings GoStrconv Privileges Parameters ApiTypes RolePolicy.
From S2P Require Import Settings Trace GrantEngine GrantTrace GrantProps.
From S2P Require Import GranteePolicy Grants GrantSafety DatabaseGrants.

(** The examples count every non-ASCII rune as printable. *)
#[local] Existing Instance Toy.print.

(** A grantee that a run may grant to: PUBLIC, or a role that the server
    described in this run and that the policy accepts. *)
Definition accepted (c : granteeChecker) (tr : list pg_call) (grantee : string) : Prop :=
  IsPublic grantee = true ∨ ∃ r, CallLookup grantee (inl (Some r)) ∈ tr ∧ acceptable c grantee r.

(** The policy held the grantee back in this run. *)
Definition held_back (c : granteeChecker) (tr : list pg_call) (grantee : string) : Prop :=
  ∃ res, judged c tr grantee res ∧ gr_verdict res ≠ granteeAllowed.

Section safe.
Context `{UP : UnicodePrint} {c : granteeChecker} {all managed : list privilegeGrant} {tr : list pg_call}.
Context (Hsafe : safe_run c all managed tr).

Lemma safe_grant obj grantee ps wgo e :
  CallGrant obj grantee ps wgo e ∈ tr →
  ps ≠ [] ∧ accepted c tr grantee ∧ ∃ d, d ∈ all ∧ obj = grantTarget_object (g_Target d) ∧ grantee = gt_Grantee (g_Target d) ∧
    ∀ p, p ∈ ps → p ∈ (if wgo then g_GrantOptions d else g_Privileges d).
Proof.
  destruct Hsafe as (desired & Hev & Hsub & Hf). intros Hin. rewrite Forall_forall in Hev.
  destruct (Hev _ Hin) as [[]|(Hne & d & Hd & -> & -> & Hps)]. split_and!; [done| |exists d; split_and!; auto].
  destruct Hf as (_ & Hacc & _); [eexists; split; [exact Hin|by intros []]|].
  destruct (Hacc d Hd) as (res & Hj & Hv). by eapply judged_allowed.
Qed.

Lemma safe_revoke obj grantee ps mode e :
  CallRevoke obj grantee ps mode e ∈ tr →
  let f := if GrantOptionOnly mode then g_GrantOptions else g_Privileges in
  ps ≠ [] ∧ ∃ t, obj = grantTarget_object t ∧ grantee = gt_Grantee t ∧
    (∃ m, (m ∈ managed ∨ m ∈ all) ∧ g_Target m = t) ∧ ∀ p, p ∈ ps →
    recorded f managed (key t) p ∧ (Cascade mode = true → recorded g_GrantOptions managed (key t) p) ∧
    ∀ d, d ∈ all → g_Target d = t → p ∈ f d → held_back c tr grantee.
Proof.
  intros Hin f. destruct Hsafe as (desired & Hev & Hsub & Hf). rewrite Forall_forall in Hev.
  destruct (Hev _ Hin) as [[]|(Hne & t & -> & -> & (m & Hm & Hmt) & Hps)]. split; [done|]. exists t. split_and!; [done..| |].
  { exists m. split; [naive_solver|done]. }
  intros p Hp. destruct (Hps p Hp) as (Hrec & Hnd & Hc). split_and!; [done|done|].
  intros d Hd Ht Hpd. destruct Hf as (_ & _ & Hout); [eexists; split; [exact Hin|by intros []]|].
  destruct (Hout d Hd) as [Hin'|(res & Hj & Hv)].
  - destruct Hnd. exists d. split_and!; [done|unfold grant_key; by rewrite Ht|done].
  - rewrite Ht in Hj. by exists res.
Qed.
End safe.

(** A managed entry under the key of a target, when the kind has no bar. *)
Lemma recorded_target `{UP : UnicodePrint} f managed kind name grantee t p :
  recorded f managed (key t) p → (∀ m, m ∈ managed → gt_Kind (g_Target m) = kind) → gt_Kind t = kind →
  ContainsByte kind "|"%char = false → gt_OID t = 0%Z → gt_Name t = name → gt_Grantee t = grantee →
  ∃ m, m ∈ managed ∧ gt_Name (g_Target m) = name ∧ gt_Grantee (g_Target m) = grantee ∧ p ∈ f m.
Proof.
  intros (m & Hm & Hk & Hp) Hkind Ht Hbar Ho <- <-. exists m. split; [done|]. specialize (Hkind m Hm).
  apply key_inj in Hk as (_ & Hg & _ & Ho' & Hn); [|congruence..]. rewrite Ho' in Hn. auto.
Qed.

Section targets.
Context `{UP : UnicodePrint} (kind : string) (Hbar : ContainsByte kind "|"%char = false).

(** The target is the plain one of its name and grantee. *)
Definition plain (t : grantTarget) : Prop := t = plain_target kind (gt_Name t) (gt_Grantee t).

Lemma plain_intro t name grantee : t = plain_target kind name grantee → plain t.
Proof. by intros ->. Qed.

Lemma plain_key m t : plain (g_Target m) → plain t → grant_key m = key t → g_Target m = t.
Proof.
  unfold plain, grant_key. intros Hm Ht Hk. rewrite Hm, Ht in Hk |- *. by apply key_plain in Hk as (_ & -> & ->).
Qed.

(** What a REVOKE says about the managed and the declared entries of its target. *)
Lemma safe_revoke_plain {c all managed tr} (Hsafe : safe_run c all managed tr) obj grantee ps mode e :
  (∀ m, m ∈ managed ∨ m ∈ all → plain (g_Target m)) → CallRevoke obj grantee ps mode e ∈ tr →
  let f := if GrantOptionOnly mode then g_GrantOptions else g_Privileges in
  ps ≠ [] ∧ ∃ name, obj = {| po_Kind := kind; po_Name := name |} ∧
    (∃ m, (m ∈ managed ∨ m ∈ all) ∧ g_Target m = plain_target kind name grantee) ∧ ∀ p, p ∈ ps →
    (∃ m, m ∈ managed ∧ g_Target m = plain_target kind name grantee ∧ p ∈ f m) ∧
    (Cascade mode = true → ∃ m, m ∈ managed ∧ g_Target m = plain_target kind name grantee ∧ p ∈ g_GrantOptions m) ∧
    ∀ d, d ∈ all → g_Target d = plain_target kind name grantee → p ∈ f d → held_back c tr grantee.
Proof.
  intros Hplain Hin f. destruct (safe_revoke Hsafe _ _ _ _ _ Hin) as (Hne & t & -> & -> & (m0 & Hm0 & <-) & Hps).
  pose proof (Hplain m0 Hm0) as Ht. split; [done|]. exists (gt_Name (g_Target m0)).
  split; [unfold grantTarget_object; by rewrite Ht|]. rewrite <- Ht. split; [by exists m0|].
  assert (∀ g p, recorded g managed (key (g_Target m0)) p → ∃ m, m ∈ managed ∧ g_Target m = g_Target m0 ∧ p ∈ g m) as Hrec.
  { intros g p (m & Hm & Hk & Hp). exists m. split_and!; [done| |done]. apply plain_key; auto. }
  intros p Hp. destruct (Hps p Hp) as (H1 & H2 & H3). auto 10.
Qed.
End targets.

Lemma elem_of_databaseLedger pgName l m :
  m ∈ databaseLedger pgName l ↔ ∃ e, e ∈ l ∧ m = {| g_Target := databaseTarget pgName (mdg_Role e); g_Privileges := mdg_Privileges e;
    g_GrantOptions := grantOptionsOf (mdg_Privileges e) (mdg_GrantOptions e) (mdg_WithGrantOption e) |}.
Proof. unfold databaseLedger. rewrite list_elem_of_fmap. naive_solver. Qed.

Lemma database_plain pgName (l : list ManagedDatabaseGrant) grants all :
  Forall2 (database_grant_of pgName) grants all →
  ∀ m, m ∈ databaseLedger pgName l ∨ m ∈ all → g_Target m = plain_target ObjectDatabase pgName (gt_Grantee (g_Target m)).
Proof.
  intros H2 m [(e & _ & ->)%elem_of_databaseLedger|Hm]; [done|]. by eapply database_targets.
Qed.

(** What the grants of one entry are, whatever the kind of object. *)
Lemma desired_ps t privs (opt wgo : bool) (ps : list string) :
  (∀ p, p ∈ ps → p ∈ (if wgo then g_GrantOptions (desiredGrant t privs opt) else g_Privileges (desiredGrant t privs opt))) →
  ps ≠ [] → (∀ p, p ∈ ps → p ∈ privs) ∧ (wgo = true → opt = true).
Proof.
  intros Hps Hne. simpl in Hps. destruct wgo; [|done]. destruct opt; [done|]. exfalso.
  destruct ps as [|p ps]; [done|]. specialize (Hps p). rewrite elem_of_nil in Hps. apply Hps. by left.
Qed.

Lemma desired_field t privs (opt : bool) mode p :
  p ∈ privs → (GrantOptionOnly mode = true → opt = true) →
  p ∈ (if GrantOptionOnly mode then g_GrantOptions else g_Privileges) (desiredGrant t privs opt).
Proof. intros Hp Ho. destruct (GrantOptionOnly mode); [|done]. simpl. by rewrite Ho. Qed.

(** Database grants follow the policy and the spec. A GRANT is on the
    Database's own PostgreSQL database, for the canonical privileges of an entry of
    spec.grants to that entry's grantee, with the grant option only if the entry
    asks for it and never to PUBLIC; and the grantee is PUBLIC or a role that the
    server described in this run and that is no superuser, not reserved, not being
    deleted, and managed by the Cluster or allow-listed. A REVOKE takes only what
    the status records for that grantee, CASCADEs only over recorded grant options,
    and takes a privilege that the spec still declares only from a grantee the
    policy held back in this run. *)
Theorem database_grants_safe `{UP : UnicodePrint} {W} (pg : databaseGrantClient W) LookupRole c spec pgName save st w out w' tr :
  reconcileDatabaseGrants (logged_lookup LookupRole) c (logged_database_client pg) spec pgName (logged_saver save) st no_caches
    (w, []) = (out, (w', tr)) →
  let database := {| po_Kind := ObjectDatabase; po_Name := pgName |} in
  (∀ obj grantee ps wgo e, CallGrant obj grantee ps wgo e ∈ tr →
    obj = database ∧ ps ≠ [] ∧ accepted c tr grantee ∧
    ∃ g privs, g ∈ ds_Grants spec ∧ CanonicalGrantee (dgs_Role g) = grantee ∧
      NormalizeDatabasePrivileges (dgs_Privileges g) = inl privs ∧ (∀ p, p ∈ ps → p ∈ privs) ∧
      (wgo = true → dgs_WithGrantOption g = true ∧ grantee ≠ PublicGrantee)) ∧
  (∀ obj grantee ps mode e, CallRevoke obj grantee ps mode e ∈ tr →
    obj = database ∧ ps ≠ [] ∧ ∀ p, p ∈ ps →
    (∃ m, m ∈ dst_ManagedGrants st ∧ CanonicalGrantee (mdg_Role m) = grantee ∧
      let opts := grantOptionsOf (mdg_Privileges m) (mdg_GrantOptions m) (mdg_WithGrantOption m) in
      p ∈ (if GrantOptionOnly mode then opts else mdg_Privileges m)) ∧
    (Cascade mode = true → ∃ m, m ∈ dst_ManagedGrants st ∧ CanonicalGrantee (mdg_Role m) = grantee ∧
      p ∈ grantOptionsOf (mdg_Privileges m) (mdg_GrantOptions m) (mdg_WithGrantOption m)) ∧
    (∀ g privs, g ∈ ds_Grants spec → CanonicalGrantee (dgs_Role g) = grantee →
      NormalizeDatabasePrivileges (dgs_Privileges g) = inl privs → p ∈ privs →
      (GrantOptionOnly mode = true → dgs_WithGrantOption g = true) → held_back c tr grantee)).
Proof.
  intros Hrun database.
  destruct (emits_run _ _ _ _ _ _ _ (reconcileDatabaseGrants_emits LookupRole c pg spec pgName save st no_caches []
    (caches_ok_empty _ _) eq_refl) Hrun) as [_ [->|(all & Hall & Hsafe)]].
  { by split; intros * ?%elem_of_nil. }
  destruct (desiredDatabaseGrants_spec _ _ _ Hall) as (H2 & Hn & _).
  pose proof (database_plain pgName (dst_ManagedGrants st) _ _ H2) as Hplain.
  split; intros obj grantee ps x e Hin.
  - destruct (safe_grant Hsafe _ _ _ _ _ Hin) as (Hne & Hacc & d & Hd & -> & -> & Hps).
    split; [by rewrite (Hplain d (or_intror Hd))|]. split_and!; [done|done|].
    destruct (Forall2_elem_r _ _ _ _ H2 Hd) as (g & Hg & privs & Hp & -> & Hpub).
    destruct (desired_ps _ _ _ _ _ Hps Hne) as [Hsub Hopt]. exists g, privs. split_and!; [done..|].
    intros Hx. split; [auto|]. intros Heq%Hpub. rewrite Hopt in Heq; done.
  - destruct (safe_revoke_plain ObjectDatabase eq_refl Hsafe _ _ _ _ _ (λ m Hm, plain_intro _ _ _ _ (Hplain m Hm)) Hin)
      as (Hne & name & -> & (m0 & Hm0 & Heq0) & Hps).
    assert (name = pgName) as -> by (specialize (Hplain m0 Hm0); rewrite Heq0 in Hplain; by injection Hplain).
    split_and!; [done..|]. intros p Hp. destruct (Hps p Hp) as ((m & (en & Hen & ->)%elem_of_databaseLedger & Ht & Hpm) & Hc & Hd).
    injection Ht as Ht. split_and!.
    + exists en. split_and!; [done|done|]. by destruct (GrantOptionOnly x).
    + intros (m & (en' & Hen' & ->)%elem_of_databaseLedger & Ht' & Hpm')%Hc. injection Ht' as Ht'. by exists en'.
    + intros g privs Hg <- Hpr Hpp Hopt. destruct (Forall2_elem_l _ _ _ _ H2 Hg) as (d & Hdd & privs' & Hpr' & -> & _).
      rewrite Hpr in Hpr'. injection Hpr' as <-. eapply Hd; [done|done|]. by apply desired_field.
Qed.

Lemma elem_of_schemaLedger l m :
  m ∈ schemaLedger l ↔ ∃ e, e ∈ l ∧ m = {| g_Target := schemaTarget (msg_Schema e) (msg_Role e); g_Privileges := msg_Privileges e;
    g_GrantOptions := grantOptionsOf (msg_Privileges e) (msg_GrantOptions e) (msg_WithGrantOption e) |}.
Proof. unfold schemaLedger. rewrite list_elem_of_fmap. naive_solver. Qed.

Lemma schema_plain `{UP : UnicodePrint} schemas managedSchemas (l : list ManagedSchemaGrant) all :
  Forall (from_schemas schemas managedSchemas) all → ∀ m, m ∈ schemaLedger l ∨ m ∈ all → plain ObjectSchema (g_Target m).
Proof.
  rewrite Forall_forall. intros Hall m [(e & _ & ->)%elem_of_schemaLedger|Hm]; [done|].
  by destruct (Hall m Hm) as (s & g & _ & _ & _ & privs & _ & -> & _).
Qed.

(** Schema grants follow the policy and the spec. A GRANT is on a schema that
    the Database manages and spec.schemas lists, for the canonical privileges of one
    of its grant entries to that entry's grantee, with the grant option only if the
    entry asks for it and never to PUBLIC, and only to PUBLIC or a role the policy
    accepts as the server described it in this run; a REVOKE takes only what the
    status records for that schema and grantee, and CASCADEs only over recorded
    grant options. *)
Theorem schema_grants_safe `{UP : UnicodePrint} {W} (pg : schemaGrantClient W) LookupRole c spec managedSchemas save st w out w' tr :
  reconcileSchemaGrants (logged_lookup LookupRole) c (logged_schema_client pg) spec managedSchemas (logged_saver save) st no_caches
    (w, []) = (out, (w', tr)) →
  (∀ obj grantee ps wgo e, CallGrant obj grantee ps wgo e ∈ tr →
    ps ≠ [] ∧ accepted c tr grantee ∧
    ∃ s g privs, s ∈ ds_Schemas spec ∧ ss_Name s ∈ managedSchemas ∧ g ∈ ss_Grants s ∧
      obj = {| po_Kind := ObjectSchema; po_Name := ss_Name s |} ∧ CanonicalGrantee (gs_Role g) = grantee ∧
      NormalizeSchemaPrivileges (gs_Privileges g) = inl privs ∧ (∀ p, p ∈ ps → p ∈ privs) ∧
      (wgo = true → gs_WithGrantOption g = true ∧ grantee ≠ PublicGrantee)) ∧
  (∀ obj grantee ps mode e, CallRevoke obj grantee ps mode e ∈ tr →
    ps ≠ [] ∧ ∃ schema, obj = {| po_Kind := ObjectSchema; po_Name := schema |} ∧ ∀ p, p ∈ ps →
    (∃ m, m ∈ dst_ManagedSchemaGrants st ∧ msg_Schema m = schema ∧ CanonicalGrantee (msg_Role m) = grantee ∧
      let opts := grantOptionsOf (msg_Privileges m) (msg_GrantOptions m) (msg_WithGrantOption m) in
      p ∈ (if GrantOptionOnly mode then opts else msg_Privileges m)) ∧
    (Cascade mode = true → ∃ m, m ∈ dst_ManagedSchemaGrants st ∧ msg_Schema m = schema ∧
      CanonicalGrantee (msg_Role m) = grantee ∧
      p ∈ grantOptionsOf (msg_Privileges m) (msg_GrantOptions m) (msg_WithGrantOption m))).
Proof.
  intros Hrun.
  destruct (emits_run _ _ _ _ _ _ _ (reconcileSchemaGrants_emits LookupRole c pg spec managedSchemas save st no_caches
    (caches_ok_empty _ _)) Hrun) as [_ [->|(fields & all & Hall & Hsafe)]].
  { by split; intros * ?%elem_of_nil. }
  destruct (desiredSchemaGrants_spec _ _ _ _ Hall) as (_ & _ & Hfrom).
  pose proof (schema_plain _ _ (dst_ManagedSchemaGrants st) _ Hfrom) as Hplain.
  split; intros obj grantee ps x e Hin.
  - destruct (safe_grant Hsafe _ _ _ _ _ Hin) as (Hne & Hacc & d & Hd & -> & -> & Hps). split_and!; [done|done|].
    rewrite Forall_forall in Hfrom. destruct (Hfrom d Hd) as (s & g & Hs & Hm & Hg & privs & Hp & -> & Hpub).
    destruct (desired_ps _ _ _ _ _ Hps Hne) as [Hsub Hopt]. exists s, g, privs. split_and!; [done..|].
    intros Hx. split; [auto|]. intros Heq%Hpub. rewrite Hopt in Heq; done.
  - destruct (safe_revoke_plain ObjectSchema eq_refl Hsafe _ _ _ _ _ Hplain Hin) as (Hne & name & -> & _ & Hps).
    split; [done|]. exists name. split; [done|]. intros p Hp.
    destruct (Hps p Hp) as ((m & (en & Hen & ->)%elem_of_schemaLedger & Ht & Hpm) & Hc & _).
    injection Ht as Ht1 Ht2. split.
    + exists en. split_and!; [done..|]. by destruct (GrantOptionOnly x).
    + intros (m & (en' & Hen' & ->)%elem_of_schemaLedger & Ht' & Hpm')%Hc. injection Ht' as Ht1' Ht2'. by exists en'.
Qed.

(** ** A toy server for the examples *)

Module ToyDatabase.
Definition target (o : PrivilegeObject) (grantee : string) : grantTarget := plain_target (po_Kind o) (po_Name o) grantee.

Definition executor : privilegeExecutor Toy.world :=
  {| HeldPrivileges := λ o g w, let h := Toy.at_key w (key (target o g)) in (inl (h.1, h.2, true), w);
     GrantPrivileges := λ o g, op_grant Toy.ops (target o g);
     RevokePrivileges := λ o g, op_revoke Toy.ops (target o g) |}.

Definition role (name comment : string) (superuser : bool) : ReachableRole :=
  {| rr_Name := name; rr_Via := ""; rr_Comment := comment; rr_Superuser := superuser; rr_CreateRole := false;
     rr_Replication := false; rr_BypassRLS := false |}.

(** "app" is managed, "dba" is a superuser and "old" is unknown to the Cluster. *)
Definition LookupRole (n : string) : M Toy.world (result (option ReachableRole)) :=
  mret (inl (if decide (n = "app") then Some (role "app" "marker" false)
             else if decide (n = "dba") then Some (role "dba" "" true)
             else if decide (n = "old") then Some (role "old" "" false) else None)).

Definition checker : granteeChecker := {| gc_policy := None; gc_managed := {[ "app" := "marker" ]}; gc_deleting := ∅ |}.

Definition database_client : databaseGrantClient Toy.world :=
  {| dgc_executor := executor; dgc_HeldFromAnyGrantor := λ _ _ _, mret (inl false); dgc_RoleExists := λ _, mret (inl true);
     dgc_SetDatabaseParameter := λ _ _ _, mret None; dgc_ResetDatabaseParameter := λ _ _, mret None;
     dgc_ParameterContext := λ _, mret (inl None) |}.

Definition schema_client : schemaGrantClient Toy.world :=
  {| sgc_executor := executor; sgc_RoleExists := λ _, mret (inl true); sgc_SchemaExists := λ _, mret (inl true) |}.

Definition spec : DatabaseSpec :=
  {| ds_ClusterRef := "c"; ds_DatabaseName := ""; ds_Owner := ""; ds_Extensions := [];
     ds_Schemas := [{| ss_Name := "data"; ss_Owner := ""; ss_ObjectGrants := []; ss_DefaultPrivileges := [];
       ss_Grants := [{| gs_Role := "app"; gs_Privileges := ["usage"]; gs_WithGrantOption := true |}] |}];
     ds_Grants := [{| dgs_Role := "app"; dgs_Privileges := ["connect"]; dgs_WithGrantOption := true |};
                   {| dgs_Role := "old"; dgs_Privileges := ["connect"]; dgs_WithGrantOption := false |};
                   {| dgs_Role := "dba"; dgs_Privileges := ["all"]; dgs_WithGrantOption := false |}];
     ds_Settings := ∅; ds_PublicPrivileges := None |}.

Definition status : DatabaseStatus :=
  {| dst_Ready := true; dst_DatabaseName := "db"; dst_ClusterUID := "u"; dst_InstalledExtensions := []; dst_Extensions := [];
     dst_ManagedExtensionGrants := []; dst_CreatedSchemas := ["data"];
     dst_ManagedGrants := [{| mdg_Role := "old"; mdg_Privileges := ["CONNECT"]; mdg_GrantOptions := []; mdg_WithGrantOption := false |}];
     dst_ManagedSchemaGrants := [{| msg_Schema := "gone"; msg_Role := "app"; msg_Privileges := ["USAGE"]; msg_GrantOptions := [];
       msg_WithGrantOption := true |}];
     dst_ManagedObjectGrants := []; dst_ManagedDefaultPrivileges := []; dst_ObjectGrants := [];
     dst_RevokedPublicPrivileges := []; dst_ManagedSettings := [];
     dst_Conditions := [] |}.

Definition database : PrivilegeObject := {| po_Kind := ObjectDatabase; po_Name := "db" |}.

Definition save : statusSaver Toy.world DatabaseStatus := Some (λ _, mret None).

Definition run := reconcileDatabaseGrants (logged_lookup LookupRole) checker (logged_database_client database_client) spec "db"
  (logged_saver save) status no_caches (∅, []).

Definition schema_run := reconcileSchemaGrants (logged_lookup LookupRole) checker (logged_schema_client schema_client) spec {["data"]}
  (logged_saver save) status no_caches (∅, []).
End ToyDatabase.

(** "app" gets CONNECT, "dba" is refused, and "old", unknown to the Cluster, loses
    what was recorded. *)
Lemma database_grants_safe_witness :
  let tr := ToyDatabase.run.2.2 in
  CallGrant ToyDatabase.database "app" ["CONNECT"] true None ∈ tr ∧
  CallRevoke ToyDatabase.database "old" ["CONNECT"] (revokeMode false false) None ∈ tr ∧
  accepted ToyDatabase.checker tr "app" ∧ held_back ToyDatabase.checker tr "old".
Proof.
  intros tr.
  pose proof (database_grants_safe ToyDatabase.database_client ToyDatabase.LookupRole ToyDatabase.checker ToyDatabase.spec "db"
    ToyDatabase.save ToyDatabase.status ∅ _ _ _ (run_split ToyDatabase.run)) as [Hg Hr].
  assert (CallGrant ToyDatabase.database "app" ["CONNECT"] true None ∈ tr) as H1 by (vm_compute; repeat constructor).
  assert (CallRevoke ToyDatabase.database "old" ["CONNECT"] (revokeMode false false) None ∈ tr) as H2 by (vm_compute; repeat constructor).
  split_and!; [exact H1|exact H2| |].
  - by apply Hg in H1 as (_ & _ & ? & _).
  - apply Hr in H2 as (_ & _ & Hps). destruct (Hps "CONNECT") as (_ & _ & Hb); [by left|].
    apply (Hb {| dgs_Role := "old"; dgs_Privileges := ["connect"]; dgs_WithGrantOption := false |} ["CONNECT"]);
      [by right; left|by vm_compute|by vm_compute|by left|done].
Defined.

Lemma schema_grants_safe_witness :
  let tr := ToyDatabase.schema_run.2.2 in
  let obj s := {| po_Kind := ObjectSchema; po_Name := s |} in
  CallGrant (obj "data") "app" ["USAGE"] true None ∈ tr ∧ accepted ToyDatabase.checker tr "app" ∧
  CallRevoke (obj "gone") "app" ["USAGE"] (revokeMode false true) None ∈ tr ∧
  ∃ m, m ∈ dst_ManagedSchemaGrants ToyDatabase.status ∧ msg_Schema m = "gone".
Proof.
  intros tr obj.
  pose proof (schema_grants_safe ToyDatabase.schema_client ToyDatabase.LookupRole ToyDatabase.checker ToyDatabase.spec {["data"]}
    ToyDatabase.save ToyDatabase.status ∅ _ _ _ (run_split ToyDatabase.schema_run)) as [Hg Hr].
  assert (CallGrant (obj "data") "app" ["USAGE"] true None ∈ tr) as H1 by (vm_compute; repeat constructor).
  assert (CallRevoke (obj "gone") "app" ["USAGE"] (revokeMode false true) None ∈ tr) as H2 by (vm_compute; repeat constructor).
  split_and!; [exact H1| |exact H2|].
  - by apply Hg in H1 as (_ & ? & _).
  - apply Hr in H2 as (_ & s & [= <-] & Hps). destruct (Hps "USAGE") as [(m & Hm & Hs & _) _]; [by left|]. by exists m.
Defined.
