(* ===== verification/ObjectSafety.v ===== *)
(** * Object grants and default privileges: which statements are sent

    The reconciles of ObjectGrants.v with every call recorded, for any server: what
    the planner selects and why, and what the engine then grants and revokes. *)

From Stdlib Require Import Ascii.
From S2P Require Import Prelude GoStrings GoStrconv Privileges Parameters ApiTypes RolePolicy Objects.
From S2P Require Import Settings Trace GrantEngine GrantTrace GrantProps.
From S2P Require Import GranteePolicy Grants GrantSafety DatabaseGrants ObjectGrants.

Definition logged_object_client {W} (pg : objectGrantClient W) : objectGrantClient (W * list pg_call) :=
  {| ogc_RoleExists := λ n, logged (CallRoleExists n) (ogc_RoleExists pg n);
     ogc_SchemaExists := λ n, logged (CallSchemaExists n) (ogc_SchemaExists pg n);
     ogc_RoleOIDs := λ ns, logged (CallRoleOIDs ns) (ogc_RoleOIDs pg ns);
     ogc_ListSchemaObjects := λ s k sel, logged (CallListObjects s k sel) (ogc_ListSchemaObjects pg s k sel);
     ogc_ResolveRoutine := λ s n a, logged (CallResolveRoutine s n a) (ogc_ResolveRoutine pg s n a);
     ogc_ResolveSchemaObject := λ k s i o, logged (CallResolveObject k s i o) (ogc_ResolveSchemaObject pg k s i o);
     ogc_GrantOnSchemaObject := λ k s i o g ps wgo, logged (CallGrantObject k s i o g ps wgo) (ogc_GrantOnSchemaObject pg k s i o g ps wgo);
     ogc_RevokeOnSchemaObject := λ k s i o g ps m, logged (CallRevokeObject k s i o g ps m) (ogc_RevokeOnSchemaObject pg k s i o g ps m);
     ogc_HeldDefaultPrivileges := λ t g, logged (CallHeldDefault t g) (ogc_HeldDefaultPrivileges pg t g);
     ogc_GrantDefaultPrivileges := λ t g ps wgo, logged (CallGrantDefault t g ps wgo) (ogc_GrantDefaultPrivileges pg t g ps wgo);
     ogc_RevokeDefaultPrivileges := λ t g ps m, logged (CallRevokeDefault t g ps m) (ogc_RevokeDefaultPrivileges pg t g ps m) |}.

(** Calls that change nothing. *)
Definition is_read (ev : pg_call) : Prop :=
  match ev with
  | CallGrant _ _ _ _ _ | CallRevoke _ _ _ _ _ | CallGrantObject _ _ _ _ _ _ _ _ | CallRevokeObject _ _ _ _ _ _ _ _
  | CallGrantDefault _ _ _ _ _ | CallRevokeDefault _ _ _ _ _ | CallSave _ => False
  | _ => True
  end.

Lemma lookups_read new : Forall is_lookup new → Forall is_read new.
Proof. intros H. eapply Forall_impl; [exact H|]. by intros []. Qed.

(** ** The kinds *)

Lemma objectKindOf_elem k ki : objectKindOf k = Some ki → ki ∈ objectKindInfos ∧ (ki_api ki = k ∨ ki_pg ki = k).
Proof.
  unfold objectKindOf. intros H.
  assert (ki ∈ filter (λ ki, ki_api ki = k ∨ ki_pg ki = k) objectKindInfos) as Hin
    by (destruct (filter _ _); simplify_eq/=; by left).
  apply list_elem_of_filter in Hin. naive_solver.
Qed.

Lemma objectKind_no_bar ki : ki ∈ objectKindInfos → ContainsByte (ki_pg ki) "|"%char = false.
Proof.
  assert (Forall (λ ki, ContainsByte (ki_pg ki) "|"%char = false) objectKindInfos) as H by (by repeat constructor).
  rewrite Forall_forall in H. apply H.
Qed.

Lemma objectKindOf_pg ki : ki ∈ objectKindInfos → objectKindOf (ki_pg ki) = Some ki.
Proof.
  assert (Forall (λ ki, objectKindOf (ki_pg ki) = Some ki) objectKindInfos) as H by (by repeat constructor).
  rewrite Forall_forall in H. apply H.
Qed.

Lemma objectKind_pg_inj ki ki' : ki ∈ objectKindInfos → ki' ∈ objectKindInfos → ki_pg ki = ki_pg ki' → ki = ki'.
Proof. intros H1%objectKindOf_pg H2%objectKindOf_pg Heq. rewrite Heq in H1. congruence. Qed.

(** A string is split at its last bar. *)
Lemma last_bar_split (b : ascii) s1 s2 k1 k2 :
  ContainsByte k1 b = false → ContainsByte k2 b = false → s1 +:+ String b k1 = s2 +:+ String b k2 → s1 = s2 ∧ k1 = k2.
Proof.
  intros H1 H2. revert s2. induction s1 as [|x s1 IH]; intros [|y s2]; simpl; intros Heq; simplify_eq; [done| | |].
  - rewrite ContainsByte_app_s in H1. simpl in H1. rewrite bool_decide_true in H1 by done. by rewrite orb_true_r in H1.
  - rewrite ContainsByte_app_s in H2. simpl in H2. rewrite bool_decide_true in H2 by done. by rewrite orb_true_r in H2.
  - by destruct (IH s2) as [-> ->].
Qed.

Lemma groupKey_inj s1 s2 k1 k2 :
  ContainsByte k1 "|"%char = false → ContainsByte k2 "|"%char = false → groupKey s1 k1 = groupKey s2 k2 → s1 = s2 ∧ k1 = k2.
Proof. intros H1 H2. apply last_bar_split; done. Qed.

(** ** What the spec declares *)

Section declared.
Context `{UP : UnicodePrint}.

(** An entry of the planner stands for an object grant of the spec. *)
Definition declared_entry (schemas : list SchemaSpec) (managedSchemas : gset string) (e : objectEntry) : Prop :=
  ∃ s g privs, s ∈ schemas ∧ ss_Name s = oe_schema e ∧ oe_schema e ∈ managedSchemas ∧ systemSchemaName (oe_schema e) = false ∧
    g ∈ ss_ObjectGrants s ∧ objectKindOf (ogs_Kind g) = Some (oe_kind e) ∧ oe_grantee e = CanonicalGrantee (ogs_Role g) ∧
    normalizeObjectPrivileges (ki_pg (oe_kind e)) (ogs_Privileges g) = inl privs ∧ (∀ p, p ∈ oe_privileges e → p ∈ privs) ∧
    oe_withGrantOption e = ogs_WithGrantOption g ∧ (oe_grantee e = PublicGrantee → oe_withGrantOption e = false) ∧
    (oe_all e = true → selectAll ∈ ogs_Objects g) ∧ (∀ n, n ∈ oe_names e → n ∈ ogs_Objects g).

Lemma dropMaintain_sub privs v p : p ∈ (dropMaintain privs v).1 → p ∈ privs.
Proof. unfold dropMaintain. destruct (_ || _); [done|]. simpl. by intros [_ ?]%list_elem_of_filter. Qed.

Lemma planner_entry_declared v s managedSchemas field at_ g e u :
  planner_entry v (ss_Name s) field at_ g = inl (e, u) → g ∈ ss_ObjectGrants s → ss_Name s ∈ managedSchemas →
  systemSchemaName (ss_Name s) = false → declared_entry [s] managedSchemas e ∧ oe_field e = field.
Proof.
  intros He Hg Hm Hs. unfold planner_entry in He. destruct (objectKindOf _) as [ki|] eqn:Ek; [|done].
  destruct (normalizeObjectPrivileges _ _) as [privs|] eqn:En; [|done].
  destruct (bool_decide (CanonicalGrantee (ogs_Role g) = PublicGrantee) && ogs_WithGrantOption g) eqn:Ep; [done|].
  case_decide; [done|]. destruct (_ && bool_decide (1 < length _)%nat); [done|].
  pose proof (dropMaintain_sub privs v) as Hsub. destruct (dropMaintain privs v) as [ps dropped].
  injection He as <- _. split; [|done]. exists s, g, privs. cbn [oe_schema oe_kind oe_grantee oe_privileges oe_withGrantOption oe_all oe_names].
  split_and!; try done; [by left| | |].
  - intros Hpub. rewrite bool_decide_true in Ep by done. by destruct (ogs_WithGrantOption g).
  - by intros ?%bool_decide_eq_true.
  - by intros n [_ ?]%list_elem_of_filter.
Qed.

Lemma declared_mono schemas schemas' managedSchemas e :
  (∀ s, s ∈ schemas → s ∈ schemas') → declared_entry schemas managedSchemas e → declared_entry schemas' managedSchemas e.
Proof. intros Hs (s & g & privs & ? & ?). exists s, g, privs. split; [auto|done]. Qed.

Lemma schemaEntries_declared v s managedSchemas field i gs es u :
  schemaEntries v (ss_Name s) field i gs = inl (es, u) → (∀ g, g ∈ gs → g ∈ ss_ObjectGrants s) → ss_Name s ∈ managedSchemas →
  systemSchemaName (ss_Name s) = false → Forall (λ e, declared_entry [s] managedSchemas e ∧ oe_field e = field) es.
Proof.
  revert i es u. induction gs as [|g gs IH]; intros i es u; simpl; [by intros [= <- _]|]. intros He Hg Hm Hs.
  destruct (planner_entry _ _ _ _ g) as [[e u1]|] eqn:E1; [|done].
  destruct (schemaEntries _ _ _ _ gs) as [[es' u2]|] eqn:E2; [|done]. injection He as <- <-.
  assert (Forall (λ e, declared_entry [s] managedSchemas e ∧ oe_field e = field) es') as Hes.
  { eapply IH; [exact E2| |done..]. intros. apply Hg. by right. }
  case_decide; [done|]. constructor; [|done]. eapply planner_entry_declared; [exact E1| |done..]. apply Hg. by left.
Qed.

Lemma planner_entries_declared v schemas managedSchemas fields fields' es u :
  planner_entries v schemas managedSchemas fields = inl (fields', es, u) → NoDup fields →
  NoDup fields' ∧ Forall (declared_entry schemas managedSchemas) es.
Proof.
  revert fields es u. induction schemas as [|s ss IH]; intros fields es u; simpl; [by intros [= <- <- <-]|].
  assert (∀ es, Forall (declared_entry ss managedSchemas) es → Forall (declared_entry (s :: ss) managedSchemas) es) as Hmono.
  { intros l Hl. eapply Forall_impl; [exact Hl|]. intros e. apply declared_mono. intros. by right. }
  destruct (bool_decide (ss_Name s ∉ managedSchemas)) eqn:Em; [intros H1 H2; destruct (IH _ _ _ H1 H2); auto|].
  destruct (systemSchemaName (ss_Name s)) eqn:Es; [intros H1 H2; destruct (IH _ _ _ H1 H2); auto|].
  destruct (bool_decide (ss_ObjectGrants s = [])); [intros H1 H2; destruct (IH _ _ _ H1 H2); auto|]. simpl.
  destruct (slices_Contains fields _) eqn:Ec; [done|]. apply slices_Contains_false in Ec.
  destruct (schemaEntries _ _ _ _ _) as [[es1 u1]|] eqn:E1; [|done].
  destruct (planner_entries _ ss _ _) as [[[f2 es2] u2]|] eqn:E2; [|done]. intros [= <- <- <-] Hn.
  destruct (IH _ _ _ E2) as [Hn' H2].
  { apply NoDup_app. split_and!; [done|by intros ? ? ->%list_elem_of_singleton|apply NoDup_singleton]. }
  split; [done|]. apply Forall_app. split; [|auto].
  apply bool_decide_eq_false in Em. eapply Forall_impl.
  - eapply (schemaEntries_declared _ _ managedSchemas); [exact E1|done| |done]. by apply dec_stable.
  - intros e [He _]. eapply declared_mono; [|exact He]. intros ? ->%list_elem_of_singleton. by left.
Qed.

(** ** Groups *)

Definition group_of (e : objectEntry) (g : objectGroup) : Prop := og_schema g = oe_schema e ∧ og_kind g = oe_kind e.

Definition groups_ok (st : gmap string objectGroup * list string) : Prop :=
  ∀ k g, st.1 !! k = Some g → k ∈ st.2 ∧ k = groupKey (og_schema g) (ki_pg (og_kind g)) ∧ og_kind g ∈ objectKindInfos.

Lemma groups_of_ok entries : Forall (λ e, oe_kind e ∈ objectKindInfos) entries → groups_ok (groups_of entries).
Proof.
  unfold groups_of. intros He. assert (groups_ok (∅, [])) as H0 by (by intros k g).
  revert H0. generalize ((∅, []) : gmap string objectGroup * list string). induction He as [|e es He _ IH]; intros st Hst; [done|].
  simpl. apply IH. unfold add_to_group. destruct (st.1 !! entry_group e) as [g|] eqn:E; intros k g'; simpl.
  - intros [[<- <-]|[_ H]]%lookup_insert_Some; [|by apply Hst]. by apply Hst in E.
  - intros [[<- <-]|[_ H]]%lookup_insert_Some; simpl.
    + split_and!; [apply elem_of_app; right; by left|done|done].
    + apply Hst in H as (? & ? & ?). split_and!; [apply elem_of_app; by left|done|done].
Qed.

(** An entry's group is of its schema and kind. *)
Lemma entry_group_of st e g :
  groups_ok st → oe_kind e ∈ objectKindInfos → st.1 !! entry_group e = Some g → group_of e g.
Proof.
  intros Hst Hk Hg. apply Hst in Hg as (_ & Heq & Hki). unfold entry_group in Heq.
  apply groupKey_inj in Heq as [Hs Hp]; [|by apply objectKind_no_bar..]. split; [done|]. by apply objectKind_pg_inj.
Qed.
End declared.

(** ** Listing *)

(** A routine signature that the server resolved. *)
Definition resolved_as (tr : list pg_call) (schema n : string) (oid : Z) : Prop :=
  ∃ name args, parseRoutineName n = (name, args, true) ∧ CallResolveRoutine schema name args (inl (Some oid)) ∈ tr.

Lemma resolved_as_mono tr tr' schema n oid : (∀ ev, ev ∈ tr → ev ∈ tr') → resolved_as tr schema n oid → resolved_as tr' schema n oid.
Proof. intros H (name & args & ? & ?). exists name, args. auto. Qed.

Definition group_listed (tr : list pg_call) (g : objectGroup) : Prop :=
  og_failed g = false →
  (∃ sel, CallListObjects (og_schema g) (ki_pg (og_kind g)) sel (inl (og_objects g)) ∈ tr) ∧
  (∀ n oid, og_sigs g !! n = Some oid → resolved_as tr (og_schema g) n oid).

Lemma group_listed_mono tr tr' g : (∀ ev, ev ∈ tr → ev ∈ tr') → group_listed tr g → group_listed tr' g.
Proof. intros H Hg Hf. destruct (Hg Hf) as [[sel ?] Hs]. split; [eauto|]. intros. eapply resolved_as_mono; eauto. Qed.

Section listing.
Context `{UP : UnicodePrint} `{ErrorText} {W : Type} (pg : objectGrantClient W).
Abbreviation lpg := (logged_object_client pg).

Lemma resolveNames_emits g names acc tr0 :
  (∀ n oid, rn_sigs acc !! n = Some oid → resolved_as tr0 (og_schema g) n oid) →
  emits (resolveNames lpg g names acc) (λ r new, Forall is_read new ∧
    ∀ n oid, rn_sigs r !! n = Some oid → resolved_as (tr0 ++ new) (og_schema g) n oid).
Proof.
  revert acc tr0. induction names as [|n ns IH]; intros acc tr0 Hacc; simpl.
  { apply emits_ret. by rewrite app_nil_r. }
  destruct (parseRoutineName n) as [[name args] sig] eqn:Ep.
  destruct (negb (isRoutine (og_kind g)) || negb sig) eqn:Er; [by apply IH|].
  apply orb_false_iff in Er as [_ Hsig%negb_false_iff]. subst sig.
  eapply emits_bind; [by apply emits_logged|]. intros r new ->.
  eapply emits_conseq; [apply (IH _ (tr0 ++ [CallResolveRoutine (og_schema g) name args r]))|].
  - assert (∀ n oid, rn_sigs acc !! n = Some oid →
      resolved_as (tr0 ++ [CallResolveRoutine (og_schema g) name args r]) (og_schema g) n oid) as Hacc'.
    { intros n' oid Hn. eapply resolved_as_mono; [|by apply Hacc]. intros. apply elem_of_app. by left. }
    destruct r as [[oid|]|e]; [|done..]. cbn [rn_sigs]. intros n' oid' [[<- <-]|[_ ?]]%lookup_insert_Some; [|by apply Hacc'].
    exists name, args. split; [done|]. apply elem_of_app. right. by left.
  - intros r' new [Hr Hs]. rewrite <- app_assoc in Hs. split; [by constructor|done].
Qed.

Lemma planner_list_emits g :
  emits (planner_list lpg g) (λ '(g', _) new, Forall is_read new ∧ og_schema g' = og_schema g ∧ og_kind g' = og_kind g ∧
    group_listed new g').
Proof.
  unfold planner_list. eapply emits_bind; [by apply (resolveNames_emits _ _ _ [])|]. intros r new1 [H1 Hs].
  eapply emits_bind; [by apply emits_logged|]. intros objects new2 ->. apply emits_ret. rewrite app_nil_r.
  assert (Forall is_read (new1 ++ [CallListObjects (og_schema g) (ki_pg (og_kind g))
    {| sel_All := og_all g; sel_Names := rn_names r; sel_OIDs := rn_oids r;
       sel_Limit := if og_all g then maxObjectsPerKind + 1 else 0 |} objects])) as Hr by (apply Forall_app; by repeat constructor).
  destruct objects as [objects|e]; [destruct (_ && _)|]; split_and!; try done.
  intros _. cbn [og_objects og_schema og_kind og_sigs]. split; [eexists; apply elem_of_app; right; by left|].
  intros n oid Hn. eapply resolved_as_mono; [|by apply Hs]. intros. apply elem_of_app. by left.
Qed.

Lemma listGroups_emits order groups :
  emits (listGroups lpg order groups) (λ '(groups', _) new, Forall is_read new ∧
    (∀ k, k ∉ order → groups' !! k = groups !! k) ∧
    (∀ k g', groups' !! k = Some g' → ∃ g, groups !! k = Some g ∧ og_schema g' = og_schema g ∧ og_kind g' = og_kind g) ∧
    (∀ k g', k ∈ order → groups' !! k = Some g' → group_listed new g')).
Proof.
  revert groups. induction order as [|k ks IH]; intros groups; simpl.
  { apply emits_ret. split_and!; [done|done|eauto|by intros ? ? ?%elem_of_nil]. }
  destruct (groups !! k) as [g|] eqn:E.
  - eapply emits_bind; [apply planner_list_emits|]. intros [g1 a] new1 (H1 & Hs & Hk & Hl).
    eapply emits_bind; [apply IH|]. intros [groups' b] new2 (H2 & Hout & Hsame & Hin). apply emits_ret. rewrite app_nil_r.
    split_and!; [by apply Forall_app| | |].
    + intros k' [Hne Hn]%not_elem_of_cons. rewrite Hout by done. by rewrite lookup_insert_ne.
    + intros k' g' (g0 & [[<- <-]|[_ ?]]%lookup_insert_Some & ? & ?)%Hsame; [|eauto]. exists g. split_and!; congruence.
    + intros k' g' Hk' Hg'. destruct (decide (k' ∈ ks)) as [Hin'|Hn].
      * eapply group_listed_mono; [|by apply (Hin k')]. intros. apply elem_of_app. by right.
      * apply elem_of_cons in Hk' as [->|?]; [|done]. rewrite Hout, lookup_insert_eq in Hg' by done. injection Hg' as <-.
        eapply group_listed_mono; [|done]. intros. apply elem_of_app. by left.
  - eapply emits_conseq; [apply IH|]. intros [groups' b] new (H2 & Hout & Hsame & Hin). split_and!; [done| |done|].
    + intros k' [_ ?]%not_elem_of_cons. by apply Hout.
    + intros k' g' [->|?]%elem_of_cons Hg'; [|by apply (Hin k')].
      destruct (Hsame _ _ Hg') as (? & ? & _). congruence.
Qed.
End listing.

(** ** The owner rules *)

Section owners.
Context `{UP : UnicodePrint} {W : Type} (LookupRole : string → M W (result (option ReachableRole))) (c : granteeChecker).
Abbreviation llookup := (logged_lookup LookupRole).

(** The server described [name] in this run as a role that a Role of the Cluster manages. *)
Definition owner_managed (tr : list pg_call) (name : string) : Prop :=
  IsPublic name = false ∧ granteeNameProblem name = None ∧
  ∃ r, CallLookup name (inl (Some r)) ∈ tr ∧ rr_Superuser r = false ∧ manages (gc_managed c) r = true.

Lemma owner_managed_mono tr tr' name : (∀ ev, ev ∈ tr → ev ∈ tr') → owner_managed tr name → owner_managed tr' name.
Proof. intros H (? & ? & r & ? & ?). split_and!; [done..|]. exists r. auto. Qed.

Definition owners_ok (tr : list pg_call) (ck : checkerCaches) : Prop := ∀ n, ck_owners ck !! n = Some true → owner_managed tr n.

Lemma managesRole_emits name ck tr0 :
  owners_ok tr0 ck →
  emits (managesRole llookup c name ck) (λ '(r, ck') new, Forall is_lookup new ∧ owners_ok (tr0 ++ new) ck' ∧
    ck_cache ck' = ck_cache ck ∧ ck_forRoles ck' = ck_forRoles ck ∧ (r = inl true → owner_managed (tr0 ++ new) name)).
Proof.
  intros Hck. unfold managesRole. destruct (ck_owners ck !! name) as [v|] eqn:E.
  { apply emits_ret. rewrite app_nil_r. split_and!; [done..|]. intros [= ->]. by apply Hck. }
  assert (∀ tr (v : bool), owners_ok tr ck → (v = true → owner_managed tr name) →
    owners_ok tr {| ck_cache := ck_cache ck; ck_forRoles := ck_forRoles ck; ck_owners := <[name := v]> (ck_owners ck) |}) as Hst.
  { intros tr v Hok Hv n. simpl. intros [[<- ->]|[_ ?]]%lookup_insert_Some; [by apply Hv|by apply Hok]. }
  destruct (_ && _ && _) eqn:Ec.
  - eapply emits_bind; [by apply emits_logged|]. intros r new ->. apply emits_ret. rewrite app_nil_r.
    assert (owners_ok (tr0 ++ [CallLookup name r]) ck) as Hck'.
    { intros n Hn. eapply owner_managed_mono; [|by apply Hck]. intros. apply elem_of_app. by left. }
    destruct r as [r|e]; (split; [by repeat constructor|]); [|done].
    assert (match r with Some r => negb (rr_Superuser r) && manages (gc_managed c) r | None => false end = true →
      owner_managed (tr0 ++ [CallLookup name (inl r)]) name) as Hv.
    { destruct r as [r|]; [|done]. intros [Hs%negb_true_iff Hm]%andb_true_iff.
      apply andb_true_iff in Ec as [[_ Hp%bool_decide_eq_true]%andb_true_iff Hpub%negb_true_iff].
      split_and!; [done|done|]. exists r. split_and!; [apply elem_of_app; right; by left|done|done]. }
    split_and!; [by apply Hst|done|done|by intros [= ?]; apply Hv].
  - apply emits_ret. rewrite app_nil_r. split_and!; [done| |done|done|done]. by apply Hst.
Qed.

(** Objects in the Cluster's trust domain: of a managed role, or the operator's
    own ones that cannot run code as a superuser. *)
Definition trusted_object (tr : list pg_call) (ki : objectKindInfo) (o : SchemaObject) : Prop :=
  so_Extension o = "" ∧
  if so_OwnerIsSessionUser o
  then (isRoutine ki = true → so_SecurityDefiner o = false ∧ so_Language o ∈ invokerSafeLanguages) ∧
       (ki_pg ki = SchemaTable → relkindNames (so_SubKind o) = None)
  else so_OwnerSuperuser o = false ∧ owner_managed tr (so_Owner o).

(** Privileges never granted on the operator's own tables. *)
Definition withheld (ki : objectKindInfo) (o : SchemaObject) (p : string) : Prop :=
  so_OwnerIsSessionUser o = true ∧ ki_pg ki = SchemaTable ∧ p ∈ [PrivilegeMaintain; PrivilegeTrigger].

Definition grantable (tr : list pg_call) (ki : objectKindInfo) (o : SchemaObject) (p : string) : Prop :=
  trusted_object tr ki o ∧ ¬ withheld ki o p.

Lemma grantable_mono tr tr' ki o p : (∀ ev, ev ∈ tr → ev ∈ tr') → grantable tr ki o p → grantable tr' ki o p.
Proof.
  intros H [[He Ho] Hw]. split; [|done]. split; [done|]. destruct (so_OwnerIsSessionUser o); [done|].
  destruct Ho. split; [done|]. by eapply owner_managed_mono.
Qed.

Lemma operatorObjectProblem_ok ki o denied p :
  operatorObjectProblem ki o = (None, denied) → p ∉ denied → so_Extension o = "" → so_OwnerIsSessionUser o = true →
  ∀ tr, grantable tr ki o p.
Proof.
  unfold operatorObjectProblem, grantable, trusted_object, withheld. intros Hp Hd He Hs tr. rewrite Hs.
  destruct (isRoutine ki && so_SecurityDefiner o) eqn:E1; [done|].
  destruct (isRoutine ki && negb (slices_Contains _ _)) eqn:E2; [done|].
  assert (isRoutine ki = true → so_SecurityDefiner o = false ∧ so_Language o ∈ invokerSafeLanguages) as Hr.
  { intros Hr. rewrite Hr in E1, E2. simpl in E1, E2. split; [done|].
    by apply negb_false_iff, slices_Contains_true in E2. }
  case_decide as Ht; [destruct (relkindNames _) eqn:Er; [done|]; injection Hp as <-|]; split_and!; try done; intros (_ & ? & ?); done.
Qed.

Lemma ownerProblem_emits ki o ck tr0 :
  owners_ok tr0 ck →
  emits (ownerProblem llookup c ki o ck) (λ '(r, ck') new, Forall is_lookup new ∧ owners_ok (tr0 ++ new) ck' ∧
    ck_cache ck' = ck_cache ck ∧ ∀ denied p, r = inl (None, denied) → p ∉ denied → grantable (tr0 ++ new) ki o p).
Proof.
  intros Hck. unfold ownerProblem. case_decide as He; [by apply emits_ret; rewrite app_nil_r|].
  assert (so_Extension o = "") as He' by (destruct (decide (so_Extension o = "")); tauto).
  destruct (so_OwnerIsSessionUser o) eqn:Eu.
  { apply emits_ret. rewrite app_nil_r. split_and!; [done..|]. intros denied p [= Hp] Hd. by eapply operatorObjectProblem_ok. }
  destruct (so_OwnerSuperuser o) eqn:Es; [by apply emits_ret; rewrite app_nil_r|].
  eapply emits_bind; [by apply managesRole_emits|]. intros [m ck'] new (H1 & H2 & H3 & _ & H4). apply emits_ret. rewrite app_nil_r.
  split_and!; [done..|]. intros denied p Hr Hd. destruct m as [[]|]; simplify_eq.
  split; [|intros (? & _); congruence]. split; [done|]. rewrite Eu. auto.
Qed.

Lemma entry_verdict_privs e o problem denied problem' privs p :
  entry_verdict e o problem denied = (problem', privs) → p ∈ privs → problem = None ∧ p ∈ oe_privileges e ∧ p ∉ denied.
Proof.
  unfold entry_verdict. destruct problem; [by intros [= <- <-] ?%elem_of_nil|].
  case_bool_decide; [by intros [= <- <-] ?%elem_of_nil|]. case_decide as Hd; intros [= <- <-].
  - intros Hp. split_and!; [done|done|]. intros Hden. assert (p ∈ intersect (oe_privileges e) denied) as Hin by (by apply list_elem_of_filter).
    rewrite Hd in Hin. by apply elem_of_nil in Hin.
  - intros [Hn Hp]%list_elem_of_filter. split_and!; [done|done|]. intros Hden. apply Hn. by apply list_elem_of_filter.
Qed.
End owners.

(** ** The plan *)

(** What an entry selects among the objects the server listed. *)
Definition selects (tr : list pg_call) (e : objectEntry) (o : SchemaObject) : Prop :=
  (∃ sel objects, CallListObjects (oe_schema e) (ki_pg (oe_kind e)) sel (inl objects) ∈ tr ∧ o ∈ objects) ∧
  (oe_all e = true ∨ ∃ n, n ∈ oe_names e ∧ (so_Name o = n ∨ resolved_as tr (oe_schema e) n (so_OID o))).

Lemma selects_mono tr tr' e o : (∀ ev, ev ∈ tr → ev ∈ tr') → selects tr e o → selects tr' e o.
Proof.
  intros H [(sel & objects & ? & ?) Hs]. split; [exists sel, objects; auto|].
  destruct Hs as [?|(n & ? & [?|?])]; [by left|right; eauto|right]. exists n. split; [done|right]. by eapply resolved_as_mono.
Qed.

Section plan.
Context `{UP : UnicodePrint} {W : Type} (LookupRole : string → M W (result (option ReachableRole))) (c : granteeChecker).
Context (entries : list objectEntry).
Abbreviation llookup := (logged_lookup LookupRole).

(** Why [e] grants [p] on [o]. *)
Definition source (tr : list pg_call) (e : objectEntry) (o : SchemaObject) (p : string) : Prop :=
  e ∈ entries ∧ selects tr e o ∧ grantable c tr (oe_kind e) o p ∧ p ∈ oe_privileges e.

Lemma source_mono tr tr' e o p : (∀ ev, ev ∈ tr → ev ∈ tr') → source tr e o p → source tr' e o p.
Proof. intros H (? & ? & ? & ?). split_and!; [done|by eapply selects_mono|by eapply grantable_mono|done]. Qed.

Definition target_of (e : objectEntry) (o : SchemaObject) : grantTarget :=
  objectTarget (ki_pg (oe_kind e)) (oe_schema e) (so_Identity o) (so_OID o) (oe_grantee e).

Record grant_sourced (tr : list pg_call) (k : string) (d : privilegeGrant) : Prop := {
  gs_key : grant_key d = k;
  gs_wf : wf_desired d;
  gs_target : ∃ e o p, source tr e o p ∧ g_Target d = target_of e o;
  gs_privileges : ∀ p, p ∈ g_Privileges d → ∃ e o, source tr e o p ∧ key (target_of e o) = k;
  gs_options : ∀ p, p ∈ g_GrantOptions d → ∃ e o, source tr e o p ∧ key (target_of e o) = k ∧ oe_withGrantOption e = true }.

Record plan_ok (tr : list pg_call) (ps : plan_state) : Prop := {
  po_desired : ∀ k d, ps_desired ps !! k = Some d → grant_sourced tr k d;
  po_objects : ∀ k o, ps_objects ps !! k = Some o → ∃ e p, source tr e o p ∧ objectKey (target_of e o) = k;
  po_grants_objects : ∀ k d, ps_desired ps !! k = Some d → is_Some (ps_objects ps !! objectKey (g_Target d));
  po_known : ∀ f k, k ∈ default [] (ps_byField ps !! f) → is_Some (ps_desired ps !! k);
  po_nodup : ∀ f, NoDup (default [] (ps_byField ps !! f));
  po_one_field : ∀ f1 f2 k, k ∈ default [] (ps_byField ps !! f1) → k ∈ default [] (ps_byField ps !! f2) → f1 = f2 }.

Lemma no_plan_ok tr : plan_ok tr no_plan.
Proof.
  split; simpl.
  - done.
  - done.
  - done.
  - intros f k. rewrite lookup_empty. by intros ?%elem_of_nil.
  - intros f. rewrite lookup_empty. constructor.
  - intros f1 f2 k. rewrite lookup_empty. by intros ?%elem_of_nil.
Qed.

Lemma grant_sourced_mono tr tr' k d : (∀ ev, ev ∈ tr → ev ∈ tr') → grant_sourced tr k d → grant_sourced tr' k d.
Proof.
  intros H [H1 H2 (e & o & p & Hs & ?) H4 H5]. split; [done|done| | |].
  - exists e, o, p. split; [by eapply source_mono|done].
  - intros p' (e' & o' & ? & ?)%H4. exists e', o'. split; [by eapply source_mono|done].
  - intros p' (e' & o' & ? & ?)%H5. exists e', o'. split; [by eapply source_mono|done].
Qed.

Lemma plan_ok_mono tr tr' ps : (∀ ev, ev ∈ tr → ev ∈ tr') → plan_ok tr ps → plan_ok tr' ps.
Proof.
  intros H [H1 H2 H2' H3 H4 H5]. split; [| |done..].
  - intros k d Hd. eapply grant_sourced_mono; [done|by apply H1].
  - intros k o (e & p & ? & ?)%H2. exists e, p. split; [by eapply source_mono|done].
Qed.

Lemma new_grant_sourced tr e o privs :
  privs ≠ [] → (∀ p, p ∈ privs → source tr e o p) →
  grant_sourced tr (key (target_of e o)) (desiredGrant (target_of e o) privs (oe_withGrantOption e)).
Proof.
  intros Hne Hs. split; [done|apply wf_desiredGrant| | |]; simpl.
  - destruct privs as [|p privs]; [done|]. exists e, o, p. split; [apply Hs; by left|done].
  - intros p Hp. exists e, o. auto.
  - destruct (oe_withGrantOption e) eqn:Ew; [|by intros p ?%elem_of_nil]. intros p Hp. exists e, o. auto.
Qed.

Lemma merge_sourced tr k a b : grant_sourced tr k a → grant_sourced tr k b → grant_sourced tr k (mergeGrant a b).
Proof.
  intros [A1 A2 A3 A4 A5] [B1 B2 B3 B4 B5]. split; simpl.
  - done.
  - intros p. simpl. rewrite !elem_of_str_union. intros [?|?]; [left; by apply A2|right; by apply B2].
  - done.
  - intros p [?|?]%elem_of_str_union; auto.
  - intros p [?|?]%elem_of_str_union; auto.
Qed.

Lemma objectKey_of_key t1 t2 :
  ContainsByte (gt_Kind t1) "|"%char = false → ContainsByte (gt_Kind t2) "|"%char = false → key t1 = key t2 → objectKey t1 = objectKey t2.
Proof.
  intros H1 H2 Hk. apply key_inj in Hk as (Hkind & _ & _ & Ho & Hn); [|done..].
  unfold objectKey. rewrite Hkind, Ho. case_decide as Hz; [done|]. rewrite Hn; [done|]. rewrite Ho. lia.
Qed.

Lemma add_object_ok tr e o problem privs ps :
  (∀ e, e ∈ entries → oe_kind e ∈ objectKindInfos) →
  plan_ok tr ps → (∀ p, p ∈ privs → source tr e o p) → plan_ok tr (add_object e o problem privs ps).
Proof.
  intros Hkinds [H1 H2 H2' H3 H4 H5] Hs. unfold add_object.
  destruct (match problem with None => _ | Some _ => _ end) as [stats refused]. case_decide as Hne; [by split|].
  change (objectTarget (ki_pg (oe_kind e)) (oe_schema e) (so_Identity o) (so_OID o) (oe_grantee e)) with (target_of e o).
  pose proof (new_grant_sourced tr e o privs Hne Hs) as Hnew.
  assert (∃ p, source tr e o p) as [p0 Hp0] by (destruct privs as [|p privs]; [done|exists p; apply Hs; by left]).
  assert (ContainsByte (gt_Kind (target_of e o)) "|"%char = false) as Hbar by (apply objectKind_no_bar, Hkinds, Hp0).
  assert (∀ k o', <[objectKey (target_of e o):=o]> (ps_objects ps) !! k = Some o' →
    ∃ e p, source tr e o' p ∧ objectKey (target_of e o') = k) as Hobj.
  { intros k o' [[<- <-]|[_ ?]]%lookup_insert_Some; [exists e, p0; by split|by apply H2]. }
  assert (∀ k d, <[key (target_of e o) := d]> (ps_desired ps) !! k = Some d → True) as _ by done.
  assert (∀ d0 k d, objectKey (g_Target d0) = objectKey (target_of e o) →
    <[key (target_of e o) := d0]> (ps_desired ps) !! k = Some d →
    is_Some (<[objectKey (target_of e o):=o]> (ps_objects ps) !! objectKey (g_Target d))) as Hgo.
  { intros d0 k d Heq [[<- <-]|[_ Hd]]%lookup_insert_Some.
    - rewrite Heq, lookup_insert_eq. by eexists.
    - apply H2' in Hd. by apply lookup_insert_is_Some'; right. }
  destruct (ps_desired ps !! key (target_of e o)) as [prev|] eqn:Eprev; split; cbn [ps_desired ps_objects ps_byField].
  - intros k d [[<- <-]|[_ ?]]%lookup_insert_Some; [|by apply H1]. apply merge_sourced; [by apply H1|done].
  - done.
  - intros k d. by apply Hgo.
  - intros f k Hk. destruct (H3 f k Hk) as [d Hd]. by apply lookup_insert_is_Some'; right; eexists.
  - done.
  - done.
  - intros k d [[<- <-]|[_ ?]]%lookup_insert_Some; [done|by apply H1].
  - done.
  - intros k d. by apply Hgo.
  - intros f k Hk. apply lookup_insert_is_Some'. destruct (decide (f = oe_field e)) as [->|Hf].
    + rewrite lookup_insert_eq in Hk. apply elem_of_app in Hk as [Hk| ->%list_elem_of_singleton]; [right; by eapply H3|by left].
    + rewrite lookup_insert_ne in Hk by done. right. by eapply H3.
  - intros f. destruct (decide (f = oe_field e)) as [->|Hf]; [|by rewrite lookup_insert_ne].
    rewrite lookup_insert_eq. simpl. apply NoDup_app. split_and!; [apply H4| |apply NoDup_singleton].
    intros k Hk ->%list_elem_of_singleton. apply H3 in Hk as [? ?]. congruence.
  - assert (∀ f k, k ∈ default [] (<[oe_field e := default [] (ps_byField ps !! oe_field e) ++ [key (target_of e o)]]> (ps_byField ps) !! f) →
      k ∈ default [] (ps_byField ps !! f) ∨ f = oe_field e ∧ k = key (target_of e o)) as Hin.
    { intros f k. destruct (decide (f = oe_field e)) as [->|Hf]; [|rewrite lookup_insert_ne by done; by left].
      rewrite lookup_insert_eq. simpl. intros [?| ->%list_elem_of_singleton]%elem_of_app; auto. }
    intros f1 f2 k [A|[-> ->]]%Hin [B|[-> B]]%Hin; [by eapply H5| | |done].
    + subst k. apply H3 in A as [? ?]. congruence.
    + apply H3 in B as [? ?]. congruence.
Qed.
End plan.

Section plan_runs.
Context `{UP : UnicodePrint} `{ErrorText} {W : Type} (LookupRole : string → M W (result (option ReachableRole))) (c : granteeChecker).
Context (entries : list objectEntry) (Hkinds : ∀ e, e ∈ entries → oe_kind e ∈ objectKindInfos).
Abbreviation llookup := (logged_lookup LookupRole).

Lemma addObjects_emits e objects ps ck tr0 :
  e ∈ entries → plan_ok c entries tr0 ps → owners_ok c tr0 ck → (∀ o, o ∈ objects → selects tr0 e o) →
  emits (addObjects llookup c e objects ps ck) (λ '(r, ck') new, Forall is_lookup new ∧ owners_ok c (tr0 ++ new) ck' ∧
    ck_cache ck' = ck_cache ck ∧ ∀ ps', r = inl ps' → plan_ok c entries (tr0 ++ new) ps').
Proof.
  intros He. revert ps ck tr0. induction objects as [|o os IH]; intros ps ck tr0 Hps Hck Hsel; simpl.
  { apply emits_ret. rewrite app_nil_r. split_and!; [done..|]. by intros ? [= <-]. }
  eapply emits_bind; [by apply ownerProblem_emits|]. intros [r ck1] new1 (H1 & Hck1 & Hc1 & Hg).
  destruct r as [[problem denied]|err]; [|by apply emits_ret; rewrite app_nil_r].
  destruct (entry_verdict e o problem denied) as [problem' privs] eqn:Ev.
  assert (∀ ev, ev ∈ tr0 → ev ∈ tr0 ++ new1) as Hsub by (intros; apply elem_of_app; by left).
  eapply emits_conseq; [apply (IH _ _ (tr0 ++ new1))|].
  - apply add_object_ok; [done|by eapply plan_ok_mono|]. intros p Hp.
    destruct (entry_verdict_privs _ _ _ _ _ _ _ Ev Hp) as (-> & Hpe & Hd). split_and!; [done| | |done].
    + eapply selects_mono; [exact Hsub|]. apply Hsel. by left.
    + by eapply Hg.
  - done.
  - intros o' Ho'. eapply selects_mono; [exact Hsub|]. apply Hsel. by right.
  - intros [r ck2] new2 (H2 & Hck2 & Hc2 & Hr). rewrite <- app_assoc in *.
    split_and!; [by apply Forall_app|done|congruence|done].
Qed.

Lemma selected_go_elem e g names o :
  o ∈ (selected_go e g names).1 → o ∈ og_objects g ∧ ∃ n, n ∈ names ∧ matches e g n o = true.
Proof.
  induction names as [|n ns IH]; simpl; [by intros ?%elem_of_nil|].
  destruct (selected_go e g ns) as [out missing]. simpl in IH. destruct (_ && _); simpl.
  - intros (? & n' & ? & ?)%IH. split; [done|]. exists n'. split; [by right|done].
  - intros [[Hm Ho]%list_elem_of_filter|(? & n' & ? & ?)%IH]%elem_of_app; (split; [done|]).
    + exists n. split; [by left|done].
    + exists n'. split; [by right|done].
Qed.

Lemma planner_selected_selects tr e g o :
  group_of e g → og_failed g = false → group_listed tr g → o ∈ (planner_selected e g).1 → selects tr e o.
Proof.
  intros [Hs Hk] Hf Hg Ho. destruct (Hg Hf) as [[sel Hl] Hsig]. rewrite Hs, Hk in Hl. unfold planner_selected in Ho.
  destruct (oe_all e) eqn:Ea; [split; [by exists sel, (og_objects g)|by left]|].
  apply selected_go_elem in Ho as (Hin & n & Hn & Hm). split; [by exists sel, (og_objects g)|]. right. exists n. split; [done|].
  unfold matches in Hm. destruct (parseRoutineName n) as [[name args] sig]. destruct (_ && _).
  - right. rewrite <- Hs. apply Hsig. by apply bool_decide_eq_true in Hm.
  - left. by apply bool_decide_eq_true in Hm.
Qed.

Lemma addEntries_emits es groups ps missing ck tr0 :
  (∀ e, e ∈ es → e ∈ entries) → plan_ok c entries tr0 ps → owners_ok c tr0 ck →
  (∀ e g, e ∈ es → groups !! entry_group e = Some g → group_of e g ∧ group_listed tr0 g) →
  emits (addEntries llookup c es groups ps missing ck) (λ '(r, ck') new, Forall is_lookup new ∧
    ck_cache ck' = ck_cache ck ∧ ∀ ps' m, r = inl (ps', m) → plan_ok c entries (tr0 ++ new) ps').
Proof.
  revert ps missing ck tr0. induction es as [|e es IH]; intros ps missing ck tr0 Hes Hps Hck Hg; simpl.
  { apply emits_ret. rewrite app_nil_r. split_and!; [done..|]. by intros ? ? [= <- _]. }
  assert (∀ e0, e0 ∈ es → e0 ∈ entries) as Hes' by (intros; apply Hes; by right).
  assert (∀ e0 g, e0 ∈ es → groups !! entry_group e0 = Some g → group_of e0 g ∧ group_listed tr0 g) as Hg' by (intros; apply Hg; [by right|done]).
  destruct (groups !! entry_group e) as [g|] eqn:E; [|by apply IH].
  destruct (og_failed g) eqn:Ef; [by apply IH|].
  destruct (Hg e g ltac:(by left) E) as [Hgo Hgl].
  pose proof (λ o, planner_selected_selects tr0 e g o Hgo Ef Hgl) as Hsel.
  destruct (planner_selected e g) as [objects m]. simpl in Hsel.
  eapply emits_bind; [apply (addObjects_emits e objects ps ck tr0); [apply Hes; by left|done..]|].
  intros [r ck1] new1 (H1 & Hck1 & Hc1 & Hr). destruct r as [ps1|err]; [|by apply emits_ret; rewrite app_nil_r].
  eapply emits_conseq; [apply (IH _ _ _ (tr0 ++ new1)); [done|by apply Hr|done|]|].
  - intros e0 g0 He0 Hg0. destruct (Hg' e0 g0 He0 Hg0). split; [done|].
    eapply group_listed_mono; [|done]. intros. apply elem_of_app. by left.
  - intros [r ck2] new2 (H2 & Hc2 & Hr2). rewrite <- app_assoc in *. split_and!; [by apply Forall_app|congruence|done].
Qed.
End plan_runs.

(** What a plan promises: its grants come from the spec and from what the server said. *)
Definition planner_ok `{UP : UnicodePrint} (c : granteeChecker) (spec : DatabaseSpec) (managedSchemas : gset string)
    (tr : list pg_call) (p : planner) : Prop :=
  NoDup (pl_fields p) ∧ ∃ entries, Forall (declared_entry (ds_Schemas spec) managedSchemas) entries ∧
    plan_ok c entries tr (pl_plan p).

Lemma planner_plan_emits `{UP : UnicodePrint} `{ErrorText} {W} (LookupRole : string → M W (result (option ReachableRole))) c
    (pg : objectGrantClient W) spec managedSchemas v ck :
  owners_ok c [] ck →
  emits (planner_plan (logged_lookup LookupRole) c (logged_object_client pg) spec managedSchemas v ck) (λ '(r, ck') new,
    Forall is_read new ∧ ck_cache ck' = ck_cache ck ∧ ∀ p, r = inl p → planner_ok c spec managedSchemas new p).
Proof.
  intros Hck. unfold planner_plan. destruct (planner_entries _ _ _ _) as [[[fields entries] unsupported]|e] eqn:Ee; [|by apply emits_ret].
  destruct (planner_entries_declared _ _ _ _ _ _ _ Ee ltac:(constructor)) as [Hn Hdecl].
  assert (∀ e, e ∈ entries → oe_kind e ∈ objectKindInfos) as Hkinds.
  { rewrite Forall_forall in Hdecl. intros e (s & g & privs & _ & _ & _ & _ & _ & Hk & _)%Hdecl. by apply objectKindOf_elem in Hk as [? _]. }
  pose proof (groups_of_ok entries) as Hgroups. rewrite Forall_forall in Hgroups. specialize (Hgroups Hkinds).
  destruct (groups_of entries) as [groups order].
  eapply emits_bind; [apply listGroups_emits|]. intros [groups' report] new1 (H1 & _ & Hsame & Hlisted).
  eapply emits_bind; [apply (addEntries_emits LookupRole c entries Hkinds entries groups' no_plan [] ck new1)|].
  - done.
  - apply no_plan_ok.
  - intros n Hn'. eapply owner_managed_mono; [|by apply Hck]. by intros ? ?%elem_of_nil.
  - intros e g' He Hg'. destruct (Hsame _ _ Hg') as (g & Hg & Hs & Hk). split.
    + destruct (entry_group_of _ e g Hgroups (Hkinds e He) Hg). split; congruence.
    + eapply Hlisted; [|done]. by apply Hgroups in Hg as [? _].
  - intros [r ck'] new2 (H2 & Hc & Hr). apply emits_ret. rewrite app_nil_r. split_and!.
    + apply Forall_app. split; [done|by apply lookups_read].
    + done.
    + destruct r as [[ps missing]|e]; [|done]. intros ? [= <-]. split; [done|]. exists entries. split; [done|]. by eapply Hr.
Qed.

(** ** From the plan to the engine *)

Section engine.
Context `{UP : UnicodePrint} `{ErrorText} {W : Type} (LookupRole : string → M W (result (option ReachableRole))) (c : granteeChecker).
Context (pg : objectGrantClient W).
Abbreviation llookup := (logged_lookup LookupRole).
Abbreviation lpg := (logged_object_client pg).

(** The grants of the fields have distinct keys. *)
Lemma planned_fields_spec tr entries p :
  plan_ok c entries tr (pl_plan p) → NoDup (pl_fields p) →
  NoDup (grant_key <$> field_grants (pl_fields p) (planned_fields p)) ∧
  ∀ d, d ∈ field_grants (pl_fields p) (planned_fields p) → ∃ k, ps_desired (pl_plan p) !! k = Some d.
Proof.
  intros [H1 _ _ H3 H4 H5]. unfold planned_fields. generalize (pl_fields p). intros fields Hn.
  assert (∀ f, default [] ((fmap (M:=gmap string) (λ keys : list string, grant_at (ps_desired (pl_plan p)) <$> keys)
    (ps_byField (pl_plan p))) !! f) = grant_at (ps_desired (pl_plan p)) <$> default [] (ps_byField (pl_plan p) !! f)) as Hf.
  { intros f. rewrite lookup_fmap. by destruct (ps_byField (pl_plan p) !! f). }
  assert (∀ f k, k ∈ default [] (ps_byField (pl_plan p) !! f) → ps_desired (pl_plan p) !! k = Some (grant_at (ps_desired (pl_plan p)) k) ∧
    grant_key (grant_at (ps_desired (pl_plan p)) k) = k) as Hat.
  { intros f k Hk. destruct (H3 f k Hk) as [d Hd]. unfold grant_at. rewrite Hd. simpl. split; [done|]. by apply H1 in Hd as [? _ _ _ _]. }
  assert (∀ f, grant_key <$> (grant_at (ps_desired (pl_plan p)) <$> default [] (ps_byField (pl_plan p) !! f)) =
    default [] (ps_byField (pl_plan p) !! f)) as Hkeys.
  { intros f. rewrite <- list_fmap_compose. rewrite <- (list_fmap_id (default [] _)) at 2. apply list_fmap_ext. intros i k Hi.
    simpl. apply Hat with f. by eapply list_elem_of_lookup_2. }
  split.
  - unfold field_grants. induction Hn as [|f fields Hf' Hn IH]; simpl; [constructor|]. rewrite Hf, fmap_app, Hkeys. apply NoDup_app.
    split_and!; [apply H4| |exact IH]. intros k Hk (d & -> & (f2 & Hd & Hf2)%list_elem_of_bind)%list_elem_of_fmap.
    rewrite Hf in Hd. apply list_elem_of_fmap in Hd as (k2 & -> & Hk2). rewrite (proj2 (Hat _ _ Hk2)) in Hk.
    rewrite (H5 _ _ _ Hk Hk2) in Hf'. done.
  - intros d (f & Hd & _)%list_elem_of_bind. rewrite Hf in Hd. apply list_elem_of_fmap in Hd as (k & -> & Hk).
    exists k. by apply Hat in Hk as [? _].
Qed.

Lemma splitLedger_emits groups ledger ck :
  caches_ok c [] ck →
  ∀ tr0, (∀ g res, ck_cache ck !! g = Some res → judged c tr0 g res) →
  emits (splitLedger llookup c groups ledger ck) (λ '(r, ck') new, Forall is_lookup new ∧ caches_ok c (tr0 ++ new) ck' ∧
    ∀ kept managed, r = inl (kept, managed) → sublist managed ledger).
Proof.
  intros _. revert ck. induction ledger as [|g gs IH]; intros ck tr0 Hck; simpl.
  { apply emits_ret. rewrite app_nil_r. split_and!; [done|done|]. by intros ? ? [= _ <-]. }
  destruct (match groups !! _ with Some gr => og_failed gr | None => false end); simpl.
  - eapply emits_bind; [by apply (check_emits LookupRole c _ _ tr0)|]. intros [res ck1] new1 (H1 & Hc1 & _).
    destruct res as [res|e]; [|by apply emits_ret; rewrite app_nil_r].
    eapply emits_bind; [by apply (IH _ (tr0 ++ new1))|]. intros [r ck2] new2 (H2 & Hc2 & Hs). rewrite <- app_assoc in *.
    apply emits_ret. rewrite app_nil_r. split_and!; [by apply Forall_app|done|]. destruct r as [[kept managed]|e]; [|done].
    case_bool_decide; intros ? ? [= <- <-]; [by apply sublist_cons, (Hs kept)|by apply sublist_skip, (Hs kept)].
  - eapply emits_bind; [by apply IH|]. intros [r ck2] new2 (H2 & Hc2 & Hs). apply emits_ret. rewrite app_nil_r.
    split_and!; [done|done|]. destruct r as [[kept managed]|e]; [|done]. intros ? ? [= <- <-]. by apply sublist_skip, (Hs kept).
Qed.

(** The calls of the engine on schema objects. *)
Definition object_call_ok (objects : gmap string SchemaObject) (desired managed : list privilegeGrant) (ev : pg_call) : Prop :=
  match ev with
  | CallGrantObject kind schema identity oid grantee ps wgo _ =>
      ps ≠ [] ∧ ∃ d, d ∈ desired ∧ kind = gt_Kind (g_Target d) ∧ schema = gt_Schema (g_Target d) ∧ identity = gt_Name (g_Target d) ∧
        grantee = gt_Grantee (g_Target d) ∧
        oid = match objects !! objectKey (g_Target d) with Some o => so_OID o | None => 0%Z end ∧
        ∀ p, p ∈ ps → p ∈ (if wgo then g_GrantOptions d else g_Privileges d)
  | CallRevokeObject kind schema identity oid grantee ps mode _ =>
      ps ≠ [] ∧ ∃ t, kind = gt_Kind t ∧ schema = gt_Schema t ∧ identity = gt_Name t ∧ oid = gt_OID t ∧ grantee = gt_Grantee t ∧
        (∃ m, (m ∈ managed ∨ m ∈ desired) ∧ g_Target m = t) ∧ ∀ p, p ∈ ps →
        recorded (if GrantOptionOnly mode then g_GrantOptions else g_Privileges) managed (key t) p ∧
        ¬ recorded (if GrantOptionOnly mode then g_GrantOptions else g_Privileges) desired (key t) p ∧
        (Cascade mode = true → recorded g_GrantOptions managed (key t) p)
  | CallGrant _ _ _ _ _ | CallRevoke _ _ _ _ _ | CallGrantDefault _ _ _ _ _ | CallRevokeDefault _ _ _ _ _ | CallLookup _ _ => False
  | _ => True
  end.

Lemma roleGone_only (RoleExists : string → M W (result bool)) t (ok : pg_call → Prop) :
  (∀ n r, ok (CallRoleExists n r)) →
  emits (roleGone (λ n, logged (CallRoleExists n) (RoleExists n)) t) (λ _ new, Forall ok new).
Proof.
  intros Hok. unfold roleGone. destruct (IsPublic _); [by apply emits_ret|].
  eapply emits_bind; [by apply (emits_one _ _ ok)|]. intros r new Hr. apply emits_ret. by rewrite app_nil_r.
Qed.

Lemma engine_objects_emits objects oids desired managed limit save (set : list privilegeGrant → DatabaseStatus) :
  NoDup (grant_key <$> desired) → Forall wf_desired desired →
  emits (applyPrivilegeGrants (objectGrantOps lpg objects oids) desired managed limit (persist_with (logged_saver save) set))
    (λ _ new, Forall (object_call_ok objects desired managed) new).
Proof.
  intros Hn Hwf. apply engine_only; try done; simpl.
  - intros t. by apply emits_ret.
  - intros f t [= <-]. eapply emits_bind; [by apply (roleGone_only (ogc_RoleExists pg) t (object_call_ok objects desired managed))|].
    intros g new Hg. destruct g as [[]|e]; [apply emits_ret; by rewrite app_nil_r| |apply emits_ret; by rewrite app_nil_r].
    eapply emits_bind; [by apply (emits_one _ _ (object_call_ok objects desired managed))|]. intros r new' Hr. apply emits_ret.
    rewrite app_nil_r. apply Forall_app. by split.
  - intros f l [= <-]. destruct save as [g|]; simpl; [by apply emits_one|by apply emits_ret].
  - intros t ps wgo (Hne & d & Hd & <- & Hps). eapply emits_bind.
    { apply (emits_one _ _ (object_call_ok objects desired managed)). intros e. split; [done|]. exists d. by split_and!. }
    intros e new Hok. apply emits_ret. by rewrite app_nil_r.
  - intros t ps mode (Ht & Hne & Hps). apply emits_one. intros e. split; [done|]. exists t. by split_and!.
Qed.

(** What a run of [reconcileObjectGrants] did. *)
Definition object_run (spec : DatabaseSpec) (managedSchemas : gset string) (st : DatabaseStatus) (new : list pg_call) : Prop :=
  Forall is_read new ∨
  ∃ p managed desired reads calls, new = reads ++ calls ∧ Forall is_read reads ∧
    planner_ok c spec managedSchemas reads p ∧ sublist managed (objectLedger (dst_ManagedObjectGrants st)) ∧
    filtered c reads (field_grants (pl_fields p) (planned_fields p)) desired ∧
    ∃ desired', sublist desired' desired ∧ Forall (λ ev, is_read ev ∨ object_call_ok (ps_objects (pl_plan p)) desired' managed ev) calls.

Lemma within_budget_sublist desired managed over : sublist (within_budget desired managed over) desired.
Proof. destruct over; simpl; [apply sublist_filter|done]. Qed.

Lemma planner_ok_mono tr tr' spec managedSchemas p :
  (∀ ev, ev ∈ tr → ev ∈ tr') → planner_ok c spec managedSchemas tr p → planner_ok c spec managedSchemas tr' p.
Proof. intros Hs (? & entries & ? & ?). split; [done|]. exists entries. split; [done|]. by eapply plan_ok_mono. Qed.

Lemma reconcileObjectGrants_emits spec managedSchemas v save st ck :
  ck = no_caches →
  emits (reconcileObjectGrants llookup c lpg spec managedSchemas v (logged_saver save) st ck)
    (λ _ new, object_run spec managedSchemas st new).
Proof.
  intros ->. unfold reconcileObjectGrants.
  eapply emits_bind; [by apply planner_plan_emits|]. intros [r ck] new1 (H1 & Hck & Hp).
  destruct r as [p|e]; [|apply emits_ret; left; by rewrite app_nil_r]. specialize (Hp p eq_refl).
  eapply emits_bind; [apply (splitLedger_emits _ _ ck)|].
  { intros g res. rewrite Hck. done. }
  { instantiate (1 := new1). intros g res. rewrite Hck. done. }
  intros [s ck2] new2 (H2 & Hck2 & Hs). destruct s as [[kept managed]|e].
  2: { apply emits_ret. left. rewrite app_nil_r. apply Forall_app. split; [done|by apply lookups_read]. }
  specialize (Hs kept managed eq_refl).
  eapply emits_bind; [by apply filterFields_emits|]. intros [[r held] ck3] new3 (H3 & _ & Hf).
  assert (Forall is_read (new1 ++ new2 ++ new3)) as Hreads by (rewrite !Forall_app; auto using lookups_read).
  rewrite <- app_assoc in Hf. destruct r as [desired|e]; [|apply emits_ret; left; by rewrite app_nil_r].
  specialize (Hf desired eq_refl). eapply emits_bind with (Q1 := λ _ new4, object_run spec managedSchemas st (new1 ++ new2 ++ new3 ++ new4)).
  2: { intros [err st'] new4 Hrun. apply emits_ret. by rewrite app_nil_r. }
  destruct Hp as (Hn & entries & Hdecl & Hplan).
  destruct (planned_fields_spec _ _ _ Hplan Hn) as [Hnd Hdes].
  assert (planner_ok c spec managedSchemas (new1 ++ new2 ++ new3) p) as Hok.
  { split; [done|]. exists entries. split; [done|]. eapply plan_ok_mono; [|exact Hplan]. intros. apply elem_of_app. by left. }
  unfold applyObjectGrants. pose proof (within_budget_sublist desired managed (overBudget desired managed kept)) as Hsub.
  destruct (decide _); [by apply emits_ret; left; rewrite app_nil_r|].
  assert (∀ calls, Forall (λ ev, is_read ev ∨ object_call_ok (ps_objects (pl_plan p))
    (within_budget desired managed (overBudget desired managed kept)) managed ev) calls →
    object_run spec managedSchemas st (new1 ++ new2 ++ new3 ++ calls)) as Hdone.
  { intros calls Hcalls. right. exists p, managed, desired, (new1 ++ new2 ++ new3), calls.
    split_and!; [by rewrite <- !app_assoc|done|done|done|done|]. eexists. by split. }
  eapply emits_bind with (Q1 := λ _ new, Forall is_read new).
  { unfold granteeOIDs. destruct (foldl _ _ _); [by apply emits_ret|by apply emits_one]. }
  intros r new4 H4. destruct r as [oids|e].
  2: { apply emits_ret. rewrite app_nil_r. apply Hdone. eapply Forall_impl; [exact H4|]. by left. }
  assert (NoDup (grant_key <$> within_budget desired managed (overBudget desired managed kept)) ∧
    Forall wf_desired (within_budget desired managed (overBudget desired managed kept))) as [Hnd' Hwf'].
  { destruct Hf as (Hs' & _ & _). assert (sublist (within_budget desired managed (overBudget desired managed kept))
      (field_grants (pl_fields p) (planned_fields p))) as Hs'' by (by etrans).
    split; [eapply sublist_NoDup; [exact Hnd|by apply fmap_sublist]|]. rewrite Forall_forall. intros d Hd.
    assert (d ∈ field_grants (pl_fields p) (planned_fields p)) as Hd' by (by eapply elem_of_sublist).
    destruct (Hdes d Hd') as [k Hk]. by apply (po_desired _ _ _ _ Hplan) in Hk as [_ ? _ _ _]. }
  eapply emits_bind; [by apply engine_objects_emits|]. intros [after err] new5 H5. apply emits_ret. rewrite app_nil_r.
  apply Hdone. apply Forall_app. split; (eapply Forall_impl; [eassumption|]); auto.
Qed.
End engine.
