(* ===== verification/ObjectGrantTheorems.v ===== *)
(** * Object grants and default privileges: the theorems *)

From Stdlib Require Import Ascii.
From S2P Require Import Prelude GoStrings GoStrconv Privileges Parameters ApiTypes RolePolicy Objects.
From S2P Require Import Settings Trace GrantEngine GrantTrace GrantProps.
From S2P Require Import GranteePolicy Grants GrantSafety DatabaseGrants GrantPolicyTheorems ObjectGrants ObjectSafety.

(** ** Object grants *)

Lemma CanonicalGrantee_idemp g : CanonicalGrantee (CanonicalGrantee g) = CanonicalGrantee g.
Proof.
  unfold CanonicalGrantee. destruct (IsPublic g) eqn:E; [|by rewrite E].
  assert (IsPublic PublicGrantee = true) as -> by (by vm_compute). done.
Qed.

(** The objects an object grant of the spec names. *)
Definition named_by (tr : list pg_call) (schema : string) (g : ObjectGrantSpec) (o : SchemaObject) : Prop :=
  selectAll ∈ ogs_Objects g ∨ ∃ n, n ∈ ogs_Objects g ∧ (so_Name o = n ∨ resolved_as tr schema n (so_OID o)).

(** An object grant of a managed schema declares [p] for [grantee] on an object that
    the server listed in this run and that pgop may grant [p] on. *)
Definition object_grant_declared `{UP : UnicodePrint} (c : granteeChecker) (spec : DatabaseSpec) (managedSchemas : gset string)
    (tr : list pg_call) (kind grantee p : string) (wgo : bool) (o : SchemaObject) : Prop :=
  ∃ s g ki privs sel objects,
    s ∈ ds_Schemas spec ∧ ss_Name s ∈ managedSchemas ∧ systemSchemaName (ss_Name s) = false ∧ g ∈ ss_ObjectGrants s ∧
    objectKindOf (ogs_Kind g) = Some ki ∧ ki_pg ki = kind ∧ CanonicalGrantee (ogs_Role g) = grantee ∧
    normalizeObjectPrivileges kind (ogs_Privileges g) = inl privs ∧ p ∈ privs ∧
    (wgo = true → ogs_WithGrantOption g = true ∧ grantee ≠ PublicGrantee) ∧
    CallListObjects (ss_Name s) kind sel (inl objects) ∈ tr ∧ o ∈ objects ∧ named_by tr (ss_Name s) g o ∧
    grantable c tr ki o p.

Section objects.
Context `{UP : UnicodePrint} {c : granteeChecker} {spec : DatabaseSpec} {managedSchemas : gset string} {tr : list pg_call}.

Lemma source_declared entries e o p (wgo : bool) :
  Forall (declared_entry (ds_Schemas spec) managedSchemas) entries → source c entries tr e o p →
  (wgo = true → oe_withGrantOption e = true) →
  object_grant_declared c spec managedSchemas tr (ki_pg (oe_kind e)) (oe_grantee e) p wgo o.
Proof.
  intros Hdecl (He & [(sel & objects & Hl & Ho) Hn] & Hg & Hp) Hw. rewrite Forall_forall in Hdecl.
  destruct (Hdecl e He) as (s & g & privs & Hs & Hname & Hm & Hsys & Hgs & Hk & Hgr & Hnorm & Hsub & Hwgo & Hpub & Hall & Hnames).
  exists s, g, (oe_kind e), privs, sel, objects. rewrite Hname. split_and!; try done.
  - auto.
  - intros Hx. specialize (Hw Hx). split; [congruence|]. intros Heq. specialize (Hpub Heq). congruence.
  - destruct Hn as [?|(n & ? & ?)]; [left; auto|right; exists n; auto].
Qed.

Lemma declared_tr_mono tr' kind grantee p wgo o :
  (∀ ev, ev ∈ tr → ev ∈ tr') → object_grant_declared c spec managedSchemas tr kind grantee p wgo o →
  object_grant_declared c spec managedSchemas tr' kind grantee p wgo o.
Proof.
  intros H (s & g & ki & privs & sel & objects & ? & ? & ? & ? & ? & ? & ? & ? & ? & ? & Hl & ? & Hn & Hg).
  exists s, g, ki, privs, sel, objects. split_and!; try done; [auto| |by eapply grantable_mono].
  destruct Hn as [?|(n & ? & [?|?])]; [by left|right; exists n; auto|right; exists n]. split; [done|right]. by eapply resolved_as_mono.
Qed.

(** Where the object of a grant comes from: its OID and its rules. *)
Lemma grant_objects entries p d o :
  plan_ok c entries tr (pl_plan p) → (∀ e, e ∈ entries → oe_kind e ∈ objectKindInfos) →
  (∀ schema kind sel objects o, CallListObjects schema kind sel (inl objects) ∈ tr → o ∈ objects → so_OID o ≠ 0%Z) →
  ps_objects (pl_plan p) !! objectKey (g_Target d) = Some o → gt_OID (g_Target d) ≠ 0%Z →
  ContainsByte (gt_Kind (g_Target d)) "|"%char = false → so_OID o = gt_OID (g_Target d).
Proof.
  intros Hplan Hkinds Hoid Ho Hnz Hbar. apply (po_objects _ _ _ _ Hplan) in Ho as (e & q & Hs & Hk).
  destruct Hs as (He & [(sel & objects & Hl & Hin) _] & _ & _). pose proof (Hoid _ _ _ _ _ Hl Hin) as Hnz'.
  unfold objectKey, target_of, objectTarget in Hk. cbn [gt_OID gt_Kind gt_Name] in Hk.
  rewrite !decide_True in Hk by done.
  apply bar_split in Hk as [_ Hk]; [|by apply objectKind_no_bar, Hkinds|done].
  injection Hk as Hk. by apply Itoa_inj.
Qed.
(** What is planned for a target is declared for its grantee on its object. *)
Lemma planned_declared entries p k d q (wgo : bool) :
  plan_ok c entries tr (pl_plan p) → Forall (declared_entry (ds_Schemas spec) managedSchemas) entries →
  (∀ e, e ∈ entries → oe_kind e ∈ objectKindInfos) → ps_desired (pl_plan p) !! k = Some d →
  ContainsByte (gt_Kind (g_Target d)) "|"%char = false → q ∈ (if wgo then g_GrantOptions d else g_Privileges d) →
  ∃ o, so_OID o = gt_OID (g_Target d) ∧
    object_grant_declared c spec managedSchemas tr (gt_Kind (g_Target d)) (gt_Grantee (g_Target d)) q wgo o.
Proof.
  intros Hplan Hdecl Hkinds Hk Hbar Hq. pose proof (po_desired _ _ _ _ Hplan _ _ Hk) as [Hkey _ _ Hprivs Hopts].
  assert (∃ e o, source c entries tr e o q ∧ key (target_of e o) = k ∧ (wgo = true → oe_withGrantOption e = true)) as (e & o & Hs & He & Hw).
  { destruct wgo; [destruct (Hopts _ Hq) as (e & o & Hs & He & Hw)|destruct (Hprivs _ Hq) as (e & o & Hs & He)]; exists e, o; by split_and!. }
  rewrite <- Hkey in He. unfold grant_key in He. apply key_inj in He as (Hkind & Hgr & _ & Ho & _);
    [|by apply objectKind_no_bar, Hkinds, Hs|done].
  simpl in Hkind, Hgr, Ho. exists o. split; [done|].
  pose proof (source_declared entries e o q wgo Hdecl Hs Hw) as Hd. rewrite Hkind in Hd.
  assert (oe_grantee e = gt_Grantee (g_Target d)) as <-; [|done].
  rewrite <- Hgr. destruct Hs as (Hin & _). rewrite Forall_forall in Hdecl.
  destruct (Hdecl e Hin) as (s & g & privs & _ & _ & _ & _ & _ & _ & -> & _). by rewrite CanonicalGrantee_idemp.
Qed.

Lemma objectLedger_no_bar ms m : m ∈ objectLedger ms → ContainsByte (gt_Kind (g_Target m)) "|"%char = false.
Proof.
  intros (x & Hx & Hox)%list_elem_of_omap. destruct (objectKindOf (mog_Kind x)) as [ki|] eqn:Ek; [|done].
  destruct (_ && _); simplify_eq. apply objectKind_no_bar. by apply objectKindOf_elem in Ek as [? _].
Qed.

(** What the ledger records for a target is an entry of the status. *)
Definition in_status (ms : list ManagedObjectGrant) (t : grantTarget) (holds : ManagedObjectGrant → Prop) : Prop :=
  ∃ m ki, m ∈ ms ∧ objectKindOf (mog_Kind m) = Some ki ∧ ki_pg ki = gt_Kind t ∧ mog_OID m = gt_OID t ∧
    (gt_OID t = 0%Z → mog_Object m = gt_Name t) ∧ CanonicalGrantee (mog_Role m) = gt_Grantee t ∧
    validLedgerSchema (mog_Schema m) = true ∧ holds m.

Lemma recorded_in_status ms managed t f q (holds : ManagedObjectGrant → Prop) :
  (∀ m, m ∈ managed → m ∈ objectLedger ms) → ContainsByte (gt_Kind t) "|"%char = false → recorded f managed (key t) q →
  (∀ m target, q ∈ f {| g_Target := target; g_Privileges := mog_Privileges m; g_GrantOptions := mog_GrantOptions m |} → holds m) →
  in_status ms t holds.
Proof.
  intros Hsub Hb (m & Hm & Hk & Hq) Hf. pose proof (objectLedger_no_bar ms m (Hsub m Hm)) as Hbm.
  apply Hsub in Hm as (en & Hen & Hox)%list_elem_of_omap. destruct (objectKindOf (mog_Kind en)) as [ki|] eqn:Ek; [|done].
  destruct (validLedgerSchema (mog_Schema en)) eqn:Evs; [|done]. simpl in Hox. case_bool_decide; [done|]. injection Hox as <-.
  apply key_inj in Hk as (Hkind & Hgr & _ & Ho & Hnm); [|done..]. simpl in *. exists en, ki. split_and!; try done; [|by eapply Hf].
  intros Hz. rewrite Ho in Hnm. auto.
Qed.
End objects.

(** C26: object grants stay in the Cluster's trust domain. A GRANT on a schema object is to
    an accepted grantee, in a schema the Database manages (never a system schema), on an
    object the server listed in this run under that OID, and for every privilege an
    object grant of the spec declares it for that grantee on that object: one that
    belongs to no extension and is owned by a role a Role of the Cluster manages, or by
    the operator and then neither a SECURITY DEFINER or unsafe-language routine, a view
    nor TRIGGER or MAINTAIN; the grant option only where declared, never to PUBLIC.
    A REVOKE takes only what the status records for that object and grantee, and
    CASCADEs only over recorded grant options. *)
Theorem object_grants_safe `{UP : UnicodePrint} `{ErrorText} {W} (pg : objectGrantClient W) LookupRole c spec managedSchemas v save st
    w out w' tr :
  reconcileObjectGrants (logged_lookup LookupRole) c (logged_object_client pg) spec managedSchemas v (logged_saver save) st no_caches
    (w, []) = (out, (w', tr)) →
  (∀ schema kind sel objects o, CallListObjects schema kind sel (inl objects) ∈ tr → o ∈ objects → so_OID o ≠ 0%Z) →
  (∀ kind schema identity oid grantee ps wgo e, CallGrantObject kind schema identity oid grantee ps wgo e ∈ tr →
    ps ≠ [] ∧ accepted c tr grantee ∧ schema ∈ managedSchemas ∧ systemSchemaName schema = false ∧ oid ≠ 0%Z ∧
    (∀ p, p ∈ ps → ∃ o, so_OID o = oid ∧ object_grant_declared c spec managedSchemas tr kind grantee p wgo o)) ∧
  (∀ kind schema identity oid grantee ps mode e, CallRevokeObject kind schema identity oid grantee ps mode e ∈ tr →
    ps ≠ [] ∧ ∀ p, p ∈ ps →
    (∃ m ki, m ∈ dst_ManagedObjectGrants st ∧ objectKindOf (mog_Kind m) = Some ki ∧ ki_pg ki = kind ∧ mog_OID m = oid ∧
      (oid = 0%Z → mog_Object m = identity) ∧ CanonicalGrantee (mog_Role m) = grantee ∧ validLedgerSchema (mog_Schema m) = true ∧
      p ∈ (if GrantOptionOnly mode then mog_GrantOptions m else mog_Privileges m)) ∧
    (Cascade mode = true → ∃ m, m ∈ dst_ManagedObjectGrants st ∧ mog_OID m = oid ∧ CanonicalGrantee (mog_Role m) = grantee ∧
      p ∈ mog_GrantOptions m)).
Proof.
  intros Hrun Hoid.
  destruct (emits_run _ _ _ _ _ _ _ (reconcileObjectGrants_emits LookupRole c pg spec managedSchemas v save st no_caches eq_refl) Hrun)
    as [_ [Hreads|(p & managed & desired & reads & calls & -> & Hreads & Hp & Hmanaged & Hf & desired' & Hsub & Hcalls)]].
  { rewrite Forall_forall in Hreads. split; intros * Hin%Hreads; done. }
  rewrite Forall_forall in Hreads, Hcalls. destruct Hp as (Hn & entries & Hdecl & Hplan).
  destruct (planned_fields_spec _ _ _ _ Hplan Hn) as [_ Hdes].
  assert (∀ e, e ∈ entries → oe_kind e ∈ objectKindInfos) as Hkinds.
  { pose proof Hdecl as Hd. rewrite Forall_forall in Hd. intros e (s & g & privs & _ & _ & _ & _ & _ & Hk & _)%Hd. by apply objectKindOf_elem in Hk as [? _]. }
  assert (∀ ev, ev ∈ reads → ev ∈ reads ++ calls) as Hin_reads by (intros; apply elem_of_app; by left).
  assert (∀ d, d ∈ desired' → ∃ k, ps_desired (pl_plan p) !! k = Some d) as Hdes'.
  { intros d Hd. destruct Hf as (Hs & _ & _). apply Hdes. eapply elem_of_sublist; [|exact Hs]. by eapply elem_of_sublist. }
  assert (∀ m, m ∈ managed → m ∈ objectLedger (dst_ManagedObjectGrants st)) as Hled by (intros m Hm; by eapply elem_of_sublist).
  assert (∀ d, d ∈ desired' → ContainsByte (gt_Kind (g_Target d)) "|"%char = false) as Hbar_d.
  { intros d [k Hk]%Hdes'. apply (po_desired _ _ _ _ Hplan) in Hk as [_ _ (e & o & q & (He & _) & ->) _ _]. by apply objectKind_no_bar, Hkinds. }
  split; intros kind schema identity oid grantee ps x e Hin; apply elem_of_app in Hin as [Hin|Hin];
    try (by apply Hreads in Hin); apply Hcalls in Hin as [[]|Hin].
  - destruct Hin as (Hne & d & Hd & -> & -> & -> & -> & -> & Hps). destruct (Hdes' d Hd) as [k Hk].
    pose proof (po_desired _ _ _ _ Hplan _ _ Hk) as [Hkey _ (e0 & o0 & q0 & Hs0 & Ht) Hprivs Hopts].
    destruct (po_grants_objects _ _ _ _ Hplan _ _ Hk) as [o Ho]. rewrite Ho.
    assert (gt_OID (g_Target d) ≠ 0%Z) as Hnz.
    { rewrite Ht. destruct Hs0 as (_ & [(sel & objects & Hl & Hin) _] & _). eapply Hoid; [apply elem_of_app; by left|exact Hin]. }
    assert (so_OID o = gt_OID (g_Target d)) as Heq.
    { eapply grant_objects; try done; [|by apply Hbar_d]. intros. eapply Hoid; [apply elem_of_app; by left|done]. }
    assert (∀ q, source c entries reads e0 o0 q → gt_Schema (g_Target d) ∈ managedSchemas ∧ systemSchemaName (gt_Schema (g_Target d)) = false) as Hsch.
    { rewrite Ht. intros q (He0 & _). rewrite Forall_forall in Hdecl. by destruct (Hdecl e0 He0) as (s & g & privs & _ & _ & ? & ? & _). }
    destruct (Hsch _ Hs0). split_and!; [done| |done|done|congruence|].
    + destruct Hf as (_ & Hacc & _). destruct (Hacc d) as (res & Hj & Hv); [by eapply elem_of_sublist|].
      eapply judged_allowed; [by eapply judged_mono|exact Hv].
    + intros q Hq. destruct (planned_declared _ _ _ _ _ x Hplan Hdecl Hkinds Hk (Hbar_d d Hd) (Hps q Hq)) as (o1 & Ho1 & Hd1).
      exists o1. split; [congruence|]. by eapply declared_tr_mono.
  - destruct Hin as (Hne & t & -> & -> & -> & -> & -> & (m0 & Hm0 & <-) & Hps). split; [done|]. intros q Hq.
    destruct (Hps q Hq) as (Hrec & _ & Hcas).
    assert (ContainsByte (gt_Kind (g_Target m0)) "|"%char = false) as Hb0
      by (destruct Hm0 as [Hm0|Hm0]; [by eapply objectLedger_no_bar, Hled|auto]).
    split.
    + eapply (recorded_in_status _ managed (g_Target m0) _ q); [done..|]. intros m target. by destruct (GrantOptionOnly x).
    + intros Hc. destruct (recorded_in_status (dst_ManagedObjectGrants st) managed (g_Target m0) _ q (λ m, q ∈ mog_GrantOptions m)
        Hled Hb0 (Hcas Hc) (λ _ _ H, H)) as (m & ki & ? & _ & _ & ? & _ & ? & _ & ?). by exists m.
Qed.

(** ** A toy server for the examples *)

Module ToyObjects.
Definition object (oid : Z) (name owner : string) : SchemaObject :=
  {| so_OID := oid; so_Identity := name; so_Name := name; so_Owner := owner; so_OwnerOID := 10; so_OwnerSuperuser := false;
     so_OwnerIsSessionUser := false; so_Extension := ""; so_SecurityDefiner := false; so_Language := ""; so_SubKind := "r"; so_ACL := [] |}.

(** "orders" belongs to the managed role "app", "foreign" to a role pgop does not know. *)
Definition client : objectGrantClient Toy.world :=
  {| ogc_RoleExists := λ _, mret (inl true); ogc_SchemaExists := λ _, mret (inl true);
     ogc_RoleOIDs := λ _, mret (inl {[ "app" := 10%Z ]});
     ogc_ListSchemaObjects := λ _ _ _, mret (inl [object 7 "orders" "app"; object 8 "foreign" "dba"]);
     ogc_ResolveRoutine := λ _ _ _, mret (inl None); ogc_ResolveSchemaObject := λ _ _ i _, mret (inl (Some i));
     ogc_GrantOnSchemaObject := λ _ _ _ _ _ _ _, mret None; ogc_RevokeOnSchemaObject := λ _ _ _ _ _ _ _, mret None;
     ogc_HeldDefaultPrivileges := λ _ _, mret (inl ([], [])); ogc_GrantDefaultPrivileges := λ _ _ _ _, mret None;
     ogc_RevokeDefaultPrivileges := λ _ _ _ _, mret None |}.

Definition grant : ObjectGrantSpec :=
  {| ogs_Role := "app"; ogs_Kind := "table"; ogs_Objects := ["*"]; ogs_Privileges := ["select"]; ogs_WithGrantOption := true |}.

Definition spec : DatabaseSpec :=
  {| ds_ClusterRef := "c"; ds_DatabaseName := ""; ds_Owner := ""; ds_Extensions := [];
     ds_Schemas := [{| ss_Name := "data"; ss_Owner := ""; ss_ObjectGrants := [grant]; ss_DefaultPrivileges := []; ss_Grants := [] |}];
     ds_Grants := []; ds_Settings := ∅; ds_PublicPrivileges := None |}.

Definition status : DatabaseStatus :=
  {| dst_Ready := true; dst_DatabaseName := "db"; dst_ClusterUID := "u"; dst_InstalledExtensions := []; dst_Extensions := [];
     dst_ManagedExtensionGrants := []; dst_CreatedSchemas := ["data"]; dst_ManagedGrants := []; dst_ManagedSchemaGrants := [];
     dst_ManagedObjectGrants := [{| mog_Schema := "data"; mog_Kind := "sequence"; mog_Object := "ids"; mog_OID := 9; mog_Role := "app";
       mog_Privileges := ["USAGE"]; mog_GrantOptions := ["USAGE"] |}];
     dst_ManagedDefaultPrivileges := []; dst_ObjectGrants := []; dst_RevokedPublicPrivileges := []; dst_ManagedSettings := [];
     dst_Conditions := [] |}.

#[export] Instance print : UnicodePrint := λ _, true.
#[export] Instance error_text_toy : ErrorText := λ _, "error".

Definition run := reconcileObjectGrants (logged_lookup ToyDatabase.LookupRole) ToyDatabase.checker (logged_object_client client) spec
  {["data"]} 170000 (logged_saver ToyDatabase.save) status no_caches (∅, []).

Definition has_oids (ev : pg_call) : Prop :=
  match ev with CallListObjects _ _ _ (inl objects) => Forall (λ o, so_OID o ≠ 0%Z) objects | _ => True end.
End ToyObjects.

(** "app" gets SELECT on its own table and not on the one of "dba", and loses what
    was recorded on a sequence that the spec no longer names. *)
Lemma object_grants_safe_witness :
  let tr := ToyObjects.run.2.2 in
  CallGrantObject "TABLE" "data" "orders" 7 "app" ["SELECT"] true None ∈ tr ∧ accepted ToyDatabase.checker tr "app" ∧
  CallRevokeObject "SEQUENCE" "data" "ids" 9 "app" ["USAGE"] (revokeMode false true) None ∈ tr ∧
  ∃ m, m ∈ dst_ManagedObjectGrants ToyObjects.status ∧ mog_OID m = 9%Z ∧ "USAGE" ∈ mog_GrantOptions m.
Proof.
  intros tr.
  destruct (object_grants_safe ToyObjects.client ToyDatabase.LookupRole ToyDatabase.checker ToyObjects.spec {["data"]} 170000
    ToyDatabase.save ToyObjects.status ∅ _ _ _ (run_split ToyObjects.run)) as [Hg Hr].
  { assert (Forall ToyObjects.has_oids tr) as Hall by (vm_compute; repeat constructor; discriminate).
    rewrite Forall_forall in Hall. intros schema kind sel objects o Hl Ho. specialize (Hall _ Hl).
    cbn [ToyObjects.has_oids] in Hall. rewrite Forall_forall in Hall. auto. }
  assert (CallGrantObject "TABLE" "data" "orders" 7 "app" ["SELECT"] true None ∈ tr) as H1 by (vm_compute; repeat constructor).
  assert (CallRevokeObject "SEQUENCE" "data" "ids" 9 "app" ["USAGE"] (revokeMode false true) None ∈ tr) as H2
    by (vm_compute; repeat constructor).
  split_and!; [exact H1| |exact H2|].
  - by apply Hg in H1 as (_ & ? & _).
  - apply Hr in H2 as (_ & Hps). destruct (Hps "USAGE") as [_ Hc]; [by left|]. destruct (Hc eq_refl) as (m & ? & ? & _ & ?). by exists m.
Defined.
