(* ===== verification/Pgbackrest.v ===== *)
(** * Physical backups: images, data directories, repositories and labels
    (src/internal/controller/pgpaths.go, pgbackrest.go, backup_physical.go)

    The pure part of physical backups: which image a Cluster runs, where its data
    directory is, whether a Backup can work, where its repository is, and how the
    label of a backup travels through the location of a BackupRun.

    [url.Parse] is the parameter of the class [UrlParse]. *)

From Stdlib Require Import Ascii.
From S2P Require Import Prelude GoStrings GoStrconv.

Open Scope Z_scope.

(** ** Package path of the Go standard library *)

(** One step of [path.Clean] over the elements: the stack is reversed. *)
Definition clean_step (rooted : bool) (stack : list string) (elem : string) : list string :=
  if decide (elem = "" ∨ elem = ".") then stack
  else if decide (elem = "..") then
    match stack with
    | [] => if rooted then [] else [".."]
    | top :: rest => if decide (top = "..") then ".." :: stack else rest
    end
  else elem :: stack.

Definition path_Clean (s : string) : string :=
  let rooted := HasPrefix s "/" in
  let stack := foldl (clean_step rooted) [] (Split s "/") in
  let body := Join (rev stack) "/" in
  if rooted then "/" +:+ body else if decide (body = "") then "." else body.

Definition path_Join (elems : list string) : string :=
  match filter (.≠ "") elems with
  | [] => ""
  | l => path_Clean (Join l "/")
  end.

(** [strings.TrimRight(s, b)] and [strings.Trim(s, b)] for one byte. *)
Fixpoint TrimRightByte (s : string) (b : ascii) : string :=
  match s with
  | EmptyString => ""
  | String c s => match TrimRightByte s b with
                  | EmptyString => if decide (c = b) then "" else str1 c
                  | t => String c t
                  end
  end.
Fixpoint TrimLeftByte (s : string) (b : ascii) : string :=
  match s with
  | EmptyString => ""
  | String c s' => if decide (c = b) then TrimLeftByte s' b else s
  end.
Definition TrimByte (s : string) (b : ascii) : string := TrimLeftByte (TrimRightByte s b) b.

Definition path_Base (s : string) : string :=
  if decide (s = "") then "."
  else let t := TrimRightByte s "/" in
       if decide (t = "") then "/" else List.last (Split t "/") "".

(** [strings.TrimSpace]. *)
Fixpoint TrimSpaceRight (s : string) : string :=
  match s with
  | EmptyString => ""
  | String c s' => if is_blank s then "" else String c (TrimSpaceRight s')
  end.
Fixpoint TrimSpaceLeft (skip : nat) (s : string) : string :=
  match s with
  | EmptyString => ""
  | String _ s' => match skip with
                   | S skip => TrimSpaceLeft skip s'
                   | O => match space_width s with O => s | S w => TrimSpaceLeft w s' end
                   end
  end.
Definition TrimSpace (s : string) : string := TrimSpaceRight (TrimSpaceLeft 0 s).

(** [strings.Lines], up to the line terminators, which the caller trims. *)
Definition Lines (s : string) : list string := Split s newline.

(** The digits [s] starts with, and the rest. *)
Fixpoint span_digits (s : string) : string * string :=
  match s with
  | String c s' => if is_digit c then let '(d, r) := span_digits s' in (String c d, r) else ("", s)
  | EmptyString => ("", "")
  end.

(** ** Images (pgpaths.go, pgbackrest.go) *)

Definition pgbackrestVersion : string := "2.59.3".
Definition DefaultPgbackrestImage : string := "ghcr.io/ruckc/pgop-pgbackrest:" +:+ pgbackrestVersion.
Definition pgopPostgresImageRepository : string := "ghcr.io/ruckc/pgop-postgres".
Definition pgbackrestStanza : string := "main".
Definition pgbackrestContainerName : string := "pgbackrest".
Definition terminationLabelPrefix : string := "label=".
Definition DefaultPostgresImage : string := "postgres:18".
Definition pgbackrestMaxRetention : string := "9999999".
Definition minArchivePushQueueMax : Z := 64 * 2 ^ 20.

(** The fields of a Cluster's spec this component reads. *)
Record ClusterImage := { ci_Name : string; ci_Image : string; ci_PostgresMajorVersion : option Z }.

Record postgresLayout := { lay_MountPath : string; lay_PGDATA : string }.

#[export] Instance postgresLayout_eq_dec : EqDecision postgresLayout.
Proof. solve_decision. Defined.

Definition NeedsVolumeFix (l : postgresLayout) : bool := bool_decide (lay_MountPath l = lay_PGDATA l).

Definition layoutForMajor (major : Z) : postgresLayout :=
  if bool_decide (18 ≤ major)
  then {| lay_MountPath := "/var/lib/postgresql"; lay_PGDATA := "/var/lib/postgresql/" +:+ Itoa major +:+ "/docker" |}
  else {| lay_MountPath := "/var/lib/postgresql/data"; lay_PGDATA := "/var/lib/postgresql/data" |}.

(** An index of [strings.LastIndex]: -1 when there is none. *)
Definition index_or (o : option Z) : Z := default (-1) o.

(** The part of an image reference before a digest. *)
Definition without_digest (image : string) : string :=
  match Cut image "@" with Some (name, _) => name | None => image end.

(** The repository and the tag, when there is one. *)
Definition split_tag (image : string) : option (string * string) :=
  match LastIndex image ":" with
  | None => None
  | Some colon => if bool_decide (colon < index_or (LastIndex image "/")) then None
                  else Some (stake (Z.to_nat colon) image, sdrop (S (Z.to_nat colon)) image)
  end.

Definition parsePostgresMajor (image : string) : Z :=
  match split_tag (without_digest image) with
  | None => 0
  | Some (_, tag) =>
      let digits := (span_digits tag).1 in
      if decide (digits = "") then 0 else default 0 (Atoi digits)
  end.

(** [cmp.Or(cluster.Spec.Image, DefaultPostgresImage)]. *)
Definition clusterImage (cluster : ClusterImage) : string :=
  if decide (ci_Image cluster = "") then DefaultPostgresImage else ci_Image cluster.

Definition resolvePostgresLayout (cluster : ClusterImage) : result postgresLayout :=
  match ci_PostgresMajorVersion cluster with
  | Some major => inl (layoutForMajor major)
  | None =>
      let major := parsePostgresMajor (clusterImage cluster) in
      if decide (major = 0)
      then inr (Errorf "cannot determine PostgreSQL major version from image %q; set spec.postgresMajorVersion explicitly"
             [clusterImage cluster])
      else inl (layoutForMajor major)
  end.

Definition isOfficialPostgresImage (image : string) : bool :=
  let image := without_digest image in
  let image := match split_tag image with Some (repo, _) => repo | None => image end in
  bool_decide (image ∈ ["postgres"; "library/postgres"; "docker.io/postgres"; "docker.io/library/postgres";
                        "index.docker.io/library/postgres"; "registry-1.docker.io/library/postgres"]).

Definition supportedPgopPostgresMajors : list Z := [16; 17; 18].

Definition postgresMajor (cluster : ClusterImage) : Z :=
  match ci_PostgresMajorVersion cluster with Some m => m | None => parsePostgresMajor (clusterImage cluster) end.

(** [^[0-9]+(\.[0-9]+)?], and the rest. *)
Definition version_prefix (tag : string) : option string :=
  let '(major, rest) := span_digits tag in
  if decide (major = "") then None
  else match CutPrefix rest "." with
       | Some rest' => let '(minor, rest'') := span_digits rest' in
                       if decide (minor = "") then Some rest else Some rest''
       | None => Some rest
       end.

Definition trixieTagPattern (tag : string) : bool := bool_decide (version_prefix tag = Some "-trixie").
Definition bareTagPattern (tag : string) : bool := bool_decide (version_prefix tag = Some "").
Definition alwaysTrixieMajor : Z := 18.

Definition imageTag (image : string) : string :=
  match split_tag (without_digest image) with Some (_, tag) => tag | None => "" end.

(** ** Backups *)

Inductive BackupType := BackupTypePhysical | BackupTypeLogical.
#[export] Instance BackupType_eq_dec : EqDecision BackupType.
Proof. solve_decision. Defined.

Inductive DestinationType := DestinationTypeS3 | DestinationTypeAzure | DestinationTypeGCS.
#[export] Instance DestinationType_eq_dec : EqDecision DestinationType.
Proof. solve_decision. Defined.

Record S3Destination := { s3_Bucket : string; s3_Prefix : string; s3_Region : string; s3_Endpoint : string }.

Record PhysicalBackupConfig := {
  phy_Image : string;
  phy_PostgresImageIncludesPgbackrest : bool;
  phy_AcceptImageSwap : bool;
  phy_ArchivePushQueueMax : option Z }.

Record RetentionSpec := { ret_Disabled : option bool; ret_KeepLast : option Z; ret_KeepDays : option Z }.

(** [bk_EncryptionKey]: None without encryption or when it is not enabled; otherwise
    whether keySecretRef is set. *)
Record Backup := {
  bk_Name : string;
  bk_Namespace : string;
  bk_Created : Z;
  bk_Deleting : bool;
  bk_Type : BackupType;
  bk_ClusterRef : option string;
  bk_Physical : option PhysicalBackupConfig;
  bk_Retention : RetentionSpec;
  bk_DestinationType : DestinationType;
  bk_S3 : option S3Destination;
  bk_EncryptionKey : option bool }.

Definition errUnsupportedBackupImage : gerr := Errorf "unsupported image for physical backups" [].

Definition PgopPostgresImage (major : Z) : string := pgopPostgresImageRepository +:+ ":" +:+ Itoa major +:+ "-" +:+ pgbackrestVersion.

(** The errors keep the Cluster's image; their hints are left out. *)
Definition postgresImageForBackups (cluster : ClusterImage) (backup : Backup) : result string :=
  let image := clusterImage cluster in
  let physical (f : PhysicalBackupConfig → bool) := match bk_Physical backup with Some p => f p | None => false end in
  let unsupported msg := inr (Wrapf msg [image] errUnsupportedBackupImage) in
  if physical phy_PostgresImageIncludesPgbackrest then inl image
  else if negb (isOfficialPostgresImage image) then unsupported "%w: %q is not the official postgres image"
  else
    let major := postgresMajor cluster in
    let tag := imageTag image in
    if trixieTagPattern tag || (bareTagPattern tag && bool_decide (alwaysTrixieMajor ≤ major))
       || (bareTagPattern tag && physical phy_AcceptImageSwap)
    then if bool_decide (major ∈ supportedPgopPostgresMajors) then inl (PgopPostgresImage major)
         else unsupported "%w: PostgreSQL %d: pgop builds Postgres+pgBackRest images for %v only"
    else if bareTagPattern tag then unsupported "%w: %q: this tag was Debian bookworm until August 2025"
    else unsupported "%w: %q: only the Debian trixie variant of the official image is replaced".

Definition pgbackrestImage (backup : Backup) : string :=
  match bk_Physical backup with
  | Some p => if decide (phy_Image p = "") then DefaultPgbackrestImage else phy_Image p
  | None => DefaultPgbackrestImage
  end.

Definition keptPgopImage (cluster : ClusterImage) (running : string) : string :=
  if negb (HasPrefix running (pgopPostgresImageRepository +:+ ":")) then ""
  else if negb (isOfficialPostgresImage (clusterImage cluster))
          || negb (bool_decide (parsePostgresMajor running = postgresMajor cluster)) then ""
  else running.

(** Oldest first, then by name: the comparison of [physicalBackupFor]. *)
Definition backup_le (a b : Backup) : Prop := bk_Created a < bk_Created b ∨ bk_Created a = bk_Created b ∧ String.le (bk_Name a) (bk_Name b).
#[export] Instance backup_le_dec a b : Decision (backup_le a b).
Proof. unfold backup_le. apply _. Defined.

(** [found] of [physicalBackupFor], over the Backups of the Cluster's namespace. *)
Definition physicalBackups (clusterName : string) (items : list Backup) : list Backup :=
  filter (λ b, bk_Type b = BackupTypePhysical ∧ bk_ClusterRef b = Some clusterName ∧ bk_Deleting b = false) items.

Definition physicalBackupFor (clusterName : string) (items : list Backup) : option Backup :=
  head (merge_sort backup_le (physicalBackups clusterName items)).

(** ** The S3 endpoint *)

Record URL := { url_Scheme : string; url_Host : string; url_Hostname : string; url_Port : string; url_Path : string }.
Class UrlParse := { url_Parse : string → option URL }.

Record s3Endpoint := { ep_Host : string; ep_Port : Z }.

(** [strings.Contains(s, t)]. *)
Fixpoint Contains (s t : string) : bool :=
  HasPrefix s t || match s with EmptyString => false | String _ s' => Contains s' t end.

Section endpoint.
Context `{UrlParse}.

Definition parseS3Endpoint (s3 : S3Destination) : result s3Endpoint :=
  if decide (s3_Endpoint s3 = "") then inl {| ep_Host := "s3." +:+ s3_Region s3 +:+ ".amazonaws.com"; ep_Port := 443 |}
  else
    let raw := if Contains (s3_Endpoint s3) "://" then s3_Endpoint s3 else "https://" +:+ s3_Endpoint s3 in
    match url_Parse raw with
    | None => inr (Errorf "invalid S3 endpoint %q" [s3_Endpoint s3])
    | Some u =>
        if decide (url_Host u = "") then inr (Errorf "invalid S3 endpoint %q" [s3_Endpoint s3])
        else if decide (url_Scheme u ≠ "https")
        then inr (Errorf "S3 endpoint %q: physical backups (pgBackRest) require an https:// endpoint" [s3_Endpoint s3])
        else if decide (url_Path u ≠ "" ∧ url_Path u ≠ "/") then inr (Errorf "S3 endpoint %q must not have a path" [s3_Endpoint s3])
        else if decide (url_Port u = "") then inl {| ep_Host := url_Hostname u; ep_Port := 443 |}
        else match Atoi (url_Port u) with
             | Some port => if bool_decide (port < 1) || bool_decide (65535 < port)
                            then inr (Errorf "invalid port in S3 endpoint %q" [s3_Endpoint s3])
                            else inl {| ep_Host := url_Hostname u; ep_Port := port |}
             | None => inr (Errorf "invalid port in S3 endpoint %q" [s3_Endpoint s3])
             end
    end.

Definition validatePhysicalBackup (backup : Backup) : error :=
  match bk_ClusterRef backup with
  | None => Some (Errorf "clusterRef is required for physical backups" [])
  | Some _ =>
      match bk_DestinationType backup, bk_S3 backup with
      | DestinationTypeS3, Some s3 =>
          match parseS3Endpoint s3 with
          | inr e => Some e
          | inl _ =>
              if bool_decide (bk_EncryptionKey backup = Some false)
              then Some (Errorf "encryption.keySecretRef is required when encryption is enabled" [])
              else match bk_Physical backup ≫= phy_ArchivePushQueueMax with
                   | Some q => if bool_decide (q < minArchivePushQueueMax)
                               then Some (Errorf "physical.archivePushQueueMax must be at least 64Mi (got %s)" [Itoa q]) else None
                   | None => None
                   end
          end
      | _, _ => Some (Errorf "physical backups support destination type s3 only (got %q)" [])
      end
  end.

Definition validatePhysicalBackupFor (backup : Backup) (cluster : ClusterImage) : error :=
  match validatePhysicalBackup backup with
  | Some e => Some e
  | None => match postgresImageForBackups cluster backup with inl _ => None | inr e => Some e end
  end.
End endpoint.

(** [storageSize]: the bytes of spec.storage.size (or its default), None when the
    quantity does not parse. *)
Definition archivePushQueueMax (backup : Backup) (storageSize : option Z) : Z :=
  match bk_Physical backup ≫= phy_ArchivePushQueueMax with
  | Some q => q
  | None => (default (2 ^ 30) storageSize `quot` 4) `max` minArchivePushQueueMax
  end.

Definition pgbackrestRetentionEnv (backup : Backup) : list (string * string) :=
  let r := bk_Retention backup in
  let keepAll := [("PGBACKREST_REPO1_RETENTION_FULL", pgbackrestMaxRetention)] in
  if default true (ret_Disabled r) then keepAll
  else match ret_KeepLast r with
       | Some n => if bool_decide (0 < n) then [("PGBACKREST_REPO1_RETENTION_FULL", Itoa n)]
                   else match ret_KeepDays r with
                        | Some d => if bool_decide (0 < d) then [("PGBACKREST_REPO1_RETENTION_FULL_TYPE", "time");
                                                                  ("PGBACKREST_REPO1_RETENTION_FULL", Itoa d)] else keepAll
                        | None => keepAll
                        end
       | None => match ret_KeepDays r with
                 | Some d => if bool_decide (0 < d) then [("PGBACKREST_REPO1_RETENTION_FULL_TYPE", "time");
                                                           ("PGBACKREST_REPO1_RETENTION_FULL", Itoa d)] else keepAll
                 | None => keepAll
                 end
       end.

(** ** Repositories and labels *)

Definition repoPath (backup : Backup) (s3 : S3Destination) : string :=
  let prefix := TrimByte (s3_Prefix s3) "/" in
  if decide (prefix = "") then "/" +:+ path_Join [bk_Namespace backup; default "" (bk_ClusterRef backup); bk_Name backup]
  else "/" +:+ prefix.

(** [n] digits at the start of [s], and the rest. *)
Fixpoint take_digits (n : nat) (s : string) : option string :=
  match n with
  | O => Some s
  | S n => match s with String c s' => if is_digit c then take_digits n s' else None | EmptyString => None end
  end.

(** [[0-9]{8}-[0-9]{6}], and the rest. *)
Definition take_stamp (s : string) : option string :=
  s1 ← take_digits 8 s; s2 ← CutPrefix s1 "-"; take_digits 6 s2.

Definition pgbackrestLabelPattern (label : string) : bool :=
  match (s1 ← take_stamp label; CutPrefix s1 "F") with
  | None => false
  | Some rest =>
      bool_decide (rest = "") ||
      match (s2 ← CutPrefix rest "_"; take_stamp s2) with
      | Some last => bool_decide (last = "D" ∨ last = "I")
      | None => false
      end
  end.

(** A terminated container of a Job's pod. *)
Record ContainerStatus := { cst_Name : string; cst_ExitCode : option Z; cst_Message : string }.

(** The label a container status reports: [strings.CutPrefix] of a trimmed line. *)
Definition reportedLabel (cs : ContainerStatus) : option string :=
  if bool_decide (cst_Name cs = pgbackrestContainerName) && bool_decide (cst_ExitCode cs = Some 0)
  then head (filter (λ l, pgbackrestLabelPattern l = true)
         (omap (λ line, CutPrefix (TrimSpace line) terminationLabelPrefix) (Lines (cst_Message cs))))
  else None.

Definition physicalBackupLocation (backup : Backup) (pods : list (list ContainerStatus)) : string :=
  match bk_S3 backup with
  | None => ""
  | Some s3 =>
      match head (omap reportedLabel (concat pods)) with
      | Some label => "s3://" +:+ s3_Bucket s3 +:+ path_Join [repoPath backup s3; "backup"; pgbackrestStanza; label]
      | None => ""
      end
  end.

Definition backupLabelFromLocation (location : string) : result string :=
  if decide (location = "") then inl ""
  else let label := path_Base location in
       if pgbackrestLabelPattern label then inl label
       else inr (Errorf "location %q does not end in a pgBackRest backup label" [location]).

(** ** Physical backups: theorems about images, the chosen Backup and labels *)

Open Scope Z_scope.

(** ** Paths *)

Lemma Split_ne s sep : Split s sep ≠ [].
Proof. destruct s as [|c s]; [done|]. simpl. case_decide; [done|]. by destruct (Split s sep). Qed.

Lemma Split_app_sep s t sep : Split (s +:+ String sep t) sep = Split s sep ++ Split t sep.
Proof.
  induction s as [|c s IH]; simpl; [by rewrite decide_True|]. case_decide; [by rewrite IH|].
  rewrite IH. destruct (Split s sep) eqn:E; [by apply Split_ne in E|done].
Qed.

Lemma Join_snoc l x sep : l ≠ [] → Join (l ++ [x]) sep = Join l sep +:+ sep +:+ x.
Proof.
  induction l as [|y [|z l] IH]; [done|done|]. intros _. change ((y :: z :: l) ++ [x]) with (y :: z :: (l ++ [x])).
  rewrite !Join_cons2. change (z :: l ++ [x]) with ((z :: l) ++ [x]). rewrite IH by done. by rewrite !app_assoc_s.
Qed.

(** A path element that [path.Clean] keeps. *)
Definition plain_elem (e : string) : Prop := e ≠ "" ∧ e ≠ "." ∧ e ≠ ".." ∧ ContainsByte e "/" = false.

Lemma path_Clean_last s e : plain_elem e → ∃ d, path_Clean ("/" +:+ s +:+ "/" +:+ e) = d +:+ "/" +:+ e.
Proof.
  intros (H1 & H2 & H3 & H4). unfold path_Clean. change (HasPrefix ("/" +:+ s +:+ "/" +:+ e) "/") with true. cbv iota zeta.
  assert (Split ("/" +:+ s +:+ "/" +:+ e) "/" = ("" :: Split s "/") ++ [e]) as ->.
  { change ("/" +:+ s +:+ "/" +:+ e) with ("" +:+ String "/" (s +:+ String "/" e)).
    by rewrite !Split_app_sep, (Split_no e) by done. }
  rewrite foldl_app. set (stack := foldl (clean_step true) [] ("" :: Split s "/")).
  assert (foldl (clean_step true) stack [e] = e :: stack) as ->.
  { cbn. unfold clean_step. rewrite decide_False by (by intros [?|?]). by rewrite decide_False. }
  change (rev (e :: stack)) with (rev stack ++ [e]).
  destruct (decide (rev stack = [])) as [->|Hne]; [by exists ""|].
  exists ("/" +:+ Join (rev stack) "/"). rewrite Join_snoc by done. by rewrite !app_assoc_s.
Qed.

Lemma TrimRightByte_id s b : ContainsByte s b = false → TrimRightByte s b = s.
Proof.
  induction s as [|c s IH]; [done|]. simpl. intros [Hc%bool_decide_eq_false H]%orb_false_iff. rewrite IH by done.
  destruct s; [by rewrite decide_False|done].
Qed.

Lemma TrimRightByte_app s t b : t ≠ "" → ContainsByte t b = false → TrimRightByte (s +:+ t) b = s +:+ t.
Proof.
  intros Ht Hb. induction s as [|c s IH]; simpl; [by apply TrimRightByte_id|]. rewrite IH.
  destruct s; simpl; [by destruct t|done].
Qed.

Lemma path_Base_last s e : plain_elem e → path_Base (s +:+ "/" +:+ e) = e.
Proof.
  intros (H1 & _ & _ & H4). unfold path_Base. change ("/" +:+ e) with (String "/" e).
  rewrite decide_False by (by destruct s). rewrite (decide_False (P := _ = "")).
  - change (String "/" e) with ("/" +:+ e). rewrite <- app_assoc_s, TrimRightByte_app by done. rewrite app_assoc_s.
    change ("/" +:+ e) with (String "/" e). rewrite Split_app_sep, (Split_no e) by done. apply last_last.
  - change (String "/" e) with ("/" +:+ e). rewrite <- app_assoc_s, TrimRightByte_app by done. rewrite app_assoc_s. by destruct s.
Qed.

(** ** Labels *)

Lemma take_digits_no_slash n s r : take_digits n s = Some r → ContainsByte s "/" = ContainsByte r "/".
Proof.
  revert s. induction n as [|n IH]; intros s; simpl; [by intros [= ->]|]. destruct s as [|c s]; [done|].
  destruct (is_digit c) eqn:Ec; [|done]. intros H%IH. cbn [ContainsByte]. rewrite bool_decide_eq_false_2; [exact H|]. by intros ->.
Qed.

Lemma take_stamp_spec s r : take_stamp s = Some r → ContainsByte s "/" = ContainsByte r "/" ∧ is_digit <$> String.get 0 s = Some true.
Proof.
  unfold take_stamp. intros (s1 & E1 & (s2 & E2 & E3)%bind_Some)%bind_Some. split.
  - apply take_digits_no_slash in E1 as ->. apply CutPrefix_Some in E2 as ->. by apply take_digits_no_slash in E3 as <-.
  - destruct s as [|c s]; [done|]. simpl in *. by destruct (is_digit c).
Qed.

Lemma label_plain label : pgbackrestLabelPattern label = true → plain_elem label.
Proof.
  unfold pgbackrestLabelPattern. destruct (take_stamp label ≫= _) as [rest|] eqn:E; [|done].
  apply bind_Some in E as (s1 & E1 & E2). intros Hrest. apply take_stamp_spec in E1 as [Hs Hd].
  apply CutPrefix_Some in E2 as ->. cbn in Hs. split_and!; [by intros ->|by intros ->|by intros ->|]. rewrite Hs.
  apply orb_true_iff in Hrest as [->%bool_decide_eq_true|Hrest]; [done|].
  destruct (CutPrefix rest "_" ≫= _) as [last|] eqn:E; [|done]. apply bind_Some in E as (s2 & E3 & E4).
  apply CutPrefix_Some in E3 as ->. cbn. apply take_stamp_spec in E4 as [-> _].
  by apply bool_decide_eq_true in Hrest as [-> | ->].
Qed.

Lemma reportedLabel_pattern cs label : reportedLabel cs = Some label → pgbackrestLabelPattern label = true.
Proof.
  unfold reportedLabel. destruct (_ && _); [|done]. intros H%head_Some_elem_of. by apply list_elem_of_filter in H as [? _].
Qed.

Lemma repoPath_rooted backup s3 : ∃ p, repoPath backup s3 = "/" +:+ p.
Proof. unfold repoPath. case_decide; eauto. Qed.

(** The label of a physical backup survives the round trip through the location a
    BackupRun records: when a location is recorded at all, it names the Backup's
    bucket, and the restore reads back from it exactly the label that the backup Job
    reported in its termination message, whatever prefix and names the repository
    has. *)
Theorem backup_label_roundtrip backup pods :
  match physicalBackupLocation backup pods with
  | "" => True
  | location => ∃ s3 label rest, bk_S3 backup = Some s3 ∧ head (omap reportedLabel (concat pods)) = Some label ∧
      location = "s3://" +:+ s3_Bucket s3 +:+ rest ∧ backupLabelFromLocation location = inl label ∧ pgbackrestLabelPattern label = true
  end.
Proof.
  unfold physicalBackupLocation. destruct (bk_S3 backup) as [s3|]; [|done].
  destruct (head _) as [label|] eqn:Eh; [|done].
  assert (pgbackrestLabelPattern label = true) as Hp.
  { apply head_Some_elem_of, list_elem_of_omap in Eh as (cs & _ & ?). by eapply reportedLabel_pattern. }
  pose proof (label_plain _ Hp) as Hplain. destruct (repoPath_rooted backup s3) as [p Hrepo].
  assert (path_Join [repoPath backup s3; "backup"; pgbackrestStanza; label] =
    path_Clean ("/" +:+ (p +:+ "/backup/main") +:+ "/" +:+ label)) as Hjoin.
  { unfold path_Join. rewrite Hrepo. rewrite filter_cons_True by done. rewrite !filter_cons_True by (done || apply Hplain).
    rewrite filter_nil. cbn [Join]. by rewrite !app_assoc_s. }
  destruct (path_Clean_last (p +:+ "/backup/main") label Hplain) as [d Hd]. rewrite Hjoin, Hd.
  exists s3, label, (d +:+ "/" +:+ label). split_and!; [done|done|done| |done].
  unfold backupLabelFromLocation. rewrite decide_False by done.
  assert (String "s" ("3://" +:+ s3_Bucket s3 +:+ d +:+ "/" +:+ label) = ("s3://" +:+ s3_Bucket s3 +:+ d) +:+ "/" +:+ label) as ->.
  { by rewrite !app_assoc_s. }
  rewrite path_Base_last by done. by rewrite Hp.
Qed.

(** ** Images *)

Lemma PgopPostgresImage_major major : major ∈ supportedPgopPostgresMajors → parsePostgresMajor (PgopPostgresImage major) = major.
Proof. unfold supportedPgopPostgresMajors. rewrite !elem_of_cons, elem_of_nil. by intros [->|[->|[->|[]]]]; vm_compute. Qed.

(** PostgreSQL runs physical backups only on an image that has pgBackRest: the
    Cluster's own image when the Backup vouches for it; otherwise pgop's image of the
    Cluster's major version (16, 17 or 18, and the image's tag parses back to it), and
    that only instead of the official image whose tag is Debian trixie by name, or bare
    with a major that always was trixie or an explicit acceptance. *)
Theorem backup_image_safe cluster backup :
  match postgresImageForBackups cluster backup with
  | inl image =>
      (image = clusterImage cluster ∧ phy_PostgresImageIncludesPgbackrest <$> bk_Physical backup = Some true) ∨
      (image = PgopPostgresImage (postgresMajor cluster) ∧ parsePostgresMajor image = postgresMajor cluster ∧
       16 ≤ postgresMajor cluster ≤ 18 ∧ isOfficialPostgresImage (clusterImage cluster) = true ∧
       (trixieTagPattern (imageTag (clusterImage cluster)) = true ∨
        bareTagPattern (imageTag (clusterImage cluster)) = true ∧
        (18 ≤ postgresMajor cluster ∨ phy_AcceptImageSwap <$> bk_Physical backup = Some true)))
  | inr _ => phy_PostgresImageIncludesPgbackrest <$> bk_Physical backup ≠ Some true ∧
      (isOfficialPostgresImage (clusterImage cluster) = false ∨ postgresMajor cluster ∉ supportedPgopPostgresMajors ∨
       trixieTagPattern (imageTag (clusterImage cluster)) = false)
  end.
Proof.
  unfold postgresImageForBackups. cbv zeta. set (vouched := match bk_Physical backup with Some p => phy_PostgresImageIncludesPgbackrest p | None => _ end).
  set (accepted := match bk_Physical backup with Some p => phy_AcceptImageSwap p | None => _ end).
  assert (vouched = true ↔ phy_PostgresImageIncludesPgbackrest <$> bk_Physical backup = Some true) as Hv.
  { unfold vouched. destruct (bk_Physical backup); simpl; [|done]. split; [by intros ->|by intros [= ->]]. }
  assert (accepted = true ↔ phy_AcceptImageSwap <$> bk_Physical backup = Some true) as Ha.
  { unfold accepted. destruct (bk_Physical backup); simpl; [|done]. split; [by intros ->|by intros [= ->]]. }
  clearbody vouched accepted. destruct vouched; [left; by rewrite <- Hv|].
  assert (phy_PostgresImageIncludesPgbackrest <$> bk_Physical backup ≠ Some true) as Hno by (by rewrite <- Hv). clear Hv.
  destruct (isOfficialPostgresImage _) eqn:Eo; simpl; [|split; [done|by left]].
  destruct (trixieTagPattern _) eqn:Et; destruct (bareTagPattern _) eqn:Eb; simpl.
  all: try (destruct (bool_decide_reflect (alwaysTrixieMajor ≤ postgresMajor cluster)) as [H18|H18]); destruct accepted; simpl.
  all: try (split; [done|by right; right]).
  all: destruct (bool_decide_reflect (postgresMajor cluster ∈ supportedPgopPostgresMajors)) as [Hs|Hs]; [right|split; [done|by right; left]].
  all: split_and!; [done|by apply PgopPostgresImage_major| | |done|].
  all: try (unfold supportedPgopPostgresMajors in Hs; rewrite !elem_of_cons, elem_of_nil in Hs; destruct Hs as [->|[->|[->|[]]]]; lia).
  all: unfold alwaysTrixieMajor in *; rewrite <- ?Ha; auto.
Qed.

(** ** The Backup of a Cluster *)

#[export] Instance backup_le_total : Total backup_le.
Proof.
  intros a b. unfold backup_le. destruct (Z.lt_trichotomy (bk_Created a) (bk_Created b)) as [?|[Heq|?]]; [auto| |auto].
  destruct (total String.le (bk_Name a) (bk_Name b)); [left|right]; right; (split; [lia|done]).
Qed.

#[export] Instance backup_le_trans : Transitive backup_le.
Proof.
  intros a b c. unfold backup_le. intros [?|[? ?]] [?|[? ?]]; [left; lia..|right]. split; [lia|by etrans].
Qed.

Lemma NoDup_fmap_elem_inj {A B} (f : A → B) l x y : NoDup (f <$> l) → x ∈ l → y ∈ l → f x = f y → x = y.
Proof.
  induction l as [|z l IH]; [by intros _ ?%elem_of_nil|]. rewrite fmap_cons, NoDup_cons, !elem_of_cons.
  intros [Hz Hnd] [->|Hx] [->|Hy] Hf; [done|destruct Hz; rewrite Hf|destruct Hz; rewrite <- Hf|by apply IH]; by apply list_elem_of_fmap_2.
Qed.

Lemma physicalBackups_perm name items items' : items ≡ₚ items' → physicalBackups name items ≡ₚ physicalBackups name items'.
Proof. intros H. unfold physicalBackups. by rewrite H. Qed.

(** Every controller agrees on the Backup a Cluster archives for: whatever order
    the API server lists the Backups in (their names are unique in a namespace), the
    same one is chosen; it is a physical Backup of the Cluster that is not being
    deleted and no such Backup is older; and when there is such a Backup, one is
    chosen. *)
Theorem physicalBackupFor_order name items items' :
  items ≡ₚ items' → NoDup (bk_Name <$> items) →
  physicalBackupFor name items = physicalBackupFor name items' ∧
  match physicalBackupFor name items with
  | Some b => b ∈ physicalBackups name items ∧ ∀ b', b' ∈ physicalBackups name items → bk_Created b ≤ bk_Created b'
  | None => physicalBackups name items = []
  end.
Proof.
  intros Hperm Hnd. unfold physicalBackupFor. set (l := physicalBackups name items).
  assert (merge_sort backup_le l ≡ₚ l) as Hp by apply merge_sort_Permutation.
  assert (StronglySorted backup_le (merge_sort backup_le l)) as Hs by (apply StronglySorted_merge_sort; apply _). split.
  - f_equal. assert (l ≡ₚ physicalBackups name items') as Hp' by (by apply physicalBackups_perm).
    apply (StronglySorted_unique_strong backup_le); [|apply Hs|apply StronglySorted_merge_sort; apply _|by rewrite !merge_sort_Permutation].
    intros x y Hx Hy Hxy Hyx.
    assert (bk_Name x = bk_Name y) as Hn.
    { unfold backup_le in *. destruct Hxy as [?|[? Hxy]], Hyx as [?|[? Hyx]]; [lia..|]. by apply (anti_symm String.le). }
    apply (NoDup_fmap_elem_inj bk_Name items); [done| | |done].
    + rewrite merge_sort_Permutation in Hx. by apply list_elem_of_filter in Hx as [_ ?].
    + rewrite merge_sort_Permutation, <- Hp' in Hy. by apply list_elem_of_filter in Hy as [_ ?].
  - destruct (merge_sort backup_le l) as [|b bs] eqn:E; simpl.
    + symmetry in Hp. by apply Permutation_nil_r in Hp.
    + apply StronglySorted_inv in Hs as [_ Hall]. split; [rewrite <- Hp; by left|].
      intros b'. rewrite <- Hp. intros [->|Hb]%elem_of_cons; [done|]. rewrite Forall_forall in Hall.
      destruct (Hall b' Hb) as [?|[? ?]]; lia.
Qed.
