(* ===== verification/PublicPrivileges.v ===== *)
(** * PUBLIC's default privileges and database settings
    (src/internal/controller/database_grants.go, second half)

    [reconcilePublicPrivileges] revokes what spec.publicPrivileges turns off,
    remembers what it took, and gives exactly that back. *)

From Stdlib Require Import Ascii.
From S2P Require Import Prelude GoStrings GoStrconv Privileges Parameters ApiTypes Settings.
From S2P Require Import GrantEngine Grants Trace.

#[export] Instance PrivilegeObject_eq_dec : EqDecision PrivilegeObject.
Proof. solve_decision. Defined.
#[export] Instance PrivilegeObject_countable : Countable PrivilegeObject.
Proof.
  apply (inj_countable' (λ o, (po_Kind o, po_Name o)) (λ p, {| po_Kind := p.1; po_Name := p.2 |})). by intros [].
Defined.

Definition publicSchemaName : string := "public".
Definition ReasonPublicPrivilegeConflict : string := "PublicPrivilegeConflict".
Definition ReasonPublicPrivilegeStillHeld : string := "PublicPrivilegeStillHeld".

Record publicPrivilegeItem := {
  it_field : PublicPrivilege;
  it_kind : ObjectKind;
  it_privilege : string;
  it_requested : PublicPrivilegesSpec → option bool }.

Definition item (field kind privilege : string) (requested : PublicPrivilegesSpec → option bool) : publicPrivilegeItem :=
  {| it_field := field; it_kind := kind; it_privilege := privilege; it_requested := requested |}.

Definition publicPrivilegeItems : list publicPrivilegeItem :=
  [item PublicPrivilegeConnect ObjectDatabase PrivilegeConnect pp_Connect;
   item PublicPrivilegeTemporary ObjectDatabase PrivilegeTemporary pp_Temporary;
   item PublicPrivilegePublicSchemaUsage ObjectSchema PrivilegeUsage pp_PublicSchemaUsage;
   item PublicPrivilegePublicSchemaCreate ObjectSchema PrivilegeCreate pp_PublicSchemaCreate].

Definition revokeRequested (it : publicPrivilegeItem) (spec : option PublicPrivilegesSpec) : bool :=
  match spec with
  | None => false
  | Some p => match it_requested it p with Some b => negb b | None => false end
  end.

Definition grantsIt (it : publicPrivilegeItem) (normalize : list string → result (list string)) (privileges : list string) : bool :=
  match normalize privileges with inl privs => slices_Contains privs (it_privilege it) | inr _ => false end.

Definition publicGrantConflict (spec : DatabaseSpec) (it : publicPrivilegeItem) : bool :=
  if decide (it_kind it = ObjectDatabase) then
    existsb (λ g, IsPublic (dgs_Role g) && grantsIt it NormalizeDatabasePrivileges (dgs_Privileges g)) (ds_Grants spec)
  else
    existsb (λ s, bool_decide (ss_Name s = publicSchemaName) &&
      existsb (λ g, IsPublic (gs_Role g) && grantsIt it NormalizeSchemaPrivileges (gs_Privileges g)) (ss_Grants s)) (ds_Schemas spec).

Record publicPrivilegeClient (W : Type) := {
  ppc_executor : privilegeExecutor W;
  ppc_HeldFromAnyGrantor : PrivilegeObject → string → string → M W (result bool) }.
Arguments ppc_executor {W}. Arguments ppc_HeldFromAnyGrantor {W}.

(** The variables of the loop. *)
Record publicState := {
  ps_recorded : gset PublicPrivilege;
  ps_cache : gmap PrivilegeObject (list string * bool);
  ps_conflicts : list string;
  ps_stillHeld : list string;
  ps_errs : list gerr }.

Definition set_recorded (s : publicState) (r : gset PublicPrivilege) : publicState :=
  {| ps_recorded := r; ps_cache := ps_cache s; ps_conflicts := ps_conflicts s; ps_stillHeld := ps_stillHeld s; ps_errs := ps_errs s |}.
Definition set_cache (s : publicState) (c : gmap PrivilegeObject (list string * bool)) : publicState :=
  {| ps_recorded := ps_recorded s; ps_cache := c; ps_conflicts := ps_conflicts s; ps_stillHeld := ps_stillHeld s; ps_errs := ps_errs s |}.
Definition add_conflict (s : publicState) (f : string) : publicState :=
  {| ps_recorded := ps_recorded s; ps_cache := ps_cache s; ps_conflicts := ps_conflicts s ++ [f]; ps_stillHeld := ps_stillHeld s;
     ps_errs := ps_errs s |}.
Definition add_stillHeld (s : publicState) (f : string) : publicState :=
  {| ps_recorded := ps_recorded s; ps_cache := ps_cache s; ps_conflicts := ps_conflicts s; ps_stillHeld := ps_stillHeld s ++ [f];
     ps_errs := ps_errs s |}.
Definition add_err (s : publicState) (e : gerr) : publicState :=
  {| ps_recorded := ps_recorded s; ps_cache := ps_cache s; ps_conflicts := ps_conflicts s; ps_stillHeld := ps_stillHeld s;
     ps_errs := ps_errs s ++ [e] |}.

(** [record]: the recorded items in their order. *)
Definition recorded_fields (recorded : gset PublicPrivilege) : list PublicPrivilege :=
  filter (.∈ recorded) (it_field <$> publicPrivilegeItems).

Section reconcile.
Context {W : Type} (pg : publicPrivilegeClient W) (spec : DatabaseSpec) (pgName : string)
  (save : statusSaver W DatabaseStatus) (st : DatabaseStatus).

Definition publicObject (it : publicPrivilegeItem) : PrivilegeObject :=
  {| po_Kind := it_kind it; po_Name := if decide (it_kind it = ObjectSchema) then publicSchemaName else pgName |}.

Definition publicHolds (obj : PrivilegeObject) (s : publicState) : M W (result (list string * bool) * publicState) :=
  match ps_cache s !! obj with
  | Some h => mret (inl h, s)
  | None =>
      r ← HeldPrivileges W (ppc_executor pg) obj PublicGrantee;
      mret (match r with
            | inr e => (inr e, s)
            | inl (privs, _, found) => (inl (privs, found), set_cache s (<[obj := (privs, found)]> (ps_cache s)))
            end)
  end.

(** Recording the intent to revoke; [false] means: nothing may be revoked. *)
Definition recordIntent (it : publicPrivilegeItem) (s : publicState) : M W (bool * publicState) :=
  if decide (it_field it ∈ ps_recorded s) then mret (true, s)
  else
    let s' := set_recorded s ({[it_field it]} ∪ ps_recorded s) in
    match save with
    | None => mret (true, s')
    | Some f =>
        e ← f (set_RevokedPublicPrivileges st (recorded_fields (ps_recorded s')));
        mret (match e with
              | None => (true, s')
              | Some err => (false, add_err (set_recorded s' (ps_recorded s' ∖ {[it_field it]}))
                  (Wrapf "recording the PUBLIC privilege pgop is about to revoke failed, nothing was revoked: %w" [] err))
              end)
    end.

(** The check for other grantors, at the end of an iteration. *)
Definition checkStillHeld (it : publicPrivilegeItem) (s : publicState) : M W publicState :=
  r ← ppc_HeldFromAnyGrantor pg (publicObject it) PublicGrantee (it_privilege it);
  mret (match r with
        | inr e => add_err s e
        | inl true => add_stillHeld s (it_field it)
        | inl false => s
        end).

(** An item whose revocation is requested, on an object that exists. *)
Definition revokePublic (it : publicPrivilegeItem) (holds : bool) (s : publicState) : M W publicState :=
  if holds then
    '(go, s) ← recordIntent it s;
    if go : bool then
      e ← RevokePrivileges W (ppc_executor pg) (publicObject it) PublicGrantee [it_privilege it] (revokeMode false false);
      match e with
      | Some err => mret (add_err s err)
      | None => checkStillHeld it s
      end
    else mret s
  else checkStillHeld it s.

(** An item that is recorded and no longer requested. *)
Definition restorePublic (it : publicPrivilegeItem) (holds : bool) (s : publicState) : M W publicState :=
  e ← (if holds then mret None
       else GrantPrivileges W (ppc_executor pg) (publicObject it) PublicGrantee [it_privilege it] false);
  mret (match e with
        | Some err => add_err s err
        | None => set_recorded s (ps_recorded s ∖ {[it_field it]})
        end).

(** One iteration; the first component is the error of an early return. *)
Definition publicItem (it : publicPrivilegeItem) (s : publicState) : M W (error * publicState) :=
  let wantRevoked := revokeRequested it (ds_PublicPrivileges spec) in
  if wantRevoked && publicGrantConflict spec it then mret (None, add_conflict s (it_field it))
  else if negb wantRevoked && bool_decide (it_field it ∉ ps_recorded s) then mret (None, s)
  else
    '(h, s) ← publicHolds (publicObject it) s;
    match h with
    | inr e => mret (Some e, s)
    | inl (_, false) =>
        mret (None, if wantRevoked then s else set_recorded s (ps_recorded s ∖ {[it_field it]}))
    | inl (privileges, true) =>
        let holds := slices_Contains privileges (it_privilege it) in
        s ← (if wantRevoked then revokePublic it holds s else restorePublic it holds s);
        mret (None, s)
    end.

Fixpoint publicLoop (items : list publicPrivilegeItem) (kind : ObjectKind) (s : publicState) : M W (error * publicState) :=
  match items with
  | [] => mret (None, s)
  | it :: its =>
      if decide (it_kind it = kind) then
        '(e, s) ← publicItem it s;
        match e with Some err => mret (Some err, s) | None => publicLoop its kind s end
      else publicLoop its kind s
  end.

Definition publicErrors (s : publicState) : error :=
  errors_Join (Some <$> (ps_errs s ++
    (if decide (ps_conflicts s = []) then [] else [CondErr ReasonPublicPrivilegeConflict (Errorf
      "publicPrivileges %s: the same privilege is granted to PUBLIC in grants or schemas[public].grants; PUBLIC's privilege is left as it is"
      [Join (ps_conflicts s) ", "])]) ++
    (if decide (ps_stillHeld s = []) then [] else [CondErr ReasonPublicPrivilegeStillHeld (Errorf
      "publicPrivileges %s: PUBLIC still holds the privilege, granted by a role other than the owner (with the grant option); pgop revokes only as the owner. Revoke it as that role, or with CASCADE from that role's grant option"
      [Join (ps_stillHeld s) ", "])]))).

(** The error and the status, whose record [defer record()] writes on every path. *)
Definition reconcilePublicPrivileges (kind : ObjectKind) : M W (error * DatabaseStatus) :=
  '(e, s) ← publicLoop publicPrivilegeItems kind
    {| ps_recorded := list_to_set (dst_RevokedPublicPrivileges st); ps_cache := ∅; ps_conflicts := []; ps_stillHeld := []; ps_errs := [] |};
  mret (match e with Some err => Some err | None => publicErrors s end,
        set_RevokedPublicPrivileges st (recorded_fields (ps_recorded s))).
End reconcile.

(** [reconcileDatabaseSettings]. *)
Definition databaseSettingOps {W} (pg : databaseGrantClient W) (pgName : string) : @settingOps W :=
  {| op_set := dgc_SetDatabaseParameter pg pgName; op_reset := dgc_ResetDatabaseParameter pg pgName |}.

Definition reconcileDatabaseSettings `{UnicodePrint} {W} (pg : databaseGrantClient W) (p : policy) (spec : DatabaseSpec)
    (pgName : string) (st : DatabaseStatus) : M W (error * DatabaseStatus) :=
  match normalizeSettings "settings" (ds_Settings spec) with
  | inr e => mret (Some e, st)
  | inl desired =>
      let managed := dst_ManagedSettings st in
      if decide (desired = ∅ ∧ managed = []) then mret (None, st)
      else
        '(after, refused, err) ← applySettings (dgc_ParameterContext pg) p desired managed (databaseSettingOps pg pgName);
        mret (match err with
              | Some e => Some e
              | None => match refused with
                        | [] => None
                        | _ => Some (CondErr ReasonSettingNotAllowed (Errorf "settings not allowed: %s" [Join refused "; "]))
                        end
              end, set_ManagedSettings st after)
  end.

(** ** What the reconcile asks of the server *)

Inductive public_event :=
  | PubHeld (obj : PrivilegeObject) (r : result (list string * list string * bool))
  | PubStill (obj : PrivilegeObject) (p : string) (r : result bool)
  | PubRevoke (obj : PrivilegeObject) (grantee : string) (ps : list string) (mode : RevokeMode) (e : error)
  | PubGrant (obj : PrivilegeObject) (grantee : string) (ps : list string) (wgo : bool) (e : error)
  | PubSave (record : list PublicPrivilege) (e : error).

Definition logged_public_client {W} (pg : publicPrivilegeClient W) : publicPrivilegeClient (W * list public_event) :=
  {| ppc_executor :=
       {| HeldPrivileges := λ o g, logged (PubHeld o) (HeldPrivileges W (ppc_executor pg) o g);
          GrantPrivileges := λ o g ps wgo, logged (PubGrant o g ps wgo) (GrantPrivileges W (ppc_executor pg) o g ps wgo);
          RevokePrivileges := λ o g ps mode, logged (PubRevoke o g ps mode) (RevokePrivileges W (ppc_executor pg) o g ps mode) |};
     ppc_HeldFromAnyGrantor := λ o g p, logged (PubStill o p) (ppc_HeldFromAnyGrantor pg o g p) |}.

Definition logged_public_save {W} (save : statusSaver W DatabaseStatus) : statusSaver (W * list public_event) DatabaseStatus :=
  (λ f st, logged (PubSave (dst_RevokedPublicPrivileges st)) (f st)) <$> save.

Section trace.
Context {W : Type} (pg : publicPrivilegeClient W) (spec : DatabaseSpec) (pgName : string)
  (save : statusSaver W DatabaseStatus) (st : DatabaseStatus).

Abbreviation emits := (emits (λ _ _ _, True)).
Abbreviation lpg := (logged_public_client pg).
Abbreviation lsave := (logged_public_save save).
Abbreviation obj_of := (publicObject pgName).

(** The last status saved in a trace (that of [st] when none was). *)
Definition stored (tr : list public_event) : list PublicPrivilege :=
  foldl (λ r ev, match ev with PubSave record None => record | _ => r end) (dst_RevokedPublicPrivileges st) tr.

(** A call that is justified after the calls [before]. *)
Definition public_ok (before : list public_event) (ev : public_event) : Prop :=
  match ev with
  | PubRevoke obj grantee ps mode _ =>
      ∃ it, it ∈ publicPrivilegeItems ∧ obj = obj_of it ∧ grantee = PublicGrantee ∧ ps = [it_privilege it] ∧
        mode = revokeMode false false ∧ revokeRequested it (ds_PublicPrivileges spec) = true ∧
        publicGrantConflict spec it = false ∧
        (∃ privs g, PubHeld obj (inl (privs, g, true)) ∈ before ∧ it_privilege it ∈ privs) ∧
        (it_field it ∈ dst_RevokedPublicPrivileges st ∨ save = None ∨
          ∃ record, PubSave record None ∈ before ∧ it_field it ∈ record)
  | PubGrant obj grantee ps wgo _ =>
      ∃ it, it ∈ publicPrivilegeItems ∧ obj = obj_of it ∧ grantee = PublicGrantee ∧ ps = [it_privilege it] ∧ wgo = false ∧
        revokeRequested it (ds_PublicPrivileges spec) = false ∧ it_field it ∈ dst_RevokedPublicPrivileges st
  | _ => True
  end.

Fixpoint all_ok (before tr : list public_event) : Prop :=
  match tr with
  | [] => True
  | ev :: tr => public_ok before ev ∧ all_ok (before ++ [ev]) tr
  end.

Lemma all_ok_app before tr1 tr2 : all_ok before (tr1 ++ tr2) ↔ all_ok before tr1 ∧ all_ok (before ++ tr1) tr2.
Proof.
  revert before. induction tr1 as [|ev tr1 IH]; intros before; simpl; [rewrite app_nil_r; naive_solver|].
  rewrite IH, <- app_assoc. naive_solver.
Qed.

Lemma item_by_field it it' : it ∈ publicPrivilegeItems → it' ∈ publicPrivilegeItems → it_field it = it_field it' → it = it'.
Proof. apply NoDup_fmap_elem. apply (bool_decide_unpack _). by vm_compute. Qed.

Definition requested (it : publicPrivilegeItem) : bool := revokeRequested it (ds_PublicPrivileges spec).

(** Why an item may leave the record: the object is gone, PUBLIC holds the
    privilege anyway, or pgop granted it back. *)
Definition given_back (tr : list public_event) (it : publicPrivilegeItem) : Prop :=
  (∃ privs g found, PubHeld (obj_of it) (inl (privs, g, found)) ∈ tr ∧ (found = false ∨ it_privilege it ∈ privs)) ∨
  PubGrant (obj_of it) PublicGrantee [it_privilege it] false None ∈ tr.

Record inv (tr : list public_event) (s : publicState) : Prop := {
  inv_cache : ∀ obj privs found, ps_cache s !! obj = Some (privs, found) → ∃ g, PubHeld obj (inl (privs, g, found)) ∈ tr;
  inv_stored : ∀ f, f ∈ ps_recorded s → f ∈ dst_RevokedPublicPrivileges st ∨ save = None ∨
    ∃ record, PubSave record None ∈ tr ∧ f ∈ record;
  inv_requested : ∀ f, f ∈ ps_recorded s → f ∈ dst_RevokedPublicPrivileges st ∨
    ∃ it, it ∈ publicPrivilegeItems ∧ it_field it = f ∧ requested it = true;
  inv_revoked : ∀ obj grantee ps mode, PubRevoke obj grantee ps mode None ∈ tr →
    ∃ it, it ∈ publicPrivilegeItems ∧ obj = obj_of it ∧ ps = [it_privilege it] ∧ requested it = true ∧ it_field it ∈ ps_recorded s;
  inv_kept : ∀ it, it ∈ publicPrivilegeItems → it_field it ∈ dst_RevokedPublicPrivileges st →
    it_field it ∈ ps_recorded s ∨ requested it = false ∧ given_back tr it }.

(** The invariant only depends on the cache and the record of the state. *)
Lemma inv_conseq tr s s' : inv tr s → ps_recorded s' = ps_recorded s → ps_cache s' = ps_cache s → inv tr s'.
Proof. intros [] Hr Hc. by split; rewrite ?Hr, ?Hc. Qed.

Lemma given_back_app tr rest it : given_back tr it → given_back (tr ++ rest) it.
Proof.
  intros [(privs & g & found & Hin & H)|H]; [left; exists privs, g, found|right]; rewrite elem_of_app; auto.
Qed.

(** Calls other than a successful REVOKE keep it. *)
Lemma inv_app tr new s :
  inv tr s → (∀ obj grantee ps mode, PubRevoke obj grantee ps mode None ∉ new) → inv (tr ++ new) s.
Proof.
  intros [Hc Hs Hr Hv Hk] Hnew. split.
  - intros obj privs found [g ?]%Hc. exists g. apply elem_of_app. by left.
  - intros f [?|[?|(r & ? & ?)]]%Hs; auto. do 2 right. exists r. rewrite elem_of_app. auto.
  - done.
  - intros * [?|?]%elem_of_app; [by eapply Hv|by destruct (Hnew obj grantee ps mode)].
  - intros it Hit [?|[? ?]]%(Hk it Hit); [by left|right]. split; [done|by apply given_back_app].
Qed.

Lemma inv_remove tr it s :
  inv tr s → it ∈ publicPrivilegeItems → requested it = false → given_back tr it →
  inv tr (set_recorded s (ps_recorded s ∖ {[it_field it]})).
Proof.
  intros [Hc Hs Hr Hv Hk] Hit Hnr Hgb. split; simpl.
  - done.
  - intros f [? _]%elem_of_difference. auto.
  - intros f [? _]%elem_of_difference. auto.
  - intros * Hin. destruct (Hv _ _ _ _ Hin) as (it' & ? & ? & ? & Hreq & ?). exists it'. split_and!; [done..|].
    apply elem_of_difference. split; [done|]. intros Heq%elem_of_singleton.
    apply item_by_field in Heq as ->; [|done..]. congruence.
  - intros it' Hit' [?|?]%(Hk it' Hit'); [|by right].
    destruct (decide (it_field it' = it_field it)) as [Heq|]; [|left; set_solver].
    apply item_by_field in Heq as ->; [|done..]. by right.
Qed.

Lemma inv_insert tr it s record :
  inv tr s → it ∈ publicPrivilegeItems → requested it = true →
  save = None ∨ PubSave record None ∈ tr ∧ it_field it ∈ record →
  inv tr (set_recorded s ({[it_field it]} ∪ ps_recorded s)).
Proof.
  intros [Hc Hs Hr Hv Hk] Hit Hreq Hsave. split; simpl.
  - done.
  - intros f [->%elem_of_singleton|?]%elem_of_union; [|auto].
    destruct Hsave as [?|[? ?]]; [auto|]. do 2 right. eauto.
  - intros f [->%elem_of_singleton|?]%elem_of_union; [|auto]. right. eauto.
  - intros * Hin. destruct (Hv _ _ _ _ Hin) as (it' & ? & ? & ? & ? & ?). exists it'. split_and!; [done..|set_solver].
  - intros it' Hit' [?|?]%(Hk it' Hit'); [left; set_solver|by right].
Qed.

Lemma elem_of_recorded_fields it r : it ∈ publicPrivilegeItems → it_field it ∈ r → it_field it ∈ recorded_fields r.
Proof. intros Hit Hr. apply list_elem_of_filter. split; [done|]. by apply list_elem_of_fmap_2. Qed.

(** ** The steps *)

Abbreviation preserves tr0 m := (emits m (λ s' new, all_ok tr0 new ∧ inv (tr0 ++ new) s')).

Lemma publicHolds_emits obj s tr0 :
  inv tr0 s →
  emits (publicHolds lpg obj s) (λ '(r, s') new, all_ok tr0 new ∧ inv (tr0 ++ new) s' ∧
    ps_recorded s' = ps_recorded s ∧
    ∀ privs found, r = inl (privs, found) → ∃ g, PubHeld obj (inl (privs, g, found)) ∈ tr0 ++ new).
Proof.
  intros Hi. unfold publicHolds. destruct (ps_cache s !! obj) as [[privs found]|] eqn:E.
  { apply emits_ret. rewrite app_nil_r. split_and!; [done..|]. intros ? ? [= <- <-]. by apply (inv_cache _ _ Hi). }
  eapply emits_bind; [by apply emits_logged|]. intros r new ->. apply emits_ret. rewrite app_nil_r.
  assert (inv (tr0 ++ [PubHeld obj r]) s) as Hi'.
  { apply inv_app; [done|]. by intros * ?%list_elem_of_singleton. }
  destruct r as [[[privs g] found]|e]; split_and!; try done.
  - destruct Hi' as [Hc Hs Hr Hv Hk]. split; [|done..]. simpl. intros obj' privs' found'.
    intros [[-> [= -> ->]]|[_ ?]]%lookup_insert_Some; [|by apply Hc]. exists g. apply elem_of_app. right. by left.
  - intros ? ? [= <- <-]. exists g. apply elem_of_app. right. by left.
Qed.

Lemma recordIntent_emits it s tr0 :
  inv tr0 s → it ∈ publicPrivilegeItems → requested it = true →
  emits (recordIntent lsave st it s) (λ '(go, s') new, all_ok tr0 new ∧ inv (tr0 ++ new) s' ∧
    (go = true → it_field it ∈ ps_recorded s')).
Proof.
  intros Hi Hit Hreq. unfold recordIntent. case_decide as Hin.
  { apply emits_ret. by rewrite app_nil_r. }
  unfold logged_public_save. destruct save as [f|] eqn:Es; simpl.
  2: { apply emits_ret. rewrite app_nil_r. split_and!; [done| |set_solver]. apply (inv_insert _ _ _ []); auto. }
  set (record := recorded_fields ({[it_field it]} ∪ ps_recorded s)).
  eapply emits_bind; [by apply emits_logged|]. intros e new Hnew. assert (new = [PubSave record e]) as -> by done.
  assert (inv (tr0 ++ [PubSave record e]) s) as Hi'.
  { apply inv_app; [done|]. by intros * ?%list_elem_of_singleton. }
  apply emits_ret. rewrite app_nil_r. destruct e as [e|]; split_and!; try done.
  - eapply inv_conseq; [exact Hi'| |done]. simpl. set_solver.
  - apply (inv_insert _ _ _ record); [done..|]. right. split; [apply elem_of_app; right; by left|].
    apply elem_of_recorded_fields; [done|set_solver].
  - set_solver.
Qed.

Lemma checkStillHeld_emits it s tr0 : inv tr0 s → preserves tr0 (checkStillHeld lpg pgName it s).
Proof.
  intros Hi. unfold checkStillHeld. eapply emits_bind; [by apply emits_logged|]. intros r new ->. apply emits_ret.
  rewrite app_nil_r. split; [done|]. eapply inv_conseq; [apply inv_app; [exact Hi|]| |].
  - by intros * ?%list_elem_of_singleton.
  - by destruct r as [[]|].
  - by destruct r as [[]|].
Qed.

(** A successful REVOKE of a recorded item. *)
Lemma inv_revoke tr it s mode :
  inv tr s → it ∈ publicPrivilegeItems → requested it = true → it_field it ∈ ps_recorded s →
  inv (tr ++ [PubRevoke (obj_of it) PublicGrantee [it_privilege it] mode None]) s.
Proof.
  intros [Hc Hs Hr Hv Hk] Hit Hreq Hrec. split.
  - intros obj privs' found [g' ?]%Hc. exists g'. apply elem_of_app. by left.
  - intros f [?|[?|(r & ? & ?)]]%Hs; auto. do 2 right. exists r. rewrite elem_of_app. auto.
  - done.
  - intros * [?|[= -> -> -> ->]%list_elem_of_singleton]%elem_of_app; [by eapply Hv|]. by exists it.
  - intros it' Hit' [?|[? ?]]%(Hk it' Hit'); [by left|right]. split; [done|by apply given_back_app].
Qed.

(** Why a revoke may be requested now. *)
Definition may_revoke (it : publicPrivilegeItem) : Prop :=
  it ∈ publicPrivilegeItems ∧ requested it = true ∧ publicGrantConflict spec it = false.

Lemma revokePublic_emits it (holds : bool) s tr0 :
  inv tr0 s → may_revoke it →
  (holds = true → ∃ privs g, PubHeld (obj_of it) (inl (privs, g, true)) ∈ tr0 ∧ it_privilege it ∈ privs) →
  preserves tr0 (revokePublic lpg pgName lsave st it holds s).
Proof.
  intros Hi (Hit & Hreq & Hconf) Hh. unfold revokePublic. destruct holds; [|by apply checkStillHeld_emits].
  destruct (Hh eq_refl) as (privs & g & Hheld & Hp). clear Hh.
  eapply emits_bind; [by apply recordIntent_emits|]. intros [go s1] new1 (Hok1 & Hi1 & Hgo).
  destruct go; [|apply emits_ret; by rewrite app_nil_r]. specialize (Hgo eq_refl).
  eapply emits_bind; [by apply emits_logged|]. intros e new ->.
  assert (public_ok (tr0 ++ new1) (PubRevoke (obj_of it) PublicGrantee [it_privilege it] (revokeMode false false) e)) as Hok.
  { exists it. split_and!; try done.
    - exists privs, g. split; [|done]. apply elem_of_app. by left.
    - by apply (inv_stored _ _ Hi1). }
  assert (all_ok tr0 (new1 ++ [PubRevoke (obj_of it) PublicGrantee [it_privilege it] (revokeMode false false) e])) as Hall.
  { by apply all_ok_app. }
  destruct e as [e|].
  - apply emits_ret. rewrite app_nil_r. split; [done|]. rewrite app_assoc. eapply inv_conseq; [apply inv_app; [exact Hi1|]|done..].
    by intros * ?%list_elem_of_singleton.
  - set (ev := PubRevoke _ _ _ _ None) in *.
    assert (inv (tr0 ++ new1 ++ [ev]) s1) as Hi2.
    { rewrite app_assoc. by apply inv_revoke. }
    eapply emits_conseq; [by apply checkStillHeld_emits|]. intros s2 new2 [Hok2 Hi3].
    rewrite <- !app_assoc in *. split; [|done]. change (ev :: new2) with ([ev] ++ new2). rewrite (app_assoc new1). by apply all_ok_app.
Qed.

Lemma restorePublic_emits it (holds : bool) s tr0 :
  inv tr0 s → it ∈ publicPrivilegeItems → requested it = false → it_field it ∈ ps_recorded s →
  (holds = true → ∃ privs g, PubHeld (obj_of it) (inl (privs, g, true)) ∈ tr0 ∧ it_privilege it ∈ privs) →
  preserves tr0 (restorePublic lpg pgName it holds s).
Proof.
  intros Hi Hit Hreq Hrec Hh. unfold restorePublic. destruct holds; simpl.
  - apply emits_ret. rewrite app_nil_r. split; [done|]. apply inv_remove; [done..|].
    destruct (Hh eq_refl) as (privs & g & ? & ?). left. exists privs, g, true. auto.
  - eapply emits_bind; [by apply emits_logged|]. intros e new ->. apply emits_ret. rewrite app_nil_r.
    assert (public_ok tr0 (PubGrant (obj_of it) PublicGrantee [it_privilege it] false e)) as Hok.
    { exists it. split_and!; try done. destruct (inv_requested _ _ Hi _ Hrec) as [?|(it' & Hit' & Heq & Hreq')]; [done|].
      apply item_by_field in Heq as ->; [congruence|done..]. }
    split; [done|].
    assert (inv (tr0 ++ [PubGrant (obj_of it) PublicGrantee [it_privilege it] false e]) s) as Hi'.
    { apply inv_app; [done|]. by intros * ?%list_elem_of_singleton. }
    destruct e as [e|]; [by eapply inv_conseq|]. apply inv_remove; [done..|]. right. apply elem_of_app. right. by left.
Qed.

Lemma publicItem_emits it s tr0 :
  inv tr0 s → it ∈ publicPrivilegeItems →
  emits (publicItem lpg spec pgName lsave st it s) (λ '(_, s') new, all_ok tr0 new ∧ inv (tr0 ++ new) s').
Proof.
  intros Hi Hit. unfold publicItem. fold (requested it).
  destruct (requested it && publicGrantConflict spec it) eqn:Ec.
  { apply emits_ret. rewrite app_nil_r. by split; [|eapply inv_conseq]. }
  destruct (negb (requested it) && bool_decide (it_field it ∉ ps_recorded s)) eqn:En.
  { apply emits_ret. by rewrite app_nil_r. }
  eapply emits_bind; [by apply publicHolds_emits|]. intros [h s1] new1 (Hok1 & Hi1 & Hrec & Hh).
  destruct h as [[privs found]|e]; [|apply emits_ret; by rewrite app_nil_r].
  destruct (Hh privs found eq_refl) as [g Hheld].
  assert (requested it = false → it_field it ∈ ps_recorded s1) as Hnr.
  { intros Hr. rewrite Hr in En. apply bool_decide_eq_false in En. rewrite Hrec. by apply dec_stable. }
  destruct found.
  - assert (preserves (tr0 ++ new1) (if requested it then revokePublic lpg pgName lsave st it (slices_Contains privs (it_privilege it)) s1
        else restorePublic lpg pgName it (slices_Contains privs (it_privilege it)) s1)) as Hstep.
    { assert (slices_Contains privs (it_privilege it) = true →
        ∃ privs g, PubHeld (obj_of it) (inl (privs, g, true)) ∈ tr0 ++ new1 ∧ it_privilege it ∈ privs) as Hh'.
      { intros Hc%slices_Contains_true. by exists privs, g. }
      destruct (requested it) eqn:Er; simpl in Ec.
      - by apply revokePublic_emits; [|split_and!|].
      - by apply restorePublic_emits; auto. }
    eapply emits_bind; [exact Hstep|]. intros s2 new2 [Hok2 Hi2]. apply emits_ret. rewrite app_nil_r.
    split; [by apply all_ok_app|]. by rewrite app_assoc.
  - apply emits_ret. rewrite app_nil_r. split; [done|]. destruct (requested it) eqn:Er; [done|].
    apply inv_remove; [done..|]. left. exists privs, g, false. auto.
Qed.

Lemma publicLoop_emits items kind s tr0 :
  inv tr0 s → (∀ it, it ∈ items → it ∈ publicPrivilegeItems) →
  emits (publicLoop lpg spec pgName lsave st items kind s) (λ '(_, s') new, all_ok tr0 new ∧ inv (tr0 ++ new) s').
Proof.
  revert s tr0. induction items as [|it its IH]; intros s tr0 Hi Hin; simpl.
  { apply emits_ret. by rewrite app_nil_r. }
  case_decide; [|apply IH; [done|]; intros; apply Hin; by right].
  eapply emits_bind; [apply publicItem_emits; [done|apply Hin; by left]|]. intros [e s1] new1 [Hok1 Hi1].
  destruct e as [e|]; [apply emits_ret; by rewrite app_nil_r|].
  eapply emits_conseq; [apply (IH s1 (tr0 ++ new1)); [done|]; intros; apply Hin; by right|].
  intros [e s2] new2 [Hok2 Hi2]. rewrite app_assoc. split; [by apply all_ok_app|done].
Qed.

Lemma inv_start : inv [] {| ps_recorded := list_to_set (dst_RevokedPublicPrivileges st); ps_cache := ∅; ps_conflicts := [];
  ps_stillHeld := []; ps_errs := [] |}.
Proof.
  split; simpl.
  - done.
  - intros f ?%elem_of_list_to_set. by left.
  - intros f ?%elem_of_list_to_set. by left.
  - by intros * ?%elem_of_nil.
  - intros it _ ?. left. by apply elem_of_list_to_set.
Qed.

Lemma reconcilePublicPrivileges_emits kind :
  emits (reconcilePublicPrivileges lpg spec pgName lsave st kind) (λ '(_, st') new,
    all_ok [] new ∧ ∃ s, inv new s ∧ dst_RevokedPublicPrivileges st' = recorded_fields (ps_recorded s)).
Proof.
  unfold reconcilePublicPrivileges.
  eapply emits_bind; [apply (publicLoop_emits _ _ _ []); [apply inv_start|done]|]. intros [e s] new [Hok Hi].
  apply emits_ret. rewrite app_nil_r. split; [done|]. by exists s.
Qed.

Lemma all_ok_split before pre ev post : all_ok before (pre ++ ev :: post) → public_ok (before ++ pre) ev.
Proof. rewrite all_ok_app. by intros [_ [? _]]. Qed.
End trace.

(** C27: pgop gives back to PUBLIC exactly what it took. A privilege is revoked from
    PUBLIC only when the spec asks for it and grants it nowhere, when the server
    reported that PUBLIC holds it, and after the status recording it was saved (or
    it was recorded before); a privilege is granted to PUBLIC only when the status
    recorded it and the spec no longer asks for the revoke; what was revoked is in
    the new status; and an item leaves the status only when the spec no longer asks
    for the revoke and the object is gone, PUBLIC holds the privilege anyway, or
    the GRANT back to PUBLIC succeeded. *)
Theorem public_privileges_remembered {W} (pg : publicPrivilegeClient W) spec pgName save st kind w err st' w' tr :
  reconcilePublicPrivileges (logged_public_client pg) spec pgName (logged_public_save save) st kind (w, []) = ((err, st'), (w', tr)) →
  (∀ pre ev post, tr = pre ++ ev :: post → public_ok spec pgName save st pre ev) ∧
  (∀ obj grantee ps mode, PubRevoke obj grantee ps mode None ∈ tr →
    ∃ it, it ∈ publicPrivilegeItems ∧ obj = publicObject pgName it ∧ ps = [it_privilege it] ∧
      it_field it ∈ dst_RevokedPublicPrivileges st') ∧
  (∀ it, it ∈ publicPrivilegeItems → it_field it ∈ dst_RevokedPublicPrivileges st →
    it_field it ∈ dst_RevokedPublicPrivileges st' ∨
    revokeRequested it (ds_PublicPrivileges spec) = false ∧ given_back pgName tr it).
Proof.
  intros Hrun.
  destruct (emits_run _ _ _ _ _ _ _ (reconcilePublicPrivileges_emits pg spec pgName save st kind) Hrun)
    as [_ (Hok & s & Hi & ->)]. split_and!.
  - intros pre ev post ->. by apply (all_ok_split _ _ _ _ [] pre ev post).
  - intros * Hin. destruct (inv_revoked _ _ _ _ _ _ Hi _ _ _ _ Hin) as (it & Hit & -> & -> & _ & Hrec).
    exists it. split_and!; [done..|]. by apply elem_of_recorded_fields.
  - intros it Hit Hrec. destruct (inv_kept _ _ _ _ _ _ Hi it Hit Hrec) as [?|[? ?]]; [left|by right].
    by apply elem_of_recorded_fields.
Qed.

(** PUBLIC holds CONNECT, which the spec turns off; TEMPORARY was revoked earlier
    and is no longer asked for. *)
Module ToyPublic.
Definition client : publicPrivilegeClient (gset string) :=
  {| ppc_executor :=
       {| HeldPrivileges := λ _ _ w, (inl (elements w, [], true), w);
          GrantPrivileges := λ _ _ ps _ w, (None, list_to_set ps ∪ w);
          RevokePrivileges := λ _ _ ps _ w, (None, w ∖ list_to_set ps) |};
     ppc_HeldFromAnyGrantor := λ _ _ p w, (inl (bool_decide (p ∈ w)), w) |}.

Definition spec : DatabaseSpec :=
  {| ds_ClusterRef := "c"; ds_DatabaseName := ""; ds_Owner := ""; ds_Extensions := []; ds_Schemas := []; ds_Grants := [];
     ds_Settings := ∅;
     ds_PublicPrivileges := Some {| pp_Connect := Some false; pp_Temporary := None; pp_PublicSchemaUsage := None;
       pp_PublicSchemaCreate := None |} |}.

Definition status : DatabaseStatus :=
  {| dst_Ready := true; dst_DatabaseName := "db"; dst_ClusterUID := "u"; dst_InstalledExtensions := []; dst_Extensions := [];
     dst_ManagedExtensionGrants := []; dst_CreatedSchemas := []; dst_ManagedGrants := []; dst_ManagedSchemaGrants := [];
     dst_ManagedObjectGrants := []; dst_ManagedDefaultPrivileges := []; dst_ObjectGrants := [];
     dst_RevokedPublicPrivileges := [PublicPrivilegeTemporary]; dst_ManagedSettings := [];
     dst_Conditions := [] |}.

Definition save : statusSaver (gset string) DatabaseStatus := Some (λ _, mret None).
Definition run := reconcilePublicPrivileges (logged_public_client client) spec "db" (logged_public_save save) status ObjectDatabase
  ({["CONNECT"]}, []).
Definition db : PrivilegeObject := {| po_Kind := ObjectDatabase; po_Name := "db" |}.
End ToyPublic.

Lemma public_privileges_remembered_witness :
  let tr := ToyPublic.run.2.2 in
  dst_RevokedPublicPrivileges ToyPublic.run.1.2 = [PublicPrivilegeConnect] ∧
  PubRevoke ToyPublic.db PublicGrantee ["CONNECT"] (revokeMode false false) None ∈ tr ∧
  (∃ it, it ∈ publicPrivilegeItems ∧ ToyPublic.db = publicObject "db" it ∧ ["CONNECT"] = [it_privilege it] ∧
    it_field it ∈ dst_RevokedPublicPrivileges ToyPublic.run.1.2) ∧
  PubGrant ToyPublic.db PublicGrantee ["TEMPORARY"] false None ∈ tr.
Proof.
  intros tr.
  assert (PubRevoke ToyPublic.db PublicGrantee ["CONNECT"] (revokeMode false false) None ∈ tr) as H by (vm_compute; repeat constructor).
  split_and!; [by vm_compute|exact H| |vm_compute; repeat constructor].
  eapply (public_privileges_remembered ToyPublic.client ToyPublic.spec "db" ToyPublic.save ToyPublic.status ObjectDatabase
    {["CONNECT"]} ToyPublic.run.1.1 ToyPublic.run.1.2 ToyPublic.run.2.1 tr); [|exact H].
  exact (run_split2 ToyPublic.run).
Defined.
