(* ===== verification/Extensions.v ===== *)
(** * Installation of extensions (src/internal/controller/database_extensions.go)

    [reconcileExtensions] installs, updates and drops the extensions of a Database. The
    server is the record [extensionInstallClient]; [fuel] bounds the number of distinct
    extensions that [dependencies] follows, and ExtensionTheorems proves that the number
    of extensions the server knows is enough. *)

From Stdlib Require Import Ascii.
From S2P Require Import Prelude GoStrings GoStrconv Privileges Parameters RoleSql ApiTypes RolePolicy GrantEngine.
From S2P Require Import GranteePolicy Grants Objects ObjectGrants PublicPrivileges ExtensionSql.

Definition ReasonExtensionNotAllowed : string := "ExtensionNotAllowed".
Definition ReasonExtensionVersionNotAvailable : string := "ExtensionVersionNotAvailable".
Definition ReasonExtensionDowngradeNotAllowed : string := "ExtensionDowngradeNotAllowed".
Definition ReasonExtensionDependencyMissing : string := "ExtensionDependencyMissing".
Definition ReasonExtensionSchemaNotAllowed : string := "ExtensionSchemaNotAllowed".
Definition ReasonExtensionSchemaMismatch : string := "ExtensionSchemaMismatch".
Definition ReasonExtensionNotManaged : string := "ExtensionNotManaged".
Definition ReasonExtensionDropBlocked : string := "ExtensionDropBlocked".
Definition pgDatabaseOwnerRole : string := "pg_database_owner".
Definition extensionStatusLimit : nat := 128.

(** ** Versions *)

(** [strconv.ParseUint] in base 10 with 64 bits. *)
Definition ParseUint64 (s : string) : option Z :=
  if bool_decide (s = "") || negb (sforall is_digit s) then None
  else if bool_decide (parse_digits 0 s < 2 ^ 64)%Z then Some (parse_digits 0 s) else None.

Definition numericVersion (v : string) : option (list Z) :=
  if decide (v = "") then None else mapM ParseUint64 (Split v "."%char).

Fixpoint compare_numbers (n : nat) (pa pb : list Z) : Z :=
  match n with
  | O => 0
  | S n =>
      let '(x, y) := (default 0 (head pa), default 0 (head pb)) in
      if bool_decide (x < y) then -1
      else if bool_decide (y < x) then 1
      else compare_numbers n (tail pa) (tail pb)
  end%Z.

(** [None]: one of the versions is not numeric. *)
Definition compareExtensionVersions (a b : string) : option Z :=
  match numericVersion a, numericVersion b with
  | Some pa, Some pb => Some (compare_numbers (length pa `max` length pb) pa pb)
  | _, _ => None
  end.

Definition versionLabel (version : string) : string :=
  if decide (version = "") then "its default version" else "version " +:+ version.

Definition uniqueSorted (s : list string) : list string := slices_Compact (slices_Sort s).
Definition extensionNames (exts : list ExtensionVersionInfo) : list string := ev_Name <$> exts.

(** ** Schemas that a superuser's script may run in *)

Definition extensionSchemaProblem (name : string) (w : SchemaWriters) (dbOwner : string) (dbOwnerSuper managed strict : bool)
    : option string :=
  let '(owner, ownerSuper) := if decide (sw_Owner w = pgDatabaseOwnerRole) then (dbOwner, dbOwnerSuper)
                              else (sw_Owner w, sw_OwnerSuperuser w) in
  let owned :=
    if strict then
      if ownerSuper then [] else
        ["is owned by " +:+ owner +:+ ", which is not a superuser (an extension the server does not mark trusted may only be "
           +:+ "installed in a schema only superusers can write to)"]
    else if negb ownerSuper && negb (bool_decide (owner = dbOwner)) && negb managed then
      ["is owned by " +:+ owner +:+ ", which is neither a superuser nor the database owner, and the Database does not manage it"]
    else [] in
  let creators := if strict then sw_Creators w else filter (.≠ dbOwner) (sw_Creators w) in
  let problems := owned ++ match creators with
                           | [] => []
                           | _ => [Join creators ", " +:+ " can create objects in it"]
                           end in
  match problems with
  | [] => None
  | _ => Some ("schema " +:+ name +:+ ", which " +:+ Join problems " and ")
  end.

(** ** Status entries *)

Definition no_extension (name : string) (dropOnRemoval created : bool) (oid : Z) (owner : string) : ExtensionStatus :=
  {| est_Name := name; est_Version := ""; est_Schema := ""; est_Created := created; est_OID := oid; est_Owner := owner;
     est_DropOnRemoval := dropOnRemoval; est_Reason := ""; est_Message := ""; est_SkippedObjects := 0 |}.

Definition with_creation (st : ExtensionStatus) (created : bool) (oid : Z) (owner : string) : ExtensionStatus :=
  {| est_Name := est_Name st; est_Version := est_Version st; est_Schema := est_Schema st; est_Created := created;
     est_OID := oid; est_Owner := owner; est_DropOnRemoval := est_DropOnRemoval st; est_Reason := est_Reason st;
     est_Message := est_Message st; est_SkippedObjects := est_SkippedObjects st |}.

Definition with_reason (st : ExtensionStatus) (reason message : string) : ExtensionStatus :=
  {| est_Name := est_Name st; est_Version := est_Version st; est_Schema := est_Schema st; est_Created := est_Created st;
     est_OID := est_OID st; est_Owner := est_Owner st; est_DropOnRemoval := est_DropOnRemoval st; est_Reason := reason;
     est_Message := message; est_SkippedObjects := est_SkippedObjects st |}.

Definition with_installed (st : ExtensionStatus) (version schema : string) : ExtensionStatus :=
  {| est_Name := est_Name st; est_Version := version; est_Schema := schema; est_Created := est_Created st;
     est_OID := est_OID st; est_Owner := est_Owner st; est_DropOnRemoval := est_DropOnRemoval st; est_Reason := est_Reason st;
     est_Message := est_Message st; est_SkippedObjects := est_SkippedObjects st |}.

Definition set_Extensions (st : DatabaseStatus) (v : list ExtensionStatus) : DatabaseStatus :=
  {| dst_Ready := dst_Ready st; dst_DatabaseName := dst_DatabaseName st; dst_ClusterUID := dst_ClusterUID st;
     dst_InstalledExtensions := dst_InstalledExtensions st; dst_Extensions := v;
     dst_ManagedExtensionGrants := dst_ManagedExtensionGrants st; dst_CreatedSchemas := dst_CreatedSchemas st;
     dst_ManagedGrants := dst_ManagedGrants st; dst_ManagedSchemaGrants := dst_ManagedSchemaGrants st;
     dst_ManagedObjectGrants := dst_ManagedObjectGrants st; dst_ManagedDefaultPrivileges := dst_ManagedDefaultPrivileges st;
     dst_ObjectGrants := dst_ObjectGrants st; dst_RevokedPublicPrivileges := dst_RevokedPublicPrivileges st;
     dst_ManagedSettings := dst_ManagedSettings st; dst_Conditions := dst_Conditions st |}.

Definition set_InstalledExtensions (st : DatabaseStatus) (v : list string) : DatabaseStatus :=
  {| dst_Ready := dst_Ready st; dst_DatabaseName := dst_DatabaseName st; dst_ClusterUID := dst_ClusterUID st;
     dst_InstalledExtensions := v; dst_Extensions := dst_Extensions st;
     dst_ManagedExtensionGrants := dst_ManagedExtensionGrants st; dst_CreatedSchemas := dst_CreatedSchemas st;
     dst_ManagedGrants := dst_ManagedGrants st; dst_ManagedSchemaGrants := dst_ManagedSchemaGrants st;
     dst_ManagedObjectGrants := dst_ManagedObjectGrants st; dst_ManagedDefaultPrivileges := dst_ManagedDefaultPrivileges st;
     dst_ObjectGrants := dst_ObjectGrants st; dst_RevokedPublicPrivileges := dst_RevokedPublicPrivileges st;
     dst_ManagedSettings := dst_ManagedSettings st; dst_Conditions := dst_Conditions st |}.

(** ** The server *)

Record extensionInstallClient (W : Type) := {
  xc_ExtensionVersion : string → string → M W (result (option ExtensionVersionInfo));
  xc_InstalledExtension : string → M W (result (option InstalledExtension));
  xc_ExtensionUpdatePaths : string → string → string → M W (result (list (list string)));
  xc_SchemaWriters : string → M W (result SchemaWriters);
  xc_CurrentDatabaseOwner : M W (result string);
  xc_LookupRole : string → M W (result (option ReachableRole));
  xc_CreateSchema : string → string → M W error;
  xc_CreateExtension : string → string → string → bool → M W error;
  xc_UpdateExtension : string → string → M W error;
  xc_DropExtension : string → M W error }.
Arguments xc_ExtensionVersion {W}. Arguments xc_InstalledExtension {W}. Arguments xc_ExtensionUpdatePaths {W}.
Arguments xc_SchemaWriters {W}. Arguments xc_CurrentDatabaseOwner {W}. Arguments xc_LookupRole {W}.
Arguments xc_CreateSchema {W}. Arguments xc_CreateExtension {W}. Arguments xc_UpdateExtension {W}.
Arguments xc_DropExtension {W}.

(** Go's [if err != nil { return err }]: [F] is what a failure returns. *)
Definition ebind {W A B F} (m : M W (A + F)) (k : A → M W (B + F)) : M W (B + F) :=
  r ← m; match r with inl x => k x | inr e => mret (inr e) end.
Notation "x ⇐ m ; k" := (ebind m (λ x, k)) (at level 20, m at level 100, k at level 200) : go_scope.
Notation "' x ⇐ m ; k" := (ebind m (λ y, match y with x => k end))
  (at level 20, x pattern, m at level 100, k at level 200) : go_scope.

(** A failure of a step on one extension: the error and the status entry it leaves. *)
Abbreviation step A := (sum A (gerr * ExtensionStatus)).

Definition failing {W A} (st : ExtensionStatus) (m : M W (result A)) : M W (step A) :=
  r ← m; mret (match r with inl x => inl x | inr e => inr (e, st) end).

Definition errObjectExists : string := "the object already exists".

(** What one reconcile keeps: the working copy of status.extensions, and the status. *)
Record run_state := { run_cur : gmap string ExtensionStatus; run_db : DatabaseStatus }.

Record extension_result := {
  xr_inst : option InstalledExtension;
  xr_err : error;
  xr_st : ExtensionStatus;
  xr_run : run_state }.

Record installPlan := {
  pl_info : ExtensionVersionInfo;
  pl_installedDeps : list InstalledExtension;
  pl_toInstall : list ExtensionVersionInfo;
  pl_strict : bool }.

Section run.
Context `{UnicodePrint} `{ErrorText} {W : Type} (pg : extensionInstallClient W) (fuel : nat).
Context (p : policy) (managedSchemas specSchemas listed : gset string) (dbOwner : string) (dbOwnerSuper : bool).
Context (save : statusSaver W DatabaseStatus).

(** Records a refusal in [st]. *)
Definition refuse (st : ExtensionStatus) (reason fmt : string) (args : list string) : gerr * ExtensionStatus :=
  let err := CondErr reason (Errorf ("extension %s: " +:+ fmt) (est_Name st :: args)) in
  (err, with_reason st reason (error_text err)).

(** Whether the policy allows the extension as it is installed, and whether that version is trusted. *)
Definition allowedAsInstalled (inst : InstalledExtension) : M W (result (bool * bool)) :=
  info ⇐ xc_ExtensionVersion pg (ie_Name inst) (ie_Version inst);
  let trusted := match info with Some i => ev_Trusted i | None => false end in
  mret (inl (trusted || AllowsExtension p (ie_Name inst), trusted)).

(** *** Dependencies *)

Record deps := { dp_installed : list InstalledExtension; dp_toInstall : list ExtensionVersionInfo; dp_unavailable : list string }.

Definition no_deps : deps := {| dp_installed := []; dp_toInstall := []; dp_unavailable := [] |}.

(** The first name of the queue that was not seen, and the rest. *)
Fixpoint next_unseen (queue : list string) (seen : gset string) : option (string * list string) :=
  match queue with
  | [] => None
  | name :: rest => if decide (name ∈ seen) then next_unseen rest seen else Some (name, rest)
  end.

Definition errFuel : gerr := Errorf "more dependencies than fuel" [].

Fixpoint dependencies_go (n : nat) (queue : list string) (seen : gset string) (d : deps) : M W (result deps) :=
  match next_unseen queue seen with
  | None => mret (inl d)
  | Some (name, queue) =>
      match n with
      | O => mret (inr errFuel)
      | S n =>
          let seen := {[name]} ∪ seen in
          inst ⇐ xc_InstalledExtension pg name;
          match inst with
          | Some i => dependencies_go n queue seen {| dp_installed := dp_installed d ++ [i]; dp_toInstall := dp_toInstall d;
                                                     dp_unavailable := dp_unavailable d |}
          | None =>
              dep ⇐ xc_ExtensionVersion pg name "";
              match dep with
              | None => dependencies_go n queue seen {| dp_installed := dp_installed d; dp_toInstall := dp_toInstall d;
                                                       dp_unavailable := dp_unavailable d ++ [name] |}
              | Some dep => dependencies_go n (queue ++ ev_Requires dep) seen
                              {| dp_installed := dp_installed d; dp_toInstall := dp_toInstall d ++ [dep];
                                 dp_unavailable := dp_unavailable d |}
              end
          end
      end
  end.

Definition dependencies (info : ExtensionVersionInfo) : M W (result deps) :=
  dependencies_go fuel (ev_Requires info) {[ev_Name info]} no_deps.

(** *** Versions whose scripts may run *)

Fixpoint installable_paths (name : string) (paths : list (list string)) : M W (result (list string)) :=
  match paths with
  | [] => mret (inl [])
  | path :: rest =>
      found ⇐ xc_ExtensionVersion pg name (default "" (head path));
      vs ⇐ installable_paths name rest;
      mret (inl (match found with Some _ => path | None => [] end ++ vs))
  end.

Definition installVersions (name version : string) : M W (result (list string)) :=
  paths ⇐ xc_ExtensionUpdatePaths pg name "" version;
  vs ⇐ installable_paths name paths;
  mret (inl (uniqueSorted (version :: vs))).

Fixpoint untrustedVersions (name : string) (versions : list string) : M W (result (list string)) :=
  match versions with
  | [] => mret (inl [])
  | v :: rest =>
      info ⇐ xc_ExtensionVersion pg name v;
      bad ⇐ untrustedVersions name rest;
      let trusted := match info with Some i => ev_Trusted i | None => false end in
      mret (inl (if trusted then bad else v :: bad))
  end.

(** The problem, and whether a script is not trusted. *)
Definition checkVersions (name : string) (versions : list string) : M W (result (option string * bool)) :=
  bad ⇐ untrustedVersions name versions;
  match bad with
  | [] => mret (inl (None, false))
  | _ =>
      if AllowsExtension p name then mret (inl (None, true))
      else mret (inl (Some (name +:+ " version(s) " +:+ Join bad ", " +:+ ", whose scripts it would run, are neither trusted by "
                              +:+ "the server nor allowed by the Cluster's spec.rolePolicy.allowedExtensions"), true))
  end.

(** *** The plan *)

Fixpoint checkDependencies (deps : list ExtensionVersionInfo) : M W (result (list string * bool)) :=
  match deps with
  | [] => mret (inl ([], false))
  | dep :: rest =>
      versions ⇐ installVersions (ev_Name dep) (ev_Version dep);
      '(problem, untrusted) ⇐ checkVersions (ev_Name dep) versions;
      '(refused, strict) ⇐ checkDependencies rest;
      mret (inl (option_list problem ++ refused, untrusted || strict))
  end.

Definition planCreate (ext : ExtensionSpec) (st : ExtensionStatus) : M W (step installPlan) :=
  found ⇐ failing st (xc_ExtensionVersion pg (es_Name ext) (es_Version ext));
  match found with
  | None => mret (inr (refuse st ReasonExtensionVersionNotAvailable
                         "%s is not available on the server (its files are not in the image)" [versionLabel (es_Version ext)]))
  | Some info =>
      versions ⇐ failing st (installVersions (es_Name ext) (ev_Version info));
      '(problem, strict) ⇐ failing st (checkVersions (es_Name ext) versions);
      match problem with
      | Some problem => mret (inr (refuse st ReasonExtensionNotAllowed "not installed: %s" [problem]))
      | None =>
          d ⇐ failing st (dependencies info);
          if negb (bool_decide (dp_unavailable d = [])) then
            mret (inr (refuse st ReasonExtensionVersionNotAvailable "requires %s, which the server does not have"
                         [Join (dp_unavailable d) ", "]))
          else if negb (bool_decide (extensionNames (dp_toInstall d) = [])) && negb (es_Cascade ext) then
            mret (inr (refuse st ReasonExtensionDependencyMissing
                         "requires %s, which is not installed: list it before this extension, or set cascade: true"
                         [Join (extensionNames (dp_toInstall d)) ", "]))
          else
            '(refused, untrusted) ⇐ failing st (checkDependencies (dp_toInstall d));
            match refused with
            | [] => mret (inl {| pl_info := info; pl_installedDeps := dp_installed d; pl_toInstall := dp_toInstall d;
                                 pl_strict := strict || untrusted |})
            | _ => mret (inr (refuse st ReasonExtensionNotAllowed
                     "cascade would install dependencies the policy does not allow, nothing was installed: %s" [Join refused "; "]))
            end
      end
  end.

(** *** Schemas *)

(** The problem, and whether the schema is missing. *)
Definition schemaProblem (name : string) (strict : bool) : M W (result (option string * bool)) :=
  w ⇐ xc_SchemaWriters pg name;
  mret (inl (if negb (sw_Exists w) then (None, true)
             else (extensionSchemaProblem name w dbOwner dbOwnerSuper (bool_decide (name ∈ managedSchemas)) strict, false))).

(** The loop over the schemas of an install: those to create, and the problems. *)
Fixpoint installSchemas (may_create : string → bool) (strict : bool) (schemas : list string)
    : M W (result (list string * list string)) :=
  match schemas with
  | [] => mret (inl ([], []))
  | s :: rest =>
      '(problem, missing) ⇐ schemaProblem s strict;
      '(toCreate, problems) ⇐ installSchemas may_create strict rest;
      mret (inl (if missing && may_create s then (s :: toCreate, problems)
                 else if missing then (toCreate, ("schema " +:+ s +:+ " does not exist") :: problems)
                 else (toCreate, option_list problem ++ problems)))
  end.

(** Where a dependency goes: the schema of its control file, the extension's, or public. *)
Definition dependency_schema (ext : ExtensionSpec) (dep : ExtensionVersionInfo) : string :=
  if decide (ev_Schema dep = "") then if decide (es_Schema ext = "") then publicSchemaName else es_Schema ext
  else ev_Schema dep.

Definition target_schema (ext : ExtensionSpec) (info : ExtensionVersionInfo) : string :=
  if decide (ev_Schema info = "") then if decide (es_Schema ext = "") then publicSchemaName else es_Schema ext
  else ev_Schema info.

Definition plan_schemas (ext : ExtensionSpec) (plan : installPlan) : list string :=
  uniqueSorted (target_schema ext (pl_info plan) :: (dependency_schema ext <$> pl_toInstall plan)
                  ++ (ie_Schema <$> pl_installedDeps plan)).

(** Schemas that a control file names, or that the spec asks for without listing them. *)
Definition may_create (ext : ExtensionSpec) (plan : installPlan) (s : string) : bool :=
  (negb (bool_decide (s = "")) && bool_decide (s ∈ ev_Schema (pl_info plan) :: (ev_Schema <$> pl_toInstall plan)))
    || (bool_decide (s = es_Schema ext) && negb (bool_decide (s ∈ specSchemas))).

Definition checkInstallSchemas (ext : ExtensionSpec) (st : ExtensionStatus) (plan : installPlan) : M W (step (list string)) :=
  if decide (ev_Schema (pl_info plan) ≠ "" ∧ es_Schema ext ≠ "" ∧ es_Schema ext ≠ ev_Schema (pl_info plan)) then
    mret (inr (refuse st ReasonExtensionSchemaNotAllowed "its control file installs it in schema %s, not %s"
                 [ev_Schema (pl_info plan); es_Schema ext]))
  else
    '(toCreate, problems) ⇐ failing st (installSchemas (may_create ext plan) (pl_strict plan) (plan_schemas ext plan));
    mret (match problems with
          | [] => inl toCreate
          | _ => inr (refuse st ReasonExtensionSchemaNotAllowed
                        "not installed: its install script would run as a superuser in %s" [Join problems "; "])
          end).

Fixpoint createSchemas (ext : ExtensionSpec) (st : ExtensionStatus) (schemas : list string) (strict : bool) : M W (step ()) :=
  match schemas with
  | [] => mret (inl ())
  | s :: rest =>
      e ← xc_CreateSchema pg s "";
      match e with
      | None => createSchemas ext st rest strict
      | Some err =>
          if negb (errors_Is errObjectExists err) then
            mret (inr (Wrapf "extension %s: creating schema %s: %w" [es_Name ext; s] err, st))
          else
            '(problem, missing) ⇐ failing st (schemaProblem s strict);
            let problem := if missing then Some ("schema " +:+ s +:+ ", which was created and dropped while pgop was creating it")
                           else problem in
            match problem with
            | Some problem => mret (inr (refuse st ReasonExtensionSchemaNotAllowed
                ("not installed: someone created its schema while pgop was creating it, and its install script would run as a "
                   +:+ "superuser in %s") [problem]))
            | None => createSchemas ext st rest strict
            end
      end
  end.

(** *** The intent record *)

(** The entries to keep: the spec's, then the removed ones pgop has to drop, within the limit. *)
Definition record_entries (cur : gmap string ExtensionStatus) : list ExtensionStatus :=
  let names := sorted_keys cur in
  let record := omap (λ n, if decide (n ∈ listed) then cur !! n else None) names in
  let removed := omap (λ n, if decide (n ∈ listed) then None
                            else e ← cur !! n; if est_Created e && est_DropOnRemoval e then Some e else None) names in
  record ++ take (extensionStatusLimit - length record) removed.

Definition persist_entry (r : run_state) (st : ExtensionStatus) : M W (error * run_state) :=
  let cur := <[est_Name st := st]> (run_cur r) in
  match save with
  | None => mret (None, {| run_cur := cur; run_db := run_db r |})
  | Some f =>
      let db := set_Extensions (run_db r) (record_entries cur) in
      e ← f db;
      mret (e, {| run_cur := cur; run_db := match e with Some _ => run_db r | None => db end |})
  end.

(** *** One extension *)

Definition stopped (st : ExtensionStatus) (r : run_state) (inst : option InstalledExtension) (e : error) : extension_result :=
  {| xr_inst := inst; xr_err := e; xr_st := st; xr_run := r |}.

(** CREATE EXTENSION, once the plan and the schemas are accepted. *)
Definition createPlanned (ext : ExtensionSpec) (st : ExtensionStatus) (r : run_state) : M W extension_result :=
  let st := with_creation st true (est_OID st) (est_Owner st) in
  '(e, r) ← persist_entry r st;
  match e with
  | Some e => mret (stopped (with_creation st false (est_OID st) (est_Owner st)) r None (Some (Wrapf
      "extension %s: recording the extension pgop is about to create failed, nothing was created: %w" [es_Name ext] e)))
  | None =>
      e ← xc_CreateExtension pg (es_Name ext) (es_Schema ext) (es_Version ext) (es_Cascade ext);
      match e with
      | Some err =>
          let st := with_creation st false (est_OID st) (est_Owner st) in
          if errors_Is errObjectExists err then
            i ← xc_InstalledExtension pg (es_Name ext);
            let '(refusal, st) := refuse st ReasonExtensionNotManaged
              "was created by someone else while pgop was creating it; it is not recorded as created by pgop" [] in
            mret (stopped st r (match i with inl i => i | inr _ => None end)
                    (errors_Join [match i with inl _ => None | inr e => Some e end; Some refusal]))
          else mret (stopped st r None (Some err))
      | None =>
          i ← xc_InstalledExtension pg (es_Name ext);
          mret (match i with
                | inr e => stopped st r None (Some e)
                | inl None => stopped st r None None
                | inl (Some inst) => stopped (with_creation st true (ie_OID inst) (ie_Owner inst)) r (Some inst) None
                end)
      end
  end.

Definition create_extension (ext : ExtensionSpec) (st : ExtensionStatus) (r : run_state) : M W extension_result :=
  let st := with_creation st false 0 "" in
  plan ← planCreate ext st;
  match plan with
  | inr (e, st) => mret (stopped st r None (Some e))
  | inl plan =>
      c ← checkInstallSchemas ext st plan;
      match c with
      | inr (e, st) => mret (stopped st r None (Some e))
      | inl toCreate =>
          s ← createSchemas ext st toCreate (pl_strict plan);
          match s with
          | inr (e, st) => mret (stopped st r None (Some e))
          | inl _ => createPlanned ext st r
          end
      end
  end.

(** The loop over the schemas of an update. *)
Fixpoint updateSchemas (strict : bool) (schemas : list string) : M W (result (list string)) :=
  match schemas with
  | [] => mret (inl [])
  | s :: rest =>
      '(problem, missing) ⇐ schemaProblem s strict;
      problems ⇐ updateSchemas strict rest;
      mret (inl (option_list (if missing then Some ("schema " +:+ s +:+ " does not exist") else problem) ++ problems))
  end.

(** Whether the update may run. *)
Definition planUpdate (ext : ExtensionSpec) (inst : InstalledExtension) (st : ExtensionStatus) : M W (step ()) :=
  if bool_decide (compareExtensionVersions (es_Version ext) (ie_Version inst) = Some (-1)%Z) then
    mret (inr (refuse st ReasonExtensionDowngradeNotAllowed "installed at version %s; pgop does not downgrade to %s"
                 [ie_Version inst; es_Version ext]))
  else
    found ⇐ failing st (xc_ExtensionVersion pg (es_Name ext) (es_Version ext));
    match found with
    | None => mret (inr (refuse st ReasonExtensionVersionNotAvailable
                           "%s is not available on the server (its files are not in the image)" [versionLabel (es_Version ext)]))
    | Some info =>
        paths ⇐ failing st (xc_ExtensionUpdatePaths pg (es_Name ext) (ie_Version inst) (es_Version ext));
        match paths with
        | (_ :: (_ :: _) as steps) :: _ =>
            '(problem, strict) ⇐ failing st (checkVersions (es_Name ext) steps);
            match problem with
            | Some problem => mret (inr (refuse st ReasonExtensionNotAllowed "not updated, it stays at version %s: %s"
                                           [ie_Version inst; problem]))
            | None =>
                d ⇐ failing st (dependencies info);
                let missing := extensionNames (dp_toInstall d) ++ dp_unavailable d in
                if negb (bool_decide (missing = [])) then
                  mret (inr (refuse st ReasonExtensionDependencyMissing
                    "version %s requires %s, which is not installed: list it before this extension"
                    [es_Version ext; Join missing ", "]))
                else
                  problems ⇐ failing st (updateSchemas strict
                    (uniqueSorted (ie_Schema inst :: (ie_Schema <$> dp_installed d))));
                  mret (match problems with
                        | [] => inl ()
                        | _ => inr (refuse st ReasonExtensionSchemaNotAllowed
                                 "not updated: its update script would run as a superuser in %s" [Join problems "; "])
                        end)
            end
        | _ => mret (inr (refuse st ReasonExtensionVersionNotAvailable "the server has no update path from version %s to %s"
                            [ie_Version inst; es_Version ext]))
        end
    end.

Definition update_extension (ext : ExtensionSpec) (inst : InstalledExtension) (st : ExtensionStatus) (r : run_state)
    : M W extension_result :=
  plan ← planUpdate ext inst st;
  match plan with
  | inr (e, st) => mret (stopped st r (Some inst) (Some e))
  | inl _ =>
      e ← xc_UpdateExtension pg (es_Name ext) (es_Version ext);
      match e with
      | Some e => mret (stopped st r (Some inst) (Some e))
      | None =>
          i ← xc_InstalledExtension pg (es_Name ext);
          mret (match i with inl i => stopped st r i None | inr e => stopped st r None (Some e) end)
      end
  end.

Definition reconcileOne (ext : ExtensionSpec) (st : ExtensionStatus) (r : run_state) : M W extension_result :=
  i ← xc_InstalledExtension pg (es_Name ext);
  match i with
  | inr e => mret (stopped st r None (Some e))
  | inl inst =>
      let refused inst reason fmt args := let '(e, st) := refuse st reason fmt args in stopped st r inst (Some e) in
      if negb (bool_decide (es_Schema ext = "")) && systemSchemaName (es_Schema ext) then
        mret (refused inst ReasonExtensionSchemaNotAllowed "the system schema %s cannot be a target schema" [es_Schema ext])
      else
        match inst with
        | None => create_extension ext st r
        | Some i =>
            if decide (es_Schema ext ≠ "" ∧ es_Schema ext ≠ ie_Schema i) then
              mret (refused inst ReasonExtensionSchemaMismatch
                      "installed in schema %s, not %s; pgop does not move installed extensions" [ie_Schema i; es_Schema ext])
            else if decide (es_Version ext ≠ "" ∧ es_Version ext ≠ ie_Version i) then update_extension ext i st r
            else
              a ← allowedAsInstalled i;
              mret (match a with
                    | inr e => stopped st r inst (Some e)
                    | inl (true, _) => stopped st r inst None
                    | inl (false, _) => refused inst ReasonExtensionNotAllowed
                        ("installed at version %s, which is neither trusted by the server nor listed in the Cluster's "
                           +:+ "spec.rolePolicy.allowedExtensions; its grants are not applied") [ie_Version i]
                    end)
        end
  end.

(** *** Extensions that left the spec *)

Fixpoint dropLoop (cur : gmap string ExtensionStatus) (names : list string) : M W (list gerr * list ExtensionStatus) :=
  match names with
  | [] => mret ([], [])
  | name :: rest =>
      match cur !! name with
      | None => dropLoop cur rest
      | Some st =>
          if bool_decide (name ∈ listed) || negb (est_Created st) || negb (est_DropOnRemoval st) then dropLoop cur rest
          else
            i ← xc_InstalledExtension pg name;
            match i with
            | inr e => '(errs, keep) ← dropLoop cur rest; mret (e :: errs, st :: keep)
            | inl None => dropLoop cur rest
            | inl (Some inst) =>
                if decide (est_OID st = 0%Z ∨ ie_OID inst ≠ est_OID st ∨ ie_Owner inst ≠ est_Owner st) then
                  let '(e, _) := refuse st ReasonExtensionNotManaged
                    ("removed from the spec with dropOnRemoval, but it is not the installation pgop created (it was dropped and "
                       +:+ "created again, or pgop could not confirm its creation); it is not dropped and no longer tracked") [] in
                  '(errs, keep) ← dropLoop cur rest; mret (e :: errs, keep)
                else
                  e ← xc_DropExtension pg name;
                  match e with
                  | None => dropLoop cur rest
                  | Some err =>
                      let '(e, st) :=
                        if DependentObjectsExist (Some err) then
                          refuse st ReasonExtensionDropBlocked
                            ("removed from the spec with dropOnRemoval, but other objects depend on it; pgop does not drop with "
                               +:+ "CASCADE. Drop them, or list the extension again: %v") [error_text err]
                        else (err, with_reason st ReasonReconcileError (error_text err)) in
                      '(errs, keep) ← dropLoop cur rest; mret (e :: errs, st :: keep)
                  end
            end
      end
  end.

(** [n]: the entries of the spec's extensions. *)
Definition dropRemoved (cur : gmap string ExtensionStatus) (n : nat) : M W (list gerr * list ExtensionStatus) :=
  '(errs, keep) ← dropLoop cur (sorted_keys cur);
  let room := (extensionStatusLimit - n)%nat in
  mret (if bool_decide (room < length keep)%nat then
          (errs ++ [CondErr ReasonExtensionDropBlocked (Errorf
             "status.extensions is full: removed extensions %s are no longer tracked and will not be dropped by pgop"
             [Join (est_Name <$> drop room keep) ", "])], take room keep)
        else (errs, keep)).

(** *** The run *)

Record extensionStates := {
  xs_eligible : gmap string InstalledExtension;
  xs_untrusted : gset string;
  xs_unknown : gset string;
  xs_allUnknown : bool }.

Definition no_states (allUnknown : bool) : extensionStates :=
  {| xs_eligible := ∅; xs_untrusted := ∅; xs_unknown := ∅; xs_allUnknown := allUnknown |}.

Definition unknown_extension (s : extensionStates) (name : string) : extensionStates :=
  {| xs_eligible := xs_eligible s; xs_untrusted := xs_untrusted s; xs_unknown := {[name]} ∪ xs_unknown s;
     xs_allUnknown := xs_allUnknown s |}.

Definition eligible_extension (s : extensionStates) (name : string) (inst : InstalledExtension) (trusted : bool) : extensionStates :=
  {| xs_eligible := <[name := inst]> (xs_eligible s);
     xs_untrusted := if trusted then xs_untrusted s ∖ {[name]} else {[name]} ∪ xs_untrusted s;
     xs_unknown := xs_unknown s; xs_allUnknown := xs_allUnknown s |}.

(** What the loop over spec.extensions collects. *)
Record loop_state := {
  lp_run : run_state;
  lp_states : extensionStates;
  lp_errs : list gerr;
  lp_statuses : list ExtensionStatus;
  lp_installed : list string }.

(** Only an installation whose oid and owner were recorded is pgop's. *)
Definition confirm_creation (st : ExtensionStatus) (inst : option InstalledExtension) : ExtensionStatus :=
  match inst with
  | Some i => if est_Created st && (bool_decide (est_OID st = 0%Z) || negb (bool_decide (est_OID st = ie_OID i))
                                      || negb (bool_decide (est_Owner st = ie_Owner i)))
              then with_creation st false 0 "" else st
  | None => st
  end.

Definition report_error (st : ExtensionStatus) (e : error) : ExtensionStatus :=
  match e with
  | Some err => if decide (est_Reason st = "") then with_reason st ReasonReconcileError (error_text err) else st
  | None => st
  end.

(** One listed extension. *)
Definition reconcileListed (ext : ExtensionSpec) (l : loop_state) : M W loop_state :=
  let name := es_Name ext in
  let st := match run_cur (lp_run l) !! name with
            | Some prev => no_extension name (es_DropOnRemoval ext) (est_Created prev) (est_OID prev) (est_Owner prev)
            | None => no_extension name (es_DropOnRemoval ext) false 0 ""
            end in
  x ← reconcileOne ext st (lp_run l);
  let st := report_error (confirm_creation (xr_st x) (xr_inst x)) (xr_err x) in
  let errs := lp_errs l ++ option_list (xr_err x) in
  let states := match xr_err x, xr_inst x with
                | Some err, None => if cond_reason err then lp_states l else unknown_extension (lp_states l) name
                | _, _ => lp_states l
                end in
  let done st states errs installed :=
    {| lp_run := {| run_cur := <[name := st]> (run_cur (xr_run x)); run_db := run_db (xr_run x) |};
       lp_states := states; lp_errs := errs; lp_statuses := lp_statuses l ++ [st]; lp_installed := installed |} in
  match xr_inst x with
  | None => mret (done st states errs (lp_installed l))
  | Some inst =>
      let st := with_installed st (ie_Version inst) (ie_Schema inst) in
      let installed := lp_installed l ++ [name] in
      a ← allowedAsInstalled inst;
      mret (match a with
            | inr e => done st (unknown_extension states name) (errs ++ [e]) installed
            | inl (true, trusted) => done st (eligible_extension states name inst trusted) errs installed
            | inl (false, _) => done st states errs installed
            end)
  end.

Fixpoint extensionLoop (exts : list ExtensionSpec) (seen : gset string) (l : loop_state) : M W loop_state :=
  match exts with
  | [] => mret l
  | ext :: rest =>
      if decide (es_Name ext ∈ seen) then
        extensionLoop rest seen {| lp_run := lp_run l; lp_states := lp_states l;
          lp_errs := lp_errs l ++ [Errorf "extensions: %q is listed more than once" [es_Name ext]];
          lp_statuses := lp_statuses l; lp_installed := lp_installed l |}
      else l ← reconcileListed ext l; extensionLoop rest ({[es_Name ext]} ∪ seen) l
  end.
End run.

Arguments no_states : clear implicits.

(** The working copy of status.extensions. *)
Definition current_extensions (l : list ExtensionStatus) : gmap string ExtensionStatus :=
  foldl (λ m st, <[est_Name st := st]> m) ∅ l.

Definition reconcileExtensions `{UnicodePrint} `{ErrorText} {W} (pg : extensionInstallClient W) (fuel : nat) (spec : DatabaseSpec)
    (p : policy) (managedSchemas : list string) (save : statusSaver W DatabaseStatus) (st : DatabaseStatus)
    : M W (extensionStates * error * DatabaseStatus) :=
  let cur := current_extensions (dst_Extensions st) in
  let listed : gset string := list_to_set (es_Name <$> ds_Extensions spec) in
  if bool_decide (length (ds_Extensions spec) = 0%nat) && bool_decide (cur = ∅) then
    mret (no_states false, None, set_InstalledExtensions st [])
  else
    o ← xc_CurrentDatabaseOwner pg;
    match o with
    | inr e => mret (no_states true, Some e, st)
    | inl owner =>
        l ← xc_LookupRole pg owner;
        match l with
        | inr e => mret (no_states true, Some e, st)
        | inl role =>
            let super := match role with Some r => rr_Superuser r | None => false end in
            let managed : gset string := list_to_set managedSchemas in
            let specSchemas : gset string := list_to_set (ss_Name <$> ds_Schemas spec) in
            s ← extensionLoop pg fuel p managed specSchemas listed owner super save (ds_Extensions spec) ∅
                  {| lp_run := {| run_cur := cur; run_db := st |}; lp_states := no_states false; lp_errs := [];
                     lp_statuses := []; lp_installed := [] |};
            '(errs, keep) ← dropRemoved pg listed (run_cur (lp_run s)) (length (lp_statuses s));
            mret (lp_states s, errors_Join (Some <$> (lp_errs s ++ errs)),
                  set_InstalledExtensions (set_Extensions (run_db (lp_run s)) (lp_statuses s ++ keep)) (lp_installed s))
        end
    end.
