(* ===== verification/ExtensionSafety.v ===== *)
(** * Installation of extensions: what justifies each call

    The events of a pass over spec.extensions, and the facts about the calls made
    before that justify CREATE, ALTER and DROP EXTENSION and CREATE SCHEMA. *)

From S2P Require Import Prelude GoStrings GoStrconv Privileges Parameters RoleSql ApiTypes RolePolicy GrantEngine GranteePolicy.
From S2P Require Import Grants Objects ObjectGrants PublicPrivileges ExtensionSql Extensions Trace.

Inductive ext_event :=
  | XvVersion (name version : string) (r : result (option ExtensionVersionInfo))
  | XvInstalled (name : string) (r : result (option InstalledExtension))
  | XvPaths (name from to : string) (r : result (list (list string)))
  | XvWriters (name : string) (r : result SchemaWriters)
  | XvOwner (r : result string)
  | XvLookup (name : string) (r : result (option ReachableRole))
  | XvCreateSchema (name owner : string) (e : error)
  | XvCreate (name schema version : string) (cascade : bool) (e : error)
  | XvUpdate (name version : string) (e : error)
  | XvDrop (name : string) (e : error)
  | XvSave (st : DatabaseStatus) (e : error).

Definition logged_install {W} (c : extensionInstallClient W) : extensionInstallClient (W * list ext_event) :=
  {| xc_ExtensionVersion := λ n v, logged (XvVersion n v) (xc_ExtensionVersion c n v);
     xc_InstalledExtension := λ n, logged (XvInstalled n) (xc_InstalledExtension c n);
     xc_ExtensionUpdatePaths := λ n a b, logged (XvPaths n a b) (xc_ExtensionUpdatePaths c n a b);
     xc_SchemaWriters := λ n, logged (XvWriters n) (xc_SchemaWriters c n);
     xc_CurrentDatabaseOwner := logged XvOwner (xc_CurrentDatabaseOwner c);
     xc_LookupRole := λ n, logged (XvLookup n) (xc_LookupRole c n);
     xc_CreateSchema := λ n o, logged (XvCreateSchema n o) (xc_CreateSchema c n o);
     xc_CreateExtension := λ n s v b, logged (XvCreate n s v b) (xc_CreateExtension c n s v b);
     xc_UpdateExtension := λ n v, logged (XvUpdate n v) (xc_UpdateExtension c n v);
     xc_DropExtension := λ n, logged (XvDrop n) (xc_DropExtension c n) |}.

Definition logged_save {W} (save : statusSaver W DatabaseStatus) : statusSaver (W * list ext_event) DatabaseStatus :=
  (λ f st, logged (XvSave st) (f st)) <$> save.

(** ** Schemas *)

(** Who may own and create in a schema that a superuser's script runs in: only
    superusers for an untrusted script ([strict]), else also the database's owner. *)
Definition acceptable_schema (w : SchemaWriters) (dbOwner : string) (dbOwnerSuper managed strict : bool) : Prop :=
  let '(owner, ownerSuper) := if decide (sw_Owner w = pgDatabaseOwnerRole) then (dbOwner, dbOwnerSuper)
                              else (sw_Owner w, sw_OwnerSuperuser w) in
  if strict then ownerSuper = true ∧ sw_Creators w = []
  else (ownerSuper = true ∨ owner = dbOwner ∨ managed = true) ∧ ∀ c, c ∈ sw_Creators w → c = dbOwner.

Lemma extensionSchemaProblem_None name w dbOwner dbOwnerSuper managed strict :
  extensionSchemaProblem name w dbOwner dbOwnerSuper managed strict = None ↔
  acceptable_schema w dbOwner dbOwnerSuper managed strict.
Proof.
  unfold extensionSchemaProblem, acceptable_schema.
  destruct (if decide _ then _ else _) as [owner super]. destruct strict; simpl.
  - destruct super, (sw_Creators w); simpl; naive_solver.
  - transitivity ((negb super && negb (bool_decide (owner = dbOwner)) && negb managed = false) ∧
      filter (.≠ dbOwner) (sw_Creators w) = []).
    { destruct (_ && _), (filter _ _); simpl; naive_solver. }
    rewrite !andb_false_iff, !negb_false_iff, bool_decide_eq_true.
    assert (filter (.≠ dbOwner) (sw_Creators w) = [] ↔ ∀ c, c ∈ sw_Creators w → c = dbOwner) as ->.
    { split.
      - intros Hf c Hc. destruct (decide (c = dbOwner)) as [|Hne]; [done|]. exfalso.
        assert (c ∈ filter (.≠ dbOwner) (sw_Creators w)) as Hin by (by apply list_elem_of_filter).
        rewrite Hf in Hin. by apply elem_of_nil in Hin.
      - intros Ha. apply elem_of_nil_inv. intros c [Hne Hc]%list_elem_of_filter. by apply Hne, Ha. }
    tauto.
Qed.

(** ** Facts of a trace *)

Section facts.
Context (p : policy) (managedSchemas specSchemas : gset string).
Implicit Types tr : list ext_event.

(** The server marks this version trusted. *)
Definition trusted_version tr (name v : string) : Prop :=
  ∃ info, XvVersion name v (inl (Some info)) ∈ tr ∧ ev_Trusted info = true.

(** A script that may run: trusted, or of an extension that the policy allows, and then
    the pass is [strict]. *)
Definition script_allowed tr (strict : bool) (name v : string) : Prop :=
  trusted_version tr name v ∨ strict = true ∧ AllowsExtension p name = true.

(** Every version whose script an installation at [version] may run is allowed. *)
Definition scripts_allowed tr (strict : bool) (name version : string) : Prop :=
  script_allowed tr strict name version ∧
  ∃ paths, XvPaths name "" version (inl paths) ∈ tr ∧
    ∀ path, path ∈ paths → XvVersion name (default "" (head path)) (inl None) ∈ tr ∨
      ∀ v, v ∈ path → script_allowed tr strict name v.

(** [n] is installed, would be installed, or is not available. *)
Definition accounted tr (d : deps) (n : string) : Prop :=
  (∃ i, i ∈ dp_installed d ∧ XvInstalled n (inl (Some i)) ∈ tr) ∨
  (∃ dep, dep ∈ dp_toInstall d ∧ XvInstalled n (inl None) ∈ tr ∧ XvVersion n "" (inl (Some dep)) ∈ tr) ∨
  n ∈ dp_unavailable d.

(** Everything that [info] and its dependencies require is accounted for. *)
Definition deps_closed tr (info : ExtensionVersionInfo) (d : deps) : Prop :=
  ∀ n, n ∈ ev_Requires info ∨ (∃ dep, dep ∈ dp_toInstall d ∧ n ∈ ev_Requires dep) → n = ev_Name info ∨ accounted tr d n.

Definition read_owner tr (dbOwner : string) (dbOwnerSuper : bool) : Prop :=
  ∃ role, XvOwner (inl dbOwner) ∈ tr ∧ XvLookup dbOwner (inl role) ∈ tr ∧
    dbOwnerSuper = match role with Some r => rr_Superuser r | None => false end.

(** The catalogs showed the schema as one that the scripts may run in. *)
Definition schema_accepted tr (s : string) (strict : bool) : Prop :=
  ∃ dbOwner dbOwnerSuper w, read_owner tr dbOwner dbOwnerSuper ∧ XvWriters s (inl w) ∈ tr ∧ sw_Exists w = true ∧
    acceptable_schema w dbOwner dbOwnerSuper (bool_decide (s ∈ managedSchemas)) strict.

Definition plan_allowed tr (ext : ExtensionSpec) (plan : installPlan) : Prop :=
  ∃ d, XvVersion (es_Name ext) (es_Version ext) (inl (Some (pl_info plan))) ∈ tr ∧
    scripts_allowed tr (pl_strict plan) (es_Name ext) (ev_Version (pl_info plan)) ∧
    deps_closed tr (pl_info plan) d ∧ dp_unavailable d = [] ∧ pl_toInstall plan = dp_toInstall d ∧
    pl_installedDeps plan = dp_installed d ∧ (dp_toInstall d = [] ∨ es_Cascade ext = true) ∧
    ∀ dep, dep ∈ dp_toInstall d → scripts_allowed tr (pl_strict plan) (ev_Name dep) (ev_Version dep).

(** A schema of the plan that is missing and that pgop may create. *)
Definition may_create_schema tr (ext : ExtensionSpec) (plan : installPlan) (s : string) : Prop :=
  s ∈ plan_schemas ext plan ∧ may_create specSchemas ext plan s = true ∧
  ∃ w, XvWriters s (inl w) ∈ tr ∧ sw_Exists w = false.

Definition schema_ready tr (ext : ExtensionSpec) (plan : installPlan) (s : string) : Prop :=
  schema_accepted tr s (pl_strict plan) ∨ may_create_schema tr ext plan s ∧ XvCreateSchema s "" None ∈ tr.

(** The intent to create is in the saved status. *)
Definition intent_saved tr (name : string) : Prop :=
  ∃ st e, XvSave st None ∈ tr ∧ e ∈ dst_Extensions st ∧ est_Name e = name ∧ est_Created e = true.

Definition may_install tr (ext : ExtensionSpec) : Prop :=
  XvInstalled (es_Name ext) (inl None) ∈ tr ∧
  ∃ plan, plan_allowed tr ext plan ∧ ∀ s, s ∈ plan_schemas ext plan → schema_ready tr ext plan s.

Definition may_update tr (ext : ExtensionSpec) : Prop :=
  ∃ inst info paths from steps strict d, XvInstalled (es_Name ext) (inl (Some inst)) ∈ tr ∧
    es_Version ext ≠ "" ∧ es_Version ext ≠ ie_Version inst ∧
    compareExtensionVersions (es_Version ext) (ie_Version inst) ≠ Some (-1)%Z ∧
    XvVersion (es_Name ext) (es_Version ext) (inl (Some info)) ∈ tr ∧
    XvPaths (es_Name ext) (ie_Version inst) (es_Version ext) (inl paths) ∈ tr ∧
    head paths = Some (from :: steps) ∧ steps ≠ [] ∧
    (∀ v, v ∈ steps → script_allowed tr strict (es_Name ext) v) ∧
    deps_closed tr info d ∧ dp_toInstall d = [] ∧ dp_unavailable d = [] ∧
    ∀ s, s ∈ ie_Schema inst :: (ie_Schema <$> dp_installed d) → schema_accepted tr s strict.

(** The recorded entry of an extension that left the spec. *)
Definition may_drop_extension tr (listed : gset string) (cur : gmap string ExtensionStatus) (name : string) : Prop :=
  name ∉ listed ∧ ∃ st inst, cur !! name = Some st ∧ est_Created st = true ∧ est_DropOnRemoval st = true ∧
    XvInstalled name (inl (Some inst)) ∈ tr ∧ est_OID st ≠ 0%Z ∧ ie_OID inst = est_OID st ∧ ie_Owner inst = est_Owner st.

(** [exts]: spec.extensions; [cur]: the entries of the status at the start; [saved]:
    whether intents are saved. *)
Definition ext_call_ok (exts : list ExtensionSpec) (cur : gmap string ExtensionStatus) (saved : bool) (pre : list ext_event) (ev : ext_event) : Prop :=
  match ev with
  | XvCreate name schema version cascade _ =>
      ∃ ext, ext ∈ exts ∧ name = es_Name ext ∧ schema = es_Schema ext ∧ version = es_Version ext ∧ cascade = es_Cascade ext ∧
        may_install pre ext ∧ (saved = true → intent_saved pre name)
  | XvUpdate name version _ => ∃ ext, ext ∈ exts ∧ name = es_Name ext ∧ version = es_Version ext ∧ may_update pre ext
  | XvDrop name _ => may_drop_extension pre (list_to_set (es_Name <$> exts)) cur name
  | XvCreateSchema s owner _ => owner = "" ∧ ∃ ext plan, ext ∈ exts ∧ plan_allowed pre ext plan ∧ may_create_schema pre ext plan s
  | XvSave st _ => (length (dst_Extensions st) ≤ extensionStatusLimit `max` length exts)%nat
  | _ => True
  end.

#[export] Instance trusted_version_mono name v : Mono (λ tr, trusted_version tr name v).
Proof. unfold trusted_version. solve_mono. Qed.
#[export] Instance script_allowed_mono strict name v : Mono (λ tr, script_allowed tr strict name v).
Proof. unfold script_allowed. solve_mono. Qed.
#[export] Instance scripts_allowed_mono strict name v : Mono (λ tr, scripts_allowed tr strict name v).
Proof. unfold scripts_allowed. solve_mono. Qed.
#[export] Instance accounted_mono d n : Mono (λ tr, accounted tr d n).
Proof. unfold accounted. solve_mono. Qed.
#[export] Instance deps_closed_mono info d : Mono (λ tr, deps_closed tr info d).
Proof. unfold deps_closed. solve_mono. Qed.
#[export] Instance read_owner_mono o b : Mono (λ tr, read_owner tr o b).
Proof. unfold read_owner. solve_mono. Qed.
#[export] Instance schema_accepted_mono s strict : Mono (λ tr, schema_accepted tr s strict).
Proof. unfold schema_accepted. solve_mono. Qed.
#[export] Instance plan_allowed_mono ext plan : Mono (λ tr, plan_allowed tr ext plan).
Proof. unfold plan_allowed. solve_mono. Qed.
#[export] Instance may_create_schema_mono ext plan s : Mono (λ tr, may_create_schema tr ext plan s).
Proof. unfold may_create_schema. solve_mono. Qed.
#[export] Instance schema_ready_mono ext plan s : Mono (λ tr, schema_ready tr ext plan s).
Proof. unfold schema_ready. solve_mono. Qed.
End facts.

(** ** Steps that may fail *)

(** [R] holds of a result; nothing is known after a failure. *)
Definition on_ok {E A F} (R : A → list E → Prop) (r : A + F) (tr : list E) : Prop :=
  match r with inl x => R x tr | inr _ => True end.

Section steps.
Context {W E : Type} (J : list E → E → Prop).

Lemma runs_ebind {A B F} tr (m : M (W * list E) (A + F)) (k : A → M (W * list E) (B + F)) R1 R :
  runs J tr m (on_ok R1) → (∀ x tr1, tr `prefix_of` tr1 → R1 x tr1 → runs J tr1 (k x) (on_ok R)) → runs J tr (ebind m k) (on_ok R).
Proof. intros Hm Hk. eapply runs_bind; [exact Hm|]. intros [x|e] tr1 P1 H1; [by apply Hk|by apply runs_ret]. Qed.

Lemma runs_failing {A} tr st (m : M (W * list E) (result A)) R :
  runs J tr m (on_ok R) → runs J tr (failing st m) (on_ok R).
Proof. intros Hm. eapply runs_bind; [exact Hm|]. intros [x|e] tr1 P1 H1; by apply runs_ret. Qed.

Lemma runs_ecall {A B} tr (ev : result A → E) (m : M W (result A)) (k : A → M (W * list E) (result B)) R :
  (∀ x, J tr (ev x)) → (∀ x tr1, tr `prefix_of` tr1 → ev (inl x) ∈ tr1 → runs J tr1 (k x) (on_ok R)) →
  runs J tr (ebind (logged ev m) k) (on_ok R).
Proof.
  intros HJ Hk. apply (runs_ebind _ _ _ (λ x tr1, ev (inl x) ∈ tr1)); [|done].
  apply runs_logged; [done|]. intros [x|e] tr1 P1 E1; [done|exact I].
Qed.

Lemma runs_fcall {A B} tr st (ev : result A → E) (m : M W (result A)) (k : A → M (W * list E) (step B)) R :
  (∀ x, J tr (ev x)) → (∀ x tr1, tr `prefix_of` tr1 → ev (inl x) ∈ tr1 → runs J tr1 (k x) (on_ok R)) →
  runs J tr (ebind (failing st (logged ev m)) k) (on_ok R).
Proof.
  intros HJ Hk. apply (runs_ebind _ _ _ (λ x tr1, ev (inl x) ∈ tr1)); [|done].
  apply runs_failing, runs_logged; [done|]. intros [x|e] tr1 P1 E1; [done|exact I].
Qed.
End steps.

(** ** The functions of the pass *)

Section pass.
Context `{UnicodePrint} `{ErrorText} {W : Type} (pg : extensionInstallClient W) (fuel : nat) (save : statusSaver W DatabaseStatus).
Context (p : policy) (managedSchemas specSchemas : gset string) (exts : list ExtensionSpec) (entries : gmap string ExtensionStatus).

Abbreviation lpg := (logged_install pg).
Abbreviation lsave := (logged_save save).
Abbreviation listed := (list_to_set (es_Name <$> exts) : gset string).
Abbreviation saves := (bool_decide (is_Some save)).
Abbreviation runs := (runs (W := W) (ext_call_ok p managedSchemas specSchemas exts entries saves)).
Abbreviation script_allowed := (script_allowed p).
Abbreviation scripts_allowed := (scripts_allowed p).

Ltac ecall x tr P E := first [eapply runs_ecall | eapply runs_fcall | eapply runs_call]; [intros; exact I|]; intros x tr P E; cbv beta.

(** *** Versions *)

Lemma untrustedVersions_runs tr name vs :
  runs tr (untrustedVersions lpg name vs) (on_ok (λ bad tr', ∀ v, v ∈ vs → v ∈ bad ∨ trusted_version tr' name v)).
Proof.
  revert tr. induction vs as [|v vs IH]; intros tr; [apply runs_ret; by intros ? ?%elem_of_nil|].
  simpl. ecall info tr1 P1 E1. eapply runs_ebind; [apply IH|]. intros bad tr2 P2 H2. apply runs_ret.
  intros v' [->|Hv]%elem_of_cons.
  - destruct info as [info|]; [|left; by left]. destruct (ev_Trusted info) eqn:Et; [|left; by left].
    right. exists info. split; [carry|done].
  - destruct (H2 v' Hv); [left|by right]. destruct info as [[? ? []]|]; [done|by right..].
Qed.

Lemma checkVersions_runs tr name vs :
  runs tr (checkVersions lpg p name vs) (on_ok (λ x tr', x.1 = None → ∀ v, v ∈ vs → script_allowed tr' x.2 name v)).
Proof.
  unfold checkVersions. eapply runs_ebind; [apply untrustedVersions_runs|]. intros bad tr1 P1 H1.
  destruct bad as [|b bad]; [|destruct (AllowsExtension p name) eqn:Ea]; apply runs_ret; simpl; intros ?; [| |done].
  - intros v Hv. destruct (H1 v Hv) as [?%elem_of_nil|?]; [done|by left].
  - intros v Hv. by right.
Qed.

Lemma installable_paths_runs tr name paths :
  runs tr (installable_paths lpg name paths) (on_ok (λ vs tr', ∀ path, path ∈ paths →
    XvVersion name (default "" (head path)) (inl None) ∈ tr' ∨ ∀ v, v ∈ path → v ∈ vs)).
Proof.
  revert tr. induction paths as [|path paths IH]; intros tr; [apply runs_ret; by intros ? ?%elem_of_nil|].
  simpl. ecall info tr1 P1 E1. eapply runs_ebind; [apply IH|]. intros vs tr2 P2 H2. apply runs_ret.
  intros path' [->|Hp]%elem_of_cons.
  - destruct info as [info|]; [|left; carry]. right. intros v Hv. apply elem_of_app. by left.
  - destruct (H2 path' Hp); [by left|right]. intros v Hv. apply elem_of_app. auto.
Qed.

(** The versions whose scripts an installation runs, and their check. *)
Definition versions_of (tr : list ext_event) (name version : string) (vs : list string) : Prop :=
  version ∈ vs ∧ ∃ paths, XvPaths name "" version (inl paths) ∈ tr ∧ ∀ path, path ∈ paths →
    XvVersion name (default "" (head path)) (inl None) ∈ tr ∨ ∀ v, v ∈ path → v ∈ vs.

#[local] Instance versions_of_mono name version vs : Mono (λ tr, versions_of tr name version vs).
Proof. unfold versions_of. solve_mono. Qed.

Lemma installVersions_runs tr name version :
  runs tr (installVersions lpg name version) (on_ok (λ vs tr', versions_of tr' name version vs)).
Proof.
  unfold installVersions. ecall paths tr1 P1 E1. eapply runs_ebind; [apply installable_paths_runs|].
  intros vs tr2 P2 H2. apply runs_ret. simpl. unfold versions_of, uniqueSorted.
  split; [apply elem_of_slices_Compact, elem_of_slices_Sort; by left|]. exists paths. split; [carry|].
  intros path Hp. destruct (H2 path Hp) as [|Hv]; [by left|right]. intros v Hin.
  apply elem_of_slices_Compact, elem_of_slices_Sort. right. auto.
Qed.

Lemma versions_of_allowed tr tr' strict name version vs :
  versions_of tr name version vs → tr `prefix_of` tr' → (∀ v, v ∈ vs → script_allowed tr' strict name v) →
  scripts_allowed tr' strict name version.
Proof.
  intros [Hv (paths & Hp & Hs)] P Ha. split; [by apply Ha|]. exists paths. split; [carry|].
  intros path Hpath. destruct (Hs path Hpath) as [|Hall]; [left; carry|right; auto].
Qed.

Lemma script_allowed_strict tr name v strict strict' :
  script_allowed tr strict name v → (strict = true → strict' = true) → script_allowed tr strict' name v.
Proof. intros [?|[??]] ?; [by left|right; auto]. Qed.

Lemma scripts_allowed_strict tr name version strict strict' :
  scripts_allowed tr strict name version → (strict = true → strict' = true) → scripts_allowed tr strict' name version.
Proof.
  intros [Hv (paths & Hp & Ha)] Hs. split; [by eapply script_allowed_strict|]. exists paths. split; [done|].
  intros path Hin. destruct (Ha path Hin); [by left|right]. intros v ?. eapply script_allowed_strict; auto.
Qed.

(** *** Dependencies *)

Lemma next_unseen_spec queue seen :
  match next_unseen queue seen with
  | Some (n, rest) => n ∉ seen ∧ ∀ m, m ∈ queue → m ∈ seen ∨ m = n ∨ m ∈ rest
  | None => ∀ m, m ∈ queue → m ∈ seen
  end.
Proof.
  induction queue as [|n queue IH]; simpl; [by intros ? ?%elem_of_nil|]. case_decide as Hn.
  - destruct (next_unseen queue seen) as [[m rest]|].
    + destruct IH as [Hm IH]. split; [done|]. intros m' [->|Hm']%elem_of_cons; auto.
    + intros m' [->|Hm']%elem_of_cons; auto.
  - split; [done|]. intros m [->|Hm]%elem_of_cons; auto.
Qed.

(** What is required is queued or seen, and what was seen is accounted for. *)
Definition deps_invariant tr (self : string) (queue : list string) (seen : gset string) (d : deps) (required : list string) : Prop :=
  (∀ n, n ∈ required ∨ (∃ dep, dep ∈ dp_toInstall d ∧ n ∈ ev_Requires dep) → n ∈ queue ∨ n ∈ seen) ∧
  (∀ n, n ∈ seen → n = self ∨ accounted tr d n) ∧
  (∀ dep, dep ∈ dp_toInstall d → ∃ n, XvVersion n "" (inl (Some dep)) ∈ tr).

#[local] Instance deps_invariant_mono self queue seen d required : Mono (λ tr, deps_invariant tr self queue seen d required).
Proof. unfold deps_invariant. solve_mono. Qed.

Lemma accounted_grow tr d d' n :
  dp_installed d ⊆ dp_installed d' → dp_toInstall d ⊆ dp_toInstall d' → dp_unavailable d ⊆ dp_unavailable d' →
  accounted tr d n → accounted tr d' n.
Proof. intros Hi Ht Hu [(i & ? & ?)|[(dep & ? & ? & ?)|?]]; [left|right; left|right; right]; eauto. Qed.

(** One name of the queue is followed: it is seen, [d] grew by it, and its requirements are queued. *)
Lemma deps_invariant_step tr self n queue queue' rest seen d d' required more :
  deps_invariant tr self queue seen d required → (∀ m, m ∈ queue → m ∈ seen ∨ m = n ∨ m ∈ rest) →
  dp_installed d ⊆ dp_installed d' → dp_unavailable d ⊆ dp_unavailable d' → dp_toInstall d' = dp_toInstall d ++ more →
  queue' = rest ++ (more ≫= ev_Requires) → accounted tr d' n → (∀ dep, dep ∈ more → ∃ n, XvVersion n "" (inl (Some dep)) ∈ tr) →
  deps_invariant tr self queue' ({[n]} ∪ seen) d' required.
Proof.
  intros (Hq & Hs & Hr) Hn Hi Hu Ht -> Ha Hm. split_and!.
  - intros m Hreq. rewrite Ht in Hreq.
    assert ((m ∈ queue ∨ m ∈ seen) ∨ m ∈ more ≫= ev_Requires) as [[Hm'|?]|?].
    { destruct Hreq as [?|(dep & [Hd|Hd]%elem_of_app & ?)]; [left; apply Hq; by left|left; apply Hq; eauto|right].
      apply list_elem_of_bind. eauto. }
    + destruct (Hn m Hm') as [?|[->|?]]; [right; set_solver|right; set_solver|left; set_solver].
    + right. set_solver.
    + left. set_solver.
  - intros m [->%elem_of_singleton|Hm']%elem_of_union; [by right|]. destruct (Hs m Hm') as [?|?]; [by left|right].
    eapply accounted_grow; [..|done]; [done| |done]. rewrite Ht. set_solver.
  - intros dep. rewrite Ht. intros [?|?]%elem_of_app; auto.
Qed.

Lemma dependencies_go_runs n tr self queue seen d required :
  deps_invariant tr self queue seen d required →
  runs tr (dependencies_go lpg n queue seen d) (on_ok (λ d' tr', ∃ seen', deps_invariant tr' self [] seen' d' required)).
Proof.
  revert tr queue seen d. induction n as [|n IH]; intros tr queue seen d Hinv; simpl;
    pose proof (next_unseen_spec queue seen) as Hnext; destruct (next_unseen queue seen) as [[name rest]|].
  1: by apply runs_ret.
  2: destruct Hnext as [Hn Hrest].
  1, 3: apply runs_ret; exists seen; destruct Hinv as (Hq & Hs & Hr); split_and!; [|done|done];
    intros m Hm; right; destruct (Hq m Hm); auto.
  ecall r1 tr1 P1 E1. destruct r1 as [i|].
  { apply IH. eapply (deps_invariant_step tr1 _ _ queue _ rest _ d _ _ []); simpl; try done;
      [carry|set_solver|by rewrite app_nil_r|by rewrite app_nil_r| |by intros ? ?%elem_of_nil].
    left. exists i. split; [set_solver|done]. }
  ecall r2 tr2 P2 E2. destruct r2 as [dep|]; apply IH.
  - eapply (deps_invariant_step tr2 _ _ queue _ rest _ d _ _ [dep]); simpl; try done; [carry|by rewrite app_nil_r| |].
    + right; left. exists dep. split_and!; [set_solver|carry|done].
    + intros ? ->%list_elem_of_singleton. eauto.
  - eapply (deps_invariant_step tr2 _ _ queue _ rest _ d _ _ []); simpl; try done;
      [carry|set_solver|by rewrite app_nil_r|by rewrite app_nil_r| |by intros ? ?%elem_of_nil].
    right; right. set_solver.
Qed.

Lemma dependencies_runs tr info : runs tr (dependencies lpg fuel info) (on_ok (λ d tr', deps_closed tr' info d)).
Proof.
  eapply runs_conseq; [apply (dependencies_go_runs _ _ (ev_Name info) _ _ _ (ev_Requires info))|].
  - split_and!; simpl; [intros n [?|(? & ?%elem_of_nil & _)]; [by left|done]| |by intros ? ?%elem_of_nil].
    intros n ->%elem_of_singleton. by left.
  - intros [d|e] tr' P Hd; [|done]. destruct Hd as (seen & Hq & Hs & _). intros n Hn.
    apply Hs. destruct (Hq n Hn) as [?%elem_of_nil|]; done.
Qed.

(** *** Plans *)

Lemma checkDependencies_runs tr ds :
  runs tr (checkDependencies lpg p ds) (on_ok (λ x tr', x.1 = [] → ∀ dep, dep ∈ ds → scripts_allowed tr' x.2 (ev_Name dep) (ev_Version dep))).
Proof.
  revert tr. induction ds as [|dep ds IH]; intros tr; [apply runs_ret; by intros _ ? ?%elem_of_nil|].
  simpl. eapply runs_ebind; [apply installVersions_runs|]. intros vs tr1 P1 H1.
  eapply runs_ebind; [apply checkVersions_runs|]. intros [problem untrusted] tr2 P2 H2.
  eapply runs_ebind; [apply IH|]. intros [refused strict] tr3 P3 H3. apply runs_ret. simpl.
  intros [Ho Hr]%app_nil. destruct problem; [done|]. intros dep' [->|Hd]%elem_of_cons.
  - apply (scripts_allowed_strict _ _ _ untrusted); [|by intros ->].
    eapply versions_of_allowed; [exact H1|by etrans|]. intros v Hv. pose proof (H2 eq_refl v Hv). carry.
  - apply (scripts_allowed_strict _ _ _ strict); [by apply H3|]. intros ->. apply orb_true_r.
Qed.

Lemma planCreate_runs tr ext st :
  runs tr (planCreate lpg fuel p ext st) (on_ok (λ plan tr', plan_allowed p tr' ext plan)).
Proof.
  unfold planCreate. ecall found tr1 P1 E1. destruct found as [info|]; [|by apply runs_ret].
  eapply runs_ebind; [apply runs_failing, installVersions_runs|]. intros vs tr2 P2 H2.
  eapply runs_ebind; [apply runs_failing, checkVersions_runs|]. intros [problem strict] tr3 P3 H3. simpl in H3.
  destruct problem; [by apply runs_ret|]. specialize (H3 eq_refl).
  eapply runs_ebind; [apply runs_failing, dependencies_runs|]. intros d tr4 P4 H4.
  destruct (bool_decide (dp_unavailable d = [])) eqn:Hu; simpl; [|by apply runs_ret]. apply bool_decide_eq_true in Hu.
  destruct (negb _ && negb _) eqn:Ec; [by apply runs_ret|].
  eapply runs_ebind; [apply runs_failing, checkDependencies_runs|]. intros [refused untrusted] tr5 P5 H5.
  destruct refused; [|by apply runs_ret]. apply runs_ret. exists d. simpl in *.
  split_and!; [carry| |carry|done|done|done| |].
  - apply (scripts_allowed_strict _ _ _ strict); [|by intros ->].
    eapply versions_of_allowed; [exact H2|by repeat (etrans; [eassumption|])|]. intros v Hv. pose proof (H3 v Hv). carry.
  - apply andb_false_iff in Ec as [Ec|Ec]; apply negb_false_iff in Ec; [left|by right].
    apply bool_decide_eq_true in Ec. by apply fmap_nil_inv in Ec.
  - intros dep Hd. apply (scripts_allowed_strict _ _ _ untrusted); [by apply H5|]. intros ->. apply orb_true_r.
Qed.

(** *** Schemas *)

Section owner.
Context (dbOwner : string) (dbOwnerSuper : bool).

Abbreviation schema_accepted := (schema_accepted managedSchemas).
Abbreviation may_create_schema := (may_create_schema specSchemas).
Abbreviation plan_allowed := (plan_allowed p).

Lemma schemaProblem_runs tr s strict :
  read_owner tr dbOwner dbOwnerSuper →
  runs tr (schemaProblem lpg managedSchemas dbOwner dbOwnerSuper s strict) (on_ok (λ x tr',
    (x.2 = true → ∃ w, XvWriters s (inl w) ∈ tr' ∧ sw_Exists w = false) ∧
    (x.2 = false → x.1 = None → schema_accepted tr' s strict))).
Proof.
  intros Ho. unfold schemaProblem. ecall w tr1 P1 E1. apply runs_ret. destruct (sw_Exists w) eqn:Ee; simpl; split; try done.
  - intros _ Hp%extensionSchemaProblem_None. exists dbOwner, dbOwnerSuper, w. split_and!; [carry|done|done|done].
  - eauto.
Qed.

Lemma installSchemas_runs tr create strict schemas :
  read_owner tr dbOwner dbOwnerSuper →
  runs tr (installSchemas lpg managedSchemas dbOwner dbOwnerSuper create strict schemas) (on_ok (λ x tr', x.2 = [] → ∀ s, s ∈ schemas →
    schema_accepted tr' s strict ∨ s ∈ x.1) ).
Proof.
  intros Ho. revert tr Ho. induction schemas as [|s schemas IH]; intros tr Ho; [apply runs_ret; by intros _ ? ?%elem_of_nil|].
  simpl. eapply runs_ebind; [by apply schemaProblem_runs|]. intros [problem missing] tr1 P1 [Hm Ha]. simpl in *.
  eapply runs_ebind; [apply IH; carry|]. intros [toCreate problems] tr2 P2 H2. apply runs_ret. simpl in *.
  destruct missing; simpl.
  - destruct (create s) eqn:Ec; simpl; [|done]. intros -> s' [->|Hs]%elem_of_cons; [right; by left|].
    destruct (H2 eq_refl s' Hs); [by left|right; by right].
  - intros [Hp ->]%app_nil. destruct problem; [done|]. intros s' [->|Hs]%elem_of_cons.
    + left. pose proof (Ha eq_refl eq_refl). carry.
    + auto.
Qed.

Lemma installSchemas_missing tr create strict schemas :
  read_owner tr dbOwner dbOwnerSuper →
  runs tr (installSchemas lpg managedSchemas dbOwner dbOwnerSuper create strict schemas) (on_ok (λ x tr', ∀ s, s ∈ x.1 →
    s ∈ schemas ∧ create s = true ∧ ∃ w, XvWriters s (inl w) ∈ tr' ∧ sw_Exists w = false)).
Proof.
  intros Ho. revert tr Ho. induction schemas as [|s schemas IH]; intros tr Ho; [apply runs_ret; by intros ? ?%elem_of_nil|].
  simpl. eapply runs_ebind; [by apply schemaProblem_runs|]. intros [problem missing] tr1 P1 [Hm Ha]. simpl in *.
  eapply runs_ebind; [apply IH; carry|]. intros [toCreate problems] tr2 P2 H2. apply runs_ret. simpl in *.
  assert (∀ s', s' ∈ toCreate → s' ∈ s :: schemas ∧ create s' = true ∧ ∃ w, XvWriters s' (inl w) ∈ tr2 ∧ sw_Exists w = false) as Hrest.
  { intros s' Hs. destruct (H2 s' Hs) as (? & ? & ?). split_and!; [by right|done|done]. }
  destruct missing; simpl; [|done]. destruct (create s) eqn:Ec; simpl; [|done].
  intros s' [->|Hs]%elem_of_cons; [|auto]. destruct (Hm eq_refl) as (w & ? & ?).
  split_and!; [by left|done|]. exists w. split; [carry|done].
Qed.

(** Both facts of the same run. *)
Lemma runs_and {A} J tr (m : M (W * list ext_event) A) Q1 Q2 :
  Trace.runs J tr m Q1 → Trace.runs J tr m Q2 → Trace.runs J tr m (λ x tr', Q1 x tr' ∧ Q2 x tr').
Proof. intros H1 H2 w. destruct (H1 w), (H2 w). auto. Qed.

Lemma checkInstallSchemas_runs tr ext st plan :
  read_owner tr dbOwner dbOwnerSuper →
  runs tr (checkInstallSchemas lpg managedSchemas specSchemas dbOwner dbOwnerSuper ext st plan) (on_ok (λ toCreate tr',
    (∀ s, s ∈ plan_schemas ext plan → schema_accepted tr' s (pl_strict plan) ∨ s ∈ toCreate) ∧
    ∀ s, s ∈ toCreate → may_create_schema tr' ext plan s)).
Proof.
  intros Ho. unfold checkInstallSchemas. case_decide; [by apply runs_ret|].
  eapply (runs_ebind _ _ _ _ (λ x tr', (x.2 = [] → ∀ s, s ∈ plan_schemas ext plan → schema_accepted tr' s (pl_strict plan) ∨ s ∈ x.1) ∧
      ∀ s, s ∈ x.1 → may_create_schema tr' ext plan s)).
  - apply runs_failing. eapply runs_conseq.
    + apply runs_and; [by apply installSchemas_runs|by apply installSchemas_missing].
    + intros [x|e] tr' P [Ha Hb]; [by split|done].
  - intros [toCreate problems] tr1 P1 [Ha Hb]. apply runs_ret. destruct problems; [|done]. by split; [apply Ha|].
Qed.

Lemma createSchemas_runs tr ext st plan schemas :
  read_owner tr dbOwner dbOwnerSuper → ext ∈ exts → plan_allowed tr ext plan → (∀ s, s ∈ schemas → may_create_schema tr ext plan s) →
  runs tr (createSchemas lpg managedSchemas dbOwner dbOwnerSuper ext st schemas (pl_strict plan)) (on_ok (λ _ tr',
    ∀ s, s ∈ schemas → schema_ready managedSchemas specSchemas tr' ext plan s)).
Proof.
  intros Ho Hext Hplan. revert tr Ho Hplan. induction schemas as [|s schemas IH]; intros tr Ho Hplan Hs;
    [apply runs_ret; by intros ? ?%elem_of_nil|]. simpl.
  assert (∀ tr', tr `prefix_of` tr' → schema_ready managedSchemas specSchemas tr' ext plan s →
    runs tr' (createSchemas lpg managedSchemas dbOwner dbOwnerSuper ext st schemas (pl_strict plan)) (on_ok (λ _ tr2,
      ∀ s', s' ∈ s :: schemas → schema_ready managedSchemas specSchemas tr2 ext plan s'))) as Hgo.
  { intros tr' P' Hready. eapply runs_conseq; [apply IH; [carry|carry|]|].
    - intros s' Hs'. assert (may_create_schema tr ext plan s') by (apply Hs; by right). carry.
    - intros [x|e] tr2 P2 H2; [|done]. intros s' [->|Hs']%elem_of_cons; [carry|by apply H2]. }
  eapply runs_call.
  { intros e. split; [done|]. exists ext, plan. split_and!; [done|done|]. apply Hs. by left. }
  intros e tr1 P1 E1. cbv beta. destruct e as [err|].
  - destruct (negb _); [by apply runs_ret|].
    eapply runs_ebind; [apply runs_failing, schemaProblem_runs; carry|]. intros [problem missing] tr2 P2 [Hm Ha]. simpl in *.
    destruct missing, problem; simpl; try by apply runs_ret.
    apply Hgo; [by etrans|]. left. by apply Ha.
  - apply Hgo; [done|]. right. split; [|done]. assert (may_create_schema tr ext plan s) by (apply Hs; by left). carry.
Qed.

(** *** CREATE EXTENSION *)

(** The entries of the extensions that left the spec are those of the start. *)
Definition removed_kept (r : run_state) : Prop := ∀ n, n ∉ listed → run_cur r !! n = entries !! n.

Lemma removed_kept_insert r r' name st :
  removed_kept r → run_cur r' = <[name := st]> (run_cur r) → name ∈ listed → removed_kept r'.
Proof. intros Hr Heq Hn n Hl. rewrite Heq, lookup_insert_ne by (intros ->; done). auto. Qed.

Lemma record_entries_listed cur name st : cur !! name = Some st → name ∈ listed → st ∈ record_entries listed cur.
Proof.
  intros Hc Hn. unfold record_entries. apply elem_of_app. left. apply list_elem_of_omap. exists name.
  rewrite decide_True by done. split; [|done]. unfold sorted_keys. apply elem_of_slices_Sort, list_elem_of_fmap.
  exists (name, st). split; [done|]. by apply elem_of_map_to_list.
Qed.

Lemma record_entries_length cur : (length (record_entries listed cur) ≤ extensionStatusLimit `max` length exts)%nat.
Proof.
  unfold record_entries. set (names := sorted_keys cur). rewrite length_app, length_take.
  set (record := omap (λ n, if decide (n ∈ listed) then cur !! n else None) names).
  assert (length record ≤ length exts)%nat as Hr; [|lia].
  assert (length record ≤ length (filter (λ n, n ∈ listed) names))%nat as H1.
  { subst record. clearbody names. induction names as [|n l IH]; [done|]. rewrite filter_cons. cbn [omap list_omap].
    destruct (decide (n ∈ listed)); [|done]. destruct (cur !! n); cbn [length]; lia. }
  etrans; [exact H1|]. rewrite <- (length_fmap es_Name exts). apply submseteq_length, NoDup_submseteq.
  - apply NoDup_filter. subst names. apply slices_Sort_NoDup, NoDup_fst_map_to_list.
  - intros n [Hn _]%list_elem_of_filter. by apply elem_of_list_to_set in Hn.
Qed.

Lemma persist_runs tr r st :
  removed_kept r → est_Name st ∈ listed →
  runs tr (persist_entry listed lsave r st) (λ x tr', removed_kept x.2 ∧
    (x.1 = None → est_Created st = true → saves = true → intent_saved tr' (est_Name st))).
Proof.
  intros Hr Hn. unfold persist_entry. destruct save as [f|]; simpl.
  - eapply runs_call; [intros e; apply record_entries_length|]. intros e tr1 P1 E1. apply runs_ret. split; [by eapply removed_kept_insert|]. simpl.
    intros -> Hc _. exists (set_Extensions (run_db r) (record_entries listed (<[est_Name st := st]> (run_cur r)))), st.
    split_and!; [done| |done|done]. simpl. eapply record_entries_listed; [|done]. by rewrite lookup_insert_eq.
  - apply runs_ret. split; [by eapply removed_kept_insert|]. simpl. intros _ _ Hs. done.
Qed.

Abbreviation one_result := (λ (x : extension_result) (_ : list ext_event), removed_kept (xr_run x)).

#[local] Instance may_install_mono ext : Mono (λ tr, may_install p managedSchemas specSchemas tr ext).
Proof. unfold may_install. solve_mono. Qed.

Lemma createPlanned_runs tr ext st r :
  removed_kept r → ext ∈ exts → est_Name st = es_Name ext → may_install p managedSchemas specSchemas tr ext →
  runs tr (createPlanned lpg listed lsave ext st r) one_result.
Proof.
  intros Hr Hext Hn Hi. assert (es_Name ext ∈ listed) as Hl by (apply elem_of_list_to_set, list_elem_of_fmap; eauto).
  unfold createPlanned. eapply runs_bind; [apply persist_runs; [done|]|]; [by simpl; rewrite Hn|].
  intros [e r'] tr1 P1 [Hr' Hs]. simpl in *. destruct e as [e|]; [by apply runs_ret|].
  eapply runs_call.
  { intros e. exists ext. split_and!; try done; [carry|]. intros Hsv. rewrite <- Hn. auto. }
  intros e tr2 P2 _. cbv beta. destruct e as [err|].
  - destruct (errors_Is _ _); [|by apply runs_ret]. ecall i tr3 P3 E3. by apply runs_ret.
  - ecall i tr3 P3 E3. apply runs_ret. by destruct i as [[i|]|e].
Qed.

Lemma create_extension_runs tr ext st r :
  removed_kept r → ext ∈ exts → est_Name st = es_Name ext → read_owner tr dbOwner dbOwnerSuper → XvInstalled (es_Name ext) (inl None) ∈ tr →
  runs tr (create_extension lpg fuel p managedSchemas specSchemas listed dbOwner dbOwnerSuper lsave ext st r) one_result.
Proof.
  intros Hr Hext Hn Ho Hi. unfold create_extension.
  eapply runs_bind; [apply planCreate_runs|]. intros [plan|[e st1]] tr1 P1 Hp; [|by apply runs_ret].
  eapply runs_bind; [apply checkInstallSchemas_runs; carry|]. intros [toCreate|[e st1]] tr2 P2 Hc; [|by apply runs_ret].
  destruct Hc as [Hs Hm]. eapply runs_bind; [apply createSchemas_runs; [carry|done|carry|done]|].
  intros [[]|[e st1]] tr3 P3 Hr3; [|by apply runs_ret]. simpl in *.
  apply createPlanned_runs; [done|done|done|]. split; [carry|]. exists plan. split; [carry|].
  intros s Hin. destruct (Hs s Hin) as [Ha|Ha]; [|by apply Hr3]. left. carry.
Qed.

(** *** ALTER EXTENSION *)

Lemma updateSchemas_runs tr strict schemas :
  read_owner tr dbOwner dbOwnerSuper →
  runs tr (updateSchemas lpg managedSchemas dbOwner dbOwnerSuper strict schemas) (on_ok (λ problems tr', problems = [] →
    ∀ s, s ∈ schemas → schema_accepted tr' s strict)).
Proof.
  intros Ho. revert tr Ho. induction schemas as [|s schemas IH]; intros tr Ho; [apply runs_ret; by intros _ ? ?%elem_of_nil|].
  simpl. eapply runs_ebind; [by apply schemaProblem_runs|]. intros [problem missing] tr1 P1 [Hm Ha]. simpl in *.
  eapply runs_ebind; [apply IH; carry|]. intros problems tr2 P2 H2. apply runs_ret. simpl.
  intros [Hp ->]%app_nil. destruct missing; [done|]. destruct problem; [done|]. intros s' [->|Hs]%elem_of_cons.
  - pose proof (Ha eq_refl eq_refl). carry.
  - by apply H2.
Qed.

Lemma planUpdate_runs tr ext inst st :
  read_owner tr dbOwner dbOwnerSuper → XvInstalled (es_Name ext) (inl (Some inst)) ∈ tr →
  es_Version ext ≠ "" → es_Version ext ≠ ie_Version inst →
  runs tr (planUpdate lpg fuel p managedSchemas dbOwner dbOwnerSuper ext inst st) (on_ok (λ _ tr', may_update p managedSchemas tr' ext)).
Proof.
  intros Ho Hi Hv Hne. unfold planUpdate. destruct (bool_decide (compareExtensionVersions _ _ = _)) eqn:Hc; [by apply runs_ret|].
  apply bool_decide_eq_false in Hc. ecall found tr1 P1 E1. destruct found as [info|]; [|by apply runs_ret].
  ecall paths tr2 P2 E2. destruct paths as [|[|from [|v steps]] paths]; try by apply runs_ret.
  eapply runs_ebind; [apply runs_failing, checkVersions_runs|]. intros [problem strict] tr3 P3 H3. simpl in H3.
  destruct problem; [by apply runs_ret|]. specialize (H3 eq_refl).
  eapply runs_ebind; [apply runs_failing, dependencies_runs|]. intros d tr4 P4 H4. cbv zeta.
  destruct (bool_decide (_ ++ _ = [])) eqn:Hm; simpl; [|by apply runs_ret]. apply bool_decide_eq_true, app_nil in Hm as [Hm1 Hm2].
  eapply runs_ebind; [apply runs_failing, updateSchemas_runs; carry|]. intros problems tr5 P5 H5. apply runs_ret.
  destruct problems; [|done]. exists inst, info, ((from :: v :: steps) :: paths), from, (v :: steps), strict, d. simpl.
  split_and!; [carry|done|done|done|carry|carry|done|done| |carry| |done|].
  - intros v' Hv'. pose proof (H3 v' Hv'). carry.
  - by apply fmap_nil_inv in Hm1.
  - intros s Hs. apply (H5 eq_refl). by apply elem_of_slices_Compact, elem_of_slices_Sort.
Qed.

Lemma update_extension_runs tr ext inst st r :
  removed_kept r → ext ∈ exts → read_owner tr dbOwner dbOwnerSuper → XvInstalled (es_Name ext) (inl (Some inst)) ∈ tr →
  es_Version ext ≠ "" → es_Version ext ≠ ie_Version inst →
  runs tr (update_extension lpg fuel p managedSchemas dbOwner dbOwnerSuper ext inst st r) one_result.
Proof.
  intros Hr Hext Ho Hi Hv Hne. unfold update_extension. eapply runs_bind; [by apply planUpdate_runs|].
  intros [[]|[e st1]] tr1 P1 Hu; [|by apply runs_ret].
  eapply runs_call; [intros e; by exists ext|]. intros e tr2 P2 E2. cbv beta. destruct e as [e|]; [by apply runs_ret|].
  ecall i tr3 P3 E3. apply runs_ret. by destruct i.
Qed.

Lemma allowedAsInstalled_runs tr inst : runs tr (allowedAsInstalled lpg p inst) (λ _ _, True).
Proof.
  eapply (runs_conseq _ _ _ _ (on_ok (λ _ _, True))); [|done]. unfold allowedAsInstalled. ecall info tr1 P1 E1. by apply runs_ret.
Qed.

Lemma reconcileOne_runs tr ext st r :
  removed_kept r → ext ∈ exts → est_Name st = es_Name ext → read_owner tr dbOwner dbOwnerSuper →
  runs tr (reconcileOne lpg fuel p managedSchemas specSchemas listed dbOwner dbOwnerSuper lsave ext st r) one_result.
Proof.
  intros Hr Hext Hn Ho. unfold reconcileOne. ecall i tr1 P1 E1. destruct i as [oi|e]; [|by apply runs_ret].
  destruct (_ && _); [by apply runs_ret|]. destruct oi as [i|]; [|apply create_extension_runs; try done; carry].
  case_decide; [by apply runs_ret|]. case_decide as Hv; [apply update_extension_runs; try tauto; try done; carry|].
  eapply runs_bind; [apply allowedAsInstalled_runs|]. intros [[[] ?]|e] tr2 P2 _; by apply runs_ret.
Qed.

(** *** The loop and the removed extensions *)

Lemma reconcileListed_runs tr ext l :
  removed_kept (lp_run l) → ext ∈ exts → read_owner tr dbOwner dbOwnerSuper →
  runs tr (reconcileListed lpg fuel p managedSchemas specSchemas listed dbOwner dbOwnerSuper lsave ext l)
    (λ l' _, removed_kept (lp_run l') ∧ length (lp_statuses l') = S (length (lp_statuses l))).
Proof.
  intros Hr Hext Ho. assert (es_Name ext ∈ listed) as Hl by (apply elem_of_list_to_set, list_elem_of_fmap; eauto).
  unfold reconcileListed. eapply runs_bind; [apply reconcileOne_runs; try done; by case_match|].
  intros x tr1 P1 Hx. cbv zeta. destruct (xr_inst x) as [i|].
  - eapply runs_bind; [apply allowedAsInstalled_runs|]. intros a tr2 P2 _. apply runs_ret.
    destruct a as [[[] ?]|e]; (split; [eapply removed_kept_insert; [exact Hx|reflexivity|done]|simpl; rewrite length_app; simpl; lia]).
  - apply runs_ret. (split; [eapply removed_kept_insert; [exact Hx|reflexivity|done]|simpl; rewrite length_app; simpl; lia]).
Qed.

Lemma extensionLoop_runs tr todo seen l :
  removed_kept (lp_run l) → todo ⊆ exts → read_owner tr dbOwner dbOwnerSuper →
  runs tr (extensionLoop lpg fuel p managedSchemas specSchemas listed dbOwner dbOwnerSuper lsave todo seen l)
    (λ l' _, removed_kept (lp_run l') ∧ (length (lp_statuses l') ≤ length (lp_statuses l) + length todo)%nat).
Proof.
  revert tr seen l. induction todo as [|ext todo IH]; intros tr seen l Hr Hsub Ho; simpl; [apply runs_ret; split; [done|lia]|].
  assert (todo ⊆ exts) by set_solver. case_decide.
  - eapply runs_conseq; [by apply IH|]. simpl. intros l' tr' _ [? ?]. split; [done|lia].
  - eapply runs_bind; [apply reconcileListed_runs; [done|set_solver|done]|]. intros l' tr1 P1 [Hr1 Hn].
    eapply runs_conseq; [apply IH; [done|done|carry]|]. intros l2 tr' _ [? ?]. split; [done|lia].
Qed.

Lemma dropLoop_runs tr cur names :
  (∀ n, n ∉ listed → cur !! n = entries !! n) → runs tr (dropLoop lpg listed cur names) (λ _ _, True).
Proof.
  intros Hc. revert tr. induction names as [|name names IH]; intros tr; simpl; [by apply runs_ret|].
  destruct (cur !! name) as [st|] eqn:Est; [|apply IH].
  destruct (bool_decide _ || _ || _) eqn:Ed; [apply IH|].
  apply orb_false_iff in Ed as [[Hl%bool_decide_eq_false Hcr]%orb_false_iff Hd].
  apply negb_false_iff in Hcr, Hd.
  assert (∀ tr' (k : _ → M _ (list gerr * list ExtensionStatus)), (∀ z, ∃ y, k z = mret y) →
    runs tr' (dropLoop lpg listed cur names ≫= k) (λ _ _, True)) as Hgo.
  { intros tr' k Hk. eapply runs_bind; [apply IH|]. intros z tr1 P1 _. destruct (Hk z) as [y ->]. by apply runs_ret. }
  ecall i tr1 P1 E1. destruct i as [[inst|]|e].
  - case_decide as Ho; [apply Hgo; intros []; eexists; reflexivity|].
    eapply runs_call.
    { intros e. split; [done|]. exists st, inst. rewrite <- Hc by done. split_and!; [done|done|done|done|tauto| |].
      - destruct (decide (ie_OID inst = est_OID st)); tauto.
      - destruct (decide (ie_Owner inst = est_Owner st)); tauto. }
    intros e tr2 P2 _. cbv beta. destruct e as [err|]; [|apply IH].
    case_match. apply Hgo. intros []. eexists. reflexivity.
  - apply IH.
  - apply Hgo. intros []. eexists. reflexivity.
Qed.
End owner.

Lemma dropRemoved_runs tr cur n :
  (∀ n, n ∉ listed → cur !! n = entries !! n) →
  runs tr (dropRemoved lpg listed cur n) (λ x _, (n + length x.2 ≤ extensionStatusLimit `max` n)%nat).
Proof.
  intros Hc. unfold dropRemoved. eapply runs_bind; [by apply dropLoop_runs|]. intros [errs keep] tr1 P1 _. cbv zeta.
  destruct (bool_decide (_ < _)%nat) eqn:Er; apply runs_ret; simpl.
  - rewrite length_take. lia.
  - apply bool_decide_eq_false in Er. lia.
Qed.

Lemma reconcileExtensions_runs spec managed st :
  exts = ds_Extensions spec → managedSchemas = list_to_set managed → specSchemas = list_to_set (ss_Name <$> ds_Schemas spec) →
  entries = current_extensions (dst_Extensions st) →
  runs [] (reconcileExtensions lpg fuel spec p managed lsave st) (λ x _,
    let limit := (extensionStatusLimit `max` length exts)%nat in
    (length (dst_Extensions st) ≤ limit → length (dst_Extensions x.2) ≤ limit)%nat).
Proof.
  intros He Hm Hs Hent. unfold reconcileExtensions. destruct (_ && _); [by apply runs_ret|].
  ecall o tr1 P1 E1. destruct o as [owner|e]; [|by apply runs_ret].
  ecall role tr2 P2 E2. destruct role as [role|e]; [|by apply runs_ret]. cbv zeta.
  rewrite <- He, <- Hm, <- Hs, <- Hent.
  eapply runs_bind; [apply extensionLoop_runs; [done|done|]|].
  { exists role. split_and!; [carry|done|done]. }
  intros l tr3 P3 [Hr Hn]. eapply runs_bind; [by apply dropRemoved_runs|]. intros [errs keep] tr4 P4 Hk.
  apply runs_ret. simpl in *. rewrite length_app. lia.
Qed.
End pass.
