(* ===== verification/ExtensionTheorems.v ===== *)
(** * Installation of extensions: theorems

    What a pass may do to the extensions of a database, for every behaviour of the
    server; the order of versions; and that dependencies are followed to their end. *)

From Stdlib Require Import Ascii.
From S2P Require Import Prelude GoStrings GoStrconv Privileges Parameters RoleSql ApiTypes RolePolicy GrantEngine GranteePolicy.
From S2P Require Import Grants Objects ObjectGrants PublicPrivileges ExtensionSql Extensions Trace ExtensionSafety.

(** ** Versions *)

(** The missing parts of the shorter version count as zero. *)
Definition part (v : list Z) (i : nat) : Z := nth i v 0%Z.

(** [pa] is lower at the first part where they differ. *)
Definition numbers_before (pa pb : list Z) : Prop := ∃ i, (∀ j, (j < i)%nat → part pa j = part pb j) ∧ (part pa i < part pb i)%Z.

Lemma part_tail v i : part (tail v) i = part v (S i).
Proof. destruct v; [|done]. by destruct i. Qed.

Lemma part_head v : default 0%Z (head v) = part v 0.
Proof. by destruct v. Qed.

Lemma numbers_before_tail pa pb : part pa 0 = part pb 0 → numbers_before (tail pa) (tail pb) → numbers_before pa pb.
Proof.
  intros H0 (i & Hj & Hi). rewrite !part_tail in Hi. exists (S i). split; [|done].
  intros [|j] Hlt; [done|]. rewrite <- !part_tail. apply Hj. lia.
Qed.

Lemma compare_numbers_spec n pa pb :
  (length pa ≤ n)%nat → (length pb ≤ n)%nat →
  compare_numbers n pa pb = (-1)%Z ∧ numbers_before pa pb ∨ compare_numbers n pa pb = 0%Z ∧ (∀ i, part pa i = part pb i) ∨
  compare_numbers n pa pb = 1%Z ∧ numbers_before pb pa.
Proof.
  revert pa pb. induction n as [|n IH]; intros pa pb Ha Hb.
  { right; left. destruct pa, pb; simpl in *; try lia. done. }
  cbn [compare_numbers]. rewrite !part_head. case_bool_decide as H1.
  { left. split; [done|]. exists 0%nat. split; [lia|done]. }
  case_bool_decide as H2.
  { right; right. split; [done|]. exists 0%nat. split; [lia|done]. }
  assert (part pa 0 = part pb 0) as H0 by lia.
  destruct (IH (tail pa) (tail pb)) as [[-> ?]|[[-> He]|[-> ?]]];
    [by destruct pa; simpl in *; lia|by destruct pb; simpl in *; lia| | |].
  - left. split; [done|]. by apply numbers_before_tail.
  - right; left. split; [done|]. intros [|i]; [done|]. by rewrite <- !part_tail.
  - right; right. split; [done|]. by apply numbers_before_tail.
Qed.

Lemma numbers_before_not_equal pa pb : numbers_before pa pb → (∀ i, part pa i = part pb i) → False.
Proof. intros (i & _ & Hi) He. rewrite He in Hi. lia. Qed.

Lemma numbers_before_asym pa pb : numbers_before pa pb → numbers_before pb pa → False.
Proof.
  intros (i & Hi & Hlt) (j & Hj & Hgt). destruct (Nat.lt_trichotomy i j) as [H|[->|H]]; [|lia|].
  - rewrite (Hj i H) in Hlt. lia.
  - rewrite (Hi j H) in Hgt. lia.
Qed.

(** Versions compare as sequences of numbers: -1, 0 or 1 when both are dotted
    numbers of 64 bits, exactly when the first is lower at the first part where they
    differ, when no part differs (missing parts are zero), or when it is higher; there
    is no answer when one of them is anything else. *)
Theorem compareExtensionVersions_order a b :
  match numericVersion a, numericVersion b with
  | Some pa, Some pb =>
      (compareExtensionVersions a b = Some (-1)%Z ↔ numbers_before pa pb) ∧
      (compareExtensionVersions a b = Some 0%Z ↔ ∀ i, part pa i = part pb i) ∧
      (compareExtensionVersions a b = Some 1%Z ↔ numbers_before pb pa) ∧
      is_Some (compareExtensionVersions a b)
  | _, _ => compareExtensionVersions a b = None
  end.
Proof.
  unfold compareExtensionVersions. destruct (numericVersion a) as [pa|], (numericVersion b) as [pb|]; try done.
  pose proof (numbers_before_not_equal pa pb) as Hn1. pose proof (numbers_before_not_equal pb pa) as Hn2.
  pose proof (numbers_before_asym pa pb) as Ha.
  destruct (compare_numbers_spec (length pa `max` length pb) pa pb) as [[-> ?]|[[-> He]|[-> ?]]]; [lia|lia| | |].
  - split_and!; [done|split; [done|tauto]|split; [done|tauto]|done].
  - split_and!; [split; [done|tauto]|done|split; [done|]|done]. intros ?. exfalso. by apply Hn2.
  - split_and!; [split; [done|tauto]| |done|done]. split; [done|]. intros He. exfalso. apply Hn2; auto.
Qed.

Example version_order : compareExtensionVersions "1.9" "1.10" = Some (-1)%Z ∧ compareExtensionVersions "1.2" "1.2.0" = Some 0%Z ∧
  compareExtensionVersions "1.2" "unpackaged" = None ∧ compareExtensionVersions "1.0beta" "1.1beta" = None.
Proof. done. Qed.

(** ** Dependencies *)

Section dependencies.
Context {W : Type} (pg : extensionInstallClient W) (known : gset string).

(** The extensions the server's control files require are among [known]. *)
Hypothesis Hknown : ∀ name info w, (xc_ExtensionVersion pg name "" w).1 = inl (Some info) → ∀ n, n ∈ ev_Requires info → n ∈ known.

(** An error of the server's, of one of the two catalog queries. *)
Definition server_error (e : gerr) : Prop :=
  ∃ name w, (xc_InstalledExtension pg name w).1 = inr e ∨ (xc_ExtensionVersion pg name "" w).1 = inr e.

Lemma next_unseen_known queue seen n rest :
  next_unseen queue seen = Some (n, rest) → (∀ m, m ∈ queue → m ∈ known) → n ∈ known ∧ n ∉ seen ∧ ∀ m, m ∈ rest → m ∈ known.
Proof.
  induction queue as [|m queue IH]; simpl; [done|]. intros He Hq. case_decide.
  - apply IH; [done|]. intros m' ?. apply Hq. by right.
  - simplify_eq. split_and!; [apply Hq; by left|done|]. intros m' ?. apply Hq. by right.
Qed.

Lemma unseen_decreases n seen fuel : n ∈ known → n ∉ seen → (size (known ∖ seen) ≤ S fuel)%nat → (size (known ∖ ({[n]} ∪ seen)) ≤ fuel)%nat.
Proof.
  intros Hk Hs Hf. assert (size (known ∖ ({[n]} ∪ seen)) < size (known ∖ seen))%nat; [|lia]. apply subset_size. set_solver.
Qed.

Lemma dependencies_go_enough fuel more queue seen d w :
  (∀ m, m ∈ queue → m ∈ known) → (size (known ∖ seen) ≤ fuel)%nat →
  dependencies_go pg (fuel + more) queue seen d w = dependencies_go pg fuel queue seen d w ∧
  ∀ e, (dependencies_go pg fuel queue seen d w).1 = inr e → server_error e.
Proof.
  revert queue seen d w. induction fuel as [|fuel IH]; intros queue seen d w Hq Hf.
  - assert (next_unseen queue seen = None) as Hn.
    { destruct (next_unseen queue seen) as [[n rest]|] eqn:En; [|done]. exfalso.
      destruct (next_unseen_known _ _ _ _ En Hq) as (Hk & Hs & _). apply Nat.le_0_r, size_empty_inv in Hf. set_solver. }
    destruct more; simpl; rewrite Hn; done.
  - simpl. destruct (next_unseen queue seen) as [[n rest]|] eqn:En; [|done].
    destruct (next_unseen_known _ _ _ _ En Hq) as (Hk & Hs & Hr). pose proof (unseen_decreases _ _ _ Hk Hs Hf) as Hf'.
    unfold ebind, mbind, M_bind.
    destruct (xc_InstalledExtension pg n w) as [[[i|]|e] w1] eqn:Ei; [by apply IH| |].
    + destruct (xc_ExtensionVersion pg n "" w1) as [[[dep|]|e] w2] eqn:Ev; [|by apply IH|].
      * apply IH; [|done]. intros m [Hm|Hm]%elem_of_app; [auto|]. eapply Hknown; [by rewrite Ev|done].
      * split; [done|]. intros e' [= <-]. exists n, w1. right. by rewrite Ev.
    + split; [done|]. intros e' [= <-]. exists n, w. left. by rewrite Ei.
Qed.
End dependencies.

(** C22: the dependencies of an extension are followed to their end, whatever cycles
    the control files have: with fuel for the extensions that control files require,
    more fuel changes nothing, and the only errors are those of the server's answers. *)
Theorem dependencies_terminate {W} (pg : extensionInstallClient W) known info fuel w :
  (∀ name info w, (xc_ExtensionVersion pg name "" w).1 = inl (Some info) → ∀ n, n ∈ ev_Requires info → n ∈ known) →
  (∀ n, n ∈ ev_Requires info → n ∈ known) → (size (known : gset string) ≤ fuel)%nat →
  (∀ more, dependencies pg (fuel + more) info w = dependencies pg fuel info w) ∧
  ∀ e, (dependencies pg fuel info w).1 = inr e → server_error pg e.
Proof.
  intros Hk Hi Hf. assert (size (known ∖ {[ev_Name info]}) ≤ fuel)%nat as Hf'.
  { etrans; [|exact Hf]. apply subseteq_size. set_solver. }
  split.
  - intros more. by apply (dependencies_go_enough pg known Hk).
  - by apply (dependencies_go_enough pg known Hk fuel 0).
Qed.

(** ** Properties of a pass *)

Lemma current_extensions_lookup l name st : current_extensions l !! name = Some st → st ∈ l ∧ est_Name st = name.
Proof.
  unfold current_extensions.
  assert (∀ m : gmap string ExtensionStatus, foldl (λ m st, <[est_Name st := st]> m) m l !! name = Some st →
    m !! name = Some st ∨ st ∈ l ∧ est_Name st = name) as Hg.
  { induction l as [|x l IH]; intros m; simpl; [auto|]. intros [Hi|[??]]%IH; [|right; split; [by right|done]].
    apply lookup_insert_Some in Hi as [[<- ->]|[_ ?]]; [right; split; [by left|done]|by left]. }
  intros [?|?]%Hg; done.
Qed.

Section properties.
Context `{UnicodePrint} `{ErrorText} {W : Type} (pg : extensionInstallClient W) (fuel : nat).
Context (spec : DatabaseSpec) (p : policy) (managed : list string) (save : statusSaver W DatabaseStatus) (st : DatabaseStatus).

Abbreviation logged_pass := (reconcileExtensions (logged_install pg) fuel spec p managed (logged_save save) st).

Lemma extension_call w res w' tr pre ev post :
  logged_pass (w, []) = (res, (w', tr)) → tr = pre ++ ev :: post →
  ext_call_ok p (list_to_set managed) (list_to_set (ss_Name <$> ds_Schemas spec)) (ds_Extensions spec)
    (current_extensions (dst_Extensions st)) (bool_decide (is_Some save)) pre ev.
Proof. intros Hrun. by eapply runs_justified; [apply reconcileExtensions_runs|]. Qed.

(** C20: CREATE EXTENSION runs only an extension of the spec that the catalogs showed
    as not installed, and only scripts the Cluster accepts: every version whose script
    may run, of it and of every dependency that is not installed, was read as trusted
    by the server, or the policy lists that extension; dependencies are installed
    along only if the spec says cascade, and all of them are available. Every schema
    that the scripts run in was read as one that only superusers, or for trusted
    scripts also the database's owner, can write to, or it did not exist and was
    created in the pass. The intent was saved before. CREATE SCHEMA is only for a
    missing schema of such a plan. *)
Theorem extension_create_safe w res w' tr pre ev post :
  logged_pass (w, []) = (res, (w', tr)) → tr = pre ++ ev :: post →
  (∀ name schema version cascade e, ev = XvCreate name schema version cascade e →
    ∃ ext plan, ext ∈ ds_Extensions spec ∧ name = es_Name ext ∧ schema = es_Schema ext ∧ version = es_Version ext ∧ cascade = es_Cascade ext ∧
      XvInstalled name (inl None) ∈ pre ∧ plan_allowed p pre ext plan ∧
      (∀ s, s ∈ plan_schemas ext plan →
        schema_ready (list_to_set managed) (list_to_set (ss_Name <$> ds_Schemas spec)) pre ext plan s) ∧
      (is_Some save → intent_saved pre name)) ∧
  (∀ s owner e, ev = XvCreateSchema s owner e →
    owner = "" ∧ ∃ ext plan, ext ∈ ds_Extensions spec ∧ plan_allowed p pre ext plan ∧
      may_create_schema (list_to_set (ss_Name <$> ds_Schemas spec)) pre ext plan s).
Proof.
  intros Hrun Heq. pose proof (extension_call _ _ _ _ _ _ _ Hrun Heq) as Hok. split; intros; subst ev; simpl in Hok; [|done].
  destruct Hok as (ext & He & -> & -> & -> & -> & (Hi & plan & Hp & Hs) & Hint). exists ext, plan. split_and!; try done.
  intros Hsv. apply Hint. by apply bool_decide_eq_true.
Qed.

(** C21: ALTER EXTENSION updates only an extension of the spec to the version the spec
    names, never to a numerically lower one than the installed version (versions that
    are not dotted numbers have no order here, so from 1.1beta an update to 1.0beta is
    made when the server has a path), along the server's first update path, whose every script is trusted or of an extension the policy
    lists, with all requirements installed, and in schemas only the accepted roles can
    write to. DROP EXTENSION is only for an extension that left the spec, whose entry
    in the status records that pgop created it and shall drop it, and only when the
    installation read just before has the oid and the owner that were recorded. *)
Theorem extension_update_drop_safe w res w' tr pre ev post :
  logged_pass (w, []) = (res, (w', tr)) → tr = pre ++ ev :: post →
  (∀ name version e, ev = XvUpdate name version e →
    ∃ ext, ext ∈ ds_Extensions spec ∧ name = es_Name ext ∧ version = es_Version ext ∧ may_update p (list_to_set managed) pre ext) ∧
  (∀ name e, ev = XvDrop name e →
    (∀ ext, ext ∈ ds_Extensions spec → es_Name ext ≠ name) ∧
    ∃ entry inst, entry ∈ dst_Extensions st ∧ est_Name entry = name ∧ est_Created entry = true ∧ est_DropOnRemoval entry = true ∧
      XvInstalled name (inl (Some inst)) ∈ pre ∧ est_OID entry ≠ 0%Z ∧ ie_OID inst = est_OID entry ∧ ie_Owner inst = est_Owner entry).
Proof.
  intros Hrun Heq. pose proof (extension_call _ _ _ _ _ _ _ Hrun Heq) as Hok. split; intros; subst ev; simpl in Hok; [done|].
  destruct Hok as (Hl & entry & inst & He & Hrest). split.
  - intros ext Hin Hn. apply Hl, elem_of_list_to_set, list_elem_of_fmap. eauto.
  - exists entry, inst. apply current_extensions_lookup in He as [??]. tauto.
Qed.

(** Status.extensions stays within its limit of 128 entries (a longer spec has
    one entry per extension), in the status that a pass saves before it creates an
    extension and in the one it returns. *)
Theorem extension_status_bounded w res w' tr :
  logged_pass (w, []) = (res, (w', tr)) →
  let limit := (extensionStatusLimit `max` length (ds_Extensions spec))%nat in
  (length (dst_Extensions st) ≤ limit → length (dst_Extensions res.2) ≤ limit)%nat ∧
  ∀ saved e, XvSave saved e ∈ tr → (length (dst_Extensions saved) ≤ limit)%nat.
Proof.
  intros Hrun limit. split.
  - destruct (reconcileExtensions_runs pg fuel save p _ _ _ _ spec managed st eq_refl eq_refl eq_refl eq_refl w) as [_ Hq].
    by rewrite Hrun in Hq.
  - intros saved e (pre & post & Heq)%list_elem_of_split. exact (extension_call _ _ _ _ _ _ _ Hrun Heq).
Qed.
End properties.

(** ** A concrete database *)

Module ToyExtensions.

#[export] Instance print : UnicodePrint := λ _, true.
#[export] Instance text : ErrorText := λ _, "an error".

(** [geo] requires [base], which requires [geo]; [words] is installed and can be
    updated; [old] is installed and left the spec. *)
Definition version (name v : string) (trusted : bool) (requires : list string) : ExtensionVersionInfo :=
  {| ev_Name := name; ev_Version := v; ev_Trusted := trusted; ev_Superuser := true; ev_Relocatable := true; ev_Schema := "";
     ev_Requires := requires |}.

Definition versions (name v : string) : option ExtensionVersionInfo :=
  if decide (name = "geo") then Some (version "geo" "3.1" false ["base"])
  else if decide (name = "base") then Some (version "base" "1.0" true ["geo"])
  else if decide (name = "words") then Some (version "words" v true [])
  else None.

Definition installed (name : string) : option InstalledExtension :=
  if decide (name = "words") then
    Some {| ie_Name := name; ie_Version := "1.9"; ie_Schema := "public"; ie_OID := 100; ie_Owner := "postgres" |}
  else if decide (name = "old") then
    Some {| ie_Name := name; ie_Version := "2"; ie_Schema := "public"; ie_OID := 77; ie_Owner := "postgres" |}
  else None.

Definition server : extensionInstallClient () :=
  {| xc_ExtensionVersion := λ n v, mret (inl (versions n v));
     xc_InstalledExtension := λ n, mret (inl (installed n));
     xc_ExtensionUpdatePaths := λ n a b, mret (inl (if decide (a = "") then [] else [[a; b]]));
     xc_SchemaWriters := λ s, mret (inl {| sw_Exists := bool_decide (s = "public"); sw_Owner := "postgres"; sw_OwnerSuperuser := true;
                                           sw_Creators := [] |});
     xc_CurrentDatabaseOwner := mret (inl "app");
     xc_LookupRole := λ _, mret (inl None);
     xc_CreateSchema := λ _ _, mret None; xc_CreateExtension := λ _ _ _ _, mret None;
     xc_UpdateExtension := λ _ _, mret None; xc_DropExtension := λ _, mret None |}.

Definition extension (name schema version : string) : ExtensionSpec :=
  {| es_Name := name; es_Schema := schema; es_Version := version; es_Cascade := true; es_DropOnRemoval := false; es_Grants := [] |}.

Definition spec : DatabaseSpec :=
  {| ds_ClusterRef := "main"; ds_DatabaseName := "app"; ds_Owner := "app"; ds_Schemas := []; ds_Grants := []; ds_Settings := ∅;
     ds_PublicPrivileges := None; ds_Extensions := [extension "geo" "geo" ""; extension "words" "" "1.10"] |}.

Definition pol : policy :=
  Some {| pol_AllowedAttributes := []; pol_AllowedPredefinedRoles := []; pol_AllowedExistingRoles := []; pol_AdoptableRoles := [];
          pol_AdoptableDatabases := []; pol_AllowedExtensions := ["geo"]; pol_AllowedSettingPrefixes := [] |}.

Definition status : DatabaseStatus :=
  {| dst_Ready := true; dst_DatabaseName := "app"; dst_ClusterUID := ""; dst_InstalledExtensions := []; dst_Extensions :=
       [{| est_Name := "old"; est_Version := "2"; est_Schema := "public"; est_Created := true; est_OID := 77; est_Owner := "postgres";
           est_DropOnRemoval := true; est_Reason := ""; est_Message := ""; est_SkippedObjects := 0 |}];
     dst_ManagedExtensionGrants := []; dst_CreatedSchemas := []; dst_ManagedGrants := []; dst_ManagedSchemaGrants := [];
     dst_ManagedObjectGrants := []; dst_ManagedDefaultPrivileges := []; dst_ObjectGrants := []; dst_RevokedPublicPrivileges := [];
     dst_ManagedSettings := []; dst_Conditions := [] |}.

Definition save : statusSaver () DatabaseStatus := Some (λ _, mret None).
Definition run := reconcileExtensions (logged_install server) 4 spec pol [] (logged_save save) status (tt, []).

Definition is_create (ev : ext_event) : bool := match ev with XvCreate n _ _ _ _ => bool_decide (n = "geo") | _ => false end.
Definition is_update (ev : ext_event) : bool := match ev with XvUpdate n _ _ => bool_decide (n = "words") | _ => false end.
Definition is_drop (ev : ext_event) : bool := match ev with XvDrop n _ => bool_decide (n = "old") | _ => false end.
End ToyExtensions.

Import ToyExtensions.

Lemma run_parts : reconcileExtensions (logged_install server) 4 spec pol [] (logged_save save) status (tt, []) = (run.1, (run.2.1, run.2.2)).
Proof. exact (run_split run). Qed.

(** [geo] is created with its dependency, whose scripts were read as trusted. *)
Lemma extension_create_safe_witness :
  ∃ pre post ext plan e, run.2.2 = pre ++ XvCreate "geo" "geo" "" true e :: post ∧ plan_allowed pol pre ext plan ∧ intent_saved pre "geo".
Proof.
  assert (called is_create run.2.2 = true) as Hc by (vm_compute; reflexivity).
  apply called_inv in Hc as (pre & ev & post & Heq & Ht). destruct ev as [| | | | | | |n s v c e| | |]; try discriminate Ht.
  apply bool_decide_eq_true in Ht as ->.
  destruct (extension_create_safe server 4 spec pol [] save status tt _ _ _ _ _ _ run_parts Heq) as [Hcr _].
  destruct (Hcr _ _ _ _ _ eq_refl) as (ext & plan & Hin & Hn & -> & -> & -> & _ & Hp & _ & Hs).
  apply elem_of_cons in Hin as [->|Hin]; [|apply list_elem_of_singleton in Hin as ->; discriminate Hn].
  exists pre, post, (extension "geo" "geo" ""), plan, e. split; [exact Heq|]. split; [exact Hp|]. apply Hs. by eexists.
Defined.

(** [words] is updated, and [old] is dropped. *)
Lemma extension_update_drop_safe_witness :
  (∃ pre post e, run.2.2 = pre ++ XvUpdate "words" "1.10" e :: post) ∧
  ∃ pre post e entry, run.2.2 = pre ++ XvDrop "old" e :: post ∧ entry ∈ dst_Extensions status ∧ est_Created entry = true.
Proof.
  split.
  - assert (called is_update run.2.2 = true) as Hc by (vm_compute; reflexivity).
    apply called_inv in Hc as (pre & ev & post & Heq & Ht). destruct ev as [| | | | | | | |n v e| |]; try discriminate Ht.
    apply bool_decide_eq_true in Ht as ->.
    destruct (extension_update_drop_safe server 4 spec pol [] save status tt _ _ _ _ _ _ run_parts Heq) as [Hu _].
    destruct (Hu _ _ _ eq_refl) as (ext & Hin & Hn & -> & _).
    apply elem_of_cons in Hin as [->|Hin]; [discriminate Hn|apply list_elem_of_singleton in Hin as ->]. eauto.
  - assert (called is_drop run.2.2 = true) as Hc by (vm_compute; reflexivity).
    apply called_inv in Hc as (pre & ev & post & Heq & Ht). destruct ev as [| | | | | | | | |n e|]; try discriminate Ht.
    apply bool_decide_eq_true in Ht as ->.
    destruct (extension_update_drop_safe server 4 spec pol [] save status tt _ _ _ _ _ _ run_parts Heq) as [_ Hd].
    destruct (Hd _ _ eq_refl) as (_ & entry & inst & Hin & _ & Hcr & _). exists pre, post, e, entry. auto.
Defined.

Lemma extension_status_bounded_witness : (length (dst_Extensions run.1.2) ≤ 128)%nat.
Proof.
  destruct (extension_status_bounded server 4 spec pol [] save status tt _ _ _ run_parts) as [H _].
  apply H. vm_compute. lia.
Defined.

(** A cycle of requirements: two names are followed. *)
Lemma dependencies_terminate_witness :
  dependencies server (2 + 40) (version "geo" "3.1" false ["base"]) tt = dependencies server 2 (version "geo" "3.1" false ["base"]) tt.
Proof.
  apply (dependencies_terminate server {["geo"; "base"]}).
  - intros name info w. simpl. unfold versions.
    destruct (decide (name = "geo")); [|destruct (decide (name = "base")); [|destruct (decide (name = "words"))]];
      intros [= <-]; cbn [ev_Requires version]; set_solver.
  - cbn [ev_Requires version]. set_solver.
  - apply Nat.leb_le. vm_compute. reflexivity.
Defined.
