(* ===== verification/ExtensionGrants.v ===== *)
(** * Grants on extensions' objects (src/internal/controller/database_extension_grants.go)

    What spec.extensions[].grants asks for, filtered by the policy and by what the
    server trusts, and carried out by the grant engine on the objects that belong to
    the extension. *)

From S2P Require Import Prelude GoStrings GoStrconv Privileges Parameters RoleSql ApiTypes RolePolicy GrantEngine.
From S2P Require Import GranteePolicy Grants Objects ObjectGrants PublicPrivileges ExtensionSql Extensions.

Definition ReasonExtensionGrantNotAllowed : string := "ExtensionGrantNotAllowed".
Definition extensionGrantLedgerLimit : ledgerLimit := 1024.

Definition extKindSchema : ObjectKind := "EXTENSION SCHEMA".
Definition extKindTables : ObjectKind := "EXTENSION TABLES".
Definition extKindSequences : ObjectKind := "EXTENSION SEQUENCES".
Definition extKindFunctions : ObjectKind := "EXTENSION FUNCTIONS".

(** [ek_member]: empty for the schema. *)
Record extensionKind := {
  ek_api : ExtensionObjectKind;
  ek_engine : ObjectKind;
  ek_member : MemberKind;
  ek_privileges : list string;
  ek_all : list string;
  ek_readOnly : list string;
  ek_spec : ExtensionGrantSpec → list string }.

Definition extensionKinds : list extensionKind :=
  [{| ek_api := ExtensionObjectSchema; ek_engine := extKindSchema; ek_member := "";
      ek_privileges := [PrivilegeCreate; PrivilegeUsage]; ek_all := [PrivilegeCreate; PrivilegeUsage];
      ek_readOnly := [PrivilegeUsage]; ek_spec := egs_Schema |};
   {| ek_api := ExtensionObjectTables; ek_engine := extKindTables; ek_member := MemberTables;
      ek_privileges := [PrivilegeSelect; PrivilegeInsert; PrivilegeUpdate; PrivilegeDelete; PrivilegeTruncate;
                        PrivilegeReferences; PrivilegeMaintain];
      ek_all := [PrivilegeSelect; PrivilegeInsert; PrivilegeUpdate; PrivilegeDelete; PrivilegeTruncate; PrivilegeReferences];
      ek_readOnly := [PrivilegeSelect]; ek_spec := egs_Tables |};
   {| ek_api := ExtensionObjectSequences; ek_engine := extKindSequences; ek_member := MemberSequences;
      ek_privileges := [PrivilegeUsage; PrivilegeSelect; PrivilegeUpdate];
      ek_all := [PrivilegeUsage; PrivilegeSelect; PrivilegeUpdate];
      ek_readOnly := [PrivilegeSelect]; ek_spec := egs_Sequences |};
   {| ek_api := ExtensionObjectFunctions; ek_engine := extKindFunctions; ek_member := MemberRoutines;
      ek_privileges := [PrivilegeExecute]; ek_all := [PrivilegeExecute]; ek_readOnly := [PrivilegeExecute];
      ek_spec := egs_Functions |}].

Definition extensionKindOf (k : string) : option extensionKind :=
  head (filter (λ ek, ek_engine ek = k ∨ ek_api ek = k) extensionKinds).

Fixpoint extension_normalize_go (ek : extensionKind) (privileges : list string) : result (list string) :=
  match privileges with
  | [] => inl []
  | p :: ps =>
      let u := ToUpper (Join (Fields p) " ") in
      if bool_decide (u = PrivilegeAll) || bool_decide (u = allPrivilegesKeyword) then
        try rest := extension_normalize_go ek ps in inl (ek_all ek ++ rest)
      else if slices_Contains (ek_privileges ek) u then
        try rest := extension_normalize_go ek ps in inl (u :: rest)
      else inr (Errorf "invalid %s privilege %q (allowed: %s, ALL)" [ek_api ek; p; Join (ek_privileges ek) ", "])
  end.

(** [extensionKind.normalize]. *)
Definition extension_normalize (ek : extensionKind) (privileges : list string) : result (list string) :=
  match privileges with
  | [] => inr (Errorf "no %s privileges given" [ek_api ek])
  | _ => try out := extension_normalize_go ek privileges in inl (slices_Compact (slices_Sort out))
  end.

Definition extensionTarget (kind extension schema grantee : string) : grantTarget :=
  {| gt_Kind := kind; gt_Name := extension; gt_Grantee := CanonicalGrantee grantee; gt_Schema := schema; gt_ForRole := ""; gt_OID := 0 |}.

Definition extensionLedger (managed : list ManagedExtensionGrant) : list privilegeGrant :=
  omap (λ m, match extensionKindOf (meg_Kind m) with
             | Some ek => Some {| g_Target := extensionTarget (ek_engine ek) (meg_Extension m) (meg_Schema m) (meg_Role m);
                                  g_Privileges := meg_Privileges m; g_GrantOptions := [] |}
             | None => None
             end) managed.

Definition extensionLedgerStatus (ledger : list privilegeGrant) : list ManagedExtensionGrant :=
  omap (λ g, match extensionKindOf (gt_Kind (g_Target g)) with
             | Some ek => Some {| meg_Extension := gt_Name (g_Target g); meg_Role := gt_Grantee (g_Target g); meg_Kind := ek_api ek;
                                  meg_Schema := gt_Schema (g_Target g); meg_Privileges := g_Privileges g |}
             | None => None
             end) ledger.

(** ** What the spec asks for *)

Section desired.
Context `{UnicodePrint} (specSchemas : gset string) (states : extensionStates) (serverVersion : Z).

(** The grants of one field, and what is not allowed or not supported. *)
Record extension_field_grants := { extfg_list : list privilegeGrant; fg_notAllowed : list string; fg_unsupported : list string }.

Definition no_field : extension_field_grants := {| extfg_list := []; fg_notAllowed := []; fg_unsupported := [] |}.
Definition add_notAllowed (f : extension_field_grants) (s : string) : extension_field_grants :=
  {| extfg_list := extfg_list f; fg_notAllowed := fg_notAllowed f ++ [s]; fg_unsupported := fg_unsupported f |}.
Definition add_unsupported (f : extension_field_grants) (s : string) : extension_field_grants :=
  {| extfg_list := extfg_list f; fg_notAllowed := fg_notAllowed f; fg_unsupported := fg_unsupported f ++ [s] |}.
Definition add_grant (f : extension_field_grants) (g : privilegeGrant) : extension_field_grants :=
  {| extfg_list := extfg_list f ++ [g]; fg_notAllowed := fg_notAllowed f; fg_unsupported := fg_unsupported f |}.

(** MAINTAIN only from PostgreSQL 17 on, then the grant unless nothing is left. *)
Definition add_supported (field : string) (g : ExtensionGrantSpec) (t : grantTarget) (privs : list string) (f : extension_field_grants)
    : extension_field_grants :=
  if slices_Contains privs PrivilegeMaintain && bool_decide (serverVersion < MinMaintainPrivilegeVersion)%Z then
    let f := add_unsupported f (field +:+ "[" +:+ egs_Role g +:+ "].tables: MAINTAIN") in
    let privs := filter (.≠ PrivilegeMaintain) privs in
    if decide (privs = []) then f else add_grant f (desiredGrant t privs false)
  else add_grant f (desiredGrant t privs false).

(** Only read-only privileges on an extension the server does not trust. *)
Definition add_trusted (field name : string) (g : ExtensionGrantSpec) (ek : extensionKind) (t : grantTarget) (privs : list string)
    (f : extension_field_grants) : extension_field_grants :=
  let denied := subtract privs (ek_readOnly ek) in
  if bool_decide (name ∈ xs_untrusted states) && negb (bool_decide (denied = [])) then
    let f := add_notAllowed f (field +:+ "[" +:+ egs_Role g +:+ "]." +:+ ek_api ek +:+ ": " +:+ Join denied ", "
               +:+ ", because the server does not trust the extension (only the Cluster's allowedExtensions allows it): only "
               +:+ Join (ek_readOnly ek) ", ") in
    let privs := intersect privs (ek_readOnly ek) in
    if decide (privs = []) then f else add_supported field g t privs f
  else add_supported field g t privs f.

Definition own_schema (schema : string) : bool :=
  negb (bool_decide (schema = publicSchemaName) || systemSchemaName schema || bool_decide (schema ∈ specSchemas)).

Definition kind_grants (field name : string) (inst : InstalledExtension) (g : ExtensionGrantSpec) (grantee : string)
    (ek : extensionKind) (f : extension_field_grants) : result extension_field_grants :=
  match ek_spec ek g with
  | [] => inl f
  | requested =>
      match extension_normalize ek requested with
      | inr e => inr (Wrapf "%s[%s]: %w" [field; egs_Role g] e)
      | inl privs =>
          if decide (ek_engine ek = extKindSchema) then
            let schema := ie_Schema inst in
            if own_schema schema then inl (add_trusted field name g ek (extensionTarget (ek_engine ek) name schema grantee) privs f)
            else inl (add_notAllowed f (field +:+ "[" +:+ egs_Role g +:+ "].schema: the extension is installed in " +:+ schema
                   +:+ ", not in a schema of its own (grant on it in spec.schemas[].grants)"))
          else inl (add_trusted field name g ek (extensionTarget (ek_engine ek) name "" grantee) privs f)
      end
  end.

Fixpoint all_kinds (field name : string) (inst : InstalledExtension) (g : ExtensionGrantSpec) (grantee : string)
    (kinds : list extensionKind) (f : extension_field_grants) : result extension_field_grants :=
  match kinds with
  | [] => inl f
  | ek :: rest => try f := kind_grants field name inst g grantee ek f in all_kinds field name inst g grantee rest f
  end.

Fixpoint extension_field (field name : string) (inst : InstalledExtension) (gs : list ExtensionGrantSpec) (seen : gset string)
    (f : extension_field_grants) : result extension_field_grants :=
  match gs with
  | [] => inl f
  | g :: rest =>
      let grantee := CanonicalGrantee (egs_Role g) in
      if decide (grantee ∈ seen) then inr (Errorf "%s: role %q is listed more than once" [field; grantee])
      else try f := all_kinds field name inst g grantee extensionKinds f in
           extension_field field name inst rest ({[grantee]} ∪ seen) f
  end.

Definition extensionGrants_field (name : string) : string := "extensions[" +:+ name +:+ "].grants".

Fixpoint extensionGrants_go (exts : list ExtensionSpec) (fields : list string) (grants : gmap string (list privilegeGrant))
    (notAllowed unsupported : list string)
    : result (list string * gmap string (list privilegeGrant) * list string * list string) :=
  match exts with
  | [] => inl (fields, grants, notAllowed, unsupported)
  | ext :: rest =>
      match xs_eligible states !! es_Name ext, es_Grants ext with
      | None, _ | _, [] => extensionGrants_go rest fields grants notAllowed unsupported
      | Some inst, gs =>
          let field := extensionGrants_field (es_Name ext) in
          match grants !! field with
          | Some _ => extensionGrants_go rest fields grants notAllowed unsupported
          | None =>
              try f := extension_field field (es_Name ext) inst gs ∅ no_field in
              extensionGrants_go rest (fields ++ [field]) (<[field := extfg_list f]> grants)
                (notAllowed ++ fg_notAllowed f) (unsupported ++ fg_unsupported f)
          end
      end
  end.
End desired.

(** The fields in order, the grants of each, what is not allowed and what the server does not support. *)
Definition desiredExtensionGrants `{UnicodePrint} (spec : DatabaseSpec) (states : extensionStates) (serverVersion : Z)
    : result (list string * gmap string (list privilegeGrant) * list string * list string) :=
  extensionGrants_go (list_to_set (ss_Name <$> ds_Schemas spec)) states serverVersion (ds_Extensions spec) [] ∅ [] [].

(** ** The server *)

Record extensionGrantClient (W : Type) := {
  gx_executor : privilegeExecutor W;
  gx_RoleExists : string → M W (result bool);
  gx_SchemaExists : string → M W (result bool);
  gx_InstalledExtension : string → M W (result (option InstalledExtension));
  gx_ExtensionMembers : string → MemberKind → string → M W (result (list ExtensionMember));
  gx_GrantOnMembers : MemberKind → list string → list string → string → M W error;
  gx_RevokeOnMembers : MemberKind → list string → list string → string → M W error }.
Arguments gx_executor {W}. Arguments gx_RoleExists {W}. Arguments gx_SchemaExists {W}. Arguments gx_InstalledExtension {W}.
Arguments gx_ExtensionMembers {W}. Arguments gx_GrantOnMembers {W}. Arguments gx_RevokeOnMembers {W}.

Definition schemaObj (t : grantTarget) : PrivilegeObject := {| po_Kind := ObjectSchema; po_Name := gt_Schema t |}.

Section ops.
Context `{UnicodePrint} {W : Type} (pg : extensionGrantClient W).

(** What the schema grants of any extension declare, per schema and grantee. *)
Abbreviation schema_cover := (gmap string (list string)).

Definition cover_key (t : grantTarget) : string := gt_Schema t +:+ "|" +:+ gt_Grantee t.

Definition members (t : grantTarget) : M W (result (extensionKind * list ExtensionMember)) :=
  match extensionKindOf (gt_Kind t) with
  | None => mret (inr (Errorf "unsupported extension grant kind %q" [gt_Kind t]))
  | Some ek => ms ⇐ gx_ExtensionMembers pg (gt_Name t) (ek_member ek) (gt_Grantee t); mret (inl (ek, ms))
  end.

(** One call per privilege, for the members that [select] picks. *)
Fixpoint on_members (call : list string → list string → M W error) (select : string → ExtensionMember → bool)
    (ms : list ExtensionMember) (privileges : list string) : M W (list error) :=
  match privileges with
  | [] => mret []
  | p :: ps =>
      let ids := em_Identity <$> filter (λ m, select p m = true) ms in
      e ← (if decide (ids = []) then mret None else call ids [p]);
      es ← on_members call select ms ps;
      mret (e :: es)
  end.

Definition extensionGrantOps (cover : schema_cover) : privilegeOps W :=
  {| op_held := λ t,
       if decide (gt_Kind t = extKindSchema) then
         r ← HeldPrivileges W (gx_executor pg) (schemaObj t) (gt_Grantee t);
         mret (match r with inl (privileges, grantable, _) => inl (privileges, grantable) | inr e => inr e end)
       else
         '(ek, ms) ⇐ members t;
         mret (inl (foldl (λ held m, if em_Eligible m then intersect held (em_Held m) else held) (ek_privileges ek) ms, []));
     op_grant := λ t privileges _,
       if decide (gt_Kind t = extKindSchema) then GrantPrivileges W (gx_executor pg) (schemaObj t) (gt_Grantee t) privileges false
       else
         r ← members t;
         match r with
         | inr e => mret (Some e)
         | inl (ek, ms) =>
             es ← on_members (λ ids ps, gx_GrantOnMembers pg (ek_member ek) ids ps (gt_Grantee t))
                    (λ p m, em_Eligible m && negb (slices_Contains (em_Held m) p)) ms privileges;
             mret (errors_Join es)
         end;
     op_revoke := λ t privileges _,
       if decide (gt_Kind t = extKindSchema) then
         let privileges := subtract privileges (default [] (cover !! cover_key t)) in
         if decide (privileges = []) then mret None
         else RevokePrivileges W (gx_executor pg) (schemaObj t) (gt_Grantee t) privileges no_mode
       else
         r ← members t;
         match r with
         | inr e => mret (Some e)
         | inl (ek, ms) =>
             es ← on_members (λ ids ps, gx_RevokeOnMembers pg (ek_member ek) ids ps (gt_Grantee t))
                    (λ p m, slices_Contains (em_Held m) p) ms privileges;
             mret (errors_Join es)
         end;
     op_gone := Some (λ t,
       gone ⇐ roleGone (gx_RoleExists pg) t;
       if gone : bool then mret (inl true)
       else if decide (gt_Kind t = extKindSchema) then
         if decide (gt_Schema t = "") then mret (inl true)
         else e ⇐ gx_SchemaExists pg (gt_Schema t); mret (inl (negb e))
       else i ⇐ gx_InstalledExtension pg (gt_Name t); mret (inl match i with Some _ => false | None => true end)) |}.

(** The objects that no longer qualify: the recorded privileges are revoked, and they
    are counted per extension. *)
Fixpoint ineligibleLoop (recorded : gmap string (list string)) (desired : list privilegeGrant) (skipped : gmap string (gset string))
    : M W (list error * gmap string (gset string)) :=
  match desired with
  | [] => mret ([], skipped)
  | d :: rest =>
      let t := g_Target d in
      match extensionKindOf (gt_Kind t) with
      | None => ineligibleLoop recorded rest skipped
      | Some ek =>
          if decide (ek_member ek = "") then ineligibleLoop recorded rest skipped
          else
            r ← gx_ExtensionMembers pg (gt_Name t) (ek_member ek) (gt_Grantee t);
            match r with
            | inr e => '(es, skipped) ← ineligibleLoop recorded rest skipped; mret (Some e :: es, skipped)
            | inl ms =>
                es ← on_members (λ ids ps, gx_RevokeOnMembers pg (ek_member ek) ids ps (gt_Grantee t))
                       (λ p m, negb (em_Eligible m) && slices_Contains (em_Held m) p) ms (default [] (recorded !! key t));
                let ids : gset string := list_to_set ((λ m, ek_member ek +:+ " " +:+ em_Identity m)
                                           <$> filter (λ m, em_Eligible m = false) ms) in
                let skipped := if decide (ids = ∅) then skipped
                               else <[gt_Name t := ids ∪ default ∅ (skipped !! gt_Name t)]> skipped in
                '(es', skipped) ← ineligibleLoop recorded rest skipped;
                mret (es ++ es', skipped)
            end
      end
  end.

Definition with_skipped (st : ExtensionStatus) (n : Z) : ExtensionStatus :=
  {| est_Name := est_Name st; est_Version := est_Version st; est_Schema := est_Schema st; est_Created := est_Created st;
     est_OID := est_OID st; est_Owner := est_Owner st; est_DropOnRemoval := est_DropOnRemoval st; est_Reason := est_Reason st;
     est_Message := est_Message st; est_SkippedObjects := n |}.

Definition revokeFromIneligibleObjects (desired ledger : list privilegeGrant) (st : DatabaseStatus) : M W (error * DatabaseStatus) :=
  let recorded := foldl (λ m g, <[key (g_Target g) := g_Privileges g]> m) (∅ : gmap string (list string)) ledger in
  '(es, skipped) ← ineligibleLoop recorded desired ∅;
  mret (errors_Join es, set_Extensions st
    ((λ e, with_skipped e (Z.of_nat (size (default ∅ (skipped !! est_Name e))))) <$> dst_Extensions st)).
End ops.

(** ** The reconcile *)

Definition set_ManagedExtensionGrants (st : DatabaseStatus) (v : list ManagedExtensionGrant) : DatabaseStatus :=
  {| dst_Ready := dst_Ready st; dst_DatabaseName := dst_DatabaseName st; dst_ClusterUID := dst_ClusterUID st;
     dst_InstalledExtensions := dst_InstalledExtensions st; dst_Extensions := dst_Extensions st;
     dst_ManagedExtensionGrants := v; dst_CreatedSchemas := dst_CreatedSchemas st;
     dst_ManagedGrants := dst_ManagedGrants st; dst_ManagedSchemaGrants := dst_ManagedSchemaGrants st;
     dst_ManagedObjectGrants := dst_ManagedObjectGrants st; dst_ManagedDefaultPrivileges := dst_ManagedDefaultPrivileges st;
     dst_ObjectGrants := dst_ObjectGrants st; dst_RevokedPublicPrivileges := dst_RevokedPublicPrivileges st;
     dst_ManagedSettings := dst_ManagedSettings st; dst_Conditions := dst_Conditions st |}.

Section reconcile.
Context `{UnicodePrint} {W : Type} (LookupRole : string → M W (result (option ReachableRole))) (c : granteeChecker).
Context (pg : extensionGrantClient W).

(** The schema privileges the desired grants declare. *)
Definition desired_cover (desired : list privilegeGrant) : gmap string (list string) :=
  foldl (λ m d, if decide (gt_Kind (g_Target d) = extKindSchema)
                then <[cover_key (g_Target d) := str_union (default [] (m !! cover_key (g_Target d))) (g_Privileges d)]> m
                else m) ∅ desired.

(** The ledger with the entries of the extensions whose state is not known. *)
Definition with_kept_extensions (kept ledger : list privilegeGrant) : list ManagedExtensionGrant :=
  extensionLedgerStatus (sortedGrants (foldl (λ m g, <[key (g_Target g) := g]> m) ∅ (ledger ++ kept))).

Definition reconcileExtensionGrants (spec : DatabaseSpec) (states : extensionStates) (serverVersion : Z)
    (save : statusSaver W DatabaseStatus) (st : DatabaseStatus) (ck : checkerCaches) : M W (error * DatabaseStatus * checkerCaches) :=
  if xs_allUnknown states then mret (None, st, ck)
  else
  match desiredExtensionGrants spec states serverVersion with
  | inr e => mret (Some e, st, ck)
  | inl (fields, all, notAllowed, unsupported) =>
      let ledger := extensionLedger (dst_ManagedExtensionGrants st) in
      let kept := filter (λ g, gt_Name (g_Target g) ∈ xs_unknown states) ledger in
      let managed := filter (λ g, gt_Name (g_Target g) ∉ xs_unknown states) ledger in
      if decide (fields = [] ∧ managed = []) then mret (None, st, ck)
      else
        '(r, held, ck) ← filterFields LookupRole c fields all no_filter ck;
        match r with
        | inr e => mret (Some e, st, ck)
        | inl desired =>
            '(after, err) ← applyPrivilegeGrants (extensionGrantOps pg (desired_cover desired)) desired managed
                (Z.max (extensionGrantLedgerLimit - Z.of_nat (length kept)) 1)
                (persist_with save (λ l, set_ManagedExtensionGrants st (with_kept_extensions kept l)));
            let st := set_ManagedExtensionGrants st (with_kept_extensions kept after) in
            '(ierr, st) ← revokeFromIneligibleObjects pg desired after st;
            mret (errors_Join [err; grantFilter_err held; ierr;
              match notAllowed with
              | [] => None
              | _ => Some (CondErr ReasonExtensionGrantNotAllowed (Errorf
                       "extension grants not applied (and revoked if pgop granted them): %s" [Join notAllowed "; "]))
              end;
              match unsupported with
              | [] => None
              | _ => Some (CondErr ReasonUnsupportedServerVersion (Errorf
                       "the MAINTAIN privilege needs PostgreSQL 17 or later: %s" [Join unsupported "; "]))
              end], st, ck)
        end
  end.

Definition reconcileExtensionAccess (ServerVersionNum : M W (result Z)) (spec : DatabaseSpec) (states : extensionStates)
    (save : statusSaver W DatabaseStatus) (st : DatabaseStatus) (ck : checkerCaches) : M W (error * DatabaseStatus * checkerCaches) :=
  if bool_decide (length (dst_ManagedExtensionGrants st) = 0%nat)
       && forallb (λ e, bool_decide (length (es_Grants e) = 0%nat)) (ds_Extensions spec)
  then mret (None, set_Extensions st ((λ e, with_skipped e 0) <$> dst_Extensions st), ck)
  else
    v ← ServerVersionNum;
    match v with
    | inr e => mret (Some e, st, ck)
    | inl version => reconcileExtensionGrants spec states version save st ck
    end.
End reconcile.

(** [extensionsGrantingTo]: whether the grants name the PostgreSQL role. *)
Definition extensionsGrantingTo (spec : DatabaseSpec) (pgName : string) : bool :=
  existsb (λ e, existsb (λ g, bool_decide (egs_Role g = pgName)) (es_Grants e)) (ds_Extensions spec).
