(* ===== verification/ExtensionGrantSafety.v ===== *)
(** * Grants on extensions' objects: what is asked of the server

    The reconcile of ExtensionGrants.v with every call recorded, for any server: what
    it desires and why, and what justifies each GRANT and REVOKE it sends. *)

From Stdlib Require Import Ascii.
From S2P Require Import Prelude GoStrings GoStrconv Privileges Parameters RoleSql ApiTypes RolePolicy Objects Settings Trace.
From S2P Require Import GrantEngine GrantTrace GrantProps GranteePolicy Grants ObjectGrants ExtensionSql.
From S2P Require Import GrantSafety DatabaseGrants GrantPolicyTheorems PublicPrivileges Extensions ExtensionGrants.

(** ** Kinds *)

Lemma extensionKindOf_elem k ek : extensionKindOf k = Some ek → ek ∈ extensionKinds ∧ (ek_engine ek = k ∨ ek_api ek = k).
Proof.
  unfold extensionKindOf. intros H.
  assert (ek ∈ filter (λ ek, ek_engine ek = k ∨ ek_api ek = k) extensionKinds) as Hin
    by (destruct (filter _ _); simplify_eq/=; by left).
  apply list_elem_of_filter in Hin. naive_solver.
Qed.

Lemma extension_kind_facts ek :
  ek ∈ extensionKinds → ContainsByte (ek_engine ek) "|"%char = false ∧ extensionKindOf (ek_engine ek) = Some ek ∧
  extensionKindOf (ek_api ek) = Some ek ∧ (ek_member ek = "" ↔ ek_engine ek = extKindSchema).
Proof.
  assert (Forall (λ ek, ContainsByte (ek_engine ek) "|"%char = false ∧ extensionKindOf (ek_engine ek) = Some ek ∧
    extensionKindOf (ek_api ek) = Some ek ∧ (ek_member ek = "" ↔ ek_engine ek = extKindSchema)) extensionKinds) as H by (by repeat constructor).
  rewrite Forall_forall in H. apply H.
Qed.

Lemma CanonicalGrantee_idem g : CanonicalGrantee (CanonicalGrantee g) = CanonicalGrantee g.
Proof. unfold CanonicalGrantee. destruct (IsPublic g) eqn:E; [done|by rewrite E]. Qed.

(** A target of an extension's grants. *)
Definition extension_target (t : grantTarget) : Prop :=
  ∃ ek name schema grantee, ek ∈ extensionKinds ∧ t = extensionTarget (ek_engine ek) name schema grantee.

Lemma extension_key_inj `{UP : UnicodePrint} t1 t2 :
  extension_target t1 → extension_target t2 → key t1 = key t2 →
  gt_Kind t1 = gt_Kind t2 ∧ gt_Name t1 = gt_Name t2 ∧ gt_Grantee t1 = gt_Grantee t2.
Proof.
  intros (ek1 & n1 & s1 & g1 & H1 & ->) (ek2 & n2 & s2 & g2 & H2 & ->) Hk.
  apply key_inj in Hk as (? & ? & _ & _ & Hn); [auto| |]; by apply extension_kind_facts.
Qed.

(** ** What the spec asks for *)

Section desired.
Context `{UP : UnicodePrint} (spec : DatabaseSpec) (states : extensionStates) (serverVersion : Z).

Abbreviation specSchemas := (list_to_set (ss_Name <$> ds_Schemas spec) : gset string).

(** The grant [d] is for a grant entry of an extension of the spec, which is installed
    and which the policy allows: for privileges the entry asks for, read-only ones if
    the server does not trust the extension, and on a schema only if the extension has
    it for its own. *)
Definition from_extension (name : string) (inst : InstalledExtension) (g : ExtensionGrantSpec) (ek : extensionKind) (d : privilegeGrant) : Prop :=
  ∃ privs ps schema, ek ∈ extensionKinds ∧ extension_normalize ek (ek_spec ek g) = inl privs ∧
    d = desiredGrant (extensionTarget (ek_engine ek) name schema (CanonicalGrantee (egs_Role g))) ps false ∧
    (∀ p, p ∈ ps → p ∈ privs) ∧ (name ∈ xs_untrusted states → ∀ p, p ∈ ps → p ∈ ek_readOnly ek) ∧
    (PrivilegeMaintain ∈ ps → (MinMaintainPrivilegeVersion ≤ serverVersion)%Z) ∧
    (ek_engine ek = extKindSchema → schema = ie_Schema inst ∧ own_schema specSchemas schema = true).

Definition from_extensions (d : privilegeGrant) : Prop :=
  ∃ ext inst g ek, ext ∈ ds_Extensions spec ∧ xs_eligible states !! es_Name ext = Some inst ∧ g ∈ es_Grants ext ∧
    from_extension (es_Name ext) inst g ek d.

Lemma add_supported_spec field g t privs f :
  let new := add_supported serverVersion field g t privs f in
  extfg_list new = extfg_list f ∨
  ∃ ps, extfg_list new = extfg_list f ++ [desiredGrant t ps false] ∧ (∀ p, p ∈ ps → p ∈ privs) ∧
    (PrivilegeMaintain ∈ ps → (MinMaintainPrivilegeVersion ≤ serverVersion)%Z).
Proof.
  unfold add_supported. destruct (_ && _) eqn:Eb; simpl.
  - destruct (decide (filter (λ y, y ≠ PrivilegeMaintain) privs = [])); [by left|]. right. eexists. split; [done|]. split; [by intros p [_ ?]%list_elem_of_filter|].
    by intros [[] _]%list_elem_of_filter.
  - right. exists privs. split; [done|]. split; [done|]. intros Hm. apply andb_false_iff in Eb as [Eb|Eb].
    + by apply slices_Contains_false in Eb.
    + apply bool_decide_eq_false in Eb. lia.
Qed.

Lemma add_trusted_spec field name g ek t privs f :
  let new := add_trusted states serverVersion field name g ek t privs f in
  extfg_list new = extfg_list f ∨
  ∃ ps, extfg_list new = extfg_list f ++ [desiredGrant t ps false] ∧ (∀ p, p ∈ ps → p ∈ privs) ∧
    (name ∈ xs_untrusted states → ∀ p, p ∈ ps → p ∈ ek_readOnly ek) ∧
    (PrivilegeMaintain ∈ ps → (MinMaintainPrivilegeVersion ≤ serverVersion)%Z).
Proof.
  unfold add_trusted. destruct (_ && _) eqn:Eb; cbv zeta.
  - destruct (decide (intersect privs (ek_readOnly ek) = [])); [by left|].
    destruct (add_supported_spec field g t (intersect privs (ek_readOnly ek)) (add_notAllowed f
      (field +:+ "[" +:+ egs_Role g +:+ "]." +:+ ek_api ek +:+ ": " +:+ Join (subtract privs (ek_readOnly ek)) ", "
         +:+ ", because the server does not trust the extension (only the Cluster's allowedExtensions allows it): only "
         +:+ Join (ek_readOnly ek) ", "))) as [H|(ps & H & Hps & Hm)]; [by left|right].
    exists ps. split_and!; [done| | |done].
    + intros p Hp. by apply Hps, elem_of_intersect in Hp as [??].
    + intros _ p Hp. by apply Hps, elem_of_intersect in Hp as [??].
  - destruct (add_supported_spec field g t privs f) as [H|(ps & H & Hps & Hm)]; [by left|right].
    exists ps. split_and!; [done|done| |done]. intros Hn p Hp.
    apply andb_false_iff in Eb as [Eb|Eb]; [by apply bool_decide_eq_false in Eb|].
    apply negb_false_iff, bool_decide_eq_true, subtract_nil_iff with (x := p) in Eb; [done|by apply Hps].
Qed.

Lemma kind_grants_spec field name inst g ek f f' :
  ek ∈ extensionKinds → kind_grants specSchemas states serverVersion field name inst g (CanonicalGrantee (egs_Role g)) ek f = inl f' →
  extfg_list f' = extfg_list f ∨ ∃ d, extfg_list f' = extfg_list f ++ [d] ∧ from_extension name inst g ek d.
Proof.
  intros Hek. unfold kind_grants. destruct (ek_spec ek g) as [|r rs] eqn:Es; [intros [= <-]; by left|].
  rewrite <- Es. destruct (extension_normalize ek (ek_spec ek g)) as [privs|e] eqn:En; [|done].
  assert (∀ schema, (ek_engine ek = extKindSchema → schema = ie_Schema inst ∧ own_schema specSchemas schema = true) →
    let new := add_trusted states serverVersion field name g ek (extensionTarget (ek_engine ek) name schema (CanonicalGrantee (egs_Role g))) privs f in
    extfg_list new = extfg_list f ∨ ∃ d, extfg_list new = extfg_list f ++ [d] ∧ from_extension name inst g ek d) as Hgo.
  { intros schema Hs. destruct (add_trusted_spec field name g ek (extensionTarget (ek_engine ek) name schema (CanonicalGrantee (egs_Role g)))
      privs f) as [H|(ps & H & Hp & Hu & Hm)]; [by left|right]. eexists. split; [exact H|]. exists privs, ps, schema. by split_and!. }
  case_decide as Hk.
  - destruct (own_schema _ _) eqn:Eo; intros [= <-]; [|by left]. apply Hgo. done.
  - intros [= <-]. by apply Hgo.
Qed.

(** The grants of one grantee: at most one per kind. *)
Lemma all_kinds_spec field name inst g kinds f f' :
  kinds ⊆ extensionKinds → all_kinds specSchemas states serverVersion field name inst g (CanonicalGrantee (egs_Role g)) kinds f = inl f' →
  ∃ new, extfg_list f' = extfg_list f ++ new ∧ sublist ((λ d, gt_Kind (g_Target d)) <$> new) (ek_engine <$> kinds) ∧
    ∀ d, d ∈ new → ∃ ek, from_extension name inst g ek d.
Proof.
  revert f. induction kinds as [|ek kinds IH]; intros f Hsub; cbn [all_kinds].
  { intros [= <-]. exists []. rewrite app_nil_r. split_and!; [done|constructor|by intros ? ?%elem_of_nil]. }
  destruct (kind_grants _ _ _ _ _ _ _ _ _ _) as [f1|] eqn:Ek; [|done]. intros Hgo.
  destruct (IH f1 ltac:(set_solver) Hgo) as (new & Heq & Hs & Hf). rewrite Heq.
  apply kind_grants_spec in Ek as [->|(d & -> & Hd)]; [| |set_solver].
  - exists new. split_and!; [done|by constructor|done].
  - exists (d :: new). rewrite <- app_assoc. split_and!; [done| |].
    + destruct Hd as (privs & ps & schema & _ & _ & -> & _). simpl. by constructor.
    + intros d' [->|?]%elem_of_cons; eauto.
Qed.

Lemma from_extension_target name inst g ek d :
  from_extension name inst g ek d → extension_target (g_Target d) ∧ gt_Name (g_Target d) = name ∧
  gt_Grantee (g_Target d) = CanonicalGrantee (egs_Role g) ∧ wf_desired d.
Proof.
  intros (privs & ps & schema & Hek & _ & -> & _). split_and!; [|done|by apply CanonicalGrantee_idem|apply wf_desiredGrant].
  by exists ek, name, schema, (CanonicalGrantee (egs_Role g)).
Qed.

(** Distinct kinds for one extension and grantee, so distinct keys. *)
Lemma NoDup_kinds_keys (l : list privilegeGrant) :
  (∀ d, d ∈ l → extension_target (g_Target d)) → NoDup ((λ d, gt_Kind (g_Target d)) <$> l) → NoDup (grant_key <$> l).
Proof.
  intros Ht Hn. induction l as [|d l IH]; [constructor|]. rewrite fmap_cons in Hn. apply NoDup_cons in Hn as [Hd Hn].
  rewrite fmap_cons. apply NoDup_cons. split; [|apply IH; [intros; apply Ht; by right|done]].
  intros (d' & Hk & Hd')%list_elem_of_fmap. apply Hd, list_elem_of_fmap. exists d'. split; [|done].
  by apply extension_key_inj in Hk as (? & _ & _); [|apply Ht; left|apply Ht; right].
Qed.

Lemma extensionKinds_NoDup : NoDup (ek_engine <$> extensionKinds).
Proof. apply (bool_decide_unpack _). vm_compute. exact I. Qed.

(** The grants of one extension. *)
Lemma extension_field_spec field name inst gs seen f f' :
  extension_field specSchemas states serverVersion field name inst gs seen f = inl f' →
  ∃ new, extfg_list f' = extfg_list f ++ new ∧ NoDup (grant_key <$> new) ∧
    ∀ d, d ∈ new → gt_Grantee (g_Target d) ∉ seen ∧ ∃ g ek, g ∈ gs ∧ from_extension name inst g ek d.
Proof.
  revert seen f. induction gs as [|g gs IH]; intros seen f; cbn [extension_field].
  { intros [= <-]. exists []. rewrite app_nil_r. split_and!; [done|constructor|by intros ? ?%elem_of_nil]. }
  case_decide as Hs; [done|]. destruct (all_kinds _ _ _ _ _ _ _ _ _ _) as [f1|] eqn:Ea; [|done]. intros Hgo.
  apply all_kinds_spec in Ea as (new1 & Heq1 & Hk1 & Hf1); [|done].
  destruct (IH _ _ Hgo) as (new2 & Heq2 & Hn2 & Hf2). exists (new1 ++ new2).
  split; [by rewrite Heq2, Heq1, app_assoc|]. split.
  - rewrite fmap_app. apply NoDup_app. split_and!; [|..|done].
    + apply NoDup_kinds_keys; [|by eapply sublist_NoDup; [apply extensionKinds_NoDup|]].
      intros d Hd. destruct (Hf1 d Hd) as [ek Hek]. by apply from_extension_target in Hek as [? _].
    + intros k (d1 & -> & H1)%list_elem_of_fmap (d2 & Hk & H2)%list_elem_of_fmap.
      destruct (Hf1 d1 H1) as [ek1 (Ht1 & _ & Hg1 & _)%from_extension_target].
      destruct (Hf2 d2 H2) as (Hns & g2 & ek2 & _ & (Ht2 & _ & Hg2 & _)%from_extension_target).
      apply extension_key_inj in Hk as (_ & _ & Hg); [|done|done]. rewrite <- Hg, Hg1 in Hns. set_solver.
  - intros d [Hd|Hd]%elem_of_app.
    + destruct (Hf1 d Hd) as [ek Hek]. pose proof (from_extension_target _ _ _ _ _ Hek) as (_ & _ & Hg & _).
      split; [by rewrite Hg|]. exists g, ek. split; [by left|done].
    + destruct (Hf2 d Hd) as (Hns & g2 & ek2 & ? & ?). split; [set_solver|]. exists g2, ek2. split; [by right|done].
Qed.

Lemma extensionGrants_field_inj n1 n2 : extensionGrants_field n1 = extensionGrants_field n2 → n1 = n2.
Proof.
  unfold extensionGrants_field. intros H. apply app_cancel_s in H.
  apply (app_inj_length_s n1 n2) in H as [? _]; [done|]. apply (f_equal String.length) in H. rewrite !length_app_s in H. lia.
Qed.

Lemma extensionGrants_go_spec exts fields grants seen na un fields' grants' na' un' :
  extensionGrants_go specSchemas states serverVersion exts fields grants na un = inl (fields', grants', na', un') →
  exts ⊆ ds_Extensions spec → fields_ok fields grants seen →
  (∀ d, d ∈ field_grants fields grants → from_extensions d ∧ extensionGrants_field (gt_Name (g_Target d)) ∈ fields) →
  NoDup (grant_key <$> field_grants fields' grants') ∧ ∀ d, d ∈ field_grants fields' grants' → from_extensions d.
Proof.
  revert fields grants seen na un. induction exts as [|ext exts IH]; intros fields grants seen na un; cbn [extensionGrants_go].
  { intros [= <- <- <- <-] _ (_ & Hn & _) Hf. split; [done|]. intros d Hd. by apply Hf. }
  intros Hgo Hsub Hok Hf. assert (exts ⊆ ds_Extensions spec) as Hsub' by set_solver.
  destruct (xs_eligible states !! es_Name ext) as [inst|] eqn:Ei; [|by eapply IH].
  destruct (es_Grants ext) as [|g0 gs] eqn:Eg; [by eapply IH|]. rewrite <- Eg in Hgo.
  destruct (grants !! extensionGrants_field (es_Name ext)) eqn:Ef; [by eapply IH|].
  destruct (extension_field _ _ _ _ _ _ _ _ _) as [f|] eqn:El; [|done].
  apply extension_field_spec in El as (new & Heq & Hn & Hnew). simpl in Heq. rewrite Heq in Hgo.
  assert (extensionGrants_field (es_Name ext) ∉ fields) as Hnf.
  { intros Hin. destruct Hok as (Hd & _). destruct (Hd _ Hin). congruence. }
  eapply IH; [exact Hgo|done| |].
  - eapply fields_ok_insert; [done|done|exact Hn| |done]. destruct Hok as (_ & _ & ->). intros d Hd (d' & Hk & Hd')%elem_of_list_to_set%list_elem_of_fmap.
    destruct (Hnew d Hd) as (_ & g & ek & _ & (Ht & Hnm & _)%from_extension_target).
    destruct (Hf d' Hd') as [(ext' & inst' & g' & ek' & _ & _ & _ & (Ht' & _)%from_extension_target) Hfd'].
    apply extension_key_inj in Hk as (_ & Hnn & _); [|done|done]. rewrite <- Hnn, Hnm in Hfd'. done.
  - intros d. rewrite field_grants_insert by done. intros [Hd|Hd]%elem_of_app.
    + destruct (Hf d Hd) as [? ?]. split; [done|]. apply elem_of_app. by left.
    + destruct (Hnew d Hd) as (_ & g & ek & Hg & Hfr). split; [by exists ext, inst, g, ek; split_and!; [set_solver|..]|].
      apply from_extension_target in Hfr as (_ & -> & _). apply elem_of_app. right. by left.
Qed.

Lemma desiredExtensionGrants_spec fields all na un :
  desiredExtensionGrants spec states serverVersion = inl (fields, all, na, un) →
  NoDup (grant_key <$> field_grants fields all) ∧ ∀ d, d ∈ field_grants fields all → from_extensions d.
Proof.
  intros Hgo. eapply extensionGrants_go_spec; [exact Hgo|done| |by intros ? ?%elem_of_nil].
  split_and!; [by intros ? ?%elem_of_nil|constructor|done].
Qed.
End desired.

(** ** What justifies the calls *)

Definition logged_extension_client {W} (pg : extensionGrantClient W) : extensionGrantClient (W * list pg_call) :=
  {| gx_executor := logged_executor (gx_executor pg);
     gx_RoleExists := λ n, logged (CallRoleExists n) (gx_RoleExists pg n);
     gx_SchemaExists := λ n, logged (CallSchemaExists n) (gx_SchemaExists pg n);
     gx_InstalledExtension := λ n, logged (CallInstalled n) (gx_InstalledExtension pg n);
     gx_ExtensionMembers := λ n k g, logged (CallMembers n k g) (gx_ExtensionMembers pg n k g);
     gx_GrantOnMembers := λ k ids ps g, logged (CallGrantMembers k ids ps g) (gx_GrantOnMembers pg k ids ps g);
     gx_RevokeOnMembers := λ k ids ps g, logged (CallRevokeMembers k ids ps g) (gx_RevokeOnMembers pg k ids ps g) |}.

Section justification.
Context `{UP : UnicodePrint} (c : granteeChecker) (all managed : list privilegeGrant).
Implicit Types tr : list pg_call.

(** The server answered with these members of the extension. *)
Definition members_read tr (kind grantee name : string) (ms : list ExtensionMember) : Prop :=
  CallMembers name kind grantee (inl ms) ∈ tr.

(** An entry of [l] for one kind of objects of an extension. *)
Definition entry_for (l : list privilegeGrant) (ek : extensionKind) (name grantee p : string) : Prop :=
  ∃ g, g ∈ l ∧ gt_Kind (g_Target g) = ek_engine ek ∧ gt_Name (g_Target g) = name ∧ gt_Grantee (g_Target g) = grantee ∧ p ∈ g_Privileges g.

Definition extension_grant_ok (pre : list pg_call) (ev : pg_call) : Prop :=
  match ev with
  | CallGrant obj grantee ps wgo _ =>
      wgo = false ∧ ps ≠ [] ∧ accepted c pre grantee ∧ ∃ d, d ∈ all ∧ gt_Kind (g_Target d) = extKindSchema ∧
        obj = schemaObj (g_Target d) ∧ grantee = gt_Grantee (g_Target d) ∧ ∀ p, p ∈ ps → p ∈ g_Privileges d
  | CallRevoke obj grantee ps mode _ =>
      mode = no_mode ∧ ps ≠ [] ∧ ∃ t, (∃ m, (m ∈ managed ∨ m ∈ all) ∧ g_Target m = t) ∧ gt_Kind t = extKindSchema ∧
        obj = schemaObj t ∧ grantee = gt_Grantee t ∧ ∀ p, p ∈ ps →
        ∃ m, m ∈ managed ∧ gt_Kind (g_Target m) = extKindSchema ∧ gt_Name (g_Target m) = gt_Name t ∧ gt_Grantee (g_Target m) = grantee ∧
          p ∈ g_Privileges m
  | CallGrantMembers kind ids ps grantee _ =>
      accepted c pre grantee ∧ ids ≠ [] ∧ ∃ ek name p ms, ek ∈ extensionKinds ∧ kind = ek_member ek ∧ ps = [p] ∧
        entry_for all ek name grantee p ∧ members_read pre kind grantee name ms ∧
        ∀ i, i ∈ ids → ∃ m, m ∈ ms ∧ em_Identity m = i ∧ em_Eligible m = true ∧ p ∉ em_Held m
  | CallRevokeMembers kind ids ps grantee _ =>
      ids ≠ [] ∧ ∃ ek name p ms, ek ∈ extensionKinds ∧ kind = ek_member ek ∧ ps = [p] ∧ members_read pre kind grantee name ms ∧
        (∀ i, i ∈ ids → ∃ m, m ∈ ms ∧ em_Identity m = i ∧ p ∈ em_Held m) ∧
        (entry_for managed ek name grantee p ∨
         entry_for all ek name grantee p ∧ ∀ i, i ∈ ids → ∃ m, m ∈ ms ∧ em_Identity m = i ∧ em_Eligible m = false)
  | _ => True
  end.

#[export] Instance accepted_mono grantee : Mono (λ tr, accepted c tr grantee).
Proof. unfold accepted. solve_mono. Qed.
End justification.

(** ** The operations *)

Section ops.
Context `{UP : UnicodePrint} {W : Type} (pg : extensionGrantClient W) (c : granteeChecker).
Context (all managed desired : list privilegeGrant) (base : list pg_call) (cover : gmap string (list string)).

Abbreviation lpg := (logged_extension_client pg).
Abbreviation J := (extension_grant_ok c all managed).
Abbreviation runs := (Trace.runs (W := W) J).
Abbreviation ops := (extensionGrantOps lpg cover).

Hypothesis Hall : ∀ d, d ∈ all → extension_target (g_Target d).
Hypothesis Hmanaged : ∀ m, m ∈ managed → extension_target (g_Target m).
Hypothesis Hdesired : ∀ d, d ∈ desired → d ∈ all.
Hypothesis Haccepted : ∀ d, d ∈ desired → accepted c base (gt_Grantee (g_Target d)).

Ltac call x tr P E := eapply runs_call; [intros; exact I|]; intros x tr P E; cbv beta.

Lemma target_kind t : extension_target t → ∃ ek, ek ∈ extensionKinds ∧ gt_Kind t = ek_engine ek ∧ extensionKindOf (gt_Kind t) = Some ek.
Proof. intros (ek & name & schema & grantee & Hek & ->). exists ek. split_and!; [done|done|]. by apply extension_kind_facts. Qed.

Lemma recorded_entry l ek t p :
  (∀ m, m ∈ l → extension_target (g_Target m)) → extension_target t → gt_Kind t = ek_engine ek → recorded g_Privileges l (key t) p →
  entry_for l ek (gt_Name t) (gt_Grantee t) p.
Proof.
  intros Hl Ht Hk (m & Hm & Hkey & Hp). apply extension_key_inj in Hkey as (H1 & H2 & H3); [|by apply Hl|done].
  exists m. split_and!; [done|by rewrite H1, Hk|done|done|done].
Qed.

Lemma members_runs tr t ek :
  extensionKindOf (gt_Kind t) = Some ek →
  runs tr (members lpg t) (λ r tr', ∀ x, r = inl x → x.1 = ek ∧ members_read tr' (ek_member ek) (gt_Grantee t) (gt_Name t) x.2).
Proof.
  intros Hek. unfold members. rewrite Hek. unfold ebind. call r tr1 P1 E1.
  destruct r as [ms|e]; apply runs_ret; [|done]. by intros x [= <-].
Qed.

(** One call per privilege, for the members that are picked. *)
Lemma on_members_runs tr (ev : list string → list string → error → pg_call) (call0 : list string → list string → M W error) select ms ps :
  (∀ tr' ids p e, tr `prefix_of` tr' → ids ≠ [] → p ∈ ps →
    (∀ i, i ∈ ids → ∃ m, m ∈ ms ∧ em_Identity m = i ∧ select p m = true) → J tr' (ev ids [p] e)) →
  runs tr (on_members (λ ids ps, logged (ev ids ps) (call0 ids ps)) select ms ps) (λ _ _, True).
Proof.
  revert tr. induction ps as [|p ps IH]; intros tr HJ; cbn [on_members]; [by apply runs_ret|].
  eapply (runs_bind _ _ _ _ (λ _ _, True)).
  - destruct (decide (em_Identity <$> filter (λ m, select p m = true) ms = [])) as [|Hne]; [by apply runs_ret|].
    apply runs_logged; [|done]. intros e. apply HJ; [done|done|by left|].
    intros i (m & -> & [Hs Hm]%list_elem_of_filter)%list_elem_of_fmap. by exists m.
  - intros e tr1 P1 _. eapply (runs_bind _ _ _ _ (λ _ _, True)); [|intros; by apply runs_ret].
    apply IH. intros tr' ids p' e' P' Hne Hp. apply HJ; [by etrans|done|by right].
Qed.

Lemma op_held_runs t tr : runs tr (op_held ops t) (λ _ _, True).
Proof.
  simpl. case_decide; [call r tr1 P1 E1; by apply runs_ret|].
  unfold members. destruct (extensionKindOf _); unfold ebind.
  - eapply (runs_bind _ _ _ _ (λ _ _, True)); [call r tr1 P1 E1; destruct r; by apply runs_ret|].
    intros [[? ?]|err] tr1 P1 _; by apply runs_ret.
  - eapply (runs_bind _ _ _ _ (λ _ _, True)); [by apply runs_ret|]. intros [[? ?]|err] tr1 P1 _; by apply runs_ret.
Qed.

Lemma op_gone_runs t tr f : op_gone ops = Some f → runs tr (f t) (λ _ _, True).
Proof.
  intros [= <-]. unfold ebind, roleGone.
  eapply (runs_bind _ _ _ _ (λ _ _, True)); [destruct (IsPublic _); [by apply runs_ret|call r tr1 P1 E1; by apply runs_ret]|].
  intros [[]|err] tr1 P1 _; [by apply runs_ret| |by apply runs_ret].
  case_decide.
  - case_decide; [by apply runs_ret|]. call r tr2 P2 E2. destruct r; by apply runs_ret.
  - call r tr2 P2 E2. destruct r; by apply runs_ret.
Qed.

Lemma op_grant_runs tracked t ps wgo tr :
  base `prefix_of` tr → (∀ d, d ∈ desired → g_GrantOptions d = []) → call_ok desired tracked (EvGrant t ps wgo None) →
  runs tr (op_grant ops t ps wgo) (λ _ _, True).
Proof.
  intros P Hno (Hne & d & Hd & <- & Hps). assert (wgo = false) as ->.
  { destruct wgo; [|done]. rewrite Hno in Hps by done. destruct ps as [|p ps]; [done|]. specialize (Hps p ltac:(by left)). by apply elem_of_nil in Hps. }
  pose proof (Hall d (Hdesired d Hd)) as Ht. pose proof (Haccepted d Hd) as Ha. simpl. case_decide as Hk.
  - apply runs_logged; [|done]. intros e. split_and!; [done|done|carry|]. exists d. split_and!; auto.
  - destruct (target_kind _ Ht) as (ek & Hek & Hke & Hkk). eapply runs_bind; [by apply members_runs|].
    intros r tr1 P1 Hr. destruct r as [[ek' ms]|e]; [|by apply runs_ret]. destruct (Hr _ eq_refl) as [Heq Hms]. simpl in Heq, Hms. subst ek'.
    eapply (runs_bind _ _ _ _ (λ _ _, True)); [|intros; by apply runs_ret].
    apply (on_members_runs _ (λ ids ps e, CallGrantMembers (ek_member ek) ids ps (gt_Grantee (g_Target d)) e)).
    intros tr' ids p e P' Hids Hp Hm. split; [assert (base `prefix_of` tr1) by (by etrans); carry|]. split; [done|].
    exists ek, (gt_Name (g_Target d)), p, ms. split_and!; [done|done|done| |unfold members_read in *; carry|].
    + exists d. split_and!; auto.
    + intros i Hi. destruct (Hm i Hi) as (m & ? & ? & [Hel Hh]%andb_true_iff). exists m. split_and!; [done|done|done|].
      apply negb_true_iff in Hh. by apply slices_Contains_false in Hh.
Qed.

Lemma revoke_recorded tracked t ps mode :
  (∀ m, m ∈ managed → g_GrantOptions m = []) → (∀ m, m ∈ tracked → m ∈ managed) → call_ok desired tracked (EvRevoke t ps mode None) →
  ps ≠ [] ∧ (∃ m, (m ∈ managed ∨ m ∈ all) ∧ g_Target m = t) ∧ ∀ p, p ∈ ps → recorded g_Privileges managed (key t) p.
Proof.
  intros Hno Htr ((m0 & Hm0 & Ht) & Hne & Hps). split_and!; [done|exists m0; naive_solver|].
  intros p Hp. destruct (Hps p Hp) as ((m & Hm & Hk & Hpm) & _). destruct (GrantOptionOnly mode); [|exists m; auto].
  rewrite Hno in Hpm by auto. by apply elem_of_nil in Hpm.
Qed.

Lemma entry_target t : (∃ m, (m ∈ managed ∨ m ∈ all) ∧ g_Target m = t) → extension_target t.
Proof. intros (m & [Hm|Hm] & <-); auto. Qed.

Lemma op_revoke_runs tracked t ps mode tr :
  (∀ m, m ∈ managed → g_GrantOptions m = []) → (∀ m, m ∈ tracked → m ∈ managed) → call_ok desired tracked (EvRevoke t ps mode None) →
  runs tr (op_revoke ops t ps mode) (λ _ _, True).
Proof.
  intros Hno Htr (Hne & Hm0 & Hps)%revoke_recorded; [|done|done]. pose proof (entry_target t Hm0) as Ht.
  destruct (target_kind _ Ht) as (ek & Hek & Hke & Hkk). cbn [op_revoke extensionGrantOps]. case_decide as Hk.
  - case_decide as Hnil; [by apply runs_ret|]. apply runs_logged; [|done]. intros err. split_and!; [done|done|].
    exists t. split_and!; [done|done|done|done|]. intros p [Hp _]%elem_of_subtract.
    destruct (recorded_entry managed ek t p Hmanaged Ht Hke (Hps p Hp)) as (m & ? & Hkm & ? & ? & ?).
    exists m. split_and!; try done. by rewrite Hkm, <- Hke.
  - eapply runs_bind; [by apply members_runs|]. intros r tr1 P1 Hr. destruct r as [[ek' ms]|err]; [|by apply runs_ret].
    destruct (Hr _ eq_refl) as [Heq Hms]. simpl in Heq, Hms. subst ek'.
    eapply (runs_bind _ _ _ _ (λ _ _, True)); [|intros; by apply runs_ret].
    apply (on_members_runs _ (λ ids ps e, CallRevokeMembers (ek_member ek) ids ps (gt_Grantee t) e)).
    intros tr' ids p err P' Hids Hp Hm. split; [done|]. exists ek, (gt_Name t), p, ms.
    split_and!; [done|done|done|unfold members_read in *; carry| |].
    + intros i Hi. destruct (Hm i Hi) as (m & ? & ? & Hh). exists m. split_and!; [done|done|]. by apply slices_Contains_true in Hh.
    + left. by apply recorded_entry; auto.
Qed.

(** *** The objects that no longer qualify *)

Lemma ineligibleLoop_runs tr (recorded0 : gmap string (list string)) todo skipped :
  (∀ d, d ∈ todo → d ∈ all) →
  (∀ k p, p ∈ default [] (recorded0 !! k) → recorded g_Privileges managed k p ∨ recorded g_Privileges all k p) →
  runs tr (ineligibleLoop lpg recorded0 todo skipped) (λ _ _, True).
Proof.
  intros Htodo Hrec. revert tr skipped. induction todo as [|d todo IH]; intros tr skipped; cbn [ineligibleLoop]; [by apply runs_ret|].
  assert (∀ d', d' ∈ todo → d' ∈ all) as Htodo' by (intros; apply Htodo; by right).
  pose proof (Hall d (Htodo d ltac:(by left))) as Ht. destruct (target_kind _ Ht) as (ek & Hek & Hke & Hkk). rewrite Hkk.
  case_decide; [by apply IH|].
  call r tr1 P1 E1. destruct r as [ms|err].
  2: { eapply (runs_bind _ _ _ _ (λ _ _, True)); [by apply IH|]. intros [es sk] tr2 P2 _. by apply runs_ret. }
  eapply (runs_bind _ _ _ _ (λ _ _, True)).
  - apply (on_members_runs _ (λ ids ps e, CallRevokeMembers (ek_member ek) ids ps (gt_Grantee (g_Target d)) e)).
    intros tr' ids p err P' Hids Hp Hm. split; [done|]. exists ek, (gt_Name (g_Target d)), p, ms.
    split_and!; [done|done|done|unfold members_read; carry| |].
    + intros i Hi. destruct (Hm i Hi) as (m & ? & ? & [_ Hh]%andb_true_iff). exists m. split_and!; [done|done|].
      by apply slices_Contains_true in Hh.
    + destruct (Hrec _ _ Hp) as [Hr|Hr]; [left; by apply recorded_entry; auto|right]. split; [by apply recorded_entry; auto|].
      intros i Hi. destruct (Hm i Hi) as (m & ? & ? & [Hel _]%andb_true_iff). exists m. split_and!; [done|done|].
      by apply negb_true_iff in Hel.
  - intros es tr2 P2 _. eapply (runs_bind _ _ _ _ (λ _ _, True)); [by apply IH|]. intros [es' sk] tr3 P3 _. by apply runs_ret.
Qed.
End ops.

(** ** The reconcile *)

Lemma elem_of_extensionLedger l m :
  m ∈ extensionLedger l ↔ ∃ e ek, e ∈ l ∧ extensionKindOf (meg_Kind e) = Some ek ∧
    m = {| g_Target := extensionTarget (ek_engine ek) (meg_Extension e) (meg_Schema e) (meg_Role e);
           g_Privileges := meg_Privileges e; g_GrantOptions := [] |}.
Proof.
  unfold extensionLedger. rewrite list_elem_of_omap. split.
  - intros (e & He & Hm). destruct (extensionKindOf (meg_Kind e)) as [ek|] eqn:Ek; [|done]. injection Hm as <-. by exists e, ek.
  - intros (e & ek & He & Hk & ->). exists e. by rewrite Hk.
Qed.

Lemma extensionLedger_target l m : m ∈ extensionLedger l → extension_target (g_Target m) ∧ g_GrantOptions m = [].
Proof.
  intros (e & ek & _ & Hk & ->)%elem_of_extensionLedger. apply extensionKindOf_elem in Hk as [Hk _]. split; [|done].
  by exists ek, (meg_Extension e), (meg_Schema e), (meg_Role e).
Qed.

(** The calls of a program that are of one kind, in a run. *)
Lemma runs_emits {W E A} (J : list E → E → Prop) (P : E → Prop) tr (m : M (W * list E) A) (Q : A → list E → Prop) :
  Trace.emits (λ _ _ _, True) m (λ x new, Forall P new ∧ Q x new) → (∀ pre ev, P ev → J pre ev) →
  Trace.runs J tr m (λ x tr', ∃ new, tr' = tr ++ new ∧ Q x new).
Proof.
  intros H HJ w. destruct (H (w, tr)) as (new & Hw & _ & Hn & Hq). simpl in Hw. rewrite Hw. split; [|by exists new].
  exists new. split; [done|]. intros pre ev post ->. apply HJ. rewrite Forall_forall in Hn. apply Hn.
  apply elem_of_app. right. by left.
Qed.

(** The grants the spec asks for. *)
Definition declared_extension_grants `{UP : UnicodePrint} (spec : DatabaseSpec) (states : extensionStates) (version : Z) : list privilegeGrant :=
  match desiredExtensionGrants spec states version with inl (fields, all, _, _) => field_grants fields all | inr _ => [] end.

Lemma recorded_foldl `{UP : UnicodePrint} (l : list privilegeGrant) k p :
  p ∈ default [] (foldl (λ m g, <[key (g_Target g) := g_Privileges g]> m) (∅ : gmap string (list string)) l !! k) →
  recorded g_Privileges l k p.
Proof.
  assert (∀ m : gmap string (list string), p ∈ default [] (foldl (λ m g, <[key (g_Target g) := g_Privileges g]> m) m l !! k) →
    p ∈ default [] (m !! k) ∨ recorded g_Privileges l k p) as Hg.
  { induction l as [|g l IH]; intros m; simpl; [auto|]. intros [Hp|(x & ? & ? & ?)]%IH; [|right; exists x; split_and!; [by right|done|done]].
    destruct (decide (key (g_Target g) = k)) as [<-|Hne]; [|rewrite lookup_insert_ne in Hp by done; by left].
    rewrite lookup_insert_eq in Hp. right. exists g. split_and!; [by left|done|done]. }
  intros [Hp|?]%Hg; [|done]. rewrite lookup_empty in Hp. by apply elem_of_nil in Hp.
Qed.

Section reconcile.
Context `{UP : UnicodePrint} {W : Type} (LookupRole : string → M W (result (option ReachableRole))) (c : granteeChecker).
Context (pg : extensionGrantClient W).

Lemma recorded_sub f l l' k p : (∀ m, m ∈ l → m ∈ l') → recorded f l k p → recorded f l' k p.
Proof. intros Hs (m & ? & ? & ?). exists m. auto. Qed.

Lemma reconcileExtensionGrants_runs spec states version save st tr :
  let all := declared_extension_grants spec states version in
  let managed := extensionLedger (dst_ManagedExtensionGrants st) in
  runs (extension_grant_ok c all managed) tr
    (reconcileExtensionGrants (logged_lookup LookupRole) c (logged_extension_client pg) spec states version (logged_saver save) st no_caches)
    (λ _ _, True).
Proof.
  intros all ledger. unfold reconcileExtensionGrants. destruct (xs_allUnknown states); [by apply runs_ret|].
  unfold all, declared_extension_grants.
  destruct (desiredExtensionGrants spec states version) as [[[[fields grants] na] un]|e] eqn:Ed; [|by apply runs_ret].
  apply desiredExtensionGrants_spec in Ed as [Hn Hfrom]. cbv zeta. fold ledger.
  set (managed := filter (λ g, gt_Name (g_Target g) ∉ xs_unknown states) ledger).
  case_decide; [by apply runs_ret|].
  eapply runs_bind.
  { apply (runs_emits _ is_lookup _ _ (λ x new, ∀ out, x.1.1 = inl out → filtered c new (field_grants fields grants) out)); [|by intros pre []].
    eapply emits_conseq; [apply (filterFields_emits _ _ _ _ _ _ []); by intros ???|].
    intros [[r held] ck'] new (Hl & _ & Hf). split; [exact Hl|]. exact Hf. }
  intros [[r held] ck'] base P1 (new & -> & Hf). destruct r as [desired|e]; [|by apply runs_ret].
  specialize (Hf desired eq_refl) as (Hsub & Hacc & _).
  assert (∀ d, d ∈ field_grants fields grants → extension_target (g_Target d) ∧ g_GrantOptions d = [] ∧ wf_desired d) as Hwf.
  { intros d (ext & inst & g & ek & _ & _ & _ & Hd)%Hfrom. apply from_extension_target in Hd as Ht.
    destruct Hd as (privs & ps & schema & _ & _ & -> & _). split_and!; [apply Ht|done|apply Ht]. }
  assert (∀ d, d ∈ desired → d ∈ field_grants fields grants) as Hdes by (intros; by eapply elem_of_sublist).
  assert (∀ m, m ∈ managed → m ∈ ledger) as Hman by (by intros m [_ ?]%list_elem_of_filter).
  assert (∀ d, d ∈ field_grants fields grants → extension_target (g_Target d)) as Hall by (intros; by apply Hwf).
  assert (∀ m, m ∈ ledger → extension_target (g_Target m)) as Hled by (intros; by eapply extensionLedger_target).
  assert (∀ m, m ∈ ledger → g_GrantOptions m = []) as Hno by (intros; by eapply extensionLedger_target).
  assert (∀ d, d ∈ desired → accepted c (tr ++ new) (gt_Grantee (g_Target d))) as Hacc'.
  { intros d Hd. destruct (Hacc d Hd) as (res & Hj & Hv). destruct (judged_allowed _ _ _ _ Hj Hv) as [?|(r & Hr & ?)]; [by left|right].
    exists r. split; [|done]. apply elem_of_app. by right. }
  eapply runs_bind.
  { eapply (engine_runs _ (tr ++ new)); [| | | | | | |done].
    - eapply sublist_NoDup; [exact Hn|by apply fmap_sublist].
    - apply Forall_forall. intros d Hd. by apply Hwf, Hdes.
    - intros t tr' _. apply op_held_runs.
    - intros f t Hg tr' _. by eapply op_gone_runs.
    - intros f l [= <-] tr' _. destruct save as [g|]; simpl; [apply runs_logged; [done|done]|by apply runs_ret].
    - intros t ps wgo Hok tr' P'. eapply op_grant_runs; [exact Hall|exact Hdes|exact Hacc'|exact P'| |exact Hok].
      intros d Hd. by apply Hwf, Hdes.
    - intros t ps mode Hok tr' P'. by eapply op_revoke_runs. }
  intros [after err] tr2 P2 Hafter. simpl in Hafter. unfold revokeFromIneligibleObjects.
  eapply (runs_bind _ _ _ _ (λ _ _, True)); [|intros [ierr st'] tr3 P3 _; by apply runs_ret].
  eapply (runs_bind _ _ _ _ (λ _ _, True)); [|intros [es sk] tr3 P3 _; by apply runs_ret].
  apply ineligibleLoop_runs; [done|done|done|].
  intros k p [Hr|Hr]%recorded_foldl%Hafter; [left|right]; by eapply recorded_sub.
Qed.
End reconcile.
