(* ===== verification/ExtensionGrantTheorems.v ===== *)
(** * Grants on extensions' objects: theorems

    What a reconcile of spec.extensions[].grants asks of the server, for every answer
    of the server; and a run where a recorded privilege is left behind. *)

From Stdlib Require Import Ascii.
From S2P Require Import Prelude GoStrings GoStrconv Privileges Parameters RoleSql ApiTypes RolePolicy Objects Settings Trace.
From S2P Require Import GrantEngine GrantTrace GrantProps GranteePolicy Grants ObjectGrants ExtensionSql.
From S2P Require Import GrantSafety DatabaseGrants GrantPolicyTheorems PublicPrivileges Extensions ExtensionGrants ExtensionGrantSafety.

Section declared.
Context `{UP : UnicodePrint} (spec : DatabaseSpec) (states : extensionStates) (version : Z).

(** The grant entry of the spec that asks for [p] on objects of kind [ek] of the
    extension [name], and why it may be granted. *)
Definition asked_for (ek : extensionKind) (name grantee p : string) (inst : InstalledExtension) : Prop :=
  ∃ ext g privs, ext ∈ ds_Extensions spec ∧ es_Name ext = name ∧ xs_eligible states !! name = Some inst ∧ g ∈ es_Grants ext ∧
    CanonicalGrantee (egs_Role g) = grantee ∧ extension_normalize ek (ek_spec ek g) = inl privs ∧ p ∈ privs ∧
    (name ∈ xs_untrusted states → p ∈ ek_readOnly ek) ∧
    (p = PrivilegeMaintain → (MinMaintainPrivilegeVersion ≤ version)%Z).

Lemma declared_asked d ek p :
  d ∈ declared_extension_grants spec states version → ek ∈ extensionKinds → gt_Kind (g_Target d) = ek_engine ek → p ∈ g_Privileges d →
  ∃ inst, asked_for ek (gt_Name (g_Target d)) (gt_Grantee (g_Target d)) p inst ∧
    (ek_engine ek = extKindSchema → gt_Schema (g_Target d) = ie_Schema inst ∧
      own_schema (list_to_set (ss_Name <$> ds_Schemas spec)) (ie_Schema inst) = true).
Proof.
  unfold declared_extension_grants. destruct (desiredExtensionGrants _ _ _) as [[[[fields all] na] un]|] eqn:Ed; [|by intros ?%elem_of_nil].
  apply desiredExtensionGrants_spec in Ed as [_ Hfrom]. intros Hd Hek Hk Hp.
  destruct (Hfrom d Hd) as (ext & inst & g & ek' & Hext & Hel & Hg & Hfe).
  pose proof (from_extension_target _ _ _ _ _ _ _ _ Hfe) as (_ & Hnm & Hgr & _).
  destruct Hfe as (privs & ps & schema & Hek' & Hnorm & -> & Hsub & Hu & Hm & Hs). simpl in *.
  assert (ek' = ek) as ->.
  { apply extension_kind_facts in Hek as (_ & H1 & _), Hek' as (_ & H2 & _). rewrite <- Hk in H1. congruence. }
  exists inst. split.
  - exists ext, g, privs. split_and!; try done; [auto|auto|]. intros ->. auto.
  - intros He. by destruct (Hs He) as [-> ?].
Qed.

Lemma entry_asked ek name grantee p :
  ek ∈ extensionKinds → entry_for (declared_extension_grants spec states version) ek name grantee p →
  ∃ inst, asked_for ek name grantee p inst.
Proof.
  intros Hek (d & Hd & Hk & <- & <- & Hp). destruct (declared_asked d ek p Hd Hek Hk Hp) as (inst & ? & _). eauto.
Qed.

(** A declared grant on a schema is on the own schema of its installed extension. *)
Lemma declared_schema d :
  d ∈ declared_extension_grants spec states version → gt_Kind (g_Target d) = extKindSchema →
  ∃ inst, xs_eligible states !! gt_Name (g_Target d) = Some inst ∧ gt_Schema (g_Target d) = ie_Schema inst ∧
    own_schema (list_to_set (ss_Name <$> ds_Schemas spec)) (ie_Schema inst) = true.
Proof.
  unfold declared_extension_grants. destruct (desiredExtensionGrants _ _ _) as [[[[fields all] na] un]|] eqn:Ed; [|by intros ?%elem_of_nil].
  apply desiredExtensionGrants_spec in Ed as [_ Hfrom]. intros Hd Hk.
  destruct (Hfrom d Hd) as (ext & inst & g & ek & _ & Hel & _ & privs & ps & schema & _ & _ & -> & _ & _ & _ & Hs). simpl in *.
  exists inst. destruct (Hs Hk) as [-> ?]. done.
Qed.
End declared.

(** The status records [p] as granted by pgop on objects of kind [ek]. *)
Definition recorded_extension_grant (st : DatabaseStatus) (ek : extensionKind) (name grantee p : string) : Prop :=
  ∃ m, m ∈ dst_ManagedExtensionGrants st ∧ extensionKindOf (meg_Kind m) = Some ek ∧ meg_Extension m = name ∧
    CanonicalGrantee (meg_Role m) = grantee ∧ p ∈ meg_Privileges m.

(** The status records a grant on the extension's schema, and which schema that was. *)
Definition recorded_extension_schema (st : DatabaseStatus) (name grantee schema : string) : Prop :=
  ∃ m ek, m ∈ dst_ManagedExtensionGrants st ∧ extensionKindOf (meg_Kind m) = Some ek ∧ ek_engine ek = extKindSchema ∧
    meg_Extension m = name ∧ CanonicalGrantee (meg_Role m) = grantee ∧ meg_Schema m = schema.

Lemma ledger_schema (st : DatabaseStatus) m :
  m ∈ extensionLedger (dst_ManagedExtensionGrants st) → gt_Kind (g_Target m) = extKindSchema →
  recorded_extension_schema st (gt_Name (g_Target m)) (gt_Grantee (g_Target m)) (gt_Schema (g_Target m)).
Proof. intros (e & ek & He & Hk & ->)%elem_of_extensionLedger Heq. simpl in *. by exists e, ek. Qed.

Lemma ledger_recorded (st : DatabaseStatus) ek m p :
  m ∈ extensionLedger (dst_ManagedExtensionGrants st) → ek ∈ extensionKinds → gt_Kind (g_Target m) = ek_engine ek → p ∈ g_Privileges m →
  recorded_extension_grant st ek (gt_Name (g_Target m)) (gt_Grantee (g_Target m)) p.
Proof.
  intros (e & ek' & He & Hk & ->)%elem_of_extensionLedger Hek Heq Hp. simpl in *. exists e. split_and!; try done.
  apply extensionKindOf_elem in Hk as Hk'. destruct Hk' as [Hk' _].
  apply extension_kind_facts in Hk' as (_ & H1 & _), Hek as (_ & H2 & _). rewrite Heq in H1. congruence.
Qed.

(** C23: extension grants follow the policy, the spec and the server's trust. A GRANT
    is for one grant entry of an installed and allowed extension of the spec: for a
    privilege the entry asks for, only a read-only one if the server does not trust the
    installed version, never with the grant option, and to PUBLIC or a role the policy
    accepts as the server described it in this run. On members it names only objects
    that the server listed just before as eligible and as not holding the privilege; on
    a schema only one that the extension has for its own. A REVOKE takes a privilege
    only from members that the server listed as holding it, and only if the status
    records it, or the members are not eligible. On a schema it takes only privileges
    that the status records for this extension and grantee, from the schema that the
    status records for them or, where the spec still declares a grant on it, from the
    own schema of the installed extension. It never CASCADEs. *)
Theorem extension_grants_safe `{UP : UnicodePrint} {W} (pg : extensionGrantClient W) LookupRole c spec states version save st
    w out w' tr pre ev post :
  reconcileExtensionGrants (logged_lookup LookupRole) c (logged_extension_client pg) spec states version (logged_saver save) st no_caches
    (w, []) = (out, (w', tr)) → tr = pre ++ ev :: post →
  (∀ obj grantee ps wgo e, ev = CallGrant obj grantee ps wgo e →
    wgo = false ∧ ps ≠ [] ∧ accepted c pre grantee ∧ ∃ schema name, obj = {| po_Kind := ObjectSchema; po_Name := schema |} ∧
      own_schema (list_to_set (ss_Name <$> ds_Schemas spec)) schema = true ∧ ∀ p, p ∈ ps →
      ∃ ek inst, ek ∈ extensionKinds ∧ ek_engine ek = extKindSchema ∧ asked_for spec states version ek name grantee p inst ∧
        schema = ie_Schema inst) ∧
  (∀ kind ids ps grantee e, ev = CallGrantMembers kind ids ps grantee e →
    accepted c pre grantee ∧ ids ≠ [] ∧ ∃ ek name p ms inst, ek ∈ extensionKinds ∧ kind = ek_member ek ∧ ps = [p] ∧
      asked_for spec states version ek name grantee p inst ∧ members_read pre kind grantee name ms ∧
      ∀ i, i ∈ ids → ∃ m, m ∈ ms ∧ em_Identity m = i ∧ em_Eligible m = true ∧ p ∉ em_Held m) ∧
  (∀ obj grantee ps mode e, ev = CallRevoke obj grantee ps mode e →
    mode = no_mode ∧ ps ≠ [] ∧ ∃ schema name, obj = {| po_Kind := ObjectSchema; po_Name := schema |} ∧
      (∀ p, p ∈ ps → ∃ ek, ek_engine ek = extKindSchema ∧ recorded_extension_grant st ek name grantee p) ∧
      (recorded_extension_schema st name grantee schema ∨
       ∃ inst, xs_eligible states !! name = Some inst ∧ schema = ie_Schema inst ∧
         own_schema (list_to_set (ss_Name <$> ds_Schemas spec)) schema = true)) ∧
  (∀ kind ids ps grantee e, ev = CallRevokeMembers kind ids ps grantee e →
    ids ≠ [] ∧ ∃ ek name p ms, ek ∈ extensionKinds ∧ kind = ek_member ek ∧ ps = [p] ∧ members_read pre kind grantee name ms ∧
      (∀ i, i ∈ ids → ∃ m, m ∈ ms ∧ em_Identity m = i ∧ p ∈ em_Held m) ∧
      (recorded_extension_grant st ek name grantee p ∨
       ∀ i, i ∈ ids → ∃ m, m ∈ ms ∧ em_Identity m = i ∧ em_Eligible m = false)).
Proof.
  intros Hrun Heq. pose proof (runs_justified _ _ _ _ _ _ _ _ _ _
    (reconcileExtensionGrants_runs LookupRole c pg spec states version save st []) Hrun Heq) as Hok.
  split_and!; intros * ->; simpl in Hok.
  - destruct Hok as (-> & Hne & Hacc & d & Hd & Hk & -> & -> & Hps). split_and!; [done|done|done|].
    exists (gt_Schema (g_Target d)), (gt_Name (g_Target d)).
    assert (∀ p, p ∈ ps → ∃ ek inst, ek ∈ extensionKinds ∧ ek_engine ek = extKindSchema ∧
      asked_for spec states version ek (gt_Name (g_Target d)) (gt_Grantee (g_Target d)) p inst ∧ gt_Schema (g_Target d) = ie_Schema inst ∧
      own_schema (list_to_set (ss_Name <$> ds_Schemas spec)) (gt_Schema (g_Target d)) = true) as Hall.
    { intros p Hp. assert (∃ ek, ek ∈ extensionKinds ∧ ek_engine ek = extKindSchema) as (ek & Hek & Hke) by (eexists; split; [by left|done]).
      destruct (declared_asked spec states version d ek p Hd Hek) as (inst & Ha & Hs); [by rewrite Hk|auto|].
      destruct (Hs Hke) as [Hsch Hown]. exists ek, inst. by rewrite Hsch. }
    split_and!; [done| |].
    + destruct ps as [|p ps]; [done|]. destruct (Hall p ltac:(by left)) as (ek & inst & _ & _ & _ & _ & ?). done.
    + intros p Hp. destruct (Hall p Hp) as (ek & inst & ? & ? & ? & ? & _). by exists ek, inst.
  - destruct Hok as (Hacc & Hne & ek & name & p & ms & Hek & -> & -> & He & Hms & Hids). split_and!; [done|done|].
    destruct (entry_asked _ _ _ ek name grantee p Hek He) as [inst Ha]. by exists ek, name, p, ms, inst.
  - destruct Hok as (-> & Hne & t & Ht & Hk & -> & -> & Hps). split_and!; [done|done|]. exists (gt_Schema t), (gt_Name t).
    split_and!; [done| |]; last first.
    { destruct Ht as (m & [Hm|Hm] & <-); [left; by apply ledger_schema|right].
      destruct (declared_schema _ _ _ _ Hm Hk) as (inst & ? & Hs & ?). rewrite Hs. by exists inst. }
    intros p Hp. destruct (Hps p Hp) as (m & Hm & Hkm & <- & Hgr & Hpm). rewrite <- Hgr.
    assert (∃ ek, ek ∈ extensionKinds ∧ ek_engine ek = extKindSchema) as (ek & Hek & Hke) by (eexists; split; [by left|done]).
    exists ek. split; [done|]. apply ledger_recorded; [done|done|by rewrite Hkm|done].
  - destruct Hok as (Hne & ek & name & p & ms & Hek & -> & -> & Hms & Hids & Hor). split; [done|]. exists ek, name, p, ms.
    split_and!; [done..|]. destruct Hor as [(m & Hm & Hk & <- & <- & Hp)|[_ Hin]]; [left|by right]. by apply ledger_recorded.
Qed.

(** ** A concrete database *)

Module ToyExtensionGrants.
#[local] Existing Instance Toy.print.

(** [geo] is installed, not trusted, in [geo_b]; the status records grants from when
    it was in [geo_a]. *)
Definition inst : InstalledExtension :=
  {| ie_Name := "geo"; ie_Version := "3.1"; ie_Schema := "geo_b"; ie_OID := 5; ie_Owner := "postgres" |}.

Definition states : extensionStates :=
  {| xs_eligible := {[ "geo" := inst ]}; xs_untrusted := {[ "geo" ]}; xs_unknown := ∅; xs_allUnknown := false |}.

Definition grant_spec : ExtensionGrantSpec :=
  {| egs_Role := "app"; egs_Schema := ["usage"]; egs_Tables := ["all"]; egs_Sequences := []; egs_Functions := [] |}.

Definition spec : DatabaseSpec :=
  {| ds_ClusterRef := "c"; ds_DatabaseName := ""; ds_Owner := ""; ds_Schemas := []; ds_Grants := []; ds_Settings := ∅;
     ds_PublicPrivileges := None;
     ds_Extensions := [{| es_Name := "geo"; es_Schema := ""; es_Version := ""; es_Cascade := false; es_DropOnRemoval := false;
                          es_Grants := [grant_spec] |}] |}.

Definition status : DatabaseStatus := set_ManagedExtensionGrants ToyDatabase.status
  [{| meg_Extension := "geo"; meg_Role := "app"; meg_Kind := "schema"; meg_Schema := "geo_a"; meg_Privileges := ["USAGE"] |};
   {| meg_Extension := "geo"; meg_Role := "app"; meg_Kind := "tables"; meg_Schema := ""; meg_Privileges := ["INSERT"] |}].

Definition member (name : string) (eligible : bool) (held : list string) : ExtensionMember :=
  {| em_Identity := name; em_Eligible := eligible; em_Held := held |}.

Definition client : extensionGrantClient Toy.world :=
  {| gx_executor := ToyDatabase.executor; gx_RoleExists := λ _, mret (inl true); gx_SchemaExists := λ _, mret (inl true);
     gx_InstalledExtension := λ _, mret (inl (Some inst));
     gx_ExtensionMembers := λ _ k _, mret (inl (if decide (k = MemberTables) then [member "t" true ["INSERT"]; member "v" false []] else []));
     gx_GrantOnMembers := λ _ _ _ _, mret None; gx_RevokeOnMembers := λ _ _ _ _, mret None |}.

Definition run := reconcileExtensionGrants (logged_lookup ToyDatabase.LookupRole) ToyDatabase.checker (logged_extension_client client)
  spec states 170000 (logged_saver ToyDatabase.save) status no_caches (∅, []).

Definition schema (s : string) : PrivilegeObject := {| po_Kind := ObjectSchema; po_Name := s |}.
Definition is_grant (ev : pg_call) : bool := match ev with CallGrantMembers k _ _ g _ => bool_decide (k = MemberTables) && bool_decide (g = "app") | _ => false end.
Definition is_revoke (ev : pg_call) : bool := match ev with CallRevokeMembers k _ _ g _ => bool_decide (k = MemberTables) && bool_decide (g = "app") | _ => false end.
End ToyExtensionGrants.

Import ToyExtensionGrants.

(** SELECT, the only read-only privilege, on the eligible table; INSERT is revoked. *)
Lemma extension_grants_safe_witness :
  (∃ pre post ids ps e, run.2.2 = pre ++ CallGrantMembers MemberTables ids ps "app" e :: post ∧ accepted ToyDatabase.checker pre "app") ∧
  ∃ pre post ids ps e, run.2.2 = pre ++ CallRevokeMembers MemberTables ids ps "app" e :: post ∧ ids ≠ [].
Proof.
  split.
  - assert (called is_grant run.2.2 = true) as Hc by (vm_compute; reflexivity).
    apply called_inv in Hc as (pre & ev & post & Heq & Ht). destruct ev; try discriminate Ht.
    apply andb_true_iff in Ht as [->%bool_decide_eq_true ->%bool_decide_eq_true].
    destruct (extension_grants_safe client ToyDatabase.LookupRole ToyDatabase.checker spec states 170000 ToyDatabase.save status ∅
      _ _ _ pre _ post (run_split run) Heq) as (_ & Hg & _).
    destruct (Hg _ _ _ _ _ eq_refl) as [Ha _]. eexists pre, post, _, _, _. exact (conj Heq Ha).
  - assert (called is_revoke run.2.2 = true) as Hc by (vm_compute; reflexivity).
    apply called_inv in Hc as (pre & ev & post & Heq & Ht). destruct ev; try discriminate Ht.
    apply andb_true_iff in Ht as [->%bool_decide_eq_true ->%bool_decide_eq_true].
    destruct (extension_grants_safe client ToyDatabase.LookupRole ToyDatabase.checker spec states 170000 ToyDatabase.save status ∅
      _ _ _ pre _ post (run_split run) Heq) as (_ & _ & _ & Hr).
    destruct (Hr _ _ _ _ _ eq_refl) as [Hne _]. eexists pre, post, _, _, _. exact (conj Heq Hne).
Defined.

(** The schema is not part of a ledger key: the USAGE that the status records on
    [geo_a] is not revoked, and the entry then says [geo_b]. *)
Example moved_extension_keeps_grant :
  existsb (λ m, bool_decide (meg_Schema m = "geo_a")) (dst_ManagedExtensionGrants status) = true ∧
  existsb (λ m, bool_decide (meg_Schema m = "geo_a")) (dst_ManagedExtensionGrants run.1.1.2) = false ∧
  called (λ ev, match ev with CallRevoke _ _ _ _ _ => true | _ => false end) run.2.2 = false.
Proof. vm_compute. repeat split. Qed.
