(* ===== verification/ComponentCalls.v ===== *)
(** * The calls of the components

    Over any events: a component makes no calls but those of the operations it is
    given. The traces of the Role and the Database reconcilers rest on these lemmas. *)

From S2P Require Import Prelude GoStrings GoStrconv Privileges Parameters RoleSql ApiTypes RolePolicy Objects.
From S2P Require Import Settings Memberships GrantEngine GranteePolicy Grants ObjectGrants ExtensionSql PublicPrivileges Extensions.
From S2P Require Import ExtensionGrants Trace.

Section components.
Context `{UnicodePrint} {W E : Type} (P : E → Prop).
Abbreviation L := (W * list E)%type.
Abbreviation only := (only (W := W) P).

Lemma only_ebind {A B F} (m : M L (A + F)) (k : A → M L (B + F)) : only m → (∀ x, only (k x)) → only (ebind m k).
Proof. intros Hm Hk. apply only_bind; [done|]. intros []; [done|apply only_ret]. Qed.

Lemma only_failing {A} st (m : M L (result A)) : only m → only (failing st m).
Proof. intros Hm. apply only_bind; [done|]. intros. apply only_ret. Qed.

(** [walk_only] with the errors' bind; a call is looked up before it is computed. *)
Ltac calls :=
  repeat (lazymatch goal with
    | |- ∀ _, _ => intro
    | |- Trace.only _ (mret _) => apply only_ret
    | |- Trace.only _ (mbind _ _) => apply only_bind
    | |- Trace.only _ (ebind _ _) => apply only_ebind
    | |- Trace.only _ (failing _ _) => apply only_failing
    | |- Trace.only _ (match _ with _ => _ end) => case_match
    | |- Trace.only _ ((λ _, _) _) => progress cbv beta
    | |- Trace.only _ _ => first [solve [auto] | progress simpl]
    end); auto.

(** An operation that is given. *)
Ltac given := match goal with H : Some _ = Some _ |- _ => injection H as <- end.

(** ** The grant engine *)

Section engine.
Context (ops : privilegeOps L) (persist : ledgerPersist L).
Hypothesis Hheld : ∀ t, only (op_held ops t).
Hypothesis Hgrant : ∀ t ps wgo, only (op_grant ops t ps wgo).
Hypothesis Hrevoke : ∀ t ps m, only (op_revoke ops t ps m).
Hypothesis Hgone : ∀ f t, op_gone ops = Some f → only (f t).
Hypothesis Hpersist : ∀ f l, persist = Some f → only (f l).

Lemma planGrants_only l : only (planGrants ops l).
Proof. induction l; simpl; unfold planMissing; calls. Qed.

Lemma grantPlanned_only l : only (grantPlanned ops l).
Proof. induction l; simpl; unfold grantOne; calls. Qed.

Lemma revokeEach_only t l : only (revokeEach ops t l).
Proof. induction l; simpl; calls. Qed.

Lemma revokeRemoved_only m d skipped : only (revokeRemoved ops m d skipped).
Proof.
  unfold revokeRemoved, op_gone_check, revokeOptionsOnly, revokeWithOption, revokePlain.
  pose proof revokeEach_only. calls.
Qed.

Lemma revokeLoop_only ks want tracked skipped : only (revokeLoop ops ks want tracked skipped).
Proof. revert tracked skipped. pose proof revokeRemoved_only. induction ks; simpl; calls. Qed.

Lemma applyPrivilegeGrants_only desired managed limit : only (applyPrivilegeGrants ops desired managed limit persist).
Proof.
  pose proof planGrants_only. pose proof grantPlanned_only. pose proof revokeLoop_only.
  unfold applyPrivilegeGrants, revokePhase, persistIntended. calls.
Qed.
End engine.

(** ** Settings *)

Section settings.
Context (ParameterContext : string → M L context_result) (p : policy) (ops : @settingOps L).
Hypothesis Hcontext : ∀ n, only (ParameterContext n).
Hypothesis Hset : ∀ n v, only (op_set ops n v).
Hypothesis Hreset : ∀ n, only (op_reset ops n).

Lemma allowedSettings_only desired names : only (allowedSettings ParameterContext p desired names).
Proof. induction names; simpl; unfold settingAllowed; calls. Qed.

Lemma setAll_only allowed names tracked : only (setAll ops allowed names tracked).
Proof. revert tracked. induction names; simpl; calls. Qed.

Lemma resetAll_only allowed names tracked : only (resetAll ops allowed names tracked).
Proof. revert tracked. induction names; simpl; calls. Qed.

Lemma applySettings_only desired managed : only (applySettings ParameterContext p desired managed ops).
Proof.
  pose proof allowedSettings_only. pose proof setAll_only. pose proof resetAll_only. unfold applySettings. calls.
Qed.
End settings.

(** ** The grantee policy *)

Section checker.
Context (LookupRole : string → M L (result (option ReachableRole))) (c : granteeChecker).
Hypothesis Hlookup : ∀ n, only (LookupRole n).

Lemma managesRole_only name ck : only (managesRole LookupRole c name ck).
Proof. unfold managesRole. calls. Qed.

Lemma checkForRole_only name ck : only (checkForRole LookupRole c name ck).
Proof. unfold checkForRole, decideForRole. calls. Qed.

Lemma check_only grantee ck : only (check LookupRole c grantee ck).
Proof. unfold check, decideGrantee. calls. Qed.

Lemma grantFilter_filter_only field desired f ck : only (grantFilter_filter LookupRole c field desired f ck).
Proof. pose proof check_only. revert f ck. induction desired; simpl; calls. Qed.

Lemma filterFields_only fields all held ck : only (filterFields LookupRole c fields all held ck).
Proof. pose proof grantFilter_filter_only. revert held ck. induction fields; simpl; calls. Qed.
End checker.

Lemma roleGone_calls RoleExists t : (∀ n, only (RoleExists n)) → only (roleGone RoleExists t).
Proof. intros Hr. unfold roleGone. calls. Qed.

(** An executor's operations, as the engine uses them. *)
Lemma executor_engine_only (x : privilegeExecutor L) gone desired managed limit persist :
  (∀ o g, only (HeldPrivileges L x o g)) → (∀ o g ps wgo, only (GrantPrivileges L x o g ps wgo)) →
  (∀ o g ps m, only (RevokePrivileges L x o g ps m)) → (∀ f t, gone = Some f → only (f t)) →
  (∀ f l, persist = Some f → only (f l)) → only (applyPrivilegeGrants (executorOps x gone) desired managed limit persist).
Proof. intros Hh Hg Hr Hgone Hp. apply applyPrivilegeGrants_only; simpl; calls. Qed.

(** What a saver does when it is given. *)
Lemma persist_with_only {S} (save : statusSaver L S) set f l :
  (∀ g s, save = Some g → only (g s)) → persist_with save set = Some f → only (f l).
Proof. intros Hs [= <-]. destruct save as [g|]; calls. Qed.

(** ** Database, schema and PUBLIC grants, settings of a database *)

Section grants.
Context (LookupRole : string → M L (result (option ReachableRole))) (c : granteeChecker).
Hypothesis Hlookup : ∀ n, only (LookupRole n).
Context (save : statusSaver L DatabaseStatus).
Hypothesis Hsave : ∀ g s, save = Some g → only (g s).

(** The operations of an executor. *)
Definition only_executor (x : privilegeExecutor L) : Prop :=
  (∀ o g, only (HeldPrivileges L x o g)) ∧ (∀ o g ps wgo, only (GrantPrivileges L x o g ps wgo)) ∧
  (∀ o g ps m, only (RevokePrivileges L x o g ps m)).

Definition only_database_grants (pg : databaseGrantClient L) : Prop :=
  only_executor (dgc_executor pg) ∧ (∀ o g p, only (dgc_HeldFromAnyGrantor pg o g p)) ∧ (∀ n, only (dgc_RoleExists pg n)) ∧
  (∀ d n v, only (dgc_SetDatabaseParameter pg d n v)) ∧ (∀ d n, only (dgc_ResetDatabaseParameter pg d n)) ∧
  (∀ n, only (dgc_ParameterContext pg n)).

Definition only_schema_grants (pg : schemaGrantClient L) : Prop :=
  only_executor (sgc_executor pg) ∧ (∀ n, only (sgc_RoleExists pg n)) ∧ (∀ n, only (sgc_SchemaExists pg n)).

Lemma reconcileDatabaseGrants_only pg spec pgName st ck : only_database_grants pg →
  only (reconcileDatabaseGrants LookupRole c pg spec pgName save st ck).
Proof.
  intros ((Hh & Hg & Hr) & _ & Hx & _). pose proof (grantFilter_filter_only LookupRole c Hlookup).
  unfold reconcileDatabaseGrants. calls. apply executor_engine_only; auto.
  - intros f t [= <-]. by apply roleGone_calls.
  - intros f led. by apply persist_with_only.
Qed.

Lemma reconcileSchemaGrants_only pg spec managed st ck : only_schema_grants pg →
  only (reconcileSchemaGrants LookupRole c pg spec managed save st ck).
Proof.
  intros ((Hh & Hg & Hr) & Hx & Hs). pose proof (filterFields_only LookupRole c Hlookup).
  unfold reconcileSchemaGrants. calls. apply executor_engine_only; auto.
  - intros f t [= <-]. pose proof (λ t, roleGone_calls _ t Hx). unfold schemaGone. calls.
  - intros f led. by apply persist_with_only.
Qed.

Lemma publicItem_only (pg : publicPrivilegeClient L) spec pgName st it s :
  only_executor (ppc_executor pg) → (∀ o g p, only (ppc_HeldFromAnyGrantor pg o g p)) →
  only (publicItem pg spec pgName save st it s).
Proof.
  intros (Hh & Hg & Hr) Ha. assert (∀ it s, only (recordIntent save st it s)) as Hi.
  { intros. unfold recordIntent. calls. }
  unfold publicItem, publicHolds, revokePublic, restorePublic, checkStillHeld. calls.
Qed.

Lemma reconcilePublicPrivileges_only (pg : publicPrivilegeClient L) spec pgName st kind :
  only_executor (ppc_executor pg) → (∀ o g p, only (ppc_HeldFromAnyGrantor pg o g p)) →
  only (reconcilePublicPrivileges pg spec pgName save st kind).
Proof.
  intros Hx Ha. unfold reconcilePublicPrivileges. apply only_bind; [|calls].
  generalize publicPrivilegeItems as items. intros items.
  generalize {| ps_recorded := list_to_set (dst_RevokedPublicPrivileges st); ps_cache := ∅; ps_conflicts := [];
                ps_stillHeld := []; ps_errs := [] |} as s.
  pose proof (λ it s, publicItem_only pg spec pgName st it s Hx Ha). induction items; intros s; simpl; calls.
Qed.

Lemma reconcileDatabaseSettings_only pg p spec pgName st : only_database_grants pg →
  only (reconcileDatabaseSettings pg p spec pgName st).
Proof.
  intros (_ & _ & _ & Hs & Hr & Hc). unfold reconcileDatabaseSettings. calls. apply applySettings_only; simpl; auto.
Qed.
End grants.

(** ** Object grants and default privileges *)

Section objects.
Context `{ErrorText} (LookupRole : string → M L (result (option ReachableRole))) (c : granteeChecker).
Hypothesis Hlookup : ∀ n, only (LookupRole n).
Context (save : statusSaver L DatabaseStatus).
Hypothesis Hsave : ∀ g s, save = Some g → only (g s).

Record only_objects (pg : objectGrantClient L) : Prop := {
  oo_role : ∀ n, only (ogc_RoleExists pg n);
  oo_schema : ∀ n, only (ogc_SchemaExists pg n);
  oo_oids : ∀ l, only (ogc_RoleOIDs pg l);
  oo_list : ∀ s k sel, only (ogc_ListSchemaObjects pg s k sel);
  oo_routine : ∀ a b d, only (ogc_ResolveRoutine pg a b d);
  oo_object : ∀ a b d o, only (ogc_ResolveSchemaObject pg a b d o);
  oo_grant : ∀ k s i o g ps w, only (ogc_GrantOnSchemaObject pg k s i o g ps w);
  oo_revoke : ∀ k s i o g ps m, only (ogc_RevokeOnSchemaObject pg k s i o g ps m);
  oo_held : ∀ t g, only (ogc_HeldDefaultPrivileges pg t g);
  oo_grant_default : ∀ t g ps w, only (ogc_GrantDefaultPrivileges pg t g ps w);
  oo_revoke_default : ∀ t g ps m, only (ogc_RevokeDefaultPrivileges pg t g ps m) }.

Context (pg : objectGrantClient L).
Hypothesis Hpg : only_objects pg.

Lemma resolveNames_only g names acc : only (resolveNames pg g names acc).
Proof. pose proof (oo_routine _ Hpg). revert acc. induction names; intros; simpl; calls. Qed.

Lemma listGroups_only order groups : only (listGroups pg order groups).
Proof.
  pose proof resolveNames_only. pose proof (oo_list _ Hpg). revert groups.
  induction order; intros; simpl; unfold planner_list; calls.
Qed.

Lemma addObjects_only e objects ps ck : only (addObjects LookupRole c e objects ps ck).
Proof.
  assert (∀ k o ck, only (ownerProblem LookupRole c k o ck)) as Ho.
  { intros. pose proof (managesRole_only LookupRole c Hlookup). unfold ownerProblem. calls. }
  revert ps ck. induction objects; intros; simpl; walk_only; auto.
Qed.

Lemma addEntries_only entries groups ps missing ck : only (addEntries LookupRole c entries groups ps missing ck).
Proof. pose proof addObjects_only. revert ps missing ck. induction entries; intros; simpl; walk_only; auto. Qed.

Lemma planner_plan_only spec managed version ck : only (planner_plan LookupRole c pg spec managed version ck).
Proof. pose proof listGroups_only. pose proof addEntries_only. unfold planner_plan. calls. Qed.

Lemma splitLedger_only groups ledger ck : only (splitLedger LookupRole c groups ledger ck).
Proof. pose proof (check_only LookupRole c Hlookup). revert ck. induction ledger; intros; simpl; walk_only; auto. Qed.

Lemma applyObjectGrants_only p kept managed desired held st : only (applyObjectGrants pg p kept managed desired held save st).
Proof.
  destruct Hpg. pose proof (λ t, roleGone_calls _ t oo_role0).
  unfold applyObjectGrants, granteeOIDs. calls. apply applyPrivilegeGrants_only; simpl; calls.
  - given. calls.
  - by eapply persist_with_only.
Qed.

Lemma reconcileObjectGrants_only spec managed version st ck :
  only (reconcileObjectGrants LookupRole c pg spec managed version save st ck).
Proof.
  pose proof planner_plan_only. pose proof splitLedger_only. pose proof (filterFields_only LookupRole c Hlookup).
  pose proof applyObjectGrants_only. unfold reconcileObjectGrants. calls.
Qed.

Lemma filterDefaults_only fields all f held ck : only (filterDefaults LookupRole c fields all f held ck).
Proof.
  assert (∀ field l f ck, only (forRoleFilter_filter LookupRole c field l f ck)) as Hf.
  { pose proof (checkForRole_only LookupRole c Hlookup). intros field l. induction l; intros; simpl; walk_only; auto. }
  pose proof (grantFilter_filter_only LookupRole c Hlookup).
  revert f held ck. induction fields; intros; simpl; walk_only; auto.
Qed.

Lemma reconcileDefaultPrivileges_only spec managed version st ck :
  only (reconcileDefaultPrivileges LookupRole c pg spec managed version save st ck).
Proof.
  destruct Hpg. pose proof (λ t, roleGone_calls _ t oo_role0). pose proof filterDefaults_only.
  unfold reconcileDefaultPrivileges. calls. apply applyPrivilegeGrants_only; simpl; calls.
  - given. calls.
  - by eapply persist_with_only.
Qed.

Lemma reconcileObjectAccess_only version spec managed st ck : only version →
  only (reconcileObjectAccess LookupRole c pg version spec managed save st ck).
Proof.
  intros Hv. pose proof reconcileObjectGrants_only. pose proof reconcileDefaultPrivileges_only.
  unfold reconcileObjectAccess. calls.
Qed.
End objects.

(** ** Extensions *)

Section extensions.
Context `{ErrorText}.

Record only_extensions (pg : extensionInstallClient L) : Prop := {
  ox_version : ∀ n v, only (xc_ExtensionVersion pg n v);
  ox_installed : ∀ n, only (xc_InstalledExtension pg n);
  ox_paths : ∀ n a b, only (xc_ExtensionUpdatePaths pg n a b);
  ox_writers : ∀ n, only (xc_SchemaWriters pg n);
  ox_owner : only (xc_CurrentDatabaseOwner pg);
  ox_lookup : ∀ n, only (xc_LookupRole pg n);
  ox_schema : ∀ n o, only (xc_CreateSchema pg n o);
  ox_create : ∀ n s v c, only (xc_CreateExtension pg n s v c);
  ox_update : ∀ n v, only (xc_UpdateExtension pg n v);
  ox_drop : ∀ n, only (xc_DropExtension pg n) }.

Context (pg : extensionInstallClient L) (fuel : nat) (p : policy).
Context (Hpg : only_extensions pg).

Lemma dependencies_only info : only (dependencies pg fuel info).
Proof.
  destruct Hpg. unfold dependencies. generalize (ev_Requires info), ({[ev_Name info]} : gset string), no_deps.
  induction fuel as [|n IH]; intros queue seen d; simpl; calls.
Qed.

Lemma allowedAsInstalled_only inst : only (allowedAsInstalled pg p inst).
Proof. destruct Hpg. unfold allowedAsInstalled. calls. Qed.

Lemma installVersions_only name version : only (installVersions pg name version).
Proof.
  destruct Hpg. assert (∀ l, only (installable_paths pg name l)) as Hi by (intros l; induction l; simpl; calls).
  unfold installVersions. calls.
Qed.

Lemma checkVersions_only name versions : only (checkVersions pg p name versions).
Proof.
  destruct Hpg. assert (∀ l, only (untrustedVersions pg name l)) as Hi by (intros l; induction l; simpl; calls).
  unfold checkVersions. calls.
Qed.

Lemma planCreate_only ext st : only (planCreate pg fuel p ext st).
Proof.
  pose proof dependencies_only. pose proof installVersions_only. pose proof checkVersions_only. destruct Hpg.
  assert (∀ l, only (checkDependencies pg p l)) as Hd by (intros l; induction l; simpl; calls).
  unfold planCreate. calls.
Qed.

Context (managed specSchemas listed : gset string) (dbOwner : string) (dbOwnerSuper : bool).
Context (save : statusSaver L DatabaseStatus).
Hypothesis Hsave : ∀ g s, save = Some g → only (g s).

Lemma schemaProblem_only name strict : only (schemaProblem pg managed dbOwner dbOwnerSuper name strict).
Proof. destruct Hpg. unfold schemaProblem. calls. Qed.

Lemma create_extension_only ext st r :
  only (create_extension pg fuel p managed specSchemas listed dbOwner dbOwnerSuper save ext st r).
Proof.
  pose proof planCreate_only. pose proof schemaProblem_only. destruct Hpg.
  assert (∀ f strict l, only (installSchemas pg managed dbOwner dbOwnerSuper f strict l)) as Hi.
  { intros f strict l. induction l; simpl; calls. }
  assert (∀ st l strict, only (createSchemas pg managed dbOwner dbOwnerSuper ext st l strict)) as Hc.
  { intros st' l strict. revert st'. induction l; intros; simpl; calls. }
  unfold create_extension, checkInstallSchemas, createPlanned, persist_entry. calls.
Qed.

Lemma update_extension_only ext inst st r :
  only (update_extension pg fuel p managed dbOwner dbOwnerSuper ext inst st r).
Proof.
  pose proof checkVersions_only. pose proof dependencies_only. pose proof schemaProblem_only. destruct Hpg.
  assert (∀ strict l, only (updateSchemas pg managed dbOwner dbOwnerSuper strict l)) as Hu.
  { intros strict l. induction l; simpl; calls. }
  unfold update_extension, planUpdate. calls.
Qed.

Lemma reconcileListed_only ext l : only (reconcileListed pg fuel p managed specSchemas listed dbOwner dbOwnerSuper save ext l).
Proof.
  pose proof create_extension_only. pose proof update_extension_only. pose proof allowedAsInstalled_only. destruct Hpg.
  unfold reconcileListed, reconcileOne. calls.
Qed.

Lemma dropRemoved_only cur n : only (dropRemoved pg listed cur n).
Proof.
  destruct Hpg. assert (∀ l, only (dropLoop pg listed cur l)) as Hd by (intros l; induction l; simpl; calls).
  unfold dropRemoved. calls.
Qed.

Lemma extensionLoop_only exts seen l :
  only (extensionLoop pg fuel p managed specSchemas listed dbOwner dbOwnerSuper save exts seen l).
Proof. pose proof reconcileListed_only. revert seen l. induction exts; intros; simpl; calls. Qed.
End extensions.

Lemma reconcileExtensions_only `{ErrorText} pg fuel spec p managed (save : statusSaver L DatabaseStatus) st : only_extensions pg →
  (∀ g s, save = Some g → only (g s)) → only (reconcileExtensions pg fuel spec p managed save st).
Proof.
  intros Hpg Hsave. pose proof (ox_owner _ Hpg). pose proof (ox_lookup _ Hpg). pose proof (dropRemoved_only pg Hpg).
  unfold reconcileExtensions. calls. by apply extensionLoop_only.
Qed.

(** ** Grants on extensions *)

Section extension_grants.
Context (LookupRole : string → M L (result (option ReachableRole))) (c : granteeChecker).
Hypothesis Hlookup : ∀ n, only (LookupRole n).
Context (save : statusSaver L DatabaseStatus).
Hypothesis Hsave : ∀ g s, save = Some g → only (g s).

Record only_extension_grants (pg : extensionGrantClient L) : Prop := {
  og_executor : only_executor (gx_executor pg);
  og_role : ∀ n, only (gx_RoleExists pg n);
  og_schema : ∀ n, only (gx_SchemaExists pg n);
  og_installed : ∀ n, only (gx_InstalledExtension pg n);
  og_members : ∀ n k g, only (gx_ExtensionMembers pg n k g);
  og_grant : ∀ k i p g, only (gx_GrantOnMembers pg k i p g);
  og_revoke : ∀ k i p g, only (gx_RevokeOnMembers pg k i p g) }.

Lemma on_members_only call select ms ps : (∀ i p, only (call i p)) → only (on_members call select ms ps).
Proof. intros Hc. induction ps; simpl; calls. Qed.

Lemma reconcileExtensionAccess_only pg version spec states st ck : only_extension_grants pg → only version →
  only (reconcileExtensionAccess LookupRole c pg version spec states save st ck).
Proof.
  intros [(Hh & Hg & Hr) Hx Hs Hi Hm Hgm Hrm] Hv. pose proof (filterFields_only LookupRole c Hlookup).
  assert (∀ t, only (members pg t)) as Hmem by (intros; unfold members; calls).
  assert (∀ r d s, only (ineligibleLoop pg r d s)) as Hil.
  { intros r d. induction d; intros; simpl; calls. apply on_members_only; calls. }
  unfold reconcileExtensionAccess, reconcileExtensionGrants, revokeFromIneligibleObjects. calls.
  apply applyPrivilegeGrants_only.
  - intros t. unfold extensionGrantOps. simpl. calls.
  - intros t ps w. unfold extensionGrantOps. simpl. calls. apply on_members_only; calls.
  - intros t ps w. unfold extensionGrantOps. simpl. calls. apply on_members_only; calls.
  - intros f t Hf. simpl in Hf. given. pose proof (λ t, roleGone_calls _ t Hx). calls.
  - intros f led. by apply persist_with_only.
Qed.
End extension_grants.
End components.
