(* ===== verification/Password.v ===== *)
(** * Role passwords (src/internal/controller/role_password.go)

    Which password a Role gets, when it rotates, and what is recorded. Instants and
    durations are nanoseconds; the hash, the random source and the API server are
    parameters. *)

From Stdlib Require Import Ascii.
From S2P Require Import Prelude GoStrings GoStrconv RoleSql ApiTypes RolePolicy Trace.

Definition AnnotationRotatePassword : string := "pgop.ruck.io/rotate-password".
Definition AnnotationPasswordFingerprint : string := "pgop.ruck.io/password-fingerprint".
Definition ReasonPasswordSecretNotFound : string := "PasswordSecretNotFound".
Definition ReasonPasswordSecretInvalid : string := "PasswordSecretInvalid".
Definition SecretKeyPassword : string := "password".
Definition LabelAppManagedBy : string := "app.kubernetes.io/managed-by".
Definition LabelValuePgop : string := "pgop".
Definition GroupName : string := "pgop.ruck.io".

Definition second : Z := 1000000000.
Definition minPasswordRotationInterval : Z := 3600 * second.
Definition rolePasswordLength : nat := 32.

(** The fields of a Kubernetes Secret the code reads; [sec_ControllerUID]: the UID
    in its controlling owner reference. *)
Record OwnerReference := { or_APIVersion : string; or_Kind : string; or_Name : string }.

Record Secret := {
  sec_Name : string;
  sec_Namespace : string;
  sec_ResourceVersion : string;
  sec_Labels : gmap string string;
  sec_Annotations : gmap string string;
  sec_OwnerReferences : list OwnerReference;
  sec_ControllerUID : option string;
  sec_Data : gmap string string }.

Definition secret_value (s : Secret) (key : string) : string := default "" (sec_Data s !! key).

Record desiredPassword := {
  dp_value : string;
  dp_generated : bool;
  dp_rotated : bool;
  dp_fromRef : bool;
  dp_force : bool;
  dp_applied : bool;
  dp_rotationRequest : string }.

(** [sha256] in hexadecimal, and the parser of Kubernetes API versions. *)
Class PasswordDigest := sha256_hex : string → string.
Class GroupVersions := parse_group : string → option string.

Section password.
Context `{UnicodePrint} `{PasswordDigest} `{GroupVersions}.

Definition passwordFingerprint (role : Role) (password : string) : string :=
  sha256_hex (role_UID role +:+ String "000"%char password).

Definition passwordApplied (role : Role) (secret : option Secret) (password : string) : bool :=
  match secret with
  | None => false
  | Some s =>
      if decide (password = "") then false
      else match sec_Annotations s !! AnnotationPasswordFingerprint with
           | Some fp => bool_decide (fp = passwordFingerprint role password)
           | None => negb (bool_decide (rst_PasswordHash (role_Status role) = ""))
                       && bool_decide (rst_PasswordHash (role_Status role) = passwordFingerprint role password)
           end
  end.

Definition rotationInterval (role : Role) : Z :=
  match rs_PasswordRotation (role_Spec role) with
  | None => 0
  | Some r => pr_Every r `max` minPasswordRotationInterval
  end.

Definition pendingRotationRequest (role : Role) : string :=
  let req := default "" (role_Annotations role !! AnnotationRotatePassword) in
  if decide (req = "" ∨ req = rst_PasswordRotationRequest (role_Status role)) then "" else req.

Definition scheduledRotationDue (role : Role) (now : Z) : bool :=
  match rst_PasswordRotatedAt (role_Status role) with
  | Some at_ => negb (bool_decide (rotationInterval role = 0)) && negb (bool_decide (now < at_ + rotationInterval role))
  | None => false
  end%Z.

Definition nextRotationIn (role : Role) (now : Z) : Z :=
  match rst_PasswordRotatedAt (role_Status role) with
  | Some at_ => if decide (rotationInterval role = 0) then 0 else (at_ + rotationInterval role - now) `max` second
  | None => 0
  end%Z.

Definition passwordProblem (pw : string) : option string :=
  if negb (utf8_Valid pw) then Some "is not valid UTF-8"
  else if ContainsByte pw "000"%char then Some "contains a NUL byte"
  else if IsPreHashedPassword pw
  then Some "looks like a pre-hashed password (a SCRAM-SHA-256 verifier or MD5 hash); set the plaintext password"
  else None.

Definition checkEditedPassword (dp : desiredPassword) (secret : option Secret) : error :=
  match secret with
  | None => None
  | Some s =>
      if dp_generated dp || dp_fromRef dp || dp_applied dp then None
      else match passwordProblem (dp_value dp) with
           | Some problem => Some (CondErr ReasonPasswordSecretInvalid (Errorf "the %q key of credentials Secret %q %s"
                                     [SecretKeyPassword; sec_Name s; problem]))
           | None => None
           end
  end.

Definition set_password_status (st : RoleStatus) (rotatedAt : option Z) (request : string) : RoleStatus :=
  {| rst_Conditions := rst_Conditions st; rst_Ready := rst_Ready st; rst_RoleName := rst_RoleName st; rst_ClusterUID := rst_ClusterUID st;
     rst_SecretName := rst_SecretName st; rst_PasswordRotatedAt := rotatedAt; rst_PasswordRotationRequest := request;
     rst_PasswordHash := ""; rst_ManagedMemberships := rst_ManagedMemberships st;
     rst_ManagedParameterGrants := rst_ManagedParameterGrants st; rst_ManagedSettings := rst_ManagedSettings st;
     rst_ManagedDatabaseSettings := rst_ManagedDatabaseSettings st |}.

Definition set_status (role : Role) (st : RoleStatus) : Role :=
  {| role_Name := role_Name role; role_Namespace := role_Namespace role; role_UID := role_UID role;
     role_ResourceVersion := role_ResourceVersion role; role_Generation := role_Generation role;
     role_Finalizers := role_Finalizers role; role_CreationTimestamp := role_CreationTimestamp role;
     role_Deleting := role_Deleting role; role_Annotations := role_Annotations role; role_Spec := role_Spec role;
     role_Status := st |}.

Definition recordPassword (role : Role) (dp : desiredPassword) (now : Z) : Role :=
  let st := role_Status role in
  let rotatedAt :=
    if dp_fromRef dp then None
    else if dp_generated dp then Some now
    else match rst_PasswordRotatedAt st with
         | None => if bool_decide (0 < rotationInterval role)%Z then Some now else None
         | Some t => Some t
         end in
  set_status role (set_password_status st rotatedAt
    (if decide (dp_rotationRequest dp = "") then rst_PasswordRotationRequest st else dp_rotationRequest dp)).

(** ** Against the API server *)

(** What the reconcile uses of the API server and the random source. [r_Get...] is
    the cache ([None]: not found); [APIReader], which may be nil, reads uncached. *)
Record apiReader (W : Type) := {
  ar_GetSecret : string → string → M W (result (option Secret));
  ar_GetRole : string → string → M W (result Role) }.
Arguments ar_GetSecret {W}. Arguments ar_GetRole {W}.

Record roleAPI (W : Type) := {
  r_GetSecret : string → string → M W (result (option Secret));
  r_ListTLSSecrets : string → M W (result (list (string * option string)));
  r_APIReader : option (apiReader W);
  r_random : nat → M W (result string) }.
Arguments r_GetSecret {W}. Arguments r_ListTLSSecrets {W}. Arguments r_APIReader {W}. Arguments r_random {W}.

Definition hex_encode (s : string) : string := map_bytes (λ c, hex 2 (bz c)) s.

Section api.
Context {W : Type} (r : roleAPI W).

Definition generateRolePassword (length : nat) : M W (result string) :=
  b ← r_random r (length / 2);
  mret (match b with inl bytes => inl (hex_encode bytes) | inr e => inr e end).

Definition choosePassword (role : Role) (fromRef : bool) (refPassword current : string) (now : Z)
    : M W (result desiredPassword) :=
  let req := pendingRotationRequest role in
  if fromRef then
    mret (inl {| dp_value := refPassword; dp_generated := false; dp_rotated := false; dp_fromRef := true;
                 dp_force := negb (bool_decide (req = "")); dp_applied := false; dp_rotationRequest := req |})
  else if negb (bool_decide (current = "")) && bool_decide (req = "") && negb (scheduledRotationDue role now) then
    mret (inl {| dp_value := current; dp_generated := false; dp_rotated := false; dp_fromRef := false; dp_force := false;
                 dp_applied := false; dp_rotationRequest := "" |})
  else
    g ← generateRolePassword rolePasswordLength;
    mret (match g with
          | inr e => inr (Wrapf "failed to generate password: %w" [] e)
          | inl pw => inl {| dp_value := pw; dp_generated := true; dp_rotated := negb (bool_decide (current = ""));
                             dp_fromRef := false; dp_force := false; dp_applied := false; dp_rotationRequest := req |}
          end).

(** Owned by a pgop resource. *)
Definition ownedBy (s : Secret) : option OwnerReference :=
  head (filter (λ o, parse_group (or_APIVersion o) = Some GroupName) (sec_OwnerReferences s)).

Definition protectedSecretProblem (s : Secret) : M W (result (option string)) :=
  if decide (default "" (sec_Labels s !! LabelAppManagedBy) = LabelValuePgop) then mret (inl (Some "it is managed by pgop"))
  else match ownedBy s with
  | Some o => mret (inl (Some ("it is owned by the " +:+ or_Kind o +:+ " " +:+ Quote (or_Name o))))
  | None =>
      l ← r_ListTLSSecrets r (sec_Namespace s);
      mret (match l with
            | inr e => inr (Wrapf "failed to list Clusters: %w" [] e)
            | inl clusters =>
                inl ((λ c, "it is the TLS Secret of Cluster " +:+ Quote c.1) <$> head (filter (λ c, c.2 = Some (sec_Name s)) clusters))
            end)
  end.

Definition readPasswordSecretRef (namespace : string) (ref : SecretKeySelector) : M W (result string) :=
  g ← r_GetSecret r namespace (sel_Name ref);
  match g with
  | inr e => mret (inr (Wrapf "failed to get password Secret %q: %w" [sel_Name ref] e))
  | inl None => mret (inr (CondErr ReasonPasswordSecretNotFound (Errorf "password Secret %q not found" [sel_Name ref])))
  | inl (Some secret) =>
      p ← protectedSecretProblem secret;
      mret (match p with
            | inr e => inr e
            | inl (Some problem) => inr (CondErr ReasonRolePolicyViolation
                (Errorf "password Secret %q cannot be used: %s" [sel_Name ref; problem]))
            | inl None =>
                let pw := secret_value secret (sel_Key ref) in
                if decide (pw = "") then inr (CondErr ReasonPasswordSecretNotFound
                  (Errorf "password Secret %q has no (or an empty) key %q" [sel_Name ref; sel_Key ref]))
                else match passwordProblem pw with
                     | Some problem => inr (CondErr ReasonPasswordSecretInvalid
                         (Errorf "the value of key %q in password Secret %q %s" [sel_Key ref; sel_Name ref; problem]))
                     | None => inl pw
                     end
            end)
  end.

Definition with_applied (dp : desiredPassword) (a : bool) : desiredPassword :=
  {| dp_value := dp_value dp; dp_generated := dp_generated dp; dp_rotated := dp_rotated dp; dp_fromRef := dp_fromRef dp;
     dp_force := dp_force dp; dp_applied := a; dp_rotationRequest := dp_rotationRequest dp |}.

(** The second component is the Role, replaced by a fresh read when it was stale. *)
Definition choosePasswordFresh (role : Role) (fromRef : bool) (refPassword : string) (existing : option Secret) (now : Z)
    : M W (result desiredPassword * Role) :=
  let current := match existing with Some s => secret_value s SecretKeyPassword | None => "" end in
  c ← choosePassword role fromRef refPassword current now;
  match c, r_APIReader r with
  | inl dp, Some ar =>
      if dp_rotated dp then
        f ← ar_GetRole ar (role_Namespace role) (role_Name role);
        match f with
        | inr e => mret (inr (Wrapf "failed to re-read Role before rotating its password: %w" [] e), role)
        | inl fresh =>
            if decide (role_ResourceVersion fresh = role_ResourceVersion role) then mret (inl dp, role)
            else c ← choosePassword fresh fromRef refPassword current now; mret (c, fresh)
        end
      else mret (inl dp, role)
  | c, _ => mret (c, role)
  end.

Definition decidePassword (role : Role) (fromRef : bool) (refPassword : string) (existing : option Secret) (now : Z)
    : M W (result desiredPassword * Role) :=
  '(c, role) ← choosePasswordFresh role fromRef refPassword existing now;
  mret (match c with
        | inr e => inr e
        | inl dp => inl (with_applied dp (negb (dp_generated dp) && passwordApplied role existing (dp_value dp)))
        end, role).

(** The password, the Secret to build on, and the Role. *)
Definition resolvePasswordFresh (role : Role) (existing : option Secret) (now : Z)
    : M W (result desiredPassword * option Secret * Role) :=
  let fromRef := match rs_PasswordSecretRef (role_Spec role) with Some _ => true | None => false end in
  ref ← (match rs_PasswordSecretRef (role_Spec role) with
         | Some ref => readPasswordSecretRef (role_Namespace role) ref
         | None => mret (inl "")
         end);
  match ref with
  | inr e => mret (inr e, existing, role)
  | inl refPassword =>
      '(c, role) ← decidePassword role fromRef refPassword existing now;
      match c, existing, r_APIReader r with
      | inl dp, Some s, Some ar =>
          if dp_applied dp || dp_generated dp then mret (inl dp, Some s, role)
          else
            f ← ar_GetSecret ar (sec_Namespace s) (sec_Name s);
            match f with
            | inr e => mret (inr (Wrapf "failed to re-read the credentials Secret before setting the password: %w" [] e), Some s, role)
            | inl fresh =>
                if bool_decide (sec_ResourceVersion <$> fresh = Some (sec_ResourceVersion s)) then mret (inl dp, Some s, role)
                else '(c, role) ← decidePassword role fromRef refPassword fresh now; mret (c, fresh, role)
            end
      | c, existing, _ => mret (c, existing, role)
      end
  end.

Definition resolvePassword (role : Role) (existing : option Secret) (now : Z)
    : M W (result desiredPassword * option Secret * Role) :=
  '(c, secret, role) ← resolvePasswordFresh role existing now;
  mret (match c with
        | inl dp => match checkEditedPassword dp secret with Some e => inr e | None => inl dp end
        | inr e => inr e
        end, secret, role).
End api.
End password.
#[global] Arguments ar_GetSecret {W}.
#[global] Arguments ar_GetRole {W}.
#[global] Arguments r_GetSecret {W}.
#[global] Arguments r_ListTLSSecrets {W}.
#[global] Arguments r_APIReader {W}.
#[global] Arguments r_random {W}.
