(* ===== verification/PasswordTheorems.v ===== *)
(** * Role passwords: rotation and stale caches *)

From Stdlib Require Import Ascii.
From S2P Require Import Prelude GoStrings GoStrconv RoleSql ApiTypes RolePolicy Trace Password.

(** ** The schedule *)

Section schedule.
Context `{UnicodePrint} `{PasswordDigest} `{GroupVersions} {W : Type} (r : roleAPI W).

(** What a choice that is not a reference looks like. *)
Lemma choosePassword_cases role refPassword current now w dp w1 :
  choosePassword r role false refPassword current now w = (inl dp, w1) →
  dp_fromRef dp = false ∧ dp_rotationRequest dp = pendingRotationRequest role ∧
  (dp_generated dp = false → dp_value dp = current ∧ current ≠ "" ∧ scheduledRotationDue role now = false) ∧
  (dp_rotated dp = true → dp_generated dp = true ∧ current ≠ "" ∧
    (pendingRotationRequest role ≠ "" ∨ scheduledRotationDue role now = true)).
Proof.
  unfold choosePassword. destruct (bool_decide_reflect (current = "")) as [Hc|Hc];
  destruct (bool_decide_reflect (pendingRotationRequest role = "")) as [Hr|Hr];
  destruct (scheduledRotationDue role now) eqn:Hd; simpl; unfold mbind, M_bind, mret, M_ret;
  try (destruct (generateRolePassword r rolePasswordLength w) as [[pw|e] w']);
  intros [= <- <-]; simpl; split_and!; auto; naive_solver.
Qed.

Lemma pending_recorded role dp now :
  dp_rotationRequest dp = pendingRotationRequest role → pendingRotationRequest (recordPassword role dp now) = "".
Proof.
  unfold recordPassword, pendingRotationRequest. simpl. intros ->. repeat case_decide; naive_solver.
Qed.

Lemma rotationInterval_record role dp now : rotationInterval (recordPassword role dp now) = rotationInterval role.
Proof. done. Qed.

Lemma rotationInterval_nonneg role : (0 ≤ rotationInterval role)%Z.
Proof.
  unfold rotationInterval. destruct (rs_PasswordRotation _); [|done].
  unfold minPasswordRotationInterval, second. lia.
Qed.

Lemma due_iff role now :
  scheduledRotationDue role now = true ↔
  rotationInterval role ≠ 0%Z ∧ ∃ t, rst_PasswordRotatedAt (role_Status role) = Some t ∧ (t + rotationInterval role ≤ now)%Z.
Proof.
  unfold scheduledRotationDue. destruct (rst_PasswordRotatedAt _) as [t|]; [|naive_solver].
  rewrite andb_true_iff, !negb_true_iff, !bool_decide_eq_false. split.
  - intros [? ?]. split; [done|]. exists t. split; [done|lia].
  - intros (? & t' & [= <-] & ?). split; [done|lia].
Qed.
End schedule.

(** A rotation happens once. After a password was chosen and recorded, it is
    kept, without asking for randomness and recognised as applied, until the
    schedule is due again, whatever request triggered it; the schedule is due
    exactly one interval (at least an hour) after a generated password was recorded;
    and the requeue time that is reported reaches that moment. *)
Theorem rotation_settles `{UnicodePrint} `{PasswordDigest} `{GroupVersions} {W} (r : roleAPI W) role refPassword current now w dp w1 now' v :
  choosePassword r role false refPassword current now w = (inl dp, w1) → dp_value dp ≠ "" →
  let role' := recordPassword role dp now in
  (scheduledRotationDue role' now' = false →
    choosePassword r role' false refPassword (dp_value dp) now' v =
      (inl {| dp_value := dp_value dp; dp_generated := false; dp_rotated := false; dp_fromRef := false; dp_force := false;
              dp_applied := false; dp_rotationRequest := "" |}, v)) ∧
  (∀ s, sec_Annotations s !! AnnotationPasswordFingerprint = Some (passwordFingerprint role (dp_value dp)) →
    passwordApplied role' (Some s) (dp_value dp) = true) ∧
  (dp_generated dp = true →
    (scheduledRotationDue role' now' = true ↔ rotationInterval role ≠ 0 ∧ now + rotationInterval role ≤ now')%Z) ∧
  (rotationInterval role ≠ 0%Z → (3600 * second ≤ rotationInterval role)%Z ∧
    scheduledRotationDue role' (now' + nextRotationIn role' now') = true).
Proof.
  intros Hch Hne role'. destruct (choosePassword_cases _ _ _ _ _ _ _ _ Hch) as (Href & Hreq & _).
  pose proof (pending_recorded role dp now Hreq) as Hpend. fold role' in Hpend. split_and!.
  - intros Hdue. unfold choosePassword. by rewrite Hpend, Hdue, bool_decide_eq_false_2, bool_decide_eq_true_2.
  - intros s Hs. unfold passwordApplied. rewrite decide_False by done. rewrite Hs. by apply bool_decide_eq_true_2.
  - intros Hg. rewrite due_iff. unfold role' at 2. unfold recordPassword at 1. simpl. rewrite Href, Hg.
    change (rotationInterval role') with (rotationInterval role). naive_solver.
  - intros Hi. split.
    + unfold rotationInterval in *. destruct (rs_PasswordRotation _); [|done]. unfold minPasswordRotationInterval. lia.
    + rewrite due_iff. split; [done|].
      assert (∃ t, rst_PasswordRotatedAt (role_Status role') = Some t) as [t Ht].
      { unfold role', recordPassword. simpl. rewrite Href. destruct (dp_generated dp); [by eexists|].
        destruct (rst_PasswordRotatedAt _); [by eexists|]. rewrite bool_decide_eq_true_2; [by eexists|].
        pose proof (rotationInterval_nonneg role). lia. }
      exists t. split; [done|]. unfold nextRotationIn. rewrite Ht, decide_False by done. lia.
Qed.

(** ** Stale caches *)

Inductive api_event :=
  | ApiSecret (namespace name : string) (r : result (option Secret))
  | ApiTLS (namespace : string) (r : result (list (string * option string)))
  | ApiFreshSecret (namespace name : string) (r : result (option Secret))
  | ApiFreshRole (namespace name : string) (r : result Role)
  | ApiRandom (n : nat) (r : result string).

Definition logged_reader {W} (ar : apiReader W) : apiReader (W * list api_event) :=
  {| ar_GetSecret := λ ns n, logged (ApiFreshSecret ns n) (ar_GetSecret ar ns n);
     ar_GetRole := λ ns n, logged (ApiFreshRole ns n) (ar_GetRole ar ns n) |}.

Definition logged_api {W} (r : roleAPI W) : roleAPI (W * list api_event) :=
  {| r_GetSecret := λ ns n, logged (ApiSecret ns n) (r_GetSecret r ns n);
     r_ListTLSSecrets := λ ns, logged (ApiTLS ns) (r_ListTLSSecrets r ns);
     r_APIReader := logged_reader <$> r_APIReader r;
     r_random := λ n, logged (ApiRandom n) (r_random r n) |}.

Section stale.
Context `{UnicodePrint} `{PasswordDigest} `{GroupVersions} {W : Type} (r : roleAPI W).

Abbreviation lr := (logged_api r).
Abbreviation emits := (emits (λ _ _ _, True)).

(** The Role [role'] of a decision that began with [role] is the one the API server has
    under its name: what the server answered, or of the version it answered. *)
Definition role_confirmed (tr : list api_event) (role role' : Role) : Prop :=
  ∃ fresh, ApiFreshRole (role_Namespace role) (role_Name role) (inl fresh) ∈ tr ∧
    (role' = fresh ∨ role' = role ∧ role_ResourceVersion fresh = role_ResourceVersion role).

(** A Role read in this run, where it is not the one the run began with. *)
Definition role_of_run (tr : list api_event) (role base : Role) : Prop :=
  base = role ∨ ApiFreshRole (role_Namespace role) (role_Name role) (inl base) ∈ tr.

Definition current_password (secret : option Secret) : string :=
  match secret with Some s => secret_value s SecretKeyPassword | None => "" end.

(** What a decision for [base] on the Secret [existing] may be. *)
Definition decision_ok (fromRef : bool) (refPassword : string) (base : Role) (existing : option Secret) (now : Z) (tr : list api_event)
    (role' : Role) (dp : desiredPassword) : Prop :=
  dp_fromRef dp = fromRef ∧
  (fromRef = true → dp_generated dp = false ∧ dp_value dp = refPassword) ∧
  (dp_generated dp = true → ∃ bytes, ApiRandom (rolePasswordLength / 2) (inl bytes) ∈ tr ∧ dp_value dp = hex_encode bytes) ∧
  (dp_generated dp = false → fromRef = false → dp_value dp = current_password existing ∧ dp_value dp ≠ "") ∧
  (dp_rotated dp = true → dp_generated dp = true ∧ (pendingRotationRequest role' ≠ "" ∨ scheduledRotationDue role' now = true) ∧
    (r_APIReader r ≠ None → role_confirmed tr base role')) ∧
  (dp_force dp = true → fromRef = true) ∧
  (base = role' ∨ ApiFreshRole (role_Namespace base) (role_Name base) (inl role') ∈ tr).

Lemma generateRolePassword_emits n : emits (generateRolePassword lr n) (λ c new, ∀ pw, c = inl pw →
  ∃ bytes, ApiRandom (n / 2) (inl bytes) ∈ new ∧ pw = hex_encode bytes).
Proof.
  unfold generateRolePassword. eapply emits_bind; [by apply emits_logged|]. intros b new ->. apply emits_ret. rewrite app_nil_r.
  destruct b as [bytes|e]; [|done]. intros pw [= <-]. exists bytes. split; [by left|done].
Qed.

(** A choice on one Role, with no word on whether the Role is current. *)
Definition choice_ok (fromRef : bool) (refPassword current : string) (now : Z) (tr : list api_event) (role : Role)
    (dp : desiredPassword) : Prop :=
  dp_fromRef dp = fromRef ∧
  (fromRef = true → dp_generated dp = false ∧ dp_value dp = refPassword) ∧
  (dp_generated dp = true → ∃ bytes, ApiRandom (rolePasswordLength / 2) (inl bytes) ∈ tr ∧ dp_value dp = hex_encode bytes) ∧
  (dp_generated dp = false → fromRef = false → dp_value dp = current ∧ dp_value dp ≠ "") ∧
  (dp_rotated dp = true → dp_generated dp = true ∧ (pendingRotationRequest role ≠ "" ∨ scheduledRotationDue role now = true)) ∧
  (dp_force dp = true → fromRef = true).

Lemma choosePassword_emits role (fromRef : bool) refPassword current now :
  emits (choosePassword lr role fromRef refPassword current now) (λ c new, ∀ dp, c = inl dp →
    choice_ok fromRef refPassword current now new role dp).
Proof.
  unfold choosePassword, choice_ok. destruct fromRef; [apply emits_ret; by intros ? [= <-]|].
  destruct (bool_decide_reflect (current = "")) as [Hc|Hc]; simpl.
  2: destruct (bool_decide (pendingRotationRequest role = "") && negb (scheduledRotationDue role now)) eqn:E;
    [apply emits_ret; intros ? [= <-]; by split_and!|].
  all: (eapply emits_bind; [apply generateRolePassword_emits|]).
  all: intros [pw|e] new Hnew; apply emits_ret; rewrite app_nil_r; [|done]; intros ? [= <-]; simpl; split_and!; try done.
  1,2: by intros _; apply Hnew.
  intros _. split; [done|]. apply andb_false_iff in E as [E%bool_decide_eq_false|E%negb_false_iff]; auto.
Qed.

Lemma decision_intro fromRef refPassword base existing now tr new role' dp :
  (∀ ev, ev ∈ new → ev ∈ tr) →
  choice_ok fromRef refPassword (current_password existing) now new role' dp →
  (dp_rotated dp = true → r_APIReader r ≠ None → role_confirmed tr base role') →
  (base = role' ∨ ApiFreshRole (role_Namespace base) (role_Name base) (inl role') ∈ tr) →
  decision_ok fromRef refPassword base existing now tr role' dp.
Proof.
  intros Hin (H1' & H2' & H3' & H4' & H5' & H6') Hc Hb. split_and!; [done|done| |done| |done|done].
  - intros Hg. destruct (H3' Hg) as (bytes & ? & ?). exists bytes. auto.
  - intros Hr. destruct (H5' Hr). split_and!; auto.
Qed.

Lemma choosePasswordFresh_emits role (fromRef : bool) refPassword existing now :
  emits (choosePasswordFresh lr role fromRef refPassword existing now) (λ '(c, role') new,
    (role = role' ∨ ApiFreshRole (role_Namespace role) (role_Name role) (inl role') ∈ new) ∧
    ∀ dp, c = inl dp → decision_ok fromRef refPassword role existing now new role' dp).
Proof.
  unfold choosePasswordFresh. eapply emits_bind; [apply choosePassword_emits|]. intros c new1 Hc.
  destruct c as [dp|e]; [|apply emits_ret; split; [by left|done]]. specialize (Hc dp eq_refl). simpl.
  assert (∀ tr, (∀ ev, ev ∈ new1 → ev ∈ tr) → (dp_rotated dp = true → r_APIReader r ≠ None → role_confirmed tr role role) →
    (role = role ∨ ApiFreshRole (role_Namespace role) (role_Name role) (inl role) ∈ tr) ∧
    ∀ dp', inl dp = (inl dp' : result _) → decision_ok fromRef refPassword role existing now tr role dp') as Hkeep.
  { intros tr Hin Hconf. split; [by left|]. intros ? [= <-]. eapply decision_intro; [exact Hin|done|done|by left]. }
  destruct (r_APIReader r) as [ar|] eqn:Ear; simpl.
  2: { apply emits_ret. rewrite app_nil_r. apply Hkeep; [done|done]. }
  destruct (dp_rotated dp) eqn:Erot.
  2: { apply emits_ret. rewrite app_nil_r. by apply Hkeep. }
  eapply emits_bind; [by apply emits_logged|]. intros f new2 ->.
  destruct f as [fresh|e]; [|apply emits_ret; split; [by left|done]].
  case_decide as Hv.
  - apply emits_ret. rewrite app_nil_r. apply Hkeep; [intros; apply elem_of_app; by left|]. intros _ _. exists fresh.
    split; [apply elem_of_app; right; by left|by right].
  - eapply emits_bind; [apply choosePassword_emits|]. intros c new3 Hc'. apply emits_ret. rewrite app_nil_r.
    assert (ApiFreshRole (role_Namespace role) (role_Name role) (inl fresh) ∈
      new1 ++ [ApiFreshRole (role_Namespace role) (role_Name role) (inl fresh)] ++ new3) as Hin.
    { rewrite !elem_of_app. right. left. by left. }
    split; [by right|]. intros dp' ->. apply (decision_intro _ _ _ _ _ _ new3); [|by apply Hc'| |by right].
    + intros ev ?. rewrite !elem_of_app. auto.
    + intros _ _. exists fresh. split; [done|by left].
Qed.

Lemma decidePassword_emits role (fromRef : bool) refPassword existing now :
  emits (decidePassword lr role fromRef refPassword existing now) (λ '(c, role') new,
    (role = role' ∨ ApiFreshRole (role_Namespace role) (role_Name role) (inl role') ∈ new) ∧
    ∀ dp, c = inl dp → decision_ok fromRef refPassword role existing now new role' dp ∧
    dp_applied dp = negb (dp_generated dp) && passwordApplied role' existing (dp_value dp)).
Proof.
  unfold decidePassword. eapply emits_bind; [apply choosePasswordFresh_emits|]. intros [c role'] new [Hk Hc]. apply emits_ret.
  rewrite app_nil_r. split; [done|]. destruct c as [dp|e]; [|done]. intros ? [= <-]. split; [|done].
  by destruct (Hc dp eq_refl) as (? & ? & ?).
Qed.

(** The Secret [secret] that replaced [existing] is the one the API server has under
    its name: what the server answered, or of the version it answered. *)
Definition secret_confirmed (tr : list api_event) (existing secret : option Secret) : Prop :=
  ∃ s fresh, existing = Some s ∧ ApiFreshSecret (sec_Namespace s) (sec_Name s) (inl fresh) ∈ tr ∧
    (secret = fresh ∨ secret = existing ∧ sec_ResourceVersion <$> fresh = Some (sec_ResourceVersion s)).

(** Where a referenced password comes from. *)
Definition ref_ok (tr : list api_event) (namespace : string) (ref : SecretKeySelector) (pw : string) : Prop :=
  ∃ s, ApiSecret namespace (sel_Name ref) (inl (Some s)) ∈ tr ∧ pw = secret_value s (sel_Key ref) ∧ pw ≠ "" ∧
    passwordProblem pw = None ∧ default "" (sec_Labels s !! LabelAppManagedBy) ≠ LabelValuePgop ∧
    (∀ o, o ∈ sec_OwnerReferences s → parse_group (or_APIVersion o) ≠ Some GroupName) ∧
    ∃ clusters, ApiTLS (sec_Namespace s) (inl clusters) ∈ tr ∧ ∀ c, c ∈ clusters → c.2 ≠ Some (sec_Name s).

Lemma protectedSecretProblem_emits s :
  emits (protectedSecretProblem lr s) (λ p new, p = inl None →
    default "" (sec_Labels s !! LabelAppManagedBy) ≠ LabelValuePgop ∧
    (∀ o, o ∈ sec_OwnerReferences s → parse_group (or_APIVersion o) ≠ Some GroupName) ∧
    ∃ clusters, ApiTLS (sec_Namespace s) (inl clusters) ∈ new ∧ ∀ c, c ∈ clusters → c.2 ≠ Some (sec_Name s)).
Proof.
  unfold protectedSecretProblem. case_decide; [by apply emits_ret|].
  destruct (ownedBy s) as [o|] eqn:Eo; [by apply emits_ret|].
  eapply emits_bind; [by apply emits_logged|]. intros l new ->. apply emits_ret. rewrite app_nil_r.
  destruct l as [clusters|e]; [|done]. intros Hp. split_and!; [done| |].
  - intros o Ho. by apply (head_filter_None _ _ o Eo).
  - exists clusters. split; [by left|]. intros c Hc.
    apply (head_filter_None (λ c, c.2 = Some (sec_Name s)) clusters); [|done].
    injection Hp as Hp. by destruct (head _).
Qed.

Lemma readPasswordSecretRef_emits namespace ref :
  emits (readPasswordSecretRef lr namespace ref) (λ c new, ∀ pw, c = inl pw → ref_ok new namespace ref pw).
Proof.
  unfold readPasswordSecretRef. eapply emits_bind; [by apply emits_logged|]. intros g new ->.
  destruct g as [[s|]|e]; [|by apply emits_ret..].
  eapply emits_bind; [apply protectedSecretProblem_emits|]. intros p new2 Hp. apply emits_ret. rewrite app_nil_r.
  destruct p as [[problem|]|e]; [done| |done]. case_decide as Hne; [done|].
  destruct (passwordProblem _) eqn:Epw; [done|]. intros pw [= <-].
  destruct (Hp eq_refl) as (? & ? & clusters & ? & ?). exists s. split_and!; try done; [by left|].
  exists clusters. split; [|done]. by right.
Qed.

(** What a resolved password is. *)
Definition resolved_ok (role : Role) (existing : option Secret) (now : Z) (tr : list api_event)
    (dp : desiredPassword) (secret : option Secret) (role' : Role) : Prop :=
  (dp_rotated dp = true → dp_generated dp = true ∧ (pendingRotationRequest role' ≠ "" ∨ scheduledRotationDue role' now = true) ∧
    (r_APIReader r ≠ None → ∃ base, role_of_run tr role base ∧ role_confirmed tr base role')) ∧
  (dp_generated dp = true → dp_fromRef dp = false ∧ dp_applied dp = false ∧
    ∃ bytes, ApiRandom (rolePasswordLength / 2) (inl bytes) ∈ tr ∧ dp_value dp = hex_encode bytes) ∧
  (dp_generated dp = false → dp_applied dp = false → existing ≠ None → r_APIReader r ≠ None → secret_confirmed tr existing secret) ∧
  (dp_fromRef dp = true → ∃ ref, rs_PasswordSecretRef (role_Spec role) = Some ref ∧
    ref_ok tr (role_Namespace role) ref (dp_value dp)) ∧
  (dp_generated dp = false → dp_fromRef dp = false → rs_PasswordSecretRef (role_Spec role) = None ∧ dp_force dp = false ∧
    ∃ s, secret = Some s ∧ dp_value dp = secret_value s SecretKeyPassword ∧ dp_value dp ≠ "") ∧
  (dp_applied dp = true → passwordApplied role' secret (dp_value dp) = true).

(** The password reference: what is read before the decision. *)
Definition refPassword_ok (role : Role) (tr : list api_event) (refPassword : string) : Prop :=
  ∀ ref, rs_PasswordSecretRef (role_Spec role) = Some ref → ref_ok tr (role_Namespace role) ref refPassword.

Lemma ref_ok_mono tr tr' ns ref pw : (∀ ev, ev ∈ tr → ev ∈ tr') → ref_ok tr ns ref pw → ref_ok tr' ns ref pw.
Proof.
  intros Hin (s & ? & ? & ? & ? & ? & ? & clusters & ? & ?). exists s. split_and!; auto.
  exists clusters. auto.
Qed.

(** From a decision, made for [base] after the calls [tr1], to a resolved password. *)
Lemma resolved_intro role base existing now tr tr1 tr2 dp secret role' refPassword :
  (∀ ev, ev ∈ tr1 ∨ ev ∈ tr2 → ev ∈ tr) →
  refPassword_ok role tr1 refPassword → role_of_run tr role base →
  decision_ok (match rs_PasswordSecretRef (role_Spec role) with Some _ => true | None => false end) refPassword base secret now tr2 role' dp →
  dp_applied dp = negb (dp_generated dp) && passwordApplied role' secret (dp_value dp) →
  (dp_generated dp = false → dp_applied dp = false → existing ≠ None → r_APIReader r ≠ None → secret_confirmed tr existing secret) →
  resolved_ok role existing now tr dp secret role'.
Proof.
  intros Hin Href Hrun (Hfrom & Hval & Hgen & Hkept & Hrot & Hforce & _) Happ Hsec. split_and!; [| |done| | |].
  - intros Hr. destruct (Hrot Hr) as (? & ? & Hc). split_and!; [done|done|]. intros Har. exists base. split; [done|].
    destruct (Hc Har) as (fresh & ? & ?). exists fresh. split; [auto|done].
  - intros Hg. destruct (Hgen Hg) as (bytes & ? & ?). rewrite Happ, Hg. split_and!; [|done|exists bytes; auto].
    rewrite Hfrom in *. destruct (match _ with Some _ => true | None => false end); [|done]. destruct (Hval eq_refl). congruence.
  - rewrite Hfrom. destruct (rs_PasswordSecretRef _) as [ref|] eqn:Er; [|done]. intros _. exists ref. split; [done|].
    destruct (Hval eq_refl) as [_ ->]. eapply ref_ok_mono; [|by apply Href]. auto.
  - intros Hg Hnf. rewrite Hfrom in Hnf. destruct (rs_PasswordSecretRef _); [done|]. split; [done|].
    destruct (Hkept Hg eq_refl) as [Hv Hne]. split; [destruct (dp_force dp); [by specialize (Hforce eq_refl)|done]|].
    destruct secret as [s|]; [by exists s|by rewrite Hv in Hne].
  - rewrite Happ. by intros [_ ?]%andb_true_iff.
Qed.

Lemma resolvePasswordFresh_emits role existing now :
  emits (resolvePasswordFresh lr role existing now) (λ '(c, secret, role') new, ∀ dp, c = inl dp →
    resolved_ok role existing now new dp secret role').
Proof.
  unfold resolvePasswordFresh. set (fromRef := match rs_PasswordSecretRef _ with Some _ => true | None => false end).
  eapply (emits_bind _ _ _ (λ ref new, ∀ pw, ref = inl pw → refPassword_ok role new pw)).
  { unfold refPassword_ok. destruct (rs_PasswordSecretRef _) as [ref|].
    - eapply emits_conseq; [apply readPasswordSecretRef_emits|]. intros c new Hc pw Hpw ? [= <-]. by apply Hc.
    - apply emits_ret. done. }
  intros ref new1 Href. destruct ref as [refPassword|e]; [|by apply emits_ret]. specialize (Href refPassword eq_refl).
  eapply emits_bind; [apply decidePassword_emits|]. intros [c role1] new2 [Hk Hc].
  destruct c as [dp|e]; [|by apply emits_ret; rewrite ?app_nil_r]. destruct (Hc dp eq_refl) as [Hdec Happ].
  assert (∀ new3, (dp_generated dp = false → dp_applied dp = false → existing ≠ None → r_APIReader r ≠ None →
      secret_confirmed (new1 ++ new2 ++ new3) existing existing) →
    resolved_ok role existing now (new1 ++ new2 ++ new3) dp existing role1) as Hdone.
  { intros new3 Hsec. apply (resolved_intro _ role _ _ _ new1 new2 _ _ _ refPassword); [|done|by left|done|done|done].
    intros ev. rewrite !elem_of_app. tauto. }
  simpl. destruct existing as [s|]; [|apply emits_ret; intros ? [= <-]; by apply Hdone].
  destruct (r_APIReader r) as [ar|] eqn:Ear; simpl; [|apply emits_ret; intros ? [= <-]; by apply Hdone].
  destruct (dp_applied dp || dp_generated dp) eqn:Eag.
  { apply emits_ret. intros ? [= <-]. apply Hdone. intros Hg Ha. by rewrite Hg, Ha in Eag. }
  eapply emits_bind; [by apply emits_logged|]. intros f new3 ->. destruct f as [fresh|e]; [|by apply emits_ret].
  assert (∀ new4, ApiFreshSecret (sec_Namespace s) (sec_Name s) (inl fresh) ∈
    new1 ++ new2 ++ [ApiFreshSecret (sec_Namespace s) (sec_Name s) (inl fresh)] ++ new4) as Hin.
  { intros new4. rewrite !elem_of_app. do 2 right. left. by left. }
  case_bool_decide as Hv.
  - apply emits_ret. intros ? [= <-]. apply Hdone. intros _ _ _ _. exists s, fresh. split_and!; [done|by apply (Hin [])|by right].
  - eapply emits_bind; [apply decidePassword_emits|]. intros [c role2] new4 [Hk2 Hc']. apply emits_ret. rewrite app_nil_r.
    intros dp' ->. destruct (Hc' dp' eq_refl) as [Hdec' Happ'].
    apply (resolved_intro _ role1 _ _ _ new1 new4 _ _ _ refPassword); [|done| |done|done|].
    + intros ev. rewrite !elem_of_app. tauto.
    + destruct Hk as [->|Hk]; [by left|right]. rewrite !elem_of_app. by right; left.
    + intros _ _ _ _. exists s, fresh. split_and!; [done|apply Hin|by left].
Qed.
End stale.

(** C28: what the password of a Role is, and on what it was decided. A password that
    replaces a working one is generated, on a Role that has a rotation pending or due;
    with an uncached reader, on the Role as the API server has it: read again in this
    run under its name, and decided on that answer or found of the same version. A
    password that is neither generated nor recorded as applied by the credentials
    Secret will be sent to PostgreSQL; with an uncached reader and a Secret that exists
    it was decided on the Secret as the API server has it, read again in the same way.
    A password that is recorded as applied may be decided on a cached Secret; it is not
    sent, unless it is a referenced one and a rotation is requested. A generated
    password is the hexadecimal of fresh random bytes. A referenced password is the
    value of the referenced key as the cache has it, not empty and usable, of a Secret
    that has no label of pgop and no owner of pgop's and that no Cluster uses for TLS;
    that read is not confirmed. Any other password is the credentials Secret's own,
    not empty, and usable if it is going to be sent. *)
Theorem passwords_from_confirmed_state `{UnicodePrint} `{PasswordDigest} `{GroupVersions} {W} (r : roleAPI W) role existing now
    w dp secret role' w' tr :
  resolvePassword (logged_api r) role existing now (w, []) = ((inl dp, secret, role'), (w', tr)) →
  (dp_rotated dp = true → dp_generated dp = true ∧ (pendingRotationRequest role' ≠ "" ∨ scheduledRotationDue role' now = true) ∧
    (r_APIReader r ≠ None → ∃ base, role_of_run tr role base ∧ role_confirmed tr base role')) ∧
  (dp_generated dp = true → dp_fromRef dp = false ∧ dp_applied dp = false ∧
    ∃ bytes, ApiRandom (rolePasswordLength / 2) (inl bytes) ∈ tr ∧ dp_value dp = hex_encode bytes) ∧
  (dp_generated dp = false → dp_applied dp = false → existing ≠ None → r_APIReader r ≠ None → secret_confirmed tr existing secret) ∧
  (dp_fromRef dp = true → ∃ ref, rs_PasswordSecretRef (role_Spec role) = Some ref ∧
    ref_ok tr (role_Namespace role) ref (dp_value dp)) ∧
  (dp_generated dp = false → dp_fromRef dp = false → rs_PasswordSecretRef (role_Spec role) = None ∧ dp_force dp = false ∧
    ∃ s, secret = Some s ∧ dp_value dp = secret_value s SecretKeyPassword ∧ dp_value dp ≠ "" ∧
      (dp_applied dp = false → passwordProblem (dp_value dp) = None)) ∧
  (dp_applied dp = true → passwordApplied role' secret (dp_value dp) = true).
Proof.
  intros Hrun.
  assert (emits (λ _ _ _, True) (resolvePassword (logged_api r) role existing now) (λ '(c, secret, role') new, ∀ dp, c = inl dp →
    resolved_ok r role existing now new dp secret role' ∧ checkEditedPassword dp secret = None)) as He.
  { unfold resolvePassword. eapply emits_bind; [apply resolvePasswordFresh_emits|]. intros [[c s] ro] new Hc.
    apply emits_ret. rewrite app_nil_r. destruct c as [dp'|e]; [|done].
    destruct (checkEditedPassword dp' s) eqn:Ech; [done|]. intros ? [= <-]. auto. }
  destruct (emits_run _ _ _ _ _ _ _ He Hrun) as [_ Hres]. destruct (Hres dp eq_refl) as [(H1' & H2' & H3' & H4' & H5' & H6') Hch].
  split_and!; [done..| |done]. intros Hg Hf. destruct (H5' Hg Hf) as (Hn & Hforce & s & Hs & Hv & Hne). split_and!; [done|done|].
  exists s. split_and!; [done..|]. intros Ha. rewrite Hs in Hch. unfold checkEditedPassword in Hch. rewrite Hg, Hf, Ha in Hch. simpl in Hch.
  by destruct (passwordProblem (dp_value dp)).
Qed.

(** The cached Role still looks due for rotation; the API server's was just rotated. *)
Module ToyPassword.
#[export] Instance print : UnicodePrint := λ _, true.
#[export] Instance digest : PasswordDigest := λ s, "hash of " +:+ s.
#[export] Instance groups : GroupVersions := λ s, fst <$> Cut s "/"%char.

Definition spec : RoleSpec :=
  {| rs_ClusterRef := "c"; rs_RoleName := "app"; rs_Login := None; rs_CreateDB := false; rs_CreateRole := false;
     rs_Inherit := None; rs_Replication := false; rs_BypassRLS := false; rs_ConnectionLimit := None;
     rs_MemberOf := []; rs_Memberships := []; rs_RevokeRemovedMemberships := None; rs_PasswordSecretRef := None;
     rs_PasswordRotation := Some {| pr_Every := 7200 * second |};
     rs_ParameterGrants := []; rs_ReassignOwnedTo := None; rs_Settings := ∅; rs_DatabaseSettings := [] |}.

Definition role (version : string) (rotatedAt : Z) (request : string) : Role :=
  {| role_Name := "app"; role_Namespace := "ns"; role_UID := "uid"; role_ResourceVersion := version; role_Generation := 1; role_Finalizers := [];
     role_CreationTimestamp := 0; role_Deleting := false; role_Annotations := {[ AnnotationRotatePassword := "now" ]};
     role_Spec := spec;
     role_Status := {| rst_Conditions := []; rst_Ready := true; rst_RoleName := "app"; rst_ClusterUID := "c"; rst_SecretName := "app-credentials";
       rst_PasswordRotatedAt := Some rotatedAt; rst_PasswordRotationRequest := request; rst_PasswordHash := "";
       rst_ManagedMemberships := []; rst_ManagedParameterGrants := []; rst_ManagedSettings := [];
       rst_ManagedDatabaseSettings := [] |} |}.

Definition secret (version pw : string) : Secret :=
  {| sec_Name := "app-credentials"; sec_Namespace := "ns"; sec_ResourceVersion := version; sec_Labels := ∅;
     sec_Annotations := ∅; sec_OwnerReferences := []; sec_ControllerUID := None; sec_Data := {[ SecretKeyPassword := pw ]} |}.

Definition api : roleAPI () :=
  {| r_GetSecret := λ _ _, mret (inl None); r_ListTLSSecrets := λ _, mret (inl []);
     r_APIReader := Some {| ar_GetSecret := λ _ _, mret (inl (Some (secret "2" "fresh")));
                            ar_GetRole := λ _ _, mret (inl (role "2" (9000 * second) "now")) |};
     r_random := λ n, mret (inl "0123456789abcdef") |}.

Definition now : Z := 10000 * second.
Definition run := resolvePassword (logged_api api) (role "1" 0 "") (Some (secret "1" "stale")) now ((), []).
Definition chosen := choosePassword api (role "1" 0 "") false "" "old" now ().
End ToyPassword.
#[local] Existing Instances ToyPassword.print ToyPassword.digest ToyPassword.groups.

Lemma rotation_settles_witness :
  let dp := default {| dp_value := ""; dp_generated := false; dp_rotated := false; dp_fromRef := false; dp_force := false;
                       dp_applied := false; dp_rotationRequest := "" |}
              (match ToyPassword.chosen.1 with inl dp => Some dp | inr _ => None end) in
  let role' := recordPassword (ToyPassword.role "1" 0 "") dp ToyPassword.now in
  dp_value dp = "30313233343536373839616263646566" ∧ dp_rotated dp = true ∧
  (scheduledRotationDue role' (10000 * second + 7199 * second) = false) ∧
  (scheduledRotationDue role' (ToyPassword.now + nextRotationIn role' ToyPassword.now) = true).
Proof.
  intros dp role'. split_and!; [by vm_compute|by vm_compute|by vm_compute|].
  destruct (rotation_settles ToyPassword.api (ToyPassword.role "1" 0 "") "" "old" ToyPassword.now () dp () ToyPassword.now ())
    as (_ & _ & _ & Hnext); [by vm_compute..|]. by apply Hnext.
Defined.

Lemma passwords_from_confirmed_state_witness :
  let dp := match ToyPassword.run.1.1.1 with inl dp => dp_value dp | inr _ => "" end in
  dp = "fresh" ∧ secret_confirmed ToyPassword.run.2.2 (Some (ToyPassword.secret "1" "stale")) ToyPassword.run.1.1.2.
Proof.
  intros dp. split; [by vm_compute|].
  destruct ToyPassword.run as [[[[d|e] s] ro] [w tr]] eqn:E; [|by vm_compute in E].
  destruct (passwords_from_confirmed_state ToyPassword.api (ToyPassword.role "1" 0 "") (Some (ToyPassword.secret "1" "stale"))
    ToyPassword.now () d s ro w tr E) as (_ & _ & Hs & _).
  vm_compute in E. injection E as <- <- <- <- <-. by apply Hs.
Defined.
