(* ===== verification/Connection.v ===== *)
(** * Connections to a Cluster (src/internal/controller/pgconn.go, marker_key.go, tls.go)

    The connection security of a Cluster, the operator's connection, the
    connection keys of a credentials Secret, and the Secret with the key of the
    ownership markers. A Secret that the API server does not have is [None]. *)

From Stdlib Require Import Ascii.
From S2P Require Import Prelude GoStrings GoStrconv GoUrl RoleSql ApiTypes RolePolicy Password.

Definition SSLModeDisable : string := "disable".
Definition SSLModePrefer : string := "prefer".
Definition SSLModeVerifyFull : string := "verify-full".
Definition SecretKeyUsername : string := "username".
Definition SecretKeyHost : string := "host".
Definition SecretKeyPort : string := "port".
Definition SecretKeySSLMode : string := "sslmode".
Definition SecretKeyCACert : string := "ca.crt".
Definition SecretKeyURI : string := "uri".
Definition TLSSecretKeyCA : string := "ca.crt".
Definition defaultDatabaseName : string := "postgres".
Definition LabelAppName : string := "app.kubernetes.io/name".
Definition LabelAppInstance : string := "app.kubernetes.io/instance".
Definition AppNamePostgresql : string := "postgresql".

(** The TLS part of a Cluster's spec. *)
Record ClusterTLSSpec := { tls_SecretName : string; tls_IssuerRef : option string }.

(** The fields of a Cluster that clients read; [k_TLSReady]: its TLSReady
    condition is True. *)
Record PgCluster := {
  k_Name : string;
  k_Namespace : string;
  k_UID : string;
  k_Port : Z;
  k_TLS : option ClusterTLSSpec;
  k_RolePolicy : policy;
  k_Ready : bool;
  k_SecretName : string;
  k_TLSReady : bool;
  k_TLSSecretHash : string }.

Record clientTLS := { ct_SSLMode : string; ct_CACert : string }.

Definition tlsActive (cluster : PgCluster) : bool :=
  match k_TLS cluster with Some _ => k_TLSReady cluster | None => false end.

Definition clientTLSFor (cluster : PgCluster) (caPEM : string) : clientTLS :=
  match k_TLS cluster with
  | None => {| ct_SSLMode := SSLModeDisable; ct_CACert := "" |}
  | Some _ => if negb (tlsActive cluster) then {| ct_SSLMode := SSLModePrefer; ct_CACert := "" |}
              else {| ct_SSLMode := SSLModeVerifyFull; ct_CACert := caPEM |}
  end.

Definition clusterHost (cluster : PgCluster) : string :=
  k_Name cluster +:+ "." +:+ k_Namespace cluster +:+ ".svc.cluster.local".

Definition clusterPort (cluster : PgCluster) : Z := if decide (k_Port cluster = 0%Z) then 5432%Z else k_Port cluster.

Definition certManagerSecretName (cluster : PgCluster) : string := k_Name cluster +:+ "-server-tls".
Definition selfManagedServerSecretName (cluster : PgCluster) : string := k_Name cluster +:+ "-server-cert".

(** [spec.tls] must be set. *)
Definition tlsSecretName (cluster : PgCluster) : string :=
  match k_TLS cluster with
  | Some t => if decide (tls_SecretName t = "") then
                match tls_IssuerRef t with
                | Some _ => certManagerSecretName cluster
                | None => selfManagedServerSecretName cluster
                end
              else tls_SecretName t
  | None => ""
  end.

Definition notFound (name : string) : gerr := Errorf "secrets %q not found" [name].

(** ** The keys of a credentials Secret *)

Definition connectionURI (user password host : string) (port : Z) (database sslMode : string) : string :=
  "postgresql://" +:+ url_escape user encodeUserPassword +:+ ":" +:+ url_escape password encodeUserPassword
    +:+ "@" +:+ url_escape (JoinHostPort host (Itoa port)) encodeHost
    +:+ url_escape ("/" +:+ database) encodePath
    +:+ "?sslmode=" +:+ url_escape sslMode encodeQueryComponent.

(** The connection keys [applyConnectionInfo] wants. *)
Definition wantedConnection (data : gmap string string) (host : string) (port : Z) (database : string) (t : clientTLS)
    : gmap string string :=
  let base : gmap string string :=
    <[SecretKeyHost := host]> (<[SecretKeyPort := Itoa port]> (<[SecretKeySSLMode := ct_SSLMode t]>
      (<[SecretKeyURI := connectionURI (default "" (data !! SecretKeyUsername)) (default "" (data !! SecretKeyPassword))
           host port database (ct_SSLMode t)]> ∅))) in
  if decide (ct_CACert t = "") then base else <[SecretKeyCACert := ct_CACert t]> base.

(** One pass of the loop over the wanted keys. *)
Definition set_wanted (k v : string) (st : gmap string string * bool) : gmap string string * bool :=
  if decide (st.1 !! k = Some v) then st else (<[k := v]> st.1, true).

Definition applyConnectionInfo (data : gmap string string) (host : string) (port : Z) (database : string) (t : clientTLS)
    : gmap string string * bool :=
  let want := wantedConnection data host port database t in
  let '(data, changed) := map_fold set_wanted (data, false) want in
  match want !! SecretKeyCACert, data !! SecretKeyCACert with
  | None, Some _ => (delete SecretKeyCACert data, true)
  | _, _ => (data, changed)
  end.

(** ** The operator's connection *)

Section reads.
Context {W : Type} (GetSecret : string → string → M W (result (option Secret))).

Definition clusterClientTLS (cluster : PgCluster) : M W (result clientTLS) :=
  if negb (tlsActive cluster) then mret (inl (clientTLSFor cluster ""))
  else
    let name := tlsSecretName cluster in
    s ← GetSecret (k_Namespace cluster) name;
    mret (match s with
          | inr e => inr (Wrapf "failed to get TLS Secret %q: %w" [name] e)
          | inl None => inr (Wrapf "failed to get TLS Secret %q: %w" [name] (notFound name))
          | inl (Some secret) =>
              let ca := secret_value secret TLSSecretKeyCA in
              if decide (ca = "") then inr (Errorf "TLS Secret %q has no %q" [name; TLSSecretKeyCA])
              else inl (clientTLSFor cluster ca)
          end).

Definition operatorConnectionConfig (cluster : PgCluster) (dbName : string) : M W (result ConnectionConfig) :=
  s ← GetSecret (k_Namespace cluster) (k_SecretName cluster);
  match s with
  | inr e => mret (inr (Wrapf "failed to get credentials secret: %w" [] e))
  | inl None => mret (inr (Wrapf "failed to get credentials secret: %w" [] (notFound (k_SecretName cluster))))
  | inl (Some secret) =>
      t ← clusterClientTLS cluster;
      mret (match t with
            | inr e => inr e
            | inl t => inl {| cc_Host := clusterHost cluster; cc_Port := clusterPort cluster;
                              cc_User := secret_value secret SecretKeyUsername; cc_Password := secret_value secret SecretKeyPassword;
                              cc_Database := dbName; cc_SSLMode := ct_SSLMode t; cc_RootCertPEM := ct_CACert t;
                              cc_ConnectTimeout := 0 |}
            end)
  end.

(** ** The key of the ownership markers *)

Definition markerKeySize : nat := 32.
Definition secretKeyMarkerKey : string := "key".
Definition markerKeySecretName (cluster : PgCluster) : string := k_Name cluster +:+ "-marker-key".

Definition newMarkerSigner (cluster : PgCluster) (key : string) : markerSigner :=
  {| ms_key := key; ms_namespace := k_Namespace cluster; ms_cluster := k_Name cluster |}.

Definition loadMarkerSigner (cluster : PgCluster) : M W (result markerSigner) :=
  let name := markerKeySecretName cluster in
  s ← GetSecret (k_Namespace cluster) name;
  mret (match s with
        | inr e => inr (Wrapf "failed to get the ownership-marker key Secret %q: %w" [name] e)
        | inl None => inr (Wrapf "failed to get the ownership-marker key Secret %q: %w" [name] (notFound name))
        | inl (Some secret) =>
            let key := secret_value secret secretKeyMarkerKey in
            if bool_decide (String.length key < markerKeySize)%nat
            then inr (Errorf "the ownership-marker key Secret %q has no usable %q key" [name; secretKeyMarkerKey])
            else inl (newMarkerSigner cluster key)
        end).

(** The Secret [ensureMarkerKeySecret] creates; the Cluster controls it. *)
Definition marker_key_secret (cluster : PgCluster) (key : string) : Secret :=
  {| sec_Name := markerKeySecretName cluster; sec_Namespace := k_Namespace cluster; sec_ResourceVersion := "";
     sec_Labels := <[LabelAppName := AppNamePostgresql]> (<[LabelAppInstance := k_Name cluster]>
                     (<[LabelAppManagedBy := LabelValuePgop]> ∅));
     sec_Annotations := ∅; sec_ControllerUID := Some (k_UID cluster);
     sec_OwnerReferences := [{| or_APIVersion := GroupName +:+ "/v1alpha1"; or_Kind := "Cluster"; or_Name := k_Name cluster |}];
     sec_Data := {[ secretKeyMarkerKey := key ]} |}.

(** [create] answers whether the Secret existed already. *)
Definition ensureMarkerKeySecret (random : nat → M W (result string)) (create : Secret → M W (result bool)) (cluster : PgCluster)
    : M W error :=
  s ← GetSecret (k_Namespace cluster) (markerKeySecretName cluster);
  match s with
  | inr e => mret (Some e)
  | inl (Some _) => mret None
  | inl None =>
      k ← random markerKeySize;
      match k with
      | inr e => mret (Some (Wrapf "failed to generate the marker key: %w" [] e))
      | inl key =>
          r ← create (marker_key_secret cluster key);
          mret (match r with inr e => Some e | inl _ => None end)
      end
  end.
End reads.

(** ** Which updates of a Cluster wake its clients *)

Definition clusterConnectionFingerprint (c : PgCluster) : string :=
  FormatBool (k_Ready c) +:+ "|" +:+ Itoa (clusterPort c) +:+ "|" +:+ FormatBool (bool_decide (is_Some (k_TLS c)))
    +:+ "|" +:+ FormatBool (tlsActive c) +:+ "|" +:+ k_TLSSecretHash c.

Definition clusterConnectionChanged (oldC newC : PgCluster) : bool :=
  negb (bool_decide (clusterConnectionFingerprint oldC = clusterConnectionFingerprint newC)).

(** ** Connections: what a credentials Secret says *)

(** ** The keys of a credentials Secret *)

(** The loop over the wanted keys, whatever the order Go visits them in. *)
Lemma set_wanted_all want data :
  let r := map_fold set_wanted (data, false) want in
  r.1 = want ∪ data ∧ (r.2 = true ↔ want ∪ data ≠ data).
Proof.
  apply (map_fold_weak_ind (λ (r : gmap string string * bool) m, r.1 = m ∪ data ∧ (r.2 = true ↔ m ∪ data ≠ data))); simpl.
  - rewrite (left_id_L ∅ (∪)). by split.
  - intros k v m [d c] Hk [Hd Hc]. simpl in Hd, Hc. subst d. unfold set_wanted. cbn [fst snd].
    rewrite <- insert_union_l. case_decide as Hv.
    + cbn [fst snd]. by rewrite (insert_id _ _ _ Hv).
    + cbn [fst snd]. split; [done|]. split; [|done]. intros _ Heq.
      apply (f_equal (lookup k)) in Heq. rewrite lookup_insert_eq in Heq.
      apply Hv. by rewrite lookup_union_r.
Qed.

(** What the keys are set to. *)
Definition connected (data : gmap string string) (host : string) (port : Z) (database : string) (t : clientTLS)
    : gmap string string :=
  let want := wantedConnection data host port database t in
  if decide (ct_CACert t = "") then want ∪ delete SecretKeyCACert data else want ∪ data.

Lemma wantedConnection_lookup data host port database t k :
  wantedConnection data host port database t !! k =
    if decide (k = SecretKeyCACert) then if decide (ct_CACert t = "") then None else Some (ct_CACert t)
    else if decide (k = SecretKeyHost) then Some host
    else if decide (k = SecretKeyPort) then Some (Itoa port)
    else if decide (k = SecretKeySSLMode) then Some (ct_SSLMode t)
    else if decide (k = SecretKeyURI) then
      Some (connectionURI (default "" (data !! SecretKeyUsername)) (default "" (data !! SecretKeyPassword)) host port database
              (ct_SSLMode t))
    else None.
Proof.
  unfold wantedConnection. destruct (decide (ct_CACert t = "")) as [Hca|Hca]; repeat case_decide; subst;
    rewrite ?lookup_insert_eq; try done; repeat (rewrite lookup_insert_ne by done || rewrite lookup_insert_eq); done.
Qed.

Lemma applyConnectionInfo_connected data host port database t :
  (applyConnectionInfo data host port database t).1 = connected data host port database t ∧
  ((applyConnectionInfo data host port database t).2 = true ↔ connected data host port database t ≠ data).
Proof.
  unfold applyConnectionInfo, connected. pose proof (set_wanted_all (wantedConnection data host port database t) data) as H.
  destruct (map_fold _ _ _) as [d c]. simpl in H. destruct H as [-> Hc].
  rewrite wantedConnection_lookup, decide_True by done.
  destruct (decide (ct_CACert t = "")) as [Hca|Hca]; [|done].
  rewrite lookup_union_r by (rewrite wantedConnection_lookup, decide_True, decide_True; done).
  destruct (data !! SecretKeyCACert) as [v|] eqn:E; cbn [fst snd].
  - assert (delete SecretKeyCACert (wantedConnection data host port database t ∪ data) =
      wantedConnection data host port database t ∪ delete SecretKeyCACert data) as ->.
    { rewrite delete_union. f_equal. apply delete_id. by rewrite wantedConnection_lookup, decide_True, decide_True. }
    split; [done|]. split; [|done]. intros _ Heq. apply (f_equal (lookup SecretKeyCACert)) in Heq.
    rewrite lookup_union_r, lookup_delete_eq in Heq by (by rewrite wantedConnection_lookup, decide_True, decide_True).
    congruence.
  - rewrite delete_id by done. done.
Qed.

Lemma connected_other data host port database t k :
  k ∉ [SecretKeyHost; SecretKeyPort; SecretKeySSLMode; SecretKeyURI; SecretKeyCACert] →
  connected data host port database t !! k = data !! k.
Proof.
  intros Hk. repeat (apply not_elem_of_cons in Hk as [? Hk]).
  assert (wantedConnection data host port database t !! k = None) as Hn
    by (rewrite wantedConnection_lookup; by rewrite !decide_False by done).
  unfold connected. case_decide; rewrite lookup_union_r by done; [by rewrite lookup_delete_ne|done].
Qed.

Lemma connected_wanted data host port database t k v :
  wantedConnection data host port database t !! k = Some v → connected data host port database t !! k = Some v.
Proof. intros Hv. unfold connected. case_decide; by apply lookup_union_Some_l. Qed.

Lemma wantedConnection_ext data data' host port database t :
  data !! SecretKeyUsername = data' !! SecretKeyUsername → data !! SecretKeyPassword = data' !! SecretKeyPassword →
  wantedConnection data host port database t = wantedConnection data' host port database t.
Proof. intros Hu Hp. unfold wantedConnection. by rewrite Hu, Hp. Qed.

Lemma connected_idemp data host port database t :
  connected (connected data host port database t) host port database t = connected data host port database t.
Proof.
  assert (wantedConnection (connected data host port database t) host port database t = wantedConnection data host port database t) as Hw
    by (apply wantedConnection_ext; by apply connected_other; vm_compute; set_solver).
  unfold connected at 1. rewrite Hw. unfold connected. case_decide.
  - rewrite delete_union, delete_delete_eq, (delete_id (wantedConnection _ _ _ _ _))
      by (by rewrite wantedConnection_lookup, decide_True, decide_True).
    by rewrite map_union_assoc, map_union_idemp.
  - by rewrite map_union_assoc, map_union_idemp.
Qed.

Lemma read_connectionURI user password host port database sslMode :
  read_uri (connectionURI user password host port database sslMode) =
    Some {| up_user := user; up_password := password; up_hostport := url_escape (JoinHostPort host (Itoa port)) encodeHost;
            up_database := database; up_query := "sslmode=" +:+ url_escape sslMode encodeQueryComponent |}.
Proof.
  set (u := url_escape user encodeUserPassword). set (p := url_escape password encodeUserPassword).
  set (h := url_escape (JoinHostPort host (Itoa port)) encodeHost). set (d := url_escape database encodePath).
  set (q := "sslmode=" +:+ url_escape sslMode encodeQueryComponent).
  assert (connectionURI user password host port database sslMode =
    "postgresql://" +:+ (u +:+ String ":" p) +:+ String "@" (h +:+ String "/" (d +:+ String "?" q))) as ->
    by (unfold connectionURI; rewrite !app_assoc_s; done).
  unfold read_uri. rewrite (proj2 (CutPrefix_Some _ _ _) eq_refl). cbn [mbind option_bind].
  assert (∀ b s, forallb (λ n, bool_decide (ContainsByte (escape_byte encodeUserPassword (ascii_of_N (N.of_nat n))) b = false))
    (seq 0 256) = true → ContainsByte (url_escape s encodeUserPassword) b = false) as Hu by (intros; by apply escape_no_byte).
  rewrite Cut_app.
  2: { rewrite ContainsByte_app_s. change (String ":" p) with (":" +:+ p). rewrite ContainsByte_app_s.
       unfold u, p. by rewrite !Hu by (by vm_compute). }
  cbn [mbind option_bind]. rewrite (Cut_app u) by (by apply Hu; vm_compute). cbn [mbind option_bind].
  rewrite (Cut_app h) by (by apply escape_no_byte; vm_compute). cbn [mbind option_bind].
  rewrite (Cut_app d) by (by apply escape_no_byte; vm_compute). cbn [mbind option_bind]. unfold u, p, d.
  rewrite !decode_escape by auto. done.
Qed.

(** ** Properties *)

(** A connection URI means what it was built from: whatever bytes the user, the
    password and the database name hold, a libpq client reads exactly those back, so
    no password can move the host or add a connection option. *)
Theorem connectionURI_reads_back user password host port database sslMode :
  read_uri (connectionURI user password host port database sslMode) =
    Some {| up_user := user; up_password := password; up_hostport := url_escape (JoinHostPort host (Itoa port)) encodeHost;
            up_database := database; up_query := "sslmode=" +:+ url_escape sslMode encodeQueryComponent |}.
Proof. apply read_connectionURI. Qed.

(** The connection keys of a credentials Secret are exactly the Cluster's: host,
    port, sslmode, the CA only while it is verified, and a uri that reads back as
    the Secret's own user and password; every other key is kept, a change is
    reported exactly when there is one, and a second run changes nothing. *)
Theorem applyConnectionInfo_exact data host port database t :
  let '(data', changed) := applyConnectionInfo data host port database t in
  (changed = true ↔ data' ≠ data) ∧
  data' !! SecretKeyHost = Some host ∧ data' !! SecretKeyPort = Some (Itoa port) ∧
  data' !! SecretKeySSLMode = Some (ct_SSLMode t) ∧
  data' !! SecretKeyCACert = (if decide (ct_CACert t = "") then None else Some (ct_CACert t)) ∧
  (∃ uri parts, data' !! SecretKeyURI = Some uri ∧ read_uri uri = Some parts ∧
    up_user parts = default "" (data' !! SecretKeyUsername) ∧ up_password parts = default "" (data' !! SecretKeyPassword) ∧
    up_database parts = database) ∧
  (∀ k, k ∉ [SecretKeyHost; SecretKeyPort; SecretKeySSLMode; SecretKeyURI; SecretKeyCACert] → data' !! k = data !! k) ∧
  applyConnectionInfo data' host port database t = (data', false).
Proof.
  destruct (applyConnectionInfo_connected data host port database t) as [H1 H2].
  destruct (applyConnectionInfo data host port database t) as [data' changed]. simpl in H1, H2. subst data'.
  assert (∀ k v, wantedConnection data host port database t !! k = Some v →
    connected data host port database t !! k = Some v) as Hw by apply connected_wanted.
  split_and!; [done|by apply Hw; rewrite wantedConnection_lookup..| | |by apply connected_other|].
  - unfold connected. case_decide as Hca.
    + rewrite lookup_union_r, lookup_delete_eq; [done|]. by rewrite wantedConnection_lookup, decide_True, decide_True.
    + apply lookup_union_Some_l. by rewrite wantedConnection_lookup, decide_True, decide_False.
  - rewrite !(connected_other _ _ _ _ _ SecretKeyUsername), !(connected_other _ _ _ _ _ SecretKeyPassword) by (vm_compute; set_solver).
    eexists _, _. split_and!; [apply Hw; by rewrite wantedConnection_lookup|apply read_connectionURI|done..].
  - pose proof (applyConnectionInfo_connected (connected data host port database t) host port database t) as [H1 H3].
    rewrite connected_idemp in H1, H3. destruct (applyConnectionInfo _ _ _ _ _) as [d [|]]; simpl in H1, H3; subst; [|done].
    by destruct (proj1 H3 eq_refl).
Qed.
