(* ===== verification/RoleCleanup.v ===== *)
(** * Clean-up of a deleted Role (src/internal/controller/role_object_cleanup.go, role_reassign.go)

    What the Databases' ledgers and specs say about a role, the revokes that follow
    from it, and the reassignment of the objects the role owns. [pgClient] is the
    operator's connection to one database: the operations of internal/postgres that
    the Role reconciler calls. *)

From S2P Require Import Prelude GoStrings GoStrconv Privileges Parameters RoleSql ApiTypes RolePolicy Objects.
From S2P Require Import Settings Memberships GrantEngine GranteePolicy Grants ObjectGrants.

(** ** What is recorded *)

Record createdObjectsGrant := {
  cg_schema : string;
  cg_forRole : string;
  cg_kind : defaultKindInfo;
  cg_privileges : list string }.

Record recordedObjectAccess := {
  ra_objects : list ManagedObjectGrant;
  ra_defaults : list ManagedDefaultPrivilege;
  ra_created : list createdObjectsGrant }.

Definition no_access : recordedObjectAccess := {| ra_objects := []; ra_defaults := []; ra_created := [] |}.

Definition add_object_grant (role : string) (a : recordedObjectAccess) (g : ManagedObjectGrant) : recordedObjectAccess :=
  if bool_decide (mog_Role g = role) && validLedgerSchema (mog_Schema g)
  then {| ra_objects := ra_objects a ++ [g]; ra_defaults := ra_defaults a; ra_created := ra_created a |}
  else a.

(** [addCreated], with its set of keys seen in this Database. *)
Definition addCreated (st : recordedObjectAccess * gset string) (schema forRole : string) (kind : defaultKindInfo)
    (privileges : list string) : recordedObjectAccess * gset string :=
  let '(a, seen) := st in
  let k := schema +:+ "|" +:+ forRole +:+ "|" +:+ dki_api kind in
  if negb (validLedgerSchema schema) || bool_decide (forRole = "") || bool_decide (privileges = []) || bool_decide (k ∈ seen)
  then (a, seen)
  else ({| ra_objects := ra_objects a; ra_defaults := ra_defaults a;
           ra_created := ra_created a ++ [{| cg_schema := schema; cg_forRole := forRole; cg_kind := kind;
                                             cg_privileges := privileges |}] |}, {[k]} ∪ seen).

Definition add_default (role : string) (st : recordedObjectAccess * gset string) (d : ManagedDefaultPrivilege)
    : recordedObjectAccess * gset string :=
  if (negb (bool_decide (mdp_Role d = role)) && negb (bool_decide (mdp_ForRole d = role))) || negb (validLedgerSchema (mdp_Schema d))
  then st
  else
    let a := {| ra_objects := ra_objects st.1; ra_defaults := ra_defaults st.1 ++ [d]; ra_created := ra_created st.1 |} in
    match defaultKindOf (mdp_Kind d) with
    | Some ki => if decide (mdp_Role d = role)
                 then addCreated (a, st.2) (mdp_Schema d) (mdp_ForRole d) ki (str_union (mdp_Privileges d) (mdp_GrantOptions d))
                 else (a, st.2)
    | None => (a, st.2)
    end.

Definition add_declared (role schema : string) (st : recordedObjectAccess * gset string) (d : DefaultPrivilegeSpec)
    : recordedObjectAccess * gset string :=
  match defaultKindOf (dps_Kind d) with
  | Some ki =>
      if decide (CanonicalGrantee (dps_Role d) = role) then
        match normalizeObjectPrivileges (dki_object ki) (dps_Privileges d) with
        | inl privs => addCreated st schema (dps_ForRole d) ki privs
        | inr _ => st
        end
      else st
  | None => st
  end.

(** One Database added to what is known of its PostgreSQL database. *)
Definition add_database (role : string) (db : Database) (a : recordedObjectAccess) : recordedObjectAccess :=
  let a := foldl (add_object_grant role) a (dst_ManagedObjectGrants (db_Status db)) in
  let st := foldl (add_default role) (a, ∅) (dst_ManagedDefaultPrivileges (db_Status db)) in
  (foldl (λ st s, foldl (add_declared role (ss_Name s)) st (ss_DefaultPrivileges s)) st (ds_Schemas (db_Spec db))).1.

(** An entry appears only once something is recorded or declared ([at]). *)
Definition recorded_step (cluster uid role : string) (out : gmap string recordedObjectAccess) (db : Database)
    : gmap string recordedObjectAccess :=
  let name := dst_DatabaseName (db_Status db) in
  if decide (ds_ClusterRef (db_Spec db) ≠ cluster ∨ dst_ClusterUID (db_Status db) ≠ uid ∨ name = "") then out
  else
    let a := add_database role db (default no_access (out !! name)) in
    match a with
    | Build_recordedObjectAccess [] [] [] => out
    | _ => <[name := a]> out
    end.

Definition recordedObjectAccessFrom (databases : list Database) (cluster uid role : string) : gmap string recordedObjectAccess :=
  foldl (recorded_step cluster uid role) ∅ databases.

(** ** Revoking it *)

Record objectAccessRevoker (W : Type) := {
  rv_RevokeOnSchemaObject : string → string → string → Z → string → list string → RevokeMode → M W error;
  rv_RevokeDefaultPrivileges : DefaultPrivilegesTarget → string → list string → RevokeMode → M W error;
  rv_RoleOIDs : list string → M W (result (gmap string Z));
  rv_ListSchemaObjects : string → string → SchemaObjectSelector → M W (result (list SchemaObject)) }.
Arguments rv_RevokeOnSchemaObject {W}. Arguments rv_RevokeDefaultPrivileges {W}.
Arguments rv_RoleOIDs {W}. Arguments rv_ListSchemaObjects {W}.

Definition option_mode : RevokeMode := {| GrantOptionOnly := true; Cascade := true |}.
Definition all_objects : SchemaObjectSelector := {| sel_All := true; sel_Names := []; sel_OIDs := []; sel_Limit := 0 |}.

(** The errors of one call per element, in order. *)
Fixpoint each {W A} (f : A → M W error) (l : list A) : M W (list error) :=
  match l with
  | [] => mret []
  | x :: xs => e ← f x; es ← each f xs; mret (e :: es)
  end.

Definition revokeRecorded {W} (privileges grantOptions : list string) (revoke : list string → RevokeMode → M W error) : M W error :=
  e1 ← (if decide (privileges = []) then mret None else revoke privileges cascade_mode);
  let only := subtract grantOptions privileges in
  e2 ← (if decide (only = []) then mret None else revoke only option_mode);
  mret (errors_Join [e1; e2]).

Section revoke.
Context {W : Type} (pg : objectAccessRevoker W) (role : string).

Definition revokeObjectGrant (g : ManagedObjectGrant) : M W error :=
  match objectKindOf (mog_Kind g) with
  | None => mret None
  | Some ki => revokeRecorded (mog_Privileges g) (mog_GrantOptions g)
                 (rv_RevokeOnSchemaObject pg (ki_pg ki) (mog_Schema g) (mog_Object g) (mog_OID g) (mog_Role g))
  end.

Definition revokeDefaultGrant (d : ManagedDefaultPrivilege) : M W error :=
  match defaultKindOf (mdp_Kind d) with
  | None => mret None
  | Some ki => revokeRecorded (mdp_Privileges d) (mdp_GrantOptions d)
                 (rv_RevokeDefaultPrivileges pg {| dt_ForRole := mdp_ForRole d; dt_Schema := mdp_Schema d; dt_Kind := dki_pg ki |}
                    (mdp_Role d))
  end.

(** One object of the created ones. *)
Definition revokeCreated (c : createdObjectsGrant) (kind : string) (grantee owner : Z) (o : SchemaObject) : M W error :=
  if decide (so_OwnerOID o ≠ owner ∨ so_Extension o ≠ "") then mret None
  else
    let revoke := intersect (cg_privileges c) (SchemaObject_Held (so_OwnerOID o) (so_ACL o) grantee).1 in
    if decide (revoke = []) then mret None
    else rv_RevokeOnSchemaObject pg kind (cg_schema c) (so_Identity o) (so_OID o) role revoke cascade_mode.

Definition createdKinds (c : createdObjectsGrant) : list string :=
  dki_object (cg_kind c) :: if decide (dki_object (cg_kind c) = SchemaFunction) then [SchemaProcedure] else [].

Definition revokeCreatedKind (c : createdObjectsGrant) (grantee owner : Z) (kind : string) : M W error :=
  l ← rv_ListSchemaObjects pg (cg_schema c) kind all_objects;
  match l with
  | inr e => mret (Some e)
  | inl objects => es ← each (revokeCreated c kind grantee owner) objects; mret (errors_Join es)
  end.

Definition revokeFromCreatedObjects (c : createdObjectsGrant) : M W error :=
  r ← rv_RoleOIDs pg [role; cg_forRole c];
  match r with
  | inr e => mret (Some e)
  | inl oids =>
      match oids !! role, oids !! cg_forRole c with
      | Some grantee, Some owner => es ← each (revokeCreatedKind c grantee owner) (createdKinds c); mret (errors_Join es)
      | _, _ => mret None
      end
  end.

Definition revokeRecordedObjectAccess (rec : recordedObjectAccess) : M W error :=
  e1 ← each revokeObjectGrant (ra_objects rec);
  e2 ← each revokeDefaultGrant (ra_defaults rec);
  e3 ← each revokeFromCreatedObjects (ra_created rec);
  mret (errors_Join (e1 ++ e2 ++ e3)).
End revoke.

(** ** Over the databases of the Cluster *)

(** The outcome of DROP ROLE: done, blocked by dependents, or failed. *)
Inductive drop_outcome := Dropped | DropBlocked (e : gerr) | DropFailed (e : gerr).

(** [exec] answers the error of a statement with PostgreSQL's detail. *)
Definition DropRole `{UnicodePrint} {W} (exec : string → M W (option (gerr * string))) (name : string) : M W drop_outcome :=
  r ← exec (DropRole_query name);
  mret (match r with
        | None => Dropped
        | Some (err, detail) => match dependentObjectsError name detail err with
                                | Some e => DropBlocked e
                                | None => DropFailed (Wrapf "failed to drop role: %w" [] err)
                                end
        end).

Record pgClient (W : Type) := {
  pc_RoleComment : string → M W (result (option string));
  pc_CreateRole : string → RoleOptions → M W error;
  pc_DropRole : string → M W drop_outcome;
  pc_RevokeAllDatabasePrivileges : string → M W error;
  pc_DatabasesWithObjectPrivileges : string → M W (result (list DatabaseRef));
  pc_RevokeAllSchemaPrivileges : string → M W error;
  pc_RevokeAllExtensionMemberPrivileges : string → M W error;
  pc_RoleReassignTarget : string → string → M W (result ReassignTargetInfo);
  pc_DatabasesOwnedBy : string → M W (result (list string));
  pc_DatabasesWithOwnedObjects : string → M W (result (list DatabaseRef));
  pc_ReassignOwned : string → string → M W error;
  pc_revoker : objectAccessRevoker W;
  pc_memberships : membershipClient W;
  pc_parameters : parameterGrantClient W;
  pc_settings : roleSettingsClient W }.
Arguments pc_RoleComment {W}. Arguments pc_CreateRole {W}. Arguments pc_DropRole {W}.
Arguments pc_RevokeAllDatabasePrivileges {W}. Arguments pc_DatabasesWithObjectPrivileges {W}.
Arguments pc_RevokeAllSchemaPrivileges {W}. Arguments pc_RevokeAllExtensionMemberPrivileges {W}.
Arguments pc_RoleReassignTarget {W}. Arguments pc_DatabasesOwnedBy {W}. Arguments pc_DatabasesWithOwnedObjects {W}.
Arguments pc_ReassignOwned {W}. Arguments pc_revoker {W}. Arguments pc_memberships {W}. Arguments pc_parameters {W}.
Arguments pc_settings {W}.

Section databases.
Context `{UnicodePrint} `{ErrorText} {W : Type} (connect : string → M W (result (pgClient W))).

(** Runs [f] on a connection to [db]. *)
Definition in_database (db : string) (f : pgClient W → M W error) : M W error :=
  c ← connect db;
  match c with
  | inr e => mret (Some e)
  | inl pg => f pg
  end.

Definition skipped_entry (db : string) (e : error) : list string :=
  match e with Some err => [db +:+ " (" +:+ error_text err +:+ ")"] | None => [] end.

(** The databases of [dbs] where [f] failed or that accept no connections. *)
Fixpoint for_databases (f : pgClient W → M W error) (dbs : list DatabaseRef) : M W (list string) :=
  match dbs with
  | [] => mret []
  | db :: rest =>
      if negb (dbr_AllowConns db) then
        s ← for_databases f rest; mret ((dbr_Name db +:+ " (does not allow connections)") :: s)
      else
        e ← in_database (dbr_Name db) f;
        s ← for_databases f rest;
        mret (skipped_entry (dbr_Name db) e ++ s)
  end.

Definition revokeSchemaPrivileges (role : string) (pg : pgClient W) : M W error :=
  e ← pc_RevokeAllSchemaPrivileges pg role;
  match e with
  | Some err => mret (Some err)
  | None => pc_RevokeAllExtensionMemberPrivileges pg role
  end.

(** The databases in any order: [recorded] is a list of the map's entries. *)
Fixpoint revokeRecordedObjectAccessFor (role : string) (recorded : list (string * recordedObjectAccess)) : M W (list string) :=
  match recorded with
  | [] => mret []
  | (db, rec) :: rest =>
      e ← in_database db (λ pg, revokeRecordedObjectAccess (pc_revoker pg) role rec);
      s ← revokeRecordedObjectAccessFor role rest;
      mret (skipped_entry db e ++ s)
  end.

(** The skipped databases, or why nothing is reassigned ([Some] in the second). *)
Definition reassignOwnedObjects (pg : pgClient W) (old target : string) : M W (result (list string * error)) :=
  i ← pc_RoleReassignTarget pg old target;
  match i with
  | inr e => mret (inr e)
  | inl info =>
  match checkReassignTarget old target info with
  | Some refusal => mret (inl ([], Some refusal))
  | None =>
  o ← pc_DatabasesOwnedBy pg old;
  match o with
  | inr e => mret (inr e)
  | inl (_ :: _ as owned) => mret (inl ([], Some (Errorf
      "the role owns the database(s) %s, which REASSIGN OWNED would hand to %q; change the spec.owner of the Database first"
      [Join owned ", "; target])))
  | inl [] =>
  d ← pc_DatabasesWithOwnedObjects pg old;
  match d with
  | inr e => mret (inr e)
  | inl dbs => s ← for_databases (λ c, pc_ReassignOwned c old target) dbs; mret (inl (s, None))
  end end end end.
End databases.
