(* ===== verification/RoleReconcile.v ===== *)
(** * The Role reconciler (src/internal/controller/role_controller.go)

    [RoleReconcile] is the whole pass: names, the Cluster, ownership, the password,
    CREATE or ALTER ROLE, the credentials Secret, memberships, parameter grants,
    settings, the status, and the drop of a deleted Role. Times are nanoseconds.
    The object in memory keeps what was last sent: the resource versions that the
    API server answers with are left to [roleOps]. *)

From S2P Require Import Prelude GoStrings GoStrconv Privileges Parameters RoleSql ApiTypes RolePolicy Objects.
From S2P Require Import Settings Memberships GrantEngine GranteePolicy Grants Password Connection RoleCleanup.

Definition roleFinalizer : string := "pgop.ruck.io/role-finalizer".
Definition ConditionTypeAvailable : string := "Available".
Definition ReasonRoleDropBlocked : string := "RoleDropBlocked".
Definition ReasonRoleNotManaged : string := "RoleNotManaged".
Definition ReasonDuplicateRoleName : string := "DuplicateRoleName".
Definition ReasonPasswordRotated : string := "PasswordRotated".
Definition AppNamePostgresqlRole : string := "postgresql-role".
Definition LabelCluster : string := "pgop.ruck.io/cluster".

(** [meta.SetStatusCondition]: the conditions with this one set. *)
Class ConditionSetter := SetStatusCondition : list Condition → Condition → list Condition.

(** ** The order of the Roles of a Cluster *)

Definition createdBefore (a b : Role) : bool :=
  if decide (role_CreationTimestamp a = role_CreationTimestamp b) then String.ltb (role_Name a) (role_Name b)
  else bool_decide (role_CreationTimestamp a < role_CreationTimestamp b)%Z.

Definition not_after (a b : Role) : Prop := createdBefore b a = false.
#[export] Instance not_after_dec a b : Decision (not_after a b).
Proof. unfold not_after. apply _. Defined.

Definition listClusterRoles (clusterName : string) (roles : list Role) : list Role :=
  merge_sort not_after (filter (λ r, rs_ClusterRef (role_Spec r) = clusterName) roles).

Definition recorded_on (uid : string) (r : Role) : bool :=
  bool_decide (rst_RoleName (role_Status r) = PostgresName r) && bool_decide (rst_ClusterUID (role_Status r) = uid).

Definition managed_step `{Digests} (cluster : PgCluster) (signer : markerSigner) (out : managedRoles) (other : Role) : managedRoles :=
  if recorded_on (k_UID cluster) other then
    match out !! PostgresName other with
    | Some _ => out
    | None => <[PostgresName other := marker signer markerKindRole (role_Name other)]> out
    end
  else out.

Definition managedRolesOf `{Digests} (roles : list Role) (cluster : PgCluster) (signer : markerSigner) : managedRoles :=
  foldl (managed_step cluster signer) ∅ roles.

(** An older Role of the same name. *)
Definition duplicateOf (role : Role) (pgName : string) (roles : list Role) : option Role :=
  head (filter (λ o, role_UID o ≠ role_UID role ∧ PostgresName o = pgName ∧ createdBefore o role = true) roles).

Definition notManagedMessage (kind name : string) (recorded : bool) : string :=
  let '(field, statusField) := if decide (kind = "database") then ("adoptableDatabases", "status.databaseName")
                               else ("adoptableRoles", "status.roleName") in
  if recorded then
    "the PostgreSQL " +:+ kind +:+ " " +:+ name +:+ " carries a comment that is not this resource's ownership marker; pgop "
      +:+ "leaves it alone. To let this resource manage it again, a Cluster editor adds " +:+ name +:+ " to the Cluster's "
      +:+ "spec.rolePolicy." +:+ field
  else
    "the PostgreSQL " +:+ kind +:+ " " +:+ name +:+ " already exists and this resource did not create it (" +:+ statusField
      +:+ " does not record it); pgop does not take it over, since that would reset its owner, settings or password and could "
      +:+ "drop it. To let this resource take it over (also after re-creating the resource without its status), a Cluster "
      +:+ "editor adds " +:+ name +:+ " to the Cluster's spec.rolePolicy." +:+ field.

(** ** Retries of pending settings *)

Definition pendingSettingsMinRequeue : Z := 30 * second.
Definition pendingSettingsMaxRequeue : Z := 300 * second.

(** [jitter d] is the truncated [jitter*0.2*float64(d)]. *)
Definition backoffDelay (attempt : Z) (jitter : Z → Z) : Z :=
  let d := if bool_decide (attempt < 16)%Z
           then (Z.shiftl pendingSettingsMinRequeue attempt) `min` pendingSettingsMaxRequeue
           else pendingSettingsMaxRequeue in
  (d + jitter d)%Z.

(** [requeueBackoff]: the attempts per UID. *)
Abbreviation requeueBackoff := (gmap string Z).

Definition backoff_next (b : requeueBackoff) (uid : string) (jitter : Z → Z) : Z * requeueBackoff :=
  let n := default 0%Z (b !! uid) in (backoffDelay n jitter, <[uid := (n + 1)%Z]> b).

Definition backoff_reset (b : requeueBackoff) (uid : string) : requeueBackoff := delete uid b.

(** ** The credentials Secret *)

Definition credentialsSecretName (role : Role) (cluster : PgCluster) : string :=
  k_Name cluster +:+ "-" +:+ role_Name role +:+ "-credentials".

Definition roleSecretLabels (role : Role) : gmap string string :=
  <[LabelAppName := AppNamePostgresqlRole]> (<[LabelAppInstance := role_Name role]>
    (<[LabelAppManagedBy := LabelValuePgop]> (<[LabelCluster := rs_ClusterRef (role_Spec role)]> ∅))).

Definition set_data (s : Secret) (labels annotations data : gmap string string) : Secret :=
  {| sec_Name := sec_Name s; sec_Namespace := sec_Namespace s; sec_ResourceVersion := sec_ResourceVersion s;
     sec_Labels := labels; sec_Annotations := annotations; sec_OwnerReferences := sec_OwnerReferences s;
     sec_ControllerUID := sec_ControllerUID s; sec_Data := data |}.

(** A key of a map set when it reads differently. *)
Definition set_value (k v : string) (st : gmap string string * bool) : gmap string string * bool :=
  if decide (default "" (st.1 !! k) = v) then st else (<[k := v]> st.1, true).

Definition convergeRoleSecret `{PasswordDigest} (s : Secret) (role : Role) (password host : string) (port : Z) (t : clientTLS)
    : Secret * bool :=
  let '(data, c1) := set_value SecretKeyPassword password (sec_Data s, false) in
  let '(annotations, c2) := set_value AnnotationPasswordFingerprint (passwordFingerprint role password) (sec_Annotations s, c1) in
  let '(labels, c3) := map_fold set_value (sec_Labels s, c2) (roleSecretLabels role) in
  let '(data, conn) := applyConnectionInfo data host port defaultDatabaseName t in
  (set_data s labels annotations data, c3 || conn).

(** The Secret of a Role that has none; the Role controls it. *)
Definition newRoleSecret `{PasswordDigest} (role : Role) (cluster : PgCluster) (password host : string) (port : Z) (t : clientTLS)
    : Secret :=
  {| sec_Name := credentialsSecretName role cluster; sec_Namespace := role_Namespace role; sec_ResourceVersion := "";
     sec_Labels := roleSecretLabels role;
     sec_Annotations := {[ AnnotationPasswordFingerprint := passwordFingerprint role password ]};
     sec_OwnerReferences := [{| or_APIVersion := GroupName +:+ "/v1alpha1"; or_Kind := "Role"; or_Name := role_Name role |}];
     sec_ControllerUID := Some (role_UID role);
     sec_Data := (applyConnectionInfo (<[SecretKeyUsername := PostgresName role]> {[ SecretKeyPassword := password ]})
                   host port defaultDatabaseName t).1 |}.

Definition errCredentialsSecretChanged : gerr :=
  Errorf "the credentials Secret's password changed concurrently; retrying from the current Secret" [].

(** ** The API server and PostgreSQL *)

Inductive update_outcome := Updated | Conflict (e : gerr) | UpdateFailed (e : gerr).

Record roleOps (W : Type) := {
  rro_api : roleAPI W;
  rro_GetRole : M W (result (option Role));
  rro_GetCluster : string → string → M W (result (option PgCluster));
  rro_ListRoles : string → M W (result (list Role));
  rro_ListDatabases : string → M W (result (list Database));
  rro_Patch : Role → Role → M W (result Role);
  rro_SaveStatus : Role → M W error;
  rro_CreateSecret : Secret → M W error;
  rro_UpdateSecret : Secret → M W update_outcome;
  rro_Open : ConnectionConfig → M W (result (pgClient W));
  rro_Now : M W Z;
  rro_Jitter : M W (Z → Z);
  rro_MapOrder : gmap string recordedObjectAccess → M W (list (string * recordedObjectAccess));
  rro_Eventf : option (string → string → M W ()) }.
Arguments rro_api {W}. Arguments rro_GetRole {W}. Arguments rro_GetCluster {W}. Arguments rro_ListRoles {W}.
Arguments rro_ListDatabases {W}. Arguments rro_Patch {W}. Arguments rro_SaveStatus {W}. Arguments rro_CreateSecret {W}.
Arguments rro_UpdateSecret {W}. Arguments rro_Open {W}. Arguments rro_Now {W}. Arguments rro_Jitter {W}.
Arguments rro_MapOrder {W}. Arguments rro_Eventf {W}.

(** ** Setters *)

Definition with_finalizers (role : Role) (f : list string) : Role :=
  {| role_Name := role_Name role; role_Namespace := role_Namespace role; role_UID := role_UID role;
     role_ResourceVersion := role_ResourceVersion role; role_Generation := role_Generation role;
     role_Finalizers := f; role_CreationTimestamp := role_CreationTimestamp role; role_Deleting := role_Deleting role;
     role_Annotations := role_Annotations role; role_Spec := role_Spec role; role_Status := role_Status role |}.

Definition with_conditions (st : RoleStatus) (ready : bool) (secretName : string) (conditions : list Condition) : RoleStatus :=
  {| rst_Conditions := conditions; rst_Ready := ready; rst_RoleName := rst_RoleName st; rst_ClusterUID := rst_ClusterUID st;
     rst_SecretName := secretName; rst_PasswordRotatedAt := rst_PasswordRotatedAt st;
     rst_PasswordRotationRequest := rst_PasswordRotationRequest st; rst_PasswordHash := rst_PasswordHash st;
     rst_ManagedMemberships := rst_ManagedMemberships st; rst_ManagedParameterGrants := rst_ManagedParameterGrants st;
     rst_ManagedSettings := rst_ManagedSettings st; rst_ManagedDatabaseSettings := rst_ManagedDatabaseSettings st |}.

Definition with_recorded (st : RoleStatus) (name uid : string) : RoleStatus :=
  {| rst_Conditions := rst_Conditions st; rst_Ready := rst_Ready st; rst_RoleName := name; rst_ClusterUID := uid;
     rst_SecretName := rst_SecretName st; rst_PasswordRotatedAt := rst_PasswordRotatedAt st;
     rst_PasswordRotationRequest := rst_PasswordRotationRequest st; rst_PasswordHash := rst_PasswordHash st;
     rst_ManagedMemberships := rst_ManagedMemberships st; rst_ManagedParameterGrants := rst_ManagedParameterGrants st;
     rst_ManagedSettings := rst_ManagedSettings st; rst_ManagedDatabaseSettings := rst_ManagedDatabaseSettings st |}.

(** A NOLOGIN role has no password. *)
Definition without_password (st : RoleStatus) : RoleStatus :=
  set_password_status st None (rst_PasswordRotationRequest st).

Definition with_memberships (st : RoleStatus) (managed : list string) : RoleStatus :=
  {| rst_Conditions := rst_Conditions st; rst_Ready := rst_Ready st; rst_RoleName := rst_RoleName st;
     rst_ClusterUID := rst_ClusterUID st; rst_SecretName := rst_SecretName st;
     rst_PasswordRotatedAt := rst_PasswordRotatedAt st; rst_PasswordRotationRequest := rst_PasswordRotationRequest st;
     rst_PasswordHash := rst_PasswordHash st; rst_ManagedMemberships := managed;
     rst_ManagedParameterGrants := rst_ManagedParameterGrants st; rst_ManagedSettings := rst_ManagedSettings st;
     rst_ManagedDatabaseSettings := rst_ManagedDatabaseSettings st |}.

Definition no_password : desiredPassword :=
  {| dp_value := ""; dp_generated := false; dp_rotated := false; dp_fromRef := false; dp_force := false;
     dp_applied := false; dp_rotationRequest := "" |}.

(** The options of CREATE or ALTER ROLE. *)
Definition with_password_options (o : RoleOptions) (dp : desiredPassword) (comment : string) (createOnly : bool) : RoleOptions :=
  {| ro_Login := ro_Login o; ro_CreateDB := ro_CreateDB o; ro_CreateRole := ro_CreateRole o; ro_Inherit := ro_Inherit o;
     ro_Replication := ro_Replication o; ro_BypassRLS := ro_BypassRLS o; ro_ConnectionLimit := ro_ConnectionLimit o;
     ro_Password := dp_value dp; ro_KeepExistingPassword := dp_applied dp && negb (dp_force dp);
     ro_Comment := comment; ro_CreateOnly := createOnly |}.

(** ** The pass *)

Section pass.
Context `{UnicodePrint} `{Digests} `{PasswordDigest} `{GroupVersions} `{ErrorText} `{ConditionSetter}.
Context {W : Type} (r : roleOps W) (tries : nat).

Abbreviation GetSecret := (r_GetSecret (rro_api r)).

Definition newOperatorClient (cluster : PgCluster) (dbName : string) : M W (result (pgClient W)) :=
  c ← operatorConnectionConfig GetSecret cluster dbName;
  match c with
  | inr e => mret (inr e)
  | inl cfg => rro_Open r cfg
  end.

(** The requeue delay (0: none) and the error. *)
Definition writeStatus (role : Role) (ready : bool) (secretName : string) (err : error) (note : string) : M W (Z * error) :=
  let cond status reason message :=
    {| cond_Type := ConditionTypeAvailable; cond_Status := status; cond_ObservedGeneration := role_Generation role;
       cond_Reason := reason; cond_Message := message |} in
  let condition :=
    if ready then cond "True" "RoleReady" ("Role has been created in PostgreSQL" +:+ if decide (note = "") then "" else "; " +:+ note)
    else match err with
         | Some e => cond "False" (default ReasonReconcileError (cond_reason e)) (error_text e)
         | None => cond "False" "RoleNotReady" "Role is not ready yet"
         end in
  let st := role_Status role in
  e ← rro_SaveStatus r (set_status role (with_conditions st ready secretName (SetStatusCondition (rst_Conditions st) condition)));
  mret (match e, err with
        | Some e, _ => (0, Some e)
        | None, Some _ => (30 * second, None)
        | None, None => (0, None)
        end)%Z.

Definition updateStatus (role : Role) (secretName : string) (err : error) : M W (Z * error) :=
  writeStatus role false secretName err "".

(** *** Names and ownership *)

Definition clusterRoles (role : Role) : M W (result (list Role)) :=
  l ← rro_ListRoles r (role_Namespace role);
  mret (match l with
        | inr e => inr (Wrapf "failed to list Roles: %w" [] e)
        | inl roles => inl (listClusterRoles (rs_ClusterRef (role_Spec role)) roles)
        end).

Definition checkRoleName (role : Role) (pgName : string) : M W error :=
  match reservedRoleName pgName with
  | Some reason => mret (Some (CondErr ReasonReservedName (Errorf reason [])))
  | None =>
      l ← clusterRoles role;
      mret (match l with
            | inr e => Some e
            | inl roles =>
                match duplicateOf role pgName roles with
                | Some other => Some (CondErr ReasonDuplicateRoleName (Errorf
                    "the Role %q already manages the PostgreSQL role %s on Cluster %q; pick another roleName"
                    [role_Name other; pgName; rs_ClusterRef (role_Spec role)]))
                | None => None
                end
            end)
  end.

Definition getManagedRoles (role : Role) (cluster : PgCluster) (signer : markerSigner) : M W (result managedRoles) :=
  l ← clusterRoles role;
  mret (match l with
        | inr e => inr e
        | inl roles => inl (managedRolesOf roles cluster signer)
        end).

Definition checkRoleAdoption (pg : pgClient W) (role : Role) (cluster : PgCluster) (pgName : string) (p : policy)
    (signer : markerSigner) : M W error :=
  c ← mc_MembershipClosure (pc_memberships pg) pgName;
  match c with
  | inr e => mret (Some e)
  | inl closure =>
      m ← getManagedRoles role cluster signer;
      mret (match m with
            | inr e => Some e
            | inl managed => match adoptionProblem pgName closure p managed with
                             | Some problem => Some (CondErr ReasonRolePolicyViolation (Errorf problem []))
                             | None => None
                             end
            end)
  end.

(** The marker to store ("": it is there already) and whether to create only. *)
Definition checkRoleOwnership (pg : pgClient W) (role : Role) (cluster : PgCluster) (pgName : string) (p : policy)
    (signer : markerSigner) (recorded : bool) : M W (result (string * bool)) :=
  c ← pc_RoleComment pg pgName;
  match c with
  | inr e => mret (inr e)
  | inl comment =>
      let mine := marker signer markerKindRole (role_Name role) in
      match decideOwnership signer markerKindRole (role_Name role) (bool_decide (is_Some comment)) (default "" comment)
              recorded (AllowsAdoptingRole p pgName) with
      | owned => mret (inl ("", false))
      | ownedAbsent => mret (inl (mine, true))
      | ownedRemark => mret (inl (mine, false))
      | adoptable =>
          e ← checkRoleAdoption pg role cluster pgName p signer;
          mret (match e with Some e => inr e | None => inl (mine, false) end)
      | notOwned => mret (inr (CondErr ReasonRoleNotManaged (Errorf (notManagedMessage "role" pgName recorded) [])))
      end
  end.

Definition roleRecorded (role : Role) (cluster : PgCluster) (pgName : string) : M W (result bool) :=
  let st := role_Status role in
  if decide (pgName = "" ∨ rst_RoleName st ≠ pgName) then mret (inl false)
  else if decide (rst_ClusterUID st ≠ "") then mret (inl (bool_decide (rst_ClusterUID st = k_UID cluster)))
  else
    s ← GetSecret (role_Namespace role) (credentialsSecretName role cluster);
    mret (match s with
          | inr e => inr e
          | inl None => inl false
          | inl (Some secret) => inl (bool_decide (sec_ControllerUID secret = Some (role_UID role)))
          end).

Definition roleOwnership (pg : pgClient W) (cluster : PgCluster) (role : Role) (pgName : string) (p : policy)
    : M W (result (markerSigner * string * bool)) :=
  s ← loadMarkerSigner GetSecret cluster;
  match s with
  | inr e => mret (inr e)
  | inl signer =>
      rec ← roleRecorded role cluster pgName;
      match rec with
      | inr e => mret (inr e)
      | inl recorded =>
          o ← checkRoleOwnership pg role cluster pgName p signer recorded;
          mret (match o with inr e => inr e | inl (mk, createOnly) => inl (signer, mk, createOnly) end)
      end
  end.

Definition createOrAlterRole (pg : pgClient W) (pgName : string) (opts : RoleOptions) : M W error :=
  e ← pc_CreateRole pg pgName opts;
  mret (match e with
        | Some err => if errors_Is "the object already exists" err
                      then Some (CondErr ReasonRoleNotManaged (Wrapf
                        "the PostgreSQL role %s was created by someone else while pgop was creating it; pgop does not take it over: %w"
                        [pgName] err))
                      else Some err
        | None => None
        end).

(** *** The credentials Secret *)

Definition getCredentialsSecret (role : Role) (cluster : PgCluster) : M W (result (option Secret)) :=
  let name := credentialsSecretName role cluster in
  s ← GetSecret (role_Namespace role) name;
  match s, r_APIReader (rro_api r) with
  | inl None, Some ar => ar_GetSecret ar (role_Namespace role) name
  | s, _ => mret s
  end.

(** [retry.RetryOnConflict], whose backoff calls the function [tries] times at most. *)
Fixpoint convergeSecret (tries : nat) (role : Role) (base password : string) (passwordSent : bool) (host : string) (port : Z)
    (t : clientTLS) (secret : Secret) (last : error) : M W error :=
  match tries with
  | O => mret last
  | S tries =>
      if negb passwordSent && negb (bool_decide (secret_value secret SecretKeyPassword = base))
      then mret (Some errCredentialsSecretChanged)
      else
        let '(secret, changed) := convergeRoleSecret secret role password host port t in
        if negb changed then mret None
        else
          u ← rro_UpdateSecret r secret;
          match u with
          | Updated => mret None
          | UpdateFailed e => mret (Some e)
          | Conflict e =>
              let get := match r_APIReader (rro_api r) with Some ar => ar_GetSecret ar | None => GetSecret end in
              g ← get (sec_Namespace secret) (sec_Name secret);
              match g with
              | inr err => mret (Some err)
              | inl None => mret (Some (notFound (sec_Name secret)))
              | inl (Some fresh) => convergeSecret tries role base password passwordSent host port t fresh (Some e)
              end
          end
  end.

Definition reconcileCredentialsSecret (role : Role) (cluster : PgCluster) (existing : option Secret) (password : string)
    (passwordSent : bool) : M W (result string) :=
  let secretName := credentialsSecretName role cluster in
  tls ← clusterClientTLS GetSecret cluster;
  match tls with
  | inr e => mret (inr e)
  | inl t =>
      let '(host, port) := (clusterHost cluster, clusterPort cluster) in
      e ← (match existing with
           | None => rro_CreateSecret r (newRoleSecret role cluster password host port t)
           | Some secret => convergeSecret tries role (secret_value secret SecretKeyPassword) password passwordSent host port t
                              secret None
           end);
      mret (match e with Some e => inr e | None => inl secretName end)
  end.

(** *** Grants and settings *)

Definition reconcileRoleGrants (pg : pgClient W) (role : Role) (cluster : PgCluster) (pgName : string) (p : policy)
    (signer : markerSigner) : M W (error * Role) :=
  m ← getManagedRoles role cluster signer;
  match m with
  | inr e => mret (Some e, role)
  | inl managed =>
      '(e1, mems) ← reconcileMemberships (pc_memberships pg) p managed (role_Spec role)
                      (rst_ManagedMemberships (role_Status role)) pgName;
      let role := set_status role (with_memberships (role_Status role) mems) in
      '(e2, st) ← reconcileParameterGrants (pc_parameters pg) (role_Spec role) pgName
                    (Some (λ st, rro_SaveStatus r (set_status role st))) (role_Status role);
      mret (errors_Join [e1; e2], set_status role st)
  end.

Definition reconcileGrantsAndSettings (pg : pgClient W) (role : Role) (cluster : PgCluster) (pgName : string) (p : policy)
    (signer : markerSigner) (policyErr : error) : M W (list string * error * Role) :=
  '(pending, settingsErr, st) ← (match policyErr with
     | None => reconcileRoleSettings (pc_settings pg) p (role_Spec role) (role_Status role) pgName
     | Some _ => mret ([], None, role_Status role)
     end);
  '(grantsErr, role) ← reconcileRoleGrants pg (set_status role st) cluster pgName p signer;
  mret (pending, errors_Join [policyErr; grantsErr; settingsErr], role).

Definition readyResult (role : Role) (secretName : string) (pending : list string) (b : requeueBackoff)
    : M W (Z * error * requeueBackoff) :=
  let note := match pending with
              | [] => ""
              | _ => "databaseSettings are pending until these databases exist: " +:+ Join pending ", "
              end in
  '(after, err) ← writeStatus role true secretName None note;
  match err with
  | Some e => mret (after, Some e, b)
  | None =>
      now ← rro_Now r;
      let next := nextRotationIn role now in
      let after := if decide (0 < next)%Z then next else after in
      match pending with
      | [] => mret (after, None, backoff_reset b (role_UID role))
      | _ =>
          j ← rro_Jitter r;
          let '(wait, b) := backoff_next b (role_UID role) j in
          mret (if decide (after = 0 ∨ wait < after)%Z then wait else after, None, b)
      end
  end.

(** *** Deletion *)

Definition dropBlocked (role : Role) (message : string) : M W (result Z) :=
  let st := role_Status role in
  let c := {| cond_Type := ConditionTypeAvailable; cond_Status := "False"; cond_ObservedGeneration := role_Generation role;
              cond_Reason := ReasonRoleDropBlocked; cond_Message := message |} in
  e ← rro_SaveStatus r (set_status role
        (with_conditions st (rst_Ready st) (rst_SecretName st) (SetStatusCondition (rst_Conditions st) c)));
  mret (match e with Some e => inr e | None => inl (30 * second)%Z end).

(** What DROP ROLE reported; the result is the requeue delay, 0 when the role is gone. *)
Definition dropOutcome (role : Role) (skipped : list string) (d : drop_outcome) : M W (result Z) :=
  match d with
  | Dropped => mret (inl 0%Z)
  | DropFailed e => mret (inr e)
  | DropBlocked e =>
      dropBlocked role (error_text e +:+ match skipped with
        | [] => ""
        | _ => "; schema, extension object or object privileges could not be revoked, or owned objects reassigned, in: "
                 +:+ Join skipped ", "
        end)
  end.

Definition recordedObjectAccessOf (cluster : PgCluster) (role : string) : M W (result (gmap string recordedObjectAccess)) :=
  l ← rro_ListDatabases r (k_Namespace cluster);
  mret (match l with
        | inr e => inr (Wrapf "failed to list Databases: %w" [] e)
        | inl databases => inl (recordedObjectAccessFrom databases (k_Name cluster) (k_UID cluster) role)
        end).

(** The reassignment, when it is asked for, then DROP ROLE. *)
Definition reassignAndDrop (pg : pgClient W) (cluster : PgCluster) (role : Role) (pgName : string) (skipped : list string)
    : M W (result Z) :=
  let drop skipped := d ← pc_DropRole pg pgName; dropOutcome role skipped d in
  match rs_ReassignOwnedTo (role_Spec role) with
  | None | Some "" => drop skipped
  | Some target =>
      a ← reassignOwnedObjects (newOperatorClient cluster) pg pgName target;
      match a with
      | inr e => mret (inr e)
      | inl (_, Some blocked) => dropBlocked role (error_text blocked)
      | inl (s, None) => drop (skipped ++ s)
      end
  end.

(** The revokes that DROP ROLE needs, then the drop. *)
Definition revokeAndDrop (pg : pgClient W) (cluster : PgCluster) (role : Role) (pgName : string) : M W (result Z * Role) :=
  '(e, st) ← revokeManagedParameterGrants (pc_parameters pg) pgName (role_Status role);
  let role := set_status role st in
  match e with
  | Some e => mret (inr e, role)
  | None =>
  e ← pc_RevokeAllDatabasePrivileges pg pgName;
  match e with
  | Some e => mret (inr e, role)
  | None =>
  d ← pc_DatabasesWithObjectPrivileges pg pgName;
  match d with
  | inr e => mret (inr e, role)
  | inl dbs =>
  skipped ← for_databases (newOperatorClient cluster) (revokeSchemaPrivileges pgName) dbs;
  a ← recordedObjectAccessOf cluster pgName;
  match a with
  | inr e => mret (inr e, role)
  | inl recorded =>
  entries ← rro_MapOrder r recorded;
  objectSkipped ← revokeRecordedObjectAccessFor (newOperatorClient cluster) pgName entries;
  res ← reassignAndDrop pg cluster role pgName (skipped ++ objectSkipped);
  mret (res, role)
  end end end end.

(** The requeue delay (0: nothing left to drop), and the Role. *)
Definition dropPostgresRole (cluster : PgCluster) (role : Role) : M W (result Z * Role) :=
  c ← newOperatorClient cluster defaultDatabaseName;
  match c with
  | inr e => mret (inr e, role)
  | inl pg =>
  let pgName := rst_RoleName (role_Status role) in
  rec ← roleRecorded role cluster pgName;
  match rec with
  | inr e => mret (inr e, role)
  | inl recorded =>
  if bool_decide (pgName = "") || negb recorded then mret (inl 0%Z, role)
  else if bool_decide (is_Some (reservedRoleName pgName)) then mret (inl 0%Z, role)
  else
    n ← checkRoleName role pgName;
    match n with
    | Some _ => mret (inl 0%Z, role)
    | None =>
    c ← pc_RoleComment pg pgName;
    match c with
    | inr e => mret (inr e, role)
    | inl None => mret (inl 0%Z, role)
    | inl (Some comment) =>
    s ← loadMarkerSigner GetSecret cluster;
    let signer := match s with inl signer => signer | inr _ => {| ms_key := ""; ms_namespace := ""; ms_cluster := "" |} end in
    match decideOwnership signer markerKindRole (role_Name role) true comment true false with
    | owned | ownedRemark => revokeAndDrop pg cluster role pgName
    | _ => mret (inl 0%Z, role)
    end end end end end.

Definition removeFinalizer (role : Role) : M W error :=
  p ← rro_Patch r role (with_finalizers role (filter (.≠ roleFinalizer) (role_Finalizers role)));
  mret (match p with inr e => Some e | inl _ => None end).

(** The branch of a Role that is being deleted. *)
Definition reconcileDeletion (role : Role) : M W (Z * error) :=
  if negb (bool_decide (roleFinalizer ∈ role_Finalizers role)) then mret (0%Z, None)
  else
    c ← rro_GetCluster r (role_Namespace role) (rs_ClusterRef (role_Spec role));
    match c with
    | inr e => mret (0%Z, Some (Wrapf "failed to get cluster: %w" [] e))
    | inl None => e ← removeFinalizer role; mret (0%Z, e)
    | inl (Some cluster) =>
        '(d, role) ← dropPostgresRole cluster role;
        match d with
        | inr e => mret (0%Z, Some e)
        | inl after =>
            if decide (after ≠ 0%Z) then mret (after, None)
            else e ← removeFinalizer role; mret (0%Z, e)
        end
    end.

(** *** A Role that is not being deleted *)

(** The credentials Secret and the record of the password. *)
Definition reconcileLogin (role : Role) (cluster : PgCluster) (pgName : string) (existing : option Secret) (dp : desiredPassword)
    (opts : RoleOptions) (now : Z) : M W (result (string * Role)) :=
  if negb (IsLogin (role_Spec role)) then mret (inl ("", set_status role (without_password (role_Status role))))
  else
    s ← reconcileCredentialsSecret role cluster existing (dp_value dp) (negb (ro_KeepExistingPassword opts));
    match s with
    | inr e => mret (inr e)
    | inl secretName =>
        let role := recordPassword role dp now in
        (match rro_Eventf r with
         | Some eventf => if dp_rotated dp then eventf ReasonPasswordRotated pgName else mret ()
         | None => mret ()
         end);;
        mret (inl (secretName, role))
    end.

(** From CREATE or ALTER ROLE on. *)
Definition applyRole (pg : pgClient W) (cluster : PgCluster) (role : Role) (pgName : string) (signer : markerSigner)
    (mk : string) (createOnly : bool) (dp : desiredPassword) (existing : option Secret) (now : Z) (b : requeueBackoff)
    : M W (Z * error * requeueBackoff) :=
  let p := k_RolePolicy cluster in
  let '(opts, policyErr) := desiredRoleOptions (role_Spec role) p in
  let opts := with_password_options opts dp mk createOnly in
  e ← createOrAlterRole pg pgName opts;
  match e with
  | Some e => '(a, e) ← updateStatus role (rst_SecretName (role_Status role)) (Some e); mret (a, e, b)
  | None =>
  let role := set_status role (with_recorded (clearStaleRoleSettings (role_Status role) pgName (k_UID cluster)) pgName (k_UID cluster)) in
  l ← reconcileLogin role cluster pgName existing dp opts now;
  match l with
  | inr e => '(a, e) ← updateStatus role (rst_SecretName (role_Status role)) (Some e); mret (a, e, b)
  | inl (secretName, role) =>
  '(pending, err, role) ← reconcileGrantsAndSettings pg role cluster pgName p signer policyErr;
  match err with
  | Some e => '(a, e) ← updateStatus role secretName (Some e); mret (a, e, b)
  | None => readyResult role secretName pending b
  end end end.

(** The password to apply and the Secret it is built on; nothing for NOLOGIN roles. *)
Definition resolveLogin (role : Role) (cluster : PgCluster) (now : Z) : M W (result (desiredPassword * option Secret) * Role) :=
  if negb (IsLogin (role_Spec role)) then mret (inl (no_password, None), role)
  else
    s ← getCredentialsSecret role cluster;
    match s with
    | inr e => mret (inr e, role)
    | inl existing =>
        '(dp, secret, role) ← resolvePassword (rro_api r) role existing now;
        mret (match dp with inr e => inr e | inl dp => inl (dp, secret) end, role)
    end.

(** The finalizer, when it is missing. *)
Definition addFinalizer (role : Role) : M W (result Role) :=
  if bool_decide (roleFinalizer ∈ role_Finalizers role) then mret (inl role)
  else rro_Patch r role (with_finalizers role (role_Finalizers role ++ [roleFinalizer])).

(** On a ready Cluster. *)
Definition reconcileOnCluster (cluster : PgCluster) (role : Role) (pgName : string) (b : requeueBackoff)
    : M W (Z * error * requeueBackoff) :=
  let fail role e := '(a, e) ← updateStatus role "" (Some e); mret (a, e, b) in
  c ← newOperatorClient cluster defaultDatabaseName;
  match c with
  | inr e => fail role e
  | inl pg =>
  f ← addFinalizer role;
  match f with
  | inr e => mret (0%Z, Some e, b)
  | inl role =>
  o ← roleOwnership pg cluster role pgName (k_RolePolicy cluster);
  match o with
  | inr e => fail role e
  | inl (signer, mk, createOnly) =>
  now ← rro_Now r;
  '(l, role) ← resolveLogin role cluster now;
  match l with
  | inr e => fail role e
  | inl (dp, existing) => applyRole pg cluster role pgName signer mk createOnly dp existing now b
  end end end end.

Definition RoleReconcile (b : requeueBackoff) : M W (Z * error * requeueBackoff) :=
  g ← rro_GetRole r;
  match g with
  | inr e => mret (0%Z, Some e, b)
  | inl None => mret (0%Z, None, b)
  | inl (Some role) =>
  if role_Deleting role then '(a, e) ← reconcileDeletion role; mret (a, e, b)
  else
    let fail e := '(a, e) ← updateStatus role "" (Some e); mret (a, e, b) in
    let pgName := PostgresName role in
    n ← checkRoleName role pgName;
    match n with
    | Some e => fail e
    | None =>
    c ← rro_GetCluster r (role_Namespace role) (rs_ClusterRef (role_Spec role));
    match c with
    | inr e => fail (Wrapf "failed to get cluster: %w" [] e)
    | inl None => fail (Wrapf "failed to get cluster: %w" [] (Errorf "clusters %q not found" [rs_ClusterRef (role_Spec role)]))
    | inl (Some cluster) =>
        if negb (k_Ready cluster) then mret (10 * second, None, b)%Z
        else reconcileOnCluster cluster role pgName b
    end end
  end.
End pass.

(** ** Which Roles an event wakes *)

Definition rolesForCluster (cluster : PgCluster) (roles : list Role) : list string :=
  role_Name <$> filter (λ o, rs_ClusterRef (role_Spec o) = k_Name cluster) roles.

Definition databaseAppeared (oldDB newDB : Database) : bool :=
  negb (bool_decide (dst_Ready (db_Status oldDB) = dst_Ready (db_Status newDB)))
    || negb (bool_decide (dst_DatabaseName (db_Status oldDB) = dst_DatabaseName (db_Status newDB))).

(** The Roles whose databaseSettings name the database, and the backoff without them. *)
Definition rolesForDatabase (db : Database) (roles : list Role) (b : requeueBackoff) : list string * requeueBackoff :=
  let woken := filter (λ o, rs_ClusterRef (role_Spec o) = ds_ClusterRef (db_Spec db) ∧
                            Database_PostgresName db ∈ (rds_Database <$> rs_DatabaseSettings (role_Spec o))) roles in
  (role_Name <$> woken, foldl (λ b o, backoff_reset b (role_UID o)) b woken).
