(* ===== verification/RoleTrace.v ===== *)
(** * The calls of the Role reconciler

    The events of a pass, the logging of its operations, and what the components a
    pass calls (memberships, parameter grants, settings, passwords) add to a trace:
    only calls that the theorems about the pass leave to those components. *)

From S2P Require Import Prelude GoStrings GoStrconv Privileges Parameters RoleSql ApiTypes RolePolicy Objects.
From S2P Require Import Settings Memberships GrantEngine GranteePolicy Grants Password Connection Trace ComponentCalls RoleCleanup RoleReconcile.

(** ** Events *)

(** What a REVOKE ALL before DROP ROLE is about. *)
Inductive revoke_scope := OnDatabases | OnSchemas | OnExtensionMembers.

Inductive role_event :=
  | EvGetRole (r : result (option Role))
  | EvGetCluster (namespace name : string) (r : result (option PgCluster))
  | EvListRoles (namespace : string) (r : result (list Role))
  | EvListDatabases (namespace : string) (r : result (list Database))
  | EvGetSecret (namespace name : string) (r : result (option Secret))
  | EvPatch (base new : Role) (r : result Role)
  | EvSaveStatus (role : Role) (e : error)
  | EvCreateSecret (s : Secret) (e : error)
  | EvUpdateSecret (s : Secret) (u : update_outcome)
  | EvRoleComment (db name : string) (r : result (option string))
  | EvClosure (db name : string) (r : result (list ReachableRole))
  | EvCreateRole (db name : string) (opts : RoleOptions) (e : error)
  | EvDropRole (db name : string) (d : drop_outcome)
  | EvRevokeAll (scope : revoke_scope) (db name : string) (e : error)
  | EvReassignTarget (db old target : string) (r : result ReassignTargetInfo)
  | EvOwnedDatabases (db old : string) (r : result (list string))
  | EvReassign (db old target : string) (e : error)
  | EvRoleOIDs (db : string) (names : list string) (r : result (gmap string Z))
  | EvListObjects (db schema kind : string) (sel : SchemaObjectSelector) (r : result (list SchemaObject))
  | EvRevokeObject (db kind schema identity : string) (oid : Z) (grantee : string) (ps : list string) (mode : RevokeMode) (e : error)
  | EvRevokeDefault (db : string) (t : DefaultPrivilegesTarget) (grantee : string) (ps : list string) (mode : RevokeMode) (e : error)
  | EvMapOrder (m : gmap string recordedObjectAccess) (l : list (string * recordedObjectAccess))
  | EvFreshRole (namespace name : string) (r : result Role)
  | EvOpen (db : string) (e : error)
  | EvObjectDatabases (name : string) (r : result (list DatabaseRef))
  | EvRevokeParameter (o : PrivilegeObject) (grantee : string) (ps : list string) (mode : RevokeMode) (e : error)
  | EvComponent.

(** A call of another component, or one that changes nothing. *)
Definition is_component (ev : role_event) : Prop :=
  match ev with EvComponent | EvGetSecret _ _ _ | EvClosure _ _ _ | EvFreshRole _ _ _ => True | _ => False end.

Section logged.
Context {W : Type}.

Abbreviation other := (logged (λ _, EvComponent)).

Definition logged_executor (x : privilegeExecutor W) : privilegeExecutor (W * list role_event) :=
  {| HeldPrivileges := λ o g, other (HeldPrivileges W x o g);
     GrantPrivileges := λ o g ps wgo, other (GrantPrivileges W x o g ps wgo);
     RevokePrivileges := λ o g ps m, logged (EvRevokeParameter o g ps m) (RevokePrivileges W x o g ps m) |}.

Definition logged_parameters (c : parameterGrantClient W) : parameterGrantClient (W * list role_event) :=
  {| pgc_ServerVersionNum := other (pgc_ServerVersionNum c); pgc_executor := logged_executor (pgc_executor c);
     pgc_RoleExists := λ n, other (pgc_RoleExists c n); pgc_ParameterContext := λ n, other (pgc_ParameterContext c n) |}.

Definition logged_settings (c : roleSettingsClient W) : roleSettingsClient (W * list role_event) :=
  {| rsc_ParameterContext := λ n, other (rsc_ParameterContext c n); rsc_DatabaseExists := λ n, other (rsc_DatabaseExists c n);
     rsc_SetRoleParameter := λ a b d e, other (rsc_SetRoleParameter c a b d e);
     rsc_ResetRoleParameter := λ a b d, other (rsc_ResetRoleParameter c a b d) |}.

Definition logged_memberships (db : string) (c : membershipClient W) : membershipClient (W * list role_event) :=
  {| mc_ServerVersionNum := other (mc_ServerVersionNum c);
     mc_ListMemberships := λ n v, other (mc_ListMemberships c n v);
     mc_GrantRole := λ a b o, other (mc_GrantRole c a b o);
     mc_RevokeAdminOption := λ a b, other (mc_RevokeAdminOption c a b);
     mc_RevokeRole := λ a b, other (mc_RevokeRole c a b);
     mc_MembershipClosure := λ n, logged (EvClosure db n) (mc_MembershipClosure c n) |}.

Definition logged_revoker (db : string) (c : objectAccessRevoker W) : objectAccessRevoker (W * list role_event) :=
  {| rv_RevokeOnSchemaObject := λ k s i o g ps m, logged (EvRevokeObject db k s i o g ps m) (rv_RevokeOnSchemaObject c k s i o g ps m);
     rv_RevokeDefaultPrivileges := λ t g ps m, logged (EvRevokeDefault db t g ps m) (rv_RevokeDefaultPrivileges c t g ps m);
     rv_RoleOIDs := λ ns, logged (EvRoleOIDs db ns) (rv_RoleOIDs c ns);
     rv_ListSchemaObjects := λ s k sel, logged (EvListObjects db s k sel) (rv_ListSchemaObjects c s k sel) |}.

Definition logged_client (db : string) (c : pgClient W) : pgClient (W * list role_event) :=
  {| pc_RoleComment := λ n, logged (EvRoleComment db n) (pc_RoleComment c n);
     pc_CreateRole := λ n o, logged (EvCreateRole db n o) (pc_CreateRole c n o);
     pc_DropRole := λ n, logged (EvDropRole db n) (pc_DropRole c n);
     pc_RevokeAllDatabasePrivileges := λ n, logged (EvRevokeAll OnDatabases db n) (pc_RevokeAllDatabasePrivileges c n);
     pc_DatabasesWithObjectPrivileges := λ n, logged (EvObjectDatabases n) (pc_DatabasesWithObjectPrivileges c n);
     pc_RevokeAllSchemaPrivileges := λ n, logged (EvRevokeAll OnSchemas db n) (pc_RevokeAllSchemaPrivileges c n);
     pc_RevokeAllExtensionMemberPrivileges := λ n, logged (EvRevokeAll OnExtensionMembers db n) (pc_RevokeAllExtensionMemberPrivileges c n);
     pc_RoleReassignTarget := λ o t, logged (EvReassignTarget db o t) (pc_RoleReassignTarget c o t);
     pc_DatabasesOwnedBy := λ o, logged (EvOwnedDatabases db o) (pc_DatabasesOwnedBy c o);
     pc_DatabasesWithOwnedObjects := λ o, other (pc_DatabasesWithOwnedObjects c o);
     pc_ReassignOwned := λ o t, logged (EvReassign db o t) (pc_ReassignOwned c o t);
     pc_revoker := logged_revoker db (pc_revoker c);
     pc_memberships := logged_memberships db (pc_memberships c);
     pc_parameters := logged_parameters (pc_parameters c);
     pc_settings := logged_settings (pc_settings c) |}.

Definition logged_reader (a : apiReader W) : apiReader (W * list role_event) :=
  {| ar_GetSecret := λ ns n, logged (EvGetSecret ns n) (ar_GetSecret a ns n); ar_GetRole := λ ns n, logged (EvFreshRole ns n) (ar_GetRole a ns n) |}.

Definition logged_api (a : roleAPI W) : roleAPI (W * list role_event) :=
  {| r_GetSecret := λ ns n, logged (EvGetSecret ns n) (r_GetSecret a ns n);
     r_ListTLSSecrets := λ ns, other (r_ListTLSSecrets a ns);
     r_APIReader := logged_reader <$> r_APIReader a;
     r_random := λ n, other (r_random a n) |}.

Definition logged_open (open : ConnectionConfig → M W (result (pgClient W))) (cfg : ConnectionConfig)
    : M (W * list role_event) (result (pgClient (W * list role_event))) :=
  c ← logged (λ c, EvOpen (cc_Database cfg) (match c with inl _ => None | inr e => Some e end)) (open cfg);
  mret (match c with inl pg => inl (logged_client (cc_Database cfg) pg) | inr e => inr e end).

Definition logged_ops (r : roleOps W) : roleOps (W * list role_event) :=
  {| rro_api := logged_api (rro_api r);
     rro_GetRole := logged EvGetRole (rro_GetRole r);
     rro_GetCluster := λ ns n, logged (EvGetCluster ns n) (rro_GetCluster r ns n);
     rro_ListRoles := λ ns, logged (EvListRoles ns) (rro_ListRoles r ns);
     rro_ListDatabases := λ ns, logged (EvListDatabases ns) (rro_ListDatabases r ns);
     rro_Patch := λ base new, logged (EvPatch base new) (rro_Patch r base new);
     rro_SaveStatus := λ role, logged (EvSaveStatus role) (rro_SaveStatus r role);
     rro_CreateSecret := λ s, logged (EvCreateSecret s) (rro_CreateSecret r s);
     rro_UpdateSecret := λ s, logged (EvUpdateSecret s) (rro_UpdateSecret r s);
     rro_Open := logged_open (rro_Open r);
     rro_Now := other (rro_Now r);
     rro_Jitter := other (rro_Jitter r);
     rro_MapOrder := λ m, logged (EvMapOrder m) (rro_MapOrder r m);
     rro_Eventf := (λ f a b, other (f a b)) <$> rro_Eventf r |}.
End logged.

(** ** The components make no other calls *)

Section components.
Context `{UnicodePrint} {W : Type} (P : role_event → Prop) (HP : ∀ ev, is_component ev → P ev).

Lemma only_component {A} (m : M W A) (ev : A → role_event) : (∀ x, is_component (ev x)) → only P (logged ev m).
Proof. intros Hev. apply only_logged. auto. Qed.

Ltac calls := walk_only; try solve [apply only_component; intros; exact I]; auto.

(** *** Memberships *)

Section memberships.
Context (mc : membershipClient W) (db : string) (p : policy) (managed : managedRoles).
Abbreviation lmc := (logged_memberships db mc).

Lemma checker_problem_only target cache : only P (checker_problem lmc p managed target cache).
Proof. unfold checker_problem. calls. Qed.

Lemma checkRequested_only l cache : only P (checkRequested lmc p managed l cache).
Proof. pose proof checker_problem_only. revert cache. induction l; simpl; calls. Qed.

Lemma checkManaged_only l cache : only P (checkManaged lmc p managed l cache).
Proof. pose proof checker_problem_only. revert cache. induction l; simpl; calls. Qed.

Lemma grantRoles_only member gs tracked : only P (grantRoles lmc member gs tracked).
Proof. revert tracked. induction gs; simpl; calls. Qed.

Lemma revokeAdmins_only member rs : only P (revokeAdmins lmc member rs).
Proof. induction rs; simpl; calls. Qed.

Lemma revokeRoles_only member rs tracked : only P (revokeRoles lmc member rs tracked).
Proof. revert tracked. induction rs; simpl; calls. Qed.

Lemma reconcileMemberships_only spec ms member : only P (reconcileMemberships lmc p managed spec ms member).
Proof.
  pose proof checkRequested_only. pose proof checkManaged_only. pose proof grantRoles_only.
  pose proof revokeAdmins_only. pose proof revokeRoles_only.
  unfold reconcileMemberships, applyMemberships, runPlan. calls.
Qed.
End memberships.

(** *** Parameter grants *)

Section parameters.
Context (c : parameterGrantClient W) (HR : ∀ o g ps m e, P (EvRevokeParameter o g ps m e)).
Abbreviation lpc := (logged_parameters c).

Lemma filterParameterContexts_only l : only P (filterParameterContexts lpc l).
Proof. induction l; simpl; calls. Qed.

Lemma executor_only desired managed limit persist :
  (∀ f l, persist = Some f → only P (f l)) →
  only P (applyPrivilegeGrants (executorOps (pgc_executor lpc) None) desired managed limit persist).
Proof. intros Hp. apply executor_engine_only; simpl; calls; try done. apply only_logged. intros. apply HR. Qed.

Lemma reconcileParameterGrants_only spec member save st :
  (∀ f st, save = Some f → only P (f st)) → only P (reconcileParameterGrants lpc spec member save st).
Proof.
  intros Hs. pose proof filterParameterContexts_only. unfold reconcileParameterGrants. calls.
  apply executor_only. unfold persist_with. intros f ledger [= <-]. calls.
Qed.

End parameters.

(** *** Settings *)

Section settings.
Context (c : roleSettingsClient W) (p : policy).
Abbreviation lsc := (logged_settings c).

Lemma role_settings_only desired managed role db :
  only P (applySettings (rsc_ParameterContext lsc) p desired managed (roleSettingOps lsc role db)).
Proof. apply applySettings_only; simpl; calls. Qed.

Lemma reconcileDatabases_only pgName desiredDB managedDB dbs :
  only P (reconcileDatabases lsc p pgName desiredDB managedDB dbs).
Proof. pose proof role_settings_only. induction dbs; simpl; unfold reconcileDatabase; calls. Qed.

Lemma reconcileRoleSettings_only spec st pgName : only P (reconcileRoleSettings lsc p spec st pgName).
Proof.
  pose proof role_settings_only. pose proof reconcileDatabases_only. unfold reconcileRoleSettings. calls.
Qed.
End settings.

(** *** Passwords *)

Section passwords.
Context `{PasswordDigest} `{GroupVersions} (a : roleAPI W).
Abbreviation la := (logged_api a).

Lemma choosePassword_only role fromRef ref current now : only P (choosePassword la role fromRef ref current now).
Proof. unfold choosePassword, generateRolePassword. calls. Qed.

Lemma readPasswordSecretRef_only ns ref : only P (readPasswordSecretRef la ns ref).
Proof. unfold readPasswordSecretRef, protectedSecretProblem. calls. Qed.

Lemma reader_GetRole_only ar ns n : r_APIReader la = Some ar → only P (ar_GetRole ar ns n).
Proof. simpl. destruct (r_APIReader a); [|done]. intros [= <-]. calls. Qed.

Lemma reader_GetSecret_only ar ns n : r_APIReader la = Some ar → only P (ar_GetSecret ar ns n).
Proof. simpl. destruct (r_APIReader a); [|done]. intros [= <-]. calls. Qed.

Lemma decidePassword_only role fromRef ref existing now : only P (decidePassword la role fromRef ref existing now).
Proof.
  pose proof choosePassword_only. pose proof reader_GetRole_only. unfold decidePassword, choosePasswordFresh. calls.
Qed.

Lemma resolvePassword_only role existing now : only P (resolvePassword la role existing now).
Proof.
  pose proof decidePassword_only. pose proof reader_GetSecret_only. pose proof readPasswordSecretRef_only.
  unfold resolvePassword, resolvePasswordFresh. calls.
Qed.
End passwords.
End components.
