(* ===== verification/RoleSafety.v ===== *)
(** * The Role reconciler: what justifies its calls *)

From S2P Require Import Prelude GoStrings GoStrconv Privileges Parameters RoleSql ApiTypes RolePolicy Objects.
From S2P Require Import Settings Memberships GrantEngine GrantTrace GrantProps GranteePolicy Grants ObjectGrants Password Connection.
From S2P Require Import Trace RoleCleanup RoleReconcile RoleTrace.

Lemma elem_of_listClusterRoles c roles o : o ∈ listClusterRoles c roles ↔ o ∈ roles ∧ rs_ClusterRef (role_Spec o) = c.
Proof.
  unfold listClusterRoles. rewrite merge_sort_Permutation, list_elem_of_filter. naive_solver.
Qed.

(** ** Facts of a trace *)

Section facts.
Context `{UnicodePrint} `{Digests} `{PasswordDigest}.
Implicit Types tr : list role_event.

(** The server listed the Roles, and none of the Cluster with this name is older. *)
Definition no_older tr (role : Role) (name : string) : Prop :=
  ∃ roles, EvListRoles (role_Namespace role) (inl roles) ∈ tr ∧
    ∀ o, o ∈ roles → rs_ClusterRef (role_Spec o) = rs_ClusterRef (role_Spec role) → role_UID o ≠ role_UID role →
      PostgresName o = name → createdBefore o role = false.

(** The status records [name] as created or adopted on this very Cluster. *)
Definition recorded_here tr (role : Role) (cluster : PgCluster) (name : string) : Prop :=
  name ≠ "" ∧ rst_RoleName (role_Status role) = name ∧
  (rst_ClusterUID (role_Status role) ≠ "" ∧ rst_ClusterUID (role_Status role) = k_UID cluster ∨
   rst_ClusterUID (role_Status role) = "" ∧
   ∃ s, EvGetSecret (role_Namespace role) (credentialsSecretName role cluster) (inl (Some s)) ∈ tr ∧
     sec_ControllerUID s = Some (role_UID role)).

Definition not_recorded tr (role : Role) (cluster : PgCluster) (name : string) : Prop :=
  name = "" ∨ rst_RoleName (role_Status role) ≠ name ∨
  rst_ClusterUID (role_Status role) ≠ "" ∧ rst_ClusterUID (role_Status role) ≠ k_UID cluster ∨
  ∃ s, EvGetSecret (role_Namespace role) (credentialsSecretName role cluster) (inl s) ∈ tr ∧
    (s ≫= sec_ControllerUID) ≠ Some (role_UID role).

(** The Cluster's signer, from its key Secret, or that the key is not available. *)
Definition signer_of tr (cluster : PgCluster) (signer : markerSigner) : Prop :=
  ∃ s, EvGetSecret (k_Namespace cluster) (markerKeySecretName cluster) (inl (Some s)) ∈ tr ∧
    (markerKeySize ≤ String.length (secret_value s secretKeyMarkerKey))%nat ∧
    signer = newMarkerSigner cluster (secret_value s secretKeyMarkerKey).

Definition no_signer : markerSigner := {| ms_key := ""; ms_namespace := ""; ms_cluster := "" |}.

(** The role's comment is the Role's signed marker, or one that a recorded role may have. *)
Definition own_comment (signer : markerSigner) (role : Role) (comment : string) : Prop :=
  verify signer comment markerKindRole (role_Name role) = true ∨
  refreshableComment signer comment markerKindRole (role_Name role) = true.

(** CREATE or ALTER ROLE is allowed: it exists no more, it is the Role's own, or the
    Cluster lets it be adopted. *)
Definition may_alter tr (role : Role) (cluster : PgCluster) (name mk : string) (createOnly : bool) : Prop :=
  ∃ signer comment, signer_of tr cluster signer ∧ EvRoleComment defaultDatabaseName name (inl comment) ∈ tr ∧
    (mk = "" ∨ mk = marker signer markerKindRole (role_Name role)) ∧
    (comment = None ∧ createOnly = true ∨
     ∃ c, comment = Some c ∧ (mk = "" → c = marker signer markerKindRole (role_Name role)) ∧
       (recorded_here tr role cluster name ∧ own_comment signer role c ∨
        AllowsAdoptingRole (k_RolePolicy cluster) name = true ∧
        ∃ closure roles, EvClosure defaultDatabaseName name (inl closure) ∈ tr ∧
          EvListRoles (role_Namespace role) (inl roles) ∈ tr ∧
          adoptionProblem name closure (k_RolePolicy cluster)
            (managedRolesOf (listClusterRoles (rs_ClusterRef (role_Spec role)) roles) cluster signer) = None)).

(** The Role as the API server answered it, to the read or to the finalizer patch. *)
Definition answered tr (role : Role) : Prop :=
  EvGetRole (inl (Some role)) ∈ tr ∨ ∃ base new, EvPatch base new (inl role) ∈ tr.

Definition attributes_within (p : policy) (opts : RoleOptions) : Prop :=
  (ro_CreateRole opts = true → AllowsAttribute p RoleAttributeCreateRole = true) ∧
  (ro_Replication opts = true → AllowsAttribute p RoleAttributeReplication = true) ∧
  (ro_BypassRLS opts = true → AllowsAttribute p RoleAttributeBypassRLS = true).

(** A role that may be created or altered as [name] with [opts]. *)
Definition may_apply tr (name : string) (opts : RoleOptions) : Prop :=
  ∃ read cluster role, EvGetRole (inl (Some read)) ∈ tr ∧ role_Deleting read = false ∧ name = PostgresName read ∧
    reservedRoleName name = None ∧ no_older tr read name ∧
    EvGetCluster (role_Namespace read) (rs_ClusterRef (role_Spec read)) (inl (Some cluster)) ∈ tr ∧ k_Ready cluster = true ∧
    answered tr role ∧ may_alter tr role cluster name (ro_Comment opts) (ro_CreateOnly opts) ∧
    attributes_within (k_RolePolicy cluster) opts.

(** The Role of this pass: as answered, or read again past the cache. *)
Definition known_role tr (role : Role) : Prop := answered tr role ∨ ∃ ns n, EvFreshRole ns n (inl role) ∈ tr.

(** The credentials Secret as this pass read it, from the cache or past it. *)
Definition read_credentials tr (s : Secret) : Prop :=
  ∃ role cluster s0, answered tr role ∧
    EvGetSecret (role_Namespace role) (credentialsSecretName role cluster) (inl (Some s0)) ∈ tr ∧
    (s = s0 ∨ EvGetSecret (sec_Namespace s0) (sec_Name s0) (inl (Some s)) ∈ tr).

(** The credentials Secret that was read says that PostgreSQL has the password. *)
Definition recorded_applied tr (password : string) : Prop :=
  ∃ role s, known_role tr role ∧ read_credentials tr s ∧ passwordApplied role (Some s) password = true.

(** PostgreSQL accepted a CREATE or ALTER ROLE with this password, which the statement
    carries unless the credentials Secret records it as applied already. *)
Definition accepted_password tr (password : string) : Prop :=
  ∃ name opts, EvCreateRole defaultDatabaseName name opts None ∈ tr ∧ ro_Password opts = password ∧
    (ro_KeepExistingPassword opts = false ∨ recorded_applied tr password).

(** The role of a Role that is being deleted may be dropped. *)
Definition may_drop tr (role : Role) (cluster : PgCluster) (name : string) : Prop :=
  EvGetRole (inl (Some role)) ∈ tr ∧ role_Deleting role = true ∧ roleFinalizer ∈ role_Finalizers role ∧
  EvGetCluster (role_Namespace role) (rs_ClusterRef (role_Spec role)) (inl (Some cluster)) ∈ tr ∧
  recorded_here tr role cluster name ∧ reservedRoleName name = None ∧ no_older tr role name ∧
  ∃ comment signer, EvRoleComment defaultDatabaseName name (inl (Some comment)) ∈ tr ∧
    (signer_of tr cluster signer ∨ signer = no_signer) ∧ own_comment signer role comment.

(** Why a pass found nothing to drop. A listing of the Roles that failed counts as a
    name that another Role manages, and a marker key that could not be read as one
    that signed no comment. *)
Definition nothing_to_drop tr (role : Role) (cluster : PgCluster) : Prop :=
  let name := rst_RoleName (role_Status role) in
  not_recorded tr role cluster name ∨ reservedRoleName name ≠ None ∨
  (∃ e, EvListRoles (role_Namespace role) (inr e) ∈ tr) ∨
  (∃ roles o, EvListRoles (role_Namespace role) (inl roles) ∈ tr ∧ o ∈ roles ∧
     rs_ClusterRef (role_Spec o) = rs_ClusterRef (role_Spec role) ∧ role_UID o ≠ role_UID role ∧
     PostgresName o = name ∧ createdBefore o role = true) ∨
  EvRoleComment defaultDatabaseName name (inl None) ∈ tr ∨
  ∃ comment signer, EvRoleComment defaultDatabaseName name (inl (Some comment)) ∈ tr ∧
    (signer_of tr cluster signer ∨
     signer = no_signer ∧ ∃ r, EvGetSecret (k_Namespace cluster) (markerKeySecretName cluster) r ∈ tr ∧
       ∀ s, r = inl (Some s) → (String.length (secret_value s secretKeyMarkerKey) < markerKeySize)%nat) ∧
    ¬ own_comment signer role comment.

(** The finalizer may go: the Cluster is gone, the role is dropped, or the pass found
    nothing to drop. *)
Definition released tr (base : Role) : Prop :=
  ∃ role, EvGetRole (inl (Some role)) ∈ tr ∧ role_Deleting role = true ∧
    base = set_status role (role_Status base) ∧
    (EvGetCluster (role_Namespace role) (rs_ClusterRef (role_Spec role)) (inl None) ∈ tr ∨
     ∃ cluster, EvGetCluster (role_Namespace role) (rs_ClusterRef (role_Spec role)) (inl (Some cluster)) ∈ tr ∧
       (EvDropRole defaultDatabaseName (rst_RoleName (role_Status role)) Dropped ∈ tr ∨ nothing_to_drop tr role cluster)).

(** What the ledgers record for [name] in the database [db]. *)
Definition recorded_access tr (cluster : PgCluster) (name db : string) (rec : recordedObjectAccess) : Prop :=
  ∃ databases l, EvListDatabases (k_Namespace cluster) (inl databases) ∈ tr ∧
    EvMapOrder (recordedObjectAccessFrom databases (k_Name cluster) (k_UID cluster) name) l ∈ tr ∧ (db, rec) ∈ l.

Definition recorded_object tr (cluster : PgCluster) (db name kind schema identity : string) (oid : Z) (grantee : string) (ps : list string)
    (mode : RevokeMode) : Prop :=
  ∃ rec g ki, recorded_access tr cluster name db rec ∧ g ∈ ra_objects rec ∧ objectKindOf (mog_Kind g) = Some ki ∧ kind = ki_pg ki ∧
    schema = mog_Schema g ∧ identity = mog_Object g ∧ oid = mog_OID g ∧ grantee = mog_Role g ∧
    ∀ p, p ∈ ps → p ∈ (if GrantOptionOnly mode then mog_GrantOptions g else mog_Privileges g).

(** An object that [c]'s forRole created, by its owner, and that no extension owns. *)
Definition created_object tr (cluster : PgCluster) (db name kind schema identity : string) (oid : Z) (grantee : string) (ps : list string) : Prop :=
  ∃ rec c o objects oids, recorded_access tr cluster name db rec ∧ c ∈ ra_created rec ∧ schema = cg_schema c ∧ kind ∈ createdKinds c ∧
    grantee = name ∧ EvRoleOIDs db [name; cg_forRole c] (inl oids) ∈ tr ∧ oids !! cg_forRole c = Some (so_OwnerOID o) ∧
    EvListObjects db schema kind all_objects (inl objects) ∈ tr ∧ o ∈ objects ∧ so_Extension o = "" ∧
    so_Identity o = identity ∧ so_OID o = oid ∧ ∀ p, p ∈ ps → p ∈ cg_privileges c.

Definition recorded_default tr (cluster : PgCluster) (db name : string) (t : DefaultPrivilegesTarget) (grantee : string)
    (ps : list string) (mode : RevokeMode) : Prop :=
  ∃ rec d ki, recorded_access tr cluster name db rec ∧ d ∈ ra_defaults rec ∧ defaultKindOf (mdp_Kind d) = Some ki ∧
    t = {| dt_ForRole := mdp_ForRole d; dt_Schema := mdp_Schema d; dt_Kind := dki_pg ki |} ∧ grantee = mdp_Role d ∧
    ∀ p, p ∈ ps → p ∈ (if GrantOptionOnly mode then mdp_GrantOptions d else mdp_Privileges d).

(** A Role that is not being deleted, after its CREATE or ALTER ROLE. *)
Definition applied tr : Prop :=
  (∃ role, EvGetRole (inl (Some role)) ∈ tr ∧ role_Deleting role = false) ∧ ∃ password, accepted_password tr password.

(** A parameter grant that the Role's own ledger records for the role [name]. *)
Definition recorded_parameter (role : Role) (name : string) (o : PrivilegeObject) (grantee : string) (ps : list string)
    (mode : RevokeMode) : Prop :=
  let ledger := parameterLedger name (rst_ManagedParameterGrants (role_Status role)) in
  ps ≠ [] ∧ ∃ t, o = grantTarget_object t ∧ grantee = gt_Grantee t ∧ (∃ m, m ∈ ledger ∧ g_Target m = t) ∧
    ∀ p, p ∈ ps → recorded (if GrantOptionOnly mode then g_GrantOptions else g_Privileges) ledger (key t) p.

(** ** What a pass has revoked before DROP ROLE *)

(** No session on [db]: the server refused it, or its credentials were not available. *)
Definition unreachable tr (cluster : PgCluster) (db : string) : Prop :=
  (∃ e, EvOpen db (Some e) ∈ tr) ∨
  ∃ n a, (n = k_SecretName cluster ∨ n = tlsSecretName cluster) ∧ EvGetSecret (k_Namespace cluster) n a ∈ tr ∧
    ∀ s, a = inl (Some s) → n = tlsSecretName cluster ∧ secret_value s TLSSecretKeyCA = "".

(** REVOKE ALL on the schemas of [db], then on the members of its extensions. *)
Definition schemas_revoked tr (cluster : PgCluster) (name db : string) : Prop :=
  unreachable tr cluster db ∨ (∃ e, EvRevokeAll OnSchemas db name (Some e) ∈ tr) ∨
  EvRevokeAll OnSchemas db name None ∈ tr ∧ ∃ e, EvRevokeAll OnExtensionMembers db name e ∈ tr.

Definition object_revoked tr (db : string) (g : ManagedObjectGrant) : Prop :=
  ∀ ki, objectKindOf (mog_Kind g) = Some ki → mog_Privileges g ≠ [] →
    ∃ e, EvRevokeObject db (ki_pg ki) (mog_Schema g) (mog_Object g) (mog_OID g) (mog_Role g) (mog_Privileges g) cascade_mode e ∈ tr.

Definition default_revoked tr (db : string) (d : ManagedDefaultPrivilege) : Prop :=
  ∀ ki, defaultKindOf (mdp_Kind d) = Some ki → mdp_Privileges d ≠ [] →
    ∃ e, EvRevokeDefault db {| dt_ForRole := mdp_ForRole d; dt_Schema := mdp_Schema d; dt_Kind := dki_pg ki |} (mdp_Role d)
      (mdp_Privileges d) cascade_mode e ∈ tr.

(** What a ledger records in [db]. *)
Definition access_revoked tr (cluster : PgCluster) (db : string) (rec : recordedObjectAccess) : Prop :=
  unreachable tr cluster db ∨
  (∀ g, g ∈ ra_objects rec → object_revoked tr db g) ∧ (∀ d, d ∈ ra_defaults rec → default_revoked tr db d).

(** Everything the role may hold has been revoked, or its database could not be reached. *)
Definition cleaned_up tr (cluster : PgCluster) (name : string) : Prop :=
  EvRevokeAll OnDatabases defaultDatabaseName name None ∈ tr ∧
  (∃ dbs, EvObjectDatabases name (inl dbs) ∈ tr ∧
    ∀ d, d ∈ dbs → dbr_AllowConns d = true → schemas_revoked tr cluster name (dbr_Name d)) ∧
  ∃ databases entries, EvListDatabases (k_Namespace cluster) (inl databases) ∈ tr ∧
    EvMapOrder (recordedObjectAccessFrom databases (k_Name cluster) (k_UID cluster) name) entries ∈ tr ∧
    ∀ db rec, (db, rec) ∈ entries → access_revoked tr cluster db rec.

(** ** The justification of a call by those before it *)

Definition role_call_ok (pre : list role_event) (ev : role_event) : Prop :=
  match ev with
  | EvCreateRole db name opts _ => db = defaultDatabaseName ∧ may_apply pre name opts
  | EvCreateSecret s _ | EvUpdateSecret s _ => accepted_password pre (secret_value s SecretKeyPassword)
  | EvSaveStatus role _ =>
      rst_Ready (role_Status role) = true → role_Deleting role = true ∨ ∃ password, accepted_password pre password
  | EvDropRole db name _ => db = defaultDatabaseName ∧ ∃ role cluster, may_drop pre role cluster name ∧ cleaned_up pre cluster name
  | EvRevokeAll _ _ name _ => ∃ role cluster, may_drop pre role cluster name
  | EvRevokeParameter o grantee ps mode _ =>
      (∃ role cluster name, may_drop pre role cluster name ∧ recorded_parameter role name o grantee ps mode) ∨ applied pre
  | EvReassign _ old target _ =>
      ∃ role cluster info, may_drop pre role cluster old ∧ rs_ReassignOwnedTo (role_Spec role) = Some target ∧
        EvReassignTarget defaultDatabaseName old target (inl info) ∈ pre ∧ checkReassignTarget old target info = None ∧
        EvOwnedDatabases defaultDatabaseName old (inl []) ∈ pre
  | EvPatch base new _ => roleFinalizer ∈ role_Finalizers base → roleFinalizer ∉ role_Finalizers new → released pre base
  | EvRevokeObject db kind schema identity oid grantee ps mode _ =>
      ps ≠ [] ∧ Cascade mode = true ∧ ∃ role cluster name, may_drop pre role cluster name ∧
        (recorded_object pre cluster db name kind schema identity oid grantee ps mode ∨
         GrantOptionOnly mode = false ∧ created_object pre cluster db name kind schema identity oid grantee ps)
  | EvRevokeDefault db t grantee ps mode _ =>
      ps ≠ [] ∧ Cascade mode = true ∧ ∃ role cluster name, may_drop pre role cluster name ∧ recorded_default pre cluster db name t grantee ps mode
  | _ => True
  end.

#[export] Instance no_older_mono role name : Mono (λ tr, no_older tr role name).
Proof. unfold no_older. solve_mono. Qed.
#[export] Instance recorded_here_mono role cluster name : Mono (λ tr, recorded_here tr role cluster name).
Proof. unfold recorded_here. solve_mono. Qed.
#[export] Instance not_recorded_mono role cluster name : Mono (λ tr, not_recorded tr role cluster name).
Proof. unfold not_recorded. solve_mono. Qed.
#[export] Instance signer_of_mono cluster signer : Mono (λ tr, signer_of tr cluster signer).
Proof. unfold signer_of. solve_mono. Qed.
#[export] Instance may_alter_mono role cluster name mk co : Mono (λ tr, may_alter tr role cluster name mk co).
Proof. unfold may_alter. solve_mono. Qed.
#[export] Instance answered_mono role : Mono (λ tr, answered tr role).
Proof. unfold answered. solve_mono. Qed.
#[export] Instance known_role_mono role : Mono (λ tr, known_role tr role).
Proof. unfold known_role. solve_mono. Qed.
#[export] Instance read_credentials_mono s : Mono (λ tr, read_credentials tr s).
Proof. unfold read_credentials. solve_mono. Qed.
#[export] Instance recorded_applied_mono password : Mono (λ tr, recorded_applied tr password).
Proof. unfold recorded_applied. solve_mono. Qed.
#[export] Instance accepted_password_mono password : Mono (λ tr, accepted_password tr password).
Proof. unfold accepted_password. solve_mono. Qed.
#[export] Instance applied_mono : Mono applied.
Proof. unfold applied. solve_mono. Qed.
#[export] Instance unreachable_mono cluster db : Mono (λ tr, unreachable tr cluster db).
Proof. unfold unreachable. solve_mono. Qed.
#[export] Instance schemas_revoked_mono cluster name db : Mono (λ tr, schemas_revoked tr cluster name db).
Proof. unfold schemas_revoked. solve_mono. Qed.
#[export] Instance object_revoked_mono db g : Mono (λ tr, object_revoked tr db g).
Proof. unfold object_revoked. solve_mono. Qed.
#[export] Instance default_revoked_mono db d : Mono (λ tr, default_revoked tr db d).
Proof. unfold default_revoked. solve_mono. Qed.
#[export] Instance access_revoked_mono cluster db rec : Mono (λ tr, access_revoked tr cluster db rec).
Proof. unfold access_revoked. solve_mono. Qed.
#[export] Instance cleaned_up_mono cluster name : Mono (λ tr, cleaned_up tr cluster name).
Proof. unfold cleaned_up. solve_mono. Qed.
#[export] Instance may_drop_mono role cluster name : Mono (λ tr, may_drop tr role cluster name).
Proof. unfold may_drop. solve_mono. Qed.
#[export] Instance recorded_access_mono cluster name db rec : Mono (λ tr, recorded_access tr cluster name db rec).
Proof. unfold recorded_access. solve_mono. Qed.
#[export] Instance nothing_to_drop_mono role cluster : Mono (λ tr, nothing_to_drop tr role cluster).
Proof. unfold nothing_to_drop. solve_mono. Qed.
End facts.

(** ** The functions of the pass *)

Section pass.
Context `{UnicodePrint} `{Digests} `{PasswordDigest} `{GroupVersions} `{ErrorText} `{ConditionSetter}.
Context {W : Type} (r : roleOps W) (tries : nat).

Abbreviation lr := (logged_ops r).
Abbreviation runs := (runs (W := W) role_call_ok).
Abbreviation only := (only (W := W)).
Abbreviation lclient := (@logged_client W).

(** The next call, which needs no justification. *)
Ltac call x tr P E := eapply runs_call; [intros; exact I|]; intros x tr P E; cbv beta.

Lemma runs_component tr {A} (m : M (W * list role_event) A) : only is_component m → runs tr m (λ _ _, True).
Proof. intros Hm. eapply runs_only; [exact Hm|]. by intros pre []. Qed.

(** A part made of component calls, whose result does not matter. *)
Ltac component := eapply (runs_bind _ _ _ _ (λ _ _, True)); [apply runs_component|].

Lemma component_only {A} (m : M W A) (ev : A → role_event) : (∀ x, is_component (ev x)) → only is_component (logged ev m).
Proof. intros Hc. by apply only_component. Qed.

Ltac calls := walk_only; try solve [apply component_only; intros; exact I].

Lemma clusterClientTLS_only cluster : only is_component (clusterClientTLS (r_GetSecret (rro_api lr)) cluster).
Proof. unfold clusterClientTLS. calls. Qed.

Lemma clusterClientTLS_runs tr cluster :
  runs tr (clusterClientTLS (r_GetSecret (rro_api lr)) cluster) (λ t tr', ∀ e, t = inr e → ∃ a,
    EvGetSecret (k_Namespace cluster) (tlsSecretName cluster) a ∈ tr' ∧ ∀ s, a = inl (Some s) → secret_value s TLSSecretKeyCA = "").
Proof.
  unfold clusterClientTLS. destruct (negb _); [by apply runs_ret|]. call s tr1 P1 E1. apply runs_ret. intros e He.
  exists s. split; [done|]. intros s' ->. cbn in He. by case_decide.
Qed.

Lemma newOperatorClient_runs tr cluster db :
  runs tr (newOperatorClient lr cluster db) (λ c tr', match c with
    | inl pg => ∃ pg0, pg = lclient db pg0
    | inr _ => unreachable tr' cluster db
    end).
Proof.
  unfold newOperatorClient.
  eapply (runs_bind _ _ _ _ (λ c tr', match c with inl cfg => cc_Database cfg = db | inr _ => unreachable tr' cluster db end)).
  - unfold operatorConnectionConfig. call s tr1 P1 E1.
    destruct s as [[s|]|e]; [|apply runs_ret; right; eexists _, _; split_and!; [by left|exact E1|done]..].
    eapply runs_bind; [apply clusterClientTLS_runs|]. intros [t|e] tr2 P2 Ht; apply runs_ret; [done|].
    destruct (Ht e eq_refl) as (a & Ha & Hs). right. eexists _, a. split_and!; [by right|exact Ha|]. intros s' ->. auto.
  - intros [cfg|e] tr1 P1 Hcfg; [|by apply runs_ret]. simpl. unfold logged_open.
    call c tr2 P2 E2. apply runs_ret. rewrite Hcfg in *. destruct c as [pg0|e]; [by exists pg0|]. left. by exists e.
Qed.

Lemma writeStatus_runs tr role ready name err note :
  (ready = true → ∃ password, accepted_password tr password) → runs tr (writeStatus lr role ready name err note) (λ _ _, True).
Proof.
  intros Hr. unfold writeStatus. eapply runs_call; [|intros e tr1 P1 _; by apply runs_ret].
  intros e. simpl. intros Ht. right. auto.
Qed.

Lemma updateStatus_runs tr role name err : runs tr (updateStatus lr role name err) (λ _ _, True).
Proof. by apply writeStatus_runs. Qed.

Lemma clusterRoles_runs tr role :
  runs tr (clusterRoles lr role) (λ l tr', match l with
    | inl l => ∃ roles, EvListRoles (role_Namespace role) (inl roles) ∈ tr' ∧ l = listClusterRoles (rs_ClusterRef (role_Spec role)) roles
    | inr _ => ∃ e, EvListRoles (role_Namespace role) (inr e) ∈ tr'
    end).
Proof. unfold clusterRoles. call l tr1 P1 E1. apply runs_ret. destruct l; eauto. Qed.

Lemma checkRoleName_runs tr role name :
  runs tr (checkRoleName lr role name) (λ e tr', match e with
    | None => reservedRoleName name = None ∧ no_older tr' role name
    | Some _ => reservedRoleName name ≠ None ∨ (∃ e, EvListRoles (role_Namespace role) (inr e) ∈ tr') ∨
        ∃ roles o, EvListRoles (role_Namespace role) (inl roles) ∈ tr' ∧ o ∈ roles ∧
          rs_ClusterRef (role_Spec o) = rs_ClusterRef (role_Spec role) ∧ role_UID o ≠ role_UID role ∧
          PostgresName o = name ∧ createdBefore o role = true
    end).
Proof.
  unfold checkRoleName. destruct (reservedRoleName name) eqn:Er; [apply runs_ret; by left|].
  eapply runs_bind; [apply clusterRoles_runs|]. intros l tr1 P1 Hl. apply runs_ret. destruct l as [l|e]; [|auto].
  destruct Hl as (roles & E1 & ->). destruct (duplicateOf _ _ _) as [o|] eqn:Ed.
  - apply head_filter_Some in Ed as [[Ho Hc]%elem_of_listClusterRoles (? & ? & ?)]. right; right. exists roles, o. by split_and!.
  - split; [done|]. exists roles. split; [done|]. intros o Ho Hc Hu Hn.
    destruct (createdBefore o role) eqn:Eb; [|done]. exfalso.
    apply (head_filter_None _ _ o Ed); [by apply elem_of_listClusterRoles|done].
Qed.

Lemma loadMarkerSigner_runs tr cluster :
  runs tr (loadMarkerSigner (r_GetSecret (rro_api lr)) cluster) (λ s tr', match s with
    | inl signer => signer_of tr' cluster signer
    | inr _ => ∃ a, EvGetSecret (k_Namespace cluster) (markerKeySecretName cluster) a ∈ tr' ∧
        ∀ s, a = inl (Some s) → (String.length (secret_value s secretKeyMarkerKey) < markerKeySize)%nat
    end).
Proof.
  unfold loadMarkerSigner. call s tr1 P1 E1. apply runs_ret. destruct s as [[s|]|e]; [| |]; [|by eexists..].
  case_bool_decide as Hk; [|exists s; split_and!; [done|lia|done]].
  eexists. split; [exact E1|]. by intros s' [= <-].
Qed.

Lemma roleRecorded_runs tr role cluster name :
  runs tr (roleRecorded lr role cluster name) (λ b tr', match b with
    | inl true => recorded_here tr' role cluster name
    | inl false => not_recorded tr' role cluster name
    | inr _ => True
    end).
Proof.
  unfold roleRecorded. case_decide as Hn.
  { apply runs_ret. destruct Hn; [by left|right; by left]. }
  assert (name ≠ "" ∧ rst_RoleName (role_Status role) = name) as [Hne Hrn].
  { split; [tauto|]. destruct (decide (rst_RoleName (role_Status role) = name)); tauto. }
  case_decide as Hu.
  - apply runs_ret. case_bool_decide; [by split_and!; auto|]. right; right; left. done.
  - call s tr1 P1 E1. apply runs_ret. destruct s as [[s|]|e]; [| |done].
    + case_bool_decide; [split_and!; eauto|]. right; right; right. by exists (Some s).
    + right; right; right. by exists None.
Qed.

Lemma checkRoleAdoption_runs tr pg0 role cluster name p signer :
  runs tr (checkRoleAdoption lr (lclient defaultDatabaseName pg0) role cluster name p signer) (λ e tr', e = None →
    ∃ closure roles, EvClosure defaultDatabaseName name (inl closure) ∈ tr' ∧ EvListRoles (role_Namespace role) (inl roles) ∈ tr' ∧
      adoptionProblem name closure p (managedRolesOf (listClusterRoles (rs_ClusterRef (role_Spec role)) roles) cluster signer) = None).
Proof.
  unfold checkRoleAdoption. call c tr1 P1 E1. destruct c as [closure|e]; [|by apply runs_ret].
  eapply (runs_bind _ _ _ _ (λ m tr', ∀ managed, m = inl managed → ∃ roles, EvListRoles (role_Namespace role) (inl roles) ∈ tr' ∧
    managed = managedRolesOf (listClusterRoles (rs_ClusterRef (role_Spec role)) roles) cluster signer)).
  - unfold getManagedRoles. eapply runs_bind; [apply clusterRoles_runs|]. intros l tr2 P2 Hl. apply runs_ret.
    destruct l as [l|]; [|done]. destruct Hl as (roles & ? & ->). intros managed [= <-]. eauto.
  - intros m tr2 P2 Hm. apply runs_ret. destruct m as [managed|e]; [|done].
    destruct (Hm _ eq_refl) as (roles & ? & ->). destruct (adoptionProblem _ _ _ _) eqn:Ea; [done|]. intros _.
    exists closure, roles. split_and!; [carry|done|done].
Qed.

Lemma checkRoleOwnership_runs tr pg0 role cluster name signer recorded :
  signer_of tr cluster signer → (recorded = true → recorded_here tr role cluster name) →
  runs tr (checkRoleOwnership lr (lclient defaultDatabaseName pg0) role cluster name (k_RolePolicy cluster) signer recorded)
    (λ o tr', ∀ mk createOnly, o = inl (mk, createOnly) → may_alter tr' role cluster name mk createOnly).
Proof.
  intros Hs Hrec. unfold checkRoleOwnership. call c tr1 P1 E1. destruct c as [comment|e]; [|by apply runs_ret].
  assert (∀ tr' mk co, tr1 `prefix_of` tr' → (mk = "" ∨ mk = marker signer markerKindRole (role_Name role)) →
    (comment = None ∧ co = true ∨
     ∃ c, comment = Some c ∧ (mk = "" → c = marker signer markerKindRole (role_Name role)) ∧
       (recorded_here tr' role cluster name ∧ own_comment signer role c ∨
        AllowsAdoptingRole (k_RolePolicy cluster) name = true ∧
        ∃ closure roles, EvClosure defaultDatabaseName name (inl closure) ∈ tr' ∧ EvListRoles (role_Namespace role) (inl roles) ∈ tr' ∧
          adoptionProblem name closure (k_RolePolicy cluster)
            (managedRolesOf (listClusterRoles (rs_ClusterRef (role_Spec role)) roles) cluster signer) = None)) →
    may_alter tr' role cluster name mk co) as Hmay.
  { intros tr' mk co P' Hmk Hc. exists signer, comment. split_and!; [carry|carry|done|done]. }
  destruct comment as [cm|]; [|apply runs_ret; intros mk co [= <- <-]; apply Hmay; [done|by right|by left]].
  assert (AllowsAdoptingRole (k_RolePolicy cluster) name = true →
    runs tr1 (checkRoleAdoption lr (lclient defaultDatabaseName pg0) role cluster name (k_RolePolicy cluster) signer ≫= λ e,
        mret (match e with Some e => inr e | None => inl (marker signer markerKindRole (role_Name role), false) end))
      (λ o tr', ∀ mk createOnly, o = inl (mk, createOnly) → may_alter tr' role cluster name mk createOnly)) as Hadopt.
  { intros Ha. eapply runs_bind; [apply checkRoleAdoption_runs|]. intros e tr2 P2 He. apply runs_ret. destruct e; [done|].
    intros mk co [= <- <-]. apply Hmay; [done|by right|]. right. exists cm. split_and!; [done|done|]. right. auto. }
  simpl. unfold decideOwnership. simpl.
  destruct recorded; simpl; [|destruct (AllowsAdoptingRole _ _) eqn:Ea; [by apply Hadopt|by apply runs_ret]].
  specialize (Hrec eq_refl). destruct (verify _ _ _ _) eqn:Ev; [|destruct (refreshableComment _ _ _ _) eqn:Er].
  - apply runs_ret. intros mk co [= <- <-]. apply Hmay; [done|by left|]. right. exists cm. split_and!; [done| |left; split; [carry|by left]].
    unfold verify in Ev. apply andb_true_iff in Ev as [_ Ev]. intros _. by apply bool_decide_eq_true in Ev.
  - apply runs_ret. intros mk co [= <- <-]. apply Hmay; [done|by right|]. right. exists cm. split_and!; [done|done|].
    left. split; [carry|by right].
  - destruct (AllowsAdoptingRole _ _) eqn:Ea; [by apply Hadopt|by apply runs_ret].
Qed.

Lemma roleOwnership_runs tr pg0 cluster role name :
  runs tr (roleOwnership lr (lclient defaultDatabaseName pg0) cluster role name (k_RolePolicy cluster))
    (λ o tr', ∀ signer mk createOnly, o = inl (signer, mk, createOnly) → may_alter tr' role cluster name mk createOnly).
Proof.
  unfold roleOwnership. eapply runs_bind; [apply loadMarkerSigner_runs|]. intros [signer|e] tr1 P1 Hs; [|by apply runs_ret].
  eapply runs_bind; [apply roleRecorded_runs|]. intros [recorded|e] tr2 P2 Hrec; [|by apply runs_ret].
  eapply runs_bind; [apply checkRoleOwnership_runs; [carry|by intros ->]|].
  intros [[mk createOnly]|e] tr3 P3 Ho; apply runs_ret; [|done]. intros ??? [= <- <- <-]. by apply Ho.
Qed.

Lemma createOrAlterRole_runs tr pg0 name opts :
  may_apply tr name opts →
  runs tr (createOrAlterRole (lclient defaultDatabaseName pg0) name opts)
    (λ e tr', e = None → EvCreateRole defaultDatabaseName name opts None ∈ tr').
Proof.
  intros Hok. unfold createOrAlterRole. eapply runs_call; [by intros|]. intros e tr1 P1 E1. apply runs_ret.
  destruct e as [err|]; [|done]. by destruct (errors_Is _ _).
Qed.

(** ** The credentials Secret *)

Lemma applyConnectionInfo_password data host port db t :
  (applyConnectionInfo data host port db t).1 !! SecretKeyPassword = data !! SecretKeyPassword.
Proof.
  destruct (applyConnectionInfo_connected data host port db t) as [-> _]. apply connected_other. vm_compute. set_solver.
Qed.

Lemma set_value_lookup k v st : default "" ((set_value k v st).1 !! k) = v.
Proof. unfold set_value. case_decide; [done|]. simpl. by rewrite lookup_insert_eq. Qed.

Lemma convergeRoleSecret_password s role pw host port t :
  secret_value (convergeRoleSecret s role pw host port t).1 SecretKeyPassword = pw.
Proof.
  unfold convergeRoleSecret. pose proof (set_value_lookup SecretKeyPassword pw (sec_Data s, false)) as Hp.
  destruct (set_value SecretKeyPassword _ _) as [data c1]. simpl in Hp.
  destruct (set_value _ _ _) as [ann c2]. destruct (map_fold _ _ _) as [labels c3].
  pose proof (applyConnectionInfo_password data host port defaultDatabaseName t) as Ha.
  destruct (applyConnectionInfo _ _ _ _ _) as [data' conn]. simpl in *. unfold secret_value. simpl. by rewrite Ha.
Qed.

Lemma newRoleSecret_password role cluster pw host port t :
  secret_value (newRoleSecret role cluster pw host port t) SecretKeyPassword = pw.
Proof.
  unfold secret_value, newRoleSecret. simpl. rewrite applyConnectionInfo_password.
  by rewrite lookup_insert_ne, lookup_singleton_eq by done.
Qed.

Lemma convergeSecret_runs n tr role base pw sent host port t s last :
  accepted_password tr pw → runs tr (convergeSecret lr n role base pw sent host port t s last) (λ _ _, True).
Proof.
  revert tr s last. induction n as [|n IH]; intros tr s last Hpw; simpl; [by apply runs_ret|].
  destruct (_ && _); [by apply runs_ret|].
  pose proof (convergeRoleSecret_password s role pw host port t) as Hs.
  destruct (convergeRoleSecret _ _ _ _ _ _) as [s' [|]]; simpl in Hs |- *; [|by apply runs_ret].
  eapply runs_call; [intros u; simpl; by rewrite Hs|]. intros u tr1 P1 E1. destruct u; [by apply runs_ret| |by apply runs_ret].
  eapply (runs_bind _ _ _ _ (λ _ _, True)).
  - apply runs_component. destruct (r_APIReader (rro_api r)); simpl; calls.
  - intros [[fresh|]|e'] tr2 P2 _; [|by apply runs_ret..]. apply IH. carry.
Qed.

Lemma reconcileCredentialsSecret_runs tr role cluster existing pw sent :
  accepted_password tr pw → runs tr (reconcileCredentialsSecret lr tries role cluster existing pw sent) (λ _ _, True).
Proof.
  intros Hpw. unfold reconcileCredentialsSecret. component; [apply clusterClientTLS_only|].
  intros [t|e] tr1 P1 _; [|by apply runs_ret]. eapply (runs_bind _ _ _ _ (λ _ _, True)).
  - destruct existing as [s|]; [apply convergeSecret_runs; carry|].
    apply runs_logged; [|done]. intros e. simpl. rewrite newRoleSecret_password. carry.
  - intros e tr2 P2 _. by apply runs_ret.
Qed.

(** *** The password that the Secret records as applied *)

Lemma choosePasswordFresh_runs tr role fromRef ref existing now :
  known_role tr role →
  runs tr (choosePasswordFresh (rro_api lr) role fromRef ref existing now) (λ c tr', known_role tr' c.2).
Proof.
  intros Hk. unfold choosePasswordFresh. component; [by apply choosePassword_only|]. intros c tr1 P1 _.
  assert (runs tr1 (mret (c, role)) (λ c tr', known_role tr' c.2)) as Hret by (apply runs_ret; cbn [snd]; carry).
  destruct c as [dp|e]; [|exact Hret]. simpl. destruct (r_APIReader (rro_api r)) as [ar|]; simpl; [|exact Hret].
  destruct (dp_rotated dp); [|exact Hret]. call f tr2 P2 E2.
  destruct f as [fresh|e]; [|apply runs_ret; cbn [snd]; carry]. case_decide; [apply runs_ret; cbn [snd]; carry|].
  component; [by apply choosePassword_only|]. intros c tr3 P3 _. apply runs_ret. right. exists (role_Namespace role), (role_Name role). cbn [snd]. carry.
Qed.

Lemma decidePassword_runs tr role fromRef ref existing now :
  known_role tr role →
  runs tr (decidePassword (rro_api lr) role fromRef ref existing now) (λ c tr', known_role tr' c.2 ∧
    ∀ dp, c.1 = inl dp → dp_applied dp = true → passwordApplied c.2 existing (dp_value dp) = true).
Proof.
  intros Hk. unfold decidePassword. eapply runs_bind; [by apply choosePasswordFresh_runs|]. intros [c role'] tr1 P1 Hk'.
  apply runs_ret. split; [done|]. destruct c as [dp|e]; [|done]. by intros ? [= <-] [_ ?]%andb_true_iff.
Qed.

Lemma resolvePassword_runs tr role cluster existing now :
  answered tr role →
  (∀ s, existing = Some s → EvGetSecret (role_Namespace role) (credentialsSecretName role cluster) (inl (Some s)) ∈ tr) →
  runs tr (resolvePassword (rro_api lr) role existing now) (λ c tr', ∀ dp, c.1.1 = inl dp → dp_applied dp = true →
    recorded_applied tr' (dp_value dp)).
Proof.
  intros Ha Hs. assert (known_role tr role) as Hk by (by left). unfold resolvePassword.
  eapply (runs_bind _ _ _ _ (λ c tr', ∀ dp, c.1.1 = inl dp → dp_applied dp = true → recorded_applied tr' (dp_value dp))); swap 1 2.
  { intros [[[dp|e] s] role'] tr1 P1 Hc; apply runs_ret; [|done]. simpl in *. destruct (checkEditedPassword dp s); [done|].
    intros ? [= <-]. by apply Hc. }
  unfold resolvePasswordFresh. component.
  { destruct (rs_PasswordSecretRef _); [by apply readPasswordSecretRef_only|apply only_ret]. }
  intros [ref|e] tr1 P1 _; [|by apply runs_ret].
  eapply runs_bind; [apply decidePassword_runs; carry|]. intros [c role1] tr2 P2 [Hk1 Hc]. simpl in Hk1, Hc.
  assert (∀ tr' role' s' dp, tr2 `prefix_of` tr' → known_role tr' role' → read_credentials tr' s' → dp_applied dp = true →
    passwordApplied role' (Some s') (dp_value dp) = true → recorded_applied tr' (dp_value dp)) as Hrec.
  { intros tr' role' s' dp _ ? ? _ ?. exists role', s'. by split_and!. }
  assert (∀ s, existing = Some s → read_credentials tr2 s) as Hread.
  { intros s ->. exists role, cluster, s. split_and!; [carry|specialize (Hs s eq_refl); carry|by left]. }
  assert (∀ dp tr', tr2 `prefix_of` tr' → c = inl dp → dp_applied dp = true → recorded_applied tr' (dp_value dp)) as Hkept.
  { intros dp tr' P' -> Happ. specialize (Hc dp eq_refl Happ). destruct existing as [s|]; [|done].
    specialize (Hread s eq_refl). apply (Hrec tr' role1 s); [done|carry|carry|done|done]. }
  destruct c as [dp|e]; [|by apply runs_ret]. destruct existing as [s|]; [|apply runs_ret; intros ? [= <-]; by apply Hkept].
  simpl. destruct (r_APIReader (rro_api r)) as [ar|]; simpl; [|apply runs_ret; intros ? [= <-]; by apply Hkept].
  destruct (dp_applied dp || dp_generated dp); [apply runs_ret; intros ? [= <-]; by apply Hkept|].
  call f tr3 P3 E3. destruct f as [fresh|e]; [|by apply runs_ret].
  case_bool_decide; [apply runs_ret; intros ? [= <-]; by apply Hkept|].
  eapply runs_bind; [apply decidePassword_runs; carry|]. intros [c role2] tr4 P4 [Hk2 Hc2]. apply runs_ret. simpl in *.
  intros dp' -> Happ. specialize (Hc2 dp' eq_refl Happ). destruct fresh as [fresh|]; [|done].
  apply (Hrec tr4 role2 fresh); [by etrans|carry| |done|done].
  exists role, cluster, s. split_and!; [carry|specialize (Hs s eq_refl); carry|right; carry].
Qed.

Lemma resolveLogin_runs tr role cluster now :
  answered tr role →
  runs tr (resolveLogin lr role cluster now) (λ c tr', ∀ dp existing, c.1 = inl (dp, existing) → dp_applied dp = true →
    recorded_applied tr' (dp_value dp)).
Proof.
  intros Ha. unfold resolveLogin. destruct (negb _); [apply runs_ret; by intros ? ? [= <- <-]|].
  eapply (runs_bind _ _ _ _ (λ s tr', ∀ s', s = inl (Some s') →
    EvGetSecret (role_Namespace role) (credentialsSecretName role cluster) (inl (Some s')) ∈ tr')).
  { unfold getCredentialsSecret. call s tr1 P1 E1.
    assert (runs tr1 (mret s) (λ s tr', ∀ s', s = inl (Some s') →
      EvGetSecret (role_Namespace role) (credentialsSecretName role cluster) (inl (Some s')) ∈ tr')) as Hret by (apply runs_ret; by intros ? ->).
    destruct s as [[s|]|e]; [exact Hret| |exact Hret]. simpl. destruct (r_APIReader (rro_api r)) as [ar|]; simpl; [|exact Hret].
    apply runs_logged; [intros; exact I|]. by intros x tr2 P2 E2 ? ->. }
  intros [existing|e] tr1 P1 Hs; [|by apply runs_ret].
  eapply runs_bind; [apply (resolvePassword_runs _ _ cluster); [carry|intros s ->; by apply Hs]|].
  intros [[[dp|e] s] role'] tr2 P2 Hc; apply runs_ret; [|done]. simpl in *. intros ? ? [= <- <-]. by apply Hc.
Qed.

(** ** Grants, settings, the status *)

(** Component calls, saves of the status and parameter revokes, once PostgreSQL has the role. *)
Definition is_component_or_save (ev : role_event) : Prop :=
  match ev with EvSaveStatus _ _ | EvRevokeParameter _ _ _ _ _ => True | _ => is_component ev end.

Lemma runs_after_accepted tr {A} (m : M (W * list role_event) A) :
  applied tr → only is_component_or_save m → runs tr m (λ _ _, True).
Proof.
  intros Hpw Hm. eapply runs_only; [exact Hm|]. intros pre ev P Hev. assert (applied pre) as Ha by carry.
  destruct ev; try done; simpl; [intros _; right; apply Ha|by right].
Qed.

Lemma getManagedRoles_runs tr role cluster signer : runs tr (getManagedRoles lr role cluster signer) (λ _ _, True).
Proof.
  unfold getManagedRoles. eapply runs_bind; [apply clusterRoles_runs|]. intros l tr1 P1 _. by apply runs_ret.
Qed.

Lemma reconcileRoleGrants_runs tr pg0 role cluster name p signer :
  applied tr →
  runs tr (reconcileRoleGrants lr (lclient defaultDatabaseName pg0) role cluster name p signer) (λ _ _, True).
Proof.
  intros Hpw. unfold reconcileRoleGrants. eapply runs_bind; [apply getManagedRoles_runs|].
  intros [managed|e] tr1 P1 _; [|by apply runs_ret]. apply runs_after_accepted; [carry|].
  apply only_bind; [apply reconcileMemberships_only; by intros []|]. intros [e1 mems]. cbv zeta.
  apply only_bind; [|intros [e2 st]; apply only_ret].
  apply reconcileParameterGrants_only; [by intros []|done|]. intros f st [= <-]. by apply only_logged.
Qed.

Lemma reconcileGrantsAndSettings_runs tr pg0 role cluster name p signer policyErr :
  applied tr →
  runs tr (reconcileGrantsAndSettings lr (lclient defaultDatabaseName pg0) role cluster name p signer policyErr) (λ _ _, True).
Proof.
  intros Hpw. unfold reconcileGrantsAndSettings. eapply (runs_bind _ _ _ _ (λ _ _, True)).
  - apply runs_component. destruct policyErr; [apply only_ret|]. by apply reconcileRoleSettings_only.
  - intros [[pending serr] st] tr1 P1 _. eapply runs_bind; [apply reconcileRoleGrants_runs; carry|].
    intros [gerr role'] tr2 P2 _. by apply runs_ret.
Qed.

Lemma readyResult_runs tr role name pending b :
  applied tr → runs tr (readyResult lr role name pending b) (λ _ _, True).
Proof.
  intros Hpw. unfold readyResult. eapply runs_bind; [apply writeStatus_runs; intros _; apply Hpw|]. intros [after [e|]] tr1 P1 _; [by apply runs_ret|].
  apply runs_component. calls.
Qed.

Lemma reconcileLogin_runs tr role cluster name existing dp opts now :
  accepted_password tr (dp_value dp) → runs tr (reconcileLogin lr tries role cluster name existing dp opts now) (λ _ _, True).
Proof.
  intros Hpw. unfold reconcileLogin. destruct (negb _); [by apply runs_ret|].
  eapply runs_bind; [by apply reconcileCredentialsSecret_runs|]. intros [s|e] tr1 P1 _; [|by apply runs_ret].
  apply runs_component. simpl. destruct (rro_Eventf r); simpl; calls.
Qed.

(** Leaves with the status written. *)
Lemma fail_runs tr role name err (b : requeueBackoff) :
  runs tr ('(a, e) ← updateStatus lr role name err; mret (a, e, b)) (λ _ _, True).
Proof. eapply runs_bind; [apply updateStatus_runs|]. intros [a e] tr1 P1 _. by apply runs_ret. Qed.

Lemma desiredRoleOptions_within s p : attributes_within p (desiredRoleOptions s p).1.
Proof.
  unfold desiredRoleOptions, attributes_within.
  destruct (deniedAttributes s p) as [|a l] eqn:Ed; [|by split_and!].
  assert (∀ a, a ∉ deniedAttributes s p) as Hd by (rewrite Ed; set_solver). setoid_rewrite deniedAttributes_elem in Hd.
  simpl. split_and!; intros Hr; match goal with |- AllowsAttribute _ ?a = _ => specialize (Hd a); destruct (AllowsAttribute p a); naive_solver end.
Qed.

(** ** A Role that is not being deleted *)

Lemma applyRole_runs tr pg0 cluster role name signer mk createOnly dp existing now b :
  (∃ read, EvGetRole (inl (Some read)) ∈ tr ∧ role_Deleting read = false) →
  (dp_applied dp = true → recorded_applied tr (dp_value dp)) →
  (∀ opts, ro_Comment opts = mk → ro_CreateOnly opts = createOnly → attributes_within (k_RolePolicy cluster) opts →
    may_apply tr name opts) →
  runs tr (applyRole lr tries (lclient defaultDatabaseName pg0) cluster role name signer mk createOnly dp existing now b) (λ _ _, True).
Proof.
  intros (read & Hread & Hlive) Hap Hok. unfold applyRole. pose proof (desiredRoleOptions_within (role_Spec role) (k_RolePolicy cluster)) as Hw.
  destruct (desiredRoleOptions _ _) as [opts policyErr]. simpl in Hw. cbv zeta.
  eapply runs_bind; [apply createOrAlterRole_runs; by apply Hok|].
  intros [e|] tr1 P1 E1; [by apply fail_runs|]. specialize (E1 eq_refl).
  assert (accepted_password tr1 (dp_value dp)) as Hpw.
  { eexists _, _. split_and!; [exact E1|done|]. destruct (dp_applied dp) eqn:Ed; simpl; rewrite Ed; [|by left]. specialize (Hap eq_refl). right. carry. }
  assert (applied tr1) as Hdone by (split; [exists read; split; [carry|done]|by eexists]).
  eapply runs_bind; [apply reconcileLogin_runs; carry|]. intros [[secretName role']|e] tr2 P2 _; [|by apply fail_runs].
  eapply runs_bind; [apply reconcileGrantsAndSettings_runs; carry|].
  intros [[pending [e|]] role''] tr3 P3 _; [by apply fail_runs|]. apply readyResult_runs. carry.
Qed.

Lemma addFinalizer_runs tr role :
  answered tr role → runs tr (addFinalizer lr role) (λ f tr', ∀ role', f = inl role' → answered tr' role').
Proof.
  intros Ha. unfold addFinalizer. case_bool_decide as Hf; [apply runs_ret; by intros role' [= <-]|].
  apply runs_logged; [by intros x Hin|]. intros x tr1 P1 E1 role' ->. right. by eexists _, _.
Qed.

Lemma reconcileOnCluster_runs tr cluster role b :
  EvGetRole (inl (Some role)) ∈ tr → role_Deleting role = false →
  reservedRoleName (PostgresName role) = None → no_older tr role (PostgresName role) →
  EvGetCluster (role_Namespace role) (rs_ClusterRef (role_Spec role)) (inl (Some cluster)) ∈ tr → k_Ready cluster = true →
  runs tr (reconcileOnCluster lr tries cluster role (PostgresName role) b) (λ _ _, True).
Proof.
  intros Hread Hdel Hres Hold Hcl Hready. unfold reconcileOnCluster. cbv zeta.
  eapply runs_bind; [apply newOperatorClient_runs|]. intros [pg|e] tr1 P1 Hpg; [|by apply fail_runs].
  destruct Hpg as [pg0 ->].
  eapply runs_bind; [apply addFinalizer_runs; left; carry|]. intros [role'|e] tr2 P2 Ha; [|by apply runs_ret].
  specialize (Ha _ eq_refl).
  eapply runs_bind; [apply roleOwnership_runs|]. intros [[[signer mk] createOnly]|e] tr3 P3 Ho; [|by apply fail_runs].
  specialize (Ho _ _ _ eq_refl).
  eapply runs_call; [intros; exact I|]. intros now tr4 P4 _.
  eapply runs_bind; [apply resolveLogin_runs; carry|]. intros [[[dp existing]|e] role''] tr5 P5 Hdp; [|by apply fail_runs].
  apply applyRole_runs; [exists role; split; [carry|done]|by apply (Hdp dp existing)|]. intros opts <- <- Hw. exists role, cluster, role'. split_and!; try done; carry.
Qed.

(** ** The clean-up of a role *)

(** What each call establishes holds of them all. *)
Lemma each_runs {A} (Q : A → list role_event → Prop) tr (f : A → M (W * list role_event) error) l :
  (∀ x, Mono (Q x)) → (∀ x tr', x ∈ l → tr `prefix_of` tr' → runs tr' (f x) (λ _ tr', Q x tr')) →
  runs tr (each f l) (λ _ tr', ∀ x, x ∈ l → Q x tr').
Proof.
  intros HQ. revert tr. induction l as [|x l IH]; intros tr Hf; simpl; [apply runs_ret; by intros x ?%elem_of_nil|].
  eapply runs_bind; [apply Hf; [by left|done]|]. intros e tr1 P1 Hx.
  eapply runs_bind; [apply IH; intros y tr' Hy P'; apply Hf; [by right|by etrans]|]. intros es tr2 P2 Hl. apply runs_ret.
  intros y [->|Hy]%elem_of_cons; [by eapply (HQ x tr1)|by apply Hl].
Qed.

Lemma revokeRecorded_runs tr ps os (revoke : list string → RevokeMode → M (W * list role_event) error) (Q : list role_event → Prop) :
  Mono Q →
  (∀ tr' qs mode, tr `prefix_of` tr' → qs ≠ [] → Cascade mode = true →
    (∀ p, p ∈ qs → p ∈ (if GrantOptionOnly mode then os else ps)) →
    runs tr' (revoke qs mode) (λ _ tr', qs = ps → mode = cascade_mode → Q tr')) →
  runs tr (revokeRecorded ps os revoke) (λ _ tr', ps ≠ [] → Q tr').
Proof.
  intros HQ Hr. unfold revokeRecorded. eapply (runs_bind _ _ _ _ (λ _ tr', ps ≠ [] → Q tr')).
  - case_decide; [by apply runs_ret|]. eapply runs_conseq; [by apply Hr|]. by intros x tr' _ Hq _; apply Hq.
  - intros e1 tr1 P1 HQ1. cbv zeta. eapply (runs_bind _ _ _ _ (λ _ _, True)).
    + case_decide; [by apply runs_ret|]. eapply runs_conseq; [apply Hr; [done..|]|done]. simpl. by intros p [_ ?]%list_elem_of_filter.
    + intros e2 tr2 P2 _. apply runs_ret. intros Hne. specialize (HQ1 Hne). by eapply (HQ tr1).
Qed.

Section cleanup.
Context (db name : string) (role : Role) (cluster : PgCluster) (rv : objectAccessRevoker W).
Abbreviation lrv := (logged_revoker db rv).

Lemma revokeObjectGrant_runs tr rec g :
  may_drop tr role cluster name → recorded_access tr cluster name db rec → g ∈ ra_objects rec →
  runs tr (revokeObjectGrant lrv g) (λ _ tr', object_revoked tr' db g).
Proof.
  intros Hd Hrec Hg. unfold revokeObjectGrant. destruct (objectKindOf _) as [ki|] eqn:Ek; [|apply runs_ret; unfold object_revoked; by rewrite Ek].
  eapply runs_conseq; [apply (revokeRecorded_runs _ _ _ _ (λ tr', ∃ e, EvRevokeObject db (ki_pg ki) (mog_Schema g) (mog_Object g) (mog_OID g)
    (mog_Role g) (mog_Privileges g) cascade_mode e ∈ tr')); [solve_mono|]|intros x tr' _ Hq ki' Hk; rewrite Ek in Hk; by injection Hk as <-].
  intros tr' qs mode P' Hne Hc Hsub. apply runs_logged; [|intros e tr'' _ E'' -> ->; by exists e]. intros e. simpl.
  split_and!; [done|done|]. exists role, cluster, name. split; [carry|]. left. exists rec, g, ki. split_and!; try done. carry.
Qed.

Lemma revokeDefaultGrant_runs tr rec d :
  may_drop tr role cluster name → recorded_access tr cluster name db rec → d ∈ ra_defaults rec →
  runs tr (revokeDefaultGrant lrv d) (λ _ tr', default_revoked tr' db d).
Proof.
  intros Hd Hrec Hg. unfold revokeDefaultGrant. destruct (defaultKindOf _) as [ki|] eqn:Ek; [|apply runs_ret; unfold default_revoked; by rewrite Ek].
  eapply runs_conseq; [apply (revokeRecorded_runs _ _ _ _ (λ tr', ∃ e, EvRevokeDefault db
    {| dt_ForRole := mdp_ForRole d; dt_Schema := mdp_Schema d; dt_Kind := dki_pg ki |} (mdp_Role d) (mdp_Privileges d) cascade_mode e ∈ tr'));
    [solve_mono|]|intros x tr' _ Hq ki' Hk; rewrite Ek in Hk; by injection Hk as <-].
  intros tr' qs mode P' Hne Hc Hsub. apply runs_logged; [|intros e tr'' _ E'' -> ->; by exists e]. intros e. simpl.
  split_and!; [done|done|]. exists role, cluster, name. split; [carry|]. exists rec, d, ki. split_and!; try done. carry.
Qed.

Lemma revokeFromCreatedObjects_runs tr rec c :
  may_drop tr role cluster name → recorded_access tr cluster name db rec → c ∈ ra_created rec →
  runs tr (revokeFromCreatedObjects lrv name c) (λ _ _, True).
Proof.
  intros Hd Hrec Hc. unfold revokeFromCreatedObjects. call o tr1 P1 E1. destruct o as [oids|e]; [|by apply runs_ret].
  destruct (oids !! name) as [grantee|]; [|by apply runs_ret].
  destruct (oids !! cg_forRole c) as [owner|] eqn:Eo; [|by apply runs_ret].
  eapply runs_bind; [|intros es tr2 P2 _; by apply runs_ret]. apply (each_runs (λ _ _, True)); [intros; apply mono_const|]. intros kind tr2 Hk P2.
  unfold revokeCreatedKind. call l tr3 P3 E3. destruct l as [objects|e]; [|by apply runs_ret].
  eapply runs_bind; [|intros es tr4 P4 _; by apply runs_ret]. apply (each_runs (λ _ _, True)); [intros; apply mono_const|]. intros x tr4 Hx P4.
  unfold revokeCreated. case_decide as Hown; [by apply runs_ret|]. cbv zeta. case_decide; [by apply runs_ret|].
  apply runs_logged; [|done]. intros e. simpl. split_and!; [done|done|]. exists role, cluster, name. split; [carry|]. right. split; [done|].
  assert (so_OwnerOID x = owner ∧ so_Extension x = "") as [Ho Hext].
  { split; [destruct (decide (so_OwnerOID x = owner))|destruct (decide (so_Extension x = ""))]; tauto. }
  exists rec, c, x, objects, oids. split_and!; try done; [carry|carry|by rewrite Ho|carry|].
  by intros p [_ ?]%list_elem_of_filter.
Qed.

Lemma revokeRecordedObjectAccess_runs tr rec :
  may_drop tr role cluster name → recorded_access tr cluster name db rec →
  runs tr (revokeRecordedObjectAccess lrv name rec) (λ _ tr', access_revoked tr' cluster db rec).
Proof.
  intros Hd Hrec. unfold revokeRecordedObjectAccess.
  eapply runs_bind; [apply (each_runs (λ g tr', object_revoked tr' db g)); [exact _|]; intros g tr' Hg P'; apply (revokeObjectGrant_runs _ rec); [carry|carry|done]|].
  intros e1 tr1 P1 Hobj.
  eapply runs_bind; [apply (each_runs (λ d tr', default_revoked tr' db d)); [exact _|]; intros d tr' Hg P'; apply (revokeDefaultGrant_runs _ rec); [carry|carry|done]|].
  intros e2 tr2 P2 Hdef.
  eapply runs_bind; [apply (each_runs (λ _ _, True)); [intros; apply mono_const|]; intros c tr' Hg P'; apply (revokeFromCreatedObjects_runs _ rec); [carry|carry|done]|].
  intros e3 tr3 P3 _. apply runs_ret. right. split; [intros g Hg; specialize (Hobj g Hg); carry|intros d Hg; specialize (Hdef d Hg); carry].
Qed.
End cleanup.

Lemma in_database_runs tr cluster db (f : pgClient (W * list role_event) → M (W * list role_event) error) (Q : list role_event → Prop) :
  (∀ tr' pg0, tr `prefix_of` tr' → runs tr' (f (lclient db pg0)) (λ _ tr', Q tr')) →
  runs tr (in_database (newOperatorClient lr cluster) db f) (λ _ tr', unreachable tr' cluster db ∨ Q tr').
Proof.
  intros Hf. unfold in_database. eapply runs_bind; [apply newOperatorClient_runs|].
  intros [pg|e] tr1 P1 Hpg; [|apply runs_ret; by left]. destruct Hpg as [pg0 ->].
  eapply runs_conseq; [by apply Hf|]. intros; by right.
Qed.

Lemma for_databases_runs (Q : string → list role_event → Prop) tr cluster
    (f : pgClient (W * list role_event) → M (W * list role_event) error) dbs :
  (∀ db, Mono (Q db)) → (∀ db tr' pg0, tr `prefix_of` tr' → runs tr' (f (lclient db pg0)) (λ _ tr', Q db tr')) →
  runs tr (for_databases (newOperatorClient lr cluster) f dbs)
    (λ _ tr', ∀ d, d ∈ dbs → dbr_AllowConns d = true → unreachable tr' cluster (dbr_Name d) ∨ Q (dbr_Name d) tr').
Proof.
  intros HQ. revert tr. induction dbs as [|db dbs IH]; intros tr Hf; simpl; [apply runs_ret; by intros d ?%elem_of_nil|].
  destruct (dbr_AllowConns db) eqn:Ea; simpl.
  - eapply runs_bind; [apply (in_database_runs _ _ _ _ (Q (dbr_Name db))); intros; by apply Hf|]. intros e tr1 P1 Hdb.
    eapply runs_bind; [apply IH; intros d tr' pg0 P'; apply Hf; by etrans|]. intros s tr2 P2 Hl. apply runs_ret.
    intros d [->|Hd]%elem_of_cons Hc; [|by apply Hl]. destruct Hdb; [left; carry|right]. by eapply (HQ (dbr_Name db) tr1).
  - eapply runs_bind; [by apply IH|]. intros s tr1 P1 Hl. apply runs_ret. intros d [->|Hd]%elem_of_cons Hc; [congruence|by apply Hl].
Qed.

Lemma revokeRecordedObjectAccessFor_runs tr role cluster name entries :
  may_drop tr role cluster name → (∀ db rec, (db, rec) ∈ entries → recorded_access tr cluster name db rec) →
  runs tr (revokeRecordedObjectAccessFor (newOperatorClient lr cluster) name entries)
    (λ _ tr', ∀ db rec, (db, rec) ∈ entries → access_revoked tr' cluster db rec).
Proof.
  revert tr. induction entries as [|[db rec] entries IH]; intros tr Hd Hl; simpl; [apply runs_ret; by intros ? ? ?%elem_of_nil|].
  assert (recorded_access tr cluster name db rec) as Hrec by (apply Hl; by left).
  eapply runs_bind.
  - apply (in_database_runs _ _ _ _ (λ tr', access_revoked tr' cluster db rec)). intros tr' pg0 P'.
    apply (revokeRecordedObjectAccess_runs _ _ role); carry.
  - intros e tr1 P1 Hdb. eapply runs_bind; [apply IH; [carry|intros db' rec' Hx; specialize (Hl db' rec'); assert (recorded_access tr cluster name db' rec') by (apply Hl; by right); carry]|].
    intros s tr2 P2 Hrest. apply runs_ret. intros db' rec' [[= -> ->]|Hx]%elem_of_cons; [|by apply Hrest].
    assert (access_revoked tr1 cluster db rec) by (destruct Hdb; [by left|done]). carry.
Qed.

(** ** Deletion *)

Lemma dropBlocked_runs tr role msg : role_Deleting role = true → runs tr (dropBlocked lr role msg) (λ z _, z ≠ inl 0%Z).
Proof.
  intros Hd. unfold dropBlocked. eapply runs_call; [by left|]. intros e tr1 P1 E1. apply runs_ret. by destruct e.
Qed.

Lemma dropOutcome_runs tr role name skipped d :
  role_Deleting role = true → EvDropRole defaultDatabaseName name d ∈ tr →
  runs tr (dropOutcome lr role skipped d) (λ z tr', z = inl 0%Z → EvDropRole defaultDatabaseName name Dropped ∈ tr').
Proof.
  intros Hdel Hd. destruct d; simpl; [by apply runs_ret| |by apply runs_ret].
  eapply runs_conseq; [by apply dropBlocked_runs|]. by intros z tr' _ ?.
Qed.

Lemma drop_runs tr pg0 role role0 cluster name skipped :
  may_drop tr role0 cluster name → cleaned_up tr cluster name → role_Deleting role = true →
  runs tr (pc_DropRole (lclient defaultDatabaseName pg0) name ≫= dropOutcome lr role skipped)
    (λ z tr', z = inl 0%Z → EvDropRole defaultDatabaseName name Dropped ∈ tr').
Proof.
  intros Hd Hc Hdel. eapply runs_call; [intros; simpl; split; [done|by eexists _, _]|]. intros d tr1 P1 E1. by apply dropOutcome_runs.
Qed.

Lemma reassignAndDrop_runs tr pg0 role role0 cluster name skipped :
  may_drop tr role0 cluster name → cleaned_up tr cluster name → role_Deleting role = true → role_Spec role = role_Spec role0 →
  runs tr (reassignAndDrop lr (lclient defaultDatabaseName pg0) cluster role name skipped)
    (λ z tr', z = inl 0%Z → EvDropRole defaultDatabaseName name Dropped ∈ tr').
Proof.
  intros Hd Hcl Hdel Hspec. unfold reassignAndDrop. cbv zeta.
  destruct (rs_ReassignOwnedTo (role_Spec role)) as [target|] eqn:Et; [|by eapply drop_runs].
  destruct target as [|ch target]; [by eapply drop_runs|].
  eapply (runs_bind _ _ _ _ (λ _ _, True)).
  - unfold reassignOwnedObjects. call i tr1 P1 E1. destruct i as [info|e]; [|by apply runs_ret].
    destruct (checkReassignTarget _ _ _) eqn:Ec; [by apply runs_ret|]. call o tr2 P2 E2.
    destruct o as [[|? ?]|e]; [|by apply runs_ret..]. call d tr3 P3 E3. destruct d as [dbs|e]; [|by apply runs_ret].
    eapply runs_bind; [|intros s tr4 P4 _; by apply runs_ret].
    apply (for_databases_runs (λ _ _, True)); [intros; apply mono_const|]. intros db tr' pg1 P'.
    apply runs_logged; [|done]. intros e. simpl. exists role0, cluster, info. rewrite <- Hspec.
    split_and!; [carry|done|carry|done|carry].
  - intros [[s [blocked|]]|e] tr1 P1 _; [| |by apply runs_ret].
    + eapply runs_conseq; [by apply dropBlocked_runs|]. by intros z tr' _ ?.
    + apply (drop_runs _ _ _ role0 cluster); [carry|carry|done].
Qed.

Lemma revokeManagedParameterGrants_runs tr pc role cluster name :
  may_drop tr role cluster name →
  runs tr (revokeManagedParameterGrants (logged_parameters pc) name (role_Status role)) (λ _ _, True).
Proof.
  intros Hd. unfold revokeManagedParameterGrants. case_decide; [by apply runs_ret|]. call e tr1 P1 E1.
  destruct e as [[|]|e]; [|by apply runs_ret..].
  eapply (runs_bind _ _ _ _ (λ _ _, True)); [|intros [after e] tr2 P2 _; by apply runs_ret].
  eapply (runs_only _ _ (λ ev, is_component ev ∨ ∃ o g ps mode e, ev = EvRevokeParameter o g ps mode e ∧ recorded_parameter role name o g ps mode)).
  - apply engine_only; [constructor|constructor| | done | done | |]; cbn [executorOps op_held op_grant op_revoke].
    + intros t. apply only_bind; [apply only_logged; by left|]. intros x. apply only_ret.
    + intros t ps wgo _. apply only_logged. by left.
    + intros t ps mode ([m [Hm Ht]] & Hne & Hps). apply only_logged. intros e. right. eexists _, _, _, _, _. split; [done|].
      split; [done|]. exists t. split_and!; [done|done| |intros p Hp; apply (Hps p Hp)].
      exists m. destruct Hm as [?|?%elem_of_nil]; done.
  - intros pre ev P [?|(o & g & ps & mode & e & -> & Hp)]; [by destruct ev|]. left. exists role, cluster, name. split; [carry|done].
Qed.

Lemma revokeSchemaPrivileges_runs tr db pg0 role cluster name :
  may_drop tr role cluster name →
  runs tr (revokeSchemaPrivileges name (lclient db pg0)) (λ _ tr', schemas_revoked tr' cluster name db).
Proof.
  intros Hd. unfold revokeSchemaPrivileges. eapply runs_call; [intros; by exists role, cluster|].
  intros [e|] tr1 P1 E1; [apply runs_ret; right; left; by eexists|].
  apply runs_logged; [intros; exists role, cluster; carry|]. intros e tr2 P2 E2. right; right. split; [carry|by eexists].
Qed.

Lemma recordedObjectAccessOf_runs tr cluster name :
  runs tr (recordedObjectAccessOf lr cluster name) (λ a tr', ∀ m, a = inl m → ∃ databases,
    EvListDatabases (k_Namespace cluster) (inl databases) ∈ tr' ∧
    m = recordedObjectAccessFrom databases (k_Name cluster) (k_UID cluster) name).
Proof.
  unfold recordedObjectAccessOf. call l tr1 P1 E1. apply runs_ret. destruct l as [databases|]; [|done]. intros m [= <-]. eauto.
Qed.

Lemma revokeAndDrop_runs tr pg0 role cluster name :
  may_drop tr role cluster name →
  runs tr (revokeAndDrop lr (lclient defaultDatabaseName pg0) cluster role name)
    (λ z tr', (∃ st, z.2 = set_status role st) ∧ (z.1 = inl 0%Z → EvDropRole defaultDatabaseName name Dropped ∈ tr')).
Proof.
  intros Hd. assert (role_Deleting role = true) as Hdel by apply Hd. unfold revokeAndDrop.
  eapply runs_bind; [by apply (revokeManagedParameterGrants_runs _ _ role cluster)|]. intros [[e|] st] tr1 P1 _; cbv zeta.
  { apply runs_ret. split; [by exists st|done]. }
  assert (∀ tr' (x : result Z), x ≠ inl 0%Z → runs tr' (mret (x, set_status role st)) (λ z tr', (∃ st, z.2 = set_status role st) ∧
    (z.1 = inl 0%Z → EvDropRole defaultDatabaseName name Dropped ∈ tr'))) as Hfail.
  { intros tr' x Hx. apply runs_ret. split; [by exists st|done]. }
  eapply runs_call; [intros; exists role, cluster; carry|]. intros [e|] tr2 P2 E2; [by apply Hfail|].
  call d tr3 P3 E3. destruct d as [dbs|e]; [|by apply Hfail].
  eapply runs_bind.
  { apply (for_databases_runs (λ db tr', schemas_revoked tr' cluster name db)); [exact _|]. intros db tr' pg1 P'.
    apply (revokeSchemaPrivileges_runs _ _ _ role). carry. }
  intros skipped tr4 P4 Hschemas. eapply runs_bind; [apply recordedObjectAccessOf_runs|].
  intros [m|e] tr5 P5 Hm; [|by apply Hfail]. destruct (Hm _ eq_refl) as (databases & E5 & ->).
  call entries tr6 P6 E6.
  eapply runs_bind; [apply (revokeRecordedObjectAccessFor_runs _ role cluster name entries); [carry|]|].
  { intros db rec Hin. exists databases, entries. split_and!; [carry|carry|done]. }
  intros objectSkipped tr7 P7 Haccess.
  assert (cleaned_up tr7 cluster name) as Hclean.
  { split_and!; [carry| |exists databases, entries; split_and!; [carry|carry|done]]. exists dbs. split; [carry|]. intros d Hin Hc.
    assert (schemas_revoked tr4 cluster name (dbr_Name d)) by (destruct (Hschemas d Hin Hc); [by left|done]). carry. }
  eapply runs_bind; [eapply (reassignAndDrop_runs _ _ _ role); [carry|exact Hclean|done|done]|].
  intros res tr8 P8 Hres. apply runs_ret. split; [by exists st|done].
Qed.

(** The result of a drop: the Role with its status changed, and why it is over. *)
Definition drop_post (role : Role) (cluster : PgCluster) (z : result Z * Role) (tr : list role_event) : Prop :=
  (∃ st, z.2 = set_status role st) ∧ (z.1 = inl 0%Z →
    EvDropRole defaultDatabaseName (rst_RoleName (role_Status role)) Dropped ∈ tr ∨ nothing_to_drop tr role cluster).

Lemma dropPostgresRole_runs tr cluster role :
  EvGetRole (inl (Some role)) ∈ tr → role_Deleting role = true → roleFinalizer ∈ role_Finalizers role →
  EvGetCluster (role_Namespace role) (rs_ClusterRef (role_Spec role)) (inl (Some cluster)) ∈ tr →
  runs tr (dropPostgresRole lr cluster role)
    (drop_post role cluster).
Proof.
  intros Hread Hdel Hfin Hcl. assert (role = set_status role (role_Status role)) as Hself by (by destruct role).
  unfold dropPostgresRole. eapply runs_bind; [apply newOperatorClient_runs|].
  intros [pg|e] tr1 P1 Hpg; [|apply runs_ret; split; [by eexists|done]]. destruct Hpg as [pg0 ->]. cbv zeta.
  set (name := rst_RoleName (role_Status role)).
  eapply runs_bind; [apply roleRecorded_runs|]. intros [recorded|e] tr2 P2 Hrec; [|apply runs_ret; split; [by eexists|done]].
  assert (∀ tr' : list role_event, nothing_to_drop tr' role cluster → runs tr' (mret (inl 0%Z, role)) (drop_post role cluster)) as Hnothing.
  { intros tr' Hn. apply runs_ret. split; [by eexists|by right]. }
  destruct recorded; [|rewrite orb_true_r; apply Hnothing; by left].
  case_bool_decide as Hne; [by destruct Hrec|]. simpl.
  case_bool_decide as Hres; [destruct Hres as [x Hres]; apply Hnothing; right; left; fold name; by rewrite Hres|].
  eapply runs_bind; [apply checkRoleName_runs|]. intros [e|] tr3 P3 Hn.
  { apply Hnothing. right. destruct Hn as [?|[?|?]]; auto. }
  destruct Hn as [Hr Hold]. call c tr4 P4 E4. destruct c as [[comment|]|e]; [|apply Hnothing; do 4 right; by left|apply runs_ret; split; [by eexists|done]].
  eapply runs_bind; [apply loadMarkerSigner_runs|]. intros s tr5 P5 Hs. cbv zeta.
  set (signer := match s with inl signer => signer | inr _ => _ end).
  assert (signer_of tr5 cluster signer ∨ signer = no_signer ∧ ∃ a, EvGetSecret (k_Namespace cluster) (markerKeySecretName cluster) a ∈ tr5 ∧
    ∀ s, a = inl (Some s) → (String.length (secret_value s secretKeyMarkerKey) < markerKeySize)%nat) as Hsg
    by (destruct s; [by left|by right]).
  assert (own_comment signer role comment → runs tr5 (revokeAndDrop lr (lclient defaultDatabaseName pg0) cluster role name)
    (drop_post role cluster)) as Hgo.
  { intros Hown. eapply runs_conseq; [apply revokeAndDrop_runs|intros z tr' _ [? ?]; split; auto].
    split_and!; [carry|done|done|carry|carry|done|carry|]. exists comment, signer. split_and!; [carry| |done].
    destruct Hsg as [?|[? _]]; auto. }
  unfold decideOwnership. simpl. destruct (verify signer _ _ _) eqn:Ev; [apply Hgo; by left|].
  destruct (refreshableComment signer _ _ _) eqn:Er; [apply Hgo; by right|].
  apply Hnothing. do 5 right. exists comment, signer. split_and!; [carry|done|]. intros [?|?]; congruence.
Qed.

Lemma removeFinalizer_runs tr role : released tr role → runs tr (removeFinalizer lr role) (λ _ _, True).
Proof.
  intros Hr. unfold removeFinalizer. eapply runs_call; [by intros x _ _|]. intros p tr1 P1 _. by apply runs_ret.
Qed.

Lemma reconcileDeletion_runs tr role :
  EvGetRole (inl (Some role)) ∈ tr → role_Deleting role = true → runs tr (reconcileDeletion lr role) (λ _ _, True).
Proof.
  intros Hread Hdel. unfold reconcileDeletion. case_bool_decide as Hfin; simpl; [|by apply runs_ret].
  call c tr1 P1 E1. destruct c as [[cluster|]|e]; [| |by apply runs_ret].
  - eapply runs_bind; [apply dropPostgresRole_runs; [carry|done|done|carry]|]. intros [[after|e] role'] tr2 P2 [[st Hst] Hz]; [|by apply runs_ret].
    simpl in Hst, Hz. subst role'. case_decide as Ha; [by apply runs_ret|].
    eapply runs_bind; [|intros e tr3 P3 _; by apply runs_ret]. apply removeFinalizer_runs.
    exists role. split_and!; [carry|done|done|]. right. exists cluster. split; [carry|]. apply Hz. f_equal. lia.
  - eapply runs_bind; [|intros e tr3 P3 _; by apply runs_ret]. apply removeFinalizer_runs.
    exists role. split_and!; [carry|done|by destruct role|by left].
Qed.

(** ** The whole pass *)

Theorem RoleReconcile_runs b : runs [] (RoleReconcile lr tries b) (λ _ _, True).
Proof.
  unfold RoleReconcile. call g tr1 P1 E1. destruct g as [[role|]|e]; [|by apply runs_ret..].
  destruct (role_Deleting role) eqn:Ed.
  - eapply runs_bind; [by apply reconcileDeletion_runs|]. intros [a e] tr2 P2 _. by apply runs_ret.
  - cbv zeta. eapply runs_bind; [apply checkRoleName_runs|]. intros [e|] tr2 P2 Hn; [by apply fail_runs|]. destruct Hn as [Hres Hold].
    call c tr3 P3 E3. destruct c as [[cluster|]|e]; [|by apply fail_runs..].
    destruct (k_Ready cluster) eqn:Er; simpl; [|by apply runs_ret].
    apply reconcileOnCluster_runs; [carry|done|done|carry|carry|done].
Qed.
End pass.
