(* ===== verification/RoleTheorems.v ===== *)
(** * The Role reconciler: theorems

    What a pass may do to PostgreSQL, to the credentials Secret and to the Role, for
    every behaviour of the servers; the election between Roles of one name; the
    delays; and two runs that show where the code does not keep what it intends. *)

From S2P Require Import Prelude GoStrings GoStrconv GoUrl Privileges Parameters RoleSql ApiTypes RolePolicy Objects.
From S2P Require Import Settings Memberships GrantEngine GrantTrace GranteePolicy Grants ObjectGrants Password Connection.
From S2P Require Import Trace RoleCleanup RoleReconcile RoleTrace RoleSafety.

(** ** What the Databases record *)

Lemma foldl_invariant {A B} (Q : B → Prop) (f : B → A → B) l b :
  Q b → (∀ b x, x ∈ l → Q b → Q (f b x)) → Q (foldl f b l).
Proof.
  revert b. induction l as [|x l IH]; intros b Hb Hf; simpl; [done|]. apply IH; [apply Hf; [by left|done]|].
  intros b' y Hy. apply Hf. by right.
Qed.

Section recorded.
Context (databases : list Database) (cluster uid role : string).

Definition of_database (db : string) (d : Database) : Prop :=
  d ∈ databases ∧ ds_ClusterRef (db_Spec d) = cluster ∧ dst_ClusterUID (db_Status d) = uid ∧ dst_DatabaseName (db_Status d) = db.

(** A ledger entry of a Database for this PostgreSQL database and role. *)
Definition object_entry (db : string) (g : ManagedObjectGrant) : Prop :=
  mog_Role g = role ∧ validLedgerSchema (mog_Schema g) = true ∧
  ∃ d, of_database db d ∧ g ∈ dst_ManagedObjectGrants (db_Status d).

Definition default_entry (db : string) (x : ManagedDefaultPrivilege) : Prop :=
  (mdp_Role x = role ∨ mdp_ForRole x = role) ∧ validLedgerSchema (mdp_Schema x) = true ∧
  ∃ d, of_database db d ∧ x ∈ dst_ManagedDefaultPrivileges (db_Status d).

(** Default privileges to the role, recorded or declared. *)
Definition created_entry (db : string) (c : createdObjectsGrant) : Prop :=
  validLedgerSchema (cg_schema c) = true ∧ cg_forRole c ≠ "" ∧ ∃ d, of_database db d ∧
  ((∃ x, x ∈ dst_ManagedDefaultPrivileges (db_Status d) ∧ mdp_Role x = role ∧ mdp_Schema x = cg_schema c ∧
      mdp_ForRole x = cg_forRole c ∧ defaultKindOf (mdp_Kind x) = Some (cg_kind c) ∧
      ∀ p, p ∈ cg_privileges c → p ∈ mdp_Privileges x ∨ p ∈ mdp_GrantOptions x) ∨
   (∃ s x, s ∈ ds_Schemas (db_Spec d) ∧ x ∈ ss_DefaultPrivileges s ∧ ss_Name s = cg_schema c ∧
      CanonicalGrantee (dps_Role x) = role ∧ dps_ForRole x = cg_forRole c ∧ defaultKindOf (dps_Kind x) = Some (cg_kind c) ∧
      normalizeObjectPrivileges (dki_object (cg_kind c)) (dps_Privileges x) = inl (cg_privileges c))).

Definition access_entries (db : string) (a : recordedObjectAccess) : Prop :=
  (∀ g, g ∈ ra_objects a → object_entry db g) ∧ (∀ x, x ∈ ra_defaults a → default_entry db x) ∧
  (∀ c, c ∈ ra_created a → created_entry db c).

Lemma addCreated_entries db st schema forRole kind privs :
  access_entries db st.1 →
  (validLedgerSchema schema = true → forRole ≠ "" →
    created_entry db {| cg_schema := schema; cg_forRole := forRole; cg_kind := kind; cg_privileges := privs |}) →
  access_entries db (addCreated st schema forRole kind privs).1.
Proof.
  intros (H1 & H2 & H3) Hc. unfold addCreated. destruct st as [a seen]. simpl in *.
  destruct (validLedgerSchema schema); simpl; [|by split_and!]. destruct (bool_decide (forRole = "")) eqn:Ef; simpl; [by split_and!|].
  apply bool_decide_eq_false in Ef.
  destruct (_ || _); simpl; [by split_and!|]. split_and!; [done|done|].
  intros c [Hin| ->%list_elem_of_singleton]%elem_of_app; auto.
Qed.

Lemma add_default_entries db d st x :
  of_database db d → x ∈ dst_ManagedDefaultPrivileges (db_Status d) → access_entries db st.1 →
  access_entries db (add_default role st x).1.
Proof.
  intros Hd Hx Ha. unfold add_default. destruct (_ || _) eqn:Eb; [done|].
  apply orb_false_iff in Eb as [Er Hv%negb_false_iff].
  assert (mdp_Role x = role ∨ mdp_ForRole x = role) as Hr.
  { apply andb_false_iff in Er as [Er|Er]; apply negb_false_iff, bool_decide_eq_true in Er; auto. }
  assert (access_entries db {| ra_objects := ra_objects st.1; ra_defaults := ra_defaults st.1 ++ [x]; ra_created := ra_created st.1 |}) as Ha'.
  { destruct Ha as (H1 & H2 & H3). split_and!; simpl; [done| |done].
    intros y [Hy| ->%list_elem_of_singleton]%elem_of_app; [auto|]. split_and!; [done|done|eauto]. }
  destruct (defaultKindOf _) as [ki|] eqn:Ek; [|done]. case_decide as Hrole; [|done].
  apply addCreated_entries; [done|]. intros Hs Hf. split_and!; [done|done|]. exists d. split; [done|]. left. exists x.
  split_and!; try done. intros p Hp. by apply elem_of_str_union in Hp.
Qed.

Lemma add_declared_entries db d s st x :
  of_database db d → s ∈ ds_Schemas (db_Spec d) → x ∈ ss_DefaultPrivileges s → access_entries db st.1 →
  access_entries db (add_declared role (ss_Name s) st x).1.
Proof.
  intros Hd Hs Hx Ha. unfold add_declared. destruct (defaultKindOf _) as [ki|] eqn:Ek; [|done]. case_decide; [|done].
  destruct (normalizeObjectPrivileges _ _) as [privs|] eqn:En; [|done].
  apply addCreated_entries; [done|]. intros Hv Hf. split_and!; [done|done|]. exists d. split; [done|]. right. exists s, x. by split_and!.
Qed.

Lemma add_database_entries db d a : of_database db d → access_entries db a → access_entries db (add_database role d a).
Proof.
  intros Hd Ha. unfold add_database.
  apply (foldl_invariant (λ st : recordedObjectAccess * gset string, access_entries db st.1)).
  - apply (foldl_invariant (λ st : recordedObjectAccess * gset string, access_entries db st.1));
      [|intros; by eapply add_default_entries]. simpl.
    apply (foldl_invariant (access_entries db)); [done|]. intros b g Hg (H1 & H2 & H3). unfold add_object_grant.
    destruct (_ && _) eqn:Eb; [|by split_and!]. apply andb_true_iff in Eb as [Er%bool_decide_eq_true Hv].
    split_and!; simpl; [|done|done]. intros y [Hy| ->%list_elem_of_singleton]%elem_of_app; [auto|]. split_and!; [done|done|eauto].
  - intros st s Hs Hst. apply (foldl_invariant (λ st : recordedObjectAccess * gset string, access_entries db st.1)); [done|].
    intros st' x Hx. by apply (add_declared_entries _ d).
Qed.

Lemma recordedObjectAccessFrom_entries db a :
  recordedObjectAccessFrom databases cluster uid role !! db = Some a → access_entries db a.
Proof.
  unfold recordedObjectAccessFrom. revert db a.
  apply (foldl_invariant (λ m : gmap string recordedObjectAccess, ∀ db a, m !! db = Some a → access_entries db a)); [done|].
  intros m d Hd Hm db a. unfold recorded_step. case_decide as Hskip; [apply Hm|].
  assert (access_entries (dst_DatabaseName (db_Status d)) (add_database role d (default no_access (m !! dst_DatabaseName (db_Status d))))) as Hnew.
  { apply add_database_entries; [split_and!; [done| | |done]|].
    - destruct (decide (ds_ClusterRef (db_Spec d) = cluster)); tauto.
    - destruct (decide (dst_ClusterUID (db_Status d) = uid)); tauto.
    - destruct (m !! _) as [a'|] eqn:E; simpl; [by apply Hm|]. split_and!; simpl; by intros ? ?%elem_of_nil. }
  set (a' := add_database _ _ _) in *.
  assert (∀ m', (m' = m ∨ m' = <[dst_DatabaseName (db_Status d) := a']> m) → m' !! db = Some a → access_entries db a) as H.
  { intros m' [->| ->]; [apply Hm|]. intros [[<- <-]|[? ?]]%lookup_insert_Some; [done|by apply Hm]. }
  intros Hl. eapply H; [|exact Hl]. destruct a' as [[|] [|] [|]]; first [by left|by right].
Qed.
End recorded.

(** ** Properties of a pass *)

Section properties.
Context `{UnicodePrint} `{Digests} `{PasswordDigest} `{GroupVersions} `{ErrorText} `{ConditionSetter}.

(** The justification of a call of a pass. *)
Lemma pass_call {W} (r : roleOps W) tries b w res w' tr pre ev post :
  RoleReconcile (logged_ops r) tries b (w, []) = (res, (w', tr)) → tr = pre ++ ev :: post → role_call_ok pre ev.
Proof. intros Hrun. eapply runs_justified; [apply RoleReconcile_runs|exact Hrun]. Qed.

(** C12: a pass creates or alters only the PostgreSQL role that is its own. The name is
    the one the Role resolves to, not reserved, and no older Role of the Cluster
    resolves to it. The role's comment was read before: either there was no such role,
    and the statement may only create one; or the Role's status records that very role
    on this very Cluster and the comment is the Role's signed marker or one only a
    recorded role may have; or the Cluster lets the role be adopted and its
    memberships reach nothing the policy refuses. What is altered then carries the
    Role's marker, and gets a privileged attribute only if the policy allows it. *)
Theorem role_alter_safe {W} (r : roleOps W) tries b w res w' tr pre db name opts e post :
  RoleReconcile (logged_ops r) tries b (w, []) = (res, (w', tr)) → tr = pre ++ EvCreateRole db name opts e :: post →
  db = defaultDatabaseName ∧ reservedRoleName name = None ∧
  (∃ read, EvGetRole (inl (Some read)) ∈ pre ∧ role_Deleting read = false ∧ name = PostgresName read ∧ no_older pre read name) ∧
  ∃ role cluster signer comment, answered pre role ∧ (∃ ns n, EvGetCluster ns n (inl (Some cluster)) ∈ pre) ∧
    k_Ready cluster = true ∧ signer_of pre cluster signer ∧ attributes_within (k_RolePolicy cluster) opts ∧
    EvRoleComment defaultDatabaseName name (inl comment) ∈ pre ∧
    match comment with
    | None => ro_CreateOnly opts = true ∧ ro_Comment opts ∈ [""; marker signer markerKindRole (role_Name role)]
    | Some c =>
        (ro_Comment opts = marker signer markerKindRole (role_Name role) ∨
         ro_Comment opts = "" ∧ c = marker signer markerKindRole (role_Name role)) ∧
        (recorded_here pre role cluster name ∧ own_comment signer role c ∨
         AllowsAdoptingRole (k_RolePolicy cluster) name = true ∧
         ∃ closure roles, EvClosure defaultDatabaseName name (inl closure) ∈ pre ∧
           EvListRoles (role_Namespace role) (inl roles) ∈ pre ∧
           adoptionProblem name closure (k_RolePolicy cluster)
             (managedRolesOf (listClusterRoles (rs_ClusterRef (role_Spec role)) roles) cluster signer) = None)
    end.
Proof.
  intros Hrun Heq.
  destruct (pass_call _ _ _ _ _ _ _ _ _ _ Hrun Heq) as
    [-> (read & cluster & role & Hread & Hdel & Hname & Hres & Hold & Hcl & Hready & Hans & Hmay & Hattr)].
  destruct Hmay as (signer & comment & Hs & Hc & Hmk & Hcase). split_and!; [done|done|by exists read|].
  exists role, cluster, signer, comment. split_and!; [done|by eexists _, _|done..|].
  destruct Hcase as [[-> Hco]|(c & -> & Hc' & Hown)].
  - split; [done|]. destruct Hmk as [-> | ->]; set_solver.
  - split; [|done]. destruct Hmk as [Hmk|Hmk]; [right; auto|by left].
Qed.


(** C14: a pass writes a credentials Secret only after PostgreSQL. Every write of it
    follows a CREATE or ALTER ROLE that PostgreSQL accepted in that pass with the same
    password, and so does every status that says Ready. The statement carried the
    password, unless the Secret, as the pass had read it for this Role, records that
    very password as applied already; then the statement left it out. What the Secret
    records is believed, not compared with PostgreSQL: after a rotation that
    PostgreSQL took and whose Secret was not written the record is out of date
    ([withdrawn_rotation_diverges]). *)
Theorem role_secret_safe {W} (r : roleOps W) tries b w res w' tr pre ev post :
  RoleReconcile (logged_ops r) tries b (w, []) = (res, (w', tr)) → tr = pre ++ ev :: post →
  (∀ s a, ev = EvCreateSecret s a → accepted_password pre (secret_value s SecretKeyPassword)) ∧
  (∀ s u, ev = EvUpdateSecret s u → accepted_password pre (secret_value s SecretKeyPassword)) ∧
  (∀ role e, ev = EvSaveStatus role e → rst_Ready (role_Status role) = true → role_Deleting role = false →
    ∃ password, accepted_password pre password).
Proof.
  intros Hrun Heq. pose proof (pass_call _ _ _ _ _ _ _ _ _ _ Hrun Heq) as Hok. split_and!; intros; subst ev; simpl in Hok; try done.
  destruct Hok as [Hd|?]; [done| |done]. congruence.
Qed.

End properties.

(** ** The election between Roles of one name *)

Lemma ltb_leb a b : String.ltb a b = negb (String.leb b a).
Proof.
  unfold String.ltb, String.leb. rewrite (String.compare_antisym b a). by destruct (String.compare a b).
Qed.

Lemma not_after_iff a b : not_after a b ↔
  (role_CreationTimestamp a < role_CreationTimestamp b)%Z ∨
  role_CreationTimestamp a = role_CreationTimestamp b ∧ String.le (role_Name a) (role_Name b).
Proof.
  unfold not_after, createdBefore, String.le. rewrite Is_true_true. case_decide as Ht.
  - rewrite ltb_leb, negb_false_iff, Ht. split; [by right|]. intros [?|[_ ?]]; [lia|done].
  - rewrite bool_decide_eq_false. split; [lia|]. intros [?|[? _]]; lia.
Qed.

#[export] Instance not_after_trans : Transitive not_after.
Proof.
  intros a b c. rewrite !not_after_iff. intros [?|[? Hab]] [?|[? Hbc]]; [left; lia..|]. right. split; [lia|by etrans].
Qed.

#[export] Instance not_after_total : Total not_after.
Proof.
  intros a b. rewrite !not_after_iff. destruct (Z.lt_total (role_CreationTimestamp a) (role_CreationTimestamp b)) as [?|[?|?]]; auto.
  destruct (total String.le (role_Name a) (role_Name b)); auto.
Qed.

Lemma createdBefore_total a b : role_Name a ≠ role_Name b → createdBefore a b = false → createdBefore b a = true.
Proof.
  intros Hn Hab. destruct (createdBefore b a) eqn:Hba; [done|]. exfalso. apply Hn.
  apply (not_after_iff b a) in Hab. apply (not_after_iff a b) in Hba.
  destruct Hab as [?|[? H1]], Hba as [?|[? H2]]; [lia..|]. by apply (anti_symm String.le).
Qed.

Lemma duplicateOf_None role name roles :
  duplicateOf role name roles = None ↔
  ∀ o, o ∈ roles → role_UID o ≠ role_UID role → PostgresName o = name → createdBefore o role = false.
Proof.
  unfold duplicateOf. split.
  - intros Hn o Ho Hu Hp. destruct (createdBefore o role) eqn:E; [|done]. by destruct (head_filter_None _ _ o Hn Ho).
  - intros Hall. destruct (head _) as [o|] eqn:E; [|done]. apply head_filter_Some in E as (Ho & Hu & Hp & Hb).
    rewrite (Hall o Ho Hu Hp) in Hb. done.
Qed.

Lemma oldest_exists (l : list Role) : l ≠ [] → ∃ w, w ∈ l ∧ ∀ o, o ∈ l → not_after w o.
Proof.
  induction l as [|a l IH]; [done|]. intros _. destruct l as [|b l].
  { exists a. split; [by left|]. intros o ->%list_elem_of_singleton. apply not_after_iff. right. split; [done|reflexivity]. }
  destruct IH as (w & Hw & Hmin); [done|]. destruct (total not_after a w) as [Ha|Ha].
  - exists a. split; [by left|]. intros o [->|Ho]%elem_of_cons; [apply not_after_iff; right; split; [done|reflexivity]|].
    etrans; [exact Ha|by apply Hmin].
  - exists w. split; [by right|]. intros o [->|Ho]%elem_of_cons; [done|by apply Hmin].
Qed.

(** Of the Roles of a Cluster that resolve to one PostgreSQL name exactly one, the
    oldest, passes the name check, whatever order the API server lists them in. *)
Theorem one_role_per_name c roles name :
  NoDup (role_Name <$> roles) → NoDup (role_UID <$> roles) →
  (∃ o, o ∈ roles ∧ rs_ClusterRef (role_Spec o) = c ∧ PostgresName o = name) →
  ∃ w, w ∈ roles ∧ rs_ClusterRef (role_Spec w) = c ∧ PostgresName w = name ∧
    ∀ o, o ∈ roles → rs_ClusterRef (role_Spec o) = c → PostgresName o = name →
      (duplicateOf o name (listClusterRoles c roles) = None ↔ o = w) ∧
      (o ≠ w → createdBefore w o = true).
Proof.
  intros Hnames Huids (o0 & Ho0 & Hc0 & Hn0).
  destruct (oldest_exists (filter (λ o, PostgresName o = name) (listClusterRoles c roles))) as (w & Hw & Hmin).
  { intros Hnil. assert (o0 ∈ filter (λ o, PostgresName o = name) (listClusterRoles c roles)) as Hin
      by (apply list_elem_of_filter; split; [done|by apply elem_of_listClusterRoles]). rewrite Hnil in Hin. by apply elem_of_nil in Hin. }
  apply list_elem_of_filter in Hw as [Hwn [Hwin Hwc]%elem_of_listClusterRoles]. exists w. split_and!; try done.
  intros o Ho Hoc Hon.
  assert (not_after w o) as Hwo by (apply Hmin, list_elem_of_filter; split; [done|by apply elem_of_listClusterRoles]).
  assert (∀ f : Role → string, NoDup (f <$> roles) → f o = f w → o = w) as Hinj.
  { intros f Hd Hf. apply list_elem_of_lookup in Ho as [i Hi]. apply list_elem_of_lookup in Hwin as [j Hj].
    assert (i = j) as <-; [|congruence]. eapply NoDup_lookup; [exact Hd|by rewrite list_lookup_fmap, Hi|].
    by rewrite list_lookup_fmap, Hj, Hf. }
  assert (o ≠ w → createdBefore w o = true) as Hbefore.
  { intros Hne. apply createdBefore_total; [|done]. intros Heq. by apply Hne, (Hinj role_Name). }
  split; [|done]. rewrite duplicateOf_None. split.
  - intros Hall. destruct (decide (role_UID w = role_UID o)) as [Hu|Hu]; [by apply (Hinj role_UID)|].
    specialize (Hall w). rewrite Hall in Hbefore; [|by apply elem_of_listClusterRoles|done..].
    destruct (decide (role_Name o = role_Name w)) as [Heq|Hne]; [by apply (Hinj role_Name)|]. discriminate Hbefore. congruence.
  - intros -> o' [Ho' Hoc']%elem_of_listClusterRoles Hu Hp. apply Hmin, list_elem_of_filter. split; [done|by apply elem_of_listClusterRoles].
Qed.

(** ** The credentials Secret *)

Lemma set_value_id k v m (c : bool) : default "" (m !! k) = v → set_value k v (m, c) = (m, c).
Proof. intros H. unfold set_value. simpl. by rewrite decide_True. Qed.

Lemma set_value_same k v (m m' : gmap string string) (c c' : bool) : set_value k v (m, c) = (m', c') → c' = false → m' = m ∧ c = false.
Proof. unfold set_value. simpl. case_decide; intros [= <- <-]; done. Qed.

Lemma set_value_other k v st k' : k ≠ k' → (set_value k v st).1 !! k' = st.1 !! k'.
Proof. intros Hk. unfold set_value. case_decide; [done|]. simpl. by rewrite lookup_insert_ne. Qed.

(** Setting the keys of a map: all read as wanted, and nothing is reported when they did before. *)
Lemma set_values want (m : gmap string string) (c : bool) :
  let r := map_fold set_value (m, c) want in
  (∀ k v, want !! k = Some v → default "" (r.1 !! k) = v) ∧
  (r.2 = false → r.1 = m ∧ c = false) ∧
  ((∀ k v, want !! k = Some v → default "" (m !! k) = v) → r = (m, c)).
Proof.
  apply (map_fold_weak_ind (λ (r : gmap string string * bool) want,
    (∀ k v, want !! k = Some v → default "" (r.1 !! k) = v) ∧ (r.2 = false → r.1 = m ∧ c = false) ∧
    ((∀ k v, want !! k = Some v → default "" (m !! k) = v) → r = (m, c)))); [done|].
  intros i x w r Hi (H1 & H2 & H3). split_and!.
  - intros k v. destruct (decide (i = k)) as [->|Hne].
    + rewrite lookup_insert_eq. intros [= <-]. apply set_value_lookup.
    + rewrite lookup_insert_ne by done. rewrite set_value_other by done. apply H1.
  - destruct r as [m' c']. destruct (set_value i x (m', c')) as [m2 c2] eqn:E. simpl. intros Hc.
    destruct (set_value_same _ _ _ _ _ _ E Hc) as [-> ->]. by apply H2.
  - intros Hall. rewrite H3; [|intros k v Hk; apply Hall; rewrite lookup_insert_ne; [done|congruence]].
    apply set_value_id, Hall. by rewrite lookup_insert_eq.
Qed.

(** The connection keys leave the credentials themselves alone. *)
Lemma connected_password d host port db t : connected d host port db t !! SecretKeyPassword = d !! SecretKeyPassword.
Proof. apply connected_other. vm_compute. set_solver. Qed.

Lemma connected_username d host port db t : connected d host port db t !! SecretKeyUsername = d !! SecretKeyUsername.
Proof. apply connected_other. vm_compute. set_solver. Qed.

Lemma connected_uri d host port db t :
  ∃ uri parts, connected d host port db t !! SecretKeyURI = Some uri ∧ read_uri uri = Some parts ∧
    up_user parts = default "" (d !! SecretKeyUsername) ∧ up_password parts = default "" (d !! SecretKeyPassword) ∧
    up_database parts = db.
Proof.
  eexists _, _. split_and!; [apply connected_wanted; by rewrite wantedConnection_lookup|apply read_connectionURI|done..].
Qed.

Lemma applyConnectionInfo_again d host port db t :
  applyConnectionInfo (connected d host port db t) host port db t = (connected d host port db t, false).
Proof.
  pose proof (applyConnectionInfo_connected (connected d host port db t) host port db t) as [H1 H2].
  rewrite connected_idemp in H1, H2.
  destruct (applyConnectionInfo _ _ _ _ _) as [d2 [|]]; simpl in H1, H2; [by destruct (proj1 H2 eq_refl)|by rewrite H1].
Qed.

(** The credentials Secret converges. The Secret of a Role then holds the password
    and its fingerprint, the Role's labels and a uri that reads back as the Secret's
    user and this password; its username and its identity are kept; the next pass
    finds the password applied, and converging again changes nothing; a Secret that
    already says all this is reported unchanged. *)
Theorem convergeRoleSecret_exact `{PasswordDigest} s role pw host port t :
  let '(s', changed) := convergeRoleSecret s role pw host port t in
  secret_value s' SecretKeyPassword = pw ∧
  secret_value s' SecretKeyUsername = secret_value s SecretKeyUsername ∧
  default "" (sec_Annotations s' !! AnnotationPasswordFingerprint) = passwordFingerprint role pw ∧
  (∀ k v, roleSecretLabels role !! k = Some v → default "" (sec_Labels s' !! k) = v) ∧
  (∃ uri parts, sec_Data s' !! SecretKeyURI = Some uri ∧ read_uri uri = Some parts ∧
    up_user parts = secret_value s SecretKeyUsername ∧ up_password parts = pw ∧ up_database parts = defaultDatabaseName) ∧
  (pw ≠ "" → passwordFingerprint role pw ≠ "" → passwordApplied role (Some s') pw = true) ∧
  sec_Name s' = sec_Name s ∧ sec_ControllerUID s' = sec_ControllerUID s ∧
  (changed = false → s' = s) ∧
  convergeRoleSecret s' role pw host port t = (s', false).
Proof.
  unfold convergeRoleSecret.
  pose proof (set_value_lookup SecretKeyPassword pw (sec_Data s, false)) as Hd.
  pose proof (set_value_other SecretKeyPassword pw (sec_Data s, false) SecretKeyUsername ltac:(done)) as Hu.
  destruct (set_value SecretKeyPassword pw _) as [d c1] eqn:E1. simpl in Hd, Hu.
  pose proof (set_value_lookup AnnotationPasswordFingerprint (passwordFingerprint role pw) (sec_Annotations s, c1)) as Ha.
  destruct (set_value AnnotationPasswordFingerprint _ _) as [ann c2] eqn:E2. simpl in Ha.
  pose proof (set_values (roleSecretLabels role) (sec_Labels s) c2) as Hl.
  destruct (map_fold _ _ _) as [labels c3] eqn:E3. simpl in Hl. destruct Hl as (Hl1 & Hl2 & _).
  pose proof (applyConnectionInfo_connected d host port defaultDatabaseName t) as [Hc1 Hc2].
  destruct (applyConnectionInfo d _ _ _ _) as [data' conn] eqn:E4. simpl in Hc1, Hc2. subst data'.
  pose proof (connected_password d host port defaultDatabaseName t) as Hpw.
  pose proof (connected_username d host port defaultDatabaseName t) as Hun.
  pose proof (connected_uri d host port defaultDatabaseName t) as (uri & parts & Huri & Hparts & Hup).
  pose proof (applyConnectionInfo_again d host port defaultDatabaseName t) as Hagain.
  clear E4. revert Hc2 Hpw Hun Huri Hagain. generalize (connected d host port defaultDatabaseName t).
  intros data' Hc2 Hpw Hun Huri Hagain.
  unfold secret_value. cbn [sec_Data set_data sec_Annotations sec_Labels sec_Name sec_ControllerUID]. rewrite Hpw, Hun, Hd, Hu.
  split_and!; [reflexivity|reflexivity|exact Ha|exact Hl1| | |reflexivity|reflexivity| |].
  - exists uri, parts. rewrite <-Hu, <-Hd. unfold secret_value in *. split_and!; [exact Huri|exact Hparts|apply Hup..].
  - intros Hne Hfp. unfold passwordApplied. rewrite decide_False by exact Hne. cbn [sec_Annotations set_data].
    destruct (ann !! AnnotationPasswordFingerprint) as [fp|]; cbn [default from_option id] in Ha;
      [exact (bool_decide_eq_true_2 _ Ha)|exact (False_ind _ (Hfp (eq_sym Ha)))].
  - intros [Hc3 Hconn]%orb_false_iff. destruct (Hl2 Hc3) as [-> ->].
    destruct (set_value_same _ _ _ _ _ _ E2 eq_refl) as [-> ->]. destruct (set_value_same _ _ _ _ _ _ E1 eq_refl) as [-> _].
    assert (data' = sec_Data s) as ->; [|by destruct s].
    destruct (decide (data' = sec_Data s)) as [|Hne]; [done|]. apply Hc2 in Hne. congruence.
  - rewrite !set_value_id by (simpl; rewrite ?Hpw; done).
    destruct (set_values (roleSecretLabels role) labels false) as (_ & _ & ->); [|done].
    by rewrite Hagain.
Qed.

(** ** The delays *)

(** A Role that waits for a database is retried after 30 seconds at first, twice as
    long after each attempt up to 5 minutes, with at most a fifth of jitter on top; no
    attempt overflows. *)
Theorem backoffDelay_bounds attempt jitter :
  (0 ≤ attempt)%Z → (∀ d, (0 ≤ d)%Z → (0 ≤ jitter d ≤ d / 5)%Z) →
  let d := ((pendingSettingsMinRequeue * 2 ^ attempt) `min` pendingSettingsMaxRequeue)%Z in
  (d ≤ backoffDelay attempt jitter ≤ d + d / 5)%Z ∧
  (30 * second ≤ backoffDelay attempt jitter ≤ 360 * second)%Z ∧
  backoffDelay attempt (λ _, 0%Z) = d ∧
  ((attempt < 16)%Z → (Z.shiftl pendingSettingsMinRequeue attempt < 2 ^ 63)%Z).
Proof.
  intros Ha Hj d.
  assert (30 * second ≤ pendingSettingsMinRequeue * 2 ^ attempt)%Z as Hge.
  { assert (1 ≤ 2 ^ attempt)%Z as Hp by (apply (Z.pow_le_mono_r 2 0); lia). unfold pendingSettingsMinRequeue, second. lia. }
  assert ((if bool_decide (attempt < 16)%Z then (Z.shiftl pendingSettingsMinRequeue attempt) `min` pendingSettingsMaxRequeue
           else pendingSettingsMaxRequeue)%Z = d) as Hd.
  { unfold d. case_bool_decide as Hlt; [by rewrite Z.shiftl_mul_pow2|].
    assert (2 ^ 16 ≤ 2 ^ attempt)%Z as Hp by (apply Z.pow_le_mono_r; lia).
    unfold pendingSettingsMinRequeue, pendingSettingsMaxRequeue, second. lia. }
  assert (30 * second ≤ d ≤ 300 * second)%Z as Hb.
  { unfold d, pendingSettingsMaxRequeue. split; [apply Z.min_glb; [done|unfold second; lia]|lia]. }
  assert (0 ≤ jitter d ≤ d / 5)%Z as Hjd by (apply Hj; unfold second in Hb; lia).
  assert (d / 5 ≤ 60 * second)%Z as H5 by (apply Z.div_le_upper_bound; [lia|unfold second in *; lia]).
  unfold backoffDelay. rewrite Hd. split_and!; try lia.
  intros Hlt. rewrite Z.shiftl_mul_pow2 by done. assert (2 ^ attempt ≤ 2 ^ 15)%Z as Hp by (apply Z.pow_le_mono_r; lia).
  unfold pendingSettingsMinRequeue, second. lia.
Qed.

Lemma backoffDelay_bounds_witness :
  (∀ d, (0 ≤ d)%Z → (0 ≤ d / 10 ≤ d / 5)%Z) ∧ (backoffDelay 3 (λ d, d / 10) ≤ 360 * second)%Z.
Proof.
  assert (∀ d, (0 ≤ d)%Z → (0 ≤ d / 10 ≤ d / 5)%Z) as Hj.
  { intros d Hd. split; [by apply Z.div_pos|]. apply Z.div_le_compat_l; lia. }
  split; [done|]. by destruct (backoffDelay_bounds 3 (λ d, d / 10)%Z ltac:(lia) Hj) as (_ & [_ ?] & _).
Defined.

(** ** Runs on a small API server and PostgreSQL *)

Module ToyRole.
#[export] Instance print : UnicodePrint := λ _, true.
#[export] Instance digests : Digests := { hash_id := λ _, "id"; hmac_of := λ _ s, "mac of " +:+ s }.
#[export] Instance password_digest : PasswordDigest := λ s, "hash of " +:+ s.
#[export] Instance groups : GroupVersions := λ s, Some s.
#[export] Instance text : ErrorText := λ _, "an error".
#[export] Instance setter : ConditionSetter := λ l c, c :: filter (λ x, cond_Type x ≠ cond_Type c) l.

(** The Role, the Secrets, PostgreSQL's role (password and comment) and its objects;
    whether Secrets can be written and Roles listed. *)
Record world := {
  w_role : Role;
  w_secrets : gmap string Secret;
  w_pg : option (string * string);
  w_databases : list Database;
  w_secrets_writable : bool;
  w_roles_listed : bool;
  w_random : string }.

Definition set_pg (w : world) (pg : option (string * string)) : world :=
  {| w_role := w_role w; w_secrets := w_secrets w; w_pg := pg; w_databases := w_databases w;
     w_secrets_writable := w_secrets_writable w; w_roles_listed := w_roles_listed w; w_random := w_random w |}.
Definition put_role (w : world) (role : Role) : world :=
  {| w_role := role; w_secrets := w_secrets w; w_pg := w_pg w; w_databases := w_databases w;
     w_secrets_writable := w_secrets_writable w; w_roles_listed := w_roles_listed w; w_random := w_random w |}.
Definition put_secret (w : world) (s : Secret) : world :=
  {| w_role := w_role w; w_secrets := <[sec_Name s := s]> (w_secrets w); w_pg := w_pg w; w_databases := w_databases w;
     w_secrets_writable := w_secrets_writable w; w_roles_listed := w_roles_listed w; w_random := w_random w |}.

Definition cluster : PgCluster :=
  {| k_Name := "c"; k_Namespace := "ns"; k_UID := "cluster-uid"; k_Port := 5432; k_TLS := None; k_RolePolicy := None;
     k_Ready := true; k_SecretName := "op"; k_TLSReady := false; k_TLSSecretHash := "" |}.

Definition spec : RoleSpec :=
  {| rs_ClusterRef := "c"; rs_RoleName := "app"; rs_Login := None; rs_CreateDB := false; rs_CreateRole := false;
     rs_Inherit := None; rs_Replication := false; rs_BypassRLS := false; rs_ConnectionLimit := None;
     rs_MemberOf := []; rs_Memberships := []; rs_RevokeRemovedMemberships := None; rs_PasswordSecretRef := None;
     rs_PasswordRotation := None; rs_ParameterGrants := []; rs_ReassignOwnedTo := None; rs_Settings := ∅; rs_DatabaseSettings := [] |}.

Definition new_status : RoleStatus :=
  {| rst_Conditions := []; rst_Ready := false; rst_RoleName := ""; rst_ClusterUID := ""; rst_SecretName := "";
     rst_PasswordRotatedAt := None; rst_PasswordRotationRequest := ""; rst_PasswordHash := "";
     rst_ManagedMemberships := []; rst_ManagedParameterGrants := []; rst_ManagedSettings := [];
     rst_ManagedDatabaseSettings := [] |}.

Definition role (uid : string) (created : Z) (deleting : bool) (annotations : gmap string string) (finalizers : list string)
    (status : RoleStatus) : Role :=
  {| role_Name := "app-" +:+ uid; role_Namespace := "ns"; role_UID := uid; role_ResourceVersion := "1"; role_Generation := 1;
     role_Finalizers := finalizers; role_CreationTimestamp := created; role_Deleting := deleting;
     role_Annotations := annotations; role_Spec := spec; role_Status := status |}.

Definition secret (name : string) (data : gmap string string) : Secret :=
  {| sec_Name := name; sec_Namespace := "ns"; sec_ResourceVersion := "1"; sec_Labels := ∅; sec_Annotations := ∅;
     sec_OwnerReferences := []; sec_ControllerUID := None; sec_Data := data |}.

Definition revoker : objectAccessRevoker world :=
  {| rv_RevokeOnSchemaObject := λ _ _ _ _ _ _ _, mret None; rv_RevokeDefaultPrivileges := λ _ _ _ _, mret None;
     rv_RoleOIDs := λ _, mret (inl (<["app" := 10%Z]> {[ "owner" := 20%Z ]}));
     rv_ListSchemaObjects := λ _ _ _, mret (inl []) |}.

Definition client : pgClient world :=
  {| pc_RoleComment := λ _ w, (inl (snd <$> w_pg w), w);
     pc_CreateRole := λ _ o w,
       let '(pw, comment) := default ("", "") (w_pg w) in
       (None, set_pg w (Some (if ro_KeepExistingPassword o then pw else ro_Password o,
                              if decide (ro_Comment o = "") then comment else ro_Comment o)));
     pc_DropRole := λ _ w, (Dropped, set_pg w None);
     pc_RevokeAllDatabasePrivileges := λ _, mret None;
     pc_DatabasesWithObjectPrivileges := λ _, mret (inl []);
     pc_RevokeAllSchemaPrivileges := λ _, mret None; pc_RevokeAllExtensionMemberPrivileges := λ _, mret None;
     pc_RoleReassignTarget := λ _ _, mret (inr (Errorf "no target" []));
     pc_DatabasesOwnedBy := λ _, mret (inl []); pc_DatabasesWithOwnedObjects := λ _, mret (inl []);
     pc_ReassignOwned := λ _ _, mret None; pc_revoker := revoker;
     pc_memberships := {| mc_ServerVersionNum := mret (inl 160000%Z); mc_ListMemberships := λ _ _, mret (inl ∅);
       mc_GrantRole := λ _ _ _, mret None; mc_RevokeAdminOption := λ _ _, mret None; mc_RevokeRole := λ _ _, mret None;
       mc_MembershipClosure := λ _, mret (inl []) |};
     pc_parameters := {| pgc_ServerVersionNum := mret (inl 160000%Z);
       pgc_executor := {| HeldPrivileges := λ _ _, mret (inr (Errorf "not held" [])); GrantPrivileges := λ _ _ _ _, mret None;
                          RevokePrivileges := λ _ _ _ _, mret None |};
       pgc_RoleExists := λ _, mret (inl true); pgc_ParameterContext := λ _, mret (inl None) |};
     pc_settings := {| rsc_ParameterContext := λ _, mret (inl None); rsc_DatabaseExists := λ _, mret (inl true);
       rsc_SetRoleParameter := λ _ _ _ _, mret None; rsc_ResetRoleParameter := λ _ _ _, mret None |} |}.

Definition ops : roleOps world :=
  {| rro_api := {| r_GetSecret := λ _ n w, (inl (w_secrets w !! n), w); r_ListTLSSecrets := λ _, mret (inl []);
                   r_APIReader := None; r_random := λ _ w, (inl (w_random w), w) |};
     rro_GetRole := λ w, (inl (Some (w_role w)), w);
     rro_GetCluster := λ _ _, mret (inl (Some cluster));
     rro_ListRoles := λ _ w, (if w_roles_listed w then inl [w_role w] else inr (Errorf "not listed" []), w);
     rro_ListDatabases := λ _ w, (inl (w_databases w), w);
     rro_Patch := λ _ new w, (inl new, put_role w new);
     rro_SaveStatus := λ role w, (None, put_role w role);
     rro_CreateSecret := λ s w, if w_secrets_writable w then (None, put_secret w s) else (Some (Errorf "not written" []), w);
     rro_UpdateSecret := λ s w, if w_secrets_writable w then (Updated, put_secret w s) else (UpdateFailed (Errorf "not written" []), w);
     rro_Open := λ _, mret (inl client);
     rro_Now := mret (1000 * second)%Z; rro_Jitter := mret (λ _, 0%Z);
     rro_MapOrder := λ m, mret (map_to_list m); rro_Eventf := None |}.

Definition marker_key : string := "0123456789abcdef0123456789abcdef".

Definition start : world :=
  {| w_role := role "uid" 5 false ∅ [] new_status;
     w_secrets := <["op" := secret "op" (<[SecretKeyUsername := "pgop"]> {[ SecretKeyPassword := "secret" ]})]>
                    {[ "c-marker-key" := secret "c-marker-key" {[ secretKeyMarkerKey := marker_key ]} ]};
     w_pg := None; w_databases := []; w_secrets_writable := true; w_roles_listed := true; w_random := "first" |}.

Definition pass (w : world) : (Z * error * requeueBackoff) * world := RoleReconcile ops 5 ∅ w.
Definition logged_pass (w : world) := RoleReconcile (logged_ops ops) 5 ∅ (w, []).

(** The Role as the first pass leaves it. *)
Definition created : world := (pass start).2.

(** A change of the Role, and of what the API server allows. *)
Definition change (w : world) (deleting : bool) (annotations : gmap string string) (writable listed : bool) (random : string)
    (databases : list Database) : world :=
  {| w_role := role "uid" 5 deleting annotations (role_Finalizers (w_role w)) (role_Status (w_role w));
     w_secrets := w_secrets w; w_pg := w_pg w; w_databases := databases; w_secrets_writable := writable;
     w_roles_listed := listed; w_random := random |}.

Definition stored_password (w : world) : option string :=
  (λ s, secret_value s SecretKeyPassword) <$> w_secrets w !! "c-app-uid-credentials".

(** A rotation is asked for, but the Secret cannot be written. *)
Definition rotating : world := change created false {[ AnnotationRotatePassword := "now" ]} false true "second" [].
(** The Secret can be written again, and the request is withdrawn. *)
Definition withdrawn : world := change (pass rotating).2 false ∅ true true "third" [].

(** The Role is deleted; a Database records a grant on a table to its role. *)
Definition database : Database :=
  {| db_Name := "data"; db_Namespace := "ns"; db_UID := "db-uid"; db_Generation := 1; db_Finalizers := [];
     db_CreationTimestamp := 0; db_Deleting := false;
     db_Spec := {| ds_ClusterRef := "c"; ds_DatabaseName := ""; ds_Owner := "owner"; ds_Extensions := []; ds_Schemas := [];
                   ds_Grants := []; ds_Settings := ∅; ds_PublicPrivileges := None |};
     db_Status := {| dst_Ready := true; dst_DatabaseName := "data"; dst_ClusterUID := "cluster-uid"; dst_InstalledExtensions := [];
       dst_Extensions := []; dst_ManagedExtensionGrants := []; dst_CreatedSchemas := ["sales"]; dst_ManagedGrants := [];
       dst_ManagedSchemaGrants := [];
       dst_ManagedObjectGrants := [{| mog_Schema := "sales"; mog_Kind := "table"; mog_Object := "orders"; mog_OID := 7;
                                      mog_Role := "app"; mog_Privileges := ["SELECT"]; mog_GrantOptions := [] |}];
       dst_ManagedDefaultPrivileges := []; dst_ObjectGrants := []; dst_RevokedPublicPrivileges := []; dst_ManagedSettings := [];
       dst_Conditions := [] |} |}.
Definition deleted (listed : bool) : world := change created true ∅ true listed "second" [database].

(** A call of the trace that passes a test. *)

Definition is_alter (pw : string) (ev : role_event) : bool :=
  match ev with EvCreateRole db n o None => bool_decide (db = "postgres") && bool_decide (n = "app") && bool_decide (ro_Password o = pw) | _ => false end.
Definition is_secret (pw : string) (ev : role_event) : bool :=
  match ev with EvCreateSecret s None => bool_decide (secret_value s SecretKeyPassword = pw) | _ => false end.
Definition is_drop (ev : role_event) : bool :=
  match ev with EvDropRole db n Dropped => bool_decide (db = "postgres") && bool_decide (n = "app") | _ => false end.
Definition is_revoke (ev : role_event) : bool :=
  match ev with EvRevokeObject db _ _ i oid g _ _ None => bool_decide (db = "data") && bool_decide (i = "orders") && bool_decide (oid = 7%Z) && bool_decide (g = "app") | _ => false end.

Definition ordered (ev : role_event) : Prop :=
  match ev with EvMapOrder m l => Forall (λ x, m !! x.1 = Some x.2) l | _ => True end.
End ToyRole.
#[local] Existing Instances ToyRole.print ToyRole.digests ToyRole.password_digest ToyRole.groups ToyRole.text ToyRole.setter.
Import ToyRole.

Lemma logged_run w :
  RoleReconcile (logged_ops ops) 5 ∅ (w, []) = ((logged_pass w).1, ((logged_pass w).2.1, (logged_pass w).2.2)).
Proof. exact (run_split (logged_pass w)). Qed.

(** A rotation of the password alters the Role's own PostgreSQL role. *)
Lemma role_alter_safe_witness :
  let tr := (logged_pass rotating).2.2 in
  ∃ pre opts, EvCreateRole "postgres" "app" opts None ∈ tr ∧ ro_Password opts = "7365636f6e64" ∧
    ∃ role cluster signer, answered pre role ∧ signer_of pre cluster signer ∧ attributes_within (k_RolePolicy cluster) opts.
Proof.
  intros tr. assert (called (is_alter "7365636f6e64") tr = true) as Hc by (vm_compute; reflexivity).
  apply called_inv in Hc as (pre & ev & post & Heq & Ht). destruct ev as [| | | | | | | | | | |db name opts [|]| | | | | | | | | | | | | | |]; try discriminate Ht.
  cbn [is_alter] in Ht. apply andb_true_iff in Ht as [[->%bool_decide_eq_true ->%bool_decide_eq_true]%andb_true_iff Hpw%bool_decide_eq_true].
  destruct (role_alter_safe ops 5 ∅ rotating _ _ tr pre "postgres" "app" opts None post (logged_run rotating) Heq)
    as (_ & _ & _ & role & cluster & signer & c & Ha & _ & _ & Hs & Hw & _).
  exists pre, opts. split; [apply (elem_of_split Heq)|]. split; [exact Hpw|].
  exists role, cluster, signer. exact (conj Ha (conj Hs Hw)).
Defined.

(** The first pass writes the Secret after PostgreSQL took the password. *)
Lemma role_secret_safe_witness :
  let tr := (logged_pass start).2.2 in
  ∃ pre s, EvCreateSecret s None ∈ tr ∧ secret_value s SecretKeyPassword = "6669727374" ∧ accepted_password pre "6669727374".
Proof.
  intros tr. assert (called (is_secret "6669727374") tr = true) as Hc by (vm_compute; reflexivity).
  apply called_inv in Hc as (pre & ev & post & Heq & Ht). destruct ev as [| | | | | | |s [|]| | | | | | | | | | | | | | | | | | |]; try discriminate Ht.
  cbn [is_secret] in Ht. apply bool_decide_eq_true in Ht. exists pre, s.
  split; [apply (elem_of_split Heq)|]. split; [exact Ht|].
  destruct (role_secret_safe ops 5 ∅ start _ _ tr pre (EvCreateSecret s None) post (logged_run start) Heq) as [Hs _].
  rewrite <-Ht. exact (Hs s None eq_refl).
Defined.



Lemma one_role_per_name_witness :
  ∃ w, w ∈ [role "b" 7 false ∅ [] new_status; role "a" 5 false ∅ [] new_status] ∧ role_CreationTimestamp w = 5%Z ∧
    duplicateOf w "app" (listClusterRoles "c" [role "b" 7 false ∅ [] new_status; role "a" 5 false ∅ [] new_status]) = None.
Proof.
  set (l := [role "b" 7 false ∅ [] new_status; role "a" 5 false ∅ [] new_status]).
  destruct (one_role_per_name "c" l "app") as (w & Hw & _ & _ & Hall).
  { apply (bool_decide_unpack _). vm_compute. exact I. }
  { apply (bool_decide_unpack _). vm_compute. exact I. }
  { exists (role "b" 7 false ∅ [] new_status). split_and!; [by left|done|done]. }
  exists (role "a" 5 false ∅ [] new_status). split; [by right; left|]. split; [done|].
  destruct (Hall (role "a" 5 false ∅ [] new_status)) as [Hd Hb]; [by right; left|done|done|]. apply Hd.
  destruct (decide (role_Name w = "app-a")) as [Ha|Ha].
  - apply list_elem_of_In in Hw as [<-|[<-|[]]]; [discriminate Ha|done].
  - exfalso. apply list_elem_of_In in Hw as [<-|[<-|[]]]; [|by apply Ha]. by specialize (Hb ltac:(discriminate)).
Defined.

(** *** Where the code does not keep what it intends *)

(** A failed listing of the Roles is taken for a role that another Role manages: the
    deletion ends without an error, the finalizer is removed, and the PostgreSQL role
    that the Role created stays. *)
Example deletion_leaks_the_role :
  let '(res, w) := pass (deleted false) in
  res = (0%Z, None, ∅) ∧ roleFinalizer ∉ role_Finalizers (w_role w) ∧ is_Some (w_pg w) ∧
  role_Status (w_role (deleted false)) = role_Status (w_role created) ∧
  let '(_, w') := pass (deleted true) in w_pg w' = None.
Proof. vm_compute. split_and!; [done|by intros ?%elem_of_nil|by eexists|done|done]. Qed.

(** A rotation whose Secret could not be written and whose request is then withdrawn:
    the Role is reported ready while its Secret has a password PostgreSQL does not know. *)
Example withdrawn_rotation_diverges :
  let '(_, failed) := pass rotating in
  let '(res, w) := pass withdrawn in
  rst_Ready (role_Status (w_role failed)) = false ∧ res = (0%Z, None, ∅) ∧ rst_Ready (role_Status (w_role w)) = true ∧
  stored_password w = Some "6669727374" ∧ fst <$> w_pg w = Some "7365636f6e64".
Proof. vm_compute. by split_and!. Qed.
