(* ===== verification/DatabaseReconcile.v ===== *)
(** * The Database reconciler (src/internal/controller/database_controller.go)

    [DatabaseReconcile] is the whole pass: the name, the Cluster, the owner Role, the
    database and its marker, settings and grants on the admin connection, schemas,
    extensions and the grants in the database, the credentials Secret, the status, and
    the drop of a deleted Database. The caches of the grantee policy and the Database
    in memory are threaded through the calls that share them. Times are nanoseconds. *)

From S2P Require Import Prelude GoStrings GoStrconv Privileges Parameters RoleSql ApiTypes RolePolicy Objects.
From S2P Require Import Settings Memberships GrantEngine GranteePolicy Grants ObjectGrants ExtensionSql PublicPrivileges Extensions.
From S2P Require Import ExtensionGrants Password Connection RoleCleanup RoleReconcile.

Definition databaseFinalizer : string := "pgop.ruck.io/database-finalizer".
Definition SecretKeyDatabase : string := "database".
Definition ReasonSchemaNotAllowed : string := "SchemaNotAllowed".
Definition ReasonSchemaNotManaged : string := "SchemaNotManaged".
Definition ReasonDatabaseNotManaged : string := "DatabaseNotManaged".
Definition ReasonDatabaseNotConnectable : string := "DatabaseNotConnectable".
Definition ReasonDuplicateDatabaseName : string := "DuplicateDatabaseName".

(** ** The connections and the API server *)

Record SchemaInfo := { si_Owner : string; si_OwnerIsBootstrap : bool }.

Record schemaClient (W : Type) := {
  sch_SchemaOwner : string → M W (result (option SchemaInfo));
  sch_CurrentDatabaseOwner : M W (result string);
  sch_CreateSchema : string → string → M W error;
  sch_AlterSchemaOwner : string → string → M W error;
  sch_LookupRole : string → M W (result (option ReachableRole)) }.
Arguments sch_SchemaOwner {W}. Arguments sch_CurrentDatabaseOwner {W}. Arguments sch_CreateSchema {W}.
Arguments sch_AlterSchemaOwner {W}. Arguments sch_LookupRole {W}.

Record databaseOwnershipClient (W : Type) := {
  doc_DatabaseComment : string → M W (result (option string));
  doc_CommentOnDatabase : string → string → M W error;
  doc_CreateDatabase : string → string → bool → M W error }.
Arguments doc_DatabaseComment {W}. Arguments doc_CommentOnDatabase {W}. Arguments doc_CreateDatabase {W}.

(** What the reconciler calls of a connection to one database. *)
Record databaseClient (W : Type) := {
  dbc_ownership : databaseOwnershipClient W;
  dbc_DropDatabase : string → M W error;
  dbc_DatabaseAllowsConnections : string → M W (result bool);
  dbc_LookupRole : string → M W (result (option ReachableRole));
  dbc_ServerVersionNum : M W (result Z);
  dbc_grants : databaseGrantClient W;
  dbc_schemas : schemaClient W;
  dbc_schemaGrants : schemaGrantClient W;
  dbc_extensions : extensionInstallClient W;
  dbc_extensionGrants : extensionGrantClient W;
  dbc_objects : objectGrantClient W }.
Arguments dbc_ownership {W}. Arguments dbc_DropDatabase {W}. Arguments dbc_DatabaseAllowsConnections {W}.
Arguments dbc_LookupRole {W}. Arguments dbc_ServerVersionNum {W}. Arguments dbc_grants {W}. Arguments dbc_schemas {W}.
Arguments dbc_schemaGrants {W}. Arguments dbc_extensions {W}. Arguments dbc_extensionGrants {W}. Arguments dbc_objects {W}.

Definition public_client {W} (pg : databaseGrantClient W) : publicPrivilegeClient W :=
  {| ppc_executor := dgc_executor pg; ppc_HeldFromAnyGrantor := dgc_HeldFromAnyGrantor pg |}.

Record databaseOps (W : Type) := {
  dbo_GetDatabase : M W (result (option Database));
  dbo_GetCluster : string → string → M W (result (option PgCluster));
  dbo_GetRole : string → string → M W (result (option Role));
  dbo_GetSecret : string → string → M W (result (option Secret));
  dbo_ListRoles : string → M W (result (list Role));
  dbo_ListDatabases : string → M W (result (list Database));
  dbo_Patch : Database → Database → M W (result Database);
  dbo_SaveStatus : Database → M W error;
  dbo_CreateSecret : Secret → M W error;
  dbo_UpdateSecret : Secret → M W error;
  dbo_Open : ConnectionConfig → M W (result (databaseClient W)) }.
Arguments dbo_GetDatabase {W}. Arguments dbo_GetCluster {W}. Arguments dbo_GetRole {W}. Arguments dbo_GetSecret {W}.
Arguments dbo_ListRoles {W}. Arguments dbo_ListDatabases {W}. Arguments dbo_Patch {W}. Arguments dbo_SaveStatus {W}.
Arguments dbo_CreateSecret {W}. Arguments dbo_UpdateSecret {W}. Arguments dbo_Open {W}.

(** ** The Database in memory *)

Definition set_finalizers (d : Database) (f : list string) : Database :=
  {| db_Name := db_Name d; db_Namespace := db_Namespace d; db_UID := db_UID d; db_Generation := db_Generation d;
     db_Finalizers := f; db_CreationTimestamp := db_CreationTimestamp d; db_Deleting := db_Deleting d;
     db_Spec := db_Spec d; db_Status := db_Status d |}.

Definition set_db_status (d : Database) (st : DatabaseStatus) : Database :=
  {| db_Name := db_Name d; db_Namespace := db_Namespace d; db_UID := db_UID d; db_Generation := db_Generation d;
     db_Finalizers := db_Finalizers d; db_CreationTimestamp := db_CreationTimestamp d; db_Deleting := db_Deleting d;
     db_Spec := db_Spec d; db_Status := st |}.

(** The name and the Cluster recorded once the database exists. *)
Definition set_database_recorded (st : DatabaseStatus) (name uid : string) : DatabaseStatus :=
  {| dst_Ready := dst_Ready st; dst_DatabaseName := name; dst_ClusterUID := uid;
     dst_InstalledExtensions := dst_InstalledExtensions st; dst_Extensions := dst_Extensions st;
     dst_ManagedExtensionGrants := dst_ManagedExtensionGrants st; dst_CreatedSchemas := dst_CreatedSchemas st;
     dst_ManagedGrants := dst_ManagedGrants st; dst_ManagedSchemaGrants := dst_ManagedSchemaGrants st;
     dst_ManagedObjectGrants := dst_ManagedObjectGrants st; dst_ManagedDefaultPrivileges := dst_ManagedDefaultPrivileges st;
     dst_ObjectGrants := dst_ObjectGrants st; dst_RevokedPublicPrivileges := dst_RevokedPublicPrivileges st;
     dst_ManagedSettings := dst_ManagedSettings st; dst_Conditions := dst_Conditions st |}.

Definition set_outcome (st : DatabaseStatus) (ready : bool) (schemas : list string) (conditions : list Condition) : DatabaseStatus :=
  {| dst_Ready := ready; dst_DatabaseName := dst_DatabaseName st; dst_ClusterUID := dst_ClusterUID st;
     dst_InstalledExtensions := dst_InstalledExtensions st; dst_Extensions := dst_Extensions st;
     dst_ManagedExtensionGrants := dst_ManagedExtensionGrants st; dst_CreatedSchemas := schemas;
     dst_ManagedGrants := dst_ManagedGrants st; dst_ManagedSchemaGrants := dst_ManagedSchemaGrants st;
     dst_ManagedObjectGrants := dst_ManagedObjectGrants st; dst_ManagedDefaultPrivileges := dst_ManagedDefaultPrivileges st;
     dst_ObjectGrants := dst_ObjectGrants st; dst_RevokedPublicPrivileges := dst_RevokedPublicPrivileges st;
     dst_ManagedSettings := dst_ManagedSettings st; dst_Conditions := conditions |}.

(** ** Names *)

Definition database_createdBefore (a b : Database) : bool :=
  if decide (db_CreationTimestamp a = db_CreationTimestamp b) then String.ltb (db_Name a) (db_Name b)
  else bool_decide (db_CreationTimestamp a < db_CreationTimestamp b)%Z.

(** An older Database of the Cluster with the same PostgreSQL name. *)
Definition duplicateDatabase (d : Database) (pgName : string) (databases : list Database) : option Database :=
  head (filter (λ o, db_UID o ≠ db_UID d ∧ ds_ClusterRef (db_Spec o) = ds_ClusterRef (db_Spec d) ∧
                     Database_PostgresName o = pgName ∧ database_createdBefore o d = true) databases).

Definition databaseSecretName (d : Database) : string := db_Name d +:+ "-" +:+ ds_Owner (db_Spec d) +:+ "-credentials".

(** ** Schemas *)

(** What became of one schema of the spec. *)
Inductive schema_outcome := SchemaManaged | SchemaSystem | SchemaRefused (text : string).

Section schemas.
Context `{UnicodePrint} {W : Type} (pg : schemaClient W) (recorded : gset string) (dbOwner ownerPGName : string).

(** Whether an existing schema of this owner is managed. *)
Definition schemaAllowed (schema : SchemaSpec) (owner : string) : M W (result bool) :=
  let ownedByDeclaredDBOwner :=
    bool_decide (owner = dbOwner) && negb (bool_decide (ownerPGName = "")) && bool_decide (dbOwner = ownerPGName) in
  if decide (ss_Name schema ∈ recorded) then mret (inl true)
  else if bool_decide (owner = ss_Owner schema) || ownedByDeclaredDBOwner || bool_decide (owner = pgDatabaseOwnerRole) then
    r ← sch_LookupRole pg owner;
    mret (match r with
          | inr e => inr e
          | inl r => inl (match r with Some r => negb (rr_Superuser r) | None => false end)
          end)
  else mret (inl false).

(** CREATE SCHEMA of a schema that does not exist. *)
Definition createSchema (schema : SchemaSpec) : M W (result schema_outcome) :=
  e ← sch_CreateSchema pg (ss_Name schema) (if decide (ss_Owner schema = "") then dbOwner else ss_Owner schema);
  mret (match e with
        | None => inl SchemaManaged
        | Some e => if errors_Is errObjectExists e then inl (SchemaRefused (ss_Name schema +:+ " (created by someone else meanwhile)"))
                    else inr (Wrapf "schema %q: %w" [ss_Name schema] e)
        end).

(** An existing schema. *)
Definition adoptSchema (schema : SchemaSpec) (info : SchemaInfo) : M W (result schema_outcome) :=
  let owner := si_Owner info in
  if bool_decide (ss_Name schema = publicSchemaName) && si_OwnerIsBootstrap info then mret (inl SchemaManaged)
  else
    a ← schemaAllowed schema owner;
    match a with
    | inr e => mret (inr e)
    | inl false => mret (inl (SchemaRefused (ss_Name schema +:+ " (owned by " +:+ owner +:+ ")")))
    | inl true =>
        if bool_decide (ss_Owner schema ≠ "") && bool_decide (owner ≠ ss_Owner schema) then
          e ← sch_AlterSchemaOwner pg (ss_Name schema) (ss_Owner schema);
          mret (match e with
                | Some e => inr (Wrapf "schema %q: %w" [ss_Name schema] e)
                | None => inl SchemaManaged
                end)
        else mret (inl SchemaManaged)
    end.

Definition reconcileSchema (schema : SchemaSpec) : M W (result schema_outcome) :=
  if systemSchemaName (ss_Name schema) then mret (inl SchemaSystem)
  else
    i ← sch_SchemaOwner pg (ss_Name schema);
    match i with
    | inr e => mret (inr e)
    | inl None => createSchema schema
    | inl (Some info) => adoptSchema schema info
    end.

(** The schemas not reached keep their record. *)
Definition keepRecorded (managed : list string) (rest : list SchemaSpec) : list string :=
  managed ++ filter (.∈ recorded) (ss_Name <$> rest).

(** The managed schemas, the system ones, the refused ones, and the error that stopped it. *)
Fixpoint schemaLoop (schemas : list SchemaSpec) (managed system notManaged : list string)
    : M W (list string * list string * list string * error) :=
  match schemas with
  | [] => mret (managed, system, notManaged, None)
  | schema :: rest =>
      r ← reconcileSchema schema;
      match r with
      | inr e => mret (keepRecorded managed (schema :: rest), system, notManaged, Some e)
      | inl SchemaManaged => schemaLoop rest (managed ++ [ss_Name schema]) system notManaged
      | inl SchemaSystem => schemaLoop rest managed (system ++ [ss_Name schema]) notManaged
      | inl (SchemaRefused text) => schemaLoop rest managed system (notManaged ++ [text])
      end
  end.
End schemas.

Definition refusedSchemas (system notManaged : list string) : error :=
  errors_Join (Some <$>
    ((if decide (system = []) then [] else [CondErr ReasonSchemaNotAllowed (Errorf "system schemas cannot be managed: %s"
       [Join system ", "])]) ++
     (if decide (notManaged = []) then [] else [CondErr ReasonSchemaNotManaged (Errorf
       "existing schemas this Database did not create and that are not owned by the declared owner or the database owner (or are owned by a superuser) are left alone, without owner change or grants: %s"
       [Join notManaged ", "])]))).

(** The managed schemas, the refused ones, and the error that stopped it. *)
Definition reconcileSchemas {W} (pg : schemaClient W) (d : Database) (ownerPGName : string) : M W (list string * error * error) :=
  let recorded : gset string := list_to_set (dst_CreatedSchemas (db_Status d)) in
  o ← sch_CurrentDatabaseOwner pg;
  match o with
  | inr e => mret (keepRecorded recorded [] (ds_Schemas (db_Spec d)), None, Some e)
  | inl dbOwner =>
      '(managed, system, notManaged, err) ← schemaLoop pg recorded dbOwner ownerPGName (ds_Schemas (db_Spec d)) [] [] [];
      mret (match err with
            | Some e => (managed, None, Some e)
            | None => (managed, refusedSchemas system notManaged, None)
            end)
  end.

(** ** The pass *)

Section pass.
Context `{UnicodePrint} `{Digests} `{ErrorText} `{ConditionSetter}.
Context {W : Type} (r : databaseOps W) (fuel : nat).

(** The requeue delay (0: none) and the error; [schemas]: the managed ones, when they were reconciled. *)
Definition Database_updateStatus (d : Database) (ready : bool) (schemas : option (list string)) (err : error) : M W (Z * error) :=
  let st := db_Status d in
  let cond status reason message :=
    {| cond_Type := ConditionTypeAvailable; cond_Status := status; cond_ObservedGeneration := db_Generation d;
       cond_Reason := reason; cond_Message := message |} in
  let condition :=
    if ready then cond "True" "DatabaseReady" "Database has been created with extensions and schemas"
    else match err with
         | Some e => cond "False" (default ReasonReconcileError (cond_reason e)) (error_text e)
         | None => cond "False" "DatabaseNotReady" "Database is not ready yet"
         end in
  e ← dbo_SaveStatus r (set_db_status d
        (set_outcome st ready (default (dst_CreatedSchemas st) schemas) (SetStatusCondition (dst_Conditions st) condition)));
  mret (match e, err with
        | Some e, _ => (0, Some e)
        | None, Some _ => (30 * second, None)
        | None, None => (0, None)
        end)%Z.

(** A pass either goes on or ends with the outcome on the right. *)
Abbreviation stage A := (sum A (Z * error)).

Definition failed {A} (d : Database) (schemas : option (list string)) (err : gerr) : M W (stage A) :=
  o ← Database_updateStatus d false schemas (Some err); mret (inr o).

(** Goes on with the result, or ends the pass with the error. *)
Definition orFail {A} (d : Database) (m : M W (result A)) : M W (stage A) :=
  x ← m; match x with inl x => mret (inl x) | inr e => failed d None e end.

(** The patch of the finalizers; its failure ends the pass. *)
Definition patchFinalizers (d : Database) (f : list string) : M W (stage Database) :=
  p ← dbo_Patch r d (set_finalizers d f);
  mret (match p with inl d => inl d | inr e => inr (0%Z, Some e) end).

Definition operatorClient (cluster : PgCluster) (dbName : string) : M W (result (databaseClient W)) :=
  c ← operatorConnectionConfig (dbo_GetSecret r) cluster dbName;
  match c with
  | inr e => mret (inr e)
  | inl cfg => dbo_Open r cfg
  end.

Definition getCluster (d : Database) : M W (result (option PgCluster)) :=
  c ← dbo_GetCluster r (db_Namespace d) (ds_ClusterRef (db_Spec d));
  mret (match c with inr e => inr (Wrapf "failed to get cluster: %w" [] e) | inl c => inl c end).

(** *** Names and ownership *)

Definition checkDatabaseName (d : Database) (pgName : string) : M W error :=
  match reservedDatabaseName pgName with
  | Some reason => mret (Some (CondErr ReasonReservedName (Errorf reason [])))
  | None =>
      l ← dbo_ListDatabases r (db_Namespace d);
      mret (match l with
            | inr e => Some (Wrapf "failed to list Databases: %w" [] e)
            | inl databases =>
                match duplicateDatabase d pgName databases with
                | Some other => Some (CondErr ReasonDuplicateDatabaseName (Errorf
                    "the Database %q already manages the PostgreSQL database %s on Cluster %q; pick another databaseName"
                    [db_Name other; pgName; ds_ClusterRef (db_Spec d)]))
                | None => None
                end
            end)
  end.

Definition databaseRecorded (d : Database) (cluster : PgCluster) (pgName : string) : M W (result bool) :=
  let st := db_Status d in
  if decide (pgName = "" ∨ dst_DatabaseName st ≠ pgName) then mret (inl false)
  else if decide (dst_ClusterUID st ≠ "") then mret (inl (bool_decide (dst_ClusterUID st = k_UID cluster)))
  else if decide (ds_Owner (db_Spec d) = "") then mret (inl false)
  else
    s ← dbo_GetSecret r (db_Namespace d) (databaseSecretName d);
    mret (match s with
          | inr e => inr e
          | inl None => inl false
          | inl (Some secret) => inl (bool_decide (sec_ControllerUID secret = Some (db_UID d))
                                        && bool_decide (secret_value secret SecretKeyHost = clusterHost cluster))
          end).

(** The error, and the Database with the name recorded once the database exists. *)
Definition ensureDatabase (pg : databaseOwnershipClient W) (d : Database) (cluster : PgCluster) (signer : markerSigner)
    (pgName owner : string) (recorded : bool) : M W (error * Database) :=
  let mk := marker signer markerKindDatabase (db_Name d) in
  c ← doc_DatabaseComment pg pgName;
  match c with
  | inr e => mret (Some e, d)
  | inl found =>
      let comment := default "" found in
      let decision := decideOwnership signer markerKindDatabase (db_Name d) (bool_decide (is_Some found)) comment recorded
                        (AllowsAdoptingDatabase (k_RolePolicy cluster) pgName) in
      match decision with
      | notOwned => mret (Some (CondErr ReasonDatabaseNotManaged (Errorf (notManagedMessage "database" pgName recorded) [])), d)
      | _ =>
          e ← doc_CreateDatabase pg pgName owner (match decision with ownedAbsent => true | _ => false end);
          match e with
          | Some e => mret (Some (if errors_Is errObjectExists e then CondErr ReasonDatabaseNotManaged (Wrapf
                "the PostgreSQL database %s was created by someone else while pgop was creating it; pgop does not take it over: %w"
                [pgName] e) else e), d)
          | None =>
              let d := set_db_status d (set_database_recorded (db_Status d) pgName (k_UID cluster)) in
              e ← (if decide (comment = mk) then mret None else doc_CommentOnDatabase pg pgName mk);
              mret (e, d)
          end
      end
  end.

Definition dropPostgresDatabase (cluster : PgCluster) (d : Database) : M W error :=
  let pgName := dst_DatabaseName (db_Status d) in
  rec ← databaseRecorded d cluster pgName;
  match rec with
  | inr e => mret (Some e)
  | inl recorded =>
  if bool_decide (pgName = "") || negb recorded then mret None
  else
    n ← checkDatabaseName d pgName;
    match n with
    | Some _ => mret None
    | None =>
    c ← operatorClient cluster defaultDatabaseName;
    match c with
    | inr e => mret (Some e)
    | inl pg =>
    c ← doc_DatabaseComment (dbc_ownership pg) pgName;
    match c with
    | inr e => mret (Some e)
    | inl None => mret None
    | inl (Some comment) =>
    s ← loadMarkerSigner (dbo_GetSecret r) cluster;
    let signer := match s with inl signer => signer | inr _ => {| ms_key := ""; ms_namespace := ""; ms_cluster := "" |} end in
    match decideOwnership signer markerKindDatabase (db_Name d) true comment true false with
    | owned | ownedRemark => dbc_DropDatabase pg pgName
    | _ => mret None
    end end end end end.

(** *** Settings and grants *)

Definition database_saver (d : Database) : statusSaver W DatabaseStatus := Some (λ st, dbo_SaveStatus r (set_db_status d st)).

(** [granteeChecker], whose caches start empty. *)
Definition clusterGranteeChecker (d : Database) (cluster : PgCluster) (signer : markerSigner) : M W (result granteeChecker) :=
  l ← dbo_ListRoles r (db_Namespace d);
  mret (match l with
        | inr e => inr (Wrapf "failed to list Roles: %w" [] e)
        | inl all =>
            let roles := listClusterRoles (ds_ClusterRef (db_Spec d)) all in
            inl {| gc_policy := k_RolePolicy cluster; gc_managed := managedRolesOf roles cluster signer;
                   gc_deleting := list_to_set (PostgresName <$> filter (λ o, role_Deleting o = true) roles) |}
        end).

Definition reconcileSettingsAndGrants (pg : databaseClient W) (d : Database) (pgName : string) (p : policy) (c : granteeChecker)
    (ck : checkerCaches) : M W (error * DatabaseStatus * checkerCaches) :=
  let save := database_saver d in
  '(e1, st) ← reconcileDatabaseSettings (dbc_grants pg) p (db_Spec d) pgName (db_Status d);
  '(e2, st, ck) ← reconcileDatabaseGrants (dbc_LookupRole pg) c (dbc_grants pg) (db_Spec d) pgName save st ck;
  '(e3, st) ← reconcilePublicPrivileges (public_client (dbc_grants pg)) (db_Spec d) pgName save st ObjectDatabase;
  mret (errors_Join [e1; e2; e3], st, ck).

(** What the access checks need later: the checker, its caches, and the error so far. *)
Record access := { ac_checker : granteeChecker; ac_caches : checkerCaches; ac_err : error }.

Definition reconcileDatabaseAccess (pg : databaseClient W) (d : Database) (cluster : PgCluster) (signer : markerSigner)
    (pgName : string) : M W (result (access * Database)) :=
  c ← clusterGranteeChecker d cluster signer;
  match c with
  | inr e => mret (inr e)
  | inl c =>
      '(e, st, ck) ← reconcileSettingsAndGrants pg d pgName (k_RolePolicy cluster) c no_caches;
      mret (inl ({| ac_checker := c; ac_caches := ck; ac_err := e |}, set_db_status d st))
  end.

Definition reconcileSchemaAccess (pg : databaseClient W) (d : Database) (pgName : string) (managedSchemas : list string)
    (c : granteeChecker) (st : DatabaseStatus) (ck : checkerCaches) : M W (error * DatabaseStatus * checkerCaches) :=
  let save := database_saver d in
  '(e1, st, ck) ← reconcileSchemaGrants (dbc_LookupRole pg) c (dbc_schemaGrants pg) (db_Spec d) (list_to_set managedSchemas) save st ck;
  '(e2, st) ← reconcilePublicPrivileges (public_client (dbc_grants pg)) (db_Spec d) pgName save st ObjectSchema;
  mret (errors_Join [e1; e2], st, ck).

(** *** The owner and the credentials Secret *)

Definition resolveOwnerRole (d : Database) : M W (result (option Role)) :=
  let owner := ds_Owner (db_Spec d) in
  if decide (owner = "") then mret (inl None)
  else
    g ← dbo_GetRole r (db_Namespace d) owner;
    mret (match g with
          | inr e => inr (Wrapf "failed to get owner Role %q: %w" [owner] e)
          | inl None => inr (Errorf "owner Role %q not found in namespace %q" [owner; db_Namespace d])
          | inl (Some role) => if rst_Ready (role_Status role) then inl (Some role) else inr (Errorf "owner Role %q is not ready" [owner])
          end).

Definition roleSecretName (role : Role) (cluster : PgCluster) : string :=
  if decide (rst_SecretName (role_Status role) = "") then k_Name cluster +:+ "-" +:+ role_Name role +:+ "-credentials"
  else rst_SecretName (role_Status role).

(** The data of the Database's Secret: the owner's credentials and the connection. *)
Definition databaseSecretData (d : Database) (cluster : PgCluster) (roleSecret : Secret) (t : clientTLS) : gmap string string :=
  (applyConnectionInfo
     (<[SecretKeyUsername := secret_value roleSecret SecretKeyUsername]>
       (<[SecretKeyPassword := secret_value roleSecret SecretKeyPassword]> {[ SecretKeyDatabase := Database_PostgresName d ]}))
     (clusterHost cluster) (clusterPort cluster) (Database_PostgresName d) t).1.

Definition newDatabaseSecret (d : Database) (data : gmap string string) : Secret :=
  {| sec_Name := databaseSecretName d; sec_Namespace := db_Namespace d; sec_ResourceVersion := ""; sec_Labels := ∅;
     sec_Annotations := ∅;
     sec_OwnerReferences := [{| or_APIVersion := GroupName +:+ "/v1alpha1"; or_Kind := "Database"; or_Name := db_Name d |}];
     sec_ControllerUID := Some (db_UID d); sec_Data := data |}.

Definition writeDatabaseSecret (d : Database) (data : gmap string string) : M W error :=
  s ← dbo_GetSecret r (db_Namespace d) (databaseSecretName d);
  match s with
  | inr e => mret (Some (Wrapf "failed to get credentials secret: %w" [] e))
  | inl None => dbo_CreateSecret r (newDatabaseSecret d data)
  | inl (Some existing) =>
      if decide (sec_Data existing = data) then mret None
      else dbo_UpdateSecret r (set_data existing (sec_Labels existing) (sec_Annotations existing) data)
  end.

Definition reconcileDatabaseSecret (d : Database) (ownerRole : option Role) (cluster : PgCluster) : M W error :=
  match ownerRole with
  | None => mret None
  | Some role =>
      if negb (IsLogin (role_Spec role)) then mret None
      else
        let name := roleSecretName role cluster in
        s ← dbo_GetSecret r (db_Namespace d) name;
        match s with
        | inr e => mret (Some (Wrapf "failed to get role credentials secret %s: %w" [name] e))
        | inl None => mret (Some (Wrapf "failed to get role credentials secret %s: %w" [name] (notFound name)))
        | inl (Some roleSecret) =>
            tls ← clusterClientTLS (dbo_GetSecret r) cluster;
            match tls with
            | inr e => mret (Some e)
            | inl t => writeDatabaseSecret d (databaseSecretData d cluster roleSecret t)
            end
        end
  end.

(** *** The whole *)

(** What goes wrong with extensions and grants is reported once the Secret is written. *)
Definition reconcileInDatabase (pg : databaseClient W) (d : Database) (cluster : PgCluster) (pgName : string)
    (ownerRole : option Role) (managed : list string) (a : access) : M W (Z * error) :=
  let '(p, save, c) := (k_RolePolicy cluster, database_saver d, ac_checker a) in
  '(states, extErr, st) ← reconcileExtensions (dbc_extensions pg) fuel (db_Spec d) p managed save (db_Status d);
  '(e1, st, ck) ← reconcileSchemaAccess pg d pgName managed c st (ac_caches a);
  '(e2, st, ck) ← reconcileExtensionAccess (dbc_LookupRole pg) c (dbc_extensionGrants pg) (dbc_ServerVersionNum pg) (db_Spec d) states
                    save st ck;
  '(e3, st, ck) ← reconcileObjectAccess (dbc_LookupRole pg) c (dbc_objects pg) (dbc_ServerVersionNum pg) (db_Spec d) managed save st ck;
  let d := set_db_status d st in
  e ← reconcileDatabaseSecret d ownerRole cluster;
  match e, errors_Join [extErr; ac_err a; e1; e2; e3] with
  | Some e, _ | None, Some e => Database_updateStatus d false (Some managed) (Some e)
  | None, None => Database_updateStatus d true (Some managed) None
  end.

(** The connection to the database, once it allows connections. *)
Definition connectDatabase (admin : databaseClient W) (d : Database) (cluster : PgCluster) (pgName : string) (accessErr : error)
    : M W (stage (databaseClient W)) :=
  allow ← dbc_DatabaseAllowsConnections admin pgName;
  let refuse e := failed d None (default e (errors_Join [Some e; accessErr])) in
  match allow with
  | inr e => refuse e
  | inl false => refuse (CondErr ReasonDatabaseNotConnectable (Errorf
      "the database %s does not allow connections (ALTER DATABASE %s WITH ALLOW_CONNECTIONS true); its extensions and schemas cannot be reconciled"
      [pgName; pgName]))
  | inl true => orFail d (operatorClient cluster pgName)
  end.

(** The finalizer, then the database, its marker and owner. *)
Definition ensureOnCluster (admin : databaseClient W) (d : Database) (cluster : PgCluster) (pgName owner : string)
    : M W (stage (Database * markerSigner)) :=
  d ⇐ (if bool_decide (databaseFinalizer ∈ db_Finalizers d) then mret (inl d)
       else patchFinalizers d (db_Finalizers d ++ [databaseFinalizer]));
  signer ⇐ orFail d (loadMarkerSigner (dbo_GetSecret r) cluster);
  recorded ⇐ orFail d (databaseRecorded d cluster pgName);
  '(e, d) ← ensureDatabase (dbc_ownership admin) d cluster signer pgName owner recorded;
  match e with
  | Some e => failed d None e
  | None => mret (inl (d, signer))
  end.

Definition reconcileOnReadyCluster (d : Database) (cluster : PgCluster) (pgName : string) : M W (stage (Z * error)) :=
  ownerRole ⇐ orFail d (resolveOwnerRole d);
  let owner := match ownerRole with Some role => PostgresName role | None => "" end in
  admin ⇐ orFail d (operatorClient cluster defaultDatabaseName);
  '(d, signer) ⇐ ensureOnCluster admin d cluster pgName owner;
  '(a, d) ⇐ orFail d (reconcileDatabaseAccess admin d cluster signer pgName);
  pg ⇐ connectDatabase admin d cluster pgName (ac_err a);
  '(managed, refused, err) ← reconcileSchemas (dbc_schemas pg) d owner;
  match err with
  | Some e => failed d (Some managed) e
  | None =>
      let a := {| ac_checker := ac_checker a; ac_caches := ac_caches a; ac_err := errors_Join [refused; ac_err a] |} in
      o ← reconcileInDatabase pg d cluster pgName ownerRole managed a; mret (inl o)
  end.

(** The branch of a Database that is being deleted. *)
Definition reconcileDatabaseDeletion (d : Database) : M W (stage ()) :=
  if negb (bool_decide (databaseFinalizer ∈ db_Finalizers d)) then mret (inl ())
  else
    c ← getCluster d;
    e ← (match c with
         | inr e => mret (Some e)
         | inl None => mret None
         | inl (Some cluster) => dropPostgresDatabase cluster d
         end);
    match e with
    | Some e => mret (inr (0%Z, Some e))
    | None => d ⇐ patchFinalizers d (filter (.≠ databaseFinalizer) (db_Finalizers d)); mret (inl ())
    end.

(** A Database that is not being deleted. *)
Definition reconcileLiveDatabase (d : Database) : M W (stage (Z * error)) :=
  let pgName := Database_PostgresName d in
  n ← checkDatabaseName d pgName;
  match n with
  | Some e => failed d None e
  | None =>
      c ⇐ orFail d (getCluster d);
      match c with
      | None => failed d None (Wrapf "failed to get cluster: %w" [] (Errorf "clusters %q not found" [ds_ClusterRef (db_Spec d)]))
      | Some cluster =>
          if negb (k_Ready cluster) then mret (inr (10 * second, None)%Z)
          else reconcileOnReadyCluster d cluster pgName
      end
  end.

Definition DatabaseReconcile : M W (Z * error) :=
  g ← dbo_GetDatabase r;
  match g with
  | inr e => mret (0%Z, Some e)
  | inl None => mret (0%Z, None)
  | inl (Some d) =>
      if db_Deleting d then
        o ← reconcileDatabaseDeletion d; mret (match o with inl _ => (0%Z, None) | inr o => o end)
      else
        o ← reconcileLiveDatabase d; mret (match o with inl o | inr o => o end)
  end.
End pass.

(** ** Which Databases an event wakes *)

(** Whether grants of the Database name the PostgreSQL role. *)
Definition grantsTo (pgName : string) (spec : DatabaseSpec) : bool :=
  negb (bool_decide (pgName = "")) &&
  (existsb (λ g, bool_decide (dgs_Role g = pgName)) (ds_Grants spec)
     || extensionsGrantingTo spec pgName || objectAccessNames spec pgName
     || existsb (λ s, existsb (λ g, bool_decide (gs_Role g = pgName)) (ss_Grants s)) (ds_Schemas spec)).

Definition databasesForOwnerRole (role : Role) (databases : list Database) : list string :=
  db_Name <$> filter (λ d, ds_Owner (db_Spec d) = role_Name role ∨ grantsTo (PostgresName role) (db_Spec d) = true) databases.

Definition databasesForCluster (cluster : PgCluster) (databases : list Database) : list string :=
  db_Name <$> filter (λ d, ds_ClusterRef (db_Spec d) = k_Name cluster) databases.

Definition isRoleCredentialsSecret (labels : gmap string string) : bool :=
  let l k := default "" (labels !! k) in
  bool_decide (l LabelAppName = AppNamePostgresqlRole) && bool_decide (l LabelAppManagedBy = LabelValuePgop)
    && negb (bool_decide (l LabelAppInstance = "")) && negb (bool_decide (l LabelCluster = "")).

Definition databasesForRoleSecret (labels : gmap string string) (databases : list Database) : list string :=
  if negb (isRoleCredentialsSecret labels) then []
  else
    let l k := default "" (labels !! k) in
    db_Name <$> filter (λ d, ds_Owner (db_Spec d) = l LabelAppInstance ∧ ds_ClusterRef (db_Spec d) = l LabelCluster) databases.
