(* ===== verification/DatabaseSafety.v ===== *)
(** * The calls of the Database reconciler

    The events of a pass and the logging of its operations. The calls of the components
    (settings, grants, extensions) appear as [DComponent] with the database they are
    made in; their own theorems are in the files of the components. *)

From S2P Require Import Prelude GoStrings GoStrconv Privileges Parameters RoleSql ApiTypes RolePolicy Objects Settings Memberships.
From S2P Require Import GrantEngine GranteePolicy Grants ObjectGrants ExtensionSql PublicPrivileges Extensions ExtensionGrants.
From S2P Require Import Password Connection Trace ComponentCalls RoleCleanup RoleReconcile DatabaseReconcile ExtensionSafety.
From S2P Require Import RoleSafety.

Inductive db_event :=
  | DGetDatabase (r : result (option Database))
  | DGetCluster (namespace name : string) (r : result (option PgCluster))
  | DGetRole (namespace name : string) (r : result (option Role))
  | DGetSecret (namespace name : string) (r : result (option Secret))
  | DListRoles (namespace : string) (r : result (list Role))
  | DListDatabases (namespace : string) (r : result (list Database))
  | DPatch (base new : Database) (r : result Database)
  | DSaveStatus (d : Database) (e : error)
  | DCreateSecret (s : Secret) (e : error)
  | DUpdateSecret (s : Secret) (e : error)
  | DOpen (db : string)
  | DComment (db name : string) (r : result (option string))
  | DSetComment (db name comment : string) (e : error)
  | DCreate (db name owner : string) (createOnly : bool) (e : error)
  | DDrop (db name : string) (e : error)
  | DAllows (db name : string) (r : result bool)
  | DOwner (db : string) (r : result string)
  | DSchemaOwner (db name : string) (r : result (option SchemaInfo))
  | DCreateSchema (db name owner : string) (e : error)
  | DAlterSchema (db name owner : string) (e : error)
  | DLookup (db name : string) (r : result (option ReachableRole))
  | DComponent (db : string).

(** What the components add to a trace on a connection to [db]. *)
Definition component_call (db : string) (ev : db_event) : Prop := ev = DComponent db ∨ ∃ d e, ev = DSaveStatus d e.

Section logged.
Context {W : Type}.

Section component.
Context (db : string).
Abbreviation other := (logged (λ _, DComponent db)).

Definition db_executor (x : privilegeExecutor W) : privilegeExecutor (W * list db_event) :=
  {| HeldPrivileges := λ o g, other (HeldPrivileges W x o g);
     GrantPrivileges := λ o g ps wgo, other (GrantPrivileges W x o g ps wgo);
     RevokePrivileges := λ o g ps m, other (RevokePrivileges W x o g ps m) |}.

Definition db_database_grants (c : databaseGrantClient W) : databaseGrantClient (W * list db_event) :=
  {| dgc_executor := db_executor (dgc_executor c);
     dgc_HeldFromAnyGrantor := λ o g p, other (dgc_HeldFromAnyGrantor c o g p);
     dgc_RoleExists := λ n, other (dgc_RoleExists c n);
     dgc_SetDatabaseParameter := λ d n v, other (dgc_SetDatabaseParameter c d n v);
     dgc_ResetDatabaseParameter := λ d n, other (dgc_ResetDatabaseParameter c d n);
     dgc_ParameterContext := λ n, other (dgc_ParameterContext c n) |}.

Definition db_schema_grants (c : schemaGrantClient W) : schemaGrantClient (W * list db_event) :=
  {| sgc_executor := db_executor (sgc_executor c); sgc_RoleExists := λ n, other (sgc_RoleExists c n);
     sgc_SchemaExists := λ n, other (sgc_SchemaExists c n) |}.

Definition db_extensions (c : extensionInstallClient W) : extensionInstallClient (W * list db_event) :=
  {| xc_ExtensionVersion := λ n v, other (xc_ExtensionVersion c n v);
     xc_InstalledExtension := λ n, other (xc_InstalledExtension c n);
     xc_ExtensionUpdatePaths := λ n a b, other (xc_ExtensionUpdatePaths c n a b);
     xc_SchemaWriters := λ n, other (xc_SchemaWriters c n); xc_CurrentDatabaseOwner := other (xc_CurrentDatabaseOwner c);
     xc_LookupRole := λ n, other (xc_LookupRole c n); xc_CreateSchema := λ n o, other (xc_CreateSchema c n o);
     xc_CreateExtension := λ n s v k, other (xc_CreateExtension c n s v k);
     xc_UpdateExtension := λ n v, other (xc_UpdateExtension c n v); xc_DropExtension := λ n, other (xc_DropExtension c n) |}.

Definition db_extension_grants (c : extensionGrantClient W) : extensionGrantClient (W * list db_event) :=
  {| gx_executor := db_executor (gx_executor c); gx_RoleExists := λ n, other (gx_RoleExists c n);
     gx_SchemaExists := λ n, other (gx_SchemaExists c n); gx_InstalledExtension := λ n, other (gx_InstalledExtension c n);
     gx_ExtensionMembers := λ n k g, other (gx_ExtensionMembers c n k g);
     gx_GrantOnMembers := λ k i p g, other (gx_GrantOnMembers c k i p g);
     gx_RevokeOnMembers := λ k i p g, other (gx_RevokeOnMembers c k i p g) |}.

Definition db_objects (c : objectGrantClient W) : objectGrantClient (W * list db_event) :=
  {| ogc_RoleExists := λ n, other (ogc_RoleExists c n); ogc_SchemaExists := λ n, other (ogc_SchemaExists c n);
     ogc_RoleOIDs := λ l, other (ogc_RoleOIDs c l);
     ogc_ListSchemaObjects := λ s k sel, other (ogc_ListSchemaObjects c s k sel);
     ogc_ResolveRoutine := λ a b d, other (ogc_ResolveRoutine c a b d);
     ogc_ResolveSchemaObject := λ a b d o, other (ogc_ResolveSchemaObject c a b d o);
     ogc_GrantOnSchemaObject := λ k s i o g ps w, other (ogc_GrantOnSchemaObject c k s i o g ps w);
     ogc_RevokeOnSchemaObject := λ k s i o g ps m, other (ogc_RevokeOnSchemaObject c k s i o g ps m);
     ogc_HeldDefaultPrivileges := λ t g, other (ogc_HeldDefaultPrivileges c t g);
     ogc_GrantDefaultPrivileges := λ t g ps w, other (ogc_GrantDefaultPrivileges c t g ps w);
     ogc_RevokeDefaultPrivileges := λ t g ps m, other (ogc_RevokeDefaultPrivileges c t g ps m) |}.

Definition db_schemas (c : schemaClient W) : schemaClient (W * list db_event) :=
  {| sch_SchemaOwner := λ n, logged (DSchemaOwner db n) (sch_SchemaOwner c n);
     sch_CurrentDatabaseOwner := logged (DOwner db) (sch_CurrentDatabaseOwner c);
     sch_CreateSchema := λ n o, logged (DCreateSchema db n o) (sch_CreateSchema c n o);
     sch_AlterSchemaOwner := λ n o, logged (DAlterSchema db n o) (sch_AlterSchemaOwner c n o);
     sch_LookupRole := λ n, logged (DLookup db n) (sch_LookupRole c n) |}.

Definition db_ownership (c : databaseOwnershipClient W) : databaseOwnershipClient (W * list db_event) :=
  {| doc_DatabaseComment := λ n, logged (DComment db n) (doc_DatabaseComment c n);
     doc_CommentOnDatabase := λ n x, logged (DSetComment db n x) (doc_CommentOnDatabase c n x);
     doc_CreateDatabase := λ n o k, logged (DCreate db n o k) (doc_CreateDatabase c n o k) |}.

Definition db_client (c : databaseClient W) : databaseClient (W * list db_event) :=
  {| dbc_ownership := db_ownership (dbc_ownership c);
     dbc_DropDatabase := λ n, logged (DDrop db n) (dbc_DropDatabase c n);
     dbc_DatabaseAllowsConnections := λ n, logged (DAllows db n) (dbc_DatabaseAllowsConnections c n);
     dbc_LookupRole := λ n, other (dbc_LookupRole c n);
     dbc_ServerVersionNum := other (dbc_ServerVersionNum c);
     dbc_grants := db_database_grants (dbc_grants c);
     dbc_schemas := db_schemas (dbc_schemas c);
     dbc_schemaGrants := db_schema_grants (dbc_schemaGrants c);
     dbc_extensions := db_extensions (dbc_extensions c);
     dbc_extensionGrants := db_extension_grants (dbc_extensionGrants c);
     dbc_objects := db_objects (dbc_objects c) |}.
End component.

Definition db_open (open : ConnectionConfig → M W (result (databaseClient W))) (cfg : ConnectionConfig)
    : M (W * list db_event) (result (databaseClient (W * list db_event))) :=
  c ← logged (λ _, DOpen (cc_Database cfg)) (open cfg);
  mret (match c with inl pg => inl (db_client (cc_Database cfg) pg) | inr e => inr e end).

Definition db_ops (r : databaseOps W) : databaseOps (W * list db_event) :=
  {| dbo_GetDatabase := logged DGetDatabase (dbo_GetDatabase r);
     dbo_GetCluster := λ ns n, logged (DGetCluster ns n) (dbo_GetCluster r ns n);
     dbo_GetRole := λ ns n, logged (DGetRole ns n) (dbo_GetRole r ns n);
     dbo_GetSecret := λ ns n, logged (DGetSecret ns n) (dbo_GetSecret r ns n);
     dbo_ListRoles := λ ns, logged (DListRoles ns) (dbo_ListRoles r ns);
     dbo_ListDatabases := λ ns, logged (DListDatabases ns) (dbo_ListDatabases r ns);
     dbo_Patch := λ base new, logged (DPatch base new) (dbo_Patch r base new);
     dbo_SaveStatus := λ d, logged (DSaveStatus d) (dbo_SaveStatus r d);
     dbo_CreateSecret := λ s, logged (DCreateSecret s) (dbo_CreateSecret r s);
     dbo_UpdateSecret := λ s, logged (DUpdateSecret s) (dbo_UpdateSecret r s);
     dbo_Open := db_open (dbo_Open r) |}.
End logged.

(** ** The Database reconciler: what justifies its calls *)

(** ** Facts of a trace *)

Section facts.
Context `{UnicodePrint} `{Digests}.
Implicit Types tr : list db_event.

(** The server listed the Databases, and none of the Cluster with this name is older. *)
Definition no_older_database tr (d : Database) (name : string) : Prop :=
  ∃ databases, DListDatabases (db_Namespace d) (inl databases) ∈ tr ∧
    ∀ o, o ∈ databases → ds_ClusterRef (db_Spec o) = ds_ClusterRef (db_Spec d) → db_UID o ≠ db_UID d →
      Database_PostgresName o = name → database_createdBefore o d = false.

(** The status records [name] as created or adopted on this very Cluster. *)
Definition database_recorded tr (d : Database) (cluster : PgCluster) (name : string) : Prop :=
  name ≠ "" ∧ dst_DatabaseName (db_Status d) = name ∧
  (dst_ClusterUID (db_Status d) ≠ "" ∧ dst_ClusterUID (db_Status d) = k_UID cluster ∨
   dst_ClusterUID (db_Status d) = "" ∧ ds_Owner (db_Spec d) ≠ "" ∧
   ∃ s, DGetSecret (db_Namespace d) (databaseSecretName d) (inl (Some s)) ∈ tr ∧
     sec_ControllerUID s = Some (db_UID d) ∧ secret_value s SecretKeyHost = clusterHost cluster).

Definition database_not_recorded tr (d : Database) (cluster : PgCluster) (name : string) : Prop :=
  name = "" ∨ dst_DatabaseName (db_Status d) ≠ name ∨
  dst_ClusterUID (db_Status d) ≠ "" ∧ dst_ClusterUID (db_Status d) ≠ k_UID cluster ∨
  dst_ClusterUID (db_Status d) = "" ∧
    (ds_Owner (db_Spec d) = "" ∨
     ∃ s, DGetSecret (db_Namespace d) (databaseSecretName d) (inl s) ∈ tr ∧
       ∀ x, s = Some x → ¬ (sec_ControllerUID x = Some (db_UID d) ∧ secret_value x SecretKeyHost = clusterHost cluster)).

(** The Cluster's signer, from its key Secret. *)
Definition cluster_signer tr (cluster : PgCluster) (signer : markerSigner) : Prop :=
  ∃ s, DGetSecret (k_Namespace cluster) (markerKeySecretName cluster) (inl (Some s)) ∈ tr ∧
    (markerKeySize ≤ String.length (secret_value s secretKeyMarkerKey))%nat ∧
    signer = newMarkerSigner cluster (secret_value s secretKeyMarkerKey).

(** The comment is the Database's signed marker, or one that a recorded database may have. *)
Definition own_database_comment (signer : markerSigner) (d : Database) (comment : string) : Prop :=
  verify signer comment markerKindDatabase (db_Name d) = true ∨
  refreshableComment signer comment markerKindDatabase (db_Name d) = true.

(** CREATE DATABASE or a change of its owner is allowed: it exists not, it is the
    Database's own, or the Cluster lets it be adopted. *)
Definition may_own tr (d : Database) (cluster : PgCluster) (name : string) (createOnly : bool) : Prop :=
  ∃ signer found, cluster_signer tr cluster signer ∧ DComment defaultDatabaseName name (inl found) ∈ tr ∧
    (found = None ∧ createOnly = true ∨
     ∃ c, found = Some c ∧ createOnly = false ∧
       (database_recorded tr d cluster name ∧ own_database_comment signer d c ∨
        AllowsAdoptingDatabase (k_RolePolicy cluster) name = true)).

(** The Database as the API server answered it, to the read or to the finalizer patch. *)
Definition database_answered tr (d : Database) : Prop :=
  DGetDatabase (inl (Some d)) ∈ tr ∨ ∃ base new, DPatch base new (inl d) ∈ tr.

(** The owner that the Database declares: a ready Role's PostgreSQL role. *)
Definition declared_owner tr (read : Database) (owner : string) : Prop :=
  ds_Owner (db_Spec read) = "" ∧ owner = "" ∨
  ∃ role, DGetRole (db_Namespace read) (ds_Owner (db_Spec read)) (inl (Some role)) ∈ tr ∧ rst_Ready (role_Status role) = true ∧
    owner = PostgresName role.

(** A Database that is not being deleted, its name, and its ready Cluster. *)
Definition live_database tr (read : Database) (cluster : PgCluster) (name : string) : Prop :=
  DGetDatabase (inl (Some read)) ∈ tr ∧ db_Deleting read = false ∧ name = Database_PostgresName read ∧
  reservedDatabaseName name = None ∧ no_older_database tr read name ∧
  DGetCluster (db_Namespace read) (ds_ClusterRef (db_Spec read)) (inl (Some cluster)) ∈ tr ∧ k_Ready cluster = true.

(** PostgreSQL has the database of this pass: created, or one it may own. *)
Definition database_owned tr (name : string) : Prop :=
  ∃ owner createOnly, DCreate defaultDatabaseName name owner createOnly None ∈ tr.

(** The database of a Database that is being deleted may be dropped. *)
Definition database_may_drop tr (d : Database) (cluster : PgCluster) (name : string) : Prop :=
  DGetDatabase (inl (Some d)) ∈ tr ∧ db_Deleting d = true ∧ databaseFinalizer ∈ db_Finalizers d ∧
  DGetCluster (db_Namespace d) (ds_ClusterRef (db_Spec d)) (inl (Some cluster)) ∈ tr ∧
  database_recorded tr d cluster name ∧ reservedDatabaseName name = None ∧ no_older_database tr d name ∧
  ∃ comment signer, DComment defaultDatabaseName name (inl (Some comment)) ∈ tr ∧
    (cluster_signer tr cluster signer ∨ signer = no_signer) ∧ own_database_comment signer d comment.

(** Why a pass found nothing to drop. A listing of the Databases that failed counts as a
    name that another Database manages, and a marker key that could not be read as one
    that signed no comment. *)
Definition no_database_to_drop tr (d : Database) (cluster : PgCluster) : Prop :=
  let name := dst_DatabaseName (db_Status d) in
  database_not_recorded tr d cluster name ∨ reservedDatabaseName name ≠ None ∨
  (∃ e, DListDatabases (db_Namespace d) (inr e) ∈ tr) ∨
  (∃ databases o, DListDatabases (db_Namespace d) (inl databases) ∈ tr ∧ o ∈ databases ∧
     ds_ClusterRef (db_Spec o) = ds_ClusterRef (db_Spec d) ∧ db_UID o ≠ db_UID d ∧
     Database_PostgresName o = name ∧ database_createdBefore o d = true) ∨
  DComment defaultDatabaseName name (inl None) ∈ tr ∨
  ∃ comment signer, DComment defaultDatabaseName name (inl (Some comment)) ∈ tr ∧
    (cluster_signer tr cluster signer ∨
     signer = no_signer ∧ ∃ r, DGetSecret (k_Namespace cluster) (markerKeySecretName cluster) r ∈ tr ∧
       ∀ s, r = inl (Some s) → (String.length (secret_value s secretKeyMarkerKey) < markerKeySize)%nat) ∧
    ¬ own_database_comment signer d comment.

(** The finalizer may go: the Cluster is gone, the database is dropped, or the pass
    found nothing to drop. *)
Definition database_released tr (d : Database) : Prop :=
  DGetDatabase (inl (Some d)) ∈ tr ∧ db_Deleting d = true ∧
  (DGetCluster (db_Namespace d) (ds_ClusterRef (db_Spec d)) (inl None) ∈ tr ∨
   ∃ cluster, DGetCluster (db_Namespace d) (ds_ClusterRef (db_Spec d)) (inl (Some cluster)) ∈ tr ∧
     (DDrop defaultDatabaseName (dst_DatabaseName (db_Status d)) None ∈ tr ∨ no_database_to_drop tr d cluster)).

(** A declared schema that the server does not have. *)
Definition may_create_schema tr (d : Database) (db name owner : string) : Prop :=
  ∃ schema, schema ∈ ds_Schemas (db_Spec d) ∧ ss_Name schema = name ∧ systemSchemaName name = false ∧
    DSchemaOwner db name (inl None) ∈ tr ∧
    (ss_Owner schema = owner ∧ owner ≠ "" ∨ ss_Owner schema = "" ∧ DOwner db (inl owner) ∈ tr).

(** A declared schema whose owner the Database may change. *)
Definition may_alter_schema tr (d : Database) (db name owner ownerPGName : string) : Prop :=
  ∃ schema info, schema ∈ ds_Schemas (db_Spec d) ∧ ss_Name schema = name ∧ systemSchemaName name = false ∧
    ss_Owner schema = owner ∧ owner ≠ "" ∧ DSchemaOwner db name (inl (Some info)) ∈ tr ∧ si_Owner info ≠ owner ∧
    (name = publicSchemaName → si_OwnerIsBootstrap info = false) ∧
    (name ∈ dst_CreatedSchemas (db_Status d) ∨
     ∃ role, DLookup db (si_Owner info) (inl (Some role)) ∈ tr ∧ rr_Superuser role = false ∧
       (si_Owner info = pgDatabaseOwnerRole ∨
        DOwner db (inl (si_Owner info)) ∈ tr ∧ si_Owner info = ownerPGName ∧ ownerPGName ≠ "")).

(** The Role that the Database declares as its owner, ready. *)
Definition owner_role tr (read : Database) (role : Role) : Prop :=
  DGetRole (db_Namespace read) (ds_Owner (db_Spec read)) (inl (Some role)) ∈ tr ∧ rst_Ready (role_Status role) = true.

(** The Secret of the Database has the credentials of the owner it declares, on its own Cluster. *)
Definition owner_credentials tr (read d : Database) (cluster : PgCluster) (data : gmap string string) : Prop :=
  ∃ role roleSecret t, owner_role tr read role ∧ IsLogin (role_Spec role) = true ∧
    DGetSecret (db_Namespace d) (roleSecretName role cluster) (inl (Some roleSecret)) ∈ tr ∧
    data = databaseSecretData d cluster roleSecret t.

(** ** The justification of a call by those before it *)

Definition db_call_ok (pre : list db_event) (ev : db_event) : Prop :=
  match ev with
  | DOpen db => db = defaultDatabaseName ∨ database_owned pre db
  | DComponent db => ∃ name, database_owned pre name ∧ (db = defaultDatabaseName ∨ db = name)
  | DCreate db name owner createOnly _ =>
      db = defaultDatabaseName ∧ ∃ read d cluster, live_database pre read cluster name ∧ database_answered pre d ∧
        declared_owner pre read owner ∧ may_own pre d cluster name createOnly
  | DSetComment db name comment _ =>
      db = defaultDatabaseName ∧ database_owned pre name ∧ ∃ d cluster signer, database_answered pre d ∧
        cluster_signer pre cluster signer ∧ comment = marker signer markerKindDatabase (db_Name d)
  | DDrop db name _ => db = defaultDatabaseName ∧ ∃ d cluster, database_may_drop pre d cluster name
  | DCreateSchema db name owner _ =>
      database_owned pre db ∧ ∃ d, database_answered pre d ∧ may_create_schema pre d db name owner
  | DAlterSchema db name owner _ =>
      database_owned pre db ∧ ∃ read d cluster ownerPGName, live_database pre read cluster db ∧ declared_owner pre read ownerPGName ∧
        database_answered pre d ∧ may_alter_schema pre d db name owner ownerPGName
  | DCreateSecret s _ =>
      ∃ name read d cluster data, live_database pre read cluster name ∧ database_owned pre name ∧ database_answered pre d ∧
        s = newDatabaseSecret d data ∧ owner_credentials pre read d cluster data ∧ DGetSecret (db_Namespace d) (databaseSecretName d) (inl None) ∈ pre
  | DUpdateSecret s _ =>
      ∃ name read d cluster data old, live_database pre read cluster name ∧ database_owned pre name ∧ database_answered pre d ∧
        s = set_data old (sec_Labels old) (sec_Annotations old) data ∧ owner_credentials pre read d cluster data ∧
        DGetSecret (db_Namespace d) (databaseSecretName d) (inl (Some old)) ∈ pre
  | DSaveStatus d _ => dst_Ready (db_Status d) = true → ∃ name, database_owned pre name
  | DPatch base new _ => databaseFinalizer ∈ db_Finalizers base → databaseFinalizer ∉ db_Finalizers new → database_released pre base
  | _ => True
  end.

#[export] Instance no_older_database_mono d name : Mono (λ tr, no_older_database tr d name).
Proof. unfold no_older_database. solve_mono. Qed.
#[export] Instance database_recorded_mono d cluster name : Mono (λ tr, database_recorded tr d cluster name).
Proof. unfold database_recorded. solve_mono. Qed.
#[export] Instance database_not_recorded_mono d cluster name : Mono (λ tr, database_not_recorded tr d cluster name).
Proof. unfold database_not_recorded. solve_mono. Qed.
#[export] Instance cluster_signer_mono cluster signer : Mono (λ tr, cluster_signer tr cluster signer).
Proof. unfold cluster_signer. solve_mono. Qed.
#[export] Instance may_own_mono d cluster name co : Mono (λ tr, may_own tr d cluster name co).
Proof. unfold may_own. solve_mono. Qed.
#[export] Instance database_answered_mono d : Mono (λ tr, database_answered tr d).
Proof. unfold database_answered. solve_mono. Qed.
#[export] Instance declared_owner_mono read owner : Mono (λ tr, declared_owner tr read owner).
Proof. unfold declared_owner. solve_mono. Qed.
#[export] Instance live_database_mono read cluster name : Mono (λ tr, live_database tr read cluster name).
Proof. unfold live_database. solve_mono. Qed.
#[export] Instance database_owned_mono name : Mono (λ tr, database_owned tr name).
Proof. unfold database_owned. solve_mono. Qed.
#[export] Instance no_database_to_drop_mono d cluster : Mono (λ tr, no_database_to_drop tr d cluster).
Proof. unfold no_database_to_drop. solve_mono. Qed.
#[export] Instance may_alter_schema_mono d db name owner pg : Mono (λ tr, may_alter_schema tr d db name owner pg).
Proof. unfold may_alter_schema. solve_mono. Qed.
#[export] Instance may_create_schema_mono d db name owner : Mono (λ tr, may_create_schema tr d db name owner).
Proof. unfold may_create_schema. solve_mono. Qed.
#[export] Instance owner_role_mono read role : Mono (λ tr, owner_role tr read role).
Proof. unfold owner_role. solve_mono. Qed.
#[export] Instance owner_credentials_mono read d cluster data : Mono (λ tr, owner_credentials tr read d cluster data).
Proof. unfold owner_credentials. solve_mono. Qed.
End facts.

(** ** The functions of the pass *)

Section pass.
Context `{UnicodePrint} `{Digests} `{ErrorText} `{ConditionSetter}.
Context {W : Type} (r : databaseOps W) (fuel : nat).

Abbreviation lr := (db_ops r).
Abbreviation runs := (runs (W := W) db_call_ok).
Abbreviation admin := (db_client (W := W) defaultDatabaseName).
Abbreviation outcome := (λ (_ : Z * error) (_ : list db_event), True).
(** A pass that went on has [R]. *)
Abbreviation going_on := (on_ok (F := Z * error)).

(** The next call, which needs no justification. *)
Ltac call x tr P E := eapply runs_call; [intros; exact I|]; intros x tr P E; cbv beta.

Lemma database_updateStatus_runs tr d ready schemas err :
  (ready = true → ∃ name, database_owned tr name) → runs tr (Database_updateStatus lr d ready schemas err) outcome.
Proof.
  intros Hr. unfold Database_updateStatus. eapply runs_call; [|intros e tr1 P1 _; by apply runs_ret]. intros e. by simpl.
Qed.

Lemma failed_runs {A} tr d schemas err R : runs tr (failed lr (A := A) d schemas err) (going_on R).
Proof.
  unfold failed. eapply runs_bind; [by apply database_updateStatus_runs|]. intros o tr1 P1 _. by apply runs_ret.
Qed.

Lemma orFail_runs {A} tr d (m : M (W * list db_event) (result A)) R :
  runs tr m (on_ok R) → runs tr (orFail lr d m) (going_on R).
Proof.
  intros Hm. unfold orFail. eapply runs_bind; [exact Hm|]. intros [x|e] tr1 P1 Hx; [by apply runs_ret|apply failed_runs].
Qed.

Lemma runs_quiet {A} tr (m : M (W * list db_event) A) Q :
  runs tr m Q → runs tr m (λ _ _, True).
Proof. intros Hm. eapply runs_conseq; [exact Hm|done]. Qed.

Lemma readClientTLS_runs tr cluster : runs tr (clusterClientTLS (dbo_GetSecret lr) cluster) (on_ok (λ _ _, True)).
Proof.
  unfold clusterClientTLS. destruct (negb _); [by apply runs_ret|]. call s tr1 P1 E1. apply runs_ret.
  by destruct s as [[s|]|e]; simpl; [case_decide| |].
Qed.

(** A connection to [db], once it may be opened. *)
Lemma operatorClient_runs tr cluster db : db = defaultDatabaseName ∨ database_owned tr db →
  runs tr (operatorClient lr cluster db) (on_ok (λ pg _, ∃ pg0, pg = db_client db pg0)).
Proof.
  intros Hdb. unfold operatorClient.
  eapply (runs_bind _ _ _ _ (on_ok (λ cfg _, cc_Database cfg = db))).
  - unfold operatorConnectionConfig. call s tr1 P1 E1. destruct s as [[s|]|e]; try by apply runs_ret.
    eapply runs_bind; [apply readClientTLS_runs|]. intros [t|e] tr2 P2 _; by apply runs_ret.
  - intros [cfg|e] tr1 P1 Hcfg; [|by apply runs_ret]. simpl in *. unfold db_open.
    eapply runs_call; [|intros c tr2 P2 _; apply runs_ret; destruct c as [pg0|e]; [|done]; rewrite Hcfg; by exists pg0].
    intros _. simpl. rewrite Hcfg. destruct Hdb; [by left|right; carry].
Qed.

(** *** Names and ownership *)

Lemma checkDatabaseName_runs tr d name :
  runs tr (checkDatabaseName lr d name) (λ e tr', match e with
    | None => reservedDatabaseName name = None ∧ no_older_database tr' d name
    | Some _ => reservedDatabaseName name ≠ None ∨ (∃ e, DListDatabases (db_Namespace d) (inr e) ∈ tr') ∨
        ∃ databases o, DListDatabases (db_Namespace d) (inl databases) ∈ tr' ∧ o ∈ databases ∧
          ds_ClusterRef (db_Spec o) = ds_ClusterRef (db_Spec d) ∧ db_UID o ≠ db_UID d ∧
          Database_PostgresName o = name ∧ database_createdBefore o d = true
    end).
Proof.
  unfold checkDatabaseName. destruct (reservedDatabaseName name) eqn:Er; [apply runs_ret; by left|].
  call l tr1 P1 E1. apply runs_ret. destruct l as [l|e]; [|eauto].
  destruct (duplicateDatabase _ _ _) as [o|] eqn:Ed.
  - apply head_filter_Some in Ed as (Ho & ? & ? & ? & ?). right; right. by exists l, o.
  - split; [done|]. exists l. split; [done|]. intros o Ho Hc Hu Hn.
    destruct (database_createdBefore o d) eqn:Eb; [|done]. exfalso. by apply (head_filter_None _ _ o Ed).
Qed.

Lemma database_signer_runs tr cluster :
  runs tr (loadMarkerSigner (dbo_GetSecret lr) cluster) (λ s tr', match s with
    | inl signer => cluster_signer tr' cluster signer
    | inr _ => ∃ a, DGetSecret (k_Namespace cluster) (markerKeySecretName cluster) a ∈ tr' ∧
        ∀ s, a = inl (Some s) → (String.length (secret_value s secretKeyMarkerKey) < markerKeySize)%nat
    end).
Proof.
  unfold loadMarkerSigner. call s tr1 P1 E1. apply runs_ret. destruct s as [[s|]|e]; [| |]; [|by eexists..].
  case_bool_decide as Hk; [|exists s; split_and!; [done|lia|done]].
  eexists. split; [exact E1|]. by intros s' [= <-].
Qed.

Lemma databaseRecorded_runs tr d cluster name :
  runs tr (databaseRecorded lr d cluster name) (on_ok (λ b tr',
    if b : bool then database_recorded tr' d cluster name else database_not_recorded tr' d cluster name)).
Proof.
  unfold databaseRecorded. case_decide as Hn.
  { apply runs_ret. destruct Hn; [by left|right; by left]. }
  assert (name ≠ "" ∧ dst_DatabaseName (db_Status d) = name) as [Hne Hrn].
  { split; [tauto|]. destruct (decide (dst_DatabaseName (db_Status d) = name)); tauto. }
  case_decide as Hu.
  { apply runs_ret. simpl. case_bool_decide; [by split_and!; auto|]. right; right; left. done. }
  case_decide as Ho; [apply runs_ret; do 3 right; by auto|].
  call s tr1 P1 E1. apply runs_ret. destruct s as [[s|]|e]; [| |done]; simpl.
  - assert (¬ (sec_ControllerUID s = Some (db_UID d) ∧ secret_value s SecretKeyHost = clusterHost cluster) →
      database_not_recorded tr1 d cluster name) as Hnot.
    { intros Hc. do 3 right. split; [done|right]. exists (Some s). split; [done|]. by intros x [= <-]. }
    case_bool_decide as Hc; [case_bool_decide as Hh|]; simpl; [|apply Hnot; tauto..].
    split_and!; [done|done|]. right. split_and!; [done|done|]. by exists s.
  - do 3 right. split; [done|right]. exists None. split; [done|]. by intros x.
Qed.

Lemma ensureDatabase_runs tr pg0 read d cluster signer name owner recorded :
  live_database tr read cluster name → database_answered tr d → declared_owner tr read owner → cluster_signer tr cluster signer →
  (recorded = true → database_recorded tr d cluster name) →
  runs tr (ensureDatabase (dbc_ownership (admin pg0)) d cluster signer name owner recorded)
    (λ o tr', (∃ st, o.2 = set_db_status d st ∧ dst_CreatedSchemas st = dst_CreatedSchemas (db_Status d)) ∧
              (o.1 = None → database_owned tr' name)).
Proof.
  intros Hlive Hans Hown Hs Hrec. assert (∃ st, d = set_db_status d st ∧ dst_CreatedSchemas st = dst_CreatedSchemas (db_Status d)) as Hkeep
    by (exists (db_Status d); by destruct d).
  unfold ensureDatabase. call c tr1 P1 E1. destruct c as [found|e]; [|by apply runs_ret].
  assert (∀ co, (found = None ∧ co = true ∨ ∃ c, found = Some c ∧ co = false ∧
      (database_recorded tr1 d cluster name ∧ own_database_comment signer d c ∨
       AllowsAdoptingDatabase (k_RolePolicy cluster) name = true)) →
    runs tr1 (doc_CreateDatabase (dbc_ownership (admin pg0)) name owner co ≫= λ e, match e with
      | Some e => mret (Some (if errors_Is errObjectExists e then CondErr ReasonDatabaseNotManaged (Wrapf
            "the PostgreSQL database %s was created by someone else while pgop was creating it; pgop does not take it over: %w"
            [name] e) else e), d)
      | None =>
          e ← (if decide (default "" found = marker signer markerKindDatabase (db_Name d)) then mret None
               else doc_CommentOnDatabase (dbc_ownership (admin pg0)) name (marker signer markerKindDatabase (db_Name d)));
          mret (e, set_db_status d (set_database_recorded (db_Status d) name (k_UID cluster)))
      end)
      (λ o tr', (∃ st, o.2 = set_db_status d st ∧ dst_CreatedSchemas st = dst_CreatedSchemas (db_Status d)) ∧
                (o.1 = None → database_owned tr' name))) as Hgo.
  { intros co Hco. eapply runs_call.
    - intros e. split; [done|]. exists read, d, cluster. split_and!; [carry|carry|carry|]. exists signer, found. split_and!; [carry|done|done].
    - intros [e|] tr2 P2 E2; [by apply runs_ret|].
      assert (database_owned tr2 name) as Ho by (by exists owner, co).
      eapply (runs_bind _ _ _ _ (λ _ _, True)).
      + case_decide; [by apply runs_ret|]. apply runs_logged; [|done]. intros e. split; [done|]. split; [done|].
        exists d, cluster, signer. split_and!; [carry|carry|done].
      + intros e tr3 P3 _. apply runs_ret. split; [by eauto|]. intros _. carry. }
  unfold decideOwnership. destruct found as [c|]; simpl; [|apply Hgo; by left].
  destruct (recorded && verify _ _ _ _) eqn:Ev.
  { apply andb_true_iff in Ev as [Hr Ev]. apply Hgo. right. exists c. split_and!; [done|done|]. left. split; [|by left].
    specialize (Hrec Hr). carry. }
  destruct (recorded && refreshableComment _ _ _ _) eqn:Er.
  { apply andb_true_iff in Er as [Hr Er]. apply Hgo. right. exists c. split_and!; [done|done|]. left. split; [|by right].
    specialize (Hrec Hr). carry. }
  destruct (AllowsAdoptingDatabase _ _) eqn:Ea; [|by apply runs_ret]. apply Hgo. right. exists c. auto.
Qed.

(** *** Deletion *)

Lemma dropPostgresDatabase_runs tr cluster d :
  DGetDatabase (inl (Some d)) ∈ tr → db_Deleting d = true → databaseFinalizer ∈ db_Finalizers d →
  DGetCluster (db_Namespace d) (ds_ClusterRef (db_Spec d)) (inl (Some cluster)) ∈ tr →
  runs tr (dropPostgresDatabase lr cluster d) (λ e tr', e = None →
    DDrop defaultDatabaseName (dst_DatabaseName (db_Status d)) None ∈ tr' ∨ no_database_to_drop tr' d cluster).
Proof.
  intros Hread Hdel Hfin Hcl. unfold dropPostgresDatabase. cbv zeta. set (name := dst_DatabaseName (db_Status d)).
  eapply runs_bind; [apply databaseRecorded_runs|]. intros [recorded|e] tr2 P2 Hrec; [|by apply runs_ret]. simpl in Hrec.
  assert (∀ tr' : list db_event, no_database_to_drop tr' d cluster → runs tr' (mret (None : error)) (λ e tr', e = None →
    DDrop defaultDatabaseName name None ∈ tr' ∨ no_database_to_drop tr' d cluster)) as Hnothing.
  { intros tr' Hn. apply runs_ret. by right. }
  destruct recorded; [|rewrite orb_true_r; apply Hnothing; by left].
  case_bool_decide as Hne; [by destruct Hrec|]. simpl.
  eapply runs_bind; [apply checkDatabaseName_runs|]. intros [e|] tr3 P3 Hn.
  { apply Hnothing. right. destruct Hn as [?|[?|?]]; auto. }
  destruct Hn as [Hr Hold]. eapply runs_bind; [apply operatorClient_runs; by left|].
  intros [pg|e] tr1 P1 Hpg; [|by apply runs_ret]. destruct Hpg as [pg0 ->].
  call c tr4 P4 E4. destruct c as [[comment|]|e]; [|apply Hnothing; do 4 right; by left|by apply runs_ret].
  eapply runs_bind; [apply database_signer_runs|]. intros s tr5 P5 Hs. cbv zeta.
  set (signer := match s with inl signer => signer | inr _ => _ end).
  assert (cluster_signer tr5 cluster signer ∨ signer = no_signer ∧ ∃ a, DGetSecret (k_Namespace cluster) (markerKeySecretName cluster) a ∈ tr5 ∧
    ∀ s, a = inl (Some s) → (String.length (secret_value s secretKeyMarkerKey) < markerKeySize)%nat) as Hsg
    by (destruct s; [by left|by right]).
  assert (own_database_comment signer d comment → runs tr5 (dbc_DropDatabase (admin pg0) name) (λ e tr', e = None →
    DDrop defaultDatabaseName name None ∈ tr' ∨ no_database_to_drop tr' d cluster)) as Hgo.
  { intros Hown. apply runs_logged; [|intros e tr' P' E' ->; by left]. intros e. split; [done|]. exists d, cluster.
    split_and!; [carry|done|done|carry|carry|done|carry|]. exists comment, signer. split_and!; [carry| |done].
    destruct Hsg as [?|[? _]]; auto. }
  unfold decideOwnership. simpl. destruct (verify signer _ _ _) eqn:Ev; [apply Hgo; by left|].
  destruct (refreshableComment signer _ _ _) eqn:Er; [apply Hgo; by right|].
  apply Hnothing. do 5 right. exists comment, signer. split_and!; [carry|done|]. intros [?|?]; congruence.
Qed.

Lemma getCluster_runs tr d : runs tr (getCluster lr d) (on_ok (λ c tr',
  DGetCluster (db_Namespace d) (ds_ClusterRef (db_Spec d)) (inl c) ∈ tr')).
Proof. unfold getCluster. call c tr1 P1 E1. apply runs_ret. by destruct c. Qed.

(** The patch that keeps the finalizer, or that is allowed to drop it. *)
Lemma patchFinalizers_runs tr d f :
  (databaseFinalizer ∈ db_Finalizers d → databaseFinalizer ∉ f → database_released tr d) →
  runs tr (patchFinalizers lr d f) (going_on (λ d' tr', ∃ base new, DPatch base new (inl d') ∈ tr')).
Proof.
  intros Hf. unfold patchFinalizers. eapply runs_call; [intros p; exact Hf|]. intros p tr1 P1 E1. apply runs_ret.
  destruct p; simpl; eauto.
Qed.

Lemma reconcileDatabaseDeletion_runs tr d :
  DGetDatabase (inl (Some d)) ∈ tr → db_Deleting d = true → runs tr (reconcileDatabaseDeletion lr d) (λ _ _, True).
Proof.
  intros Hread Hdel. unfold reconcileDatabaseDeletion. case_bool_decide as Hfin; simpl; [|by apply runs_ret].
  eapply runs_bind; [apply getCluster_runs|]. intros c tr1 P1 E1.
  eapply (runs_bind _ _ _ _ (λ e tr', e = None → database_released tr' d)).
  - destruct c as [[cluster|]|e]; simpl in E1; [|apply runs_ret; intros _; split_and!; [carry|done|by left]|by apply runs_ret].
    eapply runs_conseq; [apply dropPostgresDatabase_runs; [carry|done|done|carry]|].
    intros e tr' P' He ->. split_and!; [carry|done|]. right. exists cluster. split; [carry|]. by apply He.
  - intros [e|] tr2 P2 Hr; [by apply runs_ret|]. eapply runs_quiet. eapply runs_ebind; [apply patchFinalizers_runs; auto|].
    intros d' tr3 P3 _. by apply (runs_ret _ _ _ (on_ok (λ _ _, True))).
Qed.

(** *** Schemas *)

Section schemas.
Context (db : string) (pg0 : schemaClient W) (read d : Database) (cluster : PgCluster) (ownerPGName : string).

(** What is known when the schemas are reconciled. *)
Definition schemas_ready (tr : list db_event) : Prop :=
  database_owned tr db ∧ live_database tr read cluster db ∧ declared_owner tr read ownerPGName ∧ database_answered tr d.

#[local] Instance schemas_ready_mono : Mono schemas_ready.
Proof. unfold schemas_ready. solve_mono. Qed.

Abbreviation lsch := (db_schemas db pg0).
Abbreviation recorded := (list_to_set (dst_CreatedSchemas (db_Status d)) : gset string).

Lemma reconcileSchema_runs tr dbOwner schema :
  schemas_ready tr → DOwner db (inl dbOwner) ∈ tr → schema ∈ ds_Schemas (db_Spec d) →
  runs tr (reconcileSchema lsch recorded dbOwner ownerPGName schema) (λ _ _, True).
Proof.
  intros Hready Hdb Hin. unfold reconcileSchema. destruct (systemSchemaName _) eqn:Esys; [by apply runs_ret|].
  call i tr1 P1 E1. destruct i as [[info|]|e]; [| |by apply runs_ret].
  - unfold adoptSchema. cbv zeta. destruct (_ && si_OwnerIsBootstrap info) eqn:Epub; [by apply runs_ret|].
    eapply (runs_bind _ _ _ _ (λ a tr', a = inl true → ss_Name schema ∈ dst_CreatedSchemas (db_Status d) ∨
      si_Owner info = ss_Owner schema ∨ ∃ role, DLookup db (si_Owner info) (inl (Some role)) ∈ tr' ∧ rr_Superuser role = false ∧
       (si_Owner info = pgDatabaseOwnerRole ∨ DOwner db (inl (si_Owner info)) ∈ tr' ∧ si_Owner info = ownerPGName ∧ ownerPGName ≠ ""))).
    + unfold schemaAllowed. cbv zeta. destruct (decide (ss_Name schema ∈ recorded)) as [Hrec|Hrec];
        [apply runs_ret; intros _; left; by apply elem_of_list_to_set in Hrec|].
      destruct (_ || _ || _) eqn:Eo; [|by apply runs_ret]. call a tr2 P2 E2. apply runs_ret.
      destruct a as [[role|]|e]; [|done..]. intros [= Hs%negb_true_iff]. right.
      destruct (decide (si_Owner info = ss_Owner schema)) as [|Hne]; [by left|right]. exists role. split_and!; [done|done|].
      rewrite (bool_decide_eq_false_2 _ Hne) in Eo. simpl in Eo.
      apply orb_true_iff in Eo as [[[Ho Hn%negb_true_iff]%andb_true_iff Hd]%andb_true_iff|Eo%bool_decide_eq_true]; [right|by left].
      apply bool_decide_eq_true in Ho, Hd. apply bool_decide_eq_false in Hn. rewrite Ho, Hd. split_and!; [rewrite <- Hd; carry|done|done].
    + intros [[|]|e] tr2 P2 Ha; [|by apply runs_ret..]. specialize (Ha eq_refl).
      destruct (bool_decide (ss_Owner schema ≠ "") && bool_decide (si_Owner info ≠ ss_Owner schema)) eqn:Ealt; [|by apply runs_ret]. apply andb_true_iff in Ealt as [Hne%bool_decide_eq_true Hdiff%bool_decide_eq_true].
      eapply runs_call; [|intros e tr3 P3 _; by apply runs_ret]. intros ?.
      assert (schemas_ready tr2) as (Ho & Hl & Hd & Hans) by carry. split; [done|].
      exists read, d, cluster, ownerPGName. split_and!; [done|done|done|]. exists schema, info.
      split_and!; [done|done|done|done|done|carry|done| |].
      { intros Hp. rewrite (bool_decide_eq_true_2 _ Hp) in Epub. done. }
      destruct Ha as [?|[?|?]]; [by left|done|by right].
  - unfold createSchema. eapply runs_call; [|intros e tr2 P2 _; by apply runs_ret]. intros ?.
    assert (schemas_ready tr1) as (Ho & Hl & Hd & Hans) by carry. split; [done|]. exists d. split; [done|].
    exists schema. split_and!; [done|done|done|carry|]. case_decide; [right; split; [done|carry]|by left].
Qed.

Lemma schemaLoop_runs tr dbOwner schemas managed system notManaged :
  schemas_ready tr → DOwner db (inl dbOwner) ∈ tr → (∀ s, s ∈ schemas → s ∈ ds_Schemas (db_Spec d)) →
  runs tr (schemaLoop lsch recorded dbOwner ownerPGName schemas managed system notManaged) (λ _ _, True).
Proof.
  revert tr managed system notManaged. induction schemas as [|schema schemas IH]; intros tr managed system notManaged Hready Hdb Hin;
    simpl; [by apply runs_ret|].
  eapply runs_bind; [apply reconcileSchema_runs; [done|done|apply Hin; by left]|].
  intros [[| |text]|e] tr1 P1 _; [| | |by apply runs_ret]; (apply IH; [carry|carry|intros s Hs; apply Hin; by right]).
Qed.

Lemma reconcileSchemas_runs tr st :
  schemas_ready tr → dst_CreatedSchemas st = dst_CreatedSchemas (db_Status d) →
  runs tr (reconcileSchemas lsch (set_db_status d st) ownerPGName) (λ _ _, True).
Proof.
  intros Hready Hst. unfold reconcileSchemas. simpl. rewrite Hst. call o tr1 P1 E1. destruct o as [dbOwner|e]; [|by apply runs_ret].
  eapply runs_bind; [apply schemaLoop_runs; [carry|done|done]|]. intros [[[m s] n] err] tr2 P2 _. apply runs_ret. done.
Qed.
End schemas.

(** *** Components, once PostgreSQL has the database *)

Section components.
Context (db name : string).

Lemma runs_components tr {A} (m : M (W * list db_event) A) : database_owned tr name → db = defaultDatabaseName ∨ db = name →
  only (component_call db) m → runs tr m (λ _ _, True).
Proof.
  intros Ho Hdb Hm. eapply runs_only; [exact Hm|]. intros pre ev P [->|(d & e & ->)]; simpl.
  - exists name. split; [carry|done].
  - intros _. exists name. carry.
Qed.

Lemma only_component_call {A} (m : M W A) : only (component_call db) (logged (λ _, DComponent db) m).
Proof. apply only_logged. by left. Qed.
Hint Resolve only_component_call : core.

Lemma db_executor_only x : only_executor (component_call db) (db_executor db (W := W) x).
Proof. split_and!; intros; simpl; auto. Qed.

Lemma db_database_grants_only c : only_database_grants (component_call db) (db_database_grants db (W := W) c).
Proof. split; [apply db_executor_only|]. split_and!; intros; simpl; auto. Qed.

Lemma db_schema_grants_only c : only_schema_grants (component_call db) (db_schema_grants db (W := W) c).
Proof. split; [apply db_executor_only|]. split_and!; intros; simpl; auto. Qed.

Lemma db_extensions_only c : only_extensions (component_call db) (db_extensions db (W := W) c).
Proof. split; intros; simpl; auto. Qed.

Lemma db_extension_grants_only c : only_extension_grants (component_call db) (db_extension_grants db (W := W) c).
Proof. split; [apply db_executor_only|..]; intros; simpl; auto. Qed.

Lemma db_objects_only c : only_objects (component_call db) (db_objects db (W := W) c).
Proof. split; intros; simpl; auto. Qed.

Lemma database_saver_only d g st : database_saver lr d = Some g → only (component_call db) (g st).
Proof. intros [= <-]. apply only_logged. intros e. right. by eexists _, _. Qed.

Lemma reconcileSettingsAndGrants_only pg0 d pgName p c ck :
  only (component_call db) (reconcileSettingsAndGrants lr (db_client db pg0) d pgName p c ck).
Proof.
  pose proof (db_database_grants_only (dbc_grants pg0)) as Hg. pose proof Hg as (Hx & Ha & _).
  unfold reconcileSettingsAndGrants. cbv zeta. apply only_bind; [by apply reconcileDatabaseSettings_only|]. intros [e1 st1].
  apply only_bind; [apply reconcileDatabaseGrants_only; [simpl; auto|apply database_saver_only|done]|]. intros [[e2 st2] ck2].
  apply only_bind; [apply reconcilePublicPrivileges_only; [apply database_saver_only|done|done]|]. intros [e3 st3]. apply only_ret.
Qed.

Lemma reconcileSchemaAccess_only pg0 d pgName managed c st ck :
  only (component_call db) (reconcileSchemaAccess lr (db_client db pg0) d pgName managed c st ck).
Proof.
  pose proof (db_database_grants_only (dbc_grants pg0)) as (Hx & Ha & _).
  unfold reconcileSchemaAccess. cbv zeta.
  apply only_bind; [apply reconcileSchemaGrants_only; [simpl; auto|apply database_saver_only|apply db_schema_grants_only]|].
  intros [[e1 st1] ck1].
  apply only_bind; [apply reconcilePublicPrivileges_only; [apply database_saver_only|done|done]|]. intros [e2 st2]. apply only_ret.
Qed.
End components.

(** Settings and the grants on the database leave the record of the schemas. *)
Lemma reconcileSettingsAndGrants_schemas (pg : databaseClient (W * list db_event)) d pgName p c ck :
  returns (reconcileSettingsAndGrants lr pg d pgName p c ck) (λ o, dst_CreatedSchemas o.1.2 = dst_CreatedSchemas (db_Status d)).
Proof.
  unfold reconcileSettingsAndGrants. cbv zeta.
  apply (returns_bind _ _ (λ o, dst_CreatedSchemas o.2 = dst_CreatedSchemas (db_Status d))).
  { unfold reconcileDatabaseSettings. by walk_returns. }
  intros [e1 st1] H1'. simpl in H1'.
  apply (returns_bind _ _ (λ o, dst_CreatedSchemas o.1.2 = dst_CreatedSchemas (db_Status d))).
  { unfold reconcileDatabaseGrants. by walk_returns. }
  intros [[e2 st2] ck2] H2'. simpl in H2'.
  apply (returns_bind _ _ (λ o, dst_CreatedSchemas o.2 = dst_CreatedSchemas (db_Status d))).
  { unfold reconcilePublicPrivileges. by walk_returns. }
  intros [e3 st3] H3'. by apply returns_ret.
Qed.

(** *** The owner and the Secret *)

Lemma resolveOwnerRole_runs tr d : runs tr (resolveOwnerRole lr d) (on_ok (λ o tr', match o with
  | None => ds_Owner (db_Spec d) = ""
  | Some role => DGetRole (db_Namespace d) (ds_Owner (db_Spec d)) (inl (Some role)) ∈ tr' ∧ rst_Ready (role_Status role) = true
  end)).
Proof.
  unfold resolveOwnerRole. cbv zeta. case_decide; [by apply runs_ret|]. call g tr1 P1 E1. apply runs_ret.
  destruct g as [[role|]|e]; [|done..]. by destruct (rst_Ready _) eqn:Er.
Qed.

(** The owner is the declared one, ready, when there is one. *)
Definition ready_owner (tr : list db_event) (read : Database) (ownerRole : option Role) : Prop :=
  ∀ role, ownerRole = Some role → owner_role tr read role.

#[local] Instance ready_owner_mono read ownerRole : Mono (λ tr, ready_owner tr read ownerRole).
Proof. unfold ready_owner. solve_mono. Qed.

Lemma reconcileDatabaseSecret_runs tr read d st ownerRole cluster name :
  live_database tr read cluster name → database_owned tr name → database_answered tr d → ready_owner tr read ownerRole →
  runs tr (reconcileDatabaseSecret lr (set_db_status d st) ownerRole cluster) (λ _ _, True).
Proof.
  intros Hlive Ho Hans Hready. unfold reconcileDatabaseSecret. destruct ownerRole as [role|]; [|by apply runs_ret].
  destruct (IsLogin (role_Spec role)) eqn:El; simpl; [|by apply runs_ret].
  call s tr1 P1 E1. destruct s as [[roleSecret|]|e]; [|by apply runs_ret..].
  eapply runs_bind; [apply readClientTLS_runs|]. intros [t|e] tr2 P2 _; [|by apply runs_ret].
  assert (owner_credentials tr2 read d cluster (databaseSecretData d cluster roleSecret t)) as Hc.
  { assert (owner_role tr read role) as Hr by (by apply Hready). exists role, roleSecret, t. split_and!; [carry|done|carry|done]. }
  unfold writeDatabaseSecret. call s tr3 P3 E3. destruct s as [[old|]|e]; [| |by apply runs_ret].
  - case_decide; [by apply runs_ret|]. apply runs_logged; [|done]. intros e.
    exists name, read, d, cluster, (databaseSecretData d cluster roleSecret t), old. split_and!; [carry..|done|carry|done].
  - apply runs_logged; [|done]. intros e. exists name, read, d, cluster, (databaseSecretData d cluster roleSecret t).
    split_and!; [carry..|done|carry|done].
Qed.

(** *** The whole pass *)

Lemma reconcileInDatabase_runs tr pg0 read d st cluster name ownerRole managed a :
  live_database tr read cluster name → database_owned tr name → database_answered tr d → ready_owner tr read ownerRole →
  runs tr (reconcileInDatabase lr fuel (db_client name pg0) (set_db_status d st) cluster name ownerRole managed a) outcome.
Proof.
  intros Hlive Ho Hans Hready. unfold reconcileInDatabase.
  eapply runs_bind.
  { apply (runs_components name name); [exact Ho|by right|]. apply reconcileExtensions_only; [apply db_extensions_only|apply database_saver_only]. }
  intros [[states extErr] st1] tr1 P1 _.
  eapply runs_bind.
  { apply (runs_components name name); [carry|by right|]. apply reconcileSchemaAccess_only. }
  intros [[e1 st2] ck2] tr2 P2 _.
  eapply runs_bind.
  { apply (runs_components name name); [carry|by right|].
    apply reconcileExtensionAccess_only; [intros; apply only_component_call|apply database_saver_only|apply db_extension_grants_only|
      apply only_component_call]. }
  intros [[e2 st3] ck3] tr3 P3 _.
  eapply runs_bind.
  { apply (runs_components name name); [carry|by right|].
    apply reconcileObjectAccess_only; [intros; apply only_component_call|apply database_saver_only|apply db_objects_only|
      apply only_component_call]. }
  intros [[e3 st4] ck4] tr4 P4 _. cbv zeta.
  eapply runs_bind; [apply (reconcileDatabaseSecret_runs _ read d st4 ownerRole cluster name); carry|].
  intros e tr5 P5 _. assert (database_owned tr5 name) by carry.
  destruct e; [|destruct (errors_Join _)]; apply database_updateStatus_runs; [done..|]. intros _. by exists name.
Qed.

Lemma connectDatabase_runs tr pg0 d cluster name accessErr :
  database_owned tr name →
  runs tr (connectDatabase lr (admin pg0) d cluster name accessErr) (going_on (λ pg _, ∃ pg1, pg = db_client name pg1)).
Proof.
  intros Ho. unfold connectDatabase. call a tr1 P1 E1. destruct a as [[|]|e]; [|apply failed_runs..].
  apply orFail_runs, operatorClient_runs. right. carry.
Qed.

Lemma reconcileDatabaseAccess_runs tr pg0 d st cluster signer name :
  database_owned tr name →
  runs tr (reconcileDatabaseAccess lr (admin pg0) (set_db_status d st) cluster signer name)
    (on_ok (λ x _, ∃ st', x.2 = set_db_status d st' ∧ dst_CreatedSchemas st' = dst_CreatedSchemas st)).
Proof.
  intros Ho. unfold reconcileDatabaseAccess.
  eapply (runs_bind _ _ _ _ (λ _ _, True)).
  { unfold clusterGranteeChecker. call l tr1 P1 E1. by apply runs_ret. }
  intros [c|e] tr1 P1 _; [|by apply runs_ret].
  eapply runs_bind.
  { apply runs_returns; [|apply reconcileSettingsAndGrants_schemas].
    apply (runs_components defaultDatabaseName name); [carry|by left|apply reconcileSettingsAndGrants_only]. }
  intros [[e st1] ck] tr2 P2 [_ Hst]. apply runs_ret. exists st1. by split.
Qed.

Lemma ensureOnCluster_runs tr pg0 read cluster name owner :
  live_database tr read cluster name → declared_owner tr read owner →
  runs tr (ensureOnCluster lr (admin pg0) read cluster name owner) (going_on (λ x tr', database_owned tr' name ∧
    ∃ d st, database_answered tr' d ∧ x.1 = set_db_status d st ∧ dst_CreatedSchemas st = dst_CreatedSchemas (db_Status d))).
Proof.
  intros Hlive Hown. unfold ensureOnCluster.
  apply (runs_ebind _ _ _ _ (λ d tr', database_answered tr' d)).
  { case_bool_decide as Hf; [apply runs_ret; left; apply Hlive|].
    eapply runs_conseq; [apply patchFinalizers_runs; intros ??; done|]. intros [d|o] tr' P' Hd; [|done]. right. exact Hd. }
  intros d tr1 P1 Hans.
  apply (runs_ebind _ _ _ _ (λ signer tr', cluster_signer tr' cluster signer)).
  { apply orFail_runs. eapply runs_conseq; [apply database_signer_runs|]. by intros [s|e]. }
  intros signer tr2 P2 Hs. eapply runs_ebind; [apply orFail_runs, databaseRecorded_runs|]. intros recorded tr3 P3 Hrec.
  eapply runs_bind.
  { apply (ensureDatabase_runs _ _ read); [carry..|]. by intros ->. }
  intros [e d'] tr4 P4 [(st & Hst & Hsch) Ho]. simpl in *. destruct e as [e|]; [apply failed_runs|]. apply runs_ret.
  split; [by apply Ho|]. exists d, st. split_and!; [carry|done|done].
Qed.

Lemma reconcileOnReadyCluster_runs tr read cluster name :
  live_database tr read cluster name →
  runs tr (reconcileOnReadyCluster lr fuel read cluster name) (going_on (λ _ _, True)).
Proof.
  intros Hlive. unfold reconcileOnReadyCluster.
  eapply runs_ebind; [apply orFail_runs, resolveOwnerRole_runs|]. intros ownerRole tr1 P1 Hrole. cbv zeta.
  set (owner := match ownerRole with Some role => PostgresName role | None => "" end).
  assert (declared_owner tr1 read owner) as Hown.
  { destruct ownerRole as [role|]; [right; exists role; by destruct Hrole|by left]. }
  assert (ready_owner tr1 read ownerRole) as Hready by (intros role ->; exact Hrole).
  eapply runs_ebind; [apply orFail_runs, operatorClient_runs; by left|]. intros pg tr2 P2 [pg0 ->].
  eapply runs_ebind; [apply (ensureOnCluster_runs _ _ read); carry|]. intros [d' signer] tr3 P3 (Ho & d & st & Hans & Hd & Hsch).
  simpl in Hd. subst d'.
  eapply runs_ebind; [apply orFail_runs, (reconcileDatabaseAccess_runs _ _ d); exact Ho|]. intros [a d'] tr4 P4 (st' & Hd & Hsch').
  simpl in Hd. subst d'.
  eapply runs_ebind; [apply connectDatabase_runs; carry|]. intros pg tr5 P5 [pg1 ->].
  eapply runs_bind.
  { apply (reconcileSchemas_runs name (dbc_schemas pg1) read d cluster); [|by rewrite Hsch'].
    split_and!; carry. }
  intros [[managed refused] err] tr6 P6 _. destruct err as [e|]; [apply failed_runs|].
  eapply runs_bind; [apply (reconcileInDatabase_runs _ _ read); carry|]. intros o tr7 P7 _. by apply runs_ret.
Qed.

Theorem DatabaseReconcile_runs : runs [] (DatabaseReconcile lr fuel) outcome.
Proof.
  unfold DatabaseReconcile. call g tr1 P1 E1. destruct g as [[d|]|e]; [|by apply runs_ret..].
  destruct (db_Deleting d) eqn:Ed.
  - eapply runs_bind; [by apply reconcileDatabaseDeletion_runs|]. intros o tr2 P2 _. by apply runs_ret.
  - eapply (runs_bind _ _ _ _ (going_on (λ _ _, True))); [|intros o tr2 P2 _; by apply runs_ret].
    unfold reconcileLiveDatabase. cbv zeta. eapply runs_bind; [apply checkDatabaseName_runs|].
    intros [e|] tr2 P2 Hn; [apply failed_runs|]. destruct Hn as [Hres Hold].
    eapply runs_ebind; [apply orFail_runs, getCluster_runs|]. intros [cluster|] tr3 P3 E3; [|apply failed_runs].
    destruct (k_Ready cluster) eqn:Er; simpl; [|by apply runs_ret].
    apply reconcileOnReadyCluster_runs. split_and!; [carry|done|done|done|carry|done|done].
Qed.
End pass.
