(* ===== verification/DatabaseTheorems.v ===== *)
(** * The Database reconciler: theorems

    What a pass may do to PostgreSQL, to the Secret and to the Database, for every
    behaviour of the servers; the record of the schemas; and three runs that show where
    the code does not keep what it intends. *)

From S2P Require Import Prelude GoStrings GoStrconv Privileges Parameters RoleSql ApiTypes RolePolicy Objects.
From S2P Require Import Settings Memberships GrantEngine GranteePolicy Grants ObjectGrants ExtensionSql PublicPrivileges Extensions.
From S2P Require Import ExtensionGrants Password Connection Trace ComponentCalls RoleCleanup RoleReconcile.
From S2P Require Import ExtensionSafety RoleSafety RoleTheorems DatabaseReconcile DatabaseSafety.

(** ** Properties of a pass *)

Section properties.
Context `{UnicodePrint} `{Digests} `{ErrorText} `{ConditionSetter}.

(** The justification of a call of a pass. *)
Lemma database_pass_call {W} (r : databaseOps W) fuel w res w' tr pre ev post :
  DatabaseReconcile (db_ops r) fuel (w, []) = (res, (w', tr)) → tr = pre ++ ev :: post → db_call_ok pre ev.
Proof. intros Hrun. eapply runs_justified; [apply DatabaseReconcile_runs|exact Hrun]. Qed.

(** C16: a pass creates, or changes the owner of, only the PostgreSQL database that is
    its own. The name is the one the Database resolves to, not reserved, and no older
    Database of the Cluster resolves to it; the owner is the PostgreSQL role of the
    ready Role that the Database declares, or none. The database's comment was read
    before: either there was no such database, and the statement may only create one;
    or the Database's status records that very database on this very Cluster and the
    comment is the Database's signed marker or one only a recorded database may have;
    or the Cluster lets the database be adopted. *)
Theorem database_create_safe {W} (r : databaseOps W) fuel w res w' tr pre db name owner createOnly e post :
  DatabaseReconcile (db_ops r) fuel (w, []) = (res, (w', tr)) → tr = pre ++ DCreate db name owner createOnly e :: post →
  db = defaultDatabaseName ∧ reservedDatabaseName name = None ∧
  ∃ read d cluster signer found,
    DGetDatabase (inl (Some read)) ∈ pre ∧ db_Deleting read = false ∧ name = Database_PostgresName read ∧
    no_older_database pre read name ∧
    DGetCluster (db_Namespace read) (ds_ClusterRef (db_Spec read)) (inl (Some cluster)) ∈ pre ∧ k_Ready cluster = true ∧
    (owner = "" ∧ ds_Owner (db_Spec read) = "" ∨
     ∃ role, DGetRole (db_Namespace read) (ds_Owner (db_Spec read)) (inl (Some role)) ∈ pre ∧
       rst_Ready (role_Status role) = true ∧ owner = PostgresName role) ∧
    database_answered pre d ∧ cluster_signer pre cluster signer ∧ DComment defaultDatabaseName name (inl found) ∈ pre ∧
    match found with
    | None => createOnly = true
    | Some c => createOnly = false ∧
        (database_recorded pre d cluster name ∧ own_database_comment signer d c ∨
         AllowsAdoptingDatabase (k_RolePolicy cluster) name = true)
    end.
Proof.
  intros Hrun Heq. destruct (database_pass_call _ _ _ _ _ _ _ _ _ Hrun Heq) as
    [-> (read & d & cluster & (Hread & Hdel & Hname & Hres & Hold & Hcl & Hready) & Hans & Hown & signer & found & Hs & Hc & Hcase)].
  split; [done|]. split; [done|]. exists read, d, cluster, signer, found. split_and!; try done.
  - destruct Hown as [[? ?]|Hr]; [by left|by right].
  - destruct Hcase as [[-> ->]|(c & -> & -> & Hc')]; done.
Qed.

(** C17: a pass drops nothing but the database of a Database that is being deleted, and
    removes the finalizer only for one of four reasons. DROP DATABASE is for the name
    its status records on this very Cluster, which is not reserved, which no older
    Database resolves to and whose comment is the Database's marker (or one only a
    recorded database may have). The finalizer is removed only when the Cluster is
    gone, when PostgreSQL dropped the database, when there was nothing of the
    Database's to drop, or when that could not be told: a listing of the Databases that
    failed, or a marker key that could not be read, counts as nothing to drop
    ([deletion_leaks_the_database]). *)
Theorem database_drop_safe {W} (r : databaseOps W) fuel w res w' tr pre ev post :
  DatabaseReconcile (db_ops r) fuel (w, []) = (res, (w', tr)) → tr = pre ++ ev :: post →
  (∀ db name e, ev = DDrop db name e → db = defaultDatabaseName ∧ ∃ d cluster, database_may_drop pre d cluster name) ∧
  (∀ base new res, ev = DPatch base new res → databaseFinalizer ∈ db_Finalizers base → databaseFinalizer ∉ db_Finalizers new →
    DGetDatabase (inl (Some base)) ∈ pre ∧ db_Deleting base = true ∧
    (DGetCluster (db_Namespace base) (ds_ClusterRef (db_Spec base)) (inl None) ∈ pre ∨
     ∃ cluster, DGetCluster (db_Namespace base) (ds_ClusterRef (db_Spec base)) (inl (Some cluster)) ∈ pre ∧
       (DDrop defaultDatabaseName (dst_DatabaseName (db_Status base)) None ∈ pre ∨ no_database_to_drop pre base cluster))).
Proof.
  intros Hrun Heq. pose proof (database_pass_call _ _ _ _ _ _ _ _ _ Hrun Heq) as Hok.
  split; intros; subst ev; [exact Hok|by apply Hok].
Qed.

(** C18: schemas are created and given away only inside the Database's own database. A
    schema is created when the Database declares it, it is no system schema and the
    server has none of the name, owned by the declared owner or else the database's;
    an existing schema gets its declared owner only when the status records that the
    Database manages it, or when its owner is no superuser and is pg_database_owner or
    the database's owner that the Database declares; the schema public of the
    bootstrap superuser is never given away. *)
Theorem schema_owner_safe {W} (r : databaseOps W) fuel w res w' tr pre ev post :
  DatabaseReconcile (db_ops r) fuel (w, []) = (res, (w', tr)) → tr = pre ++ ev :: post →
  (∀ db name owner e, ev = DCreateSchema db name owner e →
    (∃ dbOwner createOnly, DCreate defaultDatabaseName db dbOwner createOnly None ∈ pre) ∧
    ∃ d schema, database_answered pre d ∧ schema ∈ ds_Schemas (db_Spec d) ∧ ss_Name schema = name ∧
      systemSchemaName name = false ∧ DSchemaOwner db name (inl None) ∈ pre ∧
      (ss_Owner schema = owner ∧ owner ≠ "" ∨ ss_Owner schema = "" ∧ DOwner db (inl owner) ∈ pre)) ∧
  (∀ db name owner e, ev = DAlterSchema db name owner e →
    (∃ dbOwner createOnly, DCreate defaultDatabaseName db dbOwner createOnly None ∈ pre) ∧
    ∃ read d schema info ownerPGName, DGetDatabase (inl (Some read)) ∈ pre ∧ db = Database_PostgresName read ∧
      declared_owner pre read ownerPGName ∧ database_answered pre d ∧ schema ∈ ds_Schemas (db_Spec d) ∧ ss_Name schema = name ∧
      systemSchemaName name = false ∧ ss_Owner schema = owner ∧ owner ≠ "" ∧
      DSchemaOwner db name (inl (Some info)) ∈ pre ∧ si_Owner info ≠ owner ∧
      (name = publicSchemaName → si_OwnerIsBootstrap info = false) ∧
      (name ∈ dst_CreatedSchemas (db_Status d) ∨
       ∃ role, DLookup db (si_Owner info) (inl (Some role)) ∈ pre ∧ rr_Superuser role = false ∧
         (si_Owner info = pgDatabaseOwnerRole ∨
          DOwner db (inl (si_Owner info)) ∈ pre ∧ si_Owner info = ownerPGName ∧ ownerPGName ≠ ""))).
Proof.
  intros Hrun Heq. pose proof (database_pass_call _ _ _ _ _ _ _ _ _ Hrun Heq) as Hok.
  split; intros; subst ev; simpl in Hok.
  - destruct Hok as (Ho & d & Hans & schema & Hs). split; [exact Ho|]. exists d, schema. naive_solver.
  - destruct Hok as (Ho & read & d & cluster & pg & (Hread & _ & Hname & _) & Hown & Hans & schema & info & Hs). split; [exact Ho|].
    exists read, d, schema, info, pg. naive_solver.
Qed.

End properties.

(** ** The record of the schemas *)

Section schemas.
Context `{UnicodePrint} {W : Type} (pg : schemaClient W) (db ownerPGName dbOwner : string) (recorded : gset string).

Abbreviation any := (λ (_ : list db_event) (_ : db_event), True).
Abbreviation lsch := (db_schemas db pg).

(** CREATE SCHEMA answered that the schema exists by now. *)
Definition created_meanwhile (tr : list db_event) (name : string) : Prop :=
  ∃ owner e, DCreateSchema db name owner (Some e) ∈ tr ∧ errors_Is errObjectExists e = true.

#[local] Instance created_meanwhile_mono name : Mono (λ tr, created_meanwhile tr name).
Proof. unfold created_meanwhile. solve_mono. Qed.

Lemma reconcileSchema_outcome tr schema :
  runs any tr (reconcileSchema lsch recorded dbOwner ownerPGName schema) (λ o tr', match o with
    | inl SchemaManaged => systemSchemaName (ss_Name schema) = false
    | inl SchemaSystem => systemSchemaName (ss_Name schema) = true
    | inl (SchemaRefused _) => ss_Name schema ∈ recorded → created_meanwhile tr' (ss_Name schema)
    | inr _ => True
    end).
Proof.
  unfold reconcileSchema. destruct (systemSchemaName _) eqn:Esys; [by apply runs_ret|].
  eapply runs_call; [done|]. intros i tr1 P1 E1. destruct i as [[info|]|e]; [| |by apply runs_ret].
  - unfold adoptSchema. cbv zeta. destruct (_ && si_OwnerIsBootstrap info); [by apply runs_ret|].
    eapply (runs_bind _ _ _ _ (λ a _, a = inl false → ss_Name schema ∉ recorded)).
    + unfold schemaAllowed. cbv zeta. destruct (decide (ss_Name schema ∈ recorded)); [by apply runs_ret|].
      destruct (_ || _ || _); [|by apply runs_ret]. eapply runs_call; [done|]. intros a tr2 P2 _. by apply runs_ret.
    + intros [[|]|e] tr2 P2 Ha; [|apply runs_ret; intros ?; by destruct (Ha eq_refl)|by apply runs_ret].
      destruct (bool_decide (ss_Owner schema ≠ "") && bool_decide (si_Owner info ≠ ss_Owner schema)); [|by apply runs_ret].
      eapply runs_call; [done|]. intros e tr3 P3 _. apply runs_ret. by destruct e.
  - unfold createSchema. eapply runs_call; [done|]. intros e tr2 P2 E2. apply runs_ret. destruct e as [e|]; [|done].
    destruct (errors_Is _ _) eqn:Ee; [|done]. intros _. by eexists _, e.
Qed.

Lemma schemaLoop_record tr schemas managed system notManaged :
  runs any tr (schemaLoop lsch recorded dbOwner ownerPGName schemas managed system notManaged) (λ '(m, s, nm, err) tr',
    (∀ n, n ∈ recorded → n ∈ ss_Name <$> schemas → systemSchemaName n = false → n ∈ m ∨ created_meanwhile tr' n) ∧
    (∀ n, n ∈ m → n ∈ managed ∨ n ∈ ss_Name <$> schemas) ∧ (∀ n, n ∈ managed → n ∈ m) ∧
    (err = None → s = [] → nm = [] → system = [] ∧ notManaged = [] ∧ m = managed ++ (ss_Name <$> schemas))).
Proof.
  revert tr managed system notManaged. induction schemas as [|schema schemas IH]; intros tr managed system notManaged; simpl.
  { apply runs_ret. split_and!; [by intros ? _ ?%elem_of_nil|auto|done|]. intros _ -> ->. by rewrite app_nil_r. }
  eapply runs_bind; [apply reconcileSchema_outcome|]. intros o tr1 P1 Ho.
  destruct o as [[| |text]|e].
  - eapply runs_conseq; [apply IH|]. intros [[[m s] nm] err] tr' P' (Ha & Hb & Hc & Hd). split_and!.
    + intros n Hr [->|Hn]%elem_of_cons Hs; [left; apply Hc, elem_of_app; right; by left|auto].
    + intros n [[?|Hn]%elem_of_app|?]%Hb; [by left|right; apply list_elem_of_singleton in Hn as ->; by left|right; by right].
    + intros n Hn. apply Hc, elem_of_app. by left.
    + intros He Hs Hm. destruct (Hd He Hs Hm) as (? & ? & ->). split_and!; [done|done|]. by rewrite <- app_assoc.
  - eapply runs_conseq; [apply IH|]. intros [[[m s] nm] err] tr' P' (Ha & Hb & Hc & Hd). split_and!.
    + intros n Hr [->|Hn]%elem_of_cons Hs; [congruence|auto].
    + intros n [?|?]%Hb; [by left|right; by right].
    + done.
    + intros He Hs Hm. destruct (Hd He Hs Hm) as ([? ?]%app_nil & _). done.
  - eapply runs_conseq; [apply IH|]. intros [[[m s] nm] err] tr' P' (Ha & Hb & Hc & Hd). split_and!.
    + intros n Hr [->|Hn]%elem_of_cons Hs; [right; specialize (Ho Hr); carry|auto].
    + intros n [?|?]%Hb; [by left|right; by right].
    + done.
    + intros He Hs Hm. destruct (Hd He Hs Hm) as (_ & [? ?]%app_nil & _). done.
  - apply runs_ret. unfold keepRecorded. split_and!; [| | |done].
    + intros n Hr Hn _. left. apply elem_of_app. right. by apply list_elem_of_filter.
    + intros n [?|[_ ?]%list_elem_of_filter]%elem_of_app; [by left|by right].
    + intros n Hn. apply elem_of_app. by left.
Qed.
End schemas.

(** A reconcile of the schemas never loses the record of one. Every schema that the
    status records and the spec still lists (and that is no system schema) is managed
    again, also when the reconcile stops at an error, unless CREATE SCHEMA answered
    that someone else created it meanwhile; only schemas of the spec are managed; and a
    reconcile that neither failed nor refused anything manages exactly the schemas of
    the spec, in their order. *)
Theorem schemas_record_kept `{UnicodePrint} {W} (pg : schemaClient W) db d ownerPGName w managed refused err w' tr :
  reconcileSchemas (db_schemas db pg) d ownerPGName (w, []) = ((managed, refused, err), (w', tr)) →
  (∀ n, n ∈ dst_CreatedSchemas (db_Status d) → n ∈ ss_Name <$> ds_Schemas (db_Spec d) → systemSchemaName n = false →
    n ∈ managed ∨ ∃ owner e, DCreateSchema db n owner (Some e) ∈ tr ∧ errors_Is errObjectExists e = true) ∧
  (∀ n, n ∈ managed → n ∈ ss_Name <$> ds_Schemas (db_Spec d)) ∧
  (err = None → refused = None → managed = ss_Name <$> ds_Schemas (db_Spec d)).
Proof.
  intros Hrun.
  assert (runs (λ _ _, True) [] (reconcileSchemas (db_schemas db pg) d ownerPGName) (λ '(managed, refused, err) tr,
    (∀ n, n ∈ dst_CreatedSchemas (db_Status d) → n ∈ ss_Name <$> ds_Schemas (db_Spec d) → systemSchemaName n = false →
      n ∈ managed ∨ created_meanwhile db tr n) ∧
    (∀ n, n ∈ managed → n ∈ ss_Name <$> ds_Schemas (db_Spec d)) ∧
    (err = None → refused = None → managed = ss_Name <$> ds_Schemas (db_Spec d)))) as Hr.
  { unfold reconcileSchemas. cbv zeta. eapply runs_call; [done|]. intros [dbOwner|e] tr1 P1 E1.
    - eapply runs_bind; [apply schemaLoop_record|]. intros [[[m s] nm] err'] tr2 P2 (Ha & Hb & _ & Hd). apply runs_ret.
      assert (∀ n, n ∈ m → n ∈ ss_Name <$> ds_Schemas (db_Spec d)) as Hb'.
      { intros n [?%elem_of_nil|?]%Hb; done. }
      assert (∀ n, n ∈ dst_CreatedSchemas (db_Status d) → n ∈ ss_Name <$> ds_Schemas (db_Spec d) → systemSchemaName n = false →
        n ∈ m ∨ created_meanwhile db tr2 n) as Ha' by (intros; apply Ha; [by apply elem_of_list_to_set|done|done]).
      destruct err' as [e|]; [by split_and!|]. split_and!; [done|done|]. intros _ Hn. unfold refusedSchemas in Hn.
      apply errors_Join_map_Some, app_nil in Hn as [Hs Hm].
      assert (s = []) as -> by (by destruct (decide (s = []))). assert (nm = []) as -> by (by destruct (decide (nm = []))).
      by destruct (Hd eq_refl eq_refl eq_refl) as (_ & _ & ->).
    - apply runs_ret. unfold keepRecorded. simpl. split_and!; [| |done].
      + intros n Hn Hin _. left. apply list_elem_of_filter. split; [by apply elem_of_list_to_set|done].
      + by intros n [_ ?]%list_elem_of_filter. }
  destruct (Hr w) as [_ HQ]. rewrite Hrun in HQ. exact HQ.
Qed.

(** ** Witnesses and examples *)

Module ToyReconcile.
Export RoleTheorems.ToyRole(cluster, secret, marker_key).
#[local] Existing Instances RoleTheorems.ToyRole.print RoleTheorems.ToyRole.digests RoleTheorems.ToyRole.text RoleTheorems.ToyRole.setter.

(** The Database, the Secrets, PostgreSQL's database (owner and comment) and its schemas;
    whether Databases are listed and statuses written. *)
Record world := {
  w_db : Database;
  w_secrets : gmap string Secret;
  w_pg : option (string * string);
  w_schemas : gmap string SchemaInfo;
  w_listed : bool;
  w_saved : bool }.

Definition set_pg (w : world) (pg : option (string * string)) : world :=
  {| w_db := w_db w; w_secrets := w_secrets w; w_pg := pg; w_schemas := w_schemas w; w_listed := w_listed w; w_saved := w_saved w |}.
Definition put_db (w : world) (d : Database) : world :=
  {| w_db := d; w_secrets := w_secrets w; w_pg := w_pg w; w_schemas := w_schemas w; w_listed := w_listed w; w_saved := w_saved w |}.
Definition put_secret (w : world) (s : Secret) : world :=
  {| w_db := w_db w; w_secrets := <[sec_Name s := s]> (w_secrets w); w_pg := w_pg w; w_schemas := w_schemas w;
     w_listed := w_listed w; w_saved := w_saved w |}.
Definition put_schema (w : world) (name owner : string) : world :=
  {| w_db := w_db w; w_secrets := w_secrets w; w_pg := w_pg w;
     w_schemas := <[name := {| si_Owner := owner; si_OwnerIsBootstrap := false |}]> (w_schemas w);
     w_listed := w_listed w; w_saved := w_saved w |}.

(** The owner Role of the Database "shop". *)
Definition owner_role : Role :=
  {| role_Name := "app"; role_Namespace := "ns"; role_UID := "role-uid"; role_ResourceVersion := "1"; role_Generation := 1;
     role_Finalizers := []; role_CreationTimestamp := 0; role_Deleting := false; role_Annotations := ∅; role_Spec := RoleTheorems.ToyRole.spec;
     role_Status := with_conditions (with_recorded RoleTheorems.ToyRole.new_status "app" "cluster-uid") true "c-app-credentials" [] |}.

Definition schema (name owner : string) : SchemaSpec :=
  {| ss_Name := name; ss_Owner := owner; ss_Grants := []; ss_ObjectGrants := []; ss_DefaultPrivileges := [] |}.

Definition new_status : DatabaseStatus :=
  {| dst_Ready := false; dst_DatabaseName := ""; dst_ClusterUID := ""; dst_InstalledExtensions := []; dst_Extensions := [];
     dst_ManagedExtensionGrants := []; dst_CreatedSchemas := []; dst_ManagedGrants := []; dst_ManagedSchemaGrants := [];
     dst_ManagedObjectGrants := []; dst_ManagedDefaultPrivileges := []; dst_ObjectGrants := []; dst_RevokedPublicPrivileges := [];
     dst_ManagedSettings := []; dst_Conditions := [] |}.

Definition database (deleting : bool) (finalizers : list string) (st : DatabaseStatus) : Database :=
  {| db_Name := "shop"; db_Namespace := "ns"; db_UID := "db-uid"; db_Generation := 1; db_Finalizers := finalizers;
     db_CreationTimestamp := 0; db_Deleting := deleting;
     db_Spec := {| ds_ClusterRef := "c"; ds_DatabaseName := ""; ds_Owner := "app"; ds_Extensions := [];
                   ds_Schemas := [schema "sales" "app"; schema "legacy" "app"]; ds_Grants := []; ds_Settings := ∅;
                   ds_PublicPrivileges := None |};
     db_Status := st |}.

Definition executor : privilegeExecutor world :=
  {| HeldPrivileges := λ _ _, mret (inl ([], [], true)); GrantPrivileges := λ _ _ _ _, mret None; RevokePrivileges := λ _ _ _ _, mret None |}.

Definition no_role (name : string) : ReachableRole :=
  {| rr_Name := name; rr_Via := ""; rr_Comment := ""; rr_Superuser := false; rr_CreateRole := false; rr_Replication := false;
     rr_BypassRLS := false |}.

Definition schemas : schemaClient world :=
  {| sch_SchemaOwner := λ n w, (inl (w_schemas w !! n), w);
     sch_CurrentDatabaseOwner := λ w, (inl (default "" (fst <$> w_pg w)), w);
     sch_CreateSchema := λ n o w, (None, put_schema w n o);
     sch_AlterSchemaOwner := λ n o w, (None, put_schema w n o);
     sch_LookupRole := λ n, mret (inl (Some (no_role n))) |}.

Definition client : databaseClient world :=
  {| dbc_ownership :=
       {| doc_DatabaseComment := λ _ w, (inl (snd <$> w_pg w), w);
          doc_CommentOnDatabase := λ _ c w, (None, set_pg w (Some (default "" (fst <$> w_pg w), c)));
          doc_CreateDatabase := λ _ o _ w, (None, set_pg w (Some (o, default "" (snd <$> w_pg w)))) |};
     dbc_DropDatabase := λ _ w, (None, set_pg w None);
     dbc_DatabaseAllowsConnections := λ _, mret (inl true);
     dbc_LookupRole := λ n, mret (inl (Some (no_role n)));
     dbc_ServerVersionNum := mret (inl 160000%Z);
     dbc_grants := {| dgc_executor := executor; dgc_HeldFromAnyGrantor := λ _ _ _, mret (inl false); dgc_RoleExists := λ _, mret (inl true);
       dgc_SetDatabaseParameter := λ _ _ _, mret None; dgc_ResetDatabaseParameter := λ _ _, mret None;
       dgc_ParameterContext := λ _, mret (inl None) |};
     dbc_schemas := schemas;
     dbc_schemaGrants := {| sgc_executor := executor; sgc_RoleExists := λ _, mret (inl true); sgc_SchemaExists := λ _, mret (inl true) |};
     dbc_extensions := {| xc_ExtensionVersion := λ _ _, mret (inl None); xc_InstalledExtension := λ _, mret (inl None);
       xc_ExtensionUpdatePaths := λ _ _ _, mret (inl []); xc_SchemaWriters := λ _, mret (inr (Errorf "no schema" []));
       xc_CurrentDatabaseOwner := mret (inl "app"); xc_LookupRole := λ n, mret (inl (Some (no_role n)));
       xc_CreateSchema := λ _ _, mret None; xc_CreateExtension := λ _ _ _ _, mret None; xc_UpdateExtension := λ _ _, mret None;
       xc_DropExtension := λ _, mret None |};
     dbc_extensionGrants := {| gx_executor := executor; gx_RoleExists := λ _, mret (inl true); gx_SchemaExists := λ _, mret (inl true);
       gx_InstalledExtension := λ _, mret (inl None); gx_ExtensionMembers := λ _ _ _, mret (inl []);
       gx_GrantOnMembers := λ _ _ _ _, mret None; gx_RevokeOnMembers := λ _ _ _ _, mret None |};
     dbc_objects := {| ogc_RoleExists := λ _, mret (inl true); ogc_SchemaExists := λ _, mret (inl true); ogc_RoleOIDs := λ _, mret (inl ∅);
       ogc_ListSchemaObjects := λ _ _ _, mret (inl []); ogc_ResolveRoutine := λ _ _ _, mret (inl None);
       ogc_ResolveSchemaObject := λ _ _ _ _, mret (inl None); ogc_GrantOnSchemaObject := λ _ _ _ _ _ _ _, mret None;
       ogc_RevokeOnSchemaObject := λ _ _ _ _ _ _ _, mret None; ogc_HeldDefaultPrivileges := λ _ _, mret (inl ([], []));
       ogc_GrantDefaultPrivileges := λ _ _ _ _, mret None; ogc_RevokeDefaultPrivileges := λ _ _ _ _, mret None |} |}.

Definition ops : databaseOps world :=
  {| dbo_GetDatabase := λ w, (inl (Some (w_db w)), w);
     dbo_GetCluster := λ _ _, mret (inl (Some cluster));
     dbo_GetRole := λ _ _, mret (inl (Some owner_role));
     dbo_GetSecret := λ _ n w, (inl (w_secrets w !! n), w);
     dbo_ListRoles := λ _, mret (inl [owner_role]);
     dbo_ListDatabases := λ _ w, (if w_listed w then inl [w_db w] else inr (Errorf "not listed" []), w);
     dbo_Patch := λ _ new w, (inl new, put_db w new);
     dbo_SaveStatus := λ d w, if w_saved w then (None, put_db w d) else (Some (Errorf "conflict" []), w);
     dbo_CreateSecret := λ s w, (None, put_secret w s);
     dbo_UpdateSecret := λ s w, (None, put_secret w s);
     dbo_Open := λ _, mret (inl client) |}.

Definition secrets : gmap string Secret :=
  <["op" := secret "op" (<[SecretKeyUsername := "pgop"]> {[ SecretKeyPassword := "secret" ]})]>
    (<["c-app-credentials" := secret "c-app-credentials" (<[SecretKeyUsername := "app"]> {[ SecretKeyPassword := "of app" ]})]>
      {[ "c-marker-key" := secret "c-marker-key" {[ secretKeyMarkerKey := marker_key ]} ]}).

Definition start (saved : bool) : world :=
  {| w_db := database false [] new_status; w_secrets := secrets; w_pg := None;
     w_schemas := {[ "legacy" := {| si_Owner := pgDatabaseOwnerRole; si_OwnerIsBootstrap := false |} ]}; w_listed := true; w_saved := saved |}.

Definition pass (w : world) : (Z * error) * world := DatabaseReconcile ops 10 w.
Definition logged_pass (w : world) := DatabaseReconcile (db_ops ops) 10 (w, []).

(** The Database as the first pass leaves it. *)
Definition created : world := (pass (start true)).2.
(** It is deleted, and Databases can be listed or not. *)
Definition deleted (listed : bool) : world :=
  {| w_db := database true (db_Finalizers (w_db created)) (db_Status (w_db created)); w_secrets := w_secrets created;
     w_pg := w_pg created; w_schemas := w_schemas created; w_listed := listed; w_saved := true |}.
(** After a pass whose status was not written, statuses can be written again. *)
Definition retried : world :=
  let w := (pass (start false)).2 in
  {| w_db := w_db w; w_secrets := w_secrets w; w_pg := w_pg w; w_schemas := w_schemas w; w_listed := true; w_saved := true |}.
(** The superuser's Secret of another Cluster, "shop-app". *)
Definition superuser_secret : Secret :=
  {| sec_Name := "shop-app-credentials"; sec_Namespace := "ns"; sec_ResourceVersion := "1"; sec_Labels := ∅; sec_Annotations := ∅;
     sec_OwnerReferences := []; sec_ControllerUID := Some "uid of Cluster shop-app";
     sec_Data := <[SecretKeyUsername := "postgres"]> {[ SecretKeyPassword := "of the superuser" ]} |}.

(** A call of the trace that passes a test. *)
Definition is_create (ev : db_event) : bool :=
  match ev with DCreate db n o co None => bool_decide (db = "postgres") && bool_decide (n = "shop") && bool_decide (o = "app") && co | _ => false end.
Definition is_drop (ev : db_event) : bool :=
  match ev with DDrop db n None => bool_decide (db = "postgres") && bool_decide (n = "shop") | _ => false end.
Definition is_alter (ev : db_event) : bool :=
  match ev with DAlterSchema db n o None => bool_decide (db = "shop") && bool_decide (n = "legacy") && bool_decide (o = "app") | _ => false end.
Definition is_secret (ev : db_event) : bool :=
  match ev with DCreateSecret s None => bool_decide (sec_Name s = "shop-app-credentials") | _ => false end.
End ToyReconcile.
#[local] Existing Instances RoleTheorems.ToyRole.print RoleTheorems.ToyRole.digests RoleTheorems.ToyRole.text RoleTheorems.ToyRole.setter.
Import ToyReconcile.


Lemma logged_database_run w :
  DatabaseReconcile (db_ops ops) 10 (w, []) = ((logged_pass w).1, ((logged_pass w).2.1, (logged_pass w).2.2)).
Proof. exact (run_split (logged_pass w)). Qed.

(** The first pass creates the database, owned by the declared Role. *)
Lemma database_create_safe_witness :
  let tr := (logged_pass (start true)).2.2 in
  DCreate "postgres" "shop" "app" true None ∈ tr ∧
  ∃ (pre : list db_event) read role, DGetDatabase (inl (Some read)) ∈ pre ∧ no_older_database pre read "shop" ∧
    DGetRole (db_Namespace read) (ds_Owner (db_Spec read)) (inl (Some role)) ∈ pre ∧ "app" = PostgresName role.
Proof.
  intros tr. assert (called is_create tr = true) as Hc by (vm_compute; reflexivity).
  apply called_inv in Hc as (pre & ev & post & Heq & Ht). destruct ev as [| | | | | | | | | | | | |db name owner co [|]| | | | | | | |]; try discriminate Ht.
  cbn [is_create] in Ht. apply andb_true_iff in Ht as [[[->%bool_decide_eq_true ->%bool_decide_eq_true]%andb_true_iff
    ->%bool_decide_eq_true]%andb_true_iff Hco]. destruct co; [|discriminate Hco].
  split; [apply (elem_of_split Heq)|].
  destruct (database_create_safe ops 10 (start true) _ _ tr pre "postgres" "shop" "app" true None post
    (logged_database_run (start true)) Heq)
    as (_ & _ & read & d & cl & signer & found & Hread & _ & _ & Hold & _ & _ & Hown & _).
  destruct Hown as [[Hno _]|(role & Hrole & _ & Happ)]; [discriminate Hno|]. exists pre, read, role.
  exact (conj Hread (conj Hold (conj Hrole Happ))).
Defined.

(** The drop of a deleted Database. *)
Lemma database_drop_safe_witness :
  let tr := (logged_pass (deleted true)).2.2 in
  DDrop "postgres" "shop" None ∈ tr ∧ ∃ pre d cluster, database_may_drop pre d cluster "shop".
Proof.
  intros tr. assert (called is_drop tr = true) as Hc by (vm_compute; reflexivity).
  apply called_inv in Hc as (pre & ev & post & Heq & Ht). destruct ev as [| | | | | | | | | | | | | |db name [|]| | | | | | |]; try discriminate Ht.
  cbn [is_drop] in Ht. apply andb_true_iff in Ht as [->%bool_decide_eq_true ->%bool_decide_eq_true].
  split; [apply (elem_of_split Heq)|]. exists pre.
  destruct (database_drop_safe ops 10 (deleted true) _ _ tr pre (DDrop "postgres" "shop" None) post
    (logged_database_run (deleted true)) Heq) as [Hd _].
  exact (proj2 (Hd _ _ _ eq_refl)).
Defined.

(** The existing schema of pg_database_owner gets its declared owner. *)
Lemma schema_owner_safe_witness :
  let tr := (logged_pass (start true)).2.2 in
  DAlterSchema "shop" "legacy" "app" None ∈ tr ∧
  ∃ (pre : list db_event) info, DSchemaOwner "shop" "legacy" (inl (Some info)) ∈ pre ∧ si_Owner info ≠ "app" ∧
    ∃ dbOwner createOnly, DCreate "postgres" "shop" dbOwner createOnly None ∈ pre.
Proof.
  intros tr. assert (called is_alter tr = true) as Hc by (vm_compute; reflexivity).
  apply called_inv in Hc as (pre & ev & post & Heq & Ht). destruct ev as [| | | | | | | | | | | | | | | | | | |db name owner [|]| |]; try discriminate Ht.
  cbn [is_alter] in Ht. apply andb_true_iff in Ht as [[->%bool_decide_eq_true ->%bool_decide_eq_true]%andb_true_iff ->%bool_decide_eq_true].
  split; [apply (elem_of_split Heq)|]. exists pre.
  destruct (schema_owner_safe ops 10 (start true) _ _ tr pre (DAlterSchema "shop" "legacy" "app" None) post
    (logged_database_run (start true)) Heq) as [_ Hs].
  destruct (Hs _ _ _ _ eq_refl) as (Ho & read & d & sch & info & pg & _ & _ & _ & _ & _ & _ & _ & _ & _ & Hi & Hne & _).
  exists info. exact (conj Hi (conj Hne Ho)).
Defined.


(** The server fails at the first schema: the recorded one keeps its record. *)
Lemma schemas_record_kept_witness :
  let failing := {| sch_SchemaOwner := λ _, mret (inr (Errorf "no answer" [])); sch_CurrentDatabaseOwner := sch_CurrentDatabaseOwner schemas;
    sch_CreateSchema := sch_CreateSchema schemas; sch_AlterSchemaOwner := sch_AlterSchemaOwner schemas;
    sch_LookupRole := sch_LookupRole schemas |} in
  let d := database false [] (set_outcome new_status true ["legacy"] []) in
  let res := reconcileSchemas (db_schemas "shop" failing) d "app" (start true, []) in
  is_Some res.1.2 ∧ ("legacy" ∈ res.1.1.1 ∨ ∃ owner e, DCreateSchema "shop" "legacy" owner (Some e) ∈ res.2.2 ∧ errors_Is errObjectExists e = true).
Proof.
  intros f d res. split; [vm_compute; by eexists|].
  destruct (schemas_record_kept f "shop" d "app" (start true) res.1.1.1 res.1.1.2 res.1.2 res.2.1 res.2.2) as [Hk _].
  { vm_compute. reflexivity. }
  apply Hk; [by left|right; by left|reflexivity].
Defined.

(** *** Where the code does not keep what it intends *)

(** The status written at the end of the pass that created the database is lost (a
    conflict): the next pass takes the database, which carries the Database's own
    marker, for someone else's, and its deletion leaves it. *)
Example lost_status_write_abandons_the_database :
  let signer := newMarkerSigner cluster marker_key in
  let '(_, w) := pass retried in
  w_pg retried = Some ("app", marker signer markerKindDatabase "shop") ∧ dst_Ready (db_Status (w_db w)) = false ∧
  cond_Reason <$> dst_Conditions (db_Status (w_db w)) = [ReasonDatabaseNotManaged] ∧
  let '(res, w') := pass {| w_db := database true (db_Finalizers (w_db w)) (db_Status (w_db w)); w_secrets := w_secrets w; w_pg := w_pg w;
                            w_schemas := w_schemas w; w_listed := true; w_saved := true |} in
  res = (0%Z, None) ∧ databaseFinalizer ∉ db_Finalizers (w_db w') ∧ w_pg w' = w_pg retried.
Proof. vm_compute. split_and!; try done. by intros ?%elem_of_nil. Qed.

(** A failed listing of the Databases is taken for a database that another Database
    manages: the deletion ends without an error, the finalizer is removed, and the
    PostgreSQL database stays. *)
Example deletion_leaks_the_database :
  let '(res, w) := pass (deleted false) in
  res = (0%Z, None) ∧ databaseFinalizer ∉ db_Finalizers (w_db w) ∧ is_Some (w_pg w) ∧
  let '(_, w') := pass (deleted true) in w_pg w' = None.
Proof. vm_compute. split_and!; [done|by intros ?%elem_of_nil|by eexists|done]. Qed.

(** The Database's Secret is written without a look at who controls the one of that
    name: a Database "shop" of the owner "app" overwrites the superuser's Secret of the
    Cluster "shop-app". *)
Example secret_overwrites_the_superuser :
  let before := put_secret (start true) superuser_secret in
  let '(res, w) := pass before in
  res = (0%Z, None) ∧ dst_Ready (db_Status (w_db w)) = true ∧
  (λ s, secret_value s SecretKeyPassword) <$> w_secrets before !! "shop-app-credentials" = Some "of the superuser" ∧
  (λ s, (sec_ControllerUID s, secret_value s SecretKeyPassword)) <$> w_secrets w !! "shop-app-credentials"
    = Some (Some "uid of Cluster shop-app", "of app").
Proof. vm_compute. by split_and!. Qed.
