(* ===== verification/Replication.v ===== *)
(** * Streaming replication (src/internal/controller/replication.go)

    Ordinals, the StatefulSet's size, the replication slots on the primary, the
    volumes of removed standbys, the rollout of a new replication password and the
    report. Pods, volumes and slots are lists as the API server and PostgreSQL
    return them. *)

From Stdlib Require Import Ascii.
From S2P Require Import Prelude GoStrings GoStrconv Trace.

Open Scope Z_scope.

Definition replicationSlotPrefix : string := "pgop_replica_".
Definition dataVolumeName : string := "data".
Definition WALStatusLost : string := "lost".
Definition walSenderStreaming : string := "streaming".
Definition LabelRolePrimary : string := "primary".
Definition LabelRoleReplica : string := "replica".
Definition LabelRole : string := "pgop.ruck.io/role".
Definition labelValueTrue : string := "true".
Definition LabelStreaming : string := "pgop.ruck.io/streaming".
Definition ReasonStandbyNotStreaming : string := "StandbyNotStreaming".
Definition ReasonStreaming : string := "Streaming".
Definition AnnotationRestoreInProgress : string := "pgop.ruck.io/restore-in-progress".
Definition AnnotationRestoreInterrupted : string := "pgop.ruck.io/restore-interrupted".
Definition second_ns : Z := 1000000000.
Definition replicationCheckInterval : Z := 30 * second_ns.
Definition replicationRetryInterval : Z := 10 * second_ns.
Definition rolloutStandbyTimeout : Z := 600 * second_ns.

(** The fields of a Cluster this component reads ([spec.replicas] is an int32). *)
Record Cluster := {
  cl_Name : string;
  cl_Namespace : string;
  cl_UID : string;
  cl_Annotations : gmap string string;
  cl_Replicas : Z }.

Definition desiredReplicas (cluster : Cluster) : Z := if bool_decide (cl_Replicas cluster < 1) then 1 else cl_Replicas cluster.

(** The fields of a StatefulSet; [sts_HasBootstrap]: an init container of the pod
    template is named pgop-bootstrap. *)
Record StatefulSet := {
  sts_Replicas : option Z;
  sts_HasBootstrap : bool;
  sts_Generation : Z;
  sts_ObservedGeneration : Z;
  sts_CurrentRevision : string;
  sts_UpdateRevision : string;
  sts_ReadyReplicas : Z }.

Definition hasReplicationTemplate (sts : option StatefulSet) : bool :=
  match sts with None => false | Some s => sts_HasBootstrap s end.

Definition replicationEnabled (cluster : Cluster) (sts : option StatefulSet) : bool :=
  bool_decide (1 < desiredReplicas cluster) || hasReplicationTemplate sts.

Definition replicationRolledOut (s : StatefulSet) : bool :=
  hasReplicationTemplate (Some s) && bool_decide (sts_Generation s ≤ sts_ObservedGeneration s)
    && negb (bool_decide (sts_CurrentRevision s = "")) && bool_decide (sts_UpdateRevision s = sts_CurrentRevision s)
    && bool_decide (1 ≤ sts_ReadyReplicas s).

Definition statefulSetReplicas (cluster : Cluster) (existing : option StatefulSet) : Z :=
  let want := desiredReplicas cluster in
  match existing with
  | None => want
  | Some s =>
      match sts_Replicas s with
      | None => want
      | Some cur =>
          if bool_decide (want ≤ 1) then want
          else if bool_decide (cur ≤ 1) && negb (replicationRolledOut s) then cur `max` 1
          else want
      end
  end.

(** ** Ordinals *)

Definition primaryPodName (cluster : Cluster) : string := cl_Name cluster +:+ "-0".
Definition replicationSlotName (ordinal : Z) : string := replicationSlotPrefix +:+ Itoa ordinal.

Definition parseOrdinal (name prefix : string) : option Z :=
  match CutPrefix name prefix with
  | None => None
  | Some rest =>
      if decide (rest = "") then None
      else match Atoi rest with
           | None => None
           | Some n => if bool_decide (n < 0) || negb (bool_decide (Itoa n = rest)) then None else Some n
           end
  end.

Definition podOrdinal (cluster : Cluster) (podName : string) : option Z := parseOrdinal podName (cl_Name cluster +:+ "-").
Definition pvcOrdinal (cluster : Cluster) (pvcName : string) : option Z :=
  parseOrdinal pvcName (dataVolumeName +:+ "-" +:+ cl_Name cluster +:+ "-").
Definition slotOrdinal (slot : string) : option Z := parseOrdinal slot replicationSlotPrefix.

(** [ordinal, _ := podOrdinal(...)]: 0 when the name does not parse. *)
Definition ordinal_or_0 (o : option Z) : Z := default 0 o.

Definition podRole (ordinal : Z) : string := if decide (ordinal = 0) then LabelRolePrimary else LabelRoleReplica.

(** The pod name of an ordinal: [fmt.Sprintf("%s-%d", cluster.Name, i)]. *)
Definition podName (cluster : Cluster) (i : Z) : string := cl_Name cluster +:+ "-" +:+ Itoa i.

(** ** Slots *)

Record ReplicationSlot := { rs_slot_Name : string; rs_slot_Physical : bool; rs_slot_Active : bool; rs_slot_WALStatus : string }.
Record StandbyStatus := { sb_ApplicationName : string; sb_State : string }.

Record ReplicationServer (W : Type) := {
  srv_ReplicationSlots : M W (result (list ReplicationSlot));
  srv_CreateSlot : string → bool → M W error;
  srv_DropSlot : string → M W error }.
Arguments srv_ReplicationSlots {W}. Arguments srv_CreateSlot {W}. Arguments srv_DropSlot {W}.

Section slots.
Context {W : Type} (srv : ReplicationServer W) (cluster : Cluster) (want : Z) (podExists pvcs : gset Z) (allowDrops : bool).

(** What the loop over the slots collects. *)
Record slotState := { sl_existing : gset string; sl_lost : gset string; sl_recreated : list string }.

Definition keep_slot (s : ReplicationSlot) (st : slotState) : slotState :=
  {| sl_existing := {[rs_slot_Name s]} ∪ sl_existing st; sl_lost := sl_lost st; sl_recreated := sl_recreated st |}.

Definition lose_slot (s : ReplicationSlot) (ordinal : Z) (st : slotState) : slotState :=
  {| sl_existing := sl_existing st; sl_lost := {[rs_slot_Name s]} ∪ sl_lost st;
     sl_recreated := sl_recreated st ++ [podName cluster ordinal] |}.

(** One slot: whether it is dropped, and the state if it is (or is not). *)
Definition slotAction (s : ReplicationSlot) (st : slotState) : bool * slotState :=
  match slotOrdinal (rs_slot_Name s) with
  | None => (false, keep_slot s st)
  | Some ordinal =>
      if negb (rs_slot_Physical s) || bool_decide (ordinal = 0) then (false, keep_slot s st)
      else if bool_decide (want ≤ ordinal) then
        if negb allowDrops || rs_slot_Active s || bool_decide (ordinal ∈ pvcs) then (false, keep_slot s st) else (true, st)
      else if bool_decide (rs_slot_WALStatus s = WALStatusLost) && negb (rs_slot_Active s) then (true, lose_slot s ordinal st)
      else (false, keep_slot s st)
  end.

Fixpoint slotLoop (slots : list ReplicationSlot) (st : slotState) : M W (error * slotState) :=
  match slots with
  | [] => mret (None, st)
  | s :: ss =>
      let '(drop, st') := slotAction s st in
      if drop : bool then
        e ← srv_DropSlot srv (rs_slot_Name s);
        match e with Some err => mret (Some err, st) | None => slotLoop ss st' end
      else slotLoop ss st'
  end.

Fixpoint createLoop (ordinals : list Z) (st : slotState) : M W error :=
  match ordinals with
  | [] => mret None
  | i :: is_ =>
      let name := replicationSlotName i in
      if bool_decide (name ∉ sl_existing st) && bool_decide (i ∈ podExists) then
        e ← srv_CreateSlot srv name (bool_decide (name ∉ sl_lost st));
        match e with Some err => mret (Some err) | None => createLoop is_ st end
      else createLoop is_ st
  end.

(** [for i := 1; i < int(want); i++]. *)
Definition standbyOrdinals : list Z := seqZ 1 (want - 1).

Definition reconcileReplicationSlots : M W (list string * error) :=
  r ← srv_ReplicationSlots srv;
  match r with
  | inr e => mret ([], Some e)
  | inl slots =>
      '(e, st) ← slotLoop slots {| sl_existing := ∅; sl_lost := ∅; sl_recreated := [] |};
      match e with
      | Some err => mret ([], Some err)
      | None => e ← createLoop standbyOrdinals st; mret (sl_recreated st, e)
      end
  end.
End slots.

(** ** Volumes of removed standbys *)

Record PVC := { pvc_Name : string; pvc_Deleting : bool }.

Section volumes.
Context {W : Type} (DeletePVC : PVC → M W error) (cluster : Cluster) (podOrdinals : gset Z) (stsReplicas : Z).

(** [DeletePVC] answers [None] on success and when the volume is already gone. *)
Fixpoint volumeLoop (items : list PVC) (remaining : gset Z) : M W (gset Z * error) :=
  match items with
  | [] => mret (remaining, None)
  | pvc :: pvcs =>
      match pvcOrdinal cluster (pvc_Name pvc) with
      | None => volumeLoop pvcs remaining
      | Some ordinal =>
          if pvc_Deleting pvc && negb (bool_decide (ordinal = 0)) then volumeLoop pvcs remaining
          else if bool_decide (ordinal = 0) || bool_decide (ordinal < stsReplicas) || bool_decide (ordinal ∈ podOrdinals)
          then volumeLoop pvcs ({[ordinal]} ∪ remaining)
          else
            e ← DeletePVC pvc;
            match e with
            | Some err => mret ({[ordinal]} ∪ remaining, Some err)
            | None => volumeLoop pvcs remaining
            end
      end
  end.
End volumes.

Definition cleanupStandbyVolumes {W} (ListPVCs : M W (result (list PVC))) (DeletePVC : PVC → M W error) (cluster : Cluster)
    (sts : option StatefulSet) (pods : list string) : M W (gset Z * error) :=
  r ← ListPVCs;
  match r with
  | inr e => mret (∅, Some e)
  | inl items =>
      let podOrdinals : gset Z := list_to_set (omap (podOrdinal cluster) pods) in
      let stsReplicas := match sts ≫= sts_Replicas with
                         | Some n => desiredReplicas cluster `max` n
                         | None => desiredReplicas cluster
                         end in
      volumeLoop DeletePVC cluster podOrdinals stsReplicas items ∅
  end.

(** [primaryVolumeMissing], given the listed volumes. *)
Definition primaryVolumeMissing (cluster : Cluster) (items : list PVC) : bool :=
  existsb (λ pvc, match pvcOrdinal cluster (pvc_Name pvc) with Some o => bool_decide (0 < o) && negb (pvc_Deleting pvc) | None => false end) items
  && negb (existsb (λ pvc, bool_decide (pvcOrdinal cluster (pvc_Name pvc) = Some 0)) items).

(** ** The report *)

(** The condition's status, reason and message, and when to check again. *)
Definition reportStreaming (cluster : Cluster) (want : Z) (streaming : gset string) (recreated : list string)
    : bool * string * string * Z :=
  let missing := filter (λ n, n ∉ streaming) (podName cluster <$> seqZ 1 (want - 1)) in
  match missing with
  | [] => (true, ReasonStreaming,
           "All " +:+ Itoa (want - 1) +:+ " standbys stream from the primary " +:+ primaryPodName cluster, replicationCheckInterval)
  | _ =>
      let msg := Itoa (want - 1 - Z.of_nat (length missing)) +:+ " of " +:+ Itoa (want - 1)
                   +:+ " standbys streaming; not streaming: " +:+ Join missing ", " in
      (false, ReasonStandbyNotStreaming,
       msg +:+ (match recreated with
                | [] => ""
                | _ => "; the replication slots of " +:+ Join recreated ", " +:+ " were invalidated (max_slot_wal_keep_size) and "
                         +:+ "re-created: re-clone these standbys by deleting their data PVC and pod"
                end), replicationRetryInterval)
  end.

Definition streamingStandbys (standbys : list StandbyStatus) : gset string :=
  list_to_set (sb_ApplicationName <$> filter (λ s, sb_State s = walSenderStreaming) standbys).

(** ** Pods *)

(** A condition of a pod; the zero time is [None]. Times are nanoseconds since the
    epoch. *)
Record PodCondition := { pc_Type : string; pc_Status : string; pc_LastTransitionTime : option Z }.

Record Pod := {
  pod_Name : string;
  pod_UID : string;
  pod_Deleting : bool;
  pod_Created : Z;
  pod_Conditions : list PodCondition;
  pod_Labels : gmap string string;
  pod_IP : string }.

Definition pod_set_label (k v : string) (p : Pod) : Pod :=
  {| pod_Name := pod_Name p; pod_UID := pod_UID p; pod_Deleting := pod_Deleting p; pod_Created := pod_Created p;
     pod_Conditions := pod_Conditions p; pod_Labels := <[k := v]> (pod_Labels p); pod_IP := pod_IP p |}.

Definition PodReady : string := "Ready".
Definition ConditionTrue : string := "True".

(** The first Ready condition decides. *)
Definition isPodReady (pod : Pod) : bool :=
  if pod_Deleting pod then false
  else match find (λ c, bool_decide (pc_Type c = PodReady)) (pod_Conditions pod) with
       | Some c => bool_decide (pc_Status c = ConditionTrue)
       | None => false
       end.

Definition podReadySince (pod : Pod) : option Z :=
  find (λ c, bool_decide (pc_Type c = PodReady) && bool_decide (pc_Status c = ConditionTrue)) (pod_Conditions pod)
    ≫= pc_LastTransitionTime.

(** [if pods[i].Name == primaryPodName(cluster) { primary = &pods[i] }] in a loop:
    the last one. *)
Definition findPrimary (cluster : Cluster) (pods : list Pod) : option Pod :=
  last (filter (λ p, pod_Name p = primaryPodName cluster) pods).

(** Patching a pod's label: the object after the call (refreshed from the response)
    and the error, [None] also when the pod is gone. *)
Fixpoint labelPods {W} (PatchPod : Pod → M W (Pod * error)) (cluster : Cluster) (pods : list Pod) : M W (list Pod * error) :=
  match pods with
  | [] => mret ([], None)
  | pod :: pods =>
      let role := podRole (ordinal_or_0 (podOrdinal cluster (pod_Name pod))) in
      if bool_decide (default "" (pod_Labels pod !! LabelRole) = role) || pod_Deleting pod
      then '(ps, e) ← labelPods PatchPod cluster pods; mret (pod :: ps, e)
      else
        '(pod', e) ← PatchPod (pod_set_label LabelRole role pod);
        match e with
        | Some err => mret (pod' :: pods, Some (Wrapf "failed to label pod %s: %w" [pod_Name pod] err))
        | None => '(ps, e) ← labelPods PatchPod cluster pods; mret (pod' :: ps, e)
        end
  end.

Fixpoint labelStreaming {W} (PatchPod : Pod → M W (Pod * error)) (cluster : Cluster) (streaming : gset string)
    (pods : list Pod) : M W (list Pod * error) :=
  match pods with
  | [] => mret ([], None)
  | pod :: pods =>
      let want := if decide (pod_Name pod ∈ streaming) then "true" else "false" in
      if bool_decide (ordinal_or_0 (podOrdinal cluster (pod_Name pod)) = 0) || pod_Deleting pod
         || bool_decide (default "" (pod_Labels pod !! LabelStreaming) = want)
      then '(ps, e) ← labelStreaming PatchPod cluster streaming pods; mret (pod :: ps, e)
      else
        '(pod', e) ← PatchPod (pod_set_label LabelStreaming want pod);
        match e with
        | Some err => mret (pod' :: pods, Some (Wrapf "failed to label pod %s: %w" [pod_Name pod] err))
        | None => '(ps, e) ← labelStreaming PatchPod cluster streaming pods; mret (pod' :: ps, e)
        end
  end.

(** ** The rollout of a new replication password *)

Inductive rollout := RolloutWait | RolloutDone | RolloutRestart (p : Pod).

(** The loop of [rolloutReplicationPassword]: [stale] is the pod to restart and
    its ordinal. *)
Fixpoint rolloutLoop (cluster : Cluster) (since now : Z) (pods : list Pod) (stale : option Pod) (staleOrdinal : Z) : rollout :=
  match pods with
  | [] => match stale with None => RolloutDone | Some p => RolloutRestart p end
  | pod :: pods =>
      let ordinal := ordinal_or_0 (podOrdinal cluster (pod_Name pod)) in
      if bool_decide (ordinal = 0) || pod_Deleting pod then rolloutLoop cluster since now pods stale staleOrdinal
      else if bool_decide (pod_Created pod ≤ since) then
        if bool_decide (staleOrdinal < ordinal) then rolloutLoop cluster since now pods (Some pod) ordinal
        else rolloutLoop cluster since now pods stale staleOrdinal
      else
        let back := isPodReady pod && bool_decide (pod_Labels pod !! LabelStreaming = Some labelValueTrue) in
        if negb back && bool_decide (now < pod_Created pod + rolloutStandbyTimeout) then RolloutWait
        else rolloutLoop cluster since now pods stale staleOrdinal
  end.

Definition rolloutStep (cluster : Cluster) (since now : Z) (pods : list Pod) : rollout := rolloutLoop cluster since now pods None (-1).
