(* ===== verification/ReplicationReconcile.v ===== *)
(** * The replication reconcile (src/internal/controller/replication.go)

    [reconcileReplication] and what it calls on the API server and the primary: the
    bounded restarts of a primary that rejects the operator's password, the marker
    that the Cluster holds data, the replication role, the slots, the labels of the
    standbys, the rollout of a new replication password and the report.

    The Secret, the pods and the ReplicationHealthy condition are changed in memory
    as the code does, and are passed and returned. Log lines and events are left
    out. Times are nanoseconds since the epoch. *)

From Stdlib Require Import Ascii.
From S2P Require Import Prelude GoStrings GoStrconv RoleSql Password Trace Replication.

Open Scope Z_scope.

Definition passwordSyncMaxAttempts : Z := 5.
Definition passwordSyncFirstBackoff : Z := 300 * second_ns.
Definition passwordSyncReadyGrace : Z := 120 * second_ns.
Definition pqCodeInvalidPassword : string := "28P01".
Definition initializedMarkerKey : string := "pgop-initialized".
Definition initializedMarkerValue : string :=
  "The Cluster holds data; pgop refuses to initialize an empty primary data directory." +:+ str1 newline.
Definition AnnotationPasswordSyncRestart : string := "pgop.ruck.io/password-sync-restart".
Definition AnnotationAllowPrimaryInit : string := "pgop.ruck.io/allow-primary-init".
Definition AnnotationReplicationPasswordFingerprint : string := "pgop.ruck.io/replication-password-fingerprint".
Definition AnnotationReplicationPasswordRollout : string := "pgop.ruck.io/replication-password-rollout".
Definition ReplicationUsername : string := "pgop_replicator".
Definition SecretKeyReplicationPassword : string := "replication-password".
Definition ReasonWaitingForPrimary : string := "WaitingForPrimary".
Definition ReasonReplicationError : string := "ReplicationError".

(** SHA-256 of a byte string. *)
Class Sha256 := { sha256 : string → string }.

Definition nul : string := str1 zero.

Definition replicationPasswordFingerprint `{Sha256} (cluster : Cluster) (password : string) : string :=
  hex_encode (sha256 (cl_UID cluster +:+ nul +:+ "replication" +:+ nul +:+ password)).

Definition pausedForRestore (cluster : Cluster) : bool :=
  negb (bool_decide (default "" (cl_Annotations cluster !! AnnotationRestoreInProgress) = "")) ||
  negb (bool_decide (default "" (cl_Annotations cluster !! AnnotationRestoreInterrupted) = "")).

Definition isInvalidPassword (e : error) : bool :=
  match e with Some err => bool_decide (pq_code err = Some pqCodeInvalidPassword) | None => false end.

Definition sec_set_annotation (k v : string) (s : Secret) : Secret :=
  {| sec_Name := sec_Name s; sec_Namespace := sec_Namespace s; sec_ResourceVersion := sec_ResourceVersion s;
     sec_Labels := sec_Labels s; sec_Annotations := <[k := v]> (sec_Annotations s);
     sec_OwnerReferences := sec_OwnerReferences s; sec_ControllerUID := sec_ControllerUID s; sec_Data := sec_Data s |}.

Definition sec_delete_annotation (k : string) (s : Secret) : Secret :=
  {| sec_Name := sec_Name s; sec_Namespace := sec_Namespace s; sec_ResourceVersion := sec_ResourceVersion s;
     sec_Labels := sec_Labels s; sec_Annotations := delete k (sec_Annotations s);
     sec_OwnerReferences := sec_OwnerReferences s; sec_ControllerUID := sec_ControllerUID s; sec_Data := sec_Data s |}.

Record ConfigMap := { cm_ControlledByCluster : bool; cm_Data : gmap string string }.

(** ** The API server and the primary

    [api_UpdateSecret] and [api_PatchPod] return the object after the call, which the
    client refreshes from the response. The errors of deletes and patches are [None]
    when the object is gone, which the code ignores. [api_connect] is
    [connectOperator]: the connection settings and the login. *)
Record ReplicationAPI (W : Type) := {
  api_now : M W Z;
  api_ListPVCs : M W (result (list PVC));
  api_DeletePVC : PVC → M W error;
  api_DeletePod : Pod → M W error;
  api_PatchPod : Pod → M W (Pod * error);
  api_UpdateSecret : Secret → M W (Secret * error);
  api_GetHbaConfigMap : M W (result (option ConfigMap));
  api_UpdateConfigMap : ConfigMap → M W error;
  api_connect : M W error;
  srv_InRecovery : M W (result bool);
  srv_RoleExists : string → M W (result bool);
  srv_CreateRole : string → RoleOptions → M W error;
  srv_ReplicationStatus : M W (result (list StandbyStatus));
  api_slots : ReplicationServer W }.
Arguments api_now {W}. Arguments api_ListPVCs {W}. Arguments api_DeletePVC {W}. Arguments api_DeletePod {W}.
Arguments api_PatchPod {W}. Arguments api_UpdateSecret {W}. Arguments api_GetHbaConfigMap {W}.
Arguments api_UpdateConfigMap {W}. Arguments api_connect {W}. Arguments srv_InRecovery {W}.
Arguments srv_RoleExists {W}. Arguments srv_CreateRole {W}. Arguments srv_ReplicationStatus {W}. Arguments api_slots {W}.

(** ** The restart record of the password sync *)

Record passwordSyncRestart := { ps_Fingerprint : string; ps_Attempts : Z; ps_Last : Z }.

(** The zero [time.Time] of the empty record is never read: attempts are 0. *)
Definition passwordSyncRestart_zero : passwordSyncRestart := {| ps_Fingerprint := ""; ps_Attempts := 0; ps_Last := 0 |}.

Definition parsePasswordSyncRestart (v : string) : passwordSyncRestart :=
  match Split v "/" with
  | [fp; attempts; last] =>
      match Atoi attempts, Atoi last with
      | Some attempts, Some last => {| ps_Fingerprint := fp; ps_Attempts := attempts; ps_Last := last * second_ns |}
      | _, _ => passwordSyncRestart_zero
      end
  | _ => passwordSyncRestart_zero
  end.

(** [time.Time.Unix]. *)
Definition unix (t : Z) : Z := t / second_ns.

Definition passwordSyncRestart_String (p : passwordSyncRestart) : string :=
  ps_Fingerprint p +:+ "/" +:+ Itoa (ps_Attempts p) +:+ "/" +:+ Itoa (unix (ps_Last p)).

(** A signed 64-bit wrap, and [time.Time.Sub], which saturates. *)
Definition wrap64 (z : Z) : Z := (z + 2 ^ 63) `mod` 2 ^ 64 - 2 ^ 63.
Definition time_Sub (t u : Z) : Z := min_int64 `max` ((t - u) `min` max_int64).

(** [passwordSyncFirstBackoff << (attempts - 1)]: a negative shift count panics
    ([None]); a wide one shifts all bits out. *)
Definition passwordSyncBackoff (attempts : Z) : option Z :=
  if bool_decide (attempts - 1 < 0) then None
  else if bool_decide (64 ≤ attempts - 1) then Some 0
  else Some (wrap64 (Z.shiftl passwordSyncFirstBackoff (attempts - 1))).

(** The condition ReplicationHealthy: status, reason and message. *)
Inductive condMessage := Msg (s : string) | MsgErr (s : string) (e : gerr).
Definition condition : Type := bool * string * condMessage.

Section reconcile.
Context {W : Type} `{Sha256} (api : ReplicationAPI W) (cluster : Cluster).

(** [None] in the first component: the call panicked. *)
Definition restartPrimaryForPasswordSync (secret : Secret) (primary : Pod) : M W (option Z * Secret) :=
  let fp := replicationPasswordFingerprint cluster ("operator" +:+ nul +:+ secret_value secret SecretKeyPassword) in
  let state0 := parsePasswordSyncRestart (default "" (sec_Annotations secret !! AnnotationPasswordSyncRestart)) in
  let state := if decide (ps_Fingerprint state0 = fp) then state0
               else {| ps_Fingerprint := fp; ps_Attempts := 0; ps_Last := 0 |} in
  now ← api_now api;
  let until := match passwordSyncBackoff (ps_Attempts state) with Some b => ps_Last state + b | None => 0 end in
  if bool_decide (passwordSyncMaxAttempts ≤ ps_Attempts state) then mret (Some 0, secret)
  else if bool_decide (0 < ps_Attempts state) && bool_decide (now < until) then mret (Some (time_Sub until now), secret)
  else
    let state' := {| ps_Fingerprint := ps_Fingerprint state; ps_Attempts := ps_Attempts state + 1; ps_Last := now |} in
    '(secret', e) ← api_UpdateSecret api
      (sec_set_annotation AnnotationPasswordSyncRestart (passwordSyncRestart_String state') secret);
    match e with
    | Some _ => mret (Some replicationRetryInterval, secret')
    | None =>
        e ← api_DeletePod api primary;
        match e with
        | Some _ => mret (Some replicationRetryInterval, secret')
        | None =>
            if bool_decide (passwordSyncMaxAttempts ≤ ps_Attempts state') then mret (Some 0, secret')
            else mret (passwordSyncBackoff (ps_Attempts state'), secret')
        end
    end.

Definition clearPasswordSyncRestart (secret : Secret) : M W (Secret * error) :=
  match sec_Annotations secret !! AnnotationPasswordSyncRestart with
  | None => mret (secret, None)
  | Some _ => api_UpdateSecret api (sec_delete_annotation AnnotationPasswordSyncRestart secret)
  end.

Definition checkOperatorLogin (secret : Secret) (pods : list Pod) : M W (option Z * Secret) :=
  if pausedForRestore cluster then mret (Some 0, secret)
  else match findPrimary cluster pods with
  | None => mret (Some 0, secret)
  | Some primary =>
      if negb (isPodReady primary) then mret (Some 0, secret)
      else
        e ← api_connect api;
        match e with
        | Some err =>
            if negb (isInvalidPassword (Some err)) then mret (Some 0, secret)
            else
              match podReadySince primary with
              | Some since =>
                  now ← api_now api;
                  let wait := time_Sub (since + passwordSyncReadyGrace) now in
                  if bool_decide (0 < wait) then mret (Some wait, secret)
                  else restartPrimaryForPasswordSync secret primary
              | None => restartPrimaryForPasswordSync secret primary
              end
        | None =>
            '(secret', e) ← clearPasswordSyncRestart secret;
            match e with
            | Some _ => mret (Some replicationRetryInterval, secret')
            | None => mret (Some 0, secret')
            end
        end
  end.

(** [None] as result: restarting the primary panicked. *)
Definition connectPrimary (secret : Secret) (primary : Pod) : M W (option error * Secret) :=
  e ← api_connect api;
  if isInvalidPassword e then
    '(r, secret') ← restartPrimaryForPasswordSync secret primary;
    mret (match r with Some _ => Some e | None => None end, secret')
  else mret (Some e, secret).

Definition markInitialized : M W error :=
  if decide (default "" (cl_Annotations cluster !! AnnotationAllowPrimaryInit) = labelValueTrue) then mret None
  else
    r ← api_GetHbaConfigMap api;
    match r with
    | inr e => mret (Some e)
    | inl None => mret None
    | inl (Some cm) =>
        if bool_decide (is_Some (cm_Data cm !! initializedMarkerKey)) || negb (cm_ControlledByCluster cm) then mret None
        else api_UpdateConfigMap api {| cm_ControlledByCluster := cm_ControlledByCluster cm;
                                        cm_Data := <[initializedMarkerKey := initializedMarkerValue]> (cm_Data cm) |}
    end.

Definition replicatorOptions (password : string) : RoleOptions :=
  {| ro_Login := true; ro_CreateDB := false; ro_CreateRole := false; ro_Inherit := false; ro_Replication := true;
     ro_BypassRLS := false; ro_ConnectionLimit := -1; ro_Password := password; ro_KeepExistingPassword := false;
     ro_Comment := ""; ro_CreateOnly := false |}.

Definition ensureReplicationRole (secret : Secret) : M W (Secret * error) :=
  let password := secret_value secret SecretKeyReplicationPassword in
  if decide (password = "")
  then mret (secret, Some (Errorf "credentials Secret %q has no %q" [sec_Name secret; SecretKeyReplicationPassword]))
  else
    r ← srv_RoleExists api ReplicationUsername;
    match r with
    | inr e => mret (secret, Some e)
    | inl exists_ =>
        let fingerprint := replicationPasswordFingerprint cluster password in
        let recorded := default "" (sec_Annotations secret !! AnnotationReplicationPasswordFingerprint) in
        if exists_ && bool_decide (recorded = fingerprint) then mret (secret, None)
        else
          e ← srv_CreateRole api ReplicationUsername (replicatorOptions password);
          match e with
          | Some err => mret (secret, Some err)
          | None =>
              let secret1 := sec_set_annotation AnnotationReplicationPasswordFingerprint fingerprint secret in
              if exists_ && negb (bool_decide (recorded = "")) then
                now ← api_now api;
                api_UpdateSecret api (sec_set_annotation AnnotationReplicationPasswordRollout (Itoa (unix now)) secret1)
              else api_UpdateSecret api secret1
          end
    end.

(** [sinceUnix, _ := strconv.ParseInt(v, 10, 64)]: 0 when there is no number; out of
    range, the nearest int64. *)
Definition parseUnix (v : string) : Z :=
  match Atoi v with
  | Some n => n
  | None =>
      let '(neg, digits) := split_sign v in
      if bool_decide (digits = "") || negb (sforall is_digit digits) then 0
      else if neg then min_int64 else max_int64
  end.

(** The clock is read once; the result: whether the rollout is in progress. *)
Definition rolloutReplicationPassword (secret : Secret) (pods : list Pod) : M W (Secret * (bool * error)) :=
  match sec_Annotations secret !! AnnotationReplicationPasswordRollout with
  | None => mret (secret, (false, None))
  | Some v =>
      now ← api_now api;
      match rolloutStep cluster (parseUnix v * second_ns) now pods with
      | RolloutWait => mret (secret, (true, None))
      | RolloutDone =>
          '(secret', e) ← api_UpdateSecret api (sec_delete_annotation AnnotationReplicationPasswordRollout secret);
          mret (secret', (match e with Some _ => true | None => false end, e))
      | RolloutRestart stale =>
          e ← api_DeletePod api stale;
          mret (secret, (true, match e with
                               | Some err => Some (Wrapf "failed to restart standby %s: %w" [pod_Name stale] err)
                               | None => None
                               end))
      end
  end.

(** What a pass leaves in memory. *)
Record passResult := { pass_recheck : option Z; pass_secret : Secret; pass_pods : list Pod; pass_cond : option condition }.

Definition passDone (recheck : option Z) (secret : Secret) (pods : list Pod) (cond : option condition) : M W passResult :=
  mret {| pass_recheck := recheck; pass_secret := secret; pass_pods := pods; pass_cond := cond |}.

(** [fail]: the condition (with more than one instance) and a retry. *)
Definition passFail (msg : string) (err : gerr) (secret : Secret) (pods : list Pod) (cond : option condition) : M W passResult :=
  passDone (Some replicationRetryInterval) secret pods
    (if bool_decide (1 < desiredReplicas cluster) then Some (false, ReasonReplicationError, MsgErr msg err) else cond).

Definition passWait (secret : Secret) (pods : list Pod) (cond : option condition) : M W passResult :=
  passDone (Some replicationRetryInterval) secret pods
    (if bool_decide (1 < desiredReplicas cluster)
     then Some (false, ReasonWaitingForPrimary, Msg "Waiting for the primary pod to become ready") else cond).

(** [reconcileReplication] once the primary answered that it is not in recovery. *)
Definition managePrimary (secret : Secret) (pods : list Pod) (cond : option condition) (pvcs : gset Z) (allowSlotDrops : bool)
    : M W passResult :=
  let want := desiredReplicas cluster in
  e ← markInitialized;
  match e with
  | Some err => passFail "Cannot record that the Cluster is initialized" err secret pods cond
  | None =>
  '(secret, e) ← ensureReplicationRole secret;
  match e with
  | Some err => passFail "Cannot set up the replication role" err secret pods cond
  | None =>
  let podExists : gset Z := list_to_set (omap (podOrdinal cluster) (pod_Name <$> pods)) in
  '(recreated, e) ← reconcileReplicationSlots (api_slots api) cluster want podExists pvcs allowSlotDrops;
  match e with
  | Some err => passFail "Cannot manage replication slots" err secret pods cond
  | None =>
  if bool_decide (want ≤ 1) then passDone (Some 0) secret pods cond
  else
  r ← srv_ReplicationStatus api;
  match r with
  | inr err => passFail "Cannot read pg_stat_replication" err secret pods cond
  | inl standbys =>
  let streaming := streamingStandbys standbys in
  '(pods, e) ← labelStreaming (api_PatchPod api) cluster streaming pods;
  match e with
  | Some err => passFail "Cannot label the standbys" err secret pods cond
  | None =>
  '(secret, (rolling, e)) ← rolloutReplicationPassword secret pods;
  match e with
  | Some err => passFail "Cannot restart the standbys for the new replication password" err secret pods cond
  | None =>
      let '(st, reason, msg, recheck) := reportStreaming cluster want streaming recreated in
      passDone (Some (if rolling : bool then recheck `min` replicationRetryInterval else recheck))
        secret pods (Some (st, reason, Msg msg))
  end end end end end end.

(** The connection to the ready primary and the check that it is one. *)
Definition reachPrimary (secret : Secret) (primary : Pod) (pods : list Pod) (cond : option condition) (pvcs : gset Z)
    (allowSlotDrops : bool) : M W passResult :=
  '(r, secret) ← connectPrimary secret primary;
  match r with
  | None => passDone None secret pods cond
  | Some (Some err) => passFail "Cannot connect to the primary" err secret pods cond
  | Some None =>
  '(secret, e) ← clearPasswordSyncRestart secret;
  match e with
  | Some err => passFail "Cannot update the credentials Secret" err secret pods cond
  | None =>
  r ← srv_InRecovery api;
  match r with
  | inr err => passFail "Cannot check the primary" err secret pods cond
  | inl true => passFail "Cannot manage replication"
                  (Errorf "the instance behind Service %q is in recovery" [cl_Name cluster]) secret pods cond
  | inl false => managePrimary secret pods cond pvcs allowSlotDrops
  end end end.

Definition reconcileReplication (secret : Secret) (sts : option StatefulSet) (pods : list Pod) (cond0 : option condition)
    : M W passResult :=
  let cond := if bool_decide (desiredReplicas cluster ≤ 1) then None else cond0 in
  if negb (replicationEnabled cluster sts) then
    '(recheck, secret) ← checkOperatorLogin secret pods;
    passDone recheck secret pods cond
  else
    '(pvcs, verr) ← cleanupStandbyVolumes (api_ListPVCs api) (api_DeletePVC api) cluster sts (pod_Name <$> pods);
    let allowSlotDrops := match verr with None => true | Some _ => false end in
    match findPrimary cluster pods with
    | Some primary =>
        if isPodReady primary then reachPrimary secret primary pods cond pvcs allowSlotDrops else passWait secret pods cond
    | None => passWait secret pods cond
    end.
End reconcile.
