(* ===== verification/ReplicationTheorems.v ===== *)
(** * Traces of the replication reconcile

    The calls a pass makes on the API server and the primary, with their results. *)

From Stdlib Require Import Ascii.
From S2P Require Import Prelude RoleSql Password Trace Replication ReplicationReconcile GoStrings GoStrconv.

Inductive rep_event :=
  | EvNow (t : Z)
  | EvListPVCs (r : result (list PVC))
  | EvDeletePVC (pvc : PVC) (e : error)
  | EvDeletePod (pod : Pod) (e : error)
  | EvPatchPod (pod : Pod) (e : error)
  | EvUpdateSecret (secret : Secret) (e : error)
  | EvGetHbaConfigMap (r : result (option ConfigMap))
  | EvUpdateConfigMap (cm : ConfigMap) (e : error)
  | EvConnect (e : error)
  | EvInRecovery (r : result bool)
  | EvRoleExists (name : string) (r : result bool)
  | EvCreateRole (name : string) (opts : RoleOptions) (e : error)
  | EvStatus (r : result (list StandbyStatus))
  | EvSlots (r : result (list ReplicationSlot))
  | EvDrop (name : string) (e : error)
  | EvCreate (name : string) (reserve : bool) (e : error).

Definition logged_server {W} (srv : ReplicationServer W) : ReplicationServer (W * list rep_event) :=
  {| srv_ReplicationSlots := logged EvSlots (srv_ReplicationSlots srv);
     srv_CreateSlot := λ n b, logged (EvCreate n b) (srv_CreateSlot srv n b);
     srv_DropSlot := λ n, logged (EvDrop n) (srv_DropSlot srv n) |}.

Definition logged_api {W} (api : ReplicationAPI W) : ReplicationAPI (W * list rep_event) :=
  {| api_now := logged EvNow (api_now api);
     api_ListPVCs := logged EvListPVCs (api_ListPVCs api);
     api_DeletePVC := λ p, logged (EvDeletePVC p) (api_DeletePVC api p);
     api_DeletePod := λ p, logged (EvDeletePod p) (api_DeletePod api p);
     api_PatchPod := λ p, logged (λ r, EvPatchPod p r.2) (api_PatchPod api p);
     api_UpdateSecret := λ s, logged (λ r, EvUpdateSecret s r.2) (api_UpdateSecret api s);
     api_GetHbaConfigMap := logged EvGetHbaConfigMap (api_GetHbaConfigMap api);
     api_UpdateConfigMap := λ cm, logged (EvUpdateConfigMap cm) (api_UpdateConfigMap api cm);
     api_connect := logged EvConnect (api_connect api);
     srv_InRecovery := logged EvInRecovery (srv_InRecovery api);
     srv_RoleExists := λ n, logged (EvRoleExists n) (srv_RoleExists api n);
     srv_CreateRole := λ n o, logged (EvCreateRole n o) (srv_CreateRole api n o);
     srv_ReplicationStatus := logged EvStatus (srv_ReplicationStatus api);
     api_slots := logged_server (api_slots api) |}.

(** ** Streaming replication: ordinals and slots *)

Lemma Atoi_range s n : Atoi s = Some n → min_int64 ≤ n ≤ max_int64.
Proof.
  unfold Atoi. destruct (split_sign s) as [neg digits]. destruct (_ || _); [done|].
  set (z := if neg then _ else _). unfold in_int64. destruct (_ && _) eqn:E; [|done]. intros [= <-].
  apply andb_true_iff in E as [H1%Z.leb_le H2%Z.leb_le]. lia.
Qed.

Lemma parseOrdinal_spec name prefix n :
  parseOrdinal name prefix = Some n ↔ name = prefix +:+ Itoa n ∧ 0 ≤ n ≤ max_int64.
Proof.
  unfold parseOrdinal. split.
  - destruct (CutPrefix name prefix) as [rest|] eqn:Ec; [|done]. apply CutPrefix_Some in Ec as ->.
    case_decide; [done|]. destruct (Atoi rest) as [m|] eqn:Ea; [|done].
    destruct (bool_decide_reflect (m < 0)) as [|Hm]; [done|]. simpl. case_bool_decide as Hi; [|done]. intros [= <-].
    split; [by rewrite Hi|]. apply Atoi_range in Ea. lia.
  - intros [-> Hn]. assert (CutPrefix (prefix +:+ Itoa n) prefix = Some (Itoa n)) as -> by (by apply CutPrefix_Some).
    rewrite decide_False by (apply Itoa_digits; lia). rewrite Atoi_Itoa by (unfold min_int64 in *; unfold max_int64 in *; lia).
    rewrite bool_decide_eq_false_2 by lia. by rewrite bool_decide_eq_true_2.
Qed.

(** The names of pods, data volumes and slots and their ordinals determine each
    other: a name parses as the ordinal n exactly when it is the prefix followed by
    the canonical decimal form of n; so distinct ordinals never share a name, and
    names like "x-01", "x-+1" or those of a Cluster "x-1" do not parse as pods of x. *)
Theorem ordinals_canonical cluster name n :
  (podOrdinal cluster name = Some n ↔ name = podName cluster n ∧ 0 ≤ n ≤ max_int64) ∧
  (slotOrdinal name = Some n ↔ name = replicationSlotName n ∧ 0 ≤ n ≤ max_int64) ∧
  (pvcOrdinal cluster name = Some n ↔ name = dataVolumeName +:+ "-" +:+ podName cluster n ∧ 0 ≤ n ≤ max_int64) ∧
  (∀ m, replicationSlotName n = replicationSlotName m → n = m) ∧ (∀ m, podName cluster n = podName cluster m → n = m).
Proof.
  split_and!.
  - unfold podOrdinal, podName. rewrite parseOrdinal_spec. by rewrite app_assoc_s.
  - apply parseOrdinal_spec.
  - unfold pvcOrdinal, podName. rewrite parseOrdinal_spec. by rewrite !app_assoc_s.
  - intros m H%app_cancel_s. by apply Itoa_inj.
  - unfold podName. intros m H%app_cancel_s. injection H. apply Itoa_inj.
Qed.

(** ** Slots *)

#[global] Instance dropped_dec name (tr : list rep_event) : Decision (EvDrop name None ∈ tr).
Proof.
  induction tr as [|ev tr IH]; [right; apply not_elem_of_nil|]. destruct IH as [Hin|Hin]; [left; by right|].
  destruct ev as [| | | | | | | | | | | | | |n [err|]|]; try (right; by intros [[=]|?]%elem_of_cons).
  destruct (decide (n = name)) as [->|Hn]; [left; by left|right; by intros [[= ->]|?]%elem_of_cons].
Defined.

Section slots.
Context {W : Type} (srv : ReplicationServer W) (cluster : Cluster) (want : Z) (podExists pvcs : gset Z) (allowDrops : bool).

Abbreviation emits := (emits (λ _ _ _, True)).
Abbreviation lsrv := (logged_server srv).
Abbreviation action := (slotAction cluster want pvcs allowDrops).

(** A slot that may be dropped. *)
Definition droppable (s : ReplicationSlot) (o : Z) : Prop :=
  rs_slot_Name s = replicationSlotName o ∧ 0 < o ∧ rs_slot_Physical s = true ∧ rs_slot_Active s = false ∧
  (want ≤ o ∧ allowDrops = true ∧ o ∉ pvcs ∨ o < want ∧ rs_slot_WALStatus s = WALStatusLost).

Lemma slotAction_spec s st drop st' :
  action s st = (drop, st') →
  if drop then ∃ o, droppable s o ∧ sl_existing st' = sl_existing st ∧
    (sl_lost st' = if decide (o < want) then {[rs_slot_Name s]} ∪ sl_lost st else sl_lost st)
  else sl_existing st' = {[rs_slot_Name s]} ∪ sl_existing st ∧ sl_lost st' = sl_lost st.
Proof.
  unfold slotAction. destruct (slotOrdinal _) as [o|] eqn:Eo; [|by intros [= <- <-]].
  apply parseOrdinal_spec in Eo as [Hname Ho].
  destruct (rs_slot_Physical s) eqn:Ep; simpl; [|by intros [= <- <-]].
  case_bool_decide as H0; [by intros [= <- <-]|].
  case_bool_decide as Hw.
  - destruct allowDrops eqn:Ea; simpl; [|by intros [= <- <-]]. destruct (rs_slot_Active s) eqn:Eac; simpl; [by intros [= <- <-]|].
    case_bool_decide as Hp; intros [= <- <-]; [done|]. exists o. rewrite decide_False by lia.
    split; [|done]. split_and!; [done|lia|done|done|]. by left.
  - case_bool_decide as Hl; simpl; [|by intros [= <- <-]]. destruct (rs_slot_Active s) eqn:Eac; intros [= <- <-]; [done|].
    exists o. rewrite decide_True by lia. split; [|done]. split_and!; [done|lia|done|done|]. right. split; [lia|done].
Qed.

(** What the loop did for the slots [slots]. *)
Definition loop_ok (slots : list ReplicationSlot) (new : list rep_event) (st st' : slotState) : Prop :=
  (∀ n, n ∈ sl_existing st' ↔ n ∈ sl_existing st ∨ ∃ s, s ∈ slots ∧ rs_slot_Name s = n ∧ EvDrop n None ∉ new) ∧
  (∀ n, n ∈ sl_lost st' ↔ n ∈ sl_lost st ∨ ∃ o, n = replicationSlotName o ∧ o < want ∧ EvDrop n None ∈ new).

Lemma slotLoop_emits slots st :
  emits (slotLoop lsrv cluster want pvcs allowDrops slots st) (λ '(e, st') new,
    (∀ ev, ev ∈ new → ∃ s o err, s ∈ slots ∧ ev = EvDrop (rs_slot_Name s) err ∧ droppable s o) ∧
    (e = None → NoDup (rs_slot_Name <$> slots) → loop_ok slots new st st')).
Proof.
  revert st. induction slots as [|s ss IH]; intros st; simpl.
  { apply emits_ret. split; [by intros ? ?%elem_of_nil|]. intros _ _.
    split; intros n; [split; [by left|]|split; [by left|]]; (intros [?|(x & Hx & Hy)]; [done|]); [by apply elem_of_nil in Hx|by destruct Hy as [_ ?%elem_of_nil]]. }
  destruct (action s st) as [drop st1] eqn:Ea. apply slotAction_spec in Ea.
  assert (∀ new, rs_slot_Name s ∉ rs_slot_Name <$> ss → (∀ ev, ev ∈ new → ∃ s0 o err, s0 ∈ ss ∧ ev = EvDrop (rs_slot_Name s0) err ∧ droppable s0 o) →
    ∀ e : error, EvDrop (rs_slot_Name s) e ∉ (new : list rep_event)) as Hno.
  { intros new Hs Hnew e (s0 & o & err & Hs0 & [= Heq _] & _)%Hnew. apply Hs. rewrite Heq. by apply list_elem_of_fmap_2. }
  destruct drop.
  - destruct Ea as (o & Hd & Hex & Hlost). eapply emits_bind; [by apply emits_logged|]. intros e new1 ->.
    assert (∃ s0 o err, s0 ∈ s :: ss ∧ EvDrop (rs_slot_Name s) e = EvDrop (rs_slot_Name s0) err ∧ droppable s0 o) as Hhd.
    { exists s, o, e. split_and!; [by left|done|done]. }
    destruct e as [e|].
    { apply emits_ret. rewrite app_nil_r. split; [|done]. by intros ev ->%list_elem_of_singleton. }
    eapply emits_conseq; [apply (IH st1)|]. intros [e st2] new2 [Hev Hok]. split.
    { intros ev [->|(s0 & o0 & err & ? & ? & ?)%Hev]%elem_of_cons; [done|]. exists s0, o0, err. split; [by right|done]. }
    intros He [Hs Hn]%NoDup_cons. destruct (Hok He Hn) as [H1 H2]. destruct Hd as (Hname & _). split; intros n.
    + rewrite H1, Hex. split.
      * intros [?|(s0 & Hs0 & <- & Hnd)]; [by left|]. right. exists s0. split_and!; [by right|done|].
        intros [[= Heq]|?]%elem_of_cons; [|done]. apply Hs. rewrite <- Heq. by apply list_elem_of_fmap_2.
      * intros [?|(s0 & [->|Hs0]%elem_of_cons & <- & Hnd)]; [by left|by destruct Hnd; left|]. right. exists s0.
        split_and!; [done|done|]. intros ?. apply Hnd. by right.
    + rewrite H2, Hlost. split.
      * intros [Hin|(o' & -> & ? & ?)]; [|right; exists o'; split_and!; [done|done|by right]].
        case_decide; [|by left]. apply elem_of_union in Hin as [->%elem_of_singleton|?]; [|by left].
        right. exists o. split_and!; [done|done|by left].
      * intros [?|(o' & -> & Ho' & [[= Heq]|?]%elem_of_cons)].
        -- left. case_decide; [set_solver|done].
        -- left. rewrite Hname in Heq. apply app_cancel_s, Itoa_inj in Heq as ->. rewrite decide_True by done. set_solver.
        -- right. by exists o'.
  - destruct Ea as [Hex Hlost].
    eapply emits_conseq; [apply (IH st1)|]. intros [e st2] new2 [Hev Hok]. split.
    { intros ev (s0 & o0 & err & ? & ? & ?)%Hev. exists s0, o0, err. split; [by right|done]. }
    intros He [Hs Hn]%NoDup_cons. destruct (Hok He Hn) as [H1 H2]. split; intros n; [|by rewrite H2, Hlost]. rewrite H1, Hex. split.
    + intros [[->%elem_of_singleton|?]%elem_of_union|(s0 & Hs0 & <- & Hnd)].
      * right. exists s. split_and!; [by left|done|by apply Hno].
      * by left.
      * right. exists s0. split_and!; [by right|done|done].
    + intros [?|(s0 & [->|Hs0]%elem_of_cons & <- & Hnd)]; [left; set_solver|left; set_solver|right; by exists s0].
Qed.

Lemma createLoop_emits ordinals st :
  emits (createLoop lsrv podExists ordinals st) (λ e new,
    (∀ ev, ev ∈ new → ∃ i err, i ∈ ordinals ∧ i ∈ podExists ∧ replicationSlotName i ∉ sl_existing st ∧
      ev = EvCreate (replicationSlotName i) (bool_decide (replicationSlotName i ∉ sl_lost st)) err) ∧
    (e = None → ∀ i, i ∈ ordinals → i ∈ podExists →
      replicationSlotName i ∈ sl_existing st ∨ ∃ b, EvCreate (replicationSlotName i) b None ∈ new)).
Proof.
  induction ordinals as [|i is_ IH]; simpl.
  { apply emits_ret. split; [by intros ? ?%elem_of_nil|]. by intros _ ? ?%elem_of_nil. }
  destruct (bool_decide_reflect (replicationSlotName i ∉ sl_existing st)) as [Hex|Hex];
  destruct (bool_decide_reflect (i ∈ podExists)) as [Hp|Hp]; simpl.
  - eapply emits_bind; [by apply emits_logged|]. intros e new1 ->.
    assert (∃ i0 err, i0 ∈ i :: is_ ∧ i0 ∈ podExists ∧ replicationSlotName i0 ∉ sl_existing st ∧
      EvCreate (replicationSlotName i) (bool_decide (replicationSlotName i ∉ sl_lost st)) e =
      EvCreate (replicationSlotName i0) (bool_decide (replicationSlotName i0 ∉ sl_lost st)) err) as Hhd.
    { exists i, e. split_and!; [by left|done..]. }
    destruct e as [e|].
    { apply emits_ret. rewrite app_nil_r. split; [|done]. by intros ev ->%list_elem_of_singleton. }
    eapply emits_conseq; [apply IH|]. intros e new [Hev Hall]. split.
    + intros ev [->|(i0 & err & ? & ?)%Hev]%elem_of_cons; [done|]. exists i0, err. split; [by right|done].
    + intros He j [->|Hj]%elem_of_cons Hpj; [right; eexists; by left|].
      destruct (Hall He j Hj Hpj) as [?|[b ?]]; [by left|right]. exists b. by right.
  - eapply emits_conseq; [apply IH|]. intros e new [Hev Hall]. split.
    + intros ev (i0 & err & ? & ?)%Hev. exists i0, err. split; [by right|done].
    + intros He j [->|Hj]%elem_of_cons Hpj; [done|by apply Hall].
  - eapply emits_conseq; [apply IH|]. intros e new [Hev Hall]. split.
    + intros ev (i0 & err & ? & ?)%Hev. exists i0, err. split; [by right|done].
    + intros He j [->|Hj]%elem_of_cons Hpj; [left; by apply dec_stable|by apply Hall].
  - eapply emits_conseq; [apply IH|]. intros e new [Hev Hall]. split.
    + intros ev (i0 & err & ? & ?)%Hev. exists i0, err. split; [by right|done].
    + intros He j [->|Hj]%elem_of_cons Hpj; [done|by apply Hall].
Qed.

(** After a successful listing of the slots [slots]. *)
Definition slots_ok (slots : list ReplicationSlot) (e : error) (new : list rep_event) : Prop :=
  (∀ name err, EvDrop name err ∈ new → ∃ s o, s ∈ slots ∧ rs_slot_Name s = name ∧ droppable s o) ∧
  (∀ name reserve err, EvCreate name reserve err ∈ new →
    (∃ i, 1 ≤ i < want ∧ i ∈ podExists ∧ name = replicationSlotName i) ∧
    (∀ s, s ∈ slots → rs_slot_Name s = name → EvDrop name None ∈ new) ∧
    (reserve = true ↔ EvDrop name None ∉ new)) ∧
  (e = None → ∀ i, 1 ≤ i < want → i ∈ podExists →
    (∃ s, s ∈ slots ∧ rs_slot_Name s = replicationSlotName i ∧ EvDrop (replicationSlotName i) None ∉ new) ∨
    ∃ b, EvCreate (replicationSlotName i) b None ∈ new).

Definition slots0 : slotState := {| sl_existing := ∅; sl_lost := ∅; sl_recreated := [] |}.

Lemma slots_ok_compose slots st e drops creates :
  (∀ ev, ev ∈ drops → ∃ s o err, s ∈ slots ∧ ev = EvDrop (rs_slot_Name s) err ∧ droppable s o) →
  loop_ok slots drops slots0 st →
  (∀ ev, ev ∈ creates → ∃ i err, i ∈ standbyOrdinals want ∧ i ∈ podExists ∧ replicationSlotName i ∉ sl_existing st ∧
    ev = EvCreate (replicationSlotName i) (bool_decide (replicationSlotName i ∉ sl_lost st)) err) →
  (e = None → ∀ i, i ∈ standbyOrdinals want → i ∈ podExists →
    replicationSlotName i ∈ sl_existing st ∨ ∃ b, EvCreate (replicationSlotName i) b None ∈ creates) →
  slots_ok slots e (drops ++ creates).
Proof.
  intros Hd [Hex Hlost] Hc Hall.
  assert (∀ n err, EvDrop n err ∈ drops ++ creates ↔ EvDrop n err ∈ drops) as Hdrop.
  { intros n err. rewrite elem_of_app. split; [|by left]. intros [?|(i & err' & _ & _ & _ & [=])%Hc]; done. }
  split_and!.
  - intros name err (s & o & err' & Hs & [= -> ->] & Ho)%Hdrop%Hd. eauto.
  - intros name reserve err [(s & o & err' & _ & [=] & _)%Hd|Hin]%elem_of_app.
    destruct (Hc _ Hin) as (i & err' & Hi%elem_of_seqZ & Hp & Hnex & [= -> -> ->]). rewrite bool_decide_eq_true, !Hdrop.
    split_and!.
    + exists i. split_and!; [lia|lia|done|done].
    + intros s Hs Hn. rewrite Hdrop. apply dec_stable. intros Hnd. apply Hnex, Hex. right. by exists s.
    + rewrite Hlost. split.
      * intros Hn Hin'. apply Hn. right. exists i. split_and!; [done|lia|done].
      * intros Hn [[]%elem_of_empty|(o & _ & _ & Hin')]. done.
  - intros He i Hi Hp. destruct (Hall He i) as [Hin|[b Hb]]; [apply elem_of_seqZ; lia|done| |].
    + apply Hex in Hin as [[]%elem_of_empty|(s & Hs & Hn & Hnd)]. left. exists s. by rewrite Hdrop.
    + right. exists b. apply elem_of_app. by right.
Qed.

(** What follows the listing in [reconcileReplicationSlots]. *)
Lemma slots_body_emits slots :
  NoDup (rs_slot_Name <$> slots) →
  emits ('(e, st) ← slotLoop lsrv cluster want pvcs allowDrops slots slots0;
         match e with
         | Some err => mret ([], Some err)
         | None => e ← createLoop lsrv podExists (standbyOrdinals want) st; mret (sl_recreated st, e)
         end) (λ '(_, e) new, slots_ok slots e new).
Proof.
  intros Hnd. eapply emits_bind; [apply slotLoop_emits|]. intros [e st] drops [Hd Hok]. destruct e as [e|].
  - apply emits_ret. rewrite app_nil_r. unfold slots_ok. split_and!; [|intros name reserve err (s & o & err' & _ & [=] & _)%Hd|done].
    intros name err (s & o & err' & Hs & [= -> ->] & Ho)%Hd. eauto.
  - eapply emits_bind; [apply createLoop_emits|]. intros e creates [Hc Hall].
    apply emits_ret. rewrite app_nil_r. eapply slots_ok_compose; [done|by apply Hok|done|done].
Qed.
End slots.

(** The slots on the primary follow the standbys. When the listing succeeded (its
    slot names are unique, as pg_replication_slots.slot_name is), a pass drops only
    inactive physical slots of standbys: those of removed standbys, once the rollout
    allows it and their volume is gone, and invalidated ones of wanted standbys; it
    creates slots only for wanted standbys that have a pod and no slot left, reserving
    WAL exactly when the slot was not dropped in this pass; and a pass without error
    leaves every wanted standby that has a pod with a slot. *)
Theorem slots_follow_standbys {W} (srv : ReplicationServer W) cluster want podExists pvcs allowDrops slots w w1 recreated e w' tr :
  srv_ReplicationSlots srv w = (inl slots, w1) → NoDup (rs_slot_Name <$> slots) →
  reconcileReplicationSlots (logged_server srv) cluster want podExists pvcs allowDrops (w, []) = ((recreated, e), (w', tr)) →
  ∃ new, tr = EvSlots (inl slots) :: new ∧ slots_ok want podExists pvcs allowDrops slots e new.
Proof.
  intros Hl Hnd Hrun. unfold reconcileReplicationSlots, mbind, M_bind, logged_server, logged in Hrun. simpl in Hrun.
  rewrite Hl in Hrun.
  destruct (slots_body_emits srv cluster want podExists pvcs allowDrops slots Hnd (w1, [EvSlots (inl slots)])) as (new & Htr & _ & Hok).
  exists new. unfold mbind, M_bind, logged_server, logged in Htr, Hok.
  match type of Hrun with ?l = _ => match type of Htr with (?r).2.2 = _ => change r with l in Htr, Hok end end.
  rewrite Hrun in Htr, Hok. by simplify_eq/=.
Qed.

(** Two standbys wanted, with pods; slot 1 was invalidated, slot 5 is of a removed
    standby, slot 2 is missing. *)
Definition toy_slot (n : string) (active : bool) (st : string) : ReplicationSlot :=
  {| rs_slot_Name := n; rs_slot_Physical := true; rs_slot_Active := active; rs_slot_WALStatus := st |}.
Definition toy_slots : list ReplicationSlot :=
  [toy_slot "pgop_replica_1" false "lost"; toy_slot "pgop_replica_5" false "reserved"; toy_slot "backup" true "reserved"].
Definition toy_server : ReplicationServer unit :=
  {| srv_ReplicationSlots := mret (inl toy_slots); srv_CreateSlot := λ _ _, mret None; srv_DropSlot := λ _, mret None |}.
Definition toy_cluster : Cluster := {| cl_Name := "pg"; cl_Namespace := "db"; cl_UID := "u"; cl_Annotations := ∅; cl_Replicas := 3 |}.

Lemma slots_follow_standbys_witness :
  ∃ recreated e w' tr, reconcileReplicationSlots (logged_server toy_server) toy_cluster 3 {[1; 2]} {[1; 2]} true (tt, []) =
      ((recreated, e), (w', tr)) ∧
    tr = [EvSlots (inl toy_slots); EvDrop "pgop_replica_1" None; EvDrop "pgop_replica_5" None;
          EvCreate "pgop_replica_1" false None; EvCreate "pgop_replica_2" true None] ∧
    ∃ new, tr = EvSlots (inl toy_slots) :: new ∧ slots_ok 3 {[1; 2]} {[1; 2]} true toy_slots e new.
Proof.
  eexists _, _, _, _. split; [apply run_split2|]. split; [vm_compute; reflexivity|].
  eapply (slots_follow_standbys toy_server); [done| |apply run_split2].
  apply (bool_decide_unpack _). vm_compute. exact I.
Defined.
