(* ===== verification/PasswordSyncTheorems.v ===== *)
(** * Restarts of a primary that rejects the operator's password

    The restart record round-trips through the Secret's annotation; over any history
    of replication passes with one password in which no login succeeds, the primary
    is restarted at most five times, with doubling pauses. *)

From Stdlib Require Import Ascii.
From S2P Require Import Prelude GoStrings GoStrconv RoleSql Password Trace Replication ReplicationReconcile.
From S2P Require Import ReplicationTheorems.

Open Scope Z_scope.

(** ** The record *)

Lemma hex_digit_slash z : 0 ≤ z < 16 → hex_digit z ≠ "/"%char.
Proof.
  assert (Forall (λ z, hex_digit z ≠ "/"%char) (seqZ 0 16)) as Hall by (apply (bool_decide_unpack _); vm_compute; exact I).
  intros Hz. apply (proj1 (Forall_forall _ _) Hall). apply elem_of_seqZ. lia.
Qed.

Lemma hex_slash n z : ContainsByte (hex n z) "/" = false.
Proof.
  induction n as [|n IH]; [done|]. cbn [hex ContainsByte]. rewrite IH, bool_decide_eq_false_2; [done|].
  apply hex_digit_slash, Z.mod_pos_bound. lia.
Qed.

Lemma hex_encode_slash s : ContainsByte (hex_encode s) "/" = false.
Proof.
  unfold hex_encode. induction s as [|c s IH]; [done|]. cbn [map_bytes].
  by rewrite ContainsByte_app_s, hex_slash, IH.
Qed.

Lemma parse_String p :
  ContainsByte (ps_Fingerprint p) "/" = false → min_int64 ≤ ps_Attempts p ≤ max_int64 → min_int64 ≤ unix (ps_Last p) ≤ max_int64 →
  parsePasswordSyncRestart (passwordSyncRestart_String p) =
    {| ps_Fingerprint := ps_Fingerprint p; ps_Attempts := ps_Attempts p; ps_Last := unix (ps_Last p) * second_ns |}.
Proof.
  intros Hf Ha Hl. unfold parsePasswordSyncRestart, passwordSyncRestart_String.
  change (ps_Fingerprint p +:+ "/" +:+ ?t) with (ps_Fingerprint p +:+ String "/" t).
  rewrite Split_app by done. change ("/" +:+ Itoa (unix (ps_Last p))) with (String "/" (Itoa (unix (ps_Last p)))).
  rewrite Split_app by (by apply Itoa_no_byte). rewrite Split_no by (by apply Itoa_no_byte).
  by rewrite !Atoi_Itoa.
Qed.

Lemma passwordSyncBackoff_small a :
  1 ≤ a ≤ passwordSyncMaxAttempts → passwordSyncBackoff a = Some (passwordSyncFirstBackoff * 2 ^ (a - 1)).
Proof.
  unfold passwordSyncMaxAttempts. intros Ha.
  assert (a = 1 ∨ a = 2 ∨ a = 3 ∨ a = 4 ∨ a = 5) as Hc by lia.
  by destruct Hc as [->|[->|[->|[->| ->] ] ] ]; vm_compute.
Qed.

(** ** One pass *)

(** The record a pass works on: the stored one, or a fresh one when it is about
    another password. *)
Definition sync_record (fp : string) (stored : option string) : passwordSyncRestart :=
  let p := parsePasswordSyncRestart (default "" stored) in
  if decide (ps_Fingerprint p = fp) then p else {| ps_Fingerprint := fp; ps_Attempts := 0; ps_Last := 0 |}.

Definition next_record (fp : string) (stored : option string) (now : Z) : string :=
  passwordSyncRestart_String
    {| ps_Fingerprint := fp; ps_Attempts := ps_Attempts (sync_record fp stored) + 1; ps_Last := now |}.

Lemma sync_record_fp fp stored : ps_Fingerprint (sync_record fp stored) = fp.
Proof. unfold sync_record. by case_decide. Qed.

Lemma sync_record_next fp stored now :
  ContainsByte fp "/" = false → 0 ≤ ps_Attempts (sync_record fp stored) < passwordSyncMaxAttempts → 0 ≤ now ≤ max_int64 →
  sync_record fp (Some (next_record fp stored now)) =
    {| ps_Fingerprint := fp; ps_Attempts := ps_Attempts (sync_record fp stored) + 1; ps_Last := now / second_ns * second_ns |}.
Proof.
  unfold passwordSyncMaxAttempts. intros Hfp Ha Hn. unfold sync_record at 1, next_record. simpl default. rewrite parse_String; simpl; [|done|unfold min_int64, max_int64; lia|].
  - by rewrite decide_True.
  - unfold unix, second_ns, min_int64. unfold max_int64 in *.
    pose proof (Z.div_pos now 1000000000). pose proof (Z.div_le_upper_bound now 1000000000 (2 ^ 63 - 1)). lia.
Qed.

Section pass.
Context {W : Type} `{Sha256} (api : ReplicationAPI W) (cluster : Cluster).

Definition operator_fingerprint (password : string) : string :=
  replicationPasswordFingerprint cluster ("operator" +:+ nul +:+ password).

(** Whether the pause after the recorded attempts is over. *)
Definition pause_over (p : passwordSyncRestart) (now : Z) : Prop :=
  ps_Attempts p ≤ 0 ∨ ∃ b, passwordSyncBackoff (ps_Attempts p) = Some b ∧ ps_Last p + b ≤ now.

(** The calls of a pass. *)
Definition restart_trace (secret : Secret) (primary : Pod) (new : list rep_event) : Prop :=
  let fp := operator_fingerprint (secret_value secret SecretKeyPassword) in
  let stored := sec_Annotations secret !! AnnotationPasswordSyncRestart in
  let p := sync_record fp stored in
  ∃ now, new = [EvNow now] ∧ (passwordSyncMaxAttempts ≤ ps_Attempts p ∨ ¬ pause_over p now) ∨
    ps_Attempts p < passwordSyncMaxAttempts ∧ pause_over p now ∧
    let s := sec_set_annotation AnnotationPasswordSyncRestart (next_record fp stored now) secret in
    ((∃ e, new = [EvNow now; EvUpdateSecret s (Some e)]) ∨ ∃ e, new = [EvNow now; EvUpdateSecret s None; EvDeletePod primary e]).

Lemma restart_emits secret primary :
  emits (λ _ _ _, True) (restartPrimaryForPasswordSync (logged_api api) cluster secret primary) (λ _, restart_trace secret primary).
Proof.
  unfold restartPrimaryForPasswordSync. cbv zeta. change (replicationPasswordFingerprint _ _) with (operator_fingerprint (secret_value secret SecretKeyPassword)).
  set (fp := operator_fingerprint _). fold (sync_record fp (sec_Annotations secret !! AnnotationPasswordSyncRestart)).
  set (stored := sec_Annotations secret !! _). set (p := sync_record fp stored).
  eapply emits_bind; [by apply emits_logged|]. intros now new1 ->.
  destruct (bool_decide_reflect (passwordSyncMaxAttempts ≤ ps_Attempts p)) as [Hmax|Hmax].
  { apply emits_ret. exists now. left. split; [done|by left]. }
  destruct (_ && _) eqn:Ew.
  { apply emits_ret. exists now. left. split; [done|]. right. apply andb_true_iff in Ew as [H1%bool_decide_eq_true H2%bool_decide_eq_true].
    intros [?|(b & Hb & Hle)]; subst p fp stored; [lia|]. rewrite Hb in H2. lia. }
  assert (pause_over p now) as Hp.
  { apply andb_false_iff in Ew as [H1%bool_decide_eq_false|H2%bool_decide_eq_false]; [left; lia|].
    destruct (decide (0 < ps_Attempts p)); [|left; lia]. right.
    rewrite passwordSyncBackoff_small in H2 |- * by lia. eexists. split; [done|lia]. }
  assert (ps_Attempts p < passwordSyncMaxAttempts) as Hlt by lia.
  assert (passwordSyncRestart_String {| ps_Fingerprint := ps_Fingerprint p; ps_Attempts := ps_Attempts p + 1; ps_Last := now |}
    = next_record fp stored now) as -> by (unfold p; by rewrite sync_record_fp).
  eapply emits_bind; [by apply emits_logged|]. intros [secret' e] new2 ->. destruct e as [e|].
  { apply emits_ret. exists now. right. split_and!; [done..|]. left. by exists e. }
  eapply emits_bind; [by apply emits_logged|]. intros e new3 ->. simpl.
  assert (restart_trace secret primary [EvNow now; EvUpdateSecret (sec_set_annotation AnnotationPasswordSyncRestart
    (next_record fp stored now) secret) None; EvDeletePod primary e]) as Hgoal by (exists now; right; split_and!; eauto).
  destruct e as [e|]; [apply emits_ret; exact Hgoal|].
  destruct (bool_decide (_ ≤ ps_Attempts p + 1)); apply emits_ret; exact Hgoal.
Qed.
End pass.

(** ** A whole replication pass

    Up to a successful login a pass changes neither the Secret nor a pod, except when
    it restarts the primary. *)

Definition no_change (ev : rep_event) : Prop := match ev with EvDeletePod _ _ | EvUpdateSecret _ _ => False | _ => True end.

Ltac walk_calls P tac :=
  repeat (progress (walk_only; try (apply (only_logged P); intros; exact I); try tac)).

Section whole.
Context {W : Type} `{Sha256} (api : ReplicationAPI W) (cluster : Cluster).

Abbreviation lapi := (logged_api api).
Abbreviation emits := (emits (λ _ _ _, True)).
Abbreviation calls := (only (W := W) (λ _ : rep_event, True)).
Abbreviation still := (only (W := W) no_change).

Lemma volumeLoop_quiet ordinals n items remaining : still (volumeLoop (api_DeletePVC lapi) cluster ordinals n items remaining).
Proof. revert remaining. induction items as [|pvc pvcs IH]; intros remaining; simpl; walk_calls no_change ltac:(apply IH). Qed.

Lemma cleanupStandbyVolumes_quiet sts pods : still (cleanupStandbyVolumes (api_ListPVCs lapi) (api_DeletePVC lapi) cluster sts pods).
Proof. unfold cleanupStandbyVolumes. walk_calls no_change ltac:(apply volumeLoop_quiet). Qed.

Lemma slotLoop_calls want pvcs drops slots st : calls (slotLoop (api_slots lapi) cluster want pvcs drops slots st).
Proof.
  revert st. induction slots as [|s slots IH]; intros st; simpl; [by apply only_ret|].
  destruct (slotAction _ _ _ _ _ _) as [[] st']; walk_calls (λ _ : rep_event, True) ltac:(apply IH).
Qed.

Lemma createLoop_calls podExists ordinals st : calls (createLoop (api_slots lapi) podExists ordinals st).
Proof. induction ordinals as [|i is_ IH]; simpl; walk_calls (λ _ : rep_event, True) ltac:(apply IH). Qed.

Lemma labelStreaming_calls streaming pods : calls (labelStreaming (api_PatchPod lapi) cluster streaming pods).
Proof. induction pods as [|pod pods IH]; simpl; walk_calls (λ _ : rep_event, True) ltac:(apply IH). Qed.

Lemma managePrimary_calls secret pods cond pvcs drops : calls (managePrimary lapi cluster secret pods cond pvcs drops).
Proof.
  unfold managePrimary, markInitialized, ensureReplicationRole, reconcileReplicationSlots, rolloutReplicationPassword, passFail, passDone.
  cbv zeta. walk_calls (λ _ : rep_event, True) ltac:(first [apply slotLoop_calls|apply createLoop_calls|apply labelStreaming_calls]).
Qed.

Lemma clear_calls secret : calls (clearPasswordSyncRestart lapi secret).
Proof. unfold clearPasswordSyncRestart. walk_calls (λ _ : rep_event, True) idtac. Qed.

#[local] Ltac no_changes := repeat (apply Forall_cons; split; [exact I|]); apply Forall_nil_2.

(** The calls of a pass as far as they concern the restarts. *)
Definition login_trace (secret : Secret) (new : list rep_event) : Prop :=
  EvConnect None ∈ new ∨ Forall no_change new ∨
  ∃ pre mid primary, new = pre ++ mid ∧ Forall no_change pre ∧ restart_trace cluster secret primary mid.

Lemma login_app secret pre new : Forall no_change pre → login_trace secret new → login_trace secret (pre ++ new).
Proof.
  intros Hp [?|[?|(pre' & mid & primary & -> & ? & ?)]].
  - left. apply elem_of_app. by right.
  - right. left. by apply Forall_app.
  - right. right. exists (pre ++ pre'), mid, primary. rewrite app_assoc. split_and!; [done|by apply Forall_app|done].
Qed.

Lemma login_still secret new : Forall no_change new → login_trace secret new.
Proof. right. by left. Qed.

Lemma login_restart secret pre primary new :
  Forall no_change pre → restart_trace cluster secret primary new → login_trace secret (pre ++ new).
Proof. intros ? ?. right. right. by exists pre, new, primary. Qed.

Lemma login_connected {A} secret (m : M (W * list rep_event) A) pre :
  calls m → EvConnect None ∈ pre → emits m (λ _ new, login_trace secret (pre ++ new)).
Proof. intros Hm Hin. eapply emits_conseq; [exact Hm|]. intros x new _. left. apply elem_of_app. by left. Qed.

Lemma checkOperatorLogin_login secret pods : emits (checkOperatorLogin lapi cluster secret pods) (λ _, login_trace secret).
Proof.
  assert (login_trace secret []) as Hnil by (by apply login_still).
  unfold checkOperatorLogin. destruct (pausedForRestore cluster); [by apply emits_ret|].
  destruct (findPrimary cluster pods) as [primary|]; [|by apply emits_ret].
  destruct (negb _); [by apply emits_ret|].
  eapply emits_bind; [by apply emits_logged|]. intros [err|] new ->.
  - assert (Forall no_change [EvConnect (Some err)]) as Hc by (no_changes).
    destruct (negb _); [apply emits_ret; by apply login_still|].
    destruct (podReadySince primary) as [since|].
    + eapply emits_bind; [by apply emits_logged|]. intros now new ->.
      destruct (bool_decide (0 < _)); [apply emits_ret; apply login_still; no_changes|].
      eapply emits_conseq; [apply restart_emits|]. intros ? new Ht. rewrite app_assoc. eapply login_restart; [no_changes|exact Ht].
    + eapply emits_conseq; [apply restart_emits|]. intros ? new Ht. eapply login_restart; [exact Hc|exact Ht].
  - apply login_connected; [|by left]. apply only_bind; [apply clear_calls|]. intros [s [e|]]; by apply only_ret.
Qed.

Lemma reachPrimary_login secret pods primary cond pvcs drops :
  emits (reachPrimary lapi cluster secret primary pods cond pvcs drops) (λ _, login_trace secret).
Proof.
  unfold reachPrimary, connectPrimary, passFail, passDone.
  apply (emits_bind _ _ _ (λ '(r, _) new, login_trace secret new ∧ (r = Some None → EvConnect None ∈ new))).
  { eapply emits_bind; [by apply emits_logged|]. intros e new ->. destruct (isInvalidPassword e) eqn:Ei.
    - destruct e as [err|]; [|done]. eapply emits_bind; [apply restart_emits|]. intros [r s] new Ht. apply emits_ret. rewrite app_nil_r.
      split; [eapply login_restart; [no_changes|exact Ht]|by destruct r].
    - apply emits_ret. split; [apply login_still; no_changes|]. intros [= ->]. by left. }
  intros [r s] new1 [H1 Hc]. destruct r as [[err|]|]; [apply emits_ret; by rewrite app_nil_r| |apply emits_ret; by rewrite app_nil_r].
  apply login_connected; [|by apply Hc].
  apply only_bind; [apply clear_calls|]. intros [s' [e|]]; [by apply only_ret|].
  apply only_bind; [by apply only_logged|]. intros [[]|e]; [by apply only_ret|apply managePrimary_calls|by apply only_ret].
Qed.

Lemma reconcileReplication_login secret sts pods cond : emits (reconcileReplication lapi cluster secret sts pods cond) (λ _, login_trace secret).
Proof.
  unfold reconcileReplication, passWait, passDone. cbv zeta. destruct (negb _).
  { eapply emits_bind; [apply checkOperatorLogin_login|]. intros [recheck s] new Hl. apply emits_ret. by rewrite app_nil_r. }
  eapply emits_bind; [apply cleanupStandbyVolumes_quiet|]. intros [kept verr] vols Hv.
  assert (login_trace secret (vols ++ [])) as Hend by (rewrite app_nil_r; by apply login_still).
  destruct (findPrimary cluster pods) as [primary|]; [|by apply emits_ret].
  destruct (isPodReady primary); [|by apply emits_ret].
  eapply emits_conseq; [apply reachPrimary_login|]. intros ? new. by apply login_app.
Qed.
End whole.

(** ** Histories of passes *)

Definition restarted_in (tr : list rep_event) : Prop := ∃ pod e, EvDeletePod pod e ∈ tr.
Definition clock (ev : rep_event) : option Z := match ev with EvNow t => Some t | _ => None end.

(** One replication pass with the calls [tr], for a Cluster and a credentials Secret
    in any state whose password has the fingerprint [fp] and whose annotation the API
    server stores as [stored], in which no login as the operator succeeded. Its time
    is the last reading of the clock, any time when there is none. A successful
    update is stored; one that reports an error may or may not be. *)
Definition sync_pass `{Sha256} (fp : string) (stored : option string) (now : Z) (tr : list rep_event) (stored' : option string) : Prop :=
  ∃ W (api : ReplicationAPI W) cluster secret sts pods cond w res w',
    operator_fingerprint cluster (secret_value secret SecretKeyPassword) = fp ∧
    sec_Annotations secret !! AnnotationPasswordSyncRestart = stored ∧
    reconcileReplication (logged_api api) cluster secret sts pods cond (w, []) = (res, (w', tr)) ∧
    EvConnect None ∉ tr ∧
    match last (omap clock tr) with Some t => now = t | None => True end ∧
    (stored' = stored ∧ (∀ s, EvUpdateSecret s None ∉ tr) ∨
     ∃ s e, EvUpdateSecret s e ∈ tr ∧ stored' = sec_Annotations s !! AnnotationPasswordSyncRestart).

Inductive sync_history `{Sha256} (fp : string) : option string → list (Z * list rep_event) → Prop :=
  | history_nil stored : sync_history fp stored []
  | history_cons stored now tr stored' passes :
      sync_pass fp stored now tr stored' → sync_history fp stored' passes →
      sync_history fp stored ((now, tr) :: passes).

(** The times of the passes that restarted the primary. *)
Inductive restart_times : list (Z * list rep_event) → list Z → Prop :=
  | times_nil : restart_times [] []
  | times_yes now tr passes ts : restarted_in tr → restart_times passes ts → restart_times ((now, tr) :: passes) (now :: ts)
  | times_no now tr passes ts : ¬ restarted_in tr → restart_times passes ts → restart_times ((now, tr) :: passes) ts.

Section history.
Context `{Sha256} (fp : string).
Abbreviation record := (sync_record fp).

Lemma no_change_elem tr : Forall no_change tr → ¬ restarted_in tr ∧ ∀ s e, EvUpdateSecret s e ∉ tr.
Proof.
  intros Hf. rewrite Forall_forall in Hf. split; [intros (p & e & Hin)|intros s e Hin]; by apply Hf in Hin.
Qed.

Lemma sync_pass_cases stored now tr stored' :
  sync_pass fp stored now tr stored' →
  (¬ restarted_in tr ∧ stored' = stored) ∨
  (ContainsByte fp "/" = false ∧ ps_Attempts (record stored) < passwordSyncMaxAttempts ∧ pause_over (record stored) now ∧
   stored' = Some (next_record fp stored now)).
Proof.
  intros (W & api & cluster & secret & sts & pods & cond & w & res & w' & <- & <- & Hrun & Hlog & Hnow & Hst).
  apply (emits_run (λ _ _ _, True) _ _ _ _ _ _ (reconcileReplication_login api cluster secret sts pods cond)) in Hrun as [_ Hl].
  destruct Hl as [?|[Hn|(pre & mid & primary & -> & Hpre & now' & Hr)]]; [done| |].
  { apply no_change_elem in Hn as [Hnr Hnu]. left. split; [done|].
    destruct Hst as [[? _]|(s & e & Hin & _)]; [done|by apply Hnu in Hin]. }
  apply no_change_elem in Hpre as [Hnr Hnu]. set (fp := operator_fingerprint _ _) in *.
  assert (last (omap clock (pre ++ mid)) = Some now' → now = now') as Hclock by (intros Hc; by rewrite Hc in Hnow).
  destruct Hr as [[-> _]|(Hlt & Hp & Hmid)].
  - left. split; [intros (? & ? & [?|[=]%list_elem_of_singleton]%elem_of_app); apply Hnr; by eexists _, _|].
    destruct Hst as [[? _]|(s & e & [Hin|[=]%list_elem_of_singleton]%elem_of_app & _)]; [done|by apply Hnu in Hin].
  - assert (now = now') as -> by (apply Hclock; destruct Hmid as [[e ->]|[e ->]]; rewrite omap_app; simpl; by rewrite last_snoc).
    assert (∀ s e, EvUpdateSecret s e ∈ mid → sec_Annotations s !! AnnotationPasswordSyncRestart =
      Some (next_record fp (sec_Annotations secret !! AnnotationPasswordSyncRestart) now')) as Hupd.
    { intros s e Hin. destruct Hmid as [[e' ->]|[e' ->]]; rewrite !elem_of_cons, elem_of_nil in Hin;
        naive_solver (simpl; by rewrite lookup_insert_eq). }
    destruct Hst as [[? Hno]|(s & e' & Hin & ->)].
    + left. split; [|done]. intros (p & e & [?|Hin]%elem_of_app); [apply Hnr; by eexists _, _|].
      destruct Hmid as [[e' ->]|[e' ->]]; [rewrite !elem_of_cons, elem_of_nil in Hin; naive_solver|].
      eapply Hno. apply elem_of_app. right. right. by left.
    + right. apply elem_of_app in Hin as [Hin|Hin]; [by apply Hnu in Hin|].
      split_and!; [apply hex_encode_slash|done|done|by eapply Hupd].
Qed.

(** The restarts still possible from a record: at most five in all, each after the
    pause of the attempts before it. *)
Definition restarts_ok (p : passwordSyncRestart) (ts : list Z) : Prop :=
  (∀ i t, ts !! i = Some t → ps_Attempts p + Z.of_nat i < passwordSyncMaxAttempts) ∧
  (∀ i t, ts !! i = Some t → 0 < ps_Attempts p → ps_Last p + passwordSyncFirstBackoff * 2 ^ (ps_Attempts p - 1) ≤ t) ∧
  (∀ i t t', ts !! i = Some t → ts !! S i = Some t' →
    t / second_ns * second_ns + passwordSyncFirstBackoff * 2 ^ (ps_Attempts p + Z.of_nat i) ≤ t').

Lemma pow_step a : 0 ≤ a → 2 ^ a ≤ 2 ^ (a + 1).
Proof. intros. apply Z.pow_le_mono_r; lia. Qed.

(** A pass that recorded an attempt without restarting the primary. *)
Lemma restarts_ok_skip p now ts :
  0 ≤ ps_Attempts p < passwordSyncMaxAttempts → pause_over p now → Forall (λ t, now ≤ t) ts →
  restarts_ok {| ps_Fingerprint := fp; ps_Attempts := ps_Attempts p + 1; ps_Last := now / second_ns * second_ns |} ts →
  restarts_ok p ts.
Proof.
  intros Ha Hp Hts (H1 & H2 & H3). simpl in *. split_and!.
  - intros i t Ht. specialize (H1 i t Ht). lia.
  - intros i t Ht H0. rewrite Forall_lookup in Hts. specialize (Hts i t Ht). simpl in Hts.
    destruct Hp as [?|(b & Hb & Hle)]; [lia|]. rewrite passwordSyncBackoff_small in Hb by lia. simplify_eq. lia.
  - intros i t t' Ht Ht'. specialize (H3 i t t' Ht Ht').
    pose proof (pow_step (ps_Attempts p + Z.of_nat i) ltac:(lia)) as Hpow.
    replace (ps_Attempts p + 1 + Z.of_nat i) with (ps_Attempts p + Z.of_nat i + 1) in H3 by lia.
    unfold passwordSyncFirstBackoff, second_ns in *. lia.
Qed.

Lemma restarts_ok_restart p now ts :
  0 ≤ ps_Attempts p < passwordSyncMaxAttempts → pause_over p now → Forall (λ t, now ≤ t) ts →
  restarts_ok {| ps_Fingerprint := fp; ps_Attempts := ps_Attempts p + 1; ps_Last := now / second_ns * second_ns |} ts →
  restarts_ok p (now :: ts).
Proof.
  intros Ha Hp Hts Hok. pose proof (restarts_ok_skip _ _ _ Ha Hp Hts Hok) as (S1 & S2 & S3).
  destruct Hok as (H1 & H2 & H3). simpl in *. split_and!.
  - intros [|i] t; simpl; [lia|]. intros Ht. specialize (H1 i t Ht). lia.
  - intros [|i] t; simpl; [|by apply S2]. intros [= ->] H0.
    destruct Hp as [?|(b & Hb & Hle)]; [lia|]. rewrite passwordSyncBackoff_small in Hb by lia. by simplify_eq.
  - intros [|i] t t'; simpl.
    + intros [= ->] Ht'. specialize (H2 0%nat t' Ht' ltac:(lia)).
      replace (ps_Attempts p + 1 - 1) with (ps_Attempts p + Z.of_nat 0) in H2 by lia. lia.
    + intros Ht Ht'. specialize (H3 i t t' Ht Ht').
      by replace (ps_Attempts p + Z.of_nat (S i)) with (ps_Attempts p + 1 + Z.of_nat i) by lia.
Qed.

Lemma restart_times_Forall (P : Z → Prop) passes ts :
  restart_times passes ts → Forall (λ p, P p.1) passes → Forall P ts.
Proof. induction 1; intros Hf; [constructor|..]; apply Forall_cons in Hf as [? ?]; [constructor|]; auto. Qed.

Lemma sync_history_ok stored passes ts :
  sync_history fp stored passes → restart_times passes ts → StronglySorted Z.le (passes.*1) →
  Forall (λ p, 0 ≤ p.1 ≤ max_int64) passes → 0 ≤ ps_Attempts (record stored) → restarts_ok (record stored) ts.
Proof.
  intros Hh. revert ts. induction Hh as [stored|stored now tr stored' passes Hpass Hh IH]; intros ts Hts Hs Hr Ha.
  { inversion Hts. by split_and!. }
  rewrite fmap_cons in Hs. apply StronglySorted_inv in Hs as [Hs Hle]. apply (proj1 (Forall_fmap fst _ passes)) in Hle. apply Forall_cons in Hr as [Hnow Hr]. simpl in Hnow.
  assert (∀ ts, restart_times passes ts → Forall (λ t, now ≤ t) ts) as Hlater.
  { intros ts' Ht. apply (restart_times_Forall (λ t, now ≤ t) passes); [exact Ht|exact Hle]. }
  apply sync_pass_cases in Hpass as [[Hno ->]|(Hfp & Hlt & Hp & ->)].
  - inversion Hts; subst; [done|]. by apply IH.
  - rewrite sync_record_next in IH; [|exact Hfp|lia|exact Hnow]. simpl in IH.
    inversion Hts as [|? ? ? ts' Hyes Hts'|? ? ? ? Hno Hts']; subst.
    + apply restarts_ok_restart; [done|done|by apply Hlater|]. apply IH; [done|done|done|lia].
    + apply (restarts_ok_skip _ now); [done|done|by apply Hlater|]. apply IH; [done|done|done|lia].
Qed.
End history.

(** C34: a primary that keeps rejecting the operator's password is restarted a bounded
    number of times: over any history of replication passes with one password in
    which no login as the operator succeeds (it is rejected, the connection fails
    otherwise, the pass ends before it), whatever the Cluster and the pods are and
    whatever the API server answers (an update that reports an error may still have
    been stored), the primary is deleted in at most five passes, and the pause after
    the (i+1)-th restart is at least 5 minutes doubled i times (counted from the full
    second the record keeps): nothing but a successful login or a new password resets
    the count. *)
Theorem password_sync_restarts_bounded `{Sha256} fp stored passes ts :
  sync_history fp stored passes → restart_times passes ts →
  ps_Attempts (sync_record fp stored) = 0 →
  StronglySorted Z.le (passes.*1) → Forall (λ p, 0 ≤ p.1 ≤ max_int64) passes →
  (length ts ≤ 5)%nat ∧
  ∀ i t t', ts !! i = Some t → ts !! S i = Some t' →
    t / second_ns * second_ns + passwordSyncFirstBackoff * 2 ^ Z.of_nat i ≤ t'.
Proof.
  intros Hh Hts Ha Hs Hr.
  destruct (sync_history_ok fp stored passes ts Hh Hts Hs Hr) as (H1 & _ & H3); [lia|]. rewrite Ha in *. split; [|done].
  destruct (decide (length ts ≤ 5)%nat) as [|Hn]; [done|]. destruct (lookup_lt_is_Some_2 ts 5) as [t Ht]; [lia|].
  specialize (H1 5%nat t Ht). unfold passwordSyncMaxAttempts in H1. lia.
Qed.

(** A primary that rejects the password at 1000 s, does not answer at 1100 s, and
    rejects the password at 1200 s and 1400 s: it is restarted, left alone twice, and
    restarted again. *)
Module Toy.
#[local] Instance toy_sha : Sha256 := { sha256 := λ _, "x" }.

(** The world: the clock and whether the server answers. *)
Definition api : ReplicationAPI (Z * bool) :=
  {| api_now := λ w : Z * bool, (w.1, w); api_ListPVCs := mret (inl []); api_DeletePVC := λ _, mret None; api_DeletePod := λ _, mret None;
     api_PatchPod := λ p, mret (p, None); api_UpdateSecret := λ s, mret (s, None); api_GetHbaConfigMap := mret (inl None);
     api_UpdateConfigMap := λ _, mret None;
     api_connect := λ w : Z * bool, (Some (if w.2 then PqErr pqCodeInvalidPassword "password authentication failed" else Errorf "connection refused" []), w);
     srv_InRecovery := mret (inl false); srv_RoleExists := λ _, mret (inl true); srv_CreateRole := λ _ _, mret None;
     srv_ReplicationStatus := mret (inl []);
     api_slots := {| srv_ReplicationSlots := mret (inl []); srv_CreateSlot := λ _ _, mret None; srv_DropSlot := λ _, mret None |} |}.

Definition cluster : Cluster :=
  {| cl_Name := "pg"; cl_Namespace := "db"; cl_UID := "u"; cl_Annotations := ∅; cl_Replicas := 1 |}.
Definition secret (stored : option string) : Secret :=
  {| sec_Name := "pg-credentials"; sec_Namespace := "db"; sec_ResourceVersion := "1"; sec_Labels := ∅;
     sec_Annotations := match stored with Some v => {[ AnnotationPasswordSyncRestart := v ]} | None => ∅ end;
     sec_OwnerReferences := []; sec_ControllerUID := None; sec_Data := {[ SecretKeyPassword := "pw" ]} |}.
Definition primary : Pod :=
  {| pod_Name := "pg-0"; pod_UID := "p"; pod_Deleting := false; pod_Created := 0;
     pod_Conditions := [{| pc_Type := PodReady; pc_Status := ConditionTrue; pc_LastTransitionTime := None |}];
     pod_Labels := ∅; pod_IP := "" |}.

Definition fp : string := operator_fingerprint cluster "pw".
Definition run (stored : option string) (now : Z) (up : bool) :=
  reconcileReplication (logged_api api) cluster (secret stored) None [primary] None ((now * second_ns, up), []).
Definition trace (stored : option string) (now : Z) (up : bool) : list rep_event := (run stored now up).2.2.
Definition first_record : string := next_record fp None (1000 * second_ns).
Definition second_record : string := next_record fp (Some first_record) (1400 * second_ns).
Definition passes : list (Z * list rep_event) :=
  [(1000 * second_ns, trace None 1000 true); (1100 * second_ns, trace (Some first_record) 1100 false);
   (1200 * second_ns, trace (Some first_record) 1200 true); (1400 * second_ns, trace (Some first_record) 1400 true)].

Definition logged_in (ev : rep_event) : bool := match ev with EvConnect None => true | _ => false end.
Definition updated (ev : rep_event) : bool := match ev with EvUpdateSecret _ None => true | _ => false end.

Lemma pass_ok stored now up stored' :
  existsb logged_in (trace stored now up) = false →
  match last (omap clock (trace stored now up)) with Some t => now * second_ns = t | None => True end →
  (stored' = stored ∧ existsb updated (trace stored now up) = false ∨
   ∃ s e, EvUpdateSecret s e ∈ trace stored now up ∧ stored' = sec_Annotations s !! AnnotationPasswordSyncRestart) →
  sync_pass fp stored (now * second_ns) (trace stored now up) stored'.
Proof.
  assert (∀ f ev, existsb f (trace stored now up) = false → f ev = true → ev ∉ trace stored now up) as Hno.
  { intros f ev Hf Hev Hin. apply not_true_iff_false in Hf. apply Hf, existsb_exists. exists ev. by rewrite list_elem_of_In in Hin. }
  intros Hlog Hnow Hst. exists (Z * bool)%type, api, cluster, (secret stored), None, [primary], None, (now * second_ns, up), (run stored now up).1,
    (run stored now up).2.1. split_and!; [by destruct stored|by destruct stored|apply run_split|by eapply Hno|done|].
  destruct Hst as [[-> Hu]|?]; [left; split; [done|]; intros s; by eapply Hno|by right].
Qed.

Lemma history_ok : sync_history fp None passes.
Proof.
  eapply (history_cons _ _ _ _ (Some first_record)); [apply pass_ok; [by vm_compute..|]|].
  { right. eexists _, None. split; [right; right; left|]; by vm_compute. }
  eapply (history_cons _ _ _ _ (Some first_record)); [apply pass_ok; [by vm_compute..|]|].
  { left. split; by vm_compute. }
  eapply (history_cons _ _ _ _ (Some first_record)); [apply pass_ok; [by vm_compute..|]|].
  { left. split; by vm_compute. }
  eapply (history_cons _ _ _ _ (Some second_record)); [apply pass_ok; [by vm_compute..|]|constructor].
  right. eexists _, None. split; [right; right; left|]; by vm_compute.
Qed.

Lemma times_ok : restart_times passes [1000 * second_ns; 1400 * second_ns].
Proof.
  assert (∀ tr, existsb (λ ev, match ev with EvDeletePod _ _ => true | _ => false end) tr = false → ¬ restarted_in tr) as Hno.
  { intros tr Hf (p & e & Hin). apply not_true_iff_false in Hf. apply Hf, existsb_exists. exists (EvDeletePod p e). rewrite <- list_elem_of_In. by split. }
  apply times_yes; [exists primary, None; do 3 right; left|].
  apply times_no; [by apply Hno; vm_compute|]. apply times_no; [by apply Hno; vm_compute|].
  apply times_yes; [exists primary, None; do 3 right; left|]. constructor.
Qed.
End Toy.

Lemma password_sync_restarts_bounded_witness :
  ∃ ts, restart_times Toy.passes ts ∧ ts = [1000 * second_ns; 1400 * second_ns] ∧
  (length ts ≤ 5)%nat ∧
  ∀ i t t', ts !! i = Some t → ts !! S i = Some t' →
    t / second_ns * second_ns + passwordSyncFirstBackoff * 2 ^ Z.of_nat i ≤ t'.
Proof.
  exists [1000 * second_ns; 1400 * second_ns]. split; [apply Toy.times_ok|]. split; [done|].
  eapply password_sync_restarts_bounded; [apply Toy.history_ok|apply Toy.times_ok|by vm_compute| |].
  - apply (bool_decide_unpack _). vm_compute. exact I.
  - apply (bool_decide_unpack _). vm_compute. exact I.
Defined.
