(* ===== verification/StandbyTheorems.v ===== *)
(** * Standbys: their volumes, and the rollout of a new replication password *)

From S2P Require Import Prelude GoStrings GoStrconv RoleSql Password Trace Replication ReplicationReconcile.
From S2P Require Import ReplicationTheorems.

Open Scope Z_scope.

Lemma desiredReplicas_pos cluster : 1 ≤ desiredReplicas cluster.
Proof. unfold desiredReplicas. case_bool_decide; lia. Qed.

(** ** Volumes *)

(** A volume that a pass may delete: of a standby that neither the spec nor the
    StatefulSet wants and that has no pod. *)
Definition removable (cluster : Cluster) (sts : option StatefulSet) (pods : list string) (pvc : PVC) : Prop :=
  ∃ o, pvcOrdinal cluster (pvc_Name pvc) = Some o ∧ 1 ≤ o ∧ desiredReplicas cluster ≤ o ∧
    (∀ n, sts ≫= sts_Replicas = Some n → n ≤ o) ∧ (∀ p, p ∈ pods → podOrdinal cluster p ≠ Some o) ∧ pvc_Deleting pvc = false.

(** Every volume not kept is being deleted. *)
Definition kept_ok (cluster : Cluster) (items : list PVC) (kept : gset Z) (new : list rep_event) : Prop :=
  ∀ pvc o, pvc ∈ items → pvcOrdinal cluster (pvc_Name pvc) = Some o →
    o ∈ kept ∨ (pvc_Deleting pvc = true ∧ o ≠ 0) ∨ EvDeletePVC pvc None ∈ new.

Section volumes.
Context {W : Type} (ListPVCs : M W (result (list PVC))) (DeletePVC : PVC → M W error) (cluster : Cluster).

Abbreviation emits := (emits (λ _ _ _, True)).
Abbreviation del := (λ p, logged (EvDeletePVC p) (DeletePVC p)).

Lemma volumeLoop_emits podOrdinals n items remaining :
  emits (volumeLoop del cluster podOrdinals n items remaining) (λ '(kept, e) new,
    (∀ ev, ev ∈ new → ∃ pvc err o, pvc ∈ items ∧ ev = EvDeletePVC pvc err ∧ pvcOrdinal cluster (pvc_Name pvc) = Some o ∧
      o ≠ 0 ∧ n ≤ o ∧ o ∉ podOrdinals ∧ pvc_Deleting pvc = false) ∧
    remaining ⊆ kept ∧ (e = None → kept_ok cluster items kept new)).
Proof.
  revert remaining. induction items as [|pvc pvcs IH]; intros remaining; simpl.
  { apply emits_ret. split_and!; [by intros ? ?%elem_of_nil|done|]. by intros _ ? ? ?%elem_of_nil. }
  assert (∀ rem' (keep : ∀ o, pvcOrdinal cluster (pvc_Name pvc) = Some o → o ∈ rem' ∨ pvc_Deleting pvc = true ∧ o ≠ 0),
    remaining ⊆ rem' → emits (volumeLoop del cluster podOrdinals n pvcs rem') (λ '(kept, e) new,
      (∀ ev, ev ∈ new → ∃ pvc0 err o, pvc0 ∈ pvc :: pvcs ∧ ev = EvDeletePVC pvc0 err ∧ pvcOrdinal cluster (pvc_Name pvc0) = Some o ∧
        o ≠ 0 ∧ n ≤ o ∧ o ∉ podOrdinals ∧ pvc_Deleting pvc0 = false) ∧
      remaining ⊆ kept ∧ (e = None → kept_ok cluster (pvc :: pvcs) kept new))) as Hskip.
  { intros rem' keep Hsub. eapply emits_conseq; [apply IH|]. intros [kept e] new (Hev & Hk & Hok). split_and!.
    - intros ev (pvc0 & err & o & ? & ?)%Hev. exists pvc0, err, o. split; [by right|done].
    - set_solver.
    - intros He pvc0 o [->|Hin]%elem_of_cons Ho; [|by apply (Hok He)]. destruct (keep o Ho) as [?|?]; [left; set_solver|by right; left]. }
  destruct (pvcOrdinal cluster (pvc_Name pvc)) as [o|] eqn:Eo; [|by apply Hskip].
  destruct (pvc_Deleting pvc && negb (bool_decide (o = 0))) eqn:Ed.
  { apply andb_true_iff in Ed as [Hd Hz%negb_true_iff%bool_decide_eq_false]. apply Hskip; [|done]. intros ? [= <-]. by right. }
  destruct (_ || _) eqn:Ek.
  { apply Hskip; [|set_solver]. intros ? [= <-]. left. set_solver. }
  apply orb_false_iff in Ek as [[Hz%bool_decide_eq_false Hn%bool_decide_eq_false]%orb_false_iff Hp%bool_decide_eq_false].
  assert (pvc_Deleting pvc = false) as Hnd. { rewrite bool_decide_eq_false_2 in Ed by done. by destruct (pvc_Deleting pvc). }
  eapply emits_bind; [by apply emits_logged|]. intros e new1 ->.
  assert (∃ pvc0 err o0, pvc0 ∈ pvc :: pvcs ∧ EvDeletePVC pvc e = EvDeletePVC pvc0 err ∧ pvcOrdinal cluster (pvc_Name pvc0) = Some o0 ∧
      o0 ≠ 0 ∧ n ≤ o0 ∧ o0 ∉ podOrdinals ∧ pvc_Deleting pvc0 = false) as Hhd.
  { exists pvc, e, o. split_and!; [by left|done|done|done|lia|done|done]. }
  destruct e as [e|].
  { apply emits_ret. rewrite app_nil_r. split_and!; [by intros ev ->%list_elem_of_singleton|set_solver|done]. }
  eapply emits_conseq; [apply IH|]. intros [kept e] new (Hev & Hk & Hok). split_and!; [|done|].
  - intros ev [->|(pvc0 & err & o0 & ? & ?)%Hev]%elem_of_cons; [done|]. exists pvc0, err, o0. split; [by right|done].
  - intros He pvc0 o0 [->|Hin]%elem_of_cons Ho; [right; right; by left|].
    destruct (Hok He pvc0 o0 Hin Ho) as [?|[?|?]]; [by left|by right; left|right; right; by right].
Qed.

Lemma cleanupStandbyVolumes_emits sts pods :
  emits (cleanupStandbyVolumes (logged EvListPVCs ListPVCs) del cluster sts pods) (λ '(kept, e) new,
    ∃ r dels, new = EvListPVCs r :: dels ∧
      (∀ ev, ev ∈ dels → ∃ pvc err, ev = EvDeletePVC pvc err ∧ removable cluster sts pods pvc) ∧
      (e = None → ∃ items, r = inl items ∧ kept_ok cluster items kept dels)).
Proof.
  unfold cleanupStandbyVolumes. eapply emits_bind; [by apply emits_logged|]. intros [items|e] new ->.
  - eapply emits_conseq; [apply volumeLoop_emits|]. intros [kept e] new (Hev & _ & Hok).
    exists (inl items), new. split_and!; [done| |eauto].
    intros ev (pvc & err & o & _ & -> & Ho & Hz & Hn & Hp & Hd)%Hev. exists pvc, err. split; [done|]. exists o.
    pose proof (desiredReplicas_pos cluster).
    assert (desiredReplicas cluster ≤ o) by (destruct (sts ≫= sts_Replicas); lia).
    split_and!; [done|lia|done| | |done].
    + intros k Hk. rewrite Hk in Hn. lia.
    + intros p Hin Heq. apply Hp, elem_of_list_to_set, list_elem_of_omap. eauto.
  - apply emits_ret. exists (inr e), []. split_and!; [done|by intros ? ?%elem_of_nil|done].
Qed.
End volumes.

(** ** The rollout *)

Definition standby_ordinal (cluster : Cluster) (p : Pod) : Z := ordinal_or_0 (podOrdinal cluster (pod_Name p)).

(** A standby, not being deleted. *)
Definition live_standby (cluster : Cluster) (p : Pod) : Prop := standby_ordinal cluster p ≠ 0 ∧ pod_Deleting p = false.

(** Ready and streaming again, or given up on. *)
Definition settled (now : Z) (p : Pod) : Prop :=
  (isPodReady p = true ∧ pod_Labels p !! LabelStreaming = Some labelValueTrue) ∨ pod_Created p + rolloutStandbyTimeout ≤ now.

Lemma settled_dec_iff now p :
  (isPodReady p && bool_decide (pod_Labels p !! LabelStreaming = Some labelValueTrue)) = true ∨ ¬ now < pod_Created p + rolloutStandbyTimeout
  ↔ settled now p.
Proof. unfold settled. rewrite andb_true_iff, bool_decide_eq_true. intuition lia. Qed.

(** What the rollout decides for the pods [pods]. *)
Definition rollout_spec (cluster : Cluster) (since now : Z) (pods : list Pod) (r : rollout) : Prop :=
  match r with
  | RolloutWait => ∃ p, p ∈ pods ∧ live_standby cluster p ∧ since < pod_Created p ∧ ¬ settled now p
  | RolloutDone => ∀ p, p ∈ pods → live_standby cluster p → since < pod_Created p ∧ settled now p
  | RolloutRestart q =>
      q ∈ pods ∧ live_standby cluster q ∧ pod_Created q ≤ since ∧
      (∀ p, p ∈ pods → live_standby cluster p → pod_Created p ≤ since → standby_ordinal cluster p ≤ standby_ordinal cluster q) ∧
      ∀ p, p ∈ pods → live_standby cluster p → since < pod_Created p → settled now p
  end.

Definition rollout_inv (cluster : Cluster) (since now : Z) (seen : list Pod) (stale : option Pod) (staleOrdinal : Z) : Prop :=
  match stale with
  | None => staleOrdinal = -1 ∧ ∀ p, p ∈ seen → live_standby cluster p → since < pod_Created p
  | Some q => q ∈ seen ∧ live_standby cluster q ∧ pod_Created q ≤ since ∧ staleOrdinal = standby_ordinal cluster q ∧
      ∀ p, p ∈ seen → live_standby cluster p → pod_Created p ≤ since → standby_ordinal cluster p ≤ staleOrdinal
  end ∧ ∀ p, p ∈ seen → live_standby cluster p → since < pod_Created p → settled now p.

Lemma standby_ordinal_nonneg cluster p : 0 ≤ standby_ordinal cluster p.
Proof.
  unfold standby_ordinal, podOrdinal, parseOrdinal. destruct (CutPrefix _ _); [|done]. case_decide; [done|].
  destruct (Atoi _) as [n|]; [|done]. destruct (bool_decide_reflect (n < 0)); simpl; [done|]. case_bool_decide; simpl; lia.
Qed.

Lemma rolloutLoop_spec cluster since now pods : ∀ seen stale so,
  rollout_inv cluster since now seen stale so →
  rollout_spec cluster since now (seen ++ pods) (rolloutLoop cluster since now pods stale so).
Proof.
  induction pods as [|p pods IH]; intros seen stale so [Hst Hset]; simpl.
  { rewrite app_nil_r. destruct stale as [q|]; simpl.
    - destruct Hst as (? & ? & ? & -> & ?). done.
    - destruct Hst as [_ Hst]. auto. }
  rewrite cons_middle, app_assoc. fold (standby_ordinal cluster p).
  destruct (bool_decide _ || _) eqn:El.
  { apply IH. apply orb_true_iff in El. rewrite bool_decide_eq_true in El.
    assert (¬ live_standby cluster p) as Hno by (intros [? ?]; destruct El; congruence).
    split; [destruct stale as [q|]; [destruct Hst as (? & ? & ? & ? & ?)|destruct Hst]; split_and!|]; try set_solver. }
  apply orb_false_iff in El as [Hz%bool_decide_eq_false Hd]. assert (live_standby cluster p) as Hl by done.
  pose proof (standby_ordinal_nonneg cluster p) as Hpos.
  destruct (bool_decide_reflect (pod_Created p ≤ since)) as [Hc|Hc].
  - assert (∀ q, q ∈ seen ++ [p] → live_standby cluster q → since < pod_Created q → settled now q) as Hset'.
    { intros q [?| ->%list_elem_of_singleton]%elem_of_app ? ?; [by apply Hset|lia]. }
    destruct (bool_decide_reflect (so < standby_ordinal cluster p)) as [Hlt|Hlt]; apply IH; (split; [|done]).
    + split_and!; [set_solver|done|done|done|]. intros q [Hq| ->%list_elem_of_singleton]%elem_of_app Hlq Hcq; [|lia].
      destruct stale as [x|]; [destruct Hst as (_ & _ & _ & _ & Hm); specialize (Hm q Hq Hlq Hcq); lia|].
      destruct Hst as [_ Hst]. specialize (Hst q Hq Hlq). lia.
    + destruct stale as [x|]; [|destruct Hst; lia]. destruct Hst as (? & ? & ? & ? & Hm). split_and!; [set_solver|done|done|done|].
      intros q [Hq| ->%list_elem_of_singleton]%elem_of_app Hlq Hcq; [by apply Hm|lia].
  - destruct (negb _ && _) eqn:Eb.
    + exists p. split_and!; [set_solver|done|lia|]. rewrite <- settled_dec_iff.
      apply andb_true_iff in Eb as [Eb%negb_true_iff Hn%bool_decide_eq_true]. rewrite Eb. intros [?|?]; [done|lia].
    + assert (settled now p) as Hp.
      { apply settled_dec_iff. apply andb_false_iff in Eb as [Eb%negb_false_iff|Hn%bool_decide_eq_false]; auto. }
      apply IH. split; [|intros q [?| ->%list_elem_of_singleton]%elem_of_app ? ?; auto].
      destruct stale as [x|].
      * destruct Hst as (? & ? & ? & ? & Hm). split_and!; [set_solver|done|done|done|].
        intros q [Hq| ->%list_elem_of_singleton]%elem_of_app Hlq Hcq; [by apply Hm|lia].
      * destruct Hst as [? Hst]. split; [done|]. intros q [Hq| ->%list_elem_of_singleton]%elem_of_app Hlq; [by apply Hst|lia].
Qed.

Lemma rolloutStep_spec cluster since now pods : rollout_spec cluster since now pods (rolloutStep cluster since now pods).
Proof. apply (rolloutLoop_spec cluster since now pods []). split; [split; [done|]|]; by intros ? ?%elem_of_nil. Qed.

(** A new replication password reaches the standbys one at a time: a standby is
    restarted only while every standby restarted since the change is ready and streams
    again, or its ten minutes are over; the one restarted is the standby with the
    highest ordinal among those started before the change, never the primary; the
    rollout ends only when no standby started before the change is left; and it waits
    only for a restarted standby that is not back. *)
Theorem rollout_one_at_a_time cluster since now pods :
  match rolloutStep cluster since now pods with
  | RolloutWait => ∃ p, p ∈ pods ∧ live_standby cluster p ∧ since < pod_Created p ∧ ¬ settled now p
  | RolloutDone => ∀ p, p ∈ pods → live_standby cluster p → since < pod_Created p ∧ settled now p
  | RolloutRestart q =>
      q ∈ pods ∧ live_standby cluster q ∧ pod_Created q ≤ since ∧
      (∀ p, p ∈ pods → live_standby cluster p → pod_Created p ≤ since → standby_ordinal cluster p ≤ standby_ordinal cluster q) ∧
      ∀ p, p ∈ pods → live_standby cluster p → since < pod_Created p → settled now p
  end.
Proof. apply rolloutStep_spec. Qed.
