(* ===== verification/ReplicationSafety.v ===== *)
(** * Safety of a replication pass

    What one [reconcileReplication] may delete, restart and change on the primary,
    over every answer of the API server and of PostgreSQL. *)

From S2P Require Import Prelude GoStrings GoStrconv RoleSql Password Trace Replication ReplicationReconcile.
From S2P Require Import ReplicationTheorems PasswordSyncTheorems StandbyTheorems.

Open Scope Z_scope.

(** A call that changes the primary or records that it holds data. *)
Definition primary_change (ev : rep_event) : Prop :=
  match ev with EvCreateRole _ _ _ | EvDrop _ _ | EvCreate _ _ _ | EvUpdateConfigMap _ _ => True | _ => False end.

(** The pods a pass deletes, in order. *)
Definition restarts (tr : list rep_event) : list Pod := omap (λ ev, match ev with EvDeletePod p _ => Some p | _ => None end) tr.

Lemma restarts_app a b : restarts (a ++ b) = restarts a ++ restarts b.
Proof. apply omap_app. Qed.

Lemma elem_of_restarts p tr : p ∈ restarts tr ↔ ∃ e, EvDeletePod p e ∈ tr.
Proof.
  unfold restarts. rewrite list_elem_of_omap. split.
  - intros (ev & Hev & Hp). destruct ev; simplify_eq. eauto.
  - intros [e He]. eexists. by split; [apply He|].
Qed.

(** Neither a deletion nor a change of slots; [quiet]: nor of the primary. *)
Definition calm (ev : rep_event) : Prop := match ev with EvDeletePVC _ _ | EvDeletePod _ _ | EvDrop _ _ => False | _ => True end.
Definition quiet (ev : rep_event) : Prop := calm ev ∧ ¬ primary_change ev.

Lemma calm_restarts tr : Forall calm tr → restarts tr = [].
Proof. induction 1 as [|[]]; by simpl. Qed.

Lemma quiet_calm tr : Forall quiet tr → Forall calm tr.
Proof. intros Hf. eapply Forall_impl; [exact Hf|]. by intros ev [? _]. Qed.

Ltac calm := repeat (apply Forall_cons; split); try apply Forall_nil_2; try exact I; try (split; [exact I|tauto]); try tauto.

Section pass.
Context {W : Type} `{Sha256} (api : ReplicationAPI W) (cluster : Cluster).

Abbreviation emits := (emits (λ _ _ _, True)).
Abbreviation lapi := (logged_api api).

(** ** The steps *)

Lemma restart_trace_quiet secret primary new :
  restart_trace cluster secret primary new → Forall quiet new ∨ ∃ pre e, new = pre ++ [EvDeletePod primary e] ∧ Forall quiet pre.
Proof.
  intros (now & [[-> _]|(_ & _ & [[e ->]|[e ->]])]); [left; calm|left; calm|right].
  eexists [_; _], e. split; [done|calm].
Qed.

Lemma clear_emits secret : emits (clearPasswordSyncRestart lapi secret) (λ _ new, Forall quiet new).
Proof.
  unfold clearPasswordSyncRestart. destruct (_ !! _); [|apply emits_ret; calm].
  eapply emits_conseq; [by apply emits_logged|]. intros ? ? ->. calm.
Qed.

Lemma markInitialized_emits : emits (markInitialized lapi cluster) (λ _ new, Forall calm new).
Proof.
  unfold markInitialized. case_decide; [apply emits_ret; calm|].
  eapply emits_bind; [by apply emits_logged|]. intros [[cm|]|e] new ->; [|apply emits_ret; calm..].
  destruct (_ || _); [apply emits_ret; calm|].
  eapply emits_conseq; [by apply emits_logged|]. intros ? ? ->. calm.
Qed.

Lemma ensureReplicationRole_emits secret : emits (ensureReplicationRole lapi cluster secret) (λ _ new, Forall calm new).
Proof.
  unfold ensureReplicationRole. case_decide; [apply emits_ret; calm|].
  eapply emits_bind; [by apply emits_logged|]. intros [exists_|e] new ->; [|apply emits_ret; calm].
  destruct (_ && _); [apply emits_ret; calm|].
  eapply emits_bind; [by apply emits_logged|]. intros [e|] new ->; [apply emits_ret; calm|].
  destruct (_ && _).
  - eapply emits_bind; [by apply emits_logged|]. intros now new ->.
    eapply emits_conseq; [by apply emits_logged|]. intros ? ? ->. calm.
  - eapply emits_conseq; [by apply emits_logged|]. intros ? ? ->. calm.
Qed.

Lemma labelStreaming_emits streaming pods : emits (labelStreaming (api_PatchPod lapi) cluster streaming pods) (λ _ new, Forall calm new).
Proof.
  induction pods as [|pod pods IH]; simpl; [apply emits_ret; calm|].
  destruct (_ || _).
  - eapply emits_bind; [apply IH|]. intros [ps e] new Hc. apply emits_ret. by rewrite app_nil_r.
  - eapply emits_bind; [by apply emits_logged|]. intros [pod' [e|]] new ->; [apply emits_ret; calm|].
    eapply emits_bind; [apply IH|]. intros [ps e] new Hc. apply emits_ret. rewrite app_nil_r. apply Forall_cons. by split.
Qed.

Lemma rollout_emits secret pods :
  emits (rolloutReplicationPassword lapi cluster secret pods) (λ _ new,
    Forall calm new ∨ ∃ pre p e, new = pre ++ [EvDeletePod p e] ∧ Forall calm pre ∧ live_standby cluster p).
Proof.
  unfold rolloutReplicationPassword. destruct (_ !! _) as [v|]; [|apply emits_ret; left; calm].
  eapply emits_bind; [by apply emits_logged|]. intros now new ->.
  pose proof (rolloutStep_spec cluster (parseUnix v * second_ns) now pods) as Hspec. destruct (rolloutStep _ _ _ _) as [| |p].
  - apply emits_ret. left. calm.
  - eapply emits_bind; [by apply emits_logged|]. intros [s e] new ->. apply emits_ret. left. calm.
  - eapply emits_bind; [by apply emits_logged|]. intros e new ->. apply emits_ret. right.
    eexists [_], p, e. split_and!; [done|calm|apply Hspec].
Qed.

(** ** Composition *)

Section tail.
Context (want : Z) (pvcs : gset Z) (allowDrops : bool).

(** What the calls after the recovery check may do, with at most [k] restarts. *)
Definition tail_ok (k : nat) (new : list rep_event) : Prop :=
  (∀ pvc e, EvDeletePVC pvc e ∉ new) ∧
  (∀ name e, EvDrop name e ∈ new → ∃ slots s o, EvSlots (inl slots) ∈ new ∧ s ∈ slots ∧ rs_slot_Name s = name ∧
    droppable want pvcs allowDrops s o) ∧
  (length (restarts new) ≤ k)%nat ∧ Forall (live_standby cluster) (restarts new).

Lemma tail_calm new : Forall calm new → tail_ok 0 new.
Proof.
  intros Hc. pose proof (calm_restarts _ Hc) as Hr. rewrite Forall_forall in Hc.
  split_and!; [by intros pvc e ?%Hc|by intros name e ?%Hc|by rewrite Hr|by rewrite Hr].
Qed.

Lemma tail_app k l a b : tail_ok k a → tail_ok l b → tail_ok (k + l) (a ++ b).
Proof.
  intros (A1 & A2 & A3 & A4) (B1 & B2 & B3 & B4). split_and!.
  - intros pvc e [?%A1|?%B1]%elem_of_app; done.
  - intros name e [(slots & s & o & ? & ?)%A2|(slots & s & o & ? & ?)%B2]%elem_of_app;
      exists slots, s, o; (split; [apply elem_of_app; auto|done]).
  - rewrite restarts_app, length_app. lia.
  - rewrite restarts_app. by apply Forall_app.
Qed.

Lemma tail_weaken k new : tail_ok 0 new → tail_ok k new.
Proof. intros (? & ? & ? & ?). split_and!; [done|done|lia|done]. Qed.

Lemma tail_rollout new :
  (Forall calm new ∨ ∃ pre p e, new = pre ++ [EvDeletePod p e] ∧ Forall calm pre ∧ live_standby cluster p) → tail_ok 1 new.
Proof.
  intros [Hc|(pre & p & e & -> & Hc & Hl)]; [by apply tail_weaken, tail_calm|].
  apply (tail_app 0 1); [by apply tail_calm|]. split_and!; [by intros ? ? ?%list_elem_of_singleton|by intros ? ? ?%list_elem_of_singleton|simpl; lia|].
  simpl. by apply Forall_singleton.
Qed.

Lemma slots_emits podExists :
  emits (reconcileReplicationSlots (api_slots lapi) cluster want podExists pvcs allowDrops) (λ _ new, tail_ok 0 new).
Proof.
  unfold reconcileReplicationSlots. eapply emits_bind; [by apply emits_logged|]. intros [slots|e] new ->; [|apply emits_ret, tail_calm; calm].
  assert (∀ drops, (∀ ev, ev ∈ drops → ∃ s o err, s ∈ slots ∧ ev = EvDrop (rs_slot_Name s) err ∧ droppable want pvcs allowDrops s o) →
    tail_ok 0 (EvSlots (inl slots) :: drops)) as Hdrops.
  { intros drops Hd.
    assert (restarts drops = []) as Hr.
    { destruct (restarts drops) as [|p l] eqn:E; [done|]. assert (p ∈ restarts drops) as [e Hin]%elem_of_restarts by (rewrite E; left).
      by apply Hd in Hin as (s & o & err & _ & [=] & _). }
    split_and!; [|intros name e [[=]|Hin]%elem_of_cons|simpl; by rewrite Hr|simpl; by rewrite Hr].
    - intros pvc e [[=]|(s & o & err & _ & [=] & _)%Hd]%elem_of_cons.
    - destruct (Hd _ Hin) as (s & o & err & Hs & [= -> ->] & Ho). exists slots, s, o. split_and!; [by left|done|done|done]. }
  eapply emits_bind; [apply slotLoop_emits|]. intros [e st] drops [Hd _]. apply Hdrops in Hd.
  destruct e as [e|]; [apply emits_ret; by rewrite app_nil_r|].
  eapply emits_bind; [apply createLoop_emits|]. intros e creates [Hc _]. apply emits_ret. rewrite app_nil_r, app_assoc.
  apply (tail_app 0 0); [done|]. apply tail_calm, Forall_forall. by intros ev (i & err & _ & _ & _ & ->)%Hc.
Qed.
End tail.

Lemma managePrimary_emits secret pods cond pvcs allowDrops :
  emits (managePrimary lapi cluster secret pods cond pvcs allowDrops) (λ _ new, tail_ok (desiredReplicas cluster) pvcs allowDrops 1 new).
Proof.
  unfold managePrimary, passFail, passDone. set (ok := tail_ok _ _ _).
  assert (∀ a b, Forall calm a → ok 1%nat b → ok 1%nat (a ++ b)) as Happ.
  { intros a b Ha Hb. apply (tail_app _ _ _ 0 1); [by apply tail_calm|done]. }
  assert (∀ a, Forall calm a → ok 1%nat (a ++ [])) as Hend.
  { intros a Ha. rewrite app_nil_r. by apply tail_weaken, tail_calm. }
  eapply emits_bind; [apply markInitialized_emits|]. intros [e|] new1 H1; [apply emits_ret; auto|].
  eapply emits_conseq; [|intros x new Hx; apply (Happ new1); [done|exact Hx]].
  eapply emits_bind; [apply ensureReplicationRole_emits|]. intros [s [e|]] new2 H2; [apply emits_ret; auto|].
  eapply emits_conseq; [|intros x new Hx; apply (Happ new2); [done|exact Hx]].
  eapply emits_bind; [apply slots_emits|]. intros [recreated [e|]] new3 H3; [apply emits_ret; rewrite app_nil_r; by apply tail_weaken|].
  eapply emits_conseq; [|intros x new Hx; apply (tail_app _ _ _ 0 1); [exact H3|exact Hx]].
  case_bool_decide; [apply emits_ret; by apply tail_weaken, tail_calm, Forall_nil|].
  eapply emits_bind; [by apply emits_logged|]. intros [standbys|e] new4 ->; [|apply emits_ret, Hend; calm].
  eapply emits_conseq; [|intros x new Hx; apply (Happ [_]); [calm|exact Hx]].
  eapply emits_bind; [apply labelStreaming_emits|]. intros [ps [e|]] new5 H5; [apply emits_ret; auto|].
  eapply emits_conseq; [|intros x new Hx; apply (Happ new5); [done|exact Hx]].
  eapply emits_bind; [apply rollout_emits|]. intros [s' [rolling e]] new6 H6.
  assert (ok 1%nat new6) as Hr by (by apply tail_rollout).
  destruct e as [e|]; [apply emits_ret; by rewrite app_nil_r|].
  destruct (reportStreaming _ _ _ _) as [[[st reason] msg] recheck]. apply emits_ret. by rewrite app_nil_r.
Qed.

(** ** The whole pass *)

(** The restart of a primary that is ready and rejected the operator's password. *)
Definition rejected_restart (pods : list Pod) (p : Pod) (tr : list rep_event) : Prop :=
  findPrimary cluster pods = Some p ∧ isPodReady p = true ∧ ∃ err, EvConnect (Some err) ∈ tr ∧ isInvalidPassword (Some err) = true.

(** Before the primary answered that it is not in recovery: nothing is changed on it,
    and at most the primary itself is restarted. *)
Definition head_ok (pods : list Pod) (new : list rep_event) : Prop :=
  Forall quiet new ∨
  ∃ pre p e, new = pre ++ [EvDeletePod p e] ∧ Forall quiet pre ∧ rejected_restart pods p pre.

Lemma restart_head secret pods primary pre err new :
  restart_trace cluster secret primary new → findPrimary cluster pods = Some primary → isPodReady primary = true →
  Forall quiet pre → EvConnect (Some err) ∈ pre → isInvalidPassword (Some err) = true → head_ok pods (pre ++ new).
Proof.
  intros Ht Hp Hr Hq Hin Hi. apply restart_trace_quiet in Ht as [Ht|(pre' & e & -> & Ht)]; [left; by apply Forall_app|].
  right. exists (pre ++ pre'), primary, e. rewrite app_assoc. split_and!; [done|by apply Forall_app|]. split_and!; [done|done|].
  exists err. split; [apply elem_of_app; by left|done].
Qed.

Lemma checkOperatorLogin_emits secret pods : emits (checkOperatorLogin lapi cluster secret pods) (λ _ new, head_ok pods new).
Proof.
  unfold checkOperatorLogin. destruct (pausedForRestore cluster); [apply emits_ret; left; calm|].
  destruct (findPrimary cluster pods) as [primary|] eqn:Ep; [|apply emits_ret; left; calm].
  destruct (isPodReady primary) eqn:Er; simpl; [|apply emits_ret; left; calm].
  eapply emits_bind; [by apply emits_logged|]. intros [err|] new ->.
  - change (bool_decide (pq_code err = Some pqCodeInvalidPassword)) with (isInvalidPassword (Some err)).
    destruct (isInvalidPassword (Some err)) eqn:Ei; cbn [negb]; [|apply emits_ret; left; calm].
    destruct (podReadySince primary) as [since|].
    + eapply emits_bind; [by apply emits_logged|]. intros now new ->. destruct (bool_decide (0 < _)); [apply emits_ret; left; calm|].
      eapply emits_conseq; [apply restart_emits|]. intros ? new Ht. rewrite app_assoc.
      eapply restart_head; [exact Ht|done|done|calm|by left|done].
    + eapply emits_conseq; [apply restart_emits|]. intros ? new Ht. eapply restart_head; [exact Ht|done|done|calm|by left|done].
  - eapply emits_bind; [apply clear_emits|]. intros [s [e|]] new Hc; apply emits_ret; left; rewrite app_nil_r; (apply Forall_app; split; [calm|done]).
Qed.

(** A run from the connection on. *)
Definition reach_ok (pods : list Pod) (pvcs : gset Z) (allowDrops : bool) (new : list rep_event) : Prop :=
  ∃ before after, new = before ++ after ∧
    (head_ok pods before ∧ after = [] ∨
     Forall quiet before ∧ ∃ rest, after = EvInRecovery (inl false) :: rest ∧ tail_ok (desiredReplicas cluster) pvcs allowDrops 1 rest).

Lemma reachPrimary_emits secret pods primary cond pvcs allowDrops :
  findPrimary cluster pods = Some primary → isPodReady primary = true →
  emits (reachPrimary lapi cluster secret primary pods cond pvcs allowDrops) (λ _ new, reach_ok pods pvcs allowDrops new).
Proof.
  intros Hp Hr. unfold reachPrimary, passFail, passDone.
  assert (∀ new, head_ok pods new → reach_ok pods pvcs allowDrops new) as Hstop.
  { intros new Hh. exists new, []. rewrite app_nil_r. split; [done|]. by left. }
  apply (emits_bind _ _ _ (λ '(r, _) new, head_ok pods new ∧ (r = Some None → Forall quiet new))).
  { unfold connectPrimary. eapply emits_bind; [by apply emits_logged|]. intros e new ->. destruct (isInvalidPassword e) eqn:Ei.
    - destruct e as [err|]; [|done]. eapply emits_bind; [apply restart_emits|]. intros [r s] new Ht. apply emits_ret. rewrite app_nil_r.
      split; [|by destruct r]. eapply (restart_head _ _ primary [_]); [exact Ht|done|done|calm|by left|done].
    - apply emits_ret. split; [left; calm|intros; calm]. }
  intros [r s] new1 [H1 Hq]. destruct r as [[err|]|]; [apply emits_ret; rewrite app_nil_r; auto| |apply emits_ret; rewrite app_nil_r; auto].
  specialize (Hq eq_refl). eapply emits_bind; [apply clear_emits|]. intros [s' e] new2 H2.
  assert (Forall quiet (new1 ++ new2)) as H12 by (by apply Forall_app).
  destruct e as [e|]; [apply emits_ret; rewrite app_nil_r; apply Hstop; by left|].
  eapply emits_bind; [by apply emits_logged|]. intros r new ->.
  assert (reach_ok pods pvcs allowDrops (new1 ++ new2 ++ [EvInRecovery r] ++ [])) as Hend.
  { apply Hstop. left. rewrite app_nil_r, app_assoc. apply Forall_app. split; [done|calm]. }
  destruct r as [[]|e]; [apply emits_ret; exact Hend| |apply emits_ret; exact Hend].
  eapply emits_conseq; [apply managePrimary_emits|]. intros ? rest Hrest.
  exists (new1 ++ new2), (EvInRecovery (inl false) :: rest). split; [by rewrite <- !app_assoc|]. right. split; [done|]. by exists rest.
Qed.

(** The promise of a pass. *)
Definition pass_ok (sts : option StatefulSet) (pods : list Pod) (tr : list rep_event) : Prop :=
  (∀ pvc e, EvDeletePVC pvc e ∈ tr → removable cluster sts (pod_Name <$> pods) pvc) ∧
  (∀ name e, EvDrop name e ∈ tr → ∃ slots s o, EvSlots (inl slots) ∈ tr ∧ s ∈ slots ∧ rs_slot_Name s = name ∧
    name = replicationSlotName o ∧ 0 < o ∧ rs_slot_Physical s = true ∧ rs_slot_Active s = false ∧
    (o < desiredReplicas cluster ∧ rs_slot_WALStatus s = WALStatusLost ∨
     desiredReplicas cluster ≤ o ∧ ∃ items, EvListPVCs (inl items) ∈ tr ∧
       ∀ pvc, pvc ∈ items → pvcOrdinal cluster (pvc_Name pvc) = Some o → pvc_Deleting pvc = true ∨ EvDeletePVC pvc None ∈ tr)) ∧
  (length (restarts tr) ≤ 1)%nat ∧
  (∀ p, p ∈ restarts tr → rejected_restart pods p tr ∨ live_standby cluster p ∧ EvInRecovery (inl false) ∈ tr) ∧
  (∀ pre ev post, tr = pre ++ ev :: post → primary_change ev → EvInRecovery (inl false) ∈ pre).

Lemma head_facts pods new :
  head_ok pods new →
  (∀ ev, ev ∈ new → (∃ p e, ev = EvDeletePod p e) ∨ quiet ev) ∧
  (length (restarts new) ≤ 1)%nat ∧ (∀ p, p ∈ restarts new → rejected_restart pods p new).
Proof.
  intros [Hq|(pre & p & e & -> & Hq & Hr & Hready & err & Hin & Hi)].
  - rewrite (calm_restarts _ (quiet_calm _ Hq)). rewrite Forall_forall in Hq. split_and!; [auto|simpl; lia|by intros ? ?%elem_of_nil].
  - rewrite restarts_app, (calm_restarts _ (quiet_calm _ Hq)). rewrite Forall_forall in Hq. split_and!; [|simpl; lia|].
    + intros ev [?%Hq| ->%list_elem_of_singleton]%elem_of_app; eauto.
    + intros q ->%list_elem_of_singleton. split_and!; [done|done|]. exists err. split; [apply elem_of_app; by left|done].
Qed.

(** The calls on the volumes that precede. *)
Definition volumes_ok (sts : option StatefulSet) (pods : list Pod) (kept : gset Z) (allowDrops : bool) (vols : list rep_event) : Prop :=
  (∀ ev, ev ∈ vols → (∃ r, ev = EvListPVCs r) ∨ ∃ pvc err, ev = EvDeletePVC pvc err ∧ removable cluster sts (pod_Name <$> pods) pvc) ∧
  (allowDrops = true → ∃ items, EvListPVCs (inl items) ∈ vols ∧ kept_ok cluster items kept vols).

Lemma rejected_mono pods p tr tr' : tr ⊆ tr' → rejected_restart pods p tr → rejected_restart pods p tr'.
Proof. intros Hs (? & ? & err & Hin & ?). split_and!; [done|done|]. exists err. split; [by apply Hs|done]. Qed.

Lemma primary_change_after (before after : list rep_event) :
  (∀ ev, ev ∈ before → ¬ primary_change ev) → (after = [] ∨ ∃ rest, after = EvInRecovery (inl false) :: rest) →
  ∀ pre ev post, before ++ after = pre ++ ev :: post → primary_change ev → EvInRecovery (inl false) ∈ pre.
Proof.
  intros Hb Ha pre ev post Heq Hc. apply app_eq_inv in Heq as [(l & -> & Hl)|(l & -> & Hl)].
  - destruct l as [|ev' l]; simpl in Hl.
    + destruct Ha as [Ha|[rest Ha]]; rewrite Ha in Hl; [done|]. by injection Hl as -> _.
    + injection Hl as -> _. destruct (Hb ev'); [|done]. apply elem_of_app. right. by left.
  - destruct Ha as [->|[rest ->]]; [by destruct l|]. destruct l as [|ev' l]; simplify_eq/=; [done|]. apply elem_of_app. right. by left.
Qed.

Lemma volumes_quiet sts pods kept allowDrops vols ev :
  volumes_ok sts pods kept allowDrops vols → ev ∈ vols → (∀ name e, ev ≠ EvDrop name e) ∧ (∀ p e, ev ≠ EvDeletePod p e) ∧ ¬ primary_change ev.
Proof. intros [Hv _] [[r ->]|(pvc & err & -> & _)]%Hv; split_and!; first [done|by intros []]. Qed.

Lemma volumes_restarts sts pods kept allowDrops vols : volumes_ok sts pods kept allowDrops vols → restarts vols = [].
Proof.
  intros Hv. destruct (restarts vols) as [|p l] eqn:E; [done|]. assert (p ∈ restarts vols) as [e Hin]%elem_of_restarts by (rewrite E; left).
  by destruct (volumes_quiet _ _ _ _ _ _ Hv Hin) as (_ & Hno & _); destruct (Hno p e).
Qed.

(** A slot that a pass may drop, given that its volumes were looked at. *)
Lemma droppable_pass sts pods kept allowDrops vols tr slots s o :
  volumes_ok sts pods kept allowDrops vols → vols ⊆ tr → EvSlots (inl slots) ∈ tr → s ∈ slots →
  droppable (desiredReplicas cluster) kept allowDrops s o →
  ∃ slots' s' o', EvSlots (inl slots') ∈ tr ∧ s' ∈ slots' ∧ rs_slot_Name s' = rs_slot_Name s ∧
    rs_slot_Name s = replicationSlotName o' ∧ 0 < o' ∧ rs_slot_Physical s' = true ∧ rs_slot_Active s' = false ∧
    (o' < desiredReplicas cluster ∧ rs_slot_WALStatus s' = WALStatusLost ∨
     desiredReplicas cluster ≤ o' ∧ ∃ items, EvListPVCs (inl items) ∈ tr ∧
       ∀ pvc, pvc ∈ items → pvcOrdinal cluster (pvc_Name pvc) = Some o' → pvc_Deleting pvc = true ∨ EvDeletePVC pvc None ∈ tr).
Proof.
  intros [_ Hk] Hsub Hin Hs (Hn & Ho & Hp & Ha & Hcase). exists slots, s, o. split_and!; try done.
  destruct Hcase as [(Hle & Hallow & Hno)|?]; [|by left]. right. split; [done|].
  destruct (Hk Hallow) as (items & Hi & Hkept). exists items. split; [by apply Hsub|].
  intros pvc Hpvc Hpo. destruct (Hkept pvc o Hpvc Hpo) as [?|[[? _]|?]]; [done|by left|right; by apply Hsub].
Qed.

Lemma pass_ok_compose sts pods kept allowDrops vols new :
  volumes_ok sts pods kept allowDrops vols → reach_ok pods kept allowDrops new → pass_ok sts pods (vols ++ new).
Proof.
  intros Hv (before & after & -> & Hcase). pose proof (volumes_restarts _ _ _ _ _ Hv) as Hrv.
  assert ((∀ ev, ev ∈ before → (∃ p e, ev = EvDeletePod p e) ∨ quiet ev) ∧
    tail_ok (desiredReplicas cluster) kept allowDrops 1 after ∧ (after = [] ∨ ∃ rest, after = EvInRecovery (inl false) :: rest) ∧
    (length (restarts (before ++ after)) ≤ 1)%nat ∧
    (∀ p, p ∈ restarts (before ++ after) → rejected_restart pods p before ∨ live_standby cluster p ∧ EvInRecovery (inl false) ∈ after))
    as (Hb & (T1 & T2 & _ & _) & Hafter & Hlen & Hwho).
  { destruct Hcase as [[Hh ->]|(Hq & rest & -> & Ht)].
    - apply head_facts in Hh as (? & ? & ?). rewrite app_nil_r. split_and!; auto using tail_weaken, tail_calm.
    - rewrite restarts_app, (calm_restarts _ (quiet_calm _ Hq)). rewrite Forall_forall in Hq.
      assert (tail_ok (desiredReplicas cluster) kept allowDrops 1 ([EvInRecovery (inl false)] ++ rest)) as Ht'.
      { apply (tail_app _ _ _ 0 1); [apply tail_calm; calm|done]. }
      destruct Ht as (_ & _ & Hl & Hf). rewrite Forall_forall in Hf.
      split_and!; [auto|exact Ht'|eauto|exact Hl|]. intros p Hp. right. split; [by apply Hf|by left]. }
  split_and!.
  - intros pvc e [Hin|[Hin|?%T1]%elem_of_app]%elem_of_app; [|destruct (Hb _ Hin) as [(? & ? & [=])|[[] _]]|done].
    destruct Hv as [Hv _]. by destruct (Hv _ Hin) as [ [? [=] ]|(? & ? & [= -> ->] & ?)].
  - intros name e [Hin|[Hin|Hin]%elem_of_app]%elem_of_app.
    + destruct (volumes_quiet _ _ _ _ _ _ Hv Hin) as (Hno & _). by destruct (Hno name e).
    + destruct (Hb _ Hin) as [(? & ? & [=])|[[] _]].
    + destruct (T2 _ _ Hin) as (slots & s & o & Hs1 & Hs2 & <- & Hd).
      eapply droppable_pass; [done| |by rewrite !elem_of_app; eauto|done|done]. intros x Hx. apply elem_of_app. by left.
  - by rewrite restarts_app, Hrv.
  - intros p. rewrite restarts_app, Hrv. intros [Hr|[? ?]]%Hwho.
    + left. eapply rejected_mono; [|done]. set_solver.
    + right. split; [done|]. set_solver.
  - rewrite app_assoc. apply primary_change_after; [|done]. intros ev [Hin|Hin]%elem_of_app.
    + by destruct (volumes_quiet _ _ _ _ _ _ Hv Hin) as (_ & _ & ?).
    + destruct (Hb _ Hin) as [(? & ? & ->)|[_ ?]]; [by intros []|done].
Qed.

Lemma reconcileReplication_emits secret sts pods cond :
  emits (reconcileReplication lapi cluster secret sts pods cond) (λ _ tr, pass_ok sts pods tr).
Proof.
  unfold reconcileReplication.
  assert (∀ new, head_ok pods new → reach_ok pods ∅ false new) as Hstop.
  { intros new Hh. exists new, []. rewrite app_nil_r. split; [done|]. by left. }
  destruct (negb _).
  { eapply emits_bind; [apply checkOperatorLogin_emits|]. intros [recheck s] new Hh. apply emits_ret. rewrite app_nil_r.
    apply (pass_ok_compose sts pods ∅ false [] new); [split; [by intros ? ?%elem_of_nil|done]|by apply Hstop]. }
  eapply emits_bind; [apply cleanupStandbyVolumes_emits|]. intros [kept verr] vols (r & dels & -> & Hd & Hk).
  assert (volumes_ok sts pods kept (match verr with None => true | Some _ => false end) (EvListPVCs r :: dels)) as Hv.
  { split.
    - intros ev [->|(pvc & err & ? & ?)%Hd]%elem_of_cons; [left; by exists r|right; by exists pvc, err].
    - destruct verr; [done|]. intros _. destruct (Hk eq_refl) as (items & -> & Hkept). exists items. split; [by left|].
      intros pvc o Hin Ho. destruct (Hkept pvc o Hin Ho) as [?|[?|?]]; [auto|auto|right; right; by right]. }
  assert (∀ new, head_ok pods new → pass_ok sts pods ((EvListPVCs r :: dels) ++ new)) as Hhead.
  { intros new Hh. eapply pass_ok_compose; [done|]. exists new, []. rewrite app_nil_r. split; [done|]. by left. }
  destruct (findPrimary cluster pods) as [primary|] eqn:Ep; [|apply emits_ret, Hhead; left; calm].
  destruct (isPodReady primary) eqn:Er; [|apply emits_ret, Hhead; left; calm].
  eapply emits_conseq; [by apply reachPrimary_emits|]. intros ? new Hr. by eapply pass_ok_compose.
Qed.
End pass.

(** C33: what one replication pass may do, whatever the API server and the primary
    answer. It deletes only volumes of standbys that neither spec.replicas nor the
    StatefulSet wants and that have no pod, never the primary's. It drops only
    inactive physical slots of standbys: invalidated ones, or those of removed
    standbys whose every listed volume is being deleted. It restarts at most one pod:
    the ready primary after it rejected the operator's password, or a standby of a
    password rollout. And it changes nothing on the primary, nor marks the Cluster
    as initialized, before the primary answered that it is not in recovery. *)
Theorem replication_pass_safe {W} `{Sha256} (api : ReplicationAPI W) cluster secret sts pods cond w res w' tr :
  reconcileReplication (logged_api api) cluster secret sts pods cond (w, []) = (res, (w', tr)) → pass_ok cluster sts pods tr.
Proof.
  intros Hrun. destruct (emits_run _ _ _ _ _ _ _ (reconcileReplication_emits api cluster secret sts pods cond) Hrun) as [_ Hok].
  exact Hok.
Qed.

(** A Cluster scaled from three instances to two during a password rollout. *)
Module Toy.
#[local] Instance toy_sha : Sha256 := { sha256 := λ _, "x" }.

Definition cluster : Cluster :=
  {| cl_Name := "pg"; cl_Namespace := "db"; cl_UID := "u"; cl_Annotations := ∅; cl_Replicas := 2 |}.
Definition pod (name : string) (created : Z) : Pod :=
  {| pod_Name := name; pod_UID := name; pod_Deleting := false; pod_Created := created;
     pod_Conditions := [{| pc_Type := PodReady; pc_Status := ConditionTrue; pc_LastTransitionTime := None |}]; pod_Labels := ∅; pod_IP := "" |}.
Definition pods : list Pod := [pod "pg-0" 0; pod "pg-1" 0].
Definition sts : StatefulSet :=
  {| sts_Replicas := Some 2; sts_HasBootstrap := true; sts_Generation := 1; sts_ObservedGeneration := 1;
     sts_CurrentRevision := "a"; sts_UpdateRevision := "a"; sts_ReadyReplicas := 2 |}.
Definition pvc (name : string) : PVC := {| pvc_Name := name; pvc_Deleting := false |}.
Definition slot (name : string) : ReplicationSlot :=
  {| rs_slot_Name := name; rs_slot_Physical := true; rs_slot_Active := false; rs_slot_WALStatus := "reserved" |}.
Definition secret : Secret :=
  {| sec_Name := "pg-credentials"; sec_Namespace := "db"; sec_ResourceVersion := "1"; sec_Labels := ∅;
     sec_Annotations := {[ AnnotationReplicationPasswordRollout := "100";
       AnnotationReplicationPasswordFingerprint := replicationPasswordFingerprint cluster "rp" ]};
     sec_OwnerReferences := []; sec_ControllerUID := None; sec_Data := {[ SecretKeyPassword := "pw"; SecretKeyReplicationPassword := "rp" ]} |}.

Definition api : ReplicationAPI unit :=
  {| api_now := mret (200 * second_ns); api_ListPVCs := mret (inl [pvc "data-pg-0"; pvc "data-pg-1"; pvc "data-pg-2"]);
     api_DeletePVC := λ _, mret None; api_DeletePod := λ _, mret None; api_PatchPod := λ p, mret (p, None);
     api_UpdateSecret := λ s, mret (s, None); api_GetHbaConfigMap := mret (inl None); api_UpdateConfigMap := λ _, mret None;
     api_connect := mret None; srv_InRecovery := mret (inl false); srv_RoleExists := λ _, mret (inl true);
     srv_CreateRole := λ _ _, mret None; srv_ReplicationStatus := mret (inl []);
     api_slots := {| srv_ReplicationSlots := mret (inl [slot "pgop_replica_2"]); srv_CreateSlot := λ _ _, mret None;
                     srv_DropSlot := λ _, mret None |} |}.

Definition run := reconcileReplication (logged_api api) cluster secret (Some sts) pods None (tt, []).
End Toy.

(** The volume and the slot of standby 2 go, standby 1 gets a slot and is restarted. *)
Lemma replication_pass_safe_witness :
  ∃ tr, Toy.run.2.2 = tr ∧
    (EvDeletePVC (Toy.pvc "data-pg-2") None ∈ tr ∧ EvDrop "pgop_replica_2" None ∈ tr ∧ EvCreate "pgop_replica_1" true None ∈ tr) ∧
    length (restarts tr) = 1%nat ∧ pass_ok Toy.cluster (Some Toy.sts) Toy.pods tr.
Proof.
  exists Toy.run.2.2. split_and!; [done| | | | |].
  - right. by left.
  - vm_compute. do 7 right. by left.
  - vm_compute. do 8 right. by left.
  - by vm_compute.
  - eapply (replication_pass_safe Toy.api Toy.cluster Toy.secret (Some Toy.sts) Toy.pods None). exact (run_split Toy.run).
Defined.
