(* ===== verification/Restore.v ===== *)
(** * Restores (src/internal/controller/restore_controller.go, restore_physical.go)

    The Restore reconciler as a program of API calls: [prog] is the tree of calls a
    pass makes, each answered by the API server. The interleaving of passes with the
    rest of the system is in RestoreSystem. Log lines are left out; the pod template
    of the Jobs is reduced to the pgBackRest arguments. *)

From Stdlib Require Import Ascii.
From S2P Require Import Prelude GoStrings GoStrconv Replication Pgbackrest.

Open Scope Z_scope.

(** ** Data *)

Inductive RestorePhase := RestorePhaseNone | RestorePhasePending | RestorePhaseRunning | RestorePhaseSucceeded | RestorePhaseFailed.
#[export] Instance RestorePhase_eq_dec : EqDecision RestorePhase.
Proof. solve_decision. Defined.

(** [rsp_TargetTime]: the target time as pgBackRest reads it. *)
Record RestoreSpec := {
  rsp_Type : BackupType;
  rsp_BackupRunRef : string;
  rsp_ClusterRef : string;
  rsp_DatabaseRef : option string;
  rsp_TargetTime : option string }.

(** The Available condition: status, reason and message (a format and its arguments). *)
Record RestoreStatus := {
  rest_Phase : RestorePhase;
  rest_StartTime : option Z;
  rest_CompletionTime : option Z;
  rest_JobName : string;
  rest_Available : option (bool * string * gerr) }.

Record Restore := {
  re_Name : string;
  re_Namespace : string;
  re_UID : string;
  re_ResourceVersion : nat;
  re_Deleting : bool;
  re_Finalizer : bool;
  re_Spec : RestoreSpec;
  re_Status : RestoreStatus }.

Definition set_restore_status (s : RestoreStatus) (r : Restore) : Restore :=
  {| re_Name := re_Name r; re_Namespace := re_Namespace r; re_UID := re_UID r; re_ResourceVersion := re_ResourceVersion r;
     re_Deleting := re_Deleting r; re_Finalizer := re_Finalizer r; re_Spec := re_Spec r; re_Status := s |}.

Definition rest_set_job (name : string) (started : option Z) (s : RestoreStatus) : RestoreStatus :=
  {| rest_Phase := rest_Phase s; rest_StartTime := started; rest_CompletionTime := rest_CompletionTime s;
     rest_JobName := name; rest_Available := rest_Available s |}.
Definition rest_set_state (phase : RestorePhase) (completion : option Z) (cond : bool * string * gerr) (s : RestoreStatus) : RestoreStatus :=
  {| rest_Phase := phase; rest_StartTime := rest_StartTime s; rest_CompletionTime := completion;
     rest_JobName := rest_JobName s; rest_Available := Some cond |}.

Record RestoreRecord := { lr_Name : string; lr_UID : string; lr_Fingerprint : string; lr_Result : string; lr_CompletionTime : Z }.

(** The fields of a Cluster that restores read and change. *)
Record RestoreCluster := {
  rc_Name : string;
  rc_ResourceVersion : nat;
  rc_Annotations : gmap string string;
  rc_PostgresMajorVersion : option Z;
  rc_Image : string;
  rc_LastRestore : option RestoreRecord }.

Definition rc_image (c : RestoreCluster) : ClusterImage :=
  {| ci_Name := rc_Name c; ci_Image := rc_Image c; ci_PostgresMajorVersion := rc_PostgresMajorVersion c |}.
(** [cluster.Annotations[k]]. *)
Definition rc_ann (c : RestoreCluster) (k : string) : string := default "" (rc_Annotations c !! k).

Record JobCondition := { jc_Type : string; jc_Status : string; jc_Message : string }.
Record Job := {
  job_Name : string;
  job_OwnerUID : string;
  job_Deleting : bool;
  job_StartTime : option Z;
  job_Active : Z;
  job_Succeeded : Z;
  job_Failed : Z;
  job_Conditions : list JobCondition }.

Inductive BackupRunPhase := BackupRunPhaseNone | BackupRunPhasePending | BackupRunPhaseRunning | BackupRunPhaseSucceeded | BackupRunPhaseFailed.
#[export] Instance BackupRunPhase_eq_dec : EqDecision BackupRunPhase.
Proof. solve_decision. Defined.

Record RunRef := { run_Name : string; run_BackupRef : string; run_Phase : BackupRunPhase; run_Location : string }.

Definition AnnotationAllowRestore : string := "pgop.ruck.io/allow-restore".
Definition reasonStoppingCluster : string := "StoppingCluster".
Definition reasonRestoring : string := "Restoring".
Definition reasonWaitingForOther : string := "WaitingForRestore".
Definition reasonAwaitingConfirmation : string := "AwaitingConfirmation".
Definition reasonWaitingForOldJob : string := "WaitingForOldJob".
Definition reasonCreatingJob : string := "CreatingJob".
Definition reasonSucceeded : string := "Succeeded".
Definition reasonFailed : string := "Failed".
Definition JobComplete : string := "Complete".
Definition JobFailed : string := "Failed".
Definition restorePollInterval : Z := 5 * second_ns.

(** ** Programs of API calls *)

(** The calls and the types of their answers. Answers of deletes are [None] when the
    object is gone; [CreateJob] tells whether the Job existed already; its arguments
    are the pgbackrest restore options. *)
Inductive call : Type → Type :=
  | GetRestore (name : string) : call (result (option Restore))
  | PatchFinalizer (r : Restore) (present : bool) : call (result Restore)
  | UpdateRestoreStatus (r : Restore) : call (result Restore)
  | GetBackupRun (name : string) : call (result (option RunRef))
  | GetBackup (name : string) : call (result (option Backup))
  | GetDatabase (name : string) : call (result (option string))
  | GetCluster (name : string) : call (result (option RestoreCluster))
  | PatchCluster (base : RestoreCluster) (annotations : gmap string string) : call error
  | PatchLastRestore (cluster : string) (record : RestoreRecord) : call error
  | GetStatefulSet (name : string) : call (result (option (option Z * Z)))
  | ListPods (cluster : string) : call (result nat)
  | GetPVC (name : string) : call (result bool)
  | ListPVCs (cluster : string) : call (result (list PVC))
  | DeletePVC (pvc : PVC) : call error
  | GetJob (name : string) : call (result (option Job))
  | CreateJob (name ownerUID : string) (args : list string) : call (result bool)
  | CreateLogicalJob (name ownerUID database location : string) : call (result bool)
  | DeleteJob (name : string) : call error
  | JobPodsExist (name : string) : call (result bool)
  | Now : call Z.

Inductive prog (A : Type) : Type :=
  | Ret (a : A)
  | Do {R : Type} (c : call R) (k : R → prog A).
Arguments Ret {A}. Arguments Do {A R}.

#[export] Instance prog_ret : MRet prog := @Ret.
#[export] Instance prog_bind : MBind prog := λ A B f,
  fix bind p := match p with Ret a => f a | Do c k => Do c (λ x, bind (k x)) end.

Definition ask {R} (c : call R) : prog R := Do c Ret.

(** [ctrl.Result] with its error: when to requeue (0: not). *)
Definition ctrlResult : Type := Z * error.
Definition okResult : prog ctrlResult := Ret (0, None).
Definition errResult (e : gerr) : prog ctrlResult := Ret (0, Some e).
Definition requeueAfter (d : Z) : prog ctrlResult := Ret (d, None).

(** [if err != nil { return ..., err }] on a call's results. *)
Notation "'need' x ← m ; k" := (r ← m; match r with inr e => errResult e | inl x => k end)
  (at level 100, x pattern, m at level 200, k at level 200, right associativity) : go_scope.
Notation "'must' m ; k" := (r ← m; match r with Some e => errResult e | None => k end)
  (at level 100, m at level 200, k at level 200, right associativity) : go_scope.

(** ** Helpers *)

Definition restoreJobName (r : Restore) : string := re_Name r +:+ "-restore".
Definition dataPVCName (cluster : string) : string := dataVolumeName +:+ "-" +:+ cluster +:+ "-0".

Definition restoreReason (r : Restore) : string :=
  match rest_Available (re_Status r) with Some (_, reason, _) => reason | None => "" end.

Definition restoreFinished (r : Restore) : bool :=
  bool_decide (rest_Phase (re_Status r) = RestorePhaseSucceeded ∨ rest_Phase (re_Status r) = RestorePhaseFailed).

Definition jobConditionTrue (job : Job) (t : string) : bool :=
  existsb (λ c, bool_decide (jc_Type c = t ∧ jc_Status c = ConditionTrue)) (job_Conditions job).
Definition jobSucceeded (job : Job) : bool := jobConditionTrue job JobComplete || bool_decide (0 < job_Succeeded job).
(** [metav1.IsControlledBy(job, restore)]. *)
Definition jobControlledBy (job : Job) (r : Restore) : bool := bool_decide (job_OwnerUID job = re_UID r).

Inductive restoreOutcome := restoreOutcomeReleased | restoreOutcomeSucceeded | restoreOutcomeFailed | restoreOutcomeInterrupted.
#[export] Instance restoreOutcome_eq_dec : EqDecision restoreOutcome.
Proof. solve_decision. Defined.

Definition outcome_result (o : restoreOutcome) : string :=
  match o with
  | restoreOutcomeSucceeded => reasonSucceeded
  | restoreOutcomeFailed => reasonFailed
  | restoreOutcomeInterrupted => "Interrupted"
  | restoreOutcomeReleased => ""
  end.

(** [strings.Cut(value, "/")]. *)
Definition cut_slash (value : string) : string * string * bool :=
  match Cut value "/" with Some (a, b) => (a, b, true) | None => (value, "", false) end.

(** Whether the Cluster's allow-restore annotation confirms the Restore. *)
Definition restoreConfirmed (cluster : RestoreCluster) (r : Restore) : bool :=
  let value := rc_ann cluster AnnotationAllowRestore in
  let '(name, uid, withUID) := cut_slash value in
  let needUID := match rc_LastRestore cluster with Some last => negb (bool_decide (lr_UID last = re_UID r)) | None => false end in
  negb (bool_decide (value = "") || negb (bool_decide (name = re_Name r)) || (withUID && negb (bool_decide (uid = re_UID r)))
        || (needUID && negb withUID)).

Definition confirmationMessage (cluster : RestoreCluster) (r : Restore) : gerr :=
  Errorf "Waiting for confirmation: a physical restore stops Cluster %q and replaces its data. Confirm it by annotating the Cluster with %s=%s/%s"
    [rc_Name cluster; AnnotationAllowRestore; re_Name r; re_UID r].

(** The pgbackrest restore options; [label] is the backup set. *)
Definition physicalRestoreArgs (r : Restore) (label : string) : list string :=
  match rsp_TargetTime (re_Spec r) with
  | Some t => ["--delta"; "--type=time"; "--target=" +:+ t; "--target-action=promote"]
  | None => if decide (label = "") then ["--delta"]
            else ["--delta"; "--set=" +:+ label; "--type=immediate"; "--target-action=promote"]
  end.

(** ** The reconciler *)

(** The JSON and hash of a RestoreSpec, and its clock-free part. *)
Class RestoreDigest := { restoreFingerprint : RestoreSpec → string }.

Definition setAvailable (r : Restore) (phase : RestorePhase) (completion : option Z) (status : bool) (reason : string) (msg : gerr) : Restore :=
  set_restore_status (rest_set_state phase completion (status, reason, msg) (re_Status r)) r.

Section reconcile.
Context `{UrlParse} `{RestoreDigest}.

Definition setPhysicalRestoreState (r : Restore) (phase : RestorePhase) (reason : string) (msg : gerr) (d : Z) : prog ctrlResult :=
  need _ ← ask (UpdateRestoreStatus (setAvailable r phase (rest_CompletionTime (re_Status r)) false reason msg));
  requeueAfter d.

Definition setPhysicalRestoreProgress (r : Restore) (reason : string) (msg : gerr) (d : Z) : prog ctrlResult :=
  setPhysicalRestoreState r RestorePhaseRunning reason msg d.

(** The cause becomes the condition's message. *)
Definition markFailed (r : Restore) (cause : gerr) : prog ctrlResult :=
  now ← ask Now;
  need _ ← ask (UpdateRestoreStatus (setAvailable r RestorePhaseFailed (Some now) false "ReconcileError" cause));
  okResult.

Definition failPhysicalRestore (r : Restore) (cause : gerr) : prog ctrlResult := markFailed r cause.

Record physicalRestoreTarget := { tgt_backup : Backup; tgt_cluster : RestoreCluster; tgt_layout : postgresLayout; tgt_label : string }.

Definition errRestoreInvalid (e : gerr) : gerr := Wrapf "invalid physical restore: %w" [] e.

(** [inr (true, e)]: [errors.Is(err, errRestoreInvalid) || apierrors.IsNotFound(err)]. *)
Definition resolvePhysicalRestore (r : Restore) : prog (physicalRestoreTarget + bool * gerr) :=
  let invalid e := mret (inr (true, errRestoreInvalid e)) in
  let get {A} (what name : string) (x : result (option A)) (k : A → prog (physicalRestoreTarget + bool * gerr)) :=
    match x with
    | inr e => mret (inr (false, Wrapf ("failed to get " +:+ what +:+ " %s: %w") [name] e))
    | inl None => mret (inr (true, Errorf ("failed to get " +:+ what +:+ " %s: not found") [name]))
    | inl (Some a) => k a
    end in
  x ← ask (GetBackupRun (rsp_BackupRunRef (re_Spec r)));
  get "backupRun" (rsp_BackupRunRef (re_Spec r)) x (λ backupRun,
  x ← ask (GetBackup (run_BackupRef backupRun));
  get "backup" (run_BackupRef backupRun) x (λ backup,
  if decide (bk_Type backup ≠ BackupTypePhysical) then invalid (Errorf "backup %s is not a physical backup" [bk_Name backup])
  else match validatePhysicalBackup backup with
  | Some e => invalid e
  | None =>
  if decide (bk_ClusterRef backup ≠ Some (rsp_ClusterRef (re_Spec r)))
  then invalid (Errorf "a physical restore must target the Cluster the Backup was taken from" [])
  else if decide (run_Phase backupRun ≠ BackupRunPhaseSucceeded)
  then invalid (Errorf "backupRun %s is %s, not Succeeded" [run_Name backupRun])
  else match backupLabelFromLocation (run_Location backupRun) with
  | inr e => invalid (Wrapf "backupRun %s: %w" [run_Name backupRun] e)
  | inl label =>
  if decide (label = "") then invalid (Errorf "backupRun %s has no backup location (status.location)" [run_Name backupRun])
  else
  x ← ask (GetCluster (rsp_ClusterRef (re_Spec r)));
  get "cluster" (rsp_ClusterRef (re_Spec r)) x (λ cluster,
  match validatePhysicalBackupFor backup (rc_image cluster) with
  | Some e => invalid e
  | None =>
  match resolvePostgresLayout (rc_image cluster) with
  | inr e => invalid e
  | inl layout => mret (inl {| tgt_backup := backup; tgt_cluster := cluster; tgt_layout := layout; tgt_label := label |})
  end end)
  end end)).

Definition restoreJob (r : Restore) : prog (result (option Job)) := ask (GetJob (restoreJobName r)).

(** The annotations a finished Restore leaves on its Cluster. *)
Definition finishedAnnotations (ann : gmap string string) (r : Restore) (outcome : restoreOutcome) : gmap string string :=
  let ann := if decide (default "" (ann !! AnnotationRestoreInProgress) = re_Name r) then delete AnnotationRestoreInProgress ann else ann in
  let '(confirmed, _, _) := cut_slash (default "" (ann !! AnnotationAllowRestore)) in
  let ann := if decide (confirmed = re_Name r) then delete AnnotationAllowRestore ann else ann in
  match outcome with
  | restoreOutcomeSucceeded => delete AnnotationRestoreInterrupted ann
  | restoreOutcomeFailed | restoreOutcomeInterrupted => <[AnnotationRestoreInterrupted := re_Name r]> ann
  | restoreOutcomeReleased => ann
  end.

Definition finishOnCluster_as (r : Restore) (outcome : restoreOutcome) : prog error :=
  x ← ask (GetCluster (rsp_ClusterRef (re_Spec r)));
  match x with
  | inr e => mret (Some e)
  | inl None => mret None
  | inl (Some cluster) =>
      let ann := finishedAnnotations (rc_Annotations cluster) r outcome in
      e ← (if decide (ann = rc_Annotations cluster) then mret None else ask (PatchCluster cluster ann));
      match e with
      | Some e => mret (Some e)
      | None =>
          if decide (outcome = restoreOutcomeReleased) then mret None
          else if match rc_LastRestore cluster with
                  | Some last => bool_decide (lr_UID last = re_UID r) && bool_decide (lr_Result last = outcome_result outcome)
                  | None => false
                  end then mret None
          else
            now ← ask Now;
            ask (PatchLastRestore (rc_Name cluster)
              {| lr_Name := re_Name r; lr_UID := re_UID r; lr_Fingerprint := restoreFingerprint (re_Spec r);
                 lr_Result := outcome_result outcome; lr_CompletionTime := now |})
      end
  end.

(** A Job of the Restore upgrades Released to Interrupted. *)
Definition finishOnCluster (r : Restore) (outcome : restoreOutcome) : prog error :=
  if decide (outcome = restoreOutcomeReleased) then
    x ← restoreJob r;
    match x with
    | inr e => mret (Some e)
    | inl job =>
        let mine := match job with Some j => jobControlledBy j r | None => false end in
        finishOnCluster_as r (if mine then restoreOutcomeInterrupted else restoreOutcomeReleased)
    end
  else finishOnCluster_as r outcome.

(** Whether the other Restore exists and has not finished; true when that is not known. *)
Definition restoreActive (name : string) : prog bool :=
  x ← ask (GetRestore name);
  mret (match x with inr _ => true | inl None => false | inl (Some other) => negb (restoreFinished other) end).

Definition clusterStopped (cluster : string) : prog (result bool) :=
  x ← ask (GetStatefulSet cluster);
  match x with
  | inr e => mret (inr e)
  | inl sts =>
      let scaled_down := match sts with
                         | None => true
                         | Some (replicas, status) => bool_decide (replicas = Some 0) && bool_decide (status = 0)
                         end in
      if scaled_down : bool then
        p ← ask (ListPods cluster);
        mret (match p with inr e => inr e | inl n => inl (bool_decide (n = 0%nat)) end)
      else mret (inl false)
  end.

(** The Cluster [name], as far as volume names matter. *)
Definition named_cluster (name : string) : Cluster :=
  {| cl_Name := name; cl_Namespace := ""; cl_UID := ""; cl_Annotations := ∅; cl_Replicas := 1 |}.

Fixpoint deleteVolumes (cluster : string) (pvcs : list PVC) (remaining : nat) : prog (nat * error) :=
  match pvcs with
  | [] => mret (remaining, None)
  | pvc :: pvcs =>
      match pvcOrdinal (named_cluster cluster) (pvc_Name pvc) with
      | None => deleteVolumes cluster pvcs remaining
      | Some ordinal =>
          if decide (ordinal = 0) then deleteVolumes cluster pvcs remaining
          else if pvc_Deleting pvc then deleteVolumes cluster pvcs (S remaining)
          else
            e ← ask (DeletePVC pvc);
            match e with
            | Some err => mret (S remaining, Some err)
            | None => deleteVolumes cluster pvcs (S remaining)
            end
      end
  end.

Definition deleteStandbyVolumes (cluster : string) : prog (nat * error) :=
  x ← ask (ListPVCs cluster);
  match x with
  | inr e => mret (0%nat, Some e)
  | inl pvcs => deleteVolumes cluster pvcs 0
  end.

(** With the Restore as the caller has it afterwards. *)
Definition completePhysicalRestore (r : Restore) (cluster : string) : prog (Restore * ctrlResult) :=
  '(remaining, e) ← deleteStandbyVolumes cluster;
  match e with
  | Some err => mret (r, (0, Some err))
  | None =>
      if bool_decide (0 < remaining)%nat
      then x ← setPhysicalRestoreProgress r reasonRestoring (Errorf "Waiting for the standby data volumes to be deleted" []) restorePollInterval;
           mret (r, x)
      else
        e ← finishOnCluster r restoreOutcomeSucceeded;
        match e with
        | Some err => mret (r, (0, Some err))
        | None =>
            now ← ask Now;
            x ← ask (UpdateRestoreStatus (setAvailable r RestorePhaseSucceeded (Some now) true reasonSucceeded
              (Errorf "Data directory restored; Cluster %q is starting and recovers from the WAL archive" [cluster])));
            mret (match x with inr e => (r, (0, Some e)) | inl r' => (r', (0, None)) end)
        end
  end.

(** A definite failure before anything was written: the Cluster starts again. *)
Definition releaseAndFail (r : Restore) (cause : gerr) : prog ctrlResult :=
  must finishOnCluster r restoreOutcomeReleased;
  failPhysicalRestore r cause.

Definition createRestoreJob (r : Restore) : prog ctrlResult :=
  t ← resolvePhysicalRestore r;
  match t with
  | inr (true, e) => releaseAndFail r (Wrapf "%w; Cluster released, nothing was restored" [] e)
  | inr (false, e) => errResult e
  | inl target =>
      need _ ← ask (CreateJob (restoreJobName r) (re_UID r) (physicalRestoreArgs r (tgt_label target)));
      setPhysicalRestoreProgress r reasonRestoring
        (Errorf "Restoring the data directory of Cluster %q" [rc_Name (tgt_cluster target)]) (10 * second_ns)
  end.

Definition interruptedHint (cluster : string) : gerr :=
  Errorf "the data directory may be partly restored, so Cluster %q stays stopped (%s)" [cluster; AnnotationRestoreInterrupted].

(** The message of the last failed condition that has one. *)
Definition jobFailureMessage (job : Job) : string :=
  match last (filter (λ c, jc_Type c = JobFailed ∧ jc_Message c ≠ "") (job_Conditions job)) with
  | Some c => "the restore Job failed: " +:+ jc_Message c
  | None => "the restore Job failed"
  end.

Definition finishAndFail (r : Restore) (outcome : restoreOutcome) (cause : gerr) : prog ctrlResult :=
  must finishOnCluster r outcome;
  failPhysicalRestore r cause.

Definition followPhysicalRestoreJob (r : Restore) : prog ctrlResult :=
  need cluster ← ask (GetCluster (rsp_ClusterRef (re_Spec r)));
  match cluster with
  | None => failPhysicalRestore r (Errorf "cluster %s was deleted" [rsp_ClusterRef (re_Spec r)])
  | Some cluster =>
      need job ← restoreJob r;
      match job with
      | None =>
          if decide (restoreReason r = reasonCreatingJob) then createRestoreJob r
          else finishAndFail r restoreOutcomeInterrupted
                 (Wrapf "restore Job %s disappeared; %w" [rest_JobName (re_Status r)] (interruptedHint (rc_Name cluster)))
      | Some j =>
          if negb (jobControlledBy j r)
          then finishAndFail r restoreOutcomeInterrupted
                 (Wrapf "restore Job %s disappeared; %w" [rest_JobName (re_Status r)] (interruptedHint (rc_Name cluster)))
          else if jobSucceeded j then '(_, x) ← completePhysicalRestore r (rc_Name cluster); mret x
          else if jobConditionTrue j JobFailed
          then finishAndFail r restoreOutcomeFailed
                 (Wrapf "%s (see the logs of Job %s); %w" [jobFailureMessage j; job_Name j] (interruptedHint (rc_Name cluster)))
          else setPhysicalRestoreProgress r reasonRestoring
                 (Errorf "Restoring the data directory of Cluster %q" [rc_Name cluster]) (10 * second_ns)
      end
  end.

(** The Restore, whether its finalizer can be removed, and the error. *)
Definition finalizeRestoreJob (r : Restore) : prog (Restore * bool * error) :=
  if restoreFinished r then mret (r, true, None)
  else
    x ← restoreJob r;
    match x with
    | inr e => mret (r, false, Some e)
    | inl job =>
        let job := match job with Some j => if jobControlledBy j r then Some j else None | None => None end in
        if bool_decide (job = None) && (bool_decide (rest_JobName (re_Status r) = "") || bool_decide (restoreReason r = reasonCreatingJob))
        then e ← finishOnCluster r restoreOutcomeReleased; mret (r, true, e)
        else if match job with Some j => negb (job_Deleting j) && jobSucceeded j | None => false end then
          c ← ask (GetCluster (rsp_ClusterRef (re_Spec r)));
          match c with
          | inr e => mret (r, false, Some e)
          | inl None => mret (r, true, None)
          | inl (Some cluster) =>
              '(r, (requeue, e)) ← completePhysicalRestore r (rc_Name cluster);
              mret (r, match e with Some _ => false | None => negb (bool_decide (0 < requeue)) end, e)
          end
        else
          e ← finishOnCluster r restoreOutcomeInterrupted;
          match e with
          | Some err => mret (r, false, Some err)
          | None =>
              match job with
              | Some j =>
                  if job_Deleting j then mret (r, false, None)
                  else e ← ask (DeleteJob (job_Name j)); mret (r, false, e)
              | None =>
                  x ← ask (JobPodsExist (restoreJobName r));
                  mret (match x with inr e => (r, false, Some e) | inl running => (r, negb running, None) end)
              end
          end
    end.

Definition finalizePhysicalRestore (r : Restore) : prog ctrlResult :=
  if negb (re_Finalizer r) then okResult
  else
    '(r, finalized, e) ← finalizeRestoreJob r;
    if bool_decide (is_Some e) || negb finalized then mret (restorePollInterval, e)
    else need _ ← ask (PatchFinalizer r false); okResult.

(** 2. of [reconcilePhysicalRestore]: the Cluster is held by this Restore. *)
Definition startPhysicalRestore (r : Restore) (cluster : RestoreCluster) : prog ctrlResult :=
  need stopped ← clusterStopped (rc_Name cluster);
  if negb stopped
  then setPhysicalRestoreProgress r reasonStoppingCluster
         (Errorf "Waiting for the PostgreSQL pods of Cluster %q to stop" [rc_Name cluster]) restorePollInterval
  else
    need volume ← ask (GetPVC (dataPVCName (rc_Name cluster)));
    if negb volume
    then releaseAndFail r (Errorf "the data volume %s of Cluster %q does not exist" [dataPVCName (rc_Name cluster); rc_Name cluster])
    else
      need existing ← restoreJob r;
      if match existing with Some j => negb (jobControlledBy j r) | None => false end
      then setPhysicalRestoreProgress r reasonWaitingForOldJob
             (Errorf "Waiting for Job %s of an earlier Restore to be deleted (delete it if it remains)" [restoreJobName r]) restorePollInterval
      else
        now ← (match rest_StartTime (re_Status r) with Some t => mret t | None => ask Now end);
        setPhysicalRestoreProgress
          (set_restore_status (rest_set_job (restoreJobName r) (Some now) (re_Status r)) r)
          reasonCreatingJob (Errorf "Creating the restore Job for Cluster %q" [rc_Name cluster]) second_ns.

(** 1. of [reconcilePhysicalRestore]: confirmation and stopping the Cluster. *)
Definition holdCluster (r : Restore) (cluster : RestoreCluster) : prog ctrlResult :=
  let holder := rc_ann cluster AnnotationRestoreInProgress in
  if negb (restoreConfirmed cluster r)
  then setPhysicalRestoreState r RestorePhasePending reasonAwaitingConfirmation (confirmationMessage cluster r) (10 * second_ns)
  else
    other ← (if decide (holder = "") then mret false else restoreActive holder);
    if other : bool
    then setPhysicalRestoreProgress r reasonWaitingForOther
           (Errorf "Waiting for Restore %q to finish restoring Cluster %q" [holder; rc_Name cluster]) (10 * second_ns)
    else
      must ask (PatchCluster cluster (<[AnnotationRestoreInProgress := re_Name r]> (rc_Annotations cluster)));
      setPhysicalRestoreProgress r reasonStoppingCluster (Errorf "Stopping Cluster %q" [rc_Name cluster]) restorePollInterval.

Definition reconcileUnfinished (r : Restore) : prog ctrlResult :=
  if decide (rest_JobName (re_Status r) ≠ "") then followPhysicalRestoreJob r
  else
    t ← resolvePhysicalRestore r;
    match t with
    | inr (true, e) => releaseAndFail r e
    | inr (false, e) => errResult e
    | inl target =>
        let cluster := tgt_cluster target in
        if decide (rc_ann cluster AnnotationRestoreInProgress ≠ re_Name r) then holdCluster r cluster
        else startPhysicalRestore r cluster
    end.

Definition reconcilePhysicalRestore (r : Restore) : prog ctrlResult :=
  if re_Deleting r then finalizePhysicalRestore r
  else if restoreFinished r then okResult
  else if re_Finalizer r then reconcileUnfinished r
  else
    need r ← ask (PatchFinalizer r true);
    reconcileUnfinished r.

(** ** Logical restores (restore_controller.go) *)

(** The fields of the Job that [buildLogicalRestoreJob] computes: the database and
    the location of the artifact. *)
Definition buildRestoreJob (r : Restore) : prog (result (string * string)) :=
  let get {A} (what name : string) (x : result (option A)) (k : A → prog (result (string * string))) :=
    match x with
    | inr e => mret (inr (Wrapf ("failed to get " +:+ what +:+ " %s: %w") [name] e))
    | inl None => mret (inr (Errorf ("failed to get " +:+ what +:+ " %s: not found") [name]))
    | inl (Some a) => k a
    end in
  x ← ask (GetBackupRun (rsp_BackupRunRef (re_Spec r)));
  get "backupRun" (rsp_BackupRunRef (re_Spec r)) x (λ backupRun,
  x ← ask (GetBackup (run_BackupRef backupRun));
  get "backup" (run_BackupRef backupRun) x (λ _,
  x ← ask (GetCluster (rsp_ClusterRef (re_Spec r)));
  get "cluster" (rsp_ClusterRef (re_Spec r)) x (λ _,
  match rsp_DatabaseRef (re_Spec r) with
  | None => mret (inr (Errorf "databaseRef is required for logical restores" []))
  | Some db =>
      if decide (run_Location backupRun = "") then mret (inr (Errorf "backupRun %s has no artifact location yet" [run_Name backupRun]))
      else
        x ← ask (GetDatabase db);
        get "database" db x (λ database, mret (inl (database, run_Location backupRun)))
  end))).

(** Whether the Job changed the Restore's status, and the status. *)
Definition syncFromJob (r : Restore) (job : Job) : prog (Restore * bool) :=
  let st := re_Status r in
  let started := bool_decide (is_Some (job_StartTime job)) && bool_decide (rest_StartTime st = None) in
  let r1 := if started then set_restore_status (rest_set_job (rest_JobName st) (job_StartTime job) st) r else r in
  if restoreFinished r1 then mret (r1, started)
  else if bool_decide (0 < job_Succeeded job) then
    now ← ask Now;
    mret (setAvailable r1 RestorePhaseSucceeded (Some now) true reasonSucceeded (Errorf "Restore completed successfully" []), true)
  else if bool_decide (0 < job_Failed job) then
    let msg := match find (λ c, bool_decide (jc_Type c = JobFailed)) (job_Conditions job) with
               | Some c => jc_Message c
               | None => "restore job failed"
               end in
    now ← ask Now;
    mret (setAvailable r1 RestorePhaseFailed (Some now) false reasonFailed (Errorf "%s" [msg]), true)
  else if bool_decide (0 < job_Active job) && negb (bool_decide (rest_Phase (re_Status r1) = RestorePhaseRunning)) then
    mret (set_restore_status
      {| rest_Phase := RestorePhaseRunning; rest_StartTime := rest_StartTime (re_Status r1);
         rest_CompletionTime := rest_CompletionTime (re_Status r1); rest_JobName := rest_JobName (re_Status r1);
         rest_Available := rest_Available (re_Status r1) |} r1, true)
  else mret (r1, started).

Definition followLogicalJob (r : Restore) : prog ctrlResult :=
  need job ← ask (GetJob (rest_JobName (re_Status r)));
  '(r1, e) ← (match job with
    | None => mret (r, None)
    | Some j =>
        '(r1, changed) ← syncFromJob r j;
        if changed : bool then x ← ask (UpdateRestoreStatus r1); mret (r1, match x with inr e => Some e | inl _ => None end)
        else mret (r1, None)
    end);
  match e with
  | Some err => errResult err
  | None => if decide (rest_Phase (re_Status r1) = RestorePhaseRunning) then requeueAfter (10 * second_ns) else okResult
  end.

Definition reconcileLogicalRestore (r : Restore) : prog ctrlResult :=
  if decide (rest_JobName (re_Status r) ≠ "") then followLogicalJob r
  else
    job ← buildRestoreJob r;
    match job with
    | inr e => markFailed r e
    | inl (database, location) =>
        need existed ← ask (CreateLogicalJob (restoreJobName r) (re_UID r) database location);
        if existed : bool then requeueAfter second_ns
        else
          now ← ask Now;
          let r1 := set_restore_status (rest_set_job (restoreJobName r) (Some now) (re_Status r)) r in
          need _ ← ask (UpdateRestoreStatus
            (setAvailable r1 RestorePhaseRunning (rest_CompletionTime (re_Status r1)) false "Running" (Errorf "Restore job created" [])));
          requeueAfter (10 * second_ns)
    end.

Definition RestoreReconcile (name : string) : prog ctrlResult :=
  need r ← ask (GetRestore name);
  match r with
  | None => okResult
  | Some r =>
      match rsp_Type (re_Spec r) with
      | BackupTypePhysical => reconcilePhysicalRestore r
      | BackupTypeLogical => reconcileLogicalRestore r
      end
  end.
End reconcile.
