(* ===== verification/BackupRun.v ===== *)
(** * BackupRuns (src/internal/controller/backuprun_controller.go, backup_physical.go)

    The BackupRun reconciler, which follows the Job of a backup and records where the
    backup is, and the part of the Backup reconciler that creates BackupRuns for
    physical backup Jobs. The API server is the record of operations [BackupRunAPI]. *)

From Stdlib Require Import Ascii.
From S2P Require Import Prelude GoStrings GoStrconv Trace Replication Pgbackrest Restore.

Open Scope Z_scope.

(** ** Data *)

Inductive BackupRunType := BackupRunTypeFull | BackupRunTypeIncremental | BackupRunTypeSchema | BackupRunTypeData.
#[export] Instance BackupRunType_eq_dec : EqDecision BackupRunType.
Proof. solve_decision. Defined.

Record BackupRunStatus := {
  brs_Phase : BackupRunPhase;
  brs_StartTime : option Z;
  brs_CompletionTime : option Z;
  brs_Location : string;
  brs_JobName : string;
  brs_Available : option (bool * string * gerr) }.

(** [brn_Owner]: the UID of the controlling Backup, if any. *)
Record BackupRun := {
  brn_Name : string;
  brn_Owner : option string;
  brn_BackupRef : string;
  brn_Type : BackupRunType;
  brn_TTL : option Z;
  brn_Status : BackupRunStatus }.

Definition set_run_status (s : BackupRunStatus) (run : BackupRun) : BackupRun :=
  {| brn_Name := brn_Name run; brn_Owner := brn_Owner run; brn_BackupRef := brn_BackupRef run; brn_Type := brn_Type run;
     brn_TTL := brn_TTL run; brn_Status := s |}.
Definition brs_set_start (t : option Z) (s : BackupRunStatus) : BackupRunStatus :=
  {| brs_Phase := brs_Phase s; brs_StartTime := t; brs_CompletionTime := brs_CompletionTime s; brs_Location := brs_Location s;
     brs_JobName := brs_JobName s; brs_Available := brs_Available s |}.
Definition brs_set_phase (p : BackupRunPhase) (s : BackupRunStatus) : BackupRunStatus :=
  {| brs_Phase := p; brs_StartTime := brs_StartTime s; brs_CompletionTime := brs_CompletionTime s; brs_Location := brs_Location s;
     brs_JobName := brs_JobName s; brs_Available := brs_Available s |}.
Definition brs_complete (p : BackupRunPhase) (now : Z) (cond : bool * string * gerr) (s : BackupRunStatus) : BackupRunStatus :=
  {| brs_Phase := p; brs_StartTime := brs_StartTime s; brs_CompletionTime := Some now; brs_Location := brs_Location s;
     brs_JobName := brs_JobName s; brs_Available := Some cond |}.
Definition brs_set_location (l : string) (s : BackupRunStatus) : BackupRunStatus :=
  {| brs_Phase := brs_Phase s; brs_StartTime := brs_StartTime s; brs_CompletionTime := brs_CompletionTime s; brs_Location := l;
     brs_JobName := brs_JobName s; brs_Available := brs_Available s |}.
Definition brs_pending (s : BackupRunStatus) : BackupRunStatus :=
  {| brs_Phase := BackupRunPhasePending; brs_StartTime := brs_StartTime s; brs_CompletionTime := brs_CompletionTime s;
     brs_Location := brs_Location s; brs_JobName := brs_JobName s;
     brs_Available := Some (false, "Pending", Errorf "BackupRun is waiting to be scheduled" []) |}.

(** What a Restore reads of a BackupRun. *)
Definition run_ref (run : BackupRun) : RunRef :=
  {| run_Name := brn_Name run; run_BackupRef := brn_BackupRef run; run_Phase := brs_Phase (brn_Status run);
     run_Location := brs_Location (brn_Status run) |}.

(** Updates answer with the stored object. *)
Record BackupRunAPI (W : Type) := {
  bra_now : M W Z;
  bra_GetRun : string → M W (result (option BackupRun));
  bra_UpdateStatus : BackupRun → M W (result BackupRun);
  bra_DeleteRun : BackupRun → M W error;
  bra_GetJob : string → M W (result (option Job));
  bra_GetBackup : string → M W (result (option Backup));
  bra_ListJobPods : string → M W (result (list (list ContainerStatus))) }.
Arguments bra_now {W}. Arguments bra_GetRun {W}. Arguments bra_UpdateStatus {W}. Arguments bra_DeleteRun {W}.
Arguments bra_GetJob {W}. Arguments bra_GetBackup {W}. Arguments bra_ListJobPods {W}.

Definition hour_ns : Z := 3600 * second_ns.
Definition minute_ns : Z := 60 * second_ns.
Definition defaultBackupRunTTL : Z := 168 * hour_ns.

Definition isPhysicalRun (run : BackupRun) : bool :=
  bool_decide (brn_Type run = BackupRunTypeFull ∨ brn_Type run = BackupRunTypeIncremental).
Definition ttlFor (run : BackupRun) : Z := default defaultBackupRunTTL (brn_TTL run).

(** Succeeded or Failed. *)
Definition runFinished (run : BackupRun) : bool :=
  bool_decide (brs_Phase (brn_Status run) = BackupRunPhaseSucceeded ∨ brs_Phase (brn_Status run) = BackupRunPhaseFailed).

(** The message of the first Failed condition. *)
Definition backupFailureMessage (job : Job) : string :=
  match find (λ c, bool_decide (jc_Type c = JobFailed)) (job_Conditions job) with Some c => jc_Message c | None => "backup job failed" end.

Section reconcile.
Context {W : Type} (api : BackupRunAPI W).

(** The run and whether it changed. *)
Definition BackupRun_syncFromJob (run : BackupRun) (job : Job) : M W (BackupRun * bool) :=
  let started := bool_decide (is_Some (job_StartTime job)) && bool_decide (brs_StartTime (brn_Status run) = None) in
  let run := if started then set_run_status (brs_set_start (job_StartTime job) (brn_Status run)) run else run in
  if runFinished run then mret (run, started)
  else if bool_decide (0 < job_Succeeded job) then
    now ← bra_now api;
    mret (set_run_status (brs_complete BackupRunPhaseSucceeded now
      (true, reasonSucceeded, Errorf "BackupRun completed successfully" []) (brn_Status run)) run, true)
  else if bool_decide (0 < job_Failed job) then
    now ← bra_now api;
    mret (set_run_status (brs_complete BackupRunPhaseFailed now
      (false, reasonFailed, Errorf "%s" [backupFailureMessage job]) (brn_Status run)) run, true)
  else if bool_decide (0 < job_Active job) && negb (bool_decide (brs_Phase (brn_Status run) = BackupRunPhaseRunning))
  then mret (set_run_status (brs_set_phase BackupRunPhaseRunning (brn_Status run)) run, true)
  else mret (run, started).

Definition recordLocation (run : BackupRun) (job : Job) : M W (BackupRun * bool) :=
  if negb (bool_decide (brs_Location (brn_Status run) = "")) || bool_decide (job_Succeeded job = 0) || negb (isPhysicalRun run)
  then mret (run, false)
  else
    b ← bra_GetBackup api (brn_BackupRef run);
    match b with
    | inl (Some backup) =>
        pods ← bra_ListJobPods api (job_Name job);
        match pods with
        | inr _ => mret (run, false)
        | inl pods =>
            let location := physicalBackupLocation backup pods in
            mret (set_run_status (brs_set_location location (brn_Status run)) run, negb (bool_decide (location = "")))
        end
    | _ => mret (run, false)
    end.

(** The run, whether to look again, and the error. *)
Definition recordLateLocation (run : BackupRun) : M W (BackupRun * bool * error) :=
  match brs_CompletionTime (brn_Status run) with
  | None => mret (run, false, None)
  | Some completion =>
      if negb (bool_decide (brs_Phase (brn_Status run) = BackupRunPhaseSucceeded)) || negb (bool_decide (brs_Location (brn_Status run) = ""))
         || bool_decide (brs_JobName (brn_Status run) = "") || negb (isPhysicalRun run)
      then mret (run, false, None)
      else
        j ← bra_GetJob api (brs_JobName (brn_Status run));
        match j with
        | inr e => mret (run, false, Some e)
        | inl None => mret (run, false, None)
        | inl (Some job) =>
            '(run, changed) ← recordLocation run job;
            if changed : bool then
              u ← bra_UpdateStatus api run;
              mret (match u with inr e => (run, false, Some e) | inl run => (run, false, None) end)
            else
              now ← bra_now api;
              mret (run, bool_decide (now - completion < minute_ns), None)
        end
  end.

(** [if err == nil { ... }] of the synchronisation with the Job. *)
Definition followJob (run : BackupRun) : M W (BackupRun * error) :=
  if bool_decide (brs_JobName (brn_Status run) = "") then mret (run, None)
  else
    j ← bra_GetJob api (brs_JobName (brn_Status run));
    match j with
    | inr e => mret (run, Some e)
    | inl None => mret (run, None)
    | inl (Some job) =>
        '(run, updated) ← BackupRun_syncFromJob run job;
        '(run, located) ← recordLocation run job;
        if updated || located then
          u ← bra_UpdateStatus api run;
          mret (match u with inr e => (run, Some e) | inl run => (run, None) end)
        else mret (run, None)
    end.

Definition BackupRunReconcile (name : string) : M W ctrlResult :=
  r ← bra_GetRun api name;
  match r with
  | inr e => mret (0, Some e)
  | inl None => mret (0, None)
  | inl (Some run) =>
      '(run, requeue, e) ← recordLateLocation run;
      if bool_decide (is_Some e) || requeue then mret (5 * second_ns, e)
      else match brs_CompletionTime (brn_Status run) with
      | Some completion =>
          now ← bra_now api;
          let ttl := ttlFor run in let age := now - completion in
          if bool_decide (ttl ≤ age) then e ← bra_DeleteRun api run; mret (0, e)
          else mret (ttl - age, None)
      | None =>
          '(run, e) ← followJob run;
          match e with
          | Some e => mret (0, Some e)
          | None =>
              u ← (if decide (brs_Phase (brn_Status run) = BackupRunPhaseNone)
                   then bra_UpdateStatus api (set_run_status (brs_pending (brn_Status run)) run) else mret (inl run));
              match u with
              | inr e => mret (0, Some e)
              | inl run =>
                  if bool_decide (brs_Phase (brn_Status run) = BackupRunPhaseRunning)
                     || (bool_decide (brs_Phase (brn_Status run) = BackupRunPhasePending) && negb (bool_decide (brs_JobName (brn_Status run) = "")))
                  then mret (10 * second_ns, None) else mret (0, None)
              end
          end
      end
  end.
End reconcile.

(** ** BackupRuns of physical backup Jobs (backup_physical.go) *)

(** A Job with the label of its backup type. *)
Record BackupJob := { bj_Job : Job; bj_Type : string; bj_CompletionTime : option Z }.

(** [ba_CreateRun]: whether it existed already. *)
Record BackupAPI (W : Type) := {
  ba_now : M W Z;
  ba_ListJobs : M W (result (list BackupJob));
  ba_GetRun : string → M W (result (option BackupRun));
  ba_CreateRun : BackupRun → M W (result bool);
  ba_PatchRunJob : BackupRun → string → M W error }.
Arguments ba_now {W}. Arguments ba_ListJobs {W}. Arguments ba_GetRun {W}. Arguments ba_CreateRun {W}. Arguments ba_PatchRunJob {W}.

Definition physicalRunType (label : string) : option BackupRunType :=
  if decide (label = "full") then Some BackupRunTypeFull
  else if decide (label = "incremental") then Some BackupRunTypeIncremental else None.

Definition new_run (name uid backup : string) (t : BackupRunType) (ttl : option Z) : BackupRun :=
  {| brn_Name := name; brn_Owner := Some uid; brn_BackupRef := backup; brn_Type := t; brn_TTL := ttl;
     brn_Status := {| brs_Phase := BackupRunPhaseNone; brs_StartTime := None; brs_CompletionTime := None; brs_Location := "";
                      brs_JobName := ""; brs_Available := None |} |}.

(** The two times of BackupStatus. *)
Record BackupTimes := { bt_LastFull : option Z; bt_LastIncremental : option Z }.

(** [last.After(...)]: the later of the two times. *)
Definition later (t : Z) (last : option Z) : option Z :=
  match last with Some l => if bool_decide (l < t) then Some t else Some l | None => Some t end.

Section backup.
Context {W : Type} (api : BackupAPI W).

(** [uid], [name]: of the Backup. *)
Definition ensureBackupRun (uid name : string) (bj : BackupJob) (t : BackupRunType) (ttl : option Z) : M W error :=
  let jobName := job_Name (bj_Job bj) in
  r ← ba_GetRun api jobName;
  match r with
  | inr e => mret (Some e)
  | inl (Some run) =>
      if bool_decide (brs_JobName (brn_Status run) = "") && bool_decide (brn_Owner run = Some uid)
      then ba_PatchRunJob api run jobName else mret None
  | inl None =>
      now ← ba_now api;
      if match bj_CompletionTime bj, ttl with Some c, Some d => bool_decide (d ≤ now - c) | _, _ => false end then mret None
      else
        let run := new_run jobName uid name t ttl in
        c ← ba_CreateRun api run;
        match c with
        | inr e => mret (Some e)
        | inl true => mret None
        | inl false => ba_PatchRunJob api run jobName
        end
  end.

Definition backupTimes_step (t : BackupRunType) (bj : BackupJob) (times : BackupTimes) : BackupTimes :=
  match bj_CompletionTime bj with
  | Some c =>
      if bool_decide (job_Succeeded (bj_Job bj) = 0) then times
      else if decide (t = BackupRunTypeIncremental)
           then {| bt_LastFull := bt_LastFull times; bt_LastIncremental := later c (bt_LastIncremental times) |}
           else {| bt_LastFull := later c (bt_LastFull times); bt_LastIncremental := bt_LastIncremental times |}
  | None => times
  end.

Fixpoint recordRuns (uid name : string) (ttl : option Z) (jobs : list BackupJob) (times : BackupTimes) : M W (BackupTimes * error) :=
  match jobs with
  | [] => mret (times, None)
  | bj :: jobs =>
      match physicalRunType (bj_Type bj) with
      | None => recordRuns uid name ttl jobs times
      | Some t =>
          e ← ensureBackupRun uid name bj t ttl;
          match e with
          | Some err => mret (times, Some err)
          | None => recordRuns uid name ttl jobs (backupTimes_step t bj times)
          end
      end
  end.

(** [parsed]: [time.ParseDuration(backup.Spec.BackupRunTTL)]. *)
Definition recordPhysicalRuns (uid name : string) (parsed : option Z) (times : BackupTimes) : M W (BackupTimes * error) :=
  l ← ba_ListJobs api;
  match l with
  | inr e => mret (times, Some e)
  | inl jobs =>
      let ttl := d ← parsed; if bool_decide (0 < d) then Some d else None in
      recordRuns uid name ttl jobs times
  end.
End backup.
