(* ===== verification/BackupRunTheorems.v ===== *)
(** * BackupRuns: theorems *)

From Stdlib Require Import Ascii.
From S2P Require Import Prelude GoStrings GoStrconv Trace Replication Pgbackrest Restore BackupRun.

Open Scope Z_scope.

(** ** Traces *)

Inductive run_event :=
  | EvRunNow (t : Z)
  | EvGetRun (r : result (option BackupRun))
  | EvUpdateRun (run : BackupRun) (r : result BackupRun)
  | EvDeleteRun (run : BackupRun) (e : error)
  | EvRunJob (name : string) (r : result (option Job))
  | EvRunBackup (name : string) (r : result (option Backup))
  | EvJobPods (name : string) (r : result (list (list ContainerStatus))).

Definition logged_runs {W} (api : BackupRunAPI W) : BackupRunAPI (W * list run_event) := {|
  bra_now := logged EvRunNow (bra_now api);
  bra_GetRun := λ n, logged EvGetRun (bra_GetRun api n);
  bra_UpdateStatus := λ r, logged (EvUpdateRun r) (bra_UpdateStatus api r);
  bra_DeleteRun := λ r, logged (EvDeleteRun r) (bra_DeleteRun api r);
  bra_GetJob := λ n, logged (EvRunJob n) (bra_GetJob api n);
  bra_GetBackup := λ n, logged (EvRunBackup n) (bra_GetBackup api n);
  bra_ListJobPods := λ n, logged (EvJobPods n) (bra_ListJobPods api n) |}.

Section trace.
Context {W : Type} (api : BackupRunAPI W).

(** An update answers with what was written (spec and status). *)
Definition update_echoes : Prop := ∀ run w r w', bra_UpdateStatus api run w = (inl r, w') →
  brn_Name r = brn_Name run ∧ brn_Type r = brn_Type run ∧ brn_BackupRef r = brn_BackupRef run ∧ brn_TTL r = brn_TTL run ∧
  brn_Status r = brn_Status run.

(** A terminated pgbackrest container of one of the pods, that succeeded, reported
    the label of the backup, and [location] is where the Backup's repository has it. *)
Definition reported (backup : Backup) (pods : list (list ContainerStatus)) (location : string) : Prop :=
  ∃ s3 pod cs line label, bk_S3 backup = Some s3 ∧ pod ∈ pods ∧ cs ∈ pod ∧ cst_Name cs = pgbackrestContainerName ∧
    cst_ExitCode cs = Some 0 ∧ line ∈ Lines (cst_Message cs) ∧ CutPrefix (TrimSpace line) terminationLabelPrefix = Some label ∧
    pgbackrestLabelPattern label = true ∧
    location = "s3://" +:+ s3_Bucket s3 +:+ path_Join [repoPath backup s3; "backup"; pgbackrestStanza; label].

Lemma physicalBackupLocation_reported backup pods :
  physicalBackupLocation backup pods ≠ "" → reported backup pods (physicalBackupLocation backup pods).
Proof.
  unfold physicalBackupLocation. destruct (bk_S3 backup) as [s3|] eqn:Es; [|done].
  destruct (head _) as [label|] eqn:Eh; [|done]. intros _.
  apply head_Some_elem_of, list_elem_of_omap in Eh as (cs & Hcs & Hl). apply list_elem_of_In, in_concat in Hcs as (pod & Hp & Hc).
  unfold reportedLabel in Hl. destruct (_ && _) eqn:Eg; [|done]. apply andb_true_iff in Eg as [Hn%bool_decide_eq_true Hx%bool_decide_eq_true].
  apply head_Some_elem_of, list_elem_of_filter in Hl as [Hpat (line & Hin & Hcut)%list_elem_of_omap].
  exists s3, pod, cs, line, label. rewrite !list_elem_of_In. split_and!; try done. by apply list_elem_of_In.
Qed.

(** The location is the one read or, for a physical run without one, comes from a
    successful pod of the run's successful Job. *)
Definition located (run0 run : BackupRun) (tr : list run_event) : Prop :=
  brs_Location (brn_Status run) = brs_Location (brn_Status run0) ∨
  (isPhysicalRun run0 = true ∧ brs_Location (brn_Status run0) = "" ∧ ∃ job backup pods,
    EvRunJob (brs_JobName (brn_Status run0)) (inl (Some job)) ∈ tr ∧ job_Succeeded job ≠ 0 ∧
    EvRunBackup (brn_BackupRef run0) (inl (Some backup)) ∈ tr ∧ EvJobPods (job_Name job) (inl pods) ∈ tr ∧
    reported backup pods (brs_Location (brn_Status run))).

(** How a pass may change a run. *)
Definition evolves (run0 run : BackupRun) (tr : list run_event) : Prop :=
  brn_Name run = brn_Name run0 ∧ brn_Type run = brn_Type run0 ∧ brn_BackupRef run = brn_BackupRef run0 ∧ brn_TTL run = brn_TTL run0 ∧
  brs_JobName (brn_Status run) = brs_JobName (brn_Status run0) ∧
  (runFinished run0 = true → brs_Phase (brn_Status run) = brs_Phase (brn_Status run0) ∧
    brs_CompletionTime (brn_Status run) = brs_CompletionTime (brn_Status run0)) ∧
  located run0 run tr.

Lemma evolves_refl run tr : evolves run run tr.
Proof. split_and!; try done. by left. Qed.

Lemma evolves_mono run0 run tr tr' : (∀ ev, ev ∈ tr → ev ∈ tr') → evolves run0 run tr → evolves run0 run tr'.
Proof.
  intros Ht (? & ? & ? & ? & ? & ? & Hl). split_and!; try done. destruct Hl as [?|(? & ? & job & b & pods & ? & ? & ? & ? & ?)]; [by left|right].
  split_and!; try done. exists job, b, pods. auto 10.
Qed.

Lemma evolves_echo run0 run r tr :
  brn_Name r = brn_Name run ∧ brn_Type r = brn_Type run ∧ brn_BackupRef r = brn_BackupRef run ∧ brn_TTL r = brn_TTL run ∧ brn_Status r = brn_Status run →
  evolves run0 run tr → evolves run0 r tr.
Proof. intros (Hn & Ht & Hb & HT & Hs). unfold evolves, located. by rewrite Hn, Ht, Hb, HT, Hs. Qed.

Lemma evolves_trans run0 run1 run2 tr1 tr2 : evolves run0 run1 tr1 → evolves run1 run2 tr2 → evolves run0 run2 (tr1 ++ tr2).
Proof.
  intros (Hn & Ht & Hb & HT & Hj & Hf & Hl) (Hn' & Ht' & Hb' & HT' & Hj' & Hf' & Hl'). split_and!; try congruence.
  - intros Hfin. destruct (Hf Hfin) as [Hp Hc]. destruct Hf' as [-> ->]; [|done]. unfold runFinished in *. by rewrite Hp.
  - unfold located in *. assert (Hphys : isPhysicalRun run1 = isPhysicalRun run0) by (unfold isPhysicalRun; by rewrite Ht).
    rewrite Hphys, Hj, Hb in Hl'. destruct Hl' as [->|(Hp & He & job & b & pods & ? & ? & ? & ? & ?)].
    + destruct Hl as [?|(? & ? & job & b & pods & ? & ? & ? & ? & ?)]; [by left|right]. split_and!; try done.
      exists job, b, pods. split_and!; try done; apply elem_of_app; by left.
    + right. split_and!; [done| |exists job, b, pods; split_and!; try done; apply elem_of_app; by right].
      destruct Hl as [Hl|(_ & ? & _)]; congruence.
Qed.

(** The writes of a part of a pass, which began with [run0], and the run it ends with. *)
Definition part_ok (run0 run : BackupRun) (new : list run_event) : Prop :=
  evolves run0 run new ∧ (∀ run r, EvUpdateRun run r ∈ new → evolves run0 run new) ∧ (∀ run e, EvDeleteRun run e ∉ new).

Lemma part_quiet run new : (∀ run r, EvUpdateRun run r ∉ new) → (∀ run e, EvDeleteRun run e ∉ new) → part_ok run run new.
Proof. intros Hu Hd. split; [apply evolves_refl|]. split; [|done]. by intros ? ? ?%Hu. Qed.

Lemma part_trans run0 run1 run2 tr1 tr2 : part_ok run0 run1 tr1 → part_ok run1 run2 tr2 → part_ok run0 run2 (tr1 ++ tr2).
Proof.
  intros (He & Hu & Hd) (He' & Hu' & Hd'). split; [by eapply evolves_trans|]. split.
  - intros run r [Hr|Hr]%elem_of_app; [|eapply evolves_trans; [done|by eapply Hu']].
    eapply evolves_mono; [|by eapply Hu]. intros. apply elem_of_app. by left.
  - intros run e [Hr|Hr]%elem_of_app; [by eapply Hd|by eapply Hd'].
Qed.

Lemma part_same run0 run1 run2 new : part_ok run0 run1 new → evolves run1 run2 [] → part_ok run0 run2 new.
Proof. intros Hp He. rewrite <-(app_nil_r new). eapply part_trans; [done|]. split; [done|]. split; by intros ? ? ?%elem_of_nil. Qed.

#[local] Notation emits := (emits (λ (_ : run_event) (_ _ : W), True)).

Lemma emits_call {A} (ev : A → run_event) (m : M W A) (P : A → Prop) :
  (∀ w x w', m w = (x, w') → P x) → emits (logged ev m) (λ x new, new = [ev x] ∧ P x).
Proof.
  intros HP w. exists [ev (m w.1).1]. unfold logged. destruct (m w.1) as [x w'] eqn:E. split_and!; try done.
  - econstructor; [done|constructor].
  - by eapply HP.
Qed.

Lemma emits_read {A} (ev : A → run_event) (m : M W A) : emits (logged ev m) (λ x new, new = [ev x]).
Proof. by apply emits_logged. Qed.

(** A status write of [run1] by a part that began with [run0]. *)
Lemma emits_update run0 run1 : update_echoes → evolves run0 run1 [] →
  emits (bra_UpdateStatus (logged_runs api) run1) (λ r new, new = [EvUpdateRun run1 r] ∧
    match r with inl r => part_ok run0 r new ∧ brn_Status r = brn_Status run1 | inr _ => part_ok run0 run1 new end).
Proof.
  intros Hecho He.
  assert (Hp : ∀ r, evolves run0 run1 [EvUpdateRun run1 r]) by (intros r; eapply evolves_mono; [|done]; by intros ? ?%elem_of_nil).
  eapply emits_conseq.
  - apply (emits_call _ _ (λ r, match r with inl r => brn_Name r = brn_Name run1 ∧ brn_Type r = brn_Type run1 ∧ brn_BackupRef r = brn_BackupRef run1 ∧
      brn_TTL r = brn_TTL run1 ∧ brn_Status r = brn_Status run1 | inr _ => True end)).
    intros w [r|e] w' Hr; [by eapply Hecho|done].
  - intros r new [-> Hr]. split; [done|].
    assert (Hw : (∀ run r0, EvUpdateRun run r0 ∈ [EvUpdateRun run1 r] → evolves run0 run [EvUpdateRun run1 r]) ∧
      (∀ run e, EvDeleteRun run e ∉ [EvUpdateRun run1 r])).
    { split; [|by intros ? ? ?%list_elem_of_singleton]. intros run r0 Hin%list_elem_of_singleton. injection Hin as -> ->. done. }
    destruct r as [r|e]; [|by split]. split; [|apply Hr]. split; [|done]. by eapply evolves_echo.
Qed.

(** ** The parts of a pass *)

Definition no_writes (new : list run_event) : Prop :=
  Forall (λ ev, match ev with EvUpdateRun _ _ | EvDeleteRun _ _ => False | _ => True end) new.

Lemma no_writes_part run new : no_writes new → part_ok run run new.
Proof. unfold no_writes. rewrite Forall_forall. intros Hn. apply part_quiet; intros run' x Hin; exact (Hn _ Hin). Qed.

Lemma no_writes_evolves run0 run new : no_writes new → evolves run0 run new → part_ok run0 run new.
Proof. unfold no_writes. rewrite Forall_forall. intros Hn He. split; [done|]. split; [intros run' r Hin; by destruct (Hn _ Hin)|intros run' r Hin; exact (Hn _ Hin)]. Qed.

Lemma syncFromJob_finished run job :
  runFinished run = true → runFinished (set_run_status (brs_set_start (job_StartTime job) (brn_Status run)) run) = true.
Proof. done. Qed.

Lemma syncFromJob_emits run job :
  emits (BackupRun_syncFromJob (logged_runs api) run job) (λ '(run', _) new, no_writes new ∧ evolves run run' []).
Proof.
  unfold BackupRun_syncFromJob. cbn zeta. set (started := _ && _).
  set (run1 := if started then _ else run).
  assert (He : evolves run run1 [] ∧ runFinished run1 = runFinished run).
  { subst run1. destruct started; [|split; [apply evolves_refl|done]]. split; [|done]. split_and!; try done. by left. }
  destruct He as [He Hfin]. clearbody run1. rewrite Hfin.
  assert (Hstep : ∀ run2 (b : bool) new, no_writes new → runFinished run = false → brn_Name run2 = brn_Name run1 → brn_Type run2 = brn_Type run1 → brn_BackupRef run2 = brn_BackupRef run1 →
    brn_TTL run2 = brn_TTL run1 → brs_JobName (brn_Status run2) = brs_JobName (brn_Status run1) →
    brs_Location (brn_Status run2) = brs_Location (brn_Status run1) → no_writes new ∧ evolves run run2 []).
  { intros run2 b new Hn Hr HN Ht Hb HT Hj Hl. split; [done|]. destruct He as (? & ? & ? & ? & ? & _ & He). split_and!; try congruence.
    unfold located in *. by rewrite Hl. }
  destruct (runFinished run) eqn:Hr; [by apply emits_ret; split; [constructor|]|].
  case_bool_decide.
  { eapply emits_bind; [apply emits_read|]. intros now new ->. apply emits_ret. rewrite app_nil_r. apply (Hstep _ true); try done. by repeat constructor. }
  case_bool_decide.
  { eapply emits_bind; [apply emits_read|]. intros now new ->. apply emits_ret. rewrite app_nil_r. apply (Hstep _ true); try done. by repeat constructor. }
  case_match; apply emits_ret; [by apply (Hstep _ true); [constructor|..]|by split; [constructor|]].
Qed.

Lemma recordLocation_emits run job :
  emits (recordLocation (logged_runs api) run job) (λ '(run', _) new,
    no_writes new ∧ brs_CompletionTime (brn_Status run') = brs_CompletionTime (brn_Status run) ∧
    ∀ pre, EvRunJob (brs_JobName (brn_Status run)) (inl (Some job)) ∈ pre → evolves run run' (pre ++ new)).
Proof.
  unfold recordLocation.
  assert (Hsame : ∀ new, no_writes new → no_writes new ∧ brs_CompletionTime (brn_Status run) = brs_CompletionTime (brn_Status run) ∧
    ∀ pre, EvRunJob (brs_JobName (brn_Status run)) (inl (Some job)) ∈ pre → evolves run run (pre ++ new)).
  { intros new Hn. split_and!; [done|done|]. intros. apply evolves_refl. }
  destruct (negb _ || _ || _) eqn:Hc; [apply emits_ret; apply Hsame; constructor|].
  apply orb_false_elim in Hc as [Hc Hp%negb_false_iff]. apply orb_false_elim in Hc as [Hl%negb_false_iff%bool_decide_eq_true Hs%bool_decide_eq_false].
  eapply emits_bind; [apply emits_read|]. intros b new ->.
  destruct b as [[backup|]|e]; [|apply emits_ret; rewrite app_nil_r; apply Hsame; by repeat constructor..].
  eapply emits_bind; [apply emits_read|]. intros pods new ->.
  destruct pods as [pods|e]; apply emits_ret; rewrite app_nil_r; [|apply Hsame; by repeat constructor].
  split_and!; [by repeat constructor|done|]. intros pre Hpre. split_and!; try done.
  destruct (decide (physicalBackupLocation backup pods = "")) as [He|Hne]; [left; by rewrite Hl|right]. split_and!; try done.
  apply physicalBackupLocation_reported in Hne. exists job, backup, pods. split_and!; try done; apply elem_of_app; auto; right; set_solver.
Qed.

Lemma recordLate_emits run : update_echoes →
  emits (recordLateLocation (logged_runs api) run) (λ '(run', _, e) new, part_ok run run' new ∧
    brs_CompletionTime (brn_Status run') = brs_CompletionTime (brn_Status run)).
Proof.
  intros Hecho. unfold recordLateLocation.
  remember (brs_CompletionTime (brn_Status run)) as c eqn:Hc.
  assert (Hn : ∀ new (b : bool) (e : error), no_writes new → part_ok run run new ∧ brs_CompletionTime (brn_Status run) = c)
    by (intros; split; [by apply no_writes_part|done]).
  destruct c as [completion|]; [|apply emits_ret; by apply (Hn [] false None); constructor].
  destruct (negb _ || _ || _ || _); [apply emits_ret; by apply (Hn [] false None); constructor|].
  eapply emits_bind; [apply emits_read|]. intros j new ->.
  destruct j as [[job|]|e]; [|apply emits_ret; rewrite app_nil_r; apply (Hn _ false None); by repeat constructor..].
  eapply emits_bind; [apply recordLocation_emits|]. intros [run1 changed] new1 (Hn1 & Hc1 & He1).
  specialize (He1 [EvRunJob (brs_JobName (brn_Status run)) (inl (Some job))]).
  assert (Hp1 : part_ok run run1 ([EvRunJob (brs_JobName (brn_Status run)) (inl (Some job))] ++ new1)).
  { apply no_writes_evolves; [by constructor|]. apply He1. by left. }
  destruct changed.
  - eapply emits_bind; [by apply (emits_update run1 run1); [|apply evolves_refl]|]. intros u new2 [-> Hu].
    apply emits_ret. rewrite app_nil_r, app_assoc.
    destruct u as [run2|e]; [destruct Hu as [Hu Hs]; rewrite Hs|]; (split; [by eapply part_trans|congruence]).
  - eapply emits_bind; [apply emits_read|]. intros now new2 ->. apply emits_ret. rewrite app_nil_r, app_assoc.
    split; [|congruence]. eapply part_trans; [done|]. apply no_writes_part. by repeat constructor.
Qed.

Lemma followJob_emits run : update_echoes →
  emits (followJob (logged_runs api) run) (λ '(run', e) new, part_ok run run' new).
Proof.
  intros Hecho. unfold followJob. case_bool_decide; [apply emits_ret, no_writes_part; constructor|].
  eapply emits_bind; [apply emits_read|]. intros j new ->.
  destruct j as [[job|]|e]; [|apply emits_ret; rewrite app_nil_r; apply no_writes_part; by repeat constructor..].
  eapply emits_bind; [apply syncFromJob_emits|]. intros [run1 updated] new1 [Hn1 He1].
  eapply emits_bind; [apply recordLocation_emits|]. intros [run2 loc] new2 (Hn2 & _ & He2).
  set (ev := EvRunJob (brs_JobName (brn_Status run)) (inl (Some job))).
  assert (Hp : part_ok run run2 (([ev] ++ new1) ++ new2)).
  { apply no_writes_evolves; [apply Forall_app; split; [by constructor|done]|].
    assert (Hj : brs_JobName (brn_Status run1) = brs_JobName (brn_Status run)) by (by destruct He1 as (_ & _ & _ & _ & ? & _)).
    rewrite <-app_assoc. rewrite Hj in He2. eapply evolves_mono; [|eapply (evolves_trans run run1 run2 [] ([ev] ++ new2)); [done|]].
    - intros ev'. clear. set_solver.
    - apply He2. by left. }
  destruct (updated || loc).
  - eapply emits_bind; [by apply (emits_update run2 run2); [|apply evolves_refl]|]. intros u new3 [-> Hu].
    apply emits_ret. rewrite app_nil_r, !app_assoc. destruct u as [run3|e]; [destruct Hu as [Hu _]|]; by eapply part_trans.
  - apply emits_ret. by rewrite app_nil_r, !app_assoc.
Qed.

(** What a whole pass may do, given its trace. *)
Definition pass_ok (tr : list run_event) : Prop :=
  (∀ run r, EvUpdateRun run r ∈ tr → ∃ run0, EvGetRun (inl (Some run0)) ∈ tr ∧ evolves run0 run tr) ∧
  (∀ run e, EvDeleteRun run e ∈ tr → ∃ run0 completion now, EvGetRun (inl (Some run0)) ∈ tr ∧ brn_Name run = brn_Name run0 ∧
    brs_CompletionTime (brn_Status run0) = Some completion ∧ EvRunNow now ∈ tr ∧ completion + ttlFor run0 ≤ now).

Lemma pass_ok_part run0 run pre new : part_ok run0 run (pre ++ new) → EvGetRun (inl (Some run0)) ∈ pre → pass_ok (pre ++ new).
Proof.
  intros (_ & Hu & Hd) Hpre. split; [|intros r e Hin; by destruct (Hd _ _ Hin)].
  intros r x Hin. exists run0. split; [apply elem_of_app; by left|by eapply Hu].
Qed.

Lemma reconcile_emits name : update_echoes → emits (BackupRunReconcile (logged_runs api) name) (λ _ new, pass_ok new).
Proof.
  intros Hecho. unfold BackupRunReconcile.
  assert (Hempty : ∀ r, pass_ok [EvGetRun r]) by (intros r; split; by intros ? ? ?%list_elem_of_singleton).
  eapply emits_bind; [apply emits_read|]. intros g new ->.
  destruct g as [[run|]|e]; [|apply emits_ret; rewrite app_nil_r; apply Hempty..].
  assert (Hpass : ∀ run' new, part_ok run run' new → pass_ok ([EvGetRun (inl (Some run))] ++ new)).
  { intros run' new Hp. apply (pass_ok_part run run'); [|by left]. apply (part_trans run run run'); [|done].
    apply no_writes_part. by repeat constructor. }
  eapply emits_bind; [by apply recordLate_emits|]. intros [[run1 requeue] e] new1 [Hp1 Hcompl].
  destruct (_ || _); [apply emits_ret; rewrite app_nil_r; by apply (Hpass run1)|].
  destruct (brs_CompletionTime (brn_Status run1)) as [completion|] eqn:Hc.
  - eapply emits_bind; [apply emits_read|]. intros now new2 ->. cbn zeta.
    assert (Hp2 : part_ok run run1 (new1 ++ [EvRunNow now])) by (eapply part_trans; [done|]; apply no_writes_part; by repeat constructor).
    case_bool_decide as Hage.
    + eapply emits_bind; [apply emits_read|]. intros de new3 ->. apply emits_ret. rewrite app_nil_r, !app_assoc.
      destruct (Hpass run1 _ Hp2) as [Hu Hd]. rewrite app_assoc in Hu, Hd. split.
      * intros r x [Hin|Hin%list_elem_of_singleton]%elem_of_app; [|done]. destruct (Hu _ _ Hin) as (r0 & ? & He). exists r0.
        split; [apply elem_of_app; by left|]. eapply evolves_mono; [|done]. intros. apply elem_of_app. by left.
      * intros r x [Hin|Hin%list_elem_of_singleton]%elem_of_app.
        -- destruct (Hd _ _ Hin) as (r0 & c & n & ? & ? & ? & ? & ?). exists r0, c, n. split_and!; try done; apply elem_of_app; by left.
        -- injection Hin as -> ->. destruct Hp2 as [(HN & _ & _ & HT & _) _]. exists run, completion, now.
           unfold ttlFor in *. rewrite HT in Hage. split_and!; [by left|done|congruence| |lia]. rewrite !elem_of_app. left. right. by left.
    + apply emits_ret. rewrite app_nil_r. by apply (Hpass run1).
  - eapply emits_bind; [by apply followJob_emits|]. intros [run2 e2] new2 Hp2.
    assert (Hp : part_ok run run2 (new1 ++ new2)) by (by eapply part_trans).
    destruct e2; [apply emits_ret; rewrite app_nil_r; by apply (Hpass run2)|].
    destruct (decide (brs_Phase (brn_Status run2) = BackupRunPhaseNone)) as [Hnone|].
    + eapply emits_bind.
      { apply (emits_update run2 (set_run_status (brs_pending (brn_Status run2)) run2)); [done|].
        split_and!; try done; [|by left]. unfold runFinished. rewrite Hnone. by rewrite bool_decide_eq_false_2 by (by intros [|]). }
      intros u new3 [-> Hu]. assert (∃ run3, part_ok run run3 (new1 ++ new2 ++ [EvUpdateRun (set_run_status (brs_pending (brn_Status run2)) run2) u])) as [run3 Hp3].
      { rewrite app_assoc. destruct u as [run3|err]; [destruct Hu as [Hu _]|]; eexists; (eapply part_trans; [done|exact Hu]). }
      destruct u; [destruct (_ || _)|]; apply emits_ret; rewrite app_nil_r; by apply (Hpass run3).
    + eapply (emits_bind _ _ _ (λ u new, u = inl run2 ∧ new = [])); [by apply emits_ret|]. intros u new3 [-> ->].
      destruct (_ || _); apply emits_ret; rewrite !app_nil_r; by apply (Hpass run2).
Qed.

End trace.

(** ** Properties *)

(** C35: one pass of the BackupRun reconciler: every status written keeps the phase and
    completion time of a finished run, and its location is the one read, or, for a
    physical run without one, where the run's Backup has the label that a pgbackrest
    container with exit code 0 reported, in a pod of the run's Job, which has
    succeeded; a run is deleted only when it is the one that was read and the TTL has
    passed since it completed. *)
Theorem backuprun_pass_safe {W} (api : BackupRunAPI W) name res w w' tr :
  update_echoes api → BackupRunReconcile (logged_runs api) name (w, []) = (res, (w', tr)) →
  (∀ run r, EvUpdateRun run r ∈ tr → ∃ run0, EvGetRun (inl (Some run0)) ∈ tr ∧ evolves run0 run tr) ∧
  (∀ run e, EvDeleteRun run e ∈ tr → ∃ run0 completion now, EvGetRun (inl (Some run0)) ∈ tr ∧ brn_Name run = brn_Name run0 ∧
    brs_CompletionTime (brn_Status run0) = Some completion ∧ EvRunNow now ∈ tr ∧ completion + ttlFor run0 ≤ now).
Proof. intros Hecho Hrun. by destruct (emits_run _ _ _ _ _ _ _ (reconcile_emits api name Hecho) Hrun). Qed.

(** A Job that succeeded, whose pod reported its label. *)
Module BackupRunDemo.
Definition job : Job := {| job_Name := "b-full-1"; job_OwnerUID := "cj"; job_Deleting := false; job_StartTime := Some 1; job_Active := 0;
  job_Succeeded := 1; job_Failed := 0; job_Conditions := [] |}.
Definition run (phase : BackupRunPhase) : BackupRun := set_run_status
  {| brs_Phase := phase; brs_StartTime := None; brs_CompletionTime := None; brs_Location := ""; brs_JobName := "b-full-1";
     brs_Available := None |} (new_run "b-full-1" "u" "b" BackupRunTypeFull None).
Definition backup : Backup := {|
  bk_Name := "b"; bk_Namespace := "ns"; bk_Created := 0; bk_Deleting := false; bk_Type := BackupTypePhysical;
  bk_ClusterRef := Some "main"; bk_Physical := None;
  bk_Retention := {| ret_Disabled := None; ret_KeepLast := None; ret_KeepDays := None |};
  bk_DestinationType := DestinationTypeS3;
  bk_S3 := Some {| s3_Bucket := "bucket"; s3_Prefix := ""; s3_Region := "eu"; s3_Endpoint := "" |};
  bk_EncryptionKey := None |}.
Definition api (job : Job) : BackupRunAPI unit := {|
  bra_now := λ w, (100, w); bra_GetRun := λ _ w, (inl (Some (run BackupRunPhaseRunning)), w); bra_UpdateStatus := λ r w, (inl r, w);
  bra_DeleteRun := λ _ w, (None, w); bra_GetJob := λ _ w, (inl (Some job), w); bra_GetBackup := λ _ w, (inl (Some backup), w);
  bra_ListJobPods := λ _ w, (inl [[{| cst_Name := "pgbackrest"; cst_ExitCode := Some 0; cst_Message := "label=20250101-000000F" |}]], w) |}.
Definition pass (job : Job) := BackupRunReconcile (logged_runs (api job)) "b-full-1" ((), []).
End BackupRunDemo.

Lemma backuprun_pass_safe_witness :
  let tr := (BackupRunDemo.pass BackupRunDemo.job).2.2 in
  (∃ run r, EvUpdateRun run r ∈ tr ∧ brs_Location (brn_Status run) = "s3://bucket/ns/main/b/backup/main/20250101-000000F") ∧
  ∀ run r, EvUpdateRun run r ∈ tr → ∃ run0, EvGetRun (inl (Some run0)) ∈ tr ∧ evolves run0 run tr.
Proof.
  intros tr. split.
  - eexists _, _. split; [vm_compute; do 5 right; left|reflexivity].
  - refine (proj1 (backuprun_pass_safe (BackupRunDemo.api BackupRunDemo.job) "b-full-1" _ () _ tr _ _)).
    + intros run w r w' [= <- <-]. by split_and!.
    + exact (run_split (BackupRunDemo.pass BackupRunDemo.job)).
Defined.

(** ** The times of the latest backups *)

(** [c] is the completion time of a successful Job of type [t]. *)
Definition completed_at (t : BackupRunType) (bj : BackupJob) (c : Z) : Prop :=
  physicalRunType (bj_Type bj) = Some t ∧ job_Succeeded (bj_Job bj) ≠ 0 ∧ bj_CompletionTime bj = Some c.

(** The latest time of a backup of type [t]. *)
Definition last_of (t : BackupRunType) (times : BackupTimes) : option Z :=
  if decide (t = BackupRunTypeIncremental) then bt_LastIncremental times else bt_LastFull times.

Lemma later_spec c last : ∃ m, later c last = Some m ∧ c ≤ m ∧ (m = c ∨ last = Some m) ∧ ∀ l, last = Some l → l ≤ m.
Proof.
  unfold later. destruct last as [l|]; [case_bool_decide|]; eexists; (split; [done|]); split_and!; try lia; auto;
    intros ? [= <-]; lia.
Qed.

(** Nothing is lost on the way, and nothing is made up. *)
Definition latest_ok (t : BackupRunType) (jobs : list BackupJob) (times times' : BackupTimes) : Prop :=
  (∀ c, last_of t times = Some c → ∃ m, last_of t times' = Some m ∧ c ≤ m) ∧
  (∀ bj c, bj ∈ jobs → completed_at t bj c → ∃ m, last_of t times' = Some m ∧ c ≤ m) ∧
  (last_of t times' = last_of t times ∨ ∃ bj c, bj ∈ jobs ∧ completed_at t bj c ∧ last_of t times' = Some c).

Lemma backupTimes_step_spec t t0 bj times : t = BackupRunTypeFull ∨ t = BackupRunTypeIncremental →
  physicalRunType (bj_Type bj) = Some t0 → latest_ok t [bj] times (backupTimes_step t0 bj times).
Proof.
  intros Ht Ht0.
  assert (H0 : t0 = BackupRunTypeFull ∨ t0 = BackupRunTypeIncremental) by (unfold physicalRunType in Ht0; repeat case_decide; naive_solver).
  assert (Hskip : (∀ c, ¬ completed_at t bj c) → ∀ times', last_of t times' = last_of t times → latest_ok t [bj] times times').
  { intros Hno times' Heq. split_and!; [|by intros b c ->%list_elem_of_singleton ?%Hno|by left]. intros c Hc. exists c. rewrite Heq. split; [done|lia]. }
  unfold backupTimes_step. destruct (bj_CompletionTime bj) as [c|] eqn:Ec; [|apply Hskip; [|done]; intros c (_ & _ & ?); congruence].
  case_bool_decide as Hs; [apply Hskip; [|done]; by intros c' (_ & ? & _)|].
  destruct (decide (t = t0)) as [<-|Hne].
  2: { apply Hskip; [intros c' (? & _); congruence|]. unfold last_of. repeat case_decide; simpl; naive_solver. }
  destruct (later_spec c (last_of t times)) as (m & Hm & Hle & Hor & Hmax).
  assert (Hlast : last_of t (if decide (t = BackupRunTypeIncremental)
     then {| bt_LastFull := bt_LastFull times; bt_LastIncremental := later c (bt_LastIncremental times) |}
     else {| bt_LastFull := later c (bt_LastFull times); bt_LastIncremental := bt_LastIncremental times |}) = Some m).
  { rewrite <-Hm. unfold last_of. by repeat case_decide. }
  split_and!.
  - intros l Hl. exists m. split; [done|]. by apply Hmax.
  - intros b c' ->%list_elem_of_singleton (_ & _ & Hc'). exists m. split; [done|]. assert (c' = c) as -> by congruence. done.
  - destruct Hor as [->|?]; [right|left; congruence]. exists bj, c. split_and!; [by left| |done]. by split_and!.
Qed.

Lemma latest_trans t jobs1 jobs2 t1 t2 t3 : latest_ok t jobs1 t1 t2 → latest_ok t jobs2 t2 t3 → latest_ok t (jobs1 ++ jobs2) t1 t3.
Proof.
  intros (Hk & Ha & Ho) (Hk' & Ha' & Ho'). split_and!.
  - intros c (m & Hm & ?)%Hk. destruct (Hk' m Hm) as (m' & ? & ?). exists m'. split; [done|lia].
  - intros b c [Hb|Hb]%elem_of_app Hc; [|by apply (Ha' b c)]. destruct (Ha b c Hb Hc) as (m & Hm & ?).
    destruct (Hk' m Hm) as (m' & ? & ?). exists m'. split; [done|lia].
  - destruct Ho' as [->|(b & c & ? & ? & ?)]; [|right; exists b, c; rewrite elem_of_app; auto].
    destruct Ho as [?|(b & c & ? & ? & ?)]; [by left|right; exists b, c; rewrite elem_of_app; auto].
Qed.

(** Without an error, the times a Backup reports for its latest full and
    incremental backups are the latest completion times of its successful Jobs of that
    type, and of what it reported before. *)
Theorem recordPhysicalRuns_latest {W} (api : BackupAPI W) uid name ttl jobs times times' t w w' :
  t = BackupRunTypeFull ∨ t = BackupRunTypeIncremental →
  recordRuns api uid name ttl jobs times w = ((times', None), w') → latest_ok t jobs times times'.
Proof.
  intros Ht. revert times w. induction jobs as [|bj jobs IH]; intros times w Hr; simpl in Hr.
  { injection Hr as <- _. split_and!; [|by intros ? ? ?%elem_of_nil|by left]. intros c ?. exists c. split; [done|lia]. }
  destruct (physicalRunType (bj_Type bj)) as [t0|] eqn:E.
  - unfold mbind, M_bind in Hr. destruct (ensureBackupRun api uid name bj t0 ttl w) as [[err|] w1]; [done|].
    apply (latest_trans t [bj] jobs times (backupTimes_step t0 bj times)); [by apply backupTimes_step_spec|by eapply IH].
  - apply (latest_trans t [bj] jobs times times); [|by eapply IH].
    split_and!; [|intros b c ->%list_elem_of_singleton (? & _); congruence|by left]. intros c ?. exists c. split; [done|lia].
Qed.

Lemma recordPhysicalRuns_latest_witness :
  let api : BackupAPI unit := {| ba_now := λ w, (0, w); ba_ListJobs := λ w, (inl [], w); ba_GetRun := λ _ w, (inl None, w);
    ba_CreateRun := λ _ w, (inl false, w); ba_PatchRunJob := λ _ _ w, (None, w) |} in
  let bj c := {| bj_Job := BackupRunDemo.job; bj_Type := "full"; bj_CompletionTime := Some c |} in
  let none := {| bt_LastFull := None; bt_LastIncremental := None |} in
  latest_ok BackupRunTypeFull [bj 7; bj 5] none {| bt_LastFull := Some 7; bt_LastIncremental := None |}.
Proof.
  intros api bj none.
  apply (recordPhysicalRuns_latest api "u" "b" None [bj 7; bj 5] none {| bt_LastFull := Some 7; bt_LastIncremental := None |} BackupRunTypeFull tt tt).
  - by left.
  - reflexivity.
Defined.

(** ** What goes wrong *)

(** A Job whose first pod failed and that is retrying (physical backup Jobs have a
    backoff limit of 3 and keep failed pods) makes its BackupRun Failed, for good. *)
Theorem retrying_job_fails_run : let job := {| job_Name := "b-full-1"; job_OwnerUID := "cj"; job_Deleting := false; job_StartTime := Some 1;
    job_Active := 1; job_Succeeded := 0; job_Failed := 1; job_Conditions := [] |} in
  jobConditionTrue job JobFailed = false ∧
  ∃ run r, EvUpdateRun run r ∈ (BackupRunDemo.pass job).2.2 ∧ brs_Phase (brn_Status run) = BackupRunPhaseFailed ∧ runFinished run = true.
Proof.
  intros job. split; [done|]. eexists _, _. split; [vm_compute; do 3 right; left|done].
Qed.

(** A program never makes a bad call while its answers are [ok]. *)
Fixpoint avoids {A} (bad : ∀ R, call R → Prop) (ok : ∀ R, call R → R → Prop) (p : prog A) : Prop :=
  match p with
  | Ret _ => True
  | Do c k => ¬ bad _ c ∧ ∀ a, ok _ c a → avoids bad ok (k a)
  end.

Definition creates_logical_job (R : Type) (c : call R) : Prop := match c with CreateLogicalJob _ _ _ _ => True | _ => False end.
Definition no_location (R : Type) (c : call R) : R → Prop :=
  match c in call R return R → Prop with
  | GetBackupRun _ => λ a, ∀ run, a = inl (Some run) → run_Location run = ""
  | _ => λ _, True
  end.

(** A logical Restore starts only from a BackupRun with a location, and the BackupRun
    reconciler records none for logical runs ([backuprun_pass_safe], [located]). *)
Theorem logical_restore_never_starts r :
  rest_JobName (re_Status r) = "" → avoids creates_logical_job no_location (reconcileLogicalRestore r).
Proof.
  intros Hj. unfold reconcileLogicalRestore. rewrite decide_False by (by intros ?). unfold buildRestoreJob.
  assert (Hfail : ∀ e, avoids creates_logical_job no_location (markFailed r e)).
  { intros e. split; [by intros ?|]. intros now _. split; [by intros ?|]. by intros [|]. }
  split; [by intros ?|]. intros [[run|]|e] Hrun; try apply Hfail. specialize (Hrun run eq_refl).
  split; [by intros ?|]. intros [[b|]|e] _; try apply Hfail.
  split; [by intros ?|]. intros [[c|]|e] _; try apply Hfail.
  destruct (rsp_DatabaseRef (re_Spec r)) as [db|]; [|apply Hfail]. rewrite decide_True by done. apply Hfail.
Qed.

(** A logical Restore that failed before its Job existed starts when it can be built later. *)
Theorem failed_logical_restore_restarts : ∃ r, restoreFinished r = true ∧
  ¬ avoids creates_logical_job (λ _ _ _, True) (reconcileLogicalRestore r).
Proof.
  set (st := {| rest_Phase := RestorePhaseFailed; rest_StartTime := None; rest_CompletionTime := Some 0; rest_JobName := "";
    rest_Available := None |}).
  exists {| re_Name := "r"; re_Namespace := "ns"; re_UID := "u"; re_ResourceVersion := 1; re_Deleting := false; re_Finalizer := false;
    re_Spec := {| rsp_Type := BackupTypeLogical; rsp_BackupRunRef := "run"; rsp_ClusterRef := "main"; rsp_DatabaseRef := Some "db";
      rsp_TargetTime := None |}; re_Status := st |}.
  split; [done|]. intros (_ & H1).
  destruct (H1 (inl (Some {| run_Name := "run"; run_BackupRef := "b"; run_Phase := BackupRunPhaseSucceeded; run_Location := "s3://x" |})) I) as [_ H2].
  destruct (H2 (inl (Some BackupRunDemo.backup)) I) as [_ H3].
  destruct (H3 (inl (Some {| rc_Name := "main"; rc_ResourceVersion := 1; rc_Annotations := ∅; rc_PostgresMajorVersion := None;
    rc_Image := ""; rc_LastRestore := None |})) I) as [_ H4].
  destruct (H4 (inl (Some "db")) I) as [H5 _]. by apply H5.
Qed.
