(* ===== verification/RestoreSystem.v ===== *)
(** * The system around physical restores

    One Cluster, its physical Restores, their Jobs, the StatefulSet and its pods as a
    transition system. A pass of the Restore controller ([RestoreReconcile]; the
    controller runs one pass at a time) is interleaved, between any two of its API
    calls, with everything else: users, the Cluster controller, the StatefulSet and
    Job controllers, the garbage collector. Any call may fail, with or without its
    effect.

    Reads answer with the current state; a reconcile of the Cluster controller that
    reads the annotations and scales the StatefulSet is one step. *)

From Stdlib Require Import Ascii.
From S2P Require Import Prelude GoStrings GoStrconv Replication Pgbackrest Restore.

Open Scope Z_scope.

(** [w_running]: the names of the Jobs with a running pod, which may write the data
    volume. [w_sts]: spec.replicas of the StatefulSet; [w_pods]: PostgreSQL pods.
    [w_dirty]: a Job began to write the volume, and since then no Job completed and
    nobody declared the volume usable (by removing restore-interrupted). *)
Record World := {
  w_restores : gmap string Restore;
  w_cluster : option RestoreCluster;
  w_runs : gmap string RunRef;
  w_backups : gmap string Backup;
  w_jobs : gmap string Job;
  w_running : gset string;
  w_sts : option Z;
  w_pods : nat;
  w_volume : bool;
  w_dirty : bool;
  w_uids : gset string }.

Definition w_set_restores (f : gmap string Restore → gmap string Restore) (w : World) : World :=
  {| w_restores := f (w_restores w); w_cluster := w_cluster w; w_runs := w_runs w; w_backups := w_backups w; w_jobs := w_jobs w;
     w_running := w_running w; w_sts := w_sts w; w_pods := w_pods w; w_volume := w_volume w; w_dirty := w_dirty w;
     w_uids := w_uids w |}.
Definition w_set_cluster (c : option RestoreCluster) (w : World) : World :=
  {| w_restores := w_restores w; w_cluster := c; w_runs := w_runs w; w_backups := w_backups w; w_jobs := w_jobs w;
     w_running := w_running w; w_sts := w_sts w; w_pods := w_pods w; w_volume := w_volume w; w_dirty := w_dirty w;
     w_uids := w_uids w |}.
Definition w_set_sources (runs : gmap string RunRef) (backups : gmap string Backup) (w : World) : World :=
  {| w_restores := w_restores w; w_cluster := w_cluster w; w_runs := runs; w_backups := backups; w_jobs := w_jobs w;
     w_running := w_running w; w_sts := w_sts w; w_pods := w_pods w; w_volume := w_volume w; w_dirty := w_dirty w;
     w_uids := w_uids w |}.
Definition w_set_jobs (jobs : gmap string Job) (running : gset string) (w : World) : World :=
  {| w_restores := w_restores w; w_cluster := w_cluster w; w_runs := w_runs w; w_backups := w_backups w; w_jobs := jobs;
     w_running := running; w_sts := w_sts w; w_pods := w_pods w; w_volume := w_volume w; w_dirty := w_dirty w;
     w_uids := w_uids w |}.
Definition w_set_server (sts : option Z) (pods : nat) (volume : bool) (w : World) : World :=
  {| w_restores := w_restores w; w_cluster := w_cluster w; w_runs := w_runs w; w_backups := w_backups w; w_jobs := w_jobs w;
     w_running := w_running w; w_sts := sts; w_pods := pods; w_volume := volume; w_dirty := w_dirty w;
     w_uids := w_uids w |}.
Definition w_set_dirty (dirty : bool) (w : World) : World :=
  {| w_restores := w_restores w; w_cluster := w_cluster w; w_runs := w_runs w; w_backups := w_backups w; w_jobs := w_jobs w;
     w_running := w_running w; w_sts := w_sts w; w_pods := w_pods w; w_volume := w_volume w; w_dirty := dirty;
     w_uids := w_uids w |}.
Definition w_use_uid (uid : string) (w : World) : World :=
  {| w_restores := w_restores w; w_cluster := w_cluster w; w_runs := w_runs w; w_backups := w_backups w; w_jobs := w_jobs w;
     w_running := w_running w; w_sts := w_sts w; w_pods := w_pods w; w_volume := w_volume w; w_dirty := w_dirty w;
     w_uids := {[uid]} ∪ w_uids w |}.

(** ** Objects *)

Definition re_update (deleting finalizer : bool) (status : RestoreStatus) (r : Restore) : Restore :=
  {| re_Name := re_Name r; re_Namespace := re_Namespace r; re_UID := re_UID r; re_ResourceVersion := S (re_ResourceVersion r);
     re_Deleting := deleting; re_Finalizer := finalizer; re_Spec := re_Spec r; re_Status := status |}.

Definition rc_update (ann : gmap string string) (last : option RestoreRecord) (c : RestoreCluster) : RestoreCluster :=
  {| rc_Name := rc_Name c; rc_ResourceVersion := S (rc_ResourceVersion c); rc_Annotations := ann;
     rc_PostgresMajorVersion := rc_PostgresMajorVersion c; rc_Image := rc_Image c; rc_LastRestore := last |}.

Definition job_finish (t : string) (j : Job) : Job :=
  {| job_Name := job_Name j; job_OwnerUID := job_OwnerUID j; job_Deleting := job_Deleting j; job_StartTime := job_StartTime j;
     job_Active := 0; job_Succeeded := if decide (t = JobComplete) then 1 else 0; job_Failed := job_Failed j;
     job_Conditions := [{| jc_Type := t; jc_Status := ConditionTrue; jc_Message := "" |}] |}.
Definition job_delete (j : Job) : Job :=
  {| job_Name := job_Name j; job_OwnerUID := job_OwnerUID j; job_Deleting := true; job_StartTime := job_StartTime j;
     job_Active := job_Active j; job_Succeeded := job_Succeeded j; job_Failed := job_Failed j; job_Conditions := job_Conditions j |}.
Definition new_job (name uid : string) : Job :=
  {| job_Name := name; job_OwnerUID := uid; job_Deleting := false; job_StartTime := None; job_Active := 0; job_Succeeded := 0;
     job_Failed := 0; job_Conditions := [] |}.

(** Neither complete nor failed. *)
Definition job_active (j : Job) : bool := negb (jobSucceeded j) && negb (jobConditionTrue j JobFailed).

(** ** The API server *)

(** A write of a Restore that must not have changed since it was read. *)
Definition locked_restore (r : Restore) (w : World) : option Restore :=
  R ← w_restores w !! re_Name r;
  if bool_decide (re_ResourceVersion R = re_ResourceVersion r) && bool_decide (re_UID R = re_UID r) then Some R else None.

Definition put_restore (R : Restore) (w : World) : World := w_set_restores (<[re_Name R := R]>) w.

(** An object without finalizer that is being deleted goes. *)
Definition put_or_drop (R : Restore) (w : World) : World :=
  if re_Deleting R && negb (re_Finalizer R) then w_set_restores (delete (re_Name R)) w else put_restore R w.

(** The successful answers of a call, and the state after it. *)
Definition served {R : Type} (c : call R) : World → R → World → Prop :=
  match c in call R return World → R → World → Prop with
  | GetRestore name => λ w a w', a = inl (w_restores w !! name) ∧ w' = w
  | PatchFinalizer r present => λ w a w', ∃ R, locked_restore r w = Some R ∧
      let R' := re_update (re_Deleting R) present (re_Status R) R in a = inl R' ∧ w' = put_or_drop R' w
  | UpdateRestoreStatus r => λ w a w', ∃ R, locked_restore r w = Some R ∧
      let R' := re_update (re_Deleting R) (re_Finalizer R) (re_Status r) R in a = inl R' ∧ w' = put_restore R' w
  | GetBackupRun name => λ w a w', a = inl (w_runs w !! name) ∧ w' = w
  | GetBackup name => λ w a w', a = inl (w_backups w !! name) ∧ w' = w
  | GetDatabase name => λ w a w', w' = w
  | GetCluster name => λ w a w', a = inl (w_cluster w) ∧ w' = w
  | PatchCluster base ann => λ w a w', ∃ c, w_cluster w = Some c ∧ rc_ResourceVersion c = rc_ResourceVersion base ∧
      a = None ∧ w' = w_set_cluster (Some (rc_update ann (rc_LastRestore c) c)) w
  | PatchLastRestore name record => λ w a w', ∃ c, w_cluster w = Some c ∧
      a = None ∧ w' = w_set_cluster (Some (rc_update (rc_Annotations c) (Some record) c)) w
  | GetStatefulSet name => λ w a w', a = inl ((λ n, (Some n, Z.of_nat (w_pods w))) <$> w_sts w) ∧ w' = w
  | ListPods cluster => λ w a w', a = inl (w_pods w) ∧ w' = w
  | GetPVC name => λ w a w', a = inl (w_volume w) ∧ w' = w
  | ListPVCs cluster => λ w a w', w' = w
  | DeletePVC pvc => λ w a w', w' = w
  | GetJob name => λ w a w', a = inl (w_jobs w !! name) ∧ w' = w
  | CreateJob name uid args => λ w a w',
      match w_jobs w !! name with
      | Some _ => a = inl true ∧ w' = w
      | None => a = inl false ∧ w' = w_set_jobs (<[name := new_job name uid]> (w_jobs w)) (w_running w) w
      end
  | CreateLogicalJob name uid db location => λ w a w', w' = w
  | DeleteJob name => λ w a w', a = None ∧ w' = w_set_jobs (alter job_delete name (w_jobs w)) (w_running w) w
  | JobPodsExist name => λ w a w', (∃ b, a = inl b ∧ (name ∈ w_running w → b = true)) ∧ w' = w
  | Now => λ w a w', w' = w
  end.

(** How a call reports an error, if it can. *)
Definition faulty {R : Type} (c : call R) : option (gerr → R) :=
  match c in call R return option (gerr → R) with
  | GetRestore _ | PatchFinalizer _ _ | UpdateRestoreStatus _ | GetBackupRun _ | GetBackup _ | GetDatabase _ | GetCluster _
  | GetStatefulSet _ | ListPods _ | GetPVC _ | ListPVCs _ | GetJob _ | CreateJob _ _ _ | CreateLogicalJob _ _ _ _
  | JobPodsExist _ => Some inr
  | PatchCluster _ _ | PatchLastRestore _ _ | DeletePVC _ | DeleteJob _ => Some Some
  | Now => None
  end.

(** A call that failed may still have had its effect. *)
Definition answers {R : Type} (c : call R) (w : World) (a : R) (w' : World) : Prop :=
  served c w a w' ∨ ∃ fault e, faulty c = Some fault ∧ a = fault e ∧ (w' = w ∨ ∃ a0, served c w a0 w').

(** ** Everything else *)

Definition inprogress (w : World) : string := match w_cluster w with Some c => rc_ann c AnnotationRestoreInProgress | None => "" end.
Definition interrupted (w : World) : string := match w_cluster w with Some c => rc_ann c AnnotationRestoreInterrupted | None => "" end.
(** The Restore that the allow-restore annotation names. *)
Definition confirmed (w : World) : string :=
  match w_cluster w with Some c => (cut_slash (rc_ann c AnnotationAllowRestore)).1.1 | None => "" end.

(** [pausedForRestore] of the Cluster. *)
Definition paused (c : RestoreCluster) : bool :=
  negb (bool_decide (rc_ann c AnnotationRestoreInProgress = "")) || negb (bool_decide (rc_ann c AnnotationRestoreInterrupted = "")).

(** A Job is recorded and the Restore is not finished; [armed]: a pass that finds no
    Job creates it. *)
Definition started (r : Restore) : Prop := restoreFinished r = false ∧ rest_JobName (re_Status r) ≠ "".
Definition armed (r : Restore) : Prop := started r ∧ restoreReason r = reasonCreatingJob.

(** A Job that may write the volume, now or later. *)
Definition writer (w : World) (name : string) : Prop :=
  name ∈ w_running w ∨ ∃ j, w_jobs w !! name = Some j ∧ job_active j = true ∧ job_Deleting j = false.

(** A Restore holds the Cluster or its Job was recorded. *)
Definition session (w : World) (n : string) : Prop :=
  (inprogress w = n ∧ n ≠ "") ∨ ∃ r, w_restores w !! n = Some r ∧ started r.

Definition no_status : RestoreStatus :=
  {| rest_Phase := RestorePhaseNone; rest_StartTime := None; rest_CompletionTime := None; rest_JobName := ""; rest_Available := None |}.

(** [strict]: the operating rules. Nobody confirms a Restore while another one is in
    session; the restore-interrupted annotation is removed by hand only while no Job
    may write; a deleted Cluster is not created again; BackupRuns and Backups disappear
    but do not come (back); a Job is removed after its pods, and the Job of an armed
    Restore only when it was deleted through the API. *)
Inductive env (strict : bool) (cl : string) : World → World → Prop :=
  | env_create w r :
      w_restores w !! re_Name r = None → re_UID r ∉ w_uids w → re_Name r ≠ "" → rsp_Type (re_Spec r) = BackupTypePhysical →
      rsp_ClusterRef (re_Spec r) = cl → re_Deleting r = false → re_Finalizer r = false → re_Status r = no_status →
      env strict cl w (w_use_uid (re_UID r) (put_restore r w))
  | env_delete w n r :
      w_restores w !! n = Some r → env strict cl w (put_or_drop (re_update true (re_Finalizer r) (re_Status r) r) w)
  | env_touch w n r :
      w_restores w !! n = Some r → env strict cl w (put_restore (re_update (re_Deleting r) (re_Finalizer r) (re_Status r) r) w)
  | env_confirm w c value :
      w_cluster w = Some c →
      let w' := w_set_cluster (Some (rc_update (<[AnnotationAllowRestore := value]> (rc_Annotations c)) (rc_LastRestore c) c)) w in
      (strict = true → ∀ n, session w n → confirmed w' = "" ∨ confirmed w' = n) →
      env strict cl w w'
  | env_resume w c :
      w_cluster w = Some c → (strict = true → ∀ j, ¬ writer w j) →
      env strict cl w (w_set_dirty false
        (w_set_cluster (Some (rc_update (delete AnnotationRestoreInterrupted (rc_Annotations c)) (rc_LastRestore c) c)) w))
  | env_cluster_gone w : env strict cl w (w_set_cluster None w)
  | env_cluster_new w c :
      strict = false → w_cluster w = None → rc_Annotations c = ∅ → env strict cl w (w_set_cluster (Some c) w)
  | env_scale w c n :
      w_cluster w = Some c → env strict cl w (w_set_server (Some (if paused c then 0 else n)) (w_pods w) (w_volume w) w)
  | env_pod_start w n : w_sts w = Some n → Z.of_nat (w_pods w) < n → env strict cl w (w_set_server (w_sts w) (S (w_pods w)) (w_volume w) w)
  | env_pod_stop w : env strict cl w (w_set_server (w_sts w) (pred (w_pods w)) (w_volume w) w)
  | env_volume w b : env strict cl w (w_set_server (w_sts w) (w_pods w) b w)
  | env_sources w runs backups :
      (strict = true → runs ⊆ w_runs w ∧ backups ⊆ w_backups w) → env strict cl w (w_set_sources runs backups w)
  | env_job_start w n j :
      w_jobs w !! n = Some j → job_active j = true → job_Deleting j = false →
      env strict cl w (w_set_dirty true (w_set_jobs (w_jobs w) ({[n]} ∪ w_running w) w))
  | env_job_stop w n : env strict cl w (w_set_jobs (w_jobs w) (w_running w ∖ {[n]}) w)
  | env_job_complete w n j :
      w_jobs w !! n = Some j → n ∉ w_running w → job_active j = true →
      env strict cl w (w_set_dirty false (w_set_jobs (<[n := job_finish JobComplete j]> (w_jobs w)) (w_running w) w))
  | env_job_fail w n j :
      w_jobs w !! n = Some j → n ∉ w_running w → job_active j = true →
      env strict cl w (w_set_jobs (<[n := job_finish JobFailed j]> (w_jobs w)) (w_running w) w)
  | env_job_gone w n j :
      w_jobs w !! n = Some j → job_Deleting j = true ∨ job_active j = false → (strict = true → n ∉ w_running w) →
      (strict = true → ∀ r, restoreJobName r = n → w_restores w !! re_Name r = Some r → armed r → job_Deleting j = true) →
      env strict cl w (w_set_jobs (delete n (w_jobs w)) (w_running w) w).

(** ** The transition system *)

Record config := { cf_world : World; cf_pass : option (prog ctrlResult) }.

Section system.
Context `{UrlParse} `{RestoreDigest} (strict : bool) (cl : string).

Inductive step : config → config → Prop :=
  | step_start w name : step {| cf_world := w; cf_pass := None |} {| cf_world := w; cf_pass := Some (RestoreReconcile name) |}
  | step_call w w' {R} (c : call R) k a :
      answers c w a w' → step {| cf_world := w; cf_pass := Some (Do c k) |} {| cf_world := w'; cf_pass := Some (k a) |}
  | step_end w r : step {| cf_world := w; cf_pass := Some (Ret r) |} {| cf_world := w; cf_pass := None |}
  | step_env w w' p : env strict cl w w' → step {| cf_world := w; cf_pass := p |} {| cf_world := w'; cf_pass := p |}.

(** Initially there are no Restores and no Jobs, and no Restore holds the Cluster. *)
Definition initial (cf : config) : Prop :=
  cf_pass cf = None ∧ w_restores (cf_world cf) = ∅ ∧ w_jobs (cf_world cf) = ∅ ∧ w_running (cf_world cf) = ∅ ∧
  inprogress (cf_world cf) = "" ∧ w_dirty (cf_world cf) = false.

Definition reachable (cf : config) : Prop := ∃ cf0, initial cf0 ∧ rtc step cf0 cf.
End system.
