(* ===== verification/RestoreInvariant.v ===== *)
(** * The invariant of the restore system

    What holds in every reachable state of RestoreSystem under the operating rules
    ([strict]), and that everything except the Restore controller preserves it. *)

From Stdlib Require Import Ascii.
From S2P Require Import Prelude GoStrings GoStrconv Replication Pgbackrest Restore RestoreSystem.

Open Scope Z_scope.

Lemma app_inj_tail_s (a b x : string) : a +:+ x = b +:+ x → a = b.
Proof.
  intros Heq. apply (app_inj_length_s a b x x); [|done].
  assert (String.length (a +:+ x) = String.length (b +:+ x)) as Hl by by rewrite Heq.
  rewrite !length_app_s in Hl. lia.
Qed.

Lemma restoreJobName_inj r1 r2 : restoreJobName r1 = restoreJobName r2 → re_Name r1 = re_Name r2.
Proof. apply app_inj_tail_s. Qed.

(** ** Vocabulary *)

(** No PostgreSQL pod exists and none will be created while the StatefulSet is not scaled. *)
Definition quiet (w : World) : Prop := w_pods w = 0%nat ∧ (w_sts w = None ∨ w_sts w = Some 0).

(** The Restore's own Job exists. *)
Definition own (w : World) (r : Restore) : Prop :=
  ∃ J, w_jobs w !! restoreJobName r = Some J ∧ job_OwnerUID J = re_UID r.

(** A Job with the Restore's Job name exists and was not deleted. *)
Definition kept (w : World) (r : Restore) : Prop :=
  ∃ J, w_jobs w !! restoreJobName r = Some J ∧ job_Deleting J = false.

Section invariant.
Context `{UrlParse} (cl : string).

(** What [resolvePhysicalRestore] requires of what it reads. *)
Definition sources_ok (r : Restore) (run : RunRef) (backup : Backup) (c : RestoreCluster) : Prop :=
  bk_Type backup = BackupTypePhysical ∧ validatePhysicalBackup backup = None ∧
  bk_ClusterRef backup = Some (rsp_ClusterRef (re_Spec r)) ∧ run_Phase run = BackupRunPhaseSucceeded ∧
  (∃ label, backupLabelFromLocation (run_Location run) = inl label ∧ label ≠ "") ∧
  validatePhysicalBackupFor backup (rc_image c) = None ∧ ∃ layout, resolvePostgresLayout (rc_image c) = inl layout.

Definition resolvable (w : World) (r : Restore) : Prop :=
  ∃ run backup c, w_runs w !! rsp_BackupRunRef (re_Spec r) = Some run ∧ w_backups w !! run_BackupRef run = Some backup ∧
    w_cluster w = Some c ∧ sources_ok r run backup c.

(** Why an armed Restore may create its Job: it holds the stopped Cluster; or it
    will not, since its sources are invalid or the Job is there. *)
Definition ready (w : World) (r : Restore) : Prop :=
  (inprogress w = re_Name r ∧ quiet w) ∨ ¬ resolvable w r ∨ kept w r.

Definition stored (w : World) (r : Restore) : Prop := w_restores w !! re_Name r = Some r.

(** The Restore a writing Job belongs to. *)
Definition responsible (w : World) (j : string) (r : Restore) : Prop :=
  stored w r ∧ restoreJobName r = j ∧ started r ∧ own w r ∧
  (inprogress w = re_Name r ∨ (interrupted w ≠ "" ∧ re_Deleting r = true)).

Definition well_formed (w : World) (n : string) (r : Restore) : Prop :=
  re_Name r = n ∧ n ≠ "" ∧ rsp_Type (re_Spec r) = BackupTypePhysical ∧ rsp_ClusterRef (re_Spec r) = cl ∧
  re_UID r ∈ w_uids w ∧ (started r → re_Finalizer r = true).

Record Inv (w : World) : Prop := {
  inv_restores n r : w_restores w !! n = Some r → well_formed w n r;
  inv_jobs j J : w_jobs w !! j = Some J → job_OwnerUID J ∈ w_uids w ∧ job_Name J = j;
  inv_running j : j ∈ w_running w → ∃ J, w_jobs w !! j = Some J ∧ job_active J = true;
  inv_foreign r J : stored w r → w_jobs w !! restoreJobName r = Some J → started r → job_OwnerUID J = re_UID r;
  inv_own r : stored w r → own w r → rest_JobName (re_Status r) ≠ "";
  inv_deleting r J : stored w r → w_jobs w !! restoreJobName r = Some J → job_OwnerUID J = re_UID r → job_Deleting J = true →
    inprogress w ≠ re_Name r;
  inv_unique n m : session w n → session w m → n = m;
  inv_confirmed n : session w n → confirmed w = "" ∨ confirmed w = n;
  inv_writer j : writer w j → quiet w ∧ (w_cluster w = None ∨ ∃ r, responsible w j r);
  inv_sole j j' : writer w j → writer w j' → j = j';
  inv_armed r : stored w r → armed r → re_Deleting r = false → ready w r;
  inv_clean r J : w_cluster w ≠ None → stored w r → started r → w_jobs w !! restoreJobName r = Some J →
    jobSucceeded J = true → w_dirty w = false;
  inv_dirty : w_dirty w = true → quiet w ∧ (w_cluster w = None ∨ interrupted w ≠ "" ∨
    ∃ r, stored w r ∧ started r ∧ inprogress w = re_Name r ∧ (own w r ∨ ¬ armed r)) }.

(** ** Facts *)

Lemma started_session w r : stored w r → started r → session w (re_Name r).
Proof. intros. right. by exists r. Qed.

Lemma stored_name w n r : Inv w → w_restores w !! n = Some r → stored w r.
Proof. intros I Hn. destruct (inv_restores _ I _ _ Hn) as [<- _]. done. Qed.

Lemma stored_nonempty w r : Inv w → stored w r → re_Name r ≠ "".
Proof. intros I Hr. by destruct (inv_restores _ I _ _ Hr) as (_ & ? & _). Qed.

Lemma started_unique w r1 r2 : Inv w → stored w r1 → stored w r2 → started r1 → started r2 → r1 = r2.
Proof.
  intros I H1 H2 S1 S2. assert (re_Name r1 = re_Name r2) as Heq by (apply (inv_unique _ I); by apply started_session).
  unfold stored in *. rewrite Heq in H1. congruence.
Qed.

(** With a Cluster, a writing Job belongs to the started Restore. *)
Lemma writer_started w j r : Inv w → w_cluster w ≠ None → writer w j → stored w r → started r →
  j = restoreJobName r ∧ responsible w j r.
Proof.
  intros I Hc Hw Hr Hs. destruct (inv_writer _ I _ Hw) as [_ [?|(r' & Hresp)]]; [done|].
  pose proof Hresp as (Hr' & <- & Hs' & _). assert (r' = r) as -> by eauto using started_unique. done.
Qed.

(** Without its own Job a Restore has no writing Job. *)
Lemma not_own_not_writer w r R : Inv w → w_cluster w ≠ None → stored w R → re_Name R = re_Name r → re_UID R = re_UID r →
  ¬ own w r → ¬ writer w (restoreJobName r).
Proof.
  intros I Hc HR Hn Hu Ho Hw. destruct (inv_writer _ I _ Hw) as [_ [?|(r' & Hr' & Hj & _ & (J & HJ & HU) & _)]]; [done|].
  apply restoreJobName_inj in Hj. assert (r' = R) as -> by (unfold stored in *; rewrite Hj, <-Hn in Hr'; congruence).
  apply Ho. exists J. split; [|congruence]. unfold restoreJobName in *. congruence.
Qed.

(** ** Writes of a Restore *)

(** [r'] is the object [r] after a write. *)
Definition same_object (r r' : Restore) : Prop :=
  re_Name r' = re_Name r ∧ re_UID r' = re_UID r ∧ re_Spec r' = re_Spec r ∧ (re_Deleting r = true → re_Deleting r' = true).

(** The Restore may start: it is the only session, its Job does not exist yet. *)
Definition may_start (w : World) (r : Restore) : Prop :=
  rest_JobName (re_Status r) = "" ∧ (∀ J, w_jobs w !! restoreJobName r = Some J → job_OwnerUID J = re_UID r) ∧
  (∀ m, session w m → m = re_Name r) ∧ (confirmed w = "" ∨ confirmed w = re_Name r).

(** The Restore may stop: it does not hold the Cluster and its Job does not write. *)
Definition may_stop (w : World) (r : Restore) : Prop :=
  inprogress w ≠ re_Name r ∧ (w_cluster w = None ∨ ¬ writer w (restoreJobName r)).

Lemma same_job r r' : same_object r r' → restoreJobName r' = restoreJobName r.
Proof. intros (Hn & _). unfold restoreJobName. by rewrite Hn. Qed.

Lemma own_same w r r' : same_object r r' → own w r' ↔ own w r.
Proof. intros S. pose proof S as (_ & Hu & _). unfold own. by rewrite (same_job _ _ S), Hu. Qed.

Lemma ready_same w r r' : same_object r r' → ready w r' ↔ ready w r.
Proof.
  intros S. pose proof S as (Hn & Hu & Hs & _). unfold ready, resolvable, kept, sources_ok.
  by rewrite (same_job _ _ S), Hn, Hs.
Qed.

Lemma stored_put w r x : stored (put_restore r w) x ↔ x = r ∨ (stored w x ∧ re_Name x ≠ re_Name r).
Proof.
  unfold stored, put_restore. simpl. rewrite lookup_insert_Some. split.
  - intros [[Hn ->]|[Hn Hx]]; [by left|right; auto].
  - intros [->|[Hx Hn]]; [by left|right; auto].
Qed.

Lemma session_put w r r' m : stored w r → re_Name r' = re_Name r →
  session (put_restore r' w) m → session w m ∨ (m = re_Name r ∧ started r').
Proof.
  intros Hr Hn [[Hi Hm]|(x & Hx & Hs)]; [by left; left|].
  simpl in Hx. apply lookup_insert_Some in Hx as [[<- <-]|[? Hx]]; [by right; rewrite Hn|].
  left. right. by exists x.
Qed.

Lemma inv_put w r r' :
  Inv w → stored w r → same_object r r' → (started r' → re_Finalizer r' = true) →
  (rest_JobName (re_Status r) ≠ "" → rest_JobName (re_Status r') ≠ "") →
  (started r' → started r ∨ may_start w r) →
  (started r → started r' ∨ may_stop w r) →
  (armed r' → re_Deleting r' = false → (armed r ∧ re_Deleting r = false) ∨ ready w r) →
  (started r → armed r' → armed r) →
  Inv (put_restore r' w).
Proof.
  intros I Hr Hso Hfin Hjob Hstart Hstop Harm Hdirty. pose proof Hso as (Hn & Hu & Hsp & Hdel).
  assert (Hsess : ∀ m, session (put_restore r' w) m → session w m ∨ (m = re_Name r ∧ may_start w r)).
  { intros m [?|[-> Hs]]%(session_put w r r'); [by left| |done..].
    destruct (Hstart Hs) as [?|?]; [left; by apply started_session|by right]. }
  assert (Hkeep : ∀ x, stored w x → re_Name x ≠ re_Name r → stored (put_restore r' w) x).
  { intros x ? ?. apply stored_put. right. by rewrite Hn. }
  assert (Hin : stored (put_restore r' w) r') by (apply stored_put; by left).
  constructor.
  - intros n x Hx. simpl in Hx. apply lookup_insert_Some in Hx as [[<- <-]|[? Hx]]; [|by apply (inv_restores _ I)].
    destruct (inv_restores _ I _ _ Hr) as (_ & ? & ? & ? & ? & _). rewrite Hn.
    repeat split; try done; rewrite ?Hsp, ?Hu, ?Hn; done.
  - exact (inv_jobs _ I).
  - exact (inv_running _ I).
  - intros x J [->|[Hx ?]]%stored_put HJ Hs; [|by apply (inv_foreign _ I)].
    rewrite (same_job r r') in HJ by done. rewrite Hu.
    destruct (Hstart Hs) as [?|(_ & Hm & _)]; [by apply (inv_foreign _ I)|by apply Hm].
  - intros x [->|[Hx ?]]%stored_put Ho; [|by apply (inv_own _ I)].
    apply Hjob, (inv_own _ I); [done|]. by apply (own_same w r r').
  - intros x J [->|[Hx ?]]%stored_put HJ; [|by apply (inv_deleting _ I)].
    rewrite (same_job r r') in HJ by done. rewrite Hn, Hu. by apply (inv_deleting _ I r J).
  - intros n m Sn Sm. destruct (Hsess _ Sn) as [Sn'|[-> (_ & _ & Hall & _)]], (Hsess _ Sm) as [Sm'|[-> (_ & _ & Hall' & _)]].
    + by apply (inv_unique _ I).
    + by apply Hall'.
    + symmetry. by apply Hall.
    + done.
  - intros n [Sn|[-> (_ & _ & _ & Hc)]]%Hsess; [by apply (inv_confirmed _ I)|done].
  - intros j Hw. destruct (inv_writer _ I j Hw) as [Hq Hresp]. split; [done|].
    destruct Hresp as [?|(x & Hx & Hj & Hs & Ho & Hp)]; [by left|right].
    destruct (decide (re_Name x = re_Name r)) as [Heq|Hne]; [|exists x; split_and!; auto].
    assert (x = r) as -> by (unfold stored in *; rewrite Heq in Hx; congruence).
    destruct (Hstop Hs) as [Hs'|[Hni [Hcl|Hnw]]].
    + exists r'. split_and!; [done|by rewrite (same_job r r')|done|by apply (own_same w r r')|].
      destruct Hp as [?|[? ?]]; [left; by rewrite Hn|right; auto].
    + exfalso. revert Hp. unfold inprogress, interrupted. simpl. rewrite Hcl. intros [Hp|[? _]]; [|done].
      by apply (stored_nonempty _ _ I Hr).
    + by subst.
  - exact (inv_sole _ I).
  - intros x [->|[Hx ?]]%stored_put Ha Hd; [|by apply (inv_armed _ I)].
    apply (ready_same w r r'); [done|]. destruct (Harm Ha Hd) as [[? ?]|?]; [by apply (inv_armed _ I)|done].
  - intros x J Hcl [->|[Hx ?]]%stored_put Hs HJ; [|by apply (inv_clean _ I x J)].
    rewrite (same_job r r') in HJ by done. destruct (Hstart Hs) as [?|(Hjn & Hm & _)]; [by apply (inv_clean _ I r J)|].
    destruct (inv_own _ I r Hr); [|done]. exists J. split; [done|by apply Hm].
  - intros Hd. destruct (inv_dirty _ I Hd) as [Hq Hp]. split; [done|].
    destruct Hp as [?|[?|(x & Hx & Hs & Hp & Ho)]]; [by left|by right; left|].
    destruct (decide (re_Name x = re_Name r)) as [Heq|Hne].
    2: { right; right. exists x. split_and!; auto. }
    assert (x = r) as -> by (unfold stored in *; rewrite Heq in Hx; congruence).
    destruct (Hstop Hs) as [Hs'|[Hni _]]; [|by rewrite Hp in Hni].
    right; right. exists r'. split_and!; [done..|by rewrite Hn|].
    destruct Ho as [Ho|Ho]; [left; by apply (own_same w r r')|right; auto].
Qed.

Lemma inv_drop w r : Inv w → stored w r → (started r → may_stop w r) → Inv (w_set_restores (delete (re_Name r)) w).
Proof.
  intros I Hr Hstop.
  assert (Hst : ∀ x, stored (w_set_restores (delete (re_Name r)) w) x → stored w x).
  { intros x Hx. unfold stored in *. simpl in Hx. by apply lookup_delete_Some in Hx as [_ ?]. }
  assert (Hkeep : ∀ x, stored w x → re_Name x ≠ re_Name r → stored (w_set_restores (delete (re_Name r)) w) x).
  { intros x Hx ?. unfold stored in *. simpl. by apply lookup_delete_Some. }
  assert (Hsess : ∀ m, session (w_set_restores (delete (re_Name r)) w) m → session w m).
  { intros m [?|(x & Hx & Hs)]; [by left|]. simpl in Hx. apply lookup_delete_Some in Hx as [_ ?]. right. by exists x. }
  constructor.
  - intros n x Hx. simpl in Hx. apply lookup_delete_Some in Hx as [_ ?]. by apply (inv_restores _ I).
  - exact (inv_jobs _ I).
  - exact (inv_running _ I).
  - intros x J ?%Hst. by apply (inv_foreign _ I).
  - intros x ?%Hst. by apply (inv_own _ I).
  - intros x J ?%Hst. by apply (inv_deleting _ I x J).
  - intros n m ?%Hsess ?%Hsess. by apply (inv_unique _ I).
  - intros n ?%Hsess. by apply (inv_confirmed _ I).
  - intros j Hw. destruct (inv_writer _ I j Hw) as [Hq Hresp]. split; [done|].
    destruct Hresp as [?|(x & Hx & Hj & Hs & Ho & Hp)]; [by left|].
    destruct (decide (re_Name x = re_Name r)) as [Heq|Hne]; [|right; exists x; split_and!; auto].
    assert (x = r) as -> by (unfold stored in *; rewrite Heq in Hx; congruence).
    destruct (Hstop Hs) as [_ [?|Hnw]]; [by left|by subst].
  - exact (inv_sole _ I).
  - intros x ?%Hst. by apply (inv_armed _ I).
  - intros x J ? ?%Hst. by apply (inv_clean _ I x J).
  - intros Hd. destruct (inv_dirty _ I Hd) as [Hq Hp]. split; [done|].
    destruct Hp as [?|[?|(x & Hx & Hs & Hp & Ho)]]; [by left|by right; left|].
    destruct (decide (re_Name x = re_Name r)) as [Heq|Hne].
    + assert (x = r) as -> by (unfold stored in *; rewrite Heq in Hx; congruence). by destruct (Hstop Hs).
    + right; right. exists x. split_and!; auto.
Qed.

Lemma inv_create w r :
  Inv w → w_restores w !! re_Name r = None → re_UID r ∉ w_uids w → re_Name r ≠ "" → rsp_Type (re_Spec r) = BackupTypePhysical →
  rsp_ClusterRef (re_Spec r) = cl → re_Status r = no_status → Inv (w_use_uid (re_UID r) (put_restore r w)).
Proof.
  intros I Hnone Hfresh Hname Hty Hcl Hst.
  assert (Hns : ¬ started r) by (intros [_ Hj]; by rewrite Hst in Hj).
  assert (Hin : ∀ x, stored (w_use_uid (re_UID r) (put_restore r w)) x → x = r ∨ stored w x).
  { intros x Hx. apply stored_put in Hx as [?|[? _]]; auto. }
  assert (Hkeep : ∀ x, stored w x → stored (w_use_uid (re_UID r) (put_restore r w)) x).
  { intros x Hx. apply stored_put. right. split; [done|]. intros Heq. unfold stored in Hx. rewrite Heq in Hx. congruence. }
  assert (Hsess : ∀ m, session (w_use_uid (re_UID r) (put_restore r w)) m → session w m).
  { intros m [?|(x & Hx & Hs)]; [by left|]. simpl in Hx. apply lookup_insert_Some in Hx as [[_ ->]|[_ ?]]; [done|].
    right. by exists x. }
  constructor.
  - intros n x Hx. simpl in Hx. apply lookup_insert_Some in Hx as [[<- <-]|[? Hx]].
    + repeat split; try done. simpl. set_solver.
    + destruct (inv_restores _ I _ _ Hx) as (? & ? & ? & ? & ? & ?). repeat split; try done. simpl. set_solver.
  - intros j J HJ. destruct (inv_jobs _ I j J HJ). split; [|done]. simpl. by apply elem_of_union_r.
  - exact (inv_running _ I).
  - intros x J [->|?]%Hin ? ?; [done|]. by apply (inv_foreign _ I).
  - intros x [->|?]%Hin Ho; [|by apply (inv_own _ I)]. destruct Ho as (J & HJ & HU).
    apply (inv_jobs _ I) in HJ as [HJ _]. by rewrite HU in HJ.
  - intros x J [->|?]%Hin HJ HU; [|by apply (inv_deleting _ I x J)].
    apply (inv_jobs _ I) in HJ as [HJ _]. by rewrite HU in HJ.
  - intros n m ?%Hsess ?%Hsess. by apply (inv_unique _ I).
  - intros n ?%Hsess. by apply (inv_confirmed _ I).
  - intros j Hw. destruct (inv_writer _ I j Hw) as [Hq Hresp]. split; [done|].
    destruct Hresp as [?|(x & Hx & ?)]; [by left|right]. exists x. split; auto.
  - exact (inv_sole _ I).
  - intros x [->|?]%Hin Ha; [by destruct Ha|]. by apply (inv_armed _ I).
  - intros x J ? [->|?]%Hin ?; [done|]. by apply (inv_clean _ I x J).
  - intros Hd. destruct (inv_dirty _ I Hd) as [Hq Hp]. split; [done|].
    destruct Hp as [?|[?|(x & Hx & Hs & ?)]]; [by left|by right; left|right; right]. exists x. split_and!; auto; tauto.
Qed.

(** ** Writes of the Cluster *)

Lemma resolvable_image w w' c c' r : w_runs w' = w_runs w → w_backups w' = w_backups w → w_cluster w = Some c → w_cluster w' = Some c' →
  rc_image c' = rc_image c → resolvable w' r → resolvable w r.
Proof.
  intros Hr Hb Hc Hc' Hi (run & backup & c0 & H1 & H2 & H3 & H4). rewrite Hc' in H3. injection H3 as <-.
  exists run, backup, c. rewrite <-Hr, <-Hb. split_and!; try done. unfold sources_ok in *. by rewrite <-Hi.
Qed.

Lemma inv_annotate w c c' d (w' := w_set_dirty d (w_set_cluster (Some c') w)) :
  Inv w → w_cluster w = Some c → rc_image c' = rc_image c →
  (∀ m, inprogress w' = m → m ≠ "" → session w m ∨ ((∀ k, session w k → k = m) ∧ (confirmed w' = "" ∨ confirmed w' = m))) →
  (∀ r, stored w r → inprogress w' = re_Name r → inprogress w = re_Name r ∨ ¬ own w r) →
  (∀ m, session w m → confirmed w' = "" ∨ confirmed w' = m) →
  (∀ j r, writer w j → responsible w j r → inprogress w' = re_Name r ∨ (interrupted w' ≠ "" ∧ re_Deleting r = true)) →
  (∀ r, stored w r → armed r → re_Deleting r = false → inprogress w = re_Name r →
    inprogress w' = re_Name r ∨ ¬ resolvable w r ∨ kept w r) →
  (d = true → w_dirty w = true ∧ (interrupted w' ≠ "" ∨
    ∃ r, stored w r ∧ started r ∧ inprogress w' = re_Name r ∧ (own w r ∨ ¬ armed r))) →
  Inv w'.
Proof.
  intros I Hc Hi Hs Hdel Hcf Hw Ha Hd.
  assert (Hsess : ∀ m, session w' m → session w m ∨ ((∀ k, session w k → k = m) ∧ (confirmed w' = "" ∨ confirmed w' = m))).
  { intros m [[Hm Hne]|?]; [by apply Hs|left; by right]. }
  constructor.
  - exact (inv_restores _ I).
  - exact (inv_jobs _ I).
  - exact (inv_running _ I).
  - exact (inv_foreign _ I).
  - exact (inv_own _ I).
  - intros x J Hx HJ HU HD Hip. destruct (Hdel x Hx Hip) as [Hip'|Ho]; [by apply (inv_deleting _ I x J)|].
    apply Ho. by exists J.
  - intros n m Sn Sm. destruct (Hsess _ Sn) as [Sn'|[Hall Hn]], (Hsess _ Sm) as [Sm'|[Hall' Hm]].
    + by apply (inv_unique _ I).
    + by apply Hall'.
    + symmetry. by apply Hall.
    + destruct Sn as [[Sn Hne]|Sn]; [|by apply Hall'; right].
      destruct Sm as [[Sm Hne']|Sm]; [by rewrite <-Sn, <-Sm|]. symmetry. apply Hall. by right.
  - intros n [?|[_ ?]]%Hsess; [by apply Hcf|done].
  - intros j Hj. destruct (inv_writer _ I j Hj) as [Hq Hresp]. split; [done|right].
    destruct Hresp as [?|(x & Hx)]; [congruence|]. exists x. pose proof (Hw j x Hj Hx).
    destruct Hx as (? & ? & ? & ? & _). by split_and!.
  - exact (inv_sole _ I).
  - intros x Hx Hax Hdx. destruct (inv_armed _ I x Hx Hax Hdx) as [[Hip Hq]|[Hn|Hk]].
    + destruct (Ha x Hx Hax Hdx Hip) as [?|[Hn|?]]; [by left|right; left|by right; right].
      intros Hres. apply Hn. by eapply (resolvable_image w w' c c').
    + right; left. intros Hres. apply Hn. by eapply (resolvable_image w w' c c').
    + by right; right.
  - intros x J _ Hx Hs' HJ HS. destruct d eqn:Ed; [|done]. destruct (Hd eq_refl) as [Hd' _].
    exfalso. assert (w_dirty w = false) by (apply (inv_clean _ I x J); [by rewrite Hc|done..]). congruence.
  - simpl. intros ->. destruct (Hd eq_refl) as [Hd' Hp]. destruct (inv_dirty _ I Hd') as [Hq _]. split; [done|by right].
Qed.

Lemma inv_cluster_gone w : Inv w → Inv (w_set_cluster None w).
Proof.
  intros I.
  assert (Hsess : ∀ m, session (w_set_cluster None w) m → session w m) by (intros m [[<- ?]|?]; [done|by right]).
  constructor; try by destruct I.
  - intros x J Hx _ _ _ Hn. by destruct (stored_nonempty _ x I Hx).
  - intros n m ?%Hsess ?%Hsess. by apply (inv_unique _ I).
  - by left.
  - intros j Hj. split; [|by left]. exact (proj1 (inv_writer _ I j Hj)).
  - intros x Hx _ _. right; left. by intros (? & ? & ? & _ & _ & ? & _).
  - intros Hd. split; [exact (proj1 (inv_dirty _ I Hd))|by left].
Qed.

(** ** The server and the sources *)

Lemma paused_inprogress w c r : Inv w → stored w r → w_cluster w = Some c → inprogress w = re_Name r → paused c = true.
Proof.
  intros I Hr Hc Hi. unfold paused. unfold inprogress in Hi. rewrite Hc in Hi. rewrite Hi.
  rewrite bool_decide_eq_false_2; [done|]. by eapply stored_nonempty.
Qed.

Lemma paused_interrupted w c : w_cluster w = Some c → interrupted w ≠ "" → paused c = true.
Proof.
  intros Hc Hi. unfold paused. unfold interrupted in Hi. rewrite Hc in Hi.
  rewrite (bool_decide_eq_false_2 _ Hi). by rewrite orb_true_r.
Qed.

Lemma responsible_paused w j r c : Inv w → responsible w j r → w_cluster w = Some c → paused c = true.
Proof.
  intros I (Hr & _ & _ & _ & [?|[? _]]) ?; [by eapply paused_inprogress|by eapply paused_interrupted].
Qed.

Lemma inv_server w sts pods volume :
  Inv w → (quiet w → (∀ c, w_cluster w = Some c → paused c = true) → quiet (w_set_server sts pods volume w)) →
  Inv (w_set_server sts pods volume w).
Proof.
  intros I Hq. constructor; try by destruct I.
  - intros j Hj. destruct (inv_writer _ I j Hj) as [Hqw Hr]. split; [|done]. apply Hq; [done|].
    intros c Hc. destruct Hr as [?|(x & Hx)]; [congruence|]. by eapply responsible_paused.
  - intros x Hx Ha Hd. destruct (inv_armed _ I x Hx Ha Hd) as [[Hip Hqw]|?]; [|by right].
    left. split; [done|]. apply Hq; [done|]. intros c Hc. by eapply paused_inprogress.
  - intros Hd. destruct (inv_dirty _ I Hd) as [Hqw Hr]. split; [|done]. apply Hq; [done|].
    intros c Hc. destruct Hr as [?|[?|(x & Hx & _ & Hip & _)]]; [congruence|by eapply paused_interrupted|by eapply paused_inprogress].
Qed.

Lemma resolvable_sources w runs backups r :
  runs ⊆ w_runs w → backups ⊆ w_backups w → resolvable (w_set_sources runs backups w) r → resolvable w r.
Proof.
  intros Hr Hb (run & backup & c & H1 & H2 & H3 & H4). exists run, backup, c. split_and!; try done; simpl in *.
  - by eapply lookup_weaken.
  - by eapply lookup_weaken.
Qed.

Lemma inv_sources w runs backups :
  Inv w → runs ⊆ w_runs w → backups ⊆ w_backups w → Inv (w_set_sources runs backups w).
Proof.
  intros I Hr Hb. constructor; try by destruct I.
  intros x Hx Ha Hd. destruct (inv_armed _ I x Hx Ha Hd) as [?|[Hn|?]]; [by left| |by right; right].
  right; left. intros ?. apply Hn. by eapply resolvable_sources.
Qed.

(** ** Jobs *)

Lemma inv_jobs_step w jobs' running' d (w' := w_set_dirty d (w_set_jobs jobs' running' w)) :
  Inv w →
  (∀ j J', jobs' !! j = Some J' → ∃ J, w_jobs w !! j = Some J ∧ job_OwnerUID J' = job_OwnerUID J ∧ job_Name J' = job_Name J) →
  (∀ j, j ∈ running' → ∃ J', jobs' !! j = Some J' ∧ job_active J' = true) →
  (∀ j, writer w' j → writer w j) →
  (∀ r J', stored w r → jobs' !! restoreJobName r = Some J' → job_OwnerUID J' = re_UID r → job_Deleting J' = true →
    inprogress w ≠ re_Name r) →
  (∀ r, stored w r → armed r → re_Deleting r = false → kept w r → kept w' r) →
  (∀ r J', w_cluster w ≠ None → stored w r → started r → jobs' !! restoreJobName r = Some J' → jobSucceeded J' = true → d = false) →
  (d = true → w_dirty w = true ∨ ∃ j, writer w j) →
  (∀ r, stored w r → started r → inprogress w = re_Name r → own w r → own w' r ∨ ¬ armed r) →
  Inv w'.
Proof.
  intros I Hj Hrun Hw Hdel Hk Hcl Hd Ho.
  assert (Hown : ∀ r, own w' r → own w r).
  { intros r (J' & HJ' & HU). destruct (Hj _ _ HJ') as (J & ? & HJ & _). exists J. by rewrite <-HJ. }
  assert (Hwj : ∀ j, writer w' j → ∃ J', jobs' !! j = Some J') by (intros j [?%Hrun|(J & ? & _)]; naive_solver).
  constructor; try by destruct I.
  - intros j J' (J & HJ & -> & ->)%Hj. exact (inv_jobs _ I j J HJ).
  - intros r J' Hr HJ' Hs. destruct (Hj _ _ HJ') as (J & HJ & -> & _). by apply (inv_foreign _ I).
  - intros r Hr ?%Hown. by apply (inv_own _ I).
  - intros j Hwr. pose proof (Hw j Hwr) as Hwr0. destruct (inv_writer _ I j Hwr0) as [Hq Hresp]. split; [done|].
    destruct Hresp as [?|(x & Hx & <- & Hs & (J & HJ & HU) & Hp)]; [by left|right]. exists x. split_and!; try done.
    destruct (Hwj _ Hwr) as [J' HJ']. destruct (Hj _ _ HJ') as (J0 & HJ0 & HU0 & _). exists J'. split; [done|]. congruence.
  - intros j j' ?%Hw ?%Hw. by apply (inv_sole _ I).
  - intros r Hr Ha Hdl. destruct (inv_armed _ I r Hr Ha Hdl) as [?|[?|?]]; [by left|by right; left|right; right; auto].
  - simpl. intros Hdt. destruct (decide (w_dirty w = true)) as [Hdw|Hdw].
    + destruct (inv_dirty _ I Hdw) as [Hq Hp]. split; [done|].
      destruct Hp as [?|[?|(x & Hx & Hs & Hip & Hox)]]; [by left|by right; left|right; right].
      exists x. split_and!; try done. destruct Hox as [Hox|?]; [by apply Ho|by right].
    + destruct (Hd Hdt) as [?|[j Hwj0]]; [done|]. destruct (inv_writer _ I j Hwj0) as [Hq Hp]. split; [done|].
      destruct Hp as [?|(x & Hx & _ & Hs & Hox & [Hip|[? _]])]; [by left|right; right|by right; left].
      exists x. split_and!; try done. by apply Ho.
Qed.

Lemma inv_create_job w r :
  Inv w → stored w r → started r → w_jobs w !! restoreJobName r = None → quiet w → (∀ j, writer w j → j = restoreJobName r) →
  (w_cluster w = None ∨ inprogress w = re_Name r) →
  Inv (w_set_jobs (<[restoreJobName r := new_job (restoreJobName r) (re_UID r)]> (w_jobs w)) (w_running w) w).
Proof.
  intros I Hr Hs Hnone Hq Hw Hc.
  set (w' := w_set_jobs _ _ w).
  assert (Hown : own w' r) by (exists (new_job (restoreJobName r) (re_UID r)); split; [by apply lookup_insert_eq|done]).
  assert (Hother : ∀ x J, stored w x → w_jobs w' !! restoreJobName x = Some J →
    (x = r ∧ J = new_job (restoreJobName r) (re_UID r)) ∨ w_jobs w !! restoreJobName x = Some J).
  { intros x J Hx HJ. simpl in HJ. apply lookup_insert_Some in HJ as [[Hn <-]|[_ ?]]; [left|by right]. split; [|done].
    apply restoreJobName_inj in Hn. unfold stored in *. rewrite Hn in Hr. congruence. }
  assert (Hwr : ∀ j, writer w' j → j = restoreJobName r).
  { intros j [?|(J & HJ & Ha & Hd)]; [apply Hw; by left|]. simpl in HJ. apply lookup_insert_Some in HJ as [[? _]|[_ ?]]; [done|].
    apply Hw. right. by exists J. }
  constructor; try by destruct I.
  - intros j J HJ. simpl in HJ. apply lookup_insert_Some in HJ as [[<- <-]|[_ ?]]; [|by apply (inv_jobs _ I j J)].
    by destruct (inv_restores _ I _ _ Hr) as (_ & _ & _ & _ & ? & _).
  - intros j Hj. destruct (inv_running _ I j Hj) as (J & HJ & ?). exists J. split; [|done]. simpl.
    apply lookup_insert_Some. right. split; [|done]. intros <-. congruence.
  - intros x J Hx HJ Hsx. destruct (Hother x J Hx HJ) as [[-> ->]|?]; [done|]. by apply (inv_foreign _ I).
  - intros x Hx (J & HJ & HU). destruct (Hother x J Hx HJ) as [[-> ->]|?]; [by destruct Hs|].
    apply (inv_own _ I); [done|]. by exists J.
  - intros x J Hx HJ HU HD. destruct (Hother x J Hx HJ) as [[-> ->]|?]; [done|]. by apply (inv_deleting _ I x J).
  - intros j ->%Hwr. split; [done|]. destruct Hc as [?|Hip]; [by left|right]. exists r. split_and!; try done. by left.
  - intros j j' ->%Hwr ->%Hwr. done.
  - intros x Hx Ha Hd. destruct (inv_armed _ I x Hx Ha Hd) as [?|[?|(J & HJ & HD)]]; [by left|by right; left|right; right].
    exists J. split; [|done]. simpl. apply lookup_insert_Some. right. split; [|done]. intros Heq. by rewrite <-Heq, Hnone in HJ.
  - intros x J Hcl Hx Hsx HJ HS. destruct (Hother x J Hx HJ) as [[-> ->]|?]; [done|]. by apply (inv_clean _ I x J).
  - intros Hd. destruct (inv_dirty _ I Hd) as [_ Hp]. split; [done|].
    destruct Hp as [?|[?|(x & Hx & Hsx & Hip & Ho)]]; [by left|by right; left|right; right].
    assert (x = r) as -> by (by eapply started_unique). exists r. split_and!; try done. by left.
Qed.

(** ** Everything else preserves the invariant *)

Lemma job_finish_inactive t j : t = JobComplete ∨ t = JobFailed → job_active (job_finish t j) = false.
Proof. intros [->| ->]; unfold job_active, jobSucceeded, job_finish; simpl; done. Qed.

Lemma inv_touch w r del : Inv w → stored w r → (re_Deleting r = true → del = true) →
  Inv (put_restore (re_update del (re_Finalizer r) (re_Status r) r) w).
Proof.
  intros I Hr Hdel. destruct (inv_restores _ I _ _ Hr) as (_ & _ & _ & _ & _ & Hfin).
  apply (inv_put w r); try done.
  - by left.
  - by left.
  - intros Ha Hd. left. split; [done|]. simpl in Hd. destruct (re_Deleting r); [|done]. rewrite <-Hd. symmetry. auto.
Qed.

Lemma writer_jobs_step w jobs' running' d j :
  running' ⊆ w_running w →
  (∀ j J', jobs' !! j = Some J' → w_jobs w !! j = Some J' ∨ job_active J' = false) →
  writer (w_set_dirty d (w_set_jobs jobs' running' w)) j → writer w j.
Proof.
  intros Hr Hj [Hw|(J & HJ & Ha & Hd)]; simpl in *; [left; set_solver|].
  destruct (Hj _ _ HJ) as [?|?]; [right; by exists J|congruence].
Qed.

Lemma inv_finish w n J t d :
  Inv w → w_jobs w !! n = Some J → n ∉ w_running w → job_active J = true →
  (t = JobComplete ∧ d = false) ∨ (t = JobFailed ∧ d = w_dirty w) →
  Inv (w_set_dirty d (w_set_jobs (<[n := job_finish t J]> (w_jobs w)) (w_running w) w)).
Proof.
  intros I HJ Hn Ha Ht.
  assert (Hin : job_active (job_finish t J) = false) by (apply job_finish_inactive; tauto).
  assert (Hl : ∀ j J', <[n := job_finish t J]> (w_jobs w) !! j = Some J' →
    (j = n ∧ J' = job_finish t J) ∨ (j ≠ n ∧ w_jobs w !! j = Some J')).
  { intros j J' [[<- <-]|[? ?]]%lookup_insert_Some; [by left|right; auto]. }
  assert (Hkeep : ∀ r, own w r → own (w_set_dirty d (w_set_jobs (<[n := job_finish t J]> (w_jobs w)) (w_running w) w)) r).
  { intros r (J0 & HJ0 & HU). destruct (decide (n = restoreJobName r)) as [->|?].
    - exists (job_finish t J). simpl. rewrite lookup_insert_eq. split; [done|]. simpl. congruence.
    - exists J0. simpl. rewrite lookup_insert_ne by done. done. }
  apply inv_jobs_step; try done.
  - intros j J' [[-> ->]|[_ ?]]%Hl; [by exists J|by exists J'].
  - intros j Hj. destruct (inv_running _ I j Hj) as (J0 & HJ0 & HA0). exists J0. split; [|done].
    rewrite lookup_insert_ne; [done|]. by intros ->.
  - intros j. apply writer_jobs_step; [done|]. intros j0 J' [[-> ->]|[_ ?]]%Hl; [by right|by left].
  - intros r J' Hr [[<- ->]|[_ ?]]%Hl HU HD; [by apply (inv_deleting _ I r J)|by apply (inv_deleting _ I r J')].
  - intros r Hr _ _ (J0 & HJ0 & HD). destruct (decide (n = restoreJobName r)) as [->|?].
    + exists (job_finish t J). simpl. rewrite lookup_insert_eq. split; [done|]. simpl. congruence.
    + exists J0. simpl. by rewrite lookup_insert_ne.
  - intros r J' Hc Hr Hs HJ' HS. destruct Ht as [[-> ->]|[-> ->]]; [done|].
    destruct (Hl _ _ HJ') as [[_ ->]|[_ ?]]; [done|]. by apply (inv_clean _ I r J').
  - destruct Ht as [[_ ->]|[_ ->]]; [done|by left].
  - intros r _ _ _ Ho. left. by apply Hkeep.
Qed.

Lemma inv_job_gone w n J :
  Inv w → w_jobs w !! n = Some J → n ∉ w_running w →
  (∀ r, restoreJobName r = n → stored w r → armed r → job_Deleting J = true) →
  Inv (w_set_jobs (delete n (w_jobs w)) (w_running w) w).
Proof.
  intros I HJ Hn Hrule.
  assert (Hl : ∀ j J', delete n (w_jobs w) !! j = Some J' → w_jobs w !! j = Some J' ∧ n ≠ j).
  { intros j J' [? ?]%lookup_delete_Some. done. }
  change (Inv (w_set_dirty (w_dirty w) (w_set_jobs (delete n (w_jobs w)) (w_running w) w))).
  apply inv_jobs_step; try done.
  - intros j J' [? _]%Hl. by exists J'.
  - intros j Hj. destruct (inv_running _ I j Hj) as (J0 & HJ0 & HA0). exists J0. split; [|done].
    rewrite lookup_delete_ne; [done|]. by intros ->.
  - intros j. apply writer_jobs_step; [done|]. intros j0 J' [? _]%Hl. by left.
  - intros r J' Hr [? _]%Hl. by apply (inv_deleting _ I).
  - intros r Hr Ha Hdl (J0 & HJ0 & HD). exists J0. split; [|done]. simpl.
    rewrite lookup_delete_ne; [done|]. intros ->. pose proof (Hrule r eq_refl Hr Ha); congruence.
  - intros r J' Hc Hr Hs [? _]%Hl. by apply (inv_clean _ I r J').
  - by left.
  - intros r Hr Hs Hip Ho. pose proof Ho as (J0 & HJ0 & HU). destruct (decide (n = restoreJobName r)) as [->|?].
    + right. intros Ha. assert (J0 = J) as -> by congruence. apply (inv_deleting _ I r J); try done. by apply (Hrule r).
    + left. exists J0. simpl. by rewrite lookup_delete_ne.
Qed.

Lemma inv_job_start w n J :
  Inv w → w_jobs w !! n = Some J → job_active J = true → job_Deleting J = false →
  Inv (w_set_dirty true (w_set_jobs (w_jobs w) ({[n]} ∪ w_running w) w)).
Proof.
  intros I HJ Ha HD.
  assert (Hn : writer w n) by (right; by exists J).
  assert (Hw : ∀ j, writer (w_set_dirty true (w_set_jobs (w_jobs w) ({[n]} ∪ w_running w) w)) j → writer w j).
  { intros j [Hj|?]; [|by right]. simpl in Hj. apply elem_of_union in Hj as [->%elem_of_singleton|?]; [done|by left]. }
  apply inv_jobs_step; try done.
  - intros j J' ?. by exists J'.
  - intros j [->%elem_of_singleton|?]%elem_of_union; [by exists J|by apply (inv_running _ I)].
  - intros r J'. by apply (inv_deleting _ I).
  - intros r J' Hc Hr Hs HJ' HS. destruct (writer_started w n r I Hc Hn Hr Hs) as [-> _].
    assert (J' = J) as -> by congruence. unfold job_active in Ha. by rewrite HS in Ha.
  - intros _. right. by exists n.
  - by left.
Qed.

Theorem env_inv w w' : Inv w → env true cl w w' → Inv w'.
Proof.
  intros I E. destruct E as [w r ??????? |w n r Hr|w n r Hr|w c v Hc w' Hrule|w c Hc Hrule|w|w c ? ? ?|w c n Hc|w n Hn Hlt|w|w b
    |w runs backups Hrule|w n J HJ Ha HD|w n|w n J HJ Hn Ha|w n J HJ Hn Ha|w n J HJ Hor Hrun Hrule].
  - by apply inv_create.
  - pose proof (stored_name _ _ _ I Hr) as Hst. unfold put_or_drop. simpl. destruct (re_Finalizer r) eqn:Ef; simpl.
    + rewrite <-Ef. by apply inv_touch.
    + apply inv_drop; [done..|]. intros Hs. destruct (inv_restores _ I _ _ Hr) as (_ & _ & _ & _ & _ & Hf).
      rewrite Hf in Ef; done.
  - apply inv_touch; [done|by eapply stored_name|done].
  - assert (Hip : inprogress w' = inprogress w).
    { unfold inprogress, w'. simpl. rewrite Hc. unfold rc_ann. simpl. by rewrite lookup_insert_ne. }
    assert (Hint : interrupted w' = interrupted w).
    { unfold interrupted, w'. simpl. rewrite Hc. unfold rc_ann. simpl. by rewrite lookup_insert_ne. }
    change (Inv (w_set_dirty (w_dirty w) w')). unfold w' in *.
    apply (inv_annotate w c); try done.
    + intros m Hm Hne. left. left. split; [|done]. by rewrite <-Hip.
    + intros r Hr Hipr. left. by rewrite <-Hip.
    + by apply Hrule.
    + intros j r Hw (_ & _ & _ & _ & Hp). by rewrite <-Hip, <-Hint in Hp.
    + intros r Hr Ha Hd Hipr. left. etransitivity; [exact Hip|done].
    + intros Hd. split; [done|]. destruct (inv_dirty _ I Hd) as [_ [?|[?|Hx]]]; [congruence|left; by rewrite <-Hint in *|right].
      destruct Hx as (x & ? & ? & Hipx & ?). exists x. split_and!; try done. etransitivity; [exact Hip|done].
  - set (w' := w_set_dirty _ _).
    assert (Hip : inprogress w' = inprogress w).
    { unfold inprogress, w'. simpl. rewrite Hc. unfold rc_ann. simpl. by rewrite lookup_delete_ne. }
    assert (Hcf : confirmed w' = confirmed w).
    { unfold confirmed, w'. simpl. rewrite Hc. unfold rc_ann. simpl. by rewrite lookup_delete_ne. }
    apply (inv_annotate w c); try done.
    + intros m Hm Hne. left. left. split; [|done]. by rewrite <-Hip.
    + intros r Hr Hipr. left. by rewrite <-Hip.
    + intros m Hm. fold w'. rewrite Hcf. by apply (inv_confirmed _ I).
    + intros j r Hw. by destruct (Hrule eq_refl j).
    + intros r Hr Ha Hd Hipr. left. etransitivity; [exact Hip|done].
  - by apply inv_cluster_gone.
  - done.
  - apply inv_server; [done|]. intros [Hp _] Hpa. split; [done|]. simpl. rewrite (Hpa _ Hc). by right.
  - apply inv_server; [done|]. intros [Hp Hs] _. rewrite Hp in Hlt. destruct Hs as [Hs|Hs]; rewrite Hs in Hn; simplify_eq; lia.
  - apply inv_server; [done|]. intros [Hp Hs] _. split; [|done]. simpl. by rewrite Hp.
  - apply inv_server; [done|]. done.
  - destruct (Hrule eq_refl). by apply inv_sources.
  - by apply (inv_job_start w n J).
  - change (Inv (w_set_dirty (w_dirty w) (w_set_jobs (w_jobs w) (w_running w ∖ {[n]}) w))).
    assert (w_running w ∖ {[n]} ⊆ w_running w) by set_solver.
    apply inv_jobs_step; try done.
    + intros j J ?. by exists J.
    + intros j Hj. apply (inv_running _ I). set_solver.
    + intros j. apply writer_jobs_step; [done|]. by left.
    + intros r J. by apply (inv_deleting _ I).
    + intros r J. by apply (inv_clean _ I).
    + by left.
    + by left.
  - by apply inv_finish; [..|left].
  - change (Inv (w_set_dirty (w_dirty w) (w_set_jobs (<[n:=job_finish JobFailed J]> (w_jobs w)) (w_running w) w))).
    by apply inv_finish; [..|right].
  - apply (inv_job_gone w n J); [done..|by apply Hrun|]. intros r Hn Hr. by apply Hrule.
Qed.

End invariant.
