(* ===== verification/RestoreLogic.v ===== *)
(** * A program logic for passes of the Restore controller

    [wp p Q w]: however the system interferes between the calls of [p] and whatever
    the API server answers, every call preserves the invariant and [p] ends in [Q].
    Assertions carried across a call must be [Stable]: preserved by everything else. *)

From Stdlib Require Import Ascii.
From S2P Require Import Prelude GoStrings GoStrconv Replication Pgbackrest Restore RestoreSystem RestoreInvariant.

Open Scope Z_scope.

(** [R] is the object [r] as the server has it: only its deletion can be news. *)
Definition agrees (r R : Restore) : Prop :=
  re_Name R = re_Name r ∧ re_UID R = re_UID r ∧ re_Spec R = re_Spec r ∧ re_Status R = re_Status r ∧
  re_Finalizer R = re_Finalizer r ∧ (re_Deleting r = true → re_Deleting R = true).

Lemma agrees_refl r : agrees r r.
Proof. by split_and!. Qed.

Lemma agrees_trans r1 r2 r3 : agrees r1 r2 → agrees r2 r3 → agrees r1 r3.
Proof. unfold agrees. intuition congruence. Qed.

Lemma agrees_started r R : agrees r R → started R ↔ started r.
Proof. intros (_ & _ & _ & Hs & _). unfold started, restoreFinished. by rewrite Hs. Qed.

Lemma agrees_armed r R : agrees r R → armed R ↔ armed r.
Proof. intros Ha. unfold armed, restoreReason. rewrite agrees_started by done. destruct Ha as (_ & _ & _ & -> & _). done. Qed.

Lemma agrees_same r R : agrees r R → same_object r R.
Proof. intros (? & ? & ? & _ & _ & ?). by split_and!. Qed.

Section logic.
Context `{UrlParse} (cl : string).

(** ** What everything else may change *)

Record env_facts (w w' : World) : Prop := {
  ef_inprogress : w_cluster w' = None ∨ inprogress w' = inprogress w;
  ef_cluster : w_cluster w' = None ∨ ∃ c c', w_cluster w = Some c ∧ w_cluster w' = Some c' ∧ rc_image c' = rc_image c ∧
    (c' = c ∨ (rc_ResourceVersion c < rc_ResourceVersion c')%nat);
  ef_gone : w_cluster w = None → w_cluster w' = None;
  ef_writer j : writer w' j → writer w j;
  ef_job j J' : w_jobs w' !! j = Some J' → ∃ J, w_jobs w !! j = Some J ∧ job_OwnerUID J' = job_OwnerUID J;
  ef_runs : w_runs w' ⊆ w_runs w;
  ef_backups : w_backups w' ⊆ w_backups w;
  ef_kept r : stored w r → armed r → kept w r → kept w' r;
  ef_restore n R : w_restores w !! n = Some R → re_Finalizer R = true → ∃ R', w_restores w' !! n = Some R' ∧ agrees R R';
  ef_origin n R' : w_restores w' !! n = Some R' →
    (∃ R, w_restores w !! n = Some R ∧ agrees R R') ∨ (re_UID R' ∉ w_uids w ∧ ¬ started R');
  ef_uids : w_uids w ⊆ w_uids w';
  ef_dirty : w_dirty w' = true → w_dirty w = true ∨ ∃ j, writer w j;
  ef_sts : (w_sts w = None ∨ w_sts w = Some 0) → (∀ c, w_cluster w = Some c → paused c = true) →
    w_sts w' = None ∨ w_sts w' = Some 0;
  ef_quiet : quiet w → (∀ c, w_cluster w = Some c → paused c = true) → quiet w' }.

Lemma env_facts_refl_but w w' :
  w_cluster w' = w_cluster w → w_restores w' = w_restores w → w_uids w' = w_uids w →
  (∀ j, writer w' j → writer w j) →
  (∀ j J', w_jobs w' !! j = Some J' → ∃ J, w_jobs w !! j = Some J ∧ job_OwnerUID J' = job_OwnerUID J) →
  w_runs w' ⊆ w_runs w → w_backups w' ⊆ w_backups w →
  (∀ r, stored w r → armed r → kept w r → kept w' r) →
  (w_dirty w' = true → w_dirty w = true ∨ ∃ j, writer w j) →
  ((w_sts w = None ∨ w_sts w = Some 0) → (∀ c, w_cluster w = Some c → paused c = true) → w_sts w' = None ∨ w_sts w' = Some 0) →
  (quiet w → (∀ c, w_cluster w = Some c → paused c = true) → quiet w') →
  env_facts w w'.
Proof.
  intros Hc Hr Hu ????????. constructor; rewrite ?Hr, ?Hu, ?Hc; try done.
  - right. unfold inprogress. by rewrite Hc.
  - destruct (w_cluster w) as [c|]; [right; exists c, c; auto|by left].
  - intros n R HR _. exists R. split; [done|apply agrees_refl].
  - intros n R HR. left. exists R. split; [done|apply agrees_refl].
Qed.

Lemma env_facts_cluster w c c' d :
  w_cluster w = Some c → rc_image c' = rc_image c → (rc_ResourceVersion c < rc_ResourceVersion c')%nat →
  rc_ann c' AnnotationRestoreInProgress = rc_ann c AnnotationRestoreInProgress → (d = true → w_dirty w = true) →
  env_facts w (w_set_dirty d (w_set_cluster (Some c') w)).
Proof.
  intros Hc Hi Hrv Ha Hd. constructor; simpl; try done.
  - right. unfold inprogress. simpl. by rewrite Hc.
  - right. exists c, c'. auto.
  - by rewrite Hc.
  - intros j J ?. by exists J.
  - intros n R HR _. exists R. split; [done|apply agrees_refl].
  - intros n R HR. left. exists R. split; [done|apply agrees_refl].
  - intros ?. left. auto.
Qed.

Lemma env_facts_restore w n r R' :
  w_restores w !! n = Some r → agrees r R' → re_Name r = n → env_facts w (put_restore R' w).
Proof.
  intros Hr Ha Hn. pose proof Ha as (Hn' & _).
  constructor; simpl; try done.
  - by right.
  - destruct (w_cluster w) as [c|]; [right; exists c, c; auto|by left].
  - intros j J ?. by exists J.
  - intros m R HR _. destruct (decide (re_Name R' = m)) as [<-|?].
    + exists R'. rewrite lookup_insert_eq. split; [done|]. assert (R = r) as -> by congruence. done.
    + exists R. rewrite lookup_insert_ne by done. split; [done|apply agrees_refl].
  - intros m R [[<- <-]|[_ HR]]%lookup_insert_Some; left; [exists r|exists R]; (split; [|done || apply agrees_refl]); congruence.
  - by left.
Qed.

Lemma env_has_facts w w' : Inv cl w → env true cl w w' → env_facts w w'.
Proof.
  intros I E. destruct E as [w r Hnone Hfresh ????? Hst|w n r Hr|w n r Hr|w c v Hc w' _|w c Hc _|w|w c ? ? ?|w c n Hc|w n Hn Hlt|w|w b
    |w runs backups Hrule|w n J HJ Ha HD|w n|w n J HJ Hn Ha|w n J HJ Hn Ha|w n J HJ Hor Hrun Hrule].
  - constructor; simpl; try done.
    + by right.
    + destruct (w_cluster w) as [c|]; [right; exists c, c; auto|by left].
    + intros j J ?. by exists J.
    + intros n R HR _. exists R. split; [|apply agrees_refl]. apply lookup_insert_Some. right. split; [|done]. intros <-. congruence.
    + intros n R [[<- <-]|[_ HR]]%lookup_insert_Some; [right|left; exists R; split; [done|apply agrees_refl]].
      split; [done|]. intros [_ Hj]. by rewrite Hst in Hj.
    + set_solver.
    + by left.
  - destruct (inv_restores _ _ I _ _ Hr) as [<- _]. unfold put_or_drop. simpl. destruct (re_Finalizer r) eqn:Ef; simpl.
    + eapply env_facts_restore; [exact Hr| |done]. by split_and!.
    + constructor; simpl; try done.
      * by right.
      * destruct (w_cluster w) as [c|]; [right; exists c, c; auto|by left].
      * intros j J ?. by exists J.
      * intros m R HR HF. exists R. split; [|apply agrees_refl]. apply lookup_delete_Some. split; [|done]. intros <-. congruence.
      * intros m R [_ HR]%lookup_delete_Some. left. exists R. split; [done|apply agrees_refl].
      * by left.
  - destruct (inv_restores _ _ I _ _ Hr) as [<- _]. eapply env_facts_restore; [exact Hr| |done]. by split_and!.
  - change (env_facts w (w_set_dirty (w_dirty w) w')). unfold w'. apply (env_facts_cluster w c); try done; [simpl; lia|].
    unfold rc_ann. simpl. by rewrite lookup_insert_ne.
  - apply (env_facts_cluster w c); try done; [simpl; lia|]. unfold rc_ann. simpl. by rewrite lookup_delete_ne.
  - constructor; simpl; try done; try by left.
    + intros j J ?. by exists J.
    + intros n R HR _. exists R. split; [done|apply agrees_refl].
    + intros n R HR. left. exists R. split; [done|apply agrees_refl].
  - done.
  - apply env_facts_refl_but; try done; [by eauto|by left| |].
    + intros _ Hpa. simpl. rewrite (Hpa _ Hc). by right.
    + intros [Hp _] Hpa. split; [done|]. simpl. rewrite (Hpa _ Hc). by right.
  - apply env_facts_refl_but; try done; [by eauto|by left|].
    intros [Hp Hs] _. rewrite Hp in Hlt. destruct Hs as [Hs|Hs]; rewrite Hs in Hn; simplify_eq; lia.
  - apply env_facts_refl_but; try done; [by eauto|by left|]. intros [Hp Hs] _. split; [|done]. simpl. by rewrite Hp.
  - apply env_facts_refl_but; try done; [by eauto|by left].
  - destruct (Hrule eq_refl). apply env_facts_refl_but; try done; [by eauto|by left].
  - assert (Hw : writer w n) by (right; by exists J). apply env_facts_refl_but; try done; [|by eauto|].
    + intros j [Hj|?]; [|by right]. simpl in Hj. apply elem_of_union in Hj as [->%elem_of_singleton|?]; [done|by left].
    + intros _. right. by exists n.
  - apply env_facts_refl_but; try done; [|by eauto|by left]. intros j [Hj|?]; [left; simpl in Hj; set_solver|by right].
  - apply env_facts_refl_but; try done.
    + intros j. apply writer_jobs_step; [done|]. intros j0 J' [[<- <-]|[_ ?]]%lookup_insert_Some; [right|by left].
      apply job_finish_inactive. by left.
    + intros j J' HJ'. simpl in HJ'. apply lookup_insert_Some in HJ' as [[<- <-]|[_ ?]]; [by exists J|by exists J'].
    + intros r _ _ (J0 & HJ0 & HD). destruct (decide (n = restoreJobName r)) as [->|?].
      * exists (job_finish JobComplete J). simpl. rewrite lookup_insert_eq. split; [done|]. simpl. congruence.
      * exists J0. simpl. by rewrite lookup_insert_ne.
  - apply env_facts_refl_but; try done.
    + intros j. change (writer (w_set_dirty (w_dirty w) (w_set_jobs (<[n:=job_finish JobFailed J]> (w_jobs w)) (w_running w) w)) j → writer w j).
      apply writer_jobs_step; [done|]. intros j0 J' [[<- <-]|[_ ?]]%lookup_insert_Some; [right|by left].
      apply job_finish_inactive. by right.
    + intros j J' HJ'. simpl in HJ'. apply lookup_insert_Some in HJ' as [[<- <-]|[_ ?]]; [by exists J|by exists J'].
    + intros r _ _ (J0 & HJ0 & HD). destruct (decide (n = restoreJobName r)) as [->|?].
      * exists (job_finish JobFailed J). simpl. rewrite lookup_insert_eq. split; [done|]. simpl. congruence.
      * exists J0. simpl. by rewrite lookup_insert_ne.
    + by left.
  - apply env_facts_refl_but; try done.
    + intros j. change (writer (w_set_dirty (w_dirty w) (w_set_jobs (delete n (w_jobs w)) (w_running w) w)) j → writer w j).
      apply writer_jobs_step; [done|]. intros j0 J' [_ ?]%lookup_delete_Some. by left.
    + intros j J' HJ'. simpl in HJ'. apply lookup_delete_Some in HJ' as [_ ?]. by exists J'.
    + intros r Hr Ha (J0 & HJ0 & HD). exists J0. split; [|done]. simpl. apply lookup_delete_Some. split; [|done].
      intros ->. pose proof (Hrule eq_refl r eq_refl Hr Ha). congruence.
    + by left.
Qed.

(** ** Stable assertions *)

Class Stable (P : World → Prop) := stable : ∀ w w', Inv cl w → env_facts w w' → P w → P w'.

#[export] Instance stable_const (P : Prop) : Stable (λ _, P).
Proof. by intros w w' _ _. Qed.
#[export] Instance stable_and P Q : Stable P → Stable Q → Stable (λ w, P w ∧ Q w).
Proof. intros HP HQ w w' I F [? ?]. split; [by eapply HP|by eapply HQ]. Qed.
#[export] Instance stable_or P Q : Stable P → Stable Q → Stable (λ w, P w ∨ Q w).
Proof. intros HP HQ w w' I F [?|?]; [left; by eapply HP|right; by eapply HQ]. Qed.
#[export] Instance stable_forall {A} (P : A → World → Prop) : (∀ a, Stable (P a)) → Stable (λ w, ∀ a, P a w).
Proof. intros HP w w' I F HPw a. by eapply HP. Qed.

(** The Restore as the pass has it in memory is the one stored; it keeps its finalizer. *)
Definition cur (r : Restore) (w : World) : Prop := re_Finalizer r = true ∧ ∃ R, stored w R ∧ agrees r R.

Definition gone (w : World) : Prop := w_cluster w = None.
Definition released (r : Restore) (w : World) : Prop := re_Name r ≠ "" ∧ inprogress w ≠ re_Name r.
Definition holds (r : Restore) (w : World) : Prop := re_Name r ≠ "" ∧ (gone w ∨ inprogress w = re_Name r).
Definition sole (r : Restore) (w : World) : Prop := ∀ m, session w m → m = re_Name r.
Definition idle (j : string) (w : World) : Prop := ¬ writer w j.
Definition orphan (r : Restore) (w : World) : Prop := ¬ own w r.
(** The Cluster did not change since it was read as [c0], or its version shows it. *)
Definition view (c0 : RestoreCluster) (w : World) : Prop :=
  ∀ c, w_cluster w = Some c → (rc_ResourceVersion c0 ≤ rc_ResourceVersion c)%nat ∧ (rc_ResourceVersion c = rc_ResourceVersion c0 → c = c0).
(** No Job may write, and the volume is complete. *)
Definition clean (w : World) : Prop := gone w ∨ (w_dirty w = false ∧ ∀ j, ¬ writer w j).

#[export] Instance stable_gone : Stable gone.
Proof. intros w w' I F. exact (ef_gone _ _ F). Qed.

#[export] Instance stable_released r : Stable (released r).
Proof.
  intros w w' I F [Hne Hi]. split; [done|]. destruct (ef_inprogress _ _ F) as [Hc|Hp]; [|by rewrite Hp].
  unfold inprogress. by rewrite Hc.
Qed.

#[export] Instance stable_holds r : Stable (holds r).
Proof.
  intros w w' I F [Hne Hi]. split; [done|]. destruct (ef_inprogress _ _ F) as [Hc|Hp]; [by left|].
  destruct Hi as [?|?]; [left; by apply (ef_gone _ _ F)|right; congruence].
Qed.

Lemma session_facts w w' m : env_facts w w' → session w' m → session w m.
Proof.
  intros F [[Hm Hne]|(r & Hr & Hs)].
  - destruct (ef_inprogress _ _ F) as [Hc|Hp]; [|left; split; congruence].
    unfold inprogress in Hm. rewrite Hc in Hm. congruence.
  - right. destruct (ef_origin _ _ F _ _ Hr) as [(R & HR & Ha)|[_ ?]]; [|done]. exists R. split; [done|].
    by apply (agrees_started R r).
Qed.

#[export] Instance stable_sole r : Stable (sole r).
Proof. intros w w' I F Hs m Hm. apply Hs. by eapply session_facts. Qed.

#[export] Instance stable_idle j : Stable (idle j).
Proof. intros w w' I F Hi Hw. apply Hi. by apply (ef_writer _ _ F). Qed.

#[export] Instance stable_orphan r : Stable (orphan r).
Proof.
  intros w w' I F Ho (J' & HJ' & HU). apply Ho. destruct (ef_job _ _ F _ _ HJ') as (J & HJ & HJU). exists J. split; congruence.
Qed.

#[export] Instance stable_view c0 : Stable (view c0).
Proof.
  intros w w' I F Hv c' Hc'. destruct (ef_cluster _ _ F) as [?|(c & c1 & Hc & Hc1 & _ & Hrv)]; [congruence|].
  assert (c1 = c') as -> by congruence. destruct (Hv c Hc) as [Hle Heq].
  destruct Hrv as [->|?]; [done|]. split; [lia|]. intros. lia.
Qed.

#[export] Instance stable_clean : Stable clean.
Proof.
  intros w w' I F [?|[Hd Hw]]; [left; by apply (ef_gone _ _ F)|right]. split.
  - destruct (w_dirty w') eqn:E; [|done]. destruct (ef_dirty _ _ F E) as [?|[j ?]]; [congruence|by destruct (Hw j)].
  - intros j ?%(ef_writer _ _ F). by destruct (Hw j).
Qed.

Lemma resolvable_facts w w' r : env_facts w w' → resolvable w' r → resolvable w r.
Proof.
  intros F (run & backup & c' & H1 & H2 & H3 & H4).
  destruct (ef_cluster _ _ F) as [?|(c & c1 & Hc & Hc1 & Hi & _)]; [congruence|].
  assert (c1 = c') as -> by congruence. exists run, backup, c. split_and!.
  - eapply lookup_weaken; [done|by apply ef_runs].
  - eapply lookup_weaken; [done|by apply ef_backups].
  - done.
  - unfold sources_ok in *. by rewrite <-Hi.
Qed.

#[export] Instance stable_unresolvable r : Stable (λ w, ¬ resolvable w r).
Proof. intros w w' I F Hn Hr. apply Hn. by eapply resolvable_facts. Qed.

#[export] Instance stable_cur r : Stable (cur r).
Proof.
  intros w w' I F [Hf (R & HR & Ha)]. split; [done|].
  destruct (ef_restore _ _ F _ _ HR) as (R' & HR' & Ha'); [destruct Ha as (_ & _ & _ & _ & -> & _); done|].
  exists R'. split; [|by eapply agrees_trans]. unfold stored. destruct Ha' as (-> & _). done.
Qed.

(** An armed Restore will not create its Job again: it is being deleted, its sources
    are invalid, or the Job is there. *)
Definition settled (r : Restore) (w : World) : Prop :=
  cur r w ∧ (armed r → re_Deleting r = true ∨ ¬ resolvable w r ∨ kept w r).

Lemma kept_agrees w r R : agrees r R → kept w R ↔ kept w r.
Proof. intros Ha%agrees_same. unfold kept. by rewrite (same_job _ _ Ha). Qed.

Lemma own_agrees w r R : agrees r R → own w R ↔ own w r.
Proof. intros Ha%agrees_same. by apply own_same. Qed.

Lemma kept_facts w w' r : env_facts w w' → cur r w → armed r → kept w r → kept w' r.
Proof.
  intros F [_ (R & HR & Ha)] Hr Hk. apply (kept_agrees w' r R Ha), (ef_kept _ _ F); [done|by apply (agrees_armed r R)|].
  by apply (kept_agrees w r R).
Qed.

#[export] Instance stable_settled r : Stable (settled r).
Proof.
  intros w w' I F [Hc Hk]. split; [by eapply stable_cur|]. intros Ha.
  destruct (Hk Ha) as [?|[?|?]]; [by left|right; left; by eapply stable_unresolvable|right; right; by eapply kept_facts].
Qed.

#[export] Instance stable_no_job r : Stable (λ w, w_jobs w !! restoreJobName r = None).
Proof.
  intros w w' I F Hn. destruct (w_jobs w' !! restoreJobName r) eqn:E; [|done].
  destruct (ef_job _ _ F _ _ E) as (J & ? & _). congruence.
Qed.

(** The Restore holds the stopped Cluster. *)
Definition stopped_for (r : Restore) (w : World) : Prop := holds r w ∧ quiet w.

#[export] Instance stable_stopped_for r : Stable (stopped_for r).
Proof.
  intros w w' I F [Hh Hq]. split; [by eapply stable_holds|]. apply (ef_quiet _ _ F); [done|].
  intros c Hc. destruct Hh as [Hne [?|Hi]]; [unfold gone in *; congruence|].
  unfold paused. unfold inprogress in Hi. rewrite Hc in Hi. by rewrite Hi, bool_decide_eq_false_2.
Qed.

Definition scaled_down (r : Restore) (w : World) : Prop := holds r w ∧ (w_sts w = None ∨ w_sts w = Some 0).

#[export] Instance stable_scaled_down r : Stable (scaled_down r).
Proof.
  intros w w' I F [Hh Hq]. split; [by eapply stable_holds|]. apply (ef_sts _ _ F); [done|].
  intros c Hc. destruct Hh as [Hne [?|Hi]]; [unfold gone in *; congruence|].
  unfold paused. unfold inprogress in Hi. rewrite Hc in Hi. by rewrite Hi, bool_decide_eq_false_2.
Qed.

(** An armed Restore that is not being deleted is ready. *)
Definition prepared (r : Restore) (w : World) : Prop :=
  cur r w ∧ (armed r → stopped_for r w ∨ ¬ resolvable w r ∨ kept w r).

#[export] Instance stable_prepared r : Stable (prepared r).
Proof.
  intros w w' I F [Hc Hk]. split; [by eapply stable_cur|]. intros Ha.
  destruct (Hk Ha) as [?|[?|?]]; [left; by eapply stable_stopped_for|right; left; by eapply stable_unresolvable|].
  right; right. by eapply kept_facts.
Qed.

Lemma stable_rtc P `{!Stable P} w w' : Inv cl w → rtc (env true cl) w w' → P w → Inv cl w' ∧ P w'.
Proof.
  intros I Hr. induction Hr as [w|w w1 w' E _ IH]; [done|]. intros HP. apply IH; [by eapply env_inv|].
  eapply stable; [done|by apply env_has_facts|done].
Qed.

(** ** Weakest preconditions *)

Fixpoint wp {A} (p : prog A) (Q : A → World → Prop) (w : World) : Prop :=
  match p with
  | Ret a => Inv cl w ∧ Q a w
  | Do c k => ∀ w1 a w2, rtc (env true cl) w w1 → answers c w1 a w2 → Inv cl w2 ∧ wp (k a) Q w2
  end.

Lemma wp_mono {A} (p : prog A) (Q Q' : A → World → Prop) w :
  (∀ a w, Inv cl w → Q a w → Q' a w) → wp p Q w → wp p Q' w.
Proof.
  intros HQ. revert w. induction p as [a|R c k IH]; simpl; intros w; [intros [? ?]; auto|].
  intros Hp w1 a w2 Hr Ha. destruct (Hp _ _ _ Hr Ha) as [? ?]. auto.
Qed.

Lemma wp_bind {A B} (p : prog A) (k : A → prog B) Q w : wp p (λ a w, wp (k a) Q w) w → wp (p ≫= k) Q w.
Proof.
  revert w. induction p as [a|R c g IH]; simpl; intros w; [by intros [_ ?]|].
  intros Hp w1 a w2 Hr Ha. destruct (Hp _ _ _ Hr Ha) as [? ?]. split; [done|]. by apply IH.
Qed.

Lemma wp_ret {A} (a : A) (Q : A → World → Prop) w : Inv cl w → Q a w → wp (mret a) Q w.
Proof. done. Qed.

(** A call that only reads. *)
Definition reads {R} (c : call R) : Prop := ∀ w a w', served c w a w' → w' = w.

Lemma wp_read P {R B} (c : call R) (k : R → prog B) Q w : reads c → Stable P → Inv cl w → P w →
  (∀ w a, Inv cl w → P w → served c w a w → wp (k a) Q w) →
  (∀ w fault e, Inv cl w → P w → faulty c = Some fault → wp (k (fault e)) Q w) →
  wp (ask c ≫= k) Q w.
Proof.
  intros Hc HP I Hw Hok Herr w1 a w2 Hr Ha. destruct (stable_rtc P w w1 I Hr Hw) as [I1 P1].
  destruct Ha as [Hs|(fault & e & Hf & -> & [->|[a0 Hs]])].
  - pose proof (Hc _ _ _ Hs) as ->. split; [done|]. by apply Hok.
  - split; [done|]. by apply Herr.
  - pose proof (Hc _ _ _ Hs) as ->. split; [done|]. by apply Herr.
Qed.

(** A call that writes. *)
Lemma wp_write P {R B} (c : call R) (k : R → prog B) Q w : Stable P → Inv cl w → P w →
  (∀ w a w', Inv cl w → P w → served c w a w' → Inv cl w' ∧ (Inv cl w' → wp (k a) Q w')) →
  (∀ w fault e, Inv cl w → faulty c = Some fault → wp (k (fault e)) Q w) →
  wp (ask c ≫= k) Q w.
Proof.
  intros HP I Hw Hok Herr w1 a w2 Hr Ha. destruct (stable_rtc P w w1 I Hr Hw) as [I1 P1].
  destruct Ha as [Hs|(fault & e & Hf & -> & [->|[a0 Hs]])].
  - destruct (Hok _ _ _ I1 P1 Hs) as [? Hk]. auto.
  - split; [done|]. by apply Herr.
  - destruct (Hok _ _ _ I1 P1 Hs) as [? _]. split; [done|]. by apply Herr.
Qed.

End logic.

(** [call_reads P]: the first call of the program reads; [P] is carried across it.
    The goals left are the program after an answer and after an error. *)
Ltac call_reads P :=
  apply (wp_read _ P);
  [by intros ? ? ? Hserved; simpl in Hserved; repeat (destruct Hserved as [? Hserved]); subst
  |apply _|assumption|try done|cbn [served faulty]|cbn [served faulty]].
