(* ===== verification/RestorePasses.v ===== *)
(** * Every pass of the Restore controller preserves the invariant *)

From Stdlib Require Import Ascii.
From S2P Require Import Prelude GoStrings GoStrconv Replication Pgbackrest Restore RestoreSystem RestoreInvariant RestoreLogic.

Open Scope Z_scope.

Section passes.
Context `{UrlParse} `{RestoreDigest} (cl : string).

(** The program preserves the invariant, whatever it returns. *)
Definition safe {A} (p : prog A) (w : World) : Prop := wp cl p (λ _ _, True) w.

Lemma safe_ret {A} (a : A) w : Inv cl w → safe (mret a) w.
Proof. done. Qed.

(** ** Facts about the Restore of the pass *)

Lemma cur_name r w : Inv cl w → cur r w → re_Name r ≠ "".
Proof. intros I (_ & R & HR & Hn & _). rewrite <-Hn. by eapply stored_nonempty. Qed.

Lemma cur_unique r w R : cur r w → stored w R → re_Name R = re_Name r → agrees r R.
Proof.
  intros (_ & R' & HR' & Ha) HR Hn. pose proof Ha as (Hn' & _). unfold stored in *. rewrite Hn in HR. rewrite Hn' in HR'.
  congruence.
Qed.

Lemma cur_session r w : cur r w → started r → session w (re_Name r).
Proof. intros (_ & R & HR & Ha) Hs. pose proof Ha as (<- & _). apply started_session; [done|]. by apply (agrees_started r R). Qed.

Lemma orphan_idle r w : Inv cl w → cur r w → orphan r w → gone w ∨ idle (restoreJobName r) w.
Proof.
  intros I (_ & R & HR & Hn & Hu & _) Ho. destruct (decide (gone w)) as [?|Hg]; [by left|right].
  by eapply (not_own_not_writer cl w r R).
Qed.

Lemma unstarted_orphan r w : Inv cl w → cur r w → rest_JobName (re_Status r) = "" → orphan r w.
Proof.
  intros I (_ & R & HR & Ha) Hj Ho. apply (inv_own _ _ I R HR); [by apply (own_agrees w r R)|].
  destruct Ha as (_ & _ & _ & -> & _). done.
Qed.

(** The writing Jobs are those of the started Restore, while there is a Cluster. *)
Lemma started_writers r w : Inv cl w → cur r w → started r → gone w ∨ ∀ j, j = restoreJobName r ∨ idle j w.
Proof.
  intros I (_ & R & HR & Ha) Hs. destruct (decide (gone w)) as [?|Hg]; [by left|right]. intros j.
  destruct (decide (j = restoreJobName r)) as [?|Hne]; [by left|right]. intros Hw.
  destruct (writer_started cl w j R I Hg Hw HR) as [-> _]; [by apply (agrees_started r R)|].
  apply Hne. apply (same_job r R). by apply agrees_same.
Qed.

Lemma inactive_idle w j J : Inv cl w → w_jobs w !! j = Some J → job_active J = false → idle j w.
Proof.
  intros I HJ Ha [Hr|(J' & HJ' & Ha' & _)].
  - destruct (inv_running _ _ I _ Hr) as (J' & HJ' & Ha'). congruence.
  - congruence.
Qed.

Lemma succeeded_clean r w J : Inv cl w → cur r w → started r → w_jobs w !! restoreJobName r = Some J → jobSucceeded J = true → clean w.
Proof.
  intros I Hc Hs HJ HS. destruct (started_writers r w I Hc Hs) as [?|Hw]; [by left|].
  destruct (decide (gone w)) as [?|Hg]; [by left|right]. destruct Hc as (_ & R & HR & Ha). split.
  - apply (inv_clean _ _ I R J); try done; [by apply (agrees_started r R)|]. by rewrite (same_job r R (agrees_same _ _ Ha)).
  - intros j Hj. destruct (Hw j) as [->|Hi]; [|by apply Hi].
    eapply (inactive_idle w _ J I HJ); [|done]. unfold job_active. by rewrite HS.
Qed.

(** ** Status writes *)

Lemma locked_stored r w R : Inv cl w → locked_restore r w = Some R → stored w R ∧ re_Name R = re_Name r.
Proof.
  intros I Hl. unfold locked_restore in Hl. apply bind_Some in Hl as (R' & HR & Hl).
  destruct (_ && _); [|done]. injection Hl as ->. destruct (inv_restores _ _ I _ _ HR) as [Hn _].
  split; [|done]. unfold stored. by rewrite Hn.
Qed.

(** The write [s] of the status of [r]. *)
Definition status_ok (r : Restore) (s : RestoreStatus) (w : World) : Prop :=
  let r' := set_restore_status s r in
  (rest_JobName (re_Status r) ≠ "" → rest_JobName s ≠ "") ∧
  (started r' → started r ∨ (rest_JobName (re_Status r) = "" ∧ w_jobs w !! restoreJobName r = None ∧ sole r w ∧ stopped_for r w)) ∧
  (started r → started r' ∨ (released r w ∧ (gone w ∨ idle (restoreJobName r) w))) ∧
  (armed r' → armed r ∨ stopped_for r w) ∧ (started r → armed r' → armed r).

Lemma stopped_ready r w : Inv cl w → stopped_for r w → ready w r.
Proof.
  intros I [[_ [Hg|Hi]] Hq]; [|by left]. right; left. intros (? & ? & c & _ & _ & Hc & _). unfold gone in Hg. congruence.
Qed.

Lemma confirmed_stopped r w : Inv cl w → stopped_for r w → confirmed w = "" ∨ confirmed w = re_Name r.
Proof.
  intros I [[Hne [Hg|Hi]] _]; [left; unfold confirmed; by rewrite Hg|]. apply (inv_confirmed _ _ I). left. done.
Qed.

Lemma inv_status r s w R : Inv cl w → cur r w → locked_restore (set_restore_status s r) w = Some R → status_ok r s w →
  let R' := re_update (re_Deleting R) (re_Finalizer R) s R in Inv cl (put_restore R' w) ∧ agrees (set_restore_status s r) R' ∧ stored (put_restore R' w) R'.
Proof.
  intros I Hc Hl (Hjob & Hstart & Hstop & Harm & Hdirty).
  destruct (locked_stored _ _ _ I Hl) as [HR Hn]. pose proof (cur_unique r w R Hc HR Hn) as Ha.
  pose proof Ha as (_ & Hu & Hsp & Hst & Hf & Hd). simpl in Hn.
  assert (Hsame : ∀ P : RestoreStatus → Prop, P (re_Status R) ↔ P (re_Status r)) by (intros P; by rewrite Hst).
  set (R' := re_update _ _ _ _).
  assert (Hs' : started R' ↔ started (set_restore_status s r)) by done.
  assert (Ha' : armed R' ↔ armed (set_restore_status s r)) by done.
  pose proof (same_job r R (agrees_same _ _ Ha)) as Hjn.
  split_and!.
  - apply (inv_put cl w R); try done.
    + intros _. simpl. rewrite Hf. by destruct Hc.
    + by rewrite Hst.
    + intros [?|(? & Hnone & Hsole & Hstopped)]%Hs'%Hstart; [left; by apply (agrees_started r R)|right].
      split_and!; [by rewrite Hst| | |].
      * intros J. rewrite Hjn. congruence.
      * intros m Hm. rewrite Hn. by apply Hsole.
      * rewrite Hn. by apply confirmed_stopped.
    + intros [?|([Hne ?] & Hi)]%(agrees_started r R)%Hstop; [by left|right| done]. split; [by rewrite Hn|by rewrite Hjn].
    + intros [?|Hsr]%Ha'%Harm HD; [left|right].
      * split; [by apply (agrees_armed r R)|done].
      * apply (ready_same w r R); [by apply agrees_same|]. by apply stopped_ready.
    + intros ?%(agrees_started r R) ?%Ha'; [|done]. apply (agrees_armed r R); [done|]. by apply Hdirty.
  - split_and!; done.
  - apply stored_put. by left.
Qed.

Lemma served_update r s w a w' : served (UpdateRestoreStatus (set_restore_status s r)) w a w' → ∃ R,
  locked_restore (set_restore_status s r) w = Some R ∧ a = inl (re_update (re_Deleting R) (re_Finalizer R) s R) ∧
  w' = put_restore (re_update (re_Deleting R) (re_Finalizer R) s R) w.
Proof. intros (R & Hl & -> & ->). exists R. done. Qed.

(** A program that ends with a status write. *)
Lemma wp_update {B} P r s (k : result Restore → prog B) Q w :
  Stable cl P → Inv cl w → P w → (∀ w, P w → cur r w) → (∀ w, Inv cl w → P w → status_ok r s w) →
  (∀ R w, Inv cl w → agrees (set_restore_status s r) R → stored w R → wp cl (k (inl R)) Q w) →
  (∀ e w, Inv cl w → wp cl (k (inr e)) Q w) → wp cl (ask (UpdateRestoreStatus (set_restore_status s r)) ≫= k) Q w.
Proof.
  intros HP I HPw Hcur Hok Hk He. apply (wp_write cl P); try done.
  - intros w1 a w2 I1 P1 (R & Hl & -> & ->)%served_update.
    destruct (inv_status r s w1 R I1 (Hcur _ P1) Hl (Hok _ I1 P1)) as (I2 & Ha & HR). split; [done|]. intros _. by apply Hk.
  - intros w1 fault e I1 [= <-]. by apply He.
Qed.

Lemma unfinished_started r : restoreFinished r = false → rest_JobName (re_Status r) ≠ "" → started r.
Proof. done. Qed.

Lemma wp_state r phase reason msg d Q w :
  Inv cl w → cur r w → restoreFinished r = false → phase = RestorePhasePending ∨ phase = RestorePhaseRunning →
  reason ≠ reasonCreatingJob → (∀ w, Inv cl w → Q (d, None) w) → (∀ e w, Inv cl w → Q (0, Some e) w) →
  wp cl (setPhysicalRestoreState r phase reason msg d) Q w.
Proof.
  intros I Hc Hu Hph Hre HN HE. unfold setPhysicalRestoreState, setAvailable. apply (wp_update (cur r)); try done; [apply _|..].
  - intros w1 I1 P1.
    assert (Hf : ∀ s, rest_Phase s = phase → restoreFinished (set_restore_status s r) = false).
    { intros s Hs. unfold restoreFinished. simpl. rewrite Hs. by destruct Hph as [-> | ->]. }
    split_and!; try done.
    + intros [_ ?]. left. by apply unfinished_started.
    + intros [_ ?]. left. split; [by apply Hf|done].
    + by intros [_ ?].
    + by intros _ [_ ?].
  - intros R w1 I1 _ _. apply wp_ret; auto.
  - intros e w1 I1. apply wp_ret; auto.
Qed.

Lemma safe_state r phase reason msg d w :
  Inv cl w → cur r w → restoreFinished r = false → phase = RestorePhasePending ∨ phase = RestorePhaseRunning →
  reason ≠ reasonCreatingJob → safe (setPhysicalRestoreState r phase reason msg d) w.
Proof. intros. by apply wp_state. Qed.

Lemma safe_failed P r cause w :
  Stable cl P → Inv cl w → P w → (∀ w, P w → cur r w) →
  (∀ w, Inv cl w → P w → started r → released r w ∧ (gone w ∨ idle (restoreJobName r) w)) →
  safe (markFailed r cause) w.
Proof.
  intros HP I HPw Hcur Hok. unfold markFailed, setAvailable. call_reads P; [|done]. intros w1 now I1 P1 _. apply (wp_update P); try done.
  - intros w2 I2 P2. split_and!; try done.
    + by intros [? _].
    + intros ?. right. by apply Hok.
    + by intros [_ ?].
    + by intros _ [_ ?].
Qed.

(** ** finishOnCluster *)

Lemma finished_inprogress ann r o :
  default "" (finishedAnnotations ann r o !! AnnotationRestoreInProgress) =
  if decide (default "" (ann !! AnnotationRestoreInProgress) = re_Name r) then "" else default "" (ann !! AnnotationRestoreInProgress).
Proof.
  unfold finishedAnnotations. destruct (cut_slash _) as [[c u] b]. destruct (decide (default "" (ann !! AnnotationRestoreInProgress) = re_Name r)).
  - destruct o; repeat case_decide; rewrite ?lookup_insert_ne, ?lookup_delete_ne, ?lookup_delete_eq by done; done.
  - destruct o; repeat case_decide; rewrite ?lookup_insert_ne, ?lookup_delete_ne by done; done.
Qed.

Lemma finished_interrupted ann r o :
  default "" (finishedAnnotations ann r o !! AnnotationRestoreInterrupted) =
  match o with
  | restoreOutcomeSucceeded => ""
  | restoreOutcomeFailed | restoreOutcomeInterrupted => re_Name r
  | restoreOutcomeReleased => default "" (ann !! AnnotationRestoreInterrupted)
  end.
Proof.
  unfold finishedAnnotations. destruct (cut_slash _) as [[c u] b].
  destruct o; repeat case_decide; rewrite ?lookup_insert_eq, ?lookup_delete_eq, ?lookup_delete_ne by done; done.
Qed.

Lemma finished_confirmed ann r o :
  let c := (cut_slash (default "" (ann !! AnnotationAllowRestore))).1.1 in
  (cut_slash (default "" (finishedAnnotations ann r o !! AnnotationAllowRestore))).1.1 = if decide (c = re_Name r) then "" else c.
Proof.
  unfold finishedAnnotations.
  set (ann1 := if decide (_ = re_Name r) then _ else ann).
  assert (Heq : ann1 !! AnnotationAllowRestore = ann !! AnnotationAllowRestore).
  { subst ann1. case_decide; [by rewrite lookup_delete_ne|done]. }
  clearbody ann1. rewrite Heq. destruct (cut_slash (default "" (ann !! AnnotationAllowRestore))) as [[c u] b] eqn:Ec. simpl.
  destruct (decide (c = re_Name r)).
  - destruct o; rewrite ?lookup_insert_ne, ?(lookup_delete_ne _ AnnotationRestoreInterrupted) by done; by rewrite lookup_delete_eq.
  - destruct o; rewrite ?lookup_insert_ne, ?(lookup_delete_ne _ AnnotationRestoreInterrupted) by done; by rewrite Heq, Ec.
Qed.

(** What each outcome requires. *)
Definition may_finish (r : Restore) (o : restoreOutcome) (w : World) : Prop :=
  settled r w ∧
  match o with
  | restoreOutcomeReleased => orphan r w ∧ (started r → armed r)
  | restoreOutcomeSucceeded => started r ∧ clean w
  | restoreOutcomeFailed => started r ∧ (gone w ∨ idle (restoreJobName r) w)
  | restoreOutcomeInterrupted => started r ∧ (re_Deleting r = true ∨ gone w ∨ idle (restoreJobName r) w)
  end.

#[local] Instance stable_may_finish r o : Stable cl (may_finish r o).
Proof. unfold may_finish. destruct o; apply _. Qed.

(** A write of the annotations keeps what does not depend on them. *)
Lemma may_finish_patch r o w c c' : w_cluster w = Some c → rc_image c' = rc_image c → may_finish r o w →
  may_finish r o (w_set_cluster (Some c') w).
Proof.
  intros Hc Hi [[Hcur Hset] Ho].
  assert (Hg : ∀ P : Prop, gone w ∨ P → P) by (intros P [Hg|?]; [unfold gone in Hg; congruence|done]).
  split.
  - split; [exact Hcur|]. intros Ha. destruct (Hset Ha) as [?|[Hn|?]]; [by left|right; left|by right; right].
    intros Hr. apply Hn. by apply (resolvable_image w (w_set_cluster (Some c') w) c c').
  - destruct o; try done.
    + destruct Ho as [? Hcl%Hg]. split; [done|]. by right.
    + destruct Ho as [? Hcl%Hg]. split; [done|]. by right.
    + destruct Ho as [? [?|Hcl%Hg]]; (split; [done|]); [by left|by right; right].
Qed.

Lemma inv_finish_patch r o w c :
  Inv cl w → w_cluster w = Some c → may_finish r o w →
  let c' := rc_update (finishedAnnotations (rc_Annotations c) r o) (rc_LastRestore c) c in
  Inv cl (w_set_cluster (Some c') w) ∧ released r (w_set_cluster (Some c') w).
Proof.
  intros I Hc [[Hcur Hset] Ho] c'. set (w' := w_set_cluster (Some c') w).
  pose proof (cur_name r w I Hcur) as Hne.
  assert (Hip : inprogress w' = if decide (inprogress w = re_Name r) then "" else inprogress w).
  { unfold inprogress. simpl. rewrite Hc. apply finished_inprogress. }
  assert (Hcf : confirmed w' = if decide (confirmed w = re_Name r) then "" else confirmed w).
  { unfold confirmed. simpl. rewrite Hc. apply finished_confirmed. }
  assert (Hint : interrupted w' = match o with restoreOutcomeSucceeded => ""
    | restoreOutcomeFailed | restoreOutcomeInterrupted => re_Name r | restoreOutcomeReleased => interrupted w end).
  { unfold interrupted. simpl. rewrite Hc. apply finished_interrupted. }
  assert (Hg : ∀ P : Prop, gone w ∨ P → P) by (intros P [Hg|?]; [unfold gone in Hg; congruence|done]).
  assert (Hcl : w_cluster w ≠ None) by congruence.
  assert (Hsame : ∀ x, stored w x → inprogress w = re_Name r → inprogress w = re_Name x → agrees r x).
  { intros x Hx H1 H2. apply (cur_unique r w); [done..|congruence]. }
  split; [|split; [done|rewrite Hip; destruct (decide (inprogress w = re_Name r)); congruence]].
  change (Inv cl (w_set_dirty (w_dirty w) w')).
  apply (inv_annotate cl w c); try done; fold w'.
  - change (∀ m, inprogress w' = m → m ≠ "" → session w m ∨ (∀ k, session w k → k = m) ∧ (confirmed w' = "" ∨ confirmed w' = m)).
    rewrite Hip. intros m Hm Hm'. left. left. destruct (decide (inprogress w = re_Name r)); [congruence|done].
  - intros x Hx. change (inprogress w' = re_Name x → inprogress w = re_Name x ∨ ¬ own w x). rewrite Hip.
    destruct (decide (inprogress w = re_Name r)); [|by left]. intros Hx'. by destruct (stored_nonempty _ _ _ I Hx).
  - change (∀ m, session w m → confirmed w' = "" ∨ confirmed w' = m). rewrite Hcf. intros m Hm.
    destruct (decide (confirmed w = re_Name r)); [by left|by apply (inv_confirmed _ _ I)].
  - intros j x Hw Hx. change (inprogress w' = re_Name x ∨ interrupted w' ≠ "" ∧ re_Deleting x = true).
    assert (Hrx : started r → j = restoreJobName r ∧ agrees r x).
    { intros Hs. destruct Hcur as [_ (R & HR & Ha)]. destruct (writer_started cl w j R I Hcl Hw HR) as [-> HrR]; [by apply (agrees_started r R)|].
      split; [apply (same_job r R); by apply agrees_same|]. destruct Hx as (Hx & _ & Hsx & _).
      assert (x = R) as ->; [|done]. apply (started_unique cl w); try done. by apply (agrees_started r R). }
    destruct o.
    + rewrite Hip, Hint. destruct Hx as (Hx & Hj & Hsx & Hox & Hp). destruct (decide (inprogress w = re_Name r)) as [Hd|Hd]; [|done]. destruct Hp as [Hp|?]; [|by right].
      destruct Ho as [Hor _]. exfalso. apply Hor. apply (own_agrees w r x); [|done]. by apply Hsame.
    + destruct Ho as [_ [_ Hcln]%Hg]. by destruct (Hcln j).
    + destruct Ho as [Hs Hid%Hg]. destruct (Hrx Hs) as [-> _]. by destruct Hid.
    + destruct Ho as [Hs Hid]. destruct (Hrx Hs) as [-> Ha]. destruct Hid as [Hd|Hid%Hg]; [|by destruct Hid].
      right. split; [by rewrite Hint|]. by apply Ha.
  - intros x Hx Hax Hdx Hpx. change (inprogress w' = re_Name x ∨ ¬ resolvable w x ∨ kept w x). rewrite Hip.
    destruct (decide (inprogress w = re_Name r)) as [Hd|Hd]; [|by left]. pose proof (Hsame x Hx Hd Hpx) as Ha.
    destruct Hset as [Hdel|[Hn|Hk]]; [by apply (agrees_armed r x)|..].
    + destruct Ha as (_ & _ & _ & _ & _ & Ha). rewrite Ha in Hdx; done.
    + right; left. unfold resolvable, sources_ok in *. destruct Ha as (_ & _ & -> & _). done.
    + right; right. by apply (kept_agrees w r x).
  - intros Hd. split; [done|]. change (interrupted w' ≠ "" ∨ ∃ x, stored w x ∧ started x ∧ inprogress w' = re_Name x ∧ (own w x ∨ ¬ armed x)).
    rewrite Hint. destruct (inv_dirty _ _ I Hd) as [_ [?|[Hi|(x & Hx & Hsx & Hpx & Hox)]]]; [done|..].
    + destruct o; try by left. destruct Ho as [_ [Hcln _]%Hg]. congruence.
    + destruct o; try by left.
      * right. exists x. rewrite Hip. destruct (decide (inprogress w = re_Name r)) as [Hdp|Hdp]; [|done]. pose proof (Hsame x Hx Hdp Hpx) as Ha.
        destruct Ho as [Hor Harm]. destruct Hox as [Hox|Hox].
        -- destruct Hor. by apply (own_agrees w r x).
        -- destruct Hox. apply (agrees_armed r x); [done|]. apply Harm. by apply (agrees_started r x).
      * destruct Ho as [_ [Hcln _]%Hg]. congruence.
Qed.

Lemma inv_last_restore w c record : Inv cl w → w_cluster w = Some c → Inv cl (w_set_cluster (Some (rc_update (rc_Annotations c) (Some record) c)) w).
Proof.
  intros I Hc. set (w' := w_set_cluster _ w).
  assert (Hip : inprogress w' = inprogress w) by (unfold inprogress; simpl; by rewrite Hc).
  assert (Hcf : confirmed w' = confirmed w) by (unfold confirmed; simpl; by rewrite Hc).
  assert (Hint : interrupted w' = interrupted w) by (unfold interrupted; simpl; by rewrite Hc).
  change (Inv cl (w_set_dirty (w_dirty w) w')). apply (inv_annotate cl w c); try done.
  - intros m Hm ?. left. left. split; [|done]. rewrite <-Hip. exact Hm.
  - intros r _ Hr. left. rewrite <-Hip. exact Hr.
  - intros m Hm. change (confirmed w' = "" ∨ confirmed w' = m). rewrite Hcf. by apply (inv_confirmed _ _ I).
  - intros j r _ (_ & _ & _ & _ & Hp). change (inprogress w' = re_Name r ∨ interrupted w' ≠ "" ∧ re_Deleting r = true). by rewrite Hip, Hint.
  - intros r _ _ _ Hr. left. change (inprogress w' = re_Name r). by rewrite Hip.
  - intros Hd. split; [done|]. change (interrupted w' ≠ "" ∨ ∃ x, stored w x ∧ started x ∧ inprogress w' = re_Name x ∧ (own w x ∨ ¬ armed x)).
    rewrite Hip, Hint. destruct (inv_dirty _ _ I Hd) as [_ [?|?]]; [congruence|done].
Qed.

End passes.
