(* ===== verification/RestoreSafety.v ===== *)
(** * Restores and PostgreSQL exclude each other

    The reconciler of Restore, branch by branch, under the logic of
    RestoreLogic; the theorems about every reachable state; and what happens when the
    operating rules are broken. *)

From Stdlib Require Import Ascii.
From S2P Require Import Prelude GoStrings GoStrconv Replication Pgbackrest Restore RestoreSystem RestoreInvariant RestoreLogic RestorePasses.

Open Scope Z_scope.

Section programs.
Context `{UrlParse} `{RestoreDigest} (cl : string).

#[local] Existing Instance stable_may_finish.

(** ** finishOnCluster *)

(** The Cluster was released with the outcome's effect. *)
Definition finished_as (r : Restore) (o : restoreOutcome) (w : World) : Prop := may_finish r o w ∧ released r w.

#[local] Instance stable_finished_as r o : Stable cl (finished_as r o).
Proof. unfold finished_as. apply _. Qed.

(** An assertion that writes of the Cluster do not touch. *)
Class Frame (F : World → Prop) := {
  frame_stable :: Stable cl F;
  frame_cluster w c : F w → F (w_set_cluster (Some c) w) }.

#[local] Instance frame_true : Frame (λ _, True).
Proof. split; [apply _|done]. Qed.
#[local] Instance frame_orphan r : Frame (orphan r).
Proof. split; [apply _|done]. Qed.

Definition finish_post (r : Restore) (o : restoreOutcome) (F : World → Prop) (Q : error → World → Prop) : Prop :=
  (∀ w, Inv cl w → finished_as r o w → F w → Q None w) ∧ (∀ e w, Inv cl w → Q (Some e) w).

Lemma wp_finish_record r o F (last : option RestoreRecord) (name : string) Q w :
  Frame F → Inv cl w → finished_as r o w ∧ F w → finish_post r o F Q →
  wp cl (if decide (o = restoreOutcomeReleased) then mret None
    else if match last with
            | Some last => bool_decide (lr_UID last = re_UID r) && bool_decide (lr_Result last = outcome_result o)
            | None => false
            end then mret None
    else now ← ask Now; ask (PatchLastRestore name
      {| lr_Name := re_Name r; lr_UID := re_UID r; lr_Fingerprint := restoreFingerprint (re_Spec r);
         lr_Result := outcome_result o; lr_CompletionTime := now |})) Q w.
Proof.
  intros HF I Hf [HN HE]. pose proof Hf as [Hf1 Hf2].
  case_decide; [by apply wp_ret; [|apply HN]|].
  destruct (match last with Some _ => _ | None => _ end); [by apply wp_ret; [|apply HN]|].
  call_reads (λ w, finished_as r o w ∧ F w); [|done]. intros w1 now I1 P1 _.
  change (ask ?c) with (ask c ≫= mret). apply (wp_write cl (λ w, finished_as r o w ∧ F w)); [apply _|done..| |].
  - intros w2 a w3 I2 [[P2 R2] F2] (c & Hc & -> & ->). split; [by apply inv_last_restore|]. intros I3.
    apply wp_ret; [done|]. apply HN; [done| |by apply frame_cluster]. split; [by apply (may_finish_patch r o w2 c)|].
    destruct R2 as [? R2]. split; [done|]. intros Heq. apply R2. rewrite <-Heq. unfold inprogress. simpl. by rewrite Hc.
  - intros w2 fault e I2 [= <-]. by apply wp_ret; [|apply HE].
Qed.

Lemma wp_finish_as r o F Q w :
  Frame F → Inv cl w → may_finish r o w ∧ F w → finish_post r o F Q → wp cl (finishOnCluster_as r o) Q w.
Proof.
  intros HF I Hm Hpost. pose proof Hpost as [HN HE]. unfold finishOnCluster_as.
  call_reads (λ w, may_finish r o w ∧ F w).
  2: { intros w1 fault e I1 P1 [= <-]. by apply wp_ret; [|apply HE]. }
  intros w1 a I1 [P1 F1] [-> _]. pose proof P1 as [[Hcur _] _]. pose proof (cur_name cl r w1 I1 Hcur) as Hne.
  destruct (w_cluster w1) as [c|] eqn:Hc.
  2: { apply wp_ret; [done|]. apply HN; [done| |done]. split; [done|]. split; [done|]. unfold inprogress. by rewrite Hc. }
  destruct (decide (finishedAnnotations (rc_Annotations c) r o = rc_Annotations c)) as [Hann|Hann].
  - apply (wp_finish_record r o F (rc_LastRestore c)); [done..| |done]. split; [|done]. split; [done|]. split; [done|].
    pose proof (finished_inprogress (rc_Annotations c) r o) as Hip. rewrite Hann in Hip.
    unfold inprogress. rewrite Hc. unfold rc_ann. intros Heq. rewrite decide_True in Hip by done. congruence.
  - assert (Hv : view c w1) by (intros c' Hc'; rewrite Hc in Hc'; by injection Hc' as <-).
    apply (wp_write cl (λ w, (may_finish r o w ∧ F w) ∧ view c w)); [apply _|done..| |].
    + intros w2 a w3 I2 [[P2 F2] V2] (c' & Hc' & Hrv & -> & ->). destruct (V2 _ Hc') as [_ Heq]. specialize (Heq Hrv). subst c'.
      destruct (inv_finish_patch cl r o w2 c I2 Hc' P2) as [I3 R3]. split; [done|]. intros _.
      apply (wp_finish_record r o F (rc_LastRestore c)); [done..| |done]. split; [|by apply frame_cluster].
      split; [|done]. by apply (may_finish_patch r o w2 c).
    + intros w2 fault e I2 [= <-]. by apply wp_ret; [|apply HE].
Qed.

Lemma wp_finish_frame r o F Q w :
  Frame F → Inv cl w → may_finish r o w → F w → finish_post r o F Q → wp cl (finishOnCluster r o) Q w.
Proof.
  intros HF I Hm HFw Hpost. unfold finishOnCluster. case_decide as Ho; [|by apply (wp_finish_as r o F)].
  subst o. unfold restoreJob. call_reads (λ w, may_finish r restoreOutcomeReleased w ∧ F w).
  2: { intros w1 fault e I1 P1 [= <-]. apply wp_ret; [done|]. by apply Hpost. }
  intros w1 a I1 [P1 F1] [-> _]. cbn zeta.
  assert (match w_jobs w1 !! restoreJobName r with Some j => jobControlledBy j r | None => false end = false) as ->;
    [|by apply (wp_finish_as r _ F)].
  destruct (w_jobs w1 !! restoreJobName r) as [j|] eqn:Hj; [|done]. apply bool_decide_eq_false_2. intros HU.
  destruct P1 as (_ & Hor & _). apply Hor. by exists j.
Qed.

Lemma wp_finish r o Q w :
  Inv cl w → may_finish r o w → (∀ w, Inv cl w → finished_as r o w → Q None w) → (∀ e w, Inv cl w → Q (Some e) w) →
  wp cl (finishOnCluster r o) Q w.
Proof. intros I Hm HN HE. apply (wp_finish_frame r o (λ _, True)); [apply _|done..|]. split; auto. Qed.

(** ** resolvePhysicalRestore *)

(** What was read is what there is, or it is gone. *)
Definition run_seen (name : string) (run : RunRef) (w : World) : Prop := ∀ x, w_runs w !! name = Some x → x = run.
Definition backup_seen (name : string) (b : Backup) (w : World) : Prop := ∀ x, w_backups w !! name = Some x → x = b.
Definition no_cluster_for (r : Restore) (run : RunRef) (b : Backup) (w : World) : Prop :=
  ∀ c, w_cluster w = Some c → ¬ sources_ok r run b c.
Definition no_backup_for (r : Restore) (run : RunRef) (w : World) : Prop :=
  ∀ b, w_backups w !! run_BackupRef run = Some b → no_cluster_for r run b w.

#[local] Instance stable_run_seen name run : Stable cl (run_seen name run).
Proof. intros w w' I F Hs x Hx. apply Hs. eapply lookup_weaken; [done|by apply (ef_runs _ _ F)]. Qed.
#[local] Instance stable_backup_seen name b : Stable cl (backup_seen name b).
Proof. intros w w' I F Hs x Hx. apply Hs. eapply lookup_weaken; [done|by apply (ef_backups _ _ F)]. Qed.
#[local] Instance stable_no_cluster_for r run b : Stable cl (no_cluster_for r run b).
Proof.
  intros w w' I F Hn c' Hc' Hok. destruct (ef_cluster _ _ F) as [?|(c & c1 & Hc & Hc1 & Hi & _)]; [congruence|].
  assert (c1 = c') as -> by congruence. apply (Hn c Hc). unfold sources_ok in *. by rewrite <-Hi.
Qed.
#[local] Instance stable_no_backup_for r run : Stable cl (no_backup_for r run).
Proof.
  intros w w' I F Hn b Hb. eapply (stable_no_cluster_for r run b w w' I F), Hn. eapply lookup_weaken; [done|by apply (ef_backups _ _ F)].
Qed.

Lemma seen_unresolvable r run b w :
  run_seen (rsp_BackupRunRef (re_Spec r)) run w → backup_seen (run_BackupRef run) b w → no_cluster_for r run b w → ¬ resolvable w r.
Proof.
  intros Hr Hb Hn (run' & b' & c & H1 & H2 & H3 & H4). apply Hr in H1 as ->. apply Hb in H2 as ->. by apply (Hn c).
Qed.

(** [U]: the Restore cannot be resolved from the start. *)
Lemma wp_resolve r (U : Prop) P Q w :
  Stable cl P → Inv cl w → P w → (U → ¬ resolvable w r) →
  (∀ t w, Inv cl w → P w → w_cluster w = Some (tgt_cluster t) → ¬ U → Q (inl t) w) →
  (∀ e w, Inv cl w → P w → ¬ resolvable w r → Q (inr (true, e)) w) →
  (∀ e w, Inv cl w → P w → Q (inr (false, e)) w) →
  wp cl (resolvePhysicalRestore r) Q w.
Proof.
  intros HP I HPw HU Hok Hinv Herr. unfold resolvePhysicalRestore. cbn zeta.
  call_reads (λ w, P w ∧ (U → ¬ resolvable w r)).
  2: { intros w1 fault e I1 [P1 _] [= <-]. apply wp_ret; auto. }
  intros w1 a I1 [P1 U1] [-> _]. destruct (w_runs w1 !! rsp_BackupRunRef (re_Spec r)) as [run|] eqn:Hrun.
  2: { apply wp_ret; [done|]. apply Hinv; [done..|]. intros (? & ? & ? & ? & _). congruence. }
  assert (run_seen (rsp_BackupRunRef (re_Spec r)) run w1) as V1 by (intros x; congruence).
  assert (U → no_backup_for r run w1) as N1.
  { intros u b Hb c Hc Hs. apply (U1 u). by exists run, b, c. }
  call_reads (λ w, (P w ∧ (U → no_backup_for r run w)) ∧ run_seen (rsp_BackupRunRef (re_Spec r)) run w).
  2: { intros w2 fault e I2 [[P2 _] _] [= <-]. apply wp_ret; auto. }
  intros w2 a I2 [[P2 N2] V2] [-> _]. destruct (w_backups w2 !! run_BackupRef run) as [b|] eqn:Hb.
  2: { apply wp_ret; [done|]. apply Hinv; [done..|]. intros (x & ? & ? & Hx & ? & _). apply V2 in Hx as ->. congruence. }
  assert (backup_seen (run_BackupRef run) b w2) as W2 by (intros x; congruence).
  assert (Hbad : ∀ e, (∀ c, ¬ sources_ok r run b c) → wp cl (mret (inr (true, errRestoreInvalid e))) Q w2).
  { intros e Hc. apply wp_ret; [done|]. apply Hinv; [done..|]. apply (seen_unresolvable r run b); [done..|]. intros c _. apply Hc. }
  case_decide as Ht; [by apply Hbad; intros c (? & _)|].
  destruct (validatePhysicalBackup b) eqn:Ev; [apply Hbad; intros c (_ & ? & _); congruence|].
  case_decide as Hcr; [by apply Hbad; intros c (_ & _ & ? & _)|].
  case_decide as Hph; [by apply Hbad; intros c (_ & _ & _ & ? & _)|].
  destruct (backupLabelFromLocation (run_Location run)) as [label|e] eqn:El.
  2: { apply Hbad. intros c (_ & _ & _ & _ & (l & ? & _) & _). congruence. }
  case_decide as Hl; [apply Hbad; intros c (_ & _ & _ & _ & (l & ? & ?) & _); congruence|].
  call_reads (λ w, (P w ∧ (U → no_cluster_for r run b w)) ∧
    (run_seen (rsp_BackupRunRef (re_Spec r)) run w ∧ backup_seen (run_BackupRef run) b w)).
  1: { split; [|done]. split; [done|]. intros u. by apply N2. }
  2: { intros w3 fault e I3 [[P3 _] _] [= <-]. apply wp_ret; auto. }
  intros w3 a I3 [[P3 N3] [V3 W3]] [-> _]. destruct (w_cluster w3) as [c|] eqn:Hc.
  2: { apply wp_ret; [done|]. apply Hinv; [done..|]. intros (? & ? & ? & _ & _ & ? & _). congruence. }
  assert (Hbad' : ∀ e, ¬ sources_ok r run b c → wp cl (mret (inr (true, errRestoreInvalid e))) Q w3).
  { intros e Hc'. apply wp_ret; [done|]. apply Hinv; [done..|]. apply (seen_unresolvable r run b); [done..|].
    intros c0 Hc0. assert (c0 = c) as -> by congruence. done. }
  destruct (validatePhysicalBackupFor b (rc_image c)) eqn:Ef; [apply Hbad'; intros (_ & _ & _ & _ & _ & ? & _); congruence|].
  destruct (resolvePostgresLayout (rc_image c)) as [layout|e] eqn:Ey.
  2: { apply Hbad'. intros (_ & _ & _ & _ & _ & _ & ? & ?). congruence. }
  apply wp_ret; [done|]. apply Hok; [done..|]. intros u. apply (N3 u c Hc).
  split_and!; try done; eauto.
Qed.

(** ** clusterStopped *)

Lemma wp_clusterStopped r P Q cluster w :
  Stable cl P → Inv cl w → P w → (∀ w, P w → holds r w) →
  (∀ b w, Inv cl w → P w → (b = true → stopped_for r w) → Q (inl b) w) →
  (∀ e w, Inv cl w → P w → Q (inr e) w) →
  wp cl (clusterStopped cluster) Q w.
Proof.
  intros HP I HPw Hh Hok Herr. unfold clusterStopped. call_reads P.
  2: { intros w1 fault e I1 P1 [= <-]. apply wp_ret; auto. }
  intros w1 a I1 P1 [-> _]. cbn zeta.
  assert (Hsts : match (λ n, (Some n, Z.of_nat (w_pods w1))) <$> w_sts w1 with
    | None => true | Some (replicas, status) => bool_decide (replicas = Some 0) && bool_decide (status = 0) end = true →
    w_sts w1 = None ∨ w_sts w1 = Some 0).
  { destruct (w_sts w1); simpl; [|by left]. intros [?%bool_decide_eq_true _]%andb_prop. by right. }
  destruct (match _ with None => true | Some _ => _ end); [|by apply wp_ret; [|apply Hok]].
  call_reads (λ w, P w ∧ scaled_down r w).
  - split; [done|]. split; [by apply Hh|by apply Hsts].
  - intros w2 a I2 [P2 [Hh2 Hs2]] [-> _]. apply wp_ret; [done|]. apply Hok; [done..|].
    intros Hp%bool_decide_eq_true. split; [done|]. by split.
  - intros w2 fault e I2 [P2 _] [= <-]. apply wp_ret; auto.
Qed.

(** ** The branches of a pass *)

Lemma finished_cur r o w : finished_as r o w → cur r w.
Proof. by intros [[[? _] _] _]. Qed.

Lemma safe_finishAndFail r o cause w :
  Inv cl w → may_finish r o w → (∀ w, Inv cl w → finished_as r o w → gone w ∨ idle (restoreJobName r) w) →
  safe cl (finishAndFail r o cause) w.
Proof.
  intros I Hm Hidle. unfold finishAndFail. apply wp_bind, wp_finish; [done..| |].
  - intros w1 I1 F1. unfold failPhysicalRestore. apply (safe_failed cl (finished_as r o)); [apply _|done..| |].
    + intros w2 F2. by eapply finished_cur.
    + intros w2 I2 F2 _. split; [by apply F2|by apply Hidle].
  - intros e w1 I1. by apply safe_ret.
Qed.

Lemma safe_releaseAndFail r cause w : Inv cl w → may_finish r restoreOutcomeReleased w → safe cl (releaseAndFail r cause) w.
Proof.
  intros I Hm. apply (safe_finishAndFail r restoreOutcomeReleased); [done..|]. intros w1 I1 [[[Hc _] [Ho _]] _].
  by apply (orphan_idle cl).
Qed.

Lemma unstarted_release r w : Inv cl w → cur r w → rest_JobName (re_Status r) = "" → may_finish r restoreOutcomeReleased w.
Proof.
  intros I Hc Hj. split; [|split].
  - split; [done|]. by intros [[_ ?] _].
  - by apply (unstarted_orphan cl).
  - by intros [_ ?].
Qed.

(** The Job is created for a started Restore that holds the stopped Cluster. *)
Lemma safe_createRestoreJob_with r (U : Prop) (P : World → Prop) w :
  Stable cl P → Inv cl w → restoreFinished r = false → armed r → (U → ¬ resolvable w r) →
  (∀ w, P w → cur r w ∧ w_jobs w !! restoreJobName r = None) → (∀ w, P w → ¬ U → stopped_for r w) → P w →
  safe cl (createRestoreJob r) w.
Proof.
  intros HP I Hfin Harm HU Hcur Hstop HPw. unfold createRestoreJob. apply wp_bind. apply (wp_resolve r U P); [apply _|done..| | |].
  - intros t w1 I1 P1 Ht Hnu. destruct (Hcur _ P1) as [Hc1 Hn1].
    destruct (started_writers cl r w1 I1 Hc1) as [Hg|Hw]; [by destruct Harm|unfold gone in Hg; congruence|].
    apply (wp_write cl (λ w, P w ∧ ∀ j, j = restoreJobName r ∨ idle j w)); [apply _|done..| |].
    + intros w2 a w3 I2 [P2 W2] Hs. destruct (Hcur _ P2) as [Hc2 Hn2]. simpl in Hs. rewrite Hn2 in Hs. destruct Hs as [-> ->].
      pose proof Hc2 as [Hf (R & HR & Ha)]. pose proof Ha as (_ & Hu & _). pose proof (same_job r R (agrees_same _ _ Ha)) as Hjn.
      destruct (Hstop _ P2 Hnu) as [[Hne Hh] Hq].
      assert (Inv cl (w_set_jobs (<[restoreJobName r := new_job (restoreJobName r) (re_UID r)]> (w_jobs w2)) (w_running w2) w2)) as I3.
      { rewrite <-Hjn, <-Hu. apply inv_create_job; rewrite ?Hjn; try done.
        - apply (agrees_started r R); [done|]. by destruct Harm.
        - intros j Hj. destruct (W2 j) as [?|Hi]; [done|by destruct Hi].
        - destruct Hh as [?|?]; [by left|right]. destruct Ha as (-> & _). done. }
      split; [done|]. intros _. apply safe_state; [done| |done|by right|done].
      split; [done|]. by exists R.
    + intros w2 fault e I2 [= <-]. by apply safe_ret.
  - intros e w1 I1 P1 Hn. destruct (Hcur _ P1) as [Hc1 Hn1]. apply safe_releaseAndFail; [done|].
    split; [|split]; [|by intros (J & ? & _); congruence|done]. split; [done|]. intros _. right; by left.
  - intros e w1 I1 P1. by apply safe_ret.
Qed.

Lemma safe_createRestoreJob r w :
  Inv cl w → armed r → cur r w → w_jobs w !! restoreJobName r = None → stopped_for r w ∨ ¬ resolvable w r →
  safe cl (createRestoreJob r) w.
Proof.
  intros I Harm Hc Hn [Hs|Hr].
  - apply (safe_createRestoreJob_with r False (λ w, (cur r w ∧ w_jobs w !! restoreJobName r = None) ∧ stopped_for r w)); try done.
    + apply _.
    + by destruct Harm as [[? _] _].
    + by intros ? [? ?].
    + by intros ? [_ ?].
  - apply (safe_createRestoreJob_with r True (λ w, cur r w ∧ w_jobs w !! restoreJobName r = None)); try done.
    + apply _.
    + by destruct Harm as [[? _] _].
Qed.

Lemma safe_startPhysicalRestore r cluster w :
  Inv cl w → cur r w → restoreFinished r = false → rest_JobName (re_Status r) = "" → holds r w → sole r w →
  safe cl (startPhysicalRestore r cluster) w.
Proof.
  intros I Hc Hfin Hjob Hh Hsole. unfold startPhysicalRestore.
  apply wp_bind, (wp_clusterStopped r (λ w, (cur r w ∧ sole r w) ∧ holds r w)); [apply _|done..|by intros ? [_ ?]| |].
  2: { intros e w1 I1 _. by apply safe_ret. }
  intros b w1 I1 [[C1 S1] _] Hst. destruct b; [|by apply safe_state; [..|right|]]. specialize (Hst eq_refl). cbn [negb].
  call_reads (λ w, (cur r w ∧ sole r w) ∧ stopped_for r w).
  2: { intros w2 fault e I2 _ [= <-]. by apply safe_ret. }
  intros w2 a I2 [[C2 S2] H2] [-> _]. destruct (w_volume w2); cbn [negb].
  2: { apply safe_releaseAndFail; [done|]. by apply unstarted_release. }
  unfold restoreJob. call_reads (λ w, (cur r w ∧ sole r w) ∧ stopped_for r w).
  2: { intros w3 fault e I3 _ [= <-]. by apply safe_ret. }
  intros w3 a I3 [[C3 S3] H3] [-> _].
  destruct (w_jobs w3 !! restoreJobName r) as [J|] eqn:HJ.
  { destruct (jobControlledBy J r) eqn:Ho; cbn [negb]; [|by apply safe_state; [..|right|]].
    apply bool_decide_eq_true in Ho. destruct (unstarted_orphan cl r w3 I3 C3 Hjob). by exists J. }
  assert (Hrec : ∀ now w, Inv cl w → ((cur r w ∧ sole r w) ∧ stopped_for r w) ∧ w_jobs w !! restoreJobName r = None →
    safe cl (setPhysicalRestoreProgress (set_restore_status (rest_set_job (restoreJobName r) (Some now) (re_Status r)) r)
      reasonCreatingJob (Errorf "Creating the restore Job for Cluster %q" [rc_Name cluster]) second_ns) w).
  { intros now w4 I4 P4. unfold setPhysicalRestoreProgress, setPhysicalRestoreState, setAvailable.
    match goal with |- context[UpdateRestoreStatus (set_restore_status ?st (set_restore_status ?s r))] =>
      change (set_restore_status st (set_restore_status s r)) with (set_restore_status st r) end.
    apply (wp_update cl (λ w, ((cur r w ∧ sole r w) ∧ stopped_for r w) ∧ w_jobs w !! restoreJobName r = None)); [apply _|done..| | | |].
    - by intros ? [[[? _] _] _].
    - intros w5 I5 [[[C5 S5] H5] N5]. split_and!; try done.
      + intros _. by right.
      + by intros [_ ?].
      + intros _. by right.
      + by intros [_ ?].
    - intros R w5 I5 _ _. by apply safe_ret.
    - intros e w5 I5. by apply safe_ret. }
  cbn [negb]. destruct (rest_StartTime (re_Status r)) as [t|].
  - apply wp_bind, wp_ret; [done|]. by apply Hrec.
  - call_reads (λ w, ((cur r w ∧ sole r w) ∧ stopped_for r w) ∧ w_jobs w !! restoreJobName r = None); [|done].
    intros w4 now I4 P4 _. by apply Hrec.
Qed.

Lemma restoreConfirmed_name c r : restoreConfirmed c r = true → (cut_slash (rc_ann c AnnotationAllowRestore)).1.1 = re_Name r.
Proof.
  unfold restoreConfirmed. destruct (cut_slash _) as [[n u] b]. intros Hn%negb_true_iff%orb_false_elim. destruct Hn as [Hn _].
  apply orb_false_elim in Hn as [Hn _]. apply orb_false_elim in Hn as [_ Hn]. apply negb_false_iff, bool_decide_eq_true in Hn. done.
Qed.

(** The Cluster is taken only by the Restore it confirms, so by the only one in session. *)
Lemma inv_hold r w c :
  Inv cl w → cur r w → rest_JobName (re_Status r) = "" → w_cluster w = Some c → restoreConfirmed c r = true →
  Inv cl (w_set_cluster (Some (rc_update (<[AnnotationRestoreInProgress := re_Name r]> (rc_Annotations c)) (rc_LastRestore c) c)) w).
Proof.
  intros I Hcur Hjob Hc Hconf. set (w' := w_set_cluster _ w). pose proof (cur_name cl r w I Hcur) as Hne.
  assert (Hcw : confirmed w = re_Name r) by (unfold confirmed; rewrite Hc; by apply restoreConfirmed_name).
  assert (Hip : inprogress w' = re_Name r).
  { unfold inprogress. simpl. unfold rc_ann. simpl. by rewrite lookup_insert_eq. }
  assert (Hcf : confirmed w' = re_Name r).
  { rewrite <-Hcw. unfold confirmed. simpl. rewrite Hc. unfold rc_ann. simpl. by rewrite lookup_insert_ne. }
  assert (Hint : interrupted w' = interrupted w).
  { unfold interrupted. simpl. rewrite Hc. unfold rc_ann. simpl. by rewrite lookup_insert_ne. }
  assert (Hsole : ∀ k, session w k → k = re_Name r).
  { intros k Hk. destruct (inv_confirmed _ _ I k Hk); congruence. }
  assert (Hstart : ∀ x, stored w x → started x → re_Name x = re_Name r).
  { intros x Hx Hs. apply Hsole. by apply started_session. }
  change (Inv cl (w_set_dirty (w_dirty w) w')). apply (inv_annotate cl w c); try done.
  - change (∀ m, inprogress w' = m → m ≠ "" → session w m ∨ (∀ k, session w k → k = m) ∧ (confirmed w' = "" ∨ confirmed w' = m)).
    rewrite Hip. intros m <- _. right. split; [done|by right].
  - intros x Hx. change (inprogress w' = re_Name x → inprogress w = re_Name x ∨ ¬ own w x). rewrite Hip. intros Hn. right.
    pose proof (cur_unique r w x Hcur Hx (eq_sym Hn)) as Ha. intros Ho. apply (inv_own _ _ I x Hx Ho).
    destruct Ha as (_ & _ & _ & -> & _). done.
  - change (∀ m, session w m → confirmed w' = "" ∨ confirmed w' = m). intros m ->%Hsole. by right.
  - intros j x _ (Hx & _ & Hs & _). left. change (inprogress w' = re_Name x). rewrite Hip. symmetry. by apply Hstart.
  - intros x Hx [Hs _] _ _. left. change (inprogress w' = re_Name x). rewrite Hip. symmetry. by apply Hstart.
  - intros Hd. split; [done|]. change (interrupted w' ≠ "" ∨ ∃ x, stored w x ∧ started x ∧ inprogress w' = re_Name x ∧ (own w x ∨ ¬ armed x)).
    rewrite Hip, Hint. destruct (inv_dirty _ _ I Hd) as [_ [?|[?|(x & Hx & Hs & _ & ?)]]]; [congruence|by left|right].
    exists x. split_and!; try done. symmetry. by apply Hstart.
Qed.

Lemma safe_holdCluster r w c :
  Inv cl w → cur r w → restoreFinished r = false → rest_JobName (re_Status r) = "" → w_cluster w = Some c →
  safe cl (holdCluster r c) w.
Proof.
  intros I Hc Hfin Hjob Hcl. unfold holdCluster. cbn zeta.
  destruct (restoreConfirmed c r) eqn:Hconf; cbn [negb]; [|by apply safe_state; [..|left|]].
  assert (Hv : view c w) by (intros c' Hc'; assert (c' = c) as -> by congruence; done).
  apply wp_bind.
  assert (Hrest : ∀ (b : bool) w, Inv cl w → cur r w ∧ view c w → safe cl (if b
    then setPhysicalRestoreProgress r reasonWaitingForOther
           (Errorf "Waiting for Restore %q to finish restoring Cluster %q" [rc_ann c AnnotationRestoreInProgress; rc_Name c]) (10 * second_ns)
    else must ask (PatchCluster c (<[AnnotationRestoreInProgress := re_Name r]> (rc_Annotations c)));
      setPhysicalRestoreProgress r reasonStoppingCluster (Errorf "Stopping Cluster %q" [rc_Name c]) restorePollInterval) w).
  { intros [] w1 I1 [C1 V1]; [by apply safe_state; [..|right|]|].
    apply (wp_write cl (λ w, cur r w ∧ view c w)); [apply _|done..| |].
    - intros w2 a w3 I2 [C2 V2] (c' & Hc' & Hrv & -> & ->). destruct (V2 _ Hc') as [_ Heq]. specialize (Heq Hrv). subst c'.
      split; [by apply inv_hold|]. intros I3. by apply safe_state; [..|right|].
    - intros w2 fault e I2 [= <-]. by apply safe_ret. }
  case_decide; [apply wp_ret; [done|]; exact (Hrest false _ I (conj Hc Hv))|].
  unfold restoreActive. call_reads (λ w, cur r w ∧ view c w).
  - intros w1 a I1 P1 _. apply wp_ret; [done|]. exact (Hrest _ _ I1 P1).
  - intros w1 fault e I1 P1 [= <-]. apply wp_ret; [done|]. exact (Hrest true _ I1 P1).
Qed.

Lemma safe_reconcileUnfinished_new r w :
  Inv cl w → cur r w → restoreFinished r = false → rest_JobName (re_Status r) = "" →
  safe cl (reconcileUnfinished r) w.
Proof.
  intros I Hc Hfin Hjob. unfold reconcileUnfinished. rewrite decide_False by (by intros ?).
  apply wp_bind, (wp_resolve r False (cur r)); [apply _|done|done|done| | |].
  - intros t w1 I1 C1 Ht _. cbn zeta. case_decide as Hh; [by apply safe_holdCluster|].
    assert (Hip : inprogress w1 = re_Name r) by (unfold inprogress; by rewrite Ht).
    pose proof (cur_name cl r w1 I1 C1) as Hne. apply safe_startPhysicalRestore; try done.
    + split; [done|by right].
    + intros m Hm. apply (inv_unique _ _ I1); [done|]. by left.
  - intros e w1 I1 C1 _. apply safe_releaseAndFail; [done|]. by apply unstarted_release.
  - intros e w1 I1 C1. by apply safe_ret.
Qed.

(** ** Completing and following the Job *)

Lemma wp_deleteVolumes P cluster pvcs n Q w :
  Stable cl P → Inv cl w → P w → (∀ x w, Inv cl w → P w → Q x w) → wp cl (deleteVolumes cluster pvcs n) Q w.
Proof.
  intros HP I HPw HQ. revert n w I HPw. induction pvcs as [|pvc pvcs IH]; intros n w I HPw; simpl; [by split; [|apply HQ]|].
  destruct (pvcOrdinal _ _) as [ordinal|]; [|by apply IH]. case_decide; [by apply IH|].
  destruct (pvc_Deleting pvc); [by apply IH|]. call_reads P.
  - intros w1 e I1 P1 _. destruct e; [apply wp_ret; auto|by apply IH].
  - intros w1 fault e I1 P1 [= <-]. apply wp_ret; auto.
Qed.

Lemma wp_deleteStandbyVolumes P cluster Q w :
  Stable cl P → Inv cl w → P w → (∀ x w, Inv cl w → P w → Q x w) → wp cl (deleteStandbyVolumes cluster) Q w.
Proof.
  intros HP I HPw HQ. unfold deleteStandbyVolumes. call_reads P.
  - intros w1 a I1 P1 _. destruct a; [by apply (wp_deleteVolumes P)|apply wp_ret; auto].
  - intros w1 fault e I1 P1 [= <-]. apply wp_ret; auto.
Qed.

(** The Restore after it completed. *)
Definition completed (r r' : Restore) (w : World) : Prop :=
  cur r' w ∧ restoreFinished r' = true ∧ (re_Deleting r = true → re_Deleting r' = true).

Lemma wp_completePhysicalRestore r cluster (Q : Restore * ctrlResult → World → Prop) w :
  Inv cl w → settled r w → started r → clean w →
  (∀ r' d e w, Inv cl w → Q (r', (d, Some e)) w) → (∀ r' d w, Inv cl w → 0 < d → Q (r', (d, None)) w) →
  (∀ r' w, Inv cl w → completed r r' w → Q (r', (0, None)) w) →
  wp cl (completePhysicalRestore r cluster) Q w.
Proof.
  intros I Hset Hs Hcl HE HR HF. unfold completePhysicalRestore.
  apply wp_bind, (wp_deleteStandbyVolumes (λ w, settled r w ∧ clean w)); [apply _|done..|].
  intros [remaining e] w1 I1 [S1 C1]. destruct e as [err|]; [apply wp_ret; auto|].
  case_bool_decide.
  - apply wp_bind. apply wp_state; [done|by apply S1|by destruct Hs|by right|done| |].
    + intros w2 I2. apply wp_ret; [done|]. by apply HR.
    + intros e w2 I2. apply wp_ret; auto.
  - apply wp_bind, wp_finish; [done|by split| |by intros e w2 I2; apply wp_ret; auto].
    intros w2 I2 F2. call_reads (finished_as r restoreOutcomeSucceeded); [|done]. intros w3 now I3 F3 _. unfold setAvailable.
    apply (wp_update cl (finished_as r restoreOutcomeSucceeded)); [apply _|done..| | | |].
    + intros w4 F4. by eapply finished_cur.
    + intros w4 I4 F4. split_and!; try done.
      * by intros [? _].
      * intros _. right. destruct F4 as [(_ & _ & C4) R4]. split; [done|].
        destruct C4 as [?|[_ Hw]]; [by left|right; apply Hw].
      * by intros [_ ?].
      * by intros _ [_ ?].
    + intros R w4 I4 Ha HR4. apply wp_ret; [done|]. apply HF; [done|]. split; [|split].
      * split; [|exists R; split; [done|apply agrees_refl]].
        destruct F3 as [[[[Hf _] _] _] _]. destruct Ha as (_ & _ & _ & _ & -> & _). done.
      * destruct Ha as (_ & _ & _ & Hst & _). unfold restoreFinished. by rewrite Hst.
      * by apply Ha.
    + intros e w4 I4. apply wp_ret; auto.
Qed.

Lemma safe_followPhysicalRestoreJob r w :
  Inv cl w → prepared r w → started r → re_Deleting r = false → safe cl (followPhysicalRestoreJob r) w.
Proof.
  intros I Hp Hs Hnd. pose proof Hs as [Hfin _]. unfold followPhysicalRestoreJob. call_reads (prepared r).
  2: { intros w1 fault e I1 _ [= <-]. by apply safe_ret. }
  intros w1 a I1 P1 [-> _]. destruct (w_cluster w1) as [c|] eqn:Hc.
  2: { unfold failPhysicalRestore. apply (safe_failed cl (λ w, prepared r w ∧ gone w)); [apply _|done..| |].
    - by intros w2 [[? _] _].
    - intros w2 I2 [[C2 _] G2] _. split; [|by left]. split; [by apply (cur_name cl r w2)|].
      unfold inprogress. rewrite G2. intros Hn. by apply (cur_name cl r w2). }
  unfold restoreJob. call_reads (prepared r).
  2: { intros w2 fault e I2 _ [= <-]. by apply safe_ret. }
  intros w2 a I2 [C2 P2] [-> _]. destruct (w_jobs w2 !! restoreJobName r) as [J|] eqn:HJ.
  - assert (Hown : job_OwnerUID J = re_UID r).
    { destruct C2 as [_ (R & HR & Ha)]. pose proof Ha as (_ & <- & _). apply (inv_foreign _ _ I2 R J HR); [|by apply (agrees_started r R)].
      by rewrite (same_job r R (agrees_same _ _ Ha)). }
    assert (jobControlledBy J r = true) as -> by (by apply bool_decide_eq_true). cbn [negb].
    assert (Hset : settled r w2).
    { split; [done|]. intros Ha. destruct (P2 Ha) as [[[_ [Hg|Hip]] _]|?]; [| |by right].
      - right; left. intros (? & ? & ? & _ & _ & ? & _). unfold gone in Hg. congruence.
      - right; right. exists J. split; [done|]. destruct (job_Deleting J) eqn:Hd; [|done]. exfalso.
        destruct C2 as [_ (R & HR & HaR)]. pose proof HaR as (Hn & Hu & _).
        apply (inv_deleting _ _ I2 R J HR); try congruence. by rewrite (same_job r R (agrees_same _ _ HaR)). }
    destruct (jobSucceeded J) eqn:HS.
    + apply wp_bind. apply wp_completePhysicalRestore; try done. by apply (succeeded_clean cl r w2 J).
    + destruct (jobConditionTrue J JobFailed) eqn:HF.
      * assert (Hid : idle (restoreJobName r) w2).
        { eapply (inactive_idle cl); [done|done|]. unfold job_active. by rewrite HF, andb_false_r. }
        apply safe_finishAndFail; [done| |].
        -- split; [done|]. split; [done|by right].
        -- by intros w3 I3 [[_ [_ ?]] _].
      * apply safe_state; [done..|by right|done].
  - case_decide as Hr.
    + apply safe_createRestoreJob; try done. destruct (P2 (conj Hs Hr)) as [?|[?|(J & HJ' & _)]]; [by left|by right|congruence].
    + assert (Ho : orphan r w2) by (intros (J & ? & _); congruence).
      apply safe_finishAndFail; [done| |].
      * split; [split; [done|by intros [_ ?]]|]. split; [done|]. right. by apply (orphan_idle cl).
      * intros w3 I3 [[_ [_ [?|?]]] _]; [congruence|done].
Qed.

(** ** Deletion *)

(** The finalizer may go: the Restore is finished, or it released the Cluster and its Job is gone. *)
Definition disposable (r : Restore) (w : World) : Prop :=
  cur r w ∧ re_Deleting r = true ∧ (started r → released r w ∧ (gone w ∨ idle (restoreJobName r) w)).

#[local] Instance stable_disposable r : Stable cl (disposable r).
Proof. unfold disposable. apply _. Qed.

Lemma inv_delete_job r w : Inv cl w → cur r w → re_Deleting r = true → released r w →
  Inv cl (w_set_jobs (alter job_delete (restoreJobName r) (w_jobs w)) (w_running w) w).
Proof.
  intros I Hc Hdel [Hne Hr]. set (jobs' := alter job_delete (restoreJobName r) (w_jobs w)).
  assert (Hl : ∀ j J', jobs' !! j = Some J' → ∃ J, w_jobs w !! j = Some J ∧ (J' = J ∨ (j = restoreJobName r ∧ J' = job_delete J))).
  { intros j J'. unfold jobs'. rewrite lookup_alter. case_decide; [|by exists J'; auto].
    subst j. destruct (w_jobs w !! restoreJobName r) as [J|]; [|done]. intros [= <-]. exists J. auto. }
  assert (Hl' : ∀ j J, w_jobs w !! j = Some J → ∃ J', jobs' !! j = Some J' ∧ job_OwnerUID J' = job_OwnerUID J ∧
    job_active J' = job_active J ∧ (j ≠ restoreJobName r → J' = J)).
  { intros j J HJ. unfold jobs'. rewrite lookup_alter. case_decide; [|by exists J].
    subst j. rewrite HJ. by exists (job_delete J). }
  change (Inv cl (w_set_dirty (w_dirty w) (w_set_jobs jobs' (w_running w) w))). apply inv_jobs_step; try done.
  - intros j J' (J & HJ & [->|[_ ->]])%Hl; by exists J.
  - intros j (J & HJ & Ha)%(inv_running _ _ I). destruct (Hl' j J HJ) as (J' & ? & _ & ? & _). exists J'. split; congruence.
  - intros j [Hj|(J' & HJ' & Ha & Hd)]; [by left|right]. destruct (Hl _ _ HJ') as (J & HJ & [->|[_ ->]]); [by exists J|done].
  - intros x J' Hx (J & HJ & [->|[Hn ->]])%Hl HU HD; [by apply (inv_deleting _ _ I x J)|].
    apply restoreJobName_inj in Hn. by rewrite Hn.
  - intros x Hx Ha Hdx (J & HJ & HD). destruct (Hl' _ J HJ) as (J' & HJ' & _ & _ & Hne'). exists J'. split; [done|].
    destruct (decide (restoreJobName x = restoreJobName r)) as [Hn|?]; [|by rewrite Hne'].
    apply restoreJobName_inj in Hn. pose proof (cur_unique r w x Hc Hx Hn) as (_ & _ & _ & _ & _ & Hd). rewrite Hd in Hdx; done.
  - intros x J' Hcl Hx Hs (J & HJ & [->|[_ ->]])%Hl HS; by apply (inv_clean _ _ I x J).
  - by left.
  - intros x _ _ _ (J & HJ & HU). left. destruct (Hl' _ J HJ) as (J' & HJ' & HU' & _). exists J'. split; [done|]. congruence.
Qed.

Lemma wp_finalizeRestoreJob r (Q : Restore * bool * error → World → Prop) w :
  Inv cl w → cur r w → re_Deleting r = true →
  (∀ r' b e w, Inv cl w → b = false ∨ is_Some e → Q (r', b, e) w) →
  (∀ r' w, Inv cl w → disposable r' w → Q (r', true, None) w) →
  wp cl (finalizeRestoreJob r) Q w.
Proof.
  intros I Hc Hd HE HF. unfold finalizeRestoreJob. destruct (restoreFinished r) eqn:Hfin.
  { apply wp_ret; [done|]. apply HF; [done|]. split; [done|]. split; [done|]. intros [? _]. congruence. }
  unfold restoreJob. call_reads (cur r).
  2: { intros w1 fault e I1 _ [= <-]. apply wp_ret; [done|]. apply HE; [done|by left]. }
  intros w1 a I1 C1 [-> _]. cbn zeta.
  set (job := match w_jobs w1 !! restoreJobName r with Some j => if jobControlledBy j r then Some j else None | None => None end).
  assert (Hjob : ∀ J, job = Some J → w_jobs w1 !! restoreJobName r = Some J ∧ job_OwnerUID J = re_UID r).
  { intros J. unfold job. destruct (w_jobs w1 !! restoreJobName r) as [J0|]; [|done].
    destruct (jobControlledBy J0 r) eqn:Ho; [|done]. intros [= ->]. by apply bool_decide_eq_true in Ho. }
  assert (Hnone : job = None → orphan r w1).
  { intros Hj (J & HJ & HU). unfold job in Hj. rewrite HJ in Hj. unfold jobControlledBy in Hj.
    rewrite bool_decide_eq_true_2 in Hj; done. }
  assert (Hset : settled r w1) by (split; [done|]; intros _; by left).
  clearbody job.
  destruct (bool_decide (job = None) && _) eqn:Hb.
  { apply andb_prop in Hb as [Hj%bool_decide_eq_true Hb]. specialize (Hnone Hj).
    apply wp_bind, wp_finish; [done| | |].
    - split; [done|]. split; [done|]. intros Hs. split; [done|]. apply orb_prop in Hb as [Hb|Hb]; apply bool_decide_eq_true in Hb; [|done].
      by destruct Hs.
    - intros w2 I2 [[[C2 _] [O2 _]] R2]. apply wp_ret; [done|]. apply HF; [done|]. split; [done|]. split; [done|].
      intros _. split; [done|]. by apply (orphan_idle cl).
    - intros e w2 I2. apply wp_ret; [done|]. apply HE; [done|by right]. }
  assert (Hs : started r).
  { split; [done|]. intros Hj. destruct job as [J|].
    - destruct (Hjob J eq_refl) as [HJ HU]. apply (unstarted_orphan cl r w1 I1 C1 Hj). by exists J.
    - rewrite Hj in Hb. by rewrite !bool_decide_eq_true_2 in Hb. }
  destruct (match job with Some j => negb (job_Deleting j) && jobSucceeded j | None => false end) eqn:HS.
  { destruct job as [J|]; [|done]. destruct (Hjob J eq_refl) as [HJ HU]. apply andb_prop in HS as [_ HS].
    pose proof (succeeded_clean cl r w1 J I1 C1 Hs HJ HS) as Hcl.
    call_reads (λ w, settled r w ∧ clean w).
    2: { intros w2 fault e I2 _ [= <-]. apply wp_ret; [done|]. apply HE; [done|by left]. }
    intros w2 a I2 [S2 K2] [-> _]. destruct (w_cluster w2) as [c|] eqn:Hcw.
    2: { apply wp_ret; [done|]. apply HF; [done|]. pose proof S2 as [C2 _]. split; [done|]. split; [done|]. intros _.
         pose proof (cur_name cl r w2 I2 C2). split; [split; [done|]|by left]. unfold inprogress. by rewrite Hcw. }
    apply wp_bind, wp_completePhysicalRestore; try done.
    - intros r' d e w3 I3. apply wp_ret; [done|]. apply HE; [done|by left].
    - intros r' d w3 I3 Hlt. apply wp_ret; [done|]. rewrite bool_decide_eq_true_2 by done. apply HE; [done|by left].
    - intros r' w3 I3 (C3 & F3 & D3). apply wp_ret; [done|]. rewrite bool_decide_eq_false_2 by done. apply HF; [done|].
      split; [done|]. split; [by apply D3|]. intros [? _]. congruence. }
  destruct job as [J|].
  - apply wp_bind, wp_finish; [done| | |].
    + split; [done|]. split; [done|by left].
    + intros w2 I2 F2. destruct (Hjob J eq_refl) as [HJ HU].
      destruct (job_Deleting J); [apply wp_ret; [done|]; apply HE; [done|by left]|].
      destruct (inv_jobs _ _ I1 _ _ HJ) as [_ ->].
      apply (wp_write cl (finished_as r restoreOutcomeInterrupted)); [apply _|done..| |].
      * intros w3 a w4 I3 F3 [-> ->]. split; [apply inv_delete_job; [done|by eapply finished_cur|done|by apply F3]|].
        intros I4. apply wp_ret; [done|]. apply HE; [done|by left].
      * intros w3 fault e I3 [= <-]. apply wp_ret; [done|]. apply HE; [done|by left].
    + intros e w2 I2. apply wp_ret; [done|]. apply HE; [done|by left].
  - apply wp_bind, (wp_finish_frame r _ (orphan r)); [apply _|done| |by apply Hnone|split].
    + split; [done|]. split; [done|by left].
    + intros w2 I2 F2 O2. call_reads (λ w, finished_as r restoreOutcomeInterrupted w ∧ orphan r w).
      2: { intros w3 fault e I3 _ [= <-]. apply wp_ret; [done|]. apply HE; [done|by left]. }
      intros w3 a I3 [F3 O3] [(b & -> & _) _]. apply wp_ret; [done|]. destruct b; [apply HE; [done|by left]|].
      pose proof (finished_cur _ _ _ F3) as C3. apply HF; [done|]. split; [done|]. split; [done|].
      intros _. split; [by apply F3|by apply (orphan_idle cl)].
    + intros e w2 I2. apply wp_ret; [done|]. apply HE; [done|by left].
Qed.

Lemma safe_finalizePhysicalRestore r w :
  Inv cl w → re_Deleting r = true → (re_Finalizer r = true → cur r w) → safe cl (finalizePhysicalRestore r) w.
Proof.
  intros I Hd Hc. unfold finalizePhysicalRestore. destruct (re_Finalizer r); cbn [negb]; [|by apply safe_ret].
  apply wp_bind, wp_finalizeRestoreJob; [done|by apply Hc|done|..].
  - intros r' b e w1 I1 Hbe. destruct (bool_decide (is_Some e) || negb b) eqn:Eb; [by apply wp_ret|].
    apply orb_false_elim in Eb as [Ee%bool_decide_eq_false Eb%negb_false_iff]. destruct Hbe; [congruence|done].
  - intros r' w1 I1 Hdis. rewrite bool_decide_eq_false_2 by (by intros [? ?]). cbn [orb negb].
    apply (wp_write cl (disposable r')); [apply _|done..| |].
    + intros w2 a w3 I2 (C2 & D2 & S2) (R & Hl & -> & ->). split; [|intros I3; by apply safe_ret].
      destruct (locked_stored cl _ _ _ I2 Hl) as [HR Hn]. pose proof (cur_unique _ _ _ C2 HR Hn) as Ha.
      pose proof Ha as (_ & _ & _ & _ & _ & HD). unfold put_or_drop. simpl. rewrite (HD D2). simpl.
      apply inv_drop; [done..|]. intros Hs. destruct S2 as [[? ?] Hi]; [by apply (agrees_started r' R)|].
      split; [by rewrite Hn|]. by rewrite (same_job r' R (agrees_same _ _ Ha)).
    + intros w2 fault e I2 [= <-]. by apply safe_ret.
Qed.

(** ** The pass *)

Lemma safe_reconcileUnfinished r w :
  Inv cl w → prepared r w → re_Deleting r = false → restoreFinished r = false → safe cl (reconcileUnfinished r) w.
Proof.
  intros I Hp Hd Hfin. destruct (decide (rest_JobName (re_Status r) = "")) as [Hj|Hj].
  - destruct Hp as [Hc _]. by apply safe_reconcileUnfinished_new.
  - unfold reconcileUnfinished. rewrite decide_True by done. by apply safe_followPhysicalRestoreJob.
Qed.

Lemma stored_prepared r w :
  Inv cl w → stored w r → re_Finalizer r = true → re_Deleting r = false → prepared r w.
Proof.
  intros I Hr Hf Hd. split; [split; [done|]; exists r; split; [done|apply agrees_refl]|]. intros Ha.
  destruct (inv_armed _ _ I r Hr Ha Hd) as [[Hip Hq]|?]; [left|by right].
  split; [|done]. split; [by eapply stored_nonempty|by right].
Qed.

(** The Restore as it was read: whatever is stored under its name and UID has its status. *)
Definition unclaimed (r : Restore) (w : World) : Prop :=
  re_UID r ∈ w_uids w ∧ ∀ R, stored w R → re_Name R = re_Name r → re_UID R = re_UID r → agrees r R.

#[local] Instance stable_unclaimed r : Stable cl (unclaimed r).
Proof.
  intros w w' I F [Hu Ha]. split; [by apply (ef_uids _ _ F)|]. intros R HR Hn HU.
  destruct (ef_origin _ _ F _ _ HR) as [(R0 & HR0 & Ha0)|[Hfresh _]]; [|by rewrite HU in Hfresh].
  pose proof Ha0 as (Hn0 & HU0 & _). eapply agrees_trans; [apply Ha|exact Ha0]; [by apply (stored_name cl w _ R0 I HR0)|congruence..].
Qed.

Lemma locked_uid r w R : locked_restore r w = Some R → re_UID R = re_UID r.
Proof.
  intros Hl. unfold locked_restore in Hl. apply bind_Some in Hl as (R' & HR & Hl).
  destruct (_ && _) eqn:E; [|done]. injection Hl as ->. by apply andb_prop in E as [_ ?%bool_decide_eq_true].
Qed.

Lemma safe_reconcilePhysicalRestore r w : Inv cl w → stored w r → safe cl (reconcilePhysicalRestore r) w.
Proof.
  intros I Hr. unfold reconcilePhysicalRestore. destruct (re_Deleting r) eqn:Hd.
  { apply safe_finalizePhysicalRestore; [done..|]. intros Hf. split; [done|]. exists r. split; [done|apply agrees_refl]. }
  destruct (restoreFinished r) eqn:Hfin; [by apply safe_ret|].
  destruct (re_Finalizer r) eqn:Hf; [apply safe_reconcileUnfinished; try done; by apply stored_prepared|].
  assert (Hjob : rest_JobName (re_Status r) = "").
  { destruct (inv_restores _ _ I _ _ Hr) as (_ & _ & _ & _ & _ & Hfz). apply dec_stable. intros ?. rewrite Hfz in Hf; done. }
  apply (wp_write cl (unclaimed r)); [apply _|done| |..].
  - split; [by destruct (inv_restores _ _ I _ _ Hr) as (_ & _ & _ & _ & ? & _)|]. intros R HR Hn _.
    assert (R = r) as ->; [|apply agrees_refl]. unfold stored in *. rewrite Hn in HR. congruence.
  - intros w1 a w2 I1 [_ Ha1] (R & Hl & -> & ->). destruct (locked_stored cl _ _ _ I1 Hl) as [HR Hn].
    pose proof (Ha1 R HR Hn (locked_uid _ _ _ Hl)) as (_ & _ & _ & Hst & _).
    set (R' := re_update _ true _ _).
    assert (Hns : ¬ started R') by (intros [_ Hs]; apply Hs; simpl; by rewrite Hst).
    assert (put_or_drop R' w1 = put_restore R' w1) as -> by (unfold put_or_drop; simpl; by rewrite andb_false_r).
    split.
    + apply (inv_put cl w1 R); try done. by intros [? _].
    + intros I2.
      assert (HR' : stored (put_restore R' w1) R') by (apply stored_put; by left).
      apply safe_reconcileUnfinished_new; [done| |simpl|simpl; by rewrite Hst].
      * split; [done|]. exists R'. split; [done|apply agrees_refl].
      * unfold restoreFinished in *. simpl. by rewrite Hst.
  - intros w1 fault e I1 [= <-]. by apply safe_ret.
Qed.

Lemma safe_RestoreReconcile name w : Inv cl w → safe cl (RestoreReconcile name) w.
Proof.
  intros I. unfold RestoreReconcile. call_reads (λ _ : World, True).
  2: { intros w1 fault e I1 _ [= <-]. by apply safe_ret. }
  intros w1 a I1 _ [-> _]. destruct (w_restores w1 !! name) as [r|] eqn:Hr; [|by apply safe_ret].
  destruct (inv_restores _ _ I1 _ _ Hr) as (_ & _ & -> & _). apply safe_reconcilePhysicalRestore; [done|].
  by eapply stored_name.
Qed.

(** ** Reachable states *)

Definition config_ok (cf : config) : Prop :=
  Inv cl (cf_world cf) ∧ match cf_pass cf with Some p => safe cl p (cf_world cf) | None => True end.

Lemma inv_initial w : w_restores w = ∅ → w_jobs w = ∅ → w_running w = ∅ → inprogress w = "" → w_dirty w = false → Inv cl w.
Proof.
  intros Hr Hj Hrun Hip Hd.
  assert (Hst : ∀ x, ¬ stored w x) by (intros x; unfold stored; by rewrite Hr).
  assert (Hse : ∀ m, ¬ session w m) by (intros m [[? ?]|(x & Hx & _)]; [congruence|by rewrite Hr in Hx]).
  assert (Hw : ∀ j, ¬ writer w j) by (intros j [?|(J & HJ & _)]; [set_solver|by rewrite Hj in HJ]).
  constructor; try (intros; exfalso; by eapply Hst); try (intros; exfalso; by eapply Hse); try (intros; exfalso; by eapply Hw).
  - intros n r. by rewrite Hr.
  - intros j J. by rewrite Hj.
  - intros j. rewrite Hrun. set_solver.
  - congruence.
Qed.

Lemma wp_env {A} (p : prog A) (w w' : World) : env true cl w w' → Inv cl w' → safe cl p w → safe cl p w'.
Proof.
  intros E I'. destruct p as [a|R c k]; [done|]. intros Hp w1 a w2 Hr Ha. apply (Hp w1 a w2); [|done].
  by eapply rtc_l.
Qed.

Lemma step_ok cf cf' : config_ok cf → step true cl cf cf' → config_ok cf'.
Proof.
  intros [I Hp] Hs. destruct Hs as [w name|w w' R c k a Ha|w r|w w' p E]; simpl in *.
  - split; [done|]. by apply safe_RestoreReconcile.
  - destruct (Hp w a w') as [? ?]; [by apply rtc_refl|done|]. by split.
  - done.
  - assert (Inv cl w') as I' by (by eapply env_inv). split; [done|]. destruct p; [by eapply wp_env|done].
Qed.

Lemma steps_ok cf cf' : rtc (step true cl) cf cf' → config_ok cf → config_ok cf'.
Proof. induction 1 as [cf|cf cf1 cf2 Hst _ IH]; [done|]. intros. apply IH. by eapply step_ok. Qed.

Lemma reachable_ok cf : reachable true cl cf → config_ok cf.
Proof.
  intros (cf0 & (Hp & Hr & Hj & Hrun & Hip & Hd) & Hs). apply (steps_ok cf0 cf Hs).
  split; [by apply inv_initial|]. by rewrite Hp.
Qed.

End programs.
