(* ===== verification/RestoreTheorems.v ===== *)
(** * Restores: theorems, runs and counterexamples

    The theorems about every reachable state under the operating rules; a runner that
    executes the system on concrete states, for the witnesses; and runs that break
    one operating rule each and end with PostgreSQL and a restore Job on one volume. *)

From Stdlib Require Import Ascii.
From S2P Require Import Prelude GoStrings GoStrconv Replication Pgbackrest Restore RestoreSystem RestoreInvariant RestoreLogic RestorePasses RestoreSafety.

Open Scope Z_scope.

(** ** The data volume as a lock *)

Inductive volumeUser := PostgreSQL | RestoreJob (name : string).

(** Abstractly the volume is free or has one user; it is handed over only through free. *)
Inductive volume_step : option volumeUser → option volumeUser → Prop :=
  | volume_same o : volume_step o o
  | volume_take u : volume_step None (Some u)
  | volume_drop u : volume_step (Some u) None.

Definition volume_user (w : World) : option volumeUser :=
  if bool_decide (0 < w_pods w)%nat then Some PostgreSQL
  else match elements (w_running w) with j :: _ => Some (RestoreJob j) | [] => None end.

Section theorems.
Context `{UrlParse} `{RestoreDigest} (cl : string).

(** The calls of a pass never touch pods. *)
Lemma answers_pods {R} (c : call R) w a w' : answers c w a w' → w_pods w' = w_pods w ∧ w_running w' = w_running w ∧ w_dirty w' = w_dirty w.
Proof.
  assert (Hs : ∀ a, served c w a w' → w_pods w' = w_pods w ∧ w_running w' = w_running w ∧ w_dirty w' = w_dirty w).
  { intros a0 Hs. destruct c; simpl in Hs;
      repeat match goal with
             | Hs : _ ∧ _ |- _ => destruct Hs
             | Hs : ∃ _, _ |- _ => destruct Hs
             | Hs : match ?x with _ => _ end |- _ => destruct x
             end; subst; try done; unfold put_or_drop; by destruct (_ && _). }
  intros [?|(fault & e & _ & _ & [->|[a0 ?]])]; [by eapply Hs|done|by eapply Hs].
Qed.

Lemma running_sole w j j' : Inv cl w → j ∈ w_running w → j' ∈ w_running w → j = j'.
Proof. intros I ? ?. apply (inv_sole _ _ I); by left. Qed.

Lemma running_stopped w j : Inv cl w → j ∈ w_running w → w_pods w = 0%nat.
Proof. intros I Hj. destruct (inv_writer _ _ I j) as [[? _] _]; [by left|done]. Qed.

Lemma user_running w j : Inv cl w → j ∈ w_running w → volume_user w = Some (RestoreJob j).
Proof.
  intros I Hj. unfold volume_user. rewrite bool_decide_eq_false_2 by (rewrite (running_stopped w j I Hj); lia).
  destruct (elements (w_running w)) as [|j' l] eqn:E.
  - apply elements_empty_inv in E. set_solver.
  - f_equal. f_equal. apply (running_sole w); [done| |done]. apply elem_of_elements. rewrite E. by left.
Qed.

Lemma user_idle w : w_running w = ∅ → volume_user w = if bool_decide (0 < w_pods w)%nat then Some PostgreSQL else None.
Proof. intros Hr. unfold volume_user. by rewrite Hr, elements_empty. Qed.

Lemma volume_step_cases w w' : Inv cl w → Inv cl w' →
  (w_running w' = w_running w ∧ w_pods w' = w_pods w) ∨
  (w_running w' = w_running w ∧ (w_pods w' = S (w_pods w) ∨ w_pods w' = pred (w_pods w))) ∨
  (w_pods w' = w_pods w ∧ ∃ n, w_running w' = {[n]} ∪ w_running w ∨ w_running w' = w_running w ∖ {[n]}) →
  volume_step (volume_user w) (volume_user w').
Proof.
  intros I I' [[Hr Hp]|[[Hr Hp]|[Hp [n Hr]]]].
  - unfold volume_user. rewrite Hr, Hp. constructor.
  - destruct (decide (w_running w = ∅)) as [He|He].
    + rewrite !user_idle by congruence. do 2 case_bool_decide; constructor.
    + apply set_choose_L in He as [j Hj]. rewrite (user_running w j), (user_running w' j) by (rewrite ?Hr; done). constructor.
  - destruct (decide (w_running w = ∅)) as [He|He]; destruct (decide (w_running w' = ∅)) as [He'|He'].
    + rewrite !user_idle, Hp by done. constructor.
    + apply set_choose_L in He' as [j Hj]. rewrite (user_running w' j), user_idle by done.
      rewrite <-Hp, (running_stopped w' j I' Hj). constructor.
    + apply set_choose_L in He as [j Hj]. rewrite (user_running w j), user_idle by done.
      rewrite Hp, (running_stopped w j I Hj). constructor.
    + apply set_choose_L in He as [j Hj]. apply set_choose_L in He' as [j' Hj'].
      rewrite (user_running w j), (user_running w' j') by done.
      assert (j' = j) as ->; [|constructor]. destruct Hr as [Hr|Hr].
      * apply (running_sole w'); [done..|]. rewrite Hr. set_solver.
      * apply (running_sole w); [done| |done]. set_solver.
Qed.

Lemma env_volume_cases w w' : env true cl w w' →
  (w_running w' = w_running w ∧ w_pods w' = w_pods w) ∨
  (w_running w' = w_running w ∧ (w_pods w' = S (w_pods w) ∨ w_pods w' = pred (w_pods w))) ∨
  (w_pods w' = w_pods w ∧ ∃ n, w_running w' = {[n]} ∪ w_running w ∨ w_running w' = w_running w ∖ {[n]}).
Proof.
  intros E. destruct E; simpl; try (by left); try (right; left; by auto); try (right; right; by eauto).
  left. unfold put_or_drop. by destruct (_ && _).
Qed.

(** C3: under the operating rules the restore system refines a lock: in every state that
    is reachable while they are kept, each step that keeps them, of the Restore
    controller, the Cluster controller, Kubernetes or the users, leaves the data volume
    used either by PostgreSQL or by the Job of one Restore, and passes it from one user
    to another only after nobody used it. The rules are those of [env] with [strict]:
    nobody confirms a Restore while another one is in session, restore-interrupted is
    removed by hand only while no Job may write, a deleted Cluster is not created again,
    BackupRuns and Backups do not come back, and Jobs are removed after their pods.
    Where one is broken the system is no lock: [takeover_meets_old_job],
    [recreated_cluster_meets_job] and [released_restore_creates_job] reach PostgreSQL
    or a second Job beside a Job that writes. *)
Theorem volume_refines_lock cf cf' :
  reachable true cl cf → step true cl cf cf' → volume_step (volume_user (cf_world cf)) (volume_user (cf_world cf')).
Proof.
  intros Hcf Hs. pose proof (reachable_ok cl cf Hcf) as Hok. pose proof (step_ok cl cf cf' Hok Hs) as [I' _]. destruct Hok as [I _].
  apply volume_step_cases; [done..|]. destruct Hs as [w name|w w' R c k a Ha|w r|w w' p E]; simpl; try (by left).
  - left. by destruct (answers_pods c w a w' Ha) as (? & ? & _).
  - by apply env_volume_cases.
Qed.

(** C1: while the Job of a physical Restore runs, no PostgreSQL pod exists and no
    other restore Job runs. *)
Theorem restore_excludes_postgres cf j :
  reachable true cl cf → j ∈ w_running (cf_world cf) →
  w_pods (cf_world cf) = 0%nat ∧ ∀ j', j' ∈ w_running (cf_world cf) → j' = j.
Proof.
  intros [I _]%reachable_ok Hj. split; [by eapply running_stopped|]. intros j' Hj'. by apply (running_sole (cf_world cf)).
Qed.

(** C2: in every state that is reachable under the operating rules (those of [env] with
    [strict], see C3) a data volume that a Job began to restore is not given to
    PostgreSQL until a Job completed or the restore-interrupted annotation was removed
    by hand: failed, deleted and vanished Restores, errors and crashes of the controller
    included; and while the Cluster exists its pause annotations show it. Against the
    rules it is given: a Cluster that is deleted during a restore and created again with
    its name starts PostgreSQL on the half restored volume ([recreated_cluster_meets_job]). *)
Theorem half_restored_never_served cf :
  reachable true cl cf → w_dirty (cf_world cf) = true →
  w_pods (cf_world cf) = 0%nat ∧ ∀ c, w_cluster (cf_world cf) = Some c → paused c = true.
Proof.
  intros [I _]%reachable_ok Hd. destruct (inv_dirty _ _ I Hd) as [[? _] Hp]. split; [done|]. intros c Hc.
  destruct Hp as [?|[?|(r & Hr & _ & Hip & _)]]; [congruence|by eapply paused_interrupted|by eapply paused_inprogress].
Qed.

End theorems.

(** ** Running the system *)

(** The API server without faults: the answer of a call and the state after it. *)
Definition answer {R : Type} (c : call R) : World → option (R * World) :=
  match c in call R return World → option (R * World) with
  | GetRestore name => λ w, Some (inl (w_restores w !! name), w)
  | PatchFinalizer r present => λ w,
      match locked_restore r w with
      | Some R => let R' := re_update (re_Deleting R) present (re_Status R) R in Some (inl R', put_or_drop R' w)
      | None => None
      end
  | UpdateRestoreStatus r => λ w,
      match locked_restore r w with
      | Some R => let R' := re_update (re_Deleting R) (re_Finalizer R) (re_Status r) R in Some (inl R', put_restore R' w)
      | None => None
      end
  | GetBackupRun name => λ w, Some (inl (w_runs w !! name), w)
  | GetBackup name => λ w, Some (inl (w_backups w !! name), w)
  | GetDatabase name => λ w, Some (inl None, w)
  | GetCluster name => λ w, Some (inl (w_cluster w), w)
  | PatchCluster base ann => λ w,
      match w_cluster w with
      | Some c => if decide (rc_ResourceVersion c = rc_ResourceVersion base)
                  then Some (None, w_set_cluster (Some (rc_update ann (rc_LastRestore c) c)) w) else None
      | None => None
      end
  | PatchLastRestore name record => λ w,
      match w_cluster w with
      | Some c => Some (None, w_set_cluster (Some (rc_update (rc_Annotations c) (Some record) c)) w)
      | None => None
      end
  | GetStatefulSet name => λ w, Some (inl ((λ n, (Some n, Z.of_nat (w_pods w))) <$> w_sts w), w)
  | ListPods cluster => λ w, Some (inl (w_pods w), w)
  | GetPVC name => λ w, Some (inl (w_volume w), w)
  | ListPVCs cluster => λ w, Some (inl [], w)
  | DeletePVC pvc => λ w, Some (None, w)
  | GetJob name => λ w, Some (inl (w_jobs w !! name), w)
  | CreateJob name uid args => λ w,
      match w_jobs w !! name with
      | Some _ => Some (inl true, w)
      | None => Some (inl false, w_set_jobs (<[name := new_job name uid]> (w_jobs w)) (w_running w) w)
      end
  | CreateLogicalJob name uid db location => λ w, Some (inl true, w)
  | DeleteJob name => λ w, Some (None, w_set_jobs (alter job_delete name (w_jobs w)) (w_running w) w)
  | JobPodsExist name => λ w, Some (inl (bool_decide (name ∈ w_running w)), w)
  | Now => λ w, Some (0, w)
  end.

Lemma answer_served {R} (c : call R) w a w' : answer c w = Some (a, w') → served c w a w'.
Proof.
  destruct c as [| r present | r | | | | | base ann | name record | | | | | | | name uid args | | | name |]; simpl; intros Ha;
    try (by injection Ha as <- <-).
  - destruct (locked_restore r w) as [R0|]; [|done]. injection Ha as <- <-. by exists R0.
  - destruct (locked_restore r w) as [R0|]; [|done]. injection Ha as <- <-. by exists R0.
  - destruct (w_cluster w) as [c0|]; [|done]. destruct (decide _); [|done]. injection Ha as <- <-. by exists c0.
  - destruct (w_cluster w) as [c0|]; [|done]. injection Ha as <- <-. by exists c0.
  - destruct (w_jobs w !! name); by injection Ha as <- <-.
  - injection Ha as <- <-. split; [|done]. eexists. split; [done|]. by rewrite bool_decide_eq_true.
Qed.

(** A pass, whose [fault]-th call fails without effect. *)
Fixpoint drive {A} (fault : option nat) (p : prog A) (w : World) : option World :=
  match p with
  | Ret _ => Some w
  | Do c k =>
      match fault, faulty c with
      | Some O, Some f => drive None (k (f (Errorf "unavailable" []))) w
      | _, _ =>
          match answer c w with
          | Some (a, w') => drive (pred <$> fault) (k a) w'
          | None => None
          end
      end
  end.

Inductive action :=
  | APass (name : string) (fault : option nat) | ACreate (r : Restore) | ADelete (n : string)
  | AScale (n : Z) | APodStart | APodStop | AJobStart (n : string) | AJobStop (n : string) | AJobComplete (n : string)
  | AConfirm (value : string) | AClusterGone | AClusterNew (c : RestoreCluster) | ASources (runs : gmap string RunRef).

Section runs.
Context `{UrlParse} `{RestoreDigest} (strict : bool) (cl : string).

Definition guard_world (P : Prop) `{Decision P} (w : World) : option World := if decide P then Some w else None.

(** The actions that break a rule are refused under [strict]. *)
Definition act (a : action) (w : World) : option World :=
  match a with
  | APass name fault => drive fault (RestoreReconcile name) w
  | ACreate r =>
      guard_world (w_restores w !! re_Name r = None ∧ re_UID r ∉ w_uids w ∧ re_Name r ≠ "" ∧ rsp_Type (re_Spec r) = BackupTypePhysical ∧
        rsp_ClusterRef (re_Spec r) = cl ∧ re_Deleting r = false ∧ re_Finalizer r = false ∧ rest_JobName (re_Status r) = "")
        (w_use_uid (re_UID r) (put_restore (set_restore_status no_status r) w))
  | ADelete n => match w_restores w !! n with
                 | Some r => Some (put_or_drop (re_update true (re_Finalizer r) (re_Status r) r) w) | None => None end
  | AScale n => match w_cluster w with
                | Some c => Some (w_set_server (Some (if paused c then 0 else n)) (w_pods w) (w_volume w) w) | None => None end
  | APodStart => match w_sts w with
                 | Some n => guard_world (Z.of_nat (w_pods w) < n) (w_set_server (w_sts w) (S (w_pods w)) (w_volume w) w)
                 | None => None end
  | APodStop => Some (w_set_server (w_sts w) (pred (w_pods w)) (w_volume w) w)
  | AJobStart n => match w_jobs w !! n with
                   | Some j => guard_world (job_active j = true ∧ job_Deleting j = false)
                       (w_set_dirty true (w_set_jobs (w_jobs w) ({[n]} ∪ w_running w) w))
                   | None => None end
  | AJobStop n => Some (w_set_jobs (w_jobs w) (w_running w ∖ {[n]}) w)
  | AJobComplete n => match w_jobs w !! n with
                      | Some j => guard_world (n ∉ w_running w ∧ job_active j = true)
                          (w_set_dirty false (w_set_jobs (<[n := job_finish JobComplete j]> (w_jobs w)) (w_running w) w))
                      | None => None end
  | AConfirm value => match w_cluster w with
                      | Some c => guard_world (strict = false)
                          (w_set_cluster (Some (rc_update (<[AnnotationAllowRestore := value]> (rc_Annotations c)) (rc_LastRestore c) c)) w)
                      | None => None end
  | AClusterGone => Some (w_set_cluster None w)
  | AClusterNew c => guard_world (strict = false ∧ w_cluster w = None ∧ rc_Annotations c = ∅) (w_set_cluster (Some c) w)
  | ASources runs => guard_world (strict = false) (w_set_sources runs (w_backups w) w)
  end.

Lemma drive_steps fault (p : prog ctrlResult) w w' : drive fault p w = Some w' →
  rtc (step strict cl) {| cf_world := w; cf_pass := Some p |} {| cf_world := w'; cf_pass := None |}.
Proof.
  revert fault w. induction p as [a|R c k IH]; intros fault w Hd; simpl in Hd.
  - injection Hd as <-. apply rtc_once, step_end.
  - assert (Hok : ∀ f, match answer c w with Some (a, w0) => drive f (k a) w0 | None => None end = Some w' →
      rtc (step strict cl) {| cf_world := w; cf_pass := Some (Do c k) |} {| cf_world := w'; cf_pass := None |}).
    { intros f Hf. destruct (answer c w) as [[a w0]|] eqn:Ha; [|done]. eapply rtc_l; [apply (step_call _ _ w w0 c k a)|by eapply IH].
      left. by apply answer_served. }
    destruct fault as [[|n]|]; [|by eapply Hok|by eapply Hok]. destruct (faulty c) as [f|] eqn:Ef; [|by eapply Hok].
    eapply rtc_l; [eapply (step_call _ _ w w c k)|by eapply IH]. right. exists f, (Errorf "unavailable" []). auto.
Qed.

Lemma guard_Some P `{Decision P} w w' : guard_world P w = Some w' → P ∧ w' = w.
Proof. unfold guard_world. case_decide; naive_solver. Qed.

Lemma act_steps a w w' : act a w = Some w' →
  rtc (step strict cl) {| cf_world := w; cf_pass := None |} {| cf_world := w'; cf_pass := None |}.
Proof.
  assert (He : env strict cl w w' → rtc (step strict cl) {| cf_world := w; cf_pass := None |} {| cf_world := w'; cf_pass := None |})
    by (intros; by apply rtc_once, step_env).
  destruct a as [name fault|r|n|n| | |n|n|n|v| |c|runs]; intros Ha; [|simpl in Ha..].
  - eapply rtc_l; [apply (step_start _ _ w name)|exact (drive_steps fault _ _ _ Ha)].
  - apply guard_Some in Ha as [(? & ? & ? & ? & ? & ? & ? & ?) ->]. apply He.
    change (put_restore (set_restore_status no_status r) w) with (put_restore (set_restore_status no_status r) w).
    by apply (env_create strict cl w (set_restore_status no_status r)).
  - destruct (w_restores w !! n) as [r|] eqn:Hr; [|done]. injection Ha as <-. apply He. by eapply env_delete.
  - destruct (w_cluster w) as [c|] eqn:Hc; [|done]. injection Ha as <-. apply He. by eapply env_scale.
  - destruct (w_sts w) as [n|] eqn:Hs; [|done]. apply guard_Some in Ha as [? ->]. apply He. rewrite <-Hs. by eapply env_pod_start.
  - injection Ha as <-. apply He, env_pod_stop.
  - destruct (w_jobs w !! n) as [j|] eqn:Hj; [|done]. apply guard_Some in Ha as [[? ?] ->]. apply He. by eapply env_job_start.
  - injection Ha as <-. apply He, env_job_stop.
  - destruct (w_jobs w !! n) as [j|] eqn:Hj; [|done]. apply guard_Some in Ha as [[? ?] ->]. apply He. by eapply env_job_complete.
  - destruct (w_cluster w) as [c|] eqn:Hc; [|done]. apply guard_Some in Ha as [? ->]. apply He. apply env_confirm; [done|]. congruence.
  - injection Ha as <-. apply He, env_cluster_gone.
  - apply guard_Some in Ha as [(? & ? & ?) ->]. apply He. by apply env_cluster_new.
  - apply guard_Some in Ha as [? ->]. apply He. apply env_sources. congruence.
Qed.

Fixpoint acts (l : list action) (w : World) : option World :=
  match l with
  | [] => Some w
  | a :: l => match act a w with Some w' => acts l w' | None => None end
  end.

Lemma acts_steps l w w' : acts l w = Some w' →
  rtc (step strict cl) {| cf_world := w; cf_pass := None |} {| cf_world := w'; cf_pass := None |}.
Proof.
  revert w. induction l as [|a l IH]; simpl; intros w Ha; [by injection Ha as <-|].
  destruct (act a w) as [w1|] eqn:E; [|done]. etransitivity; [exact (act_steps _ _ _ E)|exact (IH _ Ha)].
Qed.

(** The state after the actions, when they are possible, is reachable. *)
Lemma acts_reachable l w w' :
  initial {| cf_world := w; cf_pass := None |} → acts l w = Some w' → reachable strict cl {| cf_world := w'; cf_pass := None |}.
Proof. intros Hi Ha. exists {| cf_world := w; cf_pass := None |}. split; [done|exact (acts_steps l w w' Ha)]. Qed.
End runs.

(** ** A Cluster with two Restores *)

Module RestoreDemo.
#[export] Instance no_urls : UrlParse := {| url_Parse := λ _, None |}.
#[export] Instance no_digest : RestoreDigest := {| restoreFingerprint := λ _, "" |}.

Definition backup : Backup := {|
  bk_Name := "b"; bk_Namespace := "ns"; bk_Created := 0; bk_Deleting := false; bk_Type := BackupTypePhysical;
  bk_ClusterRef := Some "main"; bk_Physical := None;
  bk_Retention := {| ret_Disabled := None; ret_KeepLast := None; ret_KeepDays := None |};
  bk_DestinationType := DestinationTypeS3;
  bk_S3 := Some {| s3_Bucket := "bucket"; s3_Prefix := ""; s3_Region := "eu"; s3_Endpoint := "" |};
  bk_EncryptionKey := None |}.
Definition run : RunRef := {|
  run_Name := "run"; run_BackupRef := "b"; run_Phase := BackupRunPhaseSucceeded;
  run_Location := "s3://bucket/ns/main/b/backup/main/20250101-000000F" |}.
Definition cluster (ann : gmap string string) : RestoreCluster := {|
  rc_Name := "main"; rc_ResourceVersion := 1; rc_Annotations := ann; rc_PostgresMajorVersion := None;
  rc_Image := "postgres:18"; rc_LastRestore := None |}.
Definition restore (name uid : string) : Restore := {|
  re_Name := name; re_Namespace := "ns"; re_UID := uid; re_ResourceVersion := 1; re_Deleting := false; re_Finalizer := false;
  re_Spec := {| rsp_Type := BackupTypePhysical; rsp_BackupRunRef := "run"; rsp_ClusterRef := "main"; rsp_DatabaseRef := None;
                rsp_TargetTime := None |};
  re_Status := no_status |}.

(** PostgreSQL runs, and the user confirmed r1. *)
Definition w0 : World := {|
  w_restores := ∅; w_cluster := Some (cluster {[ AnnotationAllowRestore := "r1" ]}); w_runs := {[ "run" := run ]};
  w_backups := {[ "b" := backup ]}; w_jobs := ∅; w_running := ∅; w_sts := Some 1; w_pods := 1; w_volume := true;
  w_dirty := false; w_uids := ∅ |}.

Lemma w0_initial : initial {| cf_world := w0; cf_pass := None |}.
Proof. by vm_compute. Qed.

(** r1 takes the Cluster, PostgreSQL stops, the Job is created and runs. *)
Definition restoring : list action :=
  [ACreate (restore "r1" "u1"); APass "r1" None; AScale 1; APodStop; APass "r1" None; APass "r1" None; AJobStart "r1-restore"].

Definition after (strict : bool) (l : list action) : World := default w0 (acts strict "main" l w0).

Lemma after_reachable strict l : bool_decide (is_Some (acts strict "main" l w0)) = true →
  reachable strict "main" {| cf_world := after strict l; cf_pass := None |}.
Proof.
  intros Hl%bool_decide_eq_true. destruct Hl as [w Hw]. unfold after. rewrite Hw. by eapply acts_reachable; [apply w0_initial|].
Qed.
End RestoreDemo.

Import RestoreDemo.

Lemma restore_excludes_postgres_witness :
  let w := after true restoring in
  "r1-restore" ∈ w_running w ∧ w_pods w = 0%nat ∧ ∀ j', j' ∈ w_running w → j' = "r1-restore".
Proof.
  intros w.
  assert (Hj : "r1-restore" ∈ w_running w) by (apply (bool_decide_unpack _); vm_compute; exact I).
  split; [exact Hj|].
  apply (@restore_excludes_postgres no_urls no_digest "main" {| cf_world := w; cf_pass := None |} "r1-restore"); [|exact Hj].
  apply after_reachable. vm_compute. reflexivity.
Defined.

(** The Restore is deleted and its Job stopped before it completed: the Cluster stays down. *)
Lemma half_restored_never_served_witness :
  let w := after true (restoring ++ [ADelete "r1"; APass "r1" None; AJobStop "r1-restore"; AScale 1]) in
  w_dirty w = true ∧ w_running w = ∅ ∧ w_pods w = 0%nat ∧ ∀ c, w_cluster w = Some c → paused c = true.
Proof.
  intros w. assert (Hd : w_dirty w = true) by (vm_compute; reflexivity).
  split; [exact Hd|]. split; [vm_compute; reflexivity|].
  apply (@half_restored_never_served no_urls no_digest "main" {| cf_world := w; cf_pass := None |}); [|exact Hd].
  apply after_reachable. vm_compute. reflexivity.
Defined.

Lemma volume_refines_lock_witness :
  let w := after true (restoring ++ [AJobStop "r1-restore"]) in
  let w' := w_set_dirty true (w_set_jobs (w_jobs w) ({["r1-restore"]} ∪ w_running w) w) in
  volume_user w = None ∧ volume_user w' = Some (RestoreJob "r1-restore") ∧ volume_step (volume_user w) (volume_user w').
Proof.
  intros w w'. split; [vm_compute; reflexivity|]. split; [vm_compute; reflexivity|].
  apply (@volume_refines_lock no_urls no_digest "main" {| cf_world := w; cf_pass := None |} {| cf_world := w'; cf_pass := None |}).
  - apply after_reachable. vm_compute. reflexivity.
  - destruct (w_jobs w !! "r1-restore") as [j|] eqn:Hj; [|vm_compute in Hj; discriminate].
    apply step_env, (env_job_start _ _ _ _ j); [exact Hj|..]; vm_compute in Hj; injection Hj as <-; reflexivity.
Defined.

(** ** When the rules are broken *)

(** A Restore confirmed while the Job of a deleted one still has a pod takes over the
    Cluster (the deleted Restore already gave up restore-in-progress): its Job runs
    beside the old one, and when it completes PostgreSQL starts beside the old one. *)
Theorem takeover_meets_old_job : ∃ w,
  reachable false "main" {| cf_world := w; cf_pass := None |} ∧ "r1-restore" ∈ w_running w ∧ w_pods w = 1%nat.
Proof.
  exists (after false (restoring ++
    [ACreate (restore "r2" "u2"); ADelete "r1"; APass "r1" None; AConfirm "r2/u2"; APass "r2" None; APass "r2" None; APass "r2" None;
     AJobStart "r2-restore"; AJobStop "r2-restore"; AJobComplete "r2-restore"; APass "r2" None; AScale 1; APodStart])).
  split; [apply after_reachable; vm_compute; reflexivity|].
  split; [apply (bool_decide_unpack _); vm_compute; exact I|vm_compute; reflexivity].
Qed.

(** A Cluster deleted during a restore ends the Restore while its Job runs on, so a
    Cluster created again with its name starts PostgreSQL beside the Job. *)
Theorem recreated_cluster_meets_job : ∃ w,
  reachable false "main" {| cf_world := w; cf_pass := None |} ∧ "r1-restore" ∈ w_running w ∧ w_pods w = 1%nat.
Proof.
  exists (after false (restoring ++ [AClusterGone; APass "r1" None; AClusterNew (cluster ∅); AScale 1; APodStart])).
  split; [apply after_reachable; vm_compute; reflexivity|].
  split; [apply (bool_decide_unpack _); vm_compute; exact I|vm_compute; reflexivity].
Qed.

(** A Restore whose Job name is recorded releases the Cluster when its BackupRun is
    gone; when the write that marks it Failed fails and the BackupRun comes back, it
    creates its Job without looking at the Cluster again. *)
Theorem released_restore_creates_job : ∃ w,
  reachable false "main" {| cf_world := w; cf_pass := None |} ∧ "r1-restore" ∈ w_running w ∧ w_pods w = 1%nat.
Proof.
  exists (after false (
    [ACreate (restore "r1" "u1"); APass "r1" None; AScale 1; APodStop; APass "r1" None; ASources ∅; APass "r1" (Some 8%nat);
     AScale 1; APodStart; ASources {[ "run" := run ]}; APass "r1" None; AJobStart "r1-restore"])).
  split; [apply after_reachable; vm_compute; reflexivity|].
  split; [apply (bool_decide_unpack _); vm_compute; exact I|vm_compute; reflexivity].
Qed.

(** ** Confirmation *)

(** Names and UIDs of objects hold no slash. *)
Definition no_slash (s : string) : Prop := ContainsByte s "/" = false.

(** Only an approval that names the Restore confirms it, and once another Restore
    finished on the Cluster only one that also has the Restore's UID does: a standing
    approval by name never runs a second Restore. *)
Theorem restoreConfirmed_iff c r :
  no_slash (re_Name r) → re_Name r ≠ "" →
  restoreConfirmed c r = true ↔
    rc_ann c AnnotationAllowRestore = re_Name r +:+ "/" +:+ re_UID r ∨
    (rc_ann c AnnotationAllowRestore = re_Name r ∧ ∀ last, rc_LastRestore c = Some last → lr_UID last = re_UID r).
Proof.
  intros Hn Hne. change ("/" +:+ re_UID r) with (String "/" (re_UID r)). unfold restoreConfirmed, cut_slash. set (v := rc_ann c AnnotationAllowRestore).
  set (withoutUID := match rc_LastRestore c with Some last => _ | None => false end).
  assert (Hneed : withoutUID = false ↔ ∀ last, rc_LastRestore c = Some last → lr_UID last = re_UID r).
  { unfold withoutUID. destruct (rc_LastRestore c) as [last|]; [|done]. rewrite negb_false_iff, bool_decide_eq_true. naive_solver. }
  rewrite <-Hneed. clearbody withoutUID v. clear Hneed. destruct (Cut v "/") as [[n u]|] eqn:Ec.
  - pose proof (Cut_Some _ _ _ _ Ec) as [Hv Hnn]. rewrite negb_true_iff. split.
    + intros Hb. left. apply orb_false_elim in Hb as [Hb _]. apply orb_false_elim in Hb as [Hb Hu].
      apply orb_false_elim in Hb as [_ Hb]. simpl in Hu. apply negb_false_iff, bool_decide_eq_true in Hb, Hu. by subst.
    + intros [Heq|[Heq _]].
      * rewrite Heq in Ec. rewrite (Cut_app (re_Name r) (re_UID r)) in Ec by done. injection Ec as <- <-.
        rewrite (bool_decide_eq_true_2 (re_Name r = re_Name r)), (bool_decide_eq_true_2 (re_UID r = re_UID r)) by done.
        rewrite bool_decide_eq_false_2; [by destruct withoutUID|]. rewrite Heq. by destruct (re_Name r).
      * exfalso. unfold no_slash in Hn. rewrite <-Heq, Hv in Hn. rewrite ContainsByte_app_s in Hn. simpl in Hn.
        by rewrite orb_true_r in Hn.
  - rewrite negb_true_iff, !andb_false_l, orb_false_r, andb_true_r. split.
    + intros Hb. right. apply orb_false_elim in Hb as [Hb Hd]. apply orb_false_elim in Hb as [_ Hb].
      by apply negb_false_iff, bool_decide_eq_true in Hb.
    + intros [Heq|[Heq Hd]]; [rewrite Heq, (Cut_app (re_Name r) (re_UID r)) in Ec by done; done|].
      rewrite Heq, Hd. rewrite bool_decide_eq_false_2, (bool_decide_eq_true_2 (re_Name r = re_Name r)); done.
Qed.

Lemma restoreConfirmed_iff_witness :
  restoreConfirmed (cluster {[ AnnotationAllowRestore := "r1/u1" ]}) (restore "r1" "u1") = true.
Proof.
  apply (restoreConfirmed_iff (cluster {[ AnnotationAllowRestore := "r1/u1" ]}) (restore "r1" "u1")).
  - reflexivity.
  - discriminate.
  - left. reflexivity.
Defined.
