(* ===== verification/PgConfig.v ===== *)
(** * The generated postgresql.conf (src/internal/controller/pgconfig.go)

    [renderPostgresConf] turns spec.parameters into the file the server is started
    with; [reconcileConfigMap] and [cleanupConfigMap] keep its ConfigMap;
    [reconcileParameters] waits until the server sees the file, reloads every instance
    once per file and restarts the pod once when a parameter needs it.

    The iteration order of a Go map is that of [map_to_list]; [slices.Sort] hides it
    from every result. Log lines are left out. Delays are nanoseconds. *)

From Stdlib Require Import Ascii.
From S2P Require Import Prelude GoStrings GoStrconv GoUrl Quoting RoleSql ApiTypes RolePolicy Objects Password Connection.
From S2P Require Import Pgbackrest Replication ReplicationReconcile RoleReconcile.

Definition configMountPath : string := "/etc/pgop/config".
Definition configFileName : string := "postgresql.conf".
Definition configFilePath : string := configMountPath +:+ "/" +:+ configFileName.
Definition autoConfFileName : string := "postgresql.auto.conf".
Definition pgContextPostmaster : string := "postmaster".
Definition postgresBinary : string := "postgres".
Definition tlsMountPath : string := "/etc/pgop/tls".
Definition TLSSecretKeyCert : string := "tls.crt".
Definition TLSSecretKeyKey : string := "tls.key".
Definition hbaMountPath : string := "/etc/pgop/hba".
Definition hbaFileName : string := "pg_hba.conf".
Definition ConditionTypeParametersApplied : string := "ParametersApplied".
Definition ReasonWaitingForServer : string := "WaitingForServer".
Definition AnnotationParametersRestart : string := "pgop.ruck.io/parameters-restart".
Definition ReasonParametersApplied : string := "Applied".
Definition ReasonWaitingForSync : string := "WaitingForSync".
Definition ReasonParametersReloading : string := "Reloading".
Definition ReasonPendingRestart : string := "PendingRestart".
Definition ReasonInvalidParameter : string := "InvalidParameter".
Definition ReasonOverriddenByAlterSystem : string := "OverriddenByAlterSystem".

Definition parametersReloadCheckDelay : Z := 2 * second_ns.
Definition parametersPollInterval : Z := 10 * second_ns.
Definition parametersRetryInterval : Z := 30 * second_ns.
Definition parametersInvalidRecheck : Z := 60 * second_ns.
Definition parametersRecheckInterval : Z := 300 * second_ns.

Abbreviation params_map := (gmap string string).

(** ** The rows of the server and the fields of the objects *)

Record FileSetting := { fs_SourceFile : string; fs_Name : string; fs_Setting : string; fs_Error : string }.

Record Setting := {
  set_Name : string;
  set_Context : string;
  set_Source : string;
  set_SourceFile : string;
  set_PendingRestart : bool }.

(** The parts of spec.tls that the server's arguments depend on. *)
Record ServerTLSSpec := { stls_MinProtocolVersion : string; stls_RequireTLS : option bool }.

Definition GetMinProtocolVersion (t : ServerTLSSpec) : string :=
  if decide (stls_MinProtocolVersion t = "") then "TLSv1.2" else stls_MinProtocolVersion t.

Definition IsRequireTLS (t : ServerTLSSpec) : bool := default true (stls_RequireTLS t).

Definition configMapName (name : string) : string := name +:+ "-config".

(** ** The file *)

Definition parametersWithLineBreaks (params : params_map) : list string :=
  slices_Sort (omap (λ '(k, v), if ContainsAny v (String "013" (str1 newline)) then Some k else None) (map_to_list params)).

Definition conf_comment : string := "# Generated by pgop from Cluster spec.parameters. Changes are overwritten.".

Definition conf_line (params : params_map) (k : string) : string :=
  k +:+ " = " +:+ quoteConfValue (default "" (params !! k)) +:+ str1 newline.

Fixpoint conf_lines (params : params_map) (keys : list string) : string :=
  match keys with
  | [] => ""
  | k :: keys => conf_line params k +:+ conf_lines params keys
  end.

Definition postgresConf (params : params_map) (pgdata : string) : string :=
  conf_comment +:+ str1 newline +:+
  "include_if_exists " +:+ quoteConfValue (pgdata +:+ "/postgresql.conf") +:+ str1 newline +:+
  conf_lines params (sorted_keys params).

Definition renderPostgresConf `{PasswordDigest} (params : params_map) (pgdata : string) : string * string :=
  let conf := postgresConf params pgdata in (conf, sha256_hex conf).

(** [seen[strings.ToLower(k)]++]. *)
Definition count_name (seen : gmap string nat) (k : string) : gmap string nat :=
  <[ToLower k := S (default 0%nat (seen !! ToLower k))]> seen.

Definition duplicateParameters (params : params_map) : list string :=
  let seen := foldl count_name ∅ (map_to_list params).*1 in
  slices_Sort (omap (λ '(k, n), if bool_decide (1 < n)%nat then Some k else None) (map_to_list seen)).

(** ** The arguments of the server *)

Definition hbaFileArg : string := "hba_file=" +:+ hbaMountPath +:+ "/" +:+ hbaFileName.

Definition postgresTLSArgs (spec : option ServerTLSSpec) : list string :=
  match spec with
  | None => []
  | Some spec =>
      [postgresBinary; "-c"; "ssl=on";
       "-c"; "ssl_cert_file=" +:+ tlsMountPath +:+ "/" +:+ TLSSecretKeyCert;
       "-c"; "ssl_key_file=" +:+ tlsMountPath +:+ "/" +:+ TLSSecretKeyKey;
       "-c"; "ssl_min_protocol_version=" +:+ GetMinProtocolVersion spec]
      ++ if IsRequireTLS spec then ["-c"; hbaFileArg] else []
  end.

Definition postgresServerArgs (params : params_map) (tls : option ServerTLSSpec) : list string :=
  let tlsArgs := postgresTLSArgs tls in
  if decide (params = ∅) then tlsArgs
  else [postgresBinary; "-c"; "config_file=" +:+ configFilePath] ++ match tlsArgs with [] => [] | _ :: rest => rest end.

(** ** What the server reports *)

Record parameterAssessment := {
  pa_UsesGeneratedFile : bool;
  pa_Synced : bool;
  pa_Invalid : list string;
  pa_InvalidAfterReload : list string;
  pa_Pending : list string;
  pa_RestartNeeded : bool;
  pa_Overridden : list string }.

(** The desired parameters by their lower-case names. *)
Definition desiredParameters (params : params_map) : params_map :=
  foldl (λ m '(k, v), <[ToLower k := v]> m) ∅ (map_to_list params).

Definition settingsByName (settings : list Setting) : gmap string Setting :=
  foldl (λ m s, <[ToLower (set_Name s) := s]> m) ∅ settings.

(** [fmt.Sprintf] of an entry the server rejects. *)
Definition rejectedEntry (f : FileSetting) : string :=
  if decide (fs_Name f = "") then fs_Name f +:+ ": " +:+ fs_Error f
  else fs_Name f +:+ " = " +:+ quoteConfValue (fs_Setting f) +:+ ": " +:+ fs_Error f.

(** What the loop over pg_file_settings collects: the settings of the generated file,
    the entries it rejects, and those only a reload can judge. *)
Record fileEntries := { fe_inFile : params_map; fe_Invalid : list string; fe_AfterReload : list string }.

Definition assessFile (byName : gmap string Setting) (a : fileEntries) (f : FileSetting) : fileEntries :=
  if negb (bool_decide (fs_SourceFile f = configFilePath)) then a
  else
    let name := ToLower (fs_Name f) in
    let inFile := if decide (name = "") then fe_inFile a else <[name := fs_Setting f]> (fe_inFile a) in
    if decide (fs_Error f = "") then {| fe_inFile := inFile; fe_Invalid := fe_Invalid a; fe_AfterReload := fe_AfterReload a |}
    else
      let entry := rejectedEntry f in
      let invalid := {| fe_inFile := inFile; fe_Invalid := fe_Invalid a ++ [entry]; fe_AfterReload := fe_AfterReload a |} in
      match byName !! name with
      | Some s =>
          if bool_decide (set_Context s = pgContextPostmaster) then
            {| fe_inFile := inFile; fe_Invalid := fe_Invalid a;
               fe_AfterReload := fe_AfterReload a ++ if set_PendingRestart s then [] else [entry] |}
          else invalid
      | None => invalid
      end.

Definition assessFiles (byName : gmap string Setting) (files : list FileSetting) : fileEntries :=
  foldl (assessFile byName) {| fe_inFile := ∅; fe_Invalid := []; fe_AfterReload := [] |} files.

Definition is_wanted (desired : params_map) (s : Setting) : bool := bool_decide (is_Some (desired !! ToLower (set_Name s))).

Definition assessParameters (params : params_map) (configFile : string) (files : list FileSetting) (settings : list Setting)
    (autoConfPath : string) : parameterAssessment :=
  let desired := desiredParameters params in
  let e := assessFiles (settingsByName settings) files in
  {| pa_UsesGeneratedFile := bool_decide (configFile = configFilePath);
     pa_Synced := bool_decide (desired = fe_inFile e);
     pa_Invalid := fe_Invalid e;
     pa_InvalidAfterReload := fe_AfterReload e;
     pa_Pending := slices_Sort (set_Name <$> filter (λ s, set_PendingRestart s = true) settings);
     pa_RestartNeeded :=
       existsb (λ s, set_PendingRestart s && (is_wanted desired s || bool_decide (set_SourceFile s = configFilePath))) settings;
     pa_Overridden :=
       slices_Sort (set_Name <$> filter (λ s, is_wanted desired s = true ∧ set_SourceFile s = autoConfPath) settings) |}.

(** ** The Cluster, the API server and the servers *)

(** The parts of one Cluster that the components read. *)
Record ConfCluster := {
  cf_cluster : PgCluster;
  cf_repl : Cluster;
  cf_image : ClusterImage;
  cf_Generation : Z;
  cf_Parameters : params_map;
  cf_TLS : option ServerTLSSpec }.

(** The parts of its status that a pass changes. *)
Record ParameterStatus := {
  pst_Conditions : list Condition;
  pst_ParametersHash : string;
  pst_PendingRestart : list string }.

(** The fields of the StatefulSet read here. *)
Record ParameterStatefulSet := {
  pss_CurrentRevision : string;
  pss_UpdateRevision : string;
  pss_TemplateAnnotations : gmap string string }.

Record ParameterServer (W : Type) := {
  ps_ConfigFile : M W (result string);
  ps_FileSettings : M W (result (list FileSetting));
  ps_Settings : M W (result (list Setting));
  ps_ReloadConfig : M W error }.
Arguments ps_ConfigFile {W}. Arguments ps_FileSettings {W}. Arguments ps_Settings {W}. Arguments ps_ReloadConfig {W}.

(** [po_Connect]: the connection configuration and the dial address ("" for the
    host). [po_PatchStatefulSet]: a merge patch that sets one annotation of the pod
    template. *)
Record parameterOps (W : Type) := {
  po_GetSecret : string → string → M W (result (option Secret));
  po_GetStatefulSet : M W (result (option ParameterStatefulSet));
  po_PatchStatefulSet : string → string → M W error;
  po_GetConfigMap : string → M W (result (option ConfigMap));
  po_CreateConfigMap : string → gmap string string → gmap string string → M W error;
  po_UpdateConfigMap : string → gmap string string → M W error;
  po_DeleteConfigMap : string → M W error;
  po_Connect : ConnectionConfig → string → M W (result (ParameterServer W));
  po_Warn : string → string → M W () }.
Arguments po_GetSecret {W}. Arguments po_GetStatefulSet {W}. Arguments po_PatchStatefulSet {W}.
Arguments po_GetConfigMap {W}. Arguments po_CreateConfigMap {W}. Arguments po_UpdateConfigMap {W}.
Arguments po_DeleteConfigMap {W}. Arguments po_Connect {W}. Arguments po_Warn {W}.

(** [meta.FindStatusCondition] and [meta.RemoveStatusCondition]. *)
Class ConditionLookup := {
  FindStatusCondition : list Condition → string → option Condition;
  RemoveStatusCondition : list Condition → string → list Condition }.

(** The operator reads the credentials Secret of the Cluster itself. *)
Definition with_credentials (c : PgCluster) : PgCluster :=
  {| k_Name := k_Name c; k_Namespace := k_Namespace c; k_UID := k_UID c; k_Port := k_Port c; k_TLS := k_TLS c;
     k_RolePolicy := k_RolePolicy c; k_Ready := k_Ready c; k_SecretName := k_Name c +:+ "-credentials";
     k_TLSReady := k_TLSReady c; k_TLSSecretHash := k_TLSSecretHash c |}.

(** [readyStandbyAddresses]: pod name to dial address. *)
Definition readyStandbyAddresses (c : ConfCluster) (pods : list Pod) : gmap string string :=
  foldl (λ out p,
    if bool_decide (ordinal_or_0 (podOrdinal (cf_repl c) (pod_Name p)) = 0) || negb (isPodReady p) || bool_decide (pod_IP p = "")
    then out else <[pod_Name p := JoinHostPort (pod_IP p) (Itoa (clusterPort (cf_cluster c)))]> out) ∅ pods.

Definition set_conditions (l : list Condition) (st : ParameterStatus) : ParameterStatus :=
  {| pst_Conditions := l; pst_ParametersHash := pst_ParametersHash st; pst_PendingRestart := pst_PendingRestart st |}.

Definition set_hash (h : string) (st : ParameterStatus) : ParameterStatus :=
  {| pst_Conditions := pst_Conditions st; pst_ParametersHash := h; pst_PendingRestart := pst_PendingRestart st |}.

Definition set_pending (l : list string) (st : ParameterStatus) : ParameterStatus :=
  {| pst_Conditions := pst_Conditions st; pst_ParametersHash := pst_ParametersHash st; pst_PendingRestart := l |}.

Section operations.
Context `{PasswordDigest} `{ErrorText} `{ConditionSetter} `{ConditionLookup} {W : Type} (r : parameterOps W) (c : ConfCluster).

(** ** The ConfigMap *)

Definition configMapLabels : gmap string string :=
  {[ LabelAppName := AppNamePostgresql; LabelAppInstance := k_Name (cf_cluster c); LabelAppManagedBy := LabelValuePgop ]}.

Definition reconcileConfigMap (layout : postgresLayout) : M W error :=
  if decide (cf_Parameters c = ∅) then mret None
  else
    let conf := (renderPostgresConf (cf_Parameters c) (lay_PGDATA layout)).1 in
    let name := configMapName (k_Name (cf_cluster c)) in
    cm ← po_GetConfigMap r name;
    match cm with
    | inl (Some cm) =>
        if negb (cm_ControlledByCluster cm)
        then mret (Some (Errorf "ConfigMap %q exists and is not owned by the Cluster" [name]))
        else if decide (default "" (cm_Data cm !! configFileName) = conf ∧ size (cm_Data cm) = 1%nat) then mret None
        else po_UpdateConfigMap r name {[ configFileName := conf ]}
    | inr e => mret (Some e)
    | inl None => po_CreateConfigMap r name configMapLabels {[ configFileName := conf ]}
    end.

(** [client.IgnoreNotFound]: [po_DeleteConfigMap] answers [None] when it is gone. *)
Definition cleanupConfigMap : M W error :=
  if negb (bool_decide (cf_Parameters c = ∅)) then mret None
  else
    let name := configMapName (k_Name (cf_cluster c)) in
    cm ← po_GetConfigMap r name;
    match cm with
    | inl None => mret None
    | inr e => mret (Some e)
    | inl (Some cm) => if negb (cm_ControlledByCluster cm) then mret None else po_DeleteConfigMap r name
    end.

(** ** The condition *)

Definition parametersCondition (status reason message : string) : Condition :=
  {| cond_Type := ConditionTypeParametersApplied; cond_Status := status; cond_ObservedGeneration := cf_Generation c;
     cond_Reason := reason; cond_Message := message |}.

(** The reasons worth a Warning event. *)
Definition warned (reason : string) : bool :=
  bool_decide (reason = ReasonInvalidParameter) || bool_decide (reason = ReasonOverriddenByAlterSystem).

Definition setParametersCondition (st : ParameterStatus) (status reason message : string) : M W ParameterStatus :=
  let changed := match FindStatusCondition (pst_Conditions st) ConditionTypeParametersApplied with
                 | None => true
                 | Some prev => negb (bool_decide (cond_Reason prev = reason)) || negb (bool_decide (cond_Message prev = message))
                 end in
  let st := set_conditions (SetStatusCondition (pst_Conditions st) (parametersCondition status reason message)) st in
  if changed && warned reason then po_Warn r reason message;; mret st else mret st.

(** A pass that ends with this condition and this delay. *)
Definition endWith (st : ParameterStatus) (status reason message : string) (delay : Z) : M W (Z * ParameterStatus) :=
  st ← setParametersCondition st status reason message;
  mret (delay, st).

(** ** The servers *)

Definition statefulSetRolledOut : M W (result bool) :=
  s ← po_GetStatefulSet r;
  mret (match s with
        | inr e => inr e
        | inl None => inr (notFound (k_Name (cf_cluster c)))
        | inl (Some s) => inl (bool_decide (pss_UpdateRevision s = pss_CurrentRevision s))
        end).

Definition connectForParameters (dialAddress : string) : M W (result (ParameterServer W)) :=
  cfg ← operatorConnectionConfig (po_GetSecret r) (with_credentials (cf_cluster c)) defaultDatabaseName;
  match cfg with
  | inr e => mret (inr e)
  | inl cfg => po_Connect r cfg dialAddress
  end.

Definition readParameterState (layout : postgresLayout) : M W (result parameterAssessment) :=
  srv ← connectForParameters "";
  match srv with
  | inr e => mret (inr e)
  | inl srv =>
      configFile ← ps_ConfigFile srv;
      match configFile with
      | inr e => mret (inr e)
      | inl configFile =>
          files ← ps_FileSettings srv;
          match files with
          | inr e => mret (inr e)
          | inl files =>
              settings ← ps_Settings srv;
              mret (match settings with
                    | inr e => inr e
                    | inl settings =>
                        inl (assessParameters (cf_Parameters c) configFile files settings
                               (lay_PGDATA layout +:+ "/" +:+ autoConfFileName))
                    end)
          end
      end
  end.

Definition reloadServer (dialAddress : string) : M W error :=
  srv ← connectForParameters dialAddress;
  match srv with
  | inr e => mret (Some e)
  | inl srv => ps_ReloadConfig srv
  end.

Fixpoint reloadStandbys (standbys : gmap string string) (names : list string) : M W error :=
  match names with
  | [] => mret None
  | name :: names =>
      e ← reloadServer (default "" (standbys !! name));
      match e with
      | Some e => mret (Some (Wrapf "standby %s: %w" [name] e))
      | None => reloadStandbys standbys names
      end
  end.

Definition reloadForParameters (pods : list Pod) : M W error :=
  e ← reloadServer "";
  match e with
  | Some e => mret (Some e)
  | None => let standbys := readyStandbyAddresses c pods in reloadStandbys standbys (sorted_keys standbys)
  end.

Definition restartForParameters (hash : string) : M W error :=
  s ← po_GetStatefulSet r;
  match s with
  | inr e => mret (Some e)
  | inl None => mret (Some (notFound (k_Name (cf_cluster c))))
  | inl (Some s) =>
      if decide (default "" (pss_TemplateAnnotations s !! AnnotationParametersRestart) = hash) then mret None
      else po_PatchStatefulSet r AnnotationParametersRestart hash
  end.

(** ** The pass *)

(** After the reload of the current file: what it left rejected, pending or
    overridden. *)
Definition afterReload (st : ParameterStatus) (a : parameterAssessment) (hash : string) : M W (Z * ParameterStatus) :=
  if negb (bool_decide (pa_InvalidAfterReload a = [])) then
    endWith st "False" ReasonInvalidParameter ("The server rejects: " +:+ Join (pa_InvalidAfterReload a) "; ") parametersInvalidRecheck
  else
  let st := set_pending (pa_Pending a) st in
  let pending := Join (pa_Pending a) ", " in
  if pa_RestartNeeded a then
    e ← restartForParameters hash;
    endWith st "False" ReasonPendingRestart
      match e with
      | None => "Restarting the PostgreSQL pod to apply: " +:+ pending
      | Some e => "Parameters need a restart (" +:+ pending +:+ ") and restarting the pod failed: " +:+ error_text e
      end parametersPollInterval
  else if negb (bool_decide (pa_Overridden a = [])) then
    endWith st "False" ReasonOverriddenByAlterSystem
      ("ALTER SYSTEM (" +:+ autoConfFileName +:+ ") overrides: " +:+ Join (pa_Overridden a) ", "
         +:+ "; run ALTER SYSTEM RESET for them to use spec.parameters") parametersRecheckInterval
  else
    endWith st "True" ReasonParametersApplied
      ("All parameters are in effect" +:+
       if decide (pa_Pending a = []) then ""
       else "; the server reports a pending restart for parameters not set by spec.parameters: " +:+ pending)
      parametersRecheckInterval.

(** What the server reports decides whether the file can be loaded. *)
Definition applyAssessed (st : ParameterStatus) (a : parameterAssessment) (hash : string) (pods : list Pod)
    : M W (Z * ParameterStatus) :=
  if negb (pa_UsesGeneratedFile a) then
    endWith st "False" ReasonWaitingForSync "Waiting for the pod to restart with the generated configuration file"
      parametersPollInterval
  else if negb (pa_Synced a) then
    endWith st "False" ReasonWaitingForSync "Waiting for the updated configuration file to reach the pod" parametersPollInterval
  else if negb (bool_decide (pa_Invalid a = [])) then
    endWith st "False" ReasonInvalidParameter ("The server rejects: " +:+ Join (pa_Invalid a) "; ") parametersInvalidRecheck
  else if negb (bool_decide (pst_ParametersHash st = hash)) then
    e ← reloadForParameters pods;
    match e with
    | Some e =>
        endWith st "False" ReasonWaitingForServer ("Reloading the server configuration failed: " +:+ error_text e)
          parametersRetryInterval
    | None =>
        endWith (set_hash hash st) "False" ReasonParametersReloading
          "Reloaded the server configuration; checking which parameters need a restart" parametersReloadCheckDelay
    end
  else afterReload st a hash.

Definition reconcileParameters (st : ParameterStatus) (ready : bool) (pods : list Pod) : M W (Z * ParameterStatus) :=
  let params := cf_Parameters c in
  if decide (params = ∅) then
    mret (0, {| pst_Conditions := RemoveStatusCondition (pst_Conditions st) ConditionTypeParametersApplied;
                pst_ParametersHash := ""; pst_PendingRestart := [] |})
  else
  let dups := duplicateParameters params in
  if negb (bool_decide (dups = [])) then
    endWith st "False" ReasonInvalidParameter
      ("Parameter names are case-insensitive; set each only once: " +:+ Join dups ", ") 0
  else
  let bad := parametersWithLineBreaks params in
  if negb (bool_decide (bad = [])) then
    endWith st "False" ReasonInvalidParameter ("Parameter values must not contain line breaks: " +:+ Join bad ", ") 0
  else
  match resolvePostgresLayout (cf_image c) with
  | inr _ => mret (0, st)
  | inl layout =>
      let hash := (renderPostgresConf params (lay_PGDATA layout)).2 in
      if negb ready then
        endWith st "False" ReasonWaitingForServer "Waiting for the PostgreSQL pod to become ready" 0
      else
        rolledOut ← statefulSetRolledOut;
        match rolledOut with
        | inr _ | inl false =>
            endWith st "False" ReasonWaitingForServer "Waiting for the StatefulSet rollout to finish" parametersPollInterval
        | inl true =>
            a ← readParameterState layout;
            match a with
            | inr e =>
                endWith st "False" ReasonWaitingForServer ("Cannot read the server configuration: " +:+ error_text e)
                  parametersRetryInterval
            | inl a => applyAssessed st a hash pods
            end
        end
  end.
End operations.
