(* ===== verification/PgConfigFacts.v ===== *)
(** * What the server's report about the generated file means

    The lookups behind [duplicateParameters], [desiredParameters] and
    [assessParameters], and a reader of postgresql.conf that [postgresConf] is read
    back with. *)

From Stdlib Require Import Ascii.
From S2P Require Import Prelude GoStrings GoStrconv Quoting Parameters PgConfig.

(** ** Names are case-insensitive *)

Lemma count_names l seen x :
  default 0%nat (foldl count_name seen l !! x) = (default 0 (seen !! x) + length (filter (λ k, ToLower k = x) l))%nat.
Proof.
  revert seen. induction l as [|k l IH]; intros seen; simpl; [by rewrite Nat.add_0_r|].
  rewrite IH, filter_cons. unfold count_name. destruct (decide (ToLower k = x)) as [->|Hx].
  - rewrite lookup_insert_eq. simpl. lia.
  - by rewrite lookup_insert_ne.
Qed.

(** No two parameters have the same name up to case. *)
Definition names_unique (params : params_map) : Prop :=
  ∀ k1 k2, is_Some (params !! k1) → is_Some (params !! k2) → ToLower k1 = ToLower k2 → k1 = k2.

Lemma duplicateParameters_nil params : duplicateParameters params = [] → names_unique params.
Proof.
  intros Hd k1 k2 [v1 H1] [v2 H2] Hk. destruct (decide (k1 = k2)) as [->|Hne]; [done|].
  set (l := (map_to_list params).*1). set (seen := foldl count_name ∅ l).
  assert (2 ≤ default 0 (seen !! ToLower k1))%nat as Hn.
  { unfold seen. rewrite count_names, lookup_empty. simpl.
    assert (Hin : ∀ k v, params !! k = Some v → k ∈ l).
    { intros k v Hv. apply list_elem_of_fmap. exists (k, v). by rewrite elem_of_map_to_list. }
    assert ([k1; k2] ⊆+ filter (λ k, ToLower k = ToLower k1) l) as Hs%submseteq_length; [|done].
    apply NoDup_submseteq; [by repeat constructor; rewrite ?list_elem_of_singleton; [|by apply not_elem_of_nil..]; set_solver|].
    intros k [->|[->|[]%elem_of_nil]%elem_of_cons]%elem_of_cons; apply list_elem_of_filter; eauto. }
  exfalso. destruct (seen !! ToLower k1) as [n|] eqn:E; simpl in Hn; [|lia].
  assert (ToLower k1 ∈ duplicateParameters params) as Hin; [|rewrite Hd in Hin; by apply elem_of_nil in Hin].
  unfold duplicateParameters. rewrite elem_of_slices_Sort. apply list_elem_of_omap.
  exists (ToLower k1, n). split; [by apply elem_of_map_to_list|]. by rewrite bool_decide_true by lia.
Qed.

(** A fold of insertions under [f] of the keys. *)
Lemma foldl_insert_lookup {A} (l : list (string * A)) (m : gmap string A) x :
  foldl (λ m '(k, v), <[ToLower k := v]> m) m l !! x =
    match last (filter (λ p, ToLower p.1 = x) l) with Some p => Some p.2 | None => m !! x end.
Proof.
  revert m. induction l as [|[k v] l IH]; intros m; [done|]. cbn [foldl]. rewrite IH, filter_cons. cbn [fst].
  destruct (decide (ToLower k = x)) as [->|Hx].
  - rewrite last_cons. rewrite lookup_insert_eq. by destruct (last _) as [[]|].
  - by rewrite lookup_insert_ne.
Qed.

Lemma desiredParameters_lookup params x v :
  names_unique params → desiredParameters params !! x = Some v ↔ ∃ k, ToLower k = x ∧ params !! k = Some v.
Proof.
  intros Hu. unfold desiredParameters. rewrite foldl_insert_lookup, lookup_empty.
  destruct (last _) as [[k u]|] eqn:E.
  - apply last_Some_elem_of, list_elem_of_filter in E as [Hk Hin%elem_of_map_to_list]. simpl in *. split.
    + intros [= ->]. eauto.
    + intros (k' & Hk' & Hv). assert (k' = k) as -> by (apply Hu; eauto; congruence). congruence.
  - split; [done|]. intros (k & Hk & Hv%elem_of_map_to_list). apply last_None in E.
    assert ((k, v) ∈ filter (λ p, ToLower p.1 = x) (map_to_list params)) as Hin by (by apply list_elem_of_filter).
    rewrite E in Hin. by apply elem_of_nil in Hin.
Qed.

Lemma desiredParameters_some params k v :
  names_unique params → params !! k = Some v → desiredParameters params !! ToLower k = Some v.
Proof. intros Hu Hv. apply desiredParameters_lookup; eauto. Qed.

Lemma settingsByName_in settings x s : settingsByName settings !! x = Some s → s ∈ settings ∧ ToLower (set_Name s) = x.
Proof.
  unfold settingsByName. set (m := ∅).
  assert (∀ l (m : gmap string Setting), (∀ s, m !! x = Some s → s ∈ settings ∧ ToLower (set_Name s) = x) → (∀ s, s ∈ l → s ∈ settings) →
    foldl (λ m s, <[ToLower (set_Name s) := s]> m) m l !! x = Some s → s ∈ settings ∧ ToLower (set_Name s) = x) as Hl.
  { clear m. intros l. induction l as [|s' l IH]; intros m Hm Hl; simpl; [apply Hm|].
    apply IH; [|intros; apply Hl; by right]. intros s0. destruct (decide (ToLower (set_Name s') = x)) as [Hx|Hx].
    - rewrite Hx, lookup_insert_eq. intros [= ->]. split; [apply Hl; by left|done].
    - rewrite lookup_insert_ne by done. apply Hm. }
  apply Hl; [|done]. intros ?. unfold m. by rewrite lookup_empty.
Qed.

(** ** The generated file as the server reads it *)

(** The entries of the generated file, and the last one for a name. *)
Definition generated (files : list FileSetting) : list FileSetting := filter (λ f, fs_SourceFile f = configFilePath) files.
Definition entryFor (files : list FileSetting) (x : string) : option FileSetting :=
  last (filter (λ f, ToLower (fs_Name f) = x) (generated files)).

(** The server accepts the entry, or only a reload can tell. *)
Definition acceptable (byName : gmap string Setting) (f : FileSetting) : Prop :=
  fs_Error f = "" ∨ ∃ s, byName !! ToLower (fs_Name f) = Some s ∧ set_Context s = pgContextPostmaster.

Definition accepted (byName : gmap string Setting) (f : FileSetting) : Prop :=
  fs_Error f = "" ∨ ∃ s, byName !! ToLower (fs_Name f) = Some s ∧ set_Context s = pgContextPostmaster ∧ set_PendingRestart s = true.

Section assess.
Context (byName : gmap string Setting).

Lemma assessFile_inFile a f :
  fe_inFile (assessFile byName a f) =
    if decide (fs_SourceFile f = configFilePath ∧ ToLower (fs_Name f) ≠ "") then <[ToLower (fs_Name f) := fs_Setting f]> (fe_inFile a)
    else fe_inFile a.
Proof.
  unfold assessFile. destruct (decide (fs_SourceFile f = configFilePath)) as [Hs|Hs].
  2:{ rewrite bool_decide_false by done. cbn [negb]. by rewrite decide_False by (by intros [? ?]). }
  rewrite bool_decide_true by done. cbn [negb]. cbv zeta.
  assert (∀ (m : params_map), fe_inFile (if decide (fs_Error f = "") then
      {| fe_inFile := m; fe_Invalid := fe_Invalid a; fe_AfterReload := fe_AfterReload a |} else
      match byName !! ToLower (fs_Name f) with
      | Some s => if bool_decide (set_Context s = pgContextPostmaster) then
          {| fe_inFile := m; fe_Invalid := fe_Invalid a;
             fe_AfterReload := fe_AfterReload a ++ if set_PendingRestart s then [] else [rejectedEntry f] |}
          else {| fe_inFile := m; fe_Invalid := fe_Invalid a ++ [rejectedEntry f]; fe_AfterReload := fe_AfterReload a |}
      | None => {| fe_inFile := m; fe_Invalid := fe_Invalid a ++ [rejectedEntry f]; fe_AfterReload := fe_AfterReload a |}
      end) = m) as Hm.
  { intros m. destruct (decide _); [done|]. destruct (byName !! _) as [s|]; [|done]. by destruct (bool_decide _). }
  rewrite Hm. destruct (decide (ToLower (fs_Name f) = "")) as [Hn|Hn].
  - by rewrite decide_False by (by intros [? ?]).
  - by rewrite decide_True.
Qed.

Lemma assessFiles_inFile files x :
  x ≠ "" → fe_inFile (assessFiles byName files) !! x = fs_Setting <$> entryFor files x.
Proof.
  intros Hx. unfold assessFiles, entryFor, generated.
  set (a := {| fe_inFile := ∅; fe_Invalid := []; fe_AfterReload := [] |}).
  assert (∀ a, fe_inFile (foldl (assessFile byName) a files) !! x =
    match last (filter (λ f, ToLower (fs_Name f) = x) (filter (λ f, fs_SourceFile f = configFilePath) files)) with
    | Some f => Some (fs_Setting f) | None => fe_inFile a !! x end) as Hl; [|rewrite Hl; by destruct (last _)].
  clear a. induction files as [|f files IH]; intros a; [done|]. cbn [foldl]. rewrite IH, assessFile_inFile, filter_cons.
  destruct (decide (fs_SourceFile f = configFilePath)) as [Hs|Hs].
  - rewrite filter_cons. destruct (decide (ToLower (fs_Name f) = x)) as [Hn|Hn].
    + rewrite last_cons. rewrite decide_True by naive_solver. rewrite Hn, lookup_insert_eq. by destruct (last _).
    + destruct (decide (_ ∧ _)); [by rewrite lookup_insert_ne|done].
  - by rewrite decide_False by (by intros [? ?]).
Qed.

Lemma assessFiles_no_empty files : fe_inFile (assessFiles byName files) !! "" = None.
Proof.
  unfold assessFiles. set (a := {| fe_inFile := ∅; fe_Invalid := []; fe_AfterReload := [] |}).
  assert (∀ a, fe_inFile a !! "" = None → fe_inFile (foldl (assessFile byName) a files) !! "" = None) as Hl; [|by apply Hl].
  clear a. induction files as [|f files IH]; intros a Ha; [done|]. apply IH. rewrite assessFile_inFile.
  case_decide; [|done]. rewrite lookup_insert_ne; naive_solver.
Qed.

(** Nothing is rejected when every entry is acceptable. *)
Lemma assessFile_lists a f :
  let a' := assessFile byName a f in
  ∃ inv aft, fe_Invalid a' = fe_Invalid a ++ inv ∧ fe_AfterReload a' = fe_AfterReload a ++ aft ∧
    (inv = [] → fs_SourceFile f = configFilePath → acceptable byName f) ∧
    (inv = [] → aft = [] → fs_SourceFile f = configFilePath → accepted byName f).
Proof.
  unfold assessFile, acceptable, accepted. destruct (decide (fs_SourceFile f = configFilePath)) as [Hs|Hs].
  2:{ rewrite bool_decide_false by done. exists [], []. rewrite !app_nil_r. naive_solver. }
  rewrite bool_decide_true by done. cbn [negb]. cbv zeta. destruct (decide (fs_Error f = "")) as [He|He].
  { exists [], []. rewrite !app_nil_r. naive_solver. }
  destruct (byName !! ToLower (fs_Name f)) as [s|]; simpl.
  2:{ exists [rejectedEntry f], []. rewrite app_nil_r. naive_solver. }
  destruct (decide (set_Context s = pgContextPostmaster)) as [Hc|Hc].
  - rewrite bool_decide_true by done. exists [], (if set_PendingRestart s then [] else [rejectedEntry f]).
    rewrite app_nil_r. simpl. split_and!; [done|done|eauto|]. intros _. destruct (set_PendingRestart s) eqn:Ep; [|done]. eauto.
  - rewrite bool_decide_false by done. exists [rejectedEntry f], []. rewrite app_nil_r. naive_solver.
Qed.

Lemma assessFiles_lists files :
  let e := assessFiles byName files in
  (fe_Invalid e = [] → Forall (acceptable byName) (generated files)) ∧
  (fe_Invalid e = [] → fe_AfterReload e = [] → Forall (accepted byName) (generated files)).
Proof.
  unfold assessFiles, generated. set (a := {| fe_inFile := ∅; fe_Invalid := []; fe_AfterReload := [] |}).
  assert (∀ a, let e := foldl (assessFile byName) a files in
    ∃ inv aft, fe_Invalid e = fe_Invalid a ++ inv ∧ fe_AfterReload e = fe_AfterReload a ++ aft ∧
      (inv = [] → Forall (acceptable byName) (filter (λ f, fs_SourceFile f = configFilePath) files)) ∧
      (inv = [] → aft = [] → Forall (accepted byName) (filter (λ f, fs_SourceFile f = configFilePath) files))) as Hl.
  2:{ cbv zeta. destruct (Hl a) as (inv & aft & -> & -> & H1 & H2). simpl. auto. }
  clear a. induction files as [|f files IH]; intros a; simpl.
  { exists [], []. rewrite !app_nil_r. eauto using Forall_nil_2. }
  destruct (assessFile_lists a f) as (inv & aft & Hi & Ha & H1 & H2).
  destruct (IH (assessFile byName a f)) as (inv' & aft' & Hi' & Ha' & H1' & H2').
  exists (inv ++ inv'), (aft ++ aft'). rewrite Hi', Ha', Hi, Ha, <-!app_assoc, filter_cons. split_and!; [done|done| |].
  - intros [-> ->]%app_nil. case_decide; [constructor; auto|auto].
  - intros [-> ->]%app_nil [-> ->]%app_nil. case_decide; [constructor; auto|auto].
Qed.
End assess.

(** ** A reader of postgresql.conf

    One entry per line: a name, an optional [=], a quoted value; blank lines and
    comments. A quoted value never spans lines. *)

Definition is_conf_name_byte (c : ascii) : bool := is_alpha_ c || is_digit c || bool_decide (c = "."%char).

Fixpoint span_bytes (p : ascii → bool) (s : string) : string * string :=
  match s with
  | String c s' => if p c then prod_map (String c) id (span_bytes p s') else ("", s)
  | EmptyString => ("", "")
  end.

Definition skip_blanks (s : string) : string := (span_bytes (λ c, bool_decide (c = " "%char) || bool_decide (c = "009"%char)) s).2.

Definition ends_line (s : string) : bool :=
  match skip_blanks s with EmptyString => true | String c _ => bool_decide (c = "#"%char) end.

Definition skip_equals (s : string) : string :=
  match s with String c s' => if decide (c = "="%char) then skip_blanks s' else s | EmptyString => s end.

Definition read_line (line : string) : option (option (string * string)) :=
  if ends_line line then Some None
  else
    let '(name, rest) := span_bytes is_conf_name_byte (skip_blanks line) in
    if decide (name = "") then None
    else match read_conf (skip_equals (skip_blanks rest)) with
         | Some (v, rest) => if ends_line rest then Some (Some (name, v)) else None
         | None => None
         end.

Definition read_conf_file (s : string) : option (list (string * string)) := omap id <$> mapM read_line (Split s newline).

(** What the schema of spec.parameters admits as a name. *)
Definition parameter_name (k : string) : bool :=
  match k with String c k' => is_alpha_ c && sforall is_conf_name_byte k' | EmptyString => false end.

Lemma span_bytes_app p k c rest : sforall p k = true → p c = false → span_bytes p (k +:+ String c rest) = (k, String c rest).
Proof.
  intros Hk Hc. induction k as [|d k IH]; simpl in *; [by rewrite Hc|].
  apply andb_true_iff in Hk as [-> Hk]. by rewrite IH.
Qed.

Lemma ContainsByte_sforall s b : sforall (λ c, negb (bool_decide (c = b))) s = true → ContainsByte s b = false.
Proof.
  induction s as [|c s IH]; simpl; [done|]. intros [Hc Hs]%andb_true_iff. rewrite IH by done.
  by destruct (bool_decide (c = b)).
Qed.

Lemma quoteConfValue_no_newline v : ContainsByte (quoteConfValue v) newline = false.
Proof.
  unfold quoteConfValue. rewrite !ContainsByte_app_s, (ContainsByte_sforall (confValueEscaper v)); [done|].
  apply confValueEscaper_no_newline.
Qed.

Lemma parameter_name_bytes k : parameter_name k = true → sforall is_conf_name_byte k = true.
Proof.
  destruct k as [|c k]; [done|]. simpl. intros [Hc ->]%andb_true_iff. unfold is_conf_name_byte. by rewrite Hc.
Qed.

Lemma conf_name_newline k : sforall is_conf_name_byte k = true → ContainsByte k newline = false.
Proof.
  intros Hk. apply ContainsByte_sforall. eapply sforall_impl; [|exact Hk]. intros c Hc.
  destruct (decide (c = newline)) as [->|Hn]; [done|]. by rewrite bool_decide_false.
Qed.

(** A name starts with a byte that neither ends a line nor is skipped. *)
Lemma name_starts c : is_alpha_ c = true → bool_decide (c = " "%char) || bool_decide (c = "009"%char) = false ∧ bool_decide (c = "#"%char) = false.
Proof.
  intros Hc. destruct (decide (c = " "%char)) as [->|]; [done|]. destruct (decide (c = "009"%char)) as [->|]; [done|].
  destruct (decide (c = "#"%char)) as [->|]; [done|]. by rewrite !bool_decide_false.
Qed.

Lemma read_line_entry k sep v :
  parameter_name k = true → (sep = " = " ∨ sep = " ") →
  read_line (k +:+ sep +:+ quoteConfValue v) = Some (Some (k, v)).
Proof.
  intros Hk Hsep. pose proof (parameter_name_bytes _ Hk) as Hb. destruct k as [|c k]; [done|].
  simpl in Hk. apply andb_true_iff in Hk as [Hc _]. destruct (name_starts c Hc) as [H1 H2].
  assert (skip_blanks (String c k +:+ sep +:+ quoteConfValue v) = String c k +:+ sep +:+ quoteConfValue v) as Hs.
  { unfold skip_blanks. simpl. by rewrite H1. }
  unfold read_line, ends_line. rewrite Hs. change (String c k +:+ sep +:+ quoteConfValue v)
    with (String c (k +:+ sep +:+ quoteConfValue v)) at 1. cbv iota. rewrite H2.
  assert (∃ rest, sep +:+ quoteConfValue v = String " " rest) as [rest Hrest] by (destruct Hsep as [-> | ->]; eauto).
  rewrite Hrest, span_bytes_app by done. rewrite <-Hrest. cbn [decide]. rewrite decide_False by done.
  assert (skip_equals (skip_blanks (sep +:+ quoteConfValue v)) = quoteConfValue v) as -> by (by destruct Hsep as [-> | ->]).
  rewrite <-(app_nil_r_s (quoteConfValue v)). rewrite (read_quoted v ""); done.
Qed.

Lemma Split_line s rest : ContainsByte s newline = false → Split (s +:+ str1 newline +:+ rest) newline = s :: Split rest newline.
Proof. intros Hs. change (str1 newline +:+ rest) with (String newline rest). by apply Split_app. Qed.

Lemma read_conf_lines params keys :
  Forall (λ k, parameter_name k = true) keys →
  read_conf_file (conf_lines params keys) = Some ((λ k, (k, default "" (params !! k))) <$> keys).
Proof.
  unfold read_conf_file. induction keys as [|k keys IH]; [done|]. intros [Hk Hks]%Forall_cons. cbn [conf_lines].
  unfold conf_line. rewrite !app_assoc_s.
  replace (k +:+ " = " +:+ quoteConfValue (default "" (params !! k)) +:+ str1 newline +:+ conf_lines params keys)
    with ((k +:+ " = " +:+ quoteConfValue (default "" (params !! k))) +:+ str1 newline +:+ conf_lines params keys)
    by (by rewrite !app_assoc_s).
  rewrite Split_line.
  - cbn [mapM]. rewrite read_line_entry by auto. specialize (IH Hks). destruct (mapM _ _) as [l|]; [|done].
    simpl in *. injection IH as Hl. f_equal. f_equal. exact Hl.
  - rewrite !ContainsByte_app_s, conf_name_newline, quoteConfValue_no_newline; [done|]. by apply parameter_name_bytes.
Qed.
