(* ===== verification/PgConfigTheorems.v ===== *)
(** * spec.parameters: what is rendered, reloaded, restarted and reported

    The calls of [reconcileParameters] with what justifies each, the theorems on them
    and on the rendered file, and a concrete pass. *)

From S2P Require Import Prelude GoStrings GoStrconv Quoting RoleSql ApiTypes RolePolicy Objects Password Connection Pgbackrest.
From S2P Require Import Trace Replication ReplicationReconcile RoleReconcile PgConfig PgConfigFacts.

Inductive conf_event :=
  | CGetSecret (namespace name : string) (r : result (option Secret))
  | CGetStatefulSet (r : result (option ParameterStatefulSet))
  | CPatchStatefulSet (k v : string) (e : error)
  | CConfigMap (name : string)
  | CConnect (addr : string) (e : error)
  | CConfigFile (addr : string) (r : result string)
  | CFileSettings (addr : string) (r : result (list FileSetting))
  | CSettings (addr : string) (r : result (list Setting))
  | CReload (addr : string) (e : error)
  | CWarn (reason message : string).

Section logged.
Context {W : Type}.

Definition conf_server (addr : string) (s : ParameterServer W) : ParameterServer (W * list conf_event) :=
  {| ps_ConfigFile := logged (CConfigFile addr) (ps_ConfigFile s);
     ps_FileSettings := logged (CFileSettings addr) (ps_FileSettings s);
     ps_Settings := logged (CSettings addr) (ps_Settings s);
     ps_ReloadConfig := logged (CReload addr) (ps_ReloadConfig s) |}.

Definition conf_ops (r : parameterOps W) : parameterOps (W * list conf_event) :=
  {| po_GetSecret := λ ns n, logged (CGetSecret ns n) (po_GetSecret r ns n);
     po_GetStatefulSet := logged CGetStatefulSet (po_GetStatefulSet r);
     po_PatchStatefulSet := λ k v, logged (CPatchStatefulSet k v) (po_PatchStatefulSet r k v);
     po_GetConfigMap := λ n, logged (λ _, CConfigMap n) (po_GetConfigMap r n);
     po_CreateConfigMap := λ n l d, logged (λ _, CConfigMap n) (po_CreateConfigMap r n l d);
     po_UpdateConfigMap := λ n d, logged (λ _, CConfigMap n) (po_UpdateConfigMap r n d);
     po_DeleteConfigMap := λ n, logged (λ _, CConfigMap n) (po_DeleteConfigMap r n);
     po_Connect := λ cfg addr,
       s ← logged (λ s, CConnect addr (match s with inl _ => None | inr e => Some e end)) (po_Connect r cfg addr);
       mret (match s with inl s => inl (conf_server addr s) | inr e => inr e end);
     po_Warn := λ reason msg, logged (λ _, CWarn reason msg) (po_Warn r reason msg) |}.
End logged.

(** ** What the assessment says about the report *)

(** The generated file, as the server reads it, has exactly the desired parameters. *)
Definition in_sync (params : params_map) (files : list FileSetting) : Prop :=
  (∀ k v, params !! k = Some v → ∃ f, entryFor files (ToLower k) = Some f ∧ fs_Setting f = v) ∧
  (∀ f, f ∈ generated files → ToLower (fs_Name f) ≠ "" → ∃ k, is_Some (params !! k) ∧ ToLower k = ToLower (fs_Name f)).

(** A setting of a desired parameter. *)
Definition sets (params : params_map) (s : Setting) : Prop := ∃ k, is_Some (params !! k) ∧ ToLower k = ToLower (set_Name s).

Section assessed.
Context (params : params_map) (configFile : string) (files : list FileSetting) (settings : list Setting) (auto : string).
Hypothesis Hunique : names_unique params.
Abbreviation a := (assessParameters params configFile files settings auto).

Lemma is_wanted_sets s : is_wanted (desiredParameters params) s = true ↔ sets params s.
Proof.
  unfold is_wanted, sets. rewrite bool_decide_eq_true. split.
  - intros [v (k & Hk & Hv)%desiredParameters_lookup]; [|done]. eauto.
  - intros (k & [v Hv] & <-). exists v. by apply desiredParameters_some.
Qed.

Lemma synced_in_sync : pa_Synced a = true → in_sync params files.
Proof.
  simpl. rewrite bool_decide_eq_true. intros Hs. split.
  - intros k v Hv. apply desiredParameters_some in Hv; [|done]. rewrite Hs in Hv.
    destruct (decide (ToLower k = "")) as [Hk|Hk]; [by rewrite Hk, assessFiles_no_empty in Hv|].
    rewrite assessFiles_inFile in Hv by done. apply fmap_Some in Hv as (f & ? & ->). eauto.
  - intros f Hf Hn. destruct (entryFor files (ToLower (fs_Name f))) as [g|] eqn:E.
    + pose proof (assessFiles_inFile (settingsByName settings) files _ Hn) as Hl. rewrite E, <-Hs in Hl.
      apply desiredParameters_lookup in Hl as (k & Hk & Hv); [|done]. eauto.
    + unfold entryFor in E. apply last_None in E.
      assert (f ∈ filter (λ f', ToLower (fs_Name f') = ToLower (fs_Name f)) (generated files)) as Hin by (by apply list_elem_of_filter).
      rewrite E in Hin. by apply elem_of_nil in Hin.
Qed.

Lemma invalid_nil : pa_Invalid a = [] → Forall (acceptable (settingsByName settings)) (generated files).
Proof. simpl. apply assessFiles_lists. Qed.

Lemma after_reload_nil :
  pa_Invalid a = [] → pa_InvalidAfterReload a = [] → Forall (accepted (settingsByName settings)) (generated files).
Proof. simpl. apply assessFiles_lists. Qed.

Lemma restart_needed_true :
  pa_RestartNeeded a = true →
  ∃ s, s ∈ settings ∧ set_PendingRestart s = true ∧ (sets params s ∨ set_SourceFile s = configFilePath).
Proof.
  simpl. intros (s & Hin%list_elem_of_In & [Hp Hw]%andb_true_iff)%existsb_exists. exists s. split_and!; [done..|].
  apply orb_true_iff in Hw as [Hw|Hw]; [left; by apply is_wanted_sets|right; by apply bool_decide_eq_true in Hw].
Qed.

Lemma restart_needed_false s :
  pa_RestartNeeded a = false → s ∈ settings → sets params s → set_PendingRestart s = false.
Proof.
  simpl. intros Hn Hin Hs%is_wanted_sets. destruct (set_PendingRestart s) eqn:E; [|done].
  assert (existsb (λ s, set_PendingRestart s && (is_wanted (desiredParameters params) s
    || bool_decide (set_SourceFile s = configFilePath))) settings = true) as Ht; [|congruence].
  apply existsb_exists. exists s. split; [by apply list_elem_of_In|]. by rewrite E, Hs.
Qed.

Lemma overridden_nil s : pa_Overridden a = [] → s ∈ settings → sets params s → set_SourceFile s ≠ auto.
Proof.
  simpl. intros Hn Hin Hs%is_wanted_sets Ha.
  assert (set_Name s ∈ slices_Sort (set_Name <$>
    filter (λ s, is_wanted (desiredParameters params) s = true ∧ set_SourceFile s = auto) settings)) as Hx.
  { apply elem_of_slices_Sort, list_elem_of_fmap. exists s. split; [done|]. by apply list_elem_of_filter. }
  rewrite Hn in Hx. by apply elem_of_nil in Hx.
Qed.

(** In sync, nothing rejected and no restart due: no entry of a parameter has an error. *)
Lemma no_errors f k :
  pa_Invalid a = [] → pa_InvalidAfterReload a = [] → pa_RestartNeeded a = false →
  f ∈ generated files → is_Some (params !! k) → ToLower (fs_Name f) = ToLower k → fs_Error f = "".
Proof.
  intros Hi Ha Hr Hf Hk Hn. pose proof (after_reload_nil Hi Ha) as Hall. rewrite Forall_forall in Hall.
  destruct (Hall f Hf) as [He|(s & [Hin Hs]%settingsByName_in & _ & Hp)]; [done|].
  rewrite (restart_needed_false s Hr Hin) in Hp; [done|]. exists k. by rewrite Hs.
Qed.
End assessed.

(** ** A pass *)

(** What the API library documents of its conditions. *)
Class ConditionLaws `{ConditionSetter} `{ConditionLookup} : Prop := {
  find_set l cond : FindStatusCondition (SetStatusCondition l cond) (cond_Type cond) = Some cond;
  find_remove l t : FindStatusCondition (RemoveStatusCondition l t) t = None }.

Section pass.
Context `{PasswordDigest} `{ErrorText} `{ConditionLaws} {W : Type} (ops : parameterOps W) (c : ConfCluster).
Context (st : ParameterStatus) (ready : bool) (pods : list Pod).
Abbreviation params := (cf_Parameters c).
Abbreviation L := (W * list conf_event)%type.

(** The hash of the Cluster's configuration file. *)
Definition is_hash (h : string) : Prop :=
  ∃ layout, resolvePostgresLayout (cf_image c) = inl layout ∧ h = (renderPostgresConf params (lay_PGDATA layout)).2.

Definition auto_conf : string :=
  match resolvePostgresLayout (cf_image c) with inl layout => lay_PGDATA layout +:+ "/" +:+ autoConfFileName | inr _ => "" end.

(** The primary answered with this report. *)
Definition reported (tr : list conf_event) (files : list FileSetting) (settings : list Setting) : Prop :=
  CConfigFile "" (inl configFilePath) ∈ tr ∧ CFileSettings "" (inl files) ∈ tr ∧ CSettings "" (inl settings) ∈ tr.

(** A ready server that was started with the generated file, sees exactly the desired
    parameters in it and accepts them. *)
Definition loadable (ok : gmap string Setting → FileSetting → Prop) (needs : list Setting → Prop) (tr : list conf_event) : Prop :=
  ready = true ∧ names_unique params ∧ parametersWithLineBreaks params = [] ∧
  (∃ s, CGetStatefulSet (inl (Some s)) ∈ tr ∧ pss_UpdateRevision s = pss_CurrentRevision s) ∧
  ∃ files settings, reported tr files settings ∧ in_sync params files ∧
    Forall (ok (settingsByName settings)) (generated files) ∧ needs settings.

(** A pending parameter that the spec sets, or that the generated file still set. *)
Definition restart_due (settings : list Setting) : Prop :=
  ∃ s, s ∈ settings ∧ set_PendingRestart s = true ∧ (sets params s ∨ set_SourceFile s = configFilePath).

Definition J (pre : list conf_event) (ev : conf_event) : Prop :=
  match ev with
  | CReload addr e =>
      loadable acceptable (λ _, True) pre ∧ (∃ h, is_hash h ∧ pst_ParametersHash st ≠ h) ∧
      (addr ≠ "" → CReload "" None ∈ pre ∧ ∃ name, readyStandbyAddresses c pods !! name = Some addr)
  | CPatchStatefulSet k v e =>
      k = AnnotationParametersRestart ∧ is_hash v ∧ pst_ParametersHash st = v ∧ loadable accepted restart_due pre ∧
      ∃ s, CGetStatefulSet (inl (Some s)) ∈ pre ∧ default "" (pss_TemplateAnnotations s !! k) ≠ v
  | _ => True
  end.

(** Every instance reloaded. *)
Definition all_reloaded (tr : list conf_event) : Prop :=
  CReload "" None ∈ tr ∧ ∀ name addr, readyStandbyAddresses c pods !! name = Some addr → CReload addr None ∈ tr.

(** Every parameter is in effect. *)
Definition in_effect (tr : list conf_event) : Prop :=
  ready = true ∧ is_hash (pst_ParametersHash st) ∧ ∃ files settings, reported tr files settings ∧ in_sync params files ∧
    (∀ k f, is_Some (params !! k) → f ∈ generated files → ToLower (fs_Name f) = ToLower k → fs_Error f = "") ∧
    (∀ s, s ∈ settings → sets params s → set_PendingRestart s = false ∧ set_SourceFile s ≠ auto_conf).

Definition applied_condition (st' : ParameterStatus) : option Condition :=
  FindStatusCondition (pst_Conditions st') ConditionTypeParametersApplied.

(** What a pass leaves in the status. *)
Definition Q (res : Z * ParameterStatus) (tr : list conf_event) : Prop :=
  (res.2 = st ∧ (∃ e, resolvePostgresLayout (cf_image c) = inr e) ∨ ∀ cond, applied_condition res.2 = Some cond → cond_Status cond = "True" → in_effect tr) ∧
  (pst_ParametersHash res.2 = pst_ParametersHash st ∨ (params = ∅ ∧ pst_ParametersHash res.2 = "") ∨
   (is_hash (pst_ParametersHash res.2) ∧ all_reloaded tr)).

Abbreviation runs := (runs (W := W) J).

Lemma loadable_mono ok needs : Mono (loadable ok needs).
Proof. unfold loadable, reported. solve_mono. Qed.

Lemma all_reloaded_mono : Mono all_reloaded.
Proof. unfold all_reloaded. solve_mono. Qed.

Lemma warn_runs tr st0 status reason msg delay (Q0 : Z * ParameterStatus → list conf_event → Prop) :
  (∀ tr', tr `prefix_of` tr' →
    Q0 (delay, set_conditions (SetStatusCondition (pst_Conditions st0) (parametersCondition c status reason msg)) st0) tr') →
  runs tr (endWith (conf_ops ops) c st0 status reason msg delay) Q0.
Proof.
  intros HQ. unfold endWith, setParametersCondition. cbv zeta.
  eapply (runs_bind _ _ _ _ (λ st' _, st' = set_conditions
    (SetStatusCondition (pst_Conditions st0) (parametersCondition c status reason msg)) st0)).
  - match goal with |- Trace.runs _ _ (if ?b then _ else _) _ => destruct b end; [|by apply runs_ret].
    apply runs_call; [done|]. intros ? ? ? ?. by apply runs_ret.
  - intros ? tr1 P1 ->. apply runs_ret. by apply HQ.
Qed.

(** A pass that reports a problem. *)
Lemma problem_runs tr st0 reason msg delay :
  pst_ParametersHash st0 = pst_ParametersHash st ∨ (is_hash (pst_ParametersHash st0) ∧ all_reloaded tr) →
  runs tr (endWith (conf_ops ops) c st0 "False" reason msg delay) Q.
Proof.
  intros Hh. apply warn_runs. intros tr' P'. split; simpl.
  - right. unfold applied_condition. simpl. intros cond Hc.
    pose proof (find_set (pst_Conditions st0) (parametersCondition c "False" reason msg)) as Hf. simpl in Hf.
    rewrite Hf in Hc. by injection Hc as <-.
  - destruct Hh as [Hh|[Hh Ha]]; [by left|right; right]. split; [done|]. by eapply all_reloaded_mono.
Qed.

Lemma connect_runs tr addr :
  runs tr (connectForParameters (conf_ops ops) c addr)
    (λ x _, match x with inl s => ∃ s0, s = conf_server addr s0 | inr _ => True end).
Proof.
  unfold connectForParameters. eapply (runs_bind _ _ _ _ (λ _ _, True)).
  - unfold operatorConnectionConfig, clusterClientTLS. apply runs_call; [done|]. intros s tr1 _ _.
    destruct s as [[s|]|e]; try by apply runs_ret.
    eapply (runs_bind _ _ _ _ (λ _ _, True)); [|intros ? ? _ _; by apply runs_ret].
    destruct (negb _); [by apply runs_ret|]. apply runs_call; [done|]. intros ? ? _ _. by apply runs_ret.
  - intros cfg tr1 _ _. destruct cfg as [cfg|e]; [|by apply runs_ret]. simpl.
    apply runs_call; [done|]. intros [s|e] tr2 _ _; apply runs_ret; eauto.
Qed.

Lemma read_runs tr layout :
  runs tr (readParameterState (conf_ops ops) c layout)
    (λ x tr', match x with
              | inl a => ∃ configFile files settings, a = assessParameters params configFile files settings
                  (lay_PGDATA layout +:+ "/" +:+ autoConfFileName) ∧
                  CConfigFile "" (inl configFile) ∈ tr' ∧ CFileSettings "" (inl files) ∈ tr' ∧ CSettings "" (inl settings) ∈ tr'
              | inr _ => True end).
Proof.
  unfold readParameterState. eapply runs_bind; [apply connect_runs|]. intros [srv|e] tr1 P1 Hs; [|by apply runs_ret].
  destruct Hs as [s0 ->]. simpl. apply runs_call; [done|]. intros [cf|e] tr2 P2 E2; [|by apply runs_ret].
  apply runs_call; [done|]. intros [files|e] tr3 P3 E3; [|by apply runs_ret].
  apply runs_call; [done|]. intros [settings|e] tr4 P4 E4; apply runs_ret; [|done].
  exists cf, files, settings. split_and!; [done|seen..].
Qed.

Lemma reload_server_runs tr addr :
  (∀ tr' e, tr `prefix_of` tr' → J tr' (CReload addr e)) →
  runs tr (reloadServer (conf_ops ops) c addr) (λ e tr', e = None → CReload addr None ∈ tr').
Proof.
  intros HJ. unfold reloadServer. eapply runs_bind; [apply connect_runs|]. intros [srv|e] tr1 P1 Hs; [|by apply runs_ret].
  destruct Hs as [s0 ->]. simpl. apply runs_logged; [intros e; by apply HJ|]. by intros e tr2 P2 E2 ->.
Qed.

Lemma reload_runs tr :
  loadable acceptable (λ _, True) tr → (∃ h, is_hash h ∧ pst_ParametersHash st ≠ h) →
  runs tr (reloadForParameters (conf_ops ops) c pods) (λ e tr', e = None → all_reloaded tr').
Proof.
  intros Hl Hh. unfold reloadForParameters. eapply runs_bind; [apply reload_server_runs|].
  { intros tr' e P'. split_and!; [by eapply loadable_mono|done|done]. }
  intros [e|] tr1 P1 E1; [by apply runs_ret|]. specialize (E1 eq_refl). cbv zeta.
  pose proof (loadable_mono _ _ _ _ P1 Hl) as Hl1. clear Hl P1 tr.
  set (standbys := readyStandbyAddresses c pods).
  assert (∀ names tr, tr1 `prefix_of` tr → (∀ name, name ∈ names → is_Some (standbys !! name)) →
    runs tr (reloadStandbys (conf_ops ops) c standbys names)
      (λ e tr', e = None → ∀ name addr, name ∈ names → standbys !! name = Some addr → CReload addr None ∈ tr')) as Hloop.
  { intros names. induction names as [|name names IH]; intros tr P Hn; simpl.
    { apply runs_ret. intros _ ? ? []%elem_of_nil. }
    destruct (Hn name) as [addr Ha]; [by left|]. rewrite Ha. simpl.
    eapply runs_bind; [apply reload_server_runs|].
    { intros tr' e P'. split_and!; [by eapply loadable_mono, loadable_mono|done|]. intros _. split; [seen|eauto]. }
    intros [e|] tr2 P2 E2; [by apply runs_ret|]. specialize (E2 eq_refl).
    eapply runs_conseq; [apply IH; [by etrans|intros; apply Hn; by right]|].
    intros e tr3 P3 Q3 He name' addr' Hin Hl'. apply elem_of_cons in Hin as [->|Hin]; [|eauto].
    assert (addr' = addr) as -> by congruence. seen. }
  eapply runs_conseq; [apply Hloop; [done|]|].
  - intros name Hin. apply elem_of_slices_Sort, list_elem_of_fmap in Hin as ([? v] & -> & Hv%elem_of_map_to_list). eauto.
  - intros e tr' P' HQ ->. split; [seen|]. intros name addr Ha. eapply HQ; [done| |done].
    apply elem_of_slices_Sort, list_elem_of_fmap. exists (name, addr). split; [done|]. by apply elem_of_map_to_list.
Qed.

Lemma restart_runs tr hash :
  is_hash hash → pst_ParametersHash st = hash → loadable accepted restart_due tr →
  runs tr (restartForParameters (conf_ops ops) c hash) (λ _ _, True).
Proof.
  intros Hh Hst Hl. unfold restartForParameters. apply runs_call; [done|]. intros [[s|]|e] tr1 P1 E1; try by apply runs_ret.
  case_decide as Hs; [by apply runs_ret|]. apply runs_logged; [|done]. intros e. split_and!; try done.
  - by eapply loadable_mono.
  - by exists s.
Qed.

Lemma after_reload_runs tr configFile files settings layout :
  let a := assessParameters params configFile files settings (lay_PGDATA layout +:+ "/" +:+ autoConfFileName) in
  resolvePostgresLayout (cf_image c) = inl layout → pst_ParametersHash st = (renderPostgresConf params (lay_PGDATA layout)).2 →
  reported tr files settings → ready = true → names_unique params → parametersWithLineBreaks params = [] →
  (∃ s, CGetStatefulSet (inl (Some s)) ∈ tr ∧ pss_UpdateRevision s = pss_CurrentRevision s) →
  pa_Synced a = true → pa_Invalid a = [] →
  runs tr (afterReload (conf_ops ops) c st a (pst_ParametersHash st)) Q.
Proof.
  intros a Hlay Hhash Hrep Hready Hu Hlb Hroll Hsync Hinv. unfold afterReload.
  destruct (bool_decide_reflect (pa_InvalidAfterReload a = [])) as [Hafter|_]; cbn [negb]; [|by apply problem_runs; left].
  assert (is_hash (pst_ParametersHash st)) as Hih by (by exists layout).
  destruct (pa_RestartNeeded a) eqn:Hr.
  - eapply runs_bind; [apply restart_runs; [done..|]|].
    + split_and!; [done..|]. exists files, settings. split_and!; [done|by eapply synced_in_sync|by eapply after_reload_nil|].
      by eapply restart_needed_true.
    + intros e tr1 P1 _. apply problem_runs. by left.
  - destruct (bool_decide_reflect (pa_Overridden a = [])) as [Hover|_]; cbn [negb]; [|by apply problem_runs; left].
    apply warn_runs. intros tr' P'. split; simpl; [|by left]. right. intros _ _ _.
    split_and!; [done..|]. exists files, settings. split_and!.
    + destruct Hrep as (? & ? & ?). split_and!; seen.
    + by eapply synced_in_sync.
    + intros k f Hk Hf Hn. by eapply (no_errors params configFile files settings).
    + intros s Hin Hs. split; [by eapply (restart_needed_false params configFile files settings)|].
      unfold auto_conf. rewrite Hlay. by eapply (overridden_nil params configFile files settings).
Qed.

Lemma reconcileParameters_runs : runs [] (reconcileParameters (conf_ops ops) c st ready pods) Q.
Proof.
  unfold reconcileParameters. case_decide as Hp.
  { apply runs_ret. split; simpl; [|by right; left]. right. unfold applied_condition. simpl. by rewrite find_remove. }
  destruct (bool_decide_reflect (duplicateParameters params = [])) as [Hu%duplicateParameters_nil|_]; cbn [negb];
    [|by apply problem_runs; left].
  destruct (bool_decide_reflect (parametersWithLineBreaks params = [])) as [Hlb|_]; cbn [negb]; [|by apply problem_runs; left].
  destruct (resolvePostgresLayout (cf_image c)) as [layout|e] eqn:Hlay; [|by apply runs_ret; split; left; [split; [done|by exists e]|]].
  destruct ready eqn:Hready; cbn [negb]; [|by apply problem_runs; left].
  eapply (runs_bind _ _ _ _ (λ x tr, x = inl true → ∃ s, CGetStatefulSet (inl (Some s)) ∈ tr ∧ pss_UpdateRevision s = pss_CurrentRevision s)).
  { unfold statefulSetRolledOut. apply runs_call; [done|]. intros [[s|]|e] tr1 P1 E1; apply runs_ret; try done.
    intros [= Hs]. apply bool_decide_eq_true in Hs. eauto. }
  intros [[]|e] tr1 P1 Hroll; [|by apply problem_runs; left..]. specialize (Hroll eq_refl).
  eapply runs_bind; [apply read_runs|]. intros [a|e] tr2 P2 Ha; [|by apply problem_runs; left].
  destruct Ha as (cf & files & settings & -> & R1 & R2 & R3).
  assert (∃ s, CGetStatefulSet (inl (Some s)) ∈ tr2 ∧ pss_UpdateRevision s = pss_CurrentRevision s) as Hroll2.
  { destruct Hroll as (s & ? & ?). exists s. split; [seen|done]. }
  unfold applyAssessed. set (a := assessParameters _ _ _ _ _).
  destruct (pa_UsesGeneratedFile a) eqn:Huse; cbn [negb]; [|by apply problem_runs; left].
  assert (cf = configFilePath) as -> by (by apply bool_decide_eq_true in Huse).
  destruct (pa_Synced a) eqn:Hsync; cbn [negb]; [|by apply problem_runs; left].
  destruct (bool_decide_reflect (pa_Invalid a = [])) as [Hinv|_]; cbn [negb]; [|by apply problem_runs; left].
  match goal with |- context [bool_decide (_ = ?h)] => set (hash := h) end.
  assert (is_hash hash) as Hih by (by exists layout).
  assert (reported tr2 files settings) as Hrep by done.
  destruct (bool_decide_reflect (pst_ParametersHash st = hash)) as [Hst|Hst]; cbn [negb].
  - rewrite <-Hst. by eapply after_reload_runs.
  - eapply runs_bind; [apply reload_runs; [|by exists hash]|].
    { split_and!; [done..|]. exists files, settings. split_and!; [done|by eapply synced_in_sync|by eapply invalid_nil|done]. }
    intros [e|] tr3 P3 E3; apply problem_runs; [by left|right]. auto.
Qed.

(** *** A reload is recorded, or it failed *)

Definition not_reload (ev : conf_event) : Prop := match ev with CReload _ _ => False | _ => True end.

(** A reload failed, or there was no session for it. *)
Definition reload_failed (tr : list conf_event) : Prop :=
  (∃ addr e, CReload addr (Some e) ∈ tr) ∨ (∃ addr e, CConnect addr (Some e) ∈ tr) ∨
  ∃ ns n a, CGetSecret ns n a ∈ tr ∧ ∀ s, a = inl (Some s) → n = tlsSecretName (cf_cluster c) ∧ secret_value s TLSSecretKeyCA = "".

Abbreviation emits := (emits (W := W) (λ (_ : conf_event) _ _, True)).
Abbreviation only := (only (W := W) not_reload).

Lemma reload_failed_app_l tr rest : reload_failed tr → reload_failed (tr ++ rest).
Proof.
  intros [(a & e & ?)|[(a & e & ?)|(ns & n & a & ? & ?)]]; [left|right; left|right; right].
  - exists a, e. apply elem_of_app. by left.
  - exists a, e. apply elem_of_app. by left.
  - exists ns, n, a. split; [apply elem_of_app; by left|done].
Qed.

Lemma reload_failed_app_r tr rest : reload_failed rest → reload_failed (tr ++ rest).
Proof.
  intros [(a & e & ?)|[(a & e & ?)|(ns & n & a & ? & ?)]]; [left|right; left|right; right].
  - exists a, e. apply elem_of_app. by right.
  - exists a, e. apply elem_of_app. by right.
  - exists ns, n, a. split; [apply elem_of_app; by right|done].
Qed.

Lemma connect_emits addr :
  emits (connectForParameters (conf_ops ops) c addr) (λ x new, Forall not_reload new ∧
    match x with inl s => ∃ s0, s = conf_server addr s0 | inr _ => reload_failed new end).
Proof.
  unfold connectForParameters.
  eapply (emits_bind _ _ _ (λ x new, Forall not_reload new ∧ ∀ e, x = inr e → reload_failed new)).
  - unfold operatorConnectionConfig, clusterClientTLS. eapply emits_bind; [by apply emits_logged|]. intros s new1 ->.
    destruct s as [[s|]|e]; [|apply emits_ret; rewrite app_nil_r; split; [by repeat constructor|];
      intros _ _; do 2 right; eexists _, _, _; split; [by left|done]..].
    destruct (negb _).
    { eapply emits_bind; [by apply (emits_ret _ _ (λ x new, new = [] ∧ ∃ t, x = inl t)); split; [|by eexists]|].
      intros ? new2 [-> [t ->]]. apply emits_ret. split; [by repeat constructor|done]. }
    eapply (emits_bind _ _ _ (λ x new, Forall not_reload new ∧ ∀ e, x = inr e → reload_failed new)).
    + eapply emits_bind; [by apply emits_logged|]. intros t new2 ->. apply emits_ret. rewrite app_nil_r.
      split; [by repeat constructor|]. intros e He. do 2 right. eexists _, _, _. split; [by left|]. intros s' ->. split; [done|].
      cbn in He. by case_decide.
    + intros [t|e] new2 [Hn Hf]; apply emits_ret; rewrite app_nil_r; (split; [apply Forall_app; split; [by repeat constructor|done]|]); [done|].
      intros _ _. apply reload_failed_app_r. by apply (Hf e).
  - intros [cfg|e] new [Hn Hf]; [|apply emits_ret; rewrite app_nil_r; split; [done|by apply (Hf e)]]. simpl.
    eapply emits_bind; [by apply emits_logged|]. intros x new2 ->. apply emits_ret. rewrite app_nil_r.
    split; [apply Forall_app; split; [done|by repeat constructor]|].
    destruct x as [s0|e]; [by eexists|]. apply reload_failed_app_r. right; left. eexists _, e. by left.
Qed.

Lemma reload_server_emits addr :
  emits (reloadServer (conf_ops ops) c addr) (λ e new, e ≠ None → reload_failed new).
Proof.
  unfold reloadServer. eapply emits_bind; [apply connect_emits|]. intros [srv|e] new [_ Hs].
  - destruct Hs as [s0 ->]. simpl. eapply emits_conseq; [by apply emits_logged|]. intros [e|] new2 ->; [|done].
    intros _. apply reload_failed_app_r. left. eexists _, e. by left.
  - apply emits_ret. intros _. by apply reload_failed_app_l.
Qed.

Lemma reload_emits :
  emits (reloadForParameters (conf_ops ops) c pods) (λ e new, e ≠ None → reload_failed new).
Proof.
  unfold reloadForParameters. eapply emits_bind; [apply reload_server_emits|]. intros [e|] new Hn.
  { apply emits_ret. intros _. apply reload_failed_app_l. by apply Hn. }
  cbv zeta. apply (emits_conseq _ _ _ (λ e new, e ≠ None → reload_failed new)); [|intros e new2 Hf He; by apply reload_failed_app_r, Hf].
  generalize (readyStandbyAddresses c pods) as standbys. intros standbys. generalize (sorted_keys standbys) as names. clear new Hn.
  intros names. induction names as [|name names IH]; simpl; [by apply emits_ret|].
  eapply emits_bind; [apply reload_server_emits|]. intros [e|] new Hn.
  - apply emits_ret. intros _. apply reload_failed_app_l. by apply Hn.
  - eapply emits_conseq; [exact IH|]. intros e new2 Hf He. by apply reload_failed_app_r, Hf.
Qed.

Lemma end_emits st0 status reason msg delay :
  emits (endWith (conf_ops ops) c st0 status reason msg delay) (λ res new, Forall not_reload new ∧
    pst_ParametersHash res.2 = pst_ParametersHash st0).
Proof.
  unfold endWith, setParametersCondition. cbv zeta.
  eapply (emits_bind _ _ _ (λ st' new, Forall not_reload new ∧ pst_ParametersHash st' = pst_ParametersHash st0)).
  - match goal with |- Trace.emits _ (if ?b then _ else _) _ => destruct b end; [|by apply emits_ret].
    eapply emits_bind; [by apply emits_logged|]. intros ? new ->. apply emits_ret. rewrite app_nil_r. split; [by repeat constructor|done].
  - intros st' new [Hn Hh]. apply emits_ret. by rewrite app_nil_r.
Qed.

(** What a pass says of its reloads. *)
Definition reloads_recorded (res : Z * ParameterStatus) (new : list conf_event) : Prop :=
  Forall not_reload new ∨ is_hash (pst_ParametersHash res.2) ∨ reload_failed new.

Lemma quiet_end tr0 st0 status reason msg delay :
  Forall not_reload tr0 →
  emits (endWith (conf_ops ops) c st0 status reason msg delay) (λ res new, reloads_recorded res (tr0 ++ new)).
Proof.
  intros Htr0. eapply emits_conseq; [apply end_emits|]. intros res new [Hn _]. left. by apply Forall_app.
Qed.

Lemma afterReload_emits tr0 a hash :
  Forall not_reload tr0 →
  emits (afterReload (conf_ops ops) c st a hash) (λ res new, reloads_recorded res (tr0 ++ new)).
Proof.
  intros Htr0. unfold afterReload. destruct (negb _); [by apply quiet_end|]. cbv zeta. destruct (pa_RestartNeeded a).
  - eapply (emits_bind _ _ _ (λ _ new, Forall not_reload new)).
    + unfold restartForParameters. eapply emits_bind; [by apply emits_logged|]. intros s new ->.
      destruct s as [[s|]|e]; [|apply emits_ret; by repeat constructor..]. case_decide; [apply emits_ret; by repeat constructor|].
      eapply emits_conseq; [by apply emits_logged|]. intros ? new2 ->. by repeat constructor.
    + intros e new Hn. eapply emits_conseq; [apply (quiet_end (tr0 ++ new)); by apply Forall_app|]. intros res new2 HQ. by rewrite app_assoc.
  - destruct (negb _); by apply quiet_end.
Qed.

Lemma reconcileParameters_reloads : emits (reconcileParameters (conf_ops ops) c st ready pods) reloads_recorded.
Proof.
  unfold reconcileParameters. case_decide; [apply emits_ret; by left|].
  assert (∀ st0 status reason msg delay, emits (endWith (conf_ops ops) c st0 status reason msg delay) reloads_recorded) as Hend
    by (intros; by apply (quiet_end [])).
  cbv zeta. destruct (negb _); [apply Hend|]. destruct (negb _); [apply Hend|].
  destruct (resolvePostgresLayout (cf_image c)) as [layout|e] eqn:Hlay; [|apply emits_ret; by left].
  destruct (negb ready); [apply Hend|].
  eapply (emits_bind _ _ _ (λ _ new, Forall not_reload new)).
  { unfold statefulSetRolledOut. eapply emits_bind; [by apply emits_logged|]. intros s new ->. apply emits_ret. by repeat constructor. }
  intros [[]|e] new1 H1'; [|by apply quiet_end..].
  eapply (emits_bind _ _ _ (λ _ new, Forall not_reload new)).
  { unfold readParameterState. eapply emits_bind; [apply connect_emits|]. intros [srv|e] new [Hn Hs]; [|apply emits_ret; by rewrite app_nil_r].
    destruct Hs as [s0 ->]. simpl. eapply emits_bind; [by apply emits_logged|]. intros x1 n1 ->.
    destruct x1; [|apply emits_ret; apply Forall_app; split; [done|by repeat constructor]].
    eapply emits_bind; [by apply emits_logged|]. intros x2 n2 ->.
    destruct x2; [|apply emits_ret; rewrite !Forall_app; split; [done|by repeat constructor]].
    eapply emits_bind; [by apply emits_logged|]. intros x3 n3 ->. apply emits_ret. rewrite !Forall_app. split; [done|by repeat constructor]. }
  intros [a|e] new2 H2'; [|eapply emits_conseq; [apply (quiet_end (new1 ++ new2)); by apply Forall_app|]; intros res new HQ; by rewrite app_assoc].
  assert (∀ tr0 m, emits m (λ res new, reloads_recorded res (tr0 ++ new)) → tr0 = new1 ++ new2 →
    emits m (λ res new, reloads_recorded res (new1 ++ new2 ++ new))) as Hassoc.
  { intros tr0 m Hm ->. eapply emits_conseq; [exact Hm|]. intros res new HQ. by rewrite app_assoc. }
  assert (Forall not_reload (new1 ++ new2)) as H12 by (by apply Forall_app).
  unfold applyAssessed. destruct (negb _); [eapply Hassoc; [by apply quiet_end|done]|].
  destruct (negb _); [eapply Hassoc; [by apply quiet_end|done]|]. destruct (negb _); [eapply Hassoc; [by apply quiet_end|done]|].
  destruct (negb _); [|eapply Hassoc; [by apply afterReload_emits|done]].
  eapply emits_bind; [apply reload_emits|]. intros [e|] new3 H3'.
  - eapply emits_conseq; [apply end_emits|]. intros res new4 _. right; right. do 2 apply reload_failed_app_r. apply reload_failed_app_l. by apply H3'.
  - eapply emits_conseq; [apply end_emits|]. intros res new4 [_ Hh]. right; left. rewrite Hh. by exists layout.
Qed.
End pass.

(** ** The theorems *)

Section theorems.
Context `{PasswordDigest} `{ErrorText} `{ConditionLaws} {W : Type} (ops : parameterOps W) (c : ConfCluster).
Context (st : ParameterStatus) (ready : bool) (pods : list Pod).

(** C29: in a pass over spec.parameters a server is reloaded, or the pod restarted, only
    while the primary is ready, the StatefulSet is rolled out, the names are unique, no
    value has a line break, and the primary answered that it was started with the
    generated file, sees exactly the desired parameters in it and rejects none of them.
    A reload happens only while the recorded hash is not that of this file, on the
    primary first and then on ready standbys, and the pass that reloads a server records
    the hash of this file, unless a reload failed or a server could not be reached: no
    later pass reloads for it then. A restart happens only after the reload of this very
    file was recorded, when a parameter that the spec or the file sets is pending a
    restart, and only when the pod template does not carry this hash yet. *)
Theorem parameters_reload_restart_safe w res w' tr pre ev post :
  reconcileParameters (conf_ops ops) c st ready pods (w, []) = (res, (w', tr)) → tr = pre ++ ev :: post →
  match ev with
  | CReload addr e =>
      loadable c ready acceptable (λ _, True) pre ∧ (∃ h, is_hash c h ∧ pst_ParametersHash st ≠ h) ∧
      (addr ≠ "" → CReload "" None ∈ pre ∧ ∃ name, readyStandbyAddresses c pods !! name = Some addr) ∧
      (is_hash c (pst_ParametersHash res.2) ∨ reload_failed c tr)
  | CPatchStatefulSet k v e =>
      k = AnnotationParametersRestart ∧ is_hash c v ∧ pst_ParametersHash st = v ∧ loadable c ready accepted (restart_due c) pre ∧
      ∃ s, CGetStatefulSet (inl (Some s)) ∈ pre ∧ default "" (pss_TemplateAnnotations s !! k) ≠ v
  | _ => True
  end.
Proof.
  intros Hrun Heq. pose proof (runs_justified (J c st ready pods) _ (Q c st ready pods) _ _ _ _ _ _ _
    (reconcileParameters_runs ops c st ready pods) Hrun Heq) as Hok.
  destruct ev; try done. destruct Hok as (? & ? & ?). split_and!; [done..|].
  destruct (emits_run _ _ _ _ _ _ _ (reconcileParameters_reloads ops c st ready pods) Hrun) as [_ [Hn|[?|?]]]; [|by left|by right].
  exfalso. rewrite Heq in Hn. rewrite Forall_app, Forall_cons in Hn. by destruct Hn as (_ & [] & _).
Qed.

(** C30: what a pass reports is true of what the primary answered in it. Where the
    layout of the image is not known a pass leaves the status as it is, the condition
    included. Otherwise the condition ParametersApplied is True after a pass only when,
    after the reload of this very file was recorded, the generated file has exactly the
    desired parameters, no entry of one has an error, and none is pending a restart or
    overridden by ALTER SYSTEM, all as the primary answered in this pass. A new hash is
    recorded only when the primary and every ready standby reloaded this file in this
    pass. *)
Theorem parameters_report_sound w delay st' w' tr :
  reconcileParameters (conf_ops ops) c st ready pods (w, []) = ((delay, st'), (w', tr)) →
  (st' = st ∧ (∃ e, resolvePostgresLayout (cf_image c) = inr e) ∨
   ∀ cond, FindStatusCondition (pst_Conditions st') ConditionTypeParametersApplied = Some cond →
     cond_Status cond = "True" →
     is_hash c (pst_ParametersHash st) ∧ ∃ files settings, reported tr files settings ∧ in_sync (cf_Parameters c) files ∧
       (∀ k f, is_Some (cf_Parameters c !! k) → f ∈ generated files → ToLower (fs_Name f) = ToLower k → fs_Error f = "") ∧
       (∀ s, s ∈ settings → sets (cf_Parameters c) s → set_PendingRestart s = false ∧ set_SourceFile s ≠ auto_conf c)) ∧
  (pst_ParametersHash st' = pst_ParametersHash st ∨ (cf_Parameters c = ∅ ∧ pst_ParametersHash st' = "") ∨
   (is_hash c (pst_ParametersHash st') ∧ CReload "" None ∈ tr ∧
    ∀ name addr, readyStandbyAddresses c pods !! name = Some addr → CReload addr None ∈ tr)).
Proof.
  intros Hm. destruct (reconcileParameters_runs ops c st ready pods w) as [_ [Hc Hh]]. rewrite Hm in Hc, Hh. simpl in *.
  split; [|done]. destruct Hc as [Hc|Hc]; [by left|right]. intros cond Hf Ht. by destruct (Hc cond Hf Ht) as (_ & ?).
Qed.
End theorems.

(** C31: the generated postgresql.conf reads back, line by line, as the include of the
    data directory's file followed by one setting per parameter with exactly its value,
    sorted by name: no value can add a setting or change another. So two sets of
    parameters never render as one file. *)
Theorem postgresConf_reads_back params pgdata :
  Forall (λ k, parameter_name k = true) (sorted_keys params) →
  read_conf_file (postgresConf params pgdata) =
    Some (("include_if_exists", pgdata +:+ "/postgresql.conf") :: ((λ k, (k, default "" (params !! k))) <$> sorted_keys params)) ∧
  ∀ params', Forall (λ k, parameter_name k = true) (sorted_keys params') →
    postgresConf params' pgdata = postgresConf params pgdata → params' = params.
Proof.
  assert (∀ params, Forall (λ k, parameter_name k = true) (sorted_keys params) → read_conf_file (postgresConf params pgdata) =
    Some (("include_if_exists", pgdata +:+ "/postgresql.conf") :: ((λ k, (k, default "" (params !! k))) <$> sorted_keys params)))
    as Hread.
  { clear params. intros params Hk. unfold postgresConf, read_conf_file. rewrite Split_line by done.
    change ("include_if_exists " +:+ quoteConfValue (pgdata +:+ "/postgresql.conf") +:+ str1 newline +:+ conf_lines params (sorted_keys params))
      with (("include_if_exists" +:+ " " +:+ quoteConfValue (pgdata +:+ "/postgresql.conf")) +:+ str1 newline +:+ conf_lines params (sorted_keys params)).
    rewrite Split_line by (by rewrite !ContainsByte_app_s, quoteConfValue_no_newline).
    pose proof (read_conf_lines params (sorted_keys params) Hk) as Hl. unfold read_conf_file in Hl.
    cbn [mapM]. rewrite read_line_entry by auto. replace (read_line conf_comment) with (Some (A := option (string * string)) None)
      by (by vm_compute). destruct (mapM _ _) as [l|]; [|done]. simpl in *. injection Hl as Hl. do 2 f_equal. exact Hl. }
  intros Hk. split; [by apply Hread|]. intros params' Hk' He. apply Hread in Hk, Hk'. rewrite He, Hk in Hk'.
  injection Hk' as Hl. apply map_eq. intros k.
  assert (∀ (m : params_map) v, m !! k = Some v ↔ (k, v) ∈ (λ k, (k, default "" (m !! k))) <$> sorted_keys m) as Hm.
  { intros m v. rewrite list_elem_of_fmap. setoid_rewrite elem_of_slices_Sort. setoid_rewrite list_elem_of_fmap. split.
    - intros Hv. exists k. rewrite Hv. split; [done|]. exists (k, v). split; [done|]. by apply elem_of_map_to_list.
    - intros (k' & [= -> ->] & [k'' u] & -> & Hu%elem_of_map_to_list). simpl in *. by rewrite Hu. }
  apply option_eq. intros v. by rewrite !Hm, Hl.
Qed.

(** ** A concrete Cluster *)

Module Toy.
#[local] Instance toy_digest : PasswordDigest := λ s, s.
#[local] Instance toy_text : ErrorText := λ _, "error".
#[local] Instance toy_set : ConditionSetter := λ l cond, cond :: l.
#[local] Instance toy_lookup : ConditionLookup :=
  {| FindStatusCondition := λ l t, find (λ cond, bool_decide (cond_Type cond = t)) l;
     RemoveStatusCondition := λ l t, filter (λ cond, cond_Type cond ≠ t) l |}.

#[local] Instance toy_laws : ConditionLaws.
Proof.
  split.
  - intros l cond. simpl. by rewrite bool_decide_true.
  - intros l t. simpl. induction l as [|cond l IH]; simpl; [done|]. rewrite filter_cons.
    destruct (decide (cond_Type cond ≠ t)); [|done]. simpl. by rewrite bool_decide_false.
Qed.

Definition policy0 : policy := None.

Definition cluster : ConfCluster :=
  {| cf_cluster := {| k_Name := "pg"; k_Namespace := "db"; k_UID := "u"; k_Port := 0; k_TLS := None; k_RolePolicy := policy0;
                      k_Ready := true; k_SecretName := ""; k_TLSReady := false; k_TLSSecretHash := "" |};
     cf_repl := {| cl_Name := "pg"; cl_Namespace := "db"; cl_UID := "u"; cl_Annotations := ∅; cl_Replicas := 2 |};
     cf_image := {| ci_Name := "pg"; ci_Image := "postgres:17"; ci_PostgresMajorVersion := None |};
     cf_Generation := 1; cf_Parameters := {[ "Max_Connections" := "200" ]}; cf_TLS := None |}.

Definition hash : string := postgresConf (cf_Parameters cluster) "/var/lib/postgresql/data".

Definition entry (e : string) : FileSetting :=
  {| fs_SourceFile := configFilePath; fs_Name := "max_connections"; fs_Setting := "200"; fs_Error := e |}.

Definition setting (pending : bool) : Setting :=
  {| set_Name := "max_connections"; set_Context := pgContextPostmaster; set_Source := "configuration file";
     set_SourceFile := configFilePath; set_PendingRestart := pending |}.

Definition standby_pod : Pod :=
  {| pod_Name := "pg-1"; pod_UID := "p"; pod_Deleting := false; pod_Created := 0;
     pod_Conditions := [{| pc_Type := PodReady; pc_Status := ConditionTrue; pc_LastTransitionTime := None |}]; pod_Labels := ∅;
     pod_IP := "10.0.0.2" |}.

Definition secret : Secret :=
  {| sec_Name := "pg-credentials"; sec_Namespace := "db"; sec_ResourceVersion := ""; sec_Labels := ∅; sec_Annotations := ∅;
     sec_OwnerReferences := []; sec_ControllerUID := None; sec_Data := ∅ |}.

(** A standby: the file mounted in its pod and the one its server loaded. *)
Record standby := { mounted : string; loaded : string }.

Definition server (files : list FileSetting) (settings : list Setting) (addr : string) : ParameterServer standby :=
  {| ps_ConfigFile := mret (inl configFilePath); ps_FileSettings := mret (inl files); ps_Settings := mret (inl settings);
     ps_ReloadConfig := λ s, (None, if decide (addr = "") then s else {| mounted := mounted s; loaded := mounted s |}) |}.

Definition ops (files : list FileSetting) (settings : list Setting) : parameterOps standby :=
  {| po_GetSecret := λ _ _, mret (inl (Some secret));
     po_GetStatefulSet := mret (inl (Some {| pss_CurrentRevision := "1"; pss_UpdateRevision := "1"; pss_TemplateAnnotations := ∅ |}));
     po_PatchStatefulSet := λ _ _, mret None; po_GetConfigMap := λ _, mret (inl None);
     po_CreateConfigMap := λ _ _ _, mret None; po_UpdateConfigMap := λ _ _, mret None; po_DeleteConfigMap := λ _, mret None;
     po_Connect := λ _ addr, mret (inl (server files settings addr)); po_Warn := λ _ _, mret () |}.

Definition fresh : ParameterStatus := {| pst_Conditions := []; pst_ParametersHash := ""; pst_PendingRestart := [] |}.
Definition reloaded : ParameterStatus := {| pst_Conditions := []; pst_ParametersHash := hash; pst_PendingRestart := [] |}.

Definition late : standby := {| mounted := "old"; loaded := "old" |}.

(** A pass that reloads both servers, and one that restarts the pod. *)
Definition reload_run := reconcileParameters (conf_ops (ops [entry ""] [setting false])) cluster fresh true [standby_pod] (late, []).
Definition restart_run :=
  reconcileParameters (conf_ops (ops [entry "setting could not be applied"] [setting true])) cluster reloaded true [standby_pod] (late, []).

Lemma parameters_reload_restart_safe_witness :
  (∃ pre post : list conf_event, reload_run.2.2 = pre ++ CReload "10.0.0.2:5432" None :: post ∧ CReload "" None ∈ pre) ∧
  (∃ (pre post : list conf_event), restart_run.2.2 = pre ++ CPatchStatefulSet AnnotationParametersRestart hash None :: post ∧
     loadable cluster true accepted (restart_due cluster) pre).
Proof.
  split.
  - assert (called (λ ev, match ev with CReload a None => bool_decide (a = "10.0.0.2:5432") | _ => false end) reload_run.2.2 = true) as Hc
      by (by vm_compute).
    apply called_inv in Hc as (pre & ev & post & Htr & Ht). exists pre, post.
    destruct ev as [ | | | | | | | |a [e|]|]; try discriminate Ht. apply bool_decide_eq_true in Ht. subst a. split; [exact Htr|].
    by eapply (parameters_reload_restart_safe (ops [entry ""] [setting false]) cluster fresh true [standby_pod] late _ _ _ pre _ post
      (run_split _) Htr).
  - assert (called (λ ev, match ev with CPatchStatefulSet k v None => bool_decide (k = AnnotationParametersRestart) && bool_decide (v = hash)
      | _ => false end) restart_run.2.2 = true) as Hc by (by vm_compute).
    apply called_inv in Hc as (pre & ev & post & Htr & Ht). exists pre, post.
    destruct ev as [ | |k v [e|]| | | | | | |]; try discriminate Ht.
    apply andb_true_iff in Ht as [Hk Hv]. apply bool_decide_eq_true in Hk, Hv. subst k v. split; [exact Htr|].
    by eapply (parameters_reload_restart_safe (ops [entry "setting could not be applied"] [setting true]) cluster reloaded true
      [standby_pod] late _ _ _ pre _ post (run_split _) Htr).
Defined.

Lemma parameters_report_sound_witness :
  reload_run.1.1 = parametersReloadCheckDelay ∧ pst_ParametersHash reload_run.1.2 = hash ∧ CReload "10.0.0.2:5432" None ∈ reload_run.2.2.
Proof.
  split; [by vm_compute|]. split; [by vm_compute|].
  destruct (parameters_report_sound (ops [entry ""] [setting false]) cluster fresh true [standby_pod] late reload_run.1.1 reload_run.1.2
    reload_run.2.1 reload_run.2.2) as [_ [H|[[H _]|(_ & _ & H)]]].
  - apply run_split2.
  - exfalso. vm_compute in H. discriminate H.
  - exfalso. vm_compute in H. discriminate H.
  - apply (H "pg-1"). by vm_compute.
Defined.

Definition quoted : params_map := {[ "a.b" := "it's" ]}.

Lemma postgresConf_reads_back_witness :
  read_conf_file (postgresConf quoted "/data") = Some [("include_if_exists", "/data/postgresql.conf"); ("a.b", "it's")].
Proof.
  assert (Forall (λ k, parameter_name k = true) (sorted_keys quoted)) as Hk by (apply (bool_decide_unpack _); by vm_compute).
  rewrite (proj1 (postgresConf_reads_back quoted "/data" Hk)). by vm_compute.
Defined.

(** A standby whose mounted file is updated only after the reload: its server keeps
    what it had, while the next pass reports that all parameters are in effect. *)
Definition two_passes : standby * list Condition :=
  let r := ops [entry ""] [setting false] in
  let '((_, st), w) := reconcileParameters r cluster fresh true [standby_pod] late in
  let '((_, st), w) := reconcileParameters r cluster st true [standby_pod] {| mounted := "new"; loaded := loaded w |} in
  (w, pst_Conditions st).

Example standby_never_reloaded :
  two_passes.1 = {| mounted := "new"; loaded := "old" |} ∧
  (cond_Status <$> FindStatusCondition two_passes.2 ConditionTypeParametersApplied) = Some "True".
Proof. by vm_compute. Qed.
End Toy.
