(* ===== verification/ArchiveHealth.v ===== *)
(** * The health of WAL archiving (src/internal/controller/archive_health.go,
    src/internal/postgres/archiver.go)

    [reconcileArchiveHealth] turns pg_stat_archiver into the condition WALArchiving and
    keeps the record of the newest WAL segment that pgBackRest dropped until a backup
    that started after it succeeded. Times are nanoseconds since the Unix epoch; a
    missing column reads as the zero time, as in Go. *)

From Stdlib Require Import Ascii.
From S2P Require Import Prelude GoStrings GoStrconv GoUrl RoleSql ApiTypes RolePolicy Objects Password Connection Pgbackrest.
From S2P Require Import Replication Restore BackupRun RoleReconcile PgConfig.

Definition archiveHealthInterval : Z := 60 * second_ns.
Definition ConditionTypeWALArchiving : string := "WALArchiving".
Definition reasonArchiving : string := "Archiving".
Definition reasonArchiveFailing : string := "ArchiveFailing".
Definition reasonNoWALArchivedYet : string := "NoWALArchivedYet".
Definition reasonArchiveUnknown : string := "Unknown".
Definition reasonWALDropped : string := "WALDropped".
Definition walDropMarkerFile : string := "pgop-wal-dropped".
Definition appNameBackup : string := "pgop-backup".

(** [time.Parse] and [time.Time.Format] of RFC 3339, in UTC. *)
Class RFC3339 := { time_Parse : string → option Z; time_Format : Z → string }.

(** The zero [time.Time], January 1 of year 1. *)
Definition time_zero : Z := -62135596800 * second_ns.
Definition IsZero (t : Z) : bool := bool_decide (t = time_zero).

(** ** pg_stat_archiver *)

Record ArchiverStats := {
  ars_ArchivedCount : Z;
  ars_LastArchivedWAL : string;
  ars_LastArchivedTime : Z;
  ars_FailedCount : Z;
  ars_LastFailedWAL : string;
  ars_LastFailedTime : Z }.

(** The row as the driver scans it. *)
Record archiverRow := {
  ar_archived_count : Z;
  ar_last_archived_wal : option string;
  ar_last_archived_time : option Z;
  ar_failed_count : Z;
  ar_last_failed_wal : option string;
  ar_last_failed_time : option Z }.

Definition Client_ArchiverStats {W} (query : M W (result archiverRow)) : M W (result ArchiverStats) :=
  row ← query;
  mret (match row with
        | inr e => inr (Wrapf "failed to read pg_stat_archiver: %w" [] e)
        | inl row =>
            inl {| ars_ArchivedCount := ar_archived_count row;
                   ars_LastArchivedWAL := default "" (ar_last_archived_wal row);
                   ars_LastArchivedTime := default time_zero (ar_last_archived_time row);
                   ars_FailedCount := ar_failed_count row;
                   ars_LastFailedWAL := default "" (ar_last_failed_wal row);
                   ars_LastFailedTime := default time_zero (ar_last_failed_time row) |}
        end).

Definition tailFileQuery : string :=
  "SELECT pg_read_file($1," +:+ str1 newline +:+ String "009"%char (str1 "009"%char) +:+
  "greatest(coalesce((pg_stat_file($1, true)).size, 0) - 4096, 0), 4096, true)".

(** [query] runs a statement with its arguments and scans one nullable text. *)
Definition TailFile {W} (query : string → list string → M W (result (option string))) (name : string) : M W (result string) :=
  out ← query tailFileQuery [name];
  mret (match out with
        | inr e => inr (Wrapf "failed to read %s: %w" [name] e)
        | inl out => inl (default "" out)
        end).

(** ** The record of dropped WAL *)

Record WALDropRecord := { wd_Time : Z; wd_Segment : string; wd_ClosedBy : string }.

(** The parts of the Cluster's status that a pass changes. *)
Record ArchiveStatus := { as_Conditions : list Condition; as_LastWALDrop : option WALDropRecord }.

Definition set_drop (d : option WALDropRecord) (st : ArchiveStatus) : ArchiveStatus :=
  {| as_Conditions := as_Conditions st; as_LastWALDrop := d |}.

Record ArchiveServer (W : Type) := {
  av_ArchiverStats : M W (result ArchiverStats);
  av_TailFile : string → M W (result string) }.
Arguments av_ArchiverStats {W}. Arguments av_TailFile {W}.

(** [ao_ListRuns]: the BackupRuns of a namespace with these labels. *)
Record archiveOps (W : Type) := {
  ao_GetSecret : string → string → M W (result (option Secret));
  ao_Connect : ConnectionConfig → M W (result (ArchiveServer W));
  ao_ListRuns : string → gmap string string → M W (result (list BackupRun));
  ao_Warn : string → string → M W () }.
Arguments ao_GetSecret {W}. Arguments ao_Connect {W}. Arguments ao_ListRuns {W}. Arguments ao_Warn {W}.

(** The name and namespace of the Cluster's physical Backup. *)
Record BackupName := { bn_Name : string; bn_Namespace : string }.

Section archive.
Context `{RFC3339} `{ErrorText} `{ConditionSetter} `{ConditionLookup} {W : Type} (r : archiveOps W).
Context (cluster : PgCluster) (generation : Z).

Definition archivingCondition (s : ArchiverStats) : string * string * string :=
  if bool_decide (0 < ars_FailedCount s) && negb (IsZero (ars_LastFailedTime s)) &&
     (IsZero (ars_LastArchivedTime s) || bool_decide (ars_LastArchivedTime s < ars_LastFailedTime s))
  then ("False", reasonArchiveFailing,
    "archiving WAL " +:+ ars_LastFailedWAL s +:+ " failed (" +:+ Itoa (ars_FailedCount s) +:+ " failures, last at "
      +:+ time_Format (ars_LastFailedTime s) +:+ "); see the postgresql container log. "
      +:+ "WAL waits in pg_wal up to archive-push-queue-max; beyond it pgBackRest drops WAL, "
      +:+ "and point-in-time recovery has a gap until the next full backup")
  else if bool_decide (ars_ArchivedCount s = 0) then ("Unknown", reasonNoWALArchivedYet, "No WAL segment has been archived yet")
  else ("True", reasonArchiving,
    "Last archived WAL " +:+ ars_LastArchivedWAL s +:+ " at " +:+ time_Format (ars_LastArchivedTime s)).

(** One line of the marker file: its time and segment. *)
Definition marker_line (line : string) : option (Z * string) :=
  match Cut (TrimSpace line) " " with
  | None => None
  | Some (ts, seg) => match time_Parse ts with Some t => Some (t, seg) | None => None end
  end.

Definition newest_step (acc : Z * string) (line : string) : Z * string :=
  match marker_line line with
  | Some (t, seg) => if bool_decide (acc.1 < t) then (t, seg) else acc
  | None => acc
  end.

(** The newest drop of the marker file; the zero time when there is none. *)
Definition newestDrop (marker : string) : Z * string := foldl newest_step (time_zero, "") (Lines marker).

Definition recordWALDrop (st : ArchiveStatus) (marker : string) : M W ArchiveStatus :=
  let '(t, segment) := newestDrop marker in
  if IsZero t then mret st
  else if match as_LastWALDrop st with Some last => bool_decide (t ≤ wd_Time last) | None => false end then mret st
  else
    ao_Warn r reasonWALDropped
      ("pgBackRest dropped WAL segment " +:+ segment +:+ " at " +:+ time_Format t
         +:+ " (archive queue full); point-in-time recovery across it is impossible until a new backup");;
    mret (set_drop (Some {| wd_Time := t; wd_Segment := segment; wd_ClosedBy := "" |}) st).

(** A successful run that started after [t]. *)
Definition started_after (t : Z) (run : BackupRun) : bool :=
  match brs_Phase (brn_Status run), brs_StartTime (brn_Status run) with
  | BackupRunPhaseSucceeded, Some start => bool_decide (t < start)
  | _, _ => false
  end.

Definition backupStartedAfter (backup : BackupName) (t : Z) : M W (result string) :=
  runs ← ao_ListRuns r (bn_Namespace backup) {[ LabelAppName := appNameBackup; LabelAppInstance := bn_Name backup ]};
  mret (match runs with
        | inr e => inr e
        | inl runs => inl (match find (started_after t) runs with Some run => brn_Name run | None => "" end)
        end).

(** [set]: the condition, and when to check again. *)
Definition setArchiving (st : ArchiveStatus) (c : string * string * string) : Z * ArchiveStatus :=
  (archiveHealthInterval,
   {| as_Conditions := SetStatusCondition (as_Conditions st)
        {| cond_Type := ConditionTypeWALArchiving; cond_Status := c.1.1; cond_ObservedGeneration := generation;
           cond_Reason := c.1.2; cond_Message := c.2 |};
      as_LastWALDrop := as_LastWALDrop st |}).

Definition archiveUnknown (st : ArchiveStatus) (msg : string) : M W (Z * ArchiveStatus) :=
  mret (setArchiving st ("Unknown", reasonArchiveUnknown, msg)).

Definition droppedMessage (drop : WALDropRecord) : string :=
  "pgBackRest dropped WAL segment " +:+ wd_Segment drop +:+ " at " +:+ time_Format (wd_Time drop)
    +:+ " because the archive queue exceeded archive-push-queue-max; "
    +:+ "point-in-time recovery across it is impossible. This stays False until a backup (full, "
    +:+ "differential or incremental) that starts after the drop succeeds; take one now".

(** With the statistics and the marker read: the latch of a recorded drop. *)
Definition archiveVerdict (st : ArchiveStatus) (backup : BackupName) (stats : ArchiverStats) : M W (Z * ArchiveStatus) :=
  match as_LastWALDrop st with
  | Some drop =>
      if decide (wd_ClosedBy drop = "") then
        closedBy ← backupStartedAfter backup (wd_Time drop);
        match closedBy with
        | inr e => archiveUnknown st (error_text e)
        | inl closedBy =>
            if decide (closedBy = "") then mret (setArchiving st ("False", reasonWALDropped, droppedMessage drop))
            else
              mret (setArchiving
                (set_drop (Some {| wd_Time := wd_Time drop; wd_Segment := wd_Segment drop; wd_ClosedBy := closedBy |}) st)
                (archivingCondition stats))
        end
      else mret (setArchiving st (archivingCondition stats))
  | None => mret (setArchiving st (archivingCondition stats))
  end.

(** On the connection to the primary. *)
Definition readArchive (st : ArchiveStatus) (backup : BackupName) (srv : ArchiveServer W) : M W (Z * ArchiveStatus) :=
  stats ← av_ArchiverStats srv;
  match stats with
  | inr e => archiveUnknown st (error_text e)
  | inl stats =>
      marker ← av_TailFile srv walDropMarkerFile;
      match marker with
      | inr e => archiveUnknown st (error_text e)
      | inl marker => st ← recordWALDrop st marker; archiveVerdict st backup stats
      end
  end.

Definition reconcileArchiveHealth (st : ArchiveStatus) (backup : option BackupName) (ready : bool) : M W (Z * ArchiveStatus) :=
  match backup with
  | None =>
      mret (0, {| as_Conditions := RemoveStatusCondition (as_Conditions st) ConditionTypeWALArchiving;
                  as_LastWALDrop := as_LastWALDrop st |})
  | Some backup =>
      if negb ready then mret (archiveHealthInterval, st)
      else
        cfg ← operatorConnectionConfig (ao_GetSecret r) (with_credentials cluster) defaultDatabaseName;
        match cfg with
        | inr e => archiveUnknown st (error_text e)
        | inl cfg =>
            srv ← ao_Connect r cfg;
            match srv with
            | inr e => archiveUnknown st ("Cannot connect to the primary: " +:+ error_text e)
            | inl srv => readArchive st backup srv
            end
        end
  end.
End archive.
