(* ===== verification/ArchiveTheorems.v ===== *)
(** * Dropped WAL is not forgotten

    Histories of passes of [reconcileArchiveHealth], in which a status may be lost when
    its write fails, and the theorem that WALArchiving is True only with evidence that
    a backup covers the last recorded drop. *)

From S2P Require Import Prelude GoStrings GoStrconv GoUrl RoleSql ApiTypes RolePolicy Objects Password Connection Pgbackrest.
From S2P Require Import Trace Replication Restore BackupRun RoleReconcile PgConfig PgConfigTheorems ArchiveHealth.

Inductive archive_event :=
  | ACall
  | AStats (r : result ArchiverStats)
  | AMarker (name : string) (r : result string)
  | ARuns (namespace : string) (labels : gmap string string) (r : result (list BackupRun)).

Section logged.
Context {W : Type}.

Definition archive_server (s : ArchiveServer W) : ArchiveServer (W * list archive_event) :=
  {| av_ArchiverStats := logged AStats (av_ArchiverStats s); av_TailFile := λ n, logged (AMarker n) (av_TailFile s n) |}.

Definition archive_ops (r : archiveOps W) : archiveOps (W * list archive_event) :=
  {| ao_GetSecret := λ ns n, logged (λ _, ACall) (ao_GetSecret r ns n);
     ao_Connect := λ cfg,
       s ← logged (λ _, ACall) (ao_Connect r cfg);
       mret (match s with inl s => inl (archive_server s) | inr e => inr e end);
     ao_ListRuns := λ ns l, logged (ARuns ns l) (ao_ListRuns r ns l);
     ao_Warn := λ reason msg, logged (λ _, ACall) (ao_Warn r reason msg) |}.
End logged.

(** ** The newest drop of a marker file *)

Section newest.
Context `{RFC3339}.

Lemma newest_fold lines acc :
  let res := foldl newest_step acc lines in
  acc.1 ≤ res.1 ∧ (∀ line t seg, line ∈ lines → marker_line line = Some (t, seg) → t ≤ res.1) ∧
  (res = acc ∨ ∃ line, line ∈ lines ∧ marker_line line = Some res).
Proof.
  revert acc. induction lines as [|line lines IH]; intros acc; simpl.
  { split_and!; [done| |by left]. by intros ? ? ? ?%elem_of_nil. }
  destruct (IH (newest_step acc line)) as (Hle & Hall & Hcase).
  assert (acc.1 ≤ (newest_step acc line).1 ∧ (∀ t seg, marker_line line = Some (t, seg) → t ≤ (newest_step acc line).1) ∧
    (newest_step acc line = acc ∨ marker_line line = Some (newest_step acc line))) as (H1 & H2 & H3).
  { unfold newest_step. destruct (marker_line line) as [[t seg]|]; [|split_and!; [done|done|by left]].
    destruct (bool_decide_reflect (acc.1 < t)).
    - simpl. split_and!; [lia| |by right]. intros ? ? [= <- <-]. lia.
    - split_and!; [done| |by left]. intros ? ? [= <- <-]. lia. }
  split_and!; [lia| |].
  - intros line' t seg [->|Hin]%elem_of_cons Hm; [|by eapply Hall]. specialize (H2 _ _ Hm). lia.
  - destruct Hcase as [Hcase|(line' & Hin & Hm)]; [|right; exists line'; split; [by right|done]]. rewrite Hcase.
    destruct H3 as [->|Hm]; [by left|right]. exists line. split; [by left|done].
Qed.

(** No drop of the file is newer, and it is one of the file. *)
Lemma newestDrop_spec marker t seg :
  newestDrop marker = (t, seg) →
  (∀ line t' seg', line ∈ Lines marker → marker_line line = Some (t', seg') → t' ≤ t) ∧
  (IsZero t = false → ∃ line, line ∈ Lines marker ∧ marker_line line = Some (t, seg)).
Proof.
  unfold newestDrop. intros Heq. destruct (newest_fold (Lines marker) (time_zero, "")) as (_ & Hall & Hcase).
  rewrite Heq in *. split; [done|]. intros Hz. destruct Hcase as [[= -> ->]|Hcase]; [|done]. by vm_compute in Hz.
Qed.
End newest.

(** ** A pass *)

Section pass.
Context `{RFC3339} `{ErrorText} `{ConditionLaws} {W : Type} (r : archiveOps W) (cluster : PgCluster) (generation : Z).
Abbreviation emits := (emits (W := W) (E := archive_event) (λ _ _ _, True)).

(** The drop was read from the marker file; a successful run started after it. *)
Definition from_marker (tr : list archive_event) (d : WALDropRecord) : Prop :=
  ∃ m line, AMarker walDropMarkerFile (inl m) ∈ tr ∧ line ∈ Lines m ∧ marker_line line = Some (wd_Time d, wd_Segment d).

(** The runs of a Backup, as its labels select them in its namespace. *)
Definition listed_runs (tr : list archive_event) (backup : BackupName) (runs : list BackupRun) : Prop :=
  ARuns (bn_Namespace backup) {[ LabelAppName := appNameBackup; LabelAppInstance := bn_Name backup ]} (inl runs) ∈ tr.

Definition covered (backup : BackupName) (tr : list archive_event) (d : WALDropRecord) : Prop :=
  ∃ runs run, listed_runs tr backup runs ∧ run ∈ runs ∧ started_after (wd_Time d) run = true ∧ brn_Name run = wd_ClosedBy d.

Lemma covered_mono backup tr tr' d : (∀ ev, ev ∈ tr → ev ∈ tr') → covered backup tr d → covered backup tr' d.
Proof. intros Hin (runs & run & ? & ?). exists runs, run. split; [by apply Hin|done]. Qed.

(** How the recorded drop changes: it stays, becomes a newer one, or is closed by a run
    of the pass's Backup. *)
Definition drop_step (backup : option BackupName) (new : list archive_event) (old old' : option WALDropRecord) : Prop :=
  old' = old ∨ ∃ d', old' = Some d' ∧ (wd_ClosedBy d' ≠ "" → ∃ b, backup = Some b ∧ covered b new d') ∧
    ((from_marker new d' ∧ ∀ d, old = Some d → wd_Time d < wd_Time d') ∨
     (∃ d, old = Some d ∧ wd_Time d' = wd_Time d ∧ wd_Segment d' = wd_Segment d ∧ wd_ClosedBy d = "")).

(** No drop of a marker file that was read is newer than the recorded one. *)
Definition sees (new : list archive_event) (d' : option WALDropRecord) : Prop :=
  ∀ m line t seg, AMarker walDropMarkerFile (inl m) ∈ new → line ∈ Lines m → marker_line line = Some (t, seg) → time_zero < t →
    ∃ d, d' = Some d ∧ t ≤ wd_Time d.

(** A condition that is True leaves no recorded drop open. *)
Definition truthful (st : ArchiveStatus) : Prop :=
  ∀ cond d, FindStatusCondition (as_Conditions st) ConditionTypeWALArchiving = Some cond → cond_Status cond = "True" →
    as_LastWALDrop st = Some d → wd_ClosedBy d ≠ "".

Definition pass_ok (backup : option BackupName) (st : ArchiveStatus) (res : Z * ArchiveStatus) (new : list archive_event) : Prop :=
  drop_step backup new (as_LastWALDrop st) (as_LastWALDrop res.2) ∧ sees new (as_LastWALDrop res.2) ∧ (res.2 = st ∨ truthful res.2).

Definition no_marker (new : list archive_event) : Prop := ∀ m, AMarker walDropMarkerFile (inl m) ∉ new.

Lemma no_marker_calls new : Forall (λ ev, ev = ACall) new → no_marker new.
Proof. rewrite Forall_forall. intros Hn m Hm%Hn. done. Qed.

Lemma setArchiving_truthful st c :
  (∀ d, c.1.1 = "True" → as_LastWALDrop st = Some d → wd_ClosedBy d ≠ "") → truthful (setArchiving generation st c).2.
Proof.
  intros Hc cond d. simpl. rewrite (find_set _ {| cond_Type := ConditionTypeWALArchiving; cond_Status := c.1.1;
    cond_ObservedGeneration := generation; cond_Reason := c.1.2; cond_Message := c.2 |}).
  intros [= <-]. simpl. apply Hc.
Qed.

(** A pass that could not look. *)
Lemma unknown_ok backup st msg new : no_marker new → pass_ok backup st (setArchiving generation st ("Unknown", reasonArchiveUnknown, msg)) new.
Proof.
  intros Hn. split_and!; [by left| |right; by apply setArchiving_truthful]. intros m ? ? ? Hm. by apply Hn in Hm.
Qed.

Lemma calls_only {A} (m : M (W * list archive_event) A) :
  only (λ ev, ev = ACall) m → emits m (λ _ new, no_marker new).
Proof. intros Hm. eapply emits_conseq; [exact Hm|]. intros x new. apply no_marker_calls. Qed.

Lemma no_marker_app new new' : no_marker new → no_marker new' → no_marker (new ++ new').
Proof. intros Ha Hb m [Hm|Hm]%elem_of_app; [by apply Ha in Hm|by apply Hb in Hm]. Qed.

Lemma record_emits st m :
  emits (recordWALDrop (archive_ops r) st m)
    (λ st1 new, no_marker new ∧ as_Conditions st1 = as_Conditions st ∧ ∀ pre, AMarker walDropMarkerFile (inl m) ∈ pre →
       (as_LastWALDrop st1 = as_LastWALDrop st ∨ ∃ d', as_LastWALDrop st1 = Some d' ∧ wd_ClosedBy d' = "" ∧ from_marker pre d' ∧
          ∀ d, as_LastWALDrop st = Some d → wd_Time d < wd_Time d') ∧
       (∀ line t seg, line ∈ Lines m → marker_line line = Some (t, seg) → time_zero < t →
          ∃ d, as_LastWALDrop st1 = Some d ∧ t ≤ wd_Time d)).
Proof.
  assert (Hnone : no_marker []) by (intros ? ?%elem_of_nil; done).
  unfold recordWALDrop. destruct (newestDrop m) as [t seg] eqn:E. apply newestDrop_spec in E as [Hmax Hin].
  destruct (IsZero t) eqn:Ez.
  { apply emits_ret. split_and!; [done|done|]. intros pre Hp. split; [by left|]. intros line t' seg' Hl Hm Ht.
    apply bool_decide_eq_true in Ez. specialize (Hmax _ _ _ Hl Hm). lia. }
  destruct (Hin eq_refl) as (line & Hl & Hm).
  destruct (as_LastWALDrop st) as [last|] eqn:Es; [destruct (bool_decide_reflect (t ≤ wd_Time last))|].
  { apply emits_ret. split_and!; [done|done|]. intros pre Hp. rewrite Es. split; [by left|]. intros line' t' seg' Hl' Hm' _.
    exists last. split; [done|]. specialize (Hmax _ _ _ Hl' Hm'). lia. }
  all: eapply emits_bind; [by apply emits_logged|]; intros ? new ->; apply emits_ret; simpl.
  all: split_and!; [intros ? [|[]%elem_of_nil]%elem_of_cons; congruence|done|].
  all: intros pre Hp; split; [right; eexists; split_and!; [done|done|by exists m, line|]|].
  1,3: intros d Hd; first [discriminate Hd|injection Hd as <-; simpl; lia].
  all: intros line' t' seg' Hl' Hm' _; eexists; split; [done|]; simpl; by eapply Hmax.
Qed.

Lemma verdict_emits st backup stats :
  emits (archiveVerdict (archive_ops r) generation st backup stats)
    (λ res new, no_marker new ∧ truthful res.2 ∧
       (as_LastWALDrop res.2 = as_LastWALDrop st ∨ ∃ d d', as_LastWALDrop st = Some d ∧ wd_ClosedBy d = "" ∧
          as_LastWALDrop res.2 = Some d' ∧ wd_Time d' = wd_Time d ∧ wd_Segment d' = wd_Segment d ∧ covered backup new d')).
Proof.
  assert (Hnone : no_marker []) by (intros ? ?%elem_of_nil; done). unfold archiveVerdict.
  destruct (as_LastWALDrop st) as [d|] eqn:Es.
  2:{ apply emits_ret. split_and!; [done| |by left]. apply setArchiving_truthful. congruence. }
  case_decide as Hc.
  2:{ apply emits_ret. split_and!; [done| |by left]. apply setArchiving_truthful. congruence. }
  unfold backupStartedAfter. eapply (emits_bind _ _ _ (λ x new, no_marker new ∧ ∀ name, x = inl name → name ≠ "" →
    ∃ runs run, listed_runs new backup runs ∧ run ∈ runs ∧ started_after (wd_Time d) run = true ∧ brn_Name run = name)).
  { eapply emits_bind; [by apply emits_logged|]. intros [runs|e] new ->; apply emits_ret; simpl.
    all: split; [intros ? [|[]%elem_of_nil]%elem_of_cons; congruence|intros name [= <-]].
    destruct (find _ runs) as [run|] eqn:Ef; [|done]. apply find_some in Ef as [Hin%list_elem_of_In Hs]. intros _.
    exists runs, run. split_and!; [by left|done..]. }
  intros [closed|e] new [Hn Hclosed].
  2:{ apply emits_ret. rewrite app_nil_r. split_and!; [done| |by left]. by apply setArchiving_truthful. }
  destruct (decide (closed = "")) as [->|Hne]; apply emits_ret; rewrite app_nil_r.
  { split_and!; [done| |by left]. by apply setArchiving_truthful. }
  split_and!; [done| |].
  - apply setArchiving_truthful. intros d' _. simpl. by intros [= <-].
  - right. exists d. eexists. split_and!; [done..|]. destruct (Hclosed _ eq_refl Hne) as (runs & run & ?).
    by exists runs, run.
Qed.

Lemma read_emits st backup srv : emits (readArchive (archive_ops r) generation st backup (archive_server srv)) (pass_ok (Some backup) st).
Proof.
  unfold readArchive. eapply emits_bind; [by apply emits_logged|]. intros [stats|e] new ->.
  2:{ apply emits_ret, unknown_ok. intros ? [|[]%elem_of_nil]%elem_of_cons; congruence. }
  eapply emits_bind; [by apply emits_logged|]. intros [m|e] new ->.
  2:{ apply emits_ret, unknown_ok. intros ? [|[|[]%elem_of_nil]%elem_of_cons]%elem_of_cons; congruence. }
  eapply emits_bind; [apply record_emits|]. intros st1 new1 (N1 & C1 & R1).
  eapply emits_conseq; [apply verdict_emits|]. intros res new2 (N2 & T2 & V2).
  set (pre := [AStats (inl stats)] ++ [AMarker walDropMarkerFile (inl m)] ++ new1 ++ new2).
  destruct (R1 pre) as [D1 S1]; [right; by left|].
  assert (∀ m', AMarker walDropMarkerFile (inl m') ∈ pre → m' = m) as Hm.
  { intros m' [Hm|[Hm|[Hm|Hm]%elem_of_app]%elem_of_cons]%elem_of_cons; [done|congruence|by apply N1 in Hm|by apply N2 in Hm]. }
  assert (∀ d, covered backup new2 d → covered backup pre d) as Hcov.
  { intros d. apply covered_mono. intros ev ?. do 2 right. apply elem_of_app. by right. }
  split_and!; [| |by right].
  - destruct V2 as [->|(d & d' & Hd & Hopen & -> & Ht & Hs & Hc)].
    + destruct D1 as [->|(d & -> & Hopen & Hfrom & Hold)]; [by left|right]. exists d. split_and!; [done|by rewrite Hopen|by left].
    + right. exists d'. split_and!; [done|intros _; exists backup; split; [done|by apply Hcov]|]. rewrite Hd in D1.
      destruct D1 as [D1|(d1 & [= <-] & _ & Hfrom & Hold)]; [right; by exists d|left]. split.
      * unfold from_marker in *. by rewrite Ht, Hs.
      * by rewrite Ht.
  - intros m' line t seg ->%Hm Hl Hline Ht. destruct (S1 _ _ _ Hl Hline Ht) as (d & Hd & Hle).
    destruct V2 as [->|(d0 & d' & Hd0 & _ & -> & Htd & _)]; [eauto|]. exists d'. split; [done|].
    assert (d0 = d) as -> by congruence. lia.
Qed.

Lemma reconcileArchiveHealth_emits st backup ready :
  emits (reconcileArchiveHealth (archive_ops r) cluster generation st backup ready) (pass_ok backup st).
Proof.
  assert (Hnone : no_marker []) by (intros ? ?%elem_of_nil; done). unfold reconcileArchiveHealth.
  destruct backup as [backup|].
  2:{ apply emits_ret. split_and!; [by left|intros ? ? ? ? []%elem_of_nil|right]. intros cond d. simpl. by rewrite find_remove. }
  destruct (negb ready); [apply emits_ret; split_and!; [by left|intros ? ? ? ? []%elem_of_nil|by left]|].
  eapply emits_bind.
  { apply calls_only. unfold operatorConnectionConfig, clusterClientTLS.
    apply only_bind; [by apply only_logged|]. intros [[s|]|e]; try apply only_ret.
    apply only_bind; [|intros; apply only_ret]. destruct (negb _); [apply only_ret|].
    apply only_bind; [by apply only_logged|]. intros; apply only_ret. }
  intros [cfg|e] new Hn; [|apply emits_ret; rewrite app_nil_r; by apply unknown_ok].
  eapply (emits_bind _ _ _ (λ x new, no_marker new ∧ match x with inl s => ∃ s0, s = archive_server s0 | inr _ => True end)).
  { simpl. eapply emits_bind; [by apply emits_logged|]. intros [s|e] ? ->; apply emits_ret; simpl.
    all: split; [intros ? [|[]%elem_of_nil]%elem_of_cons; congruence|eauto]. }
  intros [srv|e] new' [Hn' Hs]; [|apply emits_ret; rewrite app_nil_r; by apply unknown_ok, no_marker_app].
  destruct Hs as [s0 ->]. eapply emits_conseq; [apply read_emits|]. intros res new2 (D & S & T).
  assert (∀ ev, ev ∈ new2 → ev ∈ new ++ new' ++ new2) as Hsub by (intros; rewrite !elem_of_app; auto).
  split_and!; [| |done].
  - destruct D as [->|(d & -> & Hc & Hcase)]; [by left|right]. exists d. split_and!; [done| |].
    + intros Hne. destruct (Hc Hne) as (b & Hb & Hcov). exists b. split; [done|]. by eapply covered_mono.
    + destruct Hcase as [[(m & line & Hin & ?) ?]|Hcase]; [left|by right]. split; [|done]. exists m, line. split; [by apply Hsub|done].
  - intros m line t seg Hin. rewrite !elem_of_app in Hin. destruct Hin as [Hin|[Hin|Hin]].
    + by apply Hn in Hin.
    + by apply Hn' in Hin.
    + by eapply S.
Qed.
End pass.

(** ** Histories *)

Section history.
Context `{RFC3339} `{ErrorText} `{ConditionLaws} {W : Type}.

(** The Backups that are the Cluster's physical Backup at some time. *)
Context (of_cluster : BackupName → Prop).

(** The calls made so far and the stored status. A pass may meet any servers, any of the
    Cluster's Backups, or none, and any changes of the world between passes; [saved]:
    its status was stored. *)
Inductive history : list archive_event → ArchiveStatus → Prop :=
  | history_start l : FindStatusCondition l ConditionTypeWALArchiving = None →
      history [] {| as_Conditions := l; as_LastWALDrop := None |}
  | history_pass tr st (ops : archiveOps W) cluster generation backup ready w res w' tr' (saved : bool) :
      history tr st → (∀ b, backup = Some b → of_cluster b) →
      reconcileArchiveHealth (archive_ops ops) cluster generation st backup ready (w, tr) = (res, (w', tr')) →
      history tr' (if saved then res.2 else st).

Lemma history_step tr st (ops : archiveOps W) cluster generation backup ready w res w' tr' :
  reconcileArchiveHealth (archive_ops ops) cluster generation st backup ready (w, tr) = (res, (w', tr')) →
  ∃ new, tr' = tr ++ new ∧ pass_ok backup st res new.
Proof.
  intros Hm. destruct (reconcileArchiveHealth_emits ops cluster generation st backup ready (w, tr)) as (new & Htr & _ & Hok).
  rewrite Hm in *. eauto.
Qed.

(** What the stored status is backed by. *)
Definition backed (tr : list archive_event) (st : ArchiveStatus) : Prop :=
  truthful st ∧ ∀ d, as_LastWALDrop st = Some d → from_marker tr d ∧ (wd_ClosedBy d ≠ "" → ∃ b, of_cluster b ∧ covered b tr d).

Lemma backed_app tr new st : backed tr st → backed (tr ++ new) st.
Proof.
  intros [Ht Hb]. split; [done|]. intros d Hd. destruct (Hb d Hd) as [(m & line & Hin & Hm) Hc]. split.
  - exists m, line. split; [apply elem_of_app; by left|done].
  - intros (b & Hof & Hcov)%Hc. exists b. split; [done|]. eapply covered_mono; [|exact Hcov]. intros. apply elem_of_app. by left.
Qed.

Lemma backed_pass tr backup st res new :
  (∀ b, backup = Some b → of_cluster b) → backed tr st → pass_ok backup st res new → backed (tr ++ new) res.2.
Proof.
  intros Hof Hb (Hstep & _ & Htrue). destruct (backed_app tr new st Hb) as [Ht Hbd]. split.
  - destruct Htrue as [->|]; done.
  - intros d Hd. destruct Hstep as [Hs|(d' & Hs & Hc & Hcase)]; [apply Hbd; congruence|].
    assert (d' = d) as -> by congruence. split.
    + destruct Hcase as [[(m & line & Hin & Hm) _]|(d0 & Hd0 & Htime & Hseg & _)].
      * exists m, line. split; [apply elem_of_app; by right|done].
      * destruct (Hbd d0 Hd0) as [Hf _]. unfold from_marker in *. by rewrite Htime, Hseg.
    + intros (b & Hb' & Hcov)%Hc. exists b. split; [by apply Hof|]. eapply covered_mono; [|exact Hcov].
      intros. apply elem_of_app. by right.
Qed.

Lemma history_backed tr st : history tr st → backed tr st.
Proof.
  induction 1 as [l Hl|tr st ops cluster generation backup ready w res w' tr' saved Hh IH Hof Hm].
  { split; [|done]. intros cond d Hf. simpl in Hf. congruence. }
  destruct (history_step _ _ _ _ _ _ _ _ _ _ _ Hm) as (new & -> & Hok).
  destruct saved; [by eapply backed_pass|by apply backed_app].
Qed.

(** C32: dropped WAL is not forgotten. Over any history of passes, whatever the servers
    answer and whichever status writes are lost: a stored condition WALArchiving that
    is True comes with evidence that a successful run of one of the Cluster's Backups,
    as the labels of that Backup select its runs in its namespace, started after the
    recorded drop, and the recorded drop was read from the marker file. The type of the
    run is not looked at ([logical_run_closes_the_drop]). A pass never
    replaces the recorded drop by an older one nor reopens or drops it, closes it only
    on a run it listed, and when it reads the marker file no drop there is newer than
    the one it records. *)
Theorem wal_drop_latched tr st (ops : archiveOps W) cluster generation backup ready w delay st' w' tr' :
  history tr st → (∀ b, backup = Some b → of_cluster b) →
  reconcileArchiveHealth (archive_ops ops) cluster generation st backup ready (w, tr) = ((delay, st'), (w', tr')) →
  (∀ cond d, FindStatusCondition (as_Conditions st') ConditionTypeWALArchiving = Some cond → cond_Status cond = "True" →
     as_LastWALDrop st' = Some d →
     (∃ m line, AMarker walDropMarkerFile (inl m) ∈ tr' ∧ line ∈ Lines m ∧ marker_line line = Some (wd_Time d, wd_Segment d)) ∧
     ∃ b runs run, of_cluster b ∧
       ARuns (bn_Namespace b) {[ LabelAppName := appNameBackup; LabelAppInstance := bn_Name b ]} (inl runs) ∈ tr' ∧
       run ∈ runs ∧ started_after (wd_Time d) run = true ∧ brn_Name run = wd_ClosedBy d) ∧
  (∀ d, as_LastWALDrop st = Some d → ∃ d', as_LastWALDrop st' = Some d' ∧
     (d' = d ∨ wd_Time d < wd_Time d' ∨
      (wd_Time d' = wd_Time d ∧ wd_Segment d' = wd_Segment d ∧ wd_ClosedBy d = ""))) ∧
  ∃ new, tr' = tr ++ new ∧
    ∀ m line t seg, AMarker walDropMarkerFile (inl m) ∈ new → line ∈ Lines m → marker_line line = Some (t, seg) → time_zero < t →
      ∃ d, as_LastWALDrop st' = Some d ∧ t ≤ wd_Time d.
Proof.
  intros Hh Hof Hm. destruct (history_step _ _ _ _ _ _ _ _ _ _ _ Hm) as (new & -> & Hok).
  pose proof (backed_pass _ _ _ _ _ Hof (history_backed _ _ Hh) Hok) as [Ht Hb]. destruct Hok as (Hstep & Hsees & _). simpl in *.
  split_and!.
  - intros cond d Hf Hs Hd. destruct (Hb d Hd) as [Hfrom Hc]. split; [done|].
    destruct (Hc (Ht _ _ Hf Hs Hd)) as (b & ? & runs & run & ?). by exists b, runs, run.
  - intros d Hd. destruct Hstep as [->|(d' & -> & _ & [[_ Hnew]|(d0 & Hd0 & ? & ? & ?)])].
    + exists d. split; [done|by left].
    + exists d'. split; [done|]. right. left. by apply Hnew.
    + assert (d0 = d) as -> by congruence. exists d'. split; [done|]. by right; right.
  - by exists new.
Qed.
End history.

(** ** A concrete history *)

Module Toy.
Import PgConfigTheorems.Toy.
#[local] Existing Instances toy_text toy_set toy_lookup toy_laws.

(** Times of the marker file are written as numbers of seconds here. *)
#[local] Instance toy_time : RFC3339 := {| time_Parse := λ s, (λ n, n * second_ns) <$> Atoi s; time_Format := λ t, Itoa (t / second_ns) |}.

Definition healthy : ArchiverStats :=
  {| ars_ArchivedCount := 5; ars_LastArchivedWAL := "A"; ars_LastArchivedTime := 90 * second_ns; ars_FailedCount := 0;
     ars_LastFailedWAL := ""; ars_LastFailedTime := time_zero |}.

Definition succeeded (start : Z) : BackupRun :=
  {| brn_Name := "nightly"; brn_Owner := None; brn_BackupRef := "b"; brn_Type := BackupRunTypeFull; brn_TTL := None;
     brn_Status := {| brs_Phase := BackupRunPhaseSucceeded; brs_StartTime := Some (start * second_ns); brs_CompletionTime := None;
                      brs_Location := ""; brs_JobName := ""; brs_Available := None |} |}.

Definition ops (runs : list BackupRun) : archiveOps unit :=
  {| ao_GetSecret := λ _ _, mret (inl (Some secret));
     ao_Connect := λ _, mret (inl {| av_ArchiverStats := mret (inl healthy);
                                     av_TailFile := λ _, mret (inl ("70 X" +:+ str1 newline +:+ "80 B" +:+ str1 newline)) |});
     ao_ListRuns := λ _ _, mret (inl runs); ao_Warn := λ _ _, mret () |}.

Definition start : ArchiveStatus := {| as_Conditions := []; as_LastWALDrop := None |}.
Definition backup : option BackupName := Some {| bn_Name := "b"; bn_Namespace := "db" |}.

(** A run that started before the drop does not close it; a later one does. *)
Definition first_pass := reconcileArchiveHealth (archive_ops (ops [succeeded 75])) (cf_cluster cluster) 1 start backup true ((), []).
Definition second_pass :=
  reconcileArchiveHealth (archive_ops (ops [succeeded 75; succeeded 100])) (cf_cluster cluster) 1 first_pass.1.2 backup true ((), first_pass.2.2).

Definition status_of (st : ArchiveStatus) : option string :=
  cond_Status <$> FindStatusCondition (as_Conditions st) ConditionTypeWALArchiving.

Definition the_backup (b : BackupName) : Prop := b = {| bn_Name := "b"; bn_Namespace := "db" |}.

Lemma wal_drop_latched_witness :
  status_of first_pass.1.2 = Some "False" ∧ status_of second_pass.1.2 = Some "True" ∧
  ∃ (b : BackupName) (runs : list BackupRun) (run : BackupRun), the_backup b ∧
    ARuns (bn_Namespace b) {[ LabelAppName := appNameBackup; LabelAppInstance := bn_Name b ]} (inl runs) ∈ second_pass.2.2 ∧
    run ∈ runs ∧ started_after (80 * second_ns) run = true ∧ brn_Name run = "nightly".
Proof.
  split; [by vm_compute|]. split; [by vm_compute|].
  assert (∀ b, backup = Some b → the_backup b) as Hof by (by intros b [= <-]).
  assert (history (W := unit) the_backup first_pass.2.2 first_pass.1.2) as Hh.
  { refine (history_pass the_backup [] start (ops [succeeded 75]) (cf_cluster cluster) 1 backup true () _ _ _ true _ Hof (run_split first_pass)).
    by apply history_start. }
  destruct (wal_drop_latched the_backup first_pass.2.2 first_pass.1.2 (ops [succeeded 75; succeeded 100]) (cf_cluster cluster) 1 backup true ()
    second_pass.1.1 second_pass.1.2 second_pass.2.1 second_pass.2.2 Hh Hof (run_split2 second_pass)) as [Hc _].
  destruct (FindStatusCondition (as_Conditions second_pass.1.2) ConditionTypeWALArchiving) as [cond|] eqn:Ef;
    [|vm_compute in Ef; discriminate Ef].
  destruct (Hc cond {| wd_Time := 80 * second_ns; wd_Segment := "B"; wd_ClosedBy := "nightly" |} eq_refl) as [_ H].
  - vm_compute in Ef. injection Ef as <-. reflexivity.
  - by vm_compute.
  - exact H.
Defined.

(** A successful run of logical type, that backs up no WAL position, closes the drop too. *)
Definition logical : BackupRun :=
  {| brn_Name := "dump"; brn_Owner := None; brn_BackupRef := "b"; brn_Type := BackupRunTypeSchema; brn_TTL := None;
     brn_Status := brn_Status (succeeded 100) |}.

Example logical_run_closes_the_drop :
  let pass := reconcileArchiveHealth (archive_ops (ops [logical])) (cf_cluster cluster) 1 first_pass.1.2 backup true ((), []) in
  status_of pass.1.2 = Some "True" ∧ wd_ClosedBy <$> as_LastWALDrop pass.1.2 = Some "dump".
Proof. by vm_compute. Qed.
End Toy.
