(* ===== verification/PgHba.v ===== *)
(** * The managed pg_hba.conf (src/internal/controller/replication.go, tls.go)

    [renderPgHBA] and what the server makes of the text: [parse_hba] reads it as
    PostgreSQL reads the file, [hba_decide] takes the first rule that matches a
    connection. The theorem is about the rendered text, not about the rows. *)

From Stdlib Require Import Ascii.
From S2P Require Import Prelude GoStrings GoStrconv Pgbackrest Replication ReplicationReconcile PgConfig.

Definition hbaAll : string := "all".
Definition hbaReplication : string := "replication".
Definition hbaScram : string := "scram-sha-256".
Definition hbaReject : string := "reject".

Definition tlsRequired (tls : option ServerTLSSpec) : bool := match tls with Some t => IsRequireTLS t | None => false end.

Definition managedPgHBA : string :=
  "# Managed by pgop (spec.tls.requireTLS). Changes are overwritten." +:+ str1 newline +:+
  "# TYPE    DATABASE USER ADDRESS    METHOD" +:+ str1 newline +:+
  "local     all      all             trust" +:+ str1 newline +:+
  "hostssl   all      all  0.0.0.0/0  scram-sha-256" +:+ str1 newline +:+
  "hostssl   all      all  ::/0       scram-sha-256" +:+ str1 newline +:+
  "hostnossl all      all  all        reject" +:+ str1 newline.

Fixpoint spaces (n : nat) : string := match n with O => "" | S n => String " " (spaces n) end.

(** [%-ns]: padded with spaces to [n] bytes. *)
Definition pad (n : nat) (s : string) : string := s +:+ spaces (n - String.length s).

(** [strings.TrimRight(s, " ")]. *)
Fixpoint TrimRightBlanks (s : string) : string :=
  match s with
  | EmptyString => ""
  | String c s => match TrimRightBlanks s with
                  | EmptyString => if decide (c = " "%char) then "" else str1 c
                  | s' => String c s'
                  end
  end.

Record hba_row := { row_type : string; row_db : string; row_user : string; row_addr : string; row_method : string }.

Definition hba_line (r : hba_row) : string :=
  pad 9 (row_type r) +:+ " " +:+ pad 11 (row_db r) +:+ " " +:+ pad 15 (row_user r) +:+ " " +:+ pad 9 (row_addr r) +:+ " " +:+ row_method r.

Definition hba_header : hba_row :=
  {| row_type := "# TYPE"; row_db := "DATABASE"; row_user := "USER"; row_addr := "ADDRESS"; row_method := "METHOD" |}.

Definition hba_rows (requireTLS : bool) : list hba_row :=
  let host := if requireTLS then "hostssl" else "host" in
  let row t d u a m := {| row_type := t; row_db := d; row_user := u; row_addr := a; row_method := m |} in
  [row "local" hbaAll hbaAll "" "trust";
   row "local" hbaReplication hbaAll "" "trust";
   row host hbaReplication ReplicationUsername "0.0.0.0/0" hbaScram;
   row host hbaReplication ReplicationUsername "::/0" hbaScram;
   row "host" hbaAll ReplicationUsername hbaAll hbaReject;
   row host hbaAll hbaAll "0.0.0.0/0" hbaScram;
   row host hbaAll hbaAll "::/0" hbaScram]
  ++ if requireTLS then
       [row "hostnossl" hbaAll hbaAll hbaAll hbaReject; row "hostnossl" hbaReplication hbaAll hbaAll hbaReject]
     else [].

Fixpoint hba_lines (rows : list hba_row) : string :=
  match rows with
  | [] => ""
  | r :: rows => TrimRightBlanks (hba_line r) +:+ str1 newline +:+ hba_lines rows
  end.

Definition renderPgHBA (tls : option ServerTLSSpec) (replication : bool) : string :=
  if negb replication then managedPgHBA
  else
    let requireTLS := tlsRequired tls in
    let managedBy := if requireTLS then "streaming replication, spec.tls.requireTLS" else "streaming replication" in
    "# Managed by pgop (" +:+ managedBy +:+ "). Changes are overwritten." +:+ str1 newline +:+
    hba_line hba_header +:+ str1 newline +:+ hba_lines (hba_rows requireTLS).

(** ** What the server makes of it *)

(** A connection request: over the Unix socket, or over TCP with or without TLS from
    an IPv4 or IPv6 address; [req_replication]: a physical replication connection. *)
Inductive transport := Socket | Tcp (tls : bool) (ipv6 : bool).
Record request := { req_transport : transport; req_replication : bool; req_user : string }.

Inductive hba_method := Trust | Scram | Reject.
#[export] Instance hba_method_eq_dec : EqDecision hba_method.
Proof. solve_decision. Defined.

(** A rule: the fields of a line, as documented for pg_hba.conf. [all] does not match
    replication connections. *)
Definition type_matches (t : string) (tr : transport) : bool :=
  match tr with
  | Socket => bool_decide (t = "local")
  | Tcp tls _ => bool_decide (t = "host") || (bool_decide (t = "hostssl") && tls) || (bool_decide (t = "hostnossl") && negb tls)
  end.

Definition db_matches (d : string) (replication : bool) : bool :=
  if replication then bool_decide (d = "replication") else bool_decide (d = "all").

Definition user_matches (u user : string) : bool := bool_decide (u = "all") || bool_decide (u = user).

Definition addr_matches (a : string) (tr : transport) : bool :=
  match tr with
  | Socket => bool_decide (a = "")
  | Tcp _ ipv6 => bool_decide (a = "all") || (bool_decide (a = "0.0.0.0/0") && negb ipv6) || (bool_decide (a = "::/0") && ipv6)
  end.

Definition row_matches (r : hba_row) (q : request) : bool :=
  type_matches (row_type r) (req_transport q) && db_matches (row_db r) (req_replication q)
    && user_matches (row_user r) (req_user q) && addr_matches (row_addr r) (req_transport q).

Definition method_of (m : string) : option hba_method :=
  if decide (m = "trust") then Some Trust else if decide (m = "scram-sha-256") then Some Scram
  else if decide (m = "reject") then Some Reject else None.

(** One line: blank lines and comments are skipped; a local rule has no address. A line
    that is not understood makes the whole file unusable. *)
Definition parse_hba_line (line : string) : option (option (hba_row * hba_method)) :=
  match Fields line with
  | [] => Some None
  | first :: rest =>
      if HasPrefix first "#" then Some None
      else
        match rest with
        | [d; u; m] =>
            if decide (first = "local") then
              m' ← method_of m; Some (Some ({| row_type := first; row_db := d; row_user := u; row_addr := ""; row_method := m |}, m'))
            else None
        | [d; u; a; m] =>
            if bool_decide (first ∈ ["host"; "hostssl"; "hostnossl"]) then
              m' ← method_of m; Some (Some ({| row_type := first; row_db := d; row_user := u; row_addr := a; row_method := m |}, m'))
            else None
        | _ => None
        end
  end.

Definition parse_hba (text : string) : option (list (hba_row * hba_method)) := omap id <$> mapM parse_hba_line (Split text newline).

(** The first matching rule; a connection that no rule matches is rejected. *)
Definition hba_decide (rules : list (hba_row * hba_method)) (q : request) : hba_method :=
  match find (λ r, row_matches r.1 q) rules with Some r => r.2 | None => Reject end.

Definition server_decides (text : string) (q : request) : option hba_method := (λ rules, hba_decide rules q) <$> parse_hba text.

Definition is_tcp (tr : transport) : bool := match tr with Socket => false | Tcp _ _ => true end.
Definition is_plain (tr : transport) : bool := match tr with Tcp tls _ => negb tls | Socket => false end.

Lemma parse_rendered tls replication :
  parse_hba (renderPgHBA tls replication) =
    Some (if replication then (λ r, (r, default Reject (method_of (row_method r)))) <$> hba_rows (tlsRequired tls)
          else (λ r, (r, default Reject (method_of (row_method r)))) <$>
            [{| row_type := "local"; row_db := hbaAll; row_user := hbaAll; row_addr := ""; row_method := "trust" |};
             {| row_type := "hostssl"; row_db := hbaAll; row_user := hbaAll; row_addr := "0.0.0.0/0"; row_method := hbaScram |};
             {| row_type := "hostssl"; row_db := hbaAll; row_user := hbaAll; row_addr := "::/0"; row_method := hbaScram |};
             {| row_type := "hostnossl"; row_db := hbaAll; row_user := hbaAll; row_addr := hbaAll; row_method := hbaReject |}]).
Proof.
  unfold renderPgHBA. destruct replication; [|by vm_compute]. destruct (tlsRequired tls); by vm_compute.
Qed.

(** C36: what the server makes of the text of the managed pg_hba.conf. The text parses.
    Only the Unix socket is trusted; over TCP a password is always asked for or the
    connection rejected. With spec.tls.requireTLS, and in the file without replication,
    no connection without TLS is accepted. With replication, pgop_replicator over TCP
    opens replication connections only, and is the only user who may; without it no
    replication connection is accepted over TCP. Every other user keeps the access over
    TCP that the transport rules leave. *)
Theorem managed_hba_decides tls replication q :
  server_decides (renderPgHBA tls replication) q = Some
    match req_transport q with
    | Socket => if replication || negb (req_replication q) then Trust else Reject
    | Tcp encrypted _ =>
        if (tlsRequired tls || negb replication) && negb encrypted then Reject
        else if replication && eqb (req_replication q) (bool_decide (req_user q = ReplicationUsername)) then Scram
        else if negb replication && negb (req_replication q) then Scram
        else Reject
    end.
Proof.
  unfold server_decides. rewrite parse_rendered. simpl. f_equal. destruct q as [tr repl user]. simpl.
  destruct (decide (user = "all")) as [->|Hall].
  { destruct replication, (tlsRequired tls), tr as [|[] []], repl; by vm_compute. }
  destruct (decide (user = ReplicationUsername)) as [->|Hr].
  { destruct replication, (tlsRequired tls), tr as [|[] []], repl; by vm_compute. }
  assert (bool_decide (user = ReplicationUsername) = false) as -> by (by apply bool_decide_eq_false).
  assert (bool_decide (ReplicationUsername = user) = false) as Hu by (by apply bool_decide_eq_false).
  unfold hba_decide, row_matches, user_matches.
  destruct replication, (tlsRequired tls), tr as [|[] []], repl; simpl; rewrite ?Hu; by vm_compute.
Qed.
