(* ===== verification/PodTemplate.v ===== *)
(** * The pod template of a Cluster (cluster_controller.go, replication.go, tls.go,
    pgconfig.go, pgbackrest.go under src/internal/controller)

    The containers, volumes and server options that pgop derives from a Cluster, the
    shell scripts that run in them, and the convergence of an existing StatefulSet onto
    them. Of the Kubernetes types the fields that pgop sets are modelled, those among
    them that the API server defaults when they are unset (a port's protocol, the API
    version of a field reference, the numbers of a probe, the mode of a volume's files)
    at the values the source writes. [c_Defaulted] stands for the fields of a container
    that pgop never sets. A resource quantity is its value ([Quantities] parses one). *)

From Stdlib Require Import Ascii.
From S2P Require Import Prelude GoStrings GoStrconv Pgbackrest Replication ArchiveHealth GoUrl RoleSql ApiTypes RolePolicy Password.
From S2P Require Import Connection ReplicationReconcile PgConfig PgHba.

(** ** The scripts

    Written as in the source: a Go raw string cannot hold a backquote, so [raw] uses it
    for the double quote. *)

Fixpoint raw (s : string) : string :=
  match s with
  | EmptyString => ""
  | String c s => String (if decide (c = "`"%char) then "034"%char else c) (raw s)
  end.

Definition pgbackrestBin : string := "/usr/bin/pgbackrest".
Definition pgbackrestTLSMountPath : string := "/etc/pgop/pgbackrest-tls".

(** [volumePermissionsScript] (cluster_controller.go). *)
Definition volumePermissionsScript : string := raw
"set -e
if [ `$(stat -c %u `$DATA_DIR`)` != `999` ]; then
  chown 999:999 `$DATA_DIR`
fi
chmod 0700 `$DATA_DIR`".

(** [passwordSyncScript] (cluster_controller.go). *)
Definition passwordSyncScript : string := raw
"if [ -e `$PGDATA/standby.signal` ] || [ -e `$PGDATA/recovery.signal` ]; then exit 0; fi
until pg_isready -q -U `$POSTGRES_USER` -d postgres 2>/dev/null; do sleep 1; done
if [ `$(psql -X -U `$POSTGRES_USER` -d postgres -tAc 'SELECT pg_is_in_recovery()')` != f ]; then exit 0; fi
case `$(psql -X -V)` in
*`) 9.`* | *`) 1`[0-4]`.`*)
	pw=$(printf '%sx' `$POSTGRES_PASSWORD` | sed `s/'/''/g`); pw=${pw%x}
	user=$(printf '%sx' `$POSTGRES_USER` | sed 's/`/``/g'); user=${user%x}
	printf '%s\n' `SET log_statement = 'none';` `SET log_min_duration_statement = -1;` \
		`SET log_min_error_statement = 'panic';` `ALTER ROLE \`$user\` WITH PASSWORD '$pw';` |
		psql -X -q -v ON_ERROR_STOP=1 -U `$POSTGRES_USER` -d postgres
	;;
*)
	psql -X -q -v ON_ERROR_STOP=1 -U `$POSTGRES_USER` -d postgres <<'SQL'
SET log_statement = 'none';
SET log_min_duration_statement = -1;
SET log_min_error_statement = 'panic';
\getenv pgop_password POSTGRES_PASSWORD
\getenv pgop_user POSTGRES_USER
ALTER ROLE :`pgop_user` WITH PASSWORD :'pgop_password';
SQL
	;;
esac
".

(** [bootstrapScript] (replication.go). *)
Definition bootstrapScript : string := raw
"set -eu
ordinal=`${POD_NAME##*-}`
staging=`$PGDATA/pgop-basebackup.tmp`
mkdir -p `$PGDATA` `$(dirname `$PGOP_PASSFILE`)`
chmod 0700 `$PGDATA` 2>/dev/null || true
umask 077
printf '*:*:*:%s:%s\n' `$PGUSER` `$(printf '%s' `$PGPASSWORD` | sed -e 's/[\\:]/\\&/g')` > `$PGOP_PASSFILE`
if [ `$ordinal` != 0 ] && [ -e `$staging` ]; then
  echo `pgop: removing an incomplete clone of the primary`
  find `$PGDATA` -mindepth 1 -maxdepth 1 ! -name lost+found -exec rm -rf {} +
fi
if [ -s `$PGDATA/PG_VERSION` ]; then
  echo `pgop: using the existing data directory $PGDATA`
  exit 0
fi
if [ `$ordinal` = 0 ]; then
  if [ -e `$PGOP_INITIALIZED_MARKER` ]; then
    echo `pgop: refusing to initialize an empty primary data directory: this Cluster already held data, so the primary's volume was lost or replaced.` >&2
    echo `pgop: restore the primary's volume, or set the annotation pgop.ruck.io/allow-primary-init=true on the Cluster to start over with an empty database` >&2
    exit 1
  fi
  if PGSSLMODE=prefer pg_isready -q -h `$PGOP_READ_ONLY_HOST` -p `$PGPORT` -t 5; then
    echo `pgop: refusing to initialize an empty primary data directory while standbys of this Cluster are running;` >&2
    echo `pgop: restore the primary's volume, or scale the Cluster to 1 instance to start over` >&2
    exit 1
  fi
  exit 0
fi
slot=`pgop_replica_$ordinal`
echo `pgop: cloning the primary $PGHOST into $PGDATA (replication slot $slot)`
until pg_basebackup -D `$staging` -X stream -S `$slot` -c fast --no-password; do
  echo `pgop: cloning the primary failed; retrying in 5s`
  rm -rf `$staging`
  sleep 5
done
touch `$staging/standby.signal`
printf `primary_slot_name = '%s'\n` `$slot` >> `$staging/postgresql.auto.conf`
find `$staging` -mindepth 1 -maxdepth 1 -exec mv {} `$PGDATA`/ \;
rmdir `$staging`
echo `pgop: standby data directory ready`
".

(** [pgbackrestSidecarScript] (pgbackrest.go). *)
Definition pgbackrestSidecarScript : string :=
  raw "set -u
tls=`" +:+
  pgbackrestTLSMountPath +:+
  raw "`
pid=``
certs() { cat `$tls/tls.crt` `$tls/tls.key` `$tls/ca.crt` 2>/dev/null | cksum; }
start() {
  loaded=`$(certs)`
  " +:+
  pgbackrestBin +:+
  raw " server &
  pid=$!
  echo `pgop: pgBackRest TLS server started`
}
stop() {
  [ -n `$pid` ] && kill `$pid` 2>/dev/null && wait `$pid` 2>/dev/null
  exit 0
}
trap stop TERM INT
start
stanza=``
while :; do
  sleep 10 &
  wait $!
  if ! kill -0 `$pid` 2>/dev/null; then
    echo `pgop: pgBackRest TLS server exited; restarting it`
    start
  elif [ `$(certs)` != `$loaded` ]; then
    echo `pgop: TLS certificates changed; restarting the pgBackRest TLS server`
    kill `$pid` 2>/dev/null; wait `$pid` 2>/dev/null
    start
  fi
  if [ -z `$stanza` ] && pg_isready -q -h `$PGBACKREST_PG1_SOCKET_PATH` -p `$PGBACKREST_PG1_PORT` -U `$PGBACKREST_PG1_USER` -d postgres; then
    recovery=`$(psql -h `$PGBACKREST_PG1_SOCKET_PATH` -p `$PGBACKREST_PG1_PORT` -U `$PGBACKREST_PG1_USER` -d postgres -tAc 'SELECT pg_is_in_recovery()' 2>/dev/null)`
    if [ `$recovery` = f ]; then
      if " +:+
  pgbackrestBin +:+
  raw " stanza-create; then
        stanza=done
      else
        echo `pgop: stanza-create failed; retrying`
      fi
    fi
  fi
done
".

(** [archiveCommand] (pgbackrest.go). *)
Definition archiveCommand : string :=
  raw "out=$(" +:+
  pgbackrestBin +:+
  raw " --stanza=" +:+
  pgbackrestStanza +:+
  raw " archive-push `%p` 2>&1); rc=$?; printf '%%s\n' `$out` >&2; case `$out` in *`dropped WAL file`*) printf '%%s %%s\n' `$(date -u +%%Y-%%m-%%dT%%H:%%M:%%SZ)` `%f` >> `$PGDATA/" +:+
  walDropMarkerFile +:+
  raw "`;; esac; exit $rc".

(** ** Kubernetes data *)

Inductive EnvSource :=
  | EnvValue (v : string)
  | EnvSecretKey (secret key : string) (optional : bool)
  | EnvFieldPath (version path : string).
Record EnvVar := { env_Name : string; env_Source : EnvSource }.
Record VolumeMount := { vm_Name : string; vm_MountPath : string; vm_ReadOnly : bool }.

(** [items]: the key and the path of each projected key; none: all keys. [mode]:
    defaultMode, [None] when unset. *)
Inductive VolumeSource :=
  | VolSecret (name : string) (items : list (string * string)) (mode : option Z) (optional : bool)
  | VolConfigMap (name : string) (mode : option Z)
  | VolEmptyDir.
Record Volume := { vol_Name : string; vol_Source : VolumeSource }.
Record ContainerPort := { cp_Name : string; cp_Port : Z; cp_Protocol : string }.
Record Resources := { res_Limits : gmap string Z; res_Requests : gmap string Z }.
Record SecurityContext := {
  sc_RunAsUser : option Z;
  sc_RunAsNonRoot : option bool;
  sc_AllowPrivilegeEscalation : option bool;
  sc_ReadOnlyRootFilesystem : option bool;
  sc_CapDrop : list string;
  sc_CapAdd : list string }.
(** 0: unset. *)
Record Probe := {
  pr_Command : list string;
  pr_InitialDelay : Z;
  pr_Period : Z;
  pr_Timeout : Z;
  pr_Success : Z;
  pr_Failure : Z }.
Record PodSecurityContext := { psc_RunAsUser : Z; psc_RunAsGroup : Z; psc_FSGroup : Z; psc_Seccomp : string }.

(** [c_PostStart]: the command of the postStart hook. *)
Record Container := {
  c_Name : string;
  c_Image : string;
  c_Command : list string;
  c_Args : list string;
  c_Ports : list ContainerPort;
  c_Env : list EnvVar;
  c_VolumeMounts : list VolumeMount;
  c_Resources : Resources;
  c_SecurityContext : option SecurityContext;
  c_ReadinessProbe : option Probe;
  c_LivenessProbe : option Probe;
  c_PostStart : list string;
  c_Defaulted : string }.

#[export] Instance EnvSource_eq_dec : EqDecision EnvSource. Proof. solve_decision. Defined.
#[export] Instance EnvVar_eq_dec : EqDecision EnvVar. Proof. solve_decision. Defined.
#[export] Instance VolumeMount_eq_dec : EqDecision VolumeMount. Proof. solve_decision. Defined.
#[export] Instance VolumeSource_eq_dec : EqDecision VolumeSource. Proof. solve_decision. Defined.
#[export] Instance Volume_eq_dec : EqDecision Volume. Proof. solve_decision. Defined.
#[export] Instance ContainerPort_eq_dec : EqDecision ContainerPort. Proof. solve_decision. Defined.
#[export] Instance Resources_eq_dec : EqDecision Resources. Proof. solve_decision. Defined.
#[export] Instance SecurityContext_eq_dec : EqDecision SecurityContext. Proof. solve_decision. Defined.
#[export] Instance Probe_eq_dec : EqDecision Probe. Proof. solve_decision. Defined.
#[export] Instance PodSecurityContext_eq_dec : EqDecision PodSecurityContext. Proof. solve_decision. Defined.

Definition envVar (name value : string) : EnvVar := {| env_Name := name; env_Source := EnvValue value |}.
Definition secretEnv (name secretName key : string) : EnvVar := {| env_Name := name; env_Source := EnvSecretKey secretName key false |}.

(** [resource.ParseQuantity], as the value of the quantity. *)
Class Quantities := { ParseQuantity : string → option Z }.

Definition ProtocolTCP : string := "TCP".
Definition configVolumeName : string := "config".
Definition tlsVolumeName : string := "tls".
Definition hbaVolumeName : string := "hba".
Definition tlsFileMode : Z := 416.
Definition hbaFileMode : Z := 420.
Definition configFileMode : Z := 420.
Definition bootstrapContainerName : string := "pgop-bootstrap".
Definition runVolumeName : string := "pgop-run".
Definition runMountPath : string := "/run/pgop".
Definition replicationPassFile : string := runMountPath +:+ "/replication.pgpass".
Definition readOnlyServiceSuffix : string := "-ro".
Definition envPodName : string := "POD_NAME".
Definition minMaxSlotWALKeepSizeMB : Z := 64.
Definition maxWALSenders : Z := 32.
Definition maxReplicationSlots : Z := 32.
Definition shBin : string := "/bin/sh".
Definition defaultStorageSize : string := "1Gi".
Definition DefaultOperatorUsername : string := "pgop_operator".
Definition volumePermissionsContainerName : string := "volume-permissions".
Definition pgbackrestTLSPort : Z := 8432.
Definition pgbackrestPortName : string := "pgbackrest".
Definition pgbackrestClientCN : string := "pgop-pgbackrest-client".
Definition postgresSocketDir : string := "/var/run/postgresql".
Definition postgresSocketVolume : string := "pg-socket".
Definition pgbackrestTLSVolumeName : string := "pgbackrest-tls".
Definition s3CAVolumeName : string := "s3-ca".
Definition s3CAMountPath : string := "/etc/pgop/s3-ca".
Definition s3CAFileName : string := "ca.crt".
Definition envAWSAccessKeyID : string := "AWS_ACCESS_KEY_ID".
Definition envAWSSecretAccessKey : string := "AWS_SECRET_ACCESS_KEY".

(** ** The Cluster *)

(** The Secrets a Backup refers to: the S3 credentials, the CA of the endpoint and the
    encryption key (a Secret and its key). *)
Record BackupRefs := {
  br_Credentials : option string;
  br_CA : option (string * string);
  br_EncryptionKey : option (string * string) }.

(** The rest of a Cluster's spec. *)
Record PodCluster := {
  pc_conf : ConfCluster;
  pc_StorageSize : string;
  pc_StorageClass : option string;
  pc_RetainDelete : bool;
  pc_Resources : Resources }.

Abbreviation pgc c := (cf_cluster (pc_conf c)).

Definition hbaConfigMapName (c : PgCluster) : string := k_Name c +:+ "-hba".
Definition readOnlyServiceName (c : PgCluster) : string := k_Name c +:+ readOnlyServiceSuffix.
Definition readOnlyHost (c : PgCluster) : string := readOnlyServiceName c +:+ "." +:+ k_Namespace c +:+ ".svc.cluster.local".
Definition pgbackrestTLSSecretName (c : PgCluster) : string := k_Name c +:+ "-pgbackrest-tls".

(** ** TLS and the configuration file *)

Definition hbaVolume (c : PgCluster) : Volume := {| vol_Name := hbaVolumeName; vol_Source := VolConfigMap (hbaConfigMapName c) (Some hbaFileMode) |}.
Definition hbaVolumeMount : VolumeMount := {| vm_Name := hbaVolumeName; vm_MountPath := hbaMountPath; vm_ReadOnly := true |}.
Definition tlsVolumeMount : VolumeMount := {| vm_Name := tlsVolumeName; vm_MountPath := tlsMountPath; vm_ReadOnly := true |}.

Definition postgresTLSVolumes (c : ConfCluster) : list Volume * list VolumeMount :=
  match cf_TLS c with
  | None => ([], [])
  | Some t =>
      let volumes := [{| vol_Name := tlsVolumeName; vol_Source := VolSecret (tlsSecretName (cf_cluster c)) [] (Some tlsFileMode) false |}] in
      if IsRequireTLS t then (volumes ++ [hbaVolume (cf_cluster c)], [tlsVolumeMount; hbaVolumeMount]) else (volumes, [tlsVolumeMount])
  end.

Definition postgresConfigVolumes (c : ConfCluster) : list Volume * list VolumeMount :=
  if decide (cf_Parameters c = ∅) then ([], [])
  else ([{| vol_Name := configVolumeName; vol_Source := VolConfigMap (configMapName (k_Name (cf_cluster c))) (Some configFileMode) |}],
        [{| vm_Name := configVolumeName; vm_MountPath := configMountPath; vm_ReadOnly := true |}]).

(** ** Replication *)

Definition hasParameter (params : params_map) (name : string) : bool := existsb (λ '(k, _), EqualFold k name) (map_to_list params).

Definition replicationSSLMode (c : ConfCluster) : string := match cf_TLS c with Some _ => SSLModeVerifyFull | None => SSLModeDisable end.

Definition primaryConnInfo (c : ConfCluster) : string :=
  Join (["host=" +:+ clusterHost (cf_cluster c);
         "port=" +:+ Itoa (clusterPort (cf_cluster c));
         "user=" +:+ ReplicationUsername;
         "passfile=" +:+ replicationPassFile;
         "application_name=$(" +:+ envPodName +:+ ")";
         "sslmode=" +:+ replicationSSLMode c]
        ++ match cf_TLS c with Some _ => ["sslrootcert=" +:+ tlsMountPath +:+ "/" +:+ TLSSecretKeyCA] | None => [] end) " ".

Definition runVolumeMount : VolumeMount := {| vm_Name := runVolumeName; vm_MountPath := runMountPath; vm_ReadOnly := false |}.
Definition podNameEnv : EnvVar := {| env_Name := envPodName; env_Source := EnvFieldPath "v1" "metadata.name" |}.

Definition replicationVolumes (c : ConfCluster) : list Volume * list VolumeMount :=
  let run := {| vol_Name := runVolumeName; vol_Source := VolEmptyDir |} in
  if tlsRequired (cf_TLS c) then ([run], [runVolumeMount])
  else ([hbaVolume (cf_cluster c); run], [hbaVolumeMount; runVolumeMount]).

#[global] Opaque volumePermissionsScript passwordSyncScript bootstrapScript pgbackrestSidecarScript archiveCommand.

Section template.
Context `{Quantities} `{UrlParse}.

Definition storage_value (c : PodCluster) : option Z :=
  ParseQuantity (if decide (pc_StorageSize c = "") then defaultStorageSize else pc_StorageSize c).

Definition defaultMaxSlotWALKeepSize (c : PodCluster) : string :=
  let mb := match storage_value c with
            | Some q => minMaxSlotWALKeepSizeMB `max` (q `quot` 4 `quot` (1024 * 1024))
            | None => minMaxSlotWALKeepSizeMB
            end in
  Itoa mb +:+ "MB".

Definition replicationServerArgs (c : PodCluster) : list string :=
  (if tlsRequired (cf_TLS (pc_conf c)) then [] else ["-c"; hbaFileArg])
  ++ ["-c"; "primary_conninfo=" +:+ primaryConnInfo (pc_conf c);
      "-c"; "max_wal_senders=" +:+ Itoa maxWALSenders;
      "-c"; "max_replication_slots=" +:+ Itoa maxReplicationSlots]
  ++ if hasParameter (cf_Parameters (pc_conf c)) "max_slot_wal_keep_size" then []
     else ["-c"; "max_slot_wal_keep_size=" +:+ defaultMaxSlotWALKeepSize c].

Definition bootstrapInitContainer (c : PodCluster) (secretName : string) (main : Container) (layout : postgresLayout) : Container :=
  let env := [podNameEnv; envVar "PGDATA" (lay_PGDATA layout); envVar "PGHOST" (clusterHost (pgc c));
              envVar "PGPORT" (Itoa (clusterPort (pgc c))); envVar "PGUSER" ReplicationUsername;
              secretEnv "PGPASSWORD" secretName SecretKeyReplicationPassword; envVar "PGSSLMODE" (replicationSSLMode (pc_conf c));
              envVar "PGCONNECT_TIMEOUT" "10"; envVar "PGAPPNAME" "pgop-bootstrap";
              envVar "PGOP_READ_ONLY_HOST" (readOnlyHost (pgc c)); envVar "PGOP_PASSFILE" replicationPassFile;
              envVar "PGOP_INITIALIZED_MARKER" (hbaMountPath +:+ "/" +:+ initializedMarkerKey)] in
  let mounts := [{| vm_Name := dataVolumeName; vm_MountPath := lay_MountPath layout; vm_ReadOnly := false |}] in
  let '(env, mounts) := match cf_TLS (pc_conf c) with
                        | Some _ => (env ++ [envVar "PGSSLROOTCERT" (tlsMountPath +:+ "/" +:+ TLSSecretKeyCA)], mounts ++ [tlsVolumeMount])
                        | None => (env, mounts)
                        end in
  {| c_Name := bootstrapContainerName; c_Image := c_Image main; c_Command := [shBin; "-c"; bootstrapScript]; c_Args := [];
     c_Ports := []; c_Env := env; c_VolumeMounts := mounts ++ [hbaVolumeMount; runVolumeMount]; c_Resources := c_Resources main;
     c_SecurityContext := c_SecurityContext main; c_ReadinessProbe := None; c_LivenessProbe := None; c_PostStart := [];
     c_Defaulted := "" |}.

(** Setters for the fields the templates change. *)
Definition set_image (image : string) (c : Container) : Container :=
  {| c_Name := c_Name c; c_Image := image; c_Command := c_Command c; c_Args := c_Args c; c_Ports := c_Ports c; c_Env := c_Env c;
     c_VolumeMounts := c_VolumeMounts c; c_Resources := c_Resources c; c_SecurityContext := c_SecurityContext c;
     c_ReadinessProbe := c_ReadinessProbe c; c_LivenessProbe := c_LivenessProbe c; c_PostStart := c_PostStart c;
     c_Defaulted := c_Defaulted c |}.

Definition extend (env : list EnvVar) (mounts : list VolumeMount) (args : list string) (c : Container) : Container :=
  {| c_Name := c_Name c; c_Image := c_Image c; c_Command := c_Command c; c_Args := args; c_Ports := c_Ports c;
     c_Env := c_Env c ++ env; c_VolumeMounts := c_VolumeMounts c ++ mounts; c_Resources := c_Resources c;
     c_SecurityContext := c_SecurityContext c; c_ReadinessProbe := c_ReadinessProbe c; c_LivenessProbe := c_LivenessProbe c;
     c_PostStart := c_PostStart c; c_Defaulted := c_Defaulted c |}.

(** The server command when no option was added yet. *)
Definition or_binary (args : list string) : list string := match args with [] => [postgresBinary] | _ => args end.

(** The init container is built from the container after its changes. *)
Definition applyReplicationTemplate (c : PodCluster) (secretName : string) (layout : postgresLayout) (container : Container)
    (volumes : list Volume) : Container * list Container * list Volume :=
  let '(replVolumes, replMounts) := replicationVolumes (pc_conf c) in
  let container := extend [podNameEnv] replMounts (or_binary (c_Args container) ++ replicationServerArgs c) container in
  (container, [bootstrapInitContainer c secretName container layout], volumes ++ replVolumes).

(** ** Physical backups *)

Definition pgbackrestRepoEnv (backup : Backup) (refs : BackupRefs) (s3 : S3Destination) : list EnvVar :=
  let ep := match parseS3Endpoint s3 with inl ep => ep | inr _ => {| ep_Host := ""; ep_Port := 0 |} end in
  [envVar "PGBACKREST_STANZA" pgbackrestStanza; envVar "PGBACKREST_REPO1_TYPE" "s3";
   envVar "PGBACKREST_REPO1_PATH" (repoPath backup s3); envVar "PGBACKREST_REPO1_S3_BUCKET" (s3_Bucket s3);
   envVar "PGBACKREST_REPO1_S3_REGION" (s3_Region s3); envVar "PGBACKREST_REPO1_S3_ENDPOINT" (ep_Host ep);
   envVar "PGBACKREST_REPO1_STORAGE_PORT" (Itoa (ep_Port ep))]
  ++ (if decide (s3_Endpoint s3 = "") then [] else [envVar "PGBACKREST_REPO1_S3_URI_STYLE" "path"])
  ++ match br_Credentials refs with
     | Some name => [secretEnv "PGBACKREST_REPO1_S3_KEY" name envAWSAccessKeyID;
                     secretEnv "PGBACKREST_REPO1_S3_KEY_SECRET" name envAWSSecretAccessKey]
     | None => [envVar "PGBACKREST_REPO1_S3_KEY_TYPE" "auto"]
     end
  ++ match br_CA refs with
     | Some _ => [envVar "PGBACKREST_REPO1_STORAGE_CA_FILE" (s3CAMountPath +:+ "/" +:+ s3CAFileName)]
     | None => []
     end
  ++ match br_EncryptionKey refs with
     | Some (name, key) => [envVar "PGBACKREST_REPO1_CIPHER_TYPE" "aes-256-cbc"; secretEnv "PGBACKREST_REPO1_CIPHER_PASS" name key]
     | None => []
     end.

Definition pgbackrestPGEnv (c : PgCluster) (layout : postgresLayout) : list EnvVar :=
  [envVar "PGBACKREST_PG1_PATH" (lay_PGDATA layout); envVar "PGBACKREST_PG1_PORT" (Itoa (clusterPort c));
   envVar "PGBACKREST_PG1_SOCKET_PATH" postgresSocketDir; envVar "PGBACKREST_PG1_USER" DefaultOperatorUsername;
   envVar "PGBACKREST_LOG_LEVEL_CONSOLE" "info"; envVar "PGBACKREST_LOG_LEVEL_FILE" "off"].

Definition s3CAVolume (refs : BackupRefs) : list Volume * list VolumeMount :=
  match br_CA refs with
  | None => ([], [])
  | Some (name, key) =>
      ([{| vol_Name := s3CAVolumeName; vol_Source := VolSecret name [(key, s3CAFileName)] (Some 292) false |}],
       [{| vm_Name := s3CAVolumeName; vm_MountPath := s3CAMountPath; vm_ReadOnly := true |}])
  end.

Definition pgbackrestServerArgs : list string := ["-c"; "archive_mode=on"; "-c"; "archive_command=" +:+ archiveCommand].

Definition pgbackrestServerEnv : list EnvVar :=
  [envVar "PGBACKREST_TLS_SERVER_ADDRESS" "*"; envVar "PGBACKREST_TLS_SERVER_PORT" (Itoa pgbackrestTLSPort);
   envVar "PGBACKREST_TLS_SERVER_CERT_FILE" (pgbackrestTLSMountPath +:+ "/" +:+ TLSSecretKeyCert);
   envVar "PGBACKREST_TLS_SERVER_KEY_FILE" (pgbackrestTLSMountPath +:+ "/" +:+ TLSSecretKeyKey);
   envVar "PGBACKREST_TLS_SERVER_CA_FILE" (pgbackrestTLSMountPath +:+ "/" +:+ TLSSecretKeyCA);
   envVar "PGBACKREST_TLS_SERVER_AUTH" (pgbackrestClientCN +:+ "=" +:+ pgbackrestStanza)].

Definition applyPgbackrestTemplate (c : PodCluster) (backup : Backup) (refs : BackupRefs) (s3 : S3Destination) (layout : postgresLayout)
    (container : Container) (volumes : list Volume) : result (Container * Container * list Volume) :=
  match postgresImageForBackups (cf_image (pc_conf c)) backup with
  | inr e => inr e
  | inl image =>
      let env := pgbackrestRepoEnv backup refs s3 ++ pgbackrestPGEnv (pgc c) layout
                 ++ [envVar "PGBACKREST_ARCHIVE_PUSH_QUEUE_MAX" (Itoa (archivePushQueueMax backup (storage_value c)))] in
      let '(caVolumes, caMounts) := s3CAVolume refs in
      let socketMount := {| vm_Name := postgresSocketVolume; vm_MountPath := postgresSocketDir; vm_ReadOnly := false |} in
      let container := set_image image (extend env (socketMount :: caMounts) (or_binary (c_Args container) ++ pgbackrestServerArgs) container) in
      let sidecar :=
        {| c_Name := pgbackrestContainerName; c_Image := c_Image container; c_Command := [shBin; "-c"; pgbackrestSidecarScript];
           c_Args := []; c_Ports := [{| cp_Name := pgbackrestPortName; cp_Port := pgbackrestTLSPort; cp_Protocol := ProtocolTCP |}];
           c_Env := env ++ pgbackrestServerEnv;
           c_VolumeMounts := [{| vm_Name := dataVolumeName; vm_MountPath := lay_MountPath layout; vm_ReadOnly := false |}; socketMount;
                              {| vm_Name := pgbackrestTLSVolumeName; vm_MountPath := pgbackrestTLSMountPath; vm_ReadOnly := true |}]
                             ++ caMounts;
           c_Resources := {| res_Limits := ∅; res_Requests := ∅ |}; c_SecurityContext := c_SecurityContext container;
           c_ReadinessProbe := None; c_LivenessProbe := None; c_PostStart := []; c_Defaulted := "" |} in
      inl (container, sidecar,
           volumes ++ [{| vol_Name := postgresSocketVolume; vol_Source := VolEmptyDir |};
                       {| vol_Name := pgbackrestTLSVolumeName;
                          vol_Source := VolSecret (pgbackrestTLSSecretName (pgc c))
                            [(TLSSecretKeyCert, TLSSecretKeyCert); (TLSSecretKeyKey, TLSSecretKeyKey); (TLSSecretKeyCA, TLSSecretKeyCA)]
                            (Some tlsFileMode) false |}] ++ caVolumes)
  end.

(** ** The PostgreSQL container *)

Definition postgresPodSecurityContext : PodSecurityContext :=
  {| psc_RunAsUser := 999; psc_RunAsGroup := 999; psc_FSGroup := 999; psc_Seccomp := "RuntimeDefault" |}.

Definition buildVolumePermissionsInitContainer (image : string) (layout : postgresLayout) (resources : Resources) : Container :=
  {| c_Name := volumePermissionsContainerName; c_Image := image; c_Command := [shBin; "-c"; volumePermissionsScript]; c_Args := [];
     c_Ports := []; c_Env := [envVar "DATA_DIR" (lay_MountPath layout)];
     c_VolumeMounts := [{| vm_Name := dataVolumeName; vm_MountPath := lay_MountPath layout; vm_ReadOnly := false |}];
     c_Resources := resources;
     c_SecurityContext := Some {| sc_RunAsUser := Some 0; sc_RunAsNonRoot := Some false; sc_AllowPrivilegeEscalation := Some false;
                                  sc_ReadOnlyRootFilesystem := Some true; sc_CapDrop := ["ALL"];
                                  sc_CapAdd := ["CHOWN"; "FOWNER"; "DAC_OVERRIDE"] |};
     c_ReadinessProbe := None; c_LivenessProbe := None; c_PostStart := []; c_Defaulted := "" |}.

Definition isReadyProbe (initialDelay : Z) : Probe :=
  {| pr_Command := ["pg_isready"; "-U"; DefaultOperatorUsername]; pr_InitialDelay := initialDelay; pr_Period := 10; pr_Timeout := 1;
     pr_Success := 1; pr_Failure := 3 |}.

Definition operatorPasswordSyncLifecycle : list string := ["sh"; "-c"; passwordSyncScript].

Definition buildPostgresContainer (secretName image : string) (port : Z) (resources : Resources) (layout : postgresLayout) : Container :=
  {| c_Name := AppNamePostgresql; c_Image := image; c_Command := []; c_Args := [];
     c_Ports := [{| cp_Name := AppNamePostgresql; cp_Port := port; cp_Protocol := ProtocolTCP |}];
     c_Env := [secretEnv "POSTGRES_USER" secretName "username"; secretEnv "POSTGRES_PASSWORD" secretName "password";
               envVar "PGDATA" (lay_PGDATA layout)];
     c_VolumeMounts := [{| vm_Name := dataVolumeName; vm_MountPath := lay_MountPath layout; vm_ReadOnly := false |}];
     c_Resources := resources;
     c_SecurityContext := Some {| sc_RunAsUser := None; sc_RunAsNonRoot := Some true; sc_AllowPrivilegeEscalation := Some false;
                                  sc_ReadOnlyRootFilesystem := None; sc_CapDrop := ["ALL"]; sc_CapAdd := [] |};
     c_ReadinessProbe := Some (isReadyProbe 5); c_LivenessProbe := Some (isReadyProbe 30);
     c_PostStart := operatorPasswordSyncLifecycle; c_Defaulted := "" |}.

(** ** The desired template *)

Record PodTemplate := { pt_Containers : list Container; pt_InitContainers : list Container; pt_Volumes : list Volume }.

(** The first half of [reconcileStatefulSet]. *)
Definition desiredTemplate (c : PodCluster) (secretName : string) (replication : bool)
    (backup : option (Backup * BackupRefs * S3Destination)) : result PodTemplate :=
  match resolvePostgresLayout (cf_image (pc_conf c)) with
  | inr e => inr e
  | inl layout =>
      let container := buildPostgresContainer secretName (clusterImage (cf_image (pc_conf c))) (clusterPort (pgc c)) (pc_Resources c) layout in
      let '(tlsVolumes, tlsMounts) := postgresTLSVolumes (pc_conf c) in
      let '(configVolumes, configMounts) := postgresConfigVolumes (pc_conf c) in
      let volumes := tlsVolumes ++ configVolumes in
      let container := extend [] (tlsMounts ++ configMounts) (postgresServerArgs (cf_Parameters (pc_conf c)) (cf_TLS (pc_conf c))) container in
      let with_backup :=
        match backup with
        | None => inl (container, [], volumes)
        | Some (b, refs, s3) =>
            match applyPgbackrestTemplate c b refs s3 layout container volumes with
            | inr e => inr e
            | inl (container, sidecar, volumes) => inl (container, [sidecar], volumes)
            end
        end in
      match with_backup with
      | inr e => inr e
      | inl (container, sidecars, volumes) =>
          let '(container, inits, volumes) :=
            if replication then applyReplicationTemplate c secretName layout container volumes else (container, [], volumes) in
          let inits := if NeedsVolumeFix layout
                       then buildVolumePermissionsInitContainer (c_Image container) layout (pc_Resources c) :: inits else inits in
          inl {| pt_Containers := container :: sidecars; pt_InitContainers := inits; pt_Volumes := volumes |}
      end
  end.
End template.

(** ** Convergence *)

(** [Some b]: PersistentVolumeClaims are deleted when ... *)
Record Retention := { rt_DeleteWhenDeleted : bool; rt_DeleteWhenScaled : bool }.
#[export] Instance Retention_eq_dec : EqDecision Retention. Proof. solve_decision. Defined.

Definition desiredPVCRetentionPolicy (c : PodCluster) : Retention :=
  {| rt_DeleteWhenDeleted := pc_RetainDelete c; rt_DeleteWhenScaled := false |}.

Record PgStatefulSet := {
  st_Replicas : option Z;
  st_Retention : option Retention;
  st_Labels : gmap string string;
  st_Annotations : gmap string string;
  st_SecurityContext : option PodSecurityContext;
  st_InitContainers : list Container;
  st_Containers : list Container;
  st_Volumes : list Volume;
  st_Generation : Z;
  st_ObservedGeneration : Z;
  st_CurrentRevision : string;
  st_UpdateRevision : string;
  st_ReadyReplicas : Z }.

(** [convergeContainer]: the fields pgop derives are overwritten, the rest is kept. *)
Definition convergeContainer (existing desired : Container) : Container * bool :=
  let merged :=
    {| c_Name := c_Name existing; c_Image := c_Image desired; c_Command := c_Command desired; c_Args := c_Args desired;
       c_Ports := c_Ports desired; c_Env := c_Env desired; c_VolumeMounts := c_VolumeMounts desired;
       c_Resources := c_Resources desired; c_SecurityContext := c_SecurityContext desired;
       c_ReadinessProbe := c_ReadinessProbe desired; c_LivenessProbe := c_LivenessProbe desired;
       c_PostStart := c_PostStart desired; c_Defaulted := c_Defaulted existing |} in
  let changed :=
    negb (bool_decide (c_Image existing = c_Image desired)) || negb (bool_decide (c_Command existing = c_Command desired))
    || negb (bool_decide (c_Args existing = c_Args desired)) || negb (bool_decide (c_Ports existing = c_Ports desired))
    || negb (bool_decide (c_Env existing = c_Env desired)) || negb (bool_decide (c_VolumeMounts existing = c_VolumeMounts desired))
    || negb (bool_decide (c_Resources existing = c_Resources desired))
    || negb (bool_decide (c_SecurityContext existing = c_SecurityContext desired))
    || negb (bool_decide (c_ReadinessProbe existing = c_ReadinessProbe desired))
    || negb (bool_decide (c_LivenessProbe existing = c_LivenessProbe desired))
    || negb (bool_decide (c_PostStart existing = c_PostStart desired)) in
  (merged, changed).

Fixpoint convergeEach (cur desired : list Container) : list Container * bool :=
  match cur, desired with
  | c :: cur, d :: desired =>
      let '(c', ch) := convergeContainer c d in
      let '(cur', ch') := convergeEach cur desired in
      (c' :: cur', ch || ch')
  | _, _ => (cur, false)
  end.

Definition convergeContainerList (cur desired : list Container) : list Container * bool :=
  if decide (c_Name <$> cur = c_Name <$> desired) then convergeEach cur desired else (desired, true).

(** The StatefulSet in memory and whether anything differs; only then it is written. *)
Definition convergedStatefulSet (sts : PgStatefulSet) (replicas : Z) (labels : gmap string string) (t : PodTemplate)
    (retention : Retention) : PgStatefulSet * bool :=
  let '(inits, ch1) := convergeContainerList (st_InitContainers sts) (pt_InitContainers t) in
  let ch2 := negb (bool_decide (st_Volumes sts = pt_Volumes t)) in
  let ch3 := negb (bool_decide (st_Retention sts = Some retention)) in
  let ch4 := negb (bool_decide (st_Replicas sts = Some replicas)) in
  let ch5 := negb (bool_decide (st_Labels sts = labels)) in
  let ch6 := negb (bool_decide (st_SecurityContext sts = Some postgresPodSecurityContext)) in
  let '(containers, ch7) := convergeContainerList (st_Containers sts) (pt_Containers t) in
  ({| st_Replicas := Some replicas; st_Retention := Some retention; st_Labels := labels; st_Annotations := st_Annotations sts;
      st_SecurityContext := Some postgresPodSecurityContext; st_InitContainers := inits; st_Containers := containers;
      st_Volumes := pt_Volumes t; st_Generation := st_Generation sts; st_ObservedGeneration := st_ObservedGeneration sts;
      st_CurrentRevision := st_CurrentRevision sts; st_UpdateRevision := st_UpdateRevision sts;
      st_ReadyReplicas := st_ReadyReplicas sts |},
   ch1 || ch2 || ch3 || ch4 || ch5 || ch6 || ch7).

(** What the replication and the parameters components read of it. *)
Definition repl_view (sts : PgStatefulSet) : StatefulSet :=
  {| sts_Replicas := st_Replicas sts;
     sts_HasBootstrap := existsb (λ c, bool_decide (c_Name c = bootstrapContainerName)) (st_InitContainers sts);
     sts_Generation := st_Generation sts; sts_ObservedGeneration := st_ObservedGeneration sts;
     sts_CurrentRevision := st_CurrentRevision sts; sts_UpdateRevision := st_UpdateRevision sts;
     sts_ReadyReplicas := st_ReadyReplicas sts |}.

Definition parameter_view (sts : PgStatefulSet) : ParameterStatefulSet :=
  {| pss_CurrentRevision := st_CurrentRevision sts; pss_UpdateRevision := st_UpdateRevision sts;
     pss_TemplateAnnotations := st_Annotations sts |}.
