(* ===== verification/PodTemplateTheorems.v ===== *)
(** * The pod template is well-formed, and convergence settles

    [template_well_formed]: what every desired template satisfies. [converge_settles]:
    an update brings the StatefulSet to the desired template and is not repeated,
    whatever the API server fills into the fields that are unset, nested ones too. *)

From Stdlib Require Import Ascii.
From S2P Require Import Prelude GoStrings GoStrconv GoUrl RoleSql ApiTypes RolePolicy Password Connection Pgbackrest Replication.
From S2P Require Import ReplicationReconcile PgConfig PgHba ArchiveHealth PodTemplate.

(** ** Convergence *)

(** The fields that pgop derives agree. *)
Definition same_derived (c d : Container) : Prop :=
  c_Name c = c_Name d ∧ c_Image c = c_Image d ∧ c_Command c = c_Command d ∧ c_Args c = c_Args d ∧ c_Ports c = c_Ports d ∧
  c_Env c = c_Env d ∧ c_VolumeMounts c = c_VolumeMounts d ∧ c_Resources c = c_Resources d ∧
  c_SecurityContext c = c_SecurityContext d ∧ c_ReadinessProbe c = c_ReadinessProbe d ∧ c_LivenessProbe c = c_LivenessProbe d ∧
  c_PostStart c = c_PostStart d.

Lemma convergeContainer_spec c d :
  c_Name c = c_Name d →
  same_derived (convergeContainer c d).1 d ∧ c_Defaulted (convergeContainer c d).1 = c_Defaulted c ∧
  ((convergeContainer c d).2 = false ↔ same_derived c d).
Proof.
  intros Hn. unfold convergeContainer, same_derived. cbv zeta. cbn [fst snd c_Name c_Image c_Command c_Args c_Ports c_Env c_VolumeMounts c_Resources
    c_SecurityContext c_ReadinessProbe c_LivenessProbe c_PostStart c_Defaulted].
  split; [by split_and!|]. split; [done|]. rewrite !orb_false_iff, !negb_false_iff, !bool_decide_eq_true. tauto.
Qed.

Lemma convergeContainer_id c d : same_derived c d → (convergeContainer c d).1 = c.
Proof. unfold same_derived, convergeContainer. destruct c, d; simpl. intros. naive_solver. Qed.

Lemma convergeEach_spec cur desired :
  c_Name <$> cur = c_Name <$> desired →
  Forall2 same_derived (convergeEach cur desired).1 desired ∧
  ((convergeEach cur desired).2 = false → (convergeEach cur desired).1 = cur).
Proof.
  revert desired. induction cur as [|c cur IH]; intros [|d desired]; [by repeat constructor|done|done|].
  intros [= Hn Hns]. cbn [convergeEach]. destruct (convergeContainer_spec c d Hn) as (Hs & _ & Hch). pose proof (convergeContainer_id c d) as Hid.
  destruct (IH _ Hns) as [Hall Hid']. destruct (convergeContainer c d) as [c' ch]. destruct (convergeEach cur desired) as [cur' ch'].
  simpl in *. split; [by constructor|]. intros [-> ->]%orb_false_iff. f_equal; [by apply Hid, Hch|by apply Hid'].
Qed.

Lemma same_derived_names cur desired : Forall2 same_derived cur desired → c_Name <$> cur = c_Name <$> desired.
Proof. induction 1 as [|c d cur desired [Hn _] _ IH]; [done|]. rewrite !fmap_cons. by f_equal. Qed.

Lemma convergeEach_same cur desired : Forall2 same_derived cur desired → convergeEach cur desired = (cur, false).
Proof.
  induction 1 as [|c d cur desired Hs _ IH]; [done|]. cbn [convergeEach].
  destruct (convergeContainer_spec c d (proj1 Hs)) as (_ & _ & Hch). pose proof (convergeContainer_id c d Hs) as Hid.
  destruct (convergeContainer c d) as [c' ch]. simpl in *. rewrite (proj2 Hch Hs), IH, Hid. done.
Qed.

Lemma same_derived_refl l : Forall2 same_derived l l.
Proof. induction l; constructor; [by repeat split|done]. Qed.

Lemma convergeContainerList_spec cur desired :
  Forall2 same_derived (convergeContainerList cur desired).1 desired ∧
  ((convergeContainerList cur desired).2 = false → (convergeContainerList cur desired).1 = cur).
Proof.
  unfold convergeContainerList. case_decide as Hn; [by apply convergeEach_spec|]. split; [apply same_derived_refl|done].
Qed.

Lemma convergeContainerList_same cur desired : Forall2 same_derived cur desired → convergeContainerList cur desired = (cur, false).
Proof. intros Hs. unfold convergeContainerList. rewrite decide_True by (by apply same_derived_names). by apply convergeEach_same. Qed.

(** ** Defaults

    The API server keeps a field that is set; into one that is unset it may put
    anything. *)

Definition filled {A} (unset sent stored : A) : Prop := stored = sent ∨ sent = unset.

Definition stored_port (sent stored : ContainerPort) : Prop :=
  cp_Name stored = cp_Name sent ∧ cp_Port stored = cp_Port sent ∧ filled "" (cp_Protocol sent) (cp_Protocol stored).

Definition stored_env (sent stored : EnvVar) : Prop :=
  env_Name stored = env_Name sent ∧
  match env_Source sent with
  | EnvFieldPath version path => ∃ version', env_Source stored = EnvFieldPath version' path ∧ filled "" version version'
  | source => env_Source stored = source
  end.

Definition stored_probe (sent stored : Probe) : Prop :=
  pr_Command stored = pr_Command sent ∧ filled 0%Z (pr_InitialDelay sent) (pr_InitialDelay stored) ∧
  filled 0%Z (pr_Period sent) (pr_Period stored) ∧ filled 0%Z (pr_Timeout sent) (pr_Timeout stored) ∧
  filled 0%Z (pr_Success sent) (pr_Success stored) ∧ filled 0%Z (pr_Failure sent) (pr_Failure stored).

Definition stored_volume (sent stored : Volume) : Prop :=
  vol_Name stored = vol_Name sent ∧
  match vol_Source sent with
  | VolSecret name items mode optional => ∃ mode', vol_Source stored = VolSecret name items mode' optional ∧ filled None mode mode'
  | VolConfigMap name mode => ∃ mode', vol_Source stored = VolConfigMap name mode' ∧ filled None mode mode'
  | VolEmptyDir => vol_Source stored = VolEmptyDir
  end.

(** A container; the fields that pgop never sets ([c_Defaulted]) are free. *)
Definition stored_container (sent stored : Container) : Prop :=
  c_Name stored = c_Name sent ∧ c_Image stored = c_Image sent ∧ c_Command stored = c_Command sent ∧ c_Args stored = c_Args sent ∧
  Forall2 stored_port (c_Ports sent) (c_Ports stored) ∧ Forall2 stored_env (c_Env sent) (c_Env stored) ∧
  c_VolumeMounts stored = c_VolumeMounts sent ∧ c_Resources stored = c_Resources sent ∧ c_SecurityContext stored = c_SecurityContext sent ∧
  option_Forall2 stored_probe (c_ReadinessProbe sent) (c_ReadinessProbe stored) ∧
  option_Forall2 stored_probe (c_LivenessProbe sent) (c_LivenessProbe stored) ∧ c_PostStart stored = c_PostStart sent.

(** The StatefulSet as the API server stores it; its status and the annotations of the
    template are free. *)
Definition stored_as (sent stored : PgStatefulSet) : Prop :=
  filled None (st_Replicas sent) (st_Replicas stored) ∧ filled None (st_Retention sent) (st_Retention stored) ∧
  st_Labels stored = st_Labels sent ∧ filled None (st_SecurityContext sent) (st_SecurityContext stored) ∧
  Forall2 stored_volume (st_Volumes sent) (st_Volumes stored) ∧
  Forall2 stored_container (st_InitContainers sent) (st_InitContainers stored) ∧
  Forall2 stored_container (st_Containers sent) (st_Containers stored).

(** No field that the API server defaults is left unset. *)
Definition explicit_port (p : ContainerPort) : bool := negb (bool_decide (cp_Protocol p = "")).
Definition explicit_env (e : EnvVar) : bool := match env_Source e with EnvFieldPath v _ => negb (bool_decide (v = "")) | _ => true end.
Definition explicit_probe (p : Probe) : bool :=
  negb (bool_decide (0%Z ∈ [pr_InitialDelay p; pr_Period p; pr_Timeout p; pr_Success p; pr_Failure p])).
Definition explicit_volume (v : Volume) : bool :=
  match vol_Source v with VolSecret _ _ mode _ | VolConfigMap _ mode => bool_decide (is_Some mode) | VolEmptyDir => true end.
Definition explicit_container (c : Container) : bool :=
  forallb explicit_port (c_Ports c) && forallb explicit_env (c_Env c) &&
  match c_ReadinessProbe c with Some p => explicit_probe p | None => true end &&
  match c_LivenessProbe c with Some p => explicit_probe p | None => true end.

Lemma filled_set {A} (unset sent stored : A) : filled unset sent stored → sent ≠ unset → stored = sent.
Proof. by intros [?|?]. Qed.

Lemma stored_list {A} (R : A → A → Prop) (explicit : A → bool) l k :
  (∀ x y, R x y → explicit x = true → y = x) → Forall2 R l k → forallb explicit l = true → k = l.
Proof.
  intros HR Hf. induction Hf as [|x y l k Hxy _ IH]; [done|]. simpl. intros [Hx Hl]%andb_true_iff. by rewrite (HR x y Hxy Hx), IH.
Qed.

Lemma stored_port_explicit p q : stored_port p q → explicit_port p = true → q = p.
Proof.
  intros (Hn & Hp & Hf) Hx%negb_true_iff%bool_decide_eq_false. apply filled_set in Hf; [|done]. destruct p, q. by simplify_eq/=.
Qed.

Lemma stored_env_explicit e f : stored_env e f → explicit_env e = true → f = e.
Proof.
  destruct e as [n src], f as [n' src']. unfold stored_env, explicit_env. simpl. intros [-> Hs] Hx.
  destruct src; [by subst..|]. destruct Hs as (v' & -> & Hf). apply negb_true_iff, bool_decide_eq_false in Hx.
  by apply filled_set in Hf as ->.
Qed.

Lemma stored_probe_explicit p q : stored_probe p q → explicit_probe p = true → q = p.
Proof.
  intros (Hc & H1 & H2 & H3 & H4 & H5) Hx%negb_true_iff%bool_decide_eq_false. rewrite !elem_of_cons, elem_of_nil in Hx.
  apply filled_set in H1, H2, H3, H4, H5; try (intros E; apply Hx; rewrite E; tauto). destruct p, q. by simplify_eq/=.
Qed.

Lemma stored_volume_explicit v u : stored_volume v u → explicit_volume v = true → u = v.
Proof.
  destruct v as [n src], u as [n' src']. unfold stored_volume, explicit_volume. simpl. intros [-> Hs] Hx.
  destruct src as [name items mode optional|name mode|]; [| |by subst]; destruct Hs as (m & -> & Hf);
    apply bool_decide_eq_true in Hx as [m' ->]; by apply filled_set in Hf as ->.
Qed.

Lemma stored_option_probe p q :
  option_Forall2 stored_probe p q → match p with Some p => explicit_probe p | None => true end = true → q = p.
Proof. destruct 1 as [p q Hpq|]; [|done]. intros Hx. by rewrite (stored_probe_explicit p q Hpq Hx). Qed.

(** A container without unset fields is stored as it was sent. *)
Lemma stored_container_explicit c k : stored_container c k → explicit_container c = true → same_derived k c.
Proof.
  intros (H1 & H2 & H3 & H4 & H5 & H6 & H7 & H8 & H9 & H10 & H11 & H12) Hx.
  apply andb_true_iff in Hx as [Hx Hl]. apply andb_true_iff in Hx as [Hx Hr]. apply andb_true_iff in Hx as [Hp He].
  unfold same_derived. split_and!; try done; [exact (stored_list _ _ _ _ stored_port_explicit H5 Hp)|exact (stored_list _ _ _ _ stored_env_explicit H6 He)|
    by apply stored_option_probe|by apply stored_option_probe].
Qed.

Lemma same_derived_explicit c d : same_derived c d → explicit_container d = true → explicit_container c = true.
Proof. unfold same_derived, explicit_container. intros (? & ? & ? & ? & -> & -> & ? & ? & ? & -> & -> & ?). done. Qed.

Lemma stored_containers_explicit sent desired stored :
  Forall2 same_derived sent desired → forallb explicit_container desired = true → Forall2 stored_container sent stored →
  Forall2 same_derived stored sent.
Proof.
  intros Hs. revert stored. induction Hs as [|c d sent desired Hcd _ IH]; intros stored Hx Hst; inversion Hst; subst; constructor.
  - apply stored_container_explicit; [done|]. apply andb_true_iff in Hx as [Hx _]. by eapply same_derived_explicit.
  - apply IH; [|done]. by apply andb_true_iff in Hx as [_ Hx].
Qed.

Lemma same_derived_trans l1 l2 l3 : Forall2 same_derived l1 l2 → Forall2 same_derived l2 l3 → Forall2 same_derived l1 l3.
Proof.
  intros H. revert l3. induction H as [|c d cur desired Hs _ IH]; intros l3 H3; inversion H3; subst; constructor; [|by apply IH].
  unfold same_derived in *. naive_solver congruence.
Qed.

(** ** Well-formedness *)

Section well_formed.
Context `{Quantities} `{UrlParse}.

(** Distinct volumes, containers and mount paths, and every mount of a declared volume
    (the data volume comes from the claim template). *)
Definition mounts_ok (t : PodTemplate) : Prop :=
  NoDup (dataVolumeName :: (vol_Name <$> pt_Volumes t)) ∧
  NoDup (c_Name <$> pt_InitContainers t ++ pt_Containers t) ∧
  Forall (λ c, NoDup (vm_MountPath <$> c_VolumeMounts c) ∧
               Forall (λ m, vm_Name m ∈ dataVolumeName :: (vol_Name <$> pt_Volumes t)) (c_VolumeMounts c))
    (pt_InitContainers t ++ pt_Containers t).

(** The data directory lies in the mount of the data volume. *)
Definition data_in_volume (c : Container) : Prop :=
  ∃ path rest, envVar "PGDATA" (path +:+ rest) ∈ c_Env c ∧
    {| vm_Name := dataVolumeName; vm_MountPath := path; vm_ReadOnly := false |} ∈ c_VolumeMounts c.

(** The options of the server's command line, [postgres -c option -c option ...];
    without arguments the image starts the server with none. *)
Fixpoint dash_c (args : list string) : option (list string) :=
  match args with
  | [] => Some []
  | flag :: opt :: args => if decide (flag = "-c") then cons opt <$> dash_c args else None
  | [_] => None
  end.
Definition server_options (args : list string) : option (list string) :=
  match args with [] => Some [] | command :: args => if decide (command = postgresBinary) then dash_c args else None end.

(** The managed pg_hba is mounted, and the one the server loads. *)
Definition hba_in_force (c : Container) (opts : list string) (t : PodTemplate) (cluster : PgCluster) : Prop :=
  hbaFileArg ∈ opts ∧ Forall (λ o, String.prefix "hba_file=" o = true → o = hbaFileArg) opts ∧
  hbaVolumeMount ∈ c_VolumeMounts c ∧ hbaVolume cluster ∈ pt_Volumes t.

(** No privileges: not root, no escalation, no capability. *)
Definition restricted : SecurityContext :=
  {| sc_RunAsUser := None; sc_RunAsNonRoot := Some true; sc_AllowPrivilegeEscalation := Some false; sc_ReadOnlyRootFilesystem := None;
     sc_CapDrop := ["ALL"]; sc_CapAdd := [] |}.
Definition unprivileged (c : Container) : Prop := c_SecurityContext c = Some restricted.

(** The one container that runs as root fixes the owner of the data volume, and
    mounts nothing else. *)
Definition volume_fixer (c : Container) : Prop :=
  c_Name c = volumePermissionsContainerName ∧ (vm_Name <$> c_VolumeMounts c) = [dataVolumeName].

Lemma layout_cases image layout :
  resolvePostgresLayout image = inl layout →
  layout = {| lay_MountPath := "/var/lib/postgresql/data"; lay_PGDATA := "/var/lib/postgresql/data" |} ∨
  ∃ rest, layout = {| lay_MountPath := "/var/lib/postgresql"; lay_PGDATA := "/var/lib/postgresql" +:+ String "/"%char rest |}.
Proof.
  assert (∀ m, layoutForMajor m = {| lay_MountPath := "/var/lib/postgresql/data"; lay_PGDATA := "/var/lib/postgresql/data" |} ∨
    ∃ rest, layoutForMajor m = {| lay_MountPath := "/var/lib/postgresql"; lay_PGDATA := "/var/lib/postgresql" +:+ String "/"%char rest |}) as Hm.
  { intros m. unfold layoutForMajor. case_bool_decide; [right; by eexists|by left]. }
  unfold resolvePostgresLayout. destruct (ci_PostgresMajorVersion image) as [m|]; [intros [= <-]; apply Hm|].
  cbv zeta. case_decide; [done|]. intros [= <-]. apply Hm.
Qed.

(** The template in each case: TLS absent, offered or required; parameters; a physical
    backup with or without a CA; replication; the two layouts. *)
Ltac template_cases Hl :=
  unfold desiredTemplate; destruct (resolvePostgresLayout _) as [layout|] eqn:Hl; [|done]; apply layout_cases in Hl;
  unfold postgresTLSVolumes, postgresConfigVolumes, applyReplicationTemplate, replicationVolumes, bootstrapInitContainer, tlsRequired,
    replicationServerArgs, postgresServerArgs;
  match goal with |- context [cf_TLS (pc_conf ?c)] => destruct (cf_TLS (pc_conf c)) as [tls|] eqn:Htls; [destruct (IsRequireTLS tls) eqn:Hreq|] end;
  match goal with |- context [decide (cf_Parameters (pc_conf ?c) = ∅)] => destruct (decide (cf_Parameters (pc_conf c) = ∅)) end;
  match goal with backup : option (Backup * BackupRefs * S3Destination) |- _ =>
    destruct backup as [[[b refs] s3]|];
    [unfold applyPgbackrestTemplate, s3CAVolume; destruct (postgresImageForBackups _ _) as [image|]; [|done];
     destruct (br_CA refs) as [[]|]|] end;
  match goal with replication : bool |- _ => destruct replication end; destruct Hl as [->|[rest ->]]; intros [= <-].

Lemma template_shape c secret replication backup t :
  desiredTemplate c secret replication backup = inl t → mounts_ok t.
Proof. template_cases Hl; unfold mounts_ok; simpl; split_and!; apply (bool_decide_unpack _); by vm_compute. Qed.

(** Every field of the template that the API server defaults is set. *)
Definition template_explicit_ok (t : PodTemplate) : Prop :=
  forallb explicit_container (pt_InitContainers t) = true ∧ forallb explicit_container (pt_Containers t) = true ∧
  forallb explicit_volume (pt_Volumes t) = true.

Lemma extend_explicit env mounts args c :
  explicit_container c = true → forallb explicit_env env = true → explicit_container (extend env mounts args c) = true.
Proof. unfold explicit_container. simpl. rewrite forallb_app. intros Hc He. by rewrite He, andb_true_r. Qed.

Lemma pgbackrestRepoEnv_explicit backup refs s3 : forallb explicit_env (pgbackrestRepoEnv backup refs s3) = true.
Proof. unfold pgbackrestRepoEnv. rewrite !forallb_app. by repeat case_match. Qed.

Lemma postgresVolumes_explicit conf :
  forallb explicit_volume ((postgresTLSVolumes conf).1 ++ (postgresConfigVolumes conf).1) = true.
Proof. unfold postgresTLSVolumes, postgresConfigVolumes. by repeat case_match. Qed.

Lemma bootstrap_explicit c secret main layout : explicit_container (bootstrapInitContainer c secret main layout) = true.
Proof. unfold bootstrapInitContainer. by destruct (cf_TLS _). Qed.

Lemma pgbackrest_explicit c backup refs s3 layout container volumes main sidecar vols :
  applyPgbackrestTemplate c backup refs s3 layout container volumes = inl (main, sidecar, vols) →
  explicit_container container = true → forallb explicit_volume volumes = true →
  explicit_container main = true ∧ explicit_container sidecar = true ∧ forallb explicit_volume vols = true.
Proof.
  unfold applyPgbackrestTemplate. destruct (postgresImageForBackups _ _) as [image|]; [|done]. cbv zeta.
  pose proof (pgbackrestRepoEnv_explicit backup refs s3) as Hrepo. set (repo := pgbackrestRepoEnv backup refs s3) in *. clearbody repo.
  assert (forallb explicit_volume (s3CAVolume refs).1 = true) as Hca by (unfold s3CAVolume; by repeat case_match).
  destruct (s3CAVolume refs) as [caVolumes caMounts]. intros [= <- <- <-] Hc Hv. split_and!.
  - change (explicit_container (set_image ?i ?x)) with (explicit_container x). apply extend_explicit; [done|].
    by rewrite forallb_app, Hrepo.
  - unfold explicit_container. cbn [c_Ports c_Env c_ReadinessProbe c_LivenessProbe]. by rewrite !forallb_app, Hrepo.
  - rewrite forallb_app, Hv. exact Hca.
Qed.

Lemma replication_explicit c secret layout container volumes main inits vols :
  applyReplicationTemplate c secret layout container volumes = (main, inits, vols) →
  explicit_container container = true → forallb explicit_volume volumes = true →
  explicit_container main = true ∧ forallb explicit_container inits = true ∧ forallb explicit_volume vols = true.
Proof.
  unfold applyReplicationTemplate.
  assert (forallb explicit_volume (replicationVolumes (pc_conf c)).1 = true) as Hr by (unfold replicationVolumes; by case_match).
  destruct (replicationVolumes _) as [rv rm]. intros [= <- <- <-] Hc Hv. split_and!.
  - by apply extend_explicit.
  - cbn [forallb]. by rewrite bootstrap_explicit.
  - rewrite forallb_app, Hv. exact Hr.
Qed.

Lemma template_explicit c secret replication backup t :
  desiredTemplate c secret replication backup = inl t → template_explicit_ok t.
Proof.
  unfold desiredTemplate, template_explicit_ok. destruct (resolvePostgresLayout _) as [layout|]; [|done].
  pose proof (postgresVolumes_explicit (pc_conf c)) as Hv.
  destruct (postgresTLSVolumes _) as [tv tm], (postgresConfigVolumes _) as [cv cm]. cbv zeta. cbn [fst] in Hv.
  set (main := extend _ _ _ _). assert (explicit_container main = true) as Hm by done. clearbody main.
  assert (∀ main sidecars vols, explicit_container main = true → forallb explicit_container sidecars = true → forallb explicit_volume vols = true →
    (let '(container, inits, volumes) :=
       if replication then applyReplicationTemplate c secret layout main vols else (main, [], vols) in
     let inits := if NeedsVolumeFix layout
                  then buildVolumePermissionsInitContainer (c_Image container) layout (pc_Resources c) :: inits else inits in
     inl {| pt_Containers := container :: sidecars; pt_InitContainers := inits; pt_Volumes := volumes |}) = inl t :> result PodTemplate →
    template_explicit_ok t) as Hrest.
  { intros main' sidecars vols Hm' Hs Hvols.
    destruct (if replication then _ else _) as [[main2 inits] vols2] eqn:Er.
    assert (explicit_container main2 = true ∧ forallb explicit_container inits = true ∧ forallb explicit_volume vols2 = true) as (H1 & H2 & H3).
    { destruct replication; [by eapply replication_explicit|by simplify_eq]. }
    intros [= <-]. unfold template_explicit_ok. cbn [pt_Containers pt_InitContainers pt_Volumes forallb]. rewrite H1.
    split_and!; [|done|done]. by destruct (NeedsVolumeFix layout). }
  destruct backup as [[[b refs] s3]|]; [|by apply Hrest].
  destruct (applyPgbackrestTemplate _ _ _ _ _ _ _) as [[[main' sidecar] vols]|] eqn:Eb; [|done].
  apply pgbackrest_explicit in Eb as (H1 & H2 & H3); [|done|done]. apply Hrest; [done| |done]. cbn [forallb]. by rewrite H2.
Qed.

Definition main_ok (c : PodCluster) (replication : bool) (t : PodTemplate) : Prop :=
  ∃ main sidecars opts, pt_Containers t = main :: sidecars ∧ c_Name main = AppNamePostgresql ∧ data_in_volume main ∧
    server_options (c_Args main) = Some opts ∧
    (tlsRequired (cf_TLS (pc_conf c)) || replication = true → hba_in_force main opts t (pgc c)) ∧
    Forall (λ x, c_Image x = c_Image main) (sidecars ++ pt_InitContainers t).

Definition privileges_ok (t : PodTemplate) : Prop :=
  Forall unprivileged (pt_Containers t) ∧ Forall (λ i, unprivileged i ∨ volume_fixer i) (pt_InitContainers t).

Ltac in_list := solve [repeat first [apply list_elem_of_here|apply list_elem_of_further]].

Ltac only_hba := repeat (apply Forall_cons; split; [intros E; first [reflexivity|discriminate E]|]); apply Forall_nil_2.

Lemma template_main c secret replication backup t :
  desiredTemplate c secret replication backup = inl t → main_ok c replication t ∧ privileges_ok t.
Proof.
  template_cases Hl; (split; [unfold main_ok, hba_in_force, data_in_volume, tlsRequired; rewrite Htls, ?Hreq; try destruct (hasParameter _ _); do 3 eexists|
    split; repeat constructor; first [left; reflexivity|right; split; reflexivity]]).
  all: split_and!; [reflexivity|reflexivity| |reflexivity| |repeat constructor]; cbn -[envVar hbaFileArg].
  all: try (intros E; first [discriminate E|clear E; split_and!; [in_list|only_hba|in_list|in_list] ]).
  all: first [exists "/var/lib/postgresql/data", ""; split; in_list|exists "/var/lib/postgresql", (String "/"%char rest); split; in_list].
Qed.

(** C37: every pod template that pgop derives from a Cluster, with any combination of
    TLS, parameters, replication and physical backups, names its volumes, containers and
    mount paths apart, mounts only volumes it declares (or the claimed data volume),
    keeps the data directory inside the mount of the data volume, runs one image in all
    containers, and starts the server with a command line of -c options. With
    spec.tls.requireTLS or replication the managed pg_hba is mounted, and an option of
    the server names it as the only hba_file. No container has privileges but the init
    container that fixes the owner of the data volume, which mounts only that volume. *)
Theorem template_well_formed c secret replication backup t :
  desiredTemplate c secret replication backup = inl t → mounts_ok t ∧ main_ok c replication t ∧ privileges_ok t.
Proof. intros Ht. split; [by eapply template_shape|by eapply template_main]. Qed.
(** C38: convergence of the StatefulSet onto a template that pgop derives. The converged
    object has the desired replicas, retention policy, labels, volumes and containers in
    every field that pgop derives, and keeps the annotations of the pod template (the
    restart markers). When nothing differs it is the object that was read, so no write
    is due. Once stored, a second convergence finds nothing to write, whatever the API
    server puts into the fields that were left unset: the ones pgop never sets, and the
    defaulted ones inside those it derives (the protocol of a port, the API version of
    a field reference, the numbers of a probe, the mode of a volume's files). So
    reconciling an unchanged Cluster does not roll its pods. *)
Theorem converge_settles c secret replication backup t sts replicas labels retention :
  desiredTemplate c secret replication backup = inl t →
  let '(sts', changed) := convergedStatefulSet sts replicas labels t retention in
  st_Replicas sts' = Some replicas ∧ st_Retention sts' = Some retention ∧ st_Labels sts' = labels ∧ st_Volumes sts' = pt_Volumes t ∧
  Forall2 same_derived (st_InitContainers sts') (pt_InitContainers t) ∧ Forall2 same_derived (st_Containers sts') (pt_Containers t) ∧
  st_Annotations sts' = st_Annotations sts ∧
  (changed = false → sts' = sts) ∧
  ∀ stored, stored_as sts' stored → (convergedStatefulSet stored replicas labels t retention).2 = false.
Proof.
  intros Ht. apply template_explicit in Ht as (Hxi & Hxc & Hxv). unfold convergedStatefulSet.
  destruct (convergeContainerList_spec (st_InitContainers sts) (pt_InitContainers t)) as [Hi Hi'].
  destruct (convergeContainerList_spec (st_Containers sts) (pt_Containers t)) as [Hc Hc'].
  destruct (convergeContainerList (st_InitContainers sts) (pt_InitContainers t)) as [inits ch1].
  destruct (convergeContainerList (st_Containers sts) (pt_Containers t)) as [containers ch7]. simpl in *.
  split_and!; try done.
  - rewrite !orb_false_iff, !negb_false_iff, !bool_decide_eq_true. intros ((((((E1 & E2) & E3) & E4) & E5) & E6) & E7).
    rewrite (Hi' E1), (Hc' E7), <-E2, <-E3, <-E4, <-E5, <-E6. by destruct sts.
  - intros stored (S1 & S2 & S3 & S4 & S5 & S6 & S7). simpl in *. apply filled_set in S1, S2, S4; [|done..].
    apply (stored_list _ _ _ _ stored_volume_explicit) in S5; [|done].
    apply (stored_containers_explicit _ _ _ Hi Hxi) in S6. apply (stored_containers_explicit _ _ _ Hc Hxc) in S7.
    rewrite (convergeContainerList_same _ _ (same_derived_trans _ _ _ S6 Hi)).
    rewrite (convergeContainerList_same _ _ (same_derived_trans _ _ _ S7 Hc)). simpl.
    rewrite S1, S2, S3, S4, S5. by rewrite !bool_decide_true by done.
Qed.
End well_formed.

Module Toy.
#[local] Instance toy_quantities : Quantities := {| ParseQuantity := λ _, Some 1073741824 |}.
#[local] Instance toy_urls : UrlParse := {| url_Parse := λ _, None |}.

Definition cluster : PodCluster :=
  {| pc_conf :=
       {| cf_cluster := {| k_Name := "pg"; k_Namespace := "db"; k_UID := "u"; k_Port := 0; k_TLS := None; k_RolePolicy := None;
                           k_Ready := true; k_SecretName := ""; k_TLSReady := false; k_TLSSecretHash := "" |};
          cf_repl := {| cl_Name := "pg"; cl_Namespace := "db"; cl_UID := "u"; cl_Annotations := ∅; cl_Replicas := 2 |};
          cf_image := {| ci_Name := "pg"; ci_Image := "postgres:17"; ci_PostgresMajorVersion := None |};
          cf_Generation := 1; cf_Parameters := {[ "max_connections" := "200" ]};
          cf_TLS := Some {| stls_MinProtocolVersion := ""; stls_RequireTLS := None |} |};
     pc_StorageSize := ""; pc_StorageClass := None; pc_RetainDelete := false;
     pc_Resources := {| res_Limits := ∅; res_Requests := ∅ |} |}.

Definition template : PodTemplate :=
  match desiredTemplate cluster "pg-credentials" true None with
  | inl t => t
  | inr _ => {| pt_Containers := []; pt_InitContainers := []; pt_Volumes := [] |}
  end.

Lemma template_well_formed_witness :
  desiredTemplate cluster "pg-credentials" true None = inl template ∧
  (c_Name <$> pt_InitContainers template) = ["volume-permissions"; "pgop-bootstrap"] ∧ mounts_ok template.
Proof.
  assert (desiredTemplate cluster "pg-credentials" true None = inl template) as Ht by (vm_compute; reflexivity).
  split; [exact Ht|]. split; [vm_compute; reflexivity|]. exact (proj1 (template_well_formed _ _ _ _ _ Ht)).
Defined.

(** The StatefulSet as the API server stores it: it fills in what pgop does not set. *)
Definition old : PgStatefulSet :=
  {| st_Replicas := Some 1%Z; st_Retention := None; st_Labels := ∅; st_Annotations := {[ "restartedAt" := "1" ]}; st_SecurityContext := None;
     st_InitContainers := []; st_Containers := []; st_Volumes := []; st_Generation := 1; st_ObservedGeneration := 1;
     st_CurrentRevision := "a"; st_UpdateRevision := "a"; st_ReadyReplicas := 1 |}.
Definition retention : Retention := {| rt_DeleteWhenDeleted := false; rt_DeleteWhenScaled := false |}.
Definition settled : PgStatefulSet := (convergedStatefulSet old 2 ∅ template retention).1.
Definition with_defaults (c : Container) : Container :=
  {| c_Name := c_Name c; c_Image := c_Image c; c_Command := c_Command c; c_Args := c_Args c; c_Ports := c_Ports c; c_Env := c_Env c;
     c_VolumeMounts := c_VolumeMounts c; c_Resources := c_Resources c; c_SecurityContext := c_SecurityContext c;
     c_ReadinessProbe := c_ReadinessProbe c; c_LivenessProbe := c_LivenessProbe c; c_PostStart := c_PostStart c;
     c_Defaulted := "imagePullPolicy: IfNotPresent" |}.
Definition stored : PgStatefulSet :=
  {| st_Replicas := st_Replicas settled; st_Retention := st_Retention settled; st_Labels := st_Labels settled;
     st_Annotations := st_Annotations settled; st_SecurityContext := st_SecurityContext settled;
     st_InitContainers := with_defaults <$> st_InitContainers settled; st_Containers := with_defaults <$> st_Containers settled;
     st_Volumes := st_Volumes settled; st_Generation := 2; st_ObservedGeneration := 1;
     st_CurrentRevision := "a"; st_UpdateRevision := "b"; st_ReadyReplicas := 1 |}.

Lemma stored_same {A} (R : A → A → Prop) (f : A → A) l : (∀ x, R x (f x)) → Forall2 R l (f <$> l).
Proof. intros HR. induction l; [constructor|]. rewrite fmap_cons. by constructor. Qed.

Lemma stored_refl {A} (R : A → A → Prop) l : (∀ x, R x x) → Forall2 R l l.
Proof. intros HR. induction l; by constructor. Qed.

Lemma stored_ok : stored_as settled stored.
Proof.
  assert (∀ p, stored_probe p p) as Hp by (intros p; split_and!; by first [done|left]).
  assert (∀ c, stored_container c (with_defaults c)) as Hc.
  { intros c. split_and!; try done.
    - apply stored_refl. intros p. split_and!; [done|done|by left].
    - apply stored_refl. intros [n []]; split; [done|done|done|done|done|]. eexists. split; [done|by left].
    - destruct c as [? ? ? ? ? ? ? ? ? [p|] ? ? ?]; simpl; by constructor.
    - destruct c as [? ? ? ? ? ? ? ? ? ? [p|] ? ?]; simpl; by constructor. }
  split_and!; [by left|by left|done|by left| |by apply stored_same|by apply stored_same].
  apply stored_refl.
  intros [n []]; (split; [done|]); [eexists; split; [done|by left]..|done].
Qed.

Lemma converge_settles_witness :
  (convergedStatefulSet old 2 ∅ template retention).2 = true ∧ (convergedStatefulSet stored 2 ∅ template retention).2 = false.
Proof.
  split; [vm_compute; reflexivity|].
  assert (desiredTemplate cluster "pg-credentials" true None = inl template) as Ht by (vm_compute; reflexivity).
  exact (proj2 (proj2 (proj2 (proj2 (proj2 (proj2 (proj2 (proj2 (converge_settles cluster "pg-credentials" true None template old 2 ∅ retention Ht)))))))) stored stored_ok).
Defined.
End Toy.
