(* ===== verification/Tls.v ===== *)
(** * Server certificates (tls.go, tls_selfmanaged.go, pgbackrest_tls.go,
    tls_certmanager.go under src/internal/controller)

    The validation of a TLS Secret, the self-managed CA with its two-step rotation, the
    certificates of pgBackRest, and the cert-manager Certificate. Go's crypto packages
    are the class [X509] and the operations [certOps]; times are nanoseconds. *)

From Stdlib Require Import Ascii.
From S2P Require Import Prelude GoStrings GoStrconv GoUrl RoleSql ApiTypes RolePolicy Password Connection Pgbackrest Replication.
From S2P Require Import ReplicationReconcile RoleReconcile PgConfig Restore BackupRun ArchiveHealth PodTemplate.

Open Scope Z_scope.

(** ** Certificates, keys and PEM *)

Inductive ExtKeyUsage := ServerAuth | ClientAuth | OtherUsage.
#[export] Instance ExtKeyUsage_eq_dec : EqDecision ExtKeyUsage. Proof. solve_decision. Defined.

(** [x509.Certificate]: the fields read here. *)
Record Cert := {
  crt_Raw : string;
  crt_PublicKey : string;
  crt_CommonName : string;
  crt_DNSNames : list string;
  crt_NotBefore : Z;
  crt_NotAfter : Z;
  crt_IsCA : bool;
  crt_ExtKeyUsage : list ExtKeyUsage }.

(** A [crypto.Signer]. *)
Record Key := { key_Public : string; key_Private : string }.

Record PemBlock := { blk_Type : string; blk_Headers : list (string * string); blk_Bytes : string }.

Record VerifyOptions := {
  vo_DNSName : string;
  vo_Roots : list Cert;
  vo_Intermediates : list Cert;
  vo_CurrentTime : Z;
  vo_KeyUsages : list ExtKeyUsage }.

(** A template of [x509.CreateCertificate]. *)
Record CertTemplate := {
  tm_SerialNumber : Z;
  tm_CommonName : string;
  tm_Organization : list string;
  tm_DNSNames : list string;
  tm_NotBefore : Z;
  tm_NotAfter : Z;
  tm_IsCA : bool;
  tm_MaxPathLenZero : bool;
  tm_KeyUsage : list string;
  tm_ExtKeyUsage : list ExtKeyUsage }.

#[export] Instance Cert_eq_dec : EqDecision Cert. Proof. solve_decision. Defined.
#[export] Instance Key_eq_dec : EqDecision Key. Proof. solve_decision. Defined.

(** Go's crypto/x509, crypto/tls and encoding/pem. [ParsePKCS8PrivateKey]: a key that
    can sign. [X509KeyPair]: the first certificate and the others, in DER. *)
Class X509 := {
  ParseCertificate : string → result Cert;
  ParsePKCS8PrivateKey : string → result Key;
  MarshalPKCS8PrivateKey : Key → result string;
  pem_Decode : string → option (PemBlock * string);
  pem_EncodeToMemory : PemBlock → string;
  X509KeyPair : string → string → result (string * list string);
  Verify : Cert → VerifyOptions → error }.

(** What draws on randomness. [CreateCertificate]: the template, the parent ([None]:
    the template itself), the subject's key and the signing key. *)
Record certOps (W : Type) := {
  ce_GenerateKey : M W (result Key);
  ce_RandomSerial : M W (result Z);
  ce_CreateCertificate : CertTemplate → option Cert → Key → Key → M W (result string) }.
Arguments ce_GenerateKey {W}. Arguments ce_RandomSerial {W}. Arguments ce_CreateCertificate {W}.

Definition caSecretKeyNextCert : string := "next.crt".
Definition caSecretKeyNextKey : string := "next.key".
Definition pemTypeCertificate : string := "CERTIFICATE".

Record selfManagedCertPolicy := {
  cp_CAValidity : Z;
  cp_CAPrepareBefore : Z;
  cp_CASwitchBefore : Z;
  cp_ServerValidity : Z;
  cp_ServerRenewBefore : Z }.

Definition day : Z := 24 * hour_ns.

Definition defaultSelfManagedCertPolicy : selfManagedCertPolicy :=
  {| cp_CAValidity := 3650 * day; cp_CAPrepareBefore := 3 * 365 * day; cp_CASwitchBefore := 365 * day;
     cp_ServerValidity := 90 * day; cp_ServerRenewBefore := 30 * day |}.

Definition pgbackrestTLSKeyCAKey : string := "ca.key".
Definition pgbackrestTLSKeyClientCert : string := "client.crt".
Definition pgbackrestTLSKeyClientKey : string := "client.key".
Definition pgbackrestCAValidity : Z := 3650 * day.
Definition pgbackrestCARenewBefore : Z := 365 * day.
Definition pgbackrestLeafValidity : Z := 365 * day.
Definition pgbackrestLeafRenewBefor : Z := 60 * day.

Definition clockSkew : Z := 5 * minute_ns.

Definition selfManagedCASecretName (c : PgCluster) : string := k_Name c +:+ "-ca".

Definition serverDNSNames (c : PgCluster) (replicas : Z) : list string :=
  [clusterHost c; k_Name c +:+ "." +:+ k_Namespace c +:+ ".svc"; k_Name c +:+ "." +:+ k_Namespace c; k_Name c]
  ++ if bool_decide (1 < replicas) then
       let ro := readOnlyServiceName c in
       [readOnlyHost c; ro +:+ "." +:+ k_Namespace c +:+ ".svc"; ro +:+ "." +:+ k_Namespace c; ro]
     else [].

Record keyPair := { kp_Cert : Cert; kp_Key : Key }.
#[export] Instance keyPair_eq_dec : EqDecision keyPair. Proof. solve_decision. Defined.

(** [s[:64]]. *)
Definition commonName (s : string) : string := if bool_decide (64 < Z.of_nat (String.length s)) then String.substring 0 64 s else s.

Section certificates.
Context `{X509}.

Definition cert_block (c : Cert) : PemBlock := {| blk_Type := pemTypeCertificate; blk_Headers := []; blk_Bytes := crt_Raw c |}.
Definition certPEM (kp : keyPair) : string := pem_EncodeToMemory (cert_block (kp_Cert kp)).
Definition keyPEM (kp : keyPair) : result string :=
  match MarshalPKCS8PrivateKey (kp_Key kp) with
  | inr e => inr e
  | inl der => inl (pem_EncodeToMemory {| blk_Type := "PRIVATE KEY"; blk_Headers := []; blk_Bytes := der |})
  end.

Definition parseKeyPair (certPEM keyPEM : string) : option keyPair :=
  match pem_Decode certPEM, pem_Decode keyPEM with
  | Some (cb, _), Some (kb, _) =>
      match ParseCertificate (blk_Bytes cb) with
      | inr _ => None
      | inl cert =>
          match ParsePKCS8PrivateKey (blk_Bytes kb) with
          | inr _ => None
          | inl signer =>
              if decide (crt_PublicKey cert = key_Public signer) then Some {| kp_Cert := cert; kp_Key := signer |} else None
          end
      end
  | _, _ => None
  end.

(** The blocks of a PEM text. Decoding a block shortens the text, so its length is
    enough fuel. *)
Fixpoint pem_blocks_go (fuel : nat) (s : string) : list PemBlock :=
  match fuel with
  | O => []
  | S fuel => match pem_Decode s with None => [] | Some (b, rest) => b :: pem_blocks_go fuel rest end
  end.
Definition pem_blocks (s : string) : list PemBlock := pem_blocks_go (String.length s) s.

Definition parseCertBundle (bundle : string) : list Cert :=
  omap (λ b, if decide (blk_Type b = pemTypeCertificate) then
               match ParseCertificate (blk_Bytes b) with inl c => Some c | inr _ => None end
             else None) (pem_blocks bundle).

(** [CertPool.AppendCertsFromPEM]: the certificates it adds; its result is whether
    there are any. *)
Definition AppendCertsFromPEM (bundle : string) : list Cert :=
  omap (λ b, if decide (blk_Type b = pemTypeCertificate ∧ blk_Headers b = []) then
               match ParseCertificate (blk_Bytes b) with inl c => Some c | inr _ => None end
             else None) (pem_blocks bundle).

(** ** The TLS Secret of the server *)

Record tlsMaterial := { mat_CAPEM : string; mat_Leaf : Cert; mat_Hash : string }.

Definition data_at (data : gmap string string) (k : string) : string := default "" (data !! k).

Definition parseTLSMaterial `{PasswordDigest} (data : gmap string string) (host : string) (now : Z) : result tlsMaterial :=
  match find (λ k, bool_decide (data_at data k = "")) [TLSSecretKeyCert; TLSSecretKeyKey; TLSSecretKeyCA] with
  | Some k => inr (Errorf "missing or empty key %q" [k])
  | None =>
      let certPEM := data_at data TLSSecretKeyCert in
      let caPEM := data_at data TLSSecretKeyCA in
      match X509KeyPair certPEM (data_at data TLSSecretKeyKey) with
      | inr e => inr (Wrapf "%s/%s are not a valid key pair: %w" [TLSSecretKeyCert; TLSSecretKeyKey] e)
      | inl (first, others) =>
          match ParseCertificate first with
          | inr e => inr (Wrapf "failed to parse %s: %w" [TLSSecretKeyCert] e)
          | inl leaf =>
              let roots := AppendCertsFromPEM caPEM in
              if decide (roots = []) then inr (Errorf "%s contains no PEM certificates" [TLSSecretKeyCA])
              else
                match Verify leaf {| vo_DNSName := host; vo_Roots := roots;
                                     vo_Intermediates := omap (λ der, match ParseCertificate der with inl c => Some c | inr _ => None end) others;
                                     vo_CurrentTime := now; vo_KeyUsages := [ServerAuth] |} with
                | Some e => inr (Wrapf "certificate is not usable for %s with sslmode=verify-full: %w" [host] e)
                | None => inl {| mat_CAPEM := caPEM; mat_Leaf := leaf; mat_Hash := sha256_hex (certPEM +:+ nul +:+ caPEM) |}
                end
          end
      end
  end.

Definition certVerifies (der caPEM host : string) (now : Z) : bool :=
  match ParseCertificate der with
  | inr _ => false
  | inl cert =>
      let roots := AppendCertsFromPEM caPEM in
      if decide (roots = []) then false
      else bool_decide (Verify cert {| vo_DNSName := host; vo_Roots := roots; vo_Intermediates := []; vo_CurrentTime := now;
                                       vo_KeyUsages := [ServerAuth] |} = None)
  end.

(** ** Issuing *)

Section issue.
Context {W : Type} (ce : certOps W).

(** The signed certificate, read back. *)
Definition createCertificate (tmpl : CertTemplate) (parent : option Cert) (key signer : Key) : M W (result keyPair) :=
  der ← ce_CreateCertificate ce tmpl parent key signer;
  mret (match der with
        | inr e => inr e
        | inl der => match ParseCertificate der with
                     | inr e => inr e
                     | inl cert => inl {| kp_Cert := cert; kp_Key := key |}
                     end
        end).

Definition generateCA (cn : string) (now validity : Z) : M W (result keyPair) :=
  key ← ce_GenerateKey ce;
  match key with
  | inr e => mret (inr e)
  | inl key =>
      serial ← ce_RandomSerial ce;
      match serial with
      | inr e => mret (inr e)
      | inl serial =>
          createCertificate
            {| tm_SerialNumber := serial; tm_CommonName := cn; tm_Organization := ["pgop"]; tm_DNSNames := [];
               tm_NotBefore := now - clockSkew; tm_NotAfter := now + validity; tm_IsCA := true; tm_MaxPathLenZero := true;
               tm_KeyUsage := ["CertSign"; "CRLSign"; "DigitalSignature"]; tm_ExtKeyUsage := [] |} None key key
      end
  end.

Definition issueLeafCert (ca : keyPair) (cn : string) (dnsNames : list string) (usage : ExtKeyUsage) (now validity : Z)
    : M W (result keyPair) :=
  key ← ce_GenerateKey ce;
  match key with
  | inr e => mret (inr e)
  | inl key =>
      serial ← ce_RandomSerial ce;
      match serial with
      | inr e => mret (inr e)
      | inl serial =>
          let notAfter := if bool_decide (crt_NotAfter (kp_Cert ca) < now + validity) then crt_NotAfter (kp_Cert ca)
                          else now + validity in
          createCertificate
            {| tm_SerialNumber := serial; tm_CommonName := cn; tm_Organization := []; tm_DNSNames := dnsNames;
               tm_NotBefore := now - clockSkew; tm_NotAfter := notAfter; tm_IsCA := false; tm_MaxPathLenZero := false;
               tm_KeyUsage := ["DigitalSignature"]; tm_ExtKeyUsage := [usage] |} (Some (kp_Cert ca)) key (kp_Key ca)
      end
  end.

Definition issueServerCert (ca : keyPair) (dnsNames : list string) (now validity : Z) : M W (result keyPair) :=
  issueLeafCert ca (commonName (hd "" dnsNames)) dnsNames ServerAuth now validity.

(** ** The self-managed CA *)

Record selfManagedTLSPlan := { pl_CA : gmap string string; pl_Server : gmap string string; pl_NextCheck : Z }.

(** [now.Before(t)]. *)
Definition before (now t : Z) : bool := bool_decide (now < t).

(** The prepared CA, if it can still be used. *)
Definition preparedCA (caData : gmap string string) (now : Z) : option keyPair :=
  match parseKeyPair (data_at caData caSecretKeyNextCert) (data_at caData caSecretKeyNextKey) with
  | Some next => if negb (crt_IsCA (kp_Cert next)) || negb (before now (crt_NotAfter (kp_Cert next))) then None else Some next
  | None => None
  end.

(** Whether the active CA is missing, invalid or due for the switch. *)
Definition switchDue (active : option keyPair) (now : Z) (p : selfManagedCertPolicy) : bool :=
  match active with
  | None => true
  | Some a => negb (crt_IsCA (kp_Cert a)) || negb (before now (crt_NotAfter (kp_Cert a) - cp_CASwitchBefore p))
  end.

Definition newCA (dnsName : string) (now : Z) (p : selfManagedCertPolicy) : M W (result keyPair) :=
  r ← generateCA (commonName (dnsName +:+ " CA")) now (cp_CAValidity p);
  mret (match r with inr e => inr (Wrapf "failed to generate CA: %w" [] e) | inl ca => inl ca end).

(** The active CA and the one prepared for the next rotation. *)
Definition chooseActive (caData : gmap string string) (dnsName : string) (now : Z) (p : selfManagedCertPolicy)
    : M W (result (keyPair * option keyPair)) :=
  let active := parseKeyPair (data_at caData TLSSecretKeyCert) (data_at caData TLSSecretKeyKey) in
  let next := preparedCA caData now in
  match switchDue active now p, active, next with
  | false, Some a, _ => mret (inl (a, next))
  | _, _, Some n => mret (inl (n, None))
  | _, _, None =>
      r ← newCA dnsName now p;
      mret (match r with inr e => inr e | inl a => inl (a, None) end)
  end.

Definition prepareNext (active : keyPair) (next : option keyPair) (dnsName : string) (now : Z) (p : selfManagedCertPolicy)
    : M W (result (option keyPair)) :=
  match next with
  | Some n => mret (inl (Some n))
  | None =>
      if negb (before now (crt_NotAfter (kp_Cert active) - cp_CAPrepareBefore p)) then
        r ← newCA dnsName now p;
        mret (match r with inr e => inr e | inl n => inl (Some n) end)
      else mret (inl None)
  end.

(** [b.Equal(c)]. *)
Definition cert_in (l : list Cert) (c : Cert) : bool := existsb (λ b, bool_decide (crt_Raw b = crt_Raw c)) l.

Definition addTrusted (now : Z) (bundle : list Cert) (c : Cert) : list Cert :=
  if negb (crt_IsCA c) || negb (before now (crt_NotAfter c)) || cert_in bundle c then bundle else bundle ++ [c].

(** Active, next, then every other CA of the previous bundle that is still valid. *)
Definition trustBundle (active : keyPair) (next : option keyPair) (previous : string) (now : Z) : list Cert :=
  foldl (addTrusted now) (kp_Cert active :: match next with Some n => [kp_Cert n] | None => [] end) (parseCertBundle previous).

Definition encodeBundle (l : list Cert) : string := foldr (λ c s, pem_EncodeToMemory (cert_block c) +:+ s) "" l.

Definition caSecretData (active : keyPair) (next : option keyPair) (bundle : list Cert) : result (gmap string string) :=
  match keyPEM active with
  | inr e => inr e
  | inl activeKeyPEM =>
      let ca := <[TLSSecretKeyCert := certPEM active]> (<[TLSSecretKeyKey := activeKeyPEM]>
                  (<[TLSSecretKeyCA := encodeBundle bundle]> ∅)) in
      match next with
      | None => inl ca
      | Some n =>
          match keyPEM n with
          | inr e => inr e
          | inl nextKeyPEM => inl (<[caSecretKeyNextCert := certPEM n]> (<[caSecretKeyNextKey := nextKeyPEM]> ca))
          end
      end
  end.

Definition serverCertCurrent (leaf : option keyPair) (ca : keyPair) (dnsNames : list string) (now : Z) (p : selfManagedCertPolicy)
    : bool :=
  match leaf with
  | None => false
  | Some leaf =>
      if negb (bool_decide (crt_DNSNames (kp_Cert leaf) = dnsNames)) then false
      else if negb (before now (crt_NotAfter (kp_Cert leaf) - cp_ServerRenewBefore p)) then false
      else bool_decide (Verify (kp_Cert leaf)
             {| vo_DNSName := hd "" dnsNames; vo_Roots := [kp_Cert ca]; vo_Intermediates := []; vo_CurrentTime := now;
                vo_KeyUsages := [ServerAuth] |} = None)
  end.

(** The server certificate and the data of its Secret but for the bundle. *)
Definition planServer (active : keyPair) (serverData : gmap string string) (dnsNames : list string) (now : Z)
    (p : selfManagedCertPolicy) : M W (result (keyPair * gmap string string)) :=
  let leaf := parseKeyPair (data_at serverData TLSSecretKeyCert) (data_at serverData TLSSecretKeyKey) in
  match leaf, serverCertCurrent leaf active dnsNames now p with
  | Some leaf, true => mret (inl (leaf, serverData))
  | _, _ =>
      r ← issueServerCert active dnsNames now (cp_ServerValidity p);
      mret (match r with
            | inr e => inr (Wrapf "failed to issue server certificate: %w" [] e)
            | inl leaf =>
                match keyPEM leaf with
                | inr e => inr e
                | inl k => inl (leaf, <[TLSSecretKeyCert := certPEM leaf]> (<[TLSSecretKeyKey := k]> ∅))
                end
            end)
  end.

Definition nextCheck (leaf active : keyPair) (next : option keyPair) (bundle : list Cert) (p : selfManagedCertPolicy) : Z :=
  foldl Z.min (crt_NotAfter (kp_Cert leaf) - cp_ServerRenewBefore p)
    ((crt_NotAfter (kp_Cert active) - cp_CASwitchBefore p)
     :: match next with None => [crt_NotAfter (kp_Cert active) - cp_CAPrepareBefore p] | Some _ => [] end
     ++ (crt_NotAfter <$> tail bundle)).

Definition planSelfManagedTLS (caData serverData : gmap string string) (dnsNames : list string) (now : Z)
    (p : selfManagedCertPolicy) : M W (result selfManagedTLSPlan) :=
  match dnsNames with
  | [] => mret (inr (Errorf "no DNS names for the server certificate" []))
  | dnsName :: _ =>
      r ← chooseActive caData dnsName now p;
      match r with
      | inr e => mret (inr e)
      | inl (active, next) =>
          r ← prepareNext active next dnsName now p;
          match r with
          | inr e => mret (inr e)
          | inl next =>
              let bundle := trustBundle active next (data_at caData TLSSecretKeyCA) now in
              match caSecretData active next bundle with
              | inr e => mret (inr e)
              | inl ca =>
                  r ← planServer active serverData dnsNames now p;
                  mret (match r with
                        | inr e => inr e
                        | inl (leaf, server) =>
                            inl {| pl_CA := ca; pl_Server := <[TLSSecretKeyCA := encodeBundle bundle]> server;
                                   pl_NextCheck := nextCheck leaf active next bundle p |}
                        end)
              end
          end
      end
  end.

(** ** The certificates of pgBackRest *)

Definition leafCurrent (leaf : option keyPair) (ca : keyPair) (usage : ExtKeyUsage) (cn : string) (dnsNames : list string) (now : Z) : bool :=
  match leaf with
  | None => false
  | Some leaf =>
      if negb (bool_decide (crt_CommonName (kp_Cert leaf) = cn)) || negb (bool_decide (crt_DNSNames (kp_Cert leaf) = dnsNames)) then false
      else if negb (before now (crt_NotAfter (kp_Cert leaf) - pgbackrestLeafRenewBefor)) then false
      else bool_decide (Verify (kp_Cert leaf)
             {| vo_DNSName := ""; vo_Roots := [kp_Cert ca]; vo_Intermediates := []; vo_CurrentTime := now; vo_KeyUsages := [usage] |} = None)
  end.

(** A stored leaf that is current, or a new one. *)
Definition keepOrIssue (data : gmap string string) (certKey keyKey : string) (ca : keyPair) (usage : ExtKeyUsage) (cn : string)
    (dnsNames : list string) (now : Z) (msg : string) : M W (result keyPair) :=
  let leaf := parseKeyPair (data_at data certKey) (data_at data keyKey) in
  match leaf, leafCurrent leaf ca usage cn dnsNames now with
  | Some leaf, true => mret (inl leaf)
  | _, _ =>
      r ← issueLeafCert ca cn dnsNames usage now pgbackrestLeafValidity;
      mret (match r with inr e => inr (Wrapf msg [] e) | inl leaf => inl leaf end)
  end.

(** The stored key is kept when its certificate is unchanged. *)
Definition keptKey (data : gmap string string) (certKey keyKey : string) (kp : keyPair) (fresh : string) : string :=
  match data !! keyKey with
  | Some stored => if decide (data_at data certKey = certPEM kp) then stored else fresh
  | None => fresh
  end.

Definition pgbackrestSecretData (data : gmap string string) (ca server client : keyPair) : result (gmap string string) :=
  match keyPEM ca, keyPEM server, keyPEM client with
  | inl caKey, inl serverKey, inl clientKey =>
      inl (<[TLSSecretKeyCA := certPEM ca]> (<[TLSSecretKeyCert := certPEM server]> (<[pgbackrestTLSKeyClientCert := certPEM client]>
          (<[pgbackrestTLSKeyCAKey := keptKey data TLSSecretKeyCA pgbackrestTLSKeyCAKey ca caKey]>
          (<[TLSSecretKeyKey := keptKey data TLSSecretKeyCert TLSSecretKeyKey server serverKey]>
          (<[pgbackrestTLSKeyClientKey := keptKey data pgbackrestTLSKeyClientCert pgbackrestTLSKeyClientKey client clientKey]> ∅))))))
  | inr e, _, _ | _, inr e, _ | _, _, inr e => inr e
  end.

Definition pgbackrestCA (data : gmap string string) (dnsName : string) (now : Z) : M W (result keyPair) :=
  match parseKeyPair (data_at data TLSSecretKeyCA) (data_at data pgbackrestTLSKeyCAKey) with
  | Some ca =>
      if crt_IsCA (kp_Cert ca) && before now (crt_NotAfter (kp_Cert ca) - pgbackrestCARenewBefore) then mret (inl ca)
      else generateCA (commonName (dnsName +:+ " pgBackRest CA")) now pgbackrestCAValidity
  | None => generateCA (commonName (dnsName +:+ " pgBackRest CA")) now pgbackrestCAValidity
  end.

Definition planPgbackrestTLS (data : gmap string string) (dnsNames : list string) (now : Z) : M W (result (gmap string string * Z)) :=
  let dnsName := hd "" dnsNames in
  ca ← pgbackrestCA data dnsName now;
  match ca with
  | inr e => mret (inr (Wrapf "failed to generate the pgBackRest CA: %w" [] e))
  | inl ca =>
      server ← keepOrIssue data TLSSecretKeyCert TLSSecretKeyKey ca ServerAuth (commonName dnsName) dnsNames now
                 "failed to issue the pgBackRest server certificate: %w";
      match server with
      | inr e => mret (inr e)
      | inl server =>
          client ← keepOrIssue data pgbackrestTLSKeyClientCert pgbackrestTLSKeyClientKey ca ClientAuth pgbackrestClientCN [] now
                     "failed to issue the pgBackRest client certificate: %w";
          mret (match client with
                | inr e => inr e
                | inl client =>
                    match pgbackrestSecretData data ca server client with
                    | inr e => inr e
                    | inl out =>
                        inl (out, foldl Z.min (crt_NotAfter (kp_Cert ca) - pgbackrestCARenewBefore)
                                    [crt_NotAfter (kp_Cert server) - pgbackrestLeafRenewBefor;
                                     crt_NotAfter (kp_Cert client) - pgbackrestLeafRenewBefor])
                    end
                end)
      end
  end.
End issue.
End certificates.

(** ** The Secrets and the cert-manager Certificate *)

(** A Secret with its controller and owners. [ts_ResourceVersion]: "" while it is not
    stored. *)
Record TLSSecret := {
  ts_Name : string;
  ts_ResourceVersion : string;
  ts_Labels : gmap string string;
  ts_Annotations : gmap string string;
  ts_ControllerUID : option string;
  ts_OwnerUIDs : list string;
  ts_Data : gmap string string }.

Record IssuerRef := { ir_Name : string; ir_Kind : string; ir_Group : string }.

(** The values of a Certificate's spec; [SpecOther]: what others wrote there. *)
Inductive SpecValue :=
  | SpecString (s : string)
  | SpecStrings (l : list string)
  | SpecIssuer (ref : IssuerRef)
  | SpecLabels (labels : gmap string string)
  | SpecOther (s : string).
#[export] Instance IssuerRef_eq_dec : EqDecision IssuerRef. Proof. solve_decision. Defined.
#[export] Instance SpecValue_eq_dec : EqDecision SpecValue. Proof. solve_decision. Defined.

(** [cm_Conditions]: type, status, reason and message. *)
Record Certificate := {
  cer_ControllerUID : option string;
  cer_Spec : gmap string SpecValue;
  cer_Conditions : list (string * (string * string * string)) }.

(** [NoMatch]: the API server does not know Certificates. *)
Inductive CertificateLookup := NoMatch | CertificateMissing | CertificateFailed (e : gerr) | CertificateFound (c : Certificate).

(** The API server. Deletes answer [None] when the object is gone. [to_Seen] and
    [to_SetSeen]: the flag [certManagerSeen] of the process. *)
Record tlsOps (W : Type) := {
  to_now : M W Z;
  to_GetSecret : string → M W (result (option TLSSecret));
  to_CreateSecret : TLSSecret → M W error;
  to_UpdateSecret : TLSSecret → M W error;
  to_PatchOwner : TLSSecret → M W error;
  to_DeleteSecret : TLSSecret → M W error;
  to_GetCertificate : string → M W CertificateLookup;
  to_CreateCertificate : string → Certificate → M W error;
  to_UpdateCertificate : string → Certificate → M W error;
  to_DeleteCertificate : string → M W error;
  to_Seen : M W bool;
  to_SetSeen : M W ();
  to_certs : certOps W }.
Arguments to_now {W}. Arguments to_GetSecret {W}. Arguments to_CreateSecret {W}. Arguments to_UpdateSecret {W}.
Arguments to_PatchOwner {W}. Arguments to_DeleteSecret {W}. Arguments to_GetCertificate {W}. Arguments to_CreateCertificate {W}.
Arguments to_UpdateCertificate {W}. Arguments to_DeleteCertificate {W}. Arguments to_Seen {W}. Arguments to_SetSeen {W}.
Arguments to_certs {W}.

Definition ReasonInvalidTLSSecret : string := "InvalidTLSSecret".
Definition ReasonCertManagerUnavailable : string := "CertManagerUnavailable".
Definition ReasonCertificatePending : string := "CertificatePending".
Definition certManagerCertificateNameAnnotation : string := "cert-manager.io/certificate-name".
Definition certManagerGroup : string := "cert-manager.io".
Definition issuerKindIssuer : string := "Issuer".
Definition certManagerUnavailableRequeue : Z := minute_ns.
Definition certificatePendingRequeue : Z := 15 * second_ns.

(** [*tlsNotReadyError]: reason, message and when to retry (0: no retry). *)
Record tlsNotReady := { nr_Reason : string; nr_Message : gerr; nr_RequeueAfter : Z }.

(** An error that may be a [*tlsNotReadyError]. *)
Definition tlsError : Type := tlsNotReady + gerr.
Definition as_error (e : tlsError) : gerr := match e with inl nr => nr_Message nr | inr e => e end.

Definition certificateName (c : PgCluster) : string := k_Name c +:+ "-server".

Definition pgbackrestServerDNSNames (c : PgCluster) : list string :=
  [clusterHost c; k_Name c +:+ "." +:+ k_Namespace c +:+ ".svc"; k_Name c +:+ "." +:+ k_Namespace c; k_Name c].

Definition errTLSSecretConflict : string := "exists and is not owned by the Cluster; delete or rename it".

Definition tlsLabels (c : PgCluster) : gmap string string :=
  {[ LabelAppName := AppNamePostgresql; LabelAppInstance := k_Name c; LabelAppManagedBy := LabelValuePgop ]}.

Definition desiredCertificateSpec (c : PgCluster) (replicas : Z) (ref : IssuerRef) : gmap string SpecValue :=
  let ref := {| ir_Name := ir_Name ref; ir_Kind := if decide (ir_Kind ref = "") then issuerKindIssuer else ir_Kind ref;
                ir_Group := if decide (ir_Group ref = "") then certManagerGroup else ir_Group ref |} in
  {[ "secretName" := SpecString (certManagerSecretName c);
     "dnsNames" := SpecStrings (serverDNSNames c replicas);
     "usages" := SpecStrings ["server auth"; "digital signature"; "key encipherment"];
     "issuerRef" := SpecIssuer ref;
     "secretTemplate" := SpecLabels (tlsLabels c) ]}.

Definition certificateReadyMessage (cert : Certificate) : string :=
  match find (λ cond, bool_decide (cond.1 = "Ready")) (cer_Conditions cert) with
  | Some (_, (status, reason, message)) => "Ready=" +:+ status +:+ " (" +:+ reason +:+ ": " +:+ message +:+ ")"
  | None => "not issued yet"
  end.

Definition isOwnedBy (s : TLSSecret) (c : PgCluster) : bool := bool_decide (k_UID c ∈ ts_OwnerUIDs s).
Definition isControlledBy (uid : option string) (c : PgCluster) : bool := bool_decide (uid = Some (k_UID c)).

Section secrets.
Context `{X509} `{PasswordDigest} {W : Type} (r : tlsOps W) (c : PgCluster) (replicas : Z).

Definition getOwnedTLSSecret (name : string) : M W (sum TLSSecret tlsError) :=
  s ← to_GetSecret r name;
  mret (match s with
        | inl None => inl {| ts_Name := name; ts_ResourceVersion := ""; ts_Labels := tlsLabels c; ts_Annotations := ∅;
                             ts_ControllerUID := None; ts_OwnerUIDs := []; ts_Data := ∅ |}
        | inr e => inr (inr e)
        | inl (Some s) =>
            if negb (isControlledBy (ts_ControllerUID s) c)
            then inr (inl {| nr_Reason := ReasonInvalidTLSSecret; nr_Message := Errorf "Secret %q %s" [name; errTLSSecretConflict];
                             nr_RequeueAfter := 0 |})
            else inl s
        end).

Definition ts_set_data (data : gmap string string) (s : TLSSecret) : TLSSecret :=
  {| ts_Name := ts_Name s; ts_ResourceVersion := ts_ResourceVersion s; ts_Labels := ts_Labels s; ts_Annotations := ts_Annotations s;
     ts_ControllerUID := ts_ControllerUID s; ts_OwnerUIDs := ts_OwnerUIDs s; ts_Data := data |}.

(** [controllerutil.SetControllerReference], for a new object. *)
Definition set_controller (s : TLSSecret) : TLSSecret :=
  {| ts_Name := ts_Name s; ts_ResourceVersion := ts_ResourceVersion s; ts_Labels := ts_Labels s; ts_Annotations := ts_Annotations s;
     ts_ControllerUID := Some (k_UID c); ts_OwnerUIDs := ts_OwnerUIDs s ++ [k_UID c]; ts_Data := ts_Data s |}.

Definition writeTLSSecret (s : TLSSecret) (data : gmap string string) : M W error :=
  if decide (ts_ResourceVersion s = "") then to_CreateSecret r (set_controller (ts_set_data data s))
  else if decide (ts_Data s = data) then mret None
  else to_UpdateSecret r (ts_set_data data s).

(** [policy]: [r.SelfManagedCertPolicy] or the default. *)
Definition reconcileSelfManagedTLS (policy : selfManagedCertPolicy) : M W (sum Z tlsError) :=
  ca ← getOwnedTLSSecret (selfManagedCASecretName c);
  match ca with
  | inr e => mret (inr e)
  | inl ca =>
      server ← getOwnedTLSSecret (selfManagedServerSecretName c);
      match server with
      | inr e => mret (inr e)
      | inl server =>
          now ← to_now r;
          plan ← planSelfManagedTLS (to_certs r) (ts_Data ca) (ts_Data server) (serverDNSNames c replicas) now policy;
          match plan with
          | inr e => mret (inr (inr e))
          | inl plan =>
              e ← writeTLSSecret ca (pl_CA plan);
              match e with
              | Some e => mret (inr (inr e))
              | None =>
                  e ← writeTLSSecret server (pl_Server plan);
                  mret (match e with Some e => inr (inr e) | None => inl (pl_NextCheck plan) end)
              end
          end
      end
  end.

Definition reconcilePgbackrestTLS : M W (sum Z tlsError) :=
  s ← getOwnedTLSSecret (pgbackrestTLSSecretName c);
  match s with
  | inr e => mret (inr e)
  | inl s =>
      now ← to_now r;
      plan ← planPgbackrestTLS (to_certs r) (ts_Data s) (pgbackrestServerDNSNames c) now;
      match plan with
      | inr e => mret (inr (inr e))
      | inl (data, next) =>
          e ← writeTLSSecret s data;
          mret (match e with Some e => inr (inr e) | None => inl next end)
      end
  end.

Definition cleanupPgbackrestTLS : M W error :=
  s ← to_GetSecret r (pgbackrestTLSSecretName c);
  match s with
  | inl None => mret None
  | inr e => mret (Some e)
  | inl (Some s) => if negb (isControlledBy (ts_ControllerUID s) c) then mret None else to_DeleteSecret r s
  end.

(** *** cert-manager *)

Definition add_owner (s : TLSSecret) : TLSSecret :=
  {| ts_Name := ts_Name s; ts_ResourceVersion := ts_ResourceVersion s; ts_Labels := ts_Labels s; ts_Annotations := ts_Annotations s;
     ts_ControllerUID := ts_ControllerUID s; ts_OwnerUIDs := ts_OwnerUIDs s ++ [k_UID c]; ts_Data := ts_Data s |}.

Definition adoptCertManagerSecret (s : TLSSecret) : M W error :=
  if negb (bool_decide (default "" (ts_Annotations s !! certManagerCertificateNameAnnotation) = certificateName c)) || isOwnedBy s c
  then mret None
  else to_PatchOwner r (add_owner s).

(** The second half of [reconcileCertificate]: the Secret that cert-manager writes. *)
Definition awaitCertificate (cert : Certificate) : M W (option tlsError) :=
  s ← to_GetSecret r (certManagerSecretName c);
  match s with
  | inl None =>
      mret (Some (inl {| nr_Reason := ReasonCertificatePending;
                         nr_Message := Errorf "Waiting for cert-manager to issue Certificate %q: %s"
                                         [certificateName c; certificateReadyMessage cert];
                         nr_RequeueAfter := certificatePendingRequeue |}))
  | inr e => mret (Some (inr e))
  | inl (Some s) => e ← adoptCertManagerSecret s; mret (inr <$> e)
  end.

(** The spec with the desired fields, and whether one differed. *)
Definition convergedSpec (spec desired : gmap string SpecValue) : gmap string SpecValue * bool :=
  (desired ∪ spec, negb (bool_decide (desired ∪ spec = spec))).

Definition reconcileCertificate (ref : IssuerRef) : M W (option tlsError) :=
  l ← to_GetCertificate r (certificateName c);
  match l with
  | NoMatch =>
      mret (Some (inl {| nr_Reason := ReasonCertManagerUnavailable;
                         nr_Message := Errorf ("spec.tls.issuerRef requires cert-manager, but the cert-manager.io/v1 Certificate API is not " +:+
                           "available in this cluster; install cert-manager, or use spec.tls.secretName or the self-managed CA") [];
                         nr_RequeueAfter := certManagerUnavailableRequeue |}))
  | CertificateMissing =>
      let cert := {| cer_ControllerUID := Some (k_UID c); cer_Spec := desiredCertificateSpec c replicas ref; cer_Conditions := [] |} in
      e ← to_CreateCertificate r (certificateName c) cert;
      match e with
      | Some e => mret (Some (inr (Wrapf "failed to create cert-manager Certificate: %w" [] e)))
      | None => awaitCertificate cert
      end
  | CertificateFailed e => mret (Some (inr e))
  | CertificateFound cert =>
      if negb (isControlledBy (cer_ControllerUID cert) c) then
        mret (Some (inl {| nr_Reason := ReasonCertificatePending;
                           nr_Message := Errorf "cert-manager Certificate %q %s" [certificateName c; errTLSSecretConflict];
                           nr_RequeueAfter := 0 |}))
      else
        let '(spec, changed) := convergedSpec (cer_Spec cert) (desiredCertificateSpec c replicas ref) in
        if changed : bool then
          let cert := {| cer_ControllerUID := cer_ControllerUID cert; cer_Spec := spec; cer_Conditions := cer_Conditions cert |} in
          e ← to_UpdateCertificate r (certificateName c) cert;
          match e with
          | Some e => mret (Some (inr (Wrapf "failed to update cert-manager Certificate: %w" [] e)))
          | None => awaitCertificate cert
          end
        else awaitCertificate cert
  end.

(** [ref]: [spec.tls.issuerRef]. The first result: when to look again (the zero time:
    never). *)
Definition provisionTLSSecret (t : ClusterTLSSpec) (ref : option IssuerRef) (policy : selfManagedCertPolicy) : M W (Z * option tlsError) :=
  if negb (bool_decide (tls_SecretName t = "")) then mret (time_zero, None)
  else
    match ref with
    | Some ref =>
        e ← reconcileCertificate ref;
        let seen := match e with
                    | None => true
                    | Some (inl nr) => negb (bool_decide (nr_Reason nr = ReasonCertManagerUnavailable))
                    | Some (inr _) => false
                    end in
        if seen then _ ← to_SetSeen r; mret (time_zero, e) else mret (time_zero, e)
    | None =>
        x ← reconcileSelfManagedTLS policy;
        mret (match x with inl t => (t, None) | inr e => (time_zero, Some e) end)
    end.

(** The Certificate, unless [spec.tls.issuerRef] is in use. *)
Definition cleanupCertificate : M W error :=
  l ← to_GetCertificate r (certificateName c);
  match l with
  | CertificateFound cert => if isControlledBy (cer_ControllerUID cert) c then to_DeleteCertificate r (certificateName c) else mret None
  | NoMatch | CertificateMissing => mret None
  | CertificateFailed e => mret (Some e)
  end.

Fixpoint cleanupSecrets (inUse : string) (stale : list string) : M W error :=
  match stale with
  | [] => mret None
  | name :: stale =>
      if decide (name = inUse) then cleanupSecrets inUse stale
      else
        s ← to_GetSecret r name;
        match s with
        | inl None => cleanupSecrets inUse stale
        | inr e => mret (Some e)
        | inl (Some s) =>
            if negb (isOwnedBy s c) then cleanupSecrets inUse stale
            else
              e ← to_DeleteSecret r s;
              match e with Some e => mret (Some e) | None => cleanupSecrets inUse stale end
        end
  end.

Definition cleanupTLSResources : M W error :=
  let t := k_TLS c in
  let inUse := match t with Some _ => tlsSecretName c | None => "" end in
  let noIssuer := match t with Some t => bool_decide (tls_IssuerRef t = None) | None => true end in
  let selfManaged := match t with Some t => bool_decide (tls_SecretName t = "" ∧ tls_IssuerRef t = None) | None => false end in
  let secrets := cleanupSecrets inUse
    ((if noIssuer then [certManagerSecretName c] else [])
     ++ (if selfManaged then [] else [selfManagedCASecretName c; selfManagedServerSecretName c])) in
  if noIssuer then
    seen ← to_Seen r;
    if seen : bool then
      e ← cleanupCertificate;
      match e with Some e => mret (Some e) | None => secrets end
    else secrets
  else secrets.

(** *** The material *)

Definition loadTLSMaterial (now : Z) : M W (result tlsMaterial) :=
  let name := tlsSecretName c in
  s ← to_GetSecret r name;
  mret (match s with
        | inr e => inr (Wrapf "failed to get TLS Secret %q: %w" [name] e)
        | inl None => inr (Wrapf "failed to get TLS Secret %q: %w" [name] (notFound name))
        | inl (Some s) =>
            match parseTLSMaterial (ts_Data s) (clusterHost c) now with
            | inr e => inr (Wrapf "TLS Secret %q: %w" [name] e)
            | inl m => inl m
            end
        end).
End secrets.
