(* ===== verification/TlsTheorems.v ===== *)
(** * The self-managed CA: rotation without an outage

    [rotation]: the passes of the self-managed TLS over the stored Secrets, in which the
    write of the server Secret may be lost. [ca_rotation_trusted]: no client meets a
    certificate of a CA that it does not trust yet. [self_managed_idle]: nothing changes
    until the next check is due. *)

From Stdlib Require Import Ascii.
From S2P Require Import Prelude GoStrings GoStrconv GoUrl RoleSql ApiTypes RolePolicy Password Connection Pgbackrest Replication.
From S2P Require Import ReplicationReconcile RoleReconcile PgConfig Restore BackupRun ArchiveHealth PodTemplate Tls.

Open Scope Z_scope.

(** X.509 times have whole seconds. *)
Definition whole_second (t : Z) : Z := t / second_ns * second_ns.

Lemma whole_second_bounds t : t - second_ns < whole_second t ≤ t.
Proof. unfold whole_second, second_ns. pose proof (Z.mod_pos_bound t 1000000000). pose proof (Z.div_mod t 1000000000). lia. Qed.

(** A host name that certificates can be verified for. *)
Definition host_char (c : ascii) : bool := is_digit c || bool_decide (c = "."%char) || bool_decide (c = "-"%char)
  || (bool_decide (97 ≤ Z.of_nat (nat_of_ascii c)) && bool_decide (Z.of_nat (nat_of_ascii c) ≤ 122)).
Definition host_name (s : string) : bool := negb (bool_decide (s = "")) && sforall host_char s.

Definition pem_types : list string := [pemTypeCertificate; "PRIVATE KEY"].

(** ** What the code relies on *)

Class X509Laws `{X509} : Prop := {
  parse_raw der c : ParseCertificate der = inl c → crt_Raw c = der;
  parse_marshalled k der : MarshalPKCS8PrivateKey k = inl der → ParsePKCS8PrivateKey der = inl k;
  decode_shorter s b rest : pem_Decode s = Some (b, rest) → (String.length rest < String.length s)%nat;
  decode_encoded b rest : blk_Type b ∈ pem_types → blk_Headers b = [] → pem_Decode (pem_EncodeToMemory b +:+ rest) = Some (b, rest);
  key_pair_loads kp k : ParseCertificate (crt_Raw (kp_Cert kp)) = inl (kp_Cert kp) → crt_PublicKey (kp_Cert kp) = key_Public (kp_Key kp) →
    keyPEM kp = inl k → X509KeyPair (certPEM kp) k = inl (crt_Raw (kp_Cert kp), []);
  (** Trusting more CAs accepts no less. *)
  verify_more_roots c name root roots now usages : root ∈ roots →
    Verify c {| vo_DNSName := name; vo_Roots := [root]; vo_Intermediates := []; vo_CurrentTime := now; vo_KeyUsages := usages |} = None →
    Verify c {| vo_DNSName := name; vo_Roots := roots; vo_Intermediates := []; vo_CurrentTime := now; vo_KeyUsages := usages |} = None;
  (** Of the time only the validity of the certificate and of its root matters. *)
  verify_later c name root now now' usages : now ≤ now' → now' ≤ crt_NotAfter c → now' ≤ crt_NotAfter root →
    Verify c {| vo_DNSName := name; vo_Roots := [root]; vo_Intermediates := []; vo_CurrentTime := now; vo_KeyUsages := usages |} = None →
    Verify c {| vo_DNSName := name; vo_Roots := [root]; vo_Intermediates := []; vo_CurrentTime := now'; vo_KeyUsages := usages |} = None }.

(** A created certificate has the fields of its template and verifies under its CA. *)
Class CertOpsLaws `{X509} {W} (ce : certOps W) : Prop :=
  created tmpl parent key signer w der w' :
    ce_CreateCertificate ce tmpl parent key signer w = (inl der, w') →
    ∃ c, ParseCertificate der = inl c ∧ crt_PublicKey c = key_Public key ∧ crt_DNSNames c = tm_DNSNames tmpl ∧
      crt_CommonName c = tm_CommonName tmpl ∧ crt_IsCA c = tm_IsCA tmpl ∧ crt_ExtKeyUsage c = tm_ExtKeyUsage tmpl ∧
      crt_NotBefore c = whole_second (tm_NotBefore tmpl) ∧ crt_NotAfter c = whole_second (tm_NotAfter tmpl) ∧
      ∀ root name now, parent = Some root → crt_IsCA root = true → crt_PublicKey root = key_Public signer →
        host_name name = true → name ∈ tm_DNSNames tmpl → ServerAuth ∈ tm_ExtKeyUsage tmpl →
        crt_NotBefore c ≤ now ≤ crt_NotAfter c → crt_NotBefore root ≤ now ≤ crt_NotAfter root →
        Verify c {| vo_DNSName := name; vo_Roots := [root]; vo_Intermediates := []; vo_CurrentTime := now;
                    vo_KeyUsages := [ServerAuth] |} = None.

Section facts.
Context `{X509Laws} `{PasswordDigest}.

(** ** Reading back what was written *)

Definition known (c : Cert) : Prop := ParseCertificate (crt_Raw c) = inl c.
Definition usable (kp : keyPair) : Prop := known (kp_Cert kp) ∧ crt_PublicKey (kp_Cert kp) = key_Public (kp_Key kp).

Lemma parsed_known der c : ParseCertificate der = inl c → known c.
Proof. intros Hp. unfold known. by rewrite (parse_raw _ _ Hp). Qed.

Lemma decode_empty : pem_Decode "" = None.
Proof. destruct (pem_Decode "") as [[b rest]|] eqn:E; [|done]. apply decode_shorter in E. simpl in E. lia. Qed.

Lemma decode_encoded_end b : blk_Type b ∈ pem_types → blk_Headers b = [] → pem_Decode (pem_EncodeToMemory b) = Some (b, "").
Proof. intros Ht Hh. rewrite <-(app_nil_r_s (pem_EncodeToMemory b)). by apply decode_encoded. Qed.

Lemma parseKeyPair_usable cert key kp : parseKeyPair cert key = Some kp → usable kp.
Proof.
  unfold parseKeyPair. destruct (pem_Decode cert) as [[cb ?]|]; [|done]. destruct (pem_Decode key) as [[kb ?]|]; [|done].
  destruct (ParseCertificate (blk_Bytes cb)) as [c|] eqn:Ec; [|done]. destruct (ParsePKCS8PrivateKey (blk_Bytes kb)) as [k|]; [|done].
  case_decide; [|done]. intros [= <-]. split; [by eapply parsed_known|done].
Qed.

Lemma parseKeyPair_encoded kp k : usable kp → keyPEM kp = inl k → parseKeyPair (certPEM kp) k = Some kp.
Proof.
  intros [Hk Hp]. unfold keyPEM, parseKeyPair, certPEM. destruct (MarshalPKCS8PrivateKey (kp_Key kp)) as [der|] eqn:Em; [|done].
  intros [= <-]. rewrite !decode_encoded_end by (simpl; set_solver). simpl. rewrite Hk, (parse_marshalled _ _ Em).
  rewrite decide_True by done. by destruct kp.
Qed.

Lemma certPEM_nonempty kp : certPEM kp ≠ "".
Proof.
  intros He. assert (pem_Decode (certPEM kp) = Some (cert_block (kp_Cert kp), "")) as Hd by (apply decode_encoded_end; simpl; set_solver).
  rewrite He, decode_empty in Hd. done.
Qed.

Lemma keyPEM_nonempty kp k : keyPEM kp = inl k → k ≠ "".
Proof.
  unfold keyPEM. destruct (MarshalPKCS8PrivateKey (kp_Key kp)) as [der|]; [|done]. intros [= <-] He.
  pose proof (decode_encoded_end {| blk_Type := "PRIVATE KEY"; blk_Headers := []; blk_Bytes := der |}) as Hd.
  rewrite He, decode_empty in Hd. discriminate Hd; simpl; set_solver.
Qed.

Lemma blocks_more fuel s : (String.length s ≤ fuel)%nat → pem_blocks_go fuel s = pem_blocks s.
Proof.
  unfold pem_blocks. revert s. induction fuel as [fuel IH] using lt_wf_ind. intros s Hle.
  destruct fuel as [|fuel], (String.length s) as [|n] eqn:El; simpl.
  - done.
  - lia.
  - destruct s; [|done]. by rewrite decode_empty.
  - destruct (pem_Decode s) as [[b rest]|] eqn:E; [|done]. apply decode_shorter in E. f_equal.
    rewrite (IH fuel), (IH n); [done|lia..].
Qed.

Lemma blocks_encoded b rest : blk_Type b ∈ pem_types → blk_Headers b = [] → pem_blocks (pem_EncodeToMemory b +:+ rest) = b :: pem_blocks rest.
Proof.
  intros Ht Hh. pose proof (decode_encoded b rest Ht Hh) as Hd. unfold pem_blocks at 1.
  destruct (String.length (pem_EncodeToMemory b +:+ rest)) as [|n] eqn:El; apply decode_shorter in Hd as Hs; [lia|].
  simpl. rewrite Hd. f_equal. apply blocks_more. lia.
Qed.

Lemma blocks_bundle l : pem_blocks (encodeBundle l) = cert_block <$> l.
Proof.
  induction l as [|c l IH]; [unfold pem_blocks; simpl; done|].
  cbn [encodeBundle foldr]. rewrite blocks_encoded by (simpl; set_solver). rewrite fmap_cons. f_equal. apply IH.
Qed.

Lemma bundle_reads_back l : Forall known l → parseCertBundle (encodeBundle l) = l ∧ AppendCertsFromPEM (encodeBundle l) = l.
Proof.
  intros Hl. unfold parseCertBundle, AppendCertsFromPEM. rewrite blocks_bundle.
  induction Hl as [|c l Hc _ [IH1 IH2]]; [done|]. cbn [fmap list_fmap omap list_omap].
  rewrite !decide_True by done. unfold known in Hc. cbn [blk_Bytes cert_block]. rewrite Hc. split; f_equal; [apply IH1|apply IH2].
Qed.

Lemma parseCertBundle_known s : Forall known (parseCertBundle s).
Proof.
  apply Forall_forall. intros c (b & _ & Hb)%list_elem_of_omap. case_decide; [|done].
  destruct (ParseCertificate (blk_Bytes b)) as [c'|] eqn:Ec; [|done]. injection Hb as <-. by eapply parsed_known.
Qed.
End facts.

(** ** The trust bundle *)

Section bundle.
Context `{X509Laws}.

Lemma cert_in_true l c : cert_in l c = true ↔ ∃ b, b ∈ l ∧ crt_Raw b = crt_Raw c.
Proof.
  unfold cert_in. rewrite existsb_exists. setoid_rewrite list_elem_of_In. setoid_rewrite bool_decide_eq_true. done.
Qed.

Lemma known_raw b c : known b → known c → crt_Raw b = crt_Raw c → b = c.
Proof. unfold known. intros Hb Hc He. rewrite He in Hb. congruence. Qed.

(** The certificates that are added: each a valid CA, none twice. *)
Fixpoint added (now : Z) (acc rest : list Cert) : Prop :=
  match rest with
  | [] => True
  | c :: rest => crt_IsCA c = true ∧ now < crt_NotAfter c ∧ cert_in acc c = false ∧ added now (acc ++ [c]) rest
  end.

Lemma addTrusted_foldl now acc l : ∃ rest, foldl (addTrusted now) acc l = acc ++ rest ∧ added now acc rest ∧ rest ⊆ l.
Proof.
  revert acc. induction l as [|c l IH]; intros acc; simpl; [exists []; rewrite app_nil_r; done|].
  unfold addTrusted at 2. destruct (crt_IsCA c) eqn:Hca; simpl; [|destruct (IH acc) as (rest & ? & ? & ?); exists rest; set_solver].
  unfold before. destruct (bool_decide_reflect (now < crt_NotAfter c)); simpl;
    [|destruct (IH acc) as (rest & ? & ? & ?); exists rest; set_solver].
  destruct (cert_in acc c) eqn:Hin; [destruct (IH acc) as (rest & ? & ? & ?); exists rest; set_solver|].
  destruct (IH (acc ++ [c])) as (rest & -> & Hadd & Hsub). exists (c :: rest). rewrite <-app_assoc. split_and!; [done| |set_solver].
  done.
Qed.

Lemma addTrusted_in now acc l b : b ∈ acc → b ∈ foldl (addTrusted now) acc l.
Proof. intros Hb. destruct (addTrusted_foldl now acc l) as (rest & -> & _). apply elem_of_app. by left. Qed.

Lemma addTrusted_covers now acc l c :
  c ∈ l → crt_IsCA c = true → now < crt_NotAfter c → ∃ b, b ∈ foldl (addTrusted now) acc l ∧ crt_Raw b = crt_Raw c.
Proof.
  intros Hin Hca Hna. revert acc. induction Hin as [c l|c d l Hin IH]; intros acc; simpl; [|by apply IH].
  unfold addTrusted at 2. rewrite Hca. unfold before. rewrite bool_decide_true by done. simpl.
  destruct (cert_in acc c) eqn:E.
  - apply cert_in_true in E as (b & ? & ?). exists b. split; [by apply addTrusted_in|done].
  - exists c. split; [|done]. apply addTrusted_in, elem_of_app. right. by left.
Qed.

Lemma added_valid now acc rest : added now acc rest → Forall (λ c, crt_IsCA c = true ∧ now < crt_NotAfter c) rest.
Proof. revert acc. induction rest as [|c rest IH]; intros acc; simpl; [by constructor|]. intros (? & ? & ? & ?). constructor; [done|by eapply IH]. Qed.

(** A bundle is its own fixed point while its certificates are valid. *)
Lemma addTrusted_start now acc l : l ⊆ acc → foldl (addTrusted now) acc l = acc.
Proof.
  revert acc. induction l as [|c l IH]; intros acc Hsub; [done|]. simpl. unfold addTrusted at 2.
  assert (cert_in acc c = true) as -> by (apply cert_in_true; exists c; split; [apply Hsub; by left|done]).
  rewrite orb_true_r. apply IH. intros x Hx. apply Hsub. by right.
Qed.

Lemma addTrusted_again now now' acc rest :
  added now acc rest → Forall (λ c, now' < crt_NotAfter c) rest → foldl (addTrusted now') acc rest = acc ++ rest.
Proof.
  revert acc. induction rest as [|c rest IH]; intros acc; simpl; [by rewrite app_nil_r|].
  intros (Hca & _ & Hin & Hadd) [Hna Hall]%Forall_cons. unfold addTrusted at 2. rewrite Hca, Hin. unfold before.
  rewrite bool_decide_true by done. simpl. rewrite IH by done. by rewrite <-app_assoc.
Qed.
End bundle.

(** ** The outcome of a plan *)

Section plan.
Context `{X509Laws} `{PasswordDigest} {W : Type} (ce : certOps W) `{!CertOpsLaws ce} (p : selfManagedCertPolicy).

Definition active_of (ca : gmap string string) : option keyPair := parseKeyPair (data_at ca TLSSecretKeyCert) (data_at ca TLSSecretKeyKey).
Definition next_of (ca : gmap string string) : option keyPair :=
  parseKeyPair (data_at ca caSecretKeyNextCert) (data_at ca caSecretKeyNextKey).
Definition bundle_of (ca : gmap string string) : list Cert := parseCertBundle (data_at ca TLSSecretKeyCA).
Definition leaf_of (server : gmap string string) : option keyPair :=
  parseKeyPair (data_at server TLSSecretKeyCert) (data_at server TLSSecretKeyKey).

(** A CA made at [t]. *)
Definition fresh_ca (t : Z) (kp : keyPair) : Prop :=
  usable kp ∧ crt_IsCA (kp_Cert kp) = true ∧ crt_NotBefore (kp_Cert kp) ≤ t ∧ t + cp_CAValidity p - second_ns < crt_NotAfter (kp_Cert kp).

(** A server certificate issued at [t] by [ca]. *)
Definition fresh_leaf (t : Z) (ca leaf : keyPair) (names : list string) : Prop :=
  usable leaf ∧ crt_DNSNames (kp_Cert leaf) = names ∧ crt_NotBefore (kp_Cert leaf) ≤ t ∧
  crt_NotAfter (kp_Cert leaf) = whole_second (Z.min (t + cp_ServerValidity p) (crt_NotAfter (kp_Cert ca))) ∧
  ∀ name now, crt_IsCA (kp_Cert ca) = true → usable ca → host_name name = true → name ∈ names →
    t ≤ now ≤ crt_NotAfter (kp_Cert leaf) → crt_NotBefore (kp_Cert ca) ≤ now ≤ crt_NotAfter (kp_Cert ca) →
    Verify (kp_Cert leaf) {| vo_DNSName := name; vo_Roots := [kp_Cert ca]; vo_Intermediates := []; vo_CurrentTime := now;
                             vo_KeyUsages := [ServerAuth] |} = None.

Lemma clockSkew_pos : 0 < clockSkew.
Proof. by vm_compute. Qed.

Lemma generateCA_fresh cn now w kp w' : generateCA ce cn now (cp_CAValidity p) w = (inl kp, w') → fresh_ca now kp.
Proof.
  unfold generateCA, createCertificate, mbind, M_bind, mret, M_ret. destruct (ce_GenerateKey ce w) as [[key|] w1]; [|done].
  destruct (ce_RandomSerial ce w1) as [[serial|] w2]; [|done]. destruct (ce_CreateCertificate ce _ _ _ _ w2) as [[der|] w3] eqn:Ec; [|done].
  apply created in Ec as (c & Hp & Hpub & _ & _ & Hca & _ & Hnb & Hna & _). rewrite Hp. intros [= <- <-]. simpl in *.
  unfold fresh_ca. simpl. rewrite Hca, Hnb, Hna. pose proof clockSkew_pos.
  pose proof (whole_second_bounds (now - clockSkew)). pose proof (whole_second_bounds (now + cp_CAValidity p)).
  split_and!; [split; [by eapply parsed_known|done]|done|lia|lia].
Qed.

Lemma newCA_fresh name now w kp w' : newCA ce name now p w = (inl kp, w') → fresh_ca now kp.
Proof.
  unfold newCA, mbind, M_bind, mret, M_ret. destruct (generateCA _ _ _ _ w) as [[ca|] w1] eqn:E; [|done].
  intros [= <- <-]. by eapply generateCA_fresh.
Qed.

Lemma issueServerCert_fresh ca names now w leaf w' :
  issueServerCert ce ca names now (cp_ServerValidity p) w = (inl leaf, w') → fresh_leaf now ca leaf names.
Proof.
  unfold issueServerCert, issueLeafCert, createCertificate, mbind, M_bind, mret, M_ret. destruct (ce_GenerateKey ce w) as [[key|] w1]; [|done].
  destruct (ce_RandomSerial ce w1) as [[serial|] w2]; [|done]. cbv zeta. destruct (ce_CreateCertificate ce _ _ _ _ w2) as [[der|] w3] eqn:Ec; [|done].
  apply created in Ec as (c & Hp & Hpub & Hdns & _ & _ & _ & Hnb & Hna & Hv). rewrite Hp. intros [= <- <-]. simpl in *.
  pose proof clockSkew_pos. pose proof (whole_second_bounds (now - clockSkew)).
  unfold fresh_leaf. simpl. split_and!; [split; [by eapply parsed_known|done]|done|lia| |].
  - rewrite Hna. f_equal. case_bool_decide; lia.
  - intros name t Hca [_ Hkey] Hhost Hin Ht Hct. by apply Hv; [..|left|lia|].
Qed.

Lemma chooseActive_spec ca name now w a n w' :
  chooseActive ce ca name now p w = (inl (a, n), w') →
  (switchDue (active_of ca) now p = false ∧ active_of ca = Some a ∧ n = preparedCA ca now ∧ w' = w) ∨
  (switchDue (active_of ca) now p = true ∧ n = None ∧ (preparedCA ca now = Some a ∨ (preparedCA ca now = None ∧ fresh_ca now a))).
Proof.
  unfold chooseActive. cbv zeta. fold (active_of ca). unfold mbind, M_bind, mret, M_ret.
  destruct (switchDue (active_of ca) now p) eqn:Es.
  - destruct (preparedCA ca now) as [m|] eqn:Ep.
    + destruct (active_of ca); intros [= <- <- <-]; right; auto.
    + destruct (newCA ce name now p w) as [[b|] w1] eqn:E; [|by destruct (active_of ca)].
      apply newCA_fresh in E. destruct (active_of ca); intros [= <- <- <-]; right; auto.
  - destruct (active_of ca) as [b|] eqn:Ea; [|done]. intros [= <- <- <-]. by left.
Qed.

Lemma prepareNext_spec a n name now w n' w' :
  prepareNext ce a n name now p w = (inl n', w') →
  (n' = n ∧ (n = None → now < crt_NotAfter (kp_Cert a) - cp_CAPrepareBefore p) ∧ w' = w) ∨
  (n = None ∧ crt_NotAfter (kp_Cert a) - cp_CAPrepareBefore p ≤ now ∧ ∃ m, n' = Some m ∧ fresh_ca now m).
Proof.
  unfold prepareNext, mbind, M_bind, mret, M_ret. destruct n as [m|]; [intros [= <- <-]; by left|].
  unfold before. case_bool_decide as Hb; simpl; [intros [= <- <-]; by left|].
  destruct (newCA ce name now p w) as [[b|] w1] eqn:E; [|done]. apply newCA_fresh in E. intros [= <- <-]. right.
  split_and!; [done|lia|eauto].
Qed.

(** The data of a server Secret as a plan writes it. *)
Definition holds_leaf (server : gmap string string) (leaf : keyPair) : Prop :=
  usable leaf ∧ data_at server TLSSecretKeyCert = certPEM leaf ∧ ∃ k, keyPEM leaf = inl k ∧ data_at server TLSSecretKeyKey = k.

Lemma holds_leaf_of server leaf : holds_leaf server leaf → leaf_of server = Some leaf.
Proof. intros (Hu & Hc & k & Hk & Hd). unfold leaf_of. rewrite Hc, Hd. by apply parseKeyPair_encoded. Qed.

Lemma holds_leaf_bundle server leaf s : holds_leaf server leaf → holds_leaf (<[TLSSecretKeyCA := s]> server) leaf.
Proof.
  intros (Hu & Hc & k & Hk & Hd). split; [done|]. unfold data_at in *. rewrite !lookup_insert_ne by done. split; [done|]. by exists k.
Qed.

Lemma planServer_spec a sv names now w leaf sd w' :
  planServer ce a sv names now p w = (inl (leaf, sd), w') →
  (leaf_of sv = Some leaf ∧ sd = sv ∧ w' = w ∧ serverCertCurrent (Some leaf) a names now p = true) ∨
  (fresh_leaf now a leaf names ∧ holds_leaf sd leaf).
Proof.
  unfold planServer. cbv zeta. fold (leaf_of sv). unfold mbind, M_bind, mret, M_ret.
  assert (∀ w1, (let '(x, w'0) := issueServerCert ce a names now (cp_ServerValidity p) w1 in
      (match x with
       | inl leaf => match keyPEM leaf with
                     | inl k => inl (leaf, <[TLSSecretKeyCert:=certPEM leaf]> (<[TLSSecretKeyKey:=k]> ∅))
                     | inr e => inr e
                     end
       | inr e => inr (Wrapf "failed to issue server certificate: %w" [] e)
       end : result (keyPair * gmap string string), w'0)) = (inl (leaf, sd), w') →
      fresh_leaf now a leaf names ∧ holds_leaf sd leaf) as Hissue.
  { intros w1. destruct (issueServerCert _ _ _ _ _ w1) as [[l|] w2] eqn:E; [|done]. apply issueServerCert_fresh in E.
    destruct (keyPEM l) as [k|] eqn:Ek; [|done]. intros [= <- <- <-]. split; [done|]. split; [by apply E|].
    unfold data_at. rewrite lookup_insert_eq, lookup_insert_ne, lookup_insert_eq by done. eauto. }
  destruct (leaf_of sv) as [l|] eqn:El; [|intros Hi; right; by eapply Hissue].
  destruct (serverCertCurrent (Some l) a names now p) eqn:Ec; [|intros Hi; right; by eapply Hissue].
  intros [= <- <- <-]. by left.
Qed.

(** What a plan that succeeds consists of. *)
Lemma plan_spec ca sv names now w pl w' :
  planSelfManagedTLS ce ca sv names now p w = (inl pl, w') →
  ∃ name rest a n n' leaf sd w1 w2,
    names = name :: rest ∧ chooseActive ce ca name now p w = (inl (a, n), w1) ∧ prepareNext ce a n name now p w1 = (inl n', w2) ∧
    planServer ce a sv names now p w2 = (inl (leaf, sd), w') ∧
    caSecretData a n' (trustBundle a n' (data_at ca TLSSecretKeyCA) now) = inl (pl_CA pl) ∧
    pl_Server pl = <[TLSSecretKeyCA := encodeBundle (trustBundle a n' (data_at ca TLSSecretKeyCA) now)]> sd ∧
    pl_NextCheck pl = nextCheck leaf a n' (trustBundle a n' (data_at ca TLSSecretKeyCA) now) p.
Proof.
  unfold planSelfManagedTLS. destruct names as [|name rest]; [done|]. unfold mbind, M_bind, mret, M_ret.
  destruct (chooseActive ce ca name now p w) as [[[a n]|] w1] eqn:E1; [|done].
  destruct (prepareNext ce a n name now p w1) as [[n'|] w2] eqn:E2; [|done]. cbv zeta.
  destruct (caSecretData a n' _) as [cd|] eqn:E3; [|done].
  destruct (planServer ce a sv (name :: rest) now p w2) as [[[leaf sd]|] w3] eqn:E4; [|done].
  intros [= <- <-]. simpl. by repeat eexists.
Qed.

Lemma caSecretData_reads a n l ca :
  usable a → (∀ m, n = Some m → usable m) → Forall known l → caSecretData a n l = inl ca →
  active_of ca = Some a ∧ next_of ca = n ∧ bundle_of ca = l ∧ data_at ca TLSSecretKeyCA = encodeBundle l.
Proof.
  intros Ha Hn Hl. unfold caSecretData. destruct (keyPEM a) as [ka|] eqn:Ea; [|done]. unfold active_of, next_of, bundle_of, data_at.
  destruct n as [m|]; [destruct (keyPEM m) as [km|] eqn:Em; [|done]|]; intros [= <-].
  - rewrite !(lookup_insert_ne _ caSecretKeyNextCert TLSSecretKeyCert), !(lookup_insert_ne _ caSecretKeyNextCert TLSSecretKeyKey),
      !(lookup_insert_ne _ caSecretKeyNextCert TLSSecretKeyCA) by done.
    rewrite !(lookup_insert_ne _ caSecretKeyNextKey TLSSecretKeyCert), !(lookup_insert_ne _ caSecretKeyNextKey TLSSecretKeyKey),
      !(lookup_insert_ne _ caSecretKeyNextKey TLSSecretKeyCA) by done.
    rewrite (lookup_insert_ne _ caSecretKeyNextCert caSecretKeyNextKey), !lookup_insert_eq by done.
    rewrite (lookup_insert_ne _ TLSSecretKeyCert TLSSecretKeyKey), !lookup_insert_eq by done.
    rewrite (lookup_insert_ne _ TLSSecretKeyCert TLSSecretKeyCA), (lookup_insert_ne _ TLSSecretKeyKey TLSSecretKeyCA), lookup_insert_eq by done.
    simpl. split_and!; [by apply parseKeyPair_encoded|apply parseKeyPair_encoded; [by apply Hn|done]|by apply bundle_reads_back|done].
  - rewrite (lookup_insert_ne _ TLSSecretKeyCert TLSSecretKeyKey), !lookup_insert_eq by done.
    rewrite (lookup_insert_ne _ TLSSecretKeyCert TLSSecretKeyCA), (lookup_insert_ne _ TLSSecretKeyKey TLSSecretKeyCA), lookup_insert_eq by done.
    rewrite !lookup_insert_ne by done. rewrite lookup_empty.
    simpl. split_and!; [by apply parseKeyPair_encoded| |by apply bundle_reads_back|done].
    unfold parseKeyPair. by rewrite decode_empty.
Qed.
End plan.

(** ** Rotation *)

(** What the lifetimes must satisfy: the default policy does. *)
Definition policy_ok (p : selfManagedCertPolicy) : Prop :=
  0 ≤ cp_ServerRenewBefore p ∧ cp_ServerRenewBefore p + second_ns ≤ cp_CASwitchBefore p ∧
  cp_ServerRenewBefore p + second_ns ≤ cp_ServerValidity p ∧ cp_CASwitchBefore p < cp_CAPrepareBefore p ∧
  2 * cp_CAPrepareBefore p - cp_CASwitchBefore p + second_ns ≤ cp_CAValidity p.

Lemma default_policy_ok : policy_ok defaultSelfManagedCertPolicy.
Proof. unfold policy_ok. vm_compute. split_and!; discriminate || reflexivity. Qed.

(** The longest time between two passes: two years by default. *)
Definition max_gap (p : selfManagedCertPolicy) : Z := cp_CAPrepareBefore p - cp_CASwitchBefore p.

Section rotation.
Context `{X509Laws} `{PasswordDigest} {W : Type} (ce : certOps W) `{!CertOpsLaws ce} (p : selfManagedCertPolicy).

(** The stored Secrets after the pass at a time. A pass writes the CA Secret first; the
    write of the server Secret may fail. *)
Inductive rotation : Z → gmap string string → gmap string string → Prop :=
  | rotation_start now names w pl w' sv : planSelfManagedTLS ce ∅ ∅ names now p w = (inl pl, w') →
      host_name (hd "" names) = true → (sv = ∅ ∨ sv = pl_Server pl) → rotation now (pl_CA pl) sv
  | rotation_pass t ca sv now names w pl w' sv' : rotation t ca sv → t ≤ now ≤ t + max_gap p →
      planSelfManagedTLS ce ca sv names now p w = (inl pl, w') → host_name (hd "" names) = true →
      (sv' = sv ∨ sv' = pl_Server pl) → rotation now (pl_CA pl) sv'.

Definition good_ca (now : Z) (a : keyPair) : Prop :=
  usable a ∧ crt_IsCA (kp_Cert a) = true ∧ crt_NotBefore (kp_Cert a) ≤ now ∧ now < crt_NotAfter (kp_Cert a) - cp_CASwitchBefore p.

Definition good_next (now : Z) (a m : keyPair) : Prop :=
  usable m ∧ crt_IsCA (kp_Cert m) = true ∧ crt_NotBefore (kp_Cert m) ≤ now ∧
  crt_NotAfter (kp_Cert a) - cp_CAPrepareBefore p + cp_CAValidity p - second_ns < crt_NotAfter (kp_Cert m).

Definition good_leaf (now : Z) (a leaf : keyPair) (names : list string) : Prop :=
  crt_DNSNames (kp_Cert leaf) = names ∧ now < crt_NotAfter (kp_Cert leaf) - cp_ServerRenewBefore p ∧
  Verify (kp_Cert leaf) {| vo_DNSName := hd "" names; vo_Roots := [kp_Cert a]; vo_Intermediates := []; vo_CurrentTime := now;
                           vo_KeyUsages := [ServerAuth] |} = None.

(** What the Secrets hold. *)
Definition stored_ok (t : Z) (ca sv : gmap string string) : Prop :=
  ∃ a, active_of ca = Some a ∧ good_ca t a ∧ (next_of ca = None → t < crt_NotAfter (kp_Cert a) - cp_CAPrepareBefore p) ∧
    (∀ m, next_of ca = Some m → good_next t a m ∧ kp_Cert m ∈ bundle_of ca) ∧
    kp_Cert a ∈ bundle_of ca ∧ Forall known (bundle_of ca) ∧ data_at ca TLSSecretKeyCA = encodeBundle (bundle_of ca) ∧
    (sv = ∅ ∨ ∃ leaf, holds_leaf sv leaf).

Lemma fresh_good_ca now a : policy_ok p → fresh_ca p now a → good_ca now a.
Proof. intros (? & ? & ? & ? & ?) (? & ? & ? & ?). unfold good_ca. assert (0 < second_ns) by done. split_and!; [done..|lia|lia]. Qed.

Lemma good_next_lasts now a m : policy_ok p → good_ca now a → good_next now a m → now + cp_CAPrepareBefore p ≤ crt_NotAfter (kp_Cert m).
Proof. intros (? & ? & ? & ? & ?) (_ & _ & _ & ?) (_ & _ & _ & ?). lia. Qed.

Lemma nothing_stored now : active_of ∅ = None ∧ preparedCA ∅ now = None ∧ leaf_of ∅ = None.
Proof.
  unfold active_of, preparedCA, leaf_of, data_at, parseKeyPair. rewrite !lookup_empty. simpl. by rewrite decode_empty.
Qed.

(** *** The choices of a pass *)

Lemma active_start name now w a n w' :
  policy_ok p → chooseActive ce ∅ name now p w = (inl (a, n), w') → good_ca now a ∧ n = None.
Proof.
  intros Hp Hc. destruct (nothing_stored now) as (Ha & Hn & _). apply (chooseActive_spec ce p) in Hc. rewrite Ha, Hn in Hc.
  destruct Hc as [(_ & ? & _)|(_ & -> & [?|[_ ?]])]; [done|done|]. split; [by apply fresh_good_ca|done].
Qed.

Lemma active_pass t ca sv name now w a n w' :
  policy_ok p → stored_ok t ca sv → t ≤ now ≤ t + max_gap p → chooseActive ce ca name now p w = (inl (a, n), w') →
  good_ca now a ∧ kp_Cert a ∈ bundle_of ca ∧ (∀ m, n = Some m → good_next now a m).
Proof.
  intros Hp (a0 & Ha0 & Hg & Hnone & Hsome & Hin & _) Ht Hc. pose proof Hp as (Hp1 & Hp2 & Hp3 & Hp4 & Hp5).
  pose proof Hg as (Hu & Hca & Hnb & Hna). unfold max_gap in Ht. assert (0 < second_ns) by done.
  assert (∀ m, next_of ca = Some m → preparedCA ca now = Some m ∧ good_next now a0 m ∧ now < crt_NotAfter (kp_Cert m) - cp_CASwitchBefore p) as Hprep.
  { intros m Hm. destruct (Hsome m Hm) as [(Hum & Hcm & Hbm & Hlm) _]. split_and!; [|unfold good_next; split_and!; [done|done|lia|lia]|lia].
    unfold preparedCA. fold (next_of ca). rewrite Hm, Hcm. unfold before. rewrite bool_decide_true by lia. done. }
  assert (∀ m, preparedCA ca now = Some m → next_of ca = Some m) as Hback.
  { intros m. unfold preparedCA. fold (next_of ca). destruct (next_of ca) as [m'|]; [|done]. case_match; [done|]. by intros [= ->]. }
  apply (chooseActive_spec ce p) in Hc. rewrite Ha0 in Hc. unfold switchDue in Hc. rewrite Hca in Hc. unfold before in Hc. simpl in Hc.
  destruct (bool_decide_reflect (now < crt_NotAfter (kp_Cert a0) - cp_CASwitchBefore p)) as [Hlt|Hge]; simpl in Hc.
  - destruct Hc as [(_ & [= <-] & -> & _)|(? & _)]; [|done]. split_and!; [unfold good_ca; split_and!; [done|done|lia|lia]|done|].
    intros m Hm. by apply Hprep, Hback.
  - destruct Hc as [(? & _)|(_ & -> & Hc)]; [done|]. destruct (next_of ca) as [m|] eqn:Em.
    + destruct (Hprep m eq_refl) as (Hpm & Hgm & Hlm). destruct Hc as [Hc|[Hc _]]; [|congruence].
      assert (a = m) as -> by congruence. destruct Hgm as (? & ? & ? & ?). split_and!; [by split_and!|by apply Hsome|done].
    + specialize (Hnone eq_refl). lia.
Qed.

Lemma next_good a n name now w n' w' :
  policy_ok p → good_ca now a → (∀ m, n = Some m → good_next now a m) → prepareNext ce a n name now p w = (inl n', w') →
  (∀ m, n' = Some m → good_next now a m) ∧ (n' = None → now < crt_NotAfter (kp_Cert a) - cp_CAPrepareBefore p).
Proof.
  intros Hp Hg Hn Hc. apply (prepareNext_spec ce p) in Hc as [(-> & Hnone & _)|(-> & Hle & m & -> & (Hu & Hca & Hnb & Hna))]; [done|].
  split; [|done]. intros m' [= <-]. split_and!; [done..|lia].
Qed.

Lemma server_good a sv names now w leaf sd w' :
  policy_ok p → good_ca now a → (sv = ∅ ∨ ∃ leaf, holds_leaf sv leaf) → host_name (hd "" names) = true → names ≠ [] →
  planServer ce a sv names now p w = (inl (leaf, sd), w') → holds_leaf sd leaf ∧ good_leaf now a leaf names.
Proof.
  intros (Hp1 & Hp2 & Hp3 & Hp4 & Hp5) (Hu & Hca & Hnb & Hna) Hsv Hhost Hne Hc.
  apply (planServer_spec ce p) in Hc as [(Hl & -> & _ & Hcur)|[(Hul & Hdns & Hnbl & Hnal & Hv) Hh]].
  - destruct Hsv as [->|[leaf' Hh]]; [by rewrite (proj2 (proj2 (nothing_stored now))) in Hl|].
    assert (leaf' = leaf) as -> by (apply holds_leaf_of in Hh; congruence). split; [done|].
    unfold serverCertCurrent in Hcur. destruct (bool_decide_reflect (crt_DNSNames (kp_Cert leaf) = names)); [|done].
    unfold before in Hcur. destruct (bool_decide_reflect (now < crt_NotAfter (kp_Cert leaf) - cp_ServerRenewBefore p)); [|done].
    simpl in Hcur. by apply bool_decide_eq_true in Hcur.
  - split; [done|]. assert (0 < second_ns) by done.
    pose proof (whole_second_bounds (Z.min (now + cp_ServerValidity p) (crt_NotAfter (kp_Cert a)))) as Hw. rewrite <-Hnal in Hw.
    split_and!; [done|lia|]. apply Hv; [done|done|done| |lia|lia]. destruct names; [done|by left].
Qed.

(** *** The whole pass *)

Lemma bundle_known a n prev now :
  usable a → (∀ m, n = Some m → usable m) → Forall known (trustBundle a n prev now).
Proof.
  intros [Ha _] Hn. unfold trustBundle.
  destruct (addTrusted_foldl now (kp_Cert a :: match n with Some m => [kp_Cert m] | None => [] end) (parseCertBundle prev)) as (rest & -> & _ & Hsub).
  apply Forall_app. split.
  - constructor; [done|]. destruct n as [m|]; constructor; [by apply Hn|constructor].
  - rewrite Forall_forall. intros c Hc%Hsub. pose proof (parseCertBundle_known prev) as Hk. rewrite Forall_forall in Hk. auto.
Qed.

(** What a pass leaves, given that its choice of the active CA is good. *)
Definition outcome (prev : string) (names : list string) (now : Z) (pl : selfManagedTLSPlan) (a : keyPair) (leaf : keyPair) : Prop :=
  let n := next_of (pl_CA pl) in
  let bundle := trustBundle a n prev now in
  good_ca now a ∧ active_of (pl_CA pl) = Some a ∧ (∀ m, n = Some m → good_next now a m) ∧
  (n = None → now < crt_NotAfter (kp_Cert a) - cp_CAPrepareBefore p) ∧ Forall known bundle ∧
  bundle_of (pl_CA pl) = bundle ∧ data_at (pl_CA pl) TLSSecretKeyCA = encodeBundle bundle ∧ caSecretData a n bundle = inl (pl_CA pl) ∧
  holds_leaf (pl_Server pl) leaf ∧ good_leaf now a leaf names ∧ pl_Server pl !! TLSSecretKeyCA = Some (encodeBundle bundle) ∧
  pl_NextCheck pl = nextCheck leaf a n bundle p.

Lemma pass_outcome ca sv names now w pl w' (trusted : keyPair → Prop) :
  policy_ok p → host_name (hd "" names) = true → (sv = ∅ ∨ ∃ leaf, holds_leaf sv leaf) →
  (∀ name w a n w1, chooseActive ce ca name now p w = (inl (a, n), w1) →
     good_ca now a ∧ trusted a ∧ (∀ m, n = Some m → good_next now a m)) →
  planSelfManagedTLS ce ca sv names now p w = (inl pl, w') →
  ∃ a leaf, trusted a ∧ outcome (data_at ca TLSSecretKeyCA) names now pl a leaf.
Proof.
  intros Hp Hhost Hsv Hchoice Hpl. apply (plan_spec ce p) in Hpl as (name & rest & a & n0 & n & leaf & sd & w1 & w2 & -> & Hc & Hn & Hs & Hcd & Hserver & Hnext).
  apply Hchoice in Hc as (Hg & Htr & Hgn). apply next_good in Hn as [Hgn' Hnone]; [|done..].
  eapply server_good in Hs as [Hh Hleaf]; [|done..]. exists a, leaf. split; [done|].
  pose proof Hg as (Hu & _). assert (∀ m, n = Some m → usable m) as Hum by (intros m Hm; apply (Hgn' m Hm)).
  pose proof (bundle_known a n (data_at ca TLSSecretKeyCA) now Hu Hum) as Hk.
  destruct (caSecretData_reads _ _ _ _ Hu Hum Hk Hcd) as (Ha & Hn & Hb & Hd).
  unfold outcome. rewrite Hn, Hserver, lookup_insert_eq. split_and!; [done..|by apply holds_leaf_bundle|done|done|done].
Qed.

Lemma outcome_stored prev names now pl a leaf sv :
  outcome prev names now pl a leaf → (sv = ∅ ∨ ∃ leaf, holds_leaf sv leaf) → stored_ok now (pl_CA pl) sv.
Proof.
  intros (Hg & Ha & Hn & Hnone & Hk & Hb & Hd & _) Hsv. exists a. rewrite Hb, Hd.
  split_and!; [done|done|done| | |done|done|done].
  - intros m Hm. split; [by apply Hn|]. rewrite Hm. apply addTrusted_in. right. by left.
  - apply addTrusted_in. by left.
Qed.

Lemma start_outcome names now w pl w' :
  policy_ok p → host_name (hd "" names) = true → planSelfManagedTLS ce ∅ ∅ names now p w = (inl pl, w') →
  ∃ a leaf, outcome "" names now pl a leaf.
Proof.
  intros Hp Hhost Hpl. eapply (pass_outcome _ _ _ _ _ _ _ (λ _, True)) in Hpl as (a & leaf & _ & Ho); [by exists a, leaf|done|done|by left|].
  intros name w0 a n w1 Hc. apply active_start in Hc as [Hg ->]; done.
Qed.

Lemma later_outcome t ca sv names now w pl w' :
  policy_ok p → stored_ok t ca sv → t ≤ now ≤ t + max_gap p → host_name (hd "" names) = true →
  planSelfManagedTLS ce ca sv names now p w = (inl pl, w') →
  ∃ a leaf, kp_Cert a ∈ bundle_of ca ∧ outcome (data_at ca TLSSecretKeyCA) names now pl a leaf.
Proof.
  intros Hp Hst Ht Hhost Hpl. eapply pass_outcome; [done|done| |intros; by eapply active_pass|exact Hpl].
  destruct Hst as (? & _ & _ & _ & _ & _ & _ & _ & Hsv). done.
Qed.

Lemma outcome_server prev names now pl a leaf : outcome prev names now pl a leaf → holds_leaf (pl_Server pl) leaf.
Proof. intros Ho. apply Ho. Qed.

Lemma rotation_stored t ca sv : policy_ok p → rotation t ca sv → stored_ok t ca sv.
Proof.
  intros Hp. induction 1 as [now names w pl w' sv Hpl Hhost Hsv|t ca sv now names w pl w' sv' _ IH Ht Hpl Hhost Hsv'].
  - apply start_outcome in Hpl as (a & leaf & Ho); [|done..]. eapply outcome_stored; [done|].
    destruct Hsv as [->| ->]; [by left|right]. exists leaf. by eapply outcome_server.
  - eapply later_outcome in Hpl as (a & leaf & _ & Ho); [|done..]. eapply outcome_stored; [done|].
    destruct Hsv' as [->| ->]; [|right; exists leaf; by eapply outcome_server]. destruct IH as (? & _ & _ & _ & _ & _ & _ & _ & Hsv). done.
Qed.

(** *** The theorems *)

Lemma server_loads prev names now pl a leaf :
  outcome prev names now pl a leaf →
  ∃ m, parseTLSMaterial (pl_Server pl) (hd "" names) now = inl m ∧ mat_Leaf m = kp_Cert leaf ∧ mat_CAPEM m = data_at (pl_CA pl) TLSSecretKeyCA.
Proof.
  intros (Hg & Ha & Hn & Hnone & Hk & Hb & Hd & _ & (Hul & Hc & k & Hkey & Hdk) & (_ & _ & Hv) & Hca & _).
  set (bundle := trustBundle a (next_of (pl_CA pl)) prev now) in *.
  assert (kp_Cert a ∈ bundle) as Hin by (apply addTrusted_in; by left).
  assert (data_at (pl_Server pl) TLSSecretKeyCA = encodeBundle bundle) as Hcad by (unfold data_at; by rewrite Hca).
  destruct (bundle_reads_back bundle Hk) as [Hpb Happ].
  assert (bundle ≠ []) as Hne by (intros He; rewrite He in Hin; by apply elem_of_nil in Hin).
  assert (encodeBundle bundle ≠ "") as Hne'.
  { intros He. rewrite He in Hpb. unfold parseCertBundle, pem_blocks in Hpb. simpl in Hpb. congruence. }
  pose proof (keyPEM_nonempty _ _ Hkey) as Hnk. pose proof (certPEM_nonempty leaf) as Hnc. destruct Hul as [Hknown Hpub].
  unfold parseTLSMaterial. cbn [find]. rewrite Hc, Hdk, Hcad. rewrite !bool_decide_false by done.
  rewrite (key_pair_loads leaf k) by done. rewrite Hknown, Happ, decide_False by done. cbn [omap list_omap].
  rewrite (verify_more_roots _ _ _ _ _ _ Hin Hv). eexists. split; [done|]. simpl. by rewrite Hd.
Qed.

Lemma verifies_in_bundle c root bundle host now :
  known c → Forall known bundle → root ∈ bundle →
  Verify c {| vo_DNSName := host; vo_Roots := [root]; vo_Intermediates := []; vo_CurrentTime := now; vo_KeyUsages := [ServerAuth] |} = None →
  certVerifies (crt_Raw c) (encodeBundle bundle) host now = true.
Proof.
  intros Hc Hb Hin Hv. unfold certVerifies. unfold known in Hc. rewrite Hc. rewrite (proj2 (bundle_reads_back bundle Hb)).
  rewrite decide_False by (intros ->; by apply elem_of_nil in Hin). apply bool_decide_eq_true. by eapply verify_more_roots.
Qed.

(** C39: the rotation of the self-managed CA. In every history of passes that are not
    further apart than the time between preparing and using the next CA (two years by
    default), and in which the write of the server Secret may fail: a pass gives a
    server Secret that passes the operator's validation for sslmode=verify-full;
    clients that still have the CA bundle of the previous pass verify the new server
    certificate; and clients that have the new bundle verify every certificate of a CA
    that was trusted before and is still valid, such as the one that the server
    presents until it is reloaded. *)
Theorem ca_rotation_trusted t ca sv now names w pl w' :
  policy_ok p → rotation t ca sv → t ≤ now ≤ t + max_gap p → host_name (hd "" names) = true →
  planSelfManagedTLS ce ca sv names now p w = (inl pl, w') →
  (∃ m, parseTLSMaterial (pl_Server pl) (hd "" names) now = inl m ∧
     mat_CAPEM m = data_at (pl_CA pl) TLSSecretKeyCA ∧
     certVerifies (crt_Raw (mat_Leaf m)) (data_at ca TLSSecretKeyCA) (hd "" names) now = true) ∧
  ∀ old root host, ParseCertificate (crt_Raw old) = inl old → root ∈ bundle_of ca → crt_IsCA root = true → now < crt_NotAfter root →
    Verify old {| vo_DNSName := host; vo_Roots := [root]; vo_Intermediates := []; vo_CurrentTime := now;
                  vo_KeyUsages := [ServerAuth] |} = None →
    certVerifies (crt_Raw old) (data_at (pl_CA pl) TLSSecretKeyCA) host now = true.
Proof.
  intros Hp Hr Ht Hhost Hpl. pose proof (rotation_stored _ _ _ Hp Hr) as Hst. pose proof Hst as (_ & _ & _ & _ & _ & _ & Hkb & Hdb & _).
  eapply later_outcome in Hpl as (a & leaf & Htr & Ho); [|done..]. split.
  - destruct (server_loads _ _ _ _ _ _ Ho) as (m & Hm & Hl & Hcap). exists m. split_and!; [done..|]. rewrite Hl, Hdb.
    destruct Ho as (_ & _ & _ & _ & _ & _ & _ & _ & ((Hkl & _) & _) & (_ & _ & Hv) & _). by eapply verifies_in_bundle.
  - intros old root host Hold Hin Hca Hna Hv. destruct Ho as (_ & _ & _ & _ & Hk & Hb & Hd & _). rewrite Hd.
    unfold trustBundle in *. destruct (addTrusted_covers now (kp_Cert a :: match next_of (pl_CA pl) with Some m => [kp_Cert m] | None => [] end)
      (parseCertBundle (data_at ca TLSSecretKeyCA)) root Hin Hca Hna) as (b & Hbin & Hraw).
    rewrite Forall_forall in Hkb. assert (b = root) as ->.
    { eapply known_raw; [|by apply Hkb|done]. rewrite Forall_forall in Hk. by apply Hk. }
    by eapply verifies_in_bundle.
Qed.

Lemma foldl_min x l : foldl Z.min x l ≤ x ∧ Forall (λ y, foldl Z.min x l ≤ y) l ∧ ∀ z, z < x → Forall (λ y, z < y) l → z < foldl Z.min x l.
Proof.
  revert x. induction l as [|y l IH]; intros x; simpl; [split_and!; [lia|constructor|done]|].
  destruct (IH (x `min` y)) as (Hx & Hl & Hz). split_and!; [lia|constructor; [lia|done]|].
  intros z Hzx [Hzy Hzl]%Forall_cons. apply Hz; [lia|done].
Qed.

Lemma tail_bundle a n prev now : ∃ rest,
  trustBundle a n prev now = (kp_Cert a :: match n with Some m => [kp_Cert m] | None => [] end) ++ rest ∧
  added now (kp_Cert a :: match n with Some m => [kp_Cert m] | None => [] end) rest ∧
  tail (trustBundle a n prev now) = match n with Some m => [kp_Cert m] | None => [] end ++ rest.
Proof.
  unfold trustBundle. destruct (addTrusted_foldl now (kp_Cert a :: match n with Some m => [kp_Cert m] | None => [] end) (parseCertBundle prev))
    as (rest & -> & Hadd & _). by exists rest.
Qed.

Lemma outcome_due prev names now pl a leaf : policy_ok p → outcome prev names now pl a leaf → now < pl_NextCheck pl.
Proof.
  intros Hp (Hg & Ha & Hn & Hnone & Hk & Hb & Hd & _ & Hh & (_ & Hleaf & _) & _ & ->). unfold nextCheck.
  apply foldl_min; [lia|]. constructor; [by apply Hg|]. apply Forall_app. split.
  - destruct (next_of (pl_CA pl)); [constructor|]. constructor; [by apply Hnone|constructor].
  - destruct (tail_bundle a (next_of (pl_CA pl)) prev now) as (rest & _ & Hadd & ->). apply Forall_fmap, Forall_app. split.
    + destruct (next_of (pl_CA pl)) as [m|]; constructor; [|constructor]. simpl.
      pose proof (good_next_lasts now a m Hp Hg (Hn m eq_refl)). destruct Hp as (? & ? & ? & ? & ?). assert (0 < second_ns) by done. lia.
    + apply added_valid in Hadd. eapply Forall_impl; [exact Hadd|]. by intros c [_ Hc].
Qed.

(** What the next check bounds. *)
Lemma before_check leaf a n bundle now : now < nextCheck leaf a n bundle p →
  now < crt_NotAfter (kp_Cert leaf) - cp_ServerRenewBefore p ∧ now < crt_NotAfter (kp_Cert a) - cp_CASwitchBefore p ∧
  (n = None → now < crt_NotAfter (kp_Cert a) - cp_CAPrepareBefore p) ∧ Forall (λ c, now < crt_NotAfter c) (tail bundle).
Proof.
  unfold nextCheck. intros Hlt.
  match type of Hlt with _ < foldl _ ?x ?l => destruct (foldl_min x l) as (M1 & M2 & _) end.
  apply Forall_cons in M2 as [M2 [M3 M4]%Forall_app]. split_and!; [lia|lia| |].
  - intros ->. apply Forall_cons in M3 as [M3 _]. lia.
  - rewrite Forall_fmap in M4. eapply Forall_impl; [exact M4|]. intros c Hc. exact (Z.lt_le_trans _ _ _ Hlt Hc).
Qed.

Lemma bundle_again a n prev now now' :
  Forall known (trustBundle a n prev now) → Forall (λ c, now' < crt_NotAfter c) (tail (trustBundle a n prev now)) →
  trustBundle a n (encodeBundle (trustBundle a n prev now)) now' = trustBundle a n prev now.
Proof.
  intros Hk Ht. destruct (tail_bundle a n prev now) as (rest & Heq & Hadd & Htl). rewrite Htl in Ht. apply Forall_app in Ht as [_ Ht].
  unfold trustBundle at 1. rewrite (proj1 (bundle_reads_back _ Hk)), Heq, foldl_app.
  set (start := kp_Cert a :: _) in *. rewrite (addTrusted_start now' start start) by (intros ? Hin; exact Hin). by eapply addTrusted_again.
Qed.

Lemma prepared_again ca m now : next_of ca = Some m → crt_IsCA (kp_Cert m) = true → now < crt_NotAfter (kp_Cert m) → preparedCA ca now = Some m.
Proof. intros Hm Hca Hna. unfold preparedCA. fold (next_of ca). rewrite Hm, Hca. unfold before. by rewrite bool_decide_true by done. Qed.

Lemma outcome_idle prev names now pl a leaf now' w :
  policy_ok p → names ≠ [] → outcome prev names now pl a leaf → now ≤ now' < pl_NextCheck pl →
  planSelfManagedTLS ce (pl_CA pl) (pl_Server pl) names now' p w = (inl pl, w).
Proof.
  intros (P1 & P2 & _) Hne (Hg & Ha & Hn & Hnone & Hk & Hb & Hd & Hcd & Hh & (Hdns & Hleaf & Hv) & Hca & Hnc) [Hnow Hdue].
  rewrite Hnc in Hdue. apply before_check in Hdue as (D1 & D2 & D3 & D4). pose proof Hg as (_ & Hisca & _ & _).
  destruct names as [|name names]; [done|]. unfold planSelfManagedTLS, chooseActive. cbv zeta. fold (active_of (pl_CA pl)). rewrite Ha.
  unfold switchDue at 1. rewrite Hisca. unfold before at 1. rewrite bool_decide_true by done. cbn [negb orb].
  assert (preparedCA (pl_CA pl) now' = next_of (pl_CA pl)) as ->.
  { destruct (next_of (pl_CA pl)) as [m|] eqn:Em; [|unfold preparedCA; fold (next_of (pl_CA pl)); by rewrite Em].
    destruct (Hn m eq_refl) as (_ & Hm & _). apply prepared_again; [done..|].
    destruct (tail_bundle a (Some m) prev now) as (rest & _ & _ & Htl). rewrite Htl in D4. by apply Forall_cons in D4 as [? _]. }
  unfold mbind, M_bind, mret, M_ret. 
  assert (prepareNext ce a (next_of (pl_CA pl)) name now' p w = (inl (next_of (pl_CA pl)), w)) as ->.
  { unfold prepareNext. destruct (next_of (pl_CA pl)) as [m|]; [done|]. unfold before. by rewrite bool_decide_true by (by apply D3). }
  rewrite Hd, bundle_again, Hcd by done. unfold planServer. cbv zeta. fold (leaf_of (pl_Server pl)). rewrite (holds_leaf_of _ _ Hh).
  assert (serverCertCurrent (Some leaf) a (name :: names) now' p = true) as ->.
  { unfold serverCertCurrent. rewrite Hdns, bool_decide_true by done. unfold before. rewrite bool_decide_true by done. cbn [negb].
    apply bool_decide_eq_true. assert (0 < second_ns) by done. eapply verify_later; [exact Hnow|lia|lia|exact Hv]. }
  cbn [mret M_ret]. unfold M_ret. rewrite (insert_id _ _ _ Hca), <-Hnc. by destruct pl.
Qed.

(** C40: the self-managed certificates are left alone until they are due. After every
    pass of a history the next check lies in the future, and until then a pass finds
    what it would write: it keeps both Secrets as they are, asks for the same next check
    and creates no key or certificate. *)
Theorem self_managed_idle t ca sv now names w pl w' later w1 :
  policy_ok p → rotation t ca sv → t ≤ now ≤ t + max_gap p → host_name (hd "" names) = true →
  planSelfManagedTLS ce ca sv names now p w = (inl pl, w') →
  now < pl_NextCheck pl ∧
  (now ≤ later < pl_NextCheck pl → planSelfManagedTLS ce (pl_CA pl) (pl_Server pl) names later p w1 = (inl pl, w1)).
Proof.
  intros Hp Hr Ht Hhost Hpl. assert (names ≠ []) as Hne by (intros ->; done).
  eapply later_outcome in Hpl as (a & leaf & _ & Ho); [|done|by eapply rotation_stored|done..].
  split; [by eapply outcome_due|]. intros Hl. by eapply outcome_idle.
Qed.
End rotation.

(** ** A concrete X.509

    A certificate is the list of its fields with the issuer's key; PEM marks the bytes
    of a block and its end. *)

Module Toy.
Fixpoint dotted (s : string) : string := match s with EmptyString => "!" | String c s => String "." (String c (dotted s)) end.

Fixpoint undot (s : string) : option (string * string) :=
  match s with
  | String c s =>
      if decide (c = "!"%char) then Some ("", s)
      else match s with
           | String d s => '(x, rest) ← undot s; Some (String d x, rest)
           | EmptyString => None
           end
  | EmptyString => None
  end.

Lemma undot_dotted s rest : undot (dotted s +:+ rest) = Some (s, rest).
Proof. induction s as [|c s IH]; [done|]. simpl. by rewrite IH. Qed.

Lemma undot_shorter s x rest : undot s = Some (x, rest) → (String.length rest < String.length s)%nat.
Proof.
  revert x. induction s as [s IH] using (induction_ltof1 _ String.length). intros x. destruct s as [|c s]; [done|]. simpl.
  case_decide; [intros [= <- <-]; simpl; lia|]. destruct s as [|d s]; [done|].
  destruct (undot s) as [[y r]|] eqn:E; [|done]. intros [= <- <-]. apply IH in E; [simpl; lia|]. unfold ltof. simpl. lia.
Qed.

Definition dots (l : list string) : string := foldr (λ s acc, dotted s +:+ acc) "" l.

Fixpoint undots (fuel : nat) (s : string) : list string :=
  match fuel with
  | O => []
  | S fuel => match undot s with None => [] | Some (x, rest) => x :: undots fuel rest end
  end.

Lemma undots_dots l fuel : (String.length (dots l) ≤ fuel)%nat → undots fuel (dots l) = l.
Proof.
  revert fuel. induction l as [|s l IH]; intros fuel Hf; [by destruct fuel|].
  cbn [dots foldr] in *. fold (dots l) in *. pose proof (undot_dotted s (dots l)) as Hu. apply undot_shorter in Hu as Hs.
  destruct fuel as [|fuel]; [lia|]. simpl. rewrite Hu. f_equal. apply IH. lia.
Qed.

Definition read (s : string) : list string := undots (String.length s) s.
Lemma read_dots l : read (dots l) = l.
Proof. by apply undots_dots. Qed.

Fixpoint pos_bits (q : positive) : string :=
  match q with xH => "" | xO q => String "0" (pos_bits q) | xI q => String "1" (pos_bits q) end.
Fixpoint bits_pos (s : string) : positive :=
  match s with EmptyString => xH | String c s => if decide (c = "0"%char) then xO (bits_pos s) else xI (bits_pos s) end.
Lemma bits_pos_bits q : bits_pos (pos_bits q) = q.
Proof. induction q as [q IH|q IH|]; simpl; rewrite ?IH; done. Qed.

Definition z_text (z : Z) : string := pos_bits (encode z).
Definition text_z (s : string) : Z := default 0 (decode (bits_pos s)).
Lemma text_z_text z : text_z (z_text z) = z.
Proof. unfold text_z, z_text. by rewrite bits_pos_bits, decode_encode. Qed.

Definition usage_char (u : ExtKeyUsage) : ascii := match u with ServerAuth => "S" | ClientAuth => "C" | OtherUsage => "O" end%char.
Definition char_usage (c : ascii) : ExtKeyUsage := if decide (c = "S"%char) then ServerAuth else if decide (c = "C"%char) then ClientAuth else OtherUsage.
Definition usages_text (l : list ExtKeyUsage) : string := foldr (λ u s, String (usage_char u) s) "" l.
Fixpoint text_usages (s : string) : list ExtKeyUsage := match s with EmptyString => [] | String c s => char_usage c :: text_usages s end.
Lemma text_usages_text l : text_usages (usages_text l) = l.
Proof. induction l as [|[] l IH]; simpl; rewrite ?IH; done. Qed.

Definition parse (der : string) : result Cert :=
  match read der with
  | pub :: cn :: issuer :: nb :: na :: ca :: us :: dns =>
      inl {| crt_Raw := der; crt_PublicKey := pub; crt_CommonName := cn; crt_DNSNames := dns; crt_NotBefore := text_z nb;
             crt_NotAfter := text_z na; crt_IsCA := bool_decide (ca = "1"); crt_ExtKeyUsage := text_usages us |}
  | _ => inr (Errorf "malformed certificate" [])
  end.

Definition issuer (c : Cert) : option string := match read (crt_Raw c) with _ :: _ :: i :: _ => Some i | _ => None end.

Definition parse_key (der : string) : result Key :=
  match read der with [pub; priv] => inl {| key_Public := pub; key_Private := priv |} | _ => inr (Errorf "malformed key" []) end.

Definition decode_pem (s : string) : option (PemBlock * string) :=
  match s with
  | String c s =>
      '(bytes, rest) ← undot s;
      Some ({| blk_Type := if decide (c = "C"%char) then pemTypeCertificate else "PRIVATE KEY"; blk_Headers := []; blk_Bytes := bytes |}, rest)
  | EmptyString => None
  end.

Definition encode_pem (b : PemBlock) : string :=
  String (if decide (blk_Type b = pemTypeCertificate) then "C" else "K")%char (dotted (blk_Bytes b)).

Definition in_time (c : Cert) (now : Z) : bool := bool_decide (crt_NotBefore c ≤ now) && bool_decide (now ≤ crt_NotAfter c).

Definition chains (c root : Cert) (now : Z) : bool :=
  crt_IsCA root && bool_decide (issuer c = Some (crt_PublicKey root)) && in_time c now && in_time root now.

Definition accepts (c : Cert) (name : string) (usages : list ExtKeyUsage) : bool :=
  bool_decide (name = "" ∨ name ∈ crt_DNSNames c) && existsb (λ u, bool_decide (u ∈ crt_ExtKeyUsage c)) usages.

#[local] Instance toy_x509 : X509 :=
  {| ParseCertificate := parse; ParsePKCS8PrivateKey := parse_key; MarshalPKCS8PrivateKey := λ k, inl (dots [key_Public k; key_Private k]);
     pem_Decode := decode_pem; pem_EncodeToMemory := encode_pem;
     X509KeyPair := λ cert key,
       match decode_pem cert, decode_pem key with
       | Some (b, _), Some _ => inl (blk_Bytes b, [])
       | _, _ => inr (Errorf "no PEM data" [])
       end;
     Verify := λ c o, if accepts c (vo_DNSName o) (vo_KeyUsages o) && existsb (λ root, chains c root (vo_CurrentTime o)) (vo_Roots o)
                      then None else Some (Errorf "certificate signed by unknown authority" []) |}.

Lemma decode_encode_pem b rest : blk_Type b ∈ pem_types → blk_Headers b = [] → decode_pem (encode_pem b +:+ rest) = Some (b, rest).
Proof.
  destruct b as [t h bytes]. unfold encode_pem. simpl. intros Ht ->. rewrite undot_dotted. simpl.
  apply elem_of_cons in Ht as [->|[->|[]%elem_of_nil]%elem_of_cons]; done.
Qed.

#[local] Instance toy_laws : X509Laws.
Proof.
  split.
  - intros der c. simpl. unfold parse. destruct (read der) as [|? [|? [|? [|? [|? [|? [|? ?]]]]]]]; try done. by intros [= <-].
  - intros k der. cbn [MarshalPKCS8PrivateKey ParsePKCS8PrivateKey toy_x509]. intros Hd.
    assert (der = dots [key_Public k; key_Private k]) as -> by congruence. unfold parse_key. rewrite read_dots. by destruct k.
  - intros s b rest. simpl. destruct s as [|c s]; [done|]. simpl. destruct (undot s) as [[x r]|] eqn:E; [|done].
    intros [= <- <-]. apply undot_shorter in E. lia.
  - intros b rest. apply decode_encode_pem.
  - intros kp k Hp Hk Hkey. assert (∀ b, blk_Type b ∈ pem_types → blk_Headers b = [] → decode_pem (encode_pem b) = Some (b, "")) as Hdec.
    { intros b Hb Hh. rewrite <-(app_nil_r_s (encode_pem b)). by apply decode_encode_pem. }
    unfold keyPEM in Hkey. cbn [MarshalPKCS8PrivateKey pem_EncodeToMemory toy_x509] in Hkey.
    match type of Hkey with inl ?x = _ => assert (k = x) as -> by congruence end.
    cbn [X509KeyPair toy_x509]. unfold certPEM. cbn [pem_EncodeToMemory toy_x509]. by rewrite !Hdec by (simpl; set_solver).
  - intros c name root roots now usages Hin. simpl. destruct (accepts c name usages); [|done]. simpl. rewrite orb_false_r.
    destruct (chains c root now) eqn:E; [|done]. intros _.
    assert (existsb (λ root, chains c root now) roots = true) as ->; [|done]. apply existsb_exists. exists root. split; [by apply list_elem_of_In|done].
  - intros c name root now now' usages H1 H2 H3. simpl. destruct (accepts c name usages); [|done]. simpl. rewrite !orb_false_r.
    unfold chains, in_time. destruct (crt_IsCA root), (bool_decide (issuer c = _)); simpl; try done.
    repeat case_bool_decide; simpl; try done; lia.
Qed.

(** The world counts the keys. *)
Definition certs : certOps Z :=
  {| ce_GenerateKey := λ n, (inl {| key_Public := "k" +:+ Itoa n; key_Private := "" |}, n + 1);
     ce_RandomSerial := λ n, (inl 0, n);
     ce_CreateCertificate := λ tmpl _ key signer n,
       (inl (dots ([key_Public key; tm_CommonName tmpl; key_Public signer; z_text (whole_second (tm_NotBefore tmpl));
                    z_text (whole_second (tm_NotAfter tmpl)); if tm_IsCA tmpl then "1" else "0"; usages_text (tm_ExtKeyUsage tmpl)]
                   ++ tm_DNSNames tmpl)), n) |}.

#[local] Instance certs_laws : CertOpsLaws certs.
Proof.
  intros tmpl parent key signer w der w'. cbn [ce_CreateCertificate certs]. intros Hd.
  match type of Hd with (inl (dots ?l), _) = _ => pose proof (read_dots l) as Hread; assert (dots l = der) as Hder by congruence end.
  rewrite Hder in Hread. clear Hd Hder. eexists. cbn [ParseCertificate toy_x509]. unfold parse. rewrite Hread. cbn [app].
  split; [done|]. simpl. rewrite !text_z_text, text_usages_text. split_and!; try done; [by destruct (tm_IsCA tmpl)|].
  intros root name now _ Hca Hpub _ Hname Hus Hc Hr. unfold accepts. simpl.
  rewrite bool_decide_true by (by right). rewrite ?text_usages_text, bool_decide_true by done. simpl.
  unfold chains, issuer, in_time. cbn [crt_Raw]. rewrite Hread, Hca, Hpub. simpl. rewrite ?text_z_text.
  rewrite !bool_decide_true by (done || lia). done.
Qed.
#[local] Instance toy_digest : PasswordDigest := λ s, s.

(** A CA of ten days, prepared four and used two days before the end. *)
Definition policy : selfManagedCertPolicy :=
  {| cp_CAValidity := 10 * day; cp_CAPrepareBefore := 4 * day; cp_CASwitchBefore := 2 * day; cp_ServerValidity := 3 * day;
     cp_ServerRenewBefore := day |}.

Lemma policy_holds : policy_ok policy.
Proof. unfold policy_ok. vm_compute. split_and!; discriminate || reflexivity. Qed.

Definition host : string := "pg.db.svc.cluster.local".

Definition plan (ca sv : gmap string string) (now w : Z) : result selfManagedTLSPlan * Z := planSelfManagedTLS certs ca sv [host] now policy w.
Definition result_of (r : result selfManagedTLSPlan * Z) : selfManagedTLSPlan :=
  match r.1 with inl pl => pl | inr _ => {| pl_CA := ∅; pl_Server := ∅; pl_NextCheck := 0 |} end.
Definition is_plan (r : result selfManagedTLSPlan * Z) : bool := match r.1 with inl _ => true | inr _ => false end.

Lemma plan_result r : is_plan r = true → r = (inl (result_of r), r.2).
Proof. by destruct r as [[pl|e] w]. Qed.

(** A pass every two days: the next CA is prepared on the sixth day and used on the
    eighth. *)
Definition r0 := plan ∅ ∅ 0 0.
Definition next_pass (r : result selfManagedTLSPlan * Z) (now : Z) := plan (pl_CA (result_of r)) (pl_Server (result_of r)) now r.2.
Definition r2 := next_pass r0 (2 * day).
Definition r4 := next_pass r2 (4 * day).
Definition r6 := next_pass r4 (6 * day).
Definition r8 := next_pass r6 (8 * day).

Lemma rotation_next r t now :
  rotation certs policy t (pl_CA (result_of r)) (pl_Server (result_of r)) → t ≤ now ≤ t + max_gap policy →
  is_plan (next_pass r now) = true →
  rotation certs policy now (pl_CA (result_of (next_pass r now))) (pl_Server (result_of (next_pass r now))).
Proof.
  intros Hr Ht Hp. eapply (rotation_pass _ _ t _ _ now [host]); [exact Hr|exact Ht|apply plan_result, Hp|by vm_compute|by right].
Qed.

Ltac next_pass r t := apply (rotation_next r t); [|vm_compute; split; discriminate|vm_compute; reflexivity].

Lemma rotation_six : rotation certs policy (6 * day) (pl_CA (result_of r6)) (pl_Server (result_of r6)).
Proof.
  unfold r6. next_pass r4 (4 * day). unfold r4. next_pass r2 (2 * day). unfold r2. next_pass r0 0.
  refine (rotation_start certs policy 0 [host] 0 (result_of r0) r0.2 (pl_Server (result_of r0)) (plan_result r0 _) _ (or_intror eq_refl)).
  - vm_compute. reflexivity.
  - vm_compute. reflexivity.
Qed.

Definition signing_key (r : result selfManagedTLSPlan * Z) : option string := (key_Public ∘ kp_Key) <$> active_of (pl_CA (result_of r)).

Lemma ca_rotation_trusted_witness :
  signing_key r6 ≠ signing_key r8 ∧
  ∃ m : tlsMaterial, parseTLSMaterial (pl_Server (result_of r8)) host (8 * day) = inl m ∧
    certVerifies (crt_Raw (mat_Leaf m)) (data_at (pl_CA (result_of r6)) TLSSecretKeyCA) host (8 * day) = true.
Proof.
  split; [by vm_compute|].
  destruct (ca_rotation_trusted certs policy (6 * day) (pl_CA (result_of r6)) (pl_Server (result_of r6)) (8 * day) [host] r6.2
    (result_of r8) r8.2 policy_holds rotation_six) as [(m & Hm & _ & Hv) _].
  - by vm_compute.
  - by vm_compute.
  - apply (plan_result r8). by vm_compute.
  - exists m. by split.
Defined.

Lemma self_managed_idle_witness :
  8 * day < pl_NextCheck (result_of r8) ∧
  plan (pl_CA (result_of r8)) (pl_Server (result_of r8)) (8 * day + 3600 * second_ns) 7 = (inl (result_of r8), 7).
Proof.
  destruct (self_managed_idle certs policy (6 * day) (pl_CA (result_of r6)) (pl_Server (result_of r6)) (8 * day) [host] r6.2
    (result_of r8) r8.2 (8 * day + 3600 * second_ns) 7 policy_holds rotation_six) as [Hn Hi].
  - by vm_compute.
  - by vm_compute.
  - apply (plan_result r8). by vm_compute.
  - split; [exact Hn|]. apply Hi. split; [vm_compute; intros ?; discriminate|vm_compute; reflexivity].
Defined.
End Toy.
