(* ===== verification/ClusterReconcile.v ===== *)
(** * The Cluster reconciler (src/internal/controller/cluster_controller.go, replication.go,
    pgbackrest.go)

    One pass of [Reconcile]: the Secrets, the Services, the TLS Secret, the ConfigMaps,
    the StatefulSet, the certificates of the running servers and the status, and the
    passes of the components in between (replication, parameters, archive health). The
    Cluster in memory is its spec ([PodCluster]) and its status, which is passed and
    returned. A panic is an outcome of its own. Log lines are left out. *)

From Stdlib Require Import Ascii.
From S2P Require Import Prelude GoStrings GoStrconv GoUrl RoleSql ApiTypes RolePolicy Objects Password Connection Pgbackrest Replication.
From S2P Require Import ReplicationReconcile RoleReconcile PgConfig Restore BackupRun ArchiveHealth PgHba PodTemplate Tls.

Open Scope Z_scope.

Definition clusterFinalizer : string := "pgop.ruck.io/cluster-finalizer".
Definition ConditionTypeTLSReady : string := "TLSReady".
Definition ReasonTLSActive : string := "TLSActive".
Definition ReasonCertificateReloading : string := "CertificateReloading".
Definition AnnotationTLSRestart : string := "pgop.ruck.io/tls-restart".
Definition ConditionTypePhysicalBackup : string := "PhysicalBackup".
Definition reasonInvalid : string := "Invalid".
Definition ConditionTypeExistingVolume : string := "ExistingVolume".
Definition ReasonPreExistingPVC : string := "PreExistingPVC".
Definition ReasonNewVolume : string := "NewVolume".
Definition ConditionTypeReplicationHealthy : string := "ReplicationHealthy".
Definition ReasonPausedForRestore : string := "PausedForRestore".
Definition ConditionTypeRestoreInterrupted : string := "RestoreInterrupted".
Definition LabelStatefulSetPodName : string := "statefulset.kubernetes.io/pod-name".
Definition maxTLSRecheckInterval : Z := 12 * hour_ns.

(** ** Objects *)

(** The status but for [lastRestore], which a pass carries along unchanged. *)
Record ClusterStatus := {
  cs_Conditions : list Condition;
  cs_Ready : bool;
  cs_SecretName : string;
  cs_Endpoint : string;
  cs_ReadOnlyEndpoint : string;
  cs_ReadyInstances : Z;
  cs_CurrentPrimary : string;
  cs_TLSSecretHash : string;
  cs_ParametersHash : string;
  cs_PendingRestart : list string;
  cs_LastWALDrop : option WALDropRecord }.

(** A Cluster as it is read. *)
Record ClusterObject := {
  cb_spec : PodCluster;
  cb_IssuerRef : option IssuerRef;
  cb_Finalizers : list string;
  cb_Deleting : bool;
  cb_Status : ClusterStatus }.

Record ServicePort := { sp_Name : string; sp_Port : Z; sp_TargetPort : Z; sp_Protocol : string }.
#[export] Instance ServicePort_eq_dec : EqDecision ServicePort. Proof. solve_decision. Defined.

Record Service := {
  svc_Name : string;
  svc_ControlledByCluster : bool;
  svc_Labels : gmap string string;
  svc_Selector : gmap string string;
  svc_Ports : list ServicePort }.

(** A StatefulSet to create; the claim template has the storage size and class. *)
Record NewStatefulSet := {
  ns_Name : string;
  ns_Labels : gmap string string;
  ns_Replicas : Z;
  ns_Retention : Retention;
  ns_Selector : gmap string string;
  ns_SecurityContext : PodSecurityContext;
  ns_Template : PodTemplate;
  ns_ClaimName : string;
  ns_StorageSize : Z;
  ns_StorageClass : option string }.

(** A pod with the kind and name of its controller. *)
Definition OwnedPod : Type := Pod * option (string * string).

(** Whether an API error is an optimistic-concurrency conflict. *)
Class ApiErrors := { IsConflict : gerr → bool }.

(** ** The API server and the servers

    The operations of the components are those of their files: [cx_params] also reads
    Secrets and handles ConfigMaps and the annotations of the pod template, [cx_repl]
    also lists the volumes, patches pods and updates the credentials Secret. Deletes
    answer [None] when the object is gone. [cx_Probe]: the DER certificate the server at
    an address presents. [cx_Event]: type, reason, action and message. *)
Record clusterOps (W : Type) := {
  cx_GetCluster : M W (result (option ClusterObject));
  cx_PatchFinalizers : list string → M W error;
  cx_UpdateStatus : ClusterStatus → M W error;
  cx_random : nat → M W (result string);
  cx_CreateSecret : Secret → M W (result Secret);
  cx_CreateMarkerSecret : Secret → M W (result bool);
  cx_GetStatefulSet : M W (result (option PgStatefulSet));
  cx_CreateStatefulSet : NewStatefulSet → M W error;
  cx_UpdateStatefulSet : PgStatefulSet → M W error;
  cx_ListBackups : M W (result (list Backup));
  cx_GetService : string → M W (result (option Service));
  cx_CreateService : Service → M W error;
  cx_UpdateService : Service → M W error;
  cx_DeleteService : Service → M W error;
  cx_PVCExists : string → M W (result bool);
  cx_ListPods : M W (result (list OwnedPod));
  cx_Probe : string → string → M W (result string);
  cx_Reload : ConnectionConfig → string → M W error;
  cx_Event : string → string → string → string → M W ();
  cx_tls : tlsOps W;
  cx_repl : ReplicationAPI W;
  cx_params : parameterOps W;
  cx_archive : archiveOps W }.
Arguments cx_GetCluster {W}. Arguments cx_PatchFinalizers {W}. Arguments cx_UpdateStatus {W}. Arguments cx_random {W}.
Arguments cx_CreateSecret {W}. Arguments cx_CreateMarkerSecret {W}. Arguments cx_GetStatefulSet {W}. Arguments cx_CreateStatefulSet {W}.
Arguments cx_UpdateStatefulSet {W}. Arguments cx_ListBackups {W}. Arguments cx_GetService {W}. Arguments cx_CreateService {W}.
Arguments cx_UpdateService {W}. Arguments cx_DeleteService {W}. Arguments cx_PVCExists {W}. Arguments cx_ListPods {W}.
Arguments cx_Probe {W}. Arguments cx_Reload {W}. Arguments cx_Event {W}. Arguments cx_tls {W}. Arguments cx_repl {W}.
Arguments cx_params {W}. Arguments cx_archive {W}.

(** A pass: when to come back (0: no need) and the error, or a panic. *)
Inductive Outcome := Panicked | Finished (requeueAfter : Z) (e : error).

(** ** The status in memory *)

Definition cs_set_conditions (l : list Condition) (st : ClusterStatus) : ClusterStatus :=
  {| cs_Conditions := l; cs_Ready := cs_Ready st; cs_SecretName := cs_SecretName st; cs_Endpoint := cs_Endpoint st;
     cs_ReadOnlyEndpoint := cs_ReadOnlyEndpoint st; cs_ReadyInstances := cs_ReadyInstances st;
     cs_CurrentPrimary := cs_CurrentPrimary st; cs_TLSSecretHash := cs_TLSSecretHash st; cs_ParametersHash := cs_ParametersHash st;
     cs_PendingRestart := cs_PendingRestart st; cs_LastWALDrop := cs_LastWALDrop st |}.

Definition cs_set_hash (h : string) (st : ClusterStatus) : ClusterStatus :=
  {| cs_Conditions := cs_Conditions st; cs_Ready := cs_Ready st; cs_SecretName := cs_SecretName st; cs_Endpoint := cs_Endpoint st;
     cs_ReadOnlyEndpoint := cs_ReadOnlyEndpoint st; cs_ReadyInstances := cs_ReadyInstances st;
     cs_CurrentPrimary := cs_CurrentPrimary st; cs_TLSSecretHash := h; cs_ParametersHash := cs_ParametersHash st;
     cs_PendingRestart := cs_PendingRestart st; cs_LastWALDrop := cs_LastWALDrop st |}.

Definition cs_set_instances (n : Z) (primary : string) (st : ClusterStatus) : ClusterStatus :=
  {| cs_Conditions := cs_Conditions st; cs_Ready := cs_Ready st; cs_SecretName := cs_SecretName st; cs_Endpoint := cs_Endpoint st;
     cs_ReadOnlyEndpoint := cs_ReadOnlyEndpoint st; cs_ReadyInstances := n; cs_CurrentPrimary := primary;
     cs_TLSSecretHash := cs_TLSSecretHash st; cs_ParametersHash := cs_ParametersHash st;
     cs_PendingRestart := cs_PendingRestart st; cs_LastWALDrop := cs_LastWALDrop st |}.

Definition cs_set_parameters (p : ParameterStatus) (st : ClusterStatus) : ClusterStatus :=
  {| cs_Conditions := pst_Conditions p; cs_Ready := cs_Ready st; cs_SecretName := cs_SecretName st; cs_Endpoint := cs_Endpoint st;
     cs_ReadOnlyEndpoint := cs_ReadOnlyEndpoint st; cs_ReadyInstances := cs_ReadyInstances st;
     cs_CurrentPrimary := cs_CurrentPrimary st; cs_TLSSecretHash := cs_TLSSecretHash st; cs_ParametersHash := pst_ParametersHash p;
     cs_PendingRestart := pst_PendingRestart p; cs_LastWALDrop := cs_LastWALDrop st |}.

Definition cs_set_archive (a : ArchiveStatus) (st : ClusterStatus) : ClusterStatus :=
  {| cs_Conditions := as_Conditions a; cs_Ready := cs_Ready st; cs_SecretName := cs_SecretName st; cs_Endpoint := cs_Endpoint st;
     cs_ReadOnlyEndpoint := cs_ReadOnlyEndpoint st; cs_ReadyInstances := cs_ReadyInstances st;
     cs_CurrentPrimary := cs_CurrentPrimary st; cs_TLSSecretHash := cs_TLSSecretHash st; cs_ParametersHash := cs_ParametersHash st;
     cs_PendingRestart := cs_PendingRestart st; cs_LastWALDrop := as_LastWALDrop a |}.

(** [shorterRequeue] and [earliest]; the zero time is none. *)
Definition shorterRequeue (cur d : Z) : Z := if bool_decide (cur = 0) || bool_decide (d < cur) then d else cur.
Definition earliest (a b : Z) : Z := if IsZero a || (negb (IsZero b) && bool_decide (b < a)) then b else a.

Definition servicePorts (c : PgCluster) : list ServicePort :=
  let port := clusterPort c in
  [{| sp_Name := AppNamePostgresql; sp_Port := port; sp_TargetPort := port; sp_Protocol := "TCP" |}].

Definition pgbackrestServicePort : ServicePort :=
  {| sp_Name := pgbackrestPortName; sp_Port := pgbackrestTLSPort; sp_TargetPort := pgbackrestTLSPort; sp_Protocol := "TCP" |}.

Definition primaryServiceSelector (c : PgCluster) (cl : Cluster) : gmap string string :=
  {[ LabelAppName := AppNamePostgresql; LabelAppInstance := k_Name c; LabelStatefulSetPodName := primaryPodName cl ]}.

Definition readOnlyServiceSelector (c : PgCluster) : gmap string string :=
  {[ LabelAppName := AppNamePostgresql; LabelAppInstance := k_Name c; LabelRole := LabelRoleReplica; LabelStreaming := labelValueTrue ]}.

(** The labels of every object of the Cluster. *)
Definition clusterLabels (c : PgCluster) : gmap string string :=
  {[ LabelAppName := AppNamePostgresql; LabelAppInstance := k_Name c; LabelAppManagedBy := LabelValuePgop ]}.

Definition credentialsName (c : PgCluster) : string := k_Name c +:+ "-credentials".

Definition restoreInterruptedMessage (cl : Cluster) : gerr :=
  Errorf ("Restore %q did not complete, so the data directory may be partly restored and the Cluster " +:+
    "stays stopped. Create a new physical Restore (confirmed with the %s annotation) to restore it again, or, " +:+
    "to start PostgreSQL on the data directory as it is, remove the %s annotation")
    [default "" (cl_Annotations cl !! AnnotationRestoreInterrupted); AnnotationAllowRestore; AnnotationRestoreInterrupted].

Definition restorePauseReason (cl : Cluster) : string * gerr :=
  let name := default "" (cl_Annotations cl !! AnnotationRestoreInProgress) in
  if decide (name = "") then (ConditionTypeRestoreInterrupted, restoreInterruptedMessage cl)
  else (ReasonPausedForRestore, Errorf "Stopped while Restore %q restores the data directory" [name]).

Section reconcile.
Context `{X509} `{PasswordDigest} `{Sha256} `{RFC3339} `{ErrorText} `{ConditionSetter} `{ConditionLookup} `{Quantities} `{UrlParse} `{ApiErrors}.
Context {W : Type} (r : clusterOps W) (o : ClusterObject) (refs : Backup → BackupRefs) (policy : selfManagedCertPolicy).

Abbreviation spec := (cb_spec o).
Abbreviation conf := (pc_conf spec).
Abbreviation cluster := (cf_cluster conf).
Abbreviation repl := (cf_repl conf).

Definition IsStatusConditionTrue (l : list Condition) (t : string) : bool :=
  match FindStatusCondition l t with Some cond => bool_decide (cond_Status cond = "True") | None => false end.

(** The Cluster as the components see it: the spec with the status in memory. *)
Definition seen (st : ClusterStatus) : PgCluster :=
  {| k_Name := k_Name cluster; k_Namespace := k_Namespace cluster; k_UID := k_UID cluster; k_Port := k_Port cluster;
     k_TLS := k_TLS cluster; k_RolePolicy := k_RolePolicy cluster; k_Ready := cs_Ready st; k_SecretName := cs_SecretName st;
     k_TLSReady := IsStatusConditionTrue (cs_Conditions st) ConditionTypeTLSReady; k_TLSSecretHash := cs_TLSSecretHash st |}.

Definition seen_conf (st : ClusterStatus) : ConfCluster :=
  {| cf_cluster := seen st; cf_repl := repl; cf_image := cf_image conf; cf_Generation := cf_Generation conf;
     cf_Parameters := cf_Parameters conf; cf_TLS := cf_TLS conf |}.

Definition setCondition (typ status reason msg : string) (st : ClusterStatus) : ClusterStatus :=
  cs_set_conditions (SetStatusCondition (cs_Conditions st)
    {| cond_Type := typ; cond_Status := status; cond_ObservedGeneration := cf_Generation conf; cond_Reason := reason;
       cond_Message := msg |}) st.

Definition removeCondition (typ : string) (st : ClusterStatus) : ClusterStatus :=
  cs_set_conditions (RemoveStatusCondition (cs_Conditions st) typ) st.

Definition warn (reason action msg : string) : M W () := cx_Event r "Warning" reason action msg.

(** ** Physical backups *)

Definition setPhysicalBackupCondition (st : ClusterStatus) (status reason msg : string) : M W ClusterStatus :=
  let news := match FindStatusCondition (cs_Conditions st) ConditionTypePhysicalBackup with
              | None => true
              | Some prev => negb (bool_decide (cond_Status prev = status)) || negb (bool_decide (cond_Reason prev = reason))
              end in
  if negb (bool_decide (status = "True")) && news
  then warn reason "PhysicalBackup" msg;; mret (setCondition ConditionTypePhysicalBackup status reason msg st)
  else mret (setCondition ConditionTypePhysicalBackup status reason msg st).

Definition physicalBackup (st : ClusterStatus) : M W (result (option Backup) * ClusterStatus) :=
  items ← cx_ListBackups r;
  match items with
  | inr e => mret (inr e, st)
  | inl items =>
      match physicalBackupFor (k_Name cluster) items with
      | None => mret (inl None, removeCondition ConditionTypePhysicalBackup st)
      | Some backup =>
          match validatePhysicalBackupFor backup (cf_image conf) with
          | Some e =>
              st ← setPhysicalBackupCondition st "False" reasonInvalid
                     (error_text (Wrapf "Physical Backup %q is invalid, so WAL is not archived: %v" [bk_Name backup] e));
              mret (inl None, st)
          | None =>
              st ← setPhysicalBackupCondition st "True" "Enabled"
                     (error_text (Errorf "WAL is archived for physical Backup %q" [bk_Name backup]));
              mret (inl (Some backup), st)
          end
      end
  end.

(** The Backup and when its certificates must be looked at again. *)
Definition preparePgbackrest (st : ClusterStatus) : M W (result (option Backup * Z) * ClusterStatus) :=
  '(b, st) ← physicalBackup st;
  match b with
  | inr e => mret (inr e, st)
  | inl None => mret (inl (None, time_zero), st)
  | inl (Some backup) =>
      t ← reconcilePgbackrestTLS (cx_tls r) cluster;
      mret (match t with
            | inr e => inr (Wrapf "failed to reconcile the pgBackRest TLS Secret: %w" [] (as_error e))
            | inl t => inl (Some backup, t)
            end, st)
  end.

(** ** The credentials Secret *)

Definition generatePassword (length : nat) : M W (result string) :=
  b ← cx_random r (length / 2);
  mret (match b with inl bytes => inl (hex_encode bytes) | inr e => inr (Wrapf "failed to generate password: %w" [] e) end).

Definition set_sec_data (data : gmap string string) (s : Secret) : Secret :=
  {| sec_Name := sec_Name s; sec_Namespace := sec_Namespace s; sec_ResourceVersion := sec_ResourceVersion s;
     sec_Labels := sec_Labels s; sec_Annotations := sec_Annotations s; sec_OwnerReferences := sec_OwnerReferences s;
     sec_ControllerUID := sec_ControllerUID s; sec_Data := data |}.

Definition newCredentials (st : ClusterStatus) (password replicationPassword : string) : Secret :=
  let data := <[SecretKeyUsername := DefaultOperatorUsername]> (<[SecretKeyPassword := password]>
                (<["database" := defaultDatabaseName]> (<[SecretKeyReplicationPassword := replicationPassword]> ∅))) in
  {| sec_Name := credentialsName cluster; sec_Namespace := k_Namespace cluster; sec_ResourceVersion := "";
     sec_Labels := clusterLabels cluster; sec_Annotations := ∅; sec_ControllerUID := Some (k_UID cluster);
     sec_OwnerReferences := [{| or_APIVersion := GroupName +:+ "/v1alpha1"; or_Kind := "Cluster"; or_Name := k_Name cluster |}];
     sec_Data := (applyConnectionInfo data (clusterHost cluster) (clusterPort cluster) defaultDatabaseName (clientTLSFor (seen st) "")).1 |}.

Definition reconcileSecret (st : ClusterStatus) : M W (result Secret) :=
  s ← po_GetSecret (cx_params r) (k_Namespace cluster) (credentialsName cluster);
  match s with
  | inr e => mret (inr e)
  | inl (Some secret) =>
      if negb (bool_decide (secret_value secret SecretKeyReplicationPassword = "")) then mret (inl secret)
      else
        p ← generatePassword 32;
        match p with
        | inr e => mret (inr e)
        | inl p =>
            '(secret, e) ← api_UpdateSecret (cx_repl r) (set_sec_data (<[SecretKeyReplicationPassword := p]> (sec_Data secret)) secret);
            mret (match e with Some e => inr e | None => inl secret end)
        end
  | inl None =>
      password ← generatePassword 32;
      match password with
      | inr e => mret (inr e)
      | inl password =>
          replicationPassword ← generatePassword 32;
          match replicationPassword with
          | inr e => mret (inr e)
          | inl replicationPassword => cx_CreateSecret r (newCredentials st password replicationPassword)
          end
      end
  end.

Definition convergeSecretConnectionInfo (st : ClusterStatus) (secret : Secret) (caPEM : string) : M W error :=
  let database := secret_value secret "database" in
  let database := if decide (database = "") then defaultDatabaseName else database in
  let '(data, changed) := applyConnectionInfo (sec_Data secret) (clusterHost cluster) (clusterPort cluster) database
                            (clientTLSFor (seen st) caPEM) in
  if changed : bool then '(_, e) ← api_UpdateSecret (cx_repl r) (set_sec_data data secret); mret e else mret None.

(** ** The Services *)

Definition convergeServiceSpec (svc : Service) (selector : gmap string string) (ports : list ServicePort) : M W error :=
  if decide (svc_Selector svc = selector ∧ svc_Ports svc = ports) then mret None
  else cx_UpdateService r {| svc_Name := svc_Name svc; svc_ControlledByCluster := svc_ControlledByCluster svc; svc_Labels := svc_Labels svc;
                             svc_Selector := selector; svc_Ports := ports |}.

Definition newService (name : string) (selector : gmap string string) (ports : list ServicePort) : Service :=
  {| svc_Name := name; svc_ControlledByCluster := true; svc_Labels := clusterLabels cluster; svc_Selector := selector; svc_Ports := ports |}.

Definition reconcileService (ports : list ServicePort) : M W error :=
  s ← cx_GetService r (k_Name cluster);
  match s with
  | inl (Some svc) => convergeServiceSpec svc (primaryServiceSelector cluster repl) ports
  | inr e => mret (Some e)
  | inl None => cx_CreateService r (newService (k_Name cluster) (primaryServiceSelector cluster repl) ports)
  end.

Definition reconcileReadOnlyService : M W error :=
  let name := readOnlyServiceName cluster in
  s ← cx_GetService r name;
  match s with
  | inr e => mret (Some e)
  | inl s =>
      if bool_decide (desiredReplicas repl ≤ 1) then
        match s with
        | Some svc => if svc_ControlledByCluster svc then cx_DeleteService r svc else mret None
        | None => mret None
        end
      else
        match s with
        | Some svc =>
            if negb (svc_ControlledByCluster svc)
            then mret (Some (Errorf "service %q exists and is not owned by the Cluster" [svc_Name svc]))
            else convergeServiceSpec svc (readOnlyServiceSelector cluster) (servicePorts cluster)
        | None => cx_CreateService r (newService name (readOnlyServiceSelector cluster) (servicePorts cluster))
        end
  end.

Definition reconcileServices (pgbackrest : bool) : M W error :=
  e ← reconcileService (servicePorts cluster ++ if pgbackrest then [pgbackrestServicePort] else []);
  match e with
  | Some e => mret (Some (Wrapf "service %q: %w" [k_Name cluster] e))
  | None =>
      e ← reconcileReadOnlyService;
      mret (match e with Some e => Some (Wrapf "service %q: %w" [readOnlyServiceName cluster] e) | None => None end)
  end.

(** ** The TLS Secret *)

(** The material and when self-managed certificates must be looked at again. *)
Definition prepareTLS (st : ClusterStatus) : M W (sum (option tlsMaterial * Z) tlsError * ClusterStatus) :=
  match k_TLS cluster with
  | None => mret (inl (None, time_zero), cs_set_hash "" (removeCondition ConditionTypeTLSReady st))
  | Some t =>
      '(recheckAt, e) ← provisionTLSSecret (cx_tls r) cluster (desiredReplicas repl) t (cb_IssuerRef o) policy;
      match e with
      | Some e => mret (inr e, st)
      | None =>
          now ← to_now (cx_tls r);
          m ← loadTLSMaterial (cx_tls r) cluster now;
          mret (match m with
                | inr e => inr (inl {| nr_Reason := ReasonInvalidTLSSecret; nr_Message := e; nr_RequeueAfter := 0 |})
                | inl m => inl (Some m, recheckAt)
                end, st)
      end
  end.

(** ** The pg_hba ConfigMap *)

(** The end of it: [cm] is the existing ConfigMap. *)
Definition writeHBAConfigMap (cm : option ConfigMap) (data : gmap string string) : M W error :=
  match cm with
  | Some cm => if decide (cm_Data cm = data) then mret None else po_UpdateConfigMap (cx_params r) (hbaConfigMapName cluster) data
  | None => po_CreateConfigMap (cx_params r) (hbaConfigMapName cluster) (clusterLabels cluster) data
  end.

(** Whether the data of the existing ConfigMap records that the Cluster holds data. *)
Definition marked_initialized (cm : option ConfigMap) : bool :=
  match cm with Some cm => negb (bool_decide (default "" (cm_Data cm !! initializedMarkerKey) = "")) | None => false end.

Definition reconcileHBAConfigMap (replication : bool) : M W error :=
  if negb (tlsRequired (cf_TLS conf)) && negb replication then mret None
  else
    cm ← po_GetConfigMap (cx_params r) (hbaConfigMapName cluster);
    match cm with
    | inr e => mret (Some e)
    | inl cm =>
        let base : gmap string string := {[ hbaFileName := renderPgHBA (cf_TLS conf) replication ]} in
        let marked_data := <[initializedMarkerKey := initializedMarkerValue]> base in
        if replication && negb (bool_decide (default "" (cl_Annotations repl !! AnnotationAllowPrimaryInit) = labelValueTrue)) then
          if marked_initialized cm then writeHBAConfigMap cm marked_data
          else
            pvcs ← api_ListPVCs (cx_repl r);
            match pvcs with
            | inr e => mret (Some e)
            | inl pvcs => writeHBAConfigMap cm (if primaryVolumeMissing repl pvcs then marked_data else base)
            end
        else writeHBAConfigMap cm base
    end.

Definition cleanupHBAConfigMap (replication : bool) : M W error :=
  if tlsRequired (cf_TLS conf) || replication then mret None
  else
    let name := hbaConfigMapName cluster in
    cm ← po_GetConfigMap (cx_params r) name;
    match cm with
    | inl None => mret None
    | inr e => mret (Some e)
    | inl (Some cm) => if negb (cm_ControlledByCluster cm) then mret None else po_DeleteConfigMap (cx_params r) name
    end.

(** ** The StatefulSet *)

Definition set_container_image (image : string) (x : Container) : Container := set_image image x.

(** The first container and all init containers keep the running image. *)
Definition keptTemplate (kept : string) (t : PodTemplate) : PodTemplate :=
  {| pt_Containers := match pt_Containers t with x :: xs => set_container_image kept x :: xs | [] => [] end;
     pt_InitContainers := set_container_image kept <$> pt_InitContainers t; pt_Volumes := pt_Volumes t |}.

Definition keepPgopImage (st : ClusterStatus) (running : string) (t : PodTemplate) : M W (PodTemplate * ClusterStatus) :=
  let kept := keptPgopImage (cf_image conf) running in
  if decide (kept = "") then mret (t, st)
  else
    let t := keptTemplate kept t in
    match FindStatusCondition (cs_Conditions st) ConditionTypePhysicalBackup with
    | Some _ => mret (t, st)
    | None =>
        st ← setPhysicalBackupCondition st "False" "Disabled"
               ("No physical Backup: WAL is not archived. The Postgres+pgBackRest image " +:+ kept +:+
                " is kept, because switching back to " +:+ clusterImage (cf_image conf) +:+
                " could change the C library (and text index collations); set spec.image to " +:+ kept +:+
                " to keep it explicitly, or change spec.image once you have checked the collations");
        mret (t, st)
    end.

Definition detectExistingVolume (st : ClusterStatus) : M W (error * ClusterStatus) :=
  let pvcName := dataPVCName (k_Name cluster) in
  p ← cx_PVCExists r pvcName;
  match p with
  | inr e => mret (Some e, st)
  | inl false =>
      mret (None, setCondition ConditionTypeExistingVolume "False" ReasonNewVolume
        ("StatefulSet created without a pre-existing data PVC; " +:+ pvcName +:+ " will be provisioned fresh") st)
  | inl true =>
      let msg := "Starting on pre-existing PersistentVolumeClaim " +:+ pvcName +:+ "; PostgreSQL will reuse its existing data" in
      warn ReasonPreExistingPVC "CreateStatefulSet" msg;;
      mret (None, setCondition ConditionTypeExistingVolume "True" ReasonPreExistingPVC msg st)
  end.

(** The physical Backup with what the template needs of it. *)
Definition templateBackup (backup : option Backup) : option (Backup * BackupRefs * S3Destination) :=
  b ← backup; s3 ← bk_S3 b; Some (b, refs b, s3).

Definition newStatefulSet (replicas size : Z) (t : PodTemplate) : NewStatefulSet :=
  {| ns_Name := k_Name cluster; ns_Labels := clusterLabels cluster; ns_Replicas := replicas;
     ns_Retention := desiredPVCRetentionPolicy spec;
     ns_Selector := {[ LabelAppName := AppNamePostgresql; LabelAppInstance := k_Name cluster ]};
     ns_SecurityContext := postgresPodSecurityContext; ns_Template := t; ns_ClaimName := dataVolumeName; ns_StorageSize := size;
     ns_StorageClass := pc_StorageClass spec |}.

(** [statefulSetReplicas] or [desiredReplicas], but 0 while a restore has stopped the
    Cluster. *)
Definition pausedReplicas (replicas : Z) : Z := if pausedForRestore repl then 0 else replicas.

(** [None] as result: [resource.MustParse] panicked. *)
Definition createStatefulSet (st : ClusterStatus) (t : PodTemplate) : M W (option error * ClusterStatus) :=
  '(e, st) ← detectExistingVolume st;
  match e with
  | Some e => mret (Some (Some e), st)
  | None =>
      match ParseQuantity (if decide (pc_StorageSize spec = "") then defaultStorageSize else pc_StorageSize spec) with
      | None => mret (None, st)
      | Some size =>
          e ← cx_CreateStatefulSet r (newStatefulSet (pausedReplicas (desiredReplicas repl)) size t);
          mret (Some e, st)
      end
  end.

Definition convergeStatefulSet (sts : PgStatefulSet) (t : PodTemplate) : M W error :=
  let replicas := pausedReplicas (statefulSetReplicas repl (Some (repl_view sts))) in
  let '(sts', changed) := convergedStatefulSet sts replicas (clusterLabels cluster) t (desiredPVCRetentionPolicy spec) in
  if changed : bool then cx_UpdateStatefulSet r sts' else mret None.

Definition reconcileStatefulSet (st : ClusterStatus) (secretName : string) (replication : bool) (backup : option Backup)
    : M W (option error * ClusterStatus) :=
  match desiredTemplate spec secretName replication (templateBackup backup) with
  | inr e => mret (Some (Some e), st)
  | inl t =>
      s ← cx_GetStatefulSet r;
      match s with
      | inr e => mret (Some (Some e), st)
      | inl None => createStatefulSet st t
      | inl (Some sts) =>
          '(t, st) ← match backup, st_Containers sts with
                     | None, x :: _ => keepPgopImage st (c_Image x) t
                     | _, _ => mret (t, st)
                     end;
          e ← convergeStatefulSet sts t;
          mret (Some e, st)
      end
  end.

Definition cleanupUnusedResources (st : ClusterStatus) (replication pgbackrest : bool) : M W error :=
  e ← cleanupHBAConfigMap replication;
  match e with
  | Some e => mret (Some (Wrapf "failed to clean up the pg_hba ConfigMap: %w" [] e))
  | None =>
  e ← cleanupConfigMap (cx_params r) (seen_conf st);
  match e with
  | Some e => mret (Some (Wrapf "failed to clean up the configuration ConfigMap: %w" [] e))
  | None =>
  e ← cleanupTLSResources (cx_tls r) cluster;
  match e with
  | Some e => mret (Some (Wrapf "failed to clean up TLS resources: %w" [] e))
  | None =>
  if pgbackrest then mret None
  else
    e ← cleanupPgbackrestTLS (cx_tls r) cluster;
    mret (match e with Some e => Some (Wrapf "failed to clean up the pgBackRest TLS Secret: %w" [] e) | None => None end)
  end end end.

(** ** The pods *)

(** The pods that the Cluster's StatefulSet controls and numbers. *)
Definition ownPods (items : list OwnedPod) : list Pod :=
  fst <$> filter (λ p : OwnedPod, p.2 = Some ("StatefulSet", k_Name cluster) ∧ is_Some (podOrdinal repl (pod_Name p.1))) items.

Definition listClusterPods : M W (result (list Pod)) :=
  items ← cx_ListPods r;
  mret (match items with inr e => inr e | inl items => inl (ownPods items) end).

Definition labelClusterPods : M W (result (list Pod)) :=
  pods ← listClusterPods;
  match pods with
  | inr e => mret (inr e)
  | inl pods =>
      '(pods, e) ← labelPods (api_PatchPod (cx_repl r)) repl pods;
      mret (match e with Some e => inr e | None => inl pods end)
  end.

Definition isStatefulSetReady (st : ClusterStatus) : M W (result bool * ClusterStatus) :=
  s ← cx_GetStatefulSet r;
  match s with
  | inr e => mret (inr e, st)
  | inl None => mret (inl false, st)
  | inl (Some sts) =>
      let st := cs_set_instances (st_ReadyReplicas sts) (primaryPodName repl) st in
      pods ← listClusterPods;
      mret (match pods with
            | inr e => inr e
            | inl pods => inl (existsb (λ p, bool_decide (pod_Name p = primaryPodName repl) && isPodReady p) pods)
            end, st)
  end.

(** ** The certificates of the running servers *)

Definition setTLSCondition : string → string → string → ClusterStatus → ClusterStatus := setCondition ConditionTypeTLSReady.

Definition restartForTLS (hash : string) : M W error :=
  s ← po_GetStatefulSet (cx_params r);
  match s with
  | inr e => mret (Some e)
  | inl None => mret (Some (notFound (k_Name cluster)))
  | inl (Some s) =>
      if decide (default "" (pss_TemplateAnnotations s !! AnnotationTLSRestart) = hash) then mret None
      else
        e ← po_PatchStatefulSet (cx_params r) AnnotationTLSRestart hash;
        match e with
        | Some e => mret (Some e)
        | None =>
            cx_Event r "Normal" ReasonCertificateReloading "RestartForTLS"
              "Restarting the PostgreSQL pod: the new certificate is from a different CA and cannot be loaded with a reload";;
            mret None
        end
  end.

Definition reloadServerConfig (caPEM dialAddress : string) : M W error :=
  s ← po_GetSecret (cx_params r) (k_Namespace cluster) (credentialsName cluster);
  match s with
  | inr e => mret (Some (Wrapf "failed to get credentials secret: %w" [] e))
  | inl None => mret (Some (Wrapf "failed to get credentials secret: %w" [] (notFound (credentialsName cluster))))
  | inl (Some secret) =>
      cx_Reload r {| cc_Host := clusterHost cluster; cc_Port := clusterPort cluster; cc_User := secret_value secret SecretKeyUsername;
                     cc_Password := secret_value secret SecretKeyPassword; cc_Database := defaultDatabaseName;
                     cc_SSLMode := SSLModeVerifyFull; cc_RootCertPEM := caPEM; cc_ConnectTimeout := 0 |} dialAddress
  end.

(** One standby: the message, if it does not present the current certificate. *)
Definition standbyCertificate (m : tlsMaterial) (name addr : string) : M W (option string) :=
  let host := clusterHost cluster in
  p ← cx_Probe r addr host;
  match p with
  | inr e => mret (Some ("standby " +:+ name +:+ " is not serving TLS yet: " +:+ error_text e))
  | inl presented =>
      if decide (presented = crt_Raw (mat_Leaf m)) then mret None
      else
        now ← to_now (cx_tls r);
        if negb (certVerifies presented (mat_CAPEM m) host now) then
          e ← restartForTLS (mat_Hash m);
          mret (Some match e with
                     | None => "standby " +:+ name +:+ " presents a certificate that the current CA does not verify; restarting the PostgreSQL pods"
                     | Some e => "standby " +:+ name +:+ " presents a certificate that the current CA does not verify and restarting the pods failed: "
                                   +:+ error_text e
                     end)
        else
          e ← reloadServerConfig (mat_CAPEM m) addr;
          mret (Some match e with
                     | None => "standby " +:+ name +:+ " presents an outdated certificate; requested a configuration reload"
                     | Some e => "standby " +:+ name +:+ " presents an outdated certificate and the reload failed: " +:+ error_text e
                     end)
  end.

Fixpoint standbyMessages (m : tlsMaterial) (standbys : gmap string string) (names : list string) : M W (list string) :=
  match names with
  | [] => mret []
  | name :: names =>
      msg ← standbyCertificate m name (default "" (standbys !! name));
      msgs ← standbyMessages m standbys names;
      mret (option_list msg ++ msgs)
  end.

(** Whether a standby is pending; the message is only logged. *)
Definition reconcileStandbyCertificates (m : tlsMaterial) (pods : list Pod) : M W bool :=
  let standbys := readyStandbyAddresses conf pods in
  msgs ← standbyMessages m standbys (sorted_keys standbys);
  mret (negb (bool_decide (msgs = []))).

Definition reconcileTLSState (st : ClusterStatus) (m : tlsMaterial) (ready : bool) (pods : list Pod) : M W (bool * ClusterStatus) :=
  if negb ready then mret (true, setTLSCondition "False" ReasonWaitingForServer "Waiting for the PostgreSQL pod to become ready" st)
  else
    let host := clusterHost cluster in
    p ← cx_Probe r (JoinHostPort host (Itoa (clusterPort cluster))) host;
    match p with
    | inr e => mret (true, setTLSCondition "False" ReasonWaitingForServer ("Server is not serving TLS yet: " +:+ error_text e) st)
    | inl presented =>
        if decide (presented = crt_Raw (mat_Leaf m)) then
          let st := cs_set_hash (mat_Hash m) (setTLSCondition "True" ReasonTLSActive
                      (error_text (Errorf "Server presents the certificate from Secret %q" [tlsSecretName cluster])) st) in
          pending ← reconcileStandbyCertificates m pods;
          mret (pending, st)
        else
          now ← to_now (cx_tls r);
          if negb (certVerifies presented (mat_CAPEM m) host now) then
            e ← restartForTLS (mat_Hash m);
            mret (true, setTLSCondition "False" ReasonCertificateReloading
              match e with
              | None => "Server presents a certificate that the current CA does not verify (the CA changed); " +:+
                        "restarting the PostgreSQL pod to load the new certificate"
              | Some e => "Server presents a certificate that the current CA does not verify (the CA changed) " +:+
                          "and restarting the pod failed: " +:+ error_text e
              end st)
          else
            e ← reloadServerConfig (mat_CAPEM m) "";
            mret (true, setTLSCondition "False" ReasonCertificateReloading
              match e with
              | None => "Server presents an outdated certificate; requested a configuration reload"
              | Some e => "Server presents an outdated certificate and the reload failed: " +:+ error_text e
              end st)
    end.

(** ** The status *)

Definition setRestoreInterruptedCondition (st : ClusterStatus) : M W ClusterStatus :=
  if decide (default "" (cl_Annotations repl !! AnnotationRestoreInterrupted) = "") then
    mret (removeCondition ConditionTypeRestoreInterrupted st)
  else
    let msg := error_text (restoreInterruptedMessage repl) in
    (if IsStatusConditionTrue (cs_Conditions st) ConditionTypeRestoreInterrupted then mret ()
     else warn ConditionTypeRestoreInterrupted "Restore" msg);;
    mret (setCondition ConditionTypeRestoreInterrupted "True" ConditionTypeRestoreInterrupted msg st).

(** The fields of the status that a pass always reports. *)
Definition reportedStatus (ready : bool) (st : ClusterStatus) : ClusterStatus :=
  {| cs_Conditions := cs_Conditions st; cs_Ready := ready; cs_SecretName := credentialsName cluster;
     cs_Endpoint := clusterHost cluster +:+ ":" +:+ Itoa (clusterPort cluster);
     cs_ReadOnlyEndpoint := if bool_decide (1 < desiredReplicas repl)
                            then JoinHostPort (readOnlyHost cluster) (Itoa (clusterPort cluster)) else "";
     cs_ReadyInstances := cs_ReadyInstances st; cs_CurrentPrimary := cs_CurrentPrimary st;
     cs_TLSSecretHash := cs_TLSSecretHash st; cs_ParametersHash := cs_ParametersHash st;
     cs_PendingRestart := cs_PendingRestart st; cs_LastWALDrop := cs_LastWALDrop st |}.

(** The status, reason and message of the Available condition. *)
Definition availability (ready : bool) (reconcileErr : error) : string * string * string :=
  if ready then ("True", "ClusterReady", "The PostgreSQL primary is ready")
  else match reconcileErr with
       | Some e => ("False", ReasonReconcileError, error_text e)
       | None =>
           if pausedForRestore repl
           then let '(reason, msg) := restorePauseReason repl in ("False", reason, error_text msg)
           else ("False", "ClusterNotReady", "PostgreSQL cluster is not ready yet")
       end.

Definition updateClusterStatus (st : ClusterStatus) (ready : bool) (reconcileErr : error) : M W (Z * error) :=
  if match reconcileErr with Some e => IsConflict e | None => false end then mret (0, reconcileErr)
  else
    let '(status, reason, msg) := availability ready reconcileErr in
    st ← setRestoreInterruptedCondition (setCondition ConditionTypeAvailable status reason msg (reportedStatus ready st));
    e ← cx_UpdateStatus r st;
    mret (match e with
          | Some e => (0, Some e)
          | None => (if negb ready && bool_decide (reconcileErr = None) then 10 * second_ns else 0, reconcileErr)
          end).

Definition finish (st : ClusterStatus) (e : gerr) : M W Outcome :=
  '(after, e) ← updateClusterStatus st false (Some e);
  mret (Finished after e).

Definition reportTLSNotReady (st : ClusterStatus) (secret : Secret) (nr : tlsNotReady) : M W Outcome :=
  let msg := error_text (nr_Message nr) in
  let changed := match FindStatusCondition (cs_Conditions st) ConditionTypeTLSReady with
                 | None => true
                 | Some prev => negb (bool_decide (cond_Reason prev = nr_Reason nr)) || negb (bool_decide (cond_Message prev = msg))
                 end in
  let st := cs_set_hash "" (setTLSCondition "False" (nr_Reason nr) msg st) in
  (if changed then
     cx_Event r (if decide (nr_Reason nr = ReasonCertificatePending) then "Normal" else "Warning") (nr_Reason nr)
       "ValidateTLSSecret" msg
   else mret ());;
  '(ready, st) ← isStatefulSetReady st;
  match ready with
  | inr e => finish st e
  | inl ready =>
      e ← convergeSecretConnectionInfo st secret "";
      match e with
      | Some e => finish st e
      | None =>
          '(after, e) ← updateClusterStatus st ready None;
          mret (Finished (if bool_decide (e = None) && bool_decide (0 < nr_RequeueAfter nr)
                          then shorterRequeue after (nr_RequeueAfter nr) else after) e)
      end
  end.

(** ** The passes of the components *)

(** The ReplicationHealthy condition of a pass that left [c]. *)
Definition recordReplication (c : option condition) (st : ClusterStatus) : ClusterStatus :=
  match c with
  | Some (healthy, reason, msg) =>
      setCondition ConditionTypeReplicationHealthy (if healthy : bool then "True" else "False") reason
        (match msg with Msg s => s | MsgErr s e => s +:+ ": " +:+ error_text e end) st
  | None => if bool_decide (desiredReplicas repl ≤ 1) then removeCondition ConditionTypeReplicationHealthy st else st
  end.

Definition backupName (backup : option Backup) : option BackupName :=
  (λ b, {| bn_Name := bk_Name b; bn_Namespace := k_Namespace cluster |}) <$> backup.

(** The parameters and the archive health: the rechecks and the status. *)
Definition reconcileServerState (st : ClusterStatus) (backup : option Backup) (ready : bool) (pods : list Pod) : M W (Z * Z * ClusterStatus) :=
  '(parametersRecheck, p) ← reconcileParameters (cx_params r) (seen_conf st)
     {| pst_Conditions := cs_Conditions st; pst_ParametersHash := cs_ParametersHash st; pst_PendingRestart := cs_PendingRestart st |}
     ready pods;
  let st := cs_set_parameters p st in
  '(archiveRecheck, a) ← reconcileArchiveHealth (cx_archive r) (seen st) (cf_Generation conf)
     {| as_Conditions := cs_Conditions st; as_LastWALDrop := cs_LastWALDrop st |} (backupName backup) ready;
  mret (parametersRecheck, archiveRecheck, cs_set_archive a st).

(** When to come back: the status, the TLS state, the components and the certificates. *)
Definition clusterRequeue (after : Z) (tlsPending : bool) (rechecks : list Z) (recheckAt now : Z) : Z :=
  let after := if tlsPending then shorterRequeue after (10 * second_ns) else after in
  let after := foldl (λ after d, if bool_decide (0 < d) then shorterRequeue after d else after) after rechecks in
  if IsZero recheckAt then after
  else shorterRequeue after (((recheckAt - now) `max` second_ns) `min` maxTLSRecheckInterval).

(** The end of a pass, from the TLS state of the server. *)
Definition concludeReconcile (st : ClusterStatus) (secret : Secret) (backup : option Backup) (pgbackrestRecheckAt : Z)
    (material : option tlsMaterial) (tlsRecheckAt : Z) (pods : list Pod) (ready : bool) : M W Outcome :=
  '(tlsPending, st) ← match material with
                      | Some m => reconcileTLSState st m ready pods
                      | None => mret (false, st)
                      end;
  sts ← cx_GetStatefulSet r;
  p ← reconcileReplication (cx_repl r) repl secret
        (match sts with inl (Some s) => Some (repl_view s) | _ => None end) pods None;
  match pass_recheck p with
  | None => mret Panicked
  | Some replicationRecheck =>
      let st := recordReplication (pass_cond p) st in
      '(parametersRecheck, archiveRecheck, st) ← reconcileServerState st backup ready (pass_pods p);
      e ← convergeSecretConnectionInfo st (pass_secret p) (match material with Some m => mat_CAPEM m | None => "" end);
      match e with
      | Some e => finish st e
      | None =>
          '(after, e) ← updateClusterStatus st ready None;
          match e with
          | Some e => mret (Finished after (Some e))
          | None =>
              let recheckAt := earliest tlsRecheckAt pgbackrestRecheckAt in
              now ← (if IsZero recheckAt then mret 0 else to_now (cx_tls r));
              mret (Finished (clusterRequeue after tlsPending [parametersRecheck; replicationRecheck; archiveRecheck] recheckAt now) None)
          end
      end
  end.

(** From the converged StatefulSet: the clean-ups, the labels of the pods, readiness. *)
Definition observePods (st : ClusterStatus) (replication pgbackrest : bool) : M W (result (list Pod * bool) * ClusterStatus) :=
  e ← cleanupUnusedResources st replication pgbackrest;
  match e with
  | Some e => mret (inr e, st)
  | None =>
  pods ← labelClusterPods;
  match pods with
  | inr e => mret (inr e, st)
  | inl pods =>
      '(ready, st) ← isStatefulSetReady st;
      mret (match ready with inr e => inr e | inl ready => inl (pods, ready) end, st)
  end end.

(** The ConfigMaps that a pod mounts, and then the StatefulSet. *)
Definition reconcileWorkload (st : ClusterStatus) (secretName : string) (replication : bool) (backup : option Backup)
    : M W (option error * ClusterStatus) :=
  e ← reconcileHBAConfigMap replication;
  match e with
  | Some e => mret (Some (Some e), st)
  | None =>
  e ← match resolvePostgresLayout (cf_image conf) with
      | inl layout => reconcileConfigMap (cx_params r) (seen_conf st) layout
      | inr _ => mret None
      end;
  match e with
  | Some e => mret (Some (Some e), st)
  | None => reconcileStatefulSet st secretName replication backup
  end end.

Definition existingReplication (s : option PgStatefulSet) : bool := replicationEnabled repl (repl_view <$> s).

(** The pass from the credentials Secret on. *)
Definition reconcileWith (st : ClusterStatus) (secret : Secret) : M W Outcome :=
  e ← ensureMarkerKeySecret (po_GetSecret (cx_params r)) (cx_random r) (cx_CreateMarkerSecret r) cluster;
  match e with
  | Some e => finish st e
  | None =>
  existing ← cx_GetStatefulSet r;
  match existing with
  | inr e => finish st e
  | inl existing =>
  let replication := existingReplication existing in
  '(b, st) ← preparePgbackrest st;
  match b with
  | inr e => finish st e
  | inl (backup, pgbackrestRecheckAt) =>
  let pgbackrest := bool_decide (is_Some backup) in
  e ← reconcileServices pgbackrest;
  match e with
  | Some e => finish st e
  | None =>
  '(t, st) ← prepareTLS st;
  match t with
  | inr (inl nr) => reportTLSNotReady st secret nr
  | inr (inr e) => finish st e
  | inl (material, tlsRecheckAt) =>
  '(e, st) ← reconcileWorkload st (sec_Name secret) replication backup;
  match e with
  | None => mret Panicked
  | Some (Some e) => finish st e
  | Some None =>
  '(p, st) ← observePods st replication pgbackrest;
  match p with
  | inr e => finish st e
  | inl (pods, ready) => concludeReconcile st secret backup pgbackrestRecheckAt material tlsRecheckAt pods ready
  end end end end end end end.
End reconcile.

(** One pass: the Cluster is read, and the finalizer is dropped or added. *)
Definition reconcileCluster `{X509} `{PasswordDigest} `{Sha256} `{RFC3339} `{ErrorText} `{ConditionSetter} `{ConditionLookup} `{Quantities}
    `{UrlParse} `{ApiErrors} {W : Type} (r : clusterOps W) (refs : Backup → BackupRefs) (policy : selfManagedCertPolicy) : M W Outcome :=
  c ← cx_GetCluster r;
  match c with
  | inl None => mret (Finished 0 None)
  | inr e => mret (Finished 0 (Some e))
  | inl (Some o) =>
      let held := bool_decide (clusterFinalizer ∈ cb_Finalizers o) in
      if cb_Deleting o then
        if held then
          e ← cx_PatchFinalizers r (filter (λ f, f ≠ clusterFinalizer) (cb_Finalizers o));
          mret (Finished 0 e)
        else mret (Finished 0 None)
      else
        e ← (if held then mret None else cx_PatchFinalizers r (cb_Finalizers o ++ [clusterFinalizer]));
        match e with
        | Some e => mret (Finished 0 (Some e))
        | None =>
            let st := cb_Status o in
            secret ← reconcileSecret r o st;
            match secret with
            | inr e => finish r o st e
            | inl secret => reconcileWith r o refs policy st secret
            end
        end
  end.
