(* ===== verification/ClusterTrace.v ===== *)
(** * The calls of a pass over a Cluster

    The events of a pass and the logging of its operations. Writes that no theorem of
    ClusterTheorems.v is about (Services, certificates, SQL, labels and volumes of pods)
    appear as [KOther]. The passes of the components are quiet: they write neither
    the StatefulSet (but for the restart annotation of the parameters) nor the status. *)

From S2P Require Import Prelude GoStrings GoStrconv GoUrl RoleSql ApiTypes RolePolicy Objects Password Connection Pgbackrest Trace.
From S2P Require Import Replication ReplicationReconcile RoleReconcile PgConfig Restore BackupRun ArchiveHealth PgHba PodTemplate Tls.
From S2P Require Import ClusterReconcile.

Inductive cl_event :=
  | KCluster (r : result (option ClusterObject))
  | KFinalizers (l : list string) (e : error)
  | KStatus (st : ClusterStatus) (e : error)
  | KGetSecret (namespace name : string) (r : result (option Secret))
  | KCreateSecret (s : Secret) (r : result Secret)
  | KUpdateSecret (s : Secret) (r : Secret * error)
  | KGetSts (r : result (option PgStatefulSet))
  | KCreateSts (n : NewStatefulSet) (e : error)
  | KUpdateSts (s : PgStatefulSet) (e : error)
  | KTemplate (r : result (option ParameterStatefulSet))
  | KRestart (k v : string) (e : error)
  | KPods (r : result (list OwnedPod))
  | KProbe (addr host : string) (r : result string)
  | KNow (t : Z)
  | KTLSSecret (name : string) (r : result (option TLSSecret))
  | KWriteTLSSecret (s : TLSSecret) (e : error)
  | KBackups (r : result (list Backup))
  | KGetConfigMap (name : string) (r : result (option ConfigMap))
  | KWriteConfigMap (name : string) (data : gmap string string) (e : error)
  | KOther.

Section logged.
Context {W : Type}.
Abbreviation other := (logged (λ _, KOther)).

Definition cl_certs (ce : certOps W) : certOps (W * list cl_event) :=
  {| ce_GenerateKey := other (ce_GenerateKey ce); ce_RandomSerial := other (ce_RandomSerial ce);
     ce_CreateCertificate := λ t p k s, other (ce_CreateCertificate ce t p k s) |}.

Definition cl_tls (r : tlsOps W) : tlsOps (W * list cl_event) :=
  {| to_now := logged KNow (to_now r); to_GetSecret := λ n, logged (KTLSSecret n) (to_GetSecret r n);
     to_CreateSecret := λ s, logged (KWriteTLSSecret s) (to_CreateSecret r s);
     to_UpdateSecret := λ s, logged (KWriteTLSSecret s) (to_UpdateSecret r s);
     to_PatchOwner := λ s, other (to_PatchOwner r s); to_DeleteSecret := λ s, other (to_DeleteSecret r s);
     to_GetCertificate := λ n, other (to_GetCertificate r n);
     to_CreateCertificate := λ n c, other (to_CreateCertificate r n c);
     to_UpdateCertificate := λ n c, other (to_UpdateCertificate r n c);
     to_DeleteCertificate := λ n, other (to_DeleteCertificate r n);
     to_Seen := other (to_Seen r); to_SetSeen := other (to_SetSeen r); to_certs := cl_certs (to_certs r) |}.

Definition cl_slots (s : ReplicationServer W) : ReplicationServer (W * list cl_event) :=
  {| srv_ReplicationSlots := other (srv_ReplicationSlots s); srv_CreateSlot := λ n b, other (srv_CreateSlot s n b);
     srv_DropSlot := λ n, other (srv_DropSlot s n) |}.

Definition cl_repl (a : ReplicationAPI W) : ReplicationAPI (W * list cl_event) :=
  {| api_now := other (api_now a); api_ListPVCs := other (api_ListPVCs a); api_DeletePVC := λ p, other (api_DeletePVC a p);
     api_DeletePod := λ p, other (api_DeletePod a p); api_PatchPod := λ p, other (api_PatchPod a p);
     api_UpdateSecret := λ s, logged (KUpdateSecret s) (api_UpdateSecret a s);
     api_GetHbaConfigMap := other (api_GetHbaConfigMap a); api_UpdateConfigMap := λ c, other (api_UpdateConfigMap a c);
     api_connect := other (api_connect a); srv_InRecovery := other (srv_InRecovery a);
     srv_RoleExists := λ n, other (srv_RoleExists a n); srv_CreateRole := λ n o, other (srv_CreateRole a n o);
     srv_ReplicationStatus := other (srv_ReplicationStatus a); api_slots := cl_slots (api_slots a) |}.

Definition cl_server (s : ParameterServer W) : ParameterServer (W * list cl_event) :=
  {| ps_ConfigFile := other (ps_ConfigFile s); ps_FileSettings := other (ps_FileSettings s);
     ps_Settings := other (ps_Settings s); ps_ReloadConfig := other (ps_ReloadConfig s) |}.

Definition cl_params (r : parameterOps W) : parameterOps (W * list cl_event) :=
  {| po_GetSecret := λ ns n, logged (KGetSecret ns n) (po_GetSecret r ns n);
     po_GetStatefulSet := logged KTemplate (po_GetStatefulSet r);
     po_PatchStatefulSet := λ k v, logged (KRestart k v) (po_PatchStatefulSet r k v);
     po_GetConfigMap := λ n, logged (KGetConfigMap n) (po_GetConfigMap r n);
     po_CreateConfigMap := λ n l d, logged (KWriteConfigMap n d) (po_CreateConfigMap r n l d);
     po_UpdateConfigMap := λ n d, logged (KWriteConfigMap n d) (po_UpdateConfigMap r n d);
     po_DeleteConfigMap := λ n, other (po_DeleteConfigMap r n);
     po_Connect := λ cfg addr,
       s ← other (po_Connect r cfg addr);
       mret (match s with inl s => inl (cl_server s) | inr e => inr e end);
     po_Warn := λ reason msg, other (po_Warn r reason msg) |}.

Definition cl_archive_server (s : ArchiveServer W) : ArchiveServer (W * list cl_event) :=
  {| av_ArchiverStats := other (av_ArchiverStats s); av_TailFile := λ n, other (av_TailFile s n) |}.

Definition cl_archive (r : archiveOps W) : archiveOps (W * list cl_event) :=
  {| ao_GetSecret := λ ns n, logged (KGetSecret ns n) (ao_GetSecret r ns n);
     ao_Connect := λ cfg,
       s ← other (ao_Connect r cfg);
       mret (match s with inl s => inl (cl_archive_server s) | inr e => inr e end);
     ao_ListRuns := λ ns l, other (ao_ListRuns r ns l); ao_Warn := λ reason msg, other (ao_Warn r reason msg) |}.

Definition cl_ops (r : clusterOps W) : clusterOps (W * list cl_event) :=
  {| cx_GetCluster := logged KCluster (cx_GetCluster r);
     cx_PatchFinalizers := λ l, logged (KFinalizers l) (cx_PatchFinalizers r l);
     cx_UpdateStatus := λ st, logged (KStatus st) (cx_UpdateStatus r st);
     cx_random := λ n, other (cx_random r n);
     cx_CreateSecret := λ s, logged (KCreateSecret s) (cx_CreateSecret r s);
     cx_CreateMarkerSecret := λ s, other (cx_CreateMarkerSecret r s);
     cx_GetStatefulSet := logged KGetSts (cx_GetStatefulSet r);
     cx_CreateStatefulSet := λ n, logged (KCreateSts n) (cx_CreateStatefulSet r n);
     cx_UpdateStatefulSet := λ s, logged (KUpdateSts s) (cx_UpdateStatefulSet r s);
     cx_ListBackups := logged KBackups (cx_ListBackups r);
     cx_GetService := λ n, other (cx_GetService r n); cx_CreateService := λ s, other (cx_CreateService r s);
     cx_UpdateService := λ s, other (cx_UpdateService r s); cx_DeleteService := λ s, other (cx_DeleteService r s);
     cx_PVCExists := λ n, other (cx_PVCExists r n);
     cx_ListPods := logged KPods (cx_ListPods r);
     cx_Probe := λ addr host, logged (KProbe addr host) (cx_Probe r addr host);
     cx_Reload := λ cfg addr, other (cx_Reload r cfg addr);
     cx_Event := λ a b c d, other (cx_Event r a b c d);
     cx_tls := cl_tls (cx_tls r); cx_repl := cl_repl (cx_repl r);
     cx_params := cl_params (cx_params r); cx_archive := cl_archive (cx_archive r) |}.
End logged.

(** ** Quiet passes *)

Create HintDb calls.

Definition quiet (ev : cl_event) : Prop :=
  match ev with
  | KStatus _ _ | KCreateSts _ _ | KUpdateSts _ _ | KCreateSecret _ _ => False
  | KRestart k _ _ => k = AnnotationParametersRestart
  | _ => True
  end.

(** Quiet, and the credentials Secret is not written either. *)
Definition still (ev : cl_event) : Prop := quiet ev ∧ match ev with KUpdateSecret _ _ => False | _ => True end.

Lemma still_quiet {W A} (m : M (W * list cl_event) A) : only still m → only quiet m.
Proof. intros H. eapply emits_conseq; [exact H|]. intros x new Hn. eapply Forall_impl; [exact Hn|]. by intros ev []. Qed.

(** Walks through a program whose loops and components are known. *)
Ltac walk :=
  repeat (lazymatch goal with
    | |- ∀ _, _ => intro
    | |- only _ (mret _) => apply only_ret
    | |- only _ (logged _ _) => by apply only_logged
    | |- only _ (mbind _ _) => apply only_bind
    | |- only _ (match _ with _ => _ end) => case_match
    | |- only _ ((λ _, _) _) => progress cbv beta
    | |- only _ _ => first [assumption | solve [eauto with calls] | progress simpl]
    end).

Section still.
Context `{X509} `{PasswordDigest} `{Sha256} `{RFC3339} `{ErrorText} `{ConditionSetter} `{ConditionLookup} `{Quantities} `{UrlParse} `{ApiErrors}.
Context {W : Type} (r : clusterOps W).
Abbreviation L := (W * list cl_event)%type.
Abbreviation tls := (cl_tls (cx_tls r)).
Abbreviation certs := (cl_certs (to_certs (cx_tls r))).
Abbreviation par := (cl_params (cx_params r)).
Abbreviation only := (only (W := W) still).

Lemma event_still a b c d : only (cx_Event (cl_ops r) a b c d).
Proof. by apply only_logged. Qed.

(** *** Certificates *)

Lemma generateCA_still cn now v : only (generateCA certs cn now v).
Proof. unfold generateCA, createCertificate. walk. Qed.

Lemma newCA_still n now p : only (newCA certs n now p).
Proof. unfold newCA. walk. apply generateCA_still. Qed.

Lemma issueLeafCert_still ca cn names usage now v : only (issueLeafCert certs ca cn names usage now v).
Proof. unfold issueLeafCert, createCertificate. walk. Qed.
#[local] Hint Resolve generateCA_still newCA_still issueLeafCert_still : calls.

Lemma planSelfManagedTLS_still ca server names now p : only (planSelfManagedTLS certs ca server names now p).
Proof.
  unfold planSelfManagedTLS, chooseActive, prepareNext, planServer, issueServerCert. walk.
Qed.

Lemma planPgbackrestTLS_still data names now : only (planPgbackrestTLS certs data names now).
Proof. unfold planPgbackrestTLS, pgbackrestCA, keepOrIssue. walk. Qed.
#[local] Hint Resolve planSelfManagedTLS_still planPgbackrestTLS_still : calls.

Section secrets.
Context (c : PgCluster) (replicas : Z).

Lemma getOwnedTLSSecret_still name : only (getOwnedTLSSecret tls c name).
Proof. unfold getOwnedTLSSecret. walk. Qed.

Lemma writeTLSSecret_still s data : only (writeTLSSecret tls c s data).
Proof. unfold writeTLSSecret. walk. Qed.

Lemma awaitCertificate_still cert : only (awaitCertificate tls c cert).
Proof. unfold awaitCertificate, adoptCertManagerSecret. walk. Qed.

Lemma cleanupSecrets_still inUse stale : only (cleanupSecrets tls c inUse stale).
Proof. induction stale as [|name stale IH]; simpl; walk. Qed.
#[local] Hint Resolve getOwnedTLSSecret_still writeTLSSecret_still awaitCertificate_still cleanupSecrets_still : calls.

Lemma provisionTLSSecret_still t ref policy : only (provisionTLSSecret tls c replicas t ref policy).
Proof.
  unfold provisionTLSSecret, reconcileCertificate, reconcileSelfManagedTLS. cbv zeta. walk.
Qed.

Lemma reconcilePgbackrestTLS_still : only (reconcilePgbackrestTLS tls c).
Proof. unfold reconcilePgbackrestTLS. walk. Qed.

Lemma cleanupPgbackrestTLS_still : only (cleanupPgbackrestTLS tls c).
Proof. unfold cleanupPgbackrestTLS. walk. Qed.

Lemma cleanupTLSResources_still : only (cleanupTLSResources tls c).
Proof. unfold cleanupTLSResources, cleanupCertificate. cbv zeta. walk. Qed.
End secrets.

#[local] Hint Resolve provisionTLSSecret_still reconcilePgbackrestTLS_still cleanupPgbackrestTLS_still cleanupTLSResources_still : calls.

(** *** The server: parameters and archive health *)

Lemma operatorConnectionConfig_still get (cluster : PgCluster) db :
  (∀ ns n, only (get ns n)) → only (operatorConnectionConfig get cluster db).
Proof. intros Hg. unfold operatorConnectionConfig, clusterClientTLS. walk; apply Hg. Qed.

Lemma connect_still c addr :
  emits (λ _ _ _, True) (connectForParameters par c addr)
    (λ x new, Forall still new ∧ match x with inl s => ∃ s0, s = cl_server s0 | inr _ => True end).
Proof.
  unfold connectForParameters.
  eapply emits_bind; [apply operatorConnectionConfig_still; intros; simpl; walk|]. intros [cfg|e] new Hn; [|by apply emits_ret; rewrite app_nil_r].
  simpl. eapply emits_bind; [by apply emits_logged|]. intros [s|e] new' ->; apply emits_ret; rewrite app_nil_r; (split; [apply Forall_app; split; [done|by repeat constructor]|eauto]).
Qed.

(** What follows on the connection. *)
Lemma connected_still {A} c addr (f : ParameterServer L + gerr → M L A) :
  (∀ s0, only (f (inl (cl_server s0)))) → (∀ e, only (f (inr e))) → only (s ← connectForParameters par c addr; f s).
Proof.
  intros Hs He. eapply emits_bind; [apply connect_still|]. intros [s|e] new [Hn Hx].
  - destruct Hx as [s0 ->]. eapply emits_conseq; [apply Hs|]. intros; by apply Forall_app.
  - eapply emits_conseq; [apply He|]. intros; by apply Forall_app.
Qed.

Lemma readParameterState_still c layout : only (readParameterState par c layout).
Proof. unfold readParameterState. apply connected_still; intros; walk. Qed.

Lemma reloadServer_still c addr : only (reloadServer par c addr).
Proof. unfold reloadServer. apply connected_still; intros; walk. Qed.
#[local] Hint Resolve readParameterState_still reloadServer_still : calls.

Lemma reloadStandbys_still c standbys names : only (reloadStandbys par c standbys names).
Proof. induction names as [|name names IH]; simpl; walk. Qed.
#[local] Hint Resolve reloadStandbys_still : calls.

Lemma endWith_still c st status reason msg delay : only (endWith par c st status reason msg delay).
Proof. unfold endWith, setParametersCondition. cbv zeta. walk. Qed.
#[local] Hint Resolve endWith_still : calls.

Lemma afterReload_still c st a hash : only (afterReload par c st a hash).
Proof. unfold afterReload, restartForParameters. cbv zeta. walk. Qed.
#[local] Hint Resolve afterReload_still : calls.

Lemma reconcileParameters_still c st ready pods : only (reconcileParameters par c st ready pods).
Proof. unfold reconcileParameters, applyAssessed, statefulSetRolledOut, reloadForParameters. cbv zeta. walk. Qed.

Lemma readArchive_still generation st backup (s : ArchiveServer W) :
  only (readArchive (cl_archive (cx_archive r)) generation st backup (cl_archive_server s)).
Proof. unfold readArchive, recordWALDrop, archiveVerdict, backupStartedAfter, archiveUnknown. walk. Qed.

Lemma reconcileArchiveHealth_still cluster generation st backup ready :
  only (reconcileArchiveHealth (cl_archive (cx_archive r)) cluster generation st backup ready).
Proof.
  unfold reconcileArchiveHealth, archiveUnknown. destruct backup as [backup|]; [|walk]. destruct (negb ready); [walk|].
  apply only_bind; [apply operatorConnectionConfig_still; intros; simpl; walk|]. intros [cfg|e]; [|walk].
  eapply (emits_bind _ _ _ (λ x new, Forall still new ∧ match x with inl s => ∃ s0, s = cl_archive_server s0 | inr _ => True end)).
  - simpl. eapply emits_bind; [by apply emits_logged|]. intros [s|e] new' ->; apply emits_ret; (split; [by repeat constructor|eauto]).
  - intros [s|e] new [Hn Hx].
    + destruct Hx as [s0 ->]. eapply emits_conseq; [apply readArchive_still|]. intros; by apply Forall_app.
    + apply emits_ret. by rewrite app_nil_r.
Qed.

(** *** Replication *)

Abbreviation repl := (cl_repl (cx_repl r)).
Abbreviation onlyq := (Trace.only (W := W) quiet).

Lemma labelPods_still cluster pods : only (labelPods (api_PatchPod repl) cluster pods).
Proof. induction pods as [|pod pods IH]; simpl; walk. Qed.

Lemma labelStreaming_still cluster streaming pods : only (labelStreaming (api_PatchPod repl) cluster streaming pods).
Proof. induction pods as [|pod pods IH]; simpl; walk. Qed.

Lemma slotLoop_still cluster want pvcs drops slots st :
  only (slotLoop (cl_slots (api_slots (cx_repl r))) cluster want pvcs drops slots st).
Proof.
  revert st. induction slots as [|s slots IH]; intros st; simpl; [walk|].
  destruct (slotAction cluster want pvcs drops s st) as [[] st']; walk; apply IH.
Qed.

Lemma createLoop_still podExists ordinals st : only (createLoop (cl_slots (api_slots (cx_repl r))) podExists ordinals st).
Proof. induction ordinals as [|i is_ IH]; simpl; walk. Qed.

Lemma volumeLoop_still cluster ordinals n items remaining :
  only (volumeLoop (api_DeletePVC repl) cluster ordinals n items remaining).
Proof. revert remaining. induction items as [|pvc pvcs IH]; intros remaining; simpl; walk; apply IH. Qed.
#[local] Hint Resolve slotLoop_still createLoop_still volumeLoop_still : calls.

Lemma reconcileReplicationSlots_still cluster want podExists pvcs drops :
  only (reconcileReplicationSlots (api_slots repl) cluster want podExists pvcs drops).
Proof. unfold reconcileReplicationSlots. walk. Qed.

Lemma cleanupStandbyVolumes_still cluster sts pods :
  only (cleanupStandbyVolumes (api_ListPVCs repl) (api_DeletePVC repl) cluster sts pods).
Proof. unfold cleanupStandbyVolumes. walk. Qed.
#[local] Hint Resolve labelStreaming_still reconcileReplicationSlots_still cleanupStandbyVolumes_still : calls.
#[local] Hint Extern 2 (Trace.only quiet _) => (apply still_quiet; solve [eauto with calls]) : calls.

Lemma rolloutReplicationPassword_still cluster secret pods : onlyq (rolloutReplicationPassword repl cluster secret pods).
Proof. unfold rolloutReplicationPassword. walk. Qed.

Lemma ensureReplicationRole_still cluster secret : onlyq (ensureReplicationRole repl cluster secret).
Proof. unfold ensureReplicationRole. cbv zeta. walk. Qed.

Lemma clearPasswordSyncRestart_still secret : onlyq (clearPasswordSyncRestart repl secret).
Proof. unfold clearPasswordSyncRestart. walk. Qed.

Lemma restartPrimary_still cluster secret primary : onlyq (restartPrimaryForPasswordSync repl cluster secret primary).
Proof. unfold restartPrimaryForPasswordSync. cbv zeta. walk. Qed.
#[local] Hint Resolve rolloutReplicationPassword_still ensureReplicationRole_still clearPasswordSyncRestart_still restartPrimary_still : calls.

Lemma managePrimary_still cluster secret pods cond pvcs drops : onlyq (managePrimary repl cluster secret pods cond pvcs drops).
Proof. unfold managePrimary, markInitialized, passFail, passDone. cbv zeta. walk. Qed.

Lemma reconcileReplication_quiet cluster secret sts pods cond : onlyq (reconcileReplication repl cluster secret sts pods cond).
Proof.
  pose proof managePrimary_still.
  unfold reconcileReplication, reachPrimary, connectPrimary, checkOperatorLogin, passFail, passWait, passDone. cbv zeta. walk.
Qed.

(** *** The steps of the Cluster reconciler *)

Context (o : ClusterObject) (refs : Backup → BackupRefs).
Abbreviation lops := (cl_ops r).

Lemma warn_still a b c : only (warn lops a b c).
Proof. apply event_still. Qed.

Lemma setPhysicalBackupCondition_still st status reason msg : only (setPhysicalBackupCondition lops o st status reason msg).
Proof. unfold setPhysicalBackupCondition, warn. cbv zeta. walk. Qed.
#[local] Hint Resolve warn_still setPhysicalBackupCondition_still : calls.

Lemma preparePgbackrest_still st : only (preparePgbackrest lops o st).
Proof. unfold preparePgbackrest, physicalBackup. walk. Qed.

Lemma reconcileServices_still b : only (reconcileServices lops o b).
Proof. unfold reconcileServices, reconcileReadOnlyService, reconcileService, convergeServiceSpec. cbv zeta. walk. Qed.

Lemma ensureMarkerKeySecret_still cluster :
  only (ensureMarkerKeySecret (po_GetSecret (cx_params lops)) (cx_random lops) (cx_CreateMarkerSecret lops) cluster).
Proof. unfold ensureMarkerKeySecret. walk. Qed.

Lemma cleanupUnusedResources_still st a b : only (cleanupUnusedResources lops o st a b).
Proof. unfold cleanupUnusedResources, cleanupHBAConfigMap, cleanupConfigMap. cbv zeta. walk. Qed.

Lemma reloadServerConfig_still a b : only (reloadServerConfig lops o a b).
Proof. unfold reloadServerConfig. walk. Qed.

Lemma setRestoreInterruptedCondition_still st : only (setRestoreInterruptedCondition lops o st).
Proof. unfold setRestoreInterruptedCondition. cbv zeta. walk. Qed.

Lemma detectExistingVolume_still st : only (detectExistingVolume lops o st).
Proof. unfold detectExistingVolume. cbv zeta. walk. Qed.

Lemma keepPgopImage_still st running t : only (keepPgopImage lops o st running t).
Proof. unfold keepPgopImage. cbv zeta. walk. Qed.

Lemma reconcileServerState_still st backup ready pods : only (reconcileServerState lops o st backup ready pods).
Proof.
  unfold reconcileServerState. apply only_bind; [apply reconcileParameters_still|]. intros [x p]. cbv zeta.
  apply only_bind; [apply reconcileArchiveHealth_still|]. intros [y a]. walk.
Qed.
End still.
