(* ===== verification/ClusterTheorems.v ===== *)
(** * What a pass over a Cluster writes

    Over every answer of the API server and the servers: when the StatefulSet is written
    and how, when its pods are restarted for a certificate, and what the status says.
    The last section has a concrete pass. *)

From S2P Require Import Prelude GoStrings GoStrconv GoUrl RoleSql ApiTypes RolePolicy Objects Password Connection Pgbackrest Trace.
From S2P Require Import Replication ReplicationReconcile RoleReconcile PgConfig PgConfigTheorems Restore BackupRun ArchiveHealth PgHba.
From S2P Require Import ReplicationSafety PodTemplate PodTemplateTheorems Tls TlsTheorems ClusterReconcile ClusterTrace.

Open Scope Z_scope.

(** What the API library documents of the other conditions. *)
Class ConditionFrame `{ConditionSetter} `{ConditionLookup} : Prop := {
  find_set_other l cond t : cond_Type cond ≠ t → FindStatusCondition (SetStatusCondition l cond) t = FindStatusCondition l t;
  find_remove_other l t t' : t ≠ t' → FindStatusCondition (RemoveStatusCondition l t) t' = FindStatusCondition l t' }.

Section theorems.
Context `{X509} `{PasswordDigest} `{Sha256} `{RFC3339} `{ErrorText} `{ConditionSetter} `{ConditionLookup} `{Quantities} `{UrlParse} `{ApiErrors}.
Context `{!ConditionLaws, !ConditionFrame}.

(** ** What is known of a Cluster from the calls made so far *)

Section known.
Context (o : ClusterObject) (refs : Backup → BackupRefs) (pre : list cl_event).
Abbreviation spec := (cb_spec o).
Abbreviation conf := (pc_conf spec).
Abbreviation cluster := (cf_cluster conf).
Abbreviation repl := (cf_repl conf).
Abbreviation host := (clusterHost cluster).

(** The Cluster as it was read, not being deleted, with the finalizer. *)
Definition claimed : Prop :=
  KCluster (inl (Some o)) ∈ pre ∧ cb_Deleting o = false ∧
  (clusterFinalizer ∈ cb_Finalizers o ∨ KFinalizers (cb_Finalizers o ++ [clusterFinalizer]) None ∈ pre).

(** The TLS Secret was read and is usable for verify-full. *)
Definition material (m : tlsMaterial) : Prop :=
  ∃ s now, KTLSSecret (tlsSecretName cluster) (inl (Some s)) ∈ pre ∧ KNow now ∈ pre ∧ parseTLSMaterial (ts_Data s) host now = inl m.

Definition tls_validated : Prop := k_TLS cluster = None ∨ ∃ m, material m.

(** The ConfigMap of this name was read with, or given, this value. *)
Definition has_data (name key value : string) : Prop :=
  (∃ cm, KGetConfigMap name (inl (Some cm)) ∈ pre ∧ default "" (cm_Data cm !! key) = value) ∨
  (∃ data, KWriteConfigMap name data None ∈ pre ∧ data !! key = Some value).

Definition hba_written (replication : bool) : Prop :=
  (tlsRequired (cf_TLS conf) = false ∧ replication = false) ∨
  has_data (hbaConfigMapName cluster) hbaFileName (renderPgHBA (cf_TLS conf) replication).

Definition conf_written : Prop :=
  cf_Parameters conf = ∅ ∨ ∃ layout, resolvePostgresLayout (cf_image conf) = inl layout ∧
    has_data (configMapName (k_Name cluster)) configFileName (renderPostgresConf (cf_Parameters conf) (lay_PGDATA layout)).1.

(** The credentials Secret is stored. *)
Definition stored (s : Secret) : Prop :=
  KGetSecret (k_Namespace cluster) (credentialsName cluster) (inl (Some s)) ∈ pre ∨ (∃ s', KCreateSecret s' (inl s) ∈ pre) ∨
  (∃ s', KUpdateSecret s' (s, None) ∈ pre).

(** The TLS Secret of this name was read with, or given, this data. *)
Definition tls_stored (name : string) (data : gmap string string) : Prop :=
  (∃ s, KTLSSecret name (inl (Some s)) ∈ pre ∧ ts_Data s = data) ∨
  (∃ s0 s, KTLSSecret name (inl s0) ∈ pre ∧ KWriteTLSSecret s None ∈ pre ∧ ts_Name s = default name (ts_Name <$> s0) ∧ ts_Data s = data).

(** The Backup that archives WAL is the Cluster's physical Backup as listed, when it is
    valid; with one the Secret of pgBackRest's certificates is stored. *)
Definition backup_ready (backup : option Backup) : Prop :=
  (∃ items, KBackups (inl items) ∈ pre ∧
     backup = (b ← physicalBackupFor (k_Name cluster) items;
               if decide (validatePhysicalBackupFor b (cf_image conf) = None) then Some b else None)) ∧
  (backup = None ∨ ∃ kept ca server client data, pgbackrestSecretData kept ca server client = inl data ∧
     tls_stored (pgbackrestTLSSecretName cluster) data).

(** The desired template, once everything it mounts is written. *)
Definition template_due (t : PodTemplate) : Prop :=
  ∃ s replication backup, stored s ∧ hba_written replication ∧ conf_written ∧ tls_validated ∧ backup_ready backup ∧
    desiredTemplate spec (sec_Name s) replication (templateBackup refs backup) = inl t.

Definition statefulset_created (n : NewStatefulSet) : Prop :=
  claimed ∧ KGetSts (inl None) ∈ pre ∧
  ns_Replicas n = (if pausedForRestore repl then 0 else desiredReplicas repl) ∧
  rt_DeleteWhenScaled (ns_Retention n) = false ∧ template_due (ns_Template n).

Definition statefulset_updated (s : PgStatefulSet) : Prop :=
  claimed ∧ ∃ old t kept, KGetSts (inl (Some old)) ∈ pre ∧ template_due t ∧
    st_Replicas s = Some (if pausedForRestore repl then 0 else statefulSetReplicas repl (Some (repl_view old))) ∧
    (rt_DeleteWhenScaled <$> st_Retention s) = Some false ∧
    (s, true) = convergedStatefulSet old (default 0 (st_Replicas s)) (clusterLabels cluster)
                  (if decide (kept = "") then t else keptTemplate kept t) (desiredPVCRetentionPolicy spec).

(** The server behind the Service presents the certificate of the TLS Secret. *)
Definition presented (m : tlsMaterial) : Prop :=
  material m ∧ KProbe (JoinHostPort host (Itoa (clusterPort cluster))) host (inl (crt_Raw (mat_Leaf m))) ∈ pre.

(** The StatefulSet exists and its primary pod is ready. *)
Definition primary_ready : Prop :=
  ∃ sts items p, KGetSts (inl (Some sts)) ∈ pre ∧ KPods (inl items) ∈ pre ∧ p ∈ ownPods o items ∧
    pod_Name p = primaryPodName repl ∧ isPodReady p = true.

Definition tls_restart_due (hash : string) : Prop :=
  claimed ∧ ∃ m addr der now s, material m ∧ hash = mat_Hash m ∧ KProbe addr host (inl der) ∈ pre ∧ KNow now ∈ pre ∧
    certVerifies der (mat_CAPEM m) host now = false ∧
    KTemplate (inl (Some s)) ∈ pre ∧ default "" (pss_TemplateAnnotations s !! AnnotationTLSRestart) ≠ hash.

Definition tls_true (st : ClusterStatus) : Prop := IsStatusConditionTrue (cs_Conditions st) ConditionTypeTLSReady = true.

(** What the status says of TLS was said before, or was seen in this pass. *)
Definition tls_sound (st : ClusterStatus) : Prop :=
  (tls_true st → tls_true (cb_Status o) ∨ ∃ m, presented m) ∧
  (cs_TLSSecretHash st = cs_TLSSecretHash (cb_Status o) ∨ cs_TLSSecretHash st = "" ∨
   ∃ m, presented m ∧ cs_TLSSecretHash st = mat_Hash m).

Definition status_true (st : ClusterStatus) : Prop :=
  (∃ cond, FindStatusCondition (cs_Conditions st) ConditionTypeAvailable = Some cond ∧
     (cond_Status cond = "True" ↔ cs_Ready st = true)) ∧
  (cs_Ready st = true → primary_ready) ∧ tls_sound st.
End known.

Definition J (refs : Backup → BackupRefs) (pre : list cl_event) (ev : cl_event) : Prop :=
  match ev with
  | KCreateSts n _ => ∃ o, statefulset_created o refs pre n
  | KUpdateSts s _ => ∃ o, statefulset_updated o refs pre s
  | KRestart k v _ => k = AnnotationParametersRestart ∨ (k = AnnotationTLSRestart ∧ ∃ o, tls_restart_due o pre v)
  | KStatus st _ => ∃ o, claimed o pre ∧ status_true o pre st
  | _ => True
  end.

Lemma claimed_mono o : Mono (claimed o).
Proof. unfold claimed. solve_mono. Qed.

Lemma material_mono o m : Mono (λ tr, material o tr m).
Proof. unfold material. solve_mono. Qed.

Lemma backup_ready_mono o backup : Mono (λ tr, backup_ready o tr backup).
Proof. unfold backup_ready, tls_stored. solve_mono. Qed.

Lemma template_due_mono o refs t : Mono (λ tr, template_due o refs tr t).
Proof. unfold template_due, backup_ready, tls_stored, stored, hba_written, conf_written, tls_validated, has_data, material. solve_mono. Qed.

Lemma primary_ready_mono o : Mono (primary_ready o).
Proof. unfold primary_ready. solve_mono. Qed.

Lemma tls_sound_mono o st : Mono (λ tr, tls_sound o tr st).
Proof. unfold tls_sound, presented, material. solve_mono. Qed.

(** ** What the steps leave of the TLS status *)

Definition frame (st st' : ClusterStatus) : Prop :=
  cs_TLSSecretHash st' = cs_TLSSecretHash st ∧
  FindStatusCondition (cs_Conditions st') ConditionTypeTLSReady = FindStatusCondition (cs_Conditions st) ConditionTypeTLSReady.

#[export] Instance frame_preorder : PreOrder frame.
Proof. split; [by split|]. intros st1 st2 st3 [A1 A2] [B1 B2]. split; congruence. Qed.

Lemma frame_sound o tr st st' : frame st st' → tls_sound o tr st → tls_sound o tr st'.
Proof. intros [Hh Hf]. unfold tls_sound, tls_true, IsStatusConditionTrue. by rewrite Hh, Hf. Qed.

Section steps.
Context {W : Type} (r : clusterOps W) (o : ClusterObject) (refs : Backup → BackupRefs) (policy : selfManagedCertPolicy).
Abbreviation spec := (cb_spec o).
Abbreviation conf := (pc_conf spec).
Abbreviation cluster := (cf_cluster conf).
Abbreviation repl := (cf_repl conf).
Abbreviation L := (W * list cl_event)%type.
Abbreviation lops := (cl_ops r).
Abbreviation runs := (runs (W := W) (J refs)).

Lemma frame_condition t status reason msg st : t ≠ ConditionTypeTLSReady → frame st (setCondition o t status reason msg st).
Proof. intros Ht. split; [done|]. simpl. by rewrite find_set_other. Qed.

Lemma frame_remove t st : t ≠ ConditionTypeTLSReady → frame st (removeCondition t st).
Proof. intros Ht. split; [done|]. simpl. by rewrite find_remove_other. Qed.

Lemma setPhysicalBackupCondition_frame st status reason msg :
  returns (setPhysicalBackupCondition lops o st status reason msg) (frame st).
Proof. unfold setPhysicalBackupCondition. cbv zeta. walk_returns; by apply frame_condition. Qed.

Lemma preparePgbackrest_frame st : returns (preparePgbackrest lops o st) (λ x, frame st x.2).
Proof.
  unfold preparePgbackrest. eapply (returns_bind _ _ (λ x, frame st x.2)).
  - unfold physicalBackup. apply returns_any. intros [items|e]; [|by apply returns_ret].
    destruct (physicalBackupFor _ _) as [backup|]; [|by apply returns_ret, frame_remove].
    destruct (validatePhysicalBackupFor _ _); (eapply returns_bind; [apply setPhysicalBackupCondition_frame|]);
      intros st' Hf; by apply returns_ret.
  - intros [b st'] Hf. simpl in Hf. walk_returns; done.
Qed.

Lemma keepPgopImage_frame st running t : returns (keepPgopImage lops o st running t) (λ x, frame st x.2 ∧
  ∃ kept, x.1 = if decide (kept = "") then t else keptTemplate kept t).
Proof.
  unfold keepPgopImage. cbv zeta. case_decide as Hk.
  { apply returns_ret. split; [done|]. by exists "". }
  destruct (FindStatusCondition _ _).
  - apply returns_ret. split; [done|]. exists (keptPgopImage (cf_image conf) running). by rewrite decide_False.
  - eapply returns_bind; [apply setPhysicalBackupCondition_frame|]. intros st' Hf. apply returns_ret. split; [done|].
    exists (keptPgopImage (cf_image conf) running). by rewrite decide_False.
Qed.

Lemma detectExistingVolume_frame st : returns (detectExistingVolume lops o st) (λ x, frame st x.2).
Proof. unfold detectExistingVolume. cbv zeta. walk_returns; try done; by apply frame_condition. Qed.

Lemma setRestoreInterruptedCondition_frame st : returns (setRestoreInterruptedCondition lops o st) (λ st', frame st st' ∧
  cs_Ready st' = cs_Ready st ∧
  FindStatusCondition (cs_Conditions st') ConditionTypeAvailable = FindStatusCondition (cs_Conditions st) ConditionTypeAvailable).
Proof.
  unfold setRestoreInterruptedCondition. cbv zeta. case_decide.
  - apply returns_ret. split; [by apply frame_remove|]. split; [done|]. simpl. by rewrite find_remove_other.
  - apply returns_any. intros _. apply returns_ret. split; [by apply frame_condition|]. split; [done|]. simpl. by rewrite find_set_other.
Qed.

Abbreviation params_kept := (λ st x, FindStatusCondition (pst_Conditions x) ConditionTypeTLSReady =
                                     FindStatusCondition (pst_Conditions st) ConditionTypeTLSReady).

Lemma endWith_frame c st0 st status reason msg delay :
  pst_Conditions st0 = pst_Conditions st →
  returns (endWith (cl_params (cx_params r)) c st0 status reason msg delay) (λ x, params_kept st x.2).
Proof.
  intros Hst. unfold endWith, setParametersCondition. cbv zeta. rewrite Hst. eapply (returns_bind _ _ (params_kept st)).
  - walk_returns; simpl; by rewrite find_set_other.
  - intros. by apply returns_ret.
Qed.

Lemma reconcileParameters_frame c st ready pods :
  returns (reconcileParameters (cl_params (cx_params r)) c st ready pods) (λ x, params_kept st x.2).
Proof.
  unfold reconcileParameters, applyAssessed, afterReload. cbv zeta. walk_returns; try done; try by apply endWith_frame.
  simpl. by rewrite find_remove_other.
Qed.

Abbreviation archive_kept := (λ st x, FindStatusCondition (as_Conditions x) ConditionTypeTLSReady =
                                      FindStatusCondition (as_Conditions st) ConditionTypeTLSReady).

Lemma recordWALDrop_frame st marker : returns (recordWALDrop (cl_archive (cx_archive r)) st marker) (archive_kept st).
Proof. unfold recordWALDrop. destruct (newestDrop marker). walk_returns; done. Qed.

Lemma archiveVerdict_frame st generation backup stats :
  returns (archiveVerdict (cl_archive (cx_archive r)) generation st backup stats) (λ x, archive_kept st x.2).
Proof. unfold archiveVerdict, archiveUnknown. walk_returns; simpl; by rewrite find_set_other. Qed.

Lemma archive_frame cl generation st backup ready :
  returns (reconcileArchiveHealth (cl_archive (cx_archive r)) cl generation st backup ready) (λ x, archive_kept st x.2).
Proof.
  unfold reconcileArchiveHealth, readArchive, archiveUnknown. destruct backup as [backup|].
  2:{ apply returns_ret. simpl. by rewrite find_remove_other. }
  destruct (negb ready); [by apply returns_ret|].
  apply returns_any. intros [cfg|e]; [|apply returns_ret; simpl; by rewrite find_set_other].
  apply returns_any. intros [srv|e]; [|apply returns_ret; simpl; by rewrite find_set_other].
  apply returns_any. intros [stats|e]; [|apply returns_ret; simpl; by rewrite find_set_other].
  apply returns_any. intros [marker|e]; [|apply returns_ret; simpl; by rewrite find_set_other].
  eapply returns_bind; [apply recordWALDrop_frame|]. intros st' Hst'. intros w. simpl.
  pose proof (archiveVerdict_frame st' generation backup stats w) as Hv. simpl in Hv. simpl in Hst'. congruence.
Qed.

Lemma reconcileServerState_frame st backup ready pods :
  returns (reconcileServerState lops o st backup ready pods) (λ x, frame st x.2).
Proof.
  unfold reconcileServerState. eapply returns_bind; [apply reconcileParameters_frame|]. intros [d p] Hp. cbv zeta.
  eapply returns_bind; [apply archive_frame|]. intros [d' a] Ha. apply returns_ret. split; [done|]. simpl in *. congruence.
Qed.

Lemma recordReplication_frame c st : frame st (recordReplication o c st).
Proof.
  unfold recordReplication. destruct c as [[[b reason] msg]|]; [by apply frame_condition|].
  destruct (bool_decide _); [by apply frame_remove|done].
Qed.

(** ** The runs of the steps *)

Lemma still_runs {A} tr (m : M L A) : only still m → runs tr m (λ _ _, True).
Proof.
  intros Hm. eapply runs_only; [exact Hm|]. intros pre ev _ [Hq _]. destruct ev; try done. by left.
Qed.

Lemma quiet_runs {A} tr (m : M L A) : only quiet m → runs tr m (λ _ _, True).
Proof. intros Hm. eapply runs_only; [exact Hm|]. intros pre ev _ Hq. destruct ev; try done. by left. Qed.

(** A step whose calls are quiet and whose result is known. *)
Lemma still_bind {A B} tr (m : M L A) (f : A → M L B) R Q :
  only still m → returns m R → (∀ x tr1, tr `prefix_of` tr1 → R x → runs tr1 (f x) Q) → runs tr (m ≫= f) Q.
Proof.
  intros Hm HR Hf. eapply runs_bind; [by apply runs_returns; [apply still_runs|]|]. intros x tr1 P [_ Hx]. by apply Hf.
Qed.

(** The credentials Secret is stored. *)
Lemma reconcileSecret_runs tr st :
  runs tr (reconcileSecret lops o st) (λ x tr', match x with inl s => stored o tr' s | inr _ => True end).
Proof.
  unfold reconcileSecret. apply runs_call; [done|]. intros [[s|]|e] tr1 P1 E1; [| |by apply runs_ret].
  - destruct (negb _); [apply runs_ret; left; seen|].
    eapply runs_bind; [apply still_runs; unfold generatePassword; walk|]. intros [p|e] tr2 P2 _; [|by apply runs_ret].
    apply runs_call; [done|]. intros [s' [e|]] tr3 P3 E3; apply runs_ret; [done|]. right. right. by eexists.
  - eapply runs_bind; [apply still_runs; unfold generatePassword; walk|]. intros [p|e] tr2 P2 _; [|by apply runs_ret].
    eapply runs_bind; [apply still_runs; unfold generatePassword; walk|]. intros [p'|e] tr3 P3 _; [|by apply runs_ret].
    apply runs_logged; [done|]. intros [s|e] tr' P' E'; [|done]. right. left. by eexists.
Qed.

Lemma writeHBAConfigMap_runs tr cm data replication :
  (∀ cm', cm = Some cm' → KGetConfigMap (hbaConfigMapName cluster) (inl (Some cm')) ∈ tr) →
  data !! hbaFileName = Some (renderPgHBA (cf_TLS conf) replication) →
  runs tr (writeHBAConfigMap lops o cm data) (λ e tr', e = None → hba_written o tr' replication).
Proof.
  intros Hcm Hd. unfold writeHBAConfigMap. destruct cm as [cm|].
  - case_decide as Hc.
    + apply runs_ret. intros _. right. left. exists cm. split; [by apply Hcm|]. by rewrite Hc, Hd.
    + apply runs_logged; [done|]. intros e tr' P' E' ->. right. right. by exists data.
  - apply runs_logged; [done|]. intros e tr' P' E' ->. right. right. by exists data.
Qed.

Lemma reconcileHBAConfigMap_runs tr replication :
  runs tr (reconcileHBAConfigMap lops o replication) (λ e tr', e = None → hba_written o tr' replication).
Proof.
  unfold reconcileHBAConfigMap. destruct (negb _ && negb _) eqn:Hn.
  { apply runs_ret. intros _. left. apply andb_true_iff in Hn as [?%negb_true_iff ?%negb_true_iff]. done. }
  apply runs_call; [done|]. intros [cm|e] tr1 P1 E1; [|by apply runs_ret]. cbv zeta.
  assert (∀ tr', tr1 `prefix_of` tr' → ∀ cm', cm = Some cm' → KGetConfigMap (hbaConfigMapName cluster) (inl (Some cm')) ∈ tr') as Hcm.
  { intros tr' P' cm' ->. seen. }
  match goal with |- runs _ (if ?b then _ else _) _ => destruct b end; [destruct (marked_initialized cm)|].
  - apply writeHBAConfigMap_runs; [by apply Hcm|]. rewrite lookup_insert_ne by done. apply lookup_singleton_eq.
  - apply runs_call; [done|]. intros [pvcs|e] tr2 P2 E2; [|by apply runs_ret]. apply writeHBAConfigMap_runs; [by apply Hcm|].
    destruct (primaryVolumeMissing _ _); [rewrite lookup_insert_ne by done|]; apply lookup_singleton_eq.
  - apply writeHBAConfigMap_runs; [by apply Hcm|]. apply lookup_singleton_eq.
Qed.

Lemma reconcileConfigMap_runs tr st layout :
  resolvePostgresLayout (cf_image conf) = inl layout →
  runs tr (reconcileConfigMap (cx_params lops) (seen_conf o st) layout) (λ e tr', e = None → conf_written o tr').
Proof.
  intros Hl. unfold reconcileConfigMap. case_decide as Hp; [apply runs_ret; by left|]. cbv zeta.
  apply runs_call; [done|]. intros [[cm|]|e] tr1 P1 E1; [| |by apply runs_ret].
  - destruct (negb _); [by apply runs_ret|]. case_decide as Hd.
    + apply runs_ret. intros _. right. exists layout. split; [done|]. left. exists cm. split; [done|apply Hd].
    + apply runs_logged; [done|]. intros e tr' P' E' ->. right. exists layout. split; [done|]. right.
      eexists. split; [exact E'|apply lookup_singleton_eq].
  - apply runs_logged; [done|]. intros e tr' P' E' ->. right. exists layout. split; [done|]. right.
    eexists. split; [exact E'|apply lookup_singleton_eq].
Qed.

Lemma prepareTLS_runs tr st :
  tls_sound o tr st →
  runs tr (prepareTLS lops o policy st) (λ x tr', tls_sound o tr' x.2 ∧
    match x.1 with
    | inl (None, _) => k_TLS cluster = None
    | inl (Some m, _) => material o tr' m
    | inr _ => True
    end).
Proof.
  intros Hs. unfold prepareTLS. destruct (k_TLS cluster) as [t|] eqn:Ht.
  - eapply runs_bind; [apply still_runs, provisionTLSSecret_still|]. intros [z [e|]] tr1 P1 _.
    { apply runs_ret. split; [by eapply tls_sound_mono|done]. }
    apply runs_call; [done|]. intros now tr2 P2 E2. unfold loadTLSMaterial. cbv zeta.
    eapply (runs_bind _ _ _ _ (λ x tr', match x with inl m => material o tr' m | inr _ => True end)).
    { apply runs_call; [done|]. intros [[s|]|e] tr3 P3 E3; apply runs_ret; [|done..].
      destruct (parseTLSMaterial _ _ _) as [m|e] eqn:Hm; [|done]. exists s, now. split_and!; [done|seen|done]. }
    intros [m|e] tr3 P3 Hm; apply runs_ret; (split; [|done]); by eapply tls_sound_mono, tls_sound_mono, tls_sound_mono.
  - apply runs_ret. split; [|done]. simpl. split; [|right; by left].
    unfold tls_true, IsStatusConditionTrue. simpl. by rewrite find_remove.
Qed.

Lemma planPgbackrestTLS_data ce data names now :
  returns (planPgbackrestTLS (W := L) ce data names now)
    (λ x, match x with inl (out, _) => ∃ ca server client, pgbackrestSecretData data ca server client = inl out | inr _ => True end).
Proof.
  unfold planPgbackrestTLS. cbv zeta. apply returns_any. intros [ca|e]; [|by apply returns_ret].
  apply returns_any. intros [server|e]; [|by apply returns_ret]. apply returns_any. intros [client|e]; [|by apply returns_ret].
  apply returns_ret. destruct (pgbackrestSecretData _ _ _ _) as [out|] eqn:Ho; [|done]. by exists ca, server, client.
Qed.

Lemma reconcilePgbackrestTLS_runs tr :
  runs tr (reconcilePgbackrestTLS (cx_tls lops) cluster) (λ x tr', match x with
    | inl _ => ∃ kept ca server client data, pgbackrestSecretData kept ca server client = inl data ∧
                 tls_stored tr' (pgbackrestTLSSecretName cluster) data
    | inr _ => True end).
Proof.
  unfold reconcilePgbackrestTLS. set (name := pgbackrestTLSSecretName cluster).
  eapply (runs_bind _ _ _ _ (λ x tr', match x with
    | inl s => ∃ s0, KTLSSecret name (inl s0) ∈ tr' ∧ ts_Name s = default name (ts_Name <$> s0) ∧ (s0 = Some s ∨ ts_ResourceVersion s = "")
    | inr _ => True end)).
  { unfold getOwnedTLSSecret. apply runs_call; [done|]. intros [[s|]|e] tr1 P1 E1; apply runs_ret; [|by exists None; auto|done].
    destruct (negb _); [done|]. exists (Some s). auto. }
  intros [s|e] tr1 P1 Hs; [|by apply runs_ret]. destruct Hs as (s0 & Hget & Hname & Hnew).
  apply runs_call; [done|]. intros now tr2 P2 _.
  eapply still_bind; [apply planPgbackrestTLS_still|apply planPgbackrestTLS_data|].
  intros [[data next]|e] tr3 P3 Hd; [|by apply runs_ret]. destruct Hd as (ca & server & client & Hd).
  eapply (runs_bind _ _ _ _ (λ e tr', e = None → tls_stored tr' name data)).
  - unfold writeTLSSecret. case_decide as Hrv; [|case_decide as Heq].
    + apply runs_logged; [done|]. intros e tr' P' E' ->. right. exists s0, (set_controller cluster (ts_set_data data s)).
      split_and!; [seen|done|done|done].
    + apply runs_ret. intros _. left. destruct Hnew as [->|Hn]; [|done]. exists s. split; [seen|done].
    + apply runs_logged; [done|]. intros e tr' P' E' ->. right. exists s0, (ts_set_data data s). split_and!; [seen|done|done|done].
  - intros [e|] tr4 P4 He; apply runs_ret; [done|]. exists (ts_Data s), ca, server, client, data. auto.
Qed.

Lemma physicalBackup_runs tr st :
  runs tr (physicalBackup lops o st) (λ x tr', match x.1 with
    | inl backup => ∃ items, KBackups (inl items) ∈ tr' ∧
        backup = (b ← physicalBackupFor (k_Name cluster) items;
                  if decide (validatePhysicalBackupFor b (cf_image conf) = None) then Some b else None)
    | inr _ => True end).
Proof.
  unfold physicalBackup. apply runs_call; [done|]. intros [items|e] tr1 P1 E1; [|by apply runs_ret].
  destruct (physicalBackupFor _ items) as [b|] eqn:Hb.
  2:{ apply runs_ret. exists items. by rewrite Hb. }
  destruct (validatePhysicalBackupFor b _) as [e|] eqn:Hv.
  all: eapply runs_bind; [apply still_runs, setPhysicalBackupCondition_still|].
  all: intros st' tr2 P2 _; apply runs_ret; exists items; (split; [seen|]); rewrite Hb; simpl; by rewrite Hv.
Qed.

Lemma preparePgbackrest_runs tr st :
  runs tr (preparePgbackrest lops o st) (λ x tr', match x.1 with inl (backup, _) => backup_ready o tr' backup | inr _ => True end).
Proof.
  unfold preparePgbackrest. eapply runs_bind; [apply physicalBackup_runs|].
  intros [[[backup|]|e] st'] tr1 P1 Hb; [| |by apply runs_ret]; simpl in Hb.
  - eapply runs_bind; [apply reconcilePgbackrestTLS_runs|]. intros [t|e] tr2 P2 Ht; apply runs_ret; [|done].
    destruct Hb as (items & Hi & Heq). split; [exists items; split; [seen|done]|by right].
  - apply runs_ret. split; [done|by left].
Qed.

Lemma createStatefulSet_runs tr st t :
  claimed o tr → KGetSts (inl None) ∈ tr → template_due o refs tr t → tls_sound o tr st →
  runs tr (createStatefulSet lops o st t) (λ x tr', tls_sound o tr' x.2).
Proof.
  intros Hc Hs Ht Htls. unfold createStatefulSet.
  eapply still_bind; [apply detectExistingVolume_still|apply detectExistingVolume_frame|].
  intros [e st'] tr1 P1 Hf. simpl in Hf. assert (tls_sound o tr1 st') as Htls' by (eapply frame_sound; [done|]; by eapply tls_sound_mono).
  destruct e as [e|]; [by apply runs_ret|]. destruct (ParseQuantity _) as [size|]; [|by apply runs_ret].
  eapply (runs_bind _ _ _ _ (λ _ _, True)).
  - apply runs_logged; [|done]. intros e. exists o. split_and!; [by eapply claimed_mono|seen|done|done|by eapply template_due_mono].
  - intros e tr2 P2 _. apply runs_ret. by eapply tls_sound_mono.
Qed.

Lemma convergeStatefulSet_runs tr old t kept :
  claimed o tr → KGetSts (inl (Some old)) ∈ tr → template_due o refs tr t →
  runs tr (convergeStatefulSet lops o old (if decide (kept = "") then t else keptTemplate kept t)) (λ _ _, True).
Proof.
  intros Hc Hs Ht. unfold convergeStatefulSet. cbv zeta.
  set (t' := if decide (kept = "") then t else _).
  destruct (convergedStatefulSet _ _ _ _ _) as [s []] eqn:Hconv; [|by apply runs_ret].
  assert (st_Replicas s = Some (pausedReplicas o (statefulSetReplicas repl (Some (repl_view old)))) ∧
    st_Retention s = Some (desiredPVCRetentionPolicy spec)) as [Hr Hret].
  { unfold convergedStatefulSet in Hconv. destruct (convergeContainerList _ _), (convergeContainerList _ _).
    injection Hconv as <- _. done. }
  apply runs_logged; [|done]. intros e. exists o. split; [done|]. exists old, t, kept. split_and!; [done..| |].
  - by rewrite Hret.
  - rewrite Hr. exact (eq_sym Hconv).
Qed.

Lemma reconcileStatefulSet_runs tr st (s : Secret) replication backup :
  claimed o tr → stored o tr s → hba_written o tr replication → conf_written o tr → tls_validated o tr → backup_ready o tr backup →
  tls_sound o tr st →
  runs tr (reconcileStatefulSet lops o refs st (sec_Name s) replication backup) (λ x tr', tls_sound o tr' x.2).
Proof.
  intros Hc Hst Hh Hcf Hv Hb Htls. unfold reconcileStatefulSet.
  destruct (desiredTemplate _ _ _ _) as [t|e] eqn:Ht; [|by apply runs_ret].
  assert (template_due o refs tr t) as Hdue by (exists s, replication, backup; done).
  apply runs_call; [done|]. intros [[old|]|e] tr1 P1 E1.
  - eapply (still_bind _ _ _ (λ x, frame st x.2 ∧ ∃ kept, x.1 = if decide (kept = "") then t else keptTemplate kept t)).
    + destruct backup, (st_Containers old); try apply only_ret. apply keepPgopImage_still.
    + destruct backup, (st_Containers old); try (apply returns_ret; split; [done|by exists ""]). apply keepPgopImage_frame.
    + intros [t' st'] tr2 P2 [Hf [kept Hk]]. simpl in Hf, Hk. subst t'.
      eapply runs_bind; [apply convergeStatefulSet_runs; [by eapply claimed_mono, claimed_mono|seen|by eapply template_due_mono, template_due_mono]|].
      intros e tr3 P3 _. apply runs_ret. eapply frame_sound; [exact Hf|]. by eapply tls_sound_mono, tls_sound_mono, tls_sound_mono.
  - apply createStatefulSet_runs; [by eapply claimed_mono|done|by eapply template_due_mono|by eapply tls_sound_mono].
  - apply runs_ret. by eapply tls_sound_mono.
Qed.

Lemma stored_mono s : Mono (λ tr, stored o tr s).
Proof. unfold stored. solve_mono. Qed.

Lemma hba_written_mono b : Mono (λ tr, hba_written o tr b).
Proof. unfold hba_written, has_data. solve_mono. Qed.

Lemma tls_validated_mono : Mono (tls_validated o).
Proof. unfold tls_validated, material. solve_mono. Qed.

Lemma reconcileWorkload_runs tr st (s : Secret) replication backup :
  claimed o tr → stored o tr s → tls_validated o tr → backup_ready o tr backup → tls_sound o tr st →
  runs tr (reconcileWorkload lops o refs st (sec_Name s) replication backup) (λ x tr', tls_sound o tr' x.2).
Proof.
  intros Hc Hst Hv Hb Htls. unfold reconcileWorkload. eapply runs_bind; [apply reconcileHBAConfigMap_runs|].
  intros [e|] tr1 P1 Hh; [apply runs_ret; by eapply tls_sound_mono|]. specialize (Hh eq_refl).
  destruct (resolvePostgresLayout _) as [layout|e] eqn:Hl.
  - eapply runs_bind; [by apply reconcileConfigMap_runs|].
    intros [e|] tr2 P2 Hcf; [apply runs_ret; by eapply tls_sound_mono, tls_sound_mono|]. specialize (Hcf eq_refl).
    apply reconcileStatefulSet_runs; [by eapply claimed_mono, claimed_mono|by eapply stored_mono, stored_mono|
      by eapply hba_written_mono|done|by eapply tls_validated_mono, tls_validated_mono|
      by eapply backup_ready_mono, backup_ready_mono|by eapply tls_sound_mono, tls_sound_mono].
  - unfold mbind, M_bind, mret, M_ret. unfold reconcileStatefulSet.
    assert (∀ b, desiredTemplate spec (sec_Name s) replication b = inr e) as Hd.
    { intros b. unfold desiredTemplate. by rewrite Hl. }
    intros w. simpl. rewrite Hd. split; [apply justified_refl|]. simpl. by eapply tls_sound_mono.
Qed.

(** ** The status *)

Lemma updateClusterStatus_runs tr st ready reconcileErr :
  claimed o tr → tls_sound o tr st → (ready = true → primary_ready o tr) →
  runs tr (updateClusterStatus lops o st ready reconcileErr) (λ _ _, True).
Proof.
  intros Hc Htls Hr. unfold updateClusterStatus. destruct (match reconcileErr with Some e => IsConflict e | None => false end); [by apply runs_ret|].
  destruct (availability o ready reconcileErr) as [[status reason] msg] eqn:Ha.
  assert (status = "True" ↔ ready = true) as Hav.
  { unfold availability in Ha. destruct ready; [by injection Ha as <- _ _|].
    destruct reconcileErr; [by injection Ha as <- _ _|].
    destruct (pausedForRestore repl); [destruct (restorePauseReason repl)|]; by injection Ha as <- _ _. }
  eapply still_bind; [apply setRestoreInterruptedCondition_still|apply setRestoreInterruptedCondition_frame|].
  intros st' tr1 P1 (Hf & Hrd & Hfind).
  eapply (runs_bind _ _ _ _ (λ _ _, True)); [|intros [e|] tr2 P2 _; by apply runs_ret].
  apply runs_logged; [|done]. intros e. exists o. split; [by eapply claimed_mono|]. split_and!.
  - eexists. split; [rewrite Hfind; apply (find_set _ {| cond_Type := ConditionTypeAvailable |})|]. by rewrite Hrd.
  - rewrite Hrd. simpl. intros Ht. eapply primary_ready_mono; [done|]. by apply Hr.
  - eapply frame_sound; [exact Hf|]. eapply frame_sound; [by apply frame_condition|].
    eapply tls_sound_mono; [exact P1|]. exact Htls.
Qed.

Lemma finish_runs tr st e : claimed o tr → tls_sound o tr st → runs tr (finish lops o st e) (λ _ _, True).
Proof.
  intros Hc Htls. unfold finish. eapply runs_bind; [by apply updateClusterStatus_runs|]. intros [after e'] tr1 P1 _. by apply runs_ret.
Qed.

Lemma listClusterPods_runs tr :
  runs tr (listClusterPods lops o)
    (λ x tr', match x with inl pods => ∃ items, KPods (inl items) ∈ tr' ∧ pods = ownPods o items | inr _ => True end).
Proof. unfold listClusterPods. apply runs_call; [done|]. intros [items|e] tr1 P1 E1; apply runs_ret; eauto. Qed.

Lemma isStatefulSetReady_runs tr st :
  tls_sound o tr st →
  runs tr (isStatefulSetReady lops o st) (λ x tr', tls_sound o tr' x.2 ∧ (x.1 = inl true → primary_ready o tr')).
Proof.
  intros Htls. unfold isStatefulSetReady. apply runs_call; [done|]. intros [[sts|]|e] tr1 P1 E1.
  - cbv zeta. eapply runs_bind; [apply listClusterPods_runs|]. intros [pods|e] tr2 P2 Hp; apply runs_ret.
    + split; [eapply tls_sound_mono, tls_sound_mono; [done..|]; exact Htls|]. simpl. intros [= Hx].
      apply existsb_exists in Hx as (p & Hin%list_elem_of_In & [Hn%bool_decide_eq_true Hrd]%andb_true_iff).
      destruct Hp as (items & Hi & ->). exists sts, items, p. split_and!; [seen|done..].
    + split; [|done]. eapply tls_sound_mono, tls_sound_mono; [done..|]. exact Htls.
  - apply runs_ret. split; [by eapply tls_sound_mono|done].
  - apply runs_ret. split; [by eapply tls_sound_mono|done].
Qed.

(** ** The certificates of the servers *)

(** A server at some address presented a certificate that does not verify. *)
Definition refused (m : tlsMaterial) (tr : list cl_event) : Prop :=
  ∃ addr der now, KProbe addr (clusterHost cluster) (inl der) ∈ tr ∧ KNow now ∈ tr ∧
    certVerifies der (mat_CAPEM m) (clusterHost cluster) now = false.

Lemma restartForTLS_runs tr m :
  claimed o tr → material o tr m → refused m tr → runs tr (restartForTLS lops o (mat_Hash m)) (λ _ _, True).
Proof.
  intros Hc Hm Hp. unfold restartForTLS. apply runs_call; [done|]. intros [[s|]|e] tr1 P1 E1; [|by apply runs_ret..].
  case_decide as Hs; [by apply runs_ret|].
  eapply (runs_bind _ _ _ _ (λ _ _, True)).
  - apply runs_logged; [|done]. intros e. right. split; [done|]. exists o. split; [by eapply claimed_mono|].
    destruct Hp as (addr & der & now & Hp & Hn & Hv). exists m, addr, der, now, s.
    split_and!; [by eapply material_mono|done|seen|seen|done|done|done].
  - intros [e|] tr2 P2 _; [by apply runs_ret|]. eapply runs_bind; [apply still_runs, event_still|]. intros [] tr3 P3 _. by apply runs_ret.
Qed.

Lemma standbyCertificate_runs tr m name addr :
  claimed o tr → material o tr m → runs tr (standbyCertificate lops o m name addr) (λ _ _, True).
Proof.
  intros Hc Hm. unfold standbyCertificate. cbv zeta. apply runs_call; [done|]. intros [der|e] tr1 P1 E1; [|by apply runs_ret].
  case_decide; [by apply runs_ret|]. apply runs_call; [done|]. intros now tr2 P2 E2.
  destruct (certVerifies _ _ _ _) eqn:Hv; cbn [negb].
  - eapply runs_bind; [apply still_runs, reloadServerConfig_still|]. intros e tr3 P3 _. by apply runs_ret.
  - eapply runs_bind; [apply restartForTLS_runs; [by eapply claimed_mono, claimed_mono|by eapply material_mono, material_mono|]|].
    + exists addr, der, now. split_and!; [seen|done|done].
    + intros e tr3 P3 _. by apply runs_ret.
Qed.

Lemma standbyMessages_runs tr m standbys names :
  claimed o tr → material o tr m → runs tr (standbyMessages lops o m standbys names) (λ _ _, True).
Proof.
  revert tr. induction names as [|name names IH]; intros tr Hc Hm; simpl; [by apply runs_ret|].
  eapply runs_bind; [by apply standbyCertificate_runs|]. intros msg tr1 P1 _.
  eapply runs_bind; [apply IH; [by eapply claimed_mono|by eapply material_mono]|]. intros msgs tr2 P2 _. by apply runs_ret.
Qed.

Lemma frame_tls tr st st' :
  cs_TLSSecretHash st' = cs_TLSSecretHash st → ¬ tls_true st' → tls_sound o tr st → tls_sound o tr st'.
Proof. intros Hh Ht [_ Hs]. split; [done|]. by rewrite Hh. Qed.

Lemma tls_false reason msg st : ¬ tls_true (setTLSCondition o "False" reason msg st).
Proof.
  unfold tls_true, IsStatusConditionTrue. simpl.
  match goal with |- context [SetStatusCondition ?l ?c] => pose proof (find_set l c) as Hf end. simpl in Hf. by rewrite Hf.
Qed.

(** A TLS state that is not confirmed. *)
Lemma unconfirmed_sound tr reason msg st : tls_sound o tr st → tls_sound o tr (setTLSCondition o "False" reason msg st).
Proof. intros Hs. eapply frame_tls; [|apply tls_false|exact Hs]. done. Qed.

Lemma reconcileTLSState_runs tr st m ready pods :
  claimed o tr → material o tr m → tls_sound o tr st →
  runs tr (reconcileTLSState lops o st m ready pods) (λ x tr', tls_sound o tr' x.2).
Proof.
  intros Hc Hm Htls. unfold reconcileTLSState. destruct (negb ready); [by apply runs_ret, unconfirmed_sound|]. cbv zeta.
  apply runs_call; [done|]. intros [der|e] tr1 P1 E1; [|apply runs_ret, unconfirmed_sound; by eapply tls_sound_mono].
  case_decide as Hd.
  - assert (presented o tr1 m) as Hp by (split; [by eapply material_mono|by rewrite <-Hd]).
    eapply (runs_bind _ _ _ _ (λ _ _, True)).
    + unfold reconcileStandbyCertificates. cbv zeta.
      eapply runs_bind; [apply standbyMessages_runs; [by eapply claimed_mono|by eapply material_mono]|]. intros msgs tr2 P2 _. by apply runs_ret.
    + intros pending tr2 P2 _. apply runs_ret. eapply tls_sound_mono; [exact P2|]. split; [intros _; right; by exists m|].
      right. right. by exists m.
  - apply runs_call; [done|]. intros now tr2 P2 E2. destruct (certVerifies _ _ _ _) eqn:Hv; cbn [negb].
    + eapply runs_bind; [apply still_runs, reloadServerConfig_still|]. intros e tr3 P3 _.
      apply runs_ret, unconfirmed_sound. by eapply tls_sound_mono, tls_sound_mono, tls_sound_mono.
    + eapply runs_bind; [apply restartForTLS_runs; [by eapply claimed_mono, claimed_mono|by eapply material_mono, material_mono|]|].
      * exists (JoinHostPort (clusterHost cluster) (Itoa (clusterPort cluster))), der, now. split_and!; [seen|done|done].
      * intros e tr3 P3 _. apply runs_ret, unconfirmed_sound. by eapply tls_sound_mono, tls_sound_mono, tls_sound_mono.
Qed.

Lemma converge_runs tr st secret ca : runs tr (convergeSecretConnectionInfo lops o st secret ca) (λ _ _, True).
Proof.
  apply quiet_runs. unfold convergeSecretConnectionInfo. cbv zeta. destruct (applyConnectionInfo _ _ _ _ _) as [data []]; walk.
Qed.

Lemma reportTLSNotReady_runs tr st secret nr :
  claimed o tr → tls_sound o tr st → runs tr (reportTLSNotReady lops o st secret nr) (λ _ _, True).
Proof.
  intros Hc Htls. unfold reportTLSNotReady. cbv zeta.
  set (st1 := cs_set_hash "" _).
  assert (∀ tr', tls_sound o tr' st1) as Htls1.
  { intros tr'. split; [|right; by left]. intros Ht. destruct (tls_false (nr_Reason nr) (error_text (nr_Message nr)) st Ht). }
  eapply (runs_bind _ _ _ _ (λ _ _, True)).
  { apply still_runs. match goal with |- only _ (if ?b then _ else _) => destruct b end; [apply event_still|apply only_ret]. }
  intros [] tr1 P1 _. eapply runs_bind; [by apply isStatefulSetReady_runs|]. intros [[ready|e] st2] tr2 P2 [Htls2 Hr].
  - eapply runs_bind; [apply converge_runs|]. intros [e|] tr3 P3 _.
    + apply finish_runs; [by eapply claimed_mono, claimed_mono, claimed_mono|by eapply tls_sound_mono].
    + eapply runs_bind; [apply updateClusterStatus_runs|intros [after e] tr4 P4 _; by apply runs_ret].
      * by eapply claimed_mono, claimed_mono, claimed_mono.
      * by eapply tls_sound_mono.
      * intros ->. eapply primary_ready_mono; [exact P3|]. by apply Hr.
  - apply finish_runs; [by eapply claimed_mono, claimed_mono|done].
Qed.

Lemma observePods_runs tr st replication pgbackrest :
  tls_sound o tr st →
  runs tr (observePods lops o st replication pgbackrest) (λ x tr', tls_sound o tr' x.2 ∧
    match x.1 with inl (_, ready) => ready = true → primary_ready o tr' | inr _ => True end).
Proof.
  intros Htls. unfold observePods. eapply runs_bind; [apply still_runs, cleanupUnusedResources_still|].
  intros [e|] tr1 P1 _; [apply runs_ret; split; [by eapply tls_sound_mono|done]|].
  eapply (runs_bind _ _ _ _ (λ _ _, True)).
  { unfold labelClusterPods. eapply runs_bind; [apply listClusterPods_runs|]. intros [pods|e] tr2 P2 _; [|by apply runs_ret].
    eapply runs_bind; [apply still_runs, labelPods_still|]. intros [pods' e] tr3 P3 _. by apply runs_ret. }
  intros [pods|e] tr2 P2 _; [|apply runs_ret; split; [by eapply tls_sound_mono, tls_sound_mono|done]].
  eapply runs_bind; [apply isStatefulSetReady_runs; by eapply tls_sound_mono, tls_sound_mono|].
  intros [[ready|e] st'] tr3 P3 [Htls3 Hr]; apply runs_ret; (split; [done|]); [|done]. simpl. intros ->. by apply Hr.
Qed.

Lemma concludeReconcile_runs tr st secret backup at1 mat at2 pods ready :
  claimed o tr → match mat with Some m => material o tr m | None => True end → tls_sound o tr st → (ready = true → primary_ready o tr) →
  runs tr (concludeReconcile lops o st secret backup at1 mat at2 pods ready) (λ _ _, True).
Proof.
  intros Hc Hm Htls Hr. unfold concludeReconcile.
  eapply (runs_bind _ _ _ _ (λ x tr', tls_sound o tr' x.2)).
  { destruct mat as [m|]; [by apply reconcileTLSState_runs|by apply runs_ret]. }
  intros [pending st1] tr1 P1 Htls1. simpl in Htls1. apply runs_call; [done|]. intros sts tr2 P2 _.
  eapply runs_bind; [apply quiet_runs, reconcileReplication_quiet|]. intros p tr3 P3 _.
  destruct (pass_recheck p) as [rr|]; [|by apply runs_ret]. cbv zeta.
  eapply still_bind; [apply reconcileServerState_still|apply reconcileServerState_frame|].
  intros [[pr ar] st2] tr4 P4 Hf. simpl in Hf.
  assert (tls_sound o tr4 st2) as Htls2.
  { eapply frame_sound; [exact Hf|]. eapply frame_sound; [apply recordReplication_frame|].
    by eapply tls_sound_mono, tls_sound_mono, tls_sound_mono. }
  assert (claimed o tr4) as Hc4 by (by eapply claimed_mono, claimed_mono, claimed_mono, claimed_mono).
  eapply runs_bind; [apply converge_runs|]. intros [e|] tr5 P5 _.
  { apply finish_runs; [by eapply claimed_mono|by eapply tls_sound_mono]. }
  eapply runs_bind; [apply updateClusterStatus_runs|].
  - by eapply claimed_mono.
  - by eapply tls_sound_mono.
  - intros Ht. by eapply primary_ready_mono, primary_ready_mono, primary_ready_mono, primary_ready_mono, primary_ready_mono, Hr.
  - intros [after [e|]] tr6 P6 _; [by apply runs_ret|].
    eapply (runs_bind _ _ _ _ (λ _ _, True)); [|intros; by apply runs_ret].
    destruct (IsZero _); [by apply runs_ret|]. by apply runs_logged.
Qed.

Lemma reconcileWith_runs tr st (s : Secret) :
  claimed o tr → stored o tr s → tls_sound o tr st → runs tr (reconcileWith lops o refs policy st s) (λ _ _, True).
Proof.
  intros Hc Hs Htls. unfold reconcileWith.
  eapply runs_bind; [apply still_runs, ensureMarkerKeySecret_still|]. intros [e|] tr1 P1 _.
  { apply finish_runs; [by eapply claimed_mono|by eapply tls_sound_mono]. }
  apply runs_call; [done|]. intros [existing|e] tr2 P2 _.
  2:{ apply finish_runs; [by eapply claimed_mono, claimed_mono|by eapply tls_sound_mono, tls_sound_mono]. }
  cbv zeta. eapply runs_bind; [apply runs_returns; [apply preparePgbackrest_runs|apply preparePgbackrest_frame]|].
  intros [b st1] tr3 P3 [Hb Hf]. simpl in Hb, Hf.
  assert (claimed o tr3) as Hc3 by (by eapply claimed_mono, claimed_mono, claimed_mono).
  assert (stored o tr3 s) as Hs3 by (by eapply stored_mono, stored_mono, stored_mono).
  assert (tls_sound o tr3 st1) as Htls3 by (eapply frame_sound; [exact Hf|]; by eapply tls_sound_mono, tls_sound_mono, tls_sound_mono).
  destruct b as [[backup at1]|e]; [|by apply finish_runs]. clear Hf Htls Hc Hs P1 P2 P3.
  eapply runs_bind; [apply still_runs, reconcileServices_still|]. intros [e|] tr4 P4 _.
  { apply finish_runs; [by eapply claimed_mono|by eapply tls_sound_mono]. }
  eapply runs_bind; [apply prepareTLS_runs; by eapply tls_sound_mono|]. intros [t st2] tr5 P5 [Htls5 Hmat]. simpl in Htls5, Hmat.
  assert (claimed o tr5) as Hc5 by (by eapply claimed_mono, claimed_mono).
  destruct t as [[mat at2]|[nr|e]]; [|by apply reportTLSNotReady_runs|by apply finish_runs].
  eapply runs_bind; [apply reconcileWorkload_runs; [done|by eapply stored_mono, stored_mono| |by eapply backup_ready_mono, backup_ready_mono|done]|].
  { destruct mat as [m|]; [right; by exists m|by left]. }
  intros [e st3] tr6 P6 Htls6. simpl in Htls6. assert (claimed o tr6) as Hc6 by (by eapply claimed_mono).
  destruct e as [[e|]|]; [by apply finish_runs| |by apply runs_ret].
  eapply runs_bind; [by apply observePods_runs|]. intros [p st4] tr7 P7 [Htls7 Hp]. simpl in Htls7, Hp.
  assert (claimed o tr7) as Hc7 by (by eapply claimed_mono).
  destruct p as [[pods ready]|e]; [|by apply finish_runs].
  apply concludeReconcile_runs; [done| |done|done].
  destruct mat as [m|]; [|done]. by eapply material_mono, material_mono.
Qed.
End steps.

Section pass.
Context {W : Type} (r : clusterOps W) (refs : Backup → BackupRefs) (policy : selfManagedCertPolicy).

Lemma reconcileCluster_runs : runs (W := W) (J refs) [] (reconcileCluster (cl_ops r) refs policy) (λ _ _, True).
Proof.
  unfold reconcileCluster. apply runs_call; [done|]. intros [[o|]|e] tr1 P1 E1; [|by apply runs_ret..]. cbv zeta.
  destruct (cb_Deleting o) eqn:Hdel.
  { destruct (bool_decide _); [|by apply runs_ret]. apply runs_call; [done|]. intros e tr2 P2 _. by apply runs_ret. }
  eapply (runs_bind _ _ _ _ (λ e tr', e = None → claimed o tr')).
  { destruct (bool_decide_reflect (clusterFinalizer ∈ cb_Finalizers o)).
    - apply runs_ret. intros _. split_and!; [done|done|by left].
    - apply runs_logged; [done|]. intros e tr2 P2 E2 ->. split_and!; [seen|done|by right]. }
  intros [e|] tr2 P2 Hc; [by apply runs_ret|]. specialize (Hc eq_refl).
  assert (∀ tr, tls_sound o tr (cb_Status o)) as Htls by (intros tr; split; by left).
  eapply runs_bind; [apply reconcileSecret_runs|]. intros [s|e] tr3 P3 Hs.
  - apply reconcileWith_runs; [by eapply claimed_mono|done|apply Htls].
  - apply finish_runs; [by eapply claimed_mono|apply Htls].
Qed.
End pass.

(** ** The credentials Secret *)

Definition connection_keys : list string := [SecretKeyHost; SecretKeyPort; SecretKeySSLMode; SecretKeyURI; SecretKeyCACert].

(** The credentials Secret as it was read, or as a write left it. *)
Definition held (o : ClusterObject) (pre : list cl_event) (s : Secret) : Prop :=
  let c := cf_cluster (pc_conf (cb_spec o)) in
  KGetSecret (k_Namespace c) (credentialsName c) (inl (Some s)) ∈ pre ∨ (∃ s', KCreateSecret s' (inl s) ∈ pre) ∨
  (∃ s' e, KUpdateSecret s' (s, e) ∈ pre).

(** [s] is [s0] with other connection information, and with a replication password if
    it had none. *)
Definition keeps_credentials (s0 s : Secret) : Prop :=
  sec_Name s = sec_Name s0 ∧ sec_Namespace s = sec_Namespace s0 ∧
  (∀ k, k ∉ connection_keys → k ≠ SecretKeyReplicationPassword → sec_Data s !! k = sec_Data s0 !! k) ∧
  (sec_Data s !! SecretKeyReplicationPassword = sec_Data s0 !! SecretKeyReplicationPassword ∨
   secret_value s0 SecretKeyReplicationPassword = "").

Definition JS (pre : list cl_event) (ev : cl_event) : Prop :=
  match ev with
  | KCreateSecret s _ => ∃ o, KCluster (inl (Some o)) ∈ pre ∧
      let c := cf_cluster (pc_conf (cb_spec o)) in
      KGetSecret (k_Namespace c) (credentialsName c) (inl None) ∈ pre ∧ sec_Name s = credentialsName c ∧
      sec_Namespace s = k_Namespace c ∧ sec_ControllerUID s = Some (k_UID c)
  | KUpdateSecret s _ => ∃ o s0, KCluster (inl (Some o)) ∈ pre ∧ held o pre s0 ∧ keeps_credentials s0 s
  | _ => True
  end.

Lemma held_mono o s : Mono (λ tr, held o tr s).
Proof. unfold held. solve_mono. Qed.

(** The same data, whatever the annotations. *)
Lemma keeps_same s0 s :
  sec_Name s = sec_Name s0 → sec_Namespace s = sec_Namespace s0 → sec_Data s = sec_Data s0 → keeps_credentials s0 s.
Proof. intros H1' H2' H3'. split_and!; [done|done|by rewrite H3'|left; by rewrite H3']. Qed.

Definition no_secret (ev : cl_event) : Prop := match ev with KCreateSecret _ _ | KUpdateSecret _ _ => False | _ => True end.

Lemma still_no_secret {W A} (m : M (W * list cl_event) A) : only still m → only no_secret m.
Proof. intros Hm. eapply emits_conseq; [exact Hm|]. intros x new Hn. eapply Forall_impl; [exact Hn|]. by intros [] [[]]. Qed.

#[local] Hint Extern 2 (only no_secret _) => (apply still_no_secret; solve [eauto with calls]) : calls.
#[local] Hint Resolve provisionTLSSecret_still reconcileParameters_still reconcileArchiveHealth_still labelPods_still
  event_still warn_still setPhysicalBackupCondition_still preparePgbackrest_still reconcileServices_still ensureMarkerKeySecret_still
  cleanupUnusedResources_still reloadServerConfig_still setRestoreInterruptedCondition_still detectExistingVolume_still
  keepPgopImage_still reconcileServerState_still : calls.

Section secrets.
Context {W : Type} (r : clusterOps W) (o : ClusterObject) (refs : Backup → BackupRefs) (policy : selfManagedCertPolicy).
Abbreviation spec := (cb_spec o).
Abbreviation conf := (pc_conf spec).
Abbreviation cluster := (cf_cluster conf).
Abbreviation repl := (cf_repl conf).
Abbreviation L := (W * list cl_event)%type.
Abbreviation lops := (cl_ops r).
Abbreviation lrepl := (cl_repl (cx_repl r)).
Abbreviation runs := (runs (W := W) JS).
Abbreviation quiet_of := (only (W := W) no_secret).

Lemma calls_runs {A} tr (m : M L A) : quiet_of m → runs tr m (λ _ _, True).
Proof. intros Hm. eapply runs_only; [exact Hm|]. by intros pre [] _. Qed.

(** *** Steps that do not write it *)

Lemma prepareTLS_calls st : quiet_of (prepareTLS lops o policy st).
Proof. unfold prepareTLS, loadTLSMaterial. walk. Qed.

Lemma reconcileWorkload_calls st n b backup : quiet_of (reconcileWorkload lops o refs st n b backup).
Proof.
  unfold reconcileWorkload, reconcileHBAConfigMap, writeHBAConfigMap, reconcileConfigMap, reconcileStatefulSet, createStatefulSet, convergeStatefulSet.
  cbv zeta. walk.
Qed.

Lemma isStatefulSetReady_calls st : quiet_of (isStatefulSetReady lops o st).
Proof. unfold isStatefulSetReady, listClusterPods. cbv zeta. walk. Qed.
#[local] Hint Resolve isStatefulSetReady_calls : calls.

Lemma observePods_calls st a b : quiet_of (observePods lops o st a b).
Proof. unfold observePods, labelClusterPods, listClusterPods. walk. apply still_no_secret, (labelPods_still r). Qed.

Lemma updateClusterStatus_calls st ready e : quiet_of (updateClusterStatus lops o st ready e).
Proof. unfold updateClusterStatus. walk. Qed.
#[local] Hint Resolve updateClusterStatus_calls : calls.

Lemma finish_calls st e : quiet_of (finish lops o st e).
Proof. unfold finish. walk. Qed.

Lemma standbyMessages_calls m standbys names : quiet_of (standbyMessages lops o m standbys names).
Proof. induction names as [|n names IH]; simpl; [walk|]. unfold standbyCertificate, restartForTLS. cbv zeta. walk. Qed.
#[local] Hint Resolve standbyMessages_calls : calls.

Lemma reconcileTLSState_calls st m ready pods : quiet_of (reconcileTLSState lops o st m ready pods).
Proof. unfold reconcileTLSState, reconcileStandbyCertificates, restartForTLS. cbv zeta. walk. Qed.
#[local] Hint Resolve prepareTLS_calls reconcileWorkload_calls observePods_calls finish_calls reconcileTLSState_calls : calls.

(** *** Steps that write it *)

Definition owned (tr : list cl_event) : Prop := KCluster (inl (Some o)) ∈ tr.

(** An update of the Secret as it is held. *)
Lemma update_runs tr s0 s :
  owned tr → held o tr s0 → keeps_credentials s0 s → runs tr (api_UpdateSecret lrepl s) (λ x tr', held o tr' x.1).
Proof.
  intros Ho Hh Hk. apply runs_logged; [by intros x; exists o, s0|]. intros [s' e] tr' P E. right. right. by exists s, e.
Qed.

(** One with other annotations. *)
Lemma annotate_runs tr s0 s :
  owned tr → held o tr s0 → sec_Name s = sec_Name s0 → sec_Namespace s = sec_Namespace s0 → sec_Data s = sec_Data s0 →
  runs tr (api_UpdateSecret lrepl s) (λ x tr', held o tr' x.1).
Proof. intros. eapply update_runs; [done..|]. by apply keeps_same. Qed.

(** Established before the current point. *)
Ltac later :=
  first
    [ assumption
    | lazymatch goal with
      | |- owned _ => unfold owned in *; seen
      | P : _ `prefix_of` ?tr |- held _ ?tr _ => eapply held_mono; [exact P|]; later
      end ].

Lemma restartPrimary_runs tr s primary :
  owned tr → held o tr s → runs tr (restartPrimaryForPasswordSync lrepl repl s primary) (λ x tr', held o tr' x.2).
Proof.
  intros Ho Hh. unfold restartPrimaryForPasswordSync. cbv zeta. apply runs_call; [done|]. intros now tr1 P1 _.
  match goal with |- runs _ (if ?b then _ else _) _ => destruct b end; [apply runs_ret; simpl; later|].
  match goal with |- runs _ (if ?b then _ else _) _ => destruct b end; [apply runs_ret; simpl; later|].
  eapply runs_bind; [apply (annotate_runs _ s); [later|later|done..]|]. intros [s' [e|]] tr2 P2 Hs; [by apply runs_ret|].
  apply runs_call; [done|]. intros [e|] tr3 P3 _; [apply runs_ret; simpl; later|].
  match goal with |- runs _ (if ?b then _ else _) _ => destruct b end; apply runs_ret; simpl; later.
Qed.

Lemma clearPasswordSyncRestart_runs tr s :
  owned tr → held o tr s → runs tr (clearPasswordSyncRestart lrepl s) (λ x tr', held o tr' x.1).
Proof.
  intros Ho Hh. unfold clearPasswordSyncRestart. destruct (_ !! _); [|by apply runs_ret].
  by apply (annotate_runs _ s).
Qed.

Lemma checkOperatorLogin_runs tr s pods :
  owned tr → held o tr s → runs tr (checkOperatorLogin lrepl repl s pods) (λ x tr', held o tr' x.2).
Proof.
  intros Ho Hh. unfold checkOperatorLogin. destruct (pausedForRestore repl); [by apply runs_ret|].
  destruct (findPrimary _ _) as [primary|]; [|by apply runs_ret]. destruct (negb _); [by apply runs_ret|].
  apply runs_call; [done|]. intros [e|] tr1 P1 _.
  - destruct (negb _); [apply runs_ret; simpl; later|]. destruct (podReadySince _) as [since|].
    + apply runs_call; [done|]. intros now tr2 P2 _. cbv zeta.
      match goal with |- runs _ (if ?b then _ else _) _ => destruct b end; [apply runs_ret; simpl; later|].
      apply restartPrimary_runs; later.
    + apply restartPrimary_runs; later.
  - eapply runs_bind; [apply clearPasswordSyncRestart_runs; later|]. intros [s' [e|]] tr2 P2 Hs; by apply runs_ret.
Qed.

Lemma ensureReplicationRole_runs tr s :
  owned tr → held o tr s → runs tr (ensureReplicationRole lrepl repl s) (λ x tr', held o tr' x.1).
Proof.
  intros Ho Hh. unfold ensureReplicationRole. cbv zeta. case_decide; [by apply runs_ret|].
  apply runs_call; [done|]. intros [ex|e] tr1 P1 _; [|apply runs_ret; simpl; later].
  match goal with |- runs _ (if ?b then _ else _) _ => destruct b end; [apply runs_ret; simpl; later|].
  apply runs_call; [done|]. intros [e|] tr2 P2 _; [apply runs_ret; simpl; later|].
  match goal with |- runs _ (if ?b then _ else _) _ => destruct b end.
  - apply runs_call; [done|]. intros now tr3 P3 _. apply (annotate_runs _ s); [later|later|done..].
  - apply (annotate_runs _ s); [later|later|done..].
Qed.

Lemma rollout_runs tr s pods :
  owned tr → held o tr s → runs tr (rolloutReplicationPassword lrepl repl s pods) (λ x tr', held o tr' x.1).
Proof.
  intros Ho Hh. unfold rolloutReplicationPassword. destruct (_ !! _); [|by apply runs_ret].
  apply runs_call; [done|]. intros now tr1 P1 _. destruct (rolloutStep _ _ _ _).
  - apply runs_ret. simpl. later.
  - eapply runs_bind; [apply (annotate_runs _ s); [later|later|done..]|]. intros [s' e] tr2 P2 Hs. by apply runs_ret.
  - apply runs_call; [done|]. intros e tr2 P2 _. apply runs_ret. simpl. later.
Qed.

Lemma managePrimary_runs tr s pods cond pvcs drops :
  owned tr → held o tr s → runs tr (managePrimary lrepl repl s pods cond pvcs drops) (λ p tr', held o tr' (pass_secret p)).
Proof.
  intros Ho Hh. unfold managePrimary, passFail, passDone. cbv zeta.
  eapply runs_bind; [apply calls_runs; unfold markInitialized; walk|]. intros [e|] tr1 P1 _; [apply runs_ret; simpl; later|].
  eapply runs_bind; [apply ensureReplicationRole_runs; later|]. intros [s1 [e|]] tr2 P2 Hs1; [by apply runs_ret|]. simpl in Hs1.
  eapply (runs_bind _ _ _ _ (λ _ _, True)).
  { apply calls_runs, still_no_secret, reconcileReplicationSlots_still. }
  intros [recreated [e|]] tr3 P3 _; [apply runs_ret; simpl; later|].
  destruct (bool_decide _); [apply runs_ret; simpl; later|].
  apply runs_call; [done|]. intros [standbys|e] tr4 P4 _; [|apply runs_ret; simpl; later].
  eapply (runs_bind _ _ _ _ (λ _ _, True)).
  { apply calls_runs, still_no_secret, labelStreaming_still. }
  intros [pods' [e|]] tr5 P5 _; [apply runs_ret; simpl; later|].
  eapply runs_bind; [apply rollout_runs; later|]. intros [s2 [rolling [e|]]] tr6 P6 Hs2; [by apply runs_ret|]. simpl in Hs2.
  destruct (reportStreaming _ _ _ _) as [[[st reason] msg] recheck]. by apply runs_ret.
Qed.

Lemma reconcileReplication_runs tr s sts pods cond :
  owned tr → held o tr s → runs tr (reconcileReplication lrepl repl s sts pods cond) (λ p tr', held o tr' (pass_secret p)).
Proof.
  intros Ho Hh. unfold reconcileReplication, passWait, passDone. cbv zeta. destruct (negb _).
  { eapply runs_bind; [by apply checkOperatorLogin_runs|]. intros [recheck s'] tr1 P1 Hs. by apply runs_ret. }
  eapply runs_bind; [apply calls_runs, still_no_secret, cleanupStandbyVolumes_still|]. intros [pvcs verr] tr1 P1 _.
  destruct (findPrimary _ _) as [primary|]; [|apply runs_ret; simpl; later].
  destruct (isPodReady primary); [|apply runs_ret; simpl; later].
  unfold reachPrimary, connectPrimary, passFail, passDone.
  eapply (runs_bind _ _ _ _ (λ x tr', held o tr' x.2)).
  { apply runs_call; [done|]. intros e tr2 P2 _. destruct (isInvalidPassword e); [|apply runs_ret; simpl; later].
    eapply runs_bind; [apply restartPrimary_runs; later|]. intros [d s'] tr3 P3 Hs. by apply runs_ret. }
  intros [[[e|]|] s1] tr2 P2 Hs1; simpl in Hs1; [by apply runs_ret| |by apply runs_ret].
  eapply runs_bind; [apply clearPasswordSyncRestart_runs; later|]. intros [s2 [e|]] tr3 P3 Hs2; [by apply runs_ret|]. simpl in Hs2.
  apply runs_call; [done|]. intros [[]|e] tr4 P4 _; [apply runs_ret; simpl; later| |apply runs_ret; simpl; later].
  apply managePrimary_runs; later.
Qed.

Lemma reconcileSecret_held tr st :
  owned tr → runs tr (reconcileSecret lops o st) (λ x tr', match x with inl s => held o tr' s | inr _ => True end).
Proof.
  intros Ho. unfold reconcileSecret. apply runs_call; [done|]. intros [[s|]|e] tr1 P1 E1; [| |by apply runs_ret].
  - destruct (bool_decide_reflect (secret_value s SecretKeyReplicationPassword = "")) as [Hrp|_]; cbn [negb]; [|apply runs_ret; left; seen].
    eapply runs_bind; [apply calls_runs; unfold generatePassword; walk|]. intros [p|e] tr2 P2 _; [|by apply runs_ret].
    eapply runs_bind; [apply (update_runs _ s); [later|left; seen|]|].
    + split_and!; [done|done| |by right]. intros k _ Hk. simpl. by rewrite lookup_insert_ne.
    + intros [s' [e|]] tr3 P3 Hs; by apply runs_ret.
  - eapply runs_bind; [apply calls_runs; unfold generatePassword; walk|]. intros [p|e] tr2 P2 _; [|by apply runs_ret].
    eapply runs_bind; [apply calls_runs; unfold generatePassword; walk|]. intros [p'|e] tr3 P3 _; [|by apply runs_ret].
    apply runs_logged.
    + intros x. exists o. split; [unfold owned in *; seen|]. cbv zeta. split_and!; [seen|done..].
    + intros [s|e] tr' P' E'; [|done]. right. left. by eexists.
Qed.

Lemma converge_held tr st s ca :
  owned tr → held o tr s → runs tr (convergeSecretConnectionInfo lops o st s ca) (λ _ _, True).
Proof.
  intros Ho Hh. unfold convergeSecretConnectionInfo. cbv zeta.
  destruct (applyConnectionInfo _ _ _ _ _) as [data []] eqn:Ha; [|by apply runs_ret].
  eapply runs_bind; [apply (update_runs _ s); [done|done|]|intros [s' e] tr1 P1 _; by apply runs_ret].
  assert (∀ k, k ∉ connection_keys → data !! k = sec_Data s !! k) as Hd.
  { intros k Hk. match type of Ha with applyConnectionInfo ?d ?h ?p ?db ?t = _ =>
      pose proof (applyConnectionInfo_connected d h p db t) as [Hc _]; rewrite Ha in Hc; simpl in Hc; rewrite Hc; by apply connected_other end. }
  split_and!; [done|done|intros k Hk _; by apply Hd|left; apply Hd; vm_compute; set_solver].
Qed.

Lemma reportTLSNotReady_held tr st s nr :
  owned tr → held o tr s → runs tr (reportTLSNotReady lops o st s nr) (λ _ _, True).
Proof.
  intros Ho Hh. unfold reportTLSNotReady. cbv zeta.
  eapply runs_bind; [apply calls_runs; walk|]. intros [] tr1 P1 _.
  eapply runs_bind; [apply calls_runs; walk|]. intros [[ready|e] st2] tr2 P2 _; [|apply calls_runs; walk].
  eapply runs_bind; [apply converge_held; later|]. intros [e|] tr3 P3 _; apply calls_runs; walk.
Qed.

Lemma concludeReconcile_held tr st s backup at1 mat at2 pods ready :
  owned tr → held o tr s → runs tr (concludeReconcile lops o st s backup at1 mat at2 pods ready) (λ _ _, True).
Proof.
  intros Ho Hh. unfold concludeReconcile. eapply runs_bind; [apply calls_runs; walk|]. intros [pending st1] tr1 P1 _.
  apply runs_call; [done|]. intros sts tr2 P2 _.
  eapply runs_bind; [apply reconcileReplication_runs; later|]. intros p tr3 P3 Hp.
  destruct (pass_recheck p) as [rr|]; [|by apply runs_ret]. cbv zeta.
  eapply runs_bind; [apply calls_runs; walk|]. intros [[pr ar] st2] tr4 P4 _.
  eapply runs_bind; [apply converge_held; later|]. intros [e|] tr5 P5 _; apply calls_runs; walk.
Qed.

Lemma reconcileWith_held tr st s :
  owned tr → held o tr s → runs tr (reconcileWith lops o refs policy st s) (λ _ _, True).
Proof.
  intros Ho Hh. unfold reconcileWith.
  eapply runs_bind; [apply calls_runs, still_no_secret, ensureMarkerKeySecret_still|]. intros [e|] tr1 P1 _; [apply calls_runs; walk|].
  apply runs_call; [done|]. intros [existing|e] tr2 P2 _; [|apply calls_runs; walk]. cbv zeta.
  eapply runs_bind; [apply calls_runs; walk|]. intros [[[backup at1]|e] st1] tr3 P3 _; [|apply calls_runs; walk].
  eapply runs_bind; [apply calls_runs; walk|]. intros [e|] tr4 P4 _; [apply calls_runs; walk|].
  eapply runs_bind; [apply calls_runs; walk|]. intros [[[mat at2]|[nr|e]] st2] tr5 P5 _;
    [|apply reportTLSNotReady_held; later|apply calls_runs; walk].
  eapply runs_bind; [apply calls_runs; walk|]. intros [[[e|]|] st3] tr6 P6 _; [apply calls_runs; walk| |by apply runs_ret].
  eapply runs_bind; [apply calls_runs; walk|]. intros [[[pods ready]|e] st4] tr7 P7 _; [|apply calls_runs; walk].
  apply concludeReconcile_held; later.
Qed.
End secrets.

Lemma reconcileCluster_held {W} (r : clusterOps W) refs policy : runs JS [] (reconcileCluster (cl_ops r) refs policy) (λ _ _, True).
Proof.
  unfold reconcileCluster. apply runs_call; [done|]. intros [[o|]|e] tr1 P1 E1; [|by apply runs_ret..]. cbv zeta.
  assert (owned o tr1) as Ho by done.
  destruct (cb_Deleting o).
  { destruct (bool_decide _); [|by apply runs_ret]. apply runs_call; [done|]. intros e tr2 P2 _. by apply runs_ret. }
  eapply (runs_bind _ _ _ _ (λ _ _, True)).
  { destruct (bool_decide _); [by apply runs_ret|]. by apply runs_logged. }
  intros [e|] tr2 P2 _; [by apply runs_ret|].
  eapply runs_bind; [apply reconcileSecret_held; unfold owned in *; seen|]. intros [s|e] tr3 P3 Hs.
  - apply reconcileWith_held; [unfold owned in *; seen|done].
  - apply calls_runs, finish_calls.
Qed.

(** ** The theorems *)

Section properties.
Context {W : Type} (r : clusterOps W) (refs : Backup → BackupRefs) (policy : selfManagedCertPolicy).

(** C4: a pass creates the StatefulSet only when it was read as missing, and updates
    only one it read, each time for a Cluster that is not being deleted and has the
    finalizer, and only after everything the pods mount is in place: the credentials
    Secret, the pg_hba.conf and postgresql.conf of the spec, with spec.tls a TLS Secret
    that is usable for verify-full, and with the Backup that archives WAL (the valid one
    of the Cluster as listed in the pass) the Secret with pgBackRest's certificates. The
    pod template is the desired one (on an
    update with the containers converged, at most with the image kept), no instance
    runs while a restore has stopped the Cluster, and a scale-down never deletes a
    volume. *)
Theorem statefulset_writes_safe w out w' tr pre ev post :
  reconcileCluster (cl_ops r) refs policy (w, []) = (out, (w', tr)) → tr = pre ++ ev :: post →
  match ev with
  | KCreateSts n _ => ∃ o, statefulset_created o refs pre n
  | KUpdateSts s _ => ∃ o, statefulset_updated o refs pre s
  | _ => True
  end.
Proof.
  intros Hm Htr. pose proof (runs_justified (J refs) _ _ _ _ _ _ _ _ _ (reconcileCluster_runs r refs policy) Hm Htr) as Hj.
  by destruct ev.
Qed.

(** A pass restarts the pods for a certificate only after the TLS Secret was found
    usable and some server presented a certificate that does not verify under its CA at
    the time of the check, and only when the pod template does not carry the hash of
    this Secret yet; every other restart annotation it writes is that of the
    parameters. *)
Theorem tls_restart_justified w out w' tr pre k v e post :
  reconcileCluster (cl_ops r) refs policy (w, []) = (out, (w', tr)) → tr = pre ++ KRestart k v e :: post →
  k = AnnotationParametersRestart ∨ (k = AnnotationTLSRestart ∧ ∃ o, tls_restart_due o pre v).
Proof. intros Hm Htr. exact (runs_justified (J refs) _ _ _ _ _ _ _ _ _ (reconcileCluster_runs r refs policy) Hm Htr). Qed.

(** C5: the status that a pass writes is true. The Cluster is Ready, and Available, only
    when the pass saw the StatefulSet and a ready primary pod that it controls; TLSReady
    becomes True, and a new hash of the TLS Secret is recorded, only when the server
    behind the Service presented exactly the certificate of a usable TLS Secret in this
    pass. *)
Theorem cluster_status_truthful w out w' tr pre st e post :
  reconcileCluster (cl_ops r) refs policy (w, []) = (out, (w', tr)) → tr = pre ++ KStatus st e :: post →
  ∃ o, claimed o pre ∧
    (∃ cond, FindStatusCondition (cs_Conditions st) ConditionTypeAvailable = Some cond ∧
       (cond_Status cond = "True" ↔ cs_Ready st = true)) ∧
    (cs_Ready st = true → primary_ready o pre) ∧
    (tls_true st → tls_true (cb_Status o) ∨ ∃ m, presented o pre m) ∧
    (cs_TLSSecretHash st = cs_TLSSecretHash (cb_Status o) ∨ cs_TLSSecretHash st = "" ∨
     ∃ m, presented o pre m ∧ cs_TLSSecretHash st = mat_Hash m).
Proof.
  intros Hm Htr. destruct (runs_justified (J refs) _ _ _ _ _ _ _ _ _ (reconcileCluster_runs r refs policy) Hm Htr)
    as (o & Hc & Ha & Hr & Ht & Hh). by exists o.
Qed.

(** C6: credentials are generated once. A pass creates the credentials Secret only when
    it read that there is none, and an update writes the Secret as the pass holds it,
    with other connection information, other annotations, or a replication password if
    it had none: no user name, password or database in it is ever replaced. *)
Theorem credentials_kept w out w' tr pre ev post :
  reconcileCluster (cl_ops r) refs policy (w, []) = (out, (w', tr)) → tr = pre ++ ev :: post →
  match ev with
  | KCreateSecret s _ => ∃ o, KCluster (inl (Some o)) ∈ pre ∧
      let c := cf_cluster (pc_conf (cb_spec o)) in
      KGetSecret (k_Namespace c) (credentialsName c) (inl None) ∈ pre ∧ sec_Name s = credentialsName c ∧
      sec_Namespace s = k_Namespace c ∧ sec_ControllerUID s = Some (k_UID c)
  | KUpdateSecret s _ => ∃ o s0, KCluster (inl (Some o)) ∈ pre ∧ held o pre s0 ∧
      sec_Name s = sec_Name s0 ∧ sec_Namespace s = sec_Namespace s0 ∧
      (∀ k, k ∉ connection_keys → k ≠ SecretKeyReplicationPassword → sec_Data s !! k = sec_Data s0 !! k) ∧
      (sec_Data s !! SecretKeyReplicationPassword = sec_Data s0 !! SecretKeyReplicationPassword ∨
       secret_value s0 SecretKeyReplicationPassword = "")
  | _ => True
  end.
Proof. intros Hm Htr. exact (runs_justified JS _ _ _ _ _ _ _ _ _ (reconcileCluster_held r refs policy) Hm Htr). Qed.
End properties.
End theorems.

(** ** Concrete passes *)

Module Toy.
#[local] Existing Instance TlsTheorems.Toy.toy_x509.
#[local] Existing Instance PgConfigTheorems.Toy.toy_digest.
#[local] Existing Instance PgConfigTheorems.Toy.toy_text.
#[local] Existing Instance PgConfigTheorems.Toy.toy_set.
#[local] Existing Instance PgConfigTheorems.Toy.toy_lookup.
#[local] Existing Instance PgConfigTheorems.Toy.toy_laws.
#[local] Existing Instance PodTemplateTheorems.Toy.toy_quantities.
#[local] Existing Instance PodTemplateTheorems.Toy.toy_urls.
#[local] Instance toy_sha : Sha256 := {| sha256 := λ _, "x" |}.
#[local] Instance toy_time : RFC3339 := {| time_Parse := λ _, None; time_Format := λ _, "" |}.
#[local] Instance toy_api : ApiErrors := {| IsConflict := λ _, false |}.

#[local] Instance toy_frame : ConditionFrame.
Proof.
  split.
  - intros l cond t Ht. simpl. by rewrite bool_decide_false.
  - intros l t t' Ht. simpl. induction l as [|cond l IH]; simpl; [done|]. rewrite filter_cons.
    destruct (decide (cond_Type cond ≠ t)) as [Hc|Hc]; simpl.
    + by rewrite IH.
    + assert (cond_Type cond = t) as Heq by (destruct (decide (cond_Type cond = t)); [done|by destruct Hc]).
      by rewrite IH, bool_decide_false by congruence.
Qed.

Definition spec (annotations : gmap string string) : PodCluster :=
  {| pc_conf :=
       {| cf_cluster := {| k_Name := "pg"; k_Namespace := "db"; k_UID := "u"; k_Port := 0;
                           k_TLS := Some {| tls_SecretName := "tls"; tls_IssuerRef := None |}; k_RolePolicy := None;
                           k_Ready := false; k_SecretName := ""; k_TLSReady := false; k_TLSSecretHash := "" |};
          cf_repl := {| cl_Name := "pg"; cl_Namespace := "db"; cl_UID := "u"; cl_Annotations := annotations; cl_Replicas := 1 |};
          cf_image := {| ci_Name := "pg"; ci_Image := "postgres:17"; ci_PostgresMajorVersion := None |};
          cf_Generation := 1; cf_Parameters := ∅;
          cf_TLS := Some {| stls_MinProtocolVersion := ""; stls_RequireTLS := None |} |};
     pc_StorageSize := ""; pc_StorageClass := None; pc_RetainDelete := false;
     pc_Resources := {| res_Limits := ∅; res_Requests := ∅ |} |}.

Definition status : ClusterStatus :=
  {| cs_Conditions := []; cs_Ready := false; cs_SecretName := ""; cs_Endpoint := ""; cs_ReadOnlyEndpoint := ""; cs_ReadyInstances := 0;
     cs_CurrentPrimary := ""; cs_TLSSecretHash := ""; cs_ParametersHash := ""; cs_PendingRestart := []; cs_LastWALDrop := None |}.

Definition object (annotations : gmap string string) : ClusterObject :=
  {| cb_spec := spec annotations; cb_IssuerRef := None; cb_Finalizers := []; cb_Deleting := false; cb_Status := status |}.

Definition old : PgStatefulSet :=
  {| st_Replicas := Some 1; st_Retention := None; st_Labels := ∅; st_Annotations := ∅; st_SecurityContext := None;
     st_InitContainers := []; st_Containers := []; st_Volumes := []; st_Generation := 1; st_ObservedGeneration := 1;
     st_CurrentRevision := "1"; st_UpdateRevision := "1"; st_ReadyReplicas := 1 |}.

(** A Secret from before replication. *)
Definition secret : Secret :=
  {| sec_Name := "pg-credentials"; sec_Namespace := "db"; sec_ResourceVersion := "1"; sec_Labels := ∅; sec_Annotations := ∅;
     sec_OwnerReferences := []; sec_ControllerUID := None; sec_Data := {[ SecretKeyPassword := "pw" ]} |}.

Definition primary : Pod :=
  {| pod_Name := "pg-0"; pod_UID := "p"; pod_Deleting := false; pod_Created := 0;
     pod_Conditions := [{| pc_Type := PodReady; pc_Status := ConditionTrue; pc_LastTransitionTime := None |}]; pod_Labels := ∅;
     pod_IP := "10.0.0.1" |}.

Definition server_data : gmap string string := pl_Server (TlsTheorems.Toy.result_of TlsTheorems.Toy.r0).
Definition tls_secret : TLSSecret :=
  {| ts_Name := "tls"; ts_ResourceVersion := "1"; ts_Labels := ∅; ts_Annotations := ∅; ts_ControllerUID := None; ts_OwnerUIDs := [];
     ts_Data := server_data |}.
Definition leaf : string :=
  match parseTLSMaterial server_data TlsTheorems.Toy.host 1 with inl m => crt_Raw (mat_Leaf m) | inr _ => "" end.

Definition failing : gerr := Errorf "not asked for" [].

Definition params : parameterOps unit :=
  {| po_GetSecret := λ _ n, mret (if decide (n = "pg-credentials") then inl (Some secret) else inl None);
     po_GetStatefulSet := mret (inl (Some (parameter_view old))); po_PatchStatefulSet := λ _ _, mret None;
     po_GetConfigMap := λ _, mret (inl None); po_CreateConfigMap := λ _ _ _, mret None; po_UpdateConfigMap := λ _ _, mret None;
     po_DeleteConfigMap := λ _, mret None; po_Connect := λ _ _, mret (inr failing); po_Warn := λ _ _, mret () |}.

Definition tls : tlsOps unit :=
  {| to_now := mret 1; to_GetSecret := λ _, mret (inl (Some tls_secret)); to_CreateSecret := λ _, mret None;
     to_UpdateSecret := λ _, mret None; to_PatchOwner := λ _, mret None; to_DeleteSecret := λ _, mret None;
     to_GetCertificate := λ _, mret NoMatch; to_CreateCertificate := λ _ _, mret None; to_UpdateCertificate := λ _ _, mret None;
     to_DeleteCertificate := λ _, mret None; to_Seen := mret false; to_SetSeen := mret ();
     to_certs := {| ce_GenerateKey := mret (inr failing); ce_RandomSerial := mret (inr failing);
                    ce_CreateCertificate := λ _ _ _ _, mret (inr failing) |} |}.

Definition archive : archiveOps unit :=
  {| ao_GetSecret := λ _ _, mret (inl None); ao_Connect := λ _, mret (inr failing); ao_ListRuns := λ _ _, mret (inl []);
     ao_Warn := λ _ _, mret () |}.

(** The operations when the server presents [served]. *)
Definition ops (annotations : gmap string string) (served : string) : clusterOps unit :=
  {| cx_GetCluster := mret (inl (Some (object annotations))); cx_PatchFinalizers := λ _, mret None; cx_UpdateStatus := λ _, mret None;
     cx_random := λ _, mret (inl "r"); cx_CreateSecret := λ s, mret (inl s); cx_CreateMarkerSecret := λ _, mret (inl true);
     cx_GetStatefulSet := mret (inl (Some old)); cx_CreateStatefulSet := λ _, mret None; cx_UpdateStatefulSet := λ _, mret None;
     cx_ListBackups := mret (inl []); cx_GetService := λ _, mret (inl None); cx_CreateService := λ _, mret None;
     cx_UpdateService := λ _, mret None; cx_DeleteService := λ _, mret None; cx_PVCExists := λ _, mret (inl true);
     cx_ListPods := mret (inl [(primary, Some ("StatefulSet", "pg"))]);
     cx_Probe := λ _ _, mret (inl served); cx_Reload := λ _ _, mret None; cx_Event := λ _ _ _ _, mret ();
     cx_tls := tls; cx_repl := ReplicationSafety.Toy.api; cx_params := params; cx_archive := archive |}.

Definition refs (b : Backup) : BackupRefs := {| br_Credentials := None; br_CA := None; br_EncryptionKey := None |}.
Definition pass (annotations : gmap string string) (served : string) :=
  reconcileCluster (cl_ops (ops annotations served)) refs TlsTheorems.Toy.policy (tt, []).

Definition paused : gmap string string := {[ AnnotationRestoreInProgress := "r" ]}.

(** A Cluster that a restore stopped: its StatefulSet is scaled to 0. *)
Lemma statefulset_writes_safe_witness :
  ∃ pre s e post, (pass paused leaf).2.2 = pre ++ KUpdateSts s e :: post ∧ st_Replicas s = Some 0 ∧ ∃ o, statefulset_updated o refs pre s.
Proof.
  assert (called (λ ev, match ev with KUpdateSts s _ => bool_decide (st_Replicas s = Some 0) | _ => false end) (pass paused leaf).2.2 = true)
    as Hc by (vm_compute; reflexivity).
  apply called_inv in Hc as (pre & ev & post & Htr & Ht). destruct ev; try discriminate Ht. apply bool_decide_eq_true in Ht.
  exists pre, s, e, post. split; [exact Htr|]. split; [exact Ht|].
  exact (statefulset_writes_safe (ops paused leaf) refs TlsTheorems.Toy.policy tt _ _ _ pre _ post (run_split _) Htr).
Defined.

(** A server whose certificate does not verify: the pods are restarted. *)
Lemma tls_restart_justified_witness :
  ∃ pre v e post, (pass ∅ "foreign").2.2 = pre ++ KRestart AnnotationTLSRestart v e :: post ∧ ∃ o, tls_restart_due o pre v.
Proof.
  assert (called (λ ev, match ev with KRestart k _ _ => bool_decide (k = AnnotationTLSRestart) | _ => false end) (pass ∅ "foreign").2.2 = true)
    as Hc by (vm_compute; reflexivity).
  apply called_inv in Hc as (pre & ev & post & Htr & Ht). destruct ev; try discriminate Ht. apply bool_decide_eq_true in Ht. subst k.
  exists pre, v, e, post. split; [exact Htr|].
  destruct (tls_restart_justified (ops ∅ "foreign") refs TlsTheorems.Toy.policy tt _ _ _ pre _ _ _ post (run_split _) Htr) as [Hk|[_ Hd]];
    [discriminate Hk|exact Hd].
Defined.

(** A server that presents the certificate of the Secret: Ready and TLSReady. *)
Lemma cluster_status_truthful_witness :
  ∃ pre st e post, (pass ∅ leaf).2.2 = pre ++ KStatus st e :: post ∧ cs_Ready st = true ∧ tls_true st ∧
    ∃ o, primary_ready o pre ∧ (tls_true (cb_Status o) ∨ ∃ m, presented o pre m).
Proof.
  assert (called (λ ev, match ev with KStatus st _ => cs_Ready st && IsStatusConditionTrue (cs_Conditions st) ConditionTypeTLSReady
    | _ => false end) (pass ∅ leaf).2.2 = true) as Hc by (vm_compute; reflexivity).
  apply called_inv in Hc as (pre & ev & post & Htr & Ht). destruct ev; try discriminate Ht. apply andb_true_iff in Ht as [Hr Ht].
  exists pre, st, e, post. split; [exact Htr|]. split; [exact Hr|]. split; [exact Ht|].
  destruct (cluster_status_truthful (ops ∅ leaf) refs TlsTheorems.Toy.policy tt _ _ _ pre _ _ post (run_split _) Htr)
    as (o & _ & _ & Hp & Htls & _).
  exists o. split; [exact (Hp Hr)|exact (Htls Ht)].
Defined.

(** A Secret without a replication password is given one, and keeps its password. *)
Lemma credentials_kept_witness :
  ∃ pre s x post, (pass paused leaf).2.2 = pre ++ KUpdateSecret s x :: post ∧ secret_value s SecretKeyReplicationPassword = hex_encode "r" ∧
    ∃ o s0, held o pre s0 ∧ sec_Data s !! SecretKeyPassword = sec_Data s0 !! SecretKeyPassword.
Proof.
  assert (called (λ ev, match ev with KUpdateSecret s _ => bool_decide (secret_value s SecretKeyReplicationPassword = hex_encode "r")
    | _ => false end) (pass paused leaf).2.2 = true) as Hc by (vm_compute; reflexivity).
  apply called_inv in Hc as (pre & ev & post & Htr & Ht). destruct ev; try discriminate Ht. apply bool_decide_eq_true in Ht.
  exists pre, s, r, post. split; [exact Htr|]. split; [exact Ht|].
  destruct (credentials_kept (ops paused leaf) refs TlsTheorems.Toy.policy tt _ _ _ pre _ post (run_split _) Htr)
    as (o & s0 & _ & Hh & _ & _ & Hk & _).
  exists o, s0. split; [exact Hh|]. apply Hk; [apply (bool_decide_unpack (SecretKeyPassword ∉ connection_keys)); vm_compute; exact I|discriminate].
Defined.
End Toy.
