(* ===== verification/BackupJobs.v ===== *)
(** * Backups and their Jobs (backup_controller.go, backup_physical.go, job_tls.go,
    pgbackrest.go, restore_controller.go and restore_physical.go under
    src/internal/controller)

    The pods of the backup and restore Jobs, the CronJobs of a Backup and how an existing
    CronJob is converged, and one pass of the Backup reconciler. The BackupRuns of the
    Jobs are those of BackupRun.v. *)

From Stdlib Require Import Ascii.
From S2P Require Import Prelude GoStrings GoStrconv GoUrl RoleSql ApiTypes RolePolicy Objects Password Connection Pgbackrest Trace PgConfigTheorems.
From S2P Require Import Replication ReplicationReconcile RoleReconcile PgConfig Restore BackupRun ArchiveHealth PgHba PodTemplate PodTemplateTheorems Tls ClusterReconcile.

Open Scope Z_scope.

Definition backupFinalizer : string := "pgop.ruck.io/backup-finalizer".
Definition awsCLIImage : string := "amazon/aws-cli:2.27.46".
Definition capDropALL : string := "ALL".
Definition backupVolumeName : string := "backup".
Definition backupVolumeMount : string := "/backup".
Definition labelBackupType : string := "pgop.ruck.io/backup-type".
Definition annotationSpecHash : string := "pgop.ruck.io/spec-hash".
Definition appNameRestore : string := "pgop-restore".
Definition restoreVolumeName : string := "restore".
Definition restoreVolumeMount : string := "/restore".
Definition labelRestoreType : string := "pgop.ruck.io/restore-type".
Definition envPGHost : string := "PGHOST".
Definition envPGPort : string := "PGPORT".
Definition envPGDatabase : string := "PGDATABASE".
Definition jobTLSVolumeName : string := "pg-ca".
Definition jobTLSMountPath : string := "/etc/pgop/pg-ca".
Definition jobTLSCAPath : string := jobTLSMountPath +:+ "/" +:+ SecretKeyCACert.
Definition envPGSSLMode : string := "PGSSLMODE".
Definition envPGSSLRootCert : string := "PGSSLROOTCERT".
Definition volPgbackrestTmp : string := "pgbackrest-tmp".
Definition pgbackrestTmpMountPath : string := "/tmp".

(** ** Jobs *)

(** A volume of a Job's pod; restore Jobs also mount the data volume. *)
Inductive JobVolume := JobVol (v : Volume) | JobClaim (name claim : string).
#[export] Instance JobVolume_eq_dec : EqDecision JobVolume. Proof. solve_decision. Defined.

Inductive RestartPolicy := RestartPolicyOnFailure | RestartPolicyNever.

(** A Job: the labels of its pods (none: ∅), the retries and the pod. Parallelism and
    completions are always 1. *)
Record JobSpec := {
  js_Labels : gmap string string;
  js_TTLSecondsAfterFinished : Z;
  js_BackoffLimit : Z;
  js_RestartPolicy : RestartPolicy;
  js_SecurityContext : PodSecurityContext;
  js_RunAsNonRoot : bool;
  js_Volumes : list JobVolume;
  js_InitContainers : list Container;
  js_Containers : list Container }.

Definition jobTLSEnv (credentialsSecret : string) : list EnvVar :=
  [{| env_Name := envPGSSLMode; env_Source := EnvSecretKey credentialsSecret SecretKeySSLMode true |};
   envVar envPGSSLRootCert jobTLSCAPath].

Definition jobTLSVolume (credentialsSecret : string) : Volume :=
  {| vol_Name := jobTLSVolumeName; vol_Source := VolSecret credentialsSecret [(SecretKeyCACert, SecretKeyCACert)] (Some 292) true |}.

Definition jobTLSVolumeMount : VolumeMount := {| vm_Name := jobTLSVolumeName; vm_MountPath := jobTLSMountPath; vm_ReadOnly := true |}.

Definition restorePodSecurityContext (uid : Z) : PodSecurityContext :=
  {| psc_RunAsUser := uid; psc_RunAsGroup := uid; psc_FSGroup := uid; psc_Seccomp := "RuntimeDefault" |}.

Definition restoreContainerSecurityContext (readOnlyRoot : bool) : SecurityContext :=
  {| sc_RunAsUser := None; sc_RunAsNonRoot := None; sc_AllowPrivilegeEscalation := Some false;
     sc_ReadOnlyRootFilesystem := if readOnlyRoot then Some true else None; sc_CapDrop := [capDropALL]; sc_CapAdd := [] |}.

(** A container of a Job. *)
Definition jobContainer (name image : string) (readOnlyRoot : bool) (command : list string) (env : list EnvVar) (mounts : list VolumeMount)
    : Container :=
  {| c_Name := name; c_Image := image; c_Command := command; c_Args := []; c_Ports := []; c_Env := env; c_VolumeMounts := mounts;
     c_Resources := {| res_Limits := ∅; res_Requests := ∅ |}; c_SecurityContext := Some (restoreContainerSecurityContext readOnlyRoot);
     c_ReadinessProbe := None; c_LivenessProbe := None; c_PostStart := []; c_Defaulted := "" |}.

Definition rw_mount (name path : string) : VolumeMount := {| vm_Name := name; vm_MountPath := path; vm_ReadOnly := false |}.

(** *** S3 for the AWS CLI: a Backup's destination with its credentials Secret *)

Definition s3_of (backup : Backup) : option S3Destination :=
  match bk_DestinationType backup with DestinationTypeS3 => bk_S3 backup | _ => None end.

Definition buildS3Path (backup : Backup) (suffix : string) : string :=
  match s3_of backup with
  | None => ""
  | Some s3 => "s3://" +:+ s3_Bucket s3 +:+ "/" +:+ (if decide (s3_Prefix s3 = "") then "" else s3_Prefix s3 +:+ "/") +:+ suffix
  end.

(** [buildEndpointFlag] and [endpointFlagForDestination]. *)
Definition endpointFlag (backup : Backup) : string :=
  match s3_of backup with
  | Some s3 => if decide (s3_Endpoint s3 = "") then "" else "--endpoint-url " +:+ s3_Endpoint s3
  | None => ""
  end.

(** [buildS3EnvVars] and [s3EnvVarsForDestination]. *)
Definition s3EnvVars (backup : Backup) (refs : BackupRefs) : list EnvVar :=
  match s3_of backup with
  | None => []
  | Some s3 =>
      envVar "AWS_DEFAULT_REGION" (s3_Region s3)
      :: match br_Credentials refs with
         | Some name => [secretEnv envAWSAccessKeyID name envAWSAccessKeyID; secretEnv envAWSSecretAccessKey name envAWSSecretAccessKey]
         | None => []
         end
      ++ if decide (s3_Endpoint s3 = "") then [] else [envVar "AWS_ENDPOINT_URL" (s3_Endpoint s3)]
  end.

(** How a Job connects as the operator, to the database [db]. *)
Definition jobConnectionEnv (c : PgCluster) (credentials db : string) : list EnvVar :=
  [secretEnv "PGUSER" credentials SecretKeyUsername; secretEnv "PGPASSWORD" credentials SecretKeyPassword;
   envVar envPGHost (clusterHost c); envVar envPGPort (Itoa (clusterPort c)); envVar envPGDatabase db] ++ jobTLSEnv credentials.

(** ** Logical backups and restores *)

Definition run_label (t : BackupRunType) : string :=
  match t with
  | BackupRunTypeFull => "full" | BackupRunTypeIncremental => "incremental" | BackupRunTypeSchema => "schema" | BackupRunTypeData => "data"
  end.

Definition dumpScript (dumpFlag : string) : string :=
  raw "
set -e
echo `pg_dump: host=$PGHOST sslmode=${PGSSLMODE:-prefer}`
FILENAME=$(date +%Y%m%dT%H%M%S).dump
pg_dump -h `$PGHOST` -p `$PGPORT` -U `$PGUSER` -d `$PGDATABASE` " +:+ dumpFlag +:+ raw " -Fc -f /backup/$FILENAME
echo `dump_file=$FILENAME` > /backup/metadata
".

Definition uploadScript (s3Path flag : string) : string :=
  raw "
set -e
source /backup/metadata
DEST=`" +:+ s3Path +:+ raw "/${dump_file}`
aws s3 cp /backup/${dump_file} `$DEST` " +:+ flag +:+ raw "
echo `Uploaded to $DEST`
".

Definition downloadScript (location flag : string) : string :=
  raw "
set -e
aws s3 cp `" +:+ location +:+ raw "` /restore/artifact.dump " +:+ flag +:+ raw "
echo `Downloaded " +:+ location +:+ raw "`
".

Definition restoreScript : string := raw "
set -e
echo `pg_restore: host=$PGHOST sslmode=${PGSSLMODE:-prefer}`
pg_restore -h `$PGHOST` -p `$PGPORT` -U `$PGUSER` -d `$PGDATABASE` --no-owner --clean --if-exists /restore/artifact.dump
echo `Restore complete`
".

Record CronJobSpec := { cjs_Schedule : string; cjs_Job : JobSpec }.

(** [cj_OwnerUID]: of the controller. History limits (3) and the concurrency policy
    (Forbid) are always the same. *)
Record CronJob := {
  cj_Name : string;
  cj_OwnerUID : string;
  cj_Labels : gmap string string;
  cj_Annotations : gmap string string;
  cj_Suspend : option bool;
  cj_Spec : CronJobSpec }.

Definition physicalJobLabels (backup : Backup) (t : BackupRunType) : gmap string string :=
  {[ LabelAppName := appNameBackup; LabelAppInstance := bk_Name backup; LabelAppManagedBy := LabelValuePgop; labelBackupType := run_label t ]}.

Definition cronJobName (backup : Backup) (t : BackupRunType) : string := bk_Name backup +:+ "-" +:+ run_label t.

Definition logicalJob (backup : Backup) (refs : BackupRefs) (c : ConfCluster) (db : string) (t : BackupRunType) : JobSpec :=
  let credentials := k_Name (cf_cluster c) +:+ "-credentials" in
  let flag := match t with BackupRunTypeData => "--data-only" | _ => "--schema-only" end in
  {| js_Labels := ∅; js_TTLSecondsAfterFinished := 300; js_BackoffLimit := 3; js_RestartPolicy := RestartPolicyOnFailure;
     js_SecurityContext := restorePodSecurityContext 70; js_RunAsNonRoot := true;
     js_Volumes := [JobVol {| vol_Name := backupVolumeName; vol_Source := VolEmptyDir |}; JobVol (jobTLSVolume credentials)];
     js_InitContainers :=
       [jobContainer "pg-dump" (ci_Image (cf_image c)) true [shBin; "-c"; dumpScript flag]
          (jobConnectionEnv (cf_cluster c) credentials db) [rw_mount backupVolumeName backupVolumeMount; jobTLSVolumeMount]];
     js_Containers :=
       [jobContainer "s3-upload" awsCLIImage false [shBin; "-c"; uploadScript (buildS3Path backup (run_label t)) (endpointFlag backup)]
          (s3EnvVars backup refs) [rw_mount backupVolumeName backupVolumeMount]] |}.

Definition logicalCronJob (uid : string) (backup : Backup) (refs : BackupRefs) (c : ConfCluster) (db schedule : string) (t : BackupRunType)
    : CronJob :=
  {| cj_Name := cronJobName backup t; cj_OwnerUID := uid; cj_Labels := physicalJobLabels backup t; cj_Annotations := ∅;
     cj_Suspend := None; cj_Spec := {| cjs_Schedule := schedule; cjs_Job := logicalJob backup refs c db t |} |}.

(** The Job of a Restore: [newRestoreJob] with the pod of one of the two kinds. *)
Record RestoreJob := { rj_Name : string; rj_Labels : gmap string string; rj_Job : JobSpec }.

Definition newRestoreJob (restore : string) (restoreType : string) (policy : RestartPolicy) (sc : PodSecurityContext)
    (volumes : list JobVolume) (inits containers : list Container) : RestoreJob :=
  {| rj_Name := restore +:+ "-restore";
     rj_Labels := {[ LabelAppName := appNameRestore; LabelAppInstance := restore; LabelAppManagedBy := LabelValuePgop;
                     labelRestoreType := restoreType ]};
     rj_Job := {| js_Labels := ∅; js_TTLSecondsAfterFinished := 3600; js_BackoffLimit := 2; js_RestartPolicy := policy;
                  js_SecurityContext := sc; js_RunAsNonRoot := true; js_Volumes := volumes; js_InitContainers := inits;
                  js_Containers := containers |} |}.

(** [location]: of the artifact; [db]: the database to restore into. *)
Definition buildLogicalRestoreJob (restore location db : string) (backup : Backup) (refs : BackupRefs) (c : ConfCluster) : RestoreJob :=
  let credentials := k_Name (cf_cluster c) +:+ "-credentials" in
  newRestoreJob restore "logical" RestartPolicyOnFailure (restorePodSecurityContext 70)
    [JobVol {| vol_Name := restoreVolumeName; vol_Source := VolEmptyDir |}; JobVol (jobTLSVolume credentials)]
    [jobContainer "s3-download" awsCLIImage false [shBin; "-c"; downloadScript location (endpointFlag backup)]
       (s3EnvVars backup refs) [rw_mount restoreVolumeName restoreVolumeMount]]
    [jobContainer "pg-restore" (ci_Image (cf_image c)) true [shBin; "-c"; restoreScript]
       (jobConnectionEnv (cf_cluster c) credentials db) [rw_mount restoreVolumeName restoreVolumeMount; jobTLSVolumeMount]].

(** ** Physical backups and restores *)

Definition physicalBackupScript : string :=
  raw "set -eu
echo `pgop: $PGOP_BACKUP_TYPE backup of $PGBACKREST_PG1_HOST to repository $PGBACKREST_REPO1_PATH`
" +:+ pgbackrestBin +:+ raw " stanza-create
" +:+ pgbackrestBin +:+ raw " backup --type=`$PGOP_BACKUP_TYPE`
label=`$(" +:+ pgbackrestBin +:+ raw " info --output=json | grep -o '`label`:`[^`]*`' | tail -n 1 | cut -d '`' -f 4)`
echo `pgop: backup $label complete`
printf '" +:+ terminationLabelPrefix +:+ raw "%s\n' `$label` > /dev/termination-log
".

Definition pgbackrestJobVolumes (refs : BackupRefs) (c : PgCluster) : list Volume * list VolumeMount :=
  let '(caVolumes, caMounts) := s3CAVolume refs in
  ({| vol_Name := pgbackrestTLSVolumeName;
      vol_Source := VolSecret (pgbackrestTLSSecretName c)
        [(pgbackrestTLSKeyClientCert, TLSSecretKeyCert); (pgbackrestTLSKeyClientKey, TLSSecretKeyKey); (TLSSecretKeyCA, TLSSecretKeyCA)]
        (Some tlsFileMode) false |}
   :: {| vol_Name := volPgbackrestTmp; vol_Source := VolEmptyDir |} :: caVolumes,
   {| vm_Name := pgbackrestTLSVolumeName; vm_MountPath := pgbackrestTLSMountPath; vm_ReadOnly := true |}
   :: rw_mount volPgbackrestTmp pgbackrestTmpMountPath :: caMounts).

(** Its runAsNonRoot is [js_RunAsNonRoot]. *)
Definition pgbackrestPodSecurityContext : PodSecurityContext := postgresPodSecurityContext.

Section physical.
Context `{UrlParse}.

Definition pgbackrestJobEnv (backup : Backup) (refs : BackupRefs) (s3 : S3Destination) (c : PgCluster) (layout : postgresLayout) : list EnvVar :=
  pgbackrestRepoEnv backup refs s3 ++ pgbackrestPGEnv c layout ++
  [envVar "PGBACKREST_PG1_HOST" (clusterHost c); envVar "PGBACKREST_PG1_HOST_TYPE" "tls";
   envVar "PGBACKREST_PG1_HOST_PORT" (Itoa pgbackrestTLSPort);
   envVar "PGBACKREST_PG1_HOST_CA_FILE" (pgbackrestTLSMountPath +:+ "/" +:+ TLSSecretKeyCA);
   envVar "PGBACKREST_PG1_HOST_CERT_FILE" (pgbackrestTLSMountPath +:+ "/" +:+ TLSSecretKeyCert);
   envVar "PGBACKREST_PG1_HOST_KEY_FILE" (pgbackrestTLSMountPath +:+ "/" +:+ TLSSecretKeyKey);
   envVar "PGBACKREST_START_FAST" "y"].

Definition physicalJob (backup : Backup) (refs : BackupRefs) (s3 : S3Destination) (c : PgCluster) (layout : postgresLayout)
    (t : BackupRunType) : JobSpec :=
  let '(volumes, mounts) := pgbackrestJobVolumes refs c in
  {| js_Labels := physicalJobLabels backup t; js_TTLSecondsAfterFinished := 300; js_BackoffLimit := 3;
     js_RestartPolicy := RestartPolicyNever; js_SecurityContext := pgbackrestPodSecurityContext; js_RunAsNonRoot := true;
     js_Volumes := JobVol <$> volumes; js_InitContainers := [];
     js_Containers :=
       [jobContainer pgbackrestContainerName (pgbackrestImage backup) true [shBin; "-c"; physicalBackupScript]
          (pgbackrestJobEnv backup refs s3 c layout ++ ((λ p, envVar p.1 p.2) <$> pgbackrestRetentionEnv backup)
           ++ [envVar "PGOP_BACKUP_TYPE" (match t with BackupRunTypeIncremental => "incr" | _ => "full" end)])
          mounts] |}.

Definition physicalCronJob (uid : string) (backup : Backup) (refs : BackupRefs) (s3 : S3Destination) (c : PgCluster) (layout : postgresLayout)
    (t : BackupRunType) (schedule : string) : CronJob :=
  {| cj_Name := cronJobName backup t; cj_OwnerUID := uid; cj_Labels := physicalJobLabels backup t; cj_Annotations := ∅;
     cj_Suspend := None; cj_Spec := {| cjs_Schedule := schedule; cjs_Job := physicalJob backup refs s3 c layout t |} |}.

Definition physicalRestoreScript : string :=
  raw "set -eu
mkdir -p `$PGBACKREST_PG1_PATH`
chmod 0700 `$PGBACKREST_PG1_PATH`
rm -f `$PGBACKREST_PG1_PATH/postmaster.pid`
echo `pgop: restoring into $PGBACKREST_PG1_PATH from repository $PGBACKREST_REPO1_PATH: $*`
exec " +:+ pgbackrestBin +:+ raw " restore `$@`
".

Definition buildPhysicalRestoreJob (restore : Restore) (backup : Backup) (refs : BackupRefs) (s3 : S3Destination) (c : PgCluster)
    (layout : postgresLayout) (label : string) : RestoreJob :=
  let '(caVolumes, caMounts) := s3CAVolume refs in
  newRestoreJob (re_Name restore) "physical" RestartPolicyNever pgbackrestPodSecurityContext
    (JobClaim dataVolumeName (dataPVCName (k_Name c)) :: JobVol {| vol_Name := volPgbackrestTmp; vol_Source := VolEmptyDir |}
     :: (JobVol <$> caVolumes))
    []
    [jobContainer pgbackrestContainerName (pgbackrestImage backup) true
       ([shBin; "-c"; physicalRestoreScript; pgbackrestContainerName] ++ physicalRestoreArgs restore label)
       (pgbackrestRepoEnv backup refs s3 ++ pgbackrestPGEnv c layout)
       (rw_mount dataVolumeName (lay_MountPath layout) :: rw_mount volPgbackrestTmp pgbackrestTmpMountPath :: caMounts)].
End physical.

(** ** The Backup reconciler *)

#[export] Instance Condition_eq_dec : EqDecision Condition. Proof. solve_decision. Defined.
#[export] Instance BackupTimes_eq_dec : EqDecision BackupTimes. Proof. solve_decision. Defined.

Record BackupStatus := { bs_Times : BackupTimes; bs_Conditions : list Condition }.
#[export] Instance BackupStatus_eq_dec : EqDecision BackupStatus. Proof. solve_decision. Defined.

(** A Backup as it is read. The two schedules of spec.physical are empty without it;
    [bo_TTL]: [time.ParseDuration(backup.Spec.BackupRunTTL)]. *)
Record BackupObject := {
  bo_Backup : Backup;
  bo_Refs : BackupRefs;
  bo_UID : string;
  bo_Generation : Z;
  bo_Finalizers : list string;
  bo_DatabaseRef : option string;
  bo_Schedule : string;
  bo_FullSchedule : string;
  bo_IncrementalSchedule : string;
  bo_TTL : option Z;
  bo_Status : BackupStatus }.

(** A Database: its name in PostgreSQL and its Cluster. *)
Record BackedDatabase := { bd_PostgresName : string; bd_ClusterRef : string }.

(** Gets answer [None] when there is no object; the Gets of the Database and the Cluster
    answer with an error then, as the code treats that alike. Deletes answer whether the
    object was gone already as no error. [bx_GetConfigMap]: whether the ConfigMap is
    controlled by the Backup. *)
Record backupOps (W : Type) := {
  bx_GetBackup : M W (result (option BackupObject));
  bx_PatchFinalizers : list string → M W error;
  bx_UpdateStatus : BackupStatus → M W error;
  bx_GetDatabase : string → M W (result BackedDatabase);
  bx_GetCluster : string → M W (result (ConfCluster * list Condition));
  bx_ListBackups : M W (result (list Backup));
  bx_GetCronJob : string → M W (result (option CronJob));
  bx_CreateCronJob : CronJob → M W error;
  bx_UpdateCronJob : CronJob → M W error;
  bx_GetConfigMap : string → M W (result (option bool));
  bx_DeleteConfigMap : string → M W error;
  bx_runs : BackupAPI W }.
Arguments bx_GetBackup {W}. Arguments bx_PatchFinalizers {W}. Arguments bx_UpdateStatus {W}. Arguments bx_GetDatabase {W}.
Arguments bx_GetCluster {W}. Arguments bx_ListBackups {W}. Arguments bx_GetCronJob {W}. Arguments bx_CreateCronJob {W}.
Arguments bx_UpdateCronJob {W}. Arguments bx_GetConfigMap {W}. Arguments bx_DeleteConfigMap {W}. Arguments bx_runs {W}.

(** [json.Marshal] of the spec of a CronJob. *)
Class MarshalSpec := json_Marshal_spec : CronJobSpec → result string.

Definition defaultString (s def : string) : string := if decide (s = "") then def else s.

(** [errBackupInvalid] with its cause. *)
Definition errBackupInvalid : string := "invalid Backup".
Definition invalidBackup (e : gerr) : gerr := Wrapf "%[2]w: %[1]w" [] (JoinErr [Errorf errBackupInvalid []; e]).

Section reconcile.
Context `{Sha256} `{MarshalSpec} `{UrlParse} `{ErrorText} `{ConditionSetter} `{ConditionLookup}.

Definition cronJobSpecHash (cj : CronJob) : result string :=
  match json_Marshal_spec (cj_Spec cj) with
  | inl b => inl (hex_encode (String.substring 0 16 (sha256 b)))
  | inr e => inr (Wrapf "failed to hash CronJob spec: %w" [] e)
  end.

Definition with_hash (hash : string) (cj : CronJob) : CronJob :=
  {| cj_Name := cj_Name cj; cj_OwnerUID := cj_OwnerUID cj; cj_Labels := cj_Labels cj;
     cj_Annotations := <[annotationSpecHash := hash]> (cj_Annotations cj); cj_Suspend := cj_Suspend cj; cj_Spec := cj_Spec cj |}.

(** The existing CronJob with the desired spec and labels; suspend stays as it is. *)
Definition converged (existing desired : CronJob) (hash : string) : CronJob :=
  with_hash hash
    {| cj_Name := cj_Name existing; cj_OwnerUID := cj_OwnerUID existing; cj_Labels := cj_Labels desired ∪ cj_Labels existing;
       cj_Annotations := cj_Annotations existing; cj_Suspend := cj_Suspend existing; cj_Spec := cj_Spec desired |}.

Context {W : Type} (r : backupOps W) (o : BackupObject).
Abbreviation backup := (bo_Backup o).

Definition applyCronJob (desired : CronJob) : M W error :=
  match cronJobSpecHash desired with
  | inr e => mret (Some e)
  | inl hash =>
      c ← bx_GetCronJob r (cj_Name desired);
      match c with
      | inr e => mret (Some e)
      | inl None => bx_CreateCronJob r (with_hash hash desired)
      | inl (Some existing) =>
          if decide (default "" (cj_Annotations existing !! annotationSpecHash) = hash) then mret None
          else bx_UpdateCronJob r (converged existing desired hash)
      end
  end.

(** A list of CronJobs, up to the first error. *)
Fixpoint applyCronJobs (l : list CronJob) : M W error :=
  match l with
  | [] => mret None
  | cj :: l => e ← applyCronJob cj; match e with Some e => mret (Some e) | None => applyCronJobs l end
  end.

Definition logicalCronJobs (c : ConfCluster) (db : BackedDatabase) : list CronJob :=
  logicalCronJob (bo_UID o) backup (bo_Refs o) c (bd_PostgresName db) (defaultString (bo_Schedule o) "0 2 * * *")
    <$> [BackupRunTypeSchema; BackupRunTypeData].

Definition reconcileLogicalBackup : M W error :=
  match bo_DatabaseRef o with
  | None => mret (Some (Errorf "databaseRef is required for logical backups" []))
  | Some name =>
      db ← bx_GetDatabase r name;
      match db with
      | inr e => mret (Some (Wrapf "failed to get database %s: %w" [name] e))
      | inl db =>
          c ← bx_GetCluster r (bd_ClusterRef db);
          match c with
          | inr e => mret (Some (Wrapf "failed to get cluster %s: %w" [bd_ClusterRef db] e))
          | inl (c, _) => applyCronJobs (logicalCronJobs c db)
          end
      end
  end.

(** The Cluster's WALArchiving condition, copied to the Backup. *)
Definition mirrorArchivingCondition (st : BackupStatus) (cluster : string) (conditions : list Condition) : BackupStatus :=
  {| bs_Times := bs_Times st;
     bs_Conditions :=
       match FindStatusCondition conditions ConditionTypeWALArchiving with
       | None => RemoveStatusCondition (bs_Conditions st) ConditionTypeWALArchiving
       | Some c => SetStatusCondition (bs_Conditions st)
                     {| cond_Type := ConditionTypeWALArchiving; cond_Status := cond_Status c;
                        cond_ObservedGeneration := bo_Generation o; cond_Reason := cond_Reason c;
                        cond_Message := "Cluster " +:+ cluster +:+ ": " +:+ cond_Message c |}
       end |}.

Definition physicalCronJobs (s3 : S3Destination) (c : PgCluster) (layout : postgresLayout) : list CronJob :=
  [physicalCronJob (bo_UID o) backup (bo_Refs o) s3 c layout BackupRunTypeFull (defaultString (bo_FullSchedule o) "0 2 * * 0");
   physicalCronJob (bo_UID o) backup (bo_Refs o) s3 c layout BackupRunTypeIncremental
     (defaultString (bo_IncrementalSchedule o) "0 2 * * 1-6")].

Definition deleteLegacyPgbackrestConfigMap : M W error :=
  let name := bk_Name backup +:+ "-pgbackrest" in
  cm ← bx_GetConfigMap r name;
  match cm with
  | inr e => mret (Some e)
  | inl None | inl (Some false) => mret None
  | inl (Some true) => bx_DeleteConfigMap r name
  end.

Definition otherBackupOwns (cluster owner : string) : gerr :=
  Errorf "cluster %s already archives its WAL for physical Backup %s; only one physical Backup per Cluster is supported" [cluster; owner].

(** [st]: the status of the Backup in memory, written by [reconcileBackup]. A valid Backup
    has a clusterRef and an S3 destination: the last case does not arise. *)
Definition reconcilePhysicalBackup (st : BackupStatus) : M W (BackupStatus * error) :=
  match validatePhysicalBackup backup, bk_ClusterRef backup, bk_S3 backup with
  | Some e, _, _ => mret (st, Some (invalidBackup e))
  | None, Some name, Some s3 =>
      c ← bx_GetCluster r name;
      match c with
      | inr e => mret (st, Some (Wrapf "failed to get cluster %s: %w" [name] e))
      | inl (c, conditions) =>
          match validatePhysicalBackupFor backup (cf_image c) with
          | Some e => mret (st, Some (invalidBackup e))
          | None =>
              l ← bx_ListBackups r;
              match l with
              | inr e => mret (st, Some e)
              | inl items =>
                  let other := owner ← physicalBackupFor (k_Name (cf_cluster c)) items;
                               if decide (bk_Name owner = bk_Name backup) then None else Some (bk_Name owner) in
                  match other with
                  | Some owner => mret (st, Some (invalidBackup (otherBackupOwns (k_Name (cf_cluster c)) owner)))
                  | None =>
                      let st := mirrorArchivingCondition st (k_Name (cf_cluster c)) conditions in
                      match resolvePostgresLayout (cf_image c) with
                      | inr e => mret (st, Some e)
                      | inl layout =>
                          e ← applyCronJobs (physicalCronJobs s3 (cf_cluster c) layout);
                          match e with
                          | Some e => mret (st, Some e)
                          | None =>
                              e ← deleteLegacyPgbackrestConfigMap;
                              match e with
                              | Some e => mret (st, Some e)
                              | None =>
                                  t ← recordPhysicalRuns (bx_runs r) (bo_UID o) (bk_Name backup) (bo_TTL o) (bs_Times st);
                                  mret ({| bs_Times := t.1; bs_Conditions := bs_Conditions st |}, t.2)
                              end
                          end
                      end
                  end
              end
          end
      end
  | None, _, _ => mret (st, None)
  end.

Definition backupCondition (e : error) : Condition :=
  {| cond_Type := ConditionTypeAvailable; cond_Status := match e with None => "True" | Some _ => "False" end;
     cond_ObservedGeneration := bo_Generation o;
     cond_Reason := match e with
                    | None => "Scheduled"
                    | Some e => if errors_Is errBackupInvalid e then reasonInvalid else ReasonReconcileError
                    end;
     cond_Message := match e with None => "Backup CronJobs are scheduled" | Some e => error_text e end |}.

(** The answer of a pass; invalid Backups wait for a change of their spec. *)
Definition backupResult (e : error) : ctrlResult :=
  match e with
  | Some err => if errors_Is errBackupInvalid err then (0, None) else (0, e)
  | None => match bk_Type backup with BackupTypePhysical => (minute_ns, None) | BackupTypeLogical => (0, None) end
  end.

Definition reconcileBackupKind : M W (BackupStatus * error) :=
  match bk_Type backup with
  | BackupTypeLogical => e ← reconcileLogicalBackup; mret (bo_Status o, e)
  | BackupTypePhysical => reconcilePhysicalBackup (bo_Status o)
  end.

(** A pass over a live Backup with its finalizer. *)
Definition reconcileLiveBackup : M W ctrlResult :=
  p ← reconcileBackupKind;
  let '(st, e) := p in
  let st := {| bs_Times := bs_Times st; bs_Conditions := SetStatusCondition (bs_Conditions st) (backupCondition e) |} in
  w ← (if decide (bo_Status o = st) then mret None else bx_UpdateStatus r st);
  match w with
  | Some w => mret (0, Some w)
  | None => mret (backupResult e)
  end.
End reconcile.

(** One pass of [Reconcile]. *)
Definition reconcileBackup `{Sha256} `{MarshalSpec} `{UrlParse} `{ErrorText} `{ConditionSetter} `{ConditionLookup} {W : Type}
    (r : backupOps W) : M W ctrlResult :=
  b ← bx_GetBackup r;
  match b with
  | inl None => mret (0, None)
  | inr e => mret (0, Some e)
  | inl (Some o) =>
      let held := bool_decide (backupFinalizer ∈ bo_Finalizers o) in
      if bk_Deleting (bo_Backup o) then
        if held then
          e ← bx_PatchFinalizers r (filter (λ f, f ≠ backupFinalizer) (bo_Finalizers o));
          mret (0, e)
        else mret (0, None)
      else
        e ← (if held then mret None else bx_PatchFinalizers r (bo_Finalizers o ++ [backupFinalizer]));
        match e with
        | Some e => mret (0, Some e)
        | None => reconcileLiveBackup r o
        end
  end.

(** ** Which Backups a change concerns *)

(** The Cluster a Backup reads from, "" when it cannot be resolved. *)
Definition backupCluster {W} (GetDatabase : string → M W (result BackedDatabase)) (t : BackupType) (clusterRef databaseRef : option string)
    : M W string :=
  match t, clusterRef, databaseRef with
  | BackupTypePhysical, Some name, _ => mret name
  | BackupTypeLogical, _, Some name =>
      db ← GetDatabase name;
      mret (match db with inl db => bd_ClusterRef db | inr _ => "" end)
  | _, _, _ => mret ""
  end.

(** The names of the Backups of a Cluster, among those of its namespace. *)
Fixpoint backupsForCluster {W} (GetDatabase : string → M W (result BackedDatabase)) (cluster : string) (items : list BackupObject)
    : M W (list string) :=
  match items with
  | [] => mret []
  | b :: items =>
      c ← backupCluster GetDatabase (bk_Type (bo_Backup b)) (bk_ClusterRef (bo_Backup b)) (bo_DatabaseRef b);
      l ← backupsForCluster GetDatabase cluster items;
      mret (if decide (c = cluster) then bk_Name (bo_Backup b) :: l else l)
  end.

(** The Backup of a backup Job, by the Job's labels. *)
Definition backupForJob (labels : gmap string string) : option string :=
  let l k := default "" (labels !! k) in
  if decide (l LabelAppName ≠ appNameBackup ∨ l LabelAppManagedBy ≠ LabelValuePgop ∨ l LabelAppInstance = "") then None
  else Some (l LabelAppInstance).

(** ** The calls of a pass *)

Inductive bk_event :=
  | EBackup (r : result (option BackupObject))
  | EFinalizers (l : list string) (e : error)
  | EStatus (st : BackupStatus) (e : error)
  | EDatabase (name : string) (r : result BackedDatabase)
  | ECluster (name : string) (r : result (ConfCluster * list Condition))
  | EBackups (r : result (list Backup))
  | EGetCron (name : string) (r : result (option CronJob))
  | ECreateCron (cj : CronJob) (e : error)
  | EUpdateCron (cj : CronJob) (e : error)
  | EOther.

Section logged.
Context {W : Type}.
Abbreviation other := (logged (λ _, EOther)).

Definition bk_runs (a : BackupAPI W) : BackupAPI (W * list bk_event) :=
  {| ba_now := other (ba_now a); ba_ListJobs := other (ba_ListJobs a); ba_GetRun := λ n, other (ba_GetRun a n);
     ba_CreateRun := λ run, other (ba_CreateRun a run); ba_PatchRunJob := λ run n, other (ba_PatchRunJob a run n) |}.

Definition bk_ops (r : backupOps W) : backupOps (W * list bk_event) :=
  {| bx_GetBackup := logged EBackup (bx_GetBackup r); bx_PatchFinalizers := λ l, logged (EFinalizers l) (bx_PatchFinalizers r l);
     bx_UpdateStatus := λ st, logged (EStatus st) (bx_UpdateStatus r st);
     bx_GetDatabase := λ n, logged (EDatabase n) (bx_GetDatabase r n); bx_GetCluster := λ n, logged (ECluster n) (bx_GetCluster r n);
     bx_ListBackups := logged EBackups (bx_ListBackups r); bx_GetCronJob := λ n, logged (EGetCron n) (bx_GetCronJob r n);
     bx_CreateCronJob := λ cj, logged (ECreateCron cj) (bx_CreateCronJob r cj);
     bx_UpdateCronJob := λ cj, logged (EUpdateCron cj) (bx_UpdateCronJob r cj);
     bx_GetConfigMap := λ n, other (bx_GetConfigMap r n); bx_DeleteConfigMap := λ n, other (bx_DeleteConfigMap r n);
     bx_runs := bk_runs (bx_runs r) |}.
End logged.

Lemma validated_refs `{UrlParse} (b : Backup) :
  validatePhysicalBackup b = None → ∃ name s3, bk_ClusterRef b = Some name ∧ bk_S3 b = Some s3.
Proof.
  unfold validatePhysicalBackup. destruct (bk_ClusterRef b) as [name|]; [|done].
  destruct (bk_DestinationType b), (bk_S3 b) as [s3|]; try done. by exists name, s3.
Qed.

Section safety.
Context `{Sha256} `{MarshalSpec} `{UrlParse} `{ErrorText} `{ConditionLaws}.

(** The Backup was read in the pass, lives, and has the finalizer. *)
Definition scheduling (pre : list bk_event) (o : BackupObject) : Prop :=
  EBackup (inl (Some o)) ∈ pre ∧ bk_Deleting (bo_Backup o) = false ∧
  (backupFinalizer ∈ bo_Finalizers o ∨ EFinalizers (bo_Finalizers o ++ [backupFinalizer]) None ∈ pre).

(** The CronJobs the Backup declares, for the objects read in the pass. A physical Backup
    is valid for its Cluster, and no other physical Backup of the Cluster comes first. *)
Definition declared_jobs (pre : list bk_event) (o : BackupObject) (jobs : list CronJob) : Prop :=
  match bk_Type (bo_Backup o) with
  | BackupTypeLogical => ∃ name db c conditions, bo_DatabaseRef o = Some name ∧ EDatabase name (inl db) ∈ pre ∧
      ECluster (bd_ClusterRef db) (inl (c, conditions)) ∈ pre ∧ jobs = logicalCronJobs o c db
  | BackupTypePhysical => ∃ name s3 c conditions items layout,
      bk_ClusterRef (bo_Backup o) = Some name ∧ bk_S3 (bo_Backup o) = Some s3 ∧ ECluster name (inl (c, conditions)) ∈ pre ∧
      validatePhysicalBackupFor (bo_Backup o) (cf_image c) = None ∧ EBackups (inl items) ∈ pre ∧
      (∀ owner, physicalBackupFor (k_Name (cf_cluster c)) items = Some owner → bk_Name owner = bk_Name (bo_Backup o)) ∧
      resolvePostgresLayout (cf_image c) = inl layout ∧ jobs = physicalCronJobs o s3 (cf_cluster c) layout
  end.

Definition scheduled (pre : list bk_event) (o : BackupObject) (d : CronJob) : Prop :=
  scheduling pre o ∧ ∃ jobs, declared_jobs pre o jobs ∧ d ∈ jobs.

(** [cj] is [old] with what pgop generates replaced. *)
Definition rewritten (old d cj : CronJob) (hash : string) : Prop :=
  cj_Spec cj = cj_Spec d ∧ cj_Suspend cj = cj_Suspend old ∧ cj_Name cj = cj_Name old ∧ cj_OwnerUID cj = cj_OwnerUID old ∧
  cj_Labels d ⊆ cj_Labels cj ∧ (∀ k, cj_Labels d !! k = None → cj_Labels cj !! k = cj_Labels old !! k) ∧
  cj_Annotations cj = <[annotationSpecHash := hash]> (cj_Annotations old).

(** The CronJob is up to date: found so, or written. *)
Definition in_place (pre : list bk_event) (d : CronJob) : Prop :=
  ∃ hash, cronJobSpecHash d = inl hash ∧
    ((∃ old, EGetCron (cj_Name d) (inl (Some old)) ∈ pre ∧ default "" (cj_Annotations old !! annotationSpecHash) = hash) ∨
     ECreateCron (with_hash hash d) None ∈ pre ∨
     ∃ old cj, EGetCron (cj_Name d) (inl (Some old)) ∈ pre ∧ rewritten old d cj hash ∧ EUpdateCron cj None ∈ pre).

Definition BJ (pre : list bk_event) (ev : bk_event) : Prop :=
  match ev with
  | EFinalizers l _ => ∃ o, EBackup (inl (Some o)) ∈ pre ∧
      l = (if bk_Deleting (bo_Backup o) then filter (λ f, f ≠ backupFinalizer) (bo_Finalizers o) else bo_Finalizers o ++ [backupFinalizer])
  | ECreateCron cj _ => ∃ o d hash, scheduled pre o d ∧ cronJobSpecHash d = inl hash ∧ EGetCron (cj_Name d) (inl None) ∈ pre ∧
      cj = with_hash hash d
  | EUpdateCron cj _ => ∃ o d hash old, scheduled pre o d ∧ cronJobSpecHash d = inl hash ∧ EGetCron (cj_Name d) (inl (Some old)) ∈ pre ∧
      default "" (cj_Annotations old !! annotationSpecHash) ≠ hash ∧ rewritten old d cj hash
  | EStatus st _ => ∃ o, scheduling pre o ∧ ∀ cond,
      FindStatusCondition (bs_Conditions st) ConditionTypeAvailable = Some cond → cond_Status cond = "True" →
      ∃ jobs, declared_jobs pre o jobs ∧ ∀ d, d ∈ jobs → in_place pre d
  | _ => True
  end.

#[export] Instance scheduling_mono o : Mono (λ tr, scheduling tr o).
Proof. unfold scheduling. solve_mono. Qed.
#[export] Instance declared_mono o jobs : Mono (λ tr, declared_jobs tr o jobs).
Proof. unfold declared_jobs. destruct (bk_Type _); solve_mono. Qed.
#[export] Instance in_place_mono d : Mono (λ tr, in_place tr d).
Proof. unfold in_place. solve_mono. Qed.

Lemma converged_rewritten old d hash : rewritten old d (converged old d hash) hash.
Proof.
  unfold rewritten. simpl. split_and!; try done.
  - apply map_union_subseteq_l.
  - intros k Hk. by rewrite lookup_union_r.
Qed.

Context {W : Type} (r : backupOps W).
Abbreviation runs := (runs (W := W) BJ).

Lemma applyCronJob_runs o d tr :
  scheduled tr o d → runs tr (applyCronJob (bk_ops r) d) (λ e tr', e = None → in_place tr' d).
Proof.
  intros (Hs & jobs & Hd & Hin). unfold applyCronJob. destruct (cronJobSpecHash d) as [hash|e] eqn:Eh; [|by apply runs_ret].
  assert (∀ tr1, tr `prefix_of` tr1 → scheduled tr1 o d) as Hsched by (intros tr1 P; split; [carry|exists jobs; split; [carry|done]]).
  apply runs_call; [done|]. intros [[old|]|e] tr1 P1 E1; [case_decide as Ha| |by apply runs_ret].
  - apply runs_ret. intros _. exists hash. split; [done|]. left. by exists old.
  - apply runs_logged.
    + intros e. exists o, d, hash, old. split_and!; [by apply Hsched|done|done|done|apply converged_rewritten].
    + intros e tr2 P2 E2 ->. exists hash. split; [done|]. do 2 right. exists old. eexists.
      split_and!; [seen|apply converged_rewritten|exact E2].
  - apply runs_logged.
    + intros e. exists o, d, hash. split_and!; [by apply Hsched|done..].
    + intros e tr2 P2 E2 ->. exists hash. split; [done|]. right. by left.
Qed.

Lemma applyCronJobs_runs o jobs l tr :
  scheduling tr o → declared_jobs tr o jobs → l ⊆ jobs →
  runs tr (applyCronJobs (bk_ops r) l) (λ e tr', e = None → ∀ d, d ∈ l → in_place tr' d).
Proof.
  revert tr. induction l as [|d l IH]; intros tr Hs Hd Hl; [by apply runs_ret; intros _ d ?%elem_of_nil|].
  simpl. eapply runs_bind; [eapply (applyCronJob_runs o); split; [exact Hs|exists jobs; split; [exact Hd|apply Hl; by left]]|].
  intros [e|] tr1 P1 Hp; [by apply runs_ret|]. specialize (Hp eq_refl).
  eapply runs_conseq; [apply IH; [carry|carry|intros x ?; apply Hl; by right]|].
  intros e tr2 P2 Hr -> d' [->|Hd']%elem_of_cons; [carry|by apply Hr].
Qed.

(** The passes over a physical Backup's Jobs call nothing that matters here. *)
Lemma recordPhysicalRuns_other uid name parsed times :
  only (λ ev, ev = EOther) (recordPhysicalRuns (bk_runs (bx_runs r)) uid name parsed times).
Proof.
  unfold recordPhysicalRuns. apply only_bind; [by apply only_logged|]. intros [jobs|e]; [|apply only_ret]. cbv zeta.
  generalize (d ← parsed; if bool_decide (0 < d) then Some d else None). intros ttl. revert times.
  induction jobs as [|bj jobs IH]; intros times; simpl; [apply only_ret|].
  destruct (physicalRunType _) as [t|]; [|apply IH]. apply only_bind; [|intros [e|]; [apply only_ret|apply IH]].
  unfold ensureBackupRun. cbv zeta. walk_only; by apply only_logged.
Qed.

Definition kind_ok (o : BackupObject) (e : error) (tr : list bk_event) : Prop :=
  e = None → ∃ jobs, declared_jobs tr o jobs ∧ ∀ d, d ∈ jobs → in_place tr d.

#[export] Instance kind_ok_mono o e : Mono (kind_ok o e).
Proof. unfold kind_ok. solve_mono. Qed.

Lemma reconcileLogicalBackup_runs o tr :
  scheduling tr o → bk_Type (bo_Backup o) = BackupTypeLogical → runs tr (reconcileLogicalBackup (bk_ops r) o) (kind_ok o).
Proof.
  intros Hs Ht. unfold reconcileLogicalBackup. destruct (bo_DatabaseRef o) as [name|] eqn:En; [|by apply runs_ret].
  apply runs_call; [done|]. intros [db|e] tr1 P1 E1; [|by apply runs_ret].
  apply runs_call; [done|]. intros [[c conditions]|e] tr2 P2 E2; [|by apply runs_ret].
  assert (declared_jobs tr2 o (logicalCronJobs o c db)) as Hd.
  { unfold declared_jobs. rewrite Ht. exists name, db, c, conditions. split_and!; [done|seen|seen|done]. }
  eapply runs_conseq; [by eapply (applyCronJobs_runs o); [carry|exact Hd|done]|].
  intros e tr3 P3 Hall He. exists (logicalCronJobs o c db). split; [carry|by apply Hall].
Qed.

Lemma reconcilePhysicalBackup_runs o st tr :
  scheduling tr o → bk_Type (bo_Backup o) = BackupTypePhysical →
  runs tr (reconcilePhysicalBackup (bk_ops r) o st) (λ p, kind_ok o p.2).
Proof.
  intros Hs Ht. unfold reconcilePhysicalBackup.
  destruct (validatePhysicalBackup _) eqn:Ev; [by apply runs_ret|].
  destruct (validated_refs _ Ev) as (name & s3 & En & Es3). rewrite En, Es3.
  apply runs_call; [done|]. intros [[c conditions]|e] tr1 P1 E1; [|by apply runs_ret].
  destruct (validatePhysicalBackupFor _ _) eqn:Ef; [by apply runs_ret|].
  apply runs_call; [done|]. intros [items|e] tr2 P2 E2; [|by apply runs_ret]. cbv zeta.
  set (other := _ ≫= _). destruct other as [owner|] eqn:Eo; [by apply runs_ret|].
  destruct (resolvePostgresLayout _) as [layout|e] eqn:El; [|by apply runs_ret].
  assert (declared_jobs tr2 o (physicalCronJobs o s3 (cf_cluster c) layout)) as Hd.
  { unfold declared_jobs. rewrite Ht. exists name, s3, c, conditions, items, layout. split_and!; try done; [seen|].
    intros owner Hw. subst other. rewrite Hw in Eo. simpl in Eo. by case_decide. }
  eapply runs_bind; [by eapply (applyCronJobs_runs o); [carry|exact Hd|done]|].
  intros [e|] tr3 P3 Hall; [by apply runs_ret|].
  eapply (runs_bind _ _ _ _ (λ _ _, True)).
  { apply (runs_only _ _ (λ ev, ev = EOther)); [|by intros pre ev _ ->]. unfold deleteLegacyPgbackrestConfigMap. cbv zeta. walk_only; by apply only_logged. }
  intros [e|] tr4 P4 _; [by apply runs_ret|].
  eapply runs_bind; [apply (runs_only _ _ (λ ev, ev = EOther)); [apply recordPhysicalRuns_other|by intros pre ev _ ->]|].
  intros [times e] tr5 P5 _. apply runs_ret. simpl. intros ->. specialize (Hall eq_refl).
  exists (physicalCronJobs o s3 (cf_cluster c) layout). split; [carry|]. intros d Hin. specialize (Hall d Hin). carry.
Qed.

Lemma reconcileLiveBackup_runs o tr :
  scheduling tr o → runs tr (reconcileLiveBackup (bk_ops r) o) (λ _ _, True).
Proof.
  intros Hs. unfold reconcileLiveBackup.
  eapply (runs_bind _ _ _ _ (λ p, kind_ok o p.2)).
  { unfold reconcileBackupKind. destruct (bk_Type (bo_Backup o)) eqn:Et; [by apply reconcilePhysicalBackup_runs|].
    eapply runs_bind; [by apply reconcileLogicalBackup_runs|]. intros e tr1 P1 He. by apply runs_ret. }
  intros [st e] tr1 P1 Hk. simpl in Hk. cbv zeta.
  eapply (runs_bind _ _ _ _ (λ _ _, True)); [|intros [w|] tr2 P2 _; by apply runs_ret].
  case_decide; [by apply runs_ret|]. apply runs_logged; [|done]. intros w. exists o. split; [carry|].
  intros cond Hf Hc. apply Hk. destruct e as [e|]; [|done].
  simpl in Hf. rewrite (find_set _ (backupCondition o (Some e))) in Hf. by injection Hf as <-.
Qed.

Lemma reconcileBackup_runs : runs [] (reconcileBackup (bk_ops r)) (λ _ _, True).
Proof.
  unfold reconcileBackup. apply runs_call; [done|]. intros [[o|]|e] tr1 P1 E1; [|by apply runs_ret..]. cbv zeta.
  destruct (bk_Deleting (bo_Backup o)) eqn:Hdel.
  - destruct (bool_decide _); [|by apply runs_ret].
    apply runs_call; [|intros; by apply runs_ret]. intros e. exists o. split; [done|]. by rewrite Hdel.
  - eapply (runs_bind _ _ _ _ (λ e tr', e = None → backupFinalizer ∈ bo_Finalizers o ∨
      EFinalizers (bo_Finalizers o ++ [backupFinalizer]) None ∈ tr')).
    + destruct (bool_decide_reflect (backupFinalizer ∈ bo_Finalizers o)); [apply runs_ret; by left|].
      apply runs_logged; [|intros e tr' P' E' ->; by right]. intros e. exists o. split; [done|]. by rewrite Hdel.
    + intros [e|] tr2 P2 Hf; [by apply runs_ret|]. apply reconcileLiveBackup_runs. split_and!; [seen|done|by apply Hf].
Qed.

(** C25: backups are scheduled as declared. A pass writes a CronJob only for a Backup that
    it read, that is not being deleted and that has the finalizer, and only one of the
    two that the Backup declares for the Database and the Cluster as read in the pass;
    for a physical Backup only when it is valid for its Cluster and no older physical
    Backup of that Cluster was listed. It creates only what it read as missing, and
    rewrites only a CronJob whose recorded hash differs, which keeps its suspend flag
    and every label and annotation that is not pgop's. A status with Available True is
    written only when both CronJobs are in place as declared. *)
Theorem backups_scheduled_as_declared w res w' tr pre ev post :
  reconcileBackup (bk_ops r) (w, []) = (res, (w', tr)) → tr = pre ++ ev :: post →
  match ev with
  | ECreateCron cj _ => ∃ o d hash, scheduled pre o d ∧ cronJobSpecHash d = inl hash ∧ EGetCron (cj_Name d) (inl None) ∈ pre ∧
      cj = with_hash hash d
  | EUpdateCron cj _ => ∃ o d hash old, scheduled pre o d ∧ cronJobSpecHash d = inl hash ∧ EGetCron (cj_Name d) (inl (Some old)) ∈ pre ∧
      default "" (cj_Annotations old !! annotationSpecHash) ≠ hash ∧ rewritten old d cj hash
  | EStatus st _ => ∃ o, scheduling pre o ∧ ∀ cond,
      FindStatusCondition (bs_Conditions st) ConditionTypeAvailable = Some cond → cond_Status cond = "True" →
      ∃ jobs, declared_jobs pre o jobs ∧ ∀ d, d ∈ jobs → in_place pre d
  | EFinalizers l _ => ∃ o, EBackup (inl (Some o)) ∈ pre ∧ (backupFinalizer ∉ l → bk_Deleting (bo_Backup o) = true)
  | _ => True
  end.
Proof.
  intros Hm Htr. pose proof (runs_justified BJ _ _ _ _ _ _ _ _ _ reconcileBackup_runs Hm Htr) as Hj.
  destruct ev; try exact Hj. destruct Hj as (o & Ho & ->). exists o. split; [done|]. destruct (bk_Deleting _); [done|].
  intros Hn. destruct Hn. apply elem_of_app. right. by left.
Qed.
End safety.

(** ** CronJobs converge

    A server that stores CronJobs by name and counts the writes. *)

Definition CronStore : Type := gmap string CronJob * nat.

Definition store_ops (r : backupOps CronStore) : backupOps CronStore :=
  {| bx_GetBackup := bx_GetBackup r; bx_PatchFinalizers := bx_PatchFinalizers r; bx_UpdateStatus := bx_UpdateStatus r;
     bx_GetDatabase := bx_GetDatabase r; bx_GetCluster := bx_GetCluster r; bx_ListBackups := bx_ListBackups r;
     bx_GetCronJob := λ name s, (inl (s.1 !! name), s);
     bx_CreateCronJob := λ cj s, (None, (<[cj_Name cj := cj]> s.1, S s.2));
     bx_UpdateCronJob := λ cj s, (None, (<[cj_Name cj := cj]> s.1, S s.2));
     bx_GetConfigMap := bx_GetConfigMap r; bx_DeleteConfigMap := bx_DeleteConfigMap r; bx_runs := bx_runs r |}.

Section settle.
Context `{Sha256} `{MarshalSpec} (r : backupOps CronStore).

Definition stored_hash (cj : CronJob) : string := default "" (cj_Annotations cj !! annotationSpecHash).

Definition named (s : gmap string CronJob) : Prop := ∀ n cj, s !! n = Some cj → cj_Name cj = n.

(** What becomes of the CronJob [old] of that name. *)
Definition settled (old : option CronJob) (d : CronJob) (hash : string) (cj : CronJob) : Prop :=
  match old with
  | None => cj = with_hash hash d
  | Some old => (stored_hash old = hash ∧ cj = old) ∨ (stored_hash old ≠ hash ∧ rewritten old d cj hash)
  end.

Lemma settled_hash old d hash cj : settled old d hash cj → stored_hash cj = hash.
Proof.
  unfold settled, stored_hash. destruct old as [old|]; [|intros ->; cbn [with_hash cj_Annotations]; rewrite lookup_insert_eq; done].
  intros [[? ->]|(_ & _ & _ & _ & _ & _ & _ & ->)]; [done|]. by rewrite lookup_insert_eq.
Qed.

Lemma applyCronJob_settles d hash s n :
  cronJobSpecHash d = inl hash → named s →
  ∃ cj n', applyCronJob (store_ops r) d (s, n) = (None, (<[cj_Name d := cj]> s, n')) ∧ cj_Name cj = cj_Name d ∧
    settled (s !! cj_Name d) d hash cj.
Proof.
  intros Hh Hn. unfold applyCronJob, settled. rewrite Hh. unfold mbind, M_bind. cbn [store_ops bx_GetCronJob bx_CreateCronJob bx_UpdateCronJob fst snd].
  destruct (s !! cj_Name d) as [old|] eqn:Eo; [|exists (with_hash hash d), (S n); split; [reflexivity|done]].
  specialize (Hn _ _ Eo). case_decide as Ha.
  - exists old, n. rewrite insert_id by done. split_and!; [done|done|]. by left.
  - exists (converged old d hash), (S n). cbn [cj_Name converged with_hash]. rewrite Hn. split_and!; [done|done|]. right. split; [done|apply converged_rewritten].
Qed.

(** An up-to-date CronJob is left alone. *)
Lemma applyCronJob_idle d hash s n cj :
  cronJobSpecHash d = inl hash → s !! cj_Name d = Some cj → stored_hash cj = hash →
  applyCronJob (store_ops r) d (s, n) = (None, (s, n)).
Proof.
  intros Hh Hs Hc. unfold applyCronJob. rewrite Hh. unfold mbind, M_bind. cbn [store_ops bx_GetCronJob fst snd]. rewrite Hs. by rewrite decide_True.
Qed.

Lemma applyCronJobs_idle l s n :
  (∀ d, d ∈ l → ∃ hash cj, cronJobSpecHash d = inl hash ∧ s !! cj_Name d = Some cj ∧ stored_hash cj = hash) →
  applyCronJobs (store_ops r) l (s, n) = (None, (s, n)).
Proof.
  induction l as [|d l IH]; intros Hl; [done|]. simpl. destruct (Hl d) as (hash & cj & Hh & Hs & Hc); [by left|].
  unfold mbind, M_bind. rewrite (applyCronJob_idle _ _ _ _ _ Hh Hs Hc). apply IH. intros d' ?. apply Hl. by right.
Qed.

Lemma applyCronJobs_settle l s n :
  NoDup (cj_Name <$> l) → (∀ d, d ∈ l → ∃ hash, cronJobSpecHash d = inl hash) → named s →
  ∃ s' n', applyCronJobs (store_ops r) l (s, n) = (None, (s', n')) ∧ named s' ∧
    (∀ d, d ∈ l → ∃ hash cj, cronJobSpecHash d = inl hash ∧ s' !! cj_Name d = Some cj ∧ settled (s !! cj_Name d) d hash cj) ∧
    (∀ name, name ∉ cj_Name <$> l → s' !! name = s !! name).
Proof.
  revert s n. induction l as [|d l IH]; intros s n Hd Hh Hn.
  { exists s, n. split_and!; [done..|by intros d ?%elem_of_nil|done]. }
  rewrite fmap_cons in Hd. apply NoDup_cons in Hd as [Hni Hd]. destruct (Hh d) as [hash Hhd]; [by left|].
  destruct (applyCronJob_settles d hash s n Hhd Hn) as (cj & n1 & Happ & Hname & Hset).
  destruct (IH (<[cj_Name d := cj]> s) n1) as (s' & n' & Hrun & Hn' & Hall & Hother); [done|intros d' ?; apply Hh; by right| |].
  { intros name x [[<- <-]|[_ Hx]]%lookup_insert_Some; [done|by apply Hn]. }
  exists s', n'. simpl. unfold mbind, M_bind. rewrite Happ. split_and!; [done|done| |].
  - intros d' [->|Hin]%elem_of_cons.
    + exists hash, cj. split_and!; [done| |done]. rewrite Hother by done. by rewrite lookup_insert_eq.
    + destruct (Hall d' Hin) as (hash' & cj' & ? & ? & Hset'). exists hash', cj'. split_and!; [done..|].
      rewrite lookup_insert_ne in Hset'; [done|]. intros Heq. destruct Hni. rewrite Heq. by apply list_elem_of_fmap_2.
  - intros name [Hne Hno]%not_elem_of_cons.
    rewrite Hother by done. by rewrite lookup_insert_ne.
Qed.

(** The two CronJobs of a Backup have different names. *)
Lemma declared_names `{UrlParse} pre o jobs : declared_jobs pre o jobs → NoDup (cj_Name <$> jobs).
Proof.
  unfold declared_jobs. intros Hd.
  assert (∀ t t', t ≠ t' → NoDup [cronJobName (bo_Backup o) t; cronJobName (bo_Backup o) t']) as Hnd.
  { intros t t' Ht. constructor; [|apply NoDup_singleton]. intros Heq%list_elem_of_singleton.
    unfold cronJobName in Heq. apply app_cancel_s in Heq. by destruct t, t'; vm_compute in Heq. }
  destruct (bk_Type _).
  - destruct Hd as (? & ? & ? & ? & ? & ? & _ & _ & _ & _ & _ & _ & _ & ->). by apply Hnd.
  - destruct Hd as (? & ? & ? & ? & _ & _ & _ & ->). by apply Hnd.
Qed.

(** CronJobs converge. On a server that stores what it is given, applying the CronJobs
    that a Backup declares succeeds whatever is there: each of them is then stored with
    the hash of its spec, created as declared when it was missing, and otherwise kept
    when its hash was up to date or else given the declared spec, with its suspend flag
    and what is not pgop's left alone. Every other CronJob stays as it was, and applying
    them again writes nothing. *)
Theorem cronjobs_settle `{UrlParse} pre o jobs s n :
  declared_jobs pre o jobs → (∀ d, d ∈ jobs → ∃ hash, cronJobSpecHash d = inl hash) → named s →
  ∃ s' n', applyCronJobs (store_ops r) jobs (s, n) = (None, (s', n')) ∧
    (∀ d, d ∈ jobs → ∃ hash cj, cronJobSpecHash d = inl hash ∧ s' !! cj_Name d = Some cj ∧ stored_hash cj = hash ∧
       settled (s !! cj_Name d) d hash cj) ∧
    (∀ name, name ∉ cj_Name <$> jobs → s' !! name = s !! name) ∧
    applyCronJobs (store_ops r) jobs (s', n') = (None, (s', n')).
Proof.
  intros Hd Hh Hn. destruct (applyCronJobs_settle jobs s n (declared_names _ _ _ Hd) Hh Hn) as (s' & n' & Hrun & _ & Hall & Hother).
  exists s', n'. split_and!; [done| |done|].
  - intros d Hin. destruct (Hall d Hin) as (hash & cj & ? & ? & Hs). exists hash, cj. split_and!; try done. by eapply settled_hash.
  - apply applyCronJobs_idle. intros d Hin. destruct (Hall d Hin) as (hash & cj & ? & ? & Hs). exists hash, cj.
    split_and!; try done. by eapply settled_hash.
Qed.
End settle.

(** ** A concrete Backup *)

Module Toy.
#[local] Existing Instances PgConfigTheorems.Toy.toy_text PgConfigTheorems.Toy.toy_set PgConfigTheorems.Toy.toy_lookup
  PgConfigTheorems.Toy.toy_laws PodTemplateTheorems.Toy.toy_urls.
#[local] Instance toy_sha : Sha256 := {| sha256 := λ s, s |}.
#[local] Instance toy_marshal : MarshalSpec := λ spec, inl (cjs_Schedule spec).

Definition backup (name : string) (created : Z) : Backup :=
  {| bk_Name := name; bk_Namespace := "db"; bk_Created := created; bk_Deleting := false; bk_Type := BackupTypePhysical;
     bk_ClusterRef := Some "pg"; bk_Physical := None;
     bk_Retention := {| ret_Disabled := None; ret_KeepLast := None; ret_KeepDays := None |}; bk_DestinationType := DestinationTypeS3;
     bk_S3 := Some {| s3_Bucket := "b"; s3_Prefix := ""; s3_Region := "eu"; s3_Endpoint := "" |}; bk_EncryptionKey := None |}.

Definition object : BackupObject :=
  {| bo_Backup := backup "nightly" 1; bo_Refs := {| br_Credentials := Some "s3"; br_CA := None; br_EncryptionKey := None |};
     bo_UID := "u"; bo_Generation := 1; bo_Finalizers := []; bo_DatabaseRef := None; bo_Schedule := ""; bo_FullSchedule := "";
     bo_IncrementalSchedule := "30 3 * * *"; bo_TTL := None;
     bo_Status := {| bs_Times := {| bt_LastFull := None; bt_LastIncremental := None |}; bs_Conditions := [] |} |}.

Definition cluster : ConfCluster :=
  let c := pc_conf PodTemplateTheorems.Toy.cluster in
  {| cf_cluster := cf_cluster c; cf_repl := cf_repl c;
     cf_image := {| ci_Name := "pg"; ci_Image := "postgres:18"; ci_PostgresMajorVersion := None |};
     cf_Generation := cf_Generation c; cf_Parameters := cf_Parameters c; cf_TLS := cf_TLS c |}.

(** The full backups' CronJob exists, suspended, with an older schedule. *)
Definition old : CronJob :=
  {| cj_Name := "nightly-full"; cj_OwnerUID := "u"; cj_Labels := {[ "team" := "a" ]}; cj_Annotations := {[ annotationSpecHash := "x" ]};
     cj_Suspend := Some true;
     cj_Spec := {| cjs_Schedule := "0 1 * * *";
                   cjs_Job := physicalJob (bo_Backup object) (bo_Refs object) {| s3_Bucket := "b"; s3_Prefix := ""; s3_Region := "eu";
                     s3_Endpoint := "" |} (cf_cluster cluster) {| lay_MountPath := ""; lay_PGDATA := "" |} BackupRunTypeFull |} |}.

Definition store : gmap string CronJob := {[ "nightly-full" := old ]}.

Definition runs_api {W} : BackupAPI W :=
  {| ba_now := mret 5; ba_ListJobs := mret (inl []); ba_GetRun := λ _, mret (inl None); ba_CreateRun := λ _, mret (inl false);
     ba_PatchRunJob := λ _ _, mret None |}.

Definition ops : backupOps CronStore :=
  store_ops
    {| bx_GetBackup := mret (inl (Some object)); bx_PatchFinalizers := λ _, mret None; bx_UpdateStatus := λ _, mret None;
       bx_GetDatabase := λ _, mret (inr (Errorf "not found" [])); bx_GetCluster := λ _, mret (inl (cluster, []));
       bx_ListBackups := mret (inl [backup "weekly" 2; backup "nightly" 1]); bx_GetCronJob := λ _, mret (inl None);
       bx_CreateCronJob := λ _, mret None; bx_UpdateCronJob := λ _, mret None; bx_GetConfigMap := λ _, mret (inl None);
       bx_DeleteConfigMap := λ _, mret None; bx_runs := runs_api |}.

Definition pass := reconcileBackup (bk_ops ops) ((store, 0%nat), []).

(** The existing CronJob gets its schedule and stays suspended; the other is created. *)
Lemma backups_scheduled_as_declared_witness :
  ∃ pre cj e post, pass.2.2 = pre ++ EUpdateCron cj e :: post ∧ cjs_Schedule (cj_Spec cj) = "0 2 * * 0" ∧ cj_Suspend cj = Some true ∧
    ∃ o d, scheduled pre o d ∧ cj_Spec cj = cj_Spec d.
Proof.
  assert (called (λ ev, match ev with EUpdateCron cj _ =>
    bool_decide (cjs_Schedule (cj_Spec cj) = "0 2 * * 0") && bool_decide (cj_Suspend cj = Some true) | _ => false end) pass.2.2 = true)
    as Hc by (vm_compute; reflexivity).
  apply called_inv in Hc as (pre & ev & post & Htr & Ht). destruct ev; try discriminate Ht. apply andb_true_iff in Ht as [H1 H2].
  apply bool_decide_eq_true in H1, H2. exists pre, cj, e, post. split; [exact Htr|]. split; [exact H1|]. split; [exact H2|].
  destruct (backups_scheduled_as_declared ops (store, 0%nat) _ _ _ pre _ post (run_split _) Htr)
    as (o & d & hash & old' & Hs & _ & _ & _ & Hspec & _).
  exists o, d. split; [exact Hs|exact Hspec].
Defined.

Definition s3 : S3Destination := {| s3_Bucket := "b"; s3_Prefix := ""; s3_Region := "eu"; s3_Endpoint := "" |}.
Definition layout : postgresLayout := match resolvePostgresLayout (cf_image cluster) with inl l => l | inr _ => {| lay_MountPath := ""; lay_PGDATA := "" |} end.
Definition jobs : list CronJob := physicalCronJobs object s3 (cf_cluster cluster) layout.

Lemma cronjobs_settle_witness :
  (∃ s' n', applyCronJobs ops jobs (store, 0%nat) = (None, (s', n')) ∧ applyCronJobs ops jobs (s', n') = (None, (s', n'))) ∧
  (applyCronJobs ops jobs (store, 0%nat)).2.2 = 2%nat.
Proof.
  split; [|vm_compute; reflexivity].
  destruct (cronjobs_settle ops [ECluster "pg" (inl (cluster, [])); EBackups (inl [backup "nightly" 1])] object jobs store 0)
    as (s' & n' & Hrun & _ & _ & Hidle).
  - exists "pg", s3, cluster, [], [backup "nightly" 1], layout. split; [reflexivity|]. split; [reflexivity|]. split; [left|].
    split; [vm_compute; reflexivity|]. split; [right; left|]. split; [intros owner Ho; vm_compute in Ho; by injection Ho as <-|].
    split; [vm_compute; reflexivity|reflexivity].
  - intros d _. eexists. reflexivity.
  - intros name cj Hs. unfold store in Hs. apply lookup_singleton_Some in Hs as [<- <-]. reflexivity.
  - exists s', n'. split; [exact Hrun|exact Hidle].
Defined.
End Toy.
