(* ===== verification/SqlClient.v ===== *)
(** * The SQL client (src/internal/postgres: client.go, privileges.go, replication.go,
    extensions.go, objects.go, role_cleanup.go, role_reassign.go, scram.go)

    The methods of [Client] over a database/sql connection: each sends one statement or
    catalog query and reads the rows. They are the operations that the reconcilers'
    records ([membershipClient], [privilegeExecutor], [roleSettingsClient], ...) stand for,
    which are built from them at the end of the first part. The second part is a reader of
    PostgreSQL's lexical syntax, and shows that every statement reads back as the keywords
    of its kind with each name as one quoted identifier, whatever the names are. *)

From Stdlib Require Import Ascii.
From S2P Require Import Prelude GoStrings GoStrconv Quoting Parameters Privileges RoleSql Trace GrantEngine ApiTypes RolePolicy Objects Settings Memberships.
From S2P Require Import Grants ObjectGrants ExtensionSql PublicPrivileges Extensions ExtensionGrants Pgbackrest Replication ReplicationReconcile RoleCleanup DatabaseReconcile PgConfig ArchiveHealth.

(** ** SCRAM verifiers (scram.go)

    The primitives: [crypto/pbkdf2.Key] with SHA-256 and a key of 32 bytes, HMAC-SHA-256,
    base64, and [stringprep.SASLprep.Prepare]. *)

Class ScramPrimitives := {
  pbkdf2_Key : string → string → Z → result string;
  hmacSHA256 : string → string → string;
  base64_EncodeToString : string → string;
  SASLprep_Prepare : string → result string }.

Definition scramIterations : Z := 4096.
Definition scramSaltLen : nat := 16.
(** U+200B in UTF-8. *)
Definition zeroWidthSpace : string := str1 "226" +:+ str1 "128" +:+ str1 "139".

Section scram.
Context `{ScramPrimitives} `{Sha256}.

Definition saslPrep (password : string) : string :=
  if sforall (λ c, (bz c <? 128)%Z) password then password
  else match SASLprep_Prepare (replace_go zeroWidthSpace " " 0 password) with
       | inl prepped => if decide (prepped = "") then password else prepped
       | inr _ => password
       end.

Definition scramSHA256Verifier (password salt : string) (iterations : Z) : result string :=
  match pbkdf2_Key (saslPrep password) salt iterations with
  | inr e => inr (Wrapf "failed to derive SCRAM key: %w" [] e)
  | inl salted =>
      let storedKey := sha256 (hmacSHA256 salted "Client Key") in
      let serverKey := hmacSHA256 salted "Server Key" in
      inl (scramPrefix +:+ Itoa iterations +:+ ":" +:+ base64_EncodeToString salt +:+ "$"
             +:+ base64_EncodeToString storedKey +:+ ":" +:+ base64_EncodeToString serverKey)
  end.

(** [random n]: [rand.Read] of [n] bytes. *)
Definition ScramSHA256Verifier {W} (random : nat → M W (result string)) (password : string) : M W (result string) :=
  r ← random scramSaltLen;
  mret (match r with
        | inr e => inr (Wrapf "failed to generate SCRAM salt: %w" [] e)
        | inl salt => scramSHA256Verifier password salt scramIterations
        end).
End scram.

(** ** A connection of database/sql *)

(** A value as the driver delivers or takes it. *)
Inductive cell := CNull | CText (s : string) | CBool (b : bool) | CInt (n : Z) | CArray (l : list string) | CInts (l : list Z) | CBools (l : list bool).

(** [db_Query]: the rows read and the error that ended them ([rows.Err]), or the error of
    the query itself. [db_ExecDetail]: the error of a statement with PostgreSQL's detail. *)
Record SqlDB (W : Type) := {
  db_Exec : string → list cell → M W error;
  db_ExecDetail : string → M W (option (gerr * string));
  db_Query : string → list cell → M W (result (list (list cell) * error));
  db_Begin : M W error;
  db_TxExec : string → M W error;
  db_Rollback : M W ();
  db_Commit : M W error }.
Arguments db_Exec {W}. Arguments db_ExecDetail {W}. Arguments db_Query {W}. Arguments db_Begin {W}. Arguments db_TxExec {W}. Arguments db_Rollback {W}.
Arguments db_Commit {W}.

(** [sql.ErrNoRows], and the error of a value that does not fit its variable. *)
Definition ErrNoRows : gerr := Errorf "sql: no rows in result set" [].
Definition ErrScan : gerr := Errorf "sql: Scan error" [].

Definition nullString (c : cell) : option string :=
  match c with CNull => Some "" | CText s => Some s | _ => None end.
Definition nullBool (c : cell) : option (option bool) :=
  match c with CNull => Some None | CBool b => Some (Some b) | _ => None end.

Section client.
Context `{UnicodePrint} `{UnicodeLower} {W : Type} (db : SqlDB W).

Definition exec (query : string) : M W error := db_Exec db query [].

(** [fmt.Errorf] around the error of a call, if there is one. *)
Definition wrapping (fmt : string) (args : list string) (m : M W error) : M W error :=
  e ← m; mret (Wrapf fmt args <$> e).

(** [QueryRowContext(...).Scan(...)]: [None] is [sql.ErrNoRows]. *)
Definition queryRow {A} (scan : list cell → option A) (query : string) (args : list cell) : M W (result (option A)) :=
  r ← db_Query db query args;
  mret (match r with
        | inr e | inl ([], Some e) => inr e
        | inl ([], None) => inl None
        | inl (row :: _, _) => match scan row with Some a => inl (Some a) | None => inr ErrScan end
        end).

(** No row is an error like any other. *)
Definition queryRaw {A} (scan : list cell → option A) (query : string) (args : list cell) : M W (result A) :=
  r ← queryRow scan query args;
  mret (match r with inl (Some a) => inl a | inl None => inr ErrNoRows | inr e => inr e end).

(** The same with every error wrapped alike. *)
Definition queryOne {A} (scan : list cell → option A) (query : string) (args : list cell) (fmt : string) (fargs : list string)
    : M W (result A) :=
  r ← queryRaw scan query args;
  mret (match r with inl a => inl a | inr e => inr (Wrapf fmt fargs e) end).

(** The same where no row means that there is no such object. *)
Definition queryMaybe {A} (scan : list cell → option A) (query : string) (args : list cell) (fmt : string) (fargs : list string)
    : M W (result (option A)) :=
  r ← queryRow scan query args;
  mret (match r with inl a => inl a | inr e => inr (Wrapf fmt fargs e) end).

(** The loop over the rows: a row that does not scan ends it, then [rows.Err]. *)
Fixpoint scanRows {A} (scan : list cell → option A) (scanErr : gerr) (endErr : gerr → gerr) (rows : list (list cell)) (last : error)
    : result (list A) :=
  match rows with
  | [] => match last with Some e => inr (endErr e) | None => inl [] end
  | row :: rows =>
      match scan row with
      | None => inr scanErr
      | Some a => match scanRows scan scanErr endErr rows last with inl l => inl (a :: l) | inr e => inr e end
      end
  end.

Definition queryRows {A} (scan : list cell → option A) (query : string) (args : list cell) (listErr : gerr → gerr) (scanErr : gerr)
    (endErr : gerr → gerr) : M W (result (list A)) :=
  r ← db_Query db query args;
  mret (match r with inr e => inr (listErr e) | inl (rows, last) => scanRows scan scanErr endErr rows last end).

(** *** The server (client.go) *)

Definition scanString (row : list cell) : option string := match row with [CText s] => Some s | _ => None end.
Definition scanBool (row : list cell) : option bool := match row with [CBool b] => Some b | _ => None end.

Definition Client_ReloadConfig : M W error :=
  r ← queryOne scanBool "SELECT pg_reload_conf()" [] "failed to reload configuration: %w" [];
  mret (match r with
        | inr e => Some e
        | inl ok => if ok : bool then None else Some (Errorf "pg_reload_conf() returned false" [])
        end).

Definition Client_ConfigFile : M W (result string) :=
  queryOne scanString "SHOW config_file" [] "failed to read config_file: %w" [].

Definition scanFileSetting (row : list cell) : option FileSetting :=
  match row with
  | [file; name; setting; e] =>
      file ← nullString file; name ← nullString name; setting ← nullString setting; e ← nullString e;
      Some {| fs_SourceFile := file; fs_Name := name; fs_Setting := setting; fs_Error := e |}
  | _ => None
  end.

Definition Client_FileSettings : M W (result (list FileSetting)) :=
  queryRows scanFileSetting "SELECT sourcefile, name, setting, error FROM pg_file_settings ORDER BY sourcefile, sourceline" []
    (Wrapf "failed to read pg_file_settings: %w" []) (Wrapf "failed to scan pg_file_settings: %w" [] ErrScan)
    (Wrapf "failed to read pg_file_settings: %w" []).

Definition scanSetting (row : list cell) : option Setting :=
  match row with
  | [CText name; CText context; source; file; CBool pending] =>
      source ← nullString source; file ← nullString file;
      Some {| set_Name := name; set_Context := context; set_Source := source; set_SourceFile := file; set_PendingRestart := pending |}
  | _ => None
  end.

Definition Client_Settings : M W (result (list Setting)) :=
  queryRows scanSetting "SELECT name, context, source, sourcefile, pending_restart FROM pg_settings ORDER BY name" []
    (Wrapf "failed to read pg_settings: %w" []) (Wrapf "failed to scan pg_settings: %w" [] ErrScan)
    (Wrapf "failed to read pg_settings: %w" []).

Definition Client_ServerVersionNum : M W (result Z) :=
  r ← queryOne scanString "SHOW server_version_num" [] "failed to read server version: %w" [];
  mret (match r with
        | inr e => inr e
        | inl v => match Atoi (TrimSpace v) with
                   | Some n => inl n
                   | None => inr (Wrapf "failed to parse server_version_num %q: %w" [v] (Errorf "strconv.Atoi" []))
                   end
        end).

(** *** Roles *)

Definition Client_RoleComment (name : string) : M W (result (option string)) :=
  queryMaybe scanString "SELECT COALESCE(pg_catalog.shobj_description(oid, 'pg_authid'), '') FROM pg_catalog.pg_roles WHERE rolname = $1"
    [CText name] "failed to look up role %q: %w" [name].

Definition Client_RoleExists (name : string) : M W (result bool) :=
  queryOne scanBool "SELECT EXISTS(SELECT 1 FROM pg_roles WHERE rolname = $1)" [CText name] "failed to check role existence: %w" [].

Definition scanRole (row : list cell) : option ReachableRole :=
  match row with
  | [CText name; CText comment; CBool super; CBool createRole; CBool replication; CBool bypass] =>
      Some {| rr_Name := name; rr_Via := ""; rr_Comment := comment; rr_Superuser := super; rr_CreateRole := createRole;
              rr_Replication := replication; rr_BypassRLS := bypass |}
  | _ => None
  end.

Definition Client_LookupRole (name : string) : M W (result (option ReachableRole)) :=
  queryMaybe scanRole "SELECT r.rolname, COALESCE(pg_catalog.shobj_description(r.oid, 'pg_authid'), ''), r.rolsuper, r.rolcreaterole, r.rolreplication, r.rolbypassrls
FROM pg_catalog.pg_roles r WHERE r.rolname = $1"
    [CText name] "failed to look up role %q: %w" [name].

Definition scanReachable (row : list cell) : option ReachableRole :=
  match row with
  | [CText name; CText via; CText comment; CBool super; CBool createRole; CBool replication; CBool bypass] =>
      Some {| rr_Name := name; rr_Via := via; rr_Comment := comment; rr_Superuser := super; rr_CreateRole := createRole;
              rr_Replication := replication; rr_BypassRLS := bypass |}
  | _ => None
  end.

Definition Client_MembershipClosure (name : string) : M W (result (list ReachableRole)) :=
  queryRows scanReachable "WITH RECURSIVE reach(oid, via) AS (
    SELECT oid, NULL::name FROM pg_catalog.pg_roles WHERE rolname = $1
  UNION
    SELECT m.roleid, COALESCE(reach.via, r.rolname)
    FROM reach
    JOIN pg_catalog.pg_auth_members m ON m.member = reach.oid
    JOIN pg_catalog.pg_roles r ON r.oid = m.roleid
)
SELECT r.rolname, COALESCE(reach.via, ''), COALESCE(pg_catalog.shobj_description(r.oid, 'pg_authid'), ''), r.rolsuper, r.rolcreaterole, r.rolreplication, r.rolbypassrls
FROM reach JOIN pg_catalog.pg_roles r ON r.oid = reach.oid
ORDER BY reach.via NULLS FIRST, r.rolname" [CText name]
    (Wrapf "failed to list the roles %q is a member of: %w" [name]) (Wrapf "failed to scan role: %w" [] ErrScan)
    (Wrapf "failed to list the roles %q is a member of: %w" [name]).

Definition Client_GrantRole (role member : string) (opts : MembershipOptions) : M W error :=
  wrapping "failed to grant role %q to %q: %w" [role; member] (exec (buildGrantRoleQuery role member opts)).

Definition Client_RevokeAdminOption (role member : string) : M W error :=
  wrapping "failed to revoke admin option for role %q from %q: %w" [role; member] (exec (RevokeAdminOption_query role member)).

Definition Client_RevokeRole (role member : string) : M W error :=
  wrapping "failed to revoke role %q from %q: %w" [role; member] (exec (RevokeRole_query role member)).

Definition bootstrapSuperuserOID : Z := 10.

Definition listMembershipsQuery (serverVersion : Z) : string :=
  if (MinMembershipOptionsVersion <=? serverVersion)%Z then
    "SELECT r.rolname, m.admin_option, m.inherit_option, m.set_option
FROM pg_auth_members m
JOIN pg_roles r ON r.oid = m.roleid
JOIN pg_roles u ON u.oid = m.member
WHERE u.rolname = $1
  AND m.grantor IN (" +:+ Itoa bootstrapSuperuserOID +:+ ", (SELECT oid FROM pg_roles WHERE rolname = current_user))"
  else
    "SELECT r.rolname, m.admin_option, NULL::boolean, NULL::boolean
FROM pg_auth_members m
JOIN pg_roles r ON r.oid = m.roleid
JOIN pg_roles u ON u.oid = m.member
WHERE u.rolname = $1".

Definition scanMembership (row : list cell) : option (string * MembershipState) :=
  match row with
  | [CText name; CBool admin; inherit; set] =>
      inherit ← nullBool inherit; set ← nullBool set;
      Some (name, {| mst_Admin := admin; mst_Inherit := inherit; mst_Set := set |})
  | _ => None
  end.

(** The rows by role name: a later row replaces an earlier one. *)
Definition by_name {A} (rows : list (string * A)) : gmap string A := foldl (λ m p, <[p.1 := p.2]> m) ∅ rows.

Definition Client_ListMemberships (member : string) (serverVersion : Z) : M W (result (gmap string MembershipState)) :=
  r ← queryRows scanMembership (listMembershipsQuery serverVersion) [CText member]
        (Wrapf "failed to list memberships of %q: %w" [member]) (Wrapf "failed to scan membership: %w" [] ErrScan)
        (Wrapf "failed to list memberships of %q: %w" [member]);
  mret (match r with inl rows => inl (by_name rows) | inr e => inr e end).

(** *** Databases and schemas *)

Definition Client_DatabaseComment (name : string) : M W (result (option string)) :=
  queryMaybe scanString "SELECT COALESCE(pg_catalog.shobj_description(oid, 'pg_database'), '') FROM pg_catalog.pg_database WHERE datname = $1"
    [CText name] "failed to look up database %q: %w" [name].

Definition Client_DatabaseAllowsConnections (name : string) : M W (result bool) :=
  r ← queryMaybe scanBool "SELECT datallowconn FROM pg_catalog.pg_database WHERE datname = $1" [CText name]
        "failed to look up database %q: %w" [name];
  mret (match r with inl allow => inl (default false allow) | inr e => inr e end).

Definition Client_CommentOnDatabase (name comment : string) : M W error :=
  wrapping "failed to comment on database %q: %w" [name] (exec (buildCommentQuery "DATABASE" name comment)).

Definition Client_DatabaseExists (name : string) : M W (result bool) :=
  queryOne scanBool "SELECT EXISTS(SELECT 1 FROM pg_database WHERE datname = $1)" [CText name] "failed to check database existence: %w" [].

Definition createDatabaseQuery (name owner : string) : string :=
  "CREATE DATABASE " +:+ quoteIdent name +:+ (if decide (owner = "") then "" else " OWNER " +:+ quoteIdent owner).

Definition alterDatabaseOwnerQuery (name owner : string) : string :=
  "ALTER DATABASE " +:+ quoteIdent name +:+ " OWNER TO " +:+ quoteIdent owner.

(** A failed CREATE: [ErrObjectExists] when the object is there, else wrapped in [fmt]. *)
Definition createError (what fmt : string) (e : error) : error :=
  match e with
  | None => None
  | Some err => match duplicateObjectError what err with Some dup => Some dup | None => Some (Wrapf fmt [] err) end
  end.

Definition Client_CreateDatabase (name owner : string) (createOnly : bool) : M W error :=
  let create := e ← exec (createDatabaseQuery name owner);
                mret (createError ("database " +:+ Quote name) "failed to create database: %w" e) in
  if createOnly then create
  else
    r ← queryOne scanBool "SELECT EXISTS(SELECT 1 FROM pg_database WHERE datname = $1)" [CText name]
          "failed to check database existence: %w" [];
    match r with
    | inr e => mret (Some e)
    | inl true =>
        if decide (owner = "") then mret None
        else wrapping "failed to alter database owner: %w" [] (exec (alterDatabaseOwnerQuery name owner))
    | inl false => create
    end.

Definition dropDatabaseQuery (name : string) : string := "DROP DATABASE IF EXISTS " +:+ quoteIdent name.

Definition Client_DropDatabase (name : string) : M W error :=
  wrapping "failed to drop database: %w" [] (exec (dropDatabaseQuery name)).

Definition scanSchemaInfo (row : list cell) : option SchemaInfo :=
  match row with [CText owner; CBool bootstrap] => Some {| si_Owner := owner; si_OwnerIsBootstrap := bootstrap |} | _ => None end.

Definition Client_SchemaOwner (name : string) : M W (result (option SchemaInfo)) :=
  queryMaybe scanSchemaInfo "SELECT pg_catalog.pg_get_userbyid(nspowner), nspowner = 10 FROM pg_catalog.pg_namespace WHERE nspname = $1"
    [CText name] "failed to look up schema %q: %w" [name].

Definition Client_CurrentDatabaseOwner : M W (result string) :=
  queryOne scanString "SELECT pg_catalog.pg_get_userbyid(datdba) FROM pg_catalog.pg_database WHERE datname = pg_catalog.current_database()" []
    "failed to look up the database owner: %w" [].

Definition createSchemaQuery (name owner : string) : string :=
  "CREATE SCHEMA " +:+ quoteIdent name +:+ (if decide (owner = "") then "" else " AUTHORIZATION " +:+ quoteIdent owner).

Definition Client_CreateSchema (name owner : string) : M W error :=
  e ← exec (createSchemaQuery name owner);
  mret (createError ("schema " +:+ Quote name) "failed to create schema: %w" e).

Definition alterSchemaOwnerQuery (name owner : string) : string :=
  "ALTER SCHEMA " +:+ quoteIdent name +:+ " OWNER TO " +:+ quoteIdent owner.

Definition Client_AlterSchemaOwner (name owner : string) : M W error :=
  wrapping "failed to alter schema owner: %w" [] (exec (alterSchemaOwnerQuery name owner)).

Definition Client_SchemaExists (name : string) : M W (result bool) :=
  queryOne scanBool "SELECT EXISTS(SELECT 1 FROM pg_catalog.pg_namespace WHERE nspname = $1)" [CText name]
    "failed to check schema existence: %w" [].

(** *** Privileges and settings (privileges.go) *)

(** A statement that may be refused before it is sent. *)
Definition execBuilt (query : result string) (fmt : string) (args : list string) : M W error :=
  match query with inr e => mret (Some e) | inl q => wrapping fmt args (exec q) end.

Definition Client_GrantPrivileges (obj : PrivilegeObject) (grantee : string) (privileges : list string) (withGrantOption : bool) : M W error :=
  execBuilt (buildGrantPrivilegesQuery obj grantee privileges withGrantOption)
    "failed to grant privileges on %s to %q: %w" [PrivilegeObject_String obj; grantee].

Definition Client_RevokePrivileges (obj : PrivilegeObject) (grantee : string) (privileges : list string) (mode : RevokeMode) : M W error :=
  execBuilt (buildRevokePrivilegesQuery obj grantee privileges mode)
    "failed to revoke privileges on %s from %q: %w" [PrivilegeObject_String obj; grantee].

Definition granteeOIDExpr : string :=
  "CASE WHEN $2 THEN 0::oid ELSE (SELECT r.oid FROM pg_catalog.pg_roles r WHERE r.rolname = $3) END".

Definition heldPrivilegesQueries (k : ObjectKind) : option string :=
  if decide (k = ObjectDatabase) then Some
    ("SELECT a.privilege_type, a.is_grantable OR a.grantee = d.datdba FROM pg_catalog.pg_database d
LEFT JOIN LATERAL pg_catalog.aclexplode(COALESCE(d.datacl, pg_catalog.acldefault('d', d.datdba))) a
  ON a.grantor = d.datdba AND a.grantee = " +:+ granteeOIDExpr +:+ "
WHERE d.datname = $1")
  else if decide (k = ObjectSchema) then Some
    ("SELECT a.privilege_type, a.is_grantable OR a.grantee = n.nspowner FROM pg_catalog.pg_namespace n
LEFT JOIN LATERAL pg_catalog.aclexplode(COALESCE(n.nspacl, pg_catalog.acldefault('n', n.nspowner))) a
  ON a.grantor = n.nspowner AND a.grantee = " +:+ granteeOIDExpr +:+ "
WHERE n.nspname = $1")
  else if decide (k = ObjectParameter) then Some
    ("SELECT a.privilege_type, a.is_grantable FROM (SELECT 1) one
LEFT JOIN (pg_catalog.pg_parameter_acl p CROSS JOIN LATERAL pg_catalog.aclexplode(p.paracl) a)
  ON lower(p.parname) = lower($1) AND a.grantor = 10 AND a.grantee = " +:+ granteeOIDExpr)
  else None.

(** A row of NULLs is an object on which the grantee holds nothing. *)
Definition scanHeld (row : list cell) : option (option (string * bool)) :=
  match row with
  | [CNull; g] => _ ← nullBool g; Some None
  | [CText p; g] => g ← nullBool g; Some (Some (p, default false g))
  | _ => None
  end.

(** [slices.Compact] after [slices.Sort]. *)
Definition sortedOnce (l : list string) : list string := slices_Compact (slices_Sort l).

Definition held_of (rows : list (string * bool)) : list string * list string :=
  (sortedOnce rows.*1, sortedOnce (filter (λ p, p.2 = true) rows).*1).

Definition Client_HeldPrivileges (obj : PrivilegeObject) (grantee : string) : M W (result (list string * list string * bool)) :=
  match heldPrivilegesQueries (po_Kind obj) with
  | None => mret (inr (Errorf "unsupported object kind %q" [po_Kind obj]))
  | Some query =>
      match (if decide (po_Kind obj = ObjectParameter) then NormalizeParameterName (po_Name obj) else inl (po_Name obj)) with
      | inr e => mret (inr e)
      | inl name =>
          let readErr := Wrapf "failed to read the privileges of %q on %s: %w" [grantee; PrivilegeObject_String obj] in
          r ← queryRows scanHeld query [CText name; CBool (IsPublic grantee); CText grantee]
                readErr (Wrapf "failed to scan privilege: %w" [] ErrScan) readErr;
          mret (match r with
                | inr e => inr e
                | inl rows => inl (held_of (omap id rows), bool_decide (rows ≠ []))
                end)
      end
  end.

Definition heldFromAnyGrantorQueries (k : ObjectKind) : option string :=
  if decide (k = ObjectDatabase) then Some
    ("SELECT EXISTS(SELECT 1 FROM pg_catalog.pg_database d,
  pg_catalog.aclexplode(COALESCE(d.datacl, pg_catalog.acldefault('d', d.datdba))) a
WHERE d.datname = $1 AND a.grantee = " +:+ granteeOIDExpr +:+ " AND a.privilege_type = $4)")
  else if decide (k = ObjectSchema) then Some
    ("SELECT EXISTS(SELECT 1 FROM pg_catalog.pg_namespace n,
  pg_catalog.aclexplode(COALESCE(n.nspacl, pg_catalog.acldefault('n', n.nspowner))) a
WHERE n.nspname = $1 AND a.grantee = " +:+ granteeOIDExpr +:+ " AND a.privilege_type = $4)")
  else None.

Definition Client_HeldFromAnyGrantor (obj : PrivilegeObject) (grantee privilege : string) : M W (result bool) :=
  match heldFromAnyGrantorQueries (po_Kind obj) with
  | None => mret (inr (Errorf "unsupported object kind %q" [po_Kind obj]))
  | Some query =>
      queryOne scanBool query [CText (po_Name obj); CBool (IsPublic grantee); CText grantee; CText privilege]
        "failed to read the privileges of %q on %s: %w" [grantee; PrivilegeObject_String obj]
  end.

Definition inDatabase (database : string) : string := if decide (database = "") then "" else " in database " +:+ Quote database.

Definition Client_SetRoleParameter (role database parameter value : string) : M W error :=
  execBuilt (buildAlterRoleSetQuery role database parameter value)
    "failed to set %s for role %q%s: %w" [parameter; role; inDatabase database].

Definition Client_ResetRoleParameter (role database parameter : string) : M W error :=
  execBuilt (buildAlterRoleResetQuery role database parameter)
    "failed to reset %s for role %q%s: %w" [parameter; role; inDatabase database].

Definition Client_SetDatabaseParameter (database parameter value : string) : M W error :=
  execBuilt (buildAlterDatabaseSetQuery database parameter value) "failed to set %s on database %q: %w" [parameter; database].

Definition Client_ResetDatabaseParameter (database parameter : string) : M W error :=
  execBuilt (buildAlterDatabaseResetQuery database parameter) "failed to reset %s on database %q: %w" [parameter; database].

Definition Client_ParameterContext (name : string) : M W context_result :=
  queryMaybe scanString "SELECT context FROM pg_settings WHERE lower(name) = lower($1)" [CText name] "failed to look up parameter %q: %w" [name].

(** *** Replication (replication.go) *)

Definition Client_InRecovery : M W (result bool) :=
  queryOne scanBool "SELECT pg_is_in_recovery()" [] "failed to read pg_is_in_recovery(): %w" [].

Definition scanSlot (row : list cell) : option ReplicationSlot :=
  match row with
  | [CText name; CBool physical; CBool active; CText status] =>
      Some {| rs_slot_Name := name; rs_slot_Physical := physical; rs_slot_Active := active; rs_slot_WALStatus := status |}
  | _ => None
  end.

Definition Client_ReplicationSlots : M W (result (list ReplicationSlot)) :=
  queryRows scanSlot
    "SELECT slot_name, slot_type = 'physical', active, COALESCE(wal_status, '') FROM pg_replication_slots ORDER BY slot_name" []
    (Wrapf "failed to read pg_replication_slots: %w" []) (Wrapf "failed to scan pg_replication_slots: %w" [] ErrScan)
    (Wrapf "failed to read pg_replication_slots: %w" []).

Definition Client_CreatePhysicalReplicationSlot (name : string) (reserve : bool) : M W error :=
  wrapping "failed to create replication slot %q: %w" [name]
    (db_Exec db "SELECT pg_create_physical_replication_slot($1, $2)" [CText name; CBool reserve]).

Definition Client_DropReplicationSlot (name : string) : M W error :=
  wrapping "failed to drop replication slot %q: %w" [name] (db_Exec db "SELECT pg_drop_replication_slot($1)" [CText name]).

Definition scanStandby (row : list cell) : option StandbyStatus :=
  match row with
  | [name; state] => name ← nullString name; state ← nullString state; Some {| sb_ApplicationName := name; sb_State := state |}
  | _ => None
  end.

Definition Client_ReplicationStatus : M W (result (list StandbyStatus)) :=
  queryRows scanStandby "SELECT application_name, state FROM pg_stat_replication ORDER BY application_name" []
    (Wrapf "failed to read pg_stat_replication: %w" []) (Wrapf "failed to scan pg_stat_replication: %w" [] ErrScan)
    (Wrapf "failed to read pg_stat_replication: %w" []).

(** *** Objects and default privileges (objects.go) *)

Definition Client_ResolveRoutine (schema name args : string) : M W (result (option Z)) :=
  queryOne (λ row, match row with [CNull] => Some None | [CInt n] => Some (Some n) | _ => None end)
    "SELECT pg_catalog.to_regprocedure(pg_catalog.quote_ident($1) || '.' ||
  pg_catalog.quote_ident($2) || '(' || $3 || ')')::oid::int8" [CText schema; CText name; CText args]
    "failed to resolve %s(%s) in schema %q: %w" [name; args; schema].

Definition scanOID (row : list cell) : option (string * Z) := match row with [CText name; CInt oid] => Some (name, oid) | _ => None end.

Definition Client_RoleOIDs (names : list string) : M W (result (gmap string Z)) :=
  r ← queryRows scanOID "SELECT rolname::text, oid::int8 FROM pg_catalog.pg_roles WHERE rolname = ANY($1)" [CArray names]
        (Wrapf "failed to look up roles: %w" []) (Wrapf "failed to scan role: %w" [] ErrScan) id;
  mret (match r with inl rows => inl (by_name rows) | inr e => inr e end).

Definition scanDefault (row : list cell) : option (string * bool) := match row with [CText p; CBool g] => Some (p, g) | _ => None end.

Definition Client_HeldDefaultPrivileges (t : DefaultPrivilegesTarget) (grantee : string) : M W (result (list string * list string)) :=
  match defaultObjectKinds (dt_Kind t) with
  | None => mret (inr (Errorf "unsupported default privilege kind %q" [dt_Kind t]))
  | Some (objtype, _) =>
      let readErr := Wrapf "failed to read %s: %w" [DefaultPrivilegesTarget_String t] in
      r ← queryRows scanDefault "SELECT a.privilege_type::text, a.is_grantable FROM pg_catalog.pg_default_acl d
JOIN pg_catalog.pg_namespace n ON n.oid = d.defaclnamespace
CROSS JOIN LATERAL pg_catalog.aclexplode(d.defaclacl) a
WHERE d.defaclrole = (SELECT r.oid FROM pg_catalog.pg_roles r WHERE r.rolname = $1) AND n.nspname = $2
  AND d.defaclobjtype = $3 AND a.grantor = d.defaclrole
  AND a.grantee = CASE WHEN $4 THEN 0::oid ELSE (SELECT r.oid FROM pg_catalog.pg_roles r WHERE r.rolname = $5) END"
            [CText (dt_ForRole t); CText (dt_Schema t); CText objtype; CBool (IsPublic grantee); CText grantee]
            readErr (Wrapf "failed to scan default privilege: %w" [] ErrScan) readErr;
      mret (match r with inl rows => inl (held_of rows) | inr e => inr e end)
  end.

(** *** Before DROP ROLE (role_cleanup.go, role_reassign.go) *)

Definition Client_listStrings (query : string) (arg : cell) : M W (result (list string)) :=
  queryRows scanString query [arg] id ErrScan id.

Definition scanDatabaseRef (row : list cell) : option DatabaseRef :=
  match row with [CText name; CBool allow] => Some {| dbr_Name := name; dbr_AllowConns := allow |} | _ => None end.

Definition Client_DatabasesWithObjectPrivileges (role : string) : M W (result (list DatabaseRef)) :=
  queryRows scanDatabaseRef "SELECT DISTINCT d.datname, d.datallowconn FROM pg_catalog.pg_shdepend s
JOIN pg_catalog.pg_database d ON d.oid = s.dbid
WHERE s.deptype = 'a' AND s.classid IN ('pg_catalog.pg_namespace'::pg_catalog.regclass,
    'pg_catalog.pg_class'::pg_catalog.regclass, 'pg_catalog.pg_proc'::pg_catalog.regclass)
  AND s.refclassid = 'pg_catalog.pg_authid'::pg_catalog.regclass
  AND s.refobjid = (SELECT oid FROM pg_catalog.pg_roles WHERE rolname = $1)
ORDER BY d.datname" [CText role]
    (Wrapf "failed to list schema privileges of %q: %w" [role]) (Wrapf "failed to scan database: %w" [] ErrScan)
    (Wrapf "failed to list schema privileges of %q: %w" [role]).

Definition Client_DatabasesWithOwnedObjects (role : string) : M W (result (list DatabaseRef)) :=
  queryRows scanDatabaseRef "SELECT DISTINCT d.datname, d.datallowconn FROM pg_catalog.pg_shdepend s
JOIN pg_catalog.pg_database d ON d.oid = s.dbid
WHERE s.deptype = 'o'
  AND s.refclassid = 'pg_catalog.pg_authid'::pg_catalog.regclass
  AND s.refobjid = (SELECT oid FROM pg_catalog.pg_roles WHERE rolname = $1)
ORDER BY d.datname" [CText role]
    (Wrapf "failed to list databases with objects owned by %q: %w" [role]) (Wrapf "failed to scan database: %w" [] ErrScan) id.

(** *** Extensions (extensions.go) *)

Definition scanArray (c : cell) : option (list string) := match c with CArray l => Some l | CNull => Some [] | _ => None end.

Definition scanExtensionVersion (name : string) (row : list cell) : option ExtensionVersionInfo :=
  match row with
  | [CText version; CBool trusted; CBool super; CBool relocatable; CText schema; requires] =>
      requires ← scanArray requires;
      Some {| ev_Name := name; ev_Version := version; ev_Trusted := trusted; ev_Superuser := super;
              ev_Relocatable := relocatable; ev_Schema := schema; ev_Requires := requires |}
  | _ => None
  end.

Definition Client_ExtensionVersion (name version : string) : M W (result (option ExtensionVersionInfo)) :=
  queryMaybe (scanExtensionVersion name)
    "SELECT v.version, v.trusted, v.superuser, v.relocatable, COALESCE(v.schema::text, ''),
  COALESCE(v.requires::text[], '{}')
FROM pg_catalog.pg_available_extension_versions v
JOIN pg_catalog.pg_available_extensions e ON e.name = v.name
WHERE v.name = $1 AND v.version = COALESCE(NULLIF($2, ''), e.default_version)" [CText name; CText version]
    "failed to look up extension %q: %w" [name].

Definition scanInstalled (name : string) (row : list cell) : option InstalledExtension :=
  match row with
  | [CText version; CText schema; CInt oid; CText owner] =>
      Some {| ie_Name := name; ie_Version := version; ie_Schema := schema; ie_OID := oid; ie_Owner := owner |}
  | _ => None
  end.

Definition Client_InstalledExtension (name : string) : M W (result (option InstalledExtension)) :=
  queryMaybe (scanInstalled name)
    "SELECT e.extversion, n.nspname, e.oid::pg_catalog.int8, pg_catalog.pg_get_userbyid(e.extowner)
FROM pg_catalog.pg_extension e
JOIN pg_catalog.pg_namespace n ON n.oid = e.extnamespace WHERE e.extname = $1" [CText name]
    "failed to look up installed extension %q: %w" [name].

(** [strings.Split(s, "--")]: pieces between the separators, left to right. *)
Fixpoint split_dashes (acc s : string) : list string :=
  match s with
  | EmptyString => [acc]
  | String "-" (String "-" s') => acc :: split_dashes "" s'
  | String c s' => split_dashes (acc +:+ str1 c) s'
  end.

Definition Client_ExtensionUpdatePaths (name from to : string) : M W (result (list (list string))) :=
  let listErr := Wrapf "failed to look up the update paths of extension %q: %w" [name] in
  r ← queryRows scanString "SELECT path FROM pg_catalog.pg_extension_update_paths($1)
WHERE target = $2 AND path IS NOT NULL AND ($3 = '' OR source = $3) ORDER BY source" [CText name; CText to; CText from]
        listErr (Wrapf "failed to scan update path: %w" [] ErrScan) listErr;
  mret (match r with inl paths => inl (split_dashes "" <$> paths) | inr e => inr e end).

Definition scanWriters (row : list cell) : option SchemaWriters :=
  match row with
  | [CText owner; CBool super; creators] =>
      creators ← scanArray creators;
      Some {| sw_Exists := true; sw_Owner := owner; sw_OwnerSuperuser := super; sw_Creators := creators |}
  | _ => None
  end.

Definition Client_SchemaWriters (name : string) : M W (result SchemaWriters) :=
  r ← queryMaybe scanWriters "SELECT pg_catalog.pg_get_userbyid(n.nspowner), COALESCE(o.rolsuper, false),
  ARRAY(SELECT DISTINCT CASE WHEN a.grantee = 0 THEN 'PUBLIC' ELSE COALESCE(g.rolname::text, a.grantee::text) END
    FROM pg_catalog.aclexplode(COALESCE(n.nspacl, pg_catalog.acldefault('n', n.nspowner))) a
    LEFT JOIN pg_catalog.pg_roles g ON g.oid = a.grantee
    WHERE a.privilege_type = 'CREATE' AND a.grantee <> n.nspowner AND (a.grantee = 0 OR NOT COALESCE(g.rolsuper, false))
    ORDER BY 1)
FROM pg_catalog.pg_namespace n LEFT JOIN pg_catalog.pg_roles o ON o.oid = n.nspowner
WHERE n.nspname = $1" [CText name] "failed to read who can create in schema %q: %w" [name];
  mret (match r with
        | inl w => inl (default {| sw_Exists := false; sw_Owner := ""; sw_OwnerSuperuser := false; sw_Creators := [] |} w)
        | inr e => inr e
        end).

(** The members of extension $1 of one kind: the catalog of the objects ([c] or [p]), what
    else is selected, and the condition. *)
Definition extensionMemberQueries (kind : MemberKind) : option string :=
  let depends class := "
WHERE d.classid = 'pg_catalog." +:+ class +:+ "'::pg_catalog.regclass AND d.refclassid = 'pg_catalog.pg_extension'::pg_catalog.regclass
  AND d.refobjid = (SELECT oid FROM pg_catalog.pg_extension WHERE extname = $1) AND d.deptype = 'e'" in
  let held acl kind owner := "
  ARRAY(SELECT a.privilege_type::text FROM pg_catalog.aclexplode(COALESCE(" +:+ acl +:+ ", pg_catalog.acldefault('" +:+ kind +:+ "', " +:+ owner +:+ "))) a
    WHERE a.grantor = " +:+ owner +:+ " AND a.grantee = " +:+ granteeOIDExpr +:+ " ORDER BY 1)" in
  if decide (kind = MemberTables) then Some
    ("SELECT c.oid::pg_catalog.regclass::text, c.relkind IN ('r', 'p')," +:+ held "c.relacl" "r" "c.relowner" +:+ "
FROM pg_catalog.pg_depend d JOIN pg_catalog.pg_class c ON c.oid = d.objid" +:+ depends "pg_class" +:+ "
  AND c.relkind IN ('r', 'p', 'v', 'm', 'f')
ORDER BY 1")
  else if decide (kind = MemberSequences) then Some
    ("SELECT c.oid::pg_catalog.regclass::text, true," +:+ held "c.relacl" "s" "c.relowner" +:+ "
FROM pg_catalog.pg_depend d JOIN pg_catalog.pg_class c ON c.oid = d.objid" +:+ depends "pg_class" +:+ "
  AND c.relkind = 'S'
ORDER BY 1")
  else if decide (kind = MemberRoutines) then Some
    ("SELECT p.oid::pg_catalog.regprocedure::text,
  p.prokind IN ('f', 'p') AND NOT p.prosecdef AND l.lanname IN ('sql', 'plpgsql')," +:+ held "p.proacl" "f" "p.proowner" +:+ "
FROM pg_catalog.pg_depend d JOIN pg_catalog.pg_proc p ON p.oid = d.objid
JOIN pg_catalog.pg_language l ON l.oid = p.prolang" +:+ depends "pg_proc" +:+ "
ORDER BY 1")
  else None.

Definition scanMember (row : list cell) : option ExtensionMember :=
  match row with
  | [CText identity; CBool eligible; held] =>
      held ← scanArray held; Some {| em_Identity := identity; em_Eligible := eligible; em_Held := held |}
  | _ => None
  end.

Definition Client_ExtensionMembers (extension : string) (kind : MemberKind) (grantee : string) : M W (result (list ExtensionMember)) :=
  match extensionMemberQueries kind with
  | None => mret (inr (Errorf "unsupported extension member kind %q" [kind]))
  | Some query =>
      queryRows scanMember query [CText extension; CBool (IsPublic grantee); CText grantee]
        (Wrapf "failed to list the %s members of extension %q: %w" [ToLower kind; extension])
        (Wrapf "failed to scan extension member: %w" [] ErrScan)
        (Wrapf "failed to list the members of extension %q: %w" [extension])
  end.

(** ** The operations of the reconcilers *)

(** [resolveObjectQueries] and [resolveOIDQueries]: the catalog, the cast that parses the
    identity, and the condition of the kind. *)
Definition resolveObjectQueries (kind : string) : option string :=
  if decide (kind = SchemaTable) then Some "SELECT c.oid::int8, c.oid::pg_catalog.regclass::text FROM pg_catalog.pg_class c
JOIN pg_catalog.pg_namespace n ON n.oid = c.relnamespace
WHERE c.oid = pg_catalog.to_regclass($1) AND n.nspname = $2 AND c.relkind IN ('r', 'p', 'v', 'm', 'f')"
  else if decide (kind = SchemaSequence) then Some "SELECT c.oid::int8, c.oid::pg_catalog.regclass::text FROM pg_catalog.pg_class c
JOIN pg_catalog.pg_namespace n ON n.oid = c.relnamespace
WHERE c.oid = pg_catalog.to_regclass($1) AND n.nspname = $2 AND c.relkind = 'S'"
  else if decide (kind = SchemaFunction) then Some "SELECT p.oid::int8, p.oid::pg_catalog.regprocedure::text FROM pg_catalog.pg_proc p
JOIN pg_catalog.pg_namespace n ON n.oid = p.pronamespace
WHERE p.oid = pg_catalog.to_regprocedure($1) AND n.nspname = $2 AND p.prokind IN ('f', 'a', 'w')"
  else if decide (kind = SchemaProcedure) then Some "SELECT p.oid::int8, p.oid::pg_catalog.regprocedure::text FROM pg_catalog.pg_proc p
JOIN pg_catalog.pg_namespace n ON n.oid = p.pronamespace
WHERE p.oid = pg_catalog.to_regprocedure($1) AND n.nspname = $2 AND p.prokind = 'p'"
  else if decide (kind = SchemaType) then Some "SELECT t.oid::int8, t.oid::pg_catalog.regtype::text FROM pg_catalog.pg_type t
JOIN pg_catalog.pg_namespace n ON n.oid = t.typnamespace
WHERE t.oid = pg_catalog.to_regtype($1) AND n.nspname = $2"
  else None.

Definition resolveOIDQueries (kind : string) : option string :=
  if decide (kind = SchemaTable) then Some "SELECT c.oid::int8, c.oid::pg_catalog.regclass::text FROM pg_catalog.pg_class c
WHERE c.oid = $1::int8::oid AND c.relkind IN ('r', 'p', 'v', 'm', 'f')"
  else if decide (kind = SchemaSequence) then Some "SELECT c.oid::int8, c.oid::pg_catalog.regclass::text FROM pg_catalog.pg_class c
WHERE c.oid = $1::int8::oid AND c.relkind = 'S'"
  else if decide (kind = SchemaFunction) then Some "SELECT p.oid::int8, p.oid::pg_catalog.regprocedure::text FROM pg_catalog.pg_proc p
WHERE p.oid = $1::int8::oid AND p.prokind IN ('f', 'a', 'w')"
  else if decide (kind = SchemaProcedure) then Some "SELECT p.oid::int8, p.oid::pg_catalog.regprocedure::text FROM pg_catalog.pg_proc p
WHERE p.oid = $1::int8::oid AND p.prokind = 'p'"
  else if decide (kind = SchemaType) then Some "SELECT t.oid::int8, t.oid::pg_catalog.regtype::text FROM pg_catalog.pg_type t
WHERE t.oid = $1::int8::oid"
  else None.

Definition scanResolved (row : list cell) : option (Z * string) := match row with [CInt oid; CText s] => Some (oid, s) | _ => None end.
Definition scanTarget (row : list cell) : option (bool * bool) := match row with [CBool super; CBool usage] => Some (super, usage) | _ => None end.

Definition resolved_by (query : option string) (args : list cell) : M W (result (option (Z * string))) :=
  match query with Some query => queryRow scanResolved query args | None => mret (inl None) end.

(** *** The objects of a schema (objects.go) *)

Definition aclArray (column acl defaultKind owner : string) : string :=
  "(SELECT pg_catalog.array_agg(" +:+ column +:+ " ORDER BY a.grantee, a.privilege_type)
  FROM pg_catalog.aclexplode(COALESCE(" +:+ acl +:+ ", pg_catalog.acldefault('" +:+ defaultKind +:+ "', " +:+ owner +:+ "))) a WHERE a.grantor = "
  +:+ owner +:+ ")".

Definition aclColumns (acl defaultKind owner : string) : string :=
  aclArray "a.grantee::int8" acl defaultKind owner +:+ ",
" +:+ aclArray "a.privilege_type::text" acl defaultKind owner +:+ ",
" +:+ aclArray "a.is_grantable" acl defaultKind owner.

Definition extensionOf (class oid : string) : string :=
  "COALESCE((SELECT e.extname::text FROM pg_catalog.pg_depend d JOIN pg_catalog.pg_extension e ON e.oid = d.refobjid
  WHERE d.classid = '" +:+ class +:+ "'::pg_catalog.regclass AND d.objid = " +:+ oid +:+ "
    AND d.refclassid = 'pg_catalog.pg_extension'::pg_catalog.regclass AND d.deptype = 'e' LIMIT 1), '')".

Definition ownerColumns : string := "o.rolname::text, o.oid::int8, o.rolsuper, o.rolname = session_user".

Definition relationQuery (relkinds defaultKind : string) : string :=
  "SELECT c.oid::int8, c.oid::pg_catalog.regclass::text, c.relname::text, " +:+ ownerColumns +:+ ",
  " +:+ extensionOf "pg_catalog.pg_class" "c.oid" +:+ ", false, '', c.relkind::text,
  " +:+ aclColumns "c.relacl" defaultKind "c.relowner" +:+ "
FROM pg_catalog.pg_class c JOIN pg_catalog.pg_namespace n ON n.oid = c.relnamespace
JOIN pg_catalog.pg_roles o ON o.oid = c.relowner
WHERE n.nspname = $1 AND c.relkind IN (" +:+ relkinds +:+ ") AND ($2 OR c.relname = ANY($3))
ORDER BY 2 LIMIT $4".

Definition routineQuery (prokinds : string) : string :=
  "SELECT p.oid::int8, p.oid::pg_catalog.regprocedure::text, p.proname::text, " +:+ ownerColumns +:+ ",
  " +:+ extensionOf "pg_catalog.pg_proc" "p.oid" +:+ ", p.prosecdef, l.lanname::text, p.prokind::text,
  " +:+ aclColumns "p.proacl" "f" "p.proowner" +:+ "
FROM pg_catalog.pg_proc p JOIN pg_catalog.pg_namespace n ON n.oid = p.pronamespace
JOIN pg_catalog.pg_language l ON l.oid = p.prolang
JOIN pg_catalog.pg_roles o ON o.oid = p.proowner
WHERE n.nspname = $1 AND p.prokind IN (" +:+ prokinds +:+ ") AND ($2 OR p.proname = ANY($3) OR p.oid::int8 = ANY($5))
ORDER BY 2 LIMIT $4".

Definition schemaObjectQueries (kind : string) : option string :=
  if decide (kind = SchemaTable) then Some (relationQuery "'r', 'p', 'v', 'm', 'f'" "r")
  else if decide (kind = SchemaSequence) then Some (relationQuery "'S'" "s")
  else if decide (kind = SchemaFunction) then Some (routineQuery "'f', 'a', 'w'")
  else if decide (kind = SchemaProcedure) then Some (routineQuery "'p'")
  else if decide (kind = SchemaType)
  then Some ("SELECT t.oid::int8, t.oid::pg_catalog.regtype::text, t.typname::text, " +:+ ownerColumns +:+ ",
  " +:+ extensionOf "pg_catalog.pg_type" "t.oid" +:+ ", false, '', t.typtype::text,
  " +:+ aclColumns "t.typacl" "T" "t.typowner" +:+ "
FROM pg_catalog.pg_type t JOIN pg_catalog.pg_namespace n ON n.oid = t.typnamespace
JOIN pg_catalog.pg_roles o ON o.oid = t.typowner
WHERE n.nspname = $1 AND t.typtype IN ('b', 'c', 'd', 'e', 'r')
  AND (t.typtype <> 'c' OR (SELECT c.relkind FROM pg_catalog.pg_class c WHERE c.oid = t.typrelid) = 'c')
  AND NOT (t.typelem <> 0 AND t.typsubscript = 'pg_catalog.array_subscript_handler'::pg_catalog.regproc)
  AND ($2 OR t.typname = ANY($3))
ORDER BY 2 LIMIT $4")
  else None.

(** A NULL array reads as an empty one. *)
Definition scanObject (row : list cell) : option (SchemaObject * (list Z * list string * list bool)) :=
  match row with
  | [CInt oid; CText identity; CText name; CText owner; CInt ownerOID; CBool super; CBool session; CText extension; CBool definer;
     CText language; CText sub; grantees; privileges; grantable] =>
      g ← match grantees with CInts l => Some l | CNull => Some [] | _ => None end;
      p ← scanArray privileges;
      o ← match grantable with CBools l => Some l | CNull => Some [] | _ => None end;
      Some ({| so_OID := oid; so_Identity := identity; so_Name := name; so_Owner := owner; so_OwnerOID := ownerOID;
               so_OwnerSuperuser := super; so_OwnerIsSessionUser := session; so_Extension := extension;
               so_SecurityDefiner := definer; so_Language := language; so_SubKind := sub;
               so_ACL := (λ '(grantee, privilege, grantable),
                            {| acl_Grantee := grantee; acl_Privilege := privilege; acl_Grantable := grantable |}) <$> zip (zip g p) o |},
            (g, p, o))
  | _ => None
  end.

(** The loop of ListSchemaObjects: the first row that does not scan, or whose arrays differ in length, ends it. *)
Fixpoint scanObjects (schema : string) (rows : list (list cell)) (last : error) : result (list SchemaObject) :=
  match rows with
  | [] => match last with Some e => inr (Wrapf "failed to list the objects of schema %q: %w" [schema] e) | None => inl [] end
  | row :: rows =>
      match scanObject row with
      | None => inr (Wrapf "failed to scan schema object: %w" [] ErrScan)
      | Some (o, (g, p, b)) =>
          if negb (length g =? length p)%nat || negb (length g =? length b)%nat then inr (Errorf "inconsistent ACL of %s" [so_Identity o])
          else match scanObjects schema rows last with inl l => inl (o :: l) | inr e => inr e end
      end
  end.

(** The query of ListSchemaObjects on its arguments, and its rows. *)
Definition Client_listObjects (schema kind : string) (All : bool) (Names : list string) (limit : Z) (OIDs : list Z)
    : M W (result (list SchemaObject)) :=
  match schemaObjectQueries kind with
  | None => mret (inr (Errorf "unsupported object kind %q" [kind]))
  | Some query =>
      r ← db_Query db query ([CText schema; CBool All; CArray Names; CInt limit]
                             ++ if bool_decide (kind = SchemaFunction ∨ kind = SchemaProcedure) then [CInts OIDs] else []);
      mret (match r with
            | inr e => inr (Wrapf "failed to list the %s objects of schema %q: %w" [ToLower kind; schema] e)
            | inl (rows, last) => scanObjects schema rows last
            end)
  end.

(** The members of extensions that a role holds privileges on (RevokeAllExtensionMemberPrivileges). *)
Definition scanHeldMember (row : list cell) : option (string * string) :=
  match row with [CText kind; CText ident] => Some (kind, ident) | _ => None end.

Definition Client_heldMembers (role : string) : M W (result (list (string * string))) :=
  queryRows scanHeldMember "SELECT m.kind, m.ident FROM (
  SELECT CASE WHEN c.relkind = 'S' THEN 'SEQUENCE' ELSE 'TABLE' END AS kind, c.oid::pg_catalog.regclass::text AS ident, c.relacl AS acl
  FROM pg_catalog.pg_class c JOIN pg_catalog.pg_depend d ON d.objid = c.oid
  WHERE d.classid = 'pg_catalog.pg_class'::pg_catalog.regclass AND d.refclassid = 'pg_catalog.pg_extension'::pg_catalog.regclass
    AND d.deptype = 'e' AND c.relkind IN ('r', 'p', 'v', 'm', 'f', 'S')
  UNION ALL
  SELECT 'ROUTINE', p.oid::pg_catalog.regprocedure::text, p.proacl
  FROM pg_catalog.pg_proc p JOIN pg_catalog.pg_depend d ON d.objid = p.oid
  WHERE d.classid = 'pg_catalog.pg_proc'::pg_catalog.regclass AND d.refclassid = 'pg_catalog.pg_extension'::pg_catalog.regclass
    AND d.deptype = 'e'
) m WHERE EXISTS (SELECT 1 FROM pg_catalog.aclexplode(m.acl) a
  WHERE a.grantee = (SELECT oid FROM pg_catalog.pg_roles WHERE rolname = $1))" [CText role]
    (Wrapf "failed to list extension object privileges of %q: %w" [role]) (Wrapf "failed to scan extension object: %w" [] ErrScan)
    (Wrapf "failed to list extension object privileges of %q: %w" [role]).

(** *** The operations the reconcilers use

    The connection of Objects.v. *)
Definition client_connection : Connection W :=
  {| cn_exec := exec; cn_begin := db_Begin db; cn_tx_exec := db_TxExec db; cn_rollback := db_Rollback db; cn_commit := db_Commit db;
     cn_object_by_name := λ kind identity schema, resolved_by (resolveObjectQueries kind) [CText identity; CText schema];
     cn_object_by_oid := λ kind oid, resolved_by (resolveOIDQueries kind) [CInt oid];
     cn_list_objects := λ schema kind, Client_listObjects schema kind;
     cn_granted_databases := λ role, Client_listStrings "SELECT DISTINCT d.datname FROM pg_database d, aclexplode(d.datacl) a
WHERE a.grantee = (SELECT oid FROM pg_roles WHERE rolname = $1)" (CText role);
     cn_granted_schemas := λ role, Client_listStrings "SELECT DISTINCT n.nspname FROM pg_namespace n, aclexplode(n.nspacl) a
WHERE a.grantee = (SELECT oid FROM pg_roles WHERE rolname = $1)" (CText role);
     cn_reassign_target := λ old target, queryRow scanTarget "SELECT r.rolsuper, pg_catalog.pg_has_role($1::name, r.oid, 'USAGE')
FROM pg_catalog.pg_roles r WHERE r.rolname = $2" [CText old; CText target];
     cn_owned_databases := λ role, Client_listStrings "SELECT d.datname FROM pg_catalog.pg_database d
JOIN pg_catalog.pg_roles r ON r.oid = d.datdba WHERE r.rolname = $1 ORDER BY d.datname" (CText role) |}.

Definition client_session (random : nat → M W (result string)) `{ScramPrimitives} `{Sha256} : Session W :=
  {| s_role_exists := λ name, queryRaw scanBool "SELECT EXISTS(SELECT 1 FROM pg_roles WHERE rolname = $1)" [CText name];
     s_exec := exec; s_begin := db_Begin db; s_tx_exec := db_TxExec db; s_commit := db_Commit db; s_rollback := db_Rollback db;
     s_verifier := ScramSHA256Verifier random |}.

Definition client_memberships : membershipClient W :=
  {| mc_ServerVersionNum := Client_ServerVersionNum; mc_ListMemberships := Client_ListMemberships; mc_GrantRole := Client_GrantRole;
     mc_RevokeAdminOption := Client_RevokeAdminOption; mc_RevokeRole := Client_RevokeRole;
     mc_MembershipClosure := Client_MembershipClosure |}.

Definition client_executor : privilegeExecutor W :=
  {| HeldPrivileges := Client_HeldPrivileges; GrantPrivileges := Client_GrantPrivileges; RevokePrivileges := Client_RevokePrivileges |}.

Definition client_roleSettings : roleSettingsClient W :=
  {| rsc_ParameterContext := Client_ParameterContext; rsc_DatabaseExists := Client_DatabaseExists;
     rsc_SetRoleParameter := Client_SetRoleParameter; rsc_ResetRoleParameter := Client_ResetRoleParameter |}.

Definition client_databaseGrants : databaseGrantClient W :=
  {| dgc_executor := client_executor; dgc_HeldFromAnyGrantor := Client_HeldFromAnyGrantor; dgc_RoleExists := Client_RoleExists;
     dgc_SetDatabaseParameter := Client_SetDatabaseParameter; dgc_ResetDatabaseParameter := Client_ResetDatabaseParameter;
     dgc_ParameterContext := Client_ParameterContext |}.

Definition client_schemaGrants : schemaGrantClient W :=
  {| sgc_executor := client_executor; sgc_RoleExists := Client_RoleExists; sgc_SchemaExists := Client_SchemaExists |}.

Definition client_parameterGrants : parameterGrantClient W :=
  {| pgc_ServerVersionNum := Client_ServerVersionNum; pgc_executor := client_executor; pgc_RoleExists := Client_RoleExists;
     pgc_ParameterContext := Client_ParameterContext |}.

Definition client_schemas : schemaClient W :=
  {| sch_SchemaOwner := Client_SchemaOwner; sch_CurrentDatabaseOwner := Client_CurrentDatabaseOwner;
     sch_CreateSchema := Client_CreateSchema; sch_AlterSchemaOwner := Client_AlterSchemaOwner; sch_LookupRole := Client_LookupRole |}.

Definition client_ownership : databaseOwnershipClient W :=
  {| doc_DatabaseComment := Client_DatabaseComment; doc_CommentOnDatabase := Client_CommentOnDatabase;
     doc_CreateDatabase := Client_CreateDatabase |}.

Definition client_extensions (cn : Connection W) : extensionInstallClient W :=
  {| xc_ExtensionVersion := Client_ExtensionVersion; xc_InstalledExtension := Client_InstalledExtension;
     xc_ExtensionUpdatePaths := Client_ExtensionUpdatePaths; xc_SchemaWriters := Client_SchemaWriters;
     xc_CurrentDatabaseOwner := Client_CurrentDatabaseOwner; xc_LookupRole := Client_LookupRole; xc_CreateSchema := Client_CreateSchema;
     xc_CreateExtension := CreateExtension cn; xc_UpdateExtension := UpdateExtension cn; xc_DropExtension := DropExtension cn |}.

Definition client_objectGrants (cn : Connection W) : objectGrantClient W :=
  {| ogc_RoleExists := Client_RoleExists; ogc_SchemaExists := Client_SchemaExists; ogc_RoleOIDs := Client_RoleOIDs;
     ogc_ListSchemaObjects := ListSchemaObjects cn; ogc_ResolveRoutine := Client_ResolveRoutine;
     ogc_ResolveSchemaObject := ResolveSchemaObject cn; ogc_GrantOnSchemaObject := GrantOnSchemaObject cn;
     ogc_RevokeOnSchemaObject := RevokeOnSchemaObject cn; ogc_HeldDefaultPrivileges := Client_HeldDefaultPrivileges;
     ogc_GrantDefaultPrivileges := GrantDefaultPrivileges cn; ogc_RevokeDefaultPrivileges := RevokeDefaultPrivileges cn |}.

Definition client_extensionGrants (cn : Connection W) : extensionGrantClient W :=
  {| gx_executor := client_executor; gx_RoleExists := Client_RoleExists; gx_SchemaExists := Client_SchemaExists;
     gx_InstalledExtension := Client_InstalledExtension; gx_ExtensionMembers := Client_ExtensionMembers;
     gx_GrantOnMembers := GrantOnMembers cn; gx_RevokeOnMembers := RevokeOnMembers cn |}.

Definition client_parameterServer : ParameterServer W :=
  {| ps_ConfigFile := Client_ConfigFile; ps_FileSettings := Client_FileSettings; ps_Settings := Client_Settings;
     ps_ReloadConfig := Client_ReloadConfig |}.

Definition client_slots : ReplicationServer W :=
  {| srv_ReplicationSlots := Client_ReplicationSlots; srv_CreateSlot := Client_CreatePhysicalReplicationSlot;
     srv_DropSlot := Client_DropReplicationSlot |}.

Definition client_revoker (cn : Connection W) : objectAccessRevoker W :=
  {| rv_RevokeOnSchemaObject := RevokeOnSchemaObject cn; rv_RevokeDefaultPrivileges := RevokeDefaultPrivileges cn;
     rv_RoleOIDs := Client_RoleOIDs; rv_ListSchemaObjects := ListSchemaObjects cn |}.

(** The client of the Role reconciler. *)
Definition client_role (random : nat → M W (result string)) `{ScramPrimitives} `{Sha256} `{ErrorText} (cn : Connection W) : pgClient W :=
  {| pc_RoleComment := Client_RoleComment; pc_CreateRole := CreateRole (client_session random) error_text; pc_DropRole := DropRole (db_ExecDetail db);
     pc_RevokeAllDatabasePrivileges := RevokeAllDatabasePrivileges cn;
     pc_DatabasesWithObjectPrivileges := Client_DatabasesWithObjectPrivileges;
     pc_RevokeAllSchemaPrivileges := RevokeAllSchemaPrivileges cn;
     pc_RevokeAllExtensionMemberPrivileges := RevokeAllExtensionMemberPrivileges cn Client_heldMembers;
     pc_RoleReassignTarget := RoleReassignTarget cn; pc_DatabasesOwnedBy := DatabasesOwnedBy cn;
     pc_DatabasesWithOwnedObjects := Client_DatabasesWithOwnedObjects; pc_ReassignOwned := ReassignOwned cn;
     pc_revoker := client_revoker cn; pc_memberships := client_memberships; pc_parameters := client_parameterGrants;
     pc_settings := client_roleSettings |}.

Definition client_database (cn : Connection W) : databaseClient W :=
  {| dbc_ownership := client_ownership; dbc_DropDatabase := Client_DropDatabase;
     dbc_DatabaseAllowsConnections := Client_DatabaseAllowsConnections; dbc_LookupRole := Client_LookupRole;
     dbc_ServerVersionNum := Client_ServerVersionNum; dbc_grants := client_databaseGrants; dbc_schemas := client_schemas;
     dbc_schemaGrants := client_schemaGrants; dbc_extensions := client_extensions cn; dbc_extensionGrants := client_extensionGrants cn;
     dbc_objects := client_objectGrants cn |}.
End client.

(** ** PostgreSQL's lexical syntax

    Words, quoted identifiers, string literals (standard and E'...'), numbers and six
    punctuation marks. Whatever else PostgreSQL would read (operators, comments, dollar
    quotes, semicolons, other prefixed strings) is refused. *)

Inductive token := TWord (w : string) | TIdent (name : string) | TString (s : string) | TNumber (n : string) | TPunct (c : ascii).

Definition word_byte (c : ascii) : bool := is_alpha_ c || is_digit c.

Fixpoint span (p : ascii → bool) (s : string) : string * string :=
  match s with
  | String c s' => if p c then prod_map (String c) id (span p s') else ("", s)
  | EmptyString => ("", "")
  end.

Definition starts (p : ascii → bool) (s : string) : bool := match s with String c _ => p c | EmptyString => false end.

(** One blank or one token, and what follows it. *)
Definition lex1 (s : string) : option (list token * string) :=
  match s with
  | EmptyString => None
  | String c s' =>
      if isSpace c then Some ([], s')
      else if bool_decide (c = dquote) then prod_map (λ n, [TIdent n]) id <$> read_ident s
      else if bool_decide (c = squote) || (bool_decide (c = "E"%char) && starts (λ d, bool_decide (d = squote)) s')
      then prod_map (λ n, [TString n]) id <$> read_literal s
      else if is_alpha_ c then
        let '(w, r) := span word_byte s in if starts (λ d, bool_decide (d = squote)) r then None else Some ([TWord w], r)
      else if is_digit c then let '(n, r) := span is_digit s in Some ([TNumber n], r)
      else if bool_decide (c = "-"%char) && starts is_digit s' then
        let '(n, r) := span is_digit s' in Some ([TNumber (String c n)], r)
      else if bool_decide (c ∈ [","; "."; "("; ")"; "["; "]"]%char) then Some ([TPunct c], s')
      else None
  end.

Fixpoint lex (fuel : nat) (s : string) : option (list token) :=
  match s, fuel with
  | EmptyString, _ => Some []
  | _, O => None
  | _, S fuel => '(t, r) ← lex1 s; ts ← lex fuel r; Some (t ++ ts)
  end.

(** Every step consumes a byte: the length is enough fuel. *)
Definition sql_tokens (s : string) : option (list token) := lex (String.length s) s.

Lemma span_length p s w r : span p s = (w, r) → (String.length r ≤ String.length s)%nat.
Proof.
  revert w r. induction s as [|c s IH]; intros w r; simpl; [by intros [= _ <-]|].
  destruct (p c); [|by intros [= _ <-]]. destruct (span p s) as [w' r'] eqn:E. intros [= _ <-]. specialize (IH _ _ eq_refl). simpl. lia.
Qed.

Lemma read_doubled_length q s w r : read_doubled q s = Some (w, r) → (String.length r < String.length s)%nat.
Proof.
  remember (String.length s) as n eqn:En. revert s w r En.
  induction (lt_wf n) as [n _ IH]. intros [|c s] w r -> Hr; simpl in *; [done|].
  assert (∀ s', (String.length s' < S (String.length s))%nat → ∀ x, prod_map x id <$> read_doubled q s' = Some (w, r) →
    (String.length r < S (String.length s'))%nat) as Hrec.
  { intros s' Hl x. destruct (read_doubled q s') as [[w' r']|] eqn:E; simpl; [|done]. intros [= _ <-].
    pose proof (IH _ Hl s' w' r' eq_refl E). simpl. lia. }
  case_decide; [|by eapply Hrec; [|exact Hr]; lia].
  destruct s as [|d s']; simpl in *; [injection Hr as _ <-; simpl; lia|].
  case_decide; [|injection Hr as _ <-; simpl; lia].
  apply Hrec in Hr; lia.
Qed.

Lemma read_escaped_length s w r : read_escaped s = Some (w, r) → (String.length r < String.length s)%nat.
Proof.
  remember (String.length s) as n eqn:En. revert s w r En.
  induction (lt_wf n) as [n _ IH]. intros [|c s] w r -> Hr; simpl in *; [done|].
  assert (∀ s', (String.length s' < S (String.length s))%nat → ∀ x, prod_map x id <$> read_escaped s' = Some (w, r) →
    (String.length r < S (String.length s'))%nat) as Hrec.
  { intros s' Hl x. destruct (read_escaped s') as [[w' r']|] eqn:E; simpl; [|done]. intros [= _ <-].
    pose proof (IH _ Hl s' w' r' eq_refl E). simpl. lia. }
  case_decide; [|case_decide; [|by eapply Hrec; [|exact Hr]; lia]]; destruct s as [|d s']; simpl in *; try done.
  - injection Hr as _ <-. simpl. lia.
  - case_decide; [|injection Hr as _ <-; simpl; lia]. apply Hrec in Hr; lia.
  - destruct (unescape d); [|done]. apply Hrec in Hr; lia.
Qed.

Lemma after_quote_length q body s w r :
  (∀ s w r, body s = Some (w, r) → (String.length r < String.length s)%nat) →
  after_quote q body s = Some (w, r) → (String.length r < String.length s)%nat.
Proof.
  intros Hb. destruct s as [|c s]; simpl; [done|]. case_decide; [|done]. intros Hr%Hb. lia.
Qed.

Lemma lex1_length s t r : lex1 s = Some (t, r) → (String.length r < String.length s)%nat.
Proof.
  destruct s as [|c s]; [done|]. unfold lex1.
  assert (∀ p w r, span p s = (w, r) → (String.length r < String.length (String c s))%nat) as Hs
    by (intros p w r' Hp%span_length; simpl; lia).
  assert (∀ p w r, p c = true → span p (String c s) = (w, r) → (String.length r < String.length (String c s))%nat) as Hcs.
  { intros p w r' Hp. simpl. rewrite Hp. destruct (span p s) as [w' r''] eqn:E. intros [= _ <-]. simpl. apply span_length in E. lia. }
  destruct (isSpace c); [intros [= _ <-]; simpl; lia|].
  destruct (bool_decide _).
  { destruct (read_ident _) as [[w r']|] eqn:E; simpl; [|done]. intros [= _ <-].
    apply after_quote_length in E; [exact E|apply read_doubled_length]. }
  destruct (_ || _).
  { destruct (read_literal _) as [[w r']|] eqn:E; simpl; [|done]. intros [= _ <-]. simpl in E. case_decide.
    - apply after_quote_length in E; [|apply read_escaped_length]. simpl. lia.
    - case_decide; [|done]. apply read_doubled_length in E. simpl. lia. }
  destruct (is_alpha_ c) eqn:Ea.
  { destruct (span word_byte _) as [w r'] eqn:E. destruct (starts _ _); [done|]. intros [= _ <-]. eapply Hcs; [|exact E].
    unfold word_byte. by rewrite Ea. }
  destruct (is_digit c) eqn:Ed.
  { destruct (span is_digit _) as [w r'] eqn:E. intros [= _ <-]. by eapply Hcs; [|exact E]. }
  destruct (_ && _).
  { destruct (span is_digit s) as [w r'] eqn:E. intros [= _ <-]. by eapply Hs. }
  destruct (bool_decide _); [intros [= _ <-]; simpl; lia|done].
Qed.

Lemma lex_enough n s ts m : lex n s = Some ts → (String.length s ≤ m)%nat → lex m s = Some ts.
Proof.
  revert s ts m. induction n as [|n IH]; intros [|c s] ts m Hl Hm; try done; [by destruct m|by destruct m|].
  destruct m as [|m]; [simpl in Hm; lia|]. cbn [lex] in *.
  destruct (lex1 (String c s)) as [[t r]|] eqn:E; [|done]. cbn in Hl |- *.
  destruct (lex n r) as [ts'|] eqn:El; [|done]. apply lex1_length in E. erewrite IH; [exact Hl|done|]. simpl in E, Hm. lia.
Qed.

(** [s] reads as [ts]. *)
Definition Lexes (s : string) (ts : list token) : Prop := ∃ n, lex n s = Some ts.

Lemma sql_tokens_Lexes s ts : sql_tokens s = Some ts ↔ Lexes s ts.
Proof. split; [by exists (String.length s)|]. intros [n Hn]. by eapply lex_enough. Qed.

Lemma Lexes_step s t r ts : lex1 s = Some (t, r) → Lexes r ts → Lexes s (t ++ ts).
Proof.
  intros Hs [n Hn]. exists (S n). destruct s as [|c s]; [done|]. cbn [lex]. rewrite Hs. cbn. by rewrite Hn.
Qed.

(** What may follow a word, a number or a quoted form here. *)
Definition sep (s : string) : Prop :=
  match s with String c _ => isSpace c || bool_decide (c ∈ [","; "."]%char) = true | EmptyString => True end.

Definition is_word (w : string) : bool := starts is_alpha_ w && sforall word_byte w.

(** Words separated by single blanks. *)
Definition kw (s : string) : list token := TWord <$> Split s " ".
Definition phrase (s : string) : bool := forallb is_word (Split s " ") && bool_decide (Join (Split s " ") " " = s).

Lemma sep_cases c s : sep (String c s) → c ≠ dquote ∧ c ≠ squote ∧ word_byte c = false ∧ is_digit c = false.
Proof.
  simpl. intros Hs. assert (c ∈ [" "; "009"; "010"; "013"; ","; "."]%char) as Hc.
  { apply orb_true_iff in Hs as [Hs|Hs]; [unfold isSpace in Hs|]; apply bool_decide_eq_true in Hs; set_solver. }
  rewrite !elem_of_cons, elem_of_nil in Hc. destruct_or?; subst; try done; by split_and!.
Qed.

Lemma sep_not_starting s : sep s → not_starting dquote s ∧ not_starting squote s.
Proof. destruct s as [|c s]; [done|]. intros Hs%sep_cases. by split; apply Hs. Qed.

Lemma span_all p s rest : sforall p s = true → starts p rest = false → span p (s +:+ rest) = (s, rest).
Proof.
  intros Hs Hr. induction s as [|c s IH]; simpl in *.
  - destruct rest as [|c rest]; simpl in *; [done|]. by rewrite Hr.
  - apply andb_true_iff in Hs as [-> Hs]. by rewrite IH.
Qed.

Lemma Lexes_nil : Lexes "" [].
Proof. by exists 0%nat. Qed.

Lemma Lexes_space s ts : Lexes s ts → Lexes (" " +:+ s) ts.
Proof. intros Hs. by apply (Lexes_step _ [] s ts). Qed.

Lemma Lexes_punct c s ts : c ∈ [","; "."]%char → Lexes s ts → Lexes (str1 c +:+ s) (TPunct c :: ts).
Proof.
  rewrite !elem_of_cons, elem_of_nil. intros Hc Hs. apply (Lexes_step _ [TPunct c] s ts); [|done].
  by destruct_or?; subst.
Qed.

Lemma alpha_byte c : is_alpha_ c = true → isSpace c = false ∧ c ≠ dquote ∧ c ≠ squote.
Proof.
  destruct c as [[] [] [] [] [] [] [] []]; vm_compute; intros Hc; try discriminate Hc; split_and!; try reflexivity; discriminate.
Qed.

Lemma Lexes_word w s ts : is_word w = true → sep s → Lexes s ts → Lexes (w +:+ s) (TWord w :: ts).
Proof.
  intros [Hw Hb]%andb_true_iff Hsep Hs. destruct w as [|c w]; [done|]. simpl in Hw.
  destruct (alpha_byte c Hw) as (H1 & H2 & H3).
  assert (starts word_byte s = false) as Hsb by (destruct s as [|d s]; [done|]; by apply sep_cases in Hsep as (_ & _ & ? & _)).
  assert (starts (λ d, bool_decide (d = squote)) s = false) as Hsq.
  { destruct s as [|d s]; [done|]. apply sep_cases in Hsep as (_ & ? & _). by apply bool_decide_eq_false. }
  apply (Lexes_step _ [TWord (String c w)] s ts); [|done].
  pose proof (span_all word_byte (String c w) s Hb Hsb) as Hspan. unfold lex1. cbn [String.append].
  rewrite H1, bool_decide_false by done. rewrite (bool_decide_false (c = squote)) by done. cbn [orb].
  assert (bool_decide (c = "E"%char) && starts (λ d, bool_decide (d = squote)) (w +:+ s) = false) as ->.
  { apply andb_false_iff. right. destruct w as [|d w]; [done|]. simpl in Hb. rewrite !andb_true_iff in Hb.
    apply bool_decide_eq_false. intros ->. destruct Hb as (_ & Hq & _). by vm_compute in Hq. }
  rewrite Hw. cbn [String.append] in Hspan. rewrite Hspan. by rewrite Hsq.
Qed.

Lemma Lexes_ident name s ts : sep s → Lexes s ts → Lexes (quoteIdent name +:+ s) (TIdent name :: ts).
Proof.
  intros [Hd _]%sep_not_starting Hs. apply (Lexes_step _ [TIdent name] s ts); [|done].
  pose proof (quoteIdent_delim name s Hd) as Hr. unfold lex1, quoteIdent in *. cbn in Hr |- *. by rewrite Hr.
Qed.

Lemma Lexes_string v s ts : sep s → Lexes s ts → Lexes (quoteLiteral v +:+ s) (TString v :: ts).
Proof.
  intros [_ Hq]%sep_not_starting Hs. apply (Lexes_step _ [TString v] s ts); [|done].
  pose proof (quoteLiteral_delim v s Hq) as Hr. unfold quoteLiteral in *. destruct (ContainsByte _ _); unfold lex1; cbn in Hr |- *; by rewrite Hr.
Qed.

Lemma Lexes_number z s ts : sep s → Lexes s ts → Lexes (Itoa z +:+ s) (TNumber (Itoa z) :: ts).
Proof.
  intros Hsep Hs. apply (Lexes_step _ [TNumber (Itoa z)] s ts); [|done].
  assert (starts is_digit s = false) as Hsd by (destruct s as [|d s]; [done|]; by apply sep_cases in Hsep as (_ & _ & _ & ?)).
  assert (∀ z, (0 ≤ z)%Z → ∃ c d, Itoa z = String c d ∧ is_digit c = true ∧ span is_digit (Itoa z +:+ s) = (Itoa z, s)) as Hpos.
  { intros z' Hz. destruct (Itoa_digits z' Hz) as (Hne & Hd & _). destruct (Itoa z') as [|c d]; [done|].
    exists c, d. split_and!; [done|by apply andb_true_iff in Hd as []|by apply span_all]. }
  assert (∀ c, is_digit c = true → isSpace c = false ∧ c ≠ dquote ∧ c ≠ squote ∧ c ≠ "E"%char ∧ is_alpha_ c = false) as Hdig.
  { intros c Hc. destruct c as [[] [] [] [] [] [] [] []]; vm_compute in Hc |- *; try discriminate Hc; split_and!; try reflexivity; discriminate. }
  destruct (decide (0 ≤ z)%Z) as [Hz|Hz].
  - destruct (Hpos z Hz) as (c & d & -> & Hc & Hspan). destruct (Hdig c Hc) as (H1 & H2 & H3 & H4 & H5).
    unfold lex1. cbn [String.append] in *. rewrite H1, !bool_decide_false by done. cbn [orb andb]. by rewrite H5, Hc, Hspan.
  - destruct z as [|p|p]; [lia..|]. change (Itoa (Z.neg p)) with (String "-"%char (Itoa (Z.pos p))).
    destruct (Hpos (Z.pos p) ltac:(lia)) as (c & d & Heq & Hc & Hspan). unfold lex1. rewrite Heq in Hspan |- *.
    cbn [String.append starts] in *. rewrite Hc, Hspan. done.
Qed.

Lemma Lexes_words ws s ts :
  ws ≠ [] → forallb is_word ws = true → sep s → Lexes s ts → Lexes (Join ws " " +:+ s) ((TWord <$> ws) ++ ts).
Proof.
  intros Hne Hw Hsep Hs. induction ws as [|w ws IH]; [done|]. simpl in Hw. apply andb_true_iff in Hw as [Hw Hws].
  destruct ws as [|w' ws]; [by apply Lexes_word|]. rewrite Join_cons2, !app_assoc_s. apply Lexes_word; [done|done|].
  apply Lexes_space. by apply IH.
Qed.

Lemma Lexes_phrase k s ts : phrase k = true → sep s → Lexes s ts → Lexes (k +:+ s) (kw k ++ ts).
Proof.
  intros [Hw Hk]%andb_true_iff Hsep Hs. apply bool_decide_eq_true in Hk. rewrite <- Hk at 1. apply Lexes_words; try done.
  intros Hn. rewrite Hn in Hk. simpl in Hk. by subst k.
Qed.

(** Token lists with a punctuation mark between them. *)
Fixpoint separated (c : ascii) (l : list (list token)) : list token :=
  match l with
  | [] => []
  | [x] => x
  | x :: l => x ++ TPunct c :: separated c l
  end.

Lemma Lexes_separated {A} (render : A → string) (toks : A → list token) mark c l s ts :
  (∀ x s ts, x ∈ l → sep s → Lexes s ts → Lexes (render x +:+ s) (toks x ++ ts)) →
  (∀ s ts, Lexes s ts → sep (mark +:+ s) ∧ Lexes (mark +:+ s) (TPunct c :: ts)) →
  l ≠ [] → sep s → Lexes s ts → Lexes (Join (render <$> l) mark +:+ s) (separated c (toks <$> l) ++ ts).
Proof.
  intros Hx Hm Hne Hsep Hs. induction l as [|x l IH]; [done|]. destruct l as [|y l]; [by apply Hx; [left|..]|].
  rewrite !fmap_cons, Join_cons2, !app_assoc_s. cbn [separated]. rewrite <- app_assoc. cbn [app].
  destruct (Hm (Join (render <$> y :: l) mark +:+ s) (separated c (toks <$> y :: l) ++ ts)) as [Hsep' Hl'].
  { apply IH; [|done]. intros x' s' ts' Hin. apply Hx. by right. }
  apply Hx; [by left|done|done].
Qed.

Lemma comma_mark s ts : Lexes s ts → sep (", " +:+ s) ∧ Lexes (", " +:+ s) (TPunct "," :: ts).
Proof. intros Hs. split; [done|]. apply (Lexes_punct "," (" " +:+ s)); [set_solver|]. by apply Lexes_space. Qed.

Lemma dot_mark s ts : Lexes s ts → sep ("." +:+ s) ∧ Lexes ("." +:+ s) (TPunct "." :: ts).
Proof. intros Hs. split; [done|]. apply (Lexes_punct "." s); [set_solver|done]. Qed.

(** Text read on its own reads the same before a separator. *)
Lemma read_doubled_app q c s w r : read_doubled q c = Some (w, r) → not_starting q s → read_doubled q (c +:+ s) = Some (w, r +:+ s).
Proof.
  remember (String.length c) as n eqn:En. revert c w r En.
  induction (lt_wf n) as [n _ IH]. intros [|a c] w r -> Hr Hs; simpl in *; [done|].
  assert (∀ c', (String.length c' < S (String.length c))%nat → ∀ x, prod_map x id <$> read_doubled q c' = Some (w, r) →
    prod_map x id <$> read_doubled q (c' +:+ s) = Some (w, r +:+ s)) as Hrec.
  { intros c' Hl x. destruct (read_doubled q c') as [[w' r']|] eqn:E; simpl; [|done]. intros [= <- <-].
    by rewrite (IH _ Hl c' w' r' eq_refl E Hs). }
  case_decide as Ha; [|by apply Hrec; [lia|]].
  destruct c as [|d c']; simpl in *.
  - injection Hr as <- <-. destruct s as [|e s]; [done|]. by rewrite decide_False.
  - case_decide; [apply Hrec; [lia|done]|]. by injection Hr as <- <-.
Qed.

Lemma read_escaped_app c s w r : read_escaped c = Some (w, r) → not_starting squote s → read_escaped (c +:+ s) = Some (w, r +:+ s).
Proof.
  remember (String.length c) as n eqn:En. revert c w r En.
  induction (lt_wf n) as [n _ IH]. intros [|a c] w r -> Hr Hs; simpl in *; [done|].
  assert (∀ c', (String.length c' < S (String.length c))%nat → ∀ x, prod_map x id <$> read_escaped c' = Some (w, r) →
    prod_map x id <$> read_escaped (c' +:+ s) = Some (w, r +:+ s)) as Hrec.
  { intros c' Hl x. destruct (read_escaped c') as [[w' r']|] eqn:E; simpl; [|done]. intros [= <- <-].
    by rewrite (IH _ Hl c' w' r' eq_refl E Hs). }
  case_decide as Ha; [|case_decide; [|by apply Hrec; [lia|]]]; destruct c as [|d c']; simpl in *; try done.
  - injection Hr as <- <-. destruct s as [|e s]; [done|]. by rewrite decide_False.
  - case_decide; [apply Hrec; [lia|done]|]. by injection Hr as <- <-.
  - destruct (unescape d); [|done]. apply Hrec; [lia|done].
Qed.

Lemma span_app p c s w r : span p c = (w, r) → starts p s = false → span p (c +:+ s) = (w, r +:+ s).
Proof.
  intros Hc Hs. revert w r Hc. induction c as [|a c IH]; intros w r; simpl.
  - intros [= <- <-]. destruct s as [|b s]; simpl in *; [done|]. by rewrite Hs.
  - destruct (p a); [|by intros [= <- <-]]. destruct (span p c) as [w' r'] eqn:E. intros [= <- <-]. by rewrite (IH w' r').
Qed.

Lemma starts_app p c s : starts p s = false → starts p (c +:+ s) = starts p c.
Proof. by destruct c. Qed.

Lemma sep_starts s : sep s → starts word_byte s = false ∧ starts is_digit s = false ∧ starts (λ d, bool_decide (d = squote)) s = false.
Proof.
  destruct s as [|c s]; [done|]. intros (_ & Hq & Hw & Hd)%sep_cases. simpl. split_and!; [done|done|]. by apply bool_decide_eq_false.
Qed.

Lemma lex1_app c s t r : lex1 c = Some (t, r) → sep s → lex1 (c +:+ s) = Some (t, r +:+ s).
Proof.
  intros Hc Hsep. destruct (sep_not_starting s Hsep) as [Hd Hq]. destruct (sep_starts s Hsep) as (Hw & Hn & Hs).
  destruct c as [|a c]; [done|]. unfold lex1 in *. cbn [String.append] in *.
  destruct (isSpace a); [by injection Hc as <- <-|].
  destruct (bool_decide (a = dquote)).
  { unfold read_ident, after_quote in *. case_decide; [|done]. destruct (read_doubled _ c) as [[w r']|] eqn:E; simpl in Hc; [|done].
    injection Hc as <- <-. by rewrite (read_doubled_app _ _ _ _ _ E Hd). }
  rewrite (starts_app _ c s Hs). destruct (_ || _).
  { unfold read_literal, after_quote in *. case_decide; [destruct c as [|b c]; [done|]; cbn [String.append]|]; (case_decide; [|done]).
    - destruct (read_escaped c) as [[w r']|] eqn:E; simpl in Hc; [|done]. injection Hc as <- <-. by rewrite (read_escaped_app _ _ _ _ E Hq).
    - destruct (read_doubled _ c) as [[w r']|] eqn:E; simpl in Hc; [|done]. injection Hc as <- <-. by rewrite (read_doubled_app _ _ _ _ _ E Hq). }
  destruct (is_alpha_ a).
  { destruct (span word_byte (String a c)) as [w r'] eqn:E. pose proof (span_app _ _ s _ _ E Hw) as E'. cbn [String.append] in E'. rewrite E'.
    rewrite starts_app by done. destruct (starts _ r'); [done|]. by injection Hc as <- <-. }
  destruct (is_digit a).
  { destruct (span is_digit (String a c)) as [w r'] eqn:E. pose proof (span_app _ _ s _ _ E Hn) as E'. cbn [String.append] in E'. rewrite E'.
    by injection Hc as <- <-. }
  rewrite (starts_app _ c s Hn). destruct (_ && _).
  { destruct (span is_digit c) as [w r'] eqn:E. rewrite (span_app _ _ s _ _ E Hn). by injection Hc as <- <-. }
  destruct (bool_decide _); [by injection Hc as <- <-|done].
Qed.

Lemma Lexes_app c s ts1 ts2 : Lexes c ts1 → sep s → Lexes s ts2 → Lexes (c +:+ s) (ts1 ++ ts2).
Proof.
  intros [n Hn] Hsep Hs. revert c ts1 Hn. induction n as [|n IH]; intros [|a c] ts1 Hn; try done; try by injection Hn as <-.
  cbn [lex] in Hn. destruct (lex1 (String a c)) as [[t r]|] eqn:E; [|done]. cbn in Hn.
  destruct (lex n r) as [ts|] eqn:Er; [|done]. injection Hn as <-. rewrite <- app_assoc.
  eapply Lexes_step; [by apply lex1_app|]. by apply IH.
Qed.

(** ** The statements and what they read as *)

Inductive statement :=
  | StGrantRole (role member : string) (opts : MembershipOptions)
  | StRevokeAdmin (role member : string)
  | StRevokeRole (role member : string)
  | StRole (name : string) (exists_ : bool) (opts : RoleOptions)
  | StDropRole (name : string)
  | StComment (database : bool) (name comment : string)
  | StCreateDatabase (name owner : string)
  | StAlterDatabaseOwner (name owner : string)
  | StDropDatabase (name : string)
  | StCreateSchema (name owner : string)
  | StAlterSchemaOwner (name owner : string)
  | StReassign (old target : string)
  | StDropOwned (old : string)
  | StCreateExtension (name schema version : string) (cascade : bool)
  | StUpdateExtension (name version : string)
  | StDropExtension (name : string)
  | StGrant (obj : PrivilegeObject) (grantee : string) (privileges : list string) (withGrantOption : bool)
  | StRevoke (obj : PrivilegeObject) (grantee : string) (privileges : list string) (mode : RevokeMode)
  | StDefault (grant : bool) (t : DefaultPrivilegesTarget) (grantee : string) (privileges : list string) (withGrantOption : bool) (mode : RevokeMode)
  | StSetRole (role database parameter value : string)
  | StResetRole (role database parameter : string)
  | StSetDatabase (database parameter value : string)
  | StResetDatabase (database parameter : string)
  | StObject (grant : bool) (kind canonical grantee : string) (privileges : list string) (withGrantOption : bool) (mode : RevokeMode)
  | StMembers (grant : bool) (kind : MemberKind) (identities privileges : list string) (grantee : string) (i : nat)
  | StRevokeAllDatabase (database role : string)
  | StRevokeAllSchema (schema role : string)
  | StRevokeAllMember (kind ident role : string)
  | StSearchPath.

(** The text the client sends, or the error that refuses it. *)
Definition statement_text {UL : UnicodeLower} (st : statement) : result string :=
  match st with
  | StGrantRole role member opts => inl (buildGrantRoleQuery role member opts)
  | StRevokeAdmin role member => inl (RevokeAdminOption_query role member)
  | StRevokeRole role member => inl (RevokeRole_query role member)
  | StRole name exists_ opts => inl (buildRoleQuery name exists_ opts)
  | StDropRole name => inl (DropRole_query name)
  | StComment database name comment => inl (buildCommentQuery (if database then "DATABASE" else "ROLE") name comment)
  | StCreateDatabase name owner => inl (createDatabaseQuery name owner)
  | StAlterDatabaseOwner name owner => inl (alterDatabaseOwnerQuery name owner)
  | StDropDatabase name => inl (dropDatabaseQuery name)
  | StCreateSchema name owner => inl (createSchemaQuery name owner)
  | StAlterSchemaOwner name owner => inl (alterSchemaOwnerQuery name owner)
  | StReassign old target => inl (nth 0 (buildReassignOwnedQueries old target) "")
  | StDropOwned old => inl (nth 1 (buildReassignOwnedQueries old "") "")
  | StCreateExtension name schema version cascade => inl (buildCreateExtensionQuery name schema version cascade)
  | StUpdateExtension name version => inl (buildUpdateExtensionQuery name version)
  | StDropExtension name => inl (buildDropExtensionQuery name)
  | StGrant obj grantee privileges wgo => buildGrantPrivilegesQuery obj grantee privileges wgo
  | StRevoke obj grantee privileges mode => buildRevokePrivilegesQuery obj grantee privileges mode
  | StDefault grant t grantee privileges wgo mode => buildDefaultPrivilegesQuery grant t grantee privileges wgo mode
  | StSetRole role database parameter value => buildAlterRoleSetQuery role database parameter value
  | StResetRole role database parameter => buildAlterRoleResetQuery role database parameter
  | StSetDatabase database parameter value => buildAlterDatabaseSetQuery database parameter value
  | StResetDatabase database parameter => buildAlterDatabaseResetQuery database parameter
  | StObject grant kind canonical grantee privileges wgo mode =>
      buildSchemaObjectPrivilegesQuery grant kind canonical grantee privileges wgo mode
  | StMembers grant kind identities privileges grantee i =>
      try qs := buildMemberPrivilegesQueries grant kind identities privileges grantee in
      match qs !! i with Some q => inl q | None => inr (Errorf "no such batch" []) end
  | StRevokeAllDatabase database role => inl (revokeAllOnDatabase_query database role)
  | StRevokeAllSchema schema role => inl (revokeAllOnSchema_query schema role)
  | StRevokeAllMember kind ident role => inl (revokeAllOnMember_query kind ident role)
  | StSearchPath => inl public_search_path
  end.

(** The parts that the server rendered (regclass, regprocedure, regtype and the kind of an
    object) read as text of their own, as PostgreSQL documents of its quoting. *)
Definition rendered (st : statement) : Prop :=
  match st with
  | StObject _ _ canonical _ _ _ _ => is_Some (sql_tokens canonical)
  | StMembers _ _ identities _ _ _ => ∀ id, id ∈ identities → is_Some (sql_tokens id)
  | StRevokeAllMember kind ident _ => phrase kind = true ∧ is_Some (sql_tokens ident)
  | _ => True
  end.

(** A name that may be absent, after a keyword. *)
Definition clause (keyword name : string) : list token := if decide (name = "") then [] else kw keyword ++ [TIdent name].

Definition membership_tokens (o : MembershipOptions) : list token :=
  match (if mo_Admin o then [kw "ADMIN OPTION"] else [])
        ++ match mo_Inherit o with Some b => [kw (if b : bool then "INHERIT TRUE" else "INHERIT FALSE")] | None => [] end
        ++ match mo_Set o with Some b => [kw (if b : bool then "SET TRUE" else "SET FALSE")] | None => [] end with
  | [] => []
  | l => kw "WITH" ++ separated "," l
  end.

Definition role_tokens (o : RoleOptions) : list token :=
  kw (flag (ro_Login o) "LOGIN") ++ kw "NOSUPERUSER" ++ kw (flag (ro_CreateDB o) "CREATEDB") ++ kw (flag (ro_CreateRole o) "CREATEROLE")
  ++ kw (flag (ro_Inherit o) "INHERIT") ++ kw (flag (ro_Replication o) "REPLICATION") ++ kw (flag (ro_BypassRLS o) "BYPASSRLS")
  ++ kw "CONNECTION LIMIT" ++ TNumber (Itoa (ro_ConnectionLimit o))
     :: if decide (ro_Password o = "") then [] else kw "PASSWORD" ++ [TString (ro_Password o)].

(** PUBLIC, in any letter case, is the keyword; every other grantee is an identifier. *)
Definition grantee_tokens (grantee : string) : list token := if IsPublic grantee then kw "PUBLIC" else [TIdent grantee].

(** Dotted names are quoted part by part. *)
Definition parameter_tokens (name : string) : list token := separated "." ((λ p, [TIdent p]) <$> Split (ToLower name) ".").

Definition object_tokens (obj : PrivilegeObject) : list token :=
  kw (po_Kind obj) ++ (if decide (po_Kind obj = ObjectParameter) then parameter_tokens (po_Name obj) else [TIdent (po_Name obj)]).

Definition revoke_mode_tokens (mode : RevokeMode) : list token := if GrantOptionOnly mode then kw "GRANT OPTION FOR" else [].
Definition cascade_tokens (mode : RevokeMode) : list token := if Cascade mode then kw "CASCADE" else [].
Definition grant_option_tokens (wgo : bool) : list token := if wgo then kw "WITH GRANT OPTION" else [].

Definition grant_tokens (ps : list string) (object : list token) (grantee : string) (wgo : bool) : list token :=
  kw "GRANT" ++ separated "," (kw <$> ps) ++ kw "ON" ++ object ++ kw "TO" ++ grantee_tokens grantee ++ grant_option_tokens wgo.
Definition revoke_tokens (ps : list string) (object : list token) (grantee : string) (mode : RevokeMode) : list token :=
  kw "REVOKE" ++ revoke_mode_tokens mode ++ separated "," (kw <$> ps) ++ kw "ON" ++ object ++ kw "FROM" ++ grantee_tokens grantee
  ++ cascade_tokens mode.

(** One literal, or for a list parameter one per element of the value. *)
Definition value_tokens {UL : UnicodeLower} (parameter value : string) (ts : list token) : Prop :=
  if slices_Contains listQuoteParameters (ToLower parameter)
  then ∃ elems, splitIdentifierList value = inl elems ∧ ts = separated "," ((λ v, [TString v]) <$> elems)
  else ts = [TString value].

(** The keywords of a statement are those of the privileges asked for, once each, and of
    the allow-list of the kind of object. *)
Definition asked_keywords (allowed privileges ps : list string) : Prop :=
  ps ≠ [] ∧ NoDup ps ∧ (∀ x, x ∈ ps ↔ ∃ p, p ∈ privileges ∧ x = privilege_keyword p) ∧ (∀ x, x ∈ ps → x ∈ allowed).

Definition reads_as {UL : UnicodeLower} (st : statement) (ts : list token) : Prop :=
  match st with
  | StGrantRole role member opts => ts = kw "GRANT" ++ TIdent role :: kw "TO" ++ TIdent member :: membership_tokens opts
  | StRevokeAdmin role member => ts = kw "REVOKE ADMIN OPTION FOR" ++ TIdent role :: kw "FROM" ++ [TIdent member]
  | StRevokeRole role member => ts = kw "REVOKE" ++ TIdent role :: kw "FROM" ++ [TIdent member]
  | StRole name exists_ opts =>
      ts = kw (if exists_ then "ALTER ROLE" else "CREATE ROLE") ++ TIdent name
           :: role_tokens (if exists_ && ro_KeepExistingPassword opts then with_Password opts "" else opts)
  | StDropRole name => ts = kw "DROP ROLE IF EXISTS" ++ [TIdent name]
  | StComment database name comment => ts = kw "COMMENT ON" ++ kw (if database then "DATABASE" else "ROLE") ++ TIdent name :: kw "IS" ++ [TString comment]
  | StCreateDatabase name owner => ts = kw "CREATE DATABASE" ++ TIdent name :: clause "OWNER" owner
  | StAlterDatabaseOwner name owner => ts = kw "ALTER DATABASE" ++ TIdent name :: kw "OWNER TO" ++ [TIdent owner]
  | StDropDatabase name => ts = kw "DROP DATABASE IF EXISTS" ++ [TIdent name]
  | StCreateSchema name owner => ts = kw "CREATE SCHEMA" ++ TIdent name :: clause "AUTHORIZATION" owner
  | StAlterSchemaOwner name owner => ts = kw "ALTER SCHEMA" ++ TIdent name :: kw "OWNER TO" ++ [TIdent owner]
  | StReassign old target => ts = kw "REASSIGN OWNED BY" ++ TIdent old :: kw "TO" ++ [TIdent target]
  | StDropOwned old => ts = kw "DROP OWNED BY" ++ [TIdent old]
  | StCreateExtension name schema version cascade =>
      ts = kw "CREATE EXTENSION" ++ TIdent name :: clause "SCHEMA" schema
           ++ (if decide (version = "") then [] else kw "VERSION" ++ [TString version]) ++ (if cascade then kw "CASCADE" else [])
  | StUpdateExtension name version => ts = kw "ALTER EXTENSION" ++ TIdent name :: kw "UPDATE TO" ++ [TString version]
  | StDropExtension name => ts = kw "DROP EXTENSION" ++ TIdent name :: kw "RESTRICT"
  | StGrant obj grantee privileges wgo => ∃ k ps, objectKinds (po_Kind obj) = Some k ∧ asked_keywords (privileges_of k) privileges ps ∧
      ts = grant_tokens ps (object_tokens obj) grantee wgo
  | StRevoke obj grantee privileges mode => ∃ k ps, objectKinds (po_Kind obj) = Some k ∧ asked_keywords (privileges_of k) privileges ps ∧
      ts = revoke_tokens ps (object_tokens obj) grantee mode
  | StDefault grant t grantee privileges wgo mode => ∃ object ps, snd <$> defaultObjectKinds (dt_Kind t) = Some object ∧
      asked_keywords (default [] (SchemaObjectPrivileges object)) privileges ps ∧
      ts = kw "ALTER DEFAULT PRIVILEGES FOR ROLE" ++ TIdent (dt_ForRole t) :: kw "IN SCHEMA" ++ TIdent (dt_Schema t)
           :: (if grant then grant_tokens ps (kw (dt_Kind t)) grantee wgo else revoke_tokens ps (kw (dt_Kind t)) grantee mode)
  | StSetRole role database parameter value => ∃ v, value_tokens parameter value v ∧
      ts = kw "ALTER ROLE" ++ TIdent role :: clause "IN DATABASE" database ++ kw "SET" ++ parameter_tokens parameter ++ kw "TO" ++ v
  | StResetRole role database parameter =>
      ts = kw "ALTER ROLE" ++ TIdent role :: clause "IN DATABASE" database ++ kw "RESET" ++ parameter_tokens parameter
  | StSetDatabase database parameter value => ∃ v, value_tokens parameter value v ∧
      ts = kw "ALTER DATABASE" ++ TIdent database :: kw "SET" ++ parameter_tokens parameter ++ kw "TO" ++ v
  | StResetDatabase database parameter =>
      ts = kw "ALTER DATABASE" ++ TIdent database :: kw "RESET" ++ parameter_tokens parameter
  | StObject grant kind canonical grantee privileges wgo mode => ∃ allowed ps object, SchemaObjectPrivileges kind = Some allowed ∧
      asked_keywords allowed privileges ps ∧ sql_tokens canonical = Some object ∧
      ts = if grant then grant_tokens ps (kw kind ++ object) grantee wgo else revoke_tokens ps (kw kind ++ object) grantee mode
  | StMembers grant kind identities privileges grantee i => ∃ allowed ps batch objects, memberPrivileges kind = Some allowed ∧
      asked_keywords allowed privileges ps ∧ member_batches (length identities) identities !! i = Some batch ∧
      Forall2 (λ id object, sql_tokens id = Some object) batch objects ∧
      ts = if grant then grant_tokens ps (kw kind ++ separated "," objects) grantee false
           else revoke_tokens ps (kw kind ++ separated "," objects) grantee no_mode
  | StRevokeAllDatabase database role =>
      ts = kw "REVOKE ALL ON DATABASE" ++ TIdent database :: kw "FROM" ++ TIdent role :: kw "CASCADE"
  | StRevokeAllSchema schema role => ts = kw "REVOKE ALL ON SCHEMA" ++ TIdent schema :: kw "FROM" ++ TIdent role :: kw "CASCADE"
  | StRevokeAllMember kind ident role => ∃ object, sql_tokens ident = Some object ∧
      ts = kw "REVOKE ALL ON" ++ kw kind ++ object ++ kw "FROM" ++ TIdent role :: kw "CASCADE"
  | StSearchPath => ts = kw "SET LOCAL search_path TO public"
  end.

(** ** Every statement reads as it should *)

Lemma Lexes_kw k c s ts : k +:+ " " = c → phrase k = true → Lexes s ts → Lexes (c +:+ s) (kw k ++ ts).
Proof. intros <- Hk Hs. rewrite app_assoc_s. apply Lexes_phrase; [done|done|]. by apply Lexes_space. Qed.

Lemma Lexes_sp_kw k c s ts : " " +:+ k +:+ " " = c → phrase k = true → Lexes s ts → Lexes (c +:+ s) (kw k ++ ts).
Proof. intros <- Hk Hs. rewrite app_assoc_s. apply Lexes_space. by eapply Lexes_kw. Qed.

Lemma Lexes_sp_end k c : " " +:+ k = c → phrase k = true → Lexes c (kw k).
Proof.
  intros <- Hk. pose proof (Lexes_phrase k "" [] Hk I Lexes_nil) as Hl. rewrite app_nil_r_s, app_nil_r in Hl.
  by apply Lexes_space.
Qed.

Lemma Lexes_ident_end name : Lexes (quoteIdent name) [TIdent name].
Proof. rewrite <- (app_nil_r_s (quoteIdent name)). apply Lexes_ident; [done|apply Lexes_nil]. Qed.

Lemma Lexes_string_end v : Lexes (quoteLiteral v) [TString v].
Proof. rewrite <- (app_nil_r_s (quoteLiteral v)). apply Lexes_string; [done|apply Lexes_nil]. Qed.

Lemma Lexes_number_end z : Lexes (Itoa z) [TNumber (Itoa z)].
Proof. pose proof (Lexes_number z "" [] I Lexes_nil) as Hl. by rewrite app_nil_r_s in Hl. Qed.

Ltac lexing :=
  repeat first
    [ apply Lexes_nil | apply Lexes_ident_end | apply Lexes_string_end
    | simple eapply Lexes_kw; [reflexivity|reflexivity|]
    | simple eapply Lexes_sp_kw; [reflexivity|reflexivity|]
    | simple eapply Lexes_sp_end; [reflexivity|reflexivity]
    | apply Lexes_ident; [done|] | apply Lexes_string; [done|] ].

Lemma Lexes_membership opts :
  let text := match membership_with opts with [] => "" | w => " WITH " +:+ Join w ", " end in
  sep text ∧ Lexes text (membership_tokens opts).
Proof.
  destruct opts as [[] [[]|] [[]|]]; (split; [done|]); by apply sql_tokens_Lexes; vm_compute.
Qed.

Lemma Lexes_clause keyword text name s ts :
  " " +:+ keyword +:+ " " = text → phrase keyword = true → sep s → Lexes s ts →
  let c := if decide (name = "") then "" else text +:+ quoteIdent name in
  sep (c +:+ s) ∧ Lexes (c +:+ s) (clause keyword name ++ ts).
Proof.
  intros <- Hk Hsep Hs c. subst c. unfold clause. case_decide; [done|]. split; [exact eq_refl|].
  rewrite !app_assoc_s, <- app_assoc. apply Lexes_space, Lexes_phrase; [done|done|]. apply Lexes_space. by apply Lexes_ident.
Qed.

Lemma Lexes_clause_end keyword text name :
  " " +:+ keyword +:+ " " = text → phrase keyword = true →
  let c := if decide (name = "") then "" else text +:+ quoteIdent name in sep c ∧ Lexes c (clause keyword name).
Proof.
  intros Ht Hk c. destruct (Lexes_clause keyword text name "" [] Ht Hk I Lexes_nil) as [Hs Hl].
  rewrite app_nil_r_s, app_nil_r in Hl. by rewrite app_nil_r_s in Hs.
Qed.

Lemma Lexes_role_options name verb opts :
  phrase verb = true →
  Lexes (Join ((verb +:+ " " +:+ quoteIdent name) :: buildRoleOptions opts) " ") (kw verb ++ TIdent name :: role_tokens opts).
Proof.
  intros Hv.
  assert (∀ b k s ts, phrase k = true → phrase ("NO" +:+ k) = true → sep s → Lexes s ts → Lexes (flag b k +:+ s) (kw (flag b k) ++ ts)) as Hflag
    by (intros [] k s ts ????; by apply Lexes_phrase).
  unfold buildRoleOptions, role_tokens. cbn [app]. rewrite !Join_cons2, !app_assoc_s.
  apply Lexes_phrase; [done|done|]. apply Lexes_space. apply Lexes_ident; [done|]. apply Lexes_space.
  apply Hflag; [done..|]. apply Lexes_space. apply (Lexes_phrase "NOSUPERUSER"); [done|done|].
  do 5 (apply Lexes_space; apply Hflag; [done..|]). apply Lexes_space.
  destruct (decide (ro_Password opts = "")) as [Hp|Hp]; cbn [Join].
  - eapply Lexes_kw; [done|done|]. apply Lexes_number_end.
  - rewrite !app_assoc_s. eapply Lexes_kw; [done|done|]. apply Lexes_number; [done|]. apply Lexes_space. lexing.
Qed.

Lemma Lexes_grantee grantee who s ts : renderGrantee grantee = inl who → sep s → Lexes s ts → Lexes (who +:+ s) (grantee_tokens grantee ++ ts).
Proof.
  unfold grantee_tokens. intros [(-> & -> & _)|(-> & -> & _)]%renderGrantee_inl Hsep Hs; [by apply Lexes_phrase|by apply Lexes_ident].
Qed.

Lemma Lexes_privileges allowed privileges ps s ts :
  forallb phrase allowed = true → asked_keywords allowed privileges ps → sep s → Lexes s ts →
  Lexes (Join ps ", " +:+ s) (separated "," (kw <$> ps) ++ ts).
Proof.
  intros Ha (Hne & _ & _ & Hin). rewrite <- (list_fmap_id ps) at 1. apply Lexes_separated; [|apply comma_mark|done].
  intros p s' ts' Hp. apply Lexes_phrase. apply (proj1 (forallb_forall _ _) Ha), list_elem_of_In, Hin, Hp.
Qed.

Lemma Lexes_grant allowed privileges ps object obj grantee who wgo :
  forallb phrase allowed = true → asked_keywords allowed privileges ps →
  (∀ s ts, sep s → Lexes s ts → Lexes (object +:+ s) (obj ++ ts)) → renderGrantee grantee = inl who →
  Lexes (buildGrantQuery ps object who wgo) (grant_tokens ps obj grantee wgo).
Proof.
  intros Ha Hps Hobj Hwho. unfold buildGrantQuery, grant_tokens. eapply Lexes_kw; [done|done|].
  eapply Lexes_privileges; [done|done|done|]. eapply Lexes_sp_kw; [done|done|]. apply Hobj; [done|].
  eapply Lexes_sp_kw; [done|done|]. eapply Lexes_grantee; [done|by destruct wgo|].
  destruct wgo; unfold grant_option_tokens; lexing.
Qed.

Lemma Lexes_revoke allowed privileges ps object obj grantee who mode :
  forallb phrase allowed = true → asked_keywords allowed privileges ps →
  (∀ s ts, sep s → Lexes s ts → Lexes (object +:+ s) (obj ++ ts)) → renderGrantee grantee = inl who →
  Lexes (buildRevokeQuery ps object who mode) (revoke_tokens ps obj grantee mode).
Proof.
  intros Ha Hps Hobj Hwho. unfold buildRevokeQuery, revoke_tokens, revoke_mode_tokens, cascade_tokens. eapply Lexes_kw; [done|done|].
  assert (Lexes (Join ps ", " +:+ " ON " +:+ object +:+ " FROM " +:+ who +:+ (if Cascade mode then " CASCADE" else ""))
    (separated "," (kw <$> ps) ++ kw "ON" ++ obj ++ kw "FROM" ++ grantee_tokens grantee ++ (if Cascade mode then kw "CASCADE" else [])))
    as Hrest.
  { eapply Lexes_privileges; [done|done|done|]. eapply Lexes_sp_kw; [done|done|]. apply Hobj; [done|].
    eapply Lexes_sp_kw; [done|done|]. eapply Lexes_grantee; [done|by destruct (Cascade mode)|]. destruct (Cascade mode); lexing. }
  destruct (GrantOptionOnly mode); [|done]. by eapply Lexes_kw; [done|done|].
Qed.

Lemma Lexes_parameter name quoted s ts :
  quoteParameterName name = inl quoted → sep s → Lexes s ts → Lexes (quoted +:+ s) (parameter_tokens name ++ ts).
Proof.
  unfold quoteParameterName, NormalizeParameterName. destruct (_ || _); simpl; [done|]. intros [= <-] Hsep Hs.
  apply Lexes_separated; [|apply dot_mark| |done|done].
  - intros p s' ts' _. apply Lexes_ident.
  - apply Split_ne.
Qed.

Lemma Lexes_quotedName keyword name object s ts :
  quotedName keyword name = inl object → phrase keyword = true → sep s → Lexes s ts →
  Lexes (object +:+ s) (kw keyword ++ TIdent name :: ts).
Proof.
  unfold quotedName. intros Hq Hk Hsep Hs. case_decide; [done|]. injection Hq as <-. rewrite !app_assoc_s.
  apply Lexes_phrase; [done|done|]. apply Lexes_space. by apply Lexes_ident.
Qed.

Lemma Lexes_object obj privileges ps object :
  PrivilegeObject_render obj privileges = inl (ps, object) →
  ∃ k, objectKinds (po_Kind obj) = Some k ∧ forallb phrase (privileges_of k) = true ∧ asked_keywords (privileges_of k) privileges ps ∧
    ∀ s ts, sep s → Lexes s ts → Lexes (object +:+ s) (object_tokens obj ++ ts).
Proof.
  unfold PrivilegeObject_render, object_tokens. destruct (objectKinds _) as [k|] eqn:Ek; [|done].
  destruct (checkPrivileges _ _ _) as [checked|] eqn:Ec; simpl; [|done]. destruct (render_of k _) as [text|] eqn:Et; simpl; [|done].
  intros [= <- <-]. exists k. unfold objectKinds in Ek.
  split; [done|]. apply checkPrivileges_spec in Ec.
  destruct (decide (po_Kind obj = ObjectDatabase)) as [->|_];
    [|destruct (decide (po_Kind obj = ObjectSchema)) as [->|_]; [|destruct (decide (po_Kind obj = ObjectParameter)) as [->|_]; [|done]]];
    injection Ek as <-; (split; [done|split; [done|]]); intros s ts Hsep Hs.
  - by eapply (Lexes_quotedName "DATABASE").
  - by eapply (Lexes_quotedName "SCHEMA").
  - cbn in Et. destruct (quoteParameterName _) as [quoted|] eqn:Eq; [|done]. injection Et as <-.
    apply (Lexes_kw "PARAMETER" "PARAMETER " (quoted +:+ s)); [done|done|]. by eapply Lexes_parameter.
Qed.

Lemma Lexes_set {UL : UnicodeLower} parameter value text :
  buildSetClause parameter value = inl text →
  ∃ v, value_tokens parameter value v ∧ Lexes text (kw "SET" ++ parameter_tokens parameter ++ kw "TO" ++ v).
Proof.
  unfold buildSetClause. destruct (quoteParameterName parameter) as [name|] eqn:En; simpl; [|done].
  assert (NormalizeParameterName parameter = inl (ToLower parameter)) as ->.
  { unfold quoteParameterName, NormalizeParameterName in *. by destruct (_ || _). }
  destruct (formatSettingValue _ value) as [v|] eqn:Ev; simpl; [|done]. intros [= <-].
  assert (∃ ts, value_tokens parameter value ts ∧ Lexes v ts) as (ts & Hts & Hv).
  { unfold formatSettingValue, value_tokens in *. destruct (slices_Contains _ _); simpl in Ev.
    - destruct (is_blank value); [done|]. destruct (splitIdentifierList value) as [elems|] eqn:Es; [|done]. injection Ev as <-.
      eexists. split; [by exists elems|]. destruct elems as [|e es]; [apply Lexes_nil|].
      rewrite <- (app_nil_r_s (Join _ _)), <- (app_nil_r (separated _ _)).
      apply Lexes_separated; [|apply comma_mark|done|done|apply Lexes_nil]. intros x s' ts' _. apply Lexes_string.
    - injection Ev as <-. eexists. split; [done|]. apply Lexes_string_end. }
  exists ts. split; [done|]. apply (Lexes_kw "SET" "SET "); [done|done|]. eapply Lexes_parameter; [done|done|].
  by apply (Lexes_sp_kw "TO" " TO ").
Qed.

Lemma Lexes_reset parameter text :
  buildResetClause parameter = inl text → Lexes text (kw "RESET" ++ parameter_tokens parameter).
Proof.
  unfold buildResetClause. destruct (quoteParameterName parameter) as [name|] eqn:En; simpl; [|done]. intros [= <-].
  apply (Lexes_kw "RESET" "RESET "); [done|done|]. rewrite <- (app_nil_r_s name), <- (app_nil_r (parameter_tokens _)).
  eapply Lexes_parameter; [done|done|apply Lexes_nil].
Qed.

Lemma Lexes_role_target role database target s ts :
  alterRoleTarget role database = inl target → sep s → Lexes s ts →
  Lexes (target +:+ s) (kw "ALTER ROLE" ++ TIdent role :: clause "IN DATABASE" database ++ ts).
Proof.
  unfold alterRoleTarget. case_decide; [done|]. intros Ht Hsep Hs.
  assert (target = "ALTER ROLE " +:+ quoteIdent role +:+ (if decide (database = "") then "" else " IN DATABASE " +:+ quoteIdent database)) as ->.
  { apply (inj inl) in Ht as <-. case_decide; [by rewrite app_nil_r_s|by rewrite app_assoc_s]. }
  destruct (Lexes_clause "IN DATABASE" " IN DATABASE " database s ts eq_refl eq_refl Hsep Hs) as [Hsep' Hl].
  rewrite !app_assoc_s. apply (Lexes_kw "ALTER ROLE" "ALTER ROLE "); [done|done|]. by apply Lexes_ident.
Qed.

Lemma Lexes_create_extension name schema version cascade :
  Lexes (buildCreateExtensionQuery name schema version cascade)
    (kw "CREATE EXTENSION" ++ TIdent name :: clause "SCHEMA" schema
       ++ (if decide (version = "") then [] else kw "VERSION" ++ [TString version]) ++ (if cascade then kw "CASCADE" else [])).
Proof.
  unfold buildCreateExtensionQuery. set (end_ := if cascade then " CASCADE" else "").
  assert (sep end_ ∧ Lexes end_ (if cascade then kw "CASCADE" else [])) as [Hs1 Hl1] by (subst end_; destruct cascade; (split; [done|lexing])).
  set (mid := (if decide (version = "") then "" else _) +:+ end_).
  assert (sep mid ∧ Lexes mid ((if decide (version = "") then [] else kw "VERSION" ++ [TString version]) ++ (if cascade then kw "CASCADE" else [])))
    as [Hs2 Hl2].
  { subst mid. case_decide; [done|]. split; [done|]. rewrite app_assoc_s, <- app_assoc.
    apply (Lexes_sp_kw "VERSION" " VERSION "); [done|done|]. by apply Lexes_string. }
  destruct (Lexes_clause "SCHEMA" " SCHEMA " schema _ _ eq_refl eq_refl Hs2 Hl2) as [Hs3 Hl3].
  apply (Lexes_kw "CREATE EXTENSION" "CREATE EXTENSION "); [done|done|]. by apply Lexes_ident.
Qed.

Lemma default_kind_phrases kind x object :
  defaultObjectKinds kind = Some (x, object) →
  phrase kind = true ∧ forallb phrase (default [] (SchemaObjectPrivileges object)) = true.
Proof. unfold defaultObjectKinds. intros Hk. repeat case_decide; by simplify_eq. Qed.

Lemma Lexes_default {UL : UnicodeLower} grant t grantee privileges wgo mode q :
  buildDefaultPrivilegesQuery grant t grantee privileges wgo mode = inl q →
  ∃ ts, Lexes q ts ∧ reads_as (StDefault grant t grantee privileges wgo mode) ts.
Proof.
  unfold buildDefaultPrivilegesQuery. cbn [reads_as]. intros Hq.
  destruct (defaultObjectKinds _) as [[x object]|] eqn:Ek; [|done]. destruct (default_kind_phrases _ _ _ Ek) as [Hk Ha].
  destruct (checkPrivileges _ _ _) as [ps|] eqn:Ec; [|done]. cbn beta iota zeta in Hq. destruct (_ || _); [done|].
  destruct (IsPublic _); [done|]. destruct (renderGrantee grantee) as [who|] eqn:Ew; [|done]. cbn beta iota zeta in Hq.
  apply checkPrivileges_spec in Ec.
  assert (∀ s ts, sep s → Lexes s ts → Lexes (dt_Kind t +:+ s) (kw (dt_Kind t) ++ ts)) as Hobj by (intros s ts; by apply Lexes_phrase).
  set (prefix := "ALTER DEFAULT PRIVILEGES FOR ROLE " +:+ _) in *.
  assert (∀ s ts, Lexes s ts → Lexes (prefix +:+ s) (kw "ALTER DEFAULT PRIVILEGES FOR ROLE" ++ TIdent (dt_ForRole t)
    :: kw "IN SCHEMA" ++ TIdent (dt_Schema t) :: ts)) as Hp.
  { intros s ts Hs. subst prefix. rewrite !app_assoc_s. eapply Lexes_kw; [done|done|]. apply Lexes_ident; [done|].
    eapply Lexes_sp_kw; [done|done|]. apply Lexes_ident; [done|]. by apply Lexes_space. }
  destruct grant; cbn [negb] in Hq; [case_match; [done|]|]; injection Hq as <-; eexists; (split; [|by exists object, ps]); apply Hp.
  - by eapply Lexes_grant.
  - by eapply Lexes_revoke.
Qed.

Lemma Lexes_role_setting {UL : UnicodeLower} role database parameter value q :
  buildAlterRoleSetQuery role database parameter value = inl q → ∃ ts, Lexes q ts ∧ reads_as (StSetRole role database parameter value) ts.
Proof.
  unfold buildAlterRoleSetQuery. cbn [reads_as]. intros Hq. destruct (alterRoleTarget role database) as [target|] eqn:Et; [|done].
  destruct (buildSetClause parameter value) as [text|] eqn:Es; [|done]. apply (inj inl) in Hq as <-.
  destruct (Lexes_set _ _ _ Es) as (v & Hv & Hl). eexists. split; [|by exists v].
  eapply Lexes_role_target; [done|done|]. by apply Lexes_space.
Qed.

Lemma Lexes_role_reset {UL : UnicodeLower} role database parameter q :
  buildAlterRoleResetQuery role database parameter = inl q → ∃ ts, Lexes q ts ∧ reads_as (StResetRole role database parameter) ts.
Proof.
  unfold buildAlterRoleResetQuery. intros Hq. destruct (alterRoleTarget role database) as [target|] eqn:Et; [|done].
  destruct (buildResetClause parameter) as [text|] eqn:Es; [|done]. apply (inj inl) in Hq as <-. eexists. split; [|done].
  eapply Lexes_role_target; [done|done|]. apply Lexes_space. by apply Lexes_reset.
Qed.

Lemma Lexes_database_setting {UL : UnicodeLower} database parameter value q :
  buildAlterDatabaseSetQuery database parameter value = inl q → ∃ ts, Lexes q ts ∧ reads_as (StSetDatabase database parameter value) ts.
Proof.
  unfold buildAlterDatabaseSetQuery. cbn [reads_as]. intros Hq.
  destruct (buildSetClause parameter value) as [text|] eqn:Es; [|done]. apply (inj inl) in Hq as <-.
  destruct (Lexes_set _ _ _ Es) as (v & Hv & Hl). eexists. split; [|by exists v].
  apply (Lexes_kw "ALTER DATABASE" "ALTER DATABASE "); [done|done|]. apply Lexes_ident; [done|]. by apply Lexes_space.
Qed.

Lemma Lexes_database_reset {UL : UnicodeLower} database parameter q :
  buildAlterDatabaseResetQuery database parameter = inl q → ∃ ts, Lexes q ts ∧ reads_as (StResetDatabase database parameter) ts.
Proof.
  unfold buildAlterDatabaseResetQuery. intros Hq. destruct (buildResetClause parameter) as [text|] eqn:Es; [|done].
  apply (inj inl) in Hq as <-. eexists. split; [|done].
  apply (Lexes_kw "ALTER DATABASE" "ALTER DATABASE "); [done|done|]. apply Lexes_ident; [done|].
  apply Lexes_space. by apply Lexes_reset.
Qed.

Lemma Lexes_object_statement {UL : UnicodeLower} grant kind canonical grantee privileges wgo mode q :
  buildSchemaObjectPrivilegesQuery grant kind canonical grantee privileges wgo mode = inl q → is_Some (sql_tokens canonical) →
  ∃ ts, Lexes q ts ∧ reads_as (StObject grant kind canonical grantee privileges wgo mode) ts.
Proof.
  unfold buildSchemaObjectPrivilegesQuery. cbn [reads_as]. intros Hq [object Ho].
  destruct (SchemaObjectPrivileges kind) as [allowed|] eqn:Ea; [|done].
  assert (phrase kind = true ∧ forallb phrase allowed = true) as [Hk Hp]
    by (unfold SchemaObjectPrivileges in Ea; repeat case_decide; by simplify_eq).
  destruct (checkPrivileges _ _ _) as [ps|] eqn:Ec; [|done]. cbn beta iota zeta in Hq. case_decide; [done|].
  destruct (renderGrantee grantee) as [who|] eqn:Ew; [|done]. cbn beta iota zeta in Hq. apply checkPrivileges_spec in Ec.
  assert (∀ s ts, sep s → Lexes s ts → Lexes ((kind +:+ " " +:+ canonical) +:+ s) ((kw kind ++ object) ++ ts)) as Hobj.
  { intros s ts Hsep Hs. rewrite !app_assoc_s, <- app_assoc. apply Lexes_phrase; [done|done|]. apply Lexes_space.
    apply Lexes_app; [by apply sql_tokens_Lexes|done|done]. }
  destruct grant; cbn [negb] in Hq; [case_match; [done|]|]; injection Hq as <-; eexists; (split; [|by exists allowed, ps, object]).
  - by eapply Lexes_grant.
  - by eapply Lexes_revoke.
Qed.

Lemma Lexes_rendered_list l objects s ts :
  Forall2 (λ id object, sql_tokens id = Some object) l objects → l ≠ [] → sep s → Lexes s ts →
  Lexes (Join l ", " +:+ s) (separated "," objects ++ ts).
Proof.
  intros Hl Hne Hsep Hs. induction Hl as [|x o l objects Hx Hl IH]; [done|]. destruct Hl as [|y o' l objects Hy Hl].
  - cbn [Join separated]. apply Lexes_app; [by apply sql_tokens_Lexes|done|done].
  - rewrite Join_cons2, !app_assoc_s. cbn [separated]. rewrite <- app_assoc. cbn [app].
    destruct (comma_mark (Join (y :: l) ", " +:+ s) (separated "," (o' :: objects) ++ ts)) as [Hsep' Hl']; [by apply IH|].
    apply Lexes_app; [by apply sql_tokens_Lexes|done|done].
Qed.

Lemma member_batch_in fuel ids i batch id : member_batches fuel ids !! i = Some batch → id ∈ batch → id ∈ ids.
Proof.
  revert ids i. induction fuel as [|fuel IH]; intros [|x ids] i; try done. cbn [member_batches]. intros Hb Hi.
  rewrite <- (take_drop memberBatch (x :: ids)). apply elem_of_app. destruct i as [|i]; cbn [lookup list_lookup] in Hb.
  - left. by injection Hb as <-.
  - right. by eapply IH.
Qed.

Lemma rendered_tokens batch : (∀ id, id ∈ batch → is_Some (sql_tokens id)) → ∃ objects, Forall2 (λ id object, sql_tokens id = Some object) batch objects.
Proof.
  induction batch as [|x batch IH]; intros Hb; [by exists []|]. destruct (Hb x) as [o Ho]; [by left|].
  destruct IH as [os Hos]; [intros; apply Hb; by right|]. exists (o :: os). by constructor.
Qed.

Lemma Lexes_members {UL : UnicodeLower} grant kind identities privileges grantee i q :
  statement_text (StMembers grant kind identities privileges grantee i) = inl q → (∀ id, id ∈ identities → is_Some (sql_tokens id)) →
  ∃ ts, Lexes q ts ∧ reads_as (StMembers grant kind identities privileges grantee i) ts.
Proof.
  cbn [statement_text reads_as]. unfold buildMemberPrivilegesQueries. intros Hq Hids.
  destruct (memberPrivileges kind) as [allowed|] eqn:Ea; [|done].
  assert (phrase kind = true ∧ forallb phrase allowed = true) as [Hk Hp] by (unfold memberPrivileges in Ea; repeat case_decide; by simplify_eq).
  destruct (checkPrivileges _ _ _) as [ps|] eqn:Ec; [|done]. cbn beta iota zeta in Hq.
  destruct (renderGrantee grantee) as [who|] eqn:Ew; [|done]. cbn beta iota zeta in Hq. apply checkPrivileges_spec in Ec.
  destruct (member_queries _ _ _) as [qs|] eqn:Em; [|done]. cbn beta iota in Hq.
  destruct (member_queries_spec _ _ _ _ Em) as [-> _]. rewrite list_lookup_fmap in Hq.
  destruct (_ !! i) as [batch|] eqn:Eb; [|done]. cbn beta iota zeta in Hq. apply (inj inl) in Hq as <-.
  destruct (rendered_tokens batch) as [objects Hobjects]; [intros id Hid; by eapply Hids, member_batch_in|].
  assert (batch ≠ []) as Hne.
  { intros ->. apply list_elem_of_lookup_2, member_batches_sizes in Eb. simpl in Eb. lia. }
  assert (∀ s ts, sep s → Lexes s ts → Lexes ((kind +:+ " " +:+ Join batch ", ") +:+ s) ((kw kind ++ separated "," objects) ++ ts)) as Hobj.
  { intros s ts Hsep Hs. rewrite !app_assoc_s, <- app_assoc. apply Lexes_phrase; [done|done|]. apply Lexes_space.
    by apply Lexes_rendered_list. }
  destruct grant; eexists; (split; [|by exists allowed, ps, batch, objects]).
  - by eapply Lexes_grant.
  - by eapply Lexes_revoke.
Qed.

Lemma Lexes_revoke_all keyword name role q :
  q = "REVOKE ALL ON " +:+ keyword +:+ " " +:+ quoteIdent name +:+ " FROM " +:+ quoteIdent role +:+ " CASCADE" → phrase keyword = true →
  Lexes q (kw "REVOKE ALL ON" ++ kw keyword ++ TIdent name :: kw "FROM" ++ TIdent role :: kw "CASCADE").
Proof.
  intros -> Hk. apply (Lexes_kw "REVOKE ALL ON" "REVOKE ALL ON "); [done|done|]. apply Lexes_phrase; [done|done|]. apply Lexes_space. lexing.
Qed.

(** ** The operations execute only statements of [statement] *)

(** [DbStatement]: a text executed without parameters. With parameters the texts are
    constants, and the values do not reach the text. *)
Inductive db_event := DbStatement (q : string) | DbOther.

Section sent.
Context `{UnicodePrint} {UL : UnicodeLower} {W : Type} (db0 : SqlDB W) (random0 : nat → M W (result string)).
Abbreviation other := (logged (λ _, DbOther)).

Definition logged_db : SqlDB (W * list db_event) :=
  {| db_Exec := λ q args, logged (λ _, match args with [] => DbStatement q | _ => DbOther end) (db_Exec db0 q args);
     db_ExecDetail := λ q, logged (λ _, DbStatement q) (db_ExecDetail db0 q);
     db_Query := λ q args, other (db_Query db0 q args); db_Begin := other (db_Begin db0);
     db_TxExec := λ q, logged (λ _, DbStatement q) (db_TxExec db0 q);
     db_Rollback := other (db_Rollback db0); db_Commit := other (db_Commit db0) |}.
Abbreviation db := logged_db.
Abbreviation random := (λ n, other (random0 n)).

Definition sent (ev : db_event) : Prop := match ev with DbStatement q => ∃ st, statement_text st = inl q | DbOther => True end.
Abbreviation only := (only (W := W) sent).

Lemma exec_sent st q : statement_text st = inl q → only (exec db q).
Proof. intros Hq. apply only_logged. intros _. by exists st. Qed.

Lemma execBuilt_sent st fmt args : only (execBuilt db (statement_text st) fmt args).
Proof.
  unfold execBuilt. destruct (statement_text st) as [q|e] eqn:Hq; [|apply only_ret]. apply only_bind; [by eapply exec_sent|].
  intros. apply only_ret.
Qed.

Lemma query_sent {A} (scan : list cell → option A) q args : only (queryRow db scan q args).
Proof. apply only_bind; [by apply only_logged|]. intros. apply only_ret. Qed.

Lemma queryOne_sent {A} (scan : list cell → option A) q args fmt fargs : only (queryOne db scan q args fmt fargs).
Proof.
  apply only_bind; [|intros; apply only_ret]. apply only_bind; [apply query_sent|intros; apply only_ret].
Qed.

Lemma queryRows_sent {A} (scan : list cell → option A) q args e1 e2 e3 : only (queryRows db scan q args e1 e2 e3).
Proof. apply only_bind; [by apply only_logged|]. intros. apply only_ret. Qed.

(** Walks through an operation; its statement is given by the operation's own lemma. *)
Ltac walk_sent :=
  repeat (lazymatch goal with
    | |- ∀ _, _ => intro
    | |- Trace.only _ (mret _) => apply only_ret
    | |- Trace.only _ (queryOne _ _ _ _ _ _) => apply queryOne_sent
    | |- Trace.only _ (queryRow _ _ _ _) => apply query_sent
    | |- Trace.only _ (queryRows _ _ _ _ _ _ _) => apply queryRows_sent
    | |- Trace.only _ (logged (λ _, DbOther) _) => by apply only_logged
    | |- Trace.only _ (db_Begin _) => by apply only_logged
    | |- Trace.only _ (db_Rollback _) => by apply only_logged
    | |- Trace.only _ (db_Commit _) => by apply only_logged
    | |- Trace.only _ (mbind _ _) => apply only_bind
    | |- Trace.only _ (match ?x with _ => _ end) => destruct x eqn:?
    | |- Trace.only _ ((λ _, _) _) => progress cbv beta
    | |- Trace.only _ _ => first [assumption | match goal with H : ∀ _, Trace.only _ _ |- _ => apply H end]
    end).

(** The operations that execute statements, over the connection [db]. *)
Context `{ScramPrimitives} `{Sha256} `{ErrorText}.
Abbreviation cn := (client_connection db).

Inductive operation : ∀ {A}, M (W * list db_event) A → Prop :=
  | op_GrantRole r m o : operation (Client_GrantRole db r m o)
  | op_RevokeAdminOption r m : operation (Client_RevokeAdminOption db r m)
  | op_RevokeRole r m : operation (Client_RevokeRole db r m)
  | op_CreateRole n o : operation (CreateRole (client_session db random) error_text n o)
  | op_DropRole n : operation (DropRole (db_ExecDetail db) n)
  | op_CommentOnDatabase n c : operation (Client_CommentOnDatabase db n c)
  | op_CreateDatabase n o c : operation (Client_CreateDatabase db n o c)
  | op_DropDatabase n : operation (Client_DropDatabase db n)
  | op_CreateSchema n o : operation (Client_CreateSchema db n o)
  | op_AlterSchemaOwner n o : operation (Client_AlterSchemaOwner db n o)
  | op_GrantPrivileges o g ps wgo : operation (Client_GrantPrivileges db o g ps wgo)
  | op_RevokePrivileges o g ps mode : operation (Client_RevokePrivileges db o g ps mode)
  | op_SetRoleParameter r d p v : operation (Client_SetRoleParameter db r d p v)
  | op_ResetRoleParameter r d p : operation (Client_ResetRoleParameter db r d p)
  | op_SetDatabaseParameter d p v : operation (Client_SetDatabaseParameter db d p v)
  | op_ResetDatabaseParameter d p : operation (Client_ResetDatabaseParameter db d p)
  | op_CreateSlot n r : operation (Client_CreatePhysicalReplicationSlot db n r)
  | op_DropSlot n : operation (Client_DropReplicationSlot db n)
  | op_GrantOnSchemaObject k s i oid g ps wgo : operation (GrantOnSchemaObject cn k s i oid g ps wgo)
  | op_RevokeOnSchemaObject k s i oid g ps mode : operation (RevokeOnSchemaObject cn k s i oid g ps mode)
  | op_GrantDefaultPrivileges t g ps wgo : operation (GrantDefaultPrivileges cn t g ps wgo)
  | op_RevokeDefaultPrivileges t g ps mode : operation (RevokeDefaultPrivileges cn t g ps mode)
  | op_RevokeAllDatabasePrivileges r : operation (RevokeAllDatabasePrivileges cn r)
  | op_RevokeAllSchemaPrivileges r : operation (RevokeAllSchemaPrivileges cn r)
  | op_RevokeAllExtensionMemberPrivileges r : operation (RevokeAllExtensionMemberPrivileges cn (Client_heldMembers db) r)
  | op_ReassignOwned old target : operation (ReassignOwned cn old target)
  | op_CreateExtension n s v c : operation (CreateExtension cn n s v c)
  | op_UpdateExtension n v : operation (UpdateExtension cn n v)
  | op_DropExtension n : operation (DropExtension cn n)
  | op_GrantOnMembers k ids ps g : operation (GrantOnMembers cn k ids ps g)
  | op_RevokeOnMembers k ids ps g : operation (RevokeOnMembers cn k ids ps g).

Lemma wrapping_sent fmt args m : only m → only (wrapping fmt args m).
Proof. intros Hm. apply only_bind; [exact Hm|]. intros. apply only_ret. Qed.

Lemma tx_sent st q : statement_text st = inl q → only (db_TxExec db q).
Proof. intros Hq. apply only_logged. intros _. by exists st. Qed.

Lemma CreateRole_sent n o : only (CreateRole (client_session db random) error_text n o).
Proof.
  unfold CreateRole, CreateRole_tx, create_role_error. cbn [client_session s_role_exists s_exec s_begin s_tx_exec s_commit s_rollback s_verifier].
  assert (∀ pw, only (ScramSHA256Verifier random pw)) by (intros; unfold ScramSHA256Verifier; walk_sent).
  unfold queryRaw. walk_sent.
  - match goal with |- context [buildRoleQuery n b ?o'] => by apply (exec_sent (StRole n b o')) end.
  - match goal with |- context [buildRoleQuery n b ?o'] => by apply (tx_sent (StRole n b o')) end.
  - match goal with |- context [buildCommentQuery _ n ?c] => by apply (tx_sent (StComment false n c)) end.
Qed.

Lemma resolve_sent k s i oid : only (resolveSchemaObject cn k s i oid).
Proof.
  unfold resolveSchemaObject. cbn [client_connection cn_object_by_oid cn_object_by_name]. unfold resolved_by. cbv zeta. walk_sent.
Qed.

Lemma exec_each_sent query err names : (∀ n, ∃ st, statement_text st = inl (query n)) → only (exec_each cn query err names).
Proof.
  intros Hq. induction names as [|n names IH]; cbn [exec_each]; walk_sent. destruct (Hq n) as [st Hst]. by apply (exec_sent st).
Qed.

Lemma revokeMembers_sent r objs : only (revokeMembers cn r objs).
Proof.
  induction objs as [|[kind ident] objs IH]; cbn [revokeMembers]; walk_sent. by apply (exec_sent (StRevokeAllMember kind ident r)).
Qed.

Lemma ReassignOwned_sent old target : only (ReassignOwned cn old target).
Proof.
  unfold ReassignOwned. cbn [client_connection cn_begin cn_commit buildReassignOwnedQueries reassign_statements cn_tx_exec cn_rollback].
  walk_sent.
  - by apply (tx_sent (StReassign old target)).
  - by apply (tx_sent (StDropOwned old)).
Qed.

Lemma CreateExtension_sent n s v c : only (CreateExtension cn n s v c).
Proof.
  unfold CreateExtension. cbv zeta. cbn [client_connection cn_exec cn_begin cn_commit cn_tx_exec cn_rollback]. walk_sent.
  - by apply (exec_sent (StCreateExtension n s v c)).
  - by apply (tx_sent StSearchPath).
  - by apply (tx_sent (StCreateExtension n s v c)).
Qed.

Lemma execMemberQueries_sent grant k ids ps g : only (execMemberQueries cn grant k ids ps g).
Proof.
  unfold execMemberQueries. destruct (buildMemberPrivilegesQueries grant k ids ps g) as [qs|] eqn:Hb; [|apply only_ret].
  assert (∀ q, q ∈ qs → ∃ st, statement_text st = inl q) as Hqs.
  { intros q [i Hi]%list_elem_of_lookup_1. exists (StMembers grant k ids ps g i). cbn [statement_text]. by rewrite Hb, Hi. }
  clear Hb. generalize (Wrapf "failed to %s privileges on extension %s objects for %q: %w" [if grant then "grant" else "revoke"; ToLower k; g]).
  intros err. induction qs as [|q qs IH]; cbn [exec_queries]; walk_sent.
  - destruct (Hqs q) as [st Hst]; [by left|]. by apply (exec_sent st).
  - apply Hqs. by right.
Qed.

Lemma operation_sent {A} (m : M (W * list db_event) A) : operation m → only m.
Proof.
  intros []; try (apply wrapping_sent).
  - by apply (exec_sent (StGrantRole r m0 o)).
  - by apply (exec_sent (StRevokeAdmin r m0)).
  - by apply (exec_sent (StRevokeRole r m0)).
  - apply CreateRole_sent.
  - apply only_bind; [|intros; apply only_ret]. apply only_logged. intros _. by exists (StDropRole n).
  - by apply (exec_sent (StComment true n c)).
  - unfold Client_CreateDatabase. cbv zeta. walk_sent; try by apply (exec_sent (StCreateDatabase n o)).
    apply wrapping_sent. by apply (exec_sent (StAlterDatabaseOwner n o)).
  - by apply (exec_sent (StDropDatabase n)).
  - apply only_bind; [by apply (exec_sent (StCreateSchema n o))|intros; apply only_ret].
  - by apply (exec_sent (StAlterSchemaOwner n o)).
  - apply (execBuilt_sent (StGrant o g ps wgo)).
  - apply (execBuilt_sent (StRevoke o g ps mode)).
  - apply (execBuilt_sent (StSetRole r d p v)).
  - apply (execBuilt_sent (StResetRole r d p)).
  - apply (execBuilt_sent (StSetDatabase d p v)).
  - apply (execBuilt_sent (StResetDatabase d p)).
  - by apply only_logged.
  - by apply only_logged.
  - unfold GrantOnSchemaObject. apply only_bind; [apply resolve_sent|]. cbv zeta. walk_sent.
    match goal with H : buildSchemaObjectPrivilegesQuery _ k ?c _ _ _ _ = inl _ |- _ => by apply (exec_sent (StObject true k c g ps wgo no_mode)) end.
  - unfold RevokeOnSchemaObject, ResolveSchemaObject. apply only_bind; [apply only_bind; [apply resolve_sent|intros; apply only_ret]|]. walk_sent.
    match goal with H : buildSchemaObjectPrivilegesQuery _ k ?c _ _ _ _ = inl _ |- _ => by apply (exec_sent (StObject false k c g ps false mode)) end.
  - unfold GrantDefaultPrivileges. walk_sent. by apply (exec_sent (StDefault true t g ps wgo no_mode)).
  - unfold RevokeDefaultPrivileges. walk_sent. by apply (exec_sent (StDefault false t g ps false mode)).
  - unfold RevokeAllDatabasePrivileges. cbn [client_connection cn_granted_databases]. unfold Client_listStrings. walk_sent.
    apply exec_each_sent. intros d. by exists (StRevokeAllDatabase d r).
  - unfold RevokeAllSchemaPrivileges. cbn [client_connection cn_granted_schemas]. unfold Client_listStrings. walk_sent.
    apply exec_each_sent. intros d. by exists (StRevokeAllSchema d r).
  - unfold RevokeAllExtensionMemberPrivileges, Client_heldMembers. walk_sent. apply revokeMembers_sent.
  - apply ReassignOwned_sent.
  - apply CreateExtension_sent.
  - unfold UpdateExtension. walk_sent. by apply (exec_sent (StUpdateExtension n v)).
  - unfold DropExtension. walk_sent. by apply (exec_sent (StDropExtension n)).
  - apply execMemberQueries_sent.
  - apply execMemberQueries_sent.
Qed.

End sent.

Lemma statement_reads_back {UL : UnicodeLower} st q :
  statement_text st = inl q → rendered st → ∃ ts, sql_tokens q = Some ts ∧ reads_as st ts.
Proof.
  intros Hq Hr. setoid_rewrite sql_tokens_Lexes. destruct st; cbn [rendered] in Hr; try cbn [statement_text reads_as] in *;
    try (apply (inj inl) in Hq as <-; eexists; split; [|reflexivity]).
  - unfold buildGrantRoleQuery. destruct (Lexes_membership opts). lexing. done.
  - unfold RevokeAdminOption_query. lexing.
  - unfold RevokeRole_query. lexing.
  - unfold buildRoleQuery.
    destruct exists_; [by apply (Lexes_role_options name "ALTER ROLE")|by apply (Lexes_role_options name "CREATE ROLE")].
  - unfold DropRole_query. lexing.
  - unfold buildCommentQuery.
    destruct database; lexing; [apply (Lexes_kw "DATABASE" "DATABASE ")|apply (Lexes_kw "ROLE" "ROLE ")]; lexing; done.
  - unfold createDatabaseQuery. destruct (Lexes_clause_end "OWNER" " OWNER " owner eq_refl eq_refl). lexing. done.
  - unfold alterDatabaseOwnerQuery. lexing.
  - unfold dropDatabaseQuery. lexing.
  - unfold createSchemaQuery. destruct (Lexes_clause_end "AUTHORIZATION" " AUTHORIZATION " owner eq_refl eq_refl). lexing. done.
  - unfold alterSchemaOwnerQuery. lexing.
  - unfold buildReassignOwnedQueries. cbn [nth]. lexing.
  - unfold buildReassignOwnedQueries. cbn [nth]. lexing.
  - apply Lexes_create_extension.
  - unfold buildUpdateExtensionQuery. lexing.
  - unfold buildDropExtensionQuery. lexing.
  - unfold buildGrantPrivilegesQuery in Hq. destruct (PrivilegeObject_render _ _) as [[ps object]|] eqn:Eo; [|done].
    destruct (renderGrantee grantee) as [who|] eqn:Ew; [|done]. simpl in Hq. case_match; [done|]. apply (inj inl) in Hq as <-.
    destruct (Lexes_object _ _ _ _ Eo) as (k & Hk & Ha & Hps & Hobj).
    eexists. split; [by eapply Lexes_grant|]. by exists k, ps.
  - unfold buildRevokePrivilegesQuery in Hq. destruct (PrivilegeObject_render _ _) as [[ps object]|] eqn:Eo; [|done].
    destruct (renderGrantee grantee) as [who|] eqn:Ew; [|done]. apply (inj inl) in Hq as <-.
    destruct (Lexes_object _ _ _ _ Eo) as (k & Hk & Ha & Hps & Hobj).
    eexists. split; [by eapply Lexes_revoke|]. by exists k, ps.
  - by apply Lexes_default.
  - by apply Lexes_role_setting.
  - by apply Lexes_role_reset.
  - by apply Lexes_database_setting.
  - by apply Lexes_database_reset.
  - by apply Lexes_object_statement.
  - by apply Lexes_members.
  - by apply (Lexes_revoke_all "DATABASE").
  - by apply (Lexes_revoke_all "SCHEMA").
  - destruct Hr as [Hk [object Ho]]. apply (inj inl) in Hq as <-. eexists. split; [|by exists object].
    apply (Lexes_kw "REVOKE ALL ON" "REVOKE ALL ON "); [done|done|]. rewrite !app_assoc_s. apply Lexes_phrase; [done|done|].
    apply Lexes_space. apply Lexes_app; [by apply sql_tokens_Lexes|done|]. lexing.
  - by apply sql_tokens_Lexes.
Qed.


Module Toy.
#[local] Existing Instance ascii_case.

(** A Role whose name tries to end the statement, and its password to end the literal. *)
Definition hostile : string := "app" +:+ str1 dquote +:+ " SUPERUSER; DROP ROLE admin; --".
Definition password : string := "it's \' here".
Definition options : RoleOptions :=
  {| ro_Password := password; ro_KeepExistingPassword := false; ro_Login := true; ro_CreateDB := false; ro_CreateRole := false;
     ro_Inherit := true; ro_Replication := false; ro_BypassRLS := false; ro_ConnectionLimit := -1; ro_Comment := ""; ro_CreateOnly := false |}.
Definition st : statement := StRole hostile false options.

Definition text : string := match statement_text st with inl q => q | inr _ => "" end.

Example read : sql_tokens text = Some (kw "CREATE ROLE" ++ TIdent hostile :: kw "LOGIN NOSUPERUSER NOCREATEDB NOCREATEROLE INHERIT"
  ++ kw "NOREPLICATION NOBYPASSRLS CONNECTION LIMIT" ++ TNumber "-1" :: kw "PASSWORD" ++ [TString password]).
Proof. vm_compute. reflexivity. Qed.

(** Without the quotes the name is not one word, and the text no statement. *)
Example unquoted : sql_tokens ("DROP ROLE IF EXISTS " +:+ hostile) = None.
Proof. vm_compute. reflexivity. Qed.

#[local] Instance toy_print : UnicodePrint := λ _, false.
#[local] Instance toy_text : ErrorText := λ _, "".
#[local] Instance toy_sha : Sha256 := {| sha256 := λ _, "x" |}.
#[local] Instance toy_scram : ScramPrimitives :=
  {| pbkdf2_Key := λ _ _ _, inl "k"; hmacSHA256 := λ _ _, "h"; base64_EncodeToString := λ _, "b"; SASLprep_Prepare := inl |}.
Definition server : SqlDB unit :=
  {| db_Exec := λ _ _, mret None; db_ExecDetail := λ _, mret None; db_Query := λ _ _, mret (inl ([], None)); db_Begin := mret None;
     db_TxExec := λ _, mret None; db_Rollback := mret (); db_Commit := mret None |}.
Definition random (n : nat) : M unit (result string) := mret (inl "salt").

End Toy.
